(* ===== verification/_CoqProject ===== *)
-Q . S2P
Prelude.v
Gf256.v
Matrix.v
Erasure.v
JsString.v
Utf8.v
Bytes.v
Json.v
Security.v
Envelope.v
EnvelopeFacts.v
EnvelopeCorrect.v
DirectConfig.v
Frames.v
Messages.v
MessageFacts.v
Sdp.v
Transfer.v
SenderFacts.v
ReceiverFacts.v
TransferCorrect.v
Pacing.v
Sink.v
Peer.v
Failure.v
DirectLink.v
LinkFacts.v
SendSession.v
SendSessionFacts.v
ReceiveSession.v
ReceiveSessionFacts.v
Source.v
WakeLock.v
SendState.v
GetState.v
GetParts.v
Words.v
PageText.v
PairingPage.v
PairingFacts.v
SendPage.v
SendPageFacts.v
SendPairing.v
JsValue.v
Nostr.v
NostrFacts.v
Torrent.v
PageStorage.v
Swarm.v
SwarmFacts.v
Net.v
Blossom.v
BlossomFacts.v
GetPage.v
GetPageFacts.v
Pool.v
PoolFacts.v
ServicesHttp.v
ServicesFacts.v
Checkout.v
CheckoutFacts.v
StorageProof.v
Relay.v
RelayFacts.v
Discovery.v
DiscoveryFacts.v
StorageDirectory.v
MainState.v
MainPublish.v
MainSign.v
MainRetrieve.v
MainPage.v
MainFacts.v
MainServer.v
MainShown.v
MainRetrieveFacts.v
MainConsent.v
ServicesPanel.v
PanelFacts.v
ServicesPage.v
