(* ===== verification/Prelude.v ===== *)
(** * Wildbloom, verified

    Wildbloom is a browser application without a server of its own. A person
    publishes a file through three existing protocols (a Blossom server keeps the
    bytes, signed Nostr events name them, WebTorrent may deliver them), shares it
    with one recipient through a link and four spoken words, or sends it straight
    to another computer over WebRTC. This library translates the program's
    TypeScript ([src/src/]) into executable definitions and proves what the
    program promises of them. This first file holds the vocabulary the rest
    share; this comment is the map of the whole.

    ** How the program fits together

    - [core/] is the library under every page. A file is inspected
      ([core/blossom.ts]) and may be sealed in an encrypted envelope
      ([core/crypto.ts]); it is uploaded to one Blossom server, or to several as
      copies or Reed-Solomon parts ([core/pool.ts], [core/erasure.ts]); a torrent
      and a magnet link may be made of it ([core/torrent.ts], [core/swarm.ts]);
      signed events are built and read back ([core/nostr.ts]) and put on relays
      ([core/relay.ts]). Storage nodes are found ([core/discovery.ts],
      [core/storage-discovery.ts]), paid ([core/checkout.ts] over
      [core/services-http.ts]) and audited ([core/storage-proof.ts]). Names, sizes
      and addresses pass through [core/security.ts].
    - [direct/] is the direct send: messages over a pairing exchange
      ([direct/messages.ts]), two sessions that run them ([direct/session.ts]), a
      peer connection ([direct/peer.ts]), and the envelope's frames over its data
      channel ([direct/frames.ts], [direct/transfer.ts], [direct/pacing.ts],
      [direct/sink.ts]).
    - [get/] and [send/] are the recipient page and the sender page: a reducer
      ([state.ts]), the wording ([copy.ts]) and the handlers ([main.ts]).
    - [main.ts] is the publishing page over all of [core/]: one half prepares,
      uploads, signs, publishes and seeds a file, the other resolves a published
      one and fetches, repairs or downloads it. [services-ui.ts] is the panel
      beside it that finds storage nodes and buys from them; the page gives it its
      server, its profile and its key, and resets it when these change.

    ** Which file models what

    Shared ground. Prelude: results, integers, lists. JsString, Utf8, Bytes, Json,
    JsValue: what the source uses of the language (strings as lists of UTF-16 code
    units, [TextEncoder] and the fatal [TextDecoder], base64url and [DataView],
    [JSON.parse] with IEEE doubles, canonical JSON, [Number] and [String]). Net:
    computations over a world of servers, signers, clocks and signals, which logs
    every request and signature.

    [core/]. Gf256, Matrix, Erasure: [erasure.ts]. Security: [security.ts].
    Envelope, EnvelopeFacts, EnvelopeCorrect: [crypto.ts]. Nostr, NostrFacts:
    [nostr.ts]. Blossom, BlossomFacts: [blossom.ts]. Pool, PoolFacts: [pool.ts].
    Torrent: [torrent.ts]. PageStorage, Swarm, SwarmFacts: [swarm.ts].
    ServicesHttp, ServicesFacts: [services-http.ts]. Checkout, CheckoutFacts:
    [checkout.ts]. StorageProof: [storage-proof.ts]. Relay,
    RelayFacts: [relay.ts]. Discovery, DiscoveryFacts: [discovery.ts].
    StorageDirectory: [storage-discovery.ts].

    [direct/]. DirectConfig, Frames: [config.ts], [frames.ts]. Messages,
    MessageFacts, Sdp: [messages.ts]. Transfer, SenderFacts, ReceiverFacts,
    TransferCorrect: [transfer.ts]. Pacing: [pacing.ts]. Sink: [sink.ts] and the
    way of a file from encoder to sink. Peer: [peer.ts]. DirectLink, LinkFacts,
    SendSession, SendSessionFacts, ReceiveSession, ReceiveSessionFacts:
    [session.ts].

    [get/] and [send/]. Failure: [get/failure.ts]. Words: [get/words.ts]. GetParts:
    [get/link.ts], [get/reply.ts], [get/config.ts]. GetState, SendState: the
    reducers. PageText: the wording. Source, WakeLock: [send/source.ts],
    [send/wakelock.ts]. PairingPage, PairingFacts: what both [main.ts] files share.
    SendPage, SendPageFacts, SendPairing: [send/main.ts]. GetPage, GetPageFacts:
    [get/main.ts].

    The publishing page. MainState: the controls, the variables and the functions
    of [main.ts] that the handlers share. MainPublish, MainSign, MainRetrieve: the
    handlers, from a file to its upload; signing, publishing, seeding and what
    changes them; the retrieving half. MainPage: leaving the page, and one step
    per event. MainFacts, MainShown, MainRetrieveFacts, MainConsent: their proofs,
    over MainServer: what a step leaves alone, and the page and click that began
    each run that is still going ([traces]). ServicesPanel, PanelFacts:
    [services-ui.ts], the page's call of its one export, [reset], being an input
    ([PageResets]). ServicesPage: the page and its panel together.

    ** How state and effects are translated

    A function that can throw returns [res] (or a sum with its own error type). A
    function that asks servers or signers is a computation of Net.v. Code that
    waits for callbacks is a state machine: a record of the variables of its
    closure, with the place an [async] function stands at, and one definition per
    handler; everything the browser, the other end or a person may do is an event,
    in any order. So the transfer, the sessions, the link, the swarm, relays, the
    lock, the three pages and the panel are quantified over all interleavings. On
    the publishing page and its panel a handler is cut at its awaits: the record
    of a run holds what it read before, and the event that ends an await brings
    the world in which the awaited operation of another file is run. An abort signal
    that a pure function polls is the function [signal k]: has it fired when read
    for the [k]-th time.

    Code that is not in [src/] is a class of operations with, where it is relied
    on, a class of laws that state its documentation: [Unicode] (case folding and
    NFC), [Web] (URL parsing, SHA3), [Cipher] and [CipherLaws] (AES-GCM, HKDF,
    SHA-256), [NostrTools] and its laws, [Numbers], the torrent packages,
    [402-announce], and [Net] with [NetLaws]. Every theorem with such laws has a
    witness at a concrete instance. The pairing kit has no model: its calls are
    promises, and what they come to are inputs of the pages.

    ** What the theorems show

    - End to end: a file sent through encoder, sender, channel, receiver and sink
      is the file delivered ([Sink.delivered_file]); "sent" means kept, no false
      alarm, no stall (TransferCorrect.v); "Sent" on the screen means a session
      resolved for that file (SendPageFacts.v); a saved file was opened from the
      shared bytes (GetPageFacts.v); nothing of a session is left running.
    - Confirmation: a session is made only over the flow whose words a person said
      match (SendPairing.v), a file is offered only after the words (GetState.v).
    - Coding: any [required] parts give the file back, and encoding by stripes is
      the plain product with the generator (Erasure.v); opening inverts sealing, and only
      sealed bytes open (EnvelopeCorrect.v); messages, events and magnet links read
      back as they were written.
    - The publishing page: whatever a person does in whatever order, a link beside
      a retrieved file saves only verified bytes of the event that is shown
      (MainRetrieveFacts.v), and whatever it starts that others may see was agreed
      to at that moment and is what stood on the page at the click that began it
      (MainConsent.v). Its panel pays only an order whose terms were shown
      and agreed to, and an action that was superseded lands nowhere
      (PanelFacts.v); what it sells is of the server in the page's own field, for
      the key connected to the page (ServicesPage.v).
    - What strangers can do: the readers of messages, events, receipts, offers and
      manifests accept only what the writer makes or what was reviewed; requests
      carry only what was signed for them; relays and nodes cannot roll back or
      substitute; audits pass only over fetched and verified bytes.
    - Sessions keep the order of messages the protocol allows, settle, and close
      their channel; peers hide addresses when told to; a relayed send keeps to its
      rate; the watcher of the path terminates.
    - Swarm: only bytes of the signed hash come out, a client is destroyed before
      its promise rejects, and a torrent library that keeps to the methods of the
      storage leaves the origin's untouched (PageStorage.v).

    ** Where the program does less

    Some promises hold but for a case that the code leaves open; the theorem
    excepts the case and an example shows it. A name whose lone surrogates join
    when a disguising character is taken from between them is refused by its
    reader ([Source.rejoined_name_refused]). A restart that begins before the
    accept was handed over breaks the order of messages
    ([ReceiveSessionFacts.restart_before_accept]). A torrent client whose [add]
    throws is alive when its promise rejects ([SwarmFacts.add_throws_unclosed]).
    Named properties of the origin's storage are not guarded
    ([PageStorage.property_unguarded]). The reducer of the sender page lets a
    connection that could not be made follow the end of the file
    ([SendState.unconnected_after_end]). A magnet link may come out longer than
    readers take (NostrFacts.v states the bound), and a pairing call that resolves
    after its signal was aborted would still be shown (SendPairing.v, [polite]).

    ** Bounds and fuel

    Integers are [Z] with the code's own range checks; bytes are [Z] below 256, and
    the 32-bit fields of frames and headers wrap as [DataView] writes them.
    Loops that are not structural carry fuel computed from their input, and the
    theorem that they succeed is the proof that it is enough: the stripes of a
    payload ([encode_reference], [decode_any_parts]), the records of an envelope
    ([decrypt_encrypt]), the digits of a number ([decimal_fuel_spec]), and twice
    the length of a text for [JSON.parse] (Json.v). Doubles are
    [spec_float] where the code divides (PageText.v, Json.v); the clock and the
    bucket of Pacing.v are exact rationals.

    ** Not modelled

    - Of [main.ts] and [services-ui.ts]: what is only written (status lines, lists
      of facts, texts, focus, which panel is in sight, progress) and the routing
      between views; what a person reads of an order, an offer or an audit is kept
      as the value it is made from. [marketing.ts] is an illustration without
      state of the application.
    - The browser's own objects beyond what their promises and events come to:
      DOM construction, focus, [RTCPeerConnection]'s inside, streams' scheduling.
    - [direct/index.ts] (re-exports), declaration files, the build, and the
      scripts under [src/scripts/], which are tests and deployment tools.
    - The order engines give to integer-like names of an object, and the rounding
      of the pacing clock. *)

From Stdlib Require Export ZArith Lia.
From stdpp Require Export base numbers strings gmap list.

Open Scope Z_scope.

#[global] Arguments List.concat {A} l : rename.

(** ** Throwing code *)

(** A call either returns a value or throws [new Error(msg)]. *)
Inductive res (A : Type) : Type :=
  | Ok (a : A)
  | Throw (msg : string).
Arguments Ok {A} a.
Arguments Throw {A} msg%_string.

Definition rbind {A B} (m : res A) (k : A → res B) : res B :=
  match m with Ok a => k a | Throw e => Throw e end.

(** [guard c msg]: continue when [c] holds, [throw new Error(msg)] otherwise. *)
Definition guard (c : bool) (msg : string) : res unit :=
  if c then Ok tt else Throw msg.

Definition is_ok {A} (m : res A) : bool :=
  match m with Ok _ => true | Throw _ => false end.

Fixpoint rmap {A B} (f : A → res B) (l : list A) : res (list B) :=
  match l with
  | [] => Ok []
  | x :: l => rbind (f x) (λ y, rbind (rmap f l) (λ ys, Ok (y :: ys)))
  end.

Arguments guard c msg%_string.

Declare Scope wild_scope.
Delimit Scope wild_scope with wild.
Notation "'let!' x := m 'in' k" := (rbind m (λ x, k))
  (at level 10, x name, m at level 100, k at level 200) : wild_scope.
Notation "'let!' ' p := m 'in' k" := (rbind m (λ x, match x with p => k end))
  (at level 10, p strict pattern, m at level 100, k at level 200) : wild_scope.
Notation "'check' c 'else' msg ; k" := (rbind (guard c msg) (λ _, k))
  (at level 10, c at level 100, msg at level 100, k at level 200) : wild_scope.
Open Scope wild_scope.

Lemma rbind_ok {A B} (m : res A) (k : A → res B) b :
  rbind m k = Ok b ↔ ∃ a, m = Ok a ∧ k a = Ok b.
Proof. destruct m; naive_solver. Qed.

Lemma guard_ok c msg u : guard c msg = Ok u ↔ c = true.
Proof. destruct c, u; simpl; naive_solver. Qed.

Lemma rmap_ok_length {A B} (f : A → res B) l ys :
  rmap f l = Ok ys → length ys = length l.
Proof.
  revert ys; induction l as [|x l IH]; intros ys H; simpl in H.
  - by injection H as <-.
  - apply rbind_ok in H as (y & _ & H).
    apply rbind_ok in H as (ys' & H' & [= <-]). simpl. by rewrite (IH ys').
Qed.

Lemma rmap_ok_Forall2 {A B} (f : A → res B) l ys :
  rmap f l = Ok ys ↔ Forall2 (λ x y, f x = Ok y) l ys.
Proof.
  revert ys; induction l as [|x l IH]; intros ys; simpl.
  - split; [intros [= <-]; constructor | by inversion 1].
  - split.
    + intros H. apply rbind_ok in H as (y & Hy & H).
      apply rbind_ok in H as (ys' & H' & [= <-]). constructor; [done|]. by apply IH.
    + inversion 1 as [|? y ? ys' Hy Hys]; subst. rewrite Hy. simpl.
      apply IH in Hys. by rewrite Hys.
Qed.

Lemma rmap_ok_lookup {A B} (f : A → res B) l ys i x :
  rmap f l = Ok ys → l !! i = Some x → ∃ y, ys !! i = Some y ∧ f x = Ok y.
Proof.
  intros H Hx. apply rmap_ok_Forall2 in H.
  destruct (Forall2_lookup_l _ _ _ _ _ H Hx) as (y & ? & ?). eauto.
Qed.

Lemma Ok_inj {A} (x y : A) : Ok x = Ok y → x = y.
Proof. by injection 1. Qed.

(** Take a successful run of throwing code apart: every [let!] gives its value,
    every [check] the condition that held. *)
Ltac inv_ok1 :=
  match goal with
  | H : Ok ?x = Ok ?y |- _ => apply Ok_inj in H; try first [subst y | subst x]
  | H : Throw _ = Ok _ |- _ => discriminate H
  | H : Ok _ = Throw _ |- _ => discriminate H
  | H : rbind (guard ?c ?m) ?k = Ok _ |- _ =>
      apply rbind_ok in H as (? & ?%guard_ok & H); cbv beta in H
  | H : rbind ?m ?k = Ok _ |- _ =>
      let E := fresh "E" in apply rbind_ok in H as (? & E & H); cbv beta in H
  | H : guard _ _ = Ok _ |- _ => apply guard_ok in H
  end.
Ltac inv_ok := repeat inv_ok1.

(** Turn the boolean tests of the code into propositions. *)
Ltac bool_prop :=
  repeat match goal with
  | H : _ && _ = true |- _ => apply andb_true_iff in H as [? H]
  | H : _ || _ = false |- _ => apply orb_false_iff in H as [? H]
  | H : negb _ = true |- _ => apply negb_true_iff in H
  | H : negb _ = false |- _ => apply negb_false_iff in H
  | H : bool_decide _ = true |- _ => apply bool_decide_eq_true in H
  | H : bool_decide _ = false |- _ => apply bool_decide_eq_false in H
  | H : (_ <=? _) = true |- _ => apply Z.leb_le in H
  | H : (_ <=? _) = false |- _ => apply Z.leb_gt in H
  | H : (_ <? _) = true |- _ => apply Z.ltb_lt in H
  | H : (_ <? _) = false |- _ => apply Z.ltb_ge in H
  | H : (_ =? _) = true |- _ => apply Z.eqb_eq in H
  | H : (_ =? _) = false |- _ => apply Z.eqb_neq in H
  end.

(** Case on every [if] of the goal. *)
Ltac split_ifs :=
  repeat match goal with
  | |- context [if ?b then _ else _] => let E := fresh "E" in destruct b eqn:E
  end.

(** ** Record updates *)

(** [r <| f := v |>] is [{ ...r, f: v }]. A record type gives its eta
    expansion, from which the update of each field is read off. *)
Class Eta (R : Type) := eta : R → R.
Class Update {R E : Type} (proj : R → E) := update : E → R → R.
Arguments update {R E} proj {_} v r /.

Ltac build_update proj :=
  lazymatch type of proj with
  | ?R → ?E =>
      let i := constr:(_ : Eta R) in
      let v := fresh "v" in let r := fresh "r" in
      intros v r;
      let e := eval hnf in (i r) in
      lazymatch eval pattern (proj r) in e with
      | ?g _ => let t := eval cbv beta in (g v) in exact t
      end
  end.
#[export] Hint Extern 0 (Update ?proj) => build_update proj : typeclass_instances.

Notation "r <| proj := v |>" := (update proj v r)
  (at level 12, left associativity, format "r  <| proj  :=  v |>").

(** ** Numbers *)

Definition max_safe_integer : Z := 2 ^ 53 - 1.
Definition is_safe_integer (n : Z) : bool := (Z.abs n <=? max_safe_integer).

(** [Math.ceil(a / b)] on integers. *)
Definition ceil_div (a b : Z) : Z := (a + b - 1) / b.

Lemma ceil_div_spec a b : 0 < b → b * (ceil_div a b - 1) < a <= b * ceil_div a b.
Proof.
  intros Hb. unfold ceil_div.
  pose proof (Z.div_mod (a + b - 1) b ltac:(lia)).
  pose proof (Z.mod_pos_bound (a + b - 1) b Hb). nia.
Qed.

Lemma ceil_div_unique a b q : 0 < b → b * (q - 1) < a <= b * q → ceil_div a b = q.
Proof. intros Hb H. pose proof (ceil_div_spec a b Hb). nia. Qed.

Lemma ceil_div_mul a b : 0 < b → ceil_div (a * b) b = a.
Proof. intros Hb. apply ceil_div_unique; nia. Qed.

Lemma ceil_div_pos a b : 0 < b → 0 < a → 0 < ceil_div a b.
Proof. intros Hb Ha. pose proof (ceil_div_spec a b Hb). nia. Qed.

Lemma ceil_div_nonneg a b : 0 < b → 0 <= a → 0 <= ceil_div a b.
Proof. intros Hb Ha. pose proof (ceil_div_spec a b Hb). nia. Qed.

Lemma ceil_div_mono a a' b : 0 < b → a <= a' → ceil_div a b <= ceil_div a' b.
Proof. intros Hb Ha. apply Z.div_le_mono; lia. Qed.

(** ** Bytes and slices *)

(** A [Uint8Array] is the list of its bytes. *)
Abbreviation bytes := (list Z).
Definition byte_ok (b : Z) : Prop := 0 <= b < 256.
Definition bytes_ok (l : bytes) : Prop := Forall byte_ok l.

Definition zlen {A} (l : list A) : Z := Z.of_nat (length l).

(** [a.subarray(from, to)] and [blob.slice(from, to)] for [0 <= from], clamped
    to the end as both are. *)
Definition slice {A} (from to : Z) (l : list A) : list A :=
  take (Z.to_nat (to - from)) (drop (Z.to_nat from) l).

Lemma zlen_nonneg {A} (l : list A) : 0 <= zlen l.
Proof. unfold zlen. lia. Qed.

Lemma zlen_app {A} (l k : list A) : zlen (l ++ k) = zlen l + zlen k.
Proof. unfold zlen. rewrite length_app. lia. Qed.

Lemma zlen_cons {A} (x : A) l : zlen (x :: l) = zlen l + 1.
Proof. unfold zlen. simpl. lia. Qed.

Lemma zlen_single {A} (x : A) : zlen [x] = 1.
Proof. done. Qed.

Lemma zlen_nil {A} : zlen (@nil A) = 0.
Proof. done. Qed.

Lemma zlen_replicate {A} n (x : A) : zlen (replicate n x) = Z.of_nat n.
Proof. unfold zlen. by rewrite length_replicate. Qed.

Lemma zlen_map {A B} (f : A → B) l : zlen (map f l) = zlen l.
Proof. unfold zlen. by rewrite length_map. Qed.

Lemma zlen_slice {A} from to (l : list A) :
  0 <= from <= to → to <= zlen l → zlen (slice from to l) = to - from.
Proof. unfold zlen, slice. intros. rewrite length_take, length_drop. lia. Qed.

Lemma zlen_slice_min {A} from to (l : list A) :
  0 <= from → zlen (slice from to l) = Z.max 0 (Z.min to (zlen l) - from).
Proof. unfold zlen, slice. intros. rewrite length_take, length_drop. lia. Qed.

Lemma slice_full {A} to (l : list A) : zlen l <= to → slice 0 to l = l.
Proof. unfold zlen, slice. intros. apply take_ge. simpl. lia. Qed.

Lemma slice_ge {A} from to (l : list A) : zlen l <= from → slice from to l = [].
Proof. unfold zlen, slice. intros. rewrite drop_ge by lia. apply take_nil. Qed.

Lemma slice_empty {A} from to (l : list A) : to <= from → slice from to l = [].
Proof. unfold slice. intros. by replace (Z.to_nat (to - from)) with 0%nat by lia. Qed.

Lemma slice_app {A} from mid to (l : list A) :
  0 <= from <= mid → mid <= to → slice from mid l ++ slice mid to l = slice from to l.
Proof.
  unfold slice. intros.
  replace (Z.to_nat (to - from)) with (Z.to_nat (mid - from) + Z.to_nat (to - mid))%nat by lia.
  rewrite <- take_take_drop, drop_drop. do 3 f_equal. lia.
Qed.

Lemma slice_slice {A} a b c d (l : list A) :
  0 <= a → 0 <= c → c <= d → a + d <= b → slice c d (slice a b l) = slice (a + c) (a + d) l.
Proof.
  unfold slice. intros.
  rewrite skipn_firstn_comm, take_take, drop_drop. f_equal; [lia|]. f_equal. lia.
Qed.

Lemma slice_app_l {A} from to (l k : list A) :
  0 <= from → to <= zlen l → slice from to (l ++ k) = slice from to l.
Proof.
  unfold zlen, slice. intros.
  destruct (decide (Z.to_nat from <= length l)%nat).
  - rewrite drop_app_le by lia. rewrite take_app_le; [done|]. rewrite length_drop. lia.
  - replace (Z.to_nat (to - from)) with 0%nat by lia. done.
Qed.

Lemma slice_app_r {A} from to (l k : list A) :
  zlen l <= from → slice from to (l ++ k) = slice (from - zlen l) (to - zlen l) k.
Proof.
  unfold zlen, slice. intros. rewrite drop_app_ge by lia. f_equal; [lia|]. f_equal. lia.
Qed.

Lemma lookup_slice {A} from to (l : list A) (i : nat) :
  0 <= from → (Z.of_nat i < to - from) → slice from to l !! i = l !! (Z.to_nat from + i)%nat.
Proof. unfold slice. intros. rewrite lookup_take_lt by lia. by rewrite lookup_drop. Qed.

Lemma list_ext_nth (l l' : list Z) : length l = length l' →
  (∀ i, (i < length l)%nat → nth i l 0 = nth i l' 0) → l = l'.
Proof.
  intros Hl H. apply list_eq_same_length with (n := length l); [done..|].
  intros i x y Hi Hx Hy. specialize (H i Hi). by rewrite !nth_lookup, Hx, Hy in H.
Qed.

Lemma nth_replicate_0 n i : nth i (replicate n 0) 0 = 0.
Proof. revert i; induction n; intros [|i]; simpl; auto. Qed.

Lemma nth_slice from to (l : list Z) (p : nat) : 0 <= from → Z.of_nat p < to - from →
  nth p (slice from to l) 0 = nth (Z.to_nat from + p) l 0.
Proof. intros. by rewrite !nth_lookup, lookup_slice. Qed.

Lemma slice_app_split {A} a b (l k : list A) : 0 <= a →
  slice a b (l ++ k) = slice a (Z.min b (zlen l)) l ++ slice (Z.max 0 (a - zlen l)) (b - zlen l) k.
Proof.
  unfold zlen, slice. intros Ha. destruct (decide (a <= Z.of_nat (length l))).
  - rewrite drop_app_le by lia. replace (Z.to_nat (Z.max 0 (a - Z.of_nat (length l)))) with 0%nat by lia.
    destruct (decide (b <= Z.of_nat (length l))).
    + rewrite take_app_le by (rewrite length_drop; lia). rewrite Z.min_l by lia.
      replace (Z.to_nat (b - Z.of_nat (length l) - Z.max 0 (a - Z.of_nat (length l)))) with 0%nat by lia. by rewrite app_nil_r.
    + rewrite take_app_ge by (rewrite length_drop; lia). rewrite Z.min_r by lia. rewrite length_drop, drop_0.
      f_equal; [by rewrite take_ge by (rewrite length_drop; lia)|]. f_equal. lia.
  - rewrite drop_app_ge by lia. rewrite (drop_ge l) by lia. rewrite take_nil. simpl. f_equal; [lia|]. f_equal. lia.
Qed.

Lemma bytes_ok_slice from to l : bytes_ok l → bytes_ok (slice from to l).
Proof. unfold bytes_ok, slice. intros. by apply Forall_take, Forall_drop. Qed.

Lemma bytes_ok_app l k : bytes_ok (l ++ k) ↔ bytes_ok l ∧ bytes_ok k.
Proof. apply Forall_app. Qed.

Lemma Forall_forallb {A} (p : A → bool) (P : A → Prop) l :
  (∀ x, p x = true → P x) → forallb p l = true → Forall P l.
Proof.
  intros HP H. induction l; simpl in H; constructor;
    apply andb_true_iff in H as [? ?]; auto.
Qed.

(** ** Order-preserving deduplication: [[...new Set(xs)]] *)

Section Uniq.
Context {A : Type} `{EqDecision A}.

Fixpoint uniq_from (seen : list A) (l : list A) : list A :=
  match l with
  | [] => []
  | x :: l => if decide (x ∈ seen) then uniq_from seen l else x :: uniq_from (x :: seen) l
  end.
Definition uniq (l : list A) : list A := uniq_from [] l.

Lemma elem_of_uniq_from seen l x : x ∈ uniq_from seen l ↔ x ∈ l ∧ x ∉ seen.
Proof.
  revert seen; induction l as [|y l IH]; intros seen; simpl; [set_solver|].
  case_decide; [rewrite IH; set_solver|].
  rewrite elem_of_cons, IH. destruct (decide (x = y)); set_solver.
Qed.

Lemma elem_of_uniq l x : x ∈ uniq l ↔ x ∈ l.
Proof. unfold uniq. rewrite elem_of_uniq_from. set_solver. Qed.

Lemma NoDup_uniq_from seen l : NoDup (uniq_from seen l).
Proof.
  revert seen; induction l as [|y l IH]; intros seen; simpl; [constructor|].
  case_decide; [done|]. constructor; [|done]. rewrite elem_of_uniq_from. set_solver.
Qed.

Lemma NoDup_uniq l : NoDup (uniq l).
Proof. apply NoDup_uniq_from. Qed.

Lemma uniq_from_id seen l : NoDup l → (∀ x, x ∈ l → x ∉ seen) → uniq_from seen l = l.
Proof.
  revert seen; induction l as [|y l IH]; intros seen Hnd Hs; [done|]. simpl.
  apply NoDup_cons in Hnd as [Hy Hnd].
  rewrite decide_False by (apply Hs; set_solver). f_equal. apply IH; [done|]. set_solver.
Qed.

Lemma uniq_id l : NoDup l → uniq l = l.
Proof. intros. apply uniq_from_id; set_solver. Qed.

Lemma length_uniq_from seen l : (length (uniq_from seen l) <= length l)%nat.
Proof. revert seen; induction l; intros; simpl; [lia|]. case_decide; simpl; [rewrite IHl; lia|]. specialize (IHl (a :: seen)). lia. Qed.

(** The test the code writes: as many distinct elements as elements. *)
Lemma uniq_length_NoDup l : length (uniq l) = length l → NoDup l.
Proof.
  unfold uniq. enough (∀ seen, length (uniq_from seen l) = length l → NoDup l ∧ ∀ x, x ∈ l → x ∉ seen) as H.
  { intros E. by apply (H []). }
  induction l as [|y l IH]; intros seen E; simpl in *; [split; [constructor|set_solver]|].
  case_decide as Hy; simpl in *.
  - pose proof (length_uniq_from seen l). lia.
  - destruct (IH (y :: seen)) as [H1 H2]; [lia|]. split.
    + constructor; [|done]. intros Hin. by apply (H2 y Hin), elem_of_cons; left.
    + set_solver.
Qed.
End Uniq.

(** ** Hints *)

Create HintDb wild discriminated.
#[export] Hint Resolve zlen_nonneg bytes_ok_slice : wild.
#[export] Hint Rewrite @zlen_app @zlen_cons @zlen_nil @zlen_replicate @zlen_map : zlen.

Ltac zl := autorewrite with zlen in *; try lia.
