(* ===== verification/Gf256.v ===== *)
(** * GF(256), primitive polynomial 0x11d ([src/core/erasure.ts])

    The exponent and logarithm tables as the module builds them, the product
    table and the inverse, and the field laws the Reed-Solomon code relies on:
    every product is an iterated multiplication by the generator 2, which is
    linear over exclusive or. *)

From Stdlib Require Import Btauto.
From S2P Require Import Prelude.

(** ** Tables *)

(** [value <<= 1; if (value & 256) value ^= 0x11d]. *)
Definition xtime (value : Z) : Z :=
  let value := Z.shiftl value 1 in
  if Z.land value 256 =? 0 then value else Z.lxor value 285.

(** The first loop: [n] rounds left, round [i], writing [EXP[i]] and [LOG[value]]. *)
Fixpoint fill_tables (n i : nat) (value : Z) (exp log : list Z) : list Z * list Z :=
  match n with
  | O => (exp, log)
  | S n => fill_tables n (S i) (xtime value)
             (<[i := value]> exp) (<[Z.to_nat value := Z.of_nat i]> log)
  end.

(** The second loop: [EXP[i] = EXP[i - 255]] for [255 <= i < 510]. *)
Fixpoint extend_exp (n i : nat) (exp : list Z) : list Z :=
  match n with
  | O => exp
  | S n => extend_exp n (S i) (<[i := nth (i - 255) exp 0]> exp)
  end.

Definition tables : list Z * list Z :=
  fill_tables 255 0 1 (replicate 510 0) (replicate 256 0).
Definition EXP : list Z := Eval vm_compute in extend_exp 255 255 tables.1.
Definition LOG : list Z := Eval vm_compute in tables.2.

(** One entry of the product table; entries with a zero factor keep the zero
    they were allocated with. *)
Definition MUL (index : Z) : Z :=
  let a := index / 256 in
  let b := index mod 256 in
  if (1 <=? a) && (1 <=? b)
  then nth (Z.to_nat (nth (Z.to_nat a) LOG 0 + nth (Z.to_nat b) LOG 0)) EXP 0
  else 0.

Definition mul (a b : Z) : Z := MUL (a * 256 + b).
Definition inverse (a : Z) : Z := nth (Z.to_nat (255 - nth (Z.to_nat a) LOG 0)) EXP 0.

(** Equations between exclusive ors, bit by bit. *)
Ltac lxor_ring :=
  apply Z.bits_inj'; intros ? _; rewrite ?Z.lxor_spec, ?Z.bits_0; btauto.

(** ** Multiplication by the generator *)

Lemma byte_lxor a b : byte_ok a → byte_ok b → byte_ok (Z.lxor a b).
Proof.
  unfold byte_ok. intros [Ha Ha'] [Hb Hb']. split; [by apply Z.lxor_nonneg|].
  destruct (decide (Z.lxor a b <= 0)); [lia|].
  pose proof (Z.log2_lxor a b Ha Hb).
  assert (Z.log2 a < 8) by (destruct (decide (a = 0)); [subst; simpl; lia | apply Z.log2_lt_pow2; simpl; lia]).
  assert (Z.log2 b < 8) by (destruct (decide (b = 0)); [subst; simpl; lia | apply Z.log2_lt_pow2; simpl; lia]).
  change 256 with (2 ^ 8). apply Z.log2_lt_pow2; lia.
Qed.

(** A property of all bytes, checked byte by byte. *)
Definition all_bytes (p : Z → bool) : bool := forallb p (map Z.of_nat (seq 0 256)).

Lemma all_bytes_spec p : all_bytes p = true → ∀ b, byte_ok b → p b = true.
Proof.
  unfold all_bytes. intros H b Hb. rewrite forallb_forall in H. apply H.
  apply in_map_iff. exists (Z.to_nat b). unfold byte_ok in Hb. rewrite in_seq. lia.
Qed.

Definition pow2 (n : nat) (x : Z) : Z := Nat.iter n xtime x.

Lemma pow2_add n m x : pow2 (n + m) x = pow2 n (pow2 m x).
Proof. induction n; simpl; unfold pow2 in *; simpl; congruence. Qed.

Lemma pow2_comm n m x : pow2 n (pow2 m x) = pow2 m (pow2 n x).
Proof. rewrite <- !pow2_add. f_equal. lia. Qed.

Lemma land_256 v : (Z.land v 256 =? 0) = negb (Z.testbit v 8).
Proof.
  destruct (Z.testbit v 8) eqn:E; simpl.
  - apply Z.eqb_neq. intros H. assert (Z.testbit (Z.land v 256) 8 = false) as H' by by rewrite H.
    rewrite Z.land_spec, E in H'. discriminate.
  - apply Z.eqb_eq, Z.bits_inj'. intros i Hi. rewrite Z.land_spec, Z.bits_0.
    change 256 with (2 ^ 8). rewrite Z.pow2_bits_eqb by lia.
    destruct (8 =? i) eqn:Ei; [apply Z.eqb_eq in Ei; subst; by rewrite E | apply andb_false_r].
Qed.

Lemma xtime_lxor a b : xtime (Z.lxor a b) = Z.lxor (xtime a) (xtime b).
Proof.
  unfold xtime. rewrite !land_256, Z.shiftl_lxor, Z.lxor_spec.
  destruct (Z.testbit (Z.shiftl a 1) 8), (Z.testbit (Z.shiftl b 1) 8); simpl; try done.
  - rewrite Z.lxor_assoc, <- (Z.lxor_assoc 285), (Z.lxor_comm 285), !Z.lxor_assoc.
    by rewrite Z.lxor_nilpotent, Z.lxor_0_r.
  - rewrite !Z.lxor_assoc. f_equal. apply Z.lxor_comm.
  - by rewrite Z.lxor_assoc.
Qed.

Lemma pow2_lxor n a b : pow2 n (Z.lxor a b) = Z.lxor (pow2 n a) (pow2 n b).
Proof. induction n; [done|]. unfold pow2 in *. simpl. by rewrite IHn, xtime_lxor. Qed.

Lemma pow2_0 n : pow2 n 0 = 0.
Proof. induction n; [done|]. unfold pow2 in *. simpl. by rewrite IHn. Qed.

(** ** What the tables hold *)

Lemma EXP_pow2 i : (i < 510)%nat → nth i EXP 0 = pow2 i 1.
Proof.
  intros Hi.
  assert (forallb (λ i, nth i EXP 0 =? pow2 i 1) (seq 0 510) = true) as H by by vm_compute.
  rewrite forallb_forall in H. apply Z.eqb_eq, H, in_seq. lia.
Qed.

Lemma EXP_byte i : byte_ok (nth i EXP 0).
Proof.
  assert (Forall byte_ok EXP) as H.
  { apply (Forall_forallb (λ b, (0 <=? b) && (b <? 256))); [|by vm_compute].
    intros b Hb. unfold byte_ok. bool_prop. lia. }
  destruct (decide (i < length EXP)%nat) as [Hl|Hl].
  - rewrite Forall_forall in H. apply H. apply list_elem_of_In, nth_In. lia.
  - rewrite nth_overflow by lia. unfold byte_ok. lia.
Qed.

Lemma LOG_spec a : byte_ok a → a ≠ 0 →
  ∃ n, nth (Z.to_nat a) LOG 0 = Z.of_nat n ∧ (n < 255)%nat ∧ pow2 n 1 = a.
Proof.
  intros Hb Ha.
  assert (all_bytes (λ a, (a =? 0) || let l := nth (Z.to_nat a) LOG 0 in
    (0 <=? l) && (l <? 255) && (pow2 (Z.to_nat l) 1 =? a)) = true) as H by by vm_compute.
  apply all_bytes_spec with (b := a) in H; [|done].
  apply orb_true_iff in H as [H|H]; bool_prop; [lia|].
  exists (Z.to_nat (nth (Z.to_nat a) LOG 0)). cbv zeta in H. bool_prop. split_and!; lia.
Qed.

Lemma pow2_byte n b : byte_ok b → byte_ok (pow2 n b).
Proof.
  intros Hb. induction n as [|n IH]; [done|].
  assert (all_bytes (λ b, (0 <=? xtime b) && (xtime b <? 256)) = true) as H by by vm_compute.
  apply all_bytes_spec with (b := pow2 n b) in H; [|done].
  change (pow2 (S n) b) with (xtime (pow2 n b)). unfold byte_ok. bool_prop. lia.
Qed.

(** ** Products *)

Lemma mul_index a b : byte_ok a → byte_ok b →
  mul a b = if (1 <=? a) && (1 <=? b)
            then nth (Z.to_nat (nth (Z.to_nat a) LOG 0 + nth (Z.to_nat b) LOG 0)) EXP 0 else 0.
Proof.
  unfold byte_ok. intros Ha Hb. unfold mul, MUL.
  replace ((a * 256 + b) / 256) with a by (apply (Z.div_unique _ _ _ b); lia).
  replace ((a * 256 + b) mod 256) with b by (apply (Z.mod_unique _ _ a); lia). done.
Qed.

Lemma mul_0_l b : byte_ok b → mul 0 b = 0.
Proof. intros. rewrite mul_index; unfold byte_ok in *; [done|lia|done]. Qed.

(** A product by [a <> 0] is the generator applied [LOG a] times. *)
Lemma mul_pow2 a : byte_ok a → a ≠ 0 →
  ∃ n, (n < 255)%nat ∧ pow2 n 1 = a ∧ ∀ b, byte_ok b → mul a b = pow2 n b.
Proof.
  intros Ha Ha0. destruct (LOG_spec a Ha Ha0) as (n & Hl & Hn & Hp).
  exists n. split_and!; [done..|]. intros b Hb. rewrite mul_index by done.
  destruct (decide (b = 0)) as [->|Hb0].
  - rewrite andb_false_r. by rewrite pow2_0.
  - destruct (LOG_spec b Hb Hb0) as (m & Hl' & Hm & Hp').
    unfold byte_ok in *. rewrite !(proj2 (Z.leb_le 1 _)) by lia. cbn [andb].
    rewrite Hl, Hl'. replace (Z.to_nat (Z.of_nat n + Z.of_nat m)) with (n + m)%nat by lia.
    rewrite EXP_pow2 by lia. by rewrite pow2_add, Hp'.
Qed.

Lemma mul_byte a b : byte_ok a → byte_ok b → byte_ok (mul a b).
Proof.
  intros Ha Hb. destruct (decide (a = 0)) as [->|H].
  - rewrite mul_0_l by done. unfold byte_ok. lia.
  - destruct (mul_pow2 a Ha H) as (n & _ & _ & Hn). rewrite Hn by done. by apply pow2_byte.
Qed.

Lemma mul_comm a b : byte_ok a → byte_ok b → mul a b = mul b a.
Proof.
  intros. rewrite !mul_index by done. rewrite andb_comm.
  by rewrite (Z.add_comm (nth (Z.to_nat a) LOG 0)).
Qed.

Lemma mul_0_r a : byte_ok a → mul a 0 = 0.
Proof. intros. rewrite mul_comm by (unfold byte_ok in *; lia). by apply mul_0_l. Qed.

Lemma mul_lxor_r a b c : byte_ok a → byte_ok b → byte_ok c →
  mul a (Z.lxor b c) = Z.lxor (mul a b) (mul a c).
Proof.
  intros Ha Hb Hc. destruct (decide (a = 0)) as [->|H].
  - rewrite !mul_0_l by auto using byte_lxor. done.
  - destruct (mul_pow2 a Ha H) as (n & _ & _ & Hn). rewrite !Hn by auto using byte_lxor.
    apply pow2_lxor.
Qed.

Lemma mul_lxor_l a b c : byte_ok a → byte_ok b → byte_ok c →
  mul (Z.lxor a b) c = Z.lxor (mul a c) (mul b c).
Proof.
  intros. rewrite mul_comm by auto using byte_lxor.
  rewrite mul_lxor_r by done. f_equal; by apply mul_comm.
Qed.

Lemma pow2_mul n b : byte_ok b → pow2 n b = mul (pow2 n 1) b.
Proof.
  intros Hb. destruct (decide (b = 0)) as [->|Hb0].
  - rewrite pow2_0, mul_0_r; [done|]. apply pow2_byte. unfold byte_ok; lia.
  - destruct (mul_pow2 b Hb Hb0) as (m & _ & <- & Hm).
    rewrite mul_comm by (try done; apply pow2_byte; unfold byte_ok; lia).
    rewrite Hm by (apply pow2_byte; unfold byte_ok; lia). apply pow2_comm.
Qed.

Lemma mul_assoc a b c : byte_ok a → byte_ok b → byte_ok c →
  mul a (mul b c) = mul (mul a b) c.
Proof.
  intros Ha Hb Hc. destruct (decide (a = 0)) as [->|H].
  - rewrite !mul_0_l by auto using mul_byte. done.
  - destruct (mul_pow2 a Ha H) as (n & _ & <- & Hn). rewrite !Hn by auto using mul_byte.
    destruct (decide (b = 0)) as [->|Hb0].
    + rewrite pow2_0, mul_0_l by done. apply pow2_0.
    + destruct (mul_pow2 b Hb Hb0) as (m & _ & <- & Hm). rewrite !Hm by done.
      rewrite <- !pow2_add. by rewrite (pow2_mul (n + m)).
Qed.

Lemma mul_1_l b : byte_ok b → mul 1 b = b.
Proof. intros Hb. symmetry. by apply (pow2_mul 0 b). Qed.

Lemma mul_1_r b : byte_ok b → mul b 1 = b.
Proof. intros Hb. rewrite mul_comm by (unfold byte_ok in *; lia). by apply mul_1_l. Qed.

Lemma inverse_byte a : byte_ok (inverse a).
Proof. apply EXP_byte. Qed.

Lemma mul_inverse a : byte_ok a → a ≠ 0 → mul a (inverse a) = 1.
Proof.
  intros Ha H0. destruct (LOG_spec a Ha H0) as (n & Hl & Hn & Hp).
  unfold inverse. rewrite Hl.
  replace (Z.to_nat (255 - Z.of_nat n)) with (255 - n)%nat by lia.
  rewrite EXP_pow2 by lia. rewrite <- Hp, <- pow2_mul, <- pow2_add by (apply pow2_byte; unfold byte_ok; lia).
  replace (n + (255 - n))%nat with 255%nat by lia. by vm_compute.
Qed.

(** No zero divisors. *)
Lemma mul_eq_0 a b : byte_ok a → byte_ok b → mul a b = 0 → a = 0 ∨ b = 0.
Proof.
  intros Ha Hb H. destruct (decide (a = 0)) as [|Ha0]; [by left|right].
  rewrite <- (mul_1_l b Hb), <- (mul_inverse a Ha Ha0), (mul_comm a) by auto using inverse_byte.
  rewrite <- mul_assoc, H by auto using inverse_byte. apply mul_0_r, inverse_byte.
Qed.

Lemma byte_0 : byte_ok 0. Proof. unfold byte_ok; lia. Qed.
Lemma byte_1 : byte_ok 1. Proof. unfold byte_ok; lia. Qed.

Create HintDb gf discriminated.
#[export] Hint Resolve byte_lxor mul_byte inverse_byte byte_0 byte_1 : gf.
