(* ===== verification/Matrix.v ===== *)
(** * Matrices over GF(256) ([invert] of [src/core/erasure.ts])

    Gauss-Jordan elimination as the module runs it, on the matrix augmented with
    the identity. The proofs rest on one invariant: no row operation changes the
    kernel of the augmented matrix. *)

From S2P Require Import Prelude Gf256.

(** ** The code *)

Abbreviation matrix := (list (list Z)).

(** [Array.from({ length: size }, (_, c) => Number(r === c))]. *)
Definition identity_row (size r : nat) : list Z :=
  map (λ c, if decide (r = c) then 1 else 0) (seq 0 size).

Definition augment (m : matrix) : matrix :=
  imap (λ r row, row ++ identity_row (length m) r) m.

(** [work.findIndex((row, r) => r >= col && row[col] !== 0)], rows from index [r] on. *)
Fixpoint find_pivot (col r : nat) (work : matrix) : option nat :=
  match work with
  | [] => None
  | row :: work =>
      if bool_decide (col ≤ r)%nat && negb (nth col row 0 =? 0) then Some r
      else find_pivot col (S r) work
  end.

(** [[work[col], work[pivot]] = [work[pivot], work[col]]]. *)
Definition swap_rows (col pivot : nat) (work : matrix) : matrix :=
  <[pivot := nth col work []]> (<[col := nth pivot work []]> work).

(** Scale the pivot row so its entry in [col] is 1. *)
Definition scale_pivot (col : nat) (work : matrix) : matrix :=
  let row := nth col work [] in
  <[col := map (λ x, mul x (inverse (nth col row 0))) row]> work.

(** Clear [col] from every other row. *)
Definition clear_column (col : nat) (work : matrix) : matrix :=
  let row := nth col work [] in
  imap (λ r w, if decide (r = col) then w
               else zip_with (λ x y, Z.lxor x (mul (nth col w 0) y)) w row) work.

Fixpoint invert_from (n col : nat) (work : matrix) : res matrix :=
  match n with
  | O => Ok work
  | S n =>
      match find_pivot col 0 work with
      | None => Throw "Parts do not form an invertible coding matrix."
      | Some pivot =>
          invert_from n (S col) (clear_column col (scale_pivot col (swap_rows col pivot work)))
      end
  end.

Definition invert (m : matrix) : res matrix :=
  let! work := invert_from (length m) 0 (augment m) in
  Ok (map (drop (length m)) work).

(** ** Vectors and kernels *)

(** [row.reduce((sum, value, i) => sum ^ mul(value, x[i]), 0)]. *)
Definition dot (row x : list Z) : Z := foldl Z.lxor 0 (zip_with mul row x).
Definition apply_matrix (m : matrix) (x : list Z) : list Z := map (λ row, dot row x) m.

Definition vec (n : nat) (x : list Z) : Prop := length x = n ∧ bytes_ok x.
Definition mat (k n : nat) (m : matrix) : Prop := length m = k ∧ Forall (vec n) m.

(** [y] is orthogonal to every row. *)
Definition kernel (m : matrix) (y : list Z) : Prop := Forall (λ row, dot row y = 0) m.

(** Only the zero vector is mapped to zero. *)
Definition injective (n : nat) (m : matrix) : Prop :=
  ∀ x, vec n x → kernel m x → x = replicate n 0.

Lemma foldl_lxor l a : foldl Z.lxor a l = Z.lxor a (foldl Z.lxor 0 l).
Proof.
  revert a; induction l as [|x l IH]; intros a; simpl; [by rewrite Z.lxor_0_r|].
  rewrite IH, (IH (Z.lxor 0 x)), Z.lxor_0_l. apply Z.lxor_assoc.
Qed.

Lemma dot_cons a row b x : dot (a :: row) (b :: x) = Z.lxor (mul a b) (dot row x).
Proof. unfold dot. simpl. by rewrite foldl_lxor, Z.lxor_0_l. Qed.

Lemma dot_nil_r row : dot row [] = 0.
Proof. unfold dot. by destruct row. Qed.

Lemma vec_cons n a x : vec n (a :: x) ↔ byte_ok a ∧ ∃ m, n = S m ∧ vec m x.
Proof.
  unfold vec, bytes_ok. rewrite Forall_cons. simpl. split.
  - intros (<- & ? & ?). eauto.
  - intros (? & m & -> & <- & ?). auto.
Qed.

Lemma vec_app n m x y : vec n x → vec m y → vec (n + m) (x ++ y).
Proof. intros [<- ?] [<- ?]. split; [apply length_app | by apply bytes_ok_app]. Qed.

Lemma vec_replicate n : vec n (replicate n 0).
Proof. split; [apply length_replicate | apply Forall_replicate, byte_0]. Qed.

Lemma dot_byte row x : bytes_ok row → bytes_ok x → byte_ok (dot row x).
Proof.
  intros Hr; revert x; induction Hr; intros x' Hx; [apply byte_0|].
  destruct Hx; [rewrite dot_nil_r; apply byte_0|]. rewrite dot_cons. auto with gf.
Qed.

Lemma dot_app r1 r2 x1 x2 :
  length r1 = length x1 → dot (r1 ++ r2) (x1 ++ x2) = Z.lxor (dot r1 x1) (dot r2 x2).
Proof.
  intros. unfold dot. rewrite zip_with_app, foldl_app by done. apply foldl_lxor.
Qed.

Lemma dot_replicate_r row n : bytes_ok row → dot row (replicate n 0) = 0.
Proof.
  intros H; revert n; induction H as [|a row Ha H IH]; intros [|n]; simpl; [done..|].
  rewrite dot_cons, IH, mul_0_r by done. done.
Qed.

Lemma dot_replicate_l n x : bytes_ok x → dot (replicate n 0) x = 0.
Proof.
  intros H; revert n; induction H as [|a x Ha H IH]; intros [|n]; simpl; [done..|].
  rewrite dot_cons, IH, mul_0_l by done. done.
Qed.

Lemma dot_zeros row x : Forall (λ a, a = 0) row → bytes_ok x → dot row x = 0.
Proof.
  intros H Hx. replace row with (replicate (length row) 0); [by apply dot_replicate_l|].
  clear Hx. induction H; simpl; [done|]. by f_equal.
Qed.

Lemma dot_scale s row x : byte_ok s → bytes_ok row → bytes_ok x →
  dot (map (λ a, mul a s) row) x = mul s (dot row x).
Proof.
  intros Hs Hr; revert x; induction Hr as [|a row Ha Hr IH]; intros x Hx; simpl.
  - change (dot [] x) with 0. by rewrite mul_0_r.
  - destruct Hx as [|b x Hb Hx]; [rewrite !dot_nil_r, mul_0_r; done|].
    rewrite !dot_cons, IH, mul_lxor_r by (auto using dot_byte with gf).
    f_equal. rewrite (mul_comm a s), mul_assoc; auto.
Qed.

Lemma dot_add_row f w row x : byte_ok f → bytes_ok w → bytes_ok row → bytes_ok x →
  length w = length row →
  dot (zip_with (λ a b, Z.lxor a (mul f b)) w row) x = Z.lxor (dot w x) (mul f (dot row x)).
Proof.
  intros Hf Hw; revert row x; induction Hw as [|a w Ha Hw IH]; intros row x Hr Hx Hl.
  - destruct row; [|done]. simpl. change (dot [] x) with 0. by rewrite mul_0_r.
  - destruct Hr as [|b row Hb Hr]; [done|]. simpl. injection Hl as Hl.
    destruct Hx as [|c x Hc Hx]; [rewrite !dot_nil_r, mul_0_r; done|].
    rewrite !dot_cons, IH by done.
    rewrite mul_lxor_l, (mul_lxor_r f), (mul_assoc f) by (auto using dot_byte with gf).
    rewrite !Z.lxor_assoc. f_equal. rewrite <- !Z.lxor_assoc. f_equal. apply Z.lxor_comm.
Qed.

Lemma dot_lxor_r row x y : bytes_ok row → bytes_ok x → bytes_ok y → length x = length y →
  dot row (zip_with Z.lxor x y) = Z.lxor (dot row x) (dot row y).
Proof.
  intros Hr; revert x y; induction Hr as [|a row Ha Hr IH]; intros x y Hx Hy Hl; [done|].
  destruct Hx as [|b x Hb Hx], Hy as [|c y Hc Hy]; try done.
  simpl. injection Hl as Hl. rewrite !dot_cons, IH, mul_lxor_r by done.
  rewrite !Z.lxor_assoc. f_equal. rewrite <- !Z.lxor_assoc. f_equal. apply Z.lxor_comm.
Qed.

(** ** Identity rows *)

Lemma identity_row_S n r : identity_row (S n) r =
  (if decide (r = 0%nat) then 1 else 0) ::
  match r with O => replicate n 0 | S r => identity_row n r end.
Proof.
  unfold identity_row. simpl. f_equal.
  rewrite <- seq_shift, map_map. destruct r as [|r].
  - apply list_eq. intros i. rewrite list_lookup_fmap.
    destruct (decide (i < n)%nat) as [H|H].
    + rewrite lookup_seq_lt, lookup_replicate_2 by done. done.
    + rewrite !lookup_ge_None_2 by (rewrite ?length_seq, ?length_replicate; lia). done.
  - apply map_ext. intros c. by repeat case_decide; try lia.
Qed.

Lemma identity_row_vec n r : vec n (identity_row n r).
Proof.
  split; [unfold identity_row; by rewrite length_map, length_seq|].
  unfold bytes_ok, identity_row. apply Forall_map, Forall_true. intros c. by case_decide; auto with gf.
Qed.

Lemma nth_identity_row n r c : (c < n)%nat → nth c (identity_row n r) 0 = if decide (r = c) then 1 else 0.
Proof.
  intros Hc. unfold identity_row.
  rewrite nth_indep with (d' := (λ c, if decide (r = c) then 1 else 0) 0%nat)
    by (rewrite length_map, length_seq; done).
  rewrite (map_nth (λ c, if decide (r = c) then 1 else 0)), seq_nth by done. done.
Qed.

Lemma dot_identity_row n r x : vec n x → (r < n)%nat → dot (identity_row n r) x = nth r x 0.
Proof.
  revert r x; induction n as [|n IH]; intros r x Hx Hr; [lia|].
  destruct x as [|a x]; [by destruct Hx|].
  apply vec_cons in Hx as (Ha & m & [= <-] & Hx).
  rewrite identity_row_S, dot_cons. destruct r as [|r]; simpl.
  - rewrite mul_1_l, dot_replicate_l by (done || apply Hx). apply Z.lxor_0_r.
  - rewrite mul_0_l, IH by (done || lia). done.
Qed.

(** ** Reading the row operations *)

Lemma nth_insert_eq {A} (l : list A) i x d : (i < length l)%nat → nth i (<[i:=x]> l) d = x.
Proof. intros. rewrite nth_lookup, list_lookup_insert_eq by done. done. Qed.

Lemma nth_insert_ne {A} (l : list A) i j x d : i ≠ j → nth j (<[i:=x]> l) d = nth j l d.
Proof. intros. by rewrite !nth_lookup, list_lookup_insert_ne. Qed.

Lemma nth_imap {A B} (f : nat → A → B) l i d d' : (i < length l)%nat →
  nth i (imap f l) d' = f i (nth i l d).
Proof.
  intros [x Hx]%lookup_lt_is_Some_2. by rewrite !nth_lookup, list_lookup_imap, Hx.
Qed.

Lemma nth_zip_with {A B C} (f : A → B → C) l k i a b c :
  (i < length l)%nat → (i < length k)%nat → nth i (zip_with f l k) c = f (nth i l a) (nth i k b).
Proof.
  intros [x Hx]%lookup_lt_is_Some_2 [y Hy]%lookup_lt_is_Some_2.
  by rewrite !nth_lookup, lookup_zip_with, Hx, Hy.
Qed.

Lemma nth_swap col pivot work r : (col < length work)%nat → (pivot < length work)%nat →
  nth r (swap_rows col pivot work) [] =
  if decide (r = pivot) then nth col work []
  else if decide (r = col) then nth pivot work [] else nth r work [].
Proof.
  intros. unfold swap_rows. repeat case_decide; subst.
  - by rewrite nth_insert_eq by (by rewrite length_insert).
  - by rewrite nth_insert_ne, nth_insert_eq by done.
  - by rewrite !nth_insert_ne by done.
Qed.

Lemma nth_scale col work r : (col < length work)%nat →
  nth r (scale_pivot col work) [] =
  if decide (r = col) then map (λ x, mul x (inverse (nth col (nth col work []) 0))) (nth col work [])
  else nth r work [].
Proof.
  intros. unfold scale_pivot. case_decide; subst; [by apply nth_insert_eq | by apply nth_insert_ne].
Qed.

Lemma nth_clear col work r : (r < length work)%nat →
  nth r (clear_column col work) [] =
  if decide (r = col) then nth r work []
  else zip_with (λ x y, Z.lxor x (mul (nth col (nth r work []) 0) y)) (nth r work []) (nth col work []).
Proof. intros. unfold clear_column. by rewrite nth_imap with (d := []). Qed.

Lemma find_pivot_Some col r work pivot : find_pivot col r work = Some pivot →
  (r <= pivot < r + length work)%nat ∧ (col <= pivot)%nat ∧ nth col (nth (pivot - r) work []) 0 ≠ 0.
Proof.
  revert r; induction work as [|row work IH]; intros r H; simpl in H; [done|].
  destruct (bool_decide _ && _) eqn:E.
  - injection H as <-. bool_prop. rewrite Nat.sub_diag. simpl. lia.
  - apply IH in H as (? & ? & Hn). split_and!; simpl; [lia..|].
    replace (pivot - r)%nat with (S (pivot - S r)) by lia. done.
Qed.

Lemma find_pivot_None col r work i : find_pivot col r work = None →
  (i < length work)%nat → (col <= r + i)%nat → nth col (nth i work []) 0 = 0.
Proof.
  revert r i; induction work as [|row work IH]; intros r i H Hi Hc; simpl in *; [lia|].
  destruct (bool_decide _ && _) eqn:E; [done|]. destruct i as [|i].
  - rewrite bool_decide_true in E by lia. simpl in E. by bool_prop.
  - apply (IH (S r)); [done|lia|lia].
Qed.

(** ** Shapes and kernels of row operations *)

Lemma mat_row k n m r : mat k n m → (r < k)%nat → vec n (nth r m []).
Proof.
  intros [Hl H] Hr. rewrite Forall_forall in H. apply H, list_elem_of_In, nth_In. lia.
Qed.

Lemma mat_intro k n m : length m = k → (∀ r, (r < k)%nat → vec n (nth r m [])) → mat k n m.
Proof.
  intros Hl H. split; [done|]. apply Forall_lookup. intros r row Hr.
  pose proof (lookup_lt_Some _ _ _ Hr). specialize (H r ltac:(lia)).
  by rewrite nth_lookup, Hr in H.
Qed.

Lemma kernel_nth k n m y : mat k n m → kernel m y ↔ ∀ r, (r < k)%nat → dot (nth r m []) y = 0.
Proof.
  intros [Hl _]. unfold kernel. rewrite Forall_lookup. split.
  - intros H r Hr. destruct (lookup_lt_is_Some_2 m r ltac:(lia)) as [row Hrow].
    rewrite nth_lookup, Hrow. by eapply H.
  - intros H r row Hrow. pose proof (lookup_lt_Some _ _ _ Hrow).
    specialize (H r ltac:(lia)). by rewrite nth_lookup, Hrow in H.
Qed.

Lemma nth_byte n x c : vec n x → byte_ok (nth c x 0).
Proof.
  intros [Hl H]. destruct (decide (c < length x)%nat).
  - unfold bytes_ok in H. rewrite Forall_forall in H. apply H, list_elem_of_In, nth_In. done.
  - rewrite nth_overflow by lia. auto with gf.
Qed.

Lemma vec_map_mul n s x : byte_ok s → vec n x → vec n (map (λ a, mul a s) x).
Proof.
  intros Hs [<- H]. split; [apply length_map|]. apply Forall_map.
  eapply Forall_impl; [done|]. simpl. auto with gf.
Qed.

Lemma vec_add_row n f w row : byte_ok f → vec n w → vec n row →
  vec n (zip_with (λ a b, Z.lxor a (mul f b)) w row).
Proof.
  intros Hf [<- Hw] [Hl Hr]. split; [rewrite length_zip_with; lia|].
  unfold bytes_ok in *. revert row Hl Hr; induction Hw; intros row Hl Hr; simpl; [constructor|].
  destruct Hr; [done|]. constructor; [auto with gf|]. auto.
Qed.

Lemma mul_inverse_entry n x c : vec n x → nth c x 0 ≠ 0 → mul (nth c x 0) (inverse (nth c x 0)) = 1.
Proof. intros Hx H. apply mul_inverse; [by eapply nth_byte|done]. Qed.

Section RowOps.
Context (k n col : nat) (Hk : (col < k)%nat).

Lemma swap_mat m pivot : mat k n m → (pivot < k)%nat → mat k n (swap_rows col pivot m).
Proof.
  intros Hm Hp. pose proof Hm as [Hl _]. apply mat_intro.
  - unfold swap_rows. by rewrite !length_insert.
  - intros r Hr. rewrite nth_swap by lia. repeat case_decide; by eapply mat_row.
Qed.

Lemma scale_mat m : mat k n m → mat k n (scale_pivot col m).
Proof.
  intros Hm. pose proof Hm as [Hl _]. apply mat_intro.
  - unfold scale_pivot. by rewrite length_insert.
  - intros r Hr. rewrite nth_scale by lia. case_decide; [|by eapply mat_row].
    apply vec_map_mul; [auto with gf | by eapply mat_row].
Qed.

Lemma clear_mat m : mat k n m → mat k n (clear_column col m).
Proof.
  intros Hm. pose proof Hm as [Hl _]. apply mat_intro.
  - unfold clear_column. by rewrite length_imap.
  - intros r Hr. rewrite nth_clear by lia. case_decide; [by eapply mat_row|].
    apply vec_add_row; [|by eapply mat_row..]. eapply nth_byte. by eapply mat_row.
Qed.

Lemma swap_kernel m pivot y : mat k n m → (pivot < k)%nat →
  kernel (swap_rows col pivot m) y ↔ kernel m y.
Proof.
  intros Hm Hp. pose proof Hm as [Hl _].
  rewrite !(kernel_nth k n) by (try done; by apply swap_mat).
  setoid_rewrite (λ r, nth_swap col pivot m r ltac:(lia) ltac:(lia)). split.
  - intros H r Hr. destruct (decide (r = pivot)) as [->|]; [|destruct (decide (r = col)) as [->|]].
    + specialize (H col Hk). repeat case_decide; congruence.
    + specialize (H pivot Hp). repeat case_decide; congruence.
    + specialize (H r Hr). repeat case_decide; congruence.
  - intros H r Hr. repeat case_decide; auto.
Qed.

Lemma scale_kernel m y : mat k n m → bytes_ok y → nth col (nth col m []) 0 ≠ 0 →
  kernel (scale_pivot col m) y ↔ kernel m y.
Proof.
  intros Hm Hy Hp. pose proof Hm as [Hl _].
  rewrite !(kernel_nth k n) by (try done; by apply scale_mat).
  pose proof (mat_row _ _ _ col Hm Hk) as Hrow.
  pose proof (mul_inverse_entry _ _ _ Hrow Hp) as Hinv.
  setoid_rewrite (λ r, nth_scale col m r ltac:(lia)). split; intros H r Hr.
  - specialize (H r Hr). case_decide as E; [subst|done].
    rewrite dot_scale in H by (auto with gf; apply Hrow).
    apply mul_eq_0 in H as [H|H]; [|done|apply inverse_byte|apply dot_byte; [apply Hrow|done]].
    rewrite H, mul_0_r in Hinv by (by eapply nth_byte). done.
  - case_decide as E; [subst|by apply H].
    rewrite dot_scale by (auto with gf; apply Hrow). rewrite H by done. apply mul_0_r, inverse_byte.
Qed.

Lemma clear_kernel m y : mat k n m → bytes_ok y → kernel (clear_column col m) y ↔ kernel m y.
Proof.
  intros Hm Hy. pose proof Hm as [Hl _].
  rewrite !(kernel_nth k n) by (try done; by apply clear_mat).
  pose proof (mat_row _ _ _ col Hm Hk) as Hrow.
  assert (∀ r, (r < k)%nat → r ≠ col → dot (nth r (clear_column col m) []) y =
    Z.lxor (dot (nth r m []) y) (mul (nth col (nth r m []) 0) (dot (nth col m []) y))) as E.
  { intros r Hr Hne. rewrite nth_clear by lia. rewrite decide_False by done.
    pose proof (mat_row _ _ _ r Hm Hr) as Hrow'.
    apply dot_add_row; [by eapply nth_byte|apply Hrow'|apply Hrow|done|].
    by rewrite (proj1 Hrow), (proj1 Hrow'). }
  assert (dot (nth col (clear_column col m) []) y = dot (nth col m []) y) as Ec.
  { rewrite nth_clear by lia. by rewrite decide_True. }
  split; intros H.
  - assert (dot (nth col m []) y = 0) as H0 by (rewrite <- Ec; auto).
    intros r Hr. destruct (decide (r = col)) as [->|Hne]; [done|].
    specialize (H r Hr). rewrite E, H0, mul_0_r, Z.lxor_0_r in H; try done.
    eapply nth_byte. by eapply mat_row.
  - intros r Hr. destruct (decide (r = col)) as [->|Hne]; [by rewrite Ec; auto|].
    rewrite E, !H, mul_0_r by done || (eapply nth_byte; by eapply mat_row). done.
Qed.

(** The first [c] columns are those of the identity. *)
Definition unit_columns (c : nat) (m : matrix) : Prop :=
  ∀ r i, (r < k)%nat → (i < c)%nat → nth i (nth r m []) 0 = if decide (r = i) then 1 else 0.
End RowOps.

(** ** One round of elimination *)

Definition round (col pivot : nat) (m : matrix) : matrix :=
  clear_column col (scale_pivot col (swap_rows col pivot m)).

Section Round.
Context (k n col pivot : nat) (m : matrix).
Hypotheses (Hcol : (col < k)%nat) (Hkn : (k <= n)%nat) (Hm : mat k n m).
Hypotheses (Hp : find_pivot col 0 m = Some pivot).

Let m1 := swap_rows col pivot m.
Let m2 := scale_pivot col m1.

Lemma pivot_range : (col <= pivot < k)%nat ∧ nth col (nth pivot m []) 0 ≠ 0.
Proof.
  pose proof (find_pivot_Some _ _ _ _ Hp) as (? & ? & Hn). rewrite Nat.sub_0_r in Hn.
  destruct Hm. split; [lia|done].
Qed.

Lemma m1_mat : mat k n m1.
Proof. pose proof pivot_range. apply swap_mat; [done..|lia]. Qed.
Lemma m2_mat : mat k n m2.
Proof. apply scale_mat; [done|apply m1_mat]. Qed.
Lemma round_mat : mat k n (round col pivot m).
Proof. apply clear_mat; [done|apply m2_mat]. Qed.

Lemma m1_pivot : nth col (nth col m1 []) 0 ≠ 0.
Proof.
  pose proof pivot_range as [? ?]. destruct Hm as [Hl _]. unfold m1. rewrite nth_swap by lia.
  repeat case_decide; congruence.
Qed.

Lemma round_kernel y : bytes_ok y → kernel (round col pivot m) y ↔ kernel m y.
Proof.
  intros Hy. pose proof pivot_range. unfold round.
  rewrite (clear_kernel k n) by (done || apply m2_mat).
  rewrite (scale_kernel k n) by (done || apply m1_mat || apply m1_pivot).
  apply (swap_kernel k n); [done..|lia].
Qed.

Lemma m2_entry r i : (r < k)%nat → (i < n)%nat →
  nth i (nth r m2 []) 0 =
  if decide (r = col) then mul (nth i (nth col m1 []) 0) (inverse (nth col (nth col m1 []) 0))
  else nth i (nth r m1 []) 0.
Proof.
  intros Hr Hi. pose proof m1_mat as Hm1. unfold m2. rewrite nth_scale by (destruct Hm1; lia).
  case_decide; [|done]. pose proof (mat_row _ _ _ col Hm1 Hcol) as [Hl _].
  rewrite nth_indep with (d' := (λ x, mul x (inverse (nth col (nth col m1 []) 0))) 0)
    by (rewrite length_map; lia).
  by rewrite (map_nth (λ x, mul x (inverse (nth col (nth col m1 []) 0)))).
Qed.

Lemma round_entry r i : (r < k)%nat → (i < n)%nat →
  nth i (nth r (round col pivot m) []) 0 =
  if decide (r = col) then nth i (nth col m2 []) 0
  else Z.lxor (nth i (nth r m2 []) 0) (mul (nth col (nth r m2 []) 0) (nth i (nth col m2 []) 0)).
Proof.
  intros Hr Hi. pose proof m2_mat as Hm2. unfold round. fold m1 m2.
  rewrite nth_clear by (destruct Hm2; lia). case_decide; [by subst|].
  pose proof (mat_row _ _ _ r Hm2 Hr) as [Hl _].
  pose proof (mat_row _ _ _ col Hm2 Hcol) as [Hl' _].
  by rewrite (nth_zip_with _ _ _ _ 0 0) by lia.
Qed.

Lemma m1_unit : unit_columns k col m → unit_columns k col m1.
Proof.
  intros Hu r i Hr Hi. pose proof pivot_range. unfold m1.
  rewrite nth_swap by (destruct Hm; lia).
  repeat case_decide; subst; rewrite ?Hu by lia; repeat case_decide; lia.
Qed.

Lemma round_unit : unit_columns k col m → unit_columns k (S col) (round col pivot m).
Proof.
  intros Hu%m1_unit r i Hr Hi.
  pose proof (mul_inverse_entry _ _ _ (mat_row _ _ _ col m1_mat Hcol) m1_pivot) as Hinv.
  assert (byte_ok (nth col (nth r m1 []) 0)) as Hb
    by (eapply nth_byte, mat_row; [apply m1_mat|done]).
  rewrite round_entry, !m2_entry by lia. rewrite (decide_True (P := col = col)) by done.
  destruct (decide (i = col)) as [->|Hne].
  - case_decide; [done|].
    by rewrite Hinv, mul_1_r, Z.lxor_nilpotent by done.
  - rewrite (Hu col i) by lia. rewrite (decide_False (P := col = i)) by lia.
    rewrite mul_0_l by apply inverse_byte.
    case_decide; [by rewrite decide_False by lia|].
    rewrite mul_0_r, Z.lxor_0_r by done. apply Hu; lia.
Qed.
End Round.

Lemma invert_from_round n col work : invert_from (S n) col work =
  match find_pivot col 0 work with
  | None => Throw "Parts do not form an invertible coding matrix."
  | Some pivot => invert_from n (S col) (round col pivot work)
  end.
Proof. done. Qed.

(** A successful elimination keeps the kernel and ends with unit columns. *)
Lemma invert_from_Ok k w n col work work' :
  invert_from n col work = Ok work' → (col + n = k)%nat → (k <= w)%nat →
  mat k w work → unit_columns k col work →
  mat k w work' ∧ unit_columns k k work' ∧
  (∀ y, bytes_ok y → kernel work' y ↔ kernel work y).
Proof.
  revert col work; induction n as [|n IH]; intros col work H Hn Hw Hm Hu.
  - injection H as <-. assert (col = k) as -> by lia. by split_and!.
  - rewrite invert_from_round in H. destruct (find_pivot col 0 work) as [pivot|] eqn:Hp; [|done].
    assert (mat k w (round col pivot work)) as Hm' by (apply round_mat; [lia|done..]).
    assert (unit_columns k (S col) (round col pivot work)) as Hu'
      by (eapply (round_unit k w); [lia|lia|done..]).
    destruct (IH _ _ H ltac:(lia) Hw Hm' Hu') as (? & ? & Hk).
    split_and!; [done..|]. intros y Hy. rewrite Hk by done.
    apply (round_kernel k w); [lia|done..].
Qed.

(** ** Inverses *)

Lemma length_apply m x : length (apply_matrix m x) = length m.
Proof. apply length_map. Qed.

Lemma nth_apply m x r : (r < length m)%nat → nth r (apply_matrix m x) 0 = dot (nth r m []) x.
Proof.
  intros Hr. unfold apply_matrix. rewrite nth_indep with (d' := dot [] x) by (by rewrite length_map).
  by rewrite (map_nth (λ row, dot row x)).
Qed.

Lemma apply_vec k n m x : mat k n m → bytes_ok x → vec k (apply_matrix m x).
Proof.
  intros [Hl H] Hx. split; [by rewrite length_apply|]. apply Forall_map.
  eapply Forall_impl; [done|]. intros row Hrow. apply dot_byte; [apply Hrow|done].
Qed.

Lemma kernel_apply k n m x : mat k n m → kernel m x ↔ apply_matrix m x = replicate k 0.
Proof.
  intros Hm. rewrite (kernel_nth k n) by done. destruct Hm as [Hl _]. split.
  - intros H. apply list_ext_nth; [by rewrite length_apply, length_replicate|].
    rewrite length_apply. intros i Hi. rewrite nth_apply, H by lia.
    by rewrite nth_replicate_0.
  - intros H r Hr. rewrite <- nth_apply, H by lia. apply nth_replicate_0.
Qed.

Lemma augment_mat k m : mat k k m → mat k (k + k) (augment m).
Proof.
  intros Hm. pose proof Hm as [Hl _]. apply mat_intro; unfold augment.
  - by rewrite length_imap.
  - intros r Hr. rewrite nth_imap with (d := []) by lia. rewrite Hl.
    apply vec_app; [by eapply mat_row | apply identity_row_vec].
Qed.

Lemma lxor_eq_0 a b : Z.lxor a b = 0 ↔ a = b.
Proof. apply Z.lxor_eq_0_iff. Qed.

(** The kernel of the augmented matrix is the graph of the matrix. *)
Lemma augment_kernel k m x z : mat k k m → vec k x → vec k z →
  kernel (augment m) (x ++ z) ↔ apply_matrix m x = z.
Proof.
  intros Hm Hx Hz. pose proof Hm as [Hl _].
  rewrite (kernel_nth k (k + k)) by (by apply augment_mat).
  assert (∀ r, (r < k)%nat → dot (nth r (augment m) []) (x ++ z) = 0 ↔ dot (nth r m []) x = nth r z 0) as E.
  { intros r Hr. unfold augment. rewrite nth_imap with (d := []) by lia. rewrite Hl.
    pose proof (mat_row _ _ _ r Hm Hr) as [Hr' _].
    rewrite dot_app, dot_identity_row by (done || (rewrite Hr'; symmetry; apply Hx)).
    apply lxor_eq_0. }
  split.
  - intros H. apply list_ext_nth; [by rewrite length_apply, Hl, (proj1 Hz)|].
    rewrite length_apply. intros r Hr. rewrite nth_apply by done. apply E; [lia|]. apply H. lia.
  - intros H r Hr. apply E; [done|]. by rewrite <- H, nth_apply by lia.
Qed.

(** Once the left half is the identity, the kernel is the graph read backwards. *)
Lemma reduced_kernel k work x z : mat k (k + k) work → unit_columns k k work →
  vec k x → vec k z →
  kernel work (x ++ z) ↔ apply_matrix (map (drop k) work) z = x.
Proof.
  intros Hm Hu Hx Hz. pose proof Hm as [Hl _].
  rewrite (kernel_nth k (k + k)) by done.
  assert (∀ r, (r < k)%nat → dot (nth r work []) (x ++ z) = 0 ↔
    dot (nth r (map (drop k) work) []) z = nth r x 0) as E.
  { intros r Hr. pose proof (mat_row _ _ _ r Hm Hr) as [Hr' _].
    replace (nth r (map (drop k) work) []) with (drop k (nth r work [])).
    2:{ rewrite !nth_lookup, list_lookup_fmap. destruct (work !! r); simpl; [done|apply drop_nil]. }
    rewrite <- (take_drop k (nth r work [])) at 1.
    rewrite dot_app by (rewrite length_take, (proj1 Hx); lia).
    replace (take k (nth r work [])) with (identity_row k r).
    - rewrite dot_identity_row, lxor_eq_0 by done. split; congruence.
    - pose proof (identity_row_vec k r) as [Hi _].
      apply list_ext_nth; [rewrite length_take; lia|]. rewrite Hi. intros i Hi'.
      rewrite nth_identity_row by done. rewrite (nth_lookup (take k _)), lookup_take_lt by done.
      rewrite <- nth_lookup. by rewrite Hu. }
  split.
  - intros H. apply list_ext_nth; [by rewrite length_apply, length_map, Hl, (proj1 Hx)|].
    rewrite length_apply, length_map. intros r Hr.
    rewrite nth_apply by (by rewrite length_map). apply E; [lia|]. apply H. lia.
  - intros H r Hr. apply E; [done|]. by rewrite <- H, nth_apply by (rewrite length_map; lia).
Qed.

Lemma unit_columns_0 k m : unit_columns k 0 m.
Proof. intros r i ? ?. lia. Qed.

Lemma invert_shape k m inv : mat k k m → invert m = Ok inv → mat k k inv.
Proof.
  intros Hm H. unfold invert in H. inv_ok. destruct Hm as [Hl Hm].
  destruct (invert_from_Ok k (k + k) _ _ _ _ E) as ([Hl' Hw] & _ & _);
    [lia | lia | by apply augment_mat | apply unit_columns_0 | ].
  split; [by rewrite length_map|]. rewrite Hl. apply Forall_map.
  eapply Forall_impl; [done|]. intros row [Hr Hb]. split; [rewrite length_drop; lia|].
  by apply Forall_drop.
Qed.

(** The inverse undoes the matrix, on both sides. *)
Lemma invert_spec k m inv x z : mat k k m → invert m = Ok inv → vec k x → vec k z →
  apply_matrix m x = z ↔ apply_matrix inv z = x.
Proof.
  intros Hm H Hx Hz. unfold invert in H. inv_ok. pose proof Hm as [Hl _].
  destruct (invert_from_Ok k (k + k) _ _ _ _ E) as (Hw & Hu & Hk);
    [lia | lia | by apply augment_mat | apply unit_columns_0 | ].
  rewrite Hl. rewrite <- reduced_kernel, Hk, augment_kernel; [done..| | |done|done|done].
  - by apply bytes_ok_app; split; [apply Hx|apply Hz].
  - done.
Qed.

(** ** An injective matrix has an inverse *)

(** The vector that a missing pivot in [col] puts into the kernel. *)
Definition dependency (k col : nat) (work : matrix) : list Z :=
  map (λ r, nth col (nth r work []) 0) (seq 0 col) ++ 1 :: replicate (k - col - 1) 0.

Lemma dependency_vec k col work n : mat k n work → (col < k)%nat → vec k (dependency k col work).
Proof.
  intros Hm Hc. unfold dependency.
  replace k with (col + S (k - col - 1))%nat at 1 by lia. apply vec_app.
  - split; [by rewrite length_map, length_seq|]. apply Forall_map, Forall_forall.
    intros r Hr%list_elem_of_In%in_seq. eapply nth_byte. eapply mat_row; [done|lia].
  - apply vec_cons. split; [auto with gf|]. eexists. split; [done|]. apply vec_replicate.
Qed.

Lemma nth_dependency_lt k col work r : (r < col)%nat →
  nth r (dependency k col work) 0 = nth col (nth r work []) 0.
Proof.
  intros Hr. unfold dependency. rewrite app_nth1 by (by rewrite length_map, length_seq).
  rewrite nth_lookup, list_lookup_fmap, lookup_seq_lt by done. done.
Qed.

Lemma dot_dependency k col work r : (col < k)%nat → mat k (k + k) work → unit_columns k col work →
  (r < k)%nat →
  dot (nth r work []) (dependency k col work ++ replicate k 0) =
  if decide (r < col)%nat then 0 else nth col (nth r work []) 0.
Proof.
  intros Hc Hm Hu Hr. pose proof (mat_row _ _ _ r Hm Hr) as [Hl Hb].
  set (row := nth r work []) in *. unfold dependency. rewrite <- app_assoc. simpl.
  set (v := map _ _).
  assert (length v = col) as Hv by (unfold v; by rewrite length_map, length_seq).
  assert (bytes_ok v) as Hvb.
  { pose proof (dependency_vec _ _ _ _ Hm Hc) as [_ H]. by apply bytes_ok_app in H as [H _]. }
  rewrite <- (take_drop col row) at 1. rewrite dot_app by (rewrite length_take; lia).
  assert (take col row = if decide (r < col)%nat then identity_row col r else replicate col 0) as ->.
  { apply list_ext_nth.
    - case_decide; rewrite length_take, ?length_replicate, ?(proj1 (identity_row_vec _ _)); lia.
    - rewrite length_take. intros i Hi.
      rewrite (nth_lookup (take _ _)), lookup_take_lt, <- nth_lookup by lia. unfold row.
      rewrite Hu by lia. destruct (decide (r < col)%nat).
      + by rewrite nth_identity_row by lia.
      + by rewrite nth_replicate_0, decide_False by lia. }
  assert (dot (drop col row) (1 :: replicate (k - col - 1) 0 ++ replicate k 0) = nth col row 0) as ->.
  { assert (nth col row 0 = nth 0 (drop col row) 0) as ->
      by (rewrite !nth_lookup, lookup_drop; do 2 f_equal; lia).
    assert (bytes_ok (drop col row)) as Hd by by apply Forall_drop.
    destruct (drop col row) as [|a rest]; [done|]. simpl. rewrite dot_cons.
    rewrite <- replicate_add. unfold bytes_ok in Hd. apply Forall_cons in Hd as [Ha Hd].
    rewrite dot_replicate_r, mul_1_r, Z.lxor_0_r by done. done. }
  case_decide.
  - rewrite dot_identity_row by done. apply lxor_eq_0. unfold v.
    rewrite nth_lookup, list_lookup_fmap, lookup_seq_lt by done. done.
  - rewrite dot_replicate_l by done. apply Z.lxor_0_l.
Qed.

Lemma dependency_kernel k col work : (col < k)%nat → mat k (k + k) work →
  unit_columns k col work → find_pivot col 0 work = None →
  kernel work (dependency k col work ++ replicate k 0).
Proof.
  intros Hc Hm Hu Hp. apply (kernel_nth k (k + k)); [done|]. intros r Hr.
  rewrite dot_dependency by done. case_decide; [done|].
  apply (find_pivot_None col 0); [done| |lia]. destruct Hm. lia.
Qed.

Definition left_injective (k : nat) (work : matrix) : Prop :=
  ∀ x, vec k x → kernel work (x ++ replicate k 0) → x = replicate k 0.

Lemma invert_from_succeeds k n col work : (col + n = k)%nat → mat k (k + k) work →
  unit_columns k col work → left_injective k work →
  ∃ work', invert_from n col work = Ok work'.
Proof.
  revert col work; induction n as [|n IH]; intros col work Hn Hm Hu Hi; [by eexists|].
  rewrite invert_from_round. destruct (find_pivot col 0 work) as [pivot|] eqn:Hp.
  - apply IH; [lia | apply round_mat; [lia|lia|done..] | eapply (round_unit k (k + k)); [lia|lia|done..] | ].
    intros x Hx Hker. apply Hi; [done|].
    apply (round_kernel k (k + k) col pivot); [lia|lia|done|done| |done].
    apply bytes_ok_app. split; [apply Hx|apply vec_replicate].
  - exfalso. assert (dependency k col work = replicate k 0) as H.
    { apply Hi; [eapply dependency_vec; [done|lia]|]. apply dependency_kernel; (done || lia). }
    apply (f_equal (λ l, nth col l 0)) in H. rewrite nth_replicate_0 in H.
    unfold dependency in H. rewrite app_nth2 in H by (rewrite length_map, length_seq; lia).
    by rewrite length_map, length_seq, Nat.sub_diag in H.
Qed.

Lemma invert_injective k m : mat k k m → injective k m → ∃ inv, invert m = Ok inv.
Proof.
  intros Hm Hi. unfold invert. pose proof Hm as [Hl _]. rewrite Hl.
  destruct (invert_from_succeeds k k 0 (augment m)) as [work ->];
    [lia | by apply augment_mat | apply unit_columns_0 | | by eexists].
  intros x Hx Hk. apply Hi; [done|].
  apply (kernel_apply k k); [done|]. apply (augment_kernel k); [done|done|apply vec_replicate|done].
Qed.

(** The inverse is injective too. *)
Lemma inverse_injective k m inv : mat k k m → invert m = Ok inv → injective k inv.
Proof.
  intros Hm H x Hx Hker.
  apply (kernel_apply k k) in Hker; [|by eapply invert_shape].
  apply (invert_spec k m inv (replicate k 0) x) in Hker; [|done|done|apply vec_replicate|done].
  rewrite <- Hker. apply list_ext_nth; [by rewrite length_apply, length_replicate, (proj1 Hm)|].
  rewrite length_apply. intros i Hi. rewrite nth_apply, nth_replicate_0 by done.
  apply dot_replicate_r. eapply mat_row; [done|]. by rewrite <- (proj1 Hm).
Qed.
