(* ===== verification/Erasure.v ===== *)
(** * Systematic Reed-Solomon coding ([src/core/erasure.ts])

    [encodeParts] splits a payload into [required] slices and produces [total]
    parts; [decodeParts] rebuilds the payload from any [required] of them. Both
    work stripe by stripe so a cancelled operation stops soon: [signal k] is
    whether the abort signal has fired when it is read for the [k]-th time. *)

From S2P Require Import Prelude Gf256 Matrix.

Definition STRIPE_BYTES : Z := 64 * 1024.

Definition codingBounds (required total : Z) : res unit :=
  guard (negb ((required <? 2) || (total <=? required) || (16 <? total)))
    "Erasure coding needs 2–15 required parts and up to 16 total parts, with at least one spare part.".

(** [row.push(mul(row[c - 1], r))], [n] times. *)
Fixpoint powers_after (n : nat) (last r : Z) : list Z :=
  match n with
  | O => []
  | S n => mul last r :: powers_after n (mul last r) r
  end.

Definition vandermonde_row (required : nat) (r : Z) : list Z :=
  1 :: powers_after (required - 1) 1 r.

Definition vandermonde (required total : nat) : matrix :=
  map (λ r, vandermonde_row required (Z.of_nat r)) (seq 0 total).

Definition column (col : nat) (m : matrix) : list Z := map (λ row, nth col row 0) m.

Definition generator (required total : Z) : res matrix :=
  let! _ := codingBounds required total in
  let k := Z.to_nat required in
  let v := vandermonde k (Z.to_nat total) in
  let! topInverse := invert (take k v) in
  Ok (map (λ row, map (λ col, dot row (column col topInverse)) (seq 0 k)) v).

(** [output[pos] = output[pos] ^ times[input[pos]]] for every [pos] of the input. *)
Fixpoint xor_into (times : Z → Z) (output input : bytes) : bytes :=
  match output, input with
  | o :: output, i :: input => Z.lxor o (times i) :: xor_into times output input
  | _, _ => output
  end.

Fixpoint combine_into (coefficients : list Z) (inputs : list bytes) (output : bytes) : bytes :=
  match coefficients, inputs with
  | c :: coefficients, input :: inputs =>
      combine_into coefficients inputs
        (if c =? 0 then output else xor_into (mul c) output input)
  | _, _ => output
  end.

Definition combine (coefficients : list Z) (inputs : list bytes) (size : Z) : bytes :=
  combine_into coefficients inputs (replicate (Z.to_nat size) 0).

(** [signal?.throwIfAborted()] before and after yielding. *)
Definition checkpoint (signal : nat → bool) (k : nat) : res unit :=
  check negb (signal k) else "AbortError";
  guard (negb (signal (S k))) "AbortError".

Fixpoint encode_stripes (fuel : nat) (signal : nat → bool) (k : nat) (m : matrix)
    (blob : bytes) (required : nat) (size offset : Z) (outputs : list (list bytes))
    : res (list (list bytes)) :=
  if offset <? size then
    match fuel with
    | O => Throw "out of fuel"
    | S fuel =>
        let! _ := checkpoint signal k in
        let count := Z.min STRIPE_BYTES (size - offset) in
        let data := map (λ i, let start := Z.of_nat i * size + offset in
          slice start (Z.min (start + count) ((Z.of_nat i + 1) * size)) blob) (seq 0 required) in
        encode_stripes fuel signal (k + 2) m blob required size (offset + STRIPE_BYTES)
          (zip_with (λ row out, out ++ [combine row data count]) m outputs)
    end
  else
    let! _ := guard (negb (signal k)) "AbortError" in
    Ok outputs.

Definition stripe_count (size : Z) : nat := Z.to_nat (ceil_div size STRIPE_BYTES).

Definition encodeParts (signal : nat → bool) (blob : bytes) (required total : Z) : res (list bytes) :=
  let! m := generator required total in
  check is_safe_integer (zlen blob) && (required <=? zlen blob) else "Payload is too small to split.";
  let size := ceil_div (zlen blob) required in
  let! outputs := encode_stripes (stripe_count size) signal 0 m blob (Z.to_nat required) size 0
                    (replicate (Z.to_nat total) []) in
  Ok (map concat outputs).

(** A part as [decodeParts] takes it. *)
Record part := Part { part_index : Z; part_blob : bytes }.

Fixpoint decode_stripes (fuel : nat) (signal : nat → bool) (k : nat) (m : matrix)
    (parts : list part) (size offset : Z) (outputs : list (list bytes)) : res (list (list bytes)) :=
  if offset <? size then
    match fuel with
    | O => Throw "out of fuel"
    | S fuel =>
        let! _ := checkpoint signal k in
        let count := Z.min STRIPE_BYTES (size - offset) in
        let data := map (λ p, slice offset (offset + count) (part_blob p)) parts in
        decode_stripes fuel signal (k + 2) m parts size (offset + STRIPE_BYTES)
          (zip_with (λ row out, out ++ [combine row data count]) m outputs)
    end
  else
    let! _ := guard (negb (signal k)) "AbortError" in
    Ok outputs.

Definition parts_fit (parts : list part) (required total length_ : Z) : bool :=
  is_safe_integer length_ && (required <=? length_) && (zlen parts =? required)
  && (zlen (uniq (map part_index parts)) =? required)
  && forallb (λ p, (0 <=? part_index p) && (part_index p <? total)
                   && (zlen (part_blob p) =? ceil_div length_ required)) parts.

Definition decodeParts (signal : nat → bool) (parts : list part) (required total length_ : Z) : res bytes :=
  let! m := generator required total in
  check parts_fit parts required total length_
    else "Wrong part count, index or size for reconstruction.";
  let! decoding := invert (map (λ p, nth (Z.to_nat (part_index p)) m []) parts) in
  let size := ceil_div length_ required in
  let! outputs := decode_stripes (stripe_count size) signal 0 decoding parts size 0
                    (replicate (Z.to_nat required) []) in
  Ok (slice 0 length_ (concat (map concat outputs))).

(** A signal that never fires. *)
Definition quiet (k : nat) : bool := false.

Example small_code :
  encodeParts quiet [10; 20; 30; 40; 50] 2 4 = Ok [[10; 20; 30]; [40; 50; 0]; [78; 88; 34]; [108; 126; 60]].
Proof. vm_compute. reflexivity. Qed.

(** ** Vandermonde rows are polynomial evaluation *)

(** The polynomial with coefficients [x], lowest first, at [t] (Horner). *)
Definition eval (t : Z) (x : list Z) : Z := foldr (λ a acc, Z.lxor a (mul t acc)) 0 x.

Lemma eval_byte t x : byte_ok t → bytes_ok x → byte_ok (eval t x).
Proof. intros Ht Hx. induction Hx; simpl; auto with gf. Qed.

Lemma powers_after_vec n last r : byte_ok last → byte_ok r → vec n (powers_after n last r).
Proof.
  intros Hl Hr. revert last Hl; induction n as [|n IH]; intros last Hl; simpl; [by repeat constructor|].
  apply vec_cons. split; [auto with gf|]. eexists. split; [done|]. apply IH. auto with gf.
Qed.

Lemma dot_powers n last r x : byte_ok last → byte_ok r → vec n x →
  dot (powers_after n last r) x = mul last (mul r (eval r x)).
Proof.
  intros Hl Hr. revert last x Hl; induction n as [|n IH]; intros last x Hl Hx.
  - destruct x; [|by destruct Hx]. simpl. rewrite !mul_0_r by done. done.
  - destruct x as [|a x]; [by destruct Hx|]. apply vec_cons in Hx as (Ha & ? & [= <-] & Hx).
    simpl. pose proof (eval_byte r x Hr (proj2 Hx)) as He.
    rewrite dot_cons, IH by auto with gf.
    rewrite (mul_assoc last r (Z.lxor _ _)), mul_lxor_r by auto with gf. done.
Qed.

Lemma dot_vandermonde_row k r x : byte_ok r → (0 < k)%nat → vec k x →
  dot (vandermonde_row k r) x = eval r x.
Proof.
  intros Hr Hk Hx. destruct x as [|a x]; [destruct Hx; simpl in *; lia|].
  apply vec_cons in Hx as (Ha & k' & -> & Hx). unfold vandermonde_row.
  pose proof (eval_byte r x Hr (proj2 Hx)).
  rewrite Nat.sub_succ, Nat.sub_0_r, dot_cons, dot_powers, !mul_1_l by auto with gf. done.
Qed.

Lemma vandermonde_mat k n : (0 < k)%nat → (n <= 16)%nat → mat n k (vandermonde k n).
Proof.
  intros Hk Hn. unfold vandermonde. split; [by rewrite length_map, length_seq|].
  apply Forall_map, Forall_forall. intros r Hr%list_elem_of_In%in_seq.
  unfold vandermonde_row. destruct k as [|k]; [lia|]. apply vec_cons. split; [auto with gf|].
  exists k. split; [done|]. rewrite Nat.sub_succ, Nat.sub_0_r.
  apply powers_after_vec; unfold byte_ok; lia.
Qed.

Lemma nth_vandermonde k n r : (r < n)%nat →
  nth r (vandermonde k n) [] = vandermonde_row k (Z.of_nat r).
Proof.
  intros. unfold vandermonde. rewrite nth_lookup, list_lookup_fmap, lookup_seq_lt by done. done.
Qed.

(** ** A polynomial has fewer roots than coefficients *)

(** Quotient of the division by [t - a]. *)
Fixpoint quotient (a : Z) (x : list Z) : list Z :=
  match x with
  | [] => []
  | _ :: x => match x with [] => [] | _ :: _ => eval a x :: quotient a x end
  end.

Lemma length_quotient a x : length (quotient a x) = (length x - 1)%nat.
Proof.
  induction x as [|b x IH]; [done|]. destruct x as [|c x]; [done|].
  change (length (quotient a (b :: c :: x))) with (S (length (quotient a (c :: x)))).
  rewrite IH. simpl. lia.
Qed.

Lemma quotient_ok a x : byte_ok a → bytes_ok x → bytes_ok (quotient a x).
Proof.
  intros Ha Hx. induction Hx as [|b x Hb Hx IH]; [constructor|].
  destruct x as [|c x]; [constructor|]. constructor; [by apply eval_byte|done].
Qed.

Lemma eval_cons t a x : eval t (a :: x) = Z.lxor a (mul t (eval t x)).
Proof. done. Qed.

Lemma eval_quotient a t x : byte_ok a → byte_ok t → bytes_ok x →
  eval t x = Z.lxor (eval a x) (mul (Z.lxor t a) (eval t (quotient a x))).
Proof.
  intros Ha Ht Hx. induction Hx as [|b x Hb Hx IH].
  { simpl. rewrite mul_0_r by auto with gf. done. }
  destruct x as [|c x]. { simpl. rewrite !mul_0_r by auto with gf. by rewrite !Z.lxor_0_r. }
  change (quotient a (b :: c :: x)) with (eval a (c :: x) :: quotient a (c :: x)).
  rewrite (eval_cons t b), (eval_cons a b), (eval_cons t (eval a (c :: x))).
  pose proof (eval_byte a _ Ha Hx) as H1.
  pose proof (eval_byte t _ Ht (quotient_ok a _ Ha Hx)) as H2.
  set (u := eval a (c :: x)) in *. set (w := eval t (quotient a (c :: x))) in *.
  rewrite IH. rewrite !mul_lxor_l, !mul_lxor_r by auto with gf.
  rewrite !mul_assoc by auto with gf. rewrite (mul_comm a t) by done.
  lxor_ring.
Qed.

Lemma quotient_zero a x : byte_ok a → bytes_ok x → eval a x = 0 →
  quotient a x = replicate (length x - 1) 0 → x = replicate (length x) 0.
Proof.
  intros Ha Hx. induction Hx as [|b x Hb Hx IH]; [done|]. intros He Hq.
  destruct x as [|c x].
  - simpl in He. rewrite mul_0_r, Z.lxor_0_r in He by done. by subst.
  - change (quotient a (b :: c :: x)) with (eval a (c :: x) :: quotient a (c :: x)) in Hq.
    simpl length in *. rewrite Nat.sub_succ, Nat.sub_0_r in Hq. simpl replicate in Hq.
    injection Hq as Hq0 Hq. change (eval a (c :: x) = 0) in Hq0. rewrite Nat.sub_succ, Nat.sub_0_r in IH.
    rewrite eval_cons, Hq0, mul_0_r, Z.lxor_0_r in He by done. subst b.
    by rewrite IH at 1 by done.
Qed.

Lemma few_roots roots x : NoDup roots → bytes_ok roots → bytes_ok x →
  (length x <= length roots)%nat → (∀ r, r ∈ roots → eval r x = 0) →
  x = replicate (length x) 0.
Proof.
  revert x; induction roots as [|a roots IH]; intros x Hnd Hr Hx Hl He.
  { simpl in Hl. by destruct x; [|simpl in Hl; lia]. }
  apply NoDup_cons in Hnd as [Ha Hnd]. unfold bytes_ok in Hr. apply Forall_cons in Hr as [Hab Hr].
  apply (quotient_zero a); [done..|by apply He; left|].
  rewrite <- length_quotient with (a := a).
  apply IH; [done|done|by apply quotient_ok|rewrite length_quotient; simpl in Hl; lia|].
  intros t Ht. assert (byte_ok t) as Htb by (by eapply Forall_forall in Ht).
  pose proof (He t ltac:(by right)) as Hz.
  rewrite (eval_quotient a t), (He a) in Hz by (done || by left).
  rewrite Z.lxor_0_l in Hz. apply mul_eq_0 in Hz as [Hz|Hz]; [|done|auto with gf|].
  - apply lxor_eq_0 in Hz as ->. done.
  - apply eval_byte; [done|]. by apply quotient_ok.
Qed.

(** ** Any [k] rows of the generator are invertible *)

(** Rows of [m] picked by index. *)
Definition pick (m : matrix) (rows : list nat) : matrix := map (λ r, nth r m []) rows.

Lemma pick_mat k n m rows : mat n k m → Forall (λ r, r < n)%nat rows →
  mat (length rows) k (pick m rows).
Proof.
  intros Hm Hr. split; [by unfold pick; rewrite length_map|]. apply Forall_map.
  eapply Forall_impl; [done|]. intros r Hr'. by eapply mat_row.
Qed.

Lemma vandermonde_injective k n rows : (0 < k)%nat → (n <= 16)%nat → NoDup rows →
  Forall (λ r, r < n)%nat rows → length rows = k → injective k (pick (vandermonde k n) rows).
Proof.
  intros Hk Hn Hnd Hr Hl x Hx Hker. rewrite <- (proj1 Hx).
  apply (few_roots (map Z.of_nat rows)).
  - apply NoDup_fmap_2; [|done]. intros a b; lia.
  - apply Forall_map. eapply Forall_impl; [done|]. unfold byte_ok. simpl. intros. lia.
  - apply Hx.
  - rewrite length_map, (proj1 Hx). lia.
  - intros t (r & -> & Hin)%list_elem_of_fmap. rewrite Forall_forall in Hr. specialize (Hr r Hin).
    rewrite <- (dot_vandermonde_row k), <- (nth_vandermonde k n) by (done || unfold byte_ok; lia).
    unfold kernel, pick in Hker. rewrite Forall_map, Forall_forall in Hker. by apply Hker.
Qed.

Lemma take_vandermonde k n : (k <= n)%nat → take k (vandermonde k n) = pick (vandermonde k n) (seq 0 k).
Proof.
  intros H. apply list_eq. intros i. unfold pick, vandermonde. destruct (decide (i < k)%nat).
  - rewrite lookup_take_lt, !list_lookup_fmap, !lookup_seq_lt by lia. simpl. f_equal.
    by rewrite nth_lookup, list_lookup_fmap, lookup_seq_lt by lia.
  - rewrite !lookup_ge_None_2; [done|rewrite length_map, length_seq; lia|rewrite length_take; lia].
Qed.

(** Multiplying a row by a matrix and then by a vector. *)
Lemma dot_row_times k row m x : length row = length m → bytes_ok row → Forall (vec k) m → vec k x →
  dot (map (λ col, dot row (column col m)) (seq 0 k)) x = dot row (apply_matrix m x).
Proof.
  intros Hl Hr Hm Hx. revert row Hl Hr; induction Hm as [|t m Ht Hm IH]; intros row Hl Hr.
  - destruct row; [|done]. apply dot_zeros; [|apply Hx].
    apply Forall_map, Forall_true. intros c. done.
  - destruct row as [|a row]; [done|]. injection Hl as Hl.
    unfold bytes_ok in Hr. apply Forall_cons in Hr as [Ha Hr].
    simpl. rewrite dot_cons, <- IH by done.
    rewrite Z.lxor_comm, <- (dot_add_row a _ t); [|done| |apply Ht|apply Hx|].
    + f_equal. apply list_ext_nth.
      * rewrite length_zip_with, !length_map, length_seq, (proj1 Ht). lia.
      * rewrite length_map, length_seq. intros i Hi.
        rewrite (nth_zip_with _ _ _ _ 0 0) by (rewrite ?length_map, ?length_seq, ?(proj1 Ht); lia).
        rewrite !nth_lookup, !list_lookup_fmap, lookup_seq_lt by done. simpl.
        rewrite dot_cons, Z.lxor_comm, <- nth_lookup. done.
    + apply Forall_map, Forall_true. intros c. apply dot_byte; [done|].
      unfold column. apply Forall_map. eapply Forall_impl; [done|]. intros r Hr'. by eapply nth_byte.
    + by rewrite length_map, length_seq, (proj1 Ht).
Qed.

Section Generator.
Context (required total : Z) (g : matrix).
Hypothesis (Hg : generator required total = Ok g).
Let k := Z.to_nat required.
Let n := Z.to_nat total.

Lemma generator_bounds : (2 <= required < total) ∧ total <= 16.
Proof. unfold generator, codingBounds in Hg. inv_ok. bool_prop. lia. Qed.

Lemma generator_factor : ∃ inv, mat k k inv ∧ injective k inv ∧
  (∀ x, vec k x → apply_matrix (take k (vandermonde k n)) (apply_matrix inv x) = x) ∧
  mat n k g ∧
  ∀ r x, (r < n)%nat → vec k x →
    dot (nth r g []) x = dot (nth r (vandermonde k n) []) (apply_matrix inv x).
Proof.
  pose proof generator_bounds as [? ?]. unfold generator in Hg. inv_ok.
  fold k n in E0 |- *. rename x0 into topInverse.
  pose proof (vandermonde_mat k n ltac:(lia) ltac:(lia)) as Hv.
  assert (mat k k (take k (vandermonde k n))) as Ht.
  { rewrite take_vandermonde by lia. rewrite <- (length_seq k 0) at 1. apply (pick_mat k n); [done|].
    apply Forall_forall. intros r Hr%list_elem_of_In%in_seq. lia. }
  pose proof (invert_shape _ _ _ Ht E0) as Hi. exists topInverse.
  assert (∀ r, (r < n)%nat → nth r (map (λ row, map (λ col, dot row (column col topInverse)) (seq 0 k))
      (vandermonde k n)) [] = map (λ col, dot (nth r (vandermonde k n) []) (column col topInverse)) (seq 0 k)) as En.
  { intros r Hr. rewrite !nth_lookup, list_lookup_fmap.
    destruct (lookup_lt_is_Some_2 (vandermonde k n) r) as [row ->]; [by rewrite (proj1 Hv)|]. done. }
  split_and!; [done|by apply (inverse_injective k _ _ Ht)| | |].
  - clear E x; intros x Hx. apply (invert_spec k _ topInverse); [done|done|eapply apply_vec; [done|apply Hx]|done|done].
  - apply mat_intro; [by rewrite length_map, (proj1 Hv)|]. intros r Hr. rewrite En by done.
    split; [by rewrite length_map, length_seq|]. apply Forall_map, Forall_true. intros c.
    apply dot_byte; [by eapply mat_row|]. unfold column. apply Forall_map.
    eapply Forall_impl; [apply Hi|]. intros row Hrow. by eapply nth_byte.
  - clear E x; intros r x Hr Hx. rewrite En by done. pose proof (mat_row _ _ _ r Hv Hr) as [Hl Hb].
    apply dot_row_times; [by rewrite Hl, (proj1 Hi)|done|apply Hi|done].
Qed.

Lemma generator_mat : mat n k g.
Proof. by destruct generator_factor as (inv & ? & ? & ? & ? & ?). Qed.

(** The first [k] rows are the identity. *)
Lemma generator_systematic r x : (r < k)%nat → vec k x → dot (nth r g []) x = nth r x 0.
Proof.
  intros Hr Hx. pose proof generator_bounds as [? ?].
  destruct generator_factor as (inv & Hi & _ & Ht & _ & Hd). rewrite Hd by (done || lia).
  rewrite <- (Ht x Hx) at 2. rewrite nth_apply.
  - by rewrite !nth_lookup, lookup_take_lt.
  - rewrite length_take. pose proof (vandermonde_mat k n ltac:(lia) ltac:(lia)) as [Hl _]. lia.
Qed.

Lemma generator_pick_injective rows : NoDup rows → Forall (λ r, r < n)%nat rows →
  length rows = k → injective k (pick g rows).
Proof.
  intros Hnd Hr Hl x Hx Hker. pose proof generator_bounds as [? ?].
  destruct generator_factor as (inv & Hi & Hinj & Ht & _ & Hd).
  apply Hinj; [done|]. apply (kernel_apply k k); [done|].
  apply (vandermonde_injective k n rows); [lia|lia|done|done|done|eapply apply_vec; [done|apply Hx]|].
  unfold kernel, pick in *. rewrite Forall_map in *. rewrite Forall_forall in *.
  intros r Hin. simpl. rewrite <- Hd by (done || auto). by apply Hker.
Qed.
End Generator.

(** Valid parameters always give a generator. *)
Lemma generator_succeeds required total : codingBounds required total = Ok tt →
  ∃ g, generator required total = Ok g.
Proof.
  intros H. unfold generator. rewrite H. simpl. unfold codingBounds in H. inv_ok. bool_prop.
  set (k := Z.to_nat required). set (n := Z.to_nat total).
  assert (Forall (λ r, r < n)%nat (seq 0 k)) as Hr
    by (apply Forall_forall; intros r Hr%list_elem_of_In%in_seq; lia).
  destruct (invert_injective k (take k (vandermonde k n))) as [inv ->]; [..|by eexists].
  - rewrite take_vandermonde by lia. rewrite <- (length_seq k 0) at 1.
    apply (pick_mat k n); [apply vandermonde_mat; lia|done].
  - rewrite take_vandermonde by lia. apply (vandermonde_injective k n); [lia|lia| |done|by rewrite length_seq].
    apply NoDup_seq.
Qed.

(** ** Combining byte strings is a product, byte by byte *)

(** The bytes of every input at one position, zero past the end. *)
Definition at_position (p : nat) (inputs : list bytes) : list Z := map (λ input, nth p input 0) inputs.

Lemma length_xor_into f o i : length (xor_into f o i) = length o.
Proof. revert i; induction o as [|a o IH]; intros [|b i]; simpl; auto. Qed.

Lemma nth_xor_into c o i p : byte_ok c → (p < length o)%nat →
  nth p (xor_into (mul c) o i) 0 = Z.lxor (nth p o 0) (mul c (nth p i 0)).
Proof.
  intros Hc. revert i p; induction o as [|a o IH]; intros i p Hp; simpl in Hp; [lia|].
  destruct i as [|b i]; simpl.
  - destruct p; rewrite mul_0_r, Z.lxor_0_r by done; done.
  - destruct p as [|p]; [done|]. apply IH. lia.
Qed.

Lemma length_combine_into cs inputs o : length (combine_into cs inputs o) = length o.
Proof.
  revert inputs o; induction cs as [|c cs IH]; intros [|i inputs] o; simpl; [done..|].
  rewrite IH. destruct (c =? 0); [done|apply length_xor_into].
Qed.

Lemma nth_combine_into cs inputs o p : bytes_ok cs → Forall bytes_ok inputs →
  (p < length o)%nat →
  nth p (combine_into cs inputs o) 0 = Z.lxor (nth p o 0) (dot cs (at_position p inputs)).
Proof.
  intros Hcs. revert inputs o; induction Hcs as [|c cs Hc Hcs IH]; intros inputs o Hi Hp.
  - simpl. change (dot [] _) with 0. by rewrite Z.lxor_0_r.
  - destruct Hi as [|i inputs Hi Hin]; simpl; [by rewrite dot_nil_r, Z.lxor_0_r|].
    assert (byte_ok (nth p i 0)) by (by eapply nth_byte).
    rewrite IH, dot_cons, <- Z.lxor_assoc; [|done|].
    + f_equal. destruct (c =? 0) eqn:E; [|by apply nth_xor_into].
      bool_prop. subst. by rewrite mul_0_l, Z.lxor_0_r.
    + destruct (c =? 0); [done|by rewrite length_xor_into].
Qed.

Lemma length_combine cs inputs size : length (combine cs inputs size) = Z.to_nat size.
Proof. unfold combine. by rewrite length_combine_into, length_replicate. Qed.

Lemma zlen_combine cs inputs size : 0 <= size → zlen (combine cs inputs size) = size.
Proof. intros. unfold zlen. rewrite length_combine. lia. Qed.

Lemma nth_combine cs inputs size p : bytes_ok cs → Forall bytes_ok inputs →
  (p < Z.to_nat size)%nat →
  nth p (combine cs inputs size) 0 = dot cs (at_position p inputs).
Proof.
  intros. unfold combine. rewrite nth_combine_into by (done || by rewrite length_replicate).
  by rewrite nth_replicate_0, Z.lxor_0_l.
Qed.

Lemma combine_ok cs inputs size : bytes_ok cs → Forall bytes_ok inputs → bytes_ok (combine cs inputs size).
Proof.
  intros Hc Hi. apply Forall_lookup. intros p x Hx. pose proof (lookup_lt_Some _ _ _ Hx) as Hp.
  rewrite length_combine in Hp. replace x with (nth p (combine cs inputs size) 0) by (by rewrite nth_lookup, Hx).
  rewrite nth_combine by done. apply dot_byte; [done|]. apply Forall_map.
  eapply Forall_impl; [done|]. intros input H. by eapply nth_byte.
Qed.

(** Combining a window of every input is the window of the combination. *)
Lemma combine_slice cs inputs size offset count : bytes_ok cs → Forall bytes_ok inputs →
  0 <= offset → 0 <= count → offset + count <= size →
  combine cs (map (slice offset (offset + count)) inputs) count =
  slice offset (offset + count) (combine cs inputs size).
Proof.
  intros Hc Hi Ho Hn Hs.
  assert (zlen (slice offset (offset + count) (combine cs inputs size)) = count) as Hl
    by (rewrite zlen_slice; rewrite ?zlen_combine; lia).
  apply list_ext_nth; [rewrite length_combine; unfold zlen in Hl; lia|].
  rewrite length_combine. intros p Hp.
  rewrite nth_slice, !nth_combine by (done || lia ||
    (apply Forall_map; eapply Forall_impl; [done|]; simpl; auto with wild)).
  f_equal. unfold at_position. rewrite map_map. apply map_ext. intros input.
  apply nth_slice; lia.
Qed.

(** ** Stripes are invisible *)

(** The outputs after every stripe: what was there, then the rest of the full
    combination. *)
Definition finish (fulls : list bytes) (offset size : Z) (outputs : list (list bytes)) : list bytes :=
  zip_with (λ out full, concat out ++ slice offset size full) outputs fulls.

Lemma finish_step fulls offset count size chunks outputs : 0 <= offset → 0 <= count →
  offset + count <= size → length outputs = length fulls →
  chunks = map (slice offset (offset + count)) fulls →
  finish fulls (offset + count) size (zip_with (λ out c, out ++ [c]) outputs chunks)
  = finish fulls offset size outputs.
Proof.
  intros Ho Hc Hs Hl ->. unfold finish. revert fulls Hl.
  induction outputs as [|out outputs IH]; intros [|full fulls] Hl; simpl in *; [done..|].
  f_equal; [|by apply IH; lia].
  rewrite concat_app. simpl. rewrite app_nil_r, <- app_assoc. f_equal. apply slice_app; lia.
Qed.

Lemma finish_end fulls size offset outputs : size <= offset → length outputs = length fulls →
  finish fulls offset size outputs = map concat outputs.
Proof.
  intros Ho. revert fulls; induction outputs as [|out outputs IH]; intros [|full fulls] Hl; simpl in *; [done..|].
  rewrite slice_empty, app_nil_r by done. f_equal. apply IH. lia.
Qed.

Lemma finish_start fulls size n : Forall (λ f, zlen f = size) fulls → length fulls = n →
  finish fulls 0 size (replicate n []) = fulls.
Proof.
  intros H <-. unfold finish. induction H as [|f fulls Hf H IH]; simpl; [done|].
  rewrite slice_full by lia. simpl. by f_equal.
Qed.

Lemma stripe_count_step size offset n : offset < size →
  (Z.to_nat (ceil_div (size - offset) STRIPE_BYTES) <= n)%nat →
  ∃ n', n = S n' ∧ (Z.to_nat (ceil_div (size - (offset + STRIPE_BYTES)) STRIPE_BYTES) <= n')%nat.
Proof.
  intros Ho Hn. assert (0 < STRIPE_BYTES) as Hs by done.
  pose proof (ceil_div_spec (size - offset) STRIPE_BYTES Hs).
  assert (ceil_div (size - (offset + STRIPE_BYTES)) STRIPE_BYTES
          = ceil_div (size - offset) STRIPE_BYTES - 1) as E by (apply ceil_div_unique; lia).
  destruct n as [|n]; [nia|]. exists n. split; [done|]. lia.
Qed.

Lemma zip_with_combine m data count (outputs : list (list bytes)) : length m = length outputs →
  zip_with (λ row out, out ++ [combine row data count]) m outputs =
  zip_with (λ out c, out ++ [c]) outputs (map (λ row, combine row data count) m).
Proof.
  revert outputs; induction m as [|row m IH]; intros [|out outputs] H; simpl in *; [done..|].
  f_equal. apply IH. lia.
Qed.

(** The slices [encodeParts] cuts the payload into. *)
Definition data_slices (blob : bytes) (k : nat) (size : Z) : list bytes :=
  map (λ i, slice (Z.of_nat i * size) ((Z.of_nat i + 1) * size) blob) (seq 0 k).

Lemma data_slices_ok blob k size : bytes_ok blob → Forall bytes_ok (data_slices blob k size).
Proof. intros H. apply Forall_map, Forall_true. intros i. by apply bytes_ok_slice. Qed.

Lemma encode_data_slice blob k size offset count : 0 <= offset → 0 <= count → offset + count <= size →
  map (λ i, slice (Z.of_nat i * size + offset)
    (Z.min (Z.of_nat i * size + offset + count) ((Z.of_nat i + 1) * size)) blob) (seq 0 k)
  = map (slice offset (offset + count)) (data_slices blob k size).
Proof.
  intros Ho Hc Hs. unfold data_slices. rewrite map_map. apply map_ext. intros i.
  rewrite slice_slice by nia. f_equal; nia.
Qed.

Section Stripes.
Context (m : matrix) (size : Z).
Hypothesis (Hm : Forall bytes_ok m).

Lemma chunks_eq inputs offset : Forall bytes_ok inputs → 0 <= offset < size →
  let count := Z.min STRIPE_BYTES (size - offset) in
  map (λ row, combine row (map (slice offset (offset + count)) inputs) count) m =
  map (slice offset (offset + count)) (map (λ row, combine row inputs size) m).
Proof.
  intros Hi Ho count. rewrite map_map. apply map_ext_Forall. eapply Forall_impl; [done|].
  intros row Hrow. assert (0 < STRIPE_BYTES) by done. apply combine_slice; (done || lia).
Qed.

Lemma encode_stripes_quiet blob k fuel poll offset outputs : bytes_ok blob → 0 <= offset →
  (Z.to_nat (ceil_div (size - offset) STRIPE_BYTES) <= fuel)%nat →
  length m = length outputs →
  ∃ result, encode_stripes fuel quiet poll m blob k size offset outputs = Ok result ∧
    map concat result =
    finish (map (λ row, combine row (data_slices blob k size) size) m) offset size outputs.
Proof.
  intros Hb. revert poll offset outputs; induction fuel as [|fuel IH];
    intros poll offset outputs Ho Hf Hl; unfold encode_stripes; fold encode_stripes.
  - destruct (offset <? size) eqn:E; bool_prop.
    + exfalso. destruct (stripe_count_step size offset 0 E Hf) as (? & ? & ?). done.
    + eexists. split; [done|]. rewrite finish_end; [done|done|by rewrite length_map].
  - destruct (offset <? size) eqn:E; bool_prop.
    + assert (0 < STRIPE_BYTES) by done.
      destruct (stripe_count_step size offset _ E Hf) as (n' & [= <-] & Hn).
      change (checkpoint quiet poll) with (Ok tt). cbn [rbind]. cbv zeta.
      set (count := Z.min STRIPE_BYTES (size - offset)).
      rewrite (encode_data_slice blob k size offset count) by lia.
      rewrite zip_with_combine by done.
      edestruct (IH (poll + 2)%nat (offset + STRIPE_BYTES)) as (result & -> & Hr); [lia|done| |].
      { rewrite length_zip_with, length_map. lia. }
      exists result. split; [done|]. rewrite Hr.
      rewrite <- (finish_step _ offset count size) with (chunks :=
        map (λ row, combine row (map (slice offset (offset + count)) (data_slices blob k size)) count) m);
        [|lia..|by rewrite length_map|apply chunks_eq; [by apply data_slices_ok|lia]].
      destruct (decide (STRIPE_BYTES <= size - offset)).
      * unfold count. rewrite Z.min_l by done. done.
      * rewrite !finish_end; [done|lia| |lia|]; rewrite length_zip_with, !length_map; lia.
    + eexists. split; [done|]. rewrite finish_end; [done|done|by rewrite length_map].
Qed.

Lemma decode_stripes_quiet parts fuel poll offset outputs :
  Forall bytes_ok (map part_blob parts) → 0 <= offset →
  (Z.to_nat (ceil_div (size - offset) STRIPE_BYTES) <= fuel)%nat →
  length m = length outputs →
  ∃ result, decode_stripes fuel quiet poll m parts size offset outputs = Ok result ∧
    map concat result =
    finish (map (λ row, combine row (map part_blob parts) size) m) offset size outputs.
Proof.
  intros Hb. revert poll offset outputs; induction fuel as [|fuel IH];
    intros poll offset outputs Ho Hf Hl; unfold decode_stripes; fold decode_stripes.
  - destruct (offset <? size) eqn:E; bool_prop.
    + exfalso. destruct (stripe_count_step size offset 0 E Hf) as (? & ? & ?). done.
    + eexists. split; [done|]. rewrite finish_end; [done|done|by rewrite length_map].
  - destruct (offset <? size) eqn:E; bool_prop.
    + assert (0 < STRIPE_BYTES) by done.
      destruct (stripe_count_step size offset _ E Hf) as (n' & [= <-] & Hn).
      change (checkpoint quiet poll) with (Ok tt). cbn [rbind]. cbv zeta.
      set (count := Z.min STRIPE_BYTES (size - offset)).
      rewrite <- (map_map part_blob (slice offset (offset + count))).
      rewrite zip_with_combine by done.
      edestruct (IH (poll + 2)%nat (offset + STRIPE_BYTES)) as (result & -> & Hr); [lia|done| |].
      { rewrite length_zip_with, length_map. lia. }
      exists result. split; [done|]. rewrite Hr.
      rewrite <- (finish_step _ offset count size) with (chunks :=
        map (λ row, combine row (map (slice offset (offset + count)) (map part_blob parts)) count) m);
        [|lia..|by rewrite length_map|apply chunks_eq; [done|lia]].
      destruct (decide (STRIPE_BYTES <= size - offset)).
      * unfold count. rewrite Z.min_l by done. done.
      * rewrite !finish_end; [done|lia| |lia|]; rewrite length_zip_with, !length_map; lia.
    + eexists. split; [done|]. rewrite finish_end; [done|done|by rewrite length_map].
Qed.
End Stripes.

(** ** Data parts are the payload, zero padded *)

(** The payload padded to [k] slices of [size] bytes. *)
Definition padded (blob : bytes) (k : nat) (size : Z) : bytes :=
  blob ++ replicate (Z.to_nat (Z.of_nat k * size - zlen blob)) 0.

Definition padded_slice (blob : bytes) (k : nat) (size : Z) (i : nat) : bytes :=
  slice (Z.of_nat i * size) ((Z.of_nat i + 1) * size) (padded blob k size).

Lemma zlen_padded blob k size : zlen blob <= Z.of_nat k * size → zlen (padded blob k size) = Z.of_nat k * size.
Proof. intros. unfold padded. zl. Qed.

Lemma nth_padded blob k size p : nth p (padded blob k size) 0 = nth p blob 0.
Proof.
  unfold padded. destruct (decide (p < length blob)%nat).
  - by rewrite app_nth1.
  - rewrite app_nth2, nth_replicate_0 by lia. by rewrite nth_overflow by lia.
Qed.

Lemma zlen_padded_slice blob k size i : zlen blob <= Z.of_nat k * size → 0 <= size → (i < k)%nat →
  zlen (padded_slice blob k size i) = size.
Proof. intros. unfold padded_slice. rewrite zlen_slice; rewrite ?zlen_padded; nia. Qed.

Lemma nth_data_slice blob k size i p : (i < k)%nat → Z.of_nat p < size →
  nth p (nth i (data_slices blob k size) []) 0 = nth p (padded_slice blob k size i) 0.
Proof.
  intros Hi Hp. unfold data_slices, padded_slice.
  rewrite nth_slice, nth_padded by nia.
  rewrite (nth_lookup (map _ _)), list_lookup_fmap, lookup_seq_lt by done. simpl.
  rewrite nth_slice by nia. done.
Qed.

Lemma concat_padded_slices blob k size : 0 <= size →
  concat (map (padded_slice blob k size) (seq 0 k)) = slice 0 (Z.of_nat k * size) (padded blob k size).
Proof.
  intros Hs. enough (∀ j, concat (map (padded_slice blob k size) (seq 0 j))
    = slice 0 (Z.of_nat j * size) (padded blob k size)) as H by apply H.
  induction j as [|j IH]; [by rewrite slice_empty|].
  rewrite seq_S, map_app, concat_app, IH. simpl. rewrite app_nil_r. unfold padded_slice.
  rewrite slice_app by nia. f_equal. lia.
Qed.

Lemma concat_padded blob k size : 0 <= size → zlen blob <= Z.of_nat k * size →
  slice 0 (zlen blob) (concat (map (padded_slice blob k size) (seq 0 k))) = blob.
Proof.
  intros Hs Hl. rewrite concat_padded_slices, slice_slice by (auto with wild; lia).
  unfold padded. rewrite slice_app_l by (auto with wild; lia). apply slice_full. lia.
Qed.

Lemma length_data_slices blob k size : length (data_slices blob k size) = k.
Proof. unfold data_slices. by rewrite length_map, length_seq. Qed.

Lemma at_position_vec p inputs k : Forall bytes_ok inputs → length inputs = k → vec k (at_position p inputs).
Proof.
  intros Hi <-. split; [apply length_map|]. apply Forall_map. eapply Forall_impl; [done|].
  intros input H. by eapply nth_byte.
Qed.

Lemma nth_at_position p inputs i : nth i (at_position p inputs) 0 = nth p (nth i inputs []) 0.
Proof.
  unfold at_position. rewrite <- (map_nth (λ input, nth p input 0)). f_equal. by destruct p.
Qed.

(** A matrix whose row [r] reads coordinate [i] combines the slices into the
    padded slice [i]. *)
Lemma combine_unit row blob k size i inputs : bytes_ok row → Forall bytes_ok inputs →
  (i < k)%nat → 0 <= size → zlen blob <= Z.of_nat k * size →
  (∀ p, Z.of_nat p < size → dot row (at_position p inputs) = nth i (at_position p (data_slices blob k size)) 0) →
  combine row inputs size = padded_slice blob k size i.
Proof.
  intros Hr Hi Hik Hs Hl H. pose proof (zlen_padded_slice blob k size i Hl Hs Hik) as E. unfold zlen in E.
  apply list_ext_nth; [rewrite length_combine; lia|]. rewrite length_combine. intros p Hp.
  rewrite nth_combine, H, nth_at_position by (done || lia). apply nth_data_slice; lia.
Qed.

(** ** Encoding and decoding *)

Lemma mat_rows_ok k n m : mat n k m → Forall bytes_ok m.
Proof. intros [_ H]. eapply Forall_impl; [done|]. intros row Hrow. apply Hrow. Qed.

Lemma finish_replicate fulls size n : 0 <= size → length fulls = n → Forall (λ f, zlen f = size) fulls →
  ∀ outputs, map concat outputs = finish fulls 0 size (replicate n []) → map concat outputs = fulls.
Proof. intros Hs Hl Hf outputs ->. by apply finish_start. Qed.

Lemma combined_sizes m inputs size : 0 <= size →
  Forall (λ f, zlen f = size) (map (λ row, combine row inputs size) m).
Proof. intros. apply Forall_map, Forall_true. intros row. by apply zlen_combine. Qed.

Lemma ceil_div_covers len required : 2 <= required → required <= len →
  0 < ceil_div len required ∧ len <= Z.of_nat (Z.to_nat required) * ceil_div len required.
Proof.
  intros. pose proof (ceil_div_spec len required). pose proof (ceil_div_pos len required). nia.
Qed.

(** The unstriped product of a coding matrix with the payload's slices. *)
Definition coded (m : matrix) (blob : bytes) (required : Z) : list bytes :=
  let size := ceil_div (zlen blob) required in
  map (λ row, combine row (data_slices blob (Z.to_nat required) size) size) m.

Lemma encodeParts_quiet blob required total g : generator required total = Ok g → bytes_ok blob →
  required <= zlen blob <= max_safe_integer →
  encodeParts quiet blob required total = Ok (coded g blob required).
Proof.
  intros Hg Hb Hl. pose proof (generator_bounds _ _ _ Hg) as [? ?].
  pose proof (generator_mat _ _ _ Hg) as Hm. unfold encodeParts. rewrite Hg. cbn [rbind].
  assert (is_safe_integer (zlen blob) && (required <=? zlen blob) = true) as ->
    by (unfold is_safe_integer; apply andb_true_iff; split; apply Z.leb_le; lia).
  cbn [guard rbind]. set (size := ceil_div (zlen blob) required).
  destruct (ceil_div_covers (zlen blob) required) as [Hs _]; [lia..|]. fold size in Hs.
  edestruct (encode_stripes_quiet g size (mat_rows_ok _ _ _ Hm) blob (Z.to_nat required) (stripe_count size) 0 0)
    as (result & -> & E); [done|done|by rewrite Z.sub_0_r| |].
  { rewrite length_replicate. apply (proj1 Hm). }
  cbn [rbind]. f_equal. unfold coded. revert E. apply finish_replicate; [lia|by rewrite length_map, (proj1 Hm)|apply combined_sizes; lia].
Qed.

Lemma nth_coded g blob required i : (i < length g)%nat →
  nth i (coded g blob required) [] = combine (nth i g [])
    (data_slices blob (Z.to_nat required) (ceil_div (zlen blob) required)) (ceil_div (zlen blob) required).
Proof.
  intros Hi. unfold coded. rewrite !nth_lookup, list_lookup_fmap.
  by destruct (lookup_lt_is_Some_2 g i Hi) as [row ->].
Qed.

Lemma coded_systematic g blob required total i : generator required total = Ok g → bytes_ok blob →
  required <= zlen blob → (i < Z.to_nat required)%nat →
  nth i (coded g blob required) [] =
  padded_slice blob (Z.to_nat required) (ceil_div (zlen blob) required) i.
Proof.
  intros Hg Hb Hl Hi. pose proof (generator_bounds _ _ _ Hg) as [? ?].
  pose proof (generator_mat _ _ _ Hg) as Hm.
  destruct (ceil_div_covers (zlen blob) required) as [Hs Hc]; [lia..|].
  rewrite nth_coded by (rewrite (proj1 Hm); lia).
  apply combine_unit; [|by apply data_slices_ok|done|lia|done|].
  - apply (mat_row _ _ _ i Hm). lia.
  - intros p Hp. apply (generator_systematic _ _ _ Hg); [done|].
    apply at_position_vec; [by apply data_slices_ok|apply length_data_slices].
Qed.

(** Parts picked from an encoding, as [decodeParts] takes them. *)
Definition picked (parts : list bytes) (indices : list nat) : list part :=
  map (λ i, Part (Z.of_nat i) (nth i parts [])) indices.

Lemma picked_fit parts indices required total len : 2 <= required → required <= len <= max_safe_integer →
  NoDup indices → zlen indices = required →
  Forall (λ i, Z.of_nat i < total ∧ zlen (nth i parts []) = ceil_div len required) indices →
  parts_fit (picked parts indices) required total len = true.
Proof.
  intros Hr Hl Hnd Hn Hf. unfold parts_fit, picked. rewrite zlen_map, Hn, map_map. simpl.
  rewrite uniq_id by (apply NoDup_fmap_2; [intros a b; lia|done]).
  rewrite zlen_map, Hn, Z.eqb_refl, !andb_true_r. unfold is_safe_integer.
  repeat (apply andb_true_iff; split); try (apply Z.leb_le; lia).
  apply forallb_forall. intros x (i & <- & Hi)%in_map_iff.
  rewrite Forall_forall in Hf. destruct (Hf i) as [? E]; [by apply list_elem_of_In|]. simpl.
  rewrite E, Z.eqb_refl, andb_true_r. apply andb_true_iff. split; [apply Z.leb_le|apply Z.ltb_lt]; lia.
Qed.

Lemma at_position_picked g blob required total indices p : generator required total = Ok g → bytes_ok blob →
  Forall (λ i, i < Z.to_nat total)%nat indices → Z.of_nat p < ceil_div (zlen blob) required →
  at_position p (map part_blob (picked (coded g blob required) indices)) =
  apply_matrix (pick g indices)
    (at_position p (data_slices blob (Z.to_nat required) (ceil_div (zlen blob) required))).
Proof.
  intros Hg Hb Hi Hp. pose proof (generator_mat _ _ _ Hg) as Hm.
  unfold at_position at 1, apply_matrix, pick, picked. rewrite !map_map. apply map_ext_Forall.
  eapply Forall_impl; [done|]. simpl. intros i Hin.
  rewrite nth_coded by (by rewrite (proj1 Hm)). apply nth_combine; [|by apply data_slices_ok|lia].
  by apply (mat_row _ _ _ i Hm).
Qed.

Lemma picked_ok g blob required total indices : generator required total = Ok g → bytes_ok blob →
  Forall (λ i, i < Z.to_nat total)%nat indices →
  Forall bytes_ok (map part_blob (picked (coded g blob required) indices)).
Proof.
  intros Hg Hb Hi. pose proof (generator_mat _ _ _ Hg) as Hm.
  unfold picked. rewrite map_map. apply Forall_map. eapply Forall_impl; [done|]. simpl. intros i Hin.
  rewrite nth_coded by (by rewrite (proj1 Hm)).
  apply combine_ok; [by apply (mat_row _ _ _ i Hm)|by apply data_slices_ok].
Qed.

Lemma decodeParts_quiet blob required total g indices : generator required total = Ok g → bytes_ok blob →
  required <= zlen blob <= max_safe_integer → NoDup indices → zlen indices = required →
  Forall (λ i, Z.of_nat i < total) indices →
  decodeParts quiet (picked (coded g blob required) indices) required total (zlen blob) = Ok blob.
Proof.
  intros Hg Hb Hl Hnd Hn Hi. pose proof (generator_bounds _ _ _ Hg) as [? ?].
  pose proof (generator_mat _ _ _ Hg) as Hm.
  destruct (ceil_div_covers (zlen blob) required) as [Hs Hc]; [lia..|].
  set (k := Z.to_nat required) in *. set (size := ceil_div (zlen blob) required) in *.
  assert (length indices = k) as Hk by (unfold zlen in Hn; lia).
  assert (Forall (λ i, i < Z.to_nat total)%nat indices) as Hi' by (eapply Forall_impl; [done|]; simpl; lia).
  unfold decodeParts. rewrite Hg. cbn [rbind]. rewrite picked_fit; [|lia|done|done|done|].
  2:{ eapply Forall_impl; [apply Hi'|]. simpl. intros i ?. split; [lia|].
      rewrite nth_coded by (by rewrite (proj1 Hm)). apply zlen_combine. fold size. lia. }
  cbn [guard rbind].
  assert (map (λ p, nth (Z.to_nat (part_index p)) g []) (picked (coded g blob required) indices)
    = pick g indices) as ->.
  { unfold picked, pick. rewrite map_map. apply map_ext. intros i. simpl. by rewrite Nat2Z.id. }
  pose proof (pick_mat k _ g indices Hm Hi') as Hpm. rewrite Hk in Hpm.
  pose proof (generator_pick_injective _ _ _ Hg indices Hnd Hi' Hk) as Hinj.
  destruct (invert_injective k _ Hpm Hinj) as [decoding Hd]. rewrite Hd. cbn [rbind]. fold size k.
  pose proof (invert_shape _ _ _ Hpm Hd) as Hdm.
  pose proof (picked_ok g blob required total indices Hg Hb Hi') as Hpb.
  edestruct (decode_stripes_quiet decoding size (mat_rows_ok _ _ _ Hdm) _ (stripe_count size) 0 0 (replicate k []) Hpb)
    as (result & -> & E); [lia|by rewrite Z.sub_0_r|by rewrite length_replicate, (proj1 Hdm)|].
  cbn [rbind]. f_equal. erewrite finish_replicate; [..|exact E];
    [|lia|by rewrite length_map, (proj1 Hdm)|apply combined_sizes; lia].
  rewrite <- (concat_padded blob k size) at 2 by (done || lia). do 2 f_equal.
  apply list_eq_same_length with (n := k); [by rewrite length_map, length_seq|by rewrite length_map, (proj1 Hdm)|].
  intros i x y Hik Hx Hy. rewrite list_lookup_fmap, lookup_seq_lt in Hy by done. injection Hy as <-.
  rewrite list_lookup_fmap in Hx. apply fmap_Some in Hx as (row & Hrow & ->). simpl.
  assert (nth i decoding [] = row) as Er by (by rewrite nth_lookup, Hrow).
  apply combine_unit; [|done|done|lia|done|].
  - rewrite <- Er. by apply (mat_row _ _ _ i Hdm).
  - intros p Hp. rewrite at_position_picked with (total := total) by done. fold size k.
    set (x := at_position p (data_slices blob k size)).
    assert (vec k x) as Hx by (apply at_position_vec; [by apply data_slices_ok|apply length_data_slices]).
    rewrite <- Er, <- nth_apply by (rewrite (proj1 Hdm); done). f_equal.
    apply (invert_spec k (pick g indices)); [done|done|done| |done]. eapply apply_vec; [done|apply Hx].
Qed.

(** ** Cancellation *)

Lemma checkpoint_cases signal k : checkpoint signal k = Ok tt ∨ checkpoint signal k = Throw "AbortError".
Proof. unfold checkpoint. destruct (signal k), (signal (S k)); simpl; auto. Qed.

Lemma encode_stripes_abort signal fuel k m blob required size offset outputs :
  encode_stripes fuel signal k m blob required size offset outputs = encode_stripes fuel quiet k m blob required size offset outputs
  ∨ encode_stripes fuel signal k m blob required size offset outputs = Throw "AbortError".
Proof.
  revert k offset outputs; induction fuel as [|fuel IH]; intros k offset outputs; cbn [encode_stripes].
  - destruct (_ <? _); [by left|]. destruct (signal k); cbn; auto.
  - destruct (_ <? _); [|destruct (signal k); cbn; auto].
    change (checkpoint quiet k) with (Ok tt).
    destruct (checkpoint_cases signal k) as [-> | ->]; cbn [rbind]; [apply IH|by right].
Qed.

Lemma decode_stripes_abort signal fuel k m parts size offset outputs :
  decode_stripes fuel signal k m parts size offset outputs = decode_stripes fuel quiet k m parts size offset outputs
  ∨ decode_stripes fuel signal k m parts size offset outputs = Throw "AbortError".
Proof.
  revert k offset outputs; induction fuel as [|fuel IH]; intros k offset outputs; cbn [decode_stripes].
  - destruct (_ <? _); [by left|]. destruct (signal k); cbn; auto.
  - destruct (_ <? _); [|destruct (signal k); cbn; auto].
    change (checkpoint quiet k) with (Ok tt).
    destruct (checkpoint_cases signal k) as [-> | ->]; cbn [rbind]; [apply IH|by right].
Qed.

Lemma encodeParts_abort_cases signal blob required total :
  encodeParts signal blob required total = encodeParts quiet blob required total
  ∨ encodeParts signal blob required total = Throw "AbortError".
Proof.
  unfold encodeParts. destruct (generator required total); cbn [rbind]; [|by left].
  destruct (guard _ _); cbn [rbind]; [|by left].
  match goal with |- context [encode_stripes ?f signal ?k ?m ?b ?r ?s ?o ?outs] =>
    destruct (encode_stripes_abort signal f k m b r s o outs) as [-> | ->] end; [by left|by right].
Qed.

Lemma encodeParts_coded signal blob required total parts : encodeParts signal blob required total = Ok parts →
  bytes_ok blob → ∃ g, generator required total = Ok g ∧ required <= zlen blob <= max_safe_integer ∧
  parts = coded g blob required.
Proof.
  intros H Hb. assert (encodeParts quiet blob required total = Ok parts) as H'.
  { destruct (encodeParts_abort_cases signal blob required total) as [E|E]; congruence. }
  clear H. pose proof H' as H. unfold encodeParts in H. inv_ok. unfold is_safe_integer in *. bool_prop.
  assert (required <= zlen blob <= max_safe_integer) as Hl by lia.
  exists x. split_and!; [done|lia|lia|]. rewrite (encodeParts_quiet blob required total x) in H' by done. by injection H'.
Qed.

(** ** What a successful reconstruction checked *)

Lemma generator_codingBounds required total g : generator required total = Ok g → codingBounds required total = Ok tt.
Proof. unfold generator. intros H. inv_ok. by destruct x. Qed.

Lemma decodeParts_unfold signal parts required total len blob :
  decodeParts signal parts required total len = Ok blob →
  ∃ g, generator required total = Ok g ∧ parts_fit parts required total len = true ∧
  ∃ decoding, invert (map (λ p, nth (Z.to_nat (part_index p)) g []) parts) = Ok decoding ∧
  ∃ outputs, decode_stripes (stripe_count (ceil_div len required)) quiet 0 decoding parts (ceil_div len required) 0
      (replicate (Z.to_nat required) []) = Ok outputs ∧
    blob = slice 0 len (concat (map concat outputs)).
Proof.
  unfold decodeParts. intros H. inv_ok. exists x. split_and!; [done..|]. eexists. split; [done|].
  match type of E1 with decode_stripes ?f ?s ?k ?m ?b ?r ?o ?outs = _ =>
    destruct (decode_stripes_abort s f k m b r o outs) as [Eq|Eq] end; [|congruence].
  eexists. split; [|done]. congruence.
Qed.

Lemma concat_length size (l : list bytes) : Forall (λ f, zlen f = size) l → zlen (concat l) = zlen l * size.
Proof. induction 1 as [|f l Hf Hl IH]; [done|]. simpl. rewrite zlen_app, zlen_cons, IH. lia. Qed.

Lemma decodeParts_length signal parts required total len blob :
  decodeParts signal parts required total len = Ok blob → Forall bytes_ok (map part_blob parts) → zlen blob = len.
Proof.
  intros H Hp. apply decodeParts_unfold in H as (g & Hg & Hf & decoding & Hd & outputs & Ho & ->).
  pose proof (generator_bounds _ _ _ Hg) as [? ?]. pose proof (generator_mat _ _ _ Hg) as Hm.
  unfold parts_fit, is_safe_integer in Hf. bool_prop.
  destruct (ceil_div_covers len required) as [Hs Hc]; [lia..|].
  set (k := Z.to_nat required) in *. set (size := ceil_div len required) in *.
  assert (mat k k (map (λ p, nth (Z.to_nat (part_index p)) g []) parts)) as Hpm.
  { split; [rewrite length_map; unfold zlen in *; lia|]. apply Forall_map. apply Forall_forall.
    match goal with H : forallb _ _ = true |- _ => rewrite forallb_forall in H; rename H into Hall end.
    intros p Hin%list_elem_of_In. specialize (Hall p Hin). simpl. bool_prop. apply (mat_row _ _ _ _ Hm). lia. }
  pose proof (invert_shape _ _ _ Hpm Hd) as Hdm.
  edestruct (decode_stripes_quiet decoding size (mat_rows_ok _ _ _ Hdm) parts (stripe_count size) 0 0 (replicate k []))
    as (result & E & Er); [done|lia|by rewrite Z.sub_0_r|by rewrite length_replicate, (proj1 Hdm)|].
  rewrite Ho in E. injection E as <-.
  erewrite finish_replicate; [..|exact Er];
    [|lia|by rewrite length_map, (proj1 Hdm)|apply combined_sizes; lia].
  rewrite zlen_slice; [lia|lia|]. rewrite (concat_length size) by (apply combined_sizes; lia).
  rewrite zlen_map. unfold zlen. rewrite (proj1 Hdm). lia.
Qed.

(** ** The properties of the code *)

(** C15: any [required] distinct parts of a successful encoding, in any order,
    decode to exactly the encoded payload. *)
Theorem decode_any_parts signal blob required total parts indices :
  encodeParts signal blob required total = Ok parts → bytes_ok blob →
  NoDup indices → zlen indices = required → Forall (λ i, Z.of_nat i < total) indices →
  decodeParts quiet (picked parts indices) required total (zlen blob) = Ok blob.
Proof.
  intros H Hb Hnd Hn Hi. destruct (encodeParts_coded _ _ _ _ _ H Hb) as (g & Hg & Hl & ->).
  by apply decodeParts_quiet.
Qed.

Lemma decode_any_parts_witness :
  decodeParts quiet (picked [[10; 20; 30]; [40; 50; 0]; [78; 88; 34]; [108; 126; 60]] [3%nat; 0%nat]) 2 4 5
  = Ok [10; 20; 30; 40; 50].
Proof.
  apply (decode_any_parts quiet [10; 20; 30; 40; 50] 2 4); [exact small_code| | |reflexivity|].
  - repeat (constructor; [unfold byte_ok; lia|]). constructor.
  - apply (bool_decide_unpack _). reflexivity.
  - repeat (constructor; [lia|]). constructor.
Defined.

(** C39: for every valid code and every payload long enough to split, encoding
    succeeds; it gives [total] parts of the same size, and they are the plain
    product of the generator with the payload's slices, so the 64 KiB stripes
    and the multiplication table are an optimisation only. *)
Theorem encode_reference blob required total :
  codingBounds required total = Ok tt → bytes_ok blob → required <= zlen blob <= max_safe_integer →
  ∃ g, generator required total = Ok g ∧ encodeParts quiet blob required total = Ok (coded g blob required) ∧
    zlen (coded g blob required) = total ∧
    Forall (λ p, zlen p = ceil_div (zlen blob) required) (coded g blob required).
Proof.
  intros Hc Hb Hl. destruct (generator_succeeds _ _ Hc) as [g Hg]. exists g.
  pose proof (generator_bounds _ _ _ Hg) as [? ?]. pose proof (generator_mat _ _ _ Hg) as Hm.
  destruct (ceil_div_covers (zlen blob) required) as [Hs _]; [lia..|].
  split_and!; [done|by apply encodeParts_quiet| |].
  - unfold coded. rewrite zlen_map. unfold zlen. rewrite (proj1 Hm). lia.
  - apply combined_sizes. lia.
Qed.

Lemma encode_reference_witness : ∃ g, generator 2 4 = Ok g ∧
  encodeParts quiet [1; 2; 3] 2 4 = Ok (coded g [1; 2; 3] 2) ∧ zlen (coded g [1; 2; 3] 2) = 4 ∧
  Forall (λ p, zlen p = ceil_div (zlen [1; 2; 3]) 2) (coded g [1; 2; 3] 2).
Proof.
  apply encode_reference; [reflexivity| |split; vm_compute; discriminate].
  repeat (constructor; [unfold byte_ok; lia|]). constructor.
Defined.

(** The code is systematic: the first [required] parts concatenated and cut
    to the payload's length are the payload itself. *)
Theorem encode_systematic signal blob required total parts :
  encodeParts signal blob required total = Ok parts → bytes_ok blob →
  slice 0 (zlen blob) (concat (take (Z.to_nat required) parts)) = blob.
Proof.
  intros H Hb. destruct (encodeParts_coded _ _ _ _ _ H Hb) as (g & Hg & Hl & ->).
  pose proof (generator_bounds _ _ _ Hg) as [? ?]. pose proof (generator_mat _ _ _ Hg) as Hm.
  destruct (ceil_div_covers (zlen blob) required) as [Hs Hc]; [lia..|].
  rewrite <- (concat_padded blob (Z.to_nat required) (ceil_div (zlen blob) required)) at 3 by lia.
  do 2 f_equal. apply list_eq_same_length with (n := Z.to_nat required).
  - by rewrite length_map, length_seq.
  - rewrite length_take. unfold coded. rewrite length_map, (proj1 Hm). lia.
  - intros i x y Hi Hx Hy. rewrite list_lookup_fmap, lookup_seq_lt in Hy by done. injection Hy as <-.
    rewrite lookup_take_lt in Hx by done. simpl.
    rewrite <- (coded_systematic g blob required total) by (done || lia). by rewrite nth_lookup, Hx.
Qed.

Lemma encode_systematic_witness :
  slice 0 5 (concat (take 2 [[10; 20; 30]; [40; 50; 0]; [78; 88; 34]; [108; 126; 60]])) = [10; 20; 30; 40; 50].
Proof.
  apply (encode_systematic quiet [10; 20; 30; 40; 50] 2 4); [exact small_code|].
  repeat (constructor; [unfold byte_ok; lia|]). constructor.
Defined.

(** An abort signal can only replace the result with ["AbortError"]: a run
    that is not aborted gives the same parts as a run without a signal, and a
    signal that has already fired stops the encoding before it gives any. *)
Theorem encode_abort signal blob required total :
  (encodeParts signal blob required total = encodeParts quiet blob required total ∨
   encodeParts signal blob required total = Throw "AbortError") ∧
  (signal 0%nat = true → is_ok (encodeParts signal blob required total) = false).
Proof.
  split; [apply encodeParts_abort_cases|]. intros Hs.
  destruct (encodeParts signal blob required total) as [parts|] eqn:H; [|done].
  exfalso. unfold encodeParts in H. inv_ok.
  destruct (stripe_count (ceil_div (zlen blob) required)); cbn [encode_stripes] in E0;
    destruct (_ <? _) in E0; unfold checkpoint in E0; rewrite ?Hs in E0; discriminate E0.
Qed.

Lemma encode_abort_witness :
  is_ok (encodeParts (λ _, true) [1; 2; 3] 2 4) = false.
Proof. apply (encode_abort (λ _, true) [1; 2; 3] 2 4). reflexivity. Defined.

(** Reconstruction refuses every malformed request: a result means valid
    parameters, exactly [required] parts with distinct indices in range, each of
    the size the length dictates, and the result has exactly that length. *)
Theorem decode_checks signal parts required total len blob :
  decodeParts signal parts required total len = Ok blob → Forall bytes_ok (map part_blob parts) →
  codingBounds required total = Ok tt ∧ required <= len <= max_safe_integer ∧
  zlen parts = required ∧ NoDup (map part_index parts) ∧
  Forall (λ p, 0 <= part_index p < total ∧ zlen (part_blob p) = ceil_div len required) parts ∧
  zlen blob = len.
Proof.
  intros H Hp. pose proof (decodeParts_unfold _ _ _ _ _ _ H) as (g & Hg & Hf & _).
  pose proof (decodeParts_length _ _ _ _ _ _ H Hp).
  unfold parts_fit, is_safe_integer in Hf. bool_prop.
  split_and!; [by eapply generator_codingBounds|lia|lia|lia| | |done].
  - apply uniq_length_NoDup. unfold zlen in *. rewrite length_map. lia.
  - eapply Forall_forallb; [|done]. simpl. intros p Hq. bool_prop. lia.
Qed.

Lemma decode_checks_witness : zlen [Part 0 [10; 20; 30]; Part 1 [40; 50; 0]] = 2.
Proof.
  apply (decode_checks quiet [Part 0 [10; 20; 30]; Part 1 [40; 50; 0]] 2 4 5 [10; 20; 30; 40; 50]).
  - vm_compute. reflexivity.
  - repeat constructor; discriminate.
Defined.
