(* ===== verification/JsString.v ===== *)
(** * JavaScript strings

    A string is the list of its UTF-16 code units. The functions of the language
    that the program calls are defined here: trimming, splitting, joining,
    searching, decimal and hexadecimal numerals, [TextEncoder] and the fatal
    [TextDecoder]. [toLowerCase] and [normalize] outside ASCII depend on the
    Unicode character database, so they are the operations of a class. *)

From S2P Require Import Prelude.

Abbreviation jstr := (list Z).

Definition unit_ok (u : Z) : Prop := 0 <= u < 65536.
Definition jstr_ok (s : jstr) : Prop := Forall unit_ok s.

(** An ASCII literal. *)
Definition lit (s : string) : jstr := map (λ a, Z.of_N (Ascii.N_of_ascii a)) (String.list_ascii_of_string s).
Arguments lit s%_string.

Definition in_range (a b u : Z) : bool := (a <=? u) && (u <=? b).
Definition is_digit (u : Z) : bool := in_range 48 57 u.
Definition is_lower (u : Z) : bool := in_range 97 122 u.
Definition is_upper (u : Z) : bool := in_range 65 90 u.
Definition is_alnum (u : Z) : bool := is_digit u || is_lower u || is_upper u.
Definition is_hex (u : Z) : bool := is_digit u || in_range 97 102 u.
Definition is_control (u : Z) : bool := in_range 0 31 u || (u =? 127).
(** [\s], which is also what [trim] removes. *)
Definition is_space (u : Z) : bool :=
  in_range 9 13 u || (u =? 32) || (u =? 160) || (u =? 5760) || in_range 8192 8202 u ||
  (u =? 8232) || (u =? 8233) || (u =? 8239) || (u =? 8287) || (u =? 12288) || (u =? 65279).

Definition eqb (s t : jstr) : bool := bool_decide (s = t).
Definition non_empty (s : jstr) : bool := negb (eqb s []).

Lemma eqb_eq s t : eqb s t = true ↔ s = t.
Proof. unfold eqb. apply bool_decide_eq_true. Qed.

(** ** Trimming, splitting, joining *)

Fixpoint drop_while (p : Z → bool) (s : jstr) : jstr :=
  match s with
  | [] => []
  | c :: rest => if p c then drop_while p rest else s
  end.
Definition drop_end (p : Z → bool) (s : jstr) : jstr := rev (drop_while p (rev s)).
Definition trimStart : jstr → jstr := drop_while is_space.
Definition trimEnd : jstr → jstr := drop_end is_space.
Definition trim (s : jstr) : jstr := trimEnd (trimStart s).

(** [s.split(/[..]/)] for a class of single code units. *)
Fixpoint split_from (p : Z → bool) (acc : jstr) (s : jstr) : list jstr :=
  match s with
  | [] => [rev acc]
  | c :: s => if p c then rev acc :: split_from p [] s else split_from p (c :: acc) s
  end.
Definition split (p : Z → bool) (s : jstr) : list jstr := split_from p [] s.

Fixpoint join (sep : jstr) (l : list jstr) : jstr :=
  match l with
  | [] => []
  | s :: l => match l with [] => s | _ :: _ => s ++ sep ++ join sep l end
  end.

Lemma join_cons sep s t l : join sep (s :: t :: l) = s ++ sep ++ join sep (t :: l).
Proof. done. Qed.

Fixpoint startsWith (s p : jstr) {struct p} : bool :=
  match p, s with
  | [], _ => true
  | c :: p, d :: s => (c =? d) && startsWith s p
  | _ :: _, [] => false
  end.
Definition endsWith (s p : jstr) : bool := startsWith (rev s) (rev p).
Definition includes (s : jstr) (c : Z) : bool := existsb (Z.eqb c) s.

Lemma startsWith_spec s p : startsWith s p = true ↔ ∃ t, s = p ++ t.
Proof.
  revert s; induction p as [|c p IH]; intros s; simpl; [split; [intros _; by exists s|intros _; reflexivity]|].
  destruct s as [|d s]; [split; [intros H; discriminate H|intros (t & H); discriminate H]|].
  rewrite andb_true_iff, Z.eqb_eq, IH. split.
  - intros [-> [t ->]]. by exists t.
  - intros [t [= -> ->]]. eauto.
Qed.

Lemma drop_while_suffix p s : ∃ t, s = t ++ drop_while p s ∧ Forall (λ c, p c = true) t.
Proof.
  induction s as [|c s (t & E & H)]; simpl; [by exists []; split; [|constructor]|].
  destruct (p c) eqn:Ep; [|by exists []; split; [|constructor]]. exists (c :: t). split; [simpl; by f_equal|by constructor].
Qed.

Lemma drop_while_head p s : match drop_while p s with [] => True | c :: _ => p c = false end.
Proof. induction s as [|c s IH]; simpl; [done|]. by destruct (p c) eqn:E. Qed.

Lemma drop_while_id p s : match s with [] => True | c :: _ => p c = false end → drop_while p s = s.
Proof. destruct s as [|c s]; simpl; [done|]. by intros ->. Qed.

Lemma drop_end_prefix p s : ∃ t, s = drop_end p s ++ t ∧ Forall (λ c, p c = true) t.
Proof.
  destruct (drop_while_suffix p (rev s)) as (t & E & H). exists (rev t).
  unfold drop_end. split; [|by apply Forall_rev]. by rewrite <- rev_app_distr, <- E, rev_involutive.
Qed.

Lemma drop_end_id p s c : p c = false → drop_end p (s ++ [c]) = s ++ [c].
Proof. intros H. unfold drop_end. rewrite rev_app_distr. simpl. rewrite H. simpl. by rewrite rev_involutive. Qed.

Lemma drop_end_last p s : drop_end p s = [] ∨ ∃ t c, drop_end p s = t ++ [c] ∧ p c = false.
Proof.
  unfold drop_end. pose proof (drop_while_head p (rev s)) as H.
  destruct (drop_while p (rev s)) as [|c t]; [by left|]. right. by exists (rev t), c.
Qed.

Lemma drop_end_idem p s : drop_end p (drop_end p s) = drop_end p s.
Proof. destruct (drop_end_last p s) as [->|(t & c & -> & H)]; [done|by apply drop_end_id]. Qed.

Lemma elem_of_drop_end p s c : c ∈ drop_end p s → c ∈ s.
Proof. intros H. destruct (drop_end_prefix p s) as (t & -> & _). set_solver. Qed.

Lemma elem_of_drop_while p s c : c ∈ drop_while p s → c ∈ s.
Proof. intros H. destruct (drop_while_suffix p s) as (t & -> & _). set_solver. Qed.

(** ** Decimal numerals *)

(** The digits of [n], with enough fuel for its length. *)
Fixpoint decimal_fuel (fuel : nat) (n : Z) : jstr :=
  match fuel with
  | O => [48 + n mod 10]
  | S fuel => if n <? 10 then [48 + n] else decimal_fuel fuel (n / 10) ++ [48 + n mod 10]
  end.
(** [String(n)] for a non-negative safe integer. *)
Definition decimal (n : Z) : jstr := decimal_fuel (Z.to_nat (Z.log2 n)) n.

Definition digits_value (s : jstr) : Z := foldl (λ acc c, acc * 10 + (c - 48)) 0 s.

Lemma digits_value_snoc s c : digits_value (s ++ [c]) = digits_value s * 10 + (c - 48).
Proof. unfold digits_value. by rewrite foldl_snoc. Qed.

(** A numeral without a leading zero. *)
Definition is_decimal (s : jstr) : bool :=
  match s with
  | [] => false
  | c :: rest => forallb is_digit s && (negb (c =? 48) || eqb rest [])
  end.

Lemma decimal_fuel_step fuel n : 10 <= n → (Z.to_nat (Z.log2 n) <= S fuel)%nat → (Z.to_nat (Z.log2 (n / 10)) <= fuel)%nat.
Proof.
  intros Hn Hf. assert (Z.log2 (n / 10) < Z.log2 n); [|pose proof (Z.log2_nonneg (n / 10)); lia].
  assert (0 < n / 10) by (apply Z.div_str_pos; lia).
  apply Z.log2_lt_pow2; [done|]. pose proof (Z.log2_spec n ltac:(lia)) as [_ Hs].
  rewrite Z.pow_succ_r in Hs by apply Z.log2_nonneg. apply Z.div_lt_upper_bound; lia.
Qed.

Lemma decimal_fuel_spec fuel n : 0 <= n → (Z.to_nat (Z.log2 n) <= fuel)%nat →
  digits_value (decimal_fuel fuel n) = n ∧ is_decimal (decimal_fuel fuel n) = true ∧
  (0 < n → ∃ c t, decimal_fuel fuel n = c :: t ∧ c ≠ 48).
Proof.
  revert n; induction fuel as [|fuel IH]; intros n Hn Hf; cbn [decimal_fuel].
  - assert (n < 2) as Hs.
    { destruct (decide (n < 2)); [done|]. assert (Z.log2 2 <= Z.log2 n) by (apply Z.log2_le_mono; lia).
      change (Z.log2 2) with 1 in *. lia. }
    rewrite Z.mod_small by lia. assert (n = 0 ∨ n = 1) as [-> | ->] by lia; (split_and!; [done|done|]).
    + lia.
    + intros _. eexists _, _. split; [done|lia].
  - destruct (Z.ltb_spec n 10).
    + split_and!; [unfold digits_value; simpl; lia| |intros; eexists _, []; split; [done|lia]].
      unfold is_decimal. simpl. apply andb_true_iff. split; [|by rewrite orb_true_r].
      unfold is_digit, in_range. rewrite andb_true_r. apply andb_true_iff. split; apply Z.leb_le; lia.
    + pose proof (Z.div_str_pos n 10 ltac:(lia)) as Hq. pose proof (Z.mod_pos_bound n 10 ltac:(lia)).
      destruct (IH (n / 10)) as (Hv & Hd & Hc); [lia|by apply decimal_fuel_step|].
      rewrite digits_value_snoc, Hv. pose proof (Z.div_mod n 10). destruct (Hc ltac:(lia)) as (c & t & E & Hne).
      rewrite E in *. split_and!; [lia| |intros; by eexists _, _].
      unfold is_decimal in *. rewrite <- app_comm_cons, app_comm_cons, forallb_app. apply andb_true_iff in Hd as [Hd _].
      rewrite Hd. cbn [forallb]. assert (is_digit (48 + n mod 10) = true) as ->
        by (unfold is_digit, in_range; apply andb_true_iff; split; apply Z.leb_le; lia).
      cbn. rewrite orb_true_iff. left. by apply negb_true_iff, Z.eqb_neq.
Qed.

Lemma decimal_length fuel n : zlen (decimal_fuel fuel n) <= Z.of_nat fuel + 1.
Proof.
  revert n. induction fuel as [|fuel IH]; intros n; cbn [decimal_fuel]; [done|].
  destruct (n <? 10); [rewrite zlen_single; lia|]. rewrite zlen_app, zlen_single. specialize (IH (n / 10)). lia.
Qed.

Lemma digits_value_decimal n : 0 <= n → digits_value (decimal n) = n.
Proof. intros. by apply decimal_fuel_spec. Qed.

Lemma is_decimal_decimal n : 0 <= n → is_decimal (decimal n) = true.
Proof. intros. by apply decimal_fuel_spec. Qed.

Lemma decimal_digits n : 0 <= n → forallb is_digit (decimal n) = true.
Proof.
  intros Hn. pose proof (is_decimal_decimal n Hn) as H. unfold is_decimal in H.
  destruct (decimal n); [done|]. by apply andb_true_iff in H as [? _].
Qed.

Lemma digits_value_app s t : digits_value (s ++ t) = digits_value s * 10 ^ zlen t + digits_value t.
Proof.
  induction t as [|c t IH] using rev_ind; [rewrite app_nil_r; unfold zlen, digits_value; simpl; lia|].
  rewrite app_assoc, !digits_value_snoc, IH, zlen_app, zlen_single, Z.pow_add_r by (lia || auto with wild).
  change (10 ^ 1) with 10. lia.
Qed.

Lemma digits_value_bound s : forallb is_digit s = true → 0 <= digits_value s < 10 ^ zlen s.
Proof.
  induction s as [|c s IH] using rev_ind; [unfold zlen, digits_value; simpl; lia|].
  rewrite forallb_app, digits_value_snoc, zlen_app, zlen_single, Z.pow_add_r by (lia || auto with wild).
  change (10 ^ 1) with 10. cbn [forallb]. rewrite andb_true_r. intros [H Hc]%andb_true_iff.
  unfold is_digit, in_range in Hc. bool_prop. specialize (IH H). lia.
Qed.

(** Digits without a leading zero are determined by their value. *)
Lemma digits_unique s t : is_decimal s = true → is_decimal t = true → digits_value s = digits_value t → s = t.
Proof.
  revert t; induction s as [|c s IH] using rev_ind; intros t Hs Ht E; [done|].
  destruct t as [|d t _] using rev_ind; [done|].
  rewrite !digits_value_snoc in E.
  assert (is_digit c = true ∧ is_digit d = true) as [Hc Hd].
  { unfold is_decimal in *. destruct (s ++ [c]) eqn:E1, (t ++ [d]) eqn:E2; try done. rewrite <- E1 in Hs at 1. rewrite <- E2 in Ht at 1.
    rewrite forallb_app in *. bool_prop. cbn in *. by rewrite andb_true_r in *. }
  unfold is_digit, in_range in *. bool_prop. assert (c = d ∧ digits_value s = digits_value t) as [-> E'] by lia.
  f_equal.
  assert (∀ u e, is_decimal (u ++ [e]) = true → u = [] ∨ is_decimal u = true ∧ 0 < digits_value u) as Hp.
  { clear. intros u e H. destruct u as [|x u]; [by left|]. right. unfold is_decimal in *. cbn [app] in H.
    rewrite app_comm_cons, forallb_app in H. bool_prop. cbn in *. bool_prop.
    assert (x ≠ 48) as Hx.
    { apply orb_true_iff in H as [H|H]; bool_prop; [done|]. apply eqb_eq in H. by destruct u. }
    split; [apply andb_true_iff; split; [by apply andb_true_iff|]; apply orb_true_iff; left; by apply negb_true_iff, Z.eqb_neq|].
    change (0 < digits_value ([x] ++ u)). rewrite digits_value_app.
    pose proof (digits_value_bound u ltac:(done)). unfold is_digit, in_range in *. bool_prop.
    unfold digits_value at 1. simpl. pose proof (Z.pow_pos_nonneg 10 (zlen u)). pose proof (zlen_nonneg u). nia. }
  destruct (Hp s d Hs) as [-> | [Hs' Hv]], (Hp t d Ht) as [-> | [Ht' Hv']]; [done| | |by apply IH].
  - change (digits_value []) with 0 in E'. lia.
  - change (digits_value []) with 0 in E'. lia.
Qed.

(** Numerals without a leading zero are exactly the printed ones. *)
Lemma is_decimal_value s : is_decimal s = true → decimal (digits_value s) = s.
Proof.
  intros H. assert (0 <= digits_value s) as Hn.
  { apply digits_value_bound. unfold is_decimal in H. destruct s; [done|]. by bool_prop. }
  apply digits_unique; [by apply is_decimal_decimal|done|by apply digits_value_decimal].
Qed.
