(* ===== verification/Utf8.v ===== *)
(** * [TextEncoder], the fatal [TextDecoder], and Unicode tables

    UTF-16 to code points to UTF-8 and back, as the Encoding standard has them:
    the encoder replaces a lone surrogate with U+FFFD, the fatal decoder refuses
    overlong forms, surrogates, truncation and anything past U+10FFFF. *)

From S2P Require Import Prelude JsString.

Definition is_high (u : Z) : bool := in_range 55296 56319 u.
Definition is_low (u : Z) : bool := in_range 56320 57343 u.
Definition REPLACEMENT : Z := 65533.

(** A Unicode scalar value. *)
Definition scalar (cp : Z) : bool := in_range 0 55295 cp || in_range 57344 1114111 cp.

(** Code points of a string; a lone surrogate gives [lone u]. *)
Fixpoint points (lone : Z → Z) (s : jstr) : list Z :=
  match s with
  | [] => []
  | c :: rest =>
      if is_high c then
        match rest with
        | d :: rest' =>
            if is_low d then (65536 + (c - 55296) * 1024 + (d - 56320)) :: points lone rest'
            else lone c :: points lone rest
        | [] => [lone c]
        end
      else if is_low c then lone c :: points lone rest
      else c :: points lone rest
  end.

(** [/\p{Surrogate}/u.test(s)]: in Unicode mode only a lone surrogate is one. *)
Definition lone_surrogate (s : jstr) : bool :=
  existsb (λ cp, is_high cp || is_low cp) (points id s).

Definition utf16_char (cp : Z) : jstr :=
  if cp <? 65536 then [cp]
  else [55296 + (cp - 65536) / 1024; 56320 + (cp - 65536) mod 1024].

Definition utf8_char (cp : Z) : bytes :=
  if cp <? 128 then [cp]
  else if cp <? 2048 then [192 + cp / 64; 128 + cp mod 64]
  else if cp <? 65536 then [224 + cp / 4096; 128 + (cp / 64) mod 64; 128 + cp mod 64]
  else [240 + cp / 262144; 128 + (cp / 4096) mod 64; 128 + (cp / 64) mod 64; 128 + cp mod 64].

(** [new TextEncoder().encode(s)]. *)
Definition utf8_encode (s : jstr) : bytes := flat_map utf8_char (points (λ _, REPLACEMENT) s).

Definition cont (b : Z) : bool := in_range 128 191 b.
Definition ocons (cp : Z) (m : option (list Z)) : option (list Z) :=
  match m with Some l => Some (cp :: l) | None => None end.

Fixpoint utf8_points (l : bytes) : option (list Z) :=
  match l with
  | [] => Some []
  | b0 :: l1 =>
      if b0 <? 128 then ocons b0 (utf8_points l1)
      else match l1 with
      | [] => None
      | b1 :: l2 =>
          if negb (cont b1) then None
          else if in_range 194 223 b0 then ocons ((b0 - 192) * 64 + (b1 - 128)) (utf8_points l2)
          else match l2 with
          | [] => None
          | b2 :: l3 =>
              if negb (cont b2) then None
              else if in_range 224 239 b0 then
                let cp := (b0 - 224) * 4096 + (b1 - 128) * 64 + (b2 - 128) in
                if (cp <? 2048) || negb (scalar cp) then None else ocons cp (utf8_points l3)
              else match l3 with
              | [] => None
              | b3 :: l4 =>
                  if negb (cont b3) then None
                  else if in_range 240 244 b0 then
                    let cp := (b0 - 240) * 262144 + (b1 - 128) * 4096 + (b2 - 128) * 64 + (b3 - 128) in
                    if (cp <? 65536) || negb (scalar cp) then None else ocons cp (utf8_points l4)
                  else None
              end
          end
      end
  end.

(** [new TextDecoder("utf-8", { fatal: true, ignoreBOM }).decode(l)]; [None] is
    its [TypeError]. *)
Definition utf8_decode (ignoreBOM : bool) (l : bytes) : option jstr :=
  match utf8_points l with
  | None => None
  | Some cps =>
      Some (flat_map utf16_char
        (match cps with
         | cp :: rest => if negb ignoreBOM && (cp =? 65279) then rest else cps
         | [] => []
         end))
  end.

(** ** Round trips *)

Lemma in_range_spec a b u : in_range a b u = true ↔ a <= u <= b.
Proof. unfold in_range. rewrite andb_true_iff, !Z.leb_le. done. Qed.

Lemma in_range_false a b u : in_range a b u = false ↔ ¬ (a <= u <= b).
Proof. rewrite <- in_range_spec. by destruct (in_range a b u). Qed.

Lemma scalar_spec cp : scalar cp = true ↔ 0 <= cp <= 55295 ∨ 57344 <= cp <= 1114111.
Proof. unfold scalar. rewrite orb_true_iff, !in_range_spec. done. Qed.

(** Evaluate the range tests of the goal whose outcome follows from the bounds in context. *)
Ltac range_tests :=
  repeat match goal with
  | |- context [in_range ?a ?b ?u] =>
      first [ rewrite (proj2 (in_range_spec a b u)) by lia
            | rewrite (proj2 (in_range_false a b u)) by lia ]
  | |- context [?a <? ?b] =>
      first [ rewrite (proj2 (Z.ltb_lt a b)) by lia
            | rewrite (proj2 (Z.ltb_ge a b)) by lia ]
  | |- context [scalar ?cp] => rewrite (proj2 (scalar_spec cp)) by lia
  end.

Ltac eqb_tests :=
  repeat match goal with
  | |- context [?a =? ?b] =>
      first [ rewrite (proj2 (Z.eqb_eq a b)) by lia
            | rewrite (proj2 (Z.eqb_neq a b)) by lia ]
  end.

Lemma utf8_points_char cp l : scalar cp = true → utf8_points (utf8_char cp ++ l) = ocons cp (utf8_points l).
Proof.
  intros H. pose proof H as H'. apply scalar_spec in H. unfold utf8_char, cont.
  destruct (Z.ltb_spec cp 128); [simpl; by range_tests|].
  pose proof (Z.div_mod cp 64). pose proof (Z.mod_pos_bound cp 64).
  pose proof (Z.div_mod (cp / 64) 64). pose proof (Z.mod_pos_bound (cp / 64) 64).
  pose proof (Z.div_mod (cp / 4096) 64). pose proof (Z.mod_pos_bound (cp / 4096) 64).
  assert (cp / 64 / 64 = cp / 4096) as E1 by (rewrite Z.div_div; [done|lia|lia]).
  assert (cp / 4096 / 64 = cp / 262144) as E2 by (rewrite Z.div_div; [done|lia|lia]).
  destruct (Z.ltb_spec cp 2048); [|destruct (Z.ltb_spec cp 65536)];
    cbn [app utf8_points]; cbv zeta; unfold cont; rewrite E1, ?E2 in *.
  - range_tests. simpl. f_equal. lia.
  - replace ((224 + cp / 4096 - 224) * 4096 + (128 + (cp / 64) mod 64 - 128) * 64 + (128 + cp mod 64 - 128)) with cp by lia.
    rewrite H'. range_tests. done.
  - replace ((240 + cp / 262144 - 240) * 262144 + (128 + (cp / 4096) mod 64 - 128) * 4096 +
      (128 + (cp / 64) mod 64 - 128) * 64 + (128 + cp mod 64 - 128)) with cp by lia.
    rewrite H'. range_tests. done.
Qed.

Lemma utf8_points_encode cps : Forall (λ cp, scalar cp = true) cps → utf8_points (flat_map utf8_char cps) = Some cps.
Proof.
  induction 1 as [|cp cps Hcp _ IH]; [done|]. cbn [flat_map].
  rewrite utf8_points_char, IH by done. done.
Qed.

Lemma ocons_Some cp m l : ocons cp m = Some l ↔ ∃ l', m = Some l' ∧ l = cp :: l'.
Proof. destruct m; simpl; naive_solver. Qed.

(** The condition of an [if] of a hypothesis. *)
Ltac case_if H :=
  match type of H with
  | (if ?b then _ else _) = _ => let E := fresh "E" in destruct b eqn:E
  end.

Lemma utf8_char_2 b0 b1 : 194 <= b0 <= 223 → 128 <= b1 <= 191 →
  utf8_char ((b0 - 192) * 64 + (b1 - 128)) = [b0; b1].
Proof.
  intros. unfold utf8_char. range_tests.
  rewrite Z.div_add_l, Z.div_small, (Z.add_comm (_ * 64)), Z.mod_add, Z.mod_small by lia.
  f_equal; [lia|]. f_equal. lia.
Qed.

Lemma utf8_char_3 b0 b1 b2 cp : 224 <= b0 <= 239 → 128 <= b1 <= 191 → 128 <= b2 <= 191 →
  cp = (b0 - 224) * 4096 + (b1 - 128) * 64 + (b2 - 128) → 2048 <= cp →
  utf8_char cp = [b0; b1; b2].
Proof.
  intros ? ? ? E ?. unfold utf8_char. range_tests.
  rewrite <- (Zdiv_unique cp 64 ((b0 - 224) * 64 + (b1 - 128)) (b2 - 128)) by lia.
  rewrite <- (Zdiv_unique cp 4096 (b0 - 224) ((b1 - 128) * 64 + (b2 - 128))) by lia.
  rewrite <- (Zmod_unique cp 64 ((b0 - 224) * 64 + (b1 - 128)) (b2 - 128)) by lia.
  rewrite <- (Zmod_unique ((b0 - 224) * 64 + (b1 - 128)) 64 (b0 - 224) (b1 - 128)) by lia.
  repeat (apply (f_equal2 cons); [lia|]). reflexivity.
Qed.

Lemma utf8_char_4 b0 b1 b2 b3 cp : 240 <= b0 <= 244 → 128 <= b1 <= 191 → 128 <= b2 <= 191 → 128 <= b3 <= 191 →
  cp = (b0 - 240) * 262144 + (b1 - 128) * 4096 + (b2 - 128) * 64 + (b3 - 128) → 65536 <= cp →
  utf8_char cp = [b0; b1; b2; b3].
Proof.
  intros ? ? ? ? E ?. unfold utf8_char. range_tests.
  rewrite <- (Zdiv_unique cp 64 ((b0 - 240) * 4096 + (b1 - 128) * 64 + (b2 - 128)) (b3 - 128)) by lia.
  rewrite <- (Zdiv_unique cp 4096 ((b0 - 240) * 64 + (b1 - 128)) ((b2 - 128) * 64 + (b3 - 128))) by lia.
  rewrite <- (Zdiv_unique cp 262144 (b0 - 240) ((b1 - 128) * 4096 + (b2 - 128) * 64 + (b3 - 128))) by lia.
  rewrite <- (Zmod_unique cp 64 ((b0 - 240) * 4096 + (b1 - 128) * 64 + (b2 - 128)) (b3 - 128)) by lia.
  rewrite <- (Zmod_unique ((b0 - 240) * 4096 + (b1 - 128) * 64 + (b2 - 128)) 64 ((b0 - 240) * 64 + (b1 - 128)) (b2 - 128)) by lia.
  rewrite <- (Zmod_unique ((b0 - 240) * 64 + (b1 - 128)) 64 (b0 - 240) (b1 - 128)) by lia.
  repeat (apply (f_equal2 cons); [lia|]). reflexivity.
Qed.

(** The decoder accepts exactly the encodings of scalar values. *)
Lemma utf8_points_sound l cps : bytes_ok l → utf8_points l = Some cps →
  flat_map utf8_char cps = l ∧ Forall (λ cp, scalar cp = true) cps.
Proof.
  remember (length l) as n eqn:Hn. assert (length l <= n)%nat as Hl by lia. clear Hn.
  revert l cps Hl. induction n as [|n IH]; intros l cps Hl Hb H.
  { destruct l; [|simpl in Hl; lia]. by injection H as <-. }
  destruct l as [|b0 l1]; [by injection H as <-|]. cbn [utf8_points] in H. simpl in Hl.
  apply Forall_cons in Hb as [Hb0 Hb1]. unfold byte_ok in Hb0.
  assert (∀ p k m, (length k <= n)%nat → bytes_ok k → ocons p (utf8_points k) = Some cps → scalar p = true →
    utf8_char p = m → flat_map utf8_char cps = m ++ k ∧ Forall (λ cp, scalar cp = true) cps) as Hstep.
  { intros p k m Hk Hkb Hp Hs <-. apply ocons_Some in Hp as (cps' & Hp & ->).
    destruct (IH k cps') as [<- ?]; [done..|]. split; [done|]. by constructor. }
  case_if H; bool_prop.
  { apply (Hstep b0 l1 [b0]); [lia|done|done|apply scalar_spec; lia|unfold utf8_char; by range_tests]. }
  destruct l1 as [|b1 l2]; [done|]. apply Forall_cons in Hb1 as [_ Hb2]. simpl in Hl.
  case_if H; [done|]. bool_prop. unfold cont in *. rewrite in_range_spec in *. case_if H.
  { rewrite in_range_spec in *.
    eapply (Hstep _ l2 [b0; b1]); [lia|done|done|apply scalar_spec; lia|by apply utf8_char_2]. }
  destruct l2 as [|b2 l3]; [done|]. apply Forall_cons in Hb2 as [_ Hb3]. simpl in Hl.
  case_if H; [done|]. bool_prop. rewrite in_range_spec in *. case_if H.
  { cbv zeta in H. rewrite in_range_spec in *. case_if H; [done|]. bool_prop.
    eapply (Hstep _ l3 [b0; b1; b2]); [lia|done|done|done|by apply utf8_char_3]. }
  destruct l3 as [|b3 l4]; [done|]. apply Forall_cons in Hb3 as [_ Hb4]. simpl in Hl.
  case_if H; [done|]. bool_prop. rewrite in_range_spec in *. case_if H; [|done].
  cbv zeta in H. rewrite in_range_spec in *. case_if H; [done|]. bool_prop.
  eapply (Hstep _ l4 [b0; b1; b2; b3]); [lia|done|done|done|by apply utf8_char_4].
Qed.

Lemma utf8_char_ok cp : scalar cp = true → bytes_ok (utf8_char cp).
Proof.
  intros H%scalar_spec. unfold utf8_char.
  pose proof (Z.mod_pos_bound cp 64). pose proof (Z.mod_pos_bound (cp / 64) 64).
  pose proof (Z.mod_pos_bound (cp / 4096) 64).
  assert (0 <= cp / 262144 <= 4) by (split; [apply Z.div_pos|apply Z.lt_succ_r, Z.div_lt_upper_bound]; lia).
  destruct (Z.ltb_spec cp 128); [repeat constructor; lia|].
  destruct (Z.ltb_spec cp 2048).
  { assert (0 <= cp / 64 < 32) by (split; [apply Z.div_pos|apply Z.div_lt_upper_bound]; lia). repeat constructor; lia. }
  destruct (Z.ltb_spec cp 65536); [|repeat constructor; lia].
  assert (0 <= cp / 4096 < 16) by (split; [apply Z.div_pos|apply Z.div_lt_upper_bound]; lia). repeat constructor; lia.
Qed.

(** ** UTF-16 *)

Lemma points_scalar f s : jstr_ok s → existsb (λ cp, is_high cp || is_low cp) (points id s) = false →
  Forall (λ cp, scalar cp = true) (points f s) ∧ flat_map utf16_char (points f s) = s.
Proof.
  remember (length s) as n eqn:Hn. assert (length s <= n)%nat as Hl by lia. clear Hn.
  revert s Hl. induction n as [|n IH]; intros s Hl Hs H.
  { destruct s; [by split; [constructor|]|simpl in Hl; lia]. }
  destruct s as [|c s]; [by split; [constructor|]|]. apply Forall_cons in Hs as [Hc Hs]. simpl in Hl. unfold unit_ok in Hc.
  cbn [points] in *. unfold is_high, is_low in *. destruct (in_range 55296 56319 c) eqn:Eh.
  - apply in_range_spec in Eh. destruct s as [|d s].
    { cbn [existsb id] in H. rewrite (proj2 (in_range_spec 55296 56319 c)) in H by lia. done. }
    apply Forall_cons in Hs as [Hd Hs]. simpl in Hl. destruct (in_range 56320 57343 d) eqn:El.
    + apply in_range_spec in El. cbn [existsb] in H. bool_prop. destruct (IH s) as [Hsc Hfl]; [lia|done|done|].
      cbn [flat_map]. rewrite Hfl. split.
      * constructor; [apply scalar_spec; lia|done].
      * unfold utf16_char. range_tests.
        rewrite <- (Zdiv_unique _ 1024 (c - 55296) (d - 56320)) by lia.
        rewrite <- (Zmod_unique _ 1024 (c - 55296) (d - 56320)) by lia.
        simpl. f_equal; [lia|]. f_equal. lia.
    + cbn [existsb id] in H. rewrite (proj2 (in_range_spec 55296 56319 c)) in H by lia. done.
  - apply in_range_false in Eh. destruct (in_range 56320 57343 c) eqn:El.
    { cbn [existsb id] in H. rewrite El, orb_true_r in H. done. }
    apply in_range_false in El. cbn [existsb] in H. apply orb_false_iff in H as [_ H].
    destruct (IH s) as [Hsc Hfl]; [lia|done|done|]. cbn [flat_map]. rewrite Hfl. split.
    + constructor; [apply scalar_spec; lia|done].
    + unfold utf16_char. by range_tests.
Qed.

Lemma points_utf16 f cps : Forall (λ cp, scalar cp = true) cps → points f (flat_map utf16_char cps) = cps.
Proof.
  induction 1 as [|cp cps Hcp _ IH]; [done|]. cbn [flat_map]. apply scalar_spec in Hcp. unfold utf16_char at 1.
  destruct (Z.ltb_spec cp 65536); cbn [app points]; unfold is_high, is_low.
  - range_tests. by rewrite IH.
  - pose proof (Z.div_mod (cp - 65536) 1024). pose proof (Z.mod_pos_bound (cp - 65536) 1024).
    range_tests. rewrite IH. f_equal. lia.
Qed.

Lemma scalar_no_surrogate cps : Forall (λ cp, scalar cp = true) cps →
  existsb (λ cp, is_high cp || is_low cp) cps = false.
Proof.
  induction 1 as [|cp cps Hcp _ IH]; [done|]. apply scalar_spec in Hcp. cbn [existsb]. rewrite IH.
  unfold is_high, is_low. range_tests. done.
Qed.

Lemma utf16_char_ok cp : scalar cp = true → jstr_ok (utf16_char cp).
Proof.
  intros H%scalar_spec. unfold utf16_char. destruct (Z.ltb_spec cp 65536); [repeat constructor; lia|].
  pose proof (Z.mod_pos_bound (cp - 65536) 1024).
  assert (0 <= (cp - 65536) / 1024 < 1024) by (split; [apply Z.div_pos|apply Z.div_lt_upper_bound]; lia).
  repeat constructor; lia.
Qed.

Lemma Forall_flat_map {A B} (P : B → Prop) (f : A → list B) l : Forall (λ a, Forall P (f a)) l → Forall P (flat_map f l).
Proof. induction 1; simpl; [constructor|]. by apply Forall_app. Qed.

(** Text survives the encoder and the decoder. *)
Lemma utf8_roundtrip s : jstr_ok s → lone_surrogate s = false → utf8_decode true (utf8_encode s) = Some s.
Proof.
  intros Hs H. unfold utf8_decode, utf8_encode.
  destruct (points_scalar (λ _, REPLACEMENT) s Hs H) as [H1 H2].
  rewrite utf8_points_encode by done. simpl. f_equal. by destruct (points _ s).
Qed.

Lemma utf8_encode_ok s : jstr_ok s → lone_surrogate s = false → bytes_ok (utf8_encode s).
Proof.
  intros Hs H. destruct (points_scalar (λ _, REPLACEMENT) s Hs H) as [H1 _].
  apply Forall_flat_map. eapply Forall_impl; [done|]. intros. by apply utf8_char_ok.
Qed.

(** What the decoder accepts is the encoding of what it returns. *)
Lemma utf8_decode_sound l s : bytes_ok l → utf8_decode true l = Some s →
  utf8_encode s = l ∧ jstr_ok s ∧ lone_surrogate s = false.
Proof.
  unfold utf8_decode. intros Hl H. destruct (utf8_points l) as [cps|] eqn:E; [|done].
  apply utf8_points_sound in E as [E Hc]; [|done].
  assert (s = flat_map utf16_char cps) as -> by (injection H as <-; by destruct cps).
  unfold utf8_encode, lone_surrogate. rewrite !points_utf16 by done. split_and!; [done| |by apply scalar_no_surrogate].
  apply Forall_flat_map. eapply Forall_impl; [done|]. intros. by apply utf16_char_ok.
Qed.

(** ** ASCII *)

Definition ascii (s : jstr) : Prop := Forall (λ c, 0 <= c < 128) s.

Lemma utf8_encode_ascii s : ascii s → utf8_encode s = s.
Proof.
  unfold utf8_encode. induction 1 as [|c s Hc _ IH]; [done|]. cbn [points]. unfold is_high, is_low. range_tests.
  cbn [flat_map]. rewrite IH. unfold utf8_char. range_tests. done.
Qed.

Lemma asciib_ok s : forallb (in_range 0 127) s = true → ascii s.
Proof. intros H. eapply Forall_forallb; [|exact H]. intros c Hc. apply in_range_spec in Hc. lia. Qed.

(** For literals. *)
Ltac solve_ascii := apply asciib_ok; reflexivity.

(** ** Concatenating well-formed text *)

Lemma points_app f s t : lone_surrogate s = false → points f (s ++ t) = points f s ++ points f t.
Proof.
  unfold lone_surrogate. remember (length s) as n eqn:Hn. assert (length s <= n)%nat as Hl by lia. clear Hn.
  revert s Hl. induction n as [|n IH]; intros s Hl H; [destruct s; [done|simpl in Hl; lia]|].
  destruct s as [|c s]; [done|]. simpl in Hl. cbn [app points] in *. destruct (is_high c) eqn:Eh.
  - destruct s as [|d s]; [cbn [existsb id] in H; by rewrite Eh in H|]. simpl in Hl. cbn [app] in *.
    destruct (is_low d) eqn:El; [|cbn [existsb id] in H; by rewrite Eh in H].
    cbn [existsb] in H. bool_prop. cbn [app]. f_equal. apply IH; [lia|done].
  - destruct (is_low c) eqn:El; cbn [existsb id app] in *; apply orb_false_iff in H as [H1 H2].
    + by rewrite El, orb_true_r in H1.
    + f_equal. apply IH; [lia|done].
Qed.

Lemma lone_surrogate_app s t : lone_surrogate s = false → lone_surrogate t = false → lone_surrogate (s ++ t) = false.
Proof. intros Hs Ht. unfold lone_surrogate in *. by rewrite points_app, existsb_app, Hs, Ht. Qed.

Lemma lone_surrogate_ascii s : ascii s → lone_surrogate s = false.
Proof.
  unfold lone_surrogate. induction 1 as [|c s Hc _ IH]; [done|]. cbn [points]. unfold is_high, is_low. range_tests.
  cbn [existsb]. unfold is_high, is_low in *. range_tests. exact IH.
Qed.

Lemma ascii_jstr_ok s : ascii s → jstr_ok s.
Proof. intros H. eapply Forall_impl; [exact H|]. unfold unit_ok. simpl. lia. Qed.

(** ** Unicode tables *)

(** [toLowerCase] and [normalize("NFC")]. *)
Class Unicode := {
  toLowerCase : jstr → jstr;
  nfc : jstr → jstr;
}.

Definition ascii_lower (s : jstr) : jstr := map (λ c, if is_upper c then c + 32 else c) s.

(** A string of this class has no combining or composable character, so both
    operations act on ASCII alone; it is what the examples use. *)
Definition ascii_unicode : Unicode := {| toLowerCase := ascii_lower; nfc := id |}.
