(* ===== verification/Bytes.v ===== *)
(** * Byte encodings

    Big-endian integers of [DataView], [toHex], and base64url as
    [core/crypto.ts] writes and reads it with [btoa] and [atob]. *)

From S2P Require Import Prelude JsString Utf8.

(** ** Big-endian integers *)

(** [view.setUint32(at, n, false)] writes these bytes. *)
Definition u32 (n : Z) : bytes :=
  [n / 16777216 mod 256; n / 65536 mod 256; n / 256 mod 256; n mod 256].

(** [view.getUint32(at, false)]. *)
Definition getU32 (l : bytes) (at_ : Z) : Z :=
  let b i := nth (Z.to_nat (at_ + i)) l 0 in
  ((b 0 * 256 + b 1) * 256 + b 2) * 256 + b 3.

Lemma length_u32 n : length (u32 n) = 4%nat.
Proof. done. Qed.

Lemma zlen_u32 n : zlen (u32 n) = 4.
Proof. done. Qed.

Lemma u32_ok n : bytes_ok (u32 n).
Proof. repeat constructor; apply Z.mod_pos_bound; lia. Qed.

Lemma getU32_app p n s at_ : at_ = zlen p → 0 <= n < 4294967296 → getU32 (p ++ u32 n ++ s) at_ = n.
Proof.
  intros -> Hn. unfold getU32, zlen.
  replace (Z.to_nat (Z.of_nat (length p) + 0)) with (length p + 0)%nat by lia.
  replace (Z.to_nat (Z.of_nat (length p) + 1)) with (length p + 1)%nat by lia.
  replace (Z.to_nat (Z.of_nat (length p) + 2)) with (length p + 2)%nat by lia.
  replace (Z.to_nat (Z.of_nat (length p) + 3)) with (length p + 3)%nat by lia.
  rewrite !app_nth2_plus. cbn [nth app u32].
  assert (n / 16777216 = n / 256 / 256 / 256) as E1 by (rewrite !Z.div_div; [done|lia..]).
  assert (n / 65536 = n / 256 / 256) as E2 by (rewrite !Z.div_div; [done|lia..]).
  rewrite (Z.mod_small (n / 16777216)) by (split; [apply Z.div_pos|apply Z.div_lt_upper_bound]; lia).
  rewrite E1, E2.
  pose proof (Z.div_mod n 256). pose proof (Z.div_mod (n / 256) 256). pose proof (Z.div_mod (n / 256 / 256) 256). lia.
Qed.

Lemma getU32_bound l at_ : bytes_ok l → 0 <= getU32 l at_ < 4294967296.
Proof.
  intros H. unfold getU32.
  assert (∀ i, byte_ok (nth i l 0)) as Hb.
  { intros i. destruct (decide (i < length l)%nat); [|rewrite nth_overflow by lia; unfold byte_ok; lia].
    unfold bytes_ok in H. rewrite Forall_forall in H. apply H, list_elem_of_In, nth_In. done. }
  pose proof (Hb (Z.to_nat (at_ + 0))). pose proof (Hb (Z.to_nat (at_ + 1))).
  pose proof (Hb (Z.to_nat (at_ + 2))). pose proof (Hb (Z.to_nat (at_ + 3))). unfold byte_ok in *. lia.
Qed.

Lemma u32_inj a b : 0 <= a < 4294967296 → 0 <= b < 4294967296 → u32 a = u32 b → a = b.
Proof.
  intros Ha Hb E. rewrite <- (getU32_app [] a [] 0), <- (getU32_app [] b [] 0) by done. by rewrite E.
Qed.

Lemma getU32_4 (b0 b1 b2 b3 : Z) l : byte_ok b0 → byte_ok b1 → byte_ok b2 → byte_ok b3 →
  u32 (getU32 (b0 :: b1 :: b2 :: b3 :: l) 0) = [b0; b1; b2; b3].
Proof.
  unfold byte_ok, getU32, u32. simpl. intros.
  set (n := ((b0 * 256 + b1) * 256 + b2) * 256 + b3).
  rewrite <- (Zdiv_unique n 16777216 b0 ((b1 * 256 + b2) * 256 + b3)) by lia.
  rewrite <- (Zdiv_unique n 65536 (b0 * 256 + b1) (b2 * 256 + b3)) by lia.
  rewrite <- (Zdiv_unique n 256 ((b0 * 256 + b1) * 256 + b2) b3) by lia.
  rewrite <- (Zmod_unique n 256 ((b0 * 256 + b1) * 256 + b2) b3) by lia.
  rewrite <- (Zmod_unique ((b0 * 256 + b1) * 256 + b2) 256 (b0 * 256 + b1) b2) by lia.
  rewrite <- (Zmod_unique (b0 * 256 + b1) 256 b0 b1) by lia.
  rewrite (Z.mod_small b0) by lia. done.
Qed.

(** ** Hexadecimal *)

(** [HEX.charAt(n)]. *)
Definition hex_digit (n : Z) : Z := if n <? 10 then 48 + n else 87 + n.

(** [toHex]: two lower-case digits a byte. *)
Definition toHex (l : bytes) : jstr := flat_map (λ b, [hex_digit (b / 16); hex_digit (b mod 16)]) l.

Definition hex_value (c : Z) : Z := if c <? 58 then c - 48 else c - 87.

(** [hexToBytes] of [@noble/hashes], on lower-case digits of even length. *)
Fixpoint fromHex (s : jstr) : bytes :=
  match s with
  | a :: s' => match s' with b :: s => (hex_value a * 16 + hex_value b) :: fromHex s | [] => [] end
  | [] => []
  end.

Definition hex_string (n : Z) (s : jstr) : bool := (zlen s =? n) && forallb is_hex s.

Lemma hex_digit_hex n : 0 <= n < 16 → is_hex (hex_digit n) = true.
Proof.
  intros. unfold is_hex, is_digit, hex_digit. destruct (Z.ltb_spec n 10); range_tests; [done|by rewrite orb_true_r].
Qed.

Lemma hex_value_digit n : 0 <= n < 16 → hex_value (hex_digit n) = n.
Proof. intros. unfold hex_value, hex_digit. destruct (Z.ltb_spec n 10); range_tests; lia. Qed.

Lemma zlen_toHex l : zlen (toHex l) = 2 * zlen l.
Proof. induction l; [done|]. unfold toHex. simpl. rewrite !zlen_cons. fold (toHex l). lia. Qed.

Lemma byte_nibbles b : byte_ok b → 0 <= b / 16 < 16 ∧ 0 <= b mod 16 < 16 ∧ b / 16 * 16 + b mod 16 = b.
Proof.
  unfold byte_ok. intros. pose proof (Z.div_mod b 16). pose proof (Z.mod_pos_bound b 16).
  split_and!; try lia.
Qed.

Lemma toHex_hex l : bytes_ok l → hex_string (2 * zlen l) (toHex l) = true.
Proof.
  intros H. unfold hex_string. rewrite zlen_toHex, Z.eqb_refl. simpl.
  induction H as [|b l Hb _ IH]; [done|]. destruct (byte_nibbles b Hb) as (? & ? & _).
  unfold toHex. cbn [flat_map app forallb]. rewrite !hex_digit_hex by done. exact IH.
Qed.

Lemma fromHex_toHex l : bytes_ok l → fromHex (toHex l) = l.
Proof.
  induction 1 as [|b l Hb _ IH]; [done|]. destruct (byte_nibbles b Hb) as (? & ? & ?).
  unfold toHex. cbn [flat_map app fromHex]. rewrite !hex_value_digit by done. f_equal; [done|exact IH].
Qed.

Lemma toHex_inj l k : bytes_ok l → bytes_ok k → toHex l = toHex k → l = k.
Proof. intros Hl Hk E. by rewrite <- (fromHex_toHex l), <- (fromHex_toHex k), E. Qed.

Lemma toHex_app l k : toHex (l ++ k) = toHex l ++ toHex k.
Proof. apply flat_map_app. Qed.

(** ** Base64 *)

(** The 6-bit groups of a byte string; the last is zero padded. *)
Fixpoint sextets (l : bytes) : list Z :=
  match l with
  | [] => []
  | a :: l1 =>
      match l1 with
      | [] => [a / 4; (a mod 4) * 16]
      | b :: l2 =>
          match l2 with
          | [] => [a / 4; (a mod 4) * 16 + b / 16; (b mod 16) * 4]
          | c :: l3 => a / 4 :: (a mod 4) * 16 + b / 16 :: (b mod 16) * 4 + c / 64 :: c mod 64 :: sextets l3
          end
      end
  end.

(** The standard alphabet. *)
Definition b64_char (n : Z) : Z :=
  if n <? 26 then 65 + n else if n <? 52 then 71 + n else if n <? 62 then n - 4 else if n =? 62 then 43 else 47.
Definition b64_value (c : Z) : option Z :=
  if is_upper c then Some (c - 65) else if is_lower c then Some (c - 71)
  else if is_digit c then Some (c + 4) else if c =? 43 then Some 62 else if c =? 47 then Some 63 else None.

(** [btoa] of the bytes as code units. *)
Definition btoa (l : bytes) : jstr :=
  map b64_char (sextets l) ++ replicate (Z.to_nat ((- zlen l) mod 3)) 61.

(** The bytes of 6-bit groups; the spare bits of the last one are dropped, as
    [atob] does. One group alone is an error. *)
Fixpoint from_sextets (l : list Z) : option bytes :=
  match l with
  | [] => Some []
  | w :: l1 =>
      match l1 with
      | [] => None
      | x :: l2 =>
          match l2 with
          | [] => Some [w * 4 + x / 16]
          | y :: l3 =>
              match l3 with
              | [] => Some [w * 4 + x / 16; (x mod 16) * 16 + y / 4]
              | z :: l4 =>
                  match from_sextets l4 with
                  | Some r => Some (w * 4 + x / 16 :: (x mod 16) * 16 + y / 4 :: (y mod 4) * 64 + z :: r)
                  | None => None
                  end
              end
          end
      end
  end.

Fixpoint b64_values (s : jstr) : option (list Z) :=
  match s with
  | [] => Some []
  | c :: s =>
      match b64_value c, b64_values s with
      | Some v, Some vs => Some (v :: vs)
      | _, _ => None
      end
  end.

(** [atob] on text without white space; [None] is its [DOMException]. *)
Definition atob (s : jstr) : option bytes :=
  let s' := if zlen s mod 4 =? 0 then
              (if endsWith s [61; 61] then take (length s - 2) s
               else if endsWith s [61] then take (length s - 1) s else s)
            else s in
  match b64_values s' with
  | Some vs => from_sextets vs
  | None => None
  end.

Definition to_url_char (c : Z) : Z := if c =? 43 then 45 else if c =? 47 then 95 else c.
Definition from_url_char (c : Z) : Z := if c =? 45 then 43 else if c =? 95 then 47 else c.
Definition is_b64url (c : Z) : bool := is_alnum c || (c =? 95) || (c =? 45).

(** [base64UrlEncode]. *)
Definition base64UrlEncode (l : bytes) : jstr := drop_end (Z.eqb 61) (map to_url_char (btoa l)).

(** [base64UrlDecode]: the 43 characters of a 256-bit key, in canonical form. *)
Definition base64UrlDecode (value : jstr) : res bytes :=
  check (zlen value =? 43) && forallb is_b64url value else "The recovery key is not a Wildbloom v1 key.";
  match atob (map from_url_char value ++ [61]) with
  | None => Throw "The recovery key is not valid base64url."
  | Some l =>
      check zlen l =? 32 else "The recovery key must contain 256 bits.";
      check eqb (base64UrlEncode l) value else "The recovery key is not canonical base64url.";
      Ok l
  end.

(** The URL alphabet. *)
Definition b64url_char (n : Z) : Z := to_url_char (b64_char n).

Definition sextet_ok (n : Z) : Prop := 0 <= n < 64.

Lemma sextets_ok l : bytes_ok l → Forall sextet_ok (sextets l).
Proof.
  remember (length l) as n eqn:Hn. assert (length l <= n)%nat as Hl by lia. clear Hn.
  revert l Hl. induction n as [|n IH]; intros l Hl H; [destruct l; [constructor|simpl in Hl; lia]|].
  assert (∀ b, byte_ok b → 0 <= b / 4 < 64 ∧ 0 <= b / 16 < 16 ∧ 0 <= b / 64 < 4) as Hd
    by (unfold byte_ok; intros; split_and!; try apply Z.div_pos; try apply Z.div_lt_upper_bound; lia).
  destruct l as [|a [|b [|c l]]]; cbn [sextets]; [constructor|..];
    unfold bytes_ok in *; repeat match goal with H : Forall byte_ok (_ :: _) |- _ => apply Forall_cons in H as [? H] end;
    repeat match goal with H : byte_ok ?x |- _ => pose proof (Hd x H); pose proof (Z.mod_pos_bound x 4 eq_refl);
      pose proof (Z.mod_pos_bound x 16 eq_refl); pose proof (Z.mod_pos_bound x 64 eq_refl); clear H end.
  - repeat constructor; lia.
  - repeat constructor; lia.
  - repeat (constructor; [unfold sextet_ok; lia|]). apply IH; [simpl in Hl; lia|done].
Qed.

Lemma sextets_group a b c : byte_ok a → byte_ok b → byte_ok c →
  a / 4 * 4 + ((a mod 4) * 16 + b / 16) / 16 = a ∧
  (((a mod 4) * 16 + b / 16) mod 16) * 16 + ((b mod 16) * 4 + c / 64) / 4 = b ∧
  (((b mod 16) * 4 + c / 64) mod 4) * 64 + c mod 64 = c.
Proof.
  unfold byte_ok. intros.
  pose proof (Z.div_mod a 4). pose proof (Z.div_mod b 16). pose proof (Z.div_mod c 64).
  pose proof (Z.mod_pos_bound a 4). pose proof (Z.mod_pos_bound b 16). pose proof (Z.mod_pos_bound c 64).
  rewrite <- (Zdiv_unique ((a mod 4) * 16 + b / 16) 16 (a mod 4) (b / 16)) by lia.
  rewrite <- (Zmod_unique ((a mod 4) * 16 + b / 16) 16 (a mod 4) (b / 16)) by lia.
  rewrite <- (Zdiv_unique ((b mod 16) * 4 + c / 64) 4 (b mod 16) (c / 64)) by lia.
  rewrite <- (Zmod_unique ((b mod 16) * 4 + c / 64) 4 (b mod 16) (c / 64)) by lia. lia.
Qed.

Lemma from_sextets_sextets l : bytes_ok l → from_sextets (sextets l) = Some l.
Proof.
  remember (length l) as n eqn:Hn. assert (length l <= n)%nat as Hl by lia. clear Hn.
  revert l Hl. induction n as [|n IH]; intros l Hl H; [destruct l; [done|simpl in Hl; lia]|].
  destruct l as [|a [|b [|c l]]]; cbn [sextets from_sextets]; [done|..];
    unfold bytes_ok in *; repeat match goal with H : Forall byte_ok (_ :: _) |- _ => apply Forall_cons in H as [? H] end.
  - destruct (sextets_group a 0 0) as (E & _); [done|done|done|]. rewrite Z.div_0_l, Z.add_0_r in E by lia. by rewrite E.
  - destruct (sextets_group a b 0) as (E & E' & _); [done|done|done|]. rewrite Z.div_0_l, Z.add_0_r in E' by lia. by rewrite E, E'.
  - destruct (sextets_group a b c) as (E & E' & E''); [done|done|done|].
    rewrite IH, E, E', E'' by (done || simpl in Hl; lia). done.
Qed.

Lemma b64_char_cases n : sextet_ok n →
  b64_value (b64_char n) = Some n ∧ from_url_char (b64url_char n) = b64_char n ∧
  is_b64url (b64url_char n) = true ∧ b64url_char n ≠ 61 ∧ b64_char n ≠ 61 ∧ 0 <= b64url_char n < 128.
Proof.
  unfold sextet_ok. intros Hn. assert (In n (map Z.of_nat (seq 0 64))) as Hin.
  { apply in_map_iff. exists (Z.to_nat n). split; [lia|]. apply in_seq. lia. }
  assert (forallb (λ n, bool_decide (b64_value (b64_char n) = Some n) &&
    (from_url_char (b64url_char n) =? b64_char n) && is_b64url (b64url_char n) && negb (b64url_char n =? 61)
    && negb (b64_char n =? 61) && (0 <=? b64url_char n) && (b64url_char n <? 128)) (map Z.of_nat (seq 0 64)) = true) as H by reflexivity.
  rewrite forallb_forall in H. specialize (H n Hin). cbn beta in H. bool_prop. split_and!; done.
Qed.

Lemma map_from_url l : Forall sextet_ok l → map from_url_char (map b64url_char l) = map b64_char l.
Proof. intros H. rewrite map_map. apply map_ext_Forall. eapply Forall_impl; [done|]. intros n Hn. by apply b64_char_cases. Qed.

Lemma b64_values_map l : Forall sextet_ok l → b64_values (map b64_char l) = Some l.
Proof.
  induction 1 as [|n l Hn _ IH]; [done|]. cbn [map b64_values].
  destruct (b64_char_cases n Hn) as (-> & _). by rewrite IH.
Qed.

Lemma base64UrlEncode_sextets l : bytes_ok l → base64UrlEncode l = map b64url_char (sextets l).
Proof.
  intros Hl. unfold base64UrlEncode, btoa. rewrite map_app, map_map.
  pose proof (sextets_ok l Hl) as Hs. generalize (Z.to_nat ((- zlen l) mod 3)) as k. intros k.
  assert (map to_url_char (replicate k 61) = replicate k 61) as -> by (induction k; simpl; [done|]; by rewrite IHk).
  unfold drop_end. rewrite rev_app_distr.
  assert (rev (replicate k 61) = replicate k 61) as -> by (rewrite rev_alt; apply reverse_replicate).
  induction k as [|k IH]; [|exact IH]. simpl. rewrite drop_while_id; [apply rev_involutive|].
  destruct (rev (map _ (sextets l))) as [|c t] eqn:E; [done|].
  assert (c ∈ map b64url_char (sextets l)) as Hc.
  { apply list_elem_of_In, in_rev. unfold b64url_char. rewrite E. by left. }
  apply list_elem_of_fmap in Hc as (n & -> & Hn). rewrite Forall_forall in Hs.
  apply Z.eqb_neq. destruct (b64_char_cases n (Hs n Hn)) as (_ & _ & _ & H & _). congruence.
Qed.

Lemma zlen_sextets l : zlen (sextets l) = (4 * zlen l + 2) / 3.
Proof.
  remember (length l) as n eqn:Hn. assert (length l <= n)%nat as Hl by lia. clear Hn.
  revert l Hl. induction n as [|n IH]; intros l Hl; [destruct l; [done|simpl in Hl; lia]|].
  destruct l as [|a [|b [|c l]]]; [done..|]. cbn [sextets]. rewrite !zlen_cons, IH by (simpl in Hl; lia).
  replace (4 * (zlen l + 1 + 1 + 1) + 2) with (4 * zlen l + 2 + 4 * 3) by lia. rewrite Z.div_add by lia. lia.
Qed.

Lemma b64url_all l : bytes_ok l → forallb is_b64url (base64UrlEncode l) = true.
Proof.
  intros H. rewrite base64UrlEncode_sextets by done. apply forallb_forall.
  intros c (n & <- & Hn)%in_map_iff. pose proof (sextets_ok l H) as Hs. rewrite Forall_forall in Hs.
  by apply b64_char_cases, Hs, list_elem_of_In.
Qed.

Lemma zlen_base64UrlEncode l : bytes_ok l → zlen (base64UrlEncode l) = (4 * zlen l + 2) / 3.
Proof. intros H. by rewrite base64UrlEncode_sextets, zlen_map, zlen_sextets. Qed.

Lemma endsWith_1 s c : endsWith (s ++ [c]) [c] = true.
Proof. unfold endsWith. rewrite rev_app_distr. simpl. by rewrite Z.eqb_refl. Qed.

Lemma endsWith_2 s c d : d ≠ c → endsWith ((s ++ [d]) ++ [c]) [c; c] = false.
Proof. intros H. unfold endsWith. rewrite !rev_app_distr. simpl. rewrite (proj2 (Z.eqb_neq c d)) by congruence. by rewrite andb_false_r. Qed.

Lemma atob_one_pad l : bytes_ok l → zlen l mod 3 = 2 → atob (map b64_char (sextets l) ++ [61]) = Some l.
Proof.
  intros Hl Hm. pose proof (sextets_ok l Hl) as Hs. unfold atob.
  assert (zlen (map b64_char (sextets l) ++ [61]) mod 4 = 0) as ->.
  { rewrite zlen_app, zlen_map, zlen_sextets, zlen_single.
    pose proof (Z.div_mod (zlen l) 3 ltac:(lia)) as E.
    replace (4 * zlen l + 2) with (1 + (4 * (zlen l / 3) + 3) * 3) by lia. rewrite Z.div_add by lia.
    change (1 / 3) with 0. replace (0 + (4 * (zlen l / 3) + 3) + 1) with ((zlen l / 3 + 1) * 4) by lia. apply Z.mod_mul. lia. }
  cbn [Z.eqb]. rewrite endsWith_1.
  assert (endsWith (map b64_char (sextets l) ++ [61]) [61; 61] = false) as ->.
  { destruct (sextets l) as [|n s _] using rev_ind; [done|]. rewrite map_app. apply endsWith_2.
    apply Forall_app in Hs as [_ Hs]. by apply b64_char_cases, (Forall_inv Hs). }
  rewrite length_app. cbn [length]. rewrite Nat.add_sub, take_app_length.
  by rewrite b64_values_map, from_sextets_sextets.
Qed.

(** Every 256-bit key survives base64url, and every accepted text is the
    encoding of the key it gives. *)
Lemma base64UrlDecode_encode l : bytes_ok l → zlen l = 32 → base64UrlDecode (base64UrlEncode l) = Ok l.
Proof.
  intros Hl Hn. unfold base64UrlDecode. 
  rewrite b64url_all, zlen_base64UrlEncode, Hn by done. change ((4 * 32 + 2) / 3 =? 43) with true. cbn [andb guard rbind].
  assert (atob (map from_url_char (base64UrlEncode l) ++ [61]) = Some l) as ->.
  { rewrite base64UrlEncode_sextets, map_from_url by (done || by apply sextets_ok). apply atob_one_pad; [done|by rewrite Hn]. }
  rewrite Hn, (proj2 (eqb_eq _ _) eq_refl). done.
Qed.

Lemma base64UrlDecode_sound v l : base64UrlDecode v = Ok l → base64UrlEncode l = v ∧ zlen l = 32.
Proof.
  unfold base64UrlDecode. intros H. inv_ok. destruct (atob _) as [l'|]; [|done]. inv_ok. bool_prop.
  split; [by apply eqb_eq|done].
Qed.
