(* ===== verification/Json.v ===== *)
(** * JSON values, [JSON.parse], [JSON.stringify] and [canonicalJson]

    Numbers are IEEE doubles held exactly; a numeral is rounded to nearest even
    as the language does. An object is the list of its own members in insertion
    order; a repeated member replaces the earlier value in place. Every reader
    in the program looks members up or sorts them, so the order in which engines
    list integer-like names is not modelled. *)

From S2P Require Import Prelude JsString Utf8 Bytes.

(** ** Numbers *)

(** A double: an integer, [-0], a fraction in lowest terms (its denominator is a
    power of two), or an infinity. *)
Inductive jnum : Type :=
  | Int (z : Z)
  | NegZero
  | Frac (num den : Z)
  | Inf (negative : bool).

#[global] Instance jnum_eq_dec : EqDecision jnum.
Proof. solve_decision. Defined.

Definition signed (negative : bool) (z : Z) : Z := if negative then - z else z.

(** The double [± m * 2^e] for a rounded significand. *)
Definition double (negative : bool) (m e : Z) : jnum :=
  if m =? 0 then (if negative then NegZero else Int 0)
  else if 0 <=? e then
    (if 2 ^ 1024 <=? m * 2 ^ e then Inf negative else Int (signed negative (m * 2 ^ e)))
  else
    let g := Z.gcd m (2 ^ (- e)) in
    if 2 ^ (- e) / g =? 1 then Int (signed negative (m / g))
    else Frac (signed negative (m / g)) (2 ^ (- e) / g).

(** Round half to even. *)
Definition round_div (n d : Z) : Z :=
  let q := n / d in
  let r := n mod d in
  if (2 * r <? d) || ((2 * r =? d) && Z.even q) then q else q + 1.

(** The double nearest to [± n / d]. *)
Definition round_double (negative : bool) (n d : Z) : jnum :=
  if n =? 0 then (if negative then NegZero else Int 0)
  else
    let l := Z.log2 n - Z.log2 d in
    let le := if 0 <=? l then d * 2 ^ l <=? n else d <=? n * 2 ^ (- l) in
    let e := Z.max (-1074) ((if le then l else l - 1) - 52) in
    double negative (if 0 <=? e then round_div n (d * 2 ^ e) else round_div (n * 2 ^ (- e)) d) e.

(** The value of a numeral [mant * 10^exp10]. *)
Definition numeral (negative : bool) (mant exp10 : Z) : jnum :=
  if 0 <=? exp10 then round_double negative (mant * 10 ^ exp10) 1
  else round_double negative mant (10 ^ (- exp10)).

(** ** Values *)

Inductive json : Type :=
  | JNull
  | JBool (b : bool)
  | JNum (n : jnum)
  | JStr (s : jstr)
  | JArr (l : list json)
  | JObj (members : list (jstr * json)).

(** [JSON.parse] assigns members one by one. *)
Fixpoint set_member (k : jstr) (v : json) (l : list (jstr * json)) : list (jstr * json) :=
  match l with
  | [] => [(k, v)]
  | m :: l => if eqb (fst m) k then (k, v) :: l else m :: set_member k v l
  end.

Fixpoint get_member (k : jstr) (l : list (jstr * json)) : option json :=
  match l with
  | [] => None
  | m :: l => if eqb (fst m) k then Some (snd m) else get_member k l
  end.

(** ** [JSON.parse] *)

Definition is_ws (c : Z) : bool := (c =? 32) || (c =? 9) || (c =? 10) || (c =? 13).
Definition skip_ws : jstr → jstr := drop_while is_ws.

Definition hex4 (a b c d : Z) : option Z :=
  let digit x := if is_hex x then Some (hex_value x)
                 else if in_range 65 70 x then Some (x - 55) else None in
  match digit a, digit b, digit c, digit d with
  | Some a, Some b, Some c, Some d => Some (((a * 16 + b) * 16 + c) * 16 + d)
  | _, _, _, _ => None
  end.

Definition escape_char (c : Z) : option Z :=
  if (c =? 34) || (c =? 92) || (c =? 47) then Some c
  else if c =? 98 then Some 8 else if c =? 102 then Some 12 else if c =? 110 then Some 10
  else if c =? 114 then Some 13 else if c =? 116 then Some 9 else None.

Definition scons (c : Z) (m : option (jstr * jstr)) : option (jstr * jstr) :=
  match m with Some (s, rest) => Some (c :: s, rest) | None => None end.

(** The characters of a string up to its closing quote. *)
Fixpoint parse_string (s : jstr) : option (jstr * jstr) :=
  match s with
  | [] => None
  | c :: s =>
      if c =? 34 then Some ([], s)
      else if c =? 92 then
        match s with
        | [] => None
        | e :: s =>
            if e =? 117 then
              match s with
              | h1 :: s1 => match s1 with
                | h2 :: s2 => match s2 with
                  | h3 :: s3 => match s3 with
                    | h4 :: s4 => match hex4 h1 h2 h3 h4 with Some u => scons u (parse_string s4) | None => None end
                    | [] => None end
                  | [] => None end
                | [] => None end
              | [] => None
              end
            else match escape_char e with Some u => scons u (parse_string s) | None => None end
        end
      else if c <? 32 then None
      else scons c (parse_string s)
  end.

(** The longest prefix of digits. *)
Fixpoint take_digits (s : jstr) : jstr * jstr :=
  match s with
  | c :: rest => if is_digit c then let p := take_digits rest in (c :: p.1, p.2) else ([], s)
  | [] => ([], [])
  end.

Definition parse_fraction (s : jstr) : option (jstr * jstr) :=
  match s with
  | c :: rest => if c =? 46 then let p := take_digits rest in
                   (if eqb p.1 [] then None else Some p) else Some ([], s)
  | [] => Some ([], [])
  end.

Definition parse_exponent (s : jstr) : option (Z * jstr) :=
  match s with
  | [] => Some (0, [])
  | c :: rest =>
      if (c =? 101) || (c =? 69) then
        let sign := match rest with d :: _ => d =? 45 | [] => false end in
        let rest' := match rest with d :: r => if (d =? 45) || (d =? 43) then r else rest | [] => [] end in
        let p := take_digits rest' in
        if eqb p.1 [] then None else Some (signed sign (digits_value p.1), p.2)
      else Some (0, s)
  end.

Definition parse_number (s : jstr) : option (jnum * jstr) :=
  let negative := match s with c :: _ => c =? 45 | [] => false end in
  let p := take_digits (if negative then tl s else s) in
  if is_decimal p.1 then
    match parse_fraction p.2 with
    | None => None
    | Some (frac, rest) =>
        match parse_exponent rest with
        | None => None
        | Some (e, rest) => Some (numeral negative (digits_value (p.1 ++ frac)) (e - zlen frac), rest)
        end
    end
  else None.

Definition parse_literal (word : jstr) (v : json) (s : jstr) : option (json * jstr) :=
  if startsWith s word then Some (v, drop (length word) s) else None.

Fixpoint parse_value (fuel : nat) (s : jstr) : option (json * jstr) :=
  match fuel with
  | O => None
  | S fuel =>
      match skip_ws s with
      | [] => None
      | c :: rest =>
          if c =? 123 then
            match skip_ws rest with
            | [] => None
            | d :: rest' => if d =? 125 then Some (JObj [], rest') else parse_members fuel [] rest
            end
          else if c =? 91 then
            match skip_ws rest with
            | [] => None
            | d :: rest' => if d =? 93 then Some (JArr [], rest') else parse_elements fuel [] rest
            end
          else if c =? 34 then
            match parse_string rest with Some (s, rest) => Some (JStr s, rest) | None => None end
          else if c =? 116 then parse_literal (lit "true") (JBool true) (c :: rest)
          else if c =? 102 then parse_literal (lit "false") (JBool false) (c :: rest)
          else if c =? 110 then parse_literal (lit "null") JNull (c :: rest)
          else match parse_number (c :: rest) with Some (n, rest) => Some (JNum n, rest) | None => None end
      end
  end
with parse_elements (fuel : nat) (acc : list json) (s : jstr) : option (json * jstr) :=
  match fuel with
  | O => None
  | S fuel =>
      match parse_value fuel s with
      | None => None
      | Some (v, rest) =>
          match skip_ws rest with
          | [] => None
          | c :: rest => if c =? 44 then parse_elements fuel (acc ++ [v]) rest
                         else if c =? 93 then Some (JArr (acc ++ [v]), rest) else None
          end
      end
  end
with parse_members (fuel : nat) (acc : list (jstr * json)) (s : jstr) : option (json * jstr) :=
  match fuel with
  | O => None
  | S fuel =>
      match skip_ws s with
      | [] => None
      | q :: rest =>
          if q =? 34 then
            match parse_string rest with
            | None => None
            | Some (k, rest) =>
                match skip_ws rest with
                | [] => None
                | colon :: rest =>
                    if colon =? 58 then
                      match parse_value fuel rest with
                      | None => None
                      | Some (v, rest) =>
                          match skip_ws rest with
                          | [] => None
                          | c :: rest => if c =? 44 then parse_members fuel (set_member k v acc) rest
                                         else if c =? 125 then Some (JObj (set_member k v acc), rest) else None
                          end
                      end
                    else None
                end
            end
          else None
      end
  end.

(** [JSON.parse(text)]; [None] is its [SyntaxError]. Every call consumes a code
    unit or is followed by one that does, so twice the length is enough fuel. *)
Definition parse (text : jstr) : option json :=
  match parse_value (S (2 * length text)) text with
  | Some (v, rest) => if eqb (skip_ws rest) [] then Some v else None
  | None => None
  end.

(** ** [JSON.stringify] of strings, and canonical text *)

Definition u_escape (c : Z) : jstr :=
  [92; 117; hex_digit (c / 4096); hex_digit (c / 256 mod 16); hex_digit (c / 16 mod 16); hex_digit (c mod 16)].

Definition quote_char (c : Z) : jstr :=
  if (c =? 34) || (c =? 92) then [92; c]
  else if c =? 8 then [92; 98] else if c =? 12 then [92; 102] else if c =? 10 then [92; 110]
  else if c =? 13 then [92; 114] else if c =? 9 then [92; 116]
  else if c <? 32 then u_escape c else [c].

(** Lone surrogates are escaped. *)
Fixpoint quote_chars (s : jstr) : jstr :=
  match s with
  | [] => []
  | c :: rest =>
      if is_high c then
        match rest with
        | d :: rest' => if is_low d then c :: d :: quote_chars rest' else u_escape c ++ quote_chars rest
        | [] => u_escape c
        end
      else if is_low c then u_escape c ++ quote_chars rest
      else quote_char c ++ quote_chars rest
  end.

(** [JSON.stringify] of a string. *)
Definition quote (s : jstr) : jstr := 34 :: quote_chars s ++ [34].

(** Code unit order, the order of [sort()] without an argument. *)
Fixpoint jstr_leb (s t : jstr) : bool :=
  match s, t with
  | [], _ => true
  | _ :: _, [] => false
  | a :: s, b :: t => (a <? b) || ((a =? b) && jstr_leb s t)
  end.

Section Members.
Context {A : Type}.

Fixpoint insert_member (m : jstr * A) (l : list (jstr * A)) : list (jstr * A) :=
  match l with
  | [] => [m]
  | n :: l => if jstr_leb m.1 n.1 then m :: n :: l else n :: insert_member m l
  end.

(** Members in the order of [Object.keys(record).sort()]. *)
Definition sort_members (l : list (jstr * A)) : list (jstr * A) := foldr insert_member [] l.
End Members.

(** [canonicalJson] of a string. *)
Definition canonical_string (s : jstr) : res jstr :=
  check negb (lone_surrogate s) else "Lone surrogate in a string.";
  Ok (quote s).

Definition canonical_int (n : jnum) : bool :=
  match n with Int z => (0 <=? z) && is_safe_integer z | _ => false end.

(** [canonicalJson] of [direct/messages.ts]. The members' texts are sorted by
    name after they are made rather than before, which only changes which of
    several errors is thrown first. *)
Fixpoint canonicalJson (v : json) : res jstr :=
  match v with
  | JStr s => canonical_string s
  | JNum n =>
      check canonical_int n else "Not a canonical integer.";
      Ok (match n with Int z => decimal z | _ => [] end)
  | JBool b => Ok (if b then lit "true" else lit "false")
  | JNull => Throw "null is not allowed."
  | JArr l =>
      let! items := rmap canonicalJson l in
      Ok (91 :: join [44] items ++ [93])
  | JObj members =>
      let! texts := rmap (λ m, let! k := canonical_string m.1 in
                               let! t := canonicalJson m.2 in
                               Ok (m.1, k ++ 58 :: t)) members in
      Ok (123 :: join [44] (map snd (sort_members texts)) ++ [125])
  end.

(** ** Induction on values *)

Section Induction.
Context (P : json → Prop).
Hypotheses (HNull : P JNull) (HBool : ∀ b, P (JBool b)) (HNum : ∀ n, P (JNum n)) (HStr : ∀ s, P (JStr s))
  (HArr : ∀ l, Forall P l → P (JArr l)) (HObj : ∀ l, Forall (λ m, P m.2) l → P (JObj l)).

Fixpoint json_nested (v : json) : P v :=
  match v with
  | JNull => HNull | JBool b => HBool b | JNum n => HNum n | JStr s => HStr s
  | JArr l => HArr l ((fix go l : Forall P l := match l with
      | [] => List.Forall_nil P | v :: l => @List.Forall_cons _ P _ _ (json_nested v) (go l) end) l)
  | JObj l => HObj l ((fix go l : Forall (λ m : jstr * json, P m.2) l := match l with
      | [] => List.Forall_nil _ | m :: l => @List.Forall_cons _ _ m _ (json_nested m.2) (go l) end) l)
  end.
End Induction.

(** ** Strings survive quoting *)

Lemma hex4_u c : 0 <= c < 65536 →
  hex4 (hex_digit (c / 4096)) (hex_digit (c / 256 mod 16)) (hex_digit (c / 16 mod 16)) (hex_digit (c mod 16)) = Some c.
Proof.
  intros Hc. assert (0 <= c / 4096 < 16) by (split; [apply Z.div_pos|apply Z.div_lt_upper_bound]; lia).
  pose proof (Z.mod_pos_bound (c / 256) 16). pose proof (Z.mod_pos_bound (c / 16) 16). pose proof (Z.mod_pos_bound c 16).
  unfold hex4. rewrite !hex_digit_hex, !hex_value_digit by lia. f_equal.
  assert (c / 256 = c / 16 / 16) as E1 by (rewrite Z.div_div; [done|lia..]).
  assert (c / 4096 = c / 256 / 16) as E2 by (rewrite Z.div_div; [done|lia..]).
  pose proof (Z.div_mod c 16). pose proof (Z.div_mod (c / 16) 16). pose proof (Z.div_mod (c / 256) 16). lia.
Qed.

Lemma parse_string_u c s : 0 <= c < 65536 → parse_string (u_escape c ++ s) = scons c (parse_string s).
Proof. intros H. unfold u_escape. cbn [app parse_string Z.eqb Pos.eqb]. by rewrite hex4_u. Qed.

Lemma parse_string_raw c s : 32 <= c → c ≠ 34 → c ≠ 92 → parse_string (c :: s) = scons c (parse_string s).
Proof.
  intros. cbn [parse_string]. rewrite (proj2 (Z.eqb_neq c 34)), (proj2 (Z.eqb_neq c 92)) by done. by range_tests.
Qed.

Lemma parse_string_char c s : 0 <= c < 65536 → parse_string (quote_char c ++ s) = scons c (parse_string s).
Proof.
  intros Hc. unfold quote_char.
  destruct (Z.eqb_spec c 34) as [->|]; [done|]. destruct (Z.eqb_spec c 92) as [->|]; [done|]. cbn [orb].
  repeat match goal with |- context [c =? ?k] => destruct (Z.eqb_spec c k) as [->|]; [done|] end.
  destruct (Z.ltb_spec c 32); [by apply parse_string_u|by apply parse_string_raw].
Qed.

Lemma parse_string_quote s rest : jstr_ok s → parse_string (quote_chars s ++ 34 :: rest) = Some (s, rest).
Proof.
  remember (length s) as n eqn:Hn. assert (length s <= n)%nat as Hl by lia. clear Hn.
  revert s Hl. induction n as [|n IH]; intros s Hl Hs; [destruct s; [done|simpl in Hl; lia]|].
  destruct s as [|c s]; [done|]. apply Forall_cons in Hs as [Hc Hs]. unfold unit_ok in Hc. simpl in Hl.
  assert (parse_string (quote_chars s ++ 34 :: rest) = Some (s, rest)) as E by (apply IH; [lia|done]).
  cbn [quote_chars]. unfold is_high, is_low. destruct (in_range 55296 56319 c) eqn:Eh.
  - apply in_range_spec in Eh. destruct s as [|d s]; [by rewrite parse_string_u|].
    apply Forall_cons in Hs as [Hd Hs]. simpl in Hl. destruct (in_range 56320 57343 d) eqn:El.
    + apply in_range_spec in El. cbn [app]. rewrite !parse_string_raw, IH by (done || lia). done.
    + rewrite <- app_assoc, parse_string_u, E by done. done.
  - destruct (in_range 56320 57343 c) eqn:El.
    + rewrite <- app_assoc, parse_string_u, E by done. done.
    + rewrite <- app_assoc, parse_string_char, E by done. done.
Qed.

(** ** Parsing canonical text *)

Fixpoint deep_sort (v : json) : json :=
  match v with
  | JArr l => JArr (map deep_sort l)
  | JObj ms => JObj (sort_members (map (λ m, (m.1, deep_sort m.2)) ms))
  | _ => v
  end.

(** Well-formed values: code units in range, no repeated member. *)
Inductive json_ok : json → Prop :=
  | ok_null : json_ok JNull
  | ok_bool b : json_ok (JBool b)
  | ok_num n : json_ok (JNum n)
  | ok_str s : jstr_ok s → json_ok (JStr s)
  | ok_arr l : Forall json_ok l → json_ok (JArr l)
  | ok_obj l : NoDup (map fst l) → Forall (λ m, jstr_ok m.1) l → Forall (λ m, json_ok m.2) l → json_ok (JObj l).

(** What may follow a numeral without becoming part of it. *)
Definition stops (rest : jstr) : Prop :=
  match rest with [] => True | c :: _ => is_digit c = false ∧ c ≠ 46 ∧ c ≠ 101 ∧ c ≠ 69 end.

Definition parses (v : json) (t : jstr) : Prop :=
  ∀ fuel rest, (2 * length t < fuel)%nat → stops rest → parse_value fuel (t ++ rest) = Some (v, rest).

(** The first code unit of a value's text. *)
Definition value_head (t : jstr) : Prop :=
  match t with [] => False | c :: _ => is_ws c = false ∧ c ≠ 93 ∧ c ≠ 125 end.

Lemma skip_ws_head t rest : value_head t → skip_ws (t ++ rest) = t ++ rest.
Proof. destruct t as [|c t]; [done|]. intros (H & _). unfold skip_ws. simpl. by rewrite H. Qed.

Lemma take_digits_app s rest : forallb is_digit s = true → stops rest → take_digits (s ++ rest) = (s, rest).
Proof.
  intros Hs Hr. induction s as [|c s IH]; simpl in *.
  - destruct rest as [|c rest]; [done|]. destruct Hr as (Hd & _). simpl. by rewrite Hd.
  - bool_prop. match goal with H : is_digit c = true |- _ => rewrite H end. by rewrite IH.
Qed.

Lemma numeral_small n : 0 <= n <= max_safe_integer → numeral false n 0 = Int n.
Proof.
  unfold max_safe_integer. intros Hn. unfold numeral. cbn [Z.leb Z.compare]. rewrite Z.mul_1_r. unfold round_double.
  destruct (Z.eqb_spec n 0) as [->|Hn0]; [done|].
  pose proof (Z.log2_spec n ltac:(lia)) as [Hl _]. pose proof (Z.log2_nonneg n).
  assert (Z.log2 n < 53) by (apply Z.log2_lt_pow2; lia).
  change (Z.log2 1) with 0. rewrite Z.sub_0_r. rewrite (proj2 (Z.leb_le 0 (Z.log2 n))) by lia.
  rewrite Z.mul_1_l, (proj2 (Z.leb_le (2 ^ Z.log2 n) n)) by lia. cbv zeta. rewrite Z.max_r by lia.
  set (e := Z.log2 n - 52). assert (e <= 0) by lia.
  unfold round_div, double. destruct (Z.leb_spec 0 e) as [He|He].
  - assert (e = 0) as -> by lia. rewrite Z.pow_0_r, !Z.mul_1_r, Z.div_1_r, Z.mod_1_r.
    change (2 * 0 <? 1) with true. cbn [orb]. rewrite (proj2 (Z.eqb_neq n 0)) by done.
    rewrite (proj2 (Z.leb_gt (2 ^ 1024) n)); [done|].
    apply Z.le_lt_trans with (2 ^ 53); [lia|]. apply Z.pow_lt_mono_r; lia.
  - rewrite Z.div_1_r, Z.mod_1_r. change (2 * 0 <? 1) with true. cbn [orb].
    assert (0 < 2 ^ (- e)) by (apply Z.pow_pos_nonneg; lia).
    rewrite (proj2 (Z.eqb_neq (n * 2 ^ (- e)) 0)) by nia.
    assert (Z.gcd (n * 2 ^ (- e)) (2 ^ (- e)) = 2 ^ (- e)) as -> by (rewrite Z.gcd_comm, Z.mul_comm; apply Z.gcd_mul_diag_l; lia).
    rewrite Z.div_same, Z.eqb_refl, Z.div_mul by lia. done.
Qed.

Lemma parse_number_decimal n rest : 0 <= n <= max_safe_integer → stops rest →
  parse_number (decimal n ++ rest) = Some (Int n, rest).
Proof.
  intros Hn Hr. pose proof (decimal_digits n ltac:(lia)) as Hd. pose proof (is_decimal_decimal n ltac:(lia)) as Hi.
  unfold parse_number.
  assert (match decimal n ++ rest with c :: _ => c =? 45 | [] => false end = false) as ->.
  { destruct (decimal n) as [|c t]; [done|]. simpl in Hd. bool_prop. unfold is_digit, in_range in *. bool_prop.
    simpl. apply Z.eqb_neq. lia. }
  cbv zeta. rewrite take_digits_app by done. cbn [fst snd]. rewrite Hi.
  assert (parse_fraction rest = Some ([], rest)) as ->.
  { destruct rest as [|c rest]; [done|]. destruct Hr as (_ & Hc & _). simpl. by rewrite (proj2 (Z.eqb_neq c 46)). }
  assert (parse_exponent rest = Some (0, rest)) as ->.
  { destruct rest as [|c rest]; [done|]. destruct Hr as (_ & _ & H1 & H2). cbn [parse_exponent].
    by rewrite (proj2 (Z.eqb_neq c 101)), (proj2 (Z.eqb_neq c 69)). }
  rewrite app_nil_r, digits_value_decimal by lia. change (0 - zlen []) with 0. by rewrite numeral_small.
Qed.

Lemma decimal_head n : 0 <= n → ∃ c t, decimal n = c :: t ∧ 48 <= c <= 57.
Proof.
  intros Hn. pose proof (decimal_digits n Hn) as Hd. pose proof (is_decimal_decimal n Hn).
  destruct (decimal n) as [|c t]; [done|]. exists c, t. simpl in Hd. bool_prop. unfold is_digit, in_range in *. bool_prop.
  split; [done|lia].
Qed.

Lemma parses_int n : 0 <= n <= max_safe_integer → parses (JNum (Int n)) (decimal n).
Proof.
  intros Hn fuel rest Hf Hr. destruct fuel as [|fuel]; [lia|]. cbn [parse_value].
  pose proof (parse_number_decimal n rest Hn Hr) as E. destruct (decimal_head n ltac:(lia)) as (c & t & Ed & Hc).
  rewrite skip_ws_head by (rewrite Ed; unfold value_head, is_ws; eqb_tests; split_and!; done || lia).
  rewrite Ed in *. cbn [app] in *. eqb_tests. by rewrite E.
Qed.

Lemma parses_str s : jstr_ok s → parses (JStr s) (quote s).
Proof.
  intros Hs fuel rest Hf Hr. destruct fuel as [|fuel]; [lia|]. unfold quote. cbn [app parse_value]. unfold skip_ws. simpl.
  rewrite <- app_assoc. simpl. by rewrite parse_string_quote.
Qed.

Lemma parses_bool b : parses (JBool b) (if b then lit "true" else lit "false").
Proof. intros fuel rest Hf Hr. destruct fuel as [|fuel]; [lia|]. by destruct b. Qed.

Lemma stops_comma l : stops (44 :: l).
Proof. repeat split; lia. Qed.
Lemma stops_close l : stops (93 :: l).
Proof. repeat split; lia. Qed.
Lemma stops_brace l : stops (125 :: l).
Proof. repeat split; lia. Qed.
#[export] Hint Resolve stops_comma stops_close stops_brace : wild.

Lemma parse_elements_join l items : Forall2 parses l items → l ≠ [] → ∀ fuel acc rest,
  (2 * length (join [44%Z] items) + 2 < fuel)%nat →
  parse_elements fuel acc (join [44] items ++ 93 :: rest) = Some (JArr (acc ++ l), rest).
Proof.
  induction 1 as [|v t l items Hv Hl IH]; [done|]. intros _ fuel acc rest Hf.
  destruct fuel as [|fuel]; [lia|]. cbn [parse_elements]. destruct Hl as [|v' t' l items Hv' Hl].
  - cbn [join] in *. rewrite Hv; [|lia|apply stops_close]. done.
  - rewrite join_cons in *. rewrite !length_app in Hf. cbn [length] in Hf.
    rewrite <- !app_assoc. rewrite Hv; [|lia|apply stops_comma]. cbn [app]. unfold skip_ws. cbn [drop_while is_ws Z.eqb Pos.eqb orb].
    rewrite IH; [by rewrite <- app_assoc|done|lia].
Qed.

(** A member and its canonical text. *)
Definition member_text (m : jstr * json) (kt : jstr * jstr) : Prop :=
  kt.1 = m.1 ∧ jstr_ok m.1 ∧ ∃ t, kt.2 = quote m.1 ++ 58 :: t ∧ parses m.2 t.

Lemma set_member_fresh k v l : k ∉ map fst l → set_member k v l = l ++ [(k, v)].
Proof.
  induction l as [|m l IH]; intros H; [done|]. simpl in *. apply not_elem_of_cons in H as [H1 H2].
  destruct (eqb m.1 k) eqn:E; [apply eqb_eq in E; congruence|]. by rewrite IH.
Qed.

Lemma parse_members_join ms texts : Forall2 member_text ms texts → ms ≠ [] → ∀ fuel acc rest,
  NoDup (map fst (acc ++ ms)) → (2 * length (join [44%Z] (map snd texts)) + 2 < fuel)%nat →
  parse_members fuel acc (join [44] (map snd texts) ++ 125 :: rest) = Some (JObj (acc ++ ms), rest).
Proof.
  induction 1 as [|[k v] [k' kt] ms texts Hm Hms IH]; [done|]. intros _ fuel acc rest Hnd Hf.
  destruct Hm as (Hk & Hko & t & Ht & Hv). cbn [fst snd] in *. subst k' kt.
  destruct fuel as [|fuel]; [lia|].
  assert (k ∉ map fst acc) as Hfresh.
  { rewrite map_app in Hnd. apply NoDup_app in Hnd as (_ & Hd & _). intros Hin. apply (Hd k Hin). by left. }
  assert (∀ r, parse_string (quote_chars k ++ 34 :: r) = Some (k, r)) as Hq by (intros; by apply parse_string_quote).
  cbn [parse_members map snd]. destruct Hms as [|m' kt' ms texts Hm' Hms].
  - cbn [map join snd] in *. unfold quote in *. rewrite <- !app_assoc. cbn [app]. unfold skip_ws at 1. cbn [drop_while is_ws Z.eqb Pos.eqb orb].
    rewrite <- app_assoc. cbn [app]. rewrite Hq. unfold skip_ws. cbn [drop_while is_ws Z.eqb Pos.eqb orb].
    rewrite Hv; [|rewrite !length_app in Hf; cbn [length] in Hf; lia|apply stops_brace].
    cbn [drop_while is_ws Z.eqb Pos.eqb orb]. by rewrite set_member_fresh.
  - cbn [map snd] in *. rewrite join_cons in *. rewrite !length_app in Hf. cbn [length] in Hf.
    unfold quote. rewrite <- !app_assoc. cbn [app]. unfold skip_ws at 1. cbn [drop_while is_ws Z.eqb Pos.eqb orb].
    rewrite <- !app_assoc. cbn [app]. rewrite Hq. unfold skip_ws. cbn [drop_while is_ws Z.eqb Pos.eqb orb].
    rewrite Hv; [|lia|apply stops_comma]. cbn [drop_while is_ws Z.eqb Pos.eqb orb].
    rewrite set_member_fresh by done.
    rewrite IH; [by rewrite <- app_assoc|done|by rewrite <- app_assoc|lia].
Qed.

Section SortRelated.
Context {A B : Type} (R : jstr * A → jstr * B → Prop).
Hypothesis (HR : ∀ a b, R a b → a.1 = b.1).

Lemma insert_related a b l l' : R a b → Forall2 R l l' → Forall2 R (insert_member a l) (insert_member b l').
Proof.
  intros Hab. induction 1 as [|c d l l' Hcd Hl IH]; simpl; [by repeat constructor|].
  rewrite (HR a b), (HR c d) by done. destruct (jstr_leb _ _); by repeat constructor.
Qed.

Lemma sort_related l l' : Forall2 R l l' → Forall2 R (sort_members l) (sort_members l').
Proof. induction 1; [constructor|]. by apply insert_related. Qed.
End SortRelated.

Section SortFacts.
Context {A : Type}.

Lemma insert_perm (m : jstr * A) l : insert_member m l ≡ₚ m :: l.
Proof. induction l as [|n l IH]; simpl; [done|]. destruct (jstr_leb _ _); [done|]. rewrite IH. apply Permutation_swap. Qed.

Lemma sort_perm (l : list (jstr * A)) : sort_members l ≡ₚ l.
Proof. induction l as [|m l IH]; simpl; [done|]. by rewrite insert_perm, IH. Qed.
End SortFacts.

Lemma rmap_Forall2 {A B} (f : A → res B) (R : A → B → Prop) l ys :
  Forall (λ x, ∀ y, f x = Ok y → R x y) l → rmap f l = Ok ys → Forall2 R l ys.
Proof.
  intros Hl H. apply rmap_ok_Forall2 in H. revert Hl. induction H; intros Hl; constructor; inversion Hl; subst; auto.
Qed.

Lemma quote_head k l : value_head (quote k ++ l).
Proof. unfold quote. simpl. repeat split; lia. Qed.

Lemma canonical_value_head v t : canonicalJson v = Ok t → value_head t.
Proof.
  destruct v; cbn [canonicalJson]; intros H; inv_ok.
  - by destruct b.
  - destruct n as [z| | |]; try done. unfold canonical_int in *. bool_prop.
    destruct (decimal_head z) as (c & t & -> & Hc); [lia|]. unfold value_head, is_ws. eqb_tests. split_and!; done || lia.
  - unfold canonical_string in H. inv_ok. rewrite <- (app_nil_r (quote s)). apply quote_head.
  - repeat split; lia.
  - repeat split; lia.
Qed.

Lemma parses_array l items : Forall2 parses l items → Forall value_head items →
  parses (JArr l) (91 :: join [44] items ++ [93]).
Proof.
  intros Hp Hh fuel rest Hf Hr. destruct fuel as [|fuel]; [lia|].
  cbn [length] in Hf. rewrite length_app in Hf. cbn [length] in Hf.
  cbn [app parse_value]. unfold skip_ws at 1. cbn [drop_while is_ws Z.eqb Pos.eqb orb]. rewrite <- app_assoc. cbn [app].
  destruct Hp as [|v it l' items Hv Hp]; [done|].
  assert (value_head (join [44] (it :: items))) as Hj.
  { apply Forall_inv in Hh. destruct items; [done|]. rewrite join_cons. by destruct it. }
  rewrite skip_ws_head by done. destruct (join [44] (it :: items)) as [|c j] eqn:Ej; [done|]. destruct Hj as (_ & Hc & _).
  cbn [app]. rewrite (proj2 (Z.eqb_neq c 93)) by done. rewrite app_comm_cons, <- Ej in *.
  rewrite (parse_elements_join (v :: l')); [done|by constructor|done|lia].
Qed.

Lemma parses_object ms texts : Forall2 member_text ms texts → NoDup (map fst ms) →
  parses (JObj ms) (123 :: join [44] (map snd texts) ++ [125]).
Proof.
  intros Hp Hnd fuel rest Hf Hr. destruct fuel as [|fuel]; [lia|].
  cbn [length] in Hf. rewrite length_app in Hf. cbn [length] in Hf.
  cbn [app parse_value]. unfold skip_ws at 1. cbn [drop_while is_ws Z.eqb Pos.eqb orb]. rewrite <- app_assoc. cbn [app].
  destruct Hp as [|m kt ms texts Hm Hp]; [done|].
  assert (value_head (join [44] (map snd (kt :: texts)))) as Hj.
  { destruct Hm as (_ & _ & t & Ekt & _). cbn [map]. rewrite Ekt. destruct (map snd texts); [apply quote_head|].
    rewrite join_cons, <- app_assoc. apply quote_head. }
  rewrite skip_ws_head by done. destruct (join [44] (map snd (kt :: texts))) as [|c j] eqn:Ej; [done|]. destruct Hj as (_ & _ & Hc).
  cbn [app]. rewrite (proj2 (Z.eqb_neq c 125)) by done. rewrite app_comm_cons, <- Ej in *.
  rewrite (parse_members_join (m :: ms)); [done|by constructor|done|done|lia].
Qed.

(** [JSON.parse] reads canonical text back, with the members in order. *)
Lemma parses_canonical v : json_ok v → ∀ t, canonicalJson v = Ok t → parses (deep_sort v) t.
Proof.
  induction v as [|b|n|s|l IH|l IH] using json_nested; intros Hok t H; cbn [canonicalJson deep_sort] in *; inv_ok.
  - apply parses_bool.
  - destruct n as [z| | |]; try done. unfold canonical_int, is_safe_integer in *. bool_prop.
    apply parses_int. lia.
  - unfold canonical_string in H. inv_ok. inversion Hok. by apply parses_str.
  - inversion Hok as [| | | |? Hl|]; subst. rename x into items. apply parses_array.
    + apply Forall2_fmap_l. eapply rmap_Forall2; [|exact E]. rewrite Forall_forall in *. intros v Hv t Ht. simpl. by apply IH; auto.
    + apply rmap_ok_Forall2 in E. apply Forall_lookup. intros i it Hi.
      destruct (Forall2_lookup_r _ _ _ _ _ E Hi) as (v & _ & Hv). by eapply canonical_value_head.
  - inversion Hok as [| | | | |? Hnd Hks Hvs]; subst. rename x into texts. apply parses_object.
    + apply sort_related; [by intros ? ? (? & _)|]. apply Forall2_fmap_l. eapply rmap_Forall2; [|exact E].
      rewrite Forall_forall in *. intros m Hm kt Ht. unfold canonical_string in Ht. inv_ok.
      unfold member_text. cbn [fst snd].
      split_and!; [done|by apply (Hks m)|]. eexists. split; [done|]. by apply (IH m); auto.
    + rewrite sort_perm, map_map. exact Hnd.
Qed.

Lemma parse_parses v t : parses v t → parse t = Some v.
Proof.
  intros Hp. unfold parse. rewrite <- (app_nil_r t) at 2. rewrite (Hp (S (2 * length t)) []); [done|lia|done].
Qed.

Lemma parse_canonical v t : json_ok v → canonicalJson v = Ok t → parse t = Some (deep_sort v).
Proof.
  intros Hv Ht. by apply parse_parses, parses_canonical.
Qed.

(** ** Quoted text is well formed *)

Lemma hex_digit_ascii n : 0 <= n < 16 → 0 <= hex_digit n < 128.
Proof. intros. unfold hex_digit. destruct (n <? 10); lia. Qed.

Lemma u_escape_ascii c : 0 <= c < 65536 → ascii (u_escape c).
Proof.
  intros Hc. assert (0 <= c / 4096 < 16) by (split; [apply Z.div_pos|apply Z.div_lt_upper_bound]; lia).
  repeat (constructor; [first [lia | apply hex_digit_ascii; first [done | apply Z.mod_pos_bound; lia]]|]). constructor.
Qed.

Lemma quote_char_ok c : unit_ok c → is_high c = false → is_low c = false →
  jstr_ok (quote_char c) ∧ lone_surrogate (quote_char c) = false.
Proof.
  intros Hc Hh Hl. assert (ascii (quote_char c) ∨ quote_char c = [c]) as [Ha|E].
  { unfold quote_char, unit_ok in *. repeat case_match; auto; left; try (apply u_escape_ascii; lia);
      bool_prop; repeat constructor; lia. }
  - split; [by apply ascii_jstr_ok|by apply lone_surrogate_ascii].
  - rewrite E. split; [by apply Forall_singleton|]. unfold lone_surrogate. cbn [points]. rewrite Hh, Hl. cbn [existsb]. by rewrite Hh, Hl.
Qed.

(** [JSON.stringify] never writes a lone surrogate. *)
Lemma quote_chars_ok s : jstr_ok s → jstr_ok (quote_chars s) ∧ lone_surrogate (quote_chars s) = false.
Proof.
  remember (length s) as n eqn:Hn. assert (length s <= n)%nat as Hl by lia. clear Hn.
  revert s Hl. induction n as [|n IH]; intros s Hl Hs; [destruct s; [done|simpl in Hl; lia]|].
  destruct s as [|c s]; [done|]. apply Forall_cons in Hs as [Hc Hs]. simpl in Hl.
  destruct (IH s) as [IH1 IH2]; [lia|done|].
  assert (∀ q, jstr_ok q ∧ lone_surrogate q = false → jstr_ok (q ++ quote_chars s) ∧ lone_surrogate (q ++ quote_chars s) = false) as Happ.
  { intros q [H1 H2]. split; [by apply Forall_app|by apply lone_surrogate_app]. }
  assert (jstr_ok (u_escape c) ∧ lone_surrogate (u_escape c) = false) as Hu
    by (split; [apply ascii_jstr_ok|apply lone_surrogate_ascii]; by apply u_escape_ascii).
  cbn [quote_chars]. destruct (is_high c) eqn:Eh.
  - destruct s as [|d s]; [done|]. destruct (is_low d) eqn:El; [|by apply Happ].
    apply Forall_cons in Hs as [Hd Hs]. simpl in Hl. destruct (IH s) as [IH3 IH4]; [lia|done|].
    split; [constructor; [done|]; by constructor|]. unfold lone_surrogate in *. cbn [points]. rewrite Eh, El. cbn [existsb]. rewrite IH4.
    unfold is_high, is_low in *. rewrite in_range_spec in Eh, El. by range_tests.
  - destruct (is_low c) eqn:El; [by apply Happ|]. apply Happ. by apply quote_char_ok.
Qed.

Lemma quote_ok s : jstr_ok s → jstr_ok (quote s) ∧ lone_surrogate (quote s) = false.
Proof.
  intros Hs. destruct (quote_chars_ok s Hs) as [H1 H2]. unfold quote. split.
  - constructor; [by unfold unit_ok|]. apply Forall_app. split; [done|by repeat constructor].
  - apply (lone_surrogate_app [34]); [done|]. by apply lone_surrogate_app.
Qed.

(** ** What the parser returns is well formed *)

Lemma drop_while_ok p s : jstr_ok s → jstr_ok (drop_while p s).
Proof. induction 1 as [|c s Hc Hs IH]; simpl; [constructor|]. destruct (p c); [done|by constructor]. Qed.

Lemma scons_Some c m r : scons c m = Some r ↔ ∃ s rest, m = Some (s, rest) ∧ r = (c :: s, rest).
Proof. destruct m as [[s rest]|]; simpl; naive_solver. Qed.

Lemma hex4_ok a b c d u : hex4 a b c d = Some u → unit_ok u.
Proof.
  assert (∀ x v, (if is_hex x then Some (hex_value x) else if in_range 65 70 x then Some (x - 55) else None) = Some v → 0 <= v < 16) as Hd.
  { intros x v. unfold is_hex, is_digit. destruct (in_range 48 57 x) eqn:E1; simpl.
    - apply in_range_spec in E1. intros [= <-]. unfold hex_value. rewrite (proj2 (Z.ltb_lt x 58)); lia.
    - apply in_range_false in E1. destruct (in_range 97 102 x) eqn:E2; simpl.
      + apply in_range_spec in E2. intros [= <-]. unfold hex_value. rewrite (proj2 (Z.ltb_ge x 58)); lia.
      + destruct (in_range 65 70 x) eqn:E3; [|done]. apply in_range_spec in E3. intros [= <-]. lia. }
  unfold hex4. repeat match goal with |- context [match ?m with _ => _ end = _] => idtac end.
  destruct (if is_hex a then _ else _) eqn:Ea; [|done]. destruct (if is_hex b then _ else _) eqn:Eb; [|done].
  destruct (if is_hex c then _ else _) eqn:Ec; [|done]. destruct (if is_hex d then _ else _) eqn:Ed; [|done].
  intros [= <-]. apply Hd in Ea, Eb, Ec, Ed. unfold unit_ok. lia.
Qed.

Lemma parse_string_ok s str rest : parse_string s = Some (str, rest) → jstr_ok s →
  jstr_ok str ∧ jstr_ok rest ∧ (length rest < length s)%nat.
Proof.
  remember (length s) as n eqn:Hn. assert (length s <= n)%nat as Hl by lia. rewrite Hn. clear Hn.
  revert s str rest Hl. induction n as [|n IH]; intros s str rest Hl H Hs; [destruct s; [done|simpl in Hl; lia]|].
  destruct s as [|c s]; [done|]. apply Forall_cons in Hs as [Hc Hs]. simpl in Hl |- *. cbn [parse_string] in H.
  assert (∀ u t, (length t <= length s)%nat → unit_ok u → jstr_ok t → scons u (parse_string t) = Some (str, rest) →
    jstr_ok str ∧ jstr_ok rest ∧ (length rest < S (length s))%nat) as Hstep.
  { intros u t Ht Hu Hto (str' & rest' & E & [= -> ->])%scons_Some.
    destruct (IH t str' rest') as (? & ? & ?); [lia|done|done|]. split_and!; [by constructor|done|lia]. }
  destruct (c =? 34); [injection H as <- <-; split_and!; [constructor|done|lia]|].
  destruct (c =? 92).
  - destruct s as [|e s]; [done|]. apply Forall_cons in Hs as [He Hs]. simpl in Hstep. destruct (e =? 117).
    + destruct s as [|h1 [|h2 [|h3 [|h4 s]]]]; try done. repeat (apply Forall_cons in Hs as [_ Hs]).
      destruct (hex4 h1 h2 h3 h4) as [u|] eqn:Eu; [|done]. apply (Hstep u s); [simpl; lia|by eapply hex4_ok|done|done].
    + destruct (escape_char e) as [u|] eqn:Eu; [|done]. apply (Hstep u s); [lia| |done|done].
      unfold escape_char in Eu. unfold unit_ok in *. repeat case_match; simplify_eq; lia.
  - destruct (c <? 32); [done|]. by apply (Hstep c s).
Qed.

Lemma take_digits_ok s : jstr_ok s → jstr_ok (take_digits s).2.
Proof. induction 1 as [|c s Hc Hs IH]; simpl; [constructor|]. destruct (is_digit c); [done|by constructor]. Qed.

Lemma parse_number_ok s n rest : parse_number s = Some (n, rest) → jstr_ok s → jstr_ok rest.
Proof.
  unfold parse_number. intros H Hs.
  set (s' := if (match s with c :: _ => c =? 45 | [] => false end) then tl s else s) in *.
  assert (jstr_ok s') as Hs' by (unfold s'; destruct Hs as [|c s Hc Hs]; [apply Forall_nil; done|]; destruct (c =? 45); [done|by constructor]).
  cbv zeta in H. destruct (is_decimal _); [|done].
  pose proof (take_digits_ok s' Hs') as H2. generalize dependent (take_digits s').2. intros s2 H H2.
  destruct (parse_fraction s2) as [[frac s3]|] eqn:Ef; [|done].
  assert (jstr_ok s3) as H3.
  { destruct H2 as [|c s2 Hc H2]; cbn [parse_fraction] in Ef; [injection Ef as _ <-; by apply Forall_nil|].
    destruct (c =? 46); [|by injection Ef as _ <-; constructor]. destruct (eqb _ _); [done|].
    injection Ef as Ef. pose proof (take_digits_ok s2 H2) as H3. by rewrite Ef in H3. }
  destruct (parse_exponent s3) as [[e s4]|] eqn:Ee; [|done]. injection H as _ <-.
  destruct H3 as [|c s3 Hc H3]; cbn [parse_exponent] in Ee; [injection Ee as _ <-; by apply Forall_nil|].
  destruct (_ || _); [|by injection Ee as _ <-; constructor]. destruct (eqb _ _); [done|]. injection Ee as _ <-.
  apply take_digits_ok. destruct H3 as [|d s3 Hd H3]; [constructor|]. destruct (_ || _); [done|by constructor].
Qed.

Lemma set_member_keys k v l : NoDup (map fst l) → NoDup (map fst (set_member k v l)) ∧
  (∀ k', k' ∈ map fst (set_member k v l) ↔ k' = k ∨ k' ∈ map fst l).
Proof.
  induction l as [|m l IH]; intros Hnd; simpl.
  - split; [apply NoDup_singleton|]. intros k'. set_solver.
  - apply NoDup_cons in Hnd as [Hm Hnd]. destruct (eqb m.1 k) eqn:E; simpl.
    + apply eqb_eq in E. subst k. split; [by apply NoDup_cons|]. intros k'. rewrite !elem_of_cons. naive_solver.
    + destruct (IH Hnd) as [H1 H2]. split.
      * apply NoDup_cons. split; [|done]. rewrite H2. intros [Ek|?]; [|done].
        rewrite (proj2 (eqb_eq _ _) Ek) in E. done.
      * intros k'. rewrite !elem_of_cons, H2. naive_solver.
Qed.

Lemma set_member_Forall (P : jstr * json → Prop) k v l : Forall P l → P (k, v) → Forall P (set_member k v l).
Proof. intros Hl Hk. induction Hl as [|m l Hm Hl IH]; simpl; [by repeat constructor|]. destruct (eqb m.1 k); by constructor. Qed.

Definition members_ok (l : list (jstr * json)) : Prop :=
  NoDup (map fst l) ∧ Forall (λ m, jstr_ok m.1) l ∧ Forall (λ m, json_ok m.2) l.

Lemma members_ok_set k v l : members_ok l → jstr_ok k → json_ok v → members_ok (set_member k v l).
Proof.
  intros (H1 & H2 & H3) Hk Hv. split_and!; [by apply set_member_keys|by apply set_member_Forall|by apply set_member_Forall].
Qed.

Lemma parse_ok fuel :
  (∀ s v rest, parse_value fuel s = Some (v, rest) → jstr_ok s → json_ok v ∧ jstr_ok rest) ∧
  (∀ acc s v rest, parse_elements fuel acc s = Some (v, rest) → Forall json_ok acc → jstr_ok s → json_ok v ∧ jstr_ok rest) ∧
  (∀ acc s v rest, parse_members fuel acc s = Some (v, rest) → members_ok acc → jstr_ok s → json_ok v ∧ jstr_ok rest).
Proof.
  induction fuel as [|fuel (IHv & IHe & IHm)]; [done|]. split_and!.
  - intros s v rest H Hs. cbn [parse_value] in H. apply (drop_while_ok is_ws) in Hs. fold skip_ws in Hs.
    destruct (skip_ws s) as [|c r]; [done|]. pose proof Hs as Hcr. apply Forall_cons in Hs as [_ Hr].
    assert (jstr_ok (skip_ws r)) as Hr' by by apply drop_while_ok.
    assert (∀ w x, parse_literal w x (c :: r) = Some (v, rest) → json_ok x → json_ok v ∧ jstr_ok rest) as Hlit.
    { intros w x Hw Hx. unfold parse_literal in Hw. destruct (startsWith _ _); [|done]. injection Hw as <- <-.
      split; [done|]. by apply Forall_drop. }
    repeat case_if H.
    + destruct (skip_ws r) as [|d r']; [done|]. case_if H; [|by eapply IHm; [exact H|split_and!; constructor|]].
      injection H as <- <-. apply Forall_cons in Hr' as [_ ?]. split; [|done]. by repeat constructor.
    + destruct (skip_ws r) as [|d r']; [done|]. case_if H; [|by eapply IHe; [exact H|constructor|]].
      injection H as <- <-. apply Forall_cons in Hr' as [_ ?]. split; [|done]. by repeat constructor.
    + destruct (parse_string r) as [[str r']|] eqn:Es; [|done]. injection H as <- <-.
      destruct (parse_string_ok _ _ _ Es Hr) as (? & ? & _). split; [by constructor|done].
    + eapply Hlit; [done|constructor].
    + eapply Hlit; [done|constructor].
    + eapply Hlit; [done|constructor].
    + destruct (parse_number (c :: r)) as [[n r']|] eqn:En; [|done]. injection H as <- <-.
      split; [constructor|]. by eapply parse_number_ok.
  - intros acc s v rest H Hacc Hs. cbn [parse_elements] in H.
    destruct (parse_value fuel s) as [[x r]|] eqn:Ev; [|done]. destruct (IHv _ _ _ Ev Hs) as [Hx Hr].
    apply (drop_while_ok is_ws) in Hr. fold skip_ws in Hr. destruct (skip_ws r) as [|c r']; [done|].
    apply Forall_cons in Hr as [_ Hr]. assert (Forall json_ok (acc ++ [x])) by (apply Forall_app; split; [done|by repeat constructor]).
    repeat case_if H; [by eapply IHe| |done]. injection H as <- <-. split; [by constructor|done].
  - intros acc s v rest H Hacc Hs. cbn [parse_members] in H.
    apply (drop_while_ok is_ws) in Hs. fold skip_ws in Hs. destruct (skip_ws s) as [|q r]; [done|]. apply Forall_cons in Hs as [_ Hr].
    case_if H; [|done]. destruct (parse_string r) as [[k r1]|] eqn:Es; [|done]. destruct (parse_string_ok _ _ _ Es Hr) as (Hk & Hr1 & _).
    apply (drop_while_ok is_ws) in Hr1. fold skip_ws in Hr1. destruct (skip_ws r1) as [|colon r2]; [done|]. apply Forall_cons in Hr1 as [_ Hr2].
    case_if H; [|done]. destruct (parse_value fuel r2) as [[x r3]|] eqn:Ev; [|done]. destruct (IHv _ _ _ Ev Hr2) as [Hx Hr3].
    apply (drop_while_ok is_ws) in Hr3. fold skip_ws in Hr3. destruct (skip_ws r3) as [|c r4]; [done|]. apply Forall_cons in Hr3 as [_ Hr4].
    pose proof (members_ok_set k x acc Hacc Hk Hx) as Hacc'.
    repeat case_if H; [by eapply IHm| |done]. injection H as <- <-. split; [|done]. destruct Hacc' as (? & ? & ?). by constructor.
Qed.

Lemma parse_json_ok t v : jstr_ok t → parse t = Some v → json_ok v.
Proof.
  unfold parse. intros Ht H. destruct (parse_value _ t) as [[x rest]|] eqn:E; [|done].
  destruct (eqb _ _); [|done]. injection H as <-. by apply (proj1 (parse_ok _)) in E as [? _].
Qed.

(** Text that is the canonical form of its own value lists every object's
    members in order. *)
Lemma canonical_sorted t v : jstr_ok t → parse t = Some v → canonicalJson v = Ok t → deep_sort v = v.
Proof.
  intros Ht Hp Hc. pose proof (parse_canonical v t (parse_json_ok t v Ht Hp) Hc) as H. congruence.
Qed.

(** ** The order of member names *)

Lemma jstr_leb_refl s : jstr_leb s s = true.
Proof. induction s as [|a s IH]; [done|]. simpl. by rewrite Z.ltb_irrefl, Z.eqb_refl, IH. Qed.

Lemma jstr_leb_antisym s t : jstr_leb s t = true → jstr_leb t s = true → s = t.
Proof.
  revert t; induction s as [|a s IH]; intros [|b t] H1 H2; try done. simpl in *.
  destruct (Z.ltb_spec a b), (Z.ltb_spec b a), (Z.eqb_spec a b), (Z.eqb_spec b a); simpl in *; try done; try lia.
  subst. by rewrite (IH t).
Qed.

Lemma jstr_leb_total s t : jstr_leb s t = false → jstr_leb t s = true.
Proof.
  revert t; induction s as [|a s IH]; intros [|b t] H; try done. simpl in *.
  destruct (Z.ltb_spec a b), (Z.ltb_spec b a), (Z.eqb_spec a b), (Z.eqb_spec b a); simpl in *; try done; try lia; auto.
Qed.

Lemma jstr_leb_trans s t u : jstr_leb s t = true → jstr_leb t u = true → jstr_leb s u = true.
Proof.
  revert t u; induction s as [|a s IH]; intros [|b t] [|c u] H1 H2; try done. simpl in *.
  apply orb_true_iff in H1 as [H1|H1]; apply orb_true_iff in H2 as [H2|H2];
    rewrite ?andb_true_iff, ?Z.ltb_lt, ?Z.eqb_eq in *; apply orb_true_iff; rewrite andb_true_iff, Z.ltb_lt, Z.eqb_eq.
  - left; lia.
  - left; lia.
  - left; lia.
  - right. destruct H1 as [-> H1], H2 as [-> H2]. split; [done|by eapply IH].
Qed.
