(* ===== verification/Security.v ===== *)
(** * Names, sizes and endpoints ([core/security.ts])

    The URL parser and SHA3-256 are the platform's, so a class gives them: a
    parsed URL is the record of the fields the module reads. *)

From S2P Require Import Prelude JsString Utf8 Bytes.

Definition MAX_PROTOTYPE_FILE_BYTES : Z := 256 * 1024 * 1024.
Definition MAX_PROTOTYPE_TRANSFER_BYTES : Z := MAX_PROTOTYPE_FILE_BYTES + 2 * 1024 * 1024.
Definition MAX_RELAY_MESSAGE_BYTES : Z := 1024 * 1024.
Definition MAX_NETWORK_ENDPOINTS : Z := 8.

Inductive NetworkProfile : Type := direct | tor.
#[global] Instance NetworkProfile_eq_dec : EqDecision NetworkProfile.
Proof. solve_decision. Defined.

(** The fields of a [URL] that the program reads. *)
Record URL := mkURL {
  protocol : jstr; hostname : jstr; username : jstr; password : jstr;
  pathname : jstr; search : jstr; hash : jstr; origin : jstr; href : jstr; port : jstr }.

(** The platform: [new URL(s)], the pairs a query holds, and [sha3_256]. *)
Class Web := {
  newURL : jstr → option URL;
  searchParams : jstr → list (jstr * jstr);
  sha3_256 : bytes → bytes;
}.

Section Endpoints.
Context `{Unicode} `{Web}.

Definition isLocalHost (hostname : jstr) : bool :=
  eqb hostname (lit "localhost") || eqb hostname (lit "127.0.0.1") || eqb hostname (lit "[::1]").

Definition BASE32_ALPHABET : jstr := lit "abcdefghijklmnopqrstuvwxyz234567".

Fixpoint index_from (i : Z) (c : Z) (l : jstr) : Z :=
  match l with
  | [] => -1
  | d :: l => if d =? c then i else index_from (i + 1) c l
  end.
(** [l.indexOf(character)]. *)
Definition indexOf (l : jstr) (c : Z) : Z := index_from 0 c l.

(** The loop of [decodeBase32]; the accumulator is an unsigned 32-bit word. *)
Fixpoint decodeBase32_from (bits accumulator : Z) (output : bytes) (value : jstr) : res (Z * bytes) :=
  match value with
  | [] => Ok (bits, output)
  | c :: value =>
      let index := indexOf BASE32_ALPHABET c in
      check negb (index <? 0) else "Invalid v3 onion service address.";
      let accumulator := Z.lor (Z.shiftl accumulator 5 mod 2 ^ 32) index in
      let bits := bits + 5 in
      if 8 <=? bits then
        decodeBase32_from (bits - 8) accumulator (output ++ [Z.land (Z.shiftr accumulator (bits - 8)) 255]) value
      else decodeBase32_from bits accumulator output value
  end.

Definition decodeBase32 (value : jstr) : res bytes :=
  let! 'r := decodeBase32_from 0 0 [] value in
  check negb (negb (r.1 =? 0) || negb (zlen r.2 =? 35)) else "Invalid v3 onion service address.";
  Ok r.2.

Definition ONION_CHECKSUM_PREFIX : bytes := lit ".onion checksum".

(** [V3_ONION.exec]: the 56 captured characters. *)
Definition v3_onion (s : jstr) : option jstr :=
  let label := take 56 s in
  if (zlen s =? 62) && forallb (λ c, is_lower c || in_range 50 55 c) label && eqb (drop 56 s) (lit ".onion")
  then Some label else None.

Definition assertV3OnionHostname (hostname : jstr) : res jstr :=
  match v3_onion (toLowerCase hostname) with
  | None => Throw "Tor-only mode accepts exact v3 .onion hostnames only."
  | Some label =>
      let! decoded := decodeBase32 label in
      let publicKey := slice 0 32 decoded in
      let checksum := slice 32 34 decoded in
      let version := nth 34 decoded 0 in
      check version =? 3 else "Invalid v3 onion service version.";
      let expected := slice 0 2 (sha3_256 (ONION_CHECKSUM_PREFIX ++ publicKey ++ [version])) in
      check eqb checksum expected else "Invalid v3 onion service checksum.";
      Ok (label ++ lit ".onion")
  end.

Definition requireSecureTransport (url : URL) (secureProtocol localProtocol : jstr) (profile : NetworkProfile) : res unit :=
  match profile with
  | tor =>
      let! _ := assertV3OnionHostname (hostname url) in
      guard (eqb (protocol url) secureProtocol || eqb (protocol url) localProtocol)
        "Tor-only endpoints must use a web protocol."
  | direct =>
      check negb (endsWith (drop_end (Z.eqb 46) (hostname url)) (lit ".onion"))
        else "Select Tor-only mode before using an onion service.";
      if eqb (protocol url) secureProtocol then Ok tt
      else guard (eqb (protocol url) localProtocol && isLocalHost (hostname url))
        "Only secure endpoints are accepted (or localhost for development)."
  end.

Definition rejectCredentials (url : URL) : res unit :=
  guard (negb (non_empty (username url) || non_empty (password url))) "Endpoint URLs must not contain credentials.".

(** [new URL(value.trim())]. *)
Definition parseURL (value : jstr) : res URL :=
  match newURL (trim value) with Some url => Ok url | None => Throw "Invalid URL" end.

Definition normaliseBlossomServer (value : jstr) (profile : NetworkProfile) : res jstr :=
  let! url := parseURL value in
  let! _ := requireSecureTransport url (lit "https:") (lit "http:") profile in
  let! _ := rejectCredentials url in
  check negb (negb (eqb (pathname url) (lit "/")) || non_empty (search url) || non_empty (hash url))
    else "A Blossom server must be an origin only, without a path, query or fragment.";
  Ok (origin url).

(** The last non-empty segment of a path. *)
Definition url_leaf (path : jstr) : jstr := List.last (filter (λ s, s ≠ []) (split (Z.eqb 47) path)) [].

(** [^hash(?:\.[a-z0-9]{1,10})?$]. *)
Definition content_leaf (expectedHash leaf : jstr) : bool :=
  startsWith leaf expectedHash &&
  match drop (length expectedHash) leaf with
  | [] => true
  | c :: ext => (c =? 46) && (1 <=? zlen ext) && (zlen ext <=? 10) && forallb (λ c, is_digit c || is_lower c) ext
  end.

Definition normaliseBlossomUrl (value : jstr) (expectedHash : option jstr) (profile : NetworkProfile) : res jstr :=
  let! url := parseURL value in
  let! _ := requireSecureTransport url (lit "https:") (lit "http:") profile in
  let! _ := rejectCredentials url in
  check negb (non_empty (hash url)) else "Blossom blob URLs must not contain fragments.";
  let! _ := match expectedHash with
            | Some h =>
                if non_empty h then
                  check negb (non_empty (search url)) else "Content-addressed Blossom URLs must not contain a query string.";
                  guard (content_leaf h (url_leaf (pathname url))) "The Blossom URL path is not the expected SHA-256 object."
                else Ok tt
            | None => Ok tt
            end in
  Ok (href url).

Definition normaliseRelayUrl (value : jstr) (profile : NetworkProfile) : res jstr :=
  let! url := parseURL value in
  let! _ := requireSecureTransport url (lit "wss:") (lit "ws:") profile in
  let! _ := rejectCredentials url in
  check negb (non_empty (hash url)) else "Relay URLs must not contain fragments.";
  Ok (href url).

Definition normaliseTrackerUrl (value : jstr) (profile : NetworkProfile) : res jstr :=
  check negb (bool_decide (profile = tor)) else "WebTorrent is disabled in Tor-only mode.";
  let! url := parseURL value in
  let! _ := requireSecureTransport url (lit "wss:") (lit "ws:") profile in
  let! _ := rejectCredentials url in
  check negb (non_empty (hash url)) else "Tracker URLs must not contain fragments.";
  Ok (href url).

Definition parseEndpointList (value : jstr) (parser : jstr → res jstr) : res (list jstr) :=
  let entries := filter (λ s, s ≠ []) (map trim (split (λ c, (c =? 10) || (c =? 44)) value)) in
  check zlen entries <=? MAX_NETWORK_ENDPOINTS else "At most 8 endpoints may be used at once.";
  check negb (existsb (λ e, 2048 <? zlen e) entries) else "An endpoint URL is unexpectedly long.";
  let! parsed := rmap parser entries in
  Ok (uniq parsed).

(** ** File names *)

Definition is_separator (c : Z) : bool := (c =? 92) || (c =? 47).
(** Less, greater, colon, double quote, bar, question mark and star. *)
Definition is_reserved (c : Z) : bool :=
  (c =? 60) || (c =? 62) || (c =? 58) || (c =? 34) || (c =? 124) || (c =? 63) || (c =? 42).
Definition mask_reserved (s : jstr) : jstr := map (λ c, if is_reserved c then 95 else c) s.
Definition is_lead (c : Z) : bool := is_space c || (c =? 46).

(** The cut at 180 code units that keeps a surrogate pair whole. *)
Definition name_cut (s : jstr) : nat :=
  let last := nth 179 s 0 in
  let next := nth 180 s 0 in
  if in_range 55296 56319 last && in_range 56320 57343 next then 179%nat else 180%nat.

Definition sanitiseFileName (value : jstr) : jstr :=
  let leaf := List.last (split is_separator value) [] in
  let cleaned := trimEnd (drop_while is_lead (mask_reserved (nfc (filter (λ c, is_control c = false) leaf)))) in
  let fallback := if non_empty cleaned then cleaned else lit "blob.bin" in
  if zlen fallback <=? 180 then fallback
  else trimEnd (take (name_cut fallback) fallback).

(** The text after the last dot. *)
Definition after_dot (s : jstr) : option jstr :=
  match rev (split (Z.eqb 46) s) with
  | ext :: _ :: _ => Some ext
  | _ => None
  end.

(** [/\.([a-z0-9]{1,10})$/iu]: with [i] and [u] together, U+017F and U+212A
    fold to letters and match too. *)
Definition fileExtension (name : jstr) : jstr :=
  match after_dot name with
  | Some ext =>
      if (1 <=? zlen ext) && (zlen ext <=? 10) && forallb (λ c, is_alnum c || (c =? 383) || (c =? 8490)) ext
      then toLowerCase ext else lit "bin"
  | None => lit "bin"
  end.

(** ** Sizes and hashes *)

Definition assertPrototypeFileSize (size : Z) : res unit :=
  check negb (negb (is_safe_integer size) || (size <=? 0)) else "Choose a non-empty file.";
  guard (negb (MAX_PROTOTYPE_FILE_BYTES <? size)) "This version is limited to 256 MiB files.".

Definition assertPrototypeTransferSize (size : Z) : res unit :=
  check negb (negb (is_safe_integer size) || (size <=? 0)) else "Choose a non-empty transfer payload.";
  guard (negb (MAX_PROTOTYPE_TRANSFER_BYTES <? size)) "Transfer payloads are limited to 258 MiB.".

Definition HEX_64 (s : jstr) : bool := hex_string 64 s.
Definition HEX_40 (s : jstr) : bool := hex_string 40 s.

Definition assertHex64 (value : jstr) (label : string) : res jstr :=
  check HEX_64 (toLowerCase value) else (label +:+ " must be 64 lowercase hexadecimal characters.");
  Ok (toLowerCase value).

Definition assertHex40 (value : jstr) (label : string) : res jstr :=
  check HEX_40 (toLowerCase value) else (label +:+ " must be a 40-character BitTorrent v1 info hash.");
  Ok (toLowerCase value).

(** [safeDiagnostic] of a message. *)
Definition safeDiagnostic (message : jstr) : jstr :=
  slice 0 300 (map (λ c, if is_control c then 32 else c) message).

End Endpoints.

(** ** The sanitised name is a fixed point *)

(** Documented behaviour of Unicode normalisation: ASCII text is normalised;
    normalisation is idempotent and makes no ASCII control character or path
    separator; a part of normalised text is normalised; and none of the reserved
    punctuation, nor the low line put in its place, composes once text is
    normalised. Lower-casing is idempotent, acts on ASCII letters alone in ASCII
    text, and never empties a string. *)
Class UnicodeLaws `{Unicode} : Prop := {
  nfc_ascii s : ascii s → nfc s = s;
  nfc_idem s : nfc (nfc s) = nfc s;
  nfc_no_new c s : is_control c || is_separator c = true → c ∈ nfc s → c ∈ s;
  nfc_part s t u : nfc (s ++ t ++ u) = s ++ t ++ u → nfc t = t;
  nfc_mask s : nfc s = s → nfc (mask_reserved s) = mask_reserved s;
  nfc_ok s : jstr_ok s → jstr_ok (nfc s);
  lower_idem s : toLowerCase (toLowerCase s) = toLowerCase s;
  lower_ok s : jstr_ok s → jstr_ok (toLowerCase s);
  lower_empty s : toLowerCase s = [] → s = [];
  lower_ascii s : ascii s → toLowerCase s = ascii_lower s;
}.

Lemma ascii_unicode_laws : @UnicodeLaws ascii_unicode.
Proof.
  split; try done; unfold toLowerCase, ascii_unicode, ascii_lower; intros s.
  - rewrite map_map. apply map_ext. intros c. unfold is_upper. destruct (in_range 65 90 c) eqn:E; [|by rewrite E].
    apply in_range_spec in E. by range_tests.
  - intros Hs. apply Forall_map. eapply Forall_impl; [exact Hs|]. unfold unit_ok, is_upper. intros c Hc. simpl.
    destruct (in_range 65 90 c) eqn:E; [apply in_range_spec in E; lia|done].
  - by destruct s.
Qed.

Section Names.
Context `{UnicodeLaws}.

(** What the name rule leaves. *)
Definition clean (s : jstr) : Prop :=
  nfc s = s ∧ Forall (λ c, is_control c = false ∧ is_separator c = false ∧ is_reserved c = false) s ∧
  (∃ c t, s = c :: t ∧ is_lead c = false) ∧ trimEnd s = s ∧ zlen s <= 180.

Lemma split_from_none p acc s : Forall (λ c, p c = false) s → split_from p acc s = [rev acc ++ s].
Proof.
  intros Hs. revert acc; induction Hs as [|c s Hc _ IH]; intros acc; simpl; [by rewrite app_nil_r|].
  rewrite Hc, IH. simpl. by rewrite <- app_assoc.
Qed.

Lemma split_from_pieces p acc s : Forall (λ c, p c = false) acc →
  Forall (Forall (λ c, p c = false)) (split_from p acc s).
Proof.
  revert acc; induction s as [|c s IH]; intros acc Ha; simpl.
  - repeat constructor. by apply Forall_rev.
  - destruct (p c) eqn:E; [constructor; [by apply Forall_rev|by apply IH]|]. apply IH. by constructor.
Qed.

Lemma last_split_piece p s : Forall (λ c, p c = false) (List.last (split p s) []).
Proof.
  pose proof (split_from_pieces p [] s (@Forall_nil_2 _ _)) as Hp. unfold split.
  destruct (split_from p [] s) as [|x l _] using rev_ind; [constructor|]. rewrite last_last.
  apply Forall_app in Hp as [_ Hp]. by apply Forall_inv in Hp.
Qed.

Lemma mask_reserved_id s : Forall (λ c, is_reserved c = false) s → mask_reserved s = s.
Proof. intros Hs. unfold mask_reserved. induction Hs as [|c s Hc _ IH]; simpl; [done|]. by rewrite Hc, IH. Qed.

(** A clean name is left alone. *)
Lemma sanitise_clean s : clean s → sanitiseFileName s = s.
Proof.
  intros (Hn & Hc & (c & t & Es & Hlead) & Ht & Hl). unfold sanitiseFileName, split.
  rewrite split_from_none by (eapply Forall_impl; [done|]; naive_solver). cbn [rev app List.last].
  assert (filter (λ c, is_control c = false) s = s) as ->.
  { clear -Hc. induction Hc as [|c s (Hc & _) _ IH]; [done|]. rewrite filter_cons_True by done. by rewrite IH. }
  rewrite Hn, mask_reserved_id by (eapply Forall_impl; [done|]; naive_solver).
  rewrite drop_while_id by (by rewrite Es). rewrite Ht.
  assert (non_empty s = true) as -> by (by rewrite Es).
  by rewrite (proj2 (Z.leb_le _ _) Hl).
Qed.

Lemma mask_not_reserved s : Forall (λ c, is_reserved c = false) (mask_reserved s).
Proof. apply Forall_map, Forall_true. intros c. destruct (is_reserved c) eqn:E; done. Qed.

Lemma trimEnd_first c t : is_space c = false → ∃ t', trimEnd (c :: t) = c :: t'.
Proof.
  intros Hc. destruct (drop_end_prefix is_space (c :: t)) as (r & E & Hr). unfold trimEnd.
  destruct (drop_end is_space (c :: t)) as [|d l]; [|injection E as -> _; eauto].
  simpl in E. subst r. apply Forall_inv in Hr. congruence.
Qed.

Lemma clean_blob_bin : clean (lit "blob.bin").
Proof.
  split_and!; [apply nfc_ascii; solve_ascii|repeat constructor|by eexists _, _|done|done].
Qed.

Lemma nfc_prefix_suffix a b s : nfc s = s → s = a ++ b → nfc a = a ∧ nfc b = b.
Proof.
  intros Hn ->. split; [apply (nfc_part [] a b); done|apply (nfc_part a b []); by rewrite app_nil_r].
Qed.

(** Whatever is asked for, the result is clean. *)
Lemma sanitise_is_clean value : clean (sanitiseFileName value).
Proof.
  unfold sanitiseFileName. set (leaf := List.last (split is_separator value) []).
  assert (Forall (λ c, is_separator c = false) leaf) as Hleaf by apply last_split_piece.
  set (kept := filter (λ c, is_control c = false) leaf). set (masked := mask_reserved (nfc kept)).
  assert (nfc masked = masked) as Hm by apply nfc_mask, nfc_idem.
  assert (Forall (λ c, is_control c = false ∧ is_separator c = false ∧ is_reserved c = false) masked) as Hc.
  { unfold masked. apply Forall_map, Forall_forall. intros c Hin.
    destruct (is_control c || is_separator c) eqn:E.
    - apply nfc_no_new in Hin; [|done]. apply list_elem_of_filter in Hin as [Hc Hin].
      rewrite Forall_forall in Hleaf. rewrite Hc, Hleaf in E by done. done.
    - bool_prop. destruct (is_reserved c) eqn:Er; done. }
  destruct (drop_while_suffix is_lead masked) as (a & Ea & _). set (led := drop_while is_lead masked) in *.
  pose proof (drop_while_head is_lead masked) as Hhead. fold led in Hhead.
  destruct (drop_end_prefix is_space led) as (b & Eb & _). fold (trimEnd led) in Eb. set (cleaned := trimEnd led) in *.
  assert (nfc cleaned = cleaned) as Hcn.
  { destruct (nfc_prefix_suffix _ _ _ Hm Ea) as [_ Hl]. by destruct (nfc_prefix_suffix _ _ _ Hl Eb). }
  assert (Forall (λ c, is_control c = false ∧ is_separator c = false ∧ is_reserved c = false) cleaned) as Hcc.
  { rewrite Ea in Hc. apply Forall_app in Hc as [_ Hc]. rewrite Eb in Hc. by apply Forall_app in Hc as [Hc _]. }
  assert (trimEnd cleaned = cleaned) as Htc by apply drop_end_idem.
  destruct (non_empty cleaned) eqn:Ene; [|exact clean_blob_bin].
  assert (∃ c t, cleaned = c :: t ∧ is_lead c = false) as (c & t & Ect & Hlead).
  { destruct cleaned as [|c t]; [done|]. rewrite Eb in Hhead. exists c, t. done. }
  destruct (Z.leb_spec (zlen cleaned) 180) as [Hl|Hl]; [split_and!; eauto|].
  set (k := name_cut cleaned). assert (k = 179%nat ∨ k = 180%nat) as Hk by (unfold k, name_cut; destruct (_ && _); auto).
  destruct (drop_end_prefix is_space (take k cleaned)) as (d & Ed & _). fold (trimEnd (take k cleaned)) in Ed.
  assert (cleaned = trimEnd (take k cleaned) ++ (d ++ drop k cleaned)) as Ecut by (by rewrite app_assoc, <- Ed, take_drop).
  split_and!.
  - by destruct (nfc_prefix_suffix _ _ _ Hcn Ecut).
  - rewrite Ecut in Hcc. by apply Forall_app in Hcc as [Hcc _].
  - rewrite Ect. assert (∃ k', k = S k') as [k' ->] by (destruct Hk as [->| ->]; eauto). simpl take.
    destruct (trimEnd_first c (take k' t)) as [t' ->]; [|by eexists _, _].
    unfold is_lead in Hlead. by bool_prop.
  - apply drop_end_idem.
  - assert (zlen (take k cleaned) <= 180) by (unfold zlen; rewrite length_take; lia).
    pose proof (f_equal zlen Ed) as El. rewrite zlen_app in El. pose proof (zlen_nonneg d). lia.
Qed.

(** The name rule is idempotent, and its result is never empty, has at most
    180 code units, and holds no separator, control or reserved character; so a
    stored name that is a fixed point is exactly a name the rule produced. *)
Theorem sanitise_fixed_point value :
  sanitiseFileName (sanitiseFileName value) = sanitiseFileName value ∧ clean (sanitiseFileName value).
Proof. split; [apply sanitise_clean|]; apply sanitise_is_clean. Qed.

End Names.

Lemma sanitise_fixed_point_witness : @sanitiseFileName ascii_unicode (lit "../a/ .b:c*?.txt ") = lit "b_c__.txt" ∧
  @sanitiseFileName ascii_unicode (lit "b_c__.txt") = lit "b_c__.txt".
Proof.
  split; [vm_compute; reflexivity|].
  exact (proj1 (@sanitise_fixed_point ascii_unicode ascii_unicode_laws (lit "../a/ .b:c*?.txt "))).
Defined.

(** ** Base 32 *)

(** The number a string of base-32 digits writes, and the number a string of
    bytes writes, both most significant first. *)
Definition base32_value (s : jstr) : Z := foldl (λ n c, n * 32 + indexOf BASE32_ALPHABET c) 0 s.
Definition bytes_value (l : bytes) : Z := foldl (λ n b, n * 256 + b) 0 l.

Lemma index_from_bound i c l : 0 <= i → -1 <= index_from i c l < i + zlen l ∨ index_from i c l = -1.
Proof.
  revert i; induction l as [|d l IH]; intros i Hi; simpl; [by right|]. rewrite zlen_cons. pose proof (zlen_nonneg l).
  destruct (d =? c); [left; lia|]. destruct (IH (i + 1)) as [?|?]; [lia|left; lia|by right].
Qed.

Lemma base32_digit c : 0 <= indexOf BASE32_ALPHABET c → 0 <= indexOf BASE32_ALPHABET c < 32.
Proof. intros H. pose proof (index_from_bound 0 c BASE32_ALPHABET ltac:(lia)) as Hb. change (zlen BASE32_ALPHABET) with 32 in Hb. unfold indexOf in *. lia. Qed.

Lemma base32_word acc index : 0 <= acc → 0 <= index < 32 →
  Z.lor (Z.shiftl acc 5 mod 2 ^ 32) index = (acc * 32) mod 2 ^ 32 + index.
Proof.
  intros Ha Hi. rewrite Z.shiftl_mul_pow2 by lia. change (2 ^ 5) with 32.
  rewrite <- (Z.lxor_lor); [symmetry; apply Z.add_nocarry_lxor|]; apply Z.bits_inj'; intros n Hn;
    rewrite Z.land_spec, Z.bits_0; (destruct (Z.ltb_spec n 5) as [H5|H5];
    [ rewrite Z.mod_pow2_bits_low by lia; change 32 with (2 ^ 5) at 1; rewrite Z.mul_pow2_bits_low by lia; done
    | rewrite (Z.bits_above_log2 index n), andb_false_r; [done|lia|];
      destruct (decide (index = 0)) as [->|]; [simpl; lia|]; apply Z.log2_lt_pow2; [lia|];
      apply Z.lt_le_trans with (2 ^ 5); [lia|apply Z.pow_le_mono_r; lia] ]).
Qed.

Lemma mod_mul_pow2 a i b : 0 <= b → 0 <= i < 32 → b + 5 <= 32 →
  ((a * 32) mod 2 ^ 32 + i) mod 2 ^ (b + 5) = (a mod 2 ^ b) * 32 + i.
Proof.
  intros Hb Hi H32. assert (2 ^ (b + 5) = 2 ^ b * 32) as E by (by rewrite Z.pow_add_r by lia).
  assert (2 ^ 32 = 2 ^ (b + 5) * 2 ^ (32 - (b + 5))) as E32 by (rewrite <- Z.pow_add_r by lia; f_equal; lia).
  assert (0 < 2 ^ b) by (apply Z.pow_pos_nonneg; lia). assert (0 < 2 ^ (32 - (b + 5))) by (apply Z.pow_pos_nonneg; lia).
  assert (((a * 32) mod 2 ^ 32) mod 2 ^ (b + 5) = (a * 32) mod 2 ^ (b + 5)) as Em.
  { rewrite E32. rewrite Z.rem_mul_r by lia. rewrite Z.add_mod, (Z.mul_comm (2 ^ (b + 5)) ((_ `div` _) mod _)), Z.mod_mul, Z.add_0_r by lia.
    rewrite !Z.mod_mod by lia. done. }
  rewrite Z.add_mod, Em by lia. rewrite E, Z.mul_mod_distr_r by lia.
  pose proof (Z.mod_pos_bound a (2 ^ b)). rewrite (Z.mod_small i) by nia. apply Z.mod_small. nia.
Qed.

Lemma bytes_value_snoc l b : bytes_value (l ++ [b]) = bytes_value l * 256 + b.
Proof. unfold bytes_value. by rewrite foldl_snoc. Qed.

Lemma decodeBase32_from_spec value bits acc out done_ r :
  decodeBase32_from bits acc out value = Ok r →
  0 <= bits < 8 → 0 <= acc → bytes_ok out →
  8 * zlen out + bits = 5 * zlen done_ →
  base32_value done_ = bytes_value out * 2 ^ bits + acc mod 2 ^ bits →
  ∃ acc', 0 <= r.1 < 8 ∧ bytes_ok r.2 ∧ 8 * zlen r.2 + r.1 = 5 * (zlen done_ + zlen value) ∧
    base32_value (done_ ++ value) = bytes_value r.2 * 2 ^ r.1 + acc' mod 2 ^ r.1.
Proof.
  revert bits acc out done_; induction value as [|c value IH]; intros bits acc out done_ H Hb Ha Ho Hl Hv;
    cbn [decodeBase32_from] in H.
  - injection H as <-. exists acc. rewrite app_nil_r. change (zlen (@nil Z)) with 0. split_and!; (done || cbn [fst snd]; lia).
  - inv_ok. match goal with H : negb _ = true |- _ => rename H into Hidx end. bool_prop.
    pose proof (base32_digit c Hidx) as Hi. set (idx := indexOf BASE32_ALPHABET c) in *.
    rewrite base32_word in H by done. set (acc' := (acc * 32) mod 2 ^ 32 + idx) in *.
    pose proof (Z.mod_pos_bound (acc * 32) (2 ^ 32) ltac:(lia)).
    assert (base32_value (done_ ++ [c]) = bytes_value out * 2 ^ (bits + 5) + acc' mod 2 ^ (bits + 5)) as Hv'.
    { unfold base32_value in *. rewrite foldl_snoc, Hv. fold idx. unfold acc'.
      rewrite mod_mul_pow2, Z.pow_add_r by lia. change (2 ^ 5) with 32. lia. }
    assert (done_ ++ c :: value = (done_ ++ [c]) ++ value) as Eapp by by rewrite <- app_assoc. rewrite Eapp.
    assert (zlen done_ + zlen (c :: value) = zlen (done_ ++ [c]) + zlen value) as El by (rewrite zlen_app, zlen_cons, zlen_single; lia).
    rewrite El. case_if H; bool_prop.
    + eapply IH; [exact H|lia|lia| | |].
      * apply Forall_app. split; [done|]. constructor; [|constructor].
        change 255 with (Z.ones 8). rewrite Z.land_ones by lia. apply Z.mod_pos_bound. lia.
      * rewrite !zlen_app, !zlen_single. lia.
      * rewrite Hv', bytes_value_snoc. change 255 with (Z.ones 8). rewrite Z.land_ones, Z.shiftr_div_pow2 by lia.
        set (k := bits + 5 - 8). replace (bits + 5) with (k + 8) by lia. rewrite Z.pow_add_r by lia.
        assert (0 < 2 ^ k) by (apply Z.pow_pos_nonneg; lia). change (2 ^ 8) with 256.
        rewrite (Z.rem_mul_r acc' (2 ^ k) 256) by lia. lia.
    + eapply IH; [exact H|lia|lia|done| |exact Hv']. rewrite zlen_app, zlen_single. lia.
Qed.

(** The onion decoder is base-32 decoding: what it accepts is exactly 56
    digits, and the 35 bytes it gives write the same number; the 32-bit
    accumulator never loses a bit that is still needed. *)
Theorem decodeBase32_value value decoded : decodeBase32 value = Ok decoded →
  zlen value = 56 ∧ zlen decoded = 35 ∧ bytes_ok decoded ∧ bytes_value decoded = base32_value value.
Proof.
  unfold decodeBase32. intros H. inv_ok. bool_prop. destruct x as [bits out]. cbn [fst snd] in *. subst bits.
  destruct (decodeBase32_from_spec value 0 0 [] [] _ E) as (acc' & ? & Ho & Hl & Hv); [lia|lia|constructor|done|done|].
  cbn [fst snd app] in *. change (zlen (@nil Z)) with 0 in *. split_and!; [lia|done|done|].
  rewrite Hv, Z.pow_0_r, Z.mod_1_r. lia.
Qed.

Lemma decodeBase32_value_witness : bytes_value (replicate 34 0 ++ [3]) = base32_value (replicate 55 97 ++ [100]).
Proof. apply (decodeBase32_value (replicate 55 97 ++ [100])). vm_compute. reflexivity. Defined.

(** ** Endpoint policy *)

Section Policy.
Context `{Unicode} `{Web}.

(** A v3 onion service name with its version and checksum. *)
Definition onion_service (host : jstr) : Prop :=
  ∃ label decoded, v3_onion (toLowerCase host) = Some label ∧ decodeBase32 label = Ok decoded ∧
    nth 34 decoded 0 = 3 ∧
    slice 32 34 decoded = slice 0 2 (sha3_256 (ONION_CHECKSUM_PREFIX ++ slice 0 32 decoded ++ [3])).

(** What each network profile lets through. *)
Definition reachable_host (url : URL) (secure local : jstr) (profile : NetworkProfile) : Prop :=
  match profile with
  | tor => onion_service (hostname url) ∧ (protocol url = secure ∨ protocol url = local)
  | direct => endsWith (drop_end (Z.eqb 46) (hostname url)) (lit ".onion") = false ∧
      (protocol url = secure ∨ protocol url = local ∧ isLocalHost (hostname url) = true)
  end.

Lemma assertV3OnionHostname_ok host name : assertV3OnionHostname host = Ok name → onion_service host.
Proof.
  unfold assertV3OnionHostname. intros Hok. destruct (v3_onion _) as [label|] eqn:E; [|done]. inv_ok.
  match goal with Hv : (_ =? 3) = true |- _ => apply Z.eqb_eq in Hv; rewrite Hv in * end.
  exists label, x. split_and!; try done. by apply eqb_eq.
Qed.

Lemma requireSecureTransport_ok url secure local profile u :
  requireSecureTransport url secure local profile = Ok u → reachable_host url secure local profile.
Proof.
  unfold requireSecureTransport, reachable_host. destruct profile; intros Hok; inv_ok.
  - bool_prop. split; [done|]. case_if Hok; [left; by apply eqb_eq|]. inv_ok. bool_prop. right. split; [by apply eqb_eq|done].
  - split; [by eapply assertV3OnionHostname_ok|].
    apply orb_true_iff in Hok as [?%eqb_eq|?%eqb_eq]; [by left|by right].
Qed.

(** Every normalised endpoint respects the network profile. In Tor-only mode
    it names a version 3 onion service whose checksum was verified, and trackers
    are refused altogether; in direct mode it never names an onion service and
    uses the secure protocol unless it is on this machine. No endpoint carries
    credentials, and none but a server or blob URL reaches the caller with a
    fragment. *)
Theorem endpoint_policy value expected profile result :
  normaliseBlossomServer value profile = Ok result ∨ normaliseBlossomUrl value expected profile = Ok result ∨
  normaliseRelayUrl value profile = Ok result ∨ normaliseTrackerUrl value profile = Ok result →
  ∃ url secure local, newURL (trim value) = Some url ∧ reachable_host url secure local profile ∧
    username url = [] ∧ password url = [] ∧ hash url = [] ∧ (result = href url ∨ result = origin url) ∧
    ((secure = lit "https:" ∧ local = lit "http:") ∨ (secure = lit "wss:" ∧ local = lit "ws:")) ∧
    (profile = tor → normaliseTrackerUrl value profile ≠ Ok result).
Proof.
  assert (∀ s, non_empty s = false → s = []) as He by (intros [|? ?]; done).
  assert (∀ v url u, parseURL v = Ok url → rejectCredentials url = Ok u →
    newURL (trim v) = Some url ∧ username url = [] ∧ password url = []) as Hp.
  { intros v url u Hv Hu. unfold parseURL, rejectCredentials in *. destruct (newURL _); inv_ok. bool_prop. auto. }
  assert (profile = tor → normaliseTrackerUrl value profile ≠ Ok result) as Ht by (by intros ->).
  intros [Hr|[Hr|[Hr|Hr]]];
    [unfold normaliseBlossomServer in Hr|unfold normaliseBlossomUrl in Hr|unfold normaliseRelayUrl in Hr|unfold normaliseTrackerUrl in Hr];
    inv_ok; bool_prop;
    match goal with Hv : parseURL value = Ok ?url, Hu : rejectCredentials ?url = Ok _, Hs : requireSecureTransport ?url ?a ?b _ = Ok _ |- _ =>
      destruct (Hp _ _ _ Hv Hu) as (? & ? & ?); apply requireSecureTransport_ok in Hs; exists url, a, b end;
    split_and!; auto.
Qed.

End Policy.

(** A platform whose parser knows two addresses. *)
Definition example_web : Web := {|
  newURL s := if eqb s (lit "https://example.com") then
      Some (mkURL (lit "https:") (lit "example.com") [] [] (lit "/") [] [] (lit "https://example.com") (lit "https://example.com/") [])
    else None;
  searchParams _ := [];
  sha3_256 _ := [];
|}.

Lemma endpoint_policy_witness : ∃ url secure local, @newURL example_web (lit "https://example.com") = Some url ∧
  @reachable_host ascii_unicode example_web url secure local direct ∧
  username url = [] ∧ password url = [] ∧ hash url = [] ∧
  (lit "https://example.com" = href url ∨ lit "https://example.com" = origin url) ∧
  ((secure = lit "https:" ∧ local = lit "http:") ∨ (secure = lit "wss:" ∧ local = lit "ws:")) ∧
  (direct = tor → @normaliseTrackerUrl ascii_unicode example_web (lit " https://example.com ") direct ≠ Ok (lit "https://example.com")).
Proof.
  apply (@endpoint_policy ascii_unicode example_web (lit " https://example.com ") None direct (lit "https://example.com")).
  left. vm_compute. reflexivity.
Defined.
