(* ===== verification/Envelope.v ===== *)
(** * The encrypted envelope ([core/crypto.ts])

    A file is sealed as a 56-byte header and AES-GCM records of one mebibyte.
    The plaintext is the framed metadata, the source and random padding up to a
    bucket. AES-GCM, HKDF and SHA-256 are the platform's: the class [Cipher]
    gives them, [CipherLaws] what is documented of them. [signal k] is whether
    the abort signal has fired when it is read for the [k]-th time. *)

From S2P Require Import Prelude JsString Utf8 Bytes Json Security.

(** ** The platform's cryptography *)

Class Cipher := {
  sha256 : bytes → bytes;
  (** HKDF-SHA256 to 256 bits: input key, salt, info. *)
  hkdf : bytes → bytes → bytes → bytes;
  (** AES-256-GCM with a 128-bit tag: key, iv, additional data, text. *)
  gcm_seal : bytes → bytes → bytes → bytes → bytes;
  gcm_open : bytes → bytes → bytes → bytes → option bytes;
}.

(** Opening inverts sealing, accepts nothing else, and the tag is 16 bytes. *)
Class CipherLaws `{Cipher} : Prop := {
  open_seal key iv aad plain : bytes_ok plain → gcm_open key iv aad (gcm_seal key iv aad plain) = Some plain;
  open_sound key iv aad text plain : gcm_open key iv aad text = Some plain →
    text = gcm_seal key iv aad plain ∧ bytes_ok plain;
  seal_length key iv aad plain : zlen (gcm_seal key iv aad plain) = zlen plain + 16;
  seal_bytes key iv aad plain : bytes_ok plain → bytes_ok (gcm_seal key iv aad plain);
  sha256_bytes l : bytes_ok (sha256 l) ∧ zlen (sha256 l) = 32;
}.

(** ** Constants *)

Definition ENVELOPE_MAGIC : bytes := lit "FSWNENC1".
Definition ENVELOPE_MAGIC_LEGACY : bytes := lit "WBLMENC1".
Definition ENVELOPE_MAGIC_V2 : bytes := lit "FSWNENC2".
Definition ENVELOPE_HEADER_BYTES : Z := 24.
Definition ENVELOPE_HEADER_BYTES_V2 : Z := 56.
Definition ENVELOPE_SALT_BYTES : Z := 32.
Definition HKDF_INFO_V2 : bytes := lit "forgesworn-aes-256-gcm-chunked/v2".
Definition ENVELOPE_CHUNK_BYTES : Z := 1024 * 1024.
Definition ENVELOPE_TAG_BYTES : Z := 16.
Definition MAX_ENVELOPE_METADATA_BYTES : Z := 4096.
Definition MAX_ENVELOPE_RECORDS : Z :=
  ceil_div (MAX_PROTOTYPE_FILE_BYTES + 4 + MAX_ENVELOPE_METADATA_BYTES) ENVELOPE_CHUNK_BYTES.
Definition MIN_PADDING_BUCKET_BYTES : Z := 64 * 1024.
Definition RECOVERY_KEY_PREFIX : jstr := lit "wbk1_".

Record EnvelopeMetadata := mkMetadata { meta_name : jstr; meta_size : Z; meta_type : jstr }.

Definition assertActive (signal : nat → bool) (k : nat) (operation : string) : res unit :=
  guard (negb (signal k)) (operation +:+ " cancelled.").

(** [sha256Hex] of a blob: the hasher takes the stream's chunks as they come. *)
Fixpoint updateBlobHash (signal : nat → bool) (k : nat) (hashed : bytes) (chunks : list bytes) : res bytes :=
  let! _ := assertActive signal k "Local hashing" in
  let! _ := assertActive signal (S k) "Local hashing" in
  match chunks with
  | [] => Ok hashed
  | value :: chunks => updateBlobHash signal (S (S k)) (hashed ++ value) chunks
  end.

Section Crypto.
Context `{Unicode} `{Cipher}.

Definition sha256Hex (signal : nat → bool) (chunks : list bytes) : res jstr :=
  let! hashed := updateBlobHash signal 0 [] chunks in
  let! _ := assertActive signal (2 * S (length chunks)) "Local hashing" in
  Ok (toHex (sha256 hashed)).

(** [sha256Hex] of bytes already in memory, hashed a mebibyte at a time. *)
Fixpoint hash_pieces (n : nat) (signal : nat → bool) (k : nat) (offset : Z) (input hashed : bytes) : res bytes :=
  match n with
  | O => Ok hashed
  | S n =>
      if offset <? zlen input then
        let! _ := assertActive signal k "Local hashing" in
        hash_pieces n signal (S k) (offset + ENVELOPE_CHUNK_BYTES) input
          (hashed ++ slice offset (offset + ENVELOPE_CHUNK_BYTES) input)
      else Ok hashed
  end.

Definition sha256Hex_bytes (signal : nat → bool) (input : bytes) : res jstr :=
  let n := Z.to_nat (ceil_div (zlen input) ENVELOPE_CHUNK_BYTES) in
  let! hashed := hash_pieces n signal 0 0 input [] in
  let! _ := assertActive signal n "Local hashing" in
  Ok (toHex (sha256 hashed)).

(** ** Metadata, padding, nonces *)

Definition normaliseMimeType (value : jstr) : res jstr :=
  let type := toLowerCase (if non_empty value then value else lit "application/octet-stream") in
  check negb ((255 <? zlen type) || existsb is_control type) else "Invalid source MIME type.";
  Ok type.

Definition paddedPlaintextLength (length_ : Z) : Z :=
  if length_ <=? MIN_PADDING_BUCKET_BYTES then MIN_PADDING_BUCKET_BYTES
  else if length_ <=? ENVELOPE_CHUNK_BYTES then 2 ^ Z.log2_up length_
  else ceil_div length_ ENVELOPE_CHUNK_BYTES * ENVELOPE_CHUNK_BYTES.

(** Twelve bytes: the prefix, then the counter over the last four. *)
Definition makeNonce (prefix : bytes) (counter : Z) : bytes := take 8 (prefix ++ replicate 8 0) ++ u32 counter.

Definition makeAdditionalData (header : bytes) (counter : Z) : bytes := header ++ u32 counter.

(** [JSON.stringify({ name, size, type })]. *)
Definition metadata_json (m : EnvelopeMetadata) : jstr :=
  lit "{" ++ quote (lit "name") ++ lit ":" ++ quote (meta_name m) ++ lit "," ++
  quote (lit "size") ++ lit ":" ++ decimal (meta_size m) ++ lit "," ++
  quote (lit "type") ++ lit ":" ++ quote (meta_type m) ++ lit "}".

Definition frameMetadata (name : jstr) (size : Z) (type : jstr) : res (bytes * EnvelopeMetadata) :=
  let! type := normaliseMimeType type in
  let metadata := mkMetadata (sanitiseFileName name) size type in
  let metadataBytes := utf8_encode (metadata_json metadata) in
  check negb (MAX_ENVELOPE_METADATA_BYTES <? zlen metadataBytes) else "Encrypted file metadata is unexpectedly large.";
  Ok (u32 (zlen metadataBytes) ++ metadataBytes, metadata).

Definition assertSourceSize (size : Z) : res unit :=
  guard (negb (negb (is_safe_integer size) || (size <? 0) || (MAX_PROTOTYPE_FILE_BYTES <? size)))
    "This version is limited to 256 MiB files.".

Definition envelope_length (plaintextLength : Z) : Z :=
  ENVELOPE_HEADER_BYTES_V2 + plaintextLength + ceil_div plaintextLength ENVELOPE_CHUNK_BYTES * ENVELOPE_TAG_BYTES.

Definition envelopeBytes (name type : jstr) (sourceBytes : Z) : res Z :=
  let! _ := assertSourceSize sourceBytes in
  let! 'p := frameMetadata name sourceBytes type in
  Ok (envelope_length (paddedPlaintextLength (zlen p.1 + sourceBytes))).

(** [newInputKey] from 32 random bytes, and [parseInputKey]. *)
Definition newInputKey (random : bytes) : jstr := RECOVERY_KEY_PREFIX ++ base64UrlEncode random.
Definition parseInputKey (value : jstr) : res bytes :=
  check startsWith value RECOVERY_KEY_PREFIX else "The recovery key is not a Wildbloom v1 key.";
  base64UrlDecode (drop (length RECOVERY_KEY_PREFIX) value).

(** ** The encoder *)

(** [padding target plaintextOffset] fills the target; [padding i] is the byte
    it puts at plaintext offset [i]. *)
Record EnvelopeEntropy := mkEntropy {
  noncePrefix : bytes; salt : bytes; inputKey : bytes; padding : Z → Z }.

(** A source blob: its size, and what reading [[from, to)] gives now. *)
Record Source := mkSource { source_size : Z; source_read : Z → Z → res bytes }.
Definition blob_source (content : bytes) : Source :=
  mkSource (zlen content) (λ from to, Ok (slice from to content)).

(** What [createEnvelopeEncoder] computes once. *)
Record Encoder := mkEncoder {
  enc_source : Source;
  enc_signal : nat → bool;
  enc_padding : Z → Z;
  enc_prefix : bytes;
  enc_metadata : EnvelopeMetadata;
  enc_plaintextLength : Z;
  enc_recordCount : Z;
  enc_noncePrefix : bytes;
  enc_header : bytes;
  enc_key : bytes;
  enc_inputKey : jstr }.

Definition enc_envelopeBytes (e : Encoder) : Z :=
  ENVELOPE_HEADER_BYTES_V2 + enc_plaintextLength e + enc_recordCount e * ENVELOPE_TAG_BYTES.

Definition createEnvelopeEncoder (source : Source) (name type : jstr) (key : option jstr)
    (signal : nat → bool) (entropy : EnvelopeEntropy) : res Encoder :=
  let! _ := assertActive signal 0 "Local encryption" in
  let! _ := assertSourceSize (source_size source) in
  let! suppliedBytes := match key with
                        | Some k => let! b := parseInputKey k in Ok (Some b)
                        | None => Ok None
                        end in
  let! 'framed := frameMetadata name (source_size source) type in
  let plaintextLength := paddedPlaintextLength (zlen framed.1 + source_size source) in
  let recordCount := ceil_div plaintextLength ENVELOPE_CHUNK_BYTES in
  let header := ENVELOPE_MAGIC_V2 ++ u32 ENVELOPE_CHUNK_BYTES ++ u32 recordCount ++ noncePrefix entropy ++ salt entropy in
  let rawKey := match suppliedBytes with Some b => b | None => inputKey entropy end in
  Ok (mkEncoder source signal (padding entropy) framed.1 framed.2 plaintextLength recordCount
        (noncePrefix entropy) header (hkdf rawKey (salt entropy) HKDF_INFO_V2)
        (RECOVERY_KEY_PREFIX ++ base64UrlEncode rawKey)).

(** What changes as records are made. [polls] counts reads of the signal. *)
Record EncoderState := mkEncoderState {
  counter : Z; busy : bool; hashed : bytes; digest_ : option bytes; polls : nat }.
Definition encoder_start : EncoderState := mkEncoderState 0 false [] None 1.

(** [chunk.set(bytes, at)]. *)
Definition write_at (at_ : Z) (l chunk : bytes) : bytes :=
  slice 0 at_ chunk ++ l ++ slice (at_ + zlen l) (zlen chunk) chunk.

(** [plaintextRecord]: the record, and the source bytes it hashed. *)
Definition plaintextRecord (e : Encoder) (k : nat) (index : Z) : res (bytes * bytes) :=
  let fileStart := zlen (enc_prefix e) in
  let fileEnd := fileStart + source_size (enc_source e) in
  let offset := index * ENVELOPE_CHUNK_BYTES in
  let length_ := Z.min ENVELOPE_CHUNK_BYTES (enc_plaintextLength e - offset) in
  let chunk := replicate (Z.to_nat length_) 0 in
  let prefixEnd := Z.min (offset + length_) fileStart in
  let chunk := if offset <? prefixEnd then write_at 0 (slice offset prefixEnd (enc_prefix e)) chunk else chunk in
  let overlapStart := Z.max offset fileStart in
  let overlapEnd := Z.min (offset + length_) fileEnd in
  let! 'read := if overlapStart <? overlapEnd then
      let! piece := source_read (enc_source e) (overlapStart - fileStart) (overlapEnd - fileStart) in
      let! _ := assertActive (enc_signal e) k "Local encryption" in
      check zlen piece =? overlapEnd - overlapStart else "The file changed while it was being read.";
      Ok (write_at (overlapStart - offset) piece chunk, piece)
    else Ok (chunk, []) in
  let paddingStart := Z.max offset fileEnd in
  let chunk := if paddingStart <? offset + length_ then
      write_at (paddingStart - offset)
        (map (λ i, enc_padding e (paddingStart + Z.of_nat i)) (seq 0 (Z.to_nat (offset + length_ - paddingStart)))) read.1
    else read.1 in
  Ok (chunk, read.2).

(** The part of [next] before its first [await]. *)
Definition next_start (e : Encoder) (s : EncoderState) : res (option EncoderState) :=
  check negb (busy s) else "The encoder makes one record at a time.";
  if enc_recordCount e <=? counter s then Ok None
  else Ok (Some (mkEncoderState (counter s) true (hashed s) (digest_ s) (polls s))).

(** The rest of [next]; whatever happens, [busy] is cleared. *)
Definition next_finish (e : Encoder) (s : EncoderState) : EncoderState * res bytes :=
  let polls' := (polls s + 3)%nat in
  match (let! _ := assertActive (enc_signal e) (polls s) "Local encryption" in
         plaintextRecord e (S (polls s)) (counter s)) with
  | Throw err => (mkEncoderState (counter s) false (hashed s) (digest_ s) polls', Throw err)
  | Ok (plaintext, read) =>
      let hashed := hashed s ++ read in
      let ciphertext := gcm_seal (enc_key e) (makeNonce (enc_noncePrefix e) (counter s))
        (makeAdditionalData (enc_header e) (counter s)) plaintext in
      match assertActive (enc_signal e) (S (S (polls s))) "Local encryption" with
      | Throw err => (mkEncoderState (counter s) false hashed (digest_ s) polls', Throw err)
      | Ok _ =>
          let counter' := counter s + 1 in
          (mkEncoderState counter' false hashed
             (if counter' =? enc_recordCount e then Some (sha256 hashed) else digest_ s) polls', Ok ciphertext)
      end
  end.

(** [next], called one at a time. *)
Definition next (e : Encoder) (s : EncoderState) : EncoderState * res (option bytes) :=
  match next_start e s with
  | Throw err => (s, Throw err)
  | Ok None => (s, Ok None)
  | Ok (Some s) =>
      let r := next_finish e s in
      (r.1, match r.2 with Ok record => Ok (Some record) | Throw err => Throw err end)
  end.

Definition digest (s : EncoderState) : res bytes :=
  match digest_ s with
  | Some d => Ok d
  | None => Throw "The digest is known only after the last record."
  end.

(** Every record, in order: [for (record = await next(); record; ...)]. *)
Fixpoint all_records (fuel : nat) (e : Encoder) (s : EncoderState) (parts : list bytes) : res (list bytes * EncoderState) :=
  match fuel with
  | O => Throw "out of fuel"
  | S fuel =>
      let r := next e s in
      let! record := r.2 in
      match record with
      | None => Ok (parts, r.1)
      | Some record => all_records fuel e r.1 (parts ++ [record])
      end
  end.

Record EncryptedEnvelope := mkEnvelope {
  env_file : bytes; env_recoveryKey : jstr; env_metadata : EnvelopeMetadata }.

Definition encryptPrivacyEnvelope (source : Source) (name type : jstr) (signal : nat → bool)
    (entropy : EnvelopeEntropy) : res EncryptedEnvelope :=
  let! _ := assertActive signal 0 "Local encryption" in
  let! _ := assertPrototypeFileSize (source_size source) in
  let! encoder := createEnvelopeEncoder source name type None (λ k, signal (S k)) entropy in
  let! 'r := all_records (S (Z.to_nat (enc_recordCount encoder))) encoder encoder_start [] in
  let file := enc_header encoder ++ concat r.1 in
  let! _ := assertPrototypeTransferSize (zlen file) in
  Ok (mkEnvelope file (enc_inputKey encoder) (enc_metadata encoder)).

(** ** The reader *)

Record EnvelopeHeader := mkHeader {
  hdr_header : bytes; hdr_headerBytes : Z; hdr_chunkSize : Z; hdr_recordCount : Z;
  hdr_noncePrefix : bytes; hdr_salt : option bytes }.

Definition parseEnvelopeHeader (file : bytes) (signal : nat → bool) (k : nat) : res EnvelopeHeader :=
  let! _ := assertActive signal k "Local decryption" in
  let magic := slice 0 8 file in
  let isV2 := eqb magic ENVELOPE_MAGIC_V2 in
  check negb (negb (zlen magic =? 8) || (negb isV2 && negb (eqb magic ENVELOPE_MAGIC) && negb (eqb magic ENVELOPE_MAGIC_LEGACY)))
    else "This is not a Wildbloom encrypted envelope.";
  let headerBytes := if isV2 then ENVELOPE_HEADER_BYTES_V2 else ENVELOPE_HEADER_BYTES in
  let header := slice 0 headerBytes file in
  let! _ := assertActive signal (S k) "Local decryption" in
  check zlen header =? headerBytes else "This is not a Wildbloom encrypted envelope.";
  let chunkSize := getU32 header 8 in
  let recordCount := getU32 header 12 in
  check negb (negb (chunkSize =? ENVELOPE_CHUNK_BYTES) || (recordCount <? 1) || (MAX_ENVELOPE_RECORDS <? recordCount))
    else "The Wildbloom envelope header is invalid.";
  let minimumSize := headerBytes + (recordCount - 1) * (chunkSize + ENVELOPE_TAG_BYTES) + 1 + ENVELOPE_TAG_BYTES in
  let maximumSize := headerBytes + recordCount * (chunkSize + ENVELOPE_TAG_BYTES) in
  check negb ((zlen file <? minimumSize) || (maximumSize <? zlen file)) else "The Wildbloom envelope length is invalid.";
  Ok (mkHeader header headerBytes chunkSize recordCount (slice 16 24 header)
        (if isV2 then Some (slice 24 (24 + ENVELOPE_SALT_BYTES) header) else None)).

Definition parseEnvelopeMetadata (plaintext : bytes) : res (EnvelopeMetadata * Z) :=
  check 4 <=? zlen plaintext else "The encrypted metadata record is truncated.";
  let metadataLength := getU32 plaintext 0 in
  check negb ((metadataLength <? 2) || (MAX_ENVELOPE_METADATA_BYTES <? metadataLength) || (zlen plaintext <? 4 + metadataLength))
    else "The encrypted metadata length is invalid.";
  match utf8_decode false (slice 4 (4 + metadataLength) plaintext) with
  | None => Throw "The encrypted metadata is invalid."
  | Some metadataText =>
      match parse metadataText with
      | None => Throw "The encrypted metadata is invalid."
      | Some (JObj candidate) =>
          match get_member (lit "name") candidate, get_member (lit "size") candidate, get_member (lit "type") candidate with
          | Some (JStr name), Some (JNum size), Some (JStr type) =>
              check eqb (sanitiseFileName name) name else "The encrypted filename is invalid.";
              let! size := match size with
                           | Int z => let! _ := assertPrototypeFileSize z in Ok z
                           | NegZero => Throw "Choose a non-empty file."
                           | Frac _ _ => Throw "Choose a non-empty file."
                           | Inf _ => Throw "Choose a non-empty file."
                           end in
              let! type := normaliseMimeType type in
              check zlen candidate =? 3 else "The encrypted metadata shape is invalid.";
              let metadata := mkMetadata name size type in
              check eqb metadataText (metadata_json metadata) else "The encrypted metadata is not canonical.";
              Ok (metadata, 4 + metadataLength)
          | _, _, _ => Throw "The encrypted metadata types are invalid."
          end
      | Some (JArr _) => Throw "The encrypted metadata types are invalid."
      | Some _ => Throw "The encrypted metadata is invalid."
      end
  end.

(** What the loop over the records carries: the metadata once read, with the
    length of its frame, and the parts of the file recovered so far. *)
Record DecryptState := mkDecryptState { dec_metadata : option (EnvelopeMetadata * Z); dec_parts : list bytes }.

(** The metadata, read from the first record. *)
Definition record_metadata (plaintextLength : Z) (s : DecryptState) (plaintext : bytes) : res (EnvelopeMetadata * Z) :=
  match dec_metadata s with
  | Some m => Ok m
  | None =>
      let! 'parsed := parseEnvelopeMetadata plaintext in
      check paddedPlaintextLength (parsed.2 + meta_size parsed.1) =? plaintextLength
        else "The encrypted envelope padding is invalid.";
      Ok parsed
  end.

(** What one opened record adds. *)
Definition take_record (chunkSize plaintextLength counter : Z) (s : DecryptState) (plaintext : bytes) : res DecryptState :=
  let! 'm := record_metadata plaintextLength s plaintext in
  let globalStart := counter * chunkSize in
  let overlapStart := Z.max globalStart m.2 in
  let overlapEnd := Z.min (globalStart + zlen plaintext) (m.2 + meta_size m.1) in
  Ok (mkDecryptState (Some m)
        (if overlapStart <? overlapEnd
         then dec_parts s ++ [slice (overlapStart - globalStart) (overlapEnd - globalStart) plaintext]
         else dec_parts s)).

(** The ciphertext of record [counter]. *)
Definition record_text (file : bytes) (h : EnvelopeHeader) (counter : Z) : bytes :=
  let ciphertextStart := hdr_headerBytes h + counter * (hdr_chunkSize h + ENVELOPE_TAG_BYTES) in
  let ciphertextEnd := if counter =? hdr_recordCount h - 1 then zlen file
                       else ciphertextStart + hdr_chunkSize h + ENVELOPE_TAG_BYTES in
  slice ciphertextStart ciphertextEnd file.

Definition open_record (file : bytes) (h : EnvelopeHeader) (key : bytes) (counter : Z) : option bytes :=
  gcm_open key (makeNonce (hdr_noncePrefix h) counter) (makeAdditionalData (hdr_header h) counter) (record_text file h counter).

Definition decrypt_record (file : bytes) (h : EnvelopeHeader) (key : bytes) (plaintextLength : Z)
    (signal : nat → bool) (k : nat) (counter : Z) (s : DecryptState) : res DecryptState :=
  let! _ := assertActive signal k "Local decryption" in
  let! _ := assertActive signal (k + 1) "Local decryption" in
  match open_record file h key counter with
  | None => Throw "The recovery key is wrong or the encrypted envelope was modified."
  | Some plaintext =>
      let! _ := assertActive signal (k + 2) "Local decryption" in
      take_record (hdr_chunkSize h) plaintextLength counter s plaintext
  end.

Fixpoint decrypt_records (n : nat) (file : bytes) (h : EnvelopeHeader) (key : bytes) (plaintextLength : Z)
    (signal : nat → bool) (k : nat) (counter : Z) (s : DecryptState) : res DecryptState :=
  match n with
  | O => Ok s
  | S n =>
      let! s := decrypt_record file h key plaintextLength signal k counter s in
      decrypt_records n file h key plaintextLength signal (k + 3) (counter + 1) s
  end.

(** A recovered [File]: its metadata and content. *)
Record RecoveredFile := mkRecovered { rec_metadata : EnvelopeMetadata; rec_content : bytes }.

Definition decryptPrivacyEnvelope (file : bytes) (recoveryKey : jstr) (signal : nat → bool) : res RecoveredFile :=
  let! _ := assertActive signal 0 "Local decryption" in
  let! _ := assertPrototypeTransferSize (zlen file) in
  check startsWith recoveryKey RECOVERY_KEY_PREFIX else "The recovery key is not a Wildbloom v1 key.";
  let! h := parseEnvelopeHeader file signal 1 in
  let! rawKey := base64UrlDecode (drop (length RECOVERY_KEY_PREFIX) recoveryKey) in
  let key := match hdr_salt h with Some salt => hkdf rawKey salt HKDF_INFO_V2 | None => rawKey end in
  let plaintextLength := zlen file - hdr_headerBytes h - hdr_recordCount h * ENVELOPE_TAG_BYTES in
  let! s := decrypt_records (Z.to_nat (hdr_recordCount h)) file h key plaintextLength signal 3 0 (mkDecryptState None []) in
  match dec_metadata s with
  | None => Throw "The encrypted envelope did not contain the declared file."
  | Some m =>
      check zlen (concat (dec_parts s)) =? meta_size m.1 else "The encrypted envelope did not contain the declared file.";
      let! _ := assertActive signal (3 + 3 * Z.to_nat (hdr_recordCount h)) "Local decryption" in
      Ok (mkRecovered m.1 (concat (dec_parts s)))
  end.

End Crypto.
