(* ===== verification/EnvelopeFacts.v ===== *)
(** * The encrypted envelope: what the encoder makes and the reader accepts *)

From S2P Require Import Prelude JsString Utf8 Bytes Json Security Envelope.

(** ** Writing into a chunk *)

Lemma length_write_at at_ l chunk : 0 <= at_ → at_ + zlen l <= zlen chunk → zlen (write_at at_ l chunk) = zlen chunk.
Proof.
  intros. pose proof (zlen_nonneg l). unfold write_at. rewrite !zlen_app, !zlen_slice by lia. lia.
Qed.

Lemma nth_write_at at_ l chunk (p : nat) : 0 <= at_ → at_ + zlen l <= zlen chunk → Z.of_nat p < zlen chunk →
  nth p (write_at at_ l chunk) 0 =
  if (at_ <=? Z.of_nat p) && (Z.of_nat p <? at_ + zlen l) then nth (p - Z.to_nat at_) l 0 else nth p chunk 0.
Proof.
  intros Ha Hl Hp. pose proof (zlen_nonneg l). unfold write_at.
  assert (length (slice 0 at_ chunk) = Z.to_nat at_) as E0.
  { pose proof (zlen_slice 0 at_ chunk). unfold zlen in *. lia. }
  destruct (Z.leb_spec at_ (Z.of_nat p)); simpl.
  - rewrite app_nth2 by lia. rewrite E0. destruct (Z.ltb_spec (Z.of_nat p) (at_ + zlen l)).
    + rewrite app_nth1 by (unfold zlen in *; lia). done.
    + rewrite app_nth2 by (unfold zlen in *; lia). rewrite nth_slice by (unfold zlen in *; lia). f_equal. unfold zlen in *. lia.
  - rewrite app_nth1 by lia. rewrite nth_slice by lia. f_equal.
Qed.

(** ** The plaintext of an envelope *)

Definition padding_bytes (pad : Z → Z) (from to : Z) : bytes :=
  map (λ i, pad (from + Z.of_nat i)) (seq 0 (Z.to_nat (to - from))).

(** Framed metadata, source, padding. *)
Definition whole_plaintext (prefix content : bytes) (pad : Z → Z) (plaintextLength : Z) : bytes :=
  prefix ++ content ++ padding_bytes pad (zlen prefix + zlen content) plaintextLength.

Lemma zlen_padding pad from to : from <= to → zlen (padding_bytes pad from to) = to - from.
Proof. intros. unfold padding_bytes. rewrite zlen_map. unfold zlen. rewrite length_seq. lia. Qed.

Lemma nth_padding pad from to (p : nat) : Z.of_nat p < to - from → nth p (padding_bytes pad from to) 0 = pad (from + Z.of_nat p).
Proof. intros. unfold padding_bytes. rewrite nth_lookup, list_lookup_fmap, lookup_seq_lt by lia. done. Qed.

Lemma zlen_whole prefix content pad total : zlen prefix + zlen content <= total →
  zlen (whole_plaintext prefix content pad total) = total.
Proof. intros. unfold whole_plaintext. rewrite !zlen_app, zlen_padding by lia. lia. Qed.

Lemma nth_whole prefix content pad total (p : nat) : zlen prefix + zlen content <= total → Z.of_nat p < total →
  nth p (whole_plaintext prefix content pad total) 0 =
  if Z.of_nat p <? zlen prefix then nth p prefix 0
  else if Z.of_nat p <? zlen prefix + zlen content then nth (p - length prefix) content 0
  else pad (Z.of_nat p).
Proof.
  intros Ht Hp. unfold whole_plaintext. destruct (Z.ltb_spec (Z.of_nat p) (zlen prefix)).
  - rewrite app_nth1 by (unfold zlen in *; lia). done.
  - rewrite app_nth2 by (unfold zlen in *; lia). destruct (Z.ltb_spec (Z.of_nat p) (zlen prefix + zlen content)).
    + rewrite app_nth1 by (unfold zlen in *; lia). done.
    + rewrite app_nth2 by (unfold zlen in *; lia). rewrite nth_padding by (unfold zlen in *; lia). f_equal. unfold zlen in *. lia.
Qed.

Section Encoder.
Context `{Unicode} `{Cipher}.

(** An encoder of a blob that is never aborted. *)
Definition encodes (e : Encoder) (content : bytes) : Prop :=
  enc_source e = blob_source content ∧ (∀ k, enc_signal e k = false) ∧
  zlen (enc_prefix e) + zlen content <= enc_plaintextLength e ∧
  enc_recordCount e = ceil_div (enc_plaintextLength e) ENVELOPE_CHUNK_BYTES.

Definition enc_plaintext (e : Encoder) (content : bytes) : bytes :=
  whole_plaintext (enc_prefix e) content (enc_padding e) (enc_plaintextLength e).

(** The source bytes that fall in record [i]. *)
Definition record_source (e : Encoder) (content : bytes) (i : Z) : bytes :=
  slice (Z.max (i * ENVELOPE_CHUNK_BYTES) (zlen (enc_prefix e)) - zlen (enc_prefix e))
    (Z.min ((i + 1) * ENVELOPE_CHUNK_BYTES) (zlen (enc_prefix e) + zlen content) - zlen (enc_prefix e)) content.

Lemma chunk_positive : 0 < ENVELOPE_CHUNK_BYTES.
Proof. done. Qed.

Lemma assert_quiet e content k op : encodes e content → assertActive (enc_signal e) k op = Ok tt.
Proof. intros (_ & Hs & _). unfold assertActive. by rewrite Hs. Qed.

Lemma record_slice_length e content i : encodes e content → 0 <= i → i * ENVELOPE_CHUNK_BYTES < enc_plaintextLength e →
  zlen (slice (i * ENVELOPE_CHUNK_BYTES) ((i + 1) * ENVELOPE_CHUNK_BYTES) (enc_plaintext e content)) =
  Z.min ENVELOPE_CHUNK_BYTES (enc_plaintextLength e - i * ENVELOPE_CHUNK_BYTES).
Proof.
  intros (_ & _ & Ht & _) Hi Ho. pose proof chunk_positive. unfold enc_plaintext.
  rewrite zlen_slice_min, zlen_whole by nia. nia.
Qed.

(** Record [i] of the plaintext is its [i]-th mebibyte. *)
Lemma plaintextRecord_spec e content k i : encodes e content → 0 <= i →
  i * ENVELOPE_CHUNK_BYTES < enc_plaintextLength e →
  plaintextRecord e k i = Ok (slice (i * ENVELOPE_CHUNK_BYTES) ((i + 1) * ENVELOPE_CHUNK_BYTES) (enc_plaintext e content),
    if (Z.max (i * ENVELOPE_CHUNK_BYTES) (zlen (enc_prefix e)) <?
        Z.min (i * ENVELOPE_CHUNK_BYTES + Z.min ENVELOPE_CHUNK_BYTES (enc_plaintextLength e - i * ENVELOPE_CHUNK_BYTES)) (zlen (enc_prefix e) + zlen content))
    then record_source e content i else []).
Proof.
  intros He Hi Ho. pose proof (record_slice_length e content i He Hi Ho) as Hrec.
  pose proof He as (Hsrc & Hsig & Ht & _). unfold plaintextRecord. rewrite Hsrc. cbn [source_size source_read blob_source].
  pose proof (zlen_nonneg (enc_prefix e)). pose proof (zlen_nonneg content).
  set (o := i * ENVELOPE_CHUNK_BYTES) in *. set (P := zlen (enc_prefix e)) in *. set (C := zlen content) in *.
  set (L := Z.min ENVELOPE_CHUNK_BYTES (enc_plaintextLength e - o)) in *.
  assert (0 <= o) by (pose proof chunk_positive; unfold o; nia).
  assert (0 < L <= ENVELOPE_CHUNK_BYTES) as HL by (pose proof chunk_positive; lia).
  set (zero := replicate (Z.to_nat L) 0). assert (zlen zero = L) as Hz by (unfold zero; rewrite zlen_replicate; lia).
  set (c1 := if o <? Z.min (o + L) P then write_at 0 (slice o (Z.min (o + L) P) (enc_prefix e)) zero else zero).
  assert (zlen c1 = L ∧ ∀ p : nat, Z.of_nat p < L → o + Z.of_nat p < P → nth p c1 0 = nth (Z.to_nat o + p) (enc_prefix e) 0) as [Hc1 Hc1n].
  { unfold c1. destruct (Z.ltb_spec o (Z.min (o + L) P)).
    - assert (zlen (slice o (Z.min (o + L) P) (enc_prefix e)) = Z.min (o + L) P - o) as Hs by (apply zlen_slice; lia).
      split; [rewrite length_write_at; lia|]. intros p Hp HpP. rewrite nth_write_at by lia. rewrite Hs.
      rewrite (proj2 (Z.leb_le 0 _)), (proj2 (Z.ltb_lt _ _)) by lia. simpl.
      rewrite nth_slice by lia. f_equal. lia.
    - split; [done|]. intros. lia. }
  set (os := Z.max o P). set (oe := Z.min (o + L) (P + C)). set (ps := Z.max o (P + C)).
  assert (∀ c2, zlen c2 = L → (∀ p : nat, Z.of_nat p < L → o + Z.of_nat p < P + C →
      nth p c2 0 = nth (Z.to_nat o + p) (enc_plaintext e content) 0) →
    (if ps <? o + L then write_at (ps - o) (map (λ j, enc_padding e (ps + Z.of_nat j)) (seq 0 (Z.to_nat (o + L - ps)))) c2 else c2)
    = slice o ((i + 1) * ENVELOPE_CHUNK_BYTES) (enc_plaintext e content)) as Hpad.
  { intros c2 Hc2 Hc2n. fold (padding_bytes (enc_padding e) ps (o + L)).
    apply list_ext_nth.
    - destruct (Z.ltb_spec ps (o + L)); [|unfold zlen in *; lia].
      pose proof (length_write_at (ps - o) (padding_bytes (enc_padding e) ps (o + L)) c2) as Hw.
      rewrite zlen_padding in Hw by lia. unfold zlen in *. lia.
    - intros p Hp. assert (Z.of_nat p < L) as HpL.
      { destruct (Z.ltb_spec ps (o + L)); [|unfold zlen in *; lia].
        pose proof (length_write_at (ps - o) (padding_bytes (enc_padding e) ps (o + L)) c2) as Hw.
        rewrite zlen_padding in Hw by lia. unfold zlen in *. lia. }
      rewrite nth_slice by (fold o; lia).
      destruct (Z.ltb_spec ps (o + L)); [|apply Hc2n; lia].
      rewrite nth_write_at by (rewrite ?zlen_padding; lia). rewrite zlen_padding by lia.
      destruct (Z.leb_spec (ps - o) (Z.of_nat p)); simpl; [|apply Hc2n; lia].
      rewrite (proj2 (Z.ltb_lt _ _)) by lia. rewrite nth_padding by lia.
      unfold enc_plaintext. rewrite nth_whole by (fold P C; lia). fold P C.
      rewrite !(proj2 (Z.ltb_ge _ _)) by lia. f_equal. lia. }
  assert (∀ p : nat, Z.of_nat p < L → o + Z.of_nat p < P → nth p c1 0 = nth (Z.to_nat o + p) (enc_plaintext e content) 0) as Hc1w.
  { intros p Hp HpP. rewrite Hc1n by done. unfold enc_plaintext. rewrite nth_whole by (fold P C; lia). fold P C.
    rewrite (proj2 (Z.ltb_lt _ _)) by lia. done. }
  destruct (Z.ltb_spec os oe) as [Hov|Hov]; cbn [rbind fst snd].
  - unfold record_source. fold o P C os.
    rewrite (assert_quiet e content) by done. cbn [rbind].
    assert (zlen (slice (os - P) (oe - P) content) = oe - os) as Hpl by (rewrite zlen_slice; fold C; lia).
    rewrite Hpl, Z.eqb_refl. cbn [guard rbind fst snd]. f_equal. f_equal.
    + apply Hpad; [rewrite length_write_at; lia|]. intros p Hp HpC. rewrite nth_write_at by lia. rewrite Hpl.
      destruct (Z.leb_spec (os - o) (Z.of_nat p)); simpl; [|apply Hc1w; lia].
      rewrite (proj2 (Z.ltb_lt _ _)) by lia. rewrite nth_slice by lia.
      unfold enc_plaintext. rewrite nth_whole by (fold P C; lia). fold P C.
      rewrite (proj2 (Z.ltb_ge _ _)), (proj2 (Z.ltb_lt _ _)) by lia. f_equal.
      assert (Z.of_nat (length (enc_prefix e)) = P) by done. lia.
    + replace ((i + 1) * ENVELOPE_CHUNK_BYTES) with (o + ENVELOPE_CHUNK_BYTES) by (unfold o; lia).
      assert (oe = Z.min (o + ENVELOPE_CHUNK_BYTES) (P + C)) as -> by (unfold oe, L; lia). done.
  - f_equal. f_equal. apply Hpad; [done|]. intros p Hp HpC. apply Hc1w; lia.
Qed.

(** ** Running the encoder *)

Definition record_plaintext (e : Encoder) (content : bytes) (i : Z) : bytes :=
  slice (i * ENVELOPE_CHUNK_BYTES) ((i + 1) * ENVELOPE_CHUNK_BYTES) (enc_plaintext e content).

Definition sealed_record (e : Encoder) (content : bytes) (i : Z) : bytes :=
  gcm_seal (enc_key e) (makeNonce (enc_noncePrefix e) i) (makeAdditionalData (enc_header e) i) (record_plaintext e content i).

(** The source bytes hashed once [i] records are made. *)
Definition hashed_source (e : Encoder) (content : bytes) (i : Z) : bytes :=
  slice 0 (i * ENVELOPE_CHUNK_BYTES - zlen (enc_prefix e)) content.

Lemma slice_clamp {A} from to (l : list A) : slice from (Z.min to (zlen l)) l = slice from to l.
Proof.
  unfold zlen, slice. destruct (decide (to <= Z.of_nat (length l))); [by rewrite Z.min_l by lia|].
  rewrite Z.min_r by lia. rewrite !take_ge; [done|rewrite length_drop; lia|rewrite length_drop; lia].
Qed.

Lemma hashed_source_step e content i : 0 <= i →
  hashed_source e content i ++ record_source e content i = hashed_source e content (i + 1).
Proof.
  intros Hi. unfold hashed_source, record_source. pose proof chunk_positive.
  pose proof (zlen_nonneg (enc_prefix e)). set (P := zlen (enc_prefix e)) in *.
  replace (Z.min ((i + 1) * ENVELOPE_CHUNK_BYTES) (P + zlen content) - P)
    with (Z.min ((i + 1) * ENVELOPE_CHUNK_BYTES - P) (zlen content)) by lia.
  rewrite slice_clamp. destruct (decide (i * ENVELOPE_CHUNK_BYTES <= P)).
  - rewrite (slice_empty 0) by lia. simpl. f_equal. lia.
  - rewrite Z.max_l by lia. apply slice_app; lia.
Qed.

Lemma hashed_source_all e content i : zlen (enc_prefix e) + zlen content <= i * ENVELOPE_CHUNK_BYTES →
  hashed_source e content i = content.
Proof. intros. apply slice_full. lia. Qed.

Definition record_state (e : Encoder) (content : bytes) (i : Z) (k : nat) : EncoderState :=
  mkEncoderState i false (hashed_source e content i)
    (if (0 <? i) && (i =? enc_recordCount e) then Some (sha256 (hashed_source e content i)) else None) k.

Lemma record_in_range e content i : encodes e content → 0 <= i < enc_recordCount e →
  i * ENVELOPE_CHUNK_BYTES < enc_plaintextLength e.
Proof.
  intros (_ & _ & _ & Hr) Hi. rewrite Hr in Hi.
  pose proof (ceil_div_spec (enc_plaintextLength e) ENVELOPE_CHUNK_BYTES chunk_positive). pose proof chunk_positive. nia.
Qed.

Lemma next_quiet e content i k : encodes e content → 0 <= i < enc_recordCount e →
  next e (record_state e content i k) = (record_state e content (i + 1) (k + 3), Ok (Some (sealed_record e content i))).
Proof.
  intros He Hi. pose proof (record_in_range e content i He Hi) as Ho.
  unfold next, next_start, record_state. cbn [busy counter negb guard rbind].
  rewrite (proj2 (Z.leb_gt _ _)) by lia. unfold next_finish. cbn [busy counter hashed digest_ polls].
  rewrite !(assert_quiet e content) by done. cbn [rbind]. rewrite (plaintextRecord_spec e content) by (done || lia).
  assert ((if Z.max (i * ENVELOPE_CHUNK_BYTES) (zlen (enc_prefix e)) <?
        Z.min (i * ENVELOPE_CHUNK_BYTES + Z.min ENVELOPE_CHUNK_BYTES (enc_plaintextLength e - i * ENVELOPE_CHUNK_BYTES)) (zlen (enc_prefix e) + zlen content)
    then record_source e content i else []) = record_source e content i) as ->.
  { destruct (Z.ltb_spec (Z.max (i * ENVELOPE_CHUNK_BYTES) (zlen (enc_prefix e)))
      (Z.min (i * ENVELOPE_CHUNK_BYTES + Z.min ENVELOPE_CHUNK_BYTES (enc_plaintextLength e - i * ENVELOPE_CHUNK_BYTES)) (zlen (enc_prefix e) + zlen content))); [done|].
    unfold record_source. rewrite slice_empty; [done|]. destruct He as (_ & _ & Ht & _). lia. }
  rewrite hashed_source_step by lia. cbn [fst snd]. f_equal. f_equal.
  rewrite (proj2 (Z.ltb_lt 0 (i + 1))) by lia. cbn [andb]. destruct (i + 1 =? enc_recordCount e); [done|].
  rewrite (proj2 (Z.eqb_neq i _)), andb_false_r by lia. done.
Qed.

Lemma next_done e content k : 0 < enc_recordCount e →
  next e (record_state e content (enc_recordCount e) k) = (record_state e content (enc_recordCount e) k, Ok None).
Proof. intros Hr. unfold next, next_start, record_state. cbn [busy counter negb guard rbind]. by rewrite Z.leb_refl. Qed.

Lemma all_records_quiet e content : encodes e content → 0 < enc_recordCount e → ∀ n i k fuel parts,
  (Z.of_nat i + Z.of_nat n = enc_recordCount e) → (n < fuel)%nat →
  ∃ k', all_records fuel e (record_state e content (Z.of_nat i) k) parts =
    Ok (parts ++ map (λ j, sealed_record e content (Z.of_nat j)) (seq i n), record_state e content (enc_recordCount e) k').
Proof.
  intros He Hr n. induction n as [|n IH]; intros i k fuel parts Hi Hf; (destruct fuel as [|fuel]; [lia|]); cbn [all_records].
  - replace (Z.of_nat i) with (enc_recordCount e) by lia. rewrite next_done by done. exists k. cbn [fst snd rbind seq map].
    by rewrite app_nil_r.
  - rewrite (next_quiet e content) by (done || lia). cbn [fst snd rbind].
    destruct (IH (S i) (k + 3)%nat fuel (parts ++ [sealed_record e content (Z.of_nat i)])) as [k' Hk]; [lia|lia|].
    exists k'. replace (Z.of_nat i + 1) with (Z.of_nat (S i)) by lia. rewrite Hk. cbn [seq map]. by rewrite <- app_assoc.
Qed.

(** The whole envelope. *)
Definition sealed_envelope (e : Encoder) (content : bytes) : bytes :=
  enc_header e ++ concat (map (λ j, sealed_record e content (Z.of_nat j)) (seq 0 (Z.to_nat (enc_recordCount e)))).

Lemma all_records_start e content : encodes e content → 0 < enc_recordCount e →
  ∃ s, all_records (S (Z.to_nat (enc_recordCount e))) e encoder_start [] =
    Ok (map (λ j, sealed_record e content (Z.of_nat j)) (seq 0 (Z.to_nat (enc_recordCount e))), s) ∧
    digest s = Ok (sha256 content).
Proof.
  intros He Hr. destruct (all_records_quiet e content He Hr (Z.to_nat (enc_recordCount e)) 0 1 (S (Z.to_nat (enc_recordCount e))) []) as [k' Hk]; [lia|lia|].
  assert (encoder_start = record_state e content (Z.of_nat 0) 1) as Es.
  { unfold encoder_start, record_state. cbn [Z.of_nat Z.ltb Z.compare andb]. f_equal.
    unfold hashed_source. rewrite slice_empty; [done|]. pose proof (zlen_nonneg (enc_prefix e)). lia. }
  rewrite Es. eexists. split; [exact Hk|]. unfold digest, record_state. cbn [digest_].
  rewrite (proj2 (Z.ltb_lt 0 _)), Z.eqb_refl by done. cbn [andb]. rewrite hashed_source_all; [done|].
  destruct He as (_ & _ & Ht & Hc). rewrite Hc in Hr |- *.
  pose proof (ceil_div_spec (enc_plaintextLength e) ENVELOPE_CHUNK_BYTES chunk_positive). lia.
Qed.
End Encoder.

(** ** The reader's loop *)

Section Reader.
Context `{Unicode} `{Cipher}.

(** The loop on plaintexts that are already opened. *)
Fixpoint recover (chunkSize plaintextLength counter : Z) (s : DecryptState) (pts : list bytes) : res DecryptState :=
  match pts with
  | [] => Ok s
  | plaintext :: pts =>
      let! s := take_record chunkSize plaintextLength counter s plaintext in
      recover chunkSize plaintextLength (counter + 1) s pts
  end.

(** [pts] are the openings of the records from [counter] on. *)
Definition openings (file : bytes) (h : EnvelopeHeader) (key : bytes) (counter : Z) (pts : list bytes) : Prop :=
  ∀ (i : nat) pt, pts !! i = Some pt → open_record file h key (counter + Z.of_nat i) = Some pt.

Lemma openings_cons file h key counter pt pts : openings file h key counter (pt :: pts) ↔
  open_record file h key counter = Some pt ∧ openings file h key (counter + 1) pts.
Proof.
  unfold openings. split.
  - intros Ho. split; [rewrite <- (Ho 0%nat pt eq_refl); f_equal; lia|].
    intros i p Hp. rewrite <- (Ho (S i) p Hp). f_equal. lia.
  - intros [H1 H2] [|i] p Hp; [injection Hp as <-; rewrite <- H1; f_equal; lia|].
    rewrite <- (H2 i p Hp). f_equal. lia.
Qed.

Lemma assertActive_ok signal k op u : assertActive signal k op = Ok u → signal k = false.
Proof. unfold assertActive. intros Ha. inv_ok. by bool_prop. Qed.

Lemma decrypt_records_recover n file h key T signal k counter s s' :
  decrypt_records n file h key T signal k counter s = Ok s' →
  ∃ pts, length pts = n ∧ openings file h key counter pts ∧ recover (hdr_chunkSize h) T counter s pts = Ok s'.
Proof.
  revert k counter s; induction n as [|n IH]; intros k counter s Hd; cbn [decrypt_records] in Hd.
  - exists []. by split_and!; [|intros i p Hp|].
  - inv_ok. match goal with E : decrypt_record _ _ _ _ _ _ _ _ = Ok ?s1 |- _ => unfold decrypt_record in E; rename E into Er end.
    inv_ok. destruct (open_record file h key counter) as [pt|] eqn:Eo; [|done]. inv_ok.
    destruct (IH _ _ _ Hd) as (pts & Hl & Ho & Hr). exists (pt :: pts).
    split_and!; [simpl; lia|by apply openings_cons|]. cbn [recover]. by rewrite Er.
Qed.

Lemma recover_decrypt_records pts file h key T signal : (∀ k, signal k = false) → ∀ k counter s,
  openings file h key counter pts →
  decrypt_records (length pts) file h key T signal k counter s = recover (hdr_chunkSize h) T counter s pts.
Proof.
  intros Hs. induction pts as [|pt pts IH]; intros k counter s Ho; [done|].
  apply openings_cons in Ho as [Ho Hos]. cbn [length decrypt_records recover]. unfold decrypt_record, assertActive.
  rewrite !Hs. cbn [negb guard rbind]. rewrite Ho. destruct (take_record _ _ _ _ _); [|done]. cbn [rbind]. by apply IH.
Qed.

(** All records but the last are full. *)
Fixpoint full_records (chunkSize : Z) (pts : list bytes) : Prop :=
  match pts with
  | [] => True
  | pt :: rest => match rest with [] => True | _ :: _ => zlen pt = chunkSize ∧ full_records chunkSize rest end
  end.

Lemma recover_content chunkSize T m pts : 0 < chunkSize → 0 <= m.2 → full_records chunkSize pts → ∀ counter parts s',
  0 <= counter →
  recover chunkSize T counter (mkDecryptState (Some m) parts) pts = Ok s' →
  dec_metadata s' = Some m ∧
  concat (dec_parts s') = concat parts ++
    slice (Z.max 0 (m.2 - counter * chunkSize)) (m.2 + meta_size m.1 - counter * chunkSize) (concat pts).
Proof.
  intros Hch Hm. induction pts as [|pt pts IH]; intros Hf counter parts s' Hc Hr; cbn [recover] in Hr.
  - injection Hr as <-. split; [done|]. cbn [dec_parts List.concat]. unfold slice. by rewrite drop_nil, take_nil, app_nil_r.
  - unfold take_record, record_metadata in Hr. cbn [dec_metadata rbind dec_parts] in Hr.
    set (a := m.2 - counter * chunkSize). set (b := m.2 + meta_size m.1 - counter * chunkSize).
    cbn [List.concat]. rewrite slice_app_split by lia.
    assert (full_records chunkSize pts) as Hf' by (destruct pts; [done|]; apply Hf).
    apply (IH Hf') in Hr as [Hmd Hr]; [|lia]. split; [done|]. rewrite Hr.
    assert (∀ x, concat (if Z.max (counter * chunkSize) m.2 <? Z.min (counter * chunkSize + zlen pt) (m.2 + meta_size m.1)
      then parts ++ [slice (Z.max (counter * chunkSize) m.2 - counter * chunkSize)
             (Z.min (counter * chunkSize + zlen pt) (m.2 + meta_size m.1) - counter * chunkSize) pt] else parts) ++ x
      = concat parts ++ slice (Z.max 0 a) (Z.min b (zlen pt)) pt ++ x) as ->.
    { intros x. rewrite app_assoc. f_equal.
      replace (Z.max (counter * chunkSize) m.2 - counter * chunkSize) with (Z.max 0 a) by (unfold a; lia).
      replace (Z.min (counter * chunkSize + zlen pt) (m.2 + meta_size m.1) - counter * chunkSize) with (Z.min b (zlen pt)) by (unfold b; lia).
      destruct (Z.ltb_spec (Z.max (counter * chunkSize) m.2) (Z.min (counter * chunkSize + zlen pt) (m.2 + meta_size m.1))).
      - rewrite concat_app. simpl. by rewrite app_nil_r.
      - rewrite slice_empty by (unfold a, b; lia). by rewrite app_nil_r. }
    f_equal. f_equal. destruct pts as [|pt' pts]; [unfold slice; cbn [List.concat]; by rewrite !drop_nil, !take_nil|].
    destruct Hf as [Hpt _]. f_equal; unfold a, b; lia.
Qed.

(** The whole loop: the first record gives the metadata, the parts are its
    bytes of the plaintext. *)
Lemma recover_spec chunkSize T pt pts s' : 0 < chunkSize → full_records chunkSize (pt :: pts) →
  recover chunkSize T 0 (mkDecryptState None []) (pt :: pts) = Ok s' ↔
  ∃ m parts, parseEnvelopeMetadata pt = Ok m ∧ paddedPlaintextLength (m.2 + meta_size m.1) = T ∧
    s' = mkDecryptState (Some m) parts ∧
    recover chunkSize T 0 (mkDecryptState (Some m) []) (pt :: pts) = Ok s'.
Proof.
  intros Hch Hf. cbn [recover]. unfold take_record, record_metadata. cbn [dec_metadata rbind dec_parts]. split.
  - intros Hr. inv_ok. bool_prop.
    match goal with Hx : _ = T, Hm : parseEnvelopeMetadata _ = Ok ?x |- _ => rename Hx into HT; rename Hm into Hp; rename x into m end.
    exists m.
    assert (∃ parts, s' = mkDecryptState (Some m) parts) as [parts Hs].
    { revert Hr. generalize (0 + 1) as c. set (p := if _ <? _ then _ else _). generalize p as parts. clear.
      induction pts as [|q qs IH]; intros parts c Hr; cbn [recover] in Hr; [injection Hr as <-; by eexists|].
      unfold take_record, record_metadata in Hr. cbn [dec_metadata rbind] in Hr. by eapply IH. }
    exists parts. split_and!; done.
  - intros (m & parts & Hp & HT & -> & Hr). rewrite Hp. cbn [rbind]. rewrite HT, Z.eqb_refl. cbn [guard rbind]. exact Hr.
Qed.
End Reader.
