(* ===== verification/EnvelopeCorrect.v ===== *)
(** * The encrypted envelope: correctness

    Sealing then opening gives the file back; what the reader accepts is a sealed
    envelope bound to its header; sizes, padding and nonces. *)

From S2P Require Import Prelude JsString Utf8 Bytes Json Security Envelope EnvelopeFacts.

Lemma jstr_ok_app s t : jstr_ok s → jstr_ok t → jstr_ok (s ++ t).
Proof. intros. by apply Forall_app. Qed.

Lemma jstr_ok_rev s : jstr_ok s → jstr_ok (rev s).
Proof. apply Forall_rev. Qed.

(** ** Padding *)

Lemma padded_bounds l : 0 <= l → l <= paddedPlaintextLength l ∧ MIN_PADDING_BUCKET_BYTES <= paddedPlaintextLength l ∧
  (l <= ENVELOPE_CHUNK_BYTES → paddedPlaintextLength l <= ENVELOPE_CHUNK_BYTES) ∧
  (ENVELOPE_CHUNK_BYTES < l → paddedPlaintextLength l < l + ENVELOPE_CHUNK_BYTES).
Proof.
  intros Hl. unfold paddedPlaintextLength, MIN_PADDING_BUCKET_BYTES, ENVELOPE_CHUNK_BYTES.
  destruct (Z.leb_spec l (64 * 1024)); [lia|]. destruct (Z.leb_spec l (1024 * 1024)).
  - pose proof (Z.log2_up_spec l ltac:(lia)) as [_ H2].
    assert (Z.log2_up l <= 20) by (apply Z.log2_up_le_pow2; [lia|]; change (2 ^ 20) with (1024 * 1024); lia).
    assert (2 ^ Z.log2_up l <= 2 ^ 20) by (apply Z.pow_le_mono_r; lia). change (2 ^ 20) with (1024 * 1024) in *. lia.
  - pose proof (ceil_div_spec l (1024 * 1024) ltac:(lia)). nia.
Qed.

Lemma record_count_bound l : 0 <= l <= MAX_PROTOTYPE_FILE_BYTES + 4 + MAX_ENVELOPE_METADATA_BYTES →
  1 <= ceil_div (paddedPlaintextLength l) ENVELOPE_CHUNK_BYTES <= MAX_ENVELOPE_RECORDS.
Proof.
  intros Hl. pose proof (padded_bounds l ltac:(lia)) as (Hp & Hm & Hs & Hb). split.
  - pose proof (ceil_div_pos (paddedPlaintextLength l) ENVELOPE_CHUNK_BYTES chunk_positive). unfold MIN_PADDING_BUCKET_BYTES in *. lia.
  - unfold MAX_ENVELOPE_RECORDS. destruct (decide (l <= ENVELOPE_CHUNK_BYTES)).
    + apply ceil_div_mono; [done|]. unfold ENVELOPE_CHUNK_BYTES, MAX_PROTOTYPE_FILE_BYTES, MAX_ENVELOPE_METADATA_BYTES in *. lia.
    + assert (paddedPlaintextLength l = ceil_div l ENVELOPE_CHUNK_BYTES * ENVELOPE_CHUNK_BYTES) as ->.
      { unfold paddedPlaintextLength. rewrite (proj2 (Z.leb_gt _ _)), (proj2 (Z.leb_gt _ _)); [done|lia|].
        unfold MIN_PADDING_BUCKET_BYTES, ENVELOPE_CHUNK_BYTES in *. lia. }
      rewrite ceil_div_mul by done. apply ceil_div_mono; [done|lia].
Qed.

Lemma MAX_ENVELOPE_RECORDS_257 : MAX_ENVELOPE_RECORDS = 257.
Proof. reflexivity. Qed.

Section Metadata.
Context `{UnicodeLaws} `{Cipher}.

(** Metadata that [frameMetadata] can produce. *)
Definition metadata_ok (m : EnvelopeMetadata) : Prop :=
  jstr_ok (meta_name m) ∧ sanitiseFileName (meta_name m) = meta_name m ∧
  0 <= meta_size m <= MAX_PROTOTYPE_FILE_BYTES ∧
  jstr_ok (meta_type m) ∧ normaliseMimeType (meta_type m) = Ok (meta_type m).

Lemma metadata_json_join m : metadata_json m = 123 :: join [44] (map snd
  [(lit "name", quote (lit "name") ++ 58 :: quote (meta_name m));
   (lit "size", quote (lit "size") ++ 58 :: decimal (meta_size m));
   (lit "type", quote (lit "type") ++ 58 :: quote (meta_type m))]) ++ [125].
Proof.
  unfold metadata_json. cbn [map snd]. rewrite !join_cons. cbn [join]. rewrite <- !app_assoc. reflexivity.
Qed.

Lemma metadata_parse m : metadata_ok m → parse (metadata_json m) =
  Some (JObj [(lit "name", JStr (meta_name m)); (lit "size", JNum (Int (meta_size m))); (lit "type", JStr (meta_type m))]).
Proof.
  intros (Hn & _ & Hs & Ht & _). apply parse_parses. rewrite metadata_json_join. apply parses_object.
  - assert (∀ s, ascii (lit s) → jstr_ok (lit s)) as Ha by (intros; by apply ascii_jstr_ok).
    repeat (constructor; [split_and!; [done|apply Ha; solve_ascii|eexists; split; [reflexivity|]]|]); [| | |constructor]; cbn [snd].
    + by apply parses_str.
    + apply parses_int. unfold MAX_PROTOTYPE_FILE_BYTES, max_safe_integer in *. lia.
    + by apply parses_str.
  - cbn [map fst]. repeat (apply NoDup_cons; split; [rewrite ?elem_of_cons, elem_of_nil; intuition discriminate|]). apply NoDup_nil_2.
Qed.

Lemma decimal_ascii n : 0 <= n → ascii (decimal n).
Proof.
  intros Hn. pose proof (decimal_digits n Hn) as Hd. eapply Forall_forallb; [|exact Hd].
  intros c Hc. unfold is_digit in Hc. apply in_range_spec in Hc. lia.
Qed.

Lemma metadata_text_ok m : metadata_ok m → jstr_ok (metadata_json m) ∧ lone_surrogate (metadata_json m) = false.
Proof.
  intros (Hn & _ & Hs & Ht & _). unfold metadata_json.
  assert (∀ a, ascii a → jstr_ok a ∧ lone_surrogate a = false) as Ha
    by (intros; split; [by apply ascii_jstr_ok|by apply lone_surrogate_ascii]).
  destruct (quote_ok _ Hn), (quote_ok _ Ht), (Ha (decimal (meta_size m)) ltac:(apply decimal_ascii; lia)).
  split; repeat first [ assumption | match goal with |- context [quote _] => idtac | |- context [decimal _] => idtac end; first [ apply jstr_ok_app | apply lone_surrogate_app ] ];
    first [ apply ascii_jstr_ok | apply lone_surrogate_ascii ]; solve_ascii.
Qed.

Lemma normaliseMimeType_idem value type : normaliseMimeType value = Ok type → normaliseMimeType type = Ok type.
Proof.
  unfold normaliseMimeType. intros Hm. inv_ok.
  set (v := if non_empty value then value else lit "application/octet-stream") in *.
  assert (non_empty (toLowerCase v) = true) as ->.
  { destruct (toLowerCase v) eqn:E; [|done]. apply lower_empty in E. unfold v in E. by destruct value. }
  rewrite lower_idem. match goal with Hb : negb _ = true |- _ => by rewrite Hb end.
Qed.

Lemma normaliseMimeType_ok value type : jstr_ok value → normaliseMimeType value = Ok type → jstr_ok type.
Proof.
  unfold normaliseMimeType. intros Hv Hm. inv_ok. apply lower_ok. destruct (non_empty value); [done|].
  apply ascii_jstr_ok. solve_ascii.
Qed.

Lemma sanitise_ok value : jstr_ok value → jstr_ok (sanitiseFileName value).
Proof.
  intros Hv. unfold sanitiseFileName.
  assert (∀ s, jstr_ok s → jstr_ok (trimEnd s)) as Htrim.
  { intros s Hs. destruct (drop_end_prefix is_space s) as (t & E & _). fold (trimEnd s) in E. rewrite E in Hs. by apply Forall_app in Hs as [Hs _]. }
  assert (∀ p s acc, jstr_ok s → jstr_ok acc → Forall jstr_ok (split_from p acc s)) as Hsplit.
  { intros p s. induction s as [|c s IH]; intros acc Hs Ha; cbn [split_from]; [constructor; [by apply jstr_ok_rev|constructor]|].
    apply Forall_cons in Hs as [Hc Hs]. destruct (p c); [constructor; [by apply jstr_ok_rev|apply IH; [done|constructor]]|]. apply IH; [done|by constructor]. }
  assert (jstr_ok (List.last (split is_separator value) [])) as Hlast.
  { specialize (Hsplit is_separator value [] Hv ltac:(constructor)). unfold split. revert Hsplit. generalize (split_from is_separator [] value) as l.
    intros l Hl. destruct l as [|x l _] using rev_ind; [constructor|]. rewrite last_last. apply Forall_app in Hl as [_ Hl]. by apply Forall_inv in Hl. }
  set (cleaned := trimEnd _).
  assert (jstr_ok cleaned) as Hc.
  { assert (jstr_ok (filter (λ c, is_control c = false) (List.last (split is_separator value) []))) as Hfilter.
    { apply Forall_forall. intros c [_ Hin]%list_elem_of_filter. unfold jstr_ok in Hlast. rewrite Forall_forall in Hlast. by apply Hlast. }
    apply Htrim, drop_while_ok, Forall_map. eapply Forall_impl; [apply nfc_ok, Hfilter|].
    unfold unit_ok. intros c Hc. simpl. destruct (is_reserved c); lia. }
  assert (jstr_ok (if non_empty cleaned then cleaned else lit "blob.bin")) as Hf.
  { destruct (non_empty cleaned); [done|]. apply ascii_jstr_ok. solve_ascii. }
  destruct (_ <=? _); [done|]. by apply Htrim, Forall_take.
Qed.

(** What [frameMetadata] gives. *)
Lemma frameMetadata_ok name size type p m : frameMetadata name size type = Ok (p, m) →
  jstr_ok name → jstr_ok type → 0 <= size <= MAX_PROTOTYPE_FILE_BYTES →
  metadata_ok m ∧ meta_size m = size ∧ meta_name m = sanitiseFileName name ∧
  p = u32 (zlen (utf8_encode (metadata_json m))) ++ utf8_encode (metadata_json m) ∧
  zlen (utf8_encode (metadata_json m)) <= MAX_ENVELOPE_METADATA_BYTES ∧ bytes_ok p.
Proof.
  unfold frameMetadata. intros Hf Hn Ht Hs. inv_ok. bool_prop.
  match goal with Hx : (_, _) = (p, m) |- _ => injection Hx as <- <- end.
  assert (metadata_ok (mkMetadata (sanitiseFileName name) size x)) as Hok.
  { split_and!; cbn [meta_name meta_size meta_type]; [by apply sanitise_ok|apply sanitise_clean, sanitise_is_clean|lia|lia| |].
    - by eapply normaliseMimeType_ok.
    - by eapply normaliseMimeType_idem. }
  split; [exact Hok|]. split; [reflexivity|]. split; [reflexivity|]. split; [reflexivity|]. split; [assumption|].
  destruct (metadata_text_ok _ Hok). apply (proj2 (bytes_ok_app (u32 _) _)). split; [apply u32_ok|by apply utf8_encode_ok].
Qed.
End Metadata.

(** ** Opening what was sealed *)

Section Seal.
Context `{UnicodeLaws} `{CipherLaws}.

(** A random source of the documented sizes. *)
Definition entropy_ok (r : EnvelopeEntropy) : Prop :=
  bytes_ok (noncePrefix r) ∧ zlen (noncePrefix r) = 8 ∧ bytes_ok (salt r) ∧ zlen (salt r) = 32 ∧
  bytes_ok (inputKey r) ∧ zlen (inputKey r) = 32 ∧ (∀ i, byte_ok (padding r i)).

(** The first record holds the framed metadata whole. *)
Lemma metadata_text_facts m : metadata_ok m →
  utf8_decode false (utf8_encode (metadata_json m)) = Some (metadata_json m) ∧ 2 <= zlen (utf8_encode (metadata_json m)).
Proof.
  intros Hm. destruct (metadata_text_ok m Hm) as [Htok Htl]. split.
  - pose proof (utf8_roundtrip _ Htok Htl) as Hrt. unfold utf8_decode in *.
    destruct (utf8_points (utf8_encode (metadata_json m))) as [cps|] eqn:Ecps; [|done]. rewrite <- Hrt. f_equal. f_equal.
    destruct cps as [|cp cps]; [done|]. destruct (Z.eqb_spec cp 65279) as [->|]; [|by rewrite andb_false_r].
    cbn [negb andb Z.eqb Pos.eqb] in *. injection Hrt as Hrt. discriminate Hrt.
  - assert (utf8_encode (metadata_json m) = 123 :: utf8_encode (tl (metadata_json m))) as -> by done.
    rewrite zlen_cons. assert (utf8_encode (tl (metadata_json m)) = 34 :: utf8_encode (tl (tl (metadata_json m)))) as -> by done.
    rewrite zlen_cons. pose proof (zlen_nonneg (utf8_encode (tl (tl (metadata_json m))))). lia.
Qed.

Lemma parse_first_record_from m text rec t : metadata_ok m → 0 < meta_size m →
  utf8_decode false text = Some (metadata_json m) → 2 <= zlen text <= 4096 →
  rec = u32 (zlen text) ++ text ++ t → parseEnvelopeMetadata rec = Ok (m, 4 + zlen text).
Proof.
  intros Hm Hs Hdec Hl Hrec. unfold parseEnvelopeMetadata, MAX_ENVELOPE_METADATA_BYTES.
  assert (0 <= zlen text < 4294967296) as Hlt by lia.
  pose proof (getU32_app [] (zlen text) (text ++ t) 0 eq_refl Hlt) as Hg. cbn [app] in Hg. rewrite <- Hrec in Hg.
  assert (4 + zlen text <= zlen rec) as Hrl by (rewrite Hrec, !zlen_app, zlen_u32; pose proof (zlen_nonneg t); lia).
  rewrite (proj2 (Z.leb_le 4 (zlen rec))) by lia. cbn [guard rbind]. rewrite Hg.
  rewrite (proj2 (Z.ltb_ge (zlen text) 2)), (proj2 (Z.ltb_ge 4096 (zlen text))), (proj2 (Z.ltb_ge (zlen rec) (4 + zlen text))) by lia.
  cbn [orb negb guard rbind].
  assert (slice 4 (4 + zlen text) rec = text) as ->.
  { rewrite Hrec, slice_app_r by (rewrite zlen_u32; lia). rewrite zlen_u32. rewrite slice_app_l by lia. apply slice_full. lia. }
  rewrite Hdec. rewrite metadata_parse by done. destruct Hm as (Hn & Hfix & Hsz & Hty & Hmime).
  change (get_member (lit "name") _) with (Some (JStr (meta_name m))).
  change (get_member (lit "size") _) with (Some (JNum (Int (meta_size m)))).
  change (get_member (lit "type") _) with (Some (JStr (meta_type m))). cbv beta iota.
  rewrite Hfix, (proj2 (eqb_eq _ _) eq_refl). cbn [guard rbind].
  assert (assertPrototypeFileSize (meta_size m) = Ok tt) as ->.
  { unfold assertPrototypeFileSize, is_safe_integer, max_safe_integer, MAX_PROTOTYPE_FILE_BYTES in *.
    rewrite (proj2 (Z.leb_le _ _)), (proj2 (Z.leb_gt _ _)), (proj2 (Z.ltb_ge _ _)) by lia. done. }
  cbn [rbind]. rewrite Hmime. cbn [rbind]. change (zlen _ =? 3) with true. cbn [guard rbind].
  destruct m as [name size type]. cbn [meta_name meta_size meta_type] in *. by rewrite (proj2 (eqb_eq _ _) eq_refl).
Qed.

Lemma parse_first_record m p content pad T : metadata_ok m →
  p = u32 (zlen (utf8_encode (metadata_json m))) ++ utf8_encode (metadata_json m) →
  zlen (utf8_encode (metadata_json m)) <= MAX_ENVELOPE_METADATA_BYTES →
  0 < meta_size m → zlen p + zlen content <= T → MIN_PADDING_BUCKET_BYTES <= T →
  parseEnvelopeMetadata (slice 0 ENVELOPE_CHUNK_BYTES (whole_plaintext p content pad T)) = Ok (m, zlen p).
Proof.
  intros Hm Hp Hl Hs Ht HT. destruct (metadata_text_facts m Hm) as [Hdec Htwo].
  generalize dependent (utf8_encode (metadata_json m)). intros text Hp Hl Hdec Htwo.
  assert (zlen p = 4 + zlen text) as Hpl by (rewrite Hp, zlen_app, zlen_u32; done). rewrite Hpl.
  eapply parse_first_record_from; [done|done|done|unfold MAX_ENVELOPE_METADATA_BYTES in Hl; lia|].
  unfold whole_plaintext. rewrite Hp, <- app_assoc.
  rewrite slice_app_split by lia. rewrite zlen_u32. rewrite (slice_full _ (u32 _)) by (rewrite zlen_u32; done).
  rewrite slice_app_split by lia. rewrite slice_full by (unfold ENVELOPE_CHUNK_BYTES, MAX_ENVELOPE_METADATA_BYTES in *; lia).
  reflexivity.
Qed.

(** A header of the second version reads back. *)
Lemma parse_header_v2 count prefix salt body signal k : (∀ j, signal j = false) →
  zlen prefix = 8 → zlen salt = 32 → 1 <= count <= MAX_ENVELOPE_RECORDS →
  let header := ENVELOPE_MAGIC_V2 ++ u32 ENVELOPE_CHUNK_BYTES ++ u32 count ++ prefix ++ salt in
  (count - 1) * (ENVELOPE_CHUNK_BYTES + ENVELOPE_TAG_BYTES) + 17 <= zlen body <= count * (ENVELOPE_CHUNK_BYTES + ENVELOPE_TAG_BYTES) →
  zlen header = 56 ∧
  parseEnvelopeHeader (header ++ body) signal k = Ok (mkHeader header 56 ENVELOPE_CHUNK_BYTES count prefix (Some salt)).
Proof.
  intros Hs Hp Hsl Hc header Hb.
  assert (zlen header = 56) as Hh by (unfold header; rewrite !zlen_app, Hp, Hsl; done). split; [done|].
  unfold parseEnvelopeHeader, assertActive. rewrite !Hs. cbn [negb guard rbind].
  assert (slice 0 8 (header ++ body) = ENVELOPE_MAGIC_V2) as ->.
  { unfold header. rewrite <- app_assoc, slice_app_l by (lia || done). by apply slice_full. }
  change (zlen ENVELOPE_MAGIC_V2 =? 8) with true. rewrite (proj2 (eqb_eq _ _) eq_refl). cbn [negb andb orb guard rbind].
  assert (slice 0 ENVELOPE_HEADER_BYTES_V2 (header ++ body) = header) as ->.
  { unfold ENVELOPE_HEADER_BYTES_V2. rewrite slice_app_l by lia. apply slice_full. lia. }
  rewrite Hh. change (56 =? ENVELOPE_HEADER_BYTES_V2) with true. cbn [guard rbind].
  assert (getU32 header 8 = ENVELOPE_CHUNK_BYTES) as -> by (unfold header; by apply getU32_app).
  assert (getU32 header 12 = count) as ->.
  { unfold header. rewrite (app_assoc ENVELOPE_MAGIC_V2). apply getU32_app; [done|]. rewrite MAX_ENVELOPE_RECORDS_257 in *. lia. }
  rewrite Z.eqb_refl, (proj2 (Z.ltb_ge count 1)), (proj2 (Z.ltb_ge _ count)) by lia. cbn [negb orb guard rbind].
  rewrite zlen_app, Hh. unfold ENVELOPE_TAG_BYTES, ENVELOPE_HEADER_BYTES_V2 in *.
  rewrite (proj2 (Z.ltb_ge _ _)), (proj2 (Z.ltb_ge _ _)) by lia. cbn [negb orb guard rbind].
  assert (slice 16 24 header = prefix) as ->.
  { unfold header. rewrite !app_assoc, <- (app_assoc _ prefix), slice_app_r by done.
    rewrite slice_app_l by (rewrite ?Hp; done). apply slice_full. rewrite Hp. done. }
  assert (slice 24 (24 + ENVELOPE_SALT_BYTES) header = salt) as ->.
  { unfold header. rewrite !app_assoc, slice_app_r by (rewrite !zlen_app, Hp; done).
    rewrite !zlen_app, Hp. apply slice_full. rewrite Hsl. done. }
  done.
Qed.

(** The records' plaintexts are the consecutive mebibytes of the whole. *)
Lemma concat_slices {A} size (l : list A) n : 0 <= size →
  concat (map (λ j, slice (Z.of_nat j * size) ((Z.of_nat j + 1) * size) l) (seq 0 n)) = slice 0 (Z.of_nat n * size) l.
Proof.
  intros Hs. induction n as [|n IH]; [cbn; by rewrite slice_empty|].
  rewrite seq_S, map_app, concat_app, IH. cbn [map List.concat plus]. rewrite app_nil_r, slice_app by nia. f_equal. lia.
Qed.

Definition plaintexts (e : Encoder) (content : bytes) : list bytes :=
  map (λ j, record_plaintext e content (Z.of_nat j)) (seq 0 (Z.to_nat (enc_recordCount e))).

Lemma concat_plaintexts e content : encodes e content → 0 < enc_recordCount e →
  concat (plaintexts e content) = enc_plaintext e content.
Proof.
  intros (_ & _ & Ht & Hr) Hc. unfold plaintexts, record_plaintext. rewrite concat_slices by done.
  apply slice_full. unfold enc_plaintext. rewrite zlen_whole by done. rewrite Hr in *.
  pose proof (ceil_div_spec (enc_plaintextLength e) ENVELOPE_CHUNK_BYTES chunk_positive). lia.
Qed.

Lemma zlen_sealed e content i : encodes e content → 0 <= i < enc_recordCount e →
  zlen (sealed_record e content i) = Z.min ENVELOPE_CHUNK_BYTES (enc_plaintextLength e - i * ENVELOPE_CHUNK_BYTES) + 16.
Proof.
  intros He Hi. unfold sealed_record. rewrite seal_length. unfold record_plaintext.
  rewrite (record_slice_length e content) by (done || lia || by eapply record_in_range). done.
Qed.

Lemma zlen_concat_sealed e content n : encodes e content → (Z.of_nat n <= enc_recordCount e) →
  zlen (concat (map (λ j, sealed_record e content (Z.of_nat j)) (seq 0 n))) =
  Z.min (Z.of_nat n * ENVELOPE_CHUNK_BYTES) (enc_plaintextLength e) + 16 * Z.of_nat n.
Proof.
  intros He. pose proof chunk_positive.
  assert (0 <= enc_plaintextLength e) as HT.
  { destruct He as (_ & _ & Ht & _). pose proof (zlen_nonneg (enc_prefix e)). pose proof (zlen_nonneg content). lia. }
  induction n as [|n IH]; intros Hn; [by rewrite Z.min_l by lia|].
  rewrite seq_S, map_app, concat_app, zlen_app, IH by lia. cbn [map List.concat plus]. rewrite app_nil_r, zlen_sealed by (done || lia).
  pose proof (record_in_range e content (Z.of_nat n) He ltac:(lia)). nia.
Qed.

Lemma concat_split_at {A} (l : list (list A)) (i : nat) x : l !! i = Some x →
  concat l = concat (take i l) ++ x ++ concat (drop (S i) l).
Proof.
  intros Hx. rewrite <- (take_drop i l) at 1. rewrite concat_app. f_equal. by rewrite (drop_S l x i Hx).
Qed.

(** The reader cuts the body where the records meet. *)
Lemma record_text_sealed e content h i : encodes e content → 0 <= i < enc_recordCount e →
  hdr_headerBytes h = zlen (enc_header e) → hdr_chunkSize h = ENVELOPE_CHUNK_BYTES → hdr_recordCount h = enc_recordCount e →
  record_text (sealed_envelope e content) h i = sealed_record e content i.
Proof.
  intros He Hi Hh Hc Hr. unfold record_text, sealed_envelope. rewrite Hh, Hc, Hr. unfold ENVELOPE_TAG_BYTES.
  set (l := map (λ j, sealed_record e content (Z.of_nat j)) (seq 0 (Z.to_nat (enc_recordCount e)))).
  assert (l !! Z.to_nat i = Some (sealed_record e content i)) as Hl.
  { unfold l. rewrite list_lookup_fmap, lookup_seq_lt by lia. cbn. do 2 f_equal. lia. }
  assert (zlen (concat (take (Z.to_nat i) l)) = i * (ENVELOPE_CHUNK_BYTES + 16)) as Htake.
  { unfold l. rewrite firstn_map. rewrite take_seq, Nat.min_l by lia. rewrite zlen_concat_sealed by (done || lia).
    pose proof (record_in_range e content i He Hi). pose proof chunk_positive. rewrite Z2Nat.id by lia. lia. }
  rewrite slice_app_r by (pose proof chunk_positive; nia).
  rewrite (concat_split_at l (Z.to_nat i) _ Hl). rewrite slice_app_r by lia. rewrite Htake.
  replace (zlen (enc_header e) + i * (ENVELOPE_CHUNK_BYTES + 16) - zlen (enc_header e) - i * (ENVELOPE_CHUNK_BYTES + 16)) with 0 by lia.
  pose proof (zlen_sealed e content i He Hi) as Hz. destruct (Z.eqb_spec i (enc_recordCount e - 1)) as [Hlast|Hmid].
  - rewrite (drop_ge l) by (unfold l; rewrite length_map, length_seq; lia). cbn [List.concat]. rewrite app_nil_r.
    apply slice_full. rewrite !zlen_app, Htake. lia.
  - assert (zlen (sealed_record e content i) = ENVELOPE_CHUNK_BYTES + 16) as Hz'.
    { rewrite Hz. pose proof (record_in_range e content (i + 1) He ltac:(lia)). lia. }
    rewrite slice_app_l by lia. apply slice_full. lia.
Qed.

Lemma plaintext_bytes_ok e content : encodes e content → bytes_ok (enc_prefix e) → bytes_ok content → (∀ i, byte_ok (enc_padding e i)) →
  ∀ i, bytes_ok (record_plaintext e content i).
Proof.
  intros He Hp Hc Hpad i. apply bytes_ok_slice. unfold enc_plaintext, whole_plaintext. apply bytes_ok_app. split; [done|].
  apply bytes_ok_app. split; [done|]. unfold padding_bytes. apply Forall_map, Forall_true. intros. apply Hpad.
Qed.

Lemma full_plaintexts e content n i : encodes e content → Z.of_nat (i + n) <= enc_recordCount e →
  full_records ENVELOPE_CHUNK_BYTES (map (λ j, record_plaintext e content (Z.of_nat j)) (seq i n)).
Proof.
  intros He. revert i. induction n as [|n IH]; intros i Hn; [done|]. destruct n as [|n]; [done|].
  change (zlen (record_plaintext e content (Z.of_nat i)) = ENVELOPE_CHUNK_BYTES ∧
    full_records ENVELOPE_CHUNK_BYTES (map (λ j, record_plaintext e content (Z.of_nat j)) (seq (S i) (S n)))).
  split; [|apply IH; lia].
  unfold record_plaintext. pose proof (record_in_range e content (Z.of_nat i + 1) He ltac:(lia)).
  rewrite (record_slice_length e content) by (done || (pose proof chunk_positive; lia)). lia.
Qed.

Lemma recover_known_metadata chunkSize T m pts : ∀ counter parts,
  ∃ parts', recover chunkSize T counter (mkDecryptState (Some m) parts) pts = Ok (mkDecryptState (Some m) parts').
Proof.
  induction pts as [|pt pts IH]; intros counter parts; [by eexists|].
  cbn [recover]. unfold take_record, record_metadata. cbn [dec_metadata rbind dec_parts]. apply IH.
Qed.

(** ** What the encoder is *)

Lemma assertSourceSize_ok size u : assertSourceSize size = Ok u → 0 <= size <= MAX_PROTOTYPE_FILE_BYTES.
Proof. unfold assertSourceSize. intros Ha. inv_ok. bool_prop. lia. Qed.

Definition encoder_key (key : option jstr) (r : EnvelopeEntropy) : res bytes :=
  match key with Some k => parseInputKey k | None => Ok (inputKey r) end.

Lemma parseInputKey_ok v k : parseInputKey v = Ok k → v = RECOVERY_KEY_PREFIX ++ base64UrlEncode k ∧ zlen k = 32.
Proof.
  unfold parseInputKey. intros Hp. inv_ok. match goal with Hs : startsWith _ _ = true |- _ => apply startsWith_spec in Hs as [t ->] end.
  rewrite drop_app_length in Hp. apply base64UrlDecode_sound in Hp as [<- ?]. done.
Qed.

Lemma create_ok content name type key signal r e : jstr_ok name → jstr_ok type →
  createEnvelopeEncoder (blob_source content) name type key signal r = Ok e →
  ∃ rawKey, encoder_key key r = Ok rawKey ∧ zlen content <= MAX_PROTOTYPE_FILE_BYTES ∧
  metadata_ok (enc_metadata e) ∧ meta_size (enc_metadata e) = zlen content ∧
  meta_name (enc_metadata e) = sanitiseFileName name ∧
  enc_prefix e = u32 (zlen (utf8_encode (metadata_json (enc_metadata e)))) ++ utf8_encode (metadata_json (enc_metadata e)) ∧
  zlen (utf8_encode (metadata_json (enc_metadata e))) <= MAX_ENVELOPE_METADATA_BYTES ∧ bytes_ok (enc_prefix e) ∧
  enc_plaintextLength e = paddedPlaintextLength (zlen (enc_prefix e) + zlen content) ∧
  enc_recordCount e = ceil_div (enc_plaintextLength e) ENVELOPE_CHUNK_BYTES ∧
  1 <= enc_recordCount e <= MAX_ENVELOPE_RECORDS ∧
  enc_noncePrefix e = noncePrefix r ∧
  enc_header e = ENVELOPE_MAGIC_V2 ++ u32 ENVELOPE_CHUNK_BYTES ++ u32 (enc_recordCount e) ++ noncePrefix r ++ salt r ∧
  enc_key e = hkdf rawKey (salt r) HKDF_INFO_V2 ∧ enc_inputKey e = RECOVERY_KEY_PREFIX ++ base64UrlEncode rawKey ∧
  enc_padding e = padding r ∧ enc_source e = blob_source content ∧ enc_signal e = signal.
Proof.
  intros Hn Ht Hc. unfold createEnvelopeEncoder in Hc. cbn [source_size blob_source] in Hc. inv_ok.
  match goal with Hs : assertSourceSize _ = _ |- _ => apply assertSourceSize_ok in Hs as Hsize end.
  match goal with Hf : frameMetadata _ _ _ = Ok ?p |- _ => destruct p as [prefix m]; rename Hf into Hframe end.
  destruct (frameMetadata_ok _ _ _ _ _ Hframe Hn Ht ltac:(lia)) as (Hm & Hms & Hmn & Hp & Hl & Hpb).
  match goal with Hk : match key with _ => _ end = Ok ?k |- _ => rename k into supplied; rename Hk into Hkey end.
  exists (match supplied with Some b => b | None => inputKey r end).
  cbn [enc_metadata enc_prefix enc_plaintextLength enc_recordCount enc_noncePrefix enc_header enc_key enc_inputKey enc_padding enc_source enc_signal fst snd] in *.
  assert (1 <= ceil_div (paddedPlaintextLength (zlen prefix + zlen content)) ENVELOPE_CHUNK_BYTES <= MAX_ENVELOPE_RECORDS) as Hcount.
  { apply record_count_bound. rewrite Hp, zlen_app, zlen_u32. pose proof (zlen_nonneg (utf8_encode (metadata_json m))). lia. }
  split; [destruct key; cbn [encoder_key]; inv_ok; done|].
  split; [lia|]. split; [exact Hm|]. split; [exact Hms|]. split; [exact Hmn|]. split; [exact Hp|]. split; [exact Hl|]. split; [exact Hpb|].
  split; [reflexivity|]. split; [reflexivity|]. split; [exact Hcount|]. repeat split.
Qed.

Lemma create_encodes content name type key signal r e : jstr_ok name → jstr_ok type → (∀ k, signal k = false) →
  createEnvelopeEncoder (blob_source content) name type key signal r = Ok e → encodes e content.
Proof.
  intros Hn Ht Hs Hc. destruct (create_ok _ _ _ _ _ _ _ Hn Ht Hc) as (rawKey & _ & _ & _ & _ & _ & _ & _ & _ & Hpl & Hrc & _ & _ & _ & _ & _ & _ & Hsrc & Hsig).
  split_and!; [done|by rewrite Hsig| |done]. rewrite Hpl. apply padded_bounds.
  pose proof (zlen_nonneg (enc_prefix e)). pose proof (zlen_nonneg content). lia.
Qed.

Lemma encoder_key_ok key r rawKey : entropy_ok r → encoder_key key r = Ok rawKey → zlen rawKey = 32.
Proof. intros (_ & _ & _ & _ & _ & Hk & _) He. destruct key; cbn in He; [by apply parseInputKey_ok in He as [_ ?]|by injection He as <-]. Qed.

Lemma zlen_sealed_envelope e content : encodes e content → zlen (enc_header e) = 56 → 0 < enc_recordCount e →
  zlen (sealed_envelope e content) = enc_envelopeBytes e.
Proof.
  intros He Hh Hr. unfold sealed_envelope, enc_envelopeBytes. rewrite zlen_app, Hh, zlen_concat_sealed by (done || lia).
  destruct He as (_ & _ & _ & Hc). pose proof (ceil_div_spec (enc_plaintextLength e) ENVELOPE_CHUNK_BYTES chunk_positive).
  unfold ENVELOPE_HEADER_BYTES_V2, ENVELOPE_TAG_BYTES. lia.
Qed.

(** The reader's loop on the encoder's plaintexts. *)
Lemma recover_sealed e content : encodes e content → 0 < enc_recordCount e → metadata_ok (enc_metadata e) →
  meta_size (enc_metadata e) = zlen content → 0 < zlen content →
  enc_prefix e = u32 (zlen (utf8_encode (metadata_json (enc_metadata e)))) ++ utf8_encode (metadata_json (enc_metadata e)) →
  zlen (utf8_encode (metadata_json (enc_metadata e))) <= MAX_ENVELOPE_METADATA_BYTES →
  enc_plaintextLength e = paddedPlaintextLength (zlen (enc_prefix e) + zlen content) →
  ∃ parts, concat parts = content ∧
    recover ENVELOPE_CHUNK_BYTES (enc_plaintextLength e) 0 (mkDecryptState None []) (plaintexts e content) =
    Ok (mkDecryptState (Some (enc_metadata e, zlen (enc_prefix e))) parts).
Proof.
  intros He Hcount Hm Hms Hpos Hp Hml Hpl.
  destruct (recover_known_metadata ENVELOPE_CHUNK_BYTES (enc_plaintextLength e) (enc_metadata e, zlen (enc_prefix e)) (plaintexts e content) 0 []) as [parts Hparts].
  pose proof (full_plaintexts e content (Z.to_nat (enc_recordCount e)) 0 He ltac:(lia)) as Hfull. fold (plaintexts e content) in Hfull.
  destruct (recover_content ENVELOPE_CHUNK_BYTES (enc_plaintextLength e) (enc_metadata e, zlen (enc_prefix e)) (plaintexts e content)
    chunk_positive (zlen_nonneg _) Hfull 0 [] _ (Z.le_refl 0) Hparts) as [_ Hcontent].
  cbn [dec_parts fst snd List.concat app] in Hcontent. rewrite Z.mul_0_l, !Z.sub_0_r, Z.max_r in Hcontent by apply zlen_nonneg.
  rewrite concat_plaintexts, Hms in Hcontent by done. unfold enc_plaintext, whole_plaintext in Hcontent.
  rewrite slice_app_r, Z.sub_diag, slice_app_l, slice_full in Hcontent by lia.
  exists parts. split; [done|].
  unfold plaintexts in *. destruct (Z.to_nat (enc_recordCount e)) as [|n] eqn:En; [lia|]. cbn [seq map] in *.
  apply (recover_spec ENVELOPE_CHUNK_BYTES); [apply chunk_positive|done|].
  eexists (enc_metadata e, zlen (enc_prefix e)), parts. cbn [fst snd]. split_and!; [|by rewrite Hms, Hpl|done|done].
  unfold record_plaintext, enc_plaintext. cbn [Z.of_nat]. rewrite Z.mul_0_l, Z.add_0_l, Z.mul_1_l.
  apply parse_first_record; try done; [lia|apply He|].
  rewrite Hpl. apply padded_bounds. pose proof (zlen_nonneg (enc_prefix e)). lia.
Qed.

Lemma assertPrototypeTransferSize_ok size : 0 < size <= MAX_PROTOTYPE_TRANSFER_BYTES → assertPrototypeTransferSize size = Ok tt.
Proof.
  unfold assertPrototypeTransferSize, is_safe_integer, MAX_PROTOTYPE_TRANSFER_BYTES, MAX_PROTOTYPE_FILE_BYTES, max_safe_integer. intros.
  rewrite (proj2 (Z.leb_le _ _)), (proj2 (Z.leb_gt _ _)), (proj2 (Z.ltb_ge _ _)) by lia. done.
Qed.

(** Every envelope is within the transfer limit. *)
Lemma envelope_size_bound T count : ENVELOPE_CHUNK_BYTES * (count - 1) < T <= ENVELOPE_CHUNK_BYTES * count → 1 <= count <= MAX_ENVELOPE_RECORDS →
  0 < 56 + T + count * 16 <= MAX_PROTOTYPE_TRANSFER_BYTES.
Proof.
  rewrite MAX_ENVELOPE_RECORDS_257. unfold MAX_PROTOTYPE_TRANSFER_BYTES, MAX_PROTOTYPE_FILE_BYTES, ENVELOPE_CHUNK_BYTES. lia.
Qed.

(** Opening a sealed envelope with the key it was sealed under. *)
Lemma decrypt_sealed content name type key signal r e rawKey : jstr_ok name → jstr_ok type → bytes_ok content → entropy_ok r →
  (∀ k, signal k = false) → createEnvelopeEncoder (blob_source content) name type key signal r = Ok e → content ≠ [] →
  encoder_key key r = Ok rawKey → bytes_ok rawKey →
  decryptPrivacyEnvelope (sealed_envelope e content) (enc_inputKey e) (λ _, false) = Ok (mkRecovered (enc_metadata e) content).
Proof.
  intros Hn Ht Hcb Hr Hs Hc Hne Hk Hkb. pose proof (create_encodes _ _ _ _ _ _ _ Hn Ht Hs Hc) as He.
  destruct (create_ok _ _ _ _ _ _ _ Hn Ht Hc) as (rk & Hk' & Hsz & Hm & Hms & Hmn & Hp & Hml & Hpb & Hpl & Hrc & Hcount & Hnp & Hh & Hkey & Hik & Hpad & Hsrc & Hsig).
  assert (rk = rawKey) as -> by congruence.
  pose proof Hr as (Hnb & Hn8 & Hsb & Hs32 & _ & _ & Hpadb). pose proof (encoder_key_ok _ _ _ Hr Hk) as Hk32.
  assert (zlen (enc_header e) = 56) as Hh56 by (rewrite Hh, !zlen_app, Hn8, Hs32; done).
  pose proof (zlen_sealed_envelope e content He Hh56 ltac:(lia)) as Hlen. unfold enc_envelopeBytes in Hlen.
  assert (0 < zlen content) as Hpos by (destruct content; [done|rewrite zlen_cons; pose proof (zlen_nonneg content); lia]).
  pose proof (ceil_div_spec (enc_plaintextLength e) ENVELOPE_CHUNK_BYTES chunk_positive) as Hcd. rewrite <- Hrc in Hcd.
  unfold decryptPrivacyEnvelope, assertActive. cbn [negb guard rbind].
  rewrite assertPrototypeTransferSize_ok by (rewrite Hlen; by apply envelope_size_bound).
  cbn [rbind]. rewrite Hik. assert (startsWith (RECOVERY_KEY_PREFIX ++ base64UrlEncode rawKey) RECOVERY_KEY_PREFIX = true) as ->
    by (apply startsWith_spec; by eexists). cbn [guard rbind].
  destruct (parse_header_v2 (enc_recordCount e) (noncePrefix r) (salt r)
    (concat (map (λ j, sealed_record e content (Z.of_nat j)) (seq 0 (Z.to_nat (enc_recordCount e))))) (λ _, false) 1 (λ _, eq_refl) Hn8 Hs32 Hcount) as [_ Hph].
  { rewrite zlen_concat_sealed by (done || lia). rewrite Z2Nat.id by lia. unfold ENVELOPE_TAG_BYTES. lia. }
  rewrite <- Hh in Hph. fold (sealed_envelope e content) in Hph. rewrite Hph. cbn [rbind].
  rewrite drop_app_length, base64UrlDecode_encode by done. cbn [rbind hdr_salt hdr_headerBytes hdr_recordCount].
  set (h := mkHeader _ _ _ _ _ _). rewrite <- Hkey.
  assert (zlen (sealed_envelope e content) - 56 - enc_recordCount e * ENVELOPE_TAG_BYTES = enc_plaintextLength e) as ->
    by (rewrite Hlen; unfold ENVELOPE_HEADER_BYTES_V2; lia).
  assert (openings (sealed_envelope e content) h (enc_key e) 0 (plaintexts e content)) as Hopen.
  { intros i pt Hi. apply list_lookup_fmap_Some in Hi as (j & -> & Hj). apply lookup_seq in Hj as [-> Hj]. cbn [plus] in *.
    unfold open_record. rewrite (record_text_sealed e content) by (done || lia). unfold sealed_record. cbn [hdr_noncePrefix hdr_header h].
    rewrite Hnp. rewrite Z.add_0_l. apply open_seal, plaintext_bytes_ok; try done. by rewrite Hpad. }
  assert (length (plaintexts e content) = Z.to_nat (enc_recordCount e)) as Hpn by (unfold plaintexts; by rewrite length_map, length_seq).
  rewrite <- Hpn, (recover_decrypt_records _ _ _ _ _ _ (λ _, eq_refl)) by done.
  destruct (recover_sealed e content He ltac:(lia) Hm Hms Hpos Hp Hml Hpl) as (parts & Hcontent & Hrec).
  change (hdr_chunkSize h) with ENVELOPE_CHUNK_BYTES. rewrite Hrec.
  cbn [rbind dec_metadata dec_parts fst snd]. rewrite Hcontent, Hms, Z.eqb_refl. done.
Qed.

(** ** What the reader accepts *)

Definition header_key (h : EnvelopeHeader) (rawKey : bytes) : bytes :=
  match hdr_salt h with Some salt => hkdf rawKey salt HKDF_INFO_V2 | None => rawKey end.

(** The envelope made of a header and opened records. *)
Definition envelope_of (h : EnvelopeHeader) (key : bytes) (pts : list bytes) : bytes :=
  hdr_header h ++ concat (imap (λ i pt, gcm_seal key (makeNonce (hdr_noncePrefix h) (Z.of_nat i))
    (makeAdditionalData (hdr_header h) (Z.of_nat i)) pt) pts).

Definition header_ok (h : EnvelopeHeader) (file : bytes) : Prop :=
  hdr_header h = slice 0 (hdr_headerBytes h) file ∧ zlen (hdr_header h) = hdr_headerBytes h ∧
  hdr_chunkSize h = ENVELOPE_CHUNK_BYTES ∧ 1 <= hdr_recordCount h <= MAX_ENVELOPE_RECORDS ∧
  hdr_headerBytes h + (hdr_recordCount h - 1) * (ENVELOPE_CHUNK_BYTES + 16) + 17 <= zlen file
    <= hdr_headerBytes h + hdr_recordCount h * (ENVELOPE_CHUNK_BYTES + 16) ∧
  (slice 0 8 file = ENVELOPE_MAGIC_V2 ∧ hdr_headerBytes h = 56 ∧ hdr_salt h = Some (slice 24 56 (hdr_header h)) ∨
   (slice 0 8 file = ENVELOPE_MAGIC ∨ slice 0 8 file = ENVELOPE_MAGIC_LEGACY) ∧ hdr_headerBytes h = 24 ∧ hdr_salt h = None).

Lemma parseEnvelopeHeader_ok file signal k h : parseEnvelopeHeader file signal k = Ok h → header_ok h file.
Proof.
  unfold parseEnvelopeHeader, ENVELOPE_TAG_BYTES. intros Hp. inv_ok. bool_prop. unfold header_ok.
  cbn [hdr_header hdr_headerBytes hdr_chunkSize hdr_recordCount hdr_salt].
  match goal with Hc : getU32 _ 8 = ENVELOPE_CHUNK_BYTES |- _ => rewrite Hc in * end.
  destruct (eqb (slice 0 8 file) ENVELOPE_MAGIC_V2) eqn:E2.
  - apply eqb_eq in E2. split_and!; try done; try lia. left. done.
  - split_and!; try done; try lia. right. split; [|done].
    match goal with Ho : _ || _ = true |- _ => idtac | Ho : _ && _ = false |- _ => rename Ho into Hmag end.
    destruct (eqb (slice 0 8 file) ENVELOPE_MAGIC) eqn:Emag1; [left; by apply eqb_eq|].
    destruct (eqb (slice 0 8 file) ENVELOPE_MAGIC_LEGACY) eqn:Emag0; [right; by apply eqb_eq|]. done.
Qed.

Lemma zlen_concat_seal key (f g : nat → bytes) pts :
  zlen (concat (imap (λ i pt, gcm_seal key (f i) (g i) pt) pts)) = zlen (concat pts) + 16 * zlen pts.
Proof.
  revert f g. induction pts as [|pt pts IH]; intros f g; [done|].
  cbn [imap List.concat]. rewrite !zlen_app, zlen_cons, seal_length. pose proof (IH (f ∘ S) (g ∘ S)) as E.
  unfold compose in *. lia.
Qed.

Section Accepted.
Context (file : bytes) (h : EnvelopeHeader) (key : bytes).
Hypothesis (Hh : header_ok h file).

Lemma record_text_length i : 0 <= i < hdr_recordCount h →
  (i < hdr_recordCount h - 1 → zlen (record_text file h i) = ENVELOPE_CHUNK_BYTES + 16) ∧
  17 <= zlen (record_text file h i) <= ENVELOPE_CHUNK_BYTES + 16.
Proof.
  destruct Hh as (_ & Hhl & Hcs & Hc & Hsz & _). intros Hi. unfold record_text, ENVELOPE_TAG_BYTES. rewrite Hcs.
  pose proof chunk_positive. pose proof (zlen_nonneg (hdr_header h)).
  destruct (Z.eqb_spec i (hdr_recordCount h - 1)) as [->|].
  - rewrite zlen_slice by nia. nia.
  - rewrite zlen_slice by nia. nia.
Qed.

(** The header and the records are the file. *)
Lemma record_texts_concat n : (Z.of_nat n <= hdr_recordCount h) →
  hdr_header h ++ concat (map (λ i, record_text file h (Z.of_nat i)) (seq 0 n)) =
  slice 0 (if Z.of_nat n =? hdr_recordCount h then zlen file else hdr_headerBytes h + Z.of_nat n * (ENVELOPE_CHUNK_BYTES + 16)) file.
Proof.
  destruct Hh as (Hhd & Hhl & Hcs & Hc & Hsz & _). pose proof chunk_positive. pose proof (zlen_nonneg (hdr_header h)).
  induction n as [|n IH]; intros Hn.
  - cbn [seq map List.concat]. rewrite app_nil_r, (proj2 (Z.eqb_neq _ _)) by lia.
    change (Z.of_nat 0) with 0. by rewrite Z.mul_0_l, Z.add_0_r.
  - rewrite seq_S, map_app, concat_app, app_assoc, IH by lia. rewrite (proj2 (Z.eqb_neq (Z.of_nat n) _)) by lia.
    cbn [map List.concat plus]. rewrite app_nil_r. unfold record_text, ENVELOPE_TAG_BYTES. rewrite Hcs.
    destruct (Z.eqb_spec (Z.of_nat n) (hdr_recordCount h - 1)) as [En|En].
    + rewrite (proj2 (Z.eqb_eq (Z.of_nat (S n)) _)) by lia. apply slice_app; nia.
    + rewrite (proj2 (Z.eqb_neq (Z.of_nat (S n)) _)) by lia. rewrite slice_app by nia. f_equal. lia.
Qed.

Lemma openings_envelope pts : openings file h key 0 pts → length pts = Z.to_nat (hdr_recordCount h) →
  file = envelope_of h key pts ∧ full_records ENVELOPE_CHUNK_BYTES pts ∧ Forall bytes_ok pts ∧
  zlen (concat pts) = zlen file - hdr_headerBytes h - hdr_recordCount h * ENVELOPE_TAG_BYTES.
Proof.
  intros Ho Hl. pose proof Hh as (Hhd & Hhl & Hcs & Hc & Hsz & _).
  assert (∀ (i : nat) pt, pts !! i = Some pt →
    record_text file h (Z.of_nat i) = gcm_seal key (makeNonce (hdr_noncePrefix h) (Z.of_nat i)) (makeAdditionalData (hdr_header h) (Z.of_nat i)) pt ∧
    bytes_ok pt) as Hi.
  { intros i pt Hpt. specialize (Ho i pt Hpt). rewrite Z.add_0_l in Ho. by apply open_sound in Ho. }
  assert (imap (λ i pt, gcm_seal key (makeNonce (hdr_noncePrefix h) (Z.of_nat i)) (makeAdditionalData (hdr_header h) (Z.of_nat i)) pt) pts
    = map (λ i, record_text file h (Z.of_nat i)) (seq 0 (Z.to_nat (hdr_recordCount h)))) as Eimap.
  { apply list_eq_same_length with (n := Z.to_nat (hdr_recordCount h)); [by rewrite length_map, length_seq|by rewrite length_imap|].
    intros i x y Hil Hx Hy. rewrite list_lookup_imap in Hx. apply fmap_Some in Hx as (pt & Hpt & ->).
    rewrite list_lookup_fmap, lookup_seq_lt in Hy by done. injection Hy as <-. symmetry. by apply Hi. }
  pose proof (record_texts_concat (Z.to_nat (hdr_recordCount h)) ltac:(lia)) as Ef.
  rewrite (proj2 (Z.eqb_eq _ _)), slice_full in Ef by lia.
  assert (file = envelope_of h key pts) as Efile by (unfold envelope_of; by rewrite Eimap).
  split_and!; [done| | |].
  - assert (∀ (i : nat) pt, pts !! i = Some pt → (Z.of_nat i < hdr_recordCount h - 1) → zlen pt = ENVELOPE_CHUNK_BYTES) as Hfull.
    { intros i pt Hpt Hlt. destruct (record_text_length (Z.of_nat i) ltac:(lia)) as [Hlen _]. specialize (Hlen Hlt).
      rewrite (proj1 (Hi i pt Hpt)), seal_length in Hlen. lia. }
    assert (hdr_recordCount h = zlen pts) as Hzl by (unfold zlen; lia). rewrite Hzl in Hfull. clear -Hfull.
    induction pts as [|pt pts IH]; [done|]. destruct pts as [|pt' pts]; [done|]. split.
    + apply (Hfull 0%nat pt); [done|]. rewrite !zlen_cons. pose proof (zlen_nonneg pts). lia.
    + apply IH. intros i q Hq Hlt. apply (Hfull (S i) q); [done|]. rewrite zlen_cons. lia.
  - apply Forall_lookup. intros i pt Hpt. by apply (Hi i pt Hpt).
  - assert (zlen file = hdr_headerBytes h + zlen (concat pts) + 16 * zlen pts) as Hzf.
    { rewrite Efile at 1. unfold envelope_of. rewrite zlen_app, Hhl.
      rewrite (zlen_concat_seal key (λ i, makeNonce (hdr_noncePrefix h) (Z.of_nat i)) (λ i, makeAdditionalData (hdr_header h) (Z.of_nat i))). lia. }
    assert (zlen pts = hdr_recordCount h) as Hzl by (unfold zlen; lia). unfold ENVELOPE_TAG_BYTES. lia.
Qed.
End Accepted.

Lemma concat_take_head {A} (x : list A) l : concat (x :: l) = x ++ concat l.
Proof. done. Qed.

(** The metadata frame at the start of the first record. *)
Lemma parseEnvelopeMetadata_ok plaintext m p : bytes_ok plaintext → parseEnvelopeMetadata plaintext = Ok (m, p) →
  ∃ raw t, plaintext = u32 (zlen raw) ++ raw ++ t ∧ p = 4 + zlen raw ∧
    utf8_decode false raw = Some (metadata_json m) ∧ sanitiseFileName (meta_name m) = meta_name m ∧
    0 < meta_size m <= MAX_PROTOTYPE_FILE_BYTES.
Proof.
  unfold parseEnvelopeMetadata. intros Hb Hp. inv_ok.
  destruct (utf8_decode _ _) as [text|] eqn:Eu; [|done]. destruct (parse text) as [v|] eqn:Ev; [|done].
  destruct v as [| | | | |candidate]; try done.
  destruct (get_member (lit "name") candidate) as [[| | |name| |]|]; try done.
  destruct (get_member (lit "size") candidate) as [[| |n| | |]|]; try done.
  destruct (get_member (lit "type") candidate) as [[| | |type| |]|]; try done. inv_ok.
  destruct n as [z| | |]; try done. inv_ok. bool_prop.
  match goal with Hx : (_, _) = (m, p) |- _ => injection Hx as <- <- end.
  repeat match goal with Hx : eqb _ _ = true |- _ => apply eqb_eq in Hx end. subst text.
  match goal with Hz : assertPrototypeFileSize _ = Ok _ |- _ => unfold assertPrototypeFileSize in Hz; inv_ok; bool_prop end.
  set (L := getU32 plaintext 0) in *. cbn [meta_name meta_size].
  assert (zlen (slice 4 (4 + L) plaintext) = L) as HL by (rewrite zlen_slice; lia).
  exists (slice 4 (4 + L) plaintext), (slice (4 + L) (zlen plaintext) plaintext). rewrite HL.
  split_and!; try done; try lia.
  assert (u32 L = slice 0 4 plaintext) as ->.
  { destruct plaintext as [|b0 [|b1 [|b2 [|b3 rest]]]]; try (unfold zlen in *; simpl in *; lia).
    unfold bytes_ok in Hb. repeat (apply Forall_cons in Hb as [? Hb]). unfold L. by rewrite getU32_4. }
  rewrite app_assoc, !slice_app by lia. symmetry. by apply slice_full.
Qed.

(** ** Encrypting a whole file *)

Lemma assertPrototypeFileSize_ok size : 0 < size <= MAX_PROTOTYPE_FILE_BYTES ↔ assertPrototypeFileSize size = Ok tt.
Proof.
  unfold assertPrototypeFileSize, is_safe_integer, MAX_PROTOTYPE_FILE_BYTES, max_safe_integer. split.
  - intros. rewrite (proj2 (Z.leb_le _ _)), (proj2 (Z.leb_gt _ _)), (proj2 (Z.ltb_ge _ _)) by lia. done.
  - intros Ha. inv_ok. bool_prop. lia.
Qed.

Lemma encrypt_inv content name type signal r env : jstr_ok name → jstr_ok type → entropy_ok r → (∀ k, signal k = false) →
  encryptPrivacyEnvelope (blob_source content) name type signal r = Ok env →
  ∃ e, createEnvelopeEncoder (blob_source content) name type None (λ k, signal (S k)) r = Ok e ∧
    0 < zlen content ∧ env = mkEnvelope (sealed_envelope e content) (enc_inputKey e) (enc_metadata e).
Proof.
  intros Hn Ht Hr Hs He. unfold encryptPrivacyEnvelope in He. cbn [source_size blob_source] in He. inv_ok.
  match goal with Hc : createEnvelopeEncoder _ _ _ _ _ _ = Ok ?e |- _ => rename e into enc; rename Hc into Hcreate end.
  match goal with Ha : assertPrototypeFileSize _ = Ok ?u |- _ => destruct u; apply assertPrototypeFileSize_ok in Ha end.
  exists enc. split; [done|]. split; [lia|].
  pose proof (create_encodes _ _ _ _ _ _ _ Hn Ht (λ k, Hs (S k)) Hcreate) as Henc.
  destruct (create_ok _ _ _ _ _ _ _ Hn Ht Hcreate) as (_ & _ & _ & _ & _ & _ & _ & _ & _ & _ & _ & Hcount & _).
  destruct (all_records_start enc content Henc ltac:(lia)) as (s' & Hall & _).
  match goal with Hx : all_records _ _ _ _ = Ok ?x |- _ => assert (x = (map (λ j, sealed_record enc content (Z.of_nat j)) (seq 0 (Z.to_nat (enc_recordCount enc))), s')) as -> by congruence end.
  reflexivity.
Qed.

Lemma encrypt_ok content name type r framed : jstr_ok name → jstr_ok type → entropy_ok r →
  0 < zlen content <= MAX_PROTOTYPE_FILE_BYTES → frameMetadata name (zlen content) type = Ok framed →
  ∃ env, encryptPrivacyEnvelope (blob_source content) name type (λ _, false) r = Ok env ∧
    envelopeBytes name type (zlen content) = Ok (zlen (env_file env)).
Proof.
  intros Hn Ht Hr Hl Hf.
  assert (assertSourceSize (zlen content) = Ok tt) as Hss.
  { unfold assertSourceSize, is_safe_integer. unfold MAX_PROTOTYPE_FILE_BYTES, max_safe_integer in *.
    rewrite (proj2 (Z.leb_le _ _)), (proj2 (Z.ltb_ge _ 0)), (proj2 (Z.ltb_ge _ _)) by lia. done. }
  destruct (createEnvelopeEncoder (blob_source content) name type None (λ _, false) r) as [e|] eqn:Ec.
  2:{ unfold createEnvelopeEncoder, assertActive in Ec. cbn [source_size blob_source negb guard rbind] in Ec.
      rewrite Hss, Hf in Ec. discriminate Ec. }
  pose proof (create_encodes _ _ _ _ _ _ _ Hn Ht (λ _, eq_refl) Ec) as He.
  destruct (create_ok _ _ _ _ _ _ _ Hn Ht Ec) as (rk & _ & _ & _ & _ & _ & _ & _ & _ & Hpl & Hrc & Hcount & _ & Hh & _).
  destruct (all_records_start e content He ltac:(lia)) as (s' & Hall & _).
  pose proof Hr as (_ & Hn8 & _ & Hs32 & _).
  assert (zlen (enc_header e) = 56) as Hh56 by (rewrite Hh, !zlen_app, Hn8, Hs32; done).
  pose proof (zlen_sealed_envelope e content He Hh56 ltac:(lia)) as Hlen.
  pose proof (ceil_div_spec (enc_plaintextLength e) ENVELOPE_CHUNK_BYTES chunk_positive) as Hcd. rewrite <- Hrc in Hcd.
  exists (mkEnvelope (sealed_envelope e content) (enc_inputKey e) (enc_metadata e)). split.
  - unfold encryptPrivacyEnvelope, assertActive. cbn [source_size blob_source negb guard rbind].
    rewrite (proj1 (assertPrototypeFileSize_ok _)) by done. cbn [rbind]. rewrite Ec. cbn [rbind]. rewrite Hall. cbn [rbind fst].
    fold (sealed_envelope e content). rewrite assertPrototypeTransferSize_ok; [done|].
    rewrite Hlen. unfold enc_envelopeBytes. by apply envelope_size_bound.
  - unfold envelopeBytes. rewrite Hss, Hf. cbn [rbind env_file]. rewrite Hlen. f_equal.
    assert (enc_prefix e = framed.1) as <-.
    { unfold createEnvelopeEncoder, assertActive in Ec. cbn [source_size blob_source negb guard rbind] in Ec.
      rewrite Hss, Hf in Ec. cbn [rbind] in Ec. by injection Ec as <-. }
    unfold envelope_length, enc_envelopeBytes. by rewrite Hrc, Hpl.
Qed.
End Seal.

(** ** The properties of the code *)

(** C23: opening what was encrypted, with the recovery key it came with, gives
    back the file byte for byte, under the name the sanitiser leaves and the
    normalised media type. *)
Theorem decrypt_encrypt `{UnicodeLaws} `{CipherLaws} content name type r env :
  jstr_ok name → jstr_ok type → bytes_ok content → entropy_ok r →
  encryptPrivacyEnvelope (blob_source content) name type (λ _, false) r = Ok env →
  decryptPrivacyEnvelope (env_file env) (env_recoveryKey env) (λ _, false) = Ok (mkRecovered (env_metadata env) content) ∧
  meta_name (env_metadata env) = sanitiseFileName name ∧ meta_size (env_metadata env) = zlen content.
Proof.
  intros Hn Ht Hc Hr He. destruct (encrypt_inv _ _ _ _ _ _ Hn Ht Hr (λ _, eq_refl) He) as (e & Hcr & Hpos & ->).
  destruct (create_ok _ _ _ _ _ _ _ Hn Ht Hcr) as (rk & Hk & _ & _ & Hms & Hmn & _).
  cbn [env_file env_recoveryKey env_metadata]. split; [|done].
  assert (content ≠ []) as Hne by (intros ->; done).
  pose proof Hr as (_ & _ & _ & _ & Hkb & _). cbn [encoder_key] in Hk. injection Hk as Hk.
  apply (decrypt_sealed content name type None (λ _, false) r e rk); try done; cbn [encoder_key]; by rewrite <- Hk.
Qed.

(** C32: the reader accepts nothing but a sealed envelope. If a file opens, then
    it is exactly a valid header followed by the sealing, under the given key, of
    consecutive records, every record bound to that header and to its own index;
    the plaintext is the framed metadata, the recovered file and padding to the
    bucket; so no byte of an accepted file is unauthenticated. *)
Theorem decrypt_accepts_only_sealed `{UnicodeLaws} `{CipherLaws} file recoveryKey signal f :
  decryptPrivacyEnvelope file recoveryKey signal = Ok f →
  ∃ rawKey h pts raw pad, parseInputKey recoveryKey = Ok rawKey ∧ header_ok h file ∧
    file = envelope_of h (header_key h rawKey) pts ∧ zlen pts = hdr_recordCount h ∧
    concat pts = u32 (zlen raw) ++ raw ++ rec_content f ++ pad ∧
    utf8_decode false raw = Some (metadata_json (rec_metadata f)) ∧
    meta_size (rec_metadata f) = zlen (rec_content f) ∧
    sanitiseFileName (meta_name (rec_metadata f)) = meta_name (rec_metadata f) ∧
    zlen (concat pts) = paddedPlaintextLength (4 + zlen raw + zlen (rec_content f)).
Proof.
  unfold decryptPrivacyEnvelope. intros Hd. inv_ok.
  match goal with Hp : parseEnvelopeHeader _ _ _ = Ok ?h |- _ => pose proof (parseEnvelopeHeader_ok _ _ _ _ Hp) as Hh; rename h into hd end.
  match goal with Hk : base64UrlDecode _ = Ok ?k |- _ => rename k into rawKey; rename Hk into Hkey end.
  match goal with Hr : decrypt_records _ _ _ _ _ _ _ _ _ = Ok ?s |- _ => rename s into st; apply decrypt_records_recover in Hr as (pts & Hl & Ho & Hrec) end.
  destruct (dec_metadata st) as [[m p]|] eqn:Em; [|done]. inv_ok. bool_prop. cbn [rec_metadata rec_content fst] in *.
  fold (header_key hd rawKey) in Ho. destruct (openings_envelope file hd _ Hh pts Ho Hl) as (Hfile & Hfull & Hpb & Hlen).
  assert (hdr_chunkSize hd = ENVELOPE_CHUNK_BYTES) as Hcs by apply Hh. rewrite Hcs in Hrec.
  destruct pts as [|pt pts]; [destruct Hh as (_ & _ & _ & Hc & _); simpl in Hl; lia|].
  apply (recover_spec ENVELOPE_CHUNK_BYTES _ _ _ _ chunk_positive Hfull) in Hrec as ([m' p'] & parts & Hpm & Hpad & -> & Hrec).
  cbn [dec_metadata] in Em. injection Em as -> ->. cbn [fst snd] in *.
  destruct (parseEnvelopeMetadata_ok pt m p (Forall_inv Hpb) Hpm) as (raw & t & Ept & Hp & Hu & Hfix & Hsz).
  destruct (recover_content ENVELOPE_CHUNK_BYTES _ (m, p) _ chunk_positive ltac:(cbn [snd]; pose proof (zlen_nonneg raw); lia) Hfull 0 [] _ (Z.le_refl 0) Hrec) as [_ Hcontent].
  cbn [dec_parts fst snd List.concat app] in *. rewrite Z.mul_0_l, !Z.sub_0_r, Z.max_r in Hcontent by (pose proof (zlen_nonneg raw); lia).
  match goal with Hz : zlen (concat parts) = meta_size m |- _ => rename Hz into Hcl end.
  exists rawKey, hd, (pt :: pts), raw, (slice (p + meta_size m) (zlen (concat (pt :: pts))) (concat (pt :: pts))).
  split; [unfold parseInputKey; match goal with Hs : startsWith _ _ = true |- _ => by rewrite Hs end|].
  split; [exact Hh|]. split; [exact Hfile|]. split; [unfold zlen; destruct Hh as (_ & _ & _ & ? & _); lia|].
  split_and!; [|exact Hu|lia|exact Hfix|].
  - change (pt ++ concat pts) with (concat (pt :: pts)) in Hcontent.
    assert (concat (pt :: pts) = u32 (zlen raw) ++ raw ++ (t ++ concat pts)) as Efull by (cbn [List.concat]; by rewrite Ept, <- !app_assoc).
    rewrite Hcontent. generalize dependent (concat (pt :: pts)). intros full Hcontent Efull.
    pose proof (zlen_nonneg raw). pose proof (zlen_nonneg (t ++ concat pts)).
    assert (zlen full = p + zlen (t ++ concat pts)) as Hzl by (rewrite Efull, !zlen_app, zlen_u32; rewrite zlen_app in *; lia).
    assert (0 <= meta_size m ∧ p + meta_size m <= zlen full) as [Hms Hfit].
    { split; [lia|]. rewrite Hcontent, zlen_slice_min in Hcl by lia. lia. }
    rewrite slice_app by lia. rewrite Efull at 1. do 2 f_equal.
    rewrite Efull at 2. rewrite app_assoc, slice_app_r by (rewrite zlen_app, zlen_u32; lia). symmetry. rewrite (zlen_app (u32 _)), zlen_u32.
    replace (p - (4 + zlen raw)) with 0 by lia. apply slice_full. lia.
  - cbn [List.concat]. rewrite Hlen, <- Hpad. f_equal. lia.
Qed.

(** Encrypting never fails on a file within the limits, and the size the
    sender announces beforehand is exactly the size of the envelope. *)
Theorem encrypt_succeeds `{UnicodeLaws} `{CipherLaws} content name type r framed :
  jstr_ok name → jstr_ok type → entropy_ok r → 0 < zlen content <= MAX_PROTOTYPE_FILE_BYTES →
  frameMetadata name (zlen content) type = Ok framed →
  ∃ env, encryptPrivacyEnvelope (blob_source content) name type (λ _, false) r = Ok env ∧
    envelopeBytes name type (zlen content) = Ok (zlen (env_file env)) ∧
    zlen content + 56 <= zlen (env_file env) <= MAX_PROTOTYPE_TRANSFER_BYTES.
Proof.
  intros Hn Ht Hr Hl Hf. destruct (encrypt_ok content name type r framed Hn Ht Hr Hl Hf) as (env & He & Hb).
  exists env. split; [done|]. split; [done|].
  destruct (encrypt_inv _ _ _ _ _ _ Hn Ht Hr (λ _, eq_refl) He) as (e & Hc & _ & ->). cbn [env_file] in *.
  pose proof (create_encodes _ _ _ _ _ _ _ Hn Ht (λ _, eq_refl) Hc) as Henc.
  destruct (create_ok _ _ _ _ _ _ _ Hn Ht Hc) as (rk & _ & _ & _ & _ & _ & _ & _ & _ & Hpl & Hrc & Hcount & _ & Hh & _).
  pose proof Hr as (_ & Hn8 & _ & Hs32 & _).
  assert (zlen (enc_header e) = 56) as Hh56 by (rewrite Hh, !zlen_app, Hn8, Hs32; done).
  rewrite (zlen_sealed_envelope e content Henc Hh56 ltac:(lia)). unfold enc_envelopeBytes, ENVELOPE_HEADER_BYTES_V2, ENVELOPE_TAG_BYTES.
  pose proof (ceil_div_spec (enc_plaintextLength e) ENVELOPE_CHUNK_BYTES chunk_positive) as Hcd. rewrite <- Hrc in Hcd.
  split; [|by apply envelope_size_bound]. destruct Henc as (_ & _ & Ht' & _). pose proof (zlen_nonneg (enc_prefix e)). lia.
Qed.

(** No two records of an envelope share a nonce or additional data, and the
    nonce has the twelve bytes AES-GCM expects. *)
Theorem nonce_unique prefix header i j : zlen prefix = 8 →
  0 <= i < MAX_ENVELOPE_RECORDS → 0 <= j < MAX_ENVELOPE_RECORDS →
  zlen (makeNonce prefix i) = 12 ∧
  (makeNonce prefix i = makeNonce prefix j → i = j) ∧
  (makeAdditionalData header i = makeAdditionalData header j → i = j).
Proof.
  rewrite MAX_ENVELOPE_RECORDS_257. intros Hp Hi Hj.
  assert (∀ a : bytes, a ++ u32 i = a ++ u32 j → i = j) as Hinj by (intros a E; apply app_inv_head in E; apply u32_inj in E; lia).
  split_and!; [|apply Hinj|apply Hinj].
  unfold makeNonce, zlen in *. rewrite length_app, length_take, length_app, length_replicate. cbn [length u32]. lia.
Qed.

(** Padding hides the length: the padded length is at least the real one and
    at least 64 KiB, wastes less than half below a mebibyte and less than one
    mebibyte above, and takes only powers of two or whole mebibytes as values. *)
Theorem padding_buckets l : 0 <= l →
  let p := paddedPlaintextLength l in
  l <= p ∧ 65536 <= p ∧ (65536 < l <= 1048576 → p < 2 * l) ∧ (1048576 < l → p < l + 1048576) ∧
  ((∃ n, p = 2 ^ n ∧ 16 <= n <= 20) ∨ ∃ n, p = n * 1048576) ∧ paddedPlaintextLength p = p.
Proof.
  intros Hl p. pose proof (padded_bounds l Hl) as (H1 & H2 & H3 & H4).
  unfold p, paddedPlaintextLength, MIN_PADDING_BUCKET_BYTES, ENVELOPE_CHUNK_BYTES in *.
  change (64 * 1024) with 65536 in *. change (1024 * 1024) with 1048576 in *.
  destruct (Z.leb_spec l 65536).
  { split_and!; try lia; [|done]. left. exists 16. split; [done|lia]. }
  destruct (Z.leb_spec l 1048576).
  - pose proof (Z.log2_up_spec l ltac:(lia)) as [Hlo Hhi].
    assert (16 < Z.log2_up l) by (apply Z.log2_up_lt_pow2; lia).
    assert (Z.log2_up l <= 20) by (apply Z.log2_up_le_pow2; lia).
    assert (2 ^ Z.log2_up l = 2 * 2 ^ Z.pred (Z.log2_up l)) as Ep by (rewrite <- Z.pow_succ_r by lia; by rewrite Z.succ_pred).
    split_and!; try lia.
    + left. eexists. split; [done|lia].
    + rewrite (proj2 (Z.leb_gt _ 65536)) by lia.
      assert (2 ^ Z.log2_up l <= 2 ^ 20) by (apply Z.pow_le_mono_r; lia). change (2 ^ 20) with 1048576 in *.
      rewrite (proj2 (Z.leb_le _ 1048576)) by lia. by rewrite Z.log2_up_pow2 by lia.
  - pose proof (ceil_div_spec l 1048576 ltac:(lia)). split_and!; try lia.
    + right. by eexists.
    + rewrite (proj2 (Z.leb_gt _ 65536)), (proj2 (Z.leb_gt _ 1048576)) by lia. by rewrite ceil_div_mul.
Qed.

(** A recovery key made from 32 bytes parses back to them, and any text that
    parses is the canonical text of the key it gives. *)
Theorem input_key_roundtrip random : bytes_ok random → zlen random = 32 →
  parseInputKey (newInputKey random) = Ok random ∧ zlen (newInputKey random) = 48 ∧
  ∀ text key, parseInputKey text = Ok key → text = newInputKey key ∧ zlen key = 32.
Proof.
  intros Hb Hl. split_and!.
  - unfold parseInputKey, newInputKey. rewrite (proj2 (startsWith_spec _ _)) by by eexists. cbn [guard rbind].
    rewrite drop_app_length. by apply base64UrlDecode_encode.
  - unfold newInputKey. rewrite zlen_app, zlen_base64UrlEncode, Hl by done. done.
  - intros text key Hk. by apply parseInputKey_ok.
Qed.

(** ** Concrete instances *)

(** A cipher whose tag is sixteen zeros; it satisfies the laws. *)
Definition toy_cipher : Cipher := {|
  sha256 _ := replicate 32 0;
  hkdf key _ _ := key;
  gcm_seal _ _ _ plain := plain ++ replicate 16 0;
  gcm_open _ _ _ text :=
    let plain := take (length text - 16) text in
    if bool_decide (text = plain ++ replicate 16 0) && forallb (in_range 0 255) plain then Some plain else None;
|}.

Lemma bytesb_ok l : forallb (in_range 0 255) l = true ↔ bytes_ok l.
Proof.
  unfold bytes_ok. rewrite Forall_forall, forallb_forall. setoid_rewrite list_elem_of_In.
  split; intros Hl x Hx; specialize (Hl x Hx); rewrite in_range_spec in *; unfold byte_ok in *; lia.
Qed.

Lemma toy_cipher_laws : @CipherLaws toy_cipher.
Proof.
  split; cbn [gcm_seal gcm_open sha256 toy_cipher].
  - intros key iv aad plain Hp. rewrite length_app, length_replicate, Nat.add_sub, take_app_length.
    rewrite bool_decide_true by done. by rewrite (proj2 (bytesb_ok plain) Hp).
  - intros key iv aad text plain Ho. destruct (bool_decide _) eqn:Eb; [|done]. apply bool_decide_eq_true in Eb.
    destruct (forallb _ _) eqn:Ef; [|done]. apply bytesb_ok in Ef. cbn [andb] in Ho. by injection Ho as <-.
  - intros key iv aad plain. by rewrite zlen_app.
  - intros key iv aad plain Hp. apply bytes_ok_app. split; [done|]. repeat (constructor; [unfold byte_ok; lia|]). constructor.
  - intros l. split; [|done]. repeat (constructor; [unfold byte_ok; lia|]). constructor.
Qed.

Definition toy_entropy : EnvelopeEntropy := mkEntropy (replicate 8 1) (replicate 32 2) (replicate 32 3) (λ _, 4).

Lemma toy_entropy_ok : entropy_ok toy_entropy.
Proof. split_and!; try done; try (apply bytesb_ok; reflexivity). Qed.

#[local] Existing Instances ascii_unicode ascii_unicode_laws toy_cipher toy_cipher_laws.

Lemma toy_frame : ∃ framed, frameMetadata (lit "a.txt") (zlen [7; 8; 9]) (lit "Text/Plain") = Ok framed.
Proof. eexists. vm_compute. reflexivity. Qed.

Lemma toy_encrypts : ∃ env, encryptPrivacyEnvelope (blob_source [7; 8; 9]) (lit "a.txt") (lit "Text/Plain") (λ _, false) toy_entropy = Ok env.
Proof.
  destruct toy_frame as [framed Hf].
  destruct (encrypt_ok [7; 8; 9] (lit "a.txt") (lit "Text/Plain") toy_entropy framed) as (env & He & _); [..|by exists env].
  - apply ascii_jstr_ok. solve_ascii.
  - apply ascii_jstr_ok. solve_ascii.
  - apply toy_entropy_ok.
  - done.
  - done.
Qed.

Lemma decrypt_encrypt_witness : ∃ env,
  encryptPrivacyEnvelope (blob_source [7; 8; 9]) (lit "a.txt") (lit "Text/Plain") (λ _, false) toy_entropy = Ok env ∧
  decryptPrivacyEnvelope (env_file env) (env_recoveryKey env) (λ _, false) = Ok (mkRecovered (env_metadata env) [7; 8; 9]).
Proof.
  destruct toy_encrypts as [env He]. exists env. split; [exact He|].
  apply (decrypt_encrypt [7; 8; 9] (lit "a.txt") (lit "Text/Plain") toy_entropy env).
  - apply ascii_jstr_ok. solve_ascii.
  - apply ascii_jstr_ok. solve_ascii.
  - apply bytesb_ok. reflexivity.
  - apply toy_entropy_ok.
  - exact He.
Defined.

Lemma toy_opens : ∃ file key f, decryptPrivacyEnvelope file key (λ _, false) = Ok f ∧ rec_content f = [7; 8; 9].
Proof.
  destruct toy_encrypts as [env He].
  assert (jstr_ok (lit "a.txt")) as Hn by (apply ascii_jstr_ok; solve_ascii).
  assert (jstr_ok (lit "Text/Plain")) as Ht by (apply ascii_jstr_ok; solve_ascii).
  destruct (encrypt_inv _ _ _ _ _ _ Hn Ht toy_entropy_ok (λ _, eq_refl) He) as (e & Hc & _ & _).
  assert (bytes_ok [7; 8; 9]) as Hcb by (apply bytesb_ok; reflexivity).
  assert (bytes_ok (replicate 32 3)) as Hkb by (apply bytesb_ok; reflexivity).
  pose proof (decrypt_sealed [7; 8; 9] (lit "a.txt") (lit "Text/Plain") None (λ _, false) toy_entropy e (replicate 32 3)
    Hn Ht Hcb toy_entropy_ok (λ _, eq_refl) Hc ltac:(discriminate) eq_refl Hkb) as Hd.
  exists (sealed_envelope e [7; 8; 9]), (enc_inputKey e), (mkRecovered (enc_metadata e) [7; 8; 9]). split; [exact Hd|reflexivity].
Qed.

Lemma decrypt_accepts_only_sealed_witness : ∃ file recoveryKey f, rec_content f = [7; 8; 9] ∧
  ∃ rawKey h pts raw pad, parseInputKey recoveryKey = Ok rawKey ∧ header_ok h file ∧
    file = envelope_of h (header_key h rawKey) pts ∧ zlen pts = hdr_recordCount h ∧
    concat pts = u32 (zlen raw) ++ raw ++ rec_content f ++ pad ∧
    utf8_decode false raw = Some (metadata_json (rec_metadata f)) ∧
    meta_size (rec_metadata f) = zlen (rec_content f) ∧
    sanitiseFileName (meta_name (rec_metadata f)) = meta_name (rec_metadata f) ∧
    zlen (concat pts) = paddedPlaintextLength (4 + zlen raw + zlen (rec_content f)).
Proof.
  destruct toy_opens as (file & key & f & Hd & Hf). exists file, key, f. split; [exact Hf|].
  apply (decrypt_accepts_only_sealed file key (λ _, false) f). exact Hd.
Defined.

Lemma encrypt_succeeds_witness : ∃ env,
  encryptPrivacyEnvelope (blob_source [7; 8; 9]) (lit "a.txt") (lit "Text/Plain") (λ _, false) toy_entropy = Ok env ∧
  envelopeBytes (lit "a.txt") (lit "Text/Plain") (zlen [7; 8; 9]) = Ok (zlen (env_file env)) ∧
  zlen [7; 8; 9] + 56 <= zlen (env_file env) <= MAX_PROTOTYPE_TRANSFER_BYTES.
Proof.
  destruct toy_frame as [framed Hf]. apply (encrypt_succeeds [7; 8; 9] (lit "a.txt") (lit "Text/Plain") toy_entropy framed).
  - apply ascii_jstr_ok. solve_ascii.
  - apply ascii_jstr_ok. solve_ascii.
  - apply toy_entropy_ok.
  - done.
  - exact Hf.
Defined.

Lemma nonce_unique_witness : zlen (makeNonce (replicate 8 1) 5) = 12.
Proof. apply (nonce_unique (replicate 8 1) [] 5 6); rewrite ?MAX_ENVELOPE_RECORDS_257; done. Defined.

Lemma padding_buckets_witness : paddedPlaintextLength (paddedPlaintextLength 70000) = paddedPlaintextLength 70000.
Proof. apply (padding_buckets 70000). lia. Defined.

Lemma input_key_roundtrip_witness : parseInputKey (newInputKey (replicate 32 255)) = Ok (replicate 32 255).
Proof. apply (input_key_roundtrip (replicate 32 255)); [apply bytesb_ok; reflexivity|reflexivity]. Defined.
