(* ===== verification/DirectConfig.v ===== *)
(** * The limits and the ICE allowlist of a direct send ([direct/config.ts]) *)

From S2P Require Import Prelude JsString Utf8.

(** ** [LIMITS] *)

Definition messageBytes : Z := 16379.
Definition messagesPerSide : Z := 8.
Definition restarts : Z := 5.
Definition sdpBytes : Z := 8000.
Definition iceServers : Z := 4.
Definition urlsPerServer : Z := 4.
Definition urlBytes : Z := 256.
Definition credentialBytes : Z := 256.
Definition maxPlaintextBytes : Z := 250000000.
Definition frameBytes : Z := 65536.
Definition minFrameBytes : Z := 16384.
Definition unacknowledgedBytes : Z := 8388608.
Definition ackEveryBytes : Z := 1048576.
Definition highWaterBytes : Z := 1048576.
Definition lowWaterBytes : Z := 262144.
Definition relayBytesPerSecond : Z := 400000.
Definition relayBurstBytes : Z := 65536.

Definition CONNECT_GIVE_UP_MS : Z := 90000.
Definition RECONNECT_GIVE_UP_MS : Z := 45000.

Definition DEFAULT_DIRECT_ICE_URLS : list jstr := [lit "stun:stun.cloudflare.com:3478"].

(** ** URLs *)

(** [/^(?:stun|turn|turns):[^...]+$/u]: a scheme, then at least one character
    and only characters of the class. *)
Definition ice_rest (class : Z → bool) (rest : jstr) : bool := non_empty rest && forallb class rest.
Definition ice_url (class : Z → bool) (url : jstr) : bool :=
  existsb (λ scheme, startsWith url scheme && ice_rest class (drop (length scheme) url))
    [lit "stun:"; lit "turn:"; lit "turns:"].

Definition ICE_URL : jstr → bool := ice_url (λ c, negb (is_space c || (c =? 44))).

Definition bad_allowlist : string := "VITE_WILDBLOOM_DIRECT_ICE must list stun:, turn: or turns: URLs separated by commas.".

(** [parseIceAllowlist(value)], [undefined] as [None]. *)
Definition parseIceAllowlist (value : option jstr) : res (list jstr) :=
  match value with
  | None => Ok DEFAULT_DIRECT_ICE_URLS
  | Some value =>
      if eqb (trim value) [] then Ok DEFAULT_DIRECT_ICE_URLS
      else
        let urls := map trim (split (Z.eqb 44) value) in
        check forallb (λ url, ICE_URL url && (zlen (utf8_encode url) <=? urlBytes)) urls else bad_allowlist;
        Ok (uniq urls)
  end.

(** What the page relies on: a STUN or TURN URL without white space that fits. *)
Definition allowed_url (url : jstr) : Prop := ICE_URL url = true ∧ zlen (utf8_encode url) <= urlBytes.

Lemma split_from_not_nil p acc s : split_from p acc s ≠ [].
Proof. revert acc; induction s as [|c s IH]; intros acc; simpl; [done|]. by destruct (p c). Qed.

Lemma uniq_nil_inv (l : list jstr) : uniq l = [] → l = [].
Proof.
  destruct l as [|x l]; [done|]. intros H. assert (x ∈ uniq (x :: l)) as Hx by (apply elem_of_uniq; set_solver).
  rewrite H in Hx. set_solver.
Qed.

(** The allowlist a page is built with is never empty, never repeats a URL
    and holds only well-formed STUN and TURN URLs within the length limit; a
    build value with any other entry is refused rather than replaced by the
    default, and every URL of an accepted value is one the builder wrote. *)
Theorem parseIceAllowlist_spec value :
  match parseIceAllowlist value with
  | Ok urls => urls ≠ [] ∧ NoDup urls ∧ Forall allowed_url urls ∧
      ∀ v, value = Some v → trim v ≠ [] → ∀ url, url ∈ urls ↔ url ∈ map trim (split (Z.eqb 44) v)
  | Throw _ => ∃ v url, value = Some v ∧ trim v ≠ [] ∧ url ∈ map trim (split (Z.eqb 44) v) ∧ ¬ allowed_url url
  end.
Proof.
  assert (DEFAULT_DIRECT_ICE_URLS ≠ [] ∧ NoDup DEFAULT_DIRECT_ICE_URLS ∧ Forall allowed_url DEFAULT_DIRECT_ICE_URLS) as (D1 & D2 & D3).
  { split; [done|]. split; [apply NoDup_singleton|]. constructor; [|constructor]. by split. }
  unfold parseIceAllowlist. destruct value as [v|]; [|by split_and!].
  destruct (eqb (trim v) []) eqn:E.
  { apply eqb_eq in E. split_and!; try done. intros v' [= <-]. done. }
  assert (trim v ≠ []) as Hv by (intros H; apply eqb_eq in H; congruence).
  assert (∀ url, ICE_URL url && (zlen (utf8_encode url) <=? urlBytes) = true ↔ allowed_url url) as Hu.
  { intros url. unfold allowed_url. by rewrite andb_true_iff, Z.leb_le. }
  destruct (forallb _ _) eqn:F; simpl.
  - split; [|split; [apply NoDup_uniq|split]].
    + intros H. apply uniq_nil_inv, map_eq_nil in H. by apply split_from_not_nil in H.
    + apply Forall_forall. intros url Hin. rewrite elem_of_uniq in Hin. rewrite forallb_forall in F.
      apply Hu, F, list_elem_of_In. done.
    + intros v' [= <-] _ url. apply elem_of_uniq.
  - assert (∃ url, url ∈ map trim (split (Z.eqb 44) v) ∧ ¬ allowed_url url) as (url & Hin & Hn); [|by exists v, url].
    clear D1 D2 D3. induction (map trim (split (Z.eqb 44) v)) as [|url l IH]; [done|]. cbn [forallb] in F.
    apply andb_false_iff in F as [F|F].
    + exists url. split; [set_solver|]. rewrite <- Hu. congruence.
    + destruct (IH F) as (u & ? & ?). exists u. split; [set_solver|done].
Qed.
