(* ===== verification/Frames.v ===== *)
(** * The binary frames of a direct send ([direct/frames.ts])

    DATA, ACK, END, KEPT and STOP: the writer of each, and the reader that
    knows which side sent the frame. *)

From S2P Require Import Prelude JsString Utf8 Bytes DirectConfig.

Inductive Role : Type := sender | receiver.

#[global] Instance Role_eq_dec : EqDecision Role.
Proof. solve_decision. Defined.

Definition type_data : Z := 1.
Definition type_ack : Z := 2.
Definition type_end : Z := 3.
Definition type_kept : Z := 4.
Definition type_stop : Z := 5.

Inductive Frame : Type :=
  | FData (offset : Z) (data : bytes)
  | FAck (next : Z)
  | FEnd (sha256 : bytes) (size : Z)
  | FKept
  | FStop (code : Z).

Definition DATA_HEADER_BYTES : Z := 9.
Definition END_FRAME_BYTES : Z := 41.

(** The eight bytes [writeU64] leaves in the frame. *)
Definition u64 (value : Z) : bytes := u32 (value / 2 ^ 32) ++ u32 (value mod 2 ^ 32).

Definition writeU64 (value : Z) : res bytes :=
  check is_safe_integer value && (0 <=? value) else "Offsets and sizes are whole numbers up to 2^53 - 1.";
  Ok (u64 value).

Definition readU64 (view : bytes) (at_ : Z) : res Z :=
  let high := getU32 view at_ in
  check high <=? 2097151 else "An offset or size is beyond 2^53 - 1.";
  Ok (high * 2 ^ 32 + getU32 view (at_ + 4)).

Definition encodeData (offset : Z) (data : bytes) : res bytes :=
  check negb ((zlen data =? 0) || (frameBytes <? DATA_HEADER_BYTES + zlen data)) else "A DATA frame holds 1 to 65,527 bytes.";
  let! o := writeU64 offset in
  Ok (type_data :: o ++ data).

Definition encodeAck (next : Z) : res bytes :=
  let! o := writeU64 next in
  Ok (type_ack :: o).

Definition encodeEnd (sha256 : bytes) (size : Z) : res bytes :=
  check zlen sha256 =? 32 else "END carries a 32-byte SHA-256.";
  let! o := writeU64 size in
  Ok (type_end :: sha256 ++ o).

Definition encodeKept : bytes := [type_kept].
Definition encodeStop (code : Z) : bytes := [type_stop; code].

(** [decodeFrame(from, frame)]; every [Throw] is a [FrameError]. *)
Definition decodeFrame (from : Role) (frame : bytes) : res Frame :=
  match frame with
  | [] => Throw "An empty message."
  | type :: rest =>
      if type =? type_data then
        check bool_decide (from = sender) else "DATA from the receiver.";
        check negb ((zlen frame <=? DATA_HEADER_BYTES) || (frameBytes <? zlen frame)) else "A DATA frame of the wrong length.";
        let! offset := readU64 frame 1 in
        Ok (FData offset (slice DATA_HEADER_BYTES (zlen frame) frame))
      else if type =? type_ack then
        check bool_decide (from = receiver) else "ACK from the sender.";
        check zlen frame =? 9 else "An ACK frame of the wrong length.";
        let! next := readU64 frame 1 in
        Ok (FAck next)
      else if type =? type_end then
        check bool_decide (from = sender) else "END from the receiver.";
        check zlen frame =? END_FRAME_BYTES else "An END frame of the wrong length.";
        let! size := readU64 frame 33 in
        Ok (FEnd (slice 1 33 frame) size)
      else if type =? type_kept then
        check bool_decide (from = receiver) else "KEPT from the sender.";
        check zlen frame =? 1 else "A KEPT frame of the wrong length.";
        Ok FKept
      else if type =? type_stop then
        check zlen frame =? 2 else "A STOP frame of the wrong length.";
        let code := nth 0 rest 0 in
        Ok (FStop (if (code =? 1) || (code =? 3) then code else 2))
      else Throw "An unknown frame type."
  end.

(** ** The contract *)

(** The writer of each frame. *)
Definition encode_frame (f : Frame) : res bytes :=
  match f with
  | FData offset data => encodeData offset data
  | FAck next => encodeAck next
  | FEnd sha256 size => encodeEnd sha256 size
  | FKept => Ok encodeKept
  | FStop code => Ok (encodeStop code)
  end.

(** Which side sends which frame. *)
Definition sends (r : Role) (f : Frame) : Prop :=
  match f with
  | FData _ _ | FEnd _ _ => r = sender
  | FAck _ | FKept => r = receiver
  | FStop _ => True
  end.

Definition u53 (n : Z) : Prop := 0 <= n <= max_safe_integer.

(** The values a frame can carry. *)
Definition frame_ok (f : Frame) : Prop :=
  match f with
  | FData offset data => u53 offset ∧ bytes_ok data ∧ 1 <= zlen data <= 65527
  | FAck next => u53 next
  | FEnd sha256 size => u53 size ∧ bytes_ok sha256 ∧ zlen sha256 = 32
  | FKept => True
  | FStop code => 1 <= code <= 3
  end.

Lemma writeU64_ok n b : writeU64 n = Ok b ↔ u53 n ∧ b = u64 n.
Proof.
  unfold writeU64, is_safe_integer, u53. split.
  - intros H. inv_ok. bool_prop. split; [lia|done].
  - intros [H ->]. rewrite (proj2 (Z.leb_le _ _)), (proj2 (Z.leb_le 0 n)) by lia. done.
Qed.

Lemma u53_words n : u53 n → 0 <= n / 2 ^ 32 <= 2097151 ∧ 0 <= n mod 2 ^ 32 < 4294967296.
Proof.
  unfold u53, max_safe_integer. intros. split; [|apply Z.mod_pos_bound; lia].
  split; [apply Z.div_pos; lia|]. apply Z.lt_succ_r, Z.div_lt_upper_bound; lia.
Qed.

Lemma readU64_write p n s at_ : at_ = zlen p → u53 n →
  readU64 (p ++ u64 n ++ s) at_ = Ok n.
Proof.
  intros -> Hn. destruct (u53_words n Hn) as [H1 H2]. unfold readU64, u64. rewrite <- app_assoc.
  rewrite (getU32_app p) by lia.
  rewrite (app_assoc p), (getU32_app (p ++ _)) by (rewrite ?zlen_app, ?zlen_u32; lia).
  rewrite (proj2 (Z.leb_le _ _)) by lia. simpl. f_equal. pose proof (Z.div_mod n (2 ^ 32)). lia.
Qed.

Lemma getU32_drop l at_ : 0 <= at_ → getU32 l at_ = getU32 (drop (Z.to_nat at_) l) 0.
Proof.
  intros H. unfold getU32. rewrite !nth_lookup, !lookup_drop. repeat f_equal; lia.
Qed.

(** Four bytes of a list, read and written back. *)
Lemma getU32_slice l at_ : bytes_ok l → 0 <= at_ → at_ + 4 <= zlen l → u32 (getU32 l at_) = slice at_ (at_ + 4) l.
Proof.
  intros Hl H0 H4. rewrite getU32_drop by done. unfold slice. replace (Z.to_nat (at_ + 4 - at_)) with 4%nat by lia.
  assert (bytes_ok (drop (Z.to_nat at_) l)) as Hd by by apply Forall_drop.
  assert (4 <= length (drop (Z.to_nat at_) l))%nat as Hn by (rewrite length_drop; unfold zlen in H4; lia).
  destruct (drop (Z.to_nat at_) l) as [|a [|b [|c [|d k]]]]; simpl in Hn; try lia.
  unfold bytes_ok in Hd. rewrite !Forall_cons in Hd. destruct Hd as (? & ? & ? & ? & ?). by rewrite getU32_4.
Qed.

Lemma readU64_ok l at_ n : bytes_ok l → 0 <= at_ → at_ + 8 <= zlen l → readU64 l at_ = Ok n →
  u53 n ∧ slice at_ (at_ + 8) l = u64 n.
Proof.
  intros Hl H0 H8 H. unfold readU64 in H. inv_ok. bool_prop.
  pose proof (getU32_bound l at_ Hl). pose proof (getU32_bound l (at_ + 4) Hl).
  unfold u64.
  assert ((getU32 l at_ * 2 ^ 32 + getU32 l (at_ + 4)) / 2 ^ 32 = getU32 l at_) as ->.
  { symmetry. apply Zdiv_unique with (getU32 l (at_ + 4)); lia. }
  assert ((getU32 l at_ * 2 ^ 32 + getU32 l (at_ + 4)) mod 2 ^ 32 = getU32 l (at_ + 4)) as ->.
  { symmetry. apply Zmod_unique with (getU32 l at_); lia. }
  split; [unfold u53, max_safe_integer; lia|].
  rewrite !getU32_slice by (done || lia). replace (at_ + 4 + 4) with (at_ + 8) by lia.
  by rewrite slice_app by lia.
Qed.

Lemma encodeData_ok offset data frame : encodeData offset data = Ok frame ↔
  u53 offset ∧ 1 <= zlen data <= 65527 ∧ frame = type_data :: u64 offset ++ data.
Proof.
  unfold encodeData, DATA_HEADER_BYTES, frameBytes. pose proof (zlen_nonneg data). split.
  - intros H'. inv_ok. apply writeU64_ok in E as [Hu ->]. bool_prop. split_and!; done || lia.
  - intros (Hu & Hl & ->). rewrite (proj2 (Z.eqb_neq (zlen data) 0)), (proj2 (Z.ltb_ge 65536 (9 + zlen data))) by lia.
    cbn [orb negb guard rbind]. by rewrite (proj2 (writeU64_ok _ _) (conj Hu eq_refl)).
Qed.

Lemma encodeAck_ok n frame : encodeAck n = Ok frame ↔ u53 n ∧ frame = type_ack :: u64 n.
Proof.
  unfold encodeAck. split.
  - intros H'. inv_ok. by apply writeU64_ok in E as [Hu ->].
  - intros (Hu & ->). by rewrite (proj2 (writeU64_ok _ _) (conj Hu eq_refl)).
Qed.

Lemma encodeEnd_ok h n frame : encodeEnd h n = Ok frame ↔ u53 n ∧ zlen h = 32 ∧ frame = type_end :: h ++ u64 n.
Proof.
  unfold encodeEnd. split.
  - intros H'. inv_ok. bool_prop. by apply writeU64_ok in E as [Hu ->].
  - intros (Hu & Hl & ->). rewrite (proj2 (Z.eqb_eq _ _) Hl). cbn [guard rbind]. by rewrite (proj2 (writeU64_ok _ _) (conj Hu eq_refl)).
Qed.

Lemma zlen_u64 n : zlen (u64 n) = 8.
Proof. done. Qed.

Lemma u64_ok n : bytes_ok (u64 n).
Proof. apply bytes_ok_app; split; apply u32_ok. Qed.

Definition stop_code_ok (f : Frame) : Prop := match f with FStop code => 1 <= code <= 3 | _ => True end.

(** What a side writes, the other side reads. *)
Lemma decode_encode r f b : sends r f → stop_code_ok f → encode_frame f = Ok b → decodeFrame r b = Ok f.
Proof.
  intros Hs Hc He. destruct f as [o d|n|h n| |c]; simpl in Hs, Hc; try subst r; cbn [encode_frame] in He.
  - apply encodeData_ok in He as (Ho & Hl & ->). pose proof (readU64_write [1] o d 1 eq_refl Ho) as HR.
    pose proof (zlen_u64 o) as H8. set (w := u64 _) in *. clearbody w.
    unfold decodeFrame. cbn [Z.eqb Pos.eqb type_data]. rewrite bool_decide_true by done.
    rewrite zlen_cons, zlen_app, H8. unfold DATA_HEADER_BYTES, frameBytes.
    rewrite (proj2 (Z.leb_gt (8 + zlen d + 1) 9)), (proj2 (Z.ltb_ge 65536 (8 + zlen d + 1))) by lia. cbn [orb negb guard rbind].
    change (type_data :: w ++ d) with ([1] ++ w ++ d). rewrite HR. cbn [rbind]. do 2 f_equal.
    rewrite app_assoc, slice_app_r by (rewrite zlen_app; change (zlen [1]) with 1; lia).
    rewrite zlen_app, H8. change (zlen [1]) with 1. apply slice_full. lia.
  - apply encodeAck_ok in He as (Hn & ->). pose proof (readU64_write [2] n [] 1 eq_refl Hn) as HR. rewrite app_nil_r in HR.
    pose proof (zlen_u64 n) as H8. set (w := u64 _) in *. clearbody w.
    unfold decodeFrame. cbn [Z.eqb Pos.eqb type_data type_ack]. rewrite bool_decide_true by done.
    rewrite zlen_cons, H8. cbn [Z.add Pos.add Pos.succ Z.eqb Pos.eqb guard rbind].
    change (type_ack :: w) with ([2] ++ w). rewrite HR. done.
  - apply encodeEnd_ok in He as (Hn & Hl & ->). pose proof (zlen_u64 n) as H8.
    assert (zlen ([3] ++ h) = 33) as H33 by (rewrite zlen_app, Hl; done).
    pose proof (readU64_write ([3] ++ h) n [] 33 (eq_sym H33) Hn) as HR. rewrite app_nil_r in HR.
    set (w := u64 _) in *. clearbody w.
    unfold decodeFrame. cbn [Z.eqb Pos.eqb type_data type_ack type_end]. rewrite bool_decide_true by done.
    rewrite zlen_cons, zlen_app, H8, Hl. change (32 + 8 + 1 =? END_FRAME_BYTES) with true. cbn [guard rbind].
    change (type_end :: h ++ w) with ([3] ++ h ++ w). rewrite (app_assoc [3] h w), HR. cbn [rbind]. do 2 f_equal.
    rewrite slice_app_l by lia. rewrite slice_app_r by (change (zlen [3]) with 1; lia).
    change (zlen [3]) with 1. apply slice_full. lia.
  - by injection He as <-.
  - injection He as <-. assert (c = 1 ∨ c = 2 ∨ c = 3) as [->|[->| ->]] by lia; by destruct r.
Qed.

(** The reader of the other side takes every frame a side can write back
    apart, and the writer makes bytes of every frame whose values are in range:
    an offset or size up to 2^53 - 1, 1 to 65,527 data bytes, a 32-byte hash, a
    STOP reason of 1 to 3. *)
Theorem decodeFrame_encode r f : sends r f → frame_ok f →
  ∃ b, encode_frame f = Ok b ∧ bytes_ok b ∧ zlen b <= frameBytes ∧ decodeFrame r b = Ok f.
Proof.
  intros Hs Hf. assert (stop_code_ok f) as Hc by (by destruct f).
  assert (∃ b, encode_frame f = Ok b ∧ bytes_ok b ∧ zlen b <= frameBytes) as (b & He & Hb & Hl); [|exists b; split_and!; try done; by apply decode_encode].
  destruct f as [o d|n|h n| |c]; cbn [frame_ok encode_frame] in *.
  - destruct Hf as (Ho & Hd & Hl). eexists. split; [by apply encodeData_ok|]. split; [by constructor; [|apply bytes_ok_app; split; [apply u64_ok|]]|].
    rewrite zlen_cons, zlen_app, zlen_u64. unfold frameBytes. lia.
  - eexists. split; [by apply encodeAck_ok|]. split; [by constructor; [|apply u64_ok]|]. rewrite zlen_cons, zlen_u64. by vm_compute.
  - destruct Hf as (Hn & Hh & Hl). eexists. split; [by apply encodeEnd_ok|].
    split; [by constructor; [|apply bytes_ok_app; split; [|apply u64_ok]]|]. rewrite zlen_cons, zlen_app, zlen_u64, Hl. by vm_compute.
  - eexists. split; [done|]. split; [by constructor|]. by vm_compute.
  - eexists. split; [done|]. split; [constructor; [done|constructor; [unfold byte_ok; lia|constructor]]|]. by vm_compute.
Qed.
Lemma decodeFrame_encode_witness : ∃ b, encode_frame (FData 4294967301 [7; 8]) = Ok b ∧ decodeFrame sender b = Ok (FData 4294967301 [7; 8]).
Proof.
  destruct (decodeFrame_encode sender (FData 4294967301 [7; 8])) as (b & H1 & _ & _ & H2).
  - reflexivity.
  - split; [|split; [|split]].
    + unfold u53, max_safe_integer. lia.
    + repeat constructor; lia.
    + unfold zlen; simpl; lia.
    + unfold zlen; simpl; lia.
  - exists b. by split.
Defined.

(** The reader takes only what the writer of the side named writes: a frame
    it accepts was sent by the side that may send it, carries values in range,
    and is byte for byte what the writer makes of the result - only an
    unknown STOP reason reads as 2 and is the one frame with two spellings. *)
Theorem decodeFrame_sound r b f : bytes_ok b → decodeFrame r b = Ok f →
  sends r f ∧ frame_ok f ∧
  (encode_frame f = Ok b ∨ f = FStop 2 ∧ ∃ c, b = [type_stop; c] ∧ c ∉ [1; 2; 3]).
Proof.
  intros Hb H. destruct b as [|t b]; [done|].
  assert (bytes_ok b) as Hb' by (by apply Forall_cons in Hb as [_ ?]).
  assert (zlen (t :: b) = zlen b + 1) as Hz by apply zlen_cons.
  unfold decodeFrame in H. repeat match type of H with (if ?x =? ?y then _ else _) = _ => destruct (Z.eqb_spec x y) as [->|] end; inv_ok.
  - bool_prop. unfold DATA_HEADER_BYTES, frameBytes in *. apply readU64_ok in E as [Hn E]; [|done|lia..].
    change (type_data :: b) with ([type_data] ++ b) in *. rewrite (slice_app_r 9 (zlen ([type_data] ++ b)) [type_data] b) by (change (zlen [type_data]) with 1; lia).
    change (1 + 8) with 9 in E. rewrite (slice_app_r 1 9 [type_data] b) in E by (change (zlen [type_data]) with 1; lia).
    rewrite Hz. change (zlen [type_data]) with 1 in *. replace (zlen b + 1 - 1) with (zlen b) by lia. change (9 - 1) with 8 in *. change (1 - 1) with 0 in E.
    split; [done|]. split; [split; [done|]; split; [by apply bytes_ok_slice|]; rewrite zlen_slice by lia; lia|].
    left. cbn [encode_frame]. unfold encodeData, DATA_HEADER_BYTES, frameBytes. rewrite zlen_slice by lia.
    rewrite (proj2 (Z.eqb_neq _ 0)), (proj2 (Z.ltb_ge 65536 _)) by lia. cbn [orb negb guard rbind].
    rewrite (proj2 (writeU64_ok _ _) (conj Hn eq_refl)). cbn [rbind]. rewrite <- E.
    rewrite slice_app, slice_full by lia. done.
  - bool_prop. apply readU64_ok in E as [Hn E]; [|done|lia..].
    change (type_ack :: b) with ([type_ack] ++ b) in *. change (1 + 8) with 9 in E. rewrite (slice_app_r 1 9 [type_ack] b) in E by (change (zlen [type_ack]) with 1; lia).
    change (zlen [type_ack]) with 1 in E. rewrite slice_full in E by lia.
    split; [done|]. split; [done|]. left. cbn [encode_frame]. unfold encodeAck.
    rewrite (proj2 (writeU64_ok _ _) (conj Hn eq_refl)), <- E. done.
  - bool_prop. unfold END_FRAME_BYTES in *. apply readU64_ok in E as [Hn E]; [|done|lia..].
    change (type_end :: b) with ([type_end] ++ b) in *. rewrite (slice_app_r 1 33 [type_end] b) by (change (zlen [type_end]) with 1; lia).
    rewrite (slice_app_r 33 (33 + 8) [type_end] b) in E by (change (zlen [type_end]) with 1; lia).
    change (zlen [type_end]) with 1 in *. change (33 - 1) with 32 in *. change (33 + 8 - 1) with 40 in E. change (1 - 1) with 0.
    split; [done|]. split; [split; [done|]; split; [by apply bytes_ok_slice|]; rewrite zlen_slice by lia; lia|].
    left. cbn [encode_frame]. unfold encodeEnd. rewrite zlen_slice by lia. cbn [Z.sub Z.add Z.opp Z.eqb Pos.eqb guard rbind].
    rewrite (proj2 (writeU64_ok _ _) (conj Hn eq_refl)), <- E. cbn [rbind].
    rewrite slice_app, slice_full by lia. done.
  - bool_prop. destruct b; [|unfold zlen in *; simpl in *; lia]. split_and!; [done..|by left].
  - bool_prop. destruct b as [|c [|? ?]]; unfold zlen in *; simpl in *; try lia.
    destruct (Z.eqb_spec c 1) as [->|]; [split; [done|]; split; [unfold frame_ok; simpl; lia|by left]|].
    destruct (Z.eqb_spec c 3) as [->|]; [split; [done|]; split; [unfold frame_ok; simpl; lia|by left]|]. simpl.
    split; [done|]. split; [lia|]. destruct (decide (c = 2)) as [->|]; [by left|right].
    split; [done|]. exists c. split; [done|]. set_solver.
Qed.
Lemma decodeFrame_sound_witness : sends sender (FStop 2) ∧ frame_ok (FStop 2).
Proof.
  destruct (decodeFrame_sound sender [5; 9] (FStop 2)) as (H1 & H2 & _).
  - repeat constructor; lia.
  - reflexivity.
  - by split.
Defined.
