(* ===== verification/Messages.v ===== *)
(** * The messages of a direct send ([direct/messages.ts])

    One strict canonical JSON object a message: the writer, the reader with
    every check it makes, and which side may send what when. [canonicalJson]
    itself is in Json.v. *)

From S2P Require Import Prelude JsString Utf8 Bytes Json Security DirectConfig.

(** ** The messages *)

Inductive Side : Type := drop | page.
Inductive StopReason : Type := cancelled | unsupported | failed.

Record IceServer := mkIceServer { credential : jstr; urls : list jstr; username : jstr }.

Inductive DirectMessage : Type :=
  | Invite (hide : bool) (ice : list IceServer) (id : jstr) (max : Z)
  | Manifest (name : jstr) (size : Z) (type : jstr)
  | Accept (sdp : jstr)
  | Decline
  | Answer (key sdp : jstr)
  | Restart (sdp : jstr)
  | RestartAnswer (sdp : jstr)
  | Stop (reason : StopReason).

(** What one reader returns: the message part, or the [Bad] object. *)
Inductive read (A : Type) : Type :=
  | Read (a : A)
  | Bad (stop : StopReason) (detail : string).
Arguments Read {A} a.
Arguments Bad {A} stop detail%_string.

Definition read_bind {A B} (m : read A) (k : A → read B) : read B :=
  match m with Read a => k a | Bad stop detail => Bad stop detail end.

Notation "'let?' x := m 'in' k" := (read_bind m (λ x, k))
  (at level 10, x name, m at level 100, k at level 200) : wild_scope.
(** [if (!c) return failed(detail)] and [if (!c) return unsupported(detail)]. *)
Notation "'require' c 'else' detail ; k" := (if c then k else Bad failed detail)
  (at level 10, c at level 100, detail at level 100, k at level 200) : wild_scope.
Notation "'allow' c 'else' detail ; k" := (if c then k else Bad unsupported detail)
  (at level 10, c at level 100, detail at level 100, k at level 200) : wild_scope.

Record DecodeContext := mkDecodeContext {
  from : Side; index : Z; iceAllowlist : list jstr; max_offered : option Z }.

Notation Plain := (list (jstr * json)).

(** ** Writing *)

Definition text_of (s : string) : json := JStr (lit s).

Definition stop_text (r : StopReason) : jstr :=
  match r with cancelled => lit "cancelled" | unsupported => lit "unsupported" | failed => lit "failed" end.

Definition ice_json (s : IceServer) : json :=
  JObj [(lit "credential", JStr (credential s)); (lit "urls", JArr (map JStr (urls s)));
        (lit "username", JStr (username s))].

(** The object [{ ...message, v: 1 }]. The members are listed in name order,
    where [canonicalJson] would put them anyway. *)
Definition message_members (m : DirectMessage) : Plain :=
  match m with
  | Invite hide ice id max =>
      [(lit "dir", text_of "to-drop"); (lit "event", text_of "invite"); (lit "hide", JBool hide);
       (lit "ice", JArr (map ice_json ice)); (lit "id", JStr id); (lit "max", JNum (Int max)); (lit "v", JNum (Int 1))]
  | Manifest name size type =>
      [(lit "event", text_of "manifest"); (lit "name", JStr name); (lit "size", JNum (Int size)); (lit "type", JStr type);
       (lit "v", JNum (Int 1))]
  | Accept sdp => [(lit "event", text_of "accept"); (lit "sdp", JStr sdp); (lit "v", JNum (Int 1))]
  | Decline => [(lit "event", text_of "decline"); (lit "v", JNum (Int 1))]
  | Answer key sdp =>
      [(lit "event", text_of "answer"); (lit "key", JStr key); (lit "sdp", JStr sdp); (lit "v", JNum (Int 1))]
  | Restart sdp => [(lit "event", text_of "restart"); (lit "sdp", JStr sdp); (lit "v", JNum (Int 1))]
  | RestartAnswer sdp => [(lit "event", text_of "restart-answer"); (lit "sdp", JStr sdp); (lit "v", JNum (Int 1))]
  | Stop reason => [(lit "event", text_of "stop"); (lit "reason", JStr (stop_text reason)); (lit "v", JNum (Int 1))]
  end.

Definition encodeMessage (m : DirectMessage) : res bytes :=
  let! text := canonicalJson (JObj (message_members m)) in
  let b := utf8_encode text in
  check zlen b <=? messageBytes else "The message is larger than the exchange allows.";
  Ok b.

(** ** Checking *)

Definition hasExactly (value : Plain) (names : list jstr) : bool :=
  (zlen (map fst value) =? zlen names) &&
  forallb (λ name, existsb (eqb name) (map fst value)) names.

Definition CONTROL (s : jstr) : bool := existsb is_control s.
Definition utf8Length (s : jstr) : Z := zlen (utf8_encode s).

(** [/(?:^|[^\r])\n|\r(?!\n)/u]: [after_cr] says the character before was CR. *)
Fixpoint bare_break (after_cr : bool) (s : jstr) : bool :=
  match s with
  | [] => after_cr
  | c :: s =>
      if c =? 10 then negb after_cr || bare_break false s
      else after_cr || bare_break (c =? 13) s
  end.

(** [s.split("\r\n")]. *)
Fixpoint split_crlf (acc : jstr) (s : jstr) : list jstr :=
  match s with
  | [] => [rev acc]
  | c :: s' =>
      match s' with
      | d :: s'' => if (c =? 13) && (d =? 10) then rev acc :: split_crlf [] s'' else split_crlf (c :: acc) s'
      | [] => split_crlf (c :: acc) s'
      end
  end.

Definition sdp_char (c : Z) : bool := (c =? 13) || (c =? 10) || in_range 32 126 c.

(** [/^m=application [0-9]+ UDP\/DTLS\/SCTP webrtc-datachannel$/u]. *)
Definition media_line (line : jstr) : bool :=
  let head := lit "m=application " in
  startsWith line head &&
  let p := take_digits (List.skipn (length head) line) in
  non_empty p.1 && eqb p.2 (lit " UDP/DTLS/SCTP webrtc-datachannel").

Definition CRLF : jstr := [13; 10].

(** [checkSdp(sdp)]: the problem, or [undefined] as [None]. *)
Definition checkSdp (sdp : jstr) : option string :=
  if eqb sdp [] || (sdpBytes <? utf8Length sdp) then Some "The description is empty or over 8,000 bytes."%string
  else if negb (forallb sdp_char sdp) then Some "The description is not printable ASCII."%string
  else if negb (startsWith sdp (lit "v=0" ++ CRLF)) || negb (endsWith sdp CRLF)
    then Some "The description does not start with v=0 or end in CRLF."%string
  else if bare_break false sdp then Some "The description has a bare line feed or carriage return."%string
  else
    let lines := split_crlf [] (take (length sdp - 2) sdp) in
    let media := List.filter (λ line, startsWith line (lit "m=")) lines in
    if negb (zlen media =? 1) || negb (media_line (List.hd [] media))
      then Some "The description must have exactly one data-channel media section."%string
    else if negb (existsb (λ line, startsWith line (lit "a=fingerprint:sha-256 ")) lines)
      then Some "The description has no SHA-256 fingerprint."%string
    else None.

Definition isCanonicalId (value : jstr) : bool :=
  ((zlen value =? 22) && forallb is_b64url value) && includes (lit "AQgw") (nth 21 value 0).

Definition KEY (value : jstr) : bool :=
  startsWith value (lit "wbk1_") &&
  ((zlen (List.skipn 5 value) =? 43) && forallb is_b64url (List.skipn 5 value)).

Definition isCanonicalKey (value : jstr) : bool :=
  KEY value && includes (lit "AEIMQUYcgkosw048") (List.last value 0).

Definition isRelayUrl (url : jstr) : bool := startsWith url (lit "turn:") || startsWith url (lit "turns:").

Definition hasRelayUrl (servers : list IceServer) : bool :=
  existsb (λ server, existsb isRelayUrl (urls server)) servers.

Definition read_string (v : json) : option jstr := match v with JStr s => Some s | _ => None end.

(** [typeof value === "number"], of a number [canonicalJson] let through. *)
Definition read_number (v : json) : option Z := match v with JNum (Int z) => Some z | _ => None end.

Definition member (body : Plain) (name : string) : json :=
  match get_member (lit name) body with Some v => v | None => JNull end.

(** The URLs of one entry: [/^(?:stun|turn|turns):[^\s]+$/u] and short. *)
Fixpoint read_urls (l : list json) : read (list jstr) :=
  match l with
  | [] => Read []
  | v :: l =>
      match v with
      | JStr url =>
          require ice_url (λ c, negb (is_space c)) url && (utf8Length url <=? urlBytes) else "an ice URL is malformed";
          let? rest := read_urls l in Read (url :: rest)
      | _ => Bad failed "an ice URL is malformed"
      end
  end.

(** A username or credential: both for a TURN entry, neither for a STUN one. *)
Definition well_formed_secret (relay : bool) (secret : jstr) : bool :=
  if relay then (0 <? zlen secret) && (utf8Length secret <=? credentialBytes) && negb (CONTROL secret)
  else eqb secret [].

Definition read_secret (relay : bool) (v : json) : read jstr :=
  match v with
  | JStr secret =>
      require well_formed_secret relay secret else "a username or credential is malformed";
      Read secret
  | _ => Bad failed "a username or credential is malformed"
  end.

Definition read_server (entry : json) : read IceServer :=
  match entry with
  | JObj entry =>
      require hasExactly entry [lit "credential"; lit "urls"; lit "username"] else "an ice server has the wrong members";
      match member entry "urls" with
      | JArr l =>
          require (1 <=? zlen l) && (zlen l <=? urlsPerServer) else "urls must hold 1 to 4 URLs";
          let? urls := read_urls l in
          let relay := existsb isRelayUrl urls in
          let? username := read_secret relay (member entry "username") in
          let? credential := read_secret relay (member entry "credential") in
          Read (mkIceServer credential urls username)
      | _ => Bad failed "urls must hold 1 to 4 URLs"
      end
  | _ => Bad failed "an ice server has the wrong members"
  end.

Fixpoint read_servers (l : list json) : read (list IceServer) :=
  match l with
  | [] => Read []
  | entry :: l => let? s := read_server entry in let? rest := read_servers l in Read (s :: rest)
  end.

(** [readIce(value, allowlist)]: the syntax of every server, then the policy. *)
Definition readIce (value : json) (allowlist : list jstr) : read (list IceServer) :=
  match value with
  | JArr l =>
      require (1 <=? zlen l) && (zlen l <=? iceServers) else "ice must hold 1 to 4 servers";
      let? servers := read_servers l in
      allow forallb (λ server, forallb (λ url, existsb (eqb url) allowlist) (urls server)) servers
        else "an ice URL is not on the build-time allowlist";
      Read servers
  | _ => Bad failed "ice must hold 1 to 4 servers"
  end.

Definition readInvite (body : Plain) (context : DecodeContext) : read DirectMessage :=
  require hasExactly body [lit "dir"; lit "event"; lit "hide"; lit "ice"; lit "id"; lit "max"; lit "v"] else "invite members";
  match read_string (member body "dir") with
  | Some dir =>
      require eqb dir (lit "to-drop") || eqb dir (lit "from-drop") else "unknown direction";
      match member body "hide" with
      | JBool hide =>
          match read_string (member body "id") with
          | Some id =>
              require isCanonicalId id else "id is not 16 canonical base64url bytes";
              match read_number (member body "max") with
              | Some max =>
                  require negb (max <? 1) else "max must be at least 1";
                  let? ice := readIce (member body "ice") (iceAllowlist context) in
                  allow negb (eqb dir (lit "from-drop")) else "this page sends; it does not receive";
                  allow max <=? maxPlaintextBytes else "max is above the 250,000,000 byte cap";
                  Read (Invite hide ice id max)
              | None => Bad failed "max must be at least 1"
              end
          | None => Bad failed "id is not 16 canonical base64url bytes"
          end
      | _ => Bad failed "hide must be a boolean"
      end
  | None => Bad failed "unknown direction"
  end.

(** The characters of [DISGUISING_CHARACTERS], by code point. *)
Definition disguising (cp : Z) : bool :=
  (cp =? 1564) || (cp =? 6158) || in_range 8203 8207 cp || in_range 8234 8238 cp || in_range 8288 8292 cp ||
  in_range 8294 8303 cp || (cp =? 65279) || in_range 917504 917631 cp.

Definition DISGUISING_CHARACTERS (name : jstr) : bool := existsb disguising (points id name).

Section Reader.
Context `{Unicode}.

Definition readManifest (body : Plain) (context : DecodeContext) : read DirectMessage :=
  require hasExactly body [lit "event"; lit "name"; lit "size"; lit "type"; lit "v"] else "manifest members";
  match read_string (member body "name") with
  | Some name =>
      require eqb (sanitiseFileName name) name else "name is not a fixed point of the name rule";
      require negb (DISGUISING_CHARACTERS name) else "name holds a character that disguises it";
      match read_string (member body "type") with
      | Some type =>
          require (1 <=? zlen type) && (zlen type <=? 255) && negb (CONTROL type) && eqb (toLowerCase type) type
            else "type is not a lower-case media type";
          match read_number (member body "size") with
          | Some size =>
              allow match max_offered context with Some max => size <=? max | None => true end else "size is above max";
              Read (Manifest name size type)
          | None => Bad failed "size must be an integer"
          end
      | None => Bad failed "type is not a lower-case media type"
      end
  | None => Bad failed "name is not a fixed point of the name rule"
  end.

(** The [sdp] member of an accept, an answer or a restart. *)
Definition read_sdp (v : json) : read jstr :=
  match read_string v with
  | Some sdp => match checkSdp sdp with Some problem => Bad failed problem | None => Read sdp end
  | None => Bad failed "sdp must be a string"
  end.

(** [readSdpMessage(body, event)], with the message the event names. *)
Definition readSdpMessage (body : Plain) (event : string) (make : jstr → DirectMessage) : read DirectMessage :=
  require hasExactly body [lit "event"; lit "sdp"; lit "v"] else String.append event " members";
  let? sdp := read_sdp (member body "sdp") in Read (make sdp).

Definition readAnswer (body : Plain) : read DirectMessage :=
  require hasExactly body [lit "event"; lit "key"; lit "sdp"; lit "v"] else "answer members";
  match read_string (member body "key") with
  | Some key =>
      require isCanonicalKey key else "key is not a canonical wbk1_ key";
      let? sdp := read_sdp (member body "sdp") in Read (Answer key sdp)
  | None => Bad failed "key is not a canonical wbk1_ key"
  end.

Definition readStop (body : Plain) : read DirectMessage :=
  require hasExactly body [lit "event"; lit "reason"; lit "v"] else "stop members";
  match read_string (member body "reason") with
  | Some reason =>
      if eqb reason (lit "cancelled") then Read (Stop cancelled)
      else if eqb reason (lit "unsupported") then Read (Stop unsupported)
      else if eqb reason (lit "failed") then Read (Stop failed)
      else Bad failed "unknown stop reason"
  | None => Bad failed "unknown stop reason"
  end.

Definition allowedEvents (from : Side) (index : Z) : list jstr :=
  if (index <? 0) || (messagesPerSide <=? index) then []
  else match from with
  | drop =>
      if index =? 0 then [lit "invite"]
      else if index =? 1 then [lit "accept"; lit "decline"; lit "stop"]
      else if index <=? 1 + restarts then [lit "restart"; lit "stop"]
      else [lit "stop"]
  | page =>
      if index =? 0 then [lit "manifest"; lit "stop"]
      else if index =? 1 then [lit "answer"; lit "stop"]
      else if index <=? 1 + restarts then [lit "restart-answer"; lit "stop"]
      else [lit "stop"]
  end.

(** The switch on the event. *)
Definition read_event (event : jstr) (body : Plain) (context : DecodeContext) : read DirectMessage :=
  if eqb event (lit "invite") then readInvite body context
  else if eqb event (lit "manifest") then readManifest body context
  else if eqb event (lit "accept") then readSdpMessage body "accept" Accept
  else if eqb event (lit "restart") then readSdpMessage body "restart" Restart
  else if eqb event (lit "restart-answer") then readSdpMessage body "restart-answer" RestartAnswer
  else if eqb event (lit "decline") then
    (if hasExactly body [lit "event"; lit "v"] then Read Decline else Bad failed "decline members")
  else if eqb event (lit "answer") then readAnswer body
  else if eqb event (lit "stop") then readStop body
  else Bad failed "unknown event".

(** [decodeMessage(bytes, context)]: [Read] is [ok: true], [Bad] the refusal. *)
Definition decodeMessage (b : bytes) (context : DecodeContext) : read DirectMessage :=
  require zlen b <=? messageBytes else "message over 16,379 bytes";
  match utf8_decode true b with
  | None => Bad failed "not UTF-8"
  | Some text =>
      match parse text with
      | None => Bad failed "not JSON"
      | Some (JObj parsed) =>
          match canonicalJson (JObj parsed) with
          | Throw _ => Bad failed "not canonical (value)"
          | Ok canonical =>
              require eqb canonical text else "not canonical (bytes)";
              match read_number (member parsed "v") with
              | None => Bad failed "missing or malformed version"
              | Some version =>
                  allow version =? 1 else "version";
                  match read_string (member parsed "event") with
                  | Some event =>
                      require existsb (eqb event) (allowedEvents (from context) (index context)) else "event not allowed here";
                      read_event event parsed context
                  | None => Bad failed "event not allowed here"
                  end
              end
          end
      | Some _ => Bad failed "not an object"
      end
  end.
End Reader.
