(* ===== verification/MessageFacts.v ===== *)
(** * The messages of a direct send: what the reader accepts

    A message the reader accepts is exactly one the writer makes, and the
    writer's bytes read back as the message. *)

From Stdlib Require Import Sorting.Sorted.
From stdpp Require Import sorting.
From S2P Require Import Prelude JsString Utf8 Bytes Json Security DirectConfig Messages.

(** ** Member order *)

Definition key_le (s t : jstr) : Prop := jstr_leb s t = true.
#[global] Instance key_le_antisymm : AntiSymm (=) key_le.
Proof. intros s t. apply jstr_leb_antisym. Qed.

Lemma insert_sorted {A} (m : jstr * A) l :
  StronglySorted key_le (map fst l) → StronglySorted key_le (map fst (insert_member m l)).
Proof.
  induction l as [|n l IH]; intros H; simpl; [by repeat constructor|].
  destruct (jstr_leb m.1 n.1) eqn:E; cbn [map].
  - constructor; [done|]. constructor; [done|]. inversion H as [|? ? Hs Hf]; subst.
    eapply Forall_impl; [exact Hf|]. intros k Hk. by eapply jstr_leb_trans.
  - cbn [map] in H. inversion H as [|? ? Hs Hf]; subst. constructor; [by apply IH|].
    apply jstr_leb_total in E. rewrite Forall_forall in *. intros k Hk.
    rewrite (insert_perm m l) in Hk. cbn [map] in Hk. apply elem_of_cons in Hk as [->|Hk]; [done|by apply Hf].
Qed.

Lemma sort_sorted {A} (l : list (jstr * A)) : StronglySorted key_le (map fst (sort_members l)).
Proof. induction l as [|m l IH]; [constructor|]. by apply insert_sorted. Qed.

(** [hasExactly] of a list of names in order, on members already in order. *)
Lemma exact_members ms names : NoDup (map fst ms) → deep_sort (JObj ms) = JObj ms → hasExactly ms names = true →
  map fst (sort_members (map (λ n, (n, tt)) names)) = names → NoDup names → map fst ms = names.
Proof.
  intros Hnd [= Hs] He Hn Hnn. unfold hasExactly in He. bool_prop. rename He into He'.
  match goal with H : zlen _ = zlen _ |- _ => rename H into Hl end.
  apply (StronglySorted_unique key_le).
  - rewrite <- Hs. apply sort_sorted.
  - rewrite <- Hn. apply sort_sorted.
  - symmetry. apply submseteq_length_Permutation; [|unfold zlen in Hl; lia].
    apply NoDup_submseteq; [done|]. intros k Hk. rewrite forallb_forall in He'.
    specialize (He' k (proj1 (list_elem_of_In _ _) Hk)). apply existsb_exists in He' as (k' & Hk' & E).
    apply eqb_eq in E as ->. by apply list_elem_of_In.
Qed.

(** The members [deep_sort] leaves where they are are themselves in order. *)
Lemma deep_sorted_members ms : NoDup (map fst ms) → deep_sort (JObj ms) = JObj ms →
  Forall (λ m, deep_sort m.2 = m.2) ms.
Proof.
  cbn [deep_sort]. intros Hnd [= H]. set (f := λ m : jstr * json, (m.1, deep_sort m.2)) in *.
  assert (map f ms ≡ₚ ms) as Hp by (rewrite <- H at 2; symmetry; apply sort_perm).
  apply Forall_forall. intros [k v] Hin. assert (f (k, v) ∈ ms) as Hf.
  { rewrite <- Hp. apply list_elem_of_fmap. by exists (k, v). }
  unfold f in Hf. simpl in *. clear -Hnd Hin Hf. induction ms as [|[k' v'] ms IH]; [set_solver|].
  cbn [map fst] in Hnd. apply NoDup_cons in Hnd as [Hk Hnd].
  assert (∀ w, (k, w) ∈ ms → k ∈ map fst ms) as Hkey by (intros w Hw; apply list_elem_of_fmap; by exists (k, w)).
  rewrite !elem_of_cons in *. destruct Hin as [[= <- <-]|Hin], Hf as [[= E]|Hf]; try done; naive_solver.
Qed.

(** ** The shape of the parsed members *)

(** Strip the members of a body that is known to be exactly these. *)
Ltac by_names H :=
  let Hk := fresh "Hk" in
  pose proof H as Hk; apply exact_members in Hk; [|assumption|assumption|reflexivity|];
  [|repeat (constructor; [by rewrite ?elem_of_cons, elem_of_nil; vm_compute; naive_solver|]); constructor].

Definition url_ok (url : jstr) : Prop := ice_url (λ c, negb (is_space c)) url = true ∧ utf8Length url <= urlBytes.

(** A server entry that fits the protocol: one to four short ICE URLs, a user
    name and credential exactly when one of them is a TURN URL. *)
Definition server_ok (s : IceServer) : Prop :=
  1 <= zlen (urls s) <= urlsPerServer ∧ Forall url_ok (urls s) ∧
  let relay := existsb isRelayUrl (urls s) in
  well_formed_secret relay (username s) = true ∧ well_formed_secret relay (credential s) = true.

Lemma read_urls_ok l us : read_urls l = Read us ↔ l = map JStr us ∧ Forall url_ok us.
Proof.
  revert us; induction l as [|v l IH]; intros us; simpl.
  - split; [intros [= <-]; by repeat constructor|]. intros [Hm _]. destruct us; [done|discriminate Hm].
  - split.
    + destruct v as [| | |url| |]; try done. destruct (_ && _) eqn:E; [|done]. bool_prop.
      destruct (read_urls l) as [rest|? ?]; simpl; [|done]. intros [= <-].
      destruct (proj1 (IH rest) eq_refl) as [-> Hf]. split; [done|]. by constructor.
    + intros [Hm Hf]. destruct us as [|u us]; [done|]. injection Hm as -> ->.
      apply Forall_cons in Hf as [[H1 H2] Hf]. rewrite H1. apply Z.leb_le in H2. rewrite H2. simpl.
      by rewrite (proj2 (IH us) (conj eq_refl Hf)).
Qed.

Lemma member_cons k v ms name : member ((k, v) :: ms) name = if eqb k (lit name) then v else member ms name.
Proof. unfold member. simpl. by destruct (eqb k (lit name)). Qed.

Lemma fst_cons_inv (ms : Plain) k ks : map fst ms = k :: ks → ∃ v ms', ms = (k, v) :: ms' ∧ map fst ms' = ks.
Proof. destruct ms as [|[k' v] ms]; [done|]. intros [= -> <-]. by exists v, ms. Qed.

(** Look up the members of an object whose names are literals. *)
Ltac known_members :=
  repeat (rewrite member_cons;
          match goal with |- context [eqb (lit ?a) (lit ?b)] =>
            first [change (eqb (lit a) (lit b)) with true | change (eqb (lit a) (lit b)) with false] end;
          cbv iota).

(** Name the values of a body with exactly these members. *)
Ltac name_values H :=
  repeat match type of H with
  | map fst ?ms = _ :: _ =>
      let v := fresh "v" in let ms' := fresh "ms" in let E := fresh in
      apply fst_cons_inv in H as (v & ms' & E & H); subst ms
  | map fst ?ms = [] => apply map_eq_nil in H; subst ms
  end.

(** A parsed value in canonical order. *)
Definition strict (v : json) : Prop := json_ok v ∧ deep_sort v = v.

Lemma strict_members ms : strict (JObj ms) →
  NoDup (map fst ms) ∧ Forall (λ m, strict m.2) ms.
Proof.
  intros [Hok Hs]. inversion Hok as [| | | | |? Hnd Hks Hvs]; subst. split; [done|].
  apply deep_sorted_members in Hs; [|done]. rewrite Forall_forall in *. intros m Hm. split; auto.
Qed.

Lemma strict_array l : strict (JArr l) → Forall strict l.
Proof.
  intros [Hok Hs]. inversion Hok as [| | | |? Hl|]; subst. cbn [deep_sort] in Hs. injection Hs as Hs. clear Hok.
  induction Hl as [|v l Hv Hl IH]; [constructor|]. cbn [map] in Hs. injection Hs as Hv' Hs.
  constructor; [by split|by apply IH].
Qed.

(** The values of a body that has exactly the members named. *)
Ltac body_values Hs He :=
  let Hn := fresh "Hn" in let Hv := fresh "Hv" in
  pose proof (strict_members _ Hs) as [Hn Hv];
  apply (exact_members _ _ Hn (proj2 Hs)) in He; [|reflexivity|refine (bool_decide_eq_true_1 _ _); reflexivity];
  name_values He; rewrite ?Forall_cons in Hv; cbn [snd] in Hv.

Lemma read_secret_ok relay v s : read_secret relay v = Read s ↔ v = JStr s ∧ well_formed_secret relay s = true.
Proof.
  destruct v as [| | |t| |]; simpl; try (split; [done|by intros [? _]]).
  destruct (well_formed_secret relay t) eqn:E; split; try done.
  - by intros [= <-].
  - by intros [[= ->] _].
  - intros [[= ->] ?]. congruence.
Qed.

Lemma read_bind_ok {A B} (m : read A) (k : A → read B) b : read_bind m k = Read b ↔ ∃ a, m = Read a ∧ k a = Read b.
Proof. destruct m; simpl; naive_solver. Qed.

Lemma read_server_sound v s : strict v → read_server v = Read s → v = ice_json s ∧ server_ok s.
Proof.
  intros Hs H. destruct v as [| | | | |ms]; try done. cbn [read_server] in H.
  destruct (hasExactly ms _) eqn:He; [|done].
  body_values Hs He. revert H. known_members.
  destruct v0 as [| | | |l|]; try done. destruct (_ && _) eqn:El; [|done]. intros Hgo. bool_prop.
  apply read_bind_ok in Hgo as (us & Hu & Hgo). apply read_bind_ok in Hgo as (user & Hn1 & Hgo). apply read_bind_ok in Hgo as (cred & Hn2 & Hgo).
  injection Hgo as <-. apply read_urls_ok in Hu as [-> Hu]. apply read_secret_ok in Hn1 as [-> H1]. apply read_secret_ok in Hn2 as [-> H2].
  unfold server_ok. cbn [urls username credential]. rewrite zlen_map in *. split_and!; done || lia.
Qed.

Lemma read_server_complete s : server_ok s → read_server (ice_json s) = Read s.
Proof.
  intros (Hl & Hu & H1 & H2). unfold ice_json. cbn [read_server].
  change (hasExactly _ _) with true. cbv iota. known_members. rewrite zlen_map.
  rewrite (proj2 (Z.leb_le 1 _)), (proj2 (Z.leb_le _ urlsPerServer)) by lia. cbn [andb].
  rewrite (proj2 (read_urls_ok _ (urls s)) (conj eq_refl Hu)). cbn [read_bind].
  rewrite (proj2 (read_secret_ok _ _ (username s)) (conj eq_refl H1)). cbn [read_bind].
  rewrite (proj2 (read_secret_ok _ _ (credential s)) (conj eq_refl H2)). cbn [read_bind]. by destruct s.
Qed.

Lemma read_servers_sound l ss : Forall strict l → read_servers l = Read ss → l = map ice_json ss ∧ Forall server_ok ss.
Proof.
  intros Hl. revert ss. induction Hl as [|v l Hv Hl IH]; intros ss H; simpl in H; [injection H as <-; by split|].
  apply read_bind_ok in H as (s & Hs & H). apply read_bind_ok in H as (rest & Hr & H). injection H as <-.
  apply read_server_sound in Hs as [-> Hs]; [|done]. destruct (IH rest Hr) as [-> ?]. split; [done|by constructor].
Qed.

Lemma read_servers_complete ss : Forall server_ok ss → read_servers (map ice_json ss) = Read ss.
Proof.
  induction 1 as [|s ss Hs Hss IH]; [done|]. cbn [map read_servers]. rewrite read_server_complete by done. cbn [read_bind].
  by rewrite IH.
Qed.

(** The servers an invite may name on a page built with this allowlist. *)
Definition ice_ok (allowlist : list jstr) (ice : list IceServer) : Prop :=
  1 <= zlen ice <= iceServers ∧ Forall server_ok ice ∧ Forall (λ s, Forall (λ url, url ∈ allowlist) (urls s)) ice.

Lemma forallb_Forall_iff {A} (p : A → bool) (P : A → Prop) l :
  (∀ x, p x = true ↔ P x) → forallb p l = true ↔ Forall P l.
Proof.
  intros Hp. rewrite forallb_forall, Forall_forall. split; intros H x Hx; apply Hp, H, list_elem_of_In, Hx.
Qed.

Lemma allowlist_test allowlist ss :
  forallb (λ server, forallb (λ url, existsb (eqb url) allowlist) (urls server)) ss = true ↔
  Forall (λ s, Forall (λ url, url ∈ allowlist) (urls s)) ss.
Proof.
  apply forallb_Forall_iff. intros s. apply forallb_Forall_iff. intros url. rewrite existsb_exists. split.
  - intros (u & Hu & E). apply eqb_eq in E as ->. by apply list_elem_of_In.
  - intros Hu. exists url. by rewrite eqb_eq, <- list_elem_of_In.
Qed.

Lemma readIce_sound v allowlist ss : strict v → readIce v allowlist = Read ss →
  v = JArr (map ice_json ss) ∧ ice_ok allowlist ss.
Proof.
  intros Hs H. destruct v as [| | | |l|]; try done. cbn [readIce] in H. destruct (_ && _) eqn:El; [|done]. bool_prop.
  apply read_bind_ok in H as (ss' & Hr & H). destruct (forallb _ _) eqn:Ea; [|done]. injection H as ->.
  apply allowlist_test in Ea. apply read_servers_sound in Hr as [-> Hr]; [|by apply strict_array].
  rewrite zlen_map in *. split; [done|]. split; [lia|done].
Qed.

Lemma readIce_complete allowlist ss : ice_ok allowlist ss → readIce (JArr (map ice_json ss)) allowlist = Read ss.
Proof.
  intros (Hl & Hs & Ha). cbn [readIce]. rewrite zlen_map.
  rewrite (proj2 (Z.leb_le 1 _)), (proj2 (Z.leb_le _ iceServers)) by lia. cbn [andb].
  rewrite read_servers_complete by done. cbn [read_bind]. by rewrite (proj2 (allowlist_test _ _) Ha).
Qed.

(** ** The contract of a message *)

Definition event_of (m : DirectMessage) : jstr :=
  match m with
  | Invite _ _ _ _ => lit "invite" | Manifest _ _ _ => lit "manifest" | Accept _ => lit "accept" | Decline => lit "decline"
  | Answer _ _ => lit "answer" | Restart _ => lit "restart" | RestartAnswer _ => lit "restart-answer" | Stop _ => lit "stop"
  end.

Section Contract.
Context `{Unicode}.

Definition type_ok (type : jstr) : Prop :=
  1 <= zlen type <= 255 ∧ CONTROL type = false ∧ toLowerCase type = type.

Definition body_ok (ctx : DecodeContext) (m : DirectMessage) : Prop :=
  match m with
  | Invite _ ice id max => ice_ok (iceAllowlist ctx) ice ∧ isCanonicalId id = true ∧ 1 <= max <= maxPlaintextBytes
  | Manifest name size type =>
      sanitiseFileName name = name ∧ DISGUISING_CHARACTERS name = false ∧ type_ok type ∧
      match max_offered ctx with Some max => size <= max | None => True end
  | Accept sdp | Restart sdp | RestartAnswer sdp => checkSdp sdp = None
  | Answer key sdp => isCanonicalKey key = true ∧ checkSdp sdp = None
  | Decline | Stop _ => True
  end.

(** A message this end takes from that side at that index. *)
Definition message_ok (ctx : DecodeContext) (m : DirectMessage) : Prop :=
  event_of m ∈ allowedEvents (from ctx) (index ctx) ∧ body_ok ctx m.

Lemma read_string_Some v s : read_string v = Some s → v = JStr s.
Proof. destruct v; simpl; congruence. Qed.
Lemma read_number_Some v z : read_number v = Some z → v = JNum (Int z).
Proof. destruct v as [| |[]| | |]; simpl; congruence. Qed.

Lemma read_sdp_ok v sdp : read_sdp v = Read sdp ↔ v = JStr sdp ∧ checkSdp sdp = None.
Proof.
  unfold read_sdp. destruct v as [| | |s| |]; simpl; try (split; [done|by intros [? _]]).
  destruct (checkSdp s) eqn:E; split; try done.
  - intros [[= ->] ?]. congruence.
  - by intros [= <-].
  - by intros [[= ->] _].
Qed.

(** The readers of one event each: what they take is the members of a message. *)
Definition reads (event : jstr) (ctx : DecodeContext) (body : Plain) (m : DirectMessage) : Prop :=
  event = event_of m → body = message_members m ∧ body_ok ctx m.

(** The version and the event the switch has read already. *)
Definition headed (body : Plain) (event : jstr) : Prop :=
  member body "v" = JNum (Int 1) ∧ member body "event" = JStr event.

Ltac headed_values Hh := destruct Hh as [Hv1 Hev]; revert Hv1 Hev; known_members; intros -> ->.

Lemma readSdpMessage_sound body event make m : strict (JObj body) → headed body (lit event) →
  readSdpMessage body event make = Read m →
  ∃ sdp, m = make sdp ∧ body = [(lit "event", JStr (lit event)); (lit "sdp", JStr sdp); (lit "v", JNum (Int 1))] ∧ checkSdp sdp = None.
Proof.
  intros Hs Hh Hr. unfold readSdpMessage in Hr. destruct (hasExactly body _) eqn:He; [|done].
  body_values Hs He. headed_values Hh. revert Hr. known_members. intros Hr.
  apply read_bind_ok in Hr as (sdp & Hsdp & Hr). injection Hr as <-. apply read_sdp_ok in Hsdp as [-> Hc]. by exists sdp.
Qed.

Lemma readInvite_sound body ctx m : strict (JObj body) → headed body (lit "invite") →
  readInvite body ctx = Read m → body = message_members m ∧ body_ok ctx m ∧ event_of m = lit "invite".
Proof.
  intros Hs Hh Hr. unfold readInvite in Hr. destruct (hasExactly body _) eqn:He; [|done].
  body_values Hs He. headed_values Hh. revert Hr. known_members.
  destruct Hv as (_ & _ & _ & Hice & _).
  destruct (read_string v) as [dir|] eqn:E; [|done]. apply read_string_Some in E as ->.
  destruct (eqb dir (lit "to-drop") || eqb dir (lit "from-drop")) eqn:Edir; [|done].
  destruct v1 as [|hide| | | |]; try done.
  destruct (read_string v3) as [id|] eqn:E; [|done]. apply read_string_Some in E as ->.
  destruct (isCanonicalId id) eqn:Eid; [|done].
  destruct (read_number v4) as [max|] eqn:E; [|done]. apply read_number_Some in E as ->.
  destruct (negb (max <? 1)) eqn:E1; [|done]. intros Hr. apply read_bind_ok in Hr as (ice & Hi & Hr).
  destruct (eqb dir (lit "from-drop")) eqn:E2; [done|]. cbn [negb] in Hr.
  destruct (max <=? maxPlaintextBytes) eqn:E3; [|done]. injection Hr as <-. rewrite orb_false_r in Edir. apply eqb_eq in Edir as ->.
  apply readIce_sound in Hi as [-> Hi]; [|done]. bool_prop. by split_and!.
Qed.

Lemma readManifest_sound body ctx m : strict (JObj body) → headed body (lit "manifest") →
  readManifest body ctx = Read m → body = message_members m ∧ body_ok ctx m ∧ event_of m = lit "manifest".
Proof.
  intros Hs Hh Hr. unfold readManifest in Hr. destruct (hasExactly body _) eqn:He; [|done].
  body_values Hs He. headed_values Hh. revert Hr. known_members.
  destruct (read_string v0) as [name|] eqn:E; [|done]. apply read_string_Some in E as ->.
  destruct (eqb (sanitiseFileName name) name) eqn:E1; [|done]. apply eqb_eq in E1.
  destruct (DISGUISING_CHARACTERS name) eqn:E2; [done|]. cbn [negb].
  destruct (read_string v2) as [type|] eqn:E; [|done]. apply read_string_Some in E as ->.
  destruct ((1 <=? zlen type) && _ && _ && _) eqn:E3; [|done]. bool_prop. apply eqb_eq in E3.
  destruct (read_number v1) as [size|] eqn:E; [|done]. apply read_number_Some in E as ->.
  intros Hr. destruct (match max_offered ctx with Some max => size <=? max | None => true end) eqn:E4; [|done]. injection Hr as <-.
  split; [done|]. split; [|done]. split_and!; try done. destruct (max_offered ctx); [by apply Z.leb_le|done].
Qed.

Lemma readAnswer_sound body m ctx : strict (JObj body) → headed body (lit "answer") →
  readAnswer body = Read m → body = message_members m ∧ body_ok ctx m ∧ event_of m = lit "answer".
Proof.
  intros Hs Hh Hr. unfold readAnswer in Hr. destruct (hasExactly body _) eqn:He; [|done].
  body_values Hs He. headed_values Hh. revert Hr. known_members.
  destruct (read_string v0) as [key|] eqn:E; [|done]. apply read_string_Some in E as ->.
  destruct (isCanonicalKey key) eqn:E1; [|done]. intros Hr.
  apply read_bind_ok in Hr as (sdp & Hsdp & Hr). injection Hr as <-. apply read_sdp_ok in Hsdp as [-> Hc]. by split_and!.
Qed.

Lemma readStop_sound body m ctx : strict (JObj body) → headed body (lit "stop") →
  readStop body = Read m → body = message_members m ∧ body_ok ctx m ∧ event_of m = lit "stop".
Proof.
  intros Hs Hh Hr. unfold readStop in Hr. destruct (hasExactly body _) eqn:He; [|done].
  body_values Hs He. headed_values Hh. revert Hr. known_members.
  destruct (read_string v0) as [r|] eqn:E; [|done]. apply read_string_Some in E as ->.
  destruct (eqb r (lit "cancelled")) eqn:E1; [apply eqb_eq in E1 as ->; intros Hr; by injection Hr as <-|].
  destruct (eqb r (lit "unsupported")) eqn:E2; [apply eqb_eq in E2 as ->; intros Hr; by injection Hr as <-|].
  destruct (eqb r (lit "failed")) eqn:E3; [apply eqb_eq in E3 as ->; intros Hr; by injection Hr as <-|done].
Qed.

Lemma read_event_sound event body ctx m : strict (JObj body) → headed body event →
  read_event event body ctx = Read m → body = message_members m ∧ body_ok ctx m ∧ event_of m = event.
Proof.
  intros Hs Hh Hr. unfold read_event in Hr.
  repeat match type of Hr with (if eqb event ?e then _ else _) = _ =>
    destruct (eqb event e) eqn:E; [apply eqb_eq in E; subst event|clear E] end; try done.
  - by apply readInvite_sound.
  - by apply readManifest_sound.
  - apply readSdpMessage_sound in Hr as (sdp & -> & -> & ?); [by split_and!|done..].
  - apply readSdpMessage_sound in Hr as (sdp & -> & -> & ?); [by split_and!|done..].
  - apply readSdpMessage_sound in Hr as (sdp & -> & -> & ?); [by split_and!|done..].
  - destruct (hasExactly body _) eqn:He; [|done]. injection Hr as <-. body_values Hs He. headed_values Hh. done.
  - by apply readAnswer_sound.
  - by apply readStop_sound.
Qed.
End Contract.

(** ** Canonical text *)

Lemma ascii_single c : 0 <= c < 128 → ascii [c].
Proof. intros. constructor; [done|constructor]. Qed.

Lemma join_text_ok c items : 0 <= c < 128 → Forall (λ t, jstr_ok t ∧ lone_surrogate t = false) items →
  jstr_ok (join [c] items) ∧ lone_surrogate (join [c] items) = false.
Proof.
  intros Hc. induction 1 as [|t items [H1 H2] Hi IH]; [by split; [constructor|]|].
  pose proof (ascii_single c Hc) as Ha.
  destruct items as [|u items]; [by split|]. rewrite join_cons. destruct IH as [I1 I2]. split.
  - apply Forall_app. split; [done|]. apply Forall_app. split; [by apply ascii_jstr_ok|done].
  - apply lone_surrogate_app; [done|]. apply lone_surrogate_app; [by apply lone_surrogate_ascii|done].
Qed.

Lemma wrap_text_ok a b t : 0 <= a < 128 → 0 <= b < 128 → jstr_ok t ∧ lone_surrogate t = false →
  jstr_ok (a :: t ++ [b]) ∧ lone_surrogate (a :: t ++ [b]) = false.
Proof.
  intros Ha Hb [H1 H2]. split.
  - constructor; [unfold unit_ok; lia|]. apply Forall_app. split; [done|]. repeat constructor; unfold unit_ok; lia.
  - apply (lone_surrogate_app [a]); [by apply lone_surrogate_ascii, ascii_single|].
    apply lone_surrogate_app; [done|]. by apply lone_surrogate_ascii, ascii_single.
Qed.

Lemma canonical_text_ok v t : json_ok v → canonicalJson v = Ok t → jstr_ok t ∧ lone_surrogate t = false.
Proof.
  revert t. induction v as [|b|n|s|l IH|l IH] using json_nested; intros t Hok H; cbn [canonicalJson] in H; inv_ok.
  - assert (ascii (if b then lit "true" else lit "false")) by (destruct b; solve_ascii).
    split; [by apply ascii_jstr_ok|by apply lone_surrogate_ascii].
  - destruct n as [z| | |]; try done. unfold canonical_int in *. bool_prop.
    assert (ascii (decimal z)).
    { eapply Forall_forallb; [|apply decimal_digits; lia]. intros c. unfold is_digit. rewrite in_range_spec. lia. }
    split; [by apply ascii_jstr_ok|by apply lone_surrogate_ascii].
  - unfold canonical_string in H. inv_ok. inversion Hok; subst. by apply quote_ok.
  - inversion Hok as [| | | |? Hl|]; subst. apply (wrap_text_ok 91 93); [done|done|]. apply join_text_ok; [done|].
    apply rmap_ok_Forall2 in E. clear Hok. induction E as [|v t l ts Hv E IHE]; [constructor|].
    inversion IH; inversion Hl; subst. constructor; auto.
  - inversion Hok as [| | | | |? Hnd Hks Hvs]; subst. apply (wrap_text_ok 123 125); [done|done|]. apply join_text_ok; [done|].
    rewrite sort_perm. apply rmap_ok_Forall2 in E. clear Hok Hnd. induction E as [|m t l ts Hv E IHE]; [constructor|].
    inversion IH; inversion Hks; inversion Hvs; subst. cbn [map]. constructor; [|auto]. unfold canonical_string in Hv. inv_ok. cbn [snd].
    match goal with H : canonicalJson m.2 = Ok ?x, Hi : ∀ t, json_ok m.2 → _ |- _ => destruct (Hi x) as [T1 T2]; [done|done|] end.
    destruct (quote_ok m.1) as [Q1 Q2]; [done|]. split.
    + apply Forall_app. split; [done|]. by constructor.
    + apply lone_surrogate_app; [done|]. apply (lone_surrogate_app [58]); [by apply lone_surrogate_ascii, ascii_single|done].
Qed.

Lemma deep_sort_strings l : map deep_sort (map JStr l) = map JStr l.
Proof. by rewrite map_map. Qed.

Lemma deep_sort_ice s : deep_sort (ice_json s) = ice_json s.
Proof. unfold ice_json. cbn [deep_sort map fst snd]. rewrite deep_sort_strings. reflexivity. Qed.

Lemma deep_sort_message m : deep_sort (JObj (message_members m)) = JObj (message_members m).
Proof.
  destruct m; try reflexivity. cbn [deep_sort message_members map fst snd].
  rewrite map_map, (map_ext _ ice_json) by apply deep_sort_ice. reflexivity.
Qed.

Section Correct.
Context `{Unicode}.

Lemma readSdpMessage_complete event make sdp : checkSdp sdp = None → hasExactly [(lit "event", JStr (lit event)); (lit "sdp", JStr sdp); (lit "v", JNum (Int 1))] [lit "event"; lit "sdp"; lit "v"] = true →
  readSdpMessage [(lit "event", JStr (lit event)); (lit "sdp", JStr sdp); (lit "v", JNum (Int 1))] event make = Read (make sdp).
Proof.
  intros Hc He. unfold readSdpMessage. rewrite He. known_members.
  by rewrite (proj2 (read_sdp_ok _ sdp) (conj eq_refl Hc)).
Qed.

Lemma readManifest_complete ctx name size type : body_ok ctx (Manifest name size type) →
  readManifest (message_members (Manifest name size type)) ctx = Read (Manifest name size type).
Proof.
  intros (Hn & Hd & (Hl & Hc & Ht) & Hm). unfold readManifest. cbn [message_members].
  change (hasExactly _ _) with true. cbv iota. known_members. cbn [read_string read_number].
  rewrite (proj2 (eqb_eq _ _) Hn), Hd, Hc, (proj2 (eqb_eq _ _) Ht).
  rewrite (proj2 (Z.leb_le 1 _)), (proj2 (Z.leb_le _ 255)) by lia. cbn [andb negb].
  destruct (max_offered ctx); [|done]. by rewrite (proj2 (Z.leb_le _ _) Hm).
Qed.

Lemma readInvite_complete ctx hide ice id max : body_ok ctx (Invite hide ice id max) →
  readInvite (message_members (Invite hide ice id max)) ctx = Read (Invite hide ice id max).
Proof.
  intros (Hi & Hid & Hm). unfold readInvite. cbn [message_members].
  change (hasExactly _ _) with true. cbv iota. known_members. unfold text_of. cbn [read_string read_number].
  change (eqb (lit "to-drop") (lit "to-drop")) with true. change (eqb (lit "to-drop") (lit "from-drop")) with false. cbn [orb negb].
  rewrite Hid, (proj2 (Z.ltb_ge max 1)), (proj2 (Z.leb_le max _)) by lia. cbn [negb].
  by rewrite readIce_complete.
Qed.

Lemma readAnswer_complete ctx key sdp : body_ok ctx (Answer key sdp) →
  readAnswer (message_members (Answer key sdp)) = Read (Answer key sdp).
Proof.
  intros (Hk & Hc). unfold readAnswer. cbn [message_members]. change (hasExactly _ _) with true. cbv iota. known_members. cbn [read_string].
  rewrite Hk. by rewrite (proj2 (read_sdp_ok _ sdp) (conj eq_refl Hc)).
Qed.

Ltac event_test := match goal with |- context [eqb (lit ?a) (lit ?b)] =>
  first [change (eqb (lit a) (lit b)) with true | change (eqb (lit a) (lit b)) with false] end; cbv iota.

Lemma read_event_complete ctx m : body_ok ctx m → read_event (event_of m) (message_members m) ctx = Read m.
Proof.
  intros Hm. unfold read_event. destruct m; cbn [event_of]; repeat event_test.
  - by apply readInvite_complete.
  - by apply readManifest_complete.
  - apply (readSdpMessage_complete "accept" Accept); [done|reflexivity].
  - reflexivity.
  - by apply (readAnswer_complete ctx).
  - apply (readSdpMessage_complete "restart" Restart); [done|reflexivity].
  - apply (readSdpMessage_complete "restart-answer" RestartAnswer); [done|reflexivity].
  - by destruct reason.
Qed.

Lemma member_version m : member (message_members m) "v" = JNum (Int 1).
Proof. destruct m; reflexivity. Qed.

Lemma member_event m : member (message_members m) "event" = JStr (event_of m).
Proof. destruct m; reflexivity. Qed.

Lemma existsb_eqb s l : existsb (eqb s) l = true ↔ s ∈ l.
Proof.
  rewrite existsb_exists. split.
  - intros (u & Hu & E). apply eqb_eq in E as ->. by apply list_elem_of_In.
  - intros Hu. exists s. by rewrite eqb_eq, <- list_elem_of_In.
Qed.

Lemma decoded_ok b ctx m : bytes_ok b → decodeMessage b ctx = Read m →
  encodeMessage m = Ok b ∧ message_ok ctx m.
Proof.
  intros Hb Hr. unfold decodeMessage in Hr. destruct (zlen b <=? messageBytes) eqn:Hl; [|done].
  destruct (utf8_decode true b) as [text|] eqn:Hd; [|done]. destruct (utf8_decode_sound b text Hb Hd) as (He & Ht & _).
  destruct (parse text) as [[| | | | |body]|] eqn:Hp; try done.
  destruct (canonicalJson (JObj body)) as [canonical|] eqn:Hc; [|done].
  destruct (eqb canonical text) eqn:Et; [|done]. apply eqb_eq in Et as ->.
  assert (strict (JObj body)) as Hs by (split; [by eapply parse_json_ok|by eapply canonical_sorted]).
  destruct (read_number _) as [version|] eqn:Ev; [|done]. apply read_number_Some in Ev.
  destruct (version =? 1) eqn:E1; [|done]. apply Z.eqb_eq in E1 as ->.
  destruct (read_string _) as [event|] eqn:Ee; [|done]. apply read_string_Some in Ee.
  destruct (existsb _ _) eqn:Ea; [|done]. apply existsb_eqb in Ea.
  apply read_event_sound in Hr as (-> & Hm & <-); [|done|by split].
  unfold encodeMessage. rewrite Hc. cbn [rbind]. rewrite He, Hl. done.
Qed.

(** The reader takes what a writer made of a message it allows. *)
Lemma decode_encoded b ctx m : json_ok (JObj (message_members m)) → message_ok ctx m →
  encodeMessage m = Ok b → decodeMessage b ctx = Read m.
Proof.
  intros Hj (Ha & Hm) He. unfold encodeMessage in He. inv_ok. rename x into text.
  match goal with Hz : (zlen _ <=? _) = true |- _ => rename Hz into Hl end.
  destruct (canonical_text_ok _ _ Hj E) as [H1 H2]. unfold decodeMessage. rewrite Hl, utf8_roundtrip by done.
  rewrite (parse_canonical _ _ Hj E), deep_sort_message, E, (proj2 (eqb_eq text text) eq_refl).
  rewrite member_version, member_event. cbn [read_number read_string Z.eqb Pos.eqb].
  rewrite (proj2 (existsb_eqb _ _) Ha). by apply read_event_complete.
Qed.
(** C36: the reader of a direct-send message takes nothing but what the writer
    of that message makes: the bytes of every message it accepts are
    exactly [encodeMessage] of the result, so no message has two spellings, the
    event is one that side may send at that point of the exchange, and the
    result meets every rule of its kind - each ICE server well formed, within
    the limits and on the build-time allowlist, the file name a fixed point of
    the name rule with no disguising character, every description passing
    [checkSdp], the sizes within the caps. *)
Theorem decodeMessage_sound b ctx m : bytes_ok b → decodeMessage b ctx = Read m →
  encodeMessage m = Ok b ∧ message_ok ctx m.
Proof. apply decoded_ok. Qed.

(** The other side reads back every message a side writes: if the message
    is one the reader takes at that point and the writer's bytes fit, the
    reader returns the message itself. *)
Theorem decodeMessage_encode b ctx m : json_ok (JObj (message_members m)) → message_ok ctx m →
  encodeMessage m = Ok b → decodeMessage b ctx = Read m.
Proof. apply decode_encoded. Qed.
End Correct.

Definition example_sdp : jstr :=
  lit "v=0" ++ CRLF ++ lit "m=application 9 UDP/DTLS/SCTP webrtc-datachannel" ++ CRLF ++ lit "a=fingerprint:sha-256 AB" ++ CRLF.
Definition example_context : DecodeContext := mkDecodeContext page 1 [] None.

Lemma decodeMessage_encode_witness : ∃ b, encodeMessage (Restart example_sdp) = Ok b ∧
  @decodeMessage ascii_unicode b (mkDecodeContext drop 3 [] None) = Read (Restart example_sdp).
Proof.
  eexists. split; [vm_compute; reflexivity|].
  apply (@decodeMessage_encode ascii_unicode).
  - constructor; [refine (bool_decide_eq_true_1 _ _); reflexivity| |]; cbn [message_members];
      repeat (constructor; [cbn [fst snd]; first [by apply ascii_jstr_ok; solve_ascii | constructor; apply ascii_jstr_ok; solve_ascii | constructor]|]); constructor.
  - split; [refine (bool_decide_eq_true_1 _ _); reflexivity|]. vm_compute. reflexivity.
  - vm_compute. reflexivity.
Defined.

Lemma decodeMessage_sound_witness : ∃ b, encodeMessage (Stop cancelled) = Ok b ∧
  @message_ok ascii_unicode (mkDecodeContext page 4 [] None) (Stop cancelled).
Proof.
  exists (lit "{" ++ [34] ++ lit "event" ++ [34] ++ lit ":" ++ [34] ++ lit "stop" ++ [34] ++ lit "," ++ [34] ++ lit "reason" ++ [34] ++
    lit ":" ++ [34] ++ lit "cancelled" ++ [34] ++ lit "," ++ [34] ++ lit "v" ++ [34] ++ lit ":1}").
  apply (@decodeMessage_sound ascii_unicode).
  - vm_compute. repeat (constructor; [split; congruence|]). constructor.
  - vm_compute. reflexivity.
Defined.
