(* ===== verification/Sdp.v ===== *)
(** * Session descriptions ([checkSdp] of [direct/messages.ts])

    The description as lines: what [checkSdp] accepts, and that every message
    which carries an accepted description fits the exchange. *)

From S2P Require Import Prelude JsString Utf8 Bytes Json Security DirectConfig Messages MessageFacts.

Definition line_char (c : Z) : bool := in_range 32 126 c.
Definition end_lines (lines : list jstr) : jstr := flat_map (λ l, l ++ CRLF) lines.

Lemma join_crlf lines : lines ≠ [] → end_lines lines = join CRLF lines ++ CRLF.
Proof.
  induction lines as [|l [|l' lines] IH]; intros H; [done|by rewrite <- (app_nil_r (join _ _ ++ _))|].
  rewrite join_cons. change (end_lines (l :: l' :: lines)) with ((l ++ CRLF) ++ end_lines (l' :: lines)).
  rewrite IH by done. by rewrite <- !app_assoc.
Qed.

Lemma split_crlf_not_nil acc s : split_crlf acc s ≠ [].
Proof.
  remember (length s) as n eqn:Hn. assert (length s <= n)%nat as Hl by lia. clear Hn.
  revert s acc Hl. induction n as [|n IH]; intros [|c s] acc Hl; try done; simpl in Hl; [lia|].
  cbn [split_crlf]. destruct s as [|d s]; [apply IH; simpl; lia|].
  destruct (_ && _); [done|]. apply IH. simpl in *. lia.
Qed.

(** The lines put back together. *)
Lemma join_split_crlf acc s : join CRLF (split_crlf acc s) = rev acc ++ s.
Proof.
  remember (length s) as n eqn:Hn. assert (length s <= n)%nat as Hl by lia. clear Hn.
  revert s acc Hl. induction n as [|n IH]; intros [|c s] acc Hl; simpl in Hl; try lia; try (simpl; by rewrite app_nil_r).
  cbn [split_crlf]. destruct s as [|d s].
  - rewrite IH by (simpl; lia). simpl. by rewrite <- app_assoc.
  - destruct ((c =? 13) && (d =? 10)) eqn:E.
    + bool_prop. subst. destruct (split_crlf [] s) as [|l ls] eqn:El; [by apply split_crlf_not_nil in El|].
      rewrite join_cons, <- El, IH by (simpl in Hl; lia). done.
    + rewrite IH by (simpl in *; lia). simpl. by rewrite <- app_assoc.
Qed.

Definition no_break (l : jstr) : Prop := Forall (λ c, c ≠ 13 ∧ c ≠ 10) l.

(** Without a bare line feed or carriage return, no line holds either. *)
Lemma split_crlf_no_break acc s : bare_break false (s ++ CRLF) = false → no_break acc → Forall no_break (split_crlf acc s).
Proof.
  remember (length s) as n eqn:Hn. assert (length s <= n)%nat as Hl by lia. clear Hn.
  revert s acc Hl. induction n as [|n IH]; intros [|c s] acc Hl Hb Ha; simpl in Hl; try lia;
    try (constructor; [|constructor]; unfold no_break; by rewrite <- Permutation_rev).
  cbn [split_crlf]. cbn [app bare_break] in Hb. destruct (Z.eqb_spec c 10) as [->|H10]; [done|]. cbn [orb] in Hb.
  destruct (Z.eqb_spec c 13) as [->|H13].
  - destruct s as [|d s]; [done|]. cbn [app bare_break] in Hb. destruct (Z.eqb_spec d 10) as [->|]; [|done]. cbn [negb orb andb] in *.
    constructor; [unfold no_break; by rewrite <- Permutation_rev|]. apply IH; [simpl in Hl; lia|done|constructor].
  - cbn [andb]. destruct s as [|d s]; (apply IH; [simpl in *; lia|done|by constructor]).
Qed.

Lemma split_crlf_join acc lines : lines ≠ [] → Forall no_break lines → 
  split_crlf acc (join CRLF lines) = match lines with [] => [] | l :: ls => (rev acc ++ l) :: ls end.
Proof.
  intros Hn Hb. revert acc. induction Hb as [|l lines Hl Hb IH]; [done|]. clear Hn.
  destruct lines as [|l' lines].
  - cbn [join]. induction Hl as [|c l [H13 H10] Hl IHl]; intros acc; [simpl; by rewrite app_nil_r|].
    cbn [split_crlf]. rewrite (proj2 (Z.eqb_neq c 13)) by done. cbn [andb].
    assert (split_crlf (c :: acc) l = [rev acc ++ c :: l]) as E by (rewrite IHl; simpl; by rewrite <- app_assoc).
    by destruct l.
  - rewrite join_cons. induction Hl as [|c l [H13 H10] Hl IHl]; intros acc.
    + change ([] ++ CRLF ++ join CRLF (l' :: lines)) with (13 :: 10 :: join CRLF (l' :: lines)). cbn [split_crlf Z.eqb Pos.eqb andb].
      rewrite IH by done. by rewrite app_nil_r.
    + cbn [app split_crlf]. rewrite (proj2 (Z.eqb_neq c 13)) by done. cbn [andb].
      assert (split_crlf (c :: acc) (l ++ CRLF ++ join CRLF (l' :: lines)) = (rev acc ++ c :: l) :: l' :: lines) as E
        by (rewrite IHl; simpl; by rewrite <- app_assoc).
      by destruct (l ++ CRLF ++ join CRLF (l' :: lines)).
Qed.

Lemma bare_break_line l s : no_break l → bare_break false (l ++ s) = bare_break false s.
Proof.
  induction 1 as [|c l [H13 H10] Hl IH]; [done|]. cbn [app bare_break].
  rewrite (proj2 (Z.eqb_neq c 13)), (proj2 (Z.eqb_neq c 10)) by done. done.
Qed.

Lemma bare_break_lines lines : Forall no_break lines → bare_break false (end_lines lines) = false.
Proof.
  induction 1 as [|l lines Hl Hls IH]; [done|]. cbn [end_lines flat_map]. rewrite <- app_assoc, bare_break_line by done. exact IH.
Qed.

Lemma line_no_break l : forallb line_char l = true → no_break l.
Proof. apply Forall_forallb. intros c. unfold line_char. rewrite in_range_spec. lia. Qed.

(** A description as the page and the node write it: CRLF-ended printable
    lines, version 0 first, one data-channel section and a fingerprint. *)
Definition description (sdp : jstr) : Prop :=
  ∃ lines media, sdp = end_lines lines ∧ zlen sdp <= sdpBytes ∧
    Forall (λ l, forallb line_char l = true) lines ∧ head lines = Some (lit "v=0") ∧
    List.filter (λ l, startsWith l (lit "m=")) lines = [media] ∧
    (∃ port, is_digit (hd 0 port) = true ∧ forallb is_digit port = true ∧
       media = lit "m=application " ++ port ++ lit " UDP/DTLS/SCTP webrtc-datachannel") ∧
    ∃ l, l ∈ lines ∧ startsWith l (lit "a=fingerprint:sha-256 ") = true.

Lemma take_digits_spec s : s = (take_digits s).1 ++ (take_digits s).2 ∧ forallb is_digit (take_digits s).1 = true.
Proof.
  induction s as [|c s [IH1 IH2]]; [done|]. simpl. destruct (is_digit c) eqn:E; [|done]. simpl. rewrite E. split; [by f_equal|done].
Qed.

Lemma media_line_spec l : media_line l = true ↔ ∃ port, is_digit (hd 0 port) = true ∧ forallb is_digit port = true ∧
  l = lit "m=application " ++ port ++ lit " UDP/DTLS/SCTP webrtc-datachannel".
Proof.
  unfold media_line. set (h := lit "m=application "). set (u := lit " UDP/DTLS/SCTP webrtc-datachannel"). split.
  - intros Hl. apply andb_true_iff in Hl as [Hs Hl]. apply startsWith_spec in Hs as (t & ->).
 rewrite drop_app_length in Hl. apply andb_true_iff in Hl as [Hp Hu]. apply eqb_eq in Hu.
    destruct (take_digits_spec t) as [Et Hd]. rewrite Hu in Et. exists (take_digits t).1. split; [|split; [done|by rewrite <- Et]].
    destruct (take_digits t).1 as [|c p]; [done|]. simpl in *. by apply andb_true_iff in Hd as [? _].
  - intros (port & Hp & Hd & ->). assert (startsWith (h ++ port ++ u) h = true) as -> by (apply startsWith_spec; eauto).
 rewrite drop_app_length. cbn [andb].
    rewrite take_digits_app by done. cbn [fst snd]. rewrite (proj2 (eqb_eq u u) eq_refl), andb_true_r. by destruct port.
Qed.

Lemma sdp_chars_ascii s : forallb sdp_char s = true → ascii s.
Proof. apply Forall_forallb. intros c. unfold sdp_char. rewrite !orb_true_iff, !Z.eqb_eq, in_range_spec. lia. Qed.

Lemma endsWith_spec s p : endsWith s p = true ↔ ∃ t, s = t ++ p.
Proof.
  unfold endsWith. rewrite startsWith_spec. split; intros (t & E).
  - exists (rev t). rewrite <- (rev_involutive s), E, rev_app_distr. by rewrite rev_involutive.
  - exists (rev t). by rewrite E, rev_app_distr.
Qed.

Lemma end_lines_chars lines : Forall (λ l, forallb line_char l = true) lines ↔ Forall no_break lines ∧ forallb sdp_char (end_lines lines) = true.
Proof.
  induction lines as [|l lines IH]; [split; [by split; [constructor|]|by constructor]|].
  cbn [end_lines flat_map]. rewrite !Forall_cons, !forallb_app. fold (end_lines lines). change (forallb sdp_char CRLF) with true.
  rewrite andb_true_r, andb_true_iff, IH. split.
  - intros (Hl & Hn & Hc). split_and!; try done; [by apply line_no_break|]. rewrite forallb_forall in *.
    intros c Hin. unfold sdp_char. rewrite orb_true_iff. right. by apply Hl.
  - intros ((Hl & Hn) & Hs & Hc). split_and!; try done. unfold no_break in Hl. rewrite forallb_forall in *. rewrite Forall_forall in Hl.
    intros c Hin. specialize (Hs c Hin). specialize (Hl c (proj2 (list_elem_of_In _ _) Hin)). unfold sdp_char in Hs.
    rewrite !orb_true_iff, !Z.eqb_eq in Hs. unfold line_char. naive_solver.
Qed.

Lemma media_hd media : negb (zlen media =? 1) || negb (media_line (List.hd [] media)) = false ↔ ∃ m, media = [m] ∧ media_line m = true.
Proof.
  rewrite orb_false_iff, !negb_false_iff, Z.eqb_eq. split.
  - intros [Hz Hm]. destruct media as [|m [|? ?]]; unfold zlen in Hz; simpl in *; try lia. eauto.
  - intros (m & -> & Hm). done.
Qed.

Lemma first_line l p r : no_break l → no_break p → startsWith (l ++ CRLF ++ r) (p ++ CRLF) = true ↔ l = p.
Proof.
  intros Hl. revert p. induction Hl as [|c l [H13 H10] Hl IH]; intros p Hp.
  - split; [|by intros <-]. destruct Hp as [|d p [Hd ?] Hp]; [done|]. cbn [app startsWith CRLF]. intros E.
    apply andb_true_iff in E as [E _]. apply Z.eqb_eq in E. by subst.
  - destruct Hp as [|d p Hd Hp].
    { split; [|done]. cbn [app startsWith CRLF]. intros E. apply andb_true_iff in E as [E _]. apply Z.eqb_eq in E. by subst. }
    cbn [app startsWith]. rewrite andb_true_iff, Z.eqb_eq, IH by done. naive_solver.
Qed.

(** [checkSdp] accepts exactly the descriptions made of CRLF-ended lines of
    printable ASCII, at most 8,000 bytes, that open with version 0, hold a
    single media section - a data channel over DTLS - and carry a SHA-256
    fingerprint, so nothing else reaches the browser's parser. *)
Theorem checkSdp_spec sdp : checkSdp sdp = None ↔ description sdp.
Proof.
  unfold checkSdp, description. split.
  - intros Hc. destruct (eqb sdp [] || _) eqn:E0; [done|]. bool_prop.
    destruct (forallb sdp_char sdp) eqn:E1; [|done]. cbn [negb] in Hc.
    destruct (negb _ || negb _) eqn:E2; [done|]. bool_prop. destruct (bare_break false sdp) eqn:E3; [done|].
    apply endsWith_spec in E2 as (t & ->).
    assert (take (length (t ++ CRLF) - 2) (t ++ CRLF) = t) as Ht.
    { rewrite length_app. cbn [length CRLF]. rewrite Nat.add_sub. by rewrite take_app_length. }
    rewrite Ht in Hc. set (lines := split_crlf [] t) in *.
    assert (join CRLF lines = t) as Hj by apply (join_split_crlf []).
    assert (Forall no_break lines) as Hn by (apply split_crlf_no_break; [done|constructor]).
    assert (end_lines lines = t ++ CRLF) as He by (rewrite join_crlf, Hj by apply split_crlf_not_nil; done).
    destruct (negb _ || negb _) eqn:E4; [done|]. apply media_hd in E4 as (media & Em & Hm).
    destruct (existsb _ lines) eqn:E5; [|done]. apply existsb_exists in E5 as (l & Hl & Ef).
    exists lines, media. split; [done|]. split.
    { unfold utf8Length in *. rewrite utf8_encode_ascii in * by by apply sdp_chars_ascii. done. }
    split; [apply end_lines_chars; by rewrite He|]. split.
    { rewrite <- He in *. destruct lines as [|l0 lines']; [done|]. cbn [head]. f_equal.
      apply Forall_cons in Hn as [Hn0 _]. eapply (first_line l0); [done| |].
      - apply line_no_break. reflexivity.
      - match goal with H : startsWith _ _ = true |- _ => cbn [end_lines flat_map] in H; rewrite <- app_assoc in H; exact H end. }
    split; [done|]. split; [by apply media_line_spec|]. exists l. split; [by apply list_elem_of_In|done].
  - intros (lines & media & -> & Hz & Hc & Hv & Hm & Hp & l & Hl & Hf).
    assert (lines ≠ []) as Hne by (by destruct lines). apply end_lines_chars in Hc as [Hn Hc].
    destruct (eqb (end_lines lines) []) eqn:E0.
    { apply eqb_eq in E0. rewrite join_crlf in E0 by done. by destruct (join CRLF lines). }
    unfold utf8Length. rewrite utf8_encode_ascii by by apply sdp_chars_ascii. rewrite (proj2 (Z.ltb_ge sdpBytes _)) by done.
    rewrite Hc, bare_break_lines by done. cbn [orb negb].
    assert (startsWith (end_lines lines) (lit "v=0" ++ CRLF) = true) as ->.
    { destruct lines as [|l0 lines']; [done|]. injection Hv as ->. apply startsWith_spec. cbn [end_lines flat_map]. eauto. }
    assert (endsWith (end_lines lines) CRLF = true) as -> by (apply endsWith_spec; rewrite join_crlf by done; eauto).
    cbn [orb negb].
    assert (split_crlf [] (take (length (end_lines lines) - 2) (end_lines lines)) = lines) as ->.
    { rewrite join_crlf by done. rewrite length_app. cbn [length CRLF]. rewrite Nat.add_sub, take_app_length.
      rewrite split_crlf_join by done. by destruct lines. }
    rewrite (proj2 (media_hd _)) by (exists media; split; [done|by apply media_line_spec]).
    assert (existsb (λ line, startsWith line (lit "a=fingerprint:sha-256 ")) lines = true) as ->; [|done].
    apply existsb_exists. exists l. split; [by apply list_elem_of_In|done].
Qed.

(** ** Room for every description *)

Lemma quote_char_line c : sdp_char c = true → zlen (quote_char c) <= 2 ∧ ascii (quote_char c).
Proof.
  intros Hc. assert (32 <= c <= 126 ∨ c = 10 ∨ c = 13) as Hcc.
  { unfold sdp_char in Hc. rewrite !orb_true_iff, !Z.eqb_eq, in_range_spec in Hc. lia. }
  destruct Hcc as [Hr|[-> | ->]]; [|by split; [by vm_compute|solve_ascii]..].
  assert (ascii [c]) by (by apply ascii_single; lia).
  unfold quote_char. repeat case_match; bool_prop; try lia; (split; [by vm_compute|]); try solve_ascii; try done.
  constructor; [lia|done].
Qed.

Lemma quote_line s : forallb sdp_char s = true → zlen (quote s) <= 2 * zlen s + 2 ∧ ascii (quote s).
Proof.
  intros Hs. assert (zlen (quote_chars s) <= 2 * zlen s ∧ ascii (quote_chars s)) as [Hz Ha].
  { induction s as [|c s IH]; [split; [done|constructor]|]. simpl in Hs. apply andb_true_iff in Hs as [Hc Hs].
    destruct (IH Hs) as [I1 I2]. destruct (quote_char_line c Hc) as [Q1 Q2].
    pose proof (sdp_chars_ascii [c] ltac:(by cbn; rewrite Hc)) as Hac. apply Forall_inv in Hac.
    assert (is_high c = false ∧ is_low c = false) as [Eh El] by (split; apply in_range_false; lia).
    cbn [quote_chars]. rewrite Eh, El. rewrite zlen_app, zlen_cons. split; [lia|]. by apply Forall_app. }
  unfold quote. rewrite zlen_cons, zlen_app. change (zlen [34]) with 1. split; [lia|].
  constructor; [lia|]. apply Forall_app. split; [done|]. by apply ascii_single.
Qed.

Lemma canonical_ascii s : ascii s → canonical_string s = Ok (quote s).
Proof. intros Hs. unfold canonical_string. by rewrite lone_surrogate_ascii. Qed.

Lemma encode_short m text : canonicalJson (JObj (message_members m)) = Ok text → ascii text → zlen text <= messageBytes →
  is_ok (encodeMessage m) = true.
Proof.
  intros Ht Ha Hz. unfold encodeMessage. rewrite Ht. cbn [rbind]. rewrite utf8_encode_ascii by done.
  by rewrite (proj2 (Z.leb_le _ _) Hz).
Qed.

Lemma key_chars key : isCanonicalKey key = true → zlen key = 48 ∧ forallb sdp_char key = true.
Proof.
  unfold isCanonicalKey, KEY. intros Hk. bool_prop. match goal with Hs : startsWith _ _ = true |- _ => apply startsWith_spec in Hs as (t & ->) end.
  change (lit "wbk1_") with [119; 98; 107; 49; 95] in *. cbn [app List.skipn] in *. 
  rewrite drop_0 in *. split; [unfold zlen in *; simpl in *; lia|]. cbn [forallb]. change (forallb sdp_char t = true).
  match goal with Hb : forallb is_b64url t = true |- _ => rename Hb into Hb' end. rewrite forallb_forall in *.
  intros c Hc. specialize (Hb' c Hc). unfold is_b64url, is_alnum, is_digit, is_lower, is_upper, sdp_char in *.
  rewrite !orb_true_iff, !Z.eqb_eq, !in_range_spec in *. lia.
Qed.

(** The text of an object whose members are printable strings and the version. *)
Lemma sdp_text event sdp : checkSdp sdp = None → zlen (lit event) <= 20 → forallb sdp_char (lit event) = true →
  ∃ text, canonicalJson (JObj [(lit "event", text_of event); (lit "sdp", JStr sdp); (lit "v", JNum (Int 1))]) = Ok text ∧
    ascii text ∧ zlen text <= messageBytes.
Proof.
  intros Hc He Hec. apply checkSdp_spec in Hc as (lines & ? & -> & Hz & Hl & _). apply end_lines_chars in Hl as [_ Hs].
  destruct (quote_line _ Hs) as [Q1 Q2]. destruct (quote_line _ Hec) as [R1 R2].
  unfold text_of. cbn [canonicalJson rmap fst snd]. rewrite !(canonical_ascii (lit _)) by first [solve_ascii | by apply sdp_chars_ascii].
  rewrite (canonical_ascii (end_lines lines)) by by apply sdp_chars_ascii.
  set (q := quote (end_lines lines)) in *. set (e := quote (lit event)) in *. clearbody q e. eexists. split; [reflexivity|].
  change (sort_members _) with [(lit "event", quote (lit "event") ++ 58 :: e); (lit "sdp", quote (lit "sdp") ++ 58 :: q); (lit "v", quote (lit "v") ++ 58 :: decimal 1)].
  cbn [map snd join]. unfold messageBytes, sdpBytes in *. split.
  - repeat first [apply Forall_app; split | constructor; [lia|] | done | solve_ascii].
  - repeat rewrite ?zlen_app, ?zlen_cons. change (zlen (quote (lit "event"))) with 7. change (zlen (quote (lit "sdp"))) with 5.
    change (zlen (quote (lit "v"))) with 3. change (zlen (decimal 1)) with 1. change (zlen (@nil Z)) with 0. lia.
Qed.

Lemma answer_text key sdp : isCanonicalKey key = true → checkSdp sdp = None →
  ∃ text, canonicalJson (JObj (message_members (Answer key sdp))) = Ok text ∧ ascii text ∧ zlen text <= messageBytes.
Proof.
  intros Hk Hc. apply checkSdp_spec in Hc as (lines & ? & -> & Hz & Hl & _). apply end_lines_chars in Hl as [_ Hs].
  apply key_chars in Hk as [Hk Hkc]. destruct (quote_line _ Hs) as [Q1 Q2]. destruct (quote_line _ Hkc) as [R1 R2].
  unfold text_of. cbn [message_members canonicalJson rmap fst snd]. unfold text_of. cbn [canonicalJson].
  rewrite !(canonical_ascii (lit _)) by solve_ascii.
  rewrite (canonical_ascii (end_lines lines)), (canonical_ascii key) by by apply sdp_chars_ascii.
  set (q := quote (end_lines lines)) in *. set (k := quote key) in *. clearbody q k. eexists. split; [reflexivity|].
  change (sort_members _) with [(lit "event", quote (lit "event") ++ 58 :: quote (lit "answer")); (lit "key", quote (lit "key") ++ 58 :: k);
    (lit "sdp", quote (lit "sdp") ++ 58 :: q); (lit "v", quote (lit "v") ++ 58 :: decimal 1)].
  cbn [map snd join]. unfold messageBytes, sdpBytes in *. split.
  - repeat first [apply Forall_app; split | constructor; [lia|] | done | solve_ascii].
  - repeat rewrite ?zlen_app, ?zlen_cons. change (zlen (quote (lit "event"))) with 7. change (zlen (quote (lit "sdp"))) with 5.
    change (zlen (quote (lit "answer"))) with 8. change (zlen (quote (lit "key"))) with 5.
    change (zlen (quote (lit "v"))) with 3. change (zlen (decimal 1)) with 1. change (zlen (@nil Z)) with 0. lia.
Qed.

(** A session description that passes [checkSdp] always fits the exchange:
    whatever it escapes to in JSON, the accept, restart, restart answer and
    answer that carry it are written within 16,379 bytes and never refused. *)
Theorem description_fits sdp : checkSdp sdp = None →
  is_ok (encodeMessage (Accept sdp)) = true ∧ is_ok (encodeMessage (Restart sdp)) = true ∧
  is_ok (encodeMessage (RestartAnswer sdp)) = true ∧
  ∀ key, isCanonicalKey key = true → is_ok (encodeMessage (Answer key sdp)) = true.
Proof.
  intros Hc. split_and!.
  - destruct (sdp_text "accept" sdp Hc) as (t & Ht & Ha & Hz); [by vm_compute|done|]. by apply (encode_short _ t).
  - destruct (sdp_text "restart" sdp Hc) as (t & Ht & Ha & Hz); [by vm_compute|done|]. by apply (encode_short _ t).
  - destruct (sdp_text "restart-answer" sdp Hc) as (t & Ht & Ha & Hz); [by vm_compute|done|]. by apply (encode_short _ t).
  - intros key Hk. destruct (answer_text key sdp Hk Hc) as (t & Ht & Ha & Hz). by apply (encode_short _ t).
Qed.
Lemma description_fits_witness : is_ok (encodeMessage (Accept example_sdp)) = true ∧ is_ok (encodeMessage (Restart example_sdp)) = true ∧
  is_ok (encodeMessage (RestartAnswer example_sdp)) = true ∧
  ∀ key, isCanonicalKey key = true → is_ok (encodeMessage (Answer key example_sdp)) = true.
Proof. apply (description_fits example_sdp). reflexivity. Defined.
