(* ===== verification/Transfer.v ===== *)
(** * The transfer over the data channel ([direct/transfer.ts])

    Both ends as state machines. A state holds the variables of
    [sendEnvelope] or [receiveEnvelope], the place its function stands
    at, and what it has put on the wire and handed to the sink. A machine moves
    by events: a frame, the buffer draining, a close, an abort, and a turn of
    its own function between two of its awaits. What the browser decides - is
    the channel open, does [send] throw, how full is the buffer - comes with the
    event. *)

From S2P Require Import Prelude JsString Utf8 Bytes DirectConfig Frames.

(** ** Failures *)

Inductive TransferFailure : Type :=
  | Cancelled | PeerCancelled | PeerFailed | PeerStorage | Protocol
  | Closed | FrameSize | Source | Verification | Storage.

#[global] Instance TransferFailure_eq_dec : EqDecision TransferFailure.
Proof. solve_decision. Defined.

Record TransferError := mkTransferError { kind : TransferFailure; message : string }.

Definition kind_name (k : TransferFailure) : string :=
  match k with
  | Cancelled => "cancelled" | PeerCancelled => "peer-cancelled" | PeerFailed => "peer-failed" | PeerStorage => "peer-storage"
  | Protocol => "protocol" | Closed => "closed" | FrameSize => "frame-size" | Source => "source"
  | Verification => "verification" | Storage => "storage"
  end.

(** [new TransferError(kind)]: the kind is the message. *)
Definition plain_error (k : TransferFailure) : TransferError := mkTransferError k (kind_name k).

Definition failureForStop (code : Z) : TransferFailure :=
  if code =? 1 then PeerCancelled else if code =? 3 then PeerStorage else PeerFailed.

(** ** Pacing *)

(** A byte count, or [Number.POSITIVE_INFINITY]. *)
Inductive amount : Type := Finite (n : Z) | Unlimited.

Definition amount_min (a b : amount) : amount :=
  match a, b with
  | Finite m, Finite n => Finite (Z.min m n)
  | Unlimited, b => b
  | a, Unlimited => a
  end.
Definition amount_positive (a : amount) : bool := match a with Finite n => 0 <? n | Unlimited => true end.

Record PacingState := mkPacingState {
  inFlight : Z; buffered : Z; ps_paused : bool; ps_sent : Z; ps_wanted : Z }.
Record Verdict := mkVerdict { v_bytes : amount; retryMs : option Z }.

Definition protocolPacing (s : PacingState) : Verdict :=
  mkVerdict (Finite (if ps_paused s then 0 else Z.max 0 (unacknowledgedBytes - inFlight s))) None.

(** ** The channel *)

(** What the browser answers while one event is handled: [channel.open],
    whether [send] throws, [bufferedAmount] before and after a send. *)
Record Channel := mkChannel {
  open : bool; send_throws : bool; bufferedAmount : Z; bufferedAfter : Z }.

(** [trySend(channel, frame)] on the frames sent so far. *)
Definition trySend (ch : Channel) (frame : bytes) (out : list bytes) : list bytes :=
  if open ch && negb (send_throws ch) then out ++ [frame] else out.

Definition tryStop (ch : Channel) (stopCode : option Z) (out : list bytes) : list bytes :=
  match stopCode with Some code => trySend ch (encodeStop code) out | None => out end.

(** ** The sender *)

(** What [encoder.next()] settles to. *)
Inductive NextResult : Type := NextRecord (record : bytes) | NextDone | NextRejects (msg : string).

(** An [EnvelopeEncoder]: its header, what each call of [next] gives, and the
    digest and sizes it reports. *)
Record EnvelopeEncoder := mkEncoder {
  header : bytes; nexts : list NextResult; digest : bytes; size : Z; envelopeBytes : Z }.

(** Where [sendEnvelope] stands: in the sending loop, at one of its awaits, or
    settled: resolved, rejected with its failure, or thrown out of by
    [encodeEnd]. *)
Inductive sender_place : Type := AtLoop | AwaitRecord | AwaitRoom | AwaitKept | Sent | SendFailed | SendThrew.

Record Sender := mkSender {
  place : sender_place;
  sent : Z; acknowledged : Z; ended : bool; kept : bool; paused : bool; failure : option TransferError;
  current : bytes; position : Z; upcoming : option NextResult; calls : nat; aborted : bool;
  wire : list bytes; progress : list Z }.

Definition s_fail (ch : Channel) (error : TransferError) (stopCode : option Z) (s : Sender) : Sender :=
  match failure s with
  | Some _ => s
  | None => mkSender (place s) (sent s) (acknowledged s) (ended s) (kept s) (paused s) (Some error)
              (current s) (position s) (upcoming s) (calls s) (aborted s) (tryStop ch stopCode (wire s)) (progress s)
  end.

Definition s_goto (p : sender_place) (s : Sender) : Sender :=
  mkSender p (sent s) (acknowledged s) (ended s) (kept s) (paused s) (failure s)
    (current s) (position s) (upcoming s) (calls s) (aborted s) (wire s) (progress s).

(** [fail(error, stopCode); throw failure]. *)
Definition s_throw (ch : Channel) (error : TransferError) (stopCode : option Z) (s : Sender) : Sender :=
  s_goto SendFailed (s_fail ch error stopCode s).

Definition s_report (n : Z) (s : Sender) : Sender :=
  mkSender (place s) (sent s) (acknowledged s) (ended s) (kept s) (paused s) (failure s)
    (current s) (position s) (upcoming s) (calls s) (aborted s) (wire s) (progress s ++ [n]).

(** [frame(bytes)]. *)
Definition s_frame (ch : Channel) (b : bytes) (s : Sender) : Sender :=
  if bool_decide (is_Some (failure s)) || kept s then s
  else match decodeFrame receiver b with
  | Throw msg => s_fail ch (mkTransferError Protocol msg) (Some 2) s
  | Ok (FAck next) =>
      if (next <=? acknowledged s) || (sent s <? next)
      then s_fail ch (mkTransferError Protocol "An ACK that does not move forward within what was sent.") (Some 2) s
      else s_report next (mkSender (place s) (sent s) next (ended s) (kept s) (paused s) (failure s)
             (current s) (position s) (upcoming s) (calls s) (aborted s) (wire s) (progress s))
  | Ok FKept =>
      if negb (ended s) then s_fail ch (mkTransferError Protocol "KEPT before END.") (Some 2) s
      else mkSender (place s) (sent s) (acknowledged s) (ended s) true (paused s) (failure s)
             (current s) (position s) (upcoming s) (calls s) (aborted s) (wire s) (progress s)
  | Ok (FStop code) => s_fail ch (plain_error (failureForStop code)) None s
  | Ok _ => s_fail ch (mkTransferError Protocol "A frame the sender does not read.") (Some 2) s
  end.

Definition s_low (s : Sender) : Sender :=
  mkSender (place s) (sent s) (acknowledged s) (ended s) (kept s) false (failure s)
    (current s) (position s) (upcoming s) (calls s) (aborted s) (wire s) (progress s).

Definition s_closed (ch : Channel) (s : Sender) : Sender :=
  if kept s then s else s_fail ch (plain_error Closed) None s.

Definition s_abort (ch : Channel) (s : Sender) : Sender :=
  s_fail ch (plain_error Cancelled) (Some 1)
    (mkSender (place s) (sent s) (acknowledged s) (ended s) (kept s) (paused s) (failure s)
      (current s) (position s) (upcoming s) (calls s) true (wire s) (progress s)).

Section Sender.
Context (encoder : EnvelopeEncoder).
(** [channel.maxMessageSize]. *)
Context (maxMessageSize : Z).

Let total : Z := envelopeBytes encoder.
Let frameSize : Z := Z.min maxMessageSize frameBytes.
Let room : Z := frameSize - DATA_HEADER_BYTES.

(** [prefetch()]: ask for the next record unless one is on its way. *)
Definition prefetch (s : Sender) : Sender :=
  match upcoming s with
  | Some _ => s
  | None => mkSender (place s) (sent s) (acknowledged s) (ended s) (kept s) (paused s) (failure s)
              (current s) (position s) (Some (nth (calls s) (nexts encoder) NextDone)) (S (calls s)) (aborted s) (wire s) (progress s)
  end.

Definition s_start : Sender :=
  mkSender AtLoop 0 0 false false false None (header encoder) 0 None 0 false [] [].

(** From the call to the first turn of the loop; [already] is [signal.aborted]. *)
Definition sendEnvelope_start (ch : Channel) (already : bool) : Sender :=
  let s := if already then s_abort ch s_start else s_start in
  let s := if open ch then s else s_fail ch (plain_error Closed) None s in
  let s := if frameSize <? minFrameBytes then s_fail ch (plain_error FrameSize) (Some 2) s else s in
  match failure s with
  | Some _ => s_goto SendFailed s
  | None => prefetch (s_report 0 s)
  end.

(** The part of the loop that asks the pacing rule and sends one DATA frame. *)
Definition send_frame (ch : Channel) (pacing : PacingState → Verdict) (s : Sender) : Sender :=
  match failure s with
  | Some _ => s_goto SendFailed s
  | None =>
      let wanted := Z.min room (Z.min (zlen (current s) - position s) (total - sent s)) in
      let verdict := pacing (mkPacingState (sent s - acknowledged s) (bufferedAmount ch) (paused s) (sent s) wanted) in
      let window := unacknowledgedBytes - (sent s - acknowledged s) in
      let allowed := match v_bytes verdict with Finite n => Z.min n window | Unlimited => window end in
      if 0 <? allowed then
        let take := Z.min wanted allowed in
        match encodeData (sent s) (slice (position s) (position s + take) (current s)) with
        | Ok frame =>
            if send_throws ch then s_throw ch (plain_error Closed) None s
            else mkSender AtLoop (sent s + take) (acknowledged s) (ended s) (kept s)
                   (if highWaterBytes <? bufferedAfter ch then true else paused s) (failure s)
                   (current s) (position s + take) (upcoming s) (calls s) (aborted s) (wire s ++ [frame]) (progress s)
        | Throw _ => s_throw ch (plain_error Closed) None s
        end
      else s_goto AwaitRoom s
  end.

(** What follows [await upcoming]. *)
Definition record_arrives (ch : Channel) (pacing : PacingState → Verdict) (s : Sender) : Sender :=
  match upcoming s with
  | Some (NextRejects msg) =>
      match failure s with
      | Some _ => s_goto SendFailed s
      | None => if aborted s then s_throw ch (mkTransferError Cancelled msg) (Some 1) s
                else s_throw ch (mkTransferError Source msg) (Some 2) s
      end
  | Some (NextRecord record) =>
      send_frame ch pacing (prefetch
        (mkSender (place s) (sent s) (acknowledged s) (ended s) (kept s) (paused s) (failure s)
           record 0 None (calls s) (aborted s) (wire s) (progress s)))
  | Some NextDone | None => s_throw ch (mkTransferError Source "The envelope ended early.") (Some 2) s
  end.

(** One turn of [sendEnvelope], up to its next await or its next frame. *)
Definition s_turn (ch : Channel) (pacing : PacingState → Verdict) (s : Sender) : Sender :=
  match place s with
  | AtLoop =>
      if sent s <? total then
        (if position s =? zlen (current s) then s_goto AwaitRecord s else send_frame ch pacing s)
      else
        match encodeEnd (digest encoder) (size encoder) with
        | Ok frame =>
            mkSender AwaitKept (sent s) (acknowledged s) true (kept s) (paused s) (failure s)
              (current s) (position s) (upcoming s) (calls s) (aborted s) (trySend ch frame (wire s)) (progress s)
        | Throw _ => s_goto SendThrew s
        end
  | AwaitRecord => record_arrives ch pacing s
  | AwaitRoom => send_frame ch pacing s
  | AwaitKept =>
      match failure s with
      | Some _ => s_goto SendFailed s
      | None => if kept s then s_goto Sent s else s
      end
  | Sent | SendFailed | SendThrew => s
  end.

Inductive sender_event : Type :=
  | SFrame (ch : Channel) (b : bytes) | SLow | SClosed (ch : Channel) | SAbort (ch : Channel)
  | STurn (ch : Channel) (pacing : PacingState → Verdict).

(** Whether the handlers are still attached. *)
Definition s_listening (s : Sender) : bool :=
  match place s with Sent | SendFailed | SendThrew => false | _ => true end.

(** Inside the loop the function is running, and no handler runs until it
    awaits. *)
Definition s_waiting (s : Sender) : bool :=
  match place s with AwaitRecord | AwaitRoom | AwaitKept => true | _ => false end.

(** The next state, or [None] for an event that cannot happen now. *)
Definition s_step (s : Sender) (e : sender_event) : option Sender :=
  match e with
  | SFrame ch b => if s_waiting s then Some (s_frame ch b s) else None
  | SLow => if s_waiting s then Some (s_low s) else None
  | SClosed ch => if s_waiting s then Some (s_closed ch s) else None
  | SAbort ch => if s_waiting s then Some (s_abort ch s) else None
  | STurn ch pacing => if s_listening s then Some (s_turn ch pacing s) else None
  end.

(** A run of [sendEnvelope]. *)
Fixpoint s_run (s : Sender) (events : list sender_event) : option Sender :=
  match events with
  | [] => Some s
  | e :: events => match s_step s e with Some s' => s_run s' events | None => None end
  end.
End Sender.

(** ** The receiver *)

(** Work on the sink, in the order it was queued. *)
Inductive sink_step : Type := WriteStep (chunk : bytes) | EndStep (sha256 : bytes) (end_size : Z).

(** The sink's calls as they happen, and [end] resolving. *)
Inductive sink_call : Type := SinkWrite (chunk : bytes) | SinkEnd (sha256 : bytes) (end_size : Z) | SinkEnded | SinkAbort.

(** What a call on the sink settles to. *)
Inductive sink_result : Type := SinkOk | SinkStorageError (msg : string) | SinkRefuses (msg : string).

Inductive receiver_place : Type := Receiving | Settling | Received | ReceiveFailed.
#[global] Instance receiver_place_eq_dec : EqDecision receiver_place.
Proof. solve_decision. Defined.

Record Receiver := mkReceiver {
  r_place : receiver_place;
  received : Z; written : Z; lastAck : Z; endSeen : bool; done : bool; r_failure : option TransferError;
  queue : list sink_step; running : option sink_step; r_wire : list bytes; sink : list sink_call; r_progress : list Z }.

Definition r_fail (ch : Channel) (error : TransferError) (stopCode : option Z) (r : Receiver) : Receiver :=
  if bool_decide (is_Some (r_failure r)) || done r then r
  else mkReceiver (r_place r) (received r) (written r) (lastAck r) (endSeen r) (done r) (Some error)
         (queue r) (running r) (tryStop ch stopCode (r_wire r)) (sink r) (r_progress r).

Definition r_protocol (ch : Channel) (msg : string) (r : Receiver) : Receiver :=
  r_fail ch (mkTransferError Protocol msg) (Some 2) r.

Section Receiver.
(** [options.envelopeBytes] and [options.plaintextBytes]. *)
Context (total plaintextBytes : Z).

Definition r_data (ch : Channel) (offset : Z) (chunk : bytes) (r : Receiver) : Receiver :=
  let length := zlen chunk in
  if endSeen r then r_protocol ch "DATA after END." r
  else if negb (offset =? received r) then r_protocol ch "DATA that leaves a gap or an overlap." r
  else if total <? received r + length then r_protocol ch "DATA past the end of the envelope." r
  else if unacknowledgedBytes <? received r + length - lastAck r then r_protocol ch "More than 8 MiB beyond the last ACK." r
  else mkReceiver (r_place r) (received r + length) (written r) (lastAck r) (endSeen r) (done r) (r_failure r)
         (queue r ++ [WriteStep chunk]) (running r) (r_wire r) (sink r) (r_progress r).

Definition r_end (ch : Channel) (sha256 : bytes) (end_size : Z) (r : Receiver) : Receiver :=
  if endSeen r then r_protocol ch "A second END." r
  else if negb (received r =? total) then r_protocol ch "END before every byte arrived." r
  else if negb (end_size =? plaintextBytes) then
    r_fail ch (mkTransferError Verification "END names a different size from the manifest.") (Some 2) r
  else mkReceiver (r_place r) (received r) (written r) (lastAck r) true (done r) (r_failure r)
         (queue r ++ [EndStep sha256 end_size]) (running r) (r_wire r) (sink r) (r_progress r).

Definition r_frame (ch : Channel) (b : bytes) (r : Receiver) : Receiver :=
  if bool_decide (is_Some (r_failure r)) || done r then r
  else match decodeFrame sender b with
  | Throw msg => r_protocol ch msg r
  | Ok (FData offset chunk) => r_data ch offset chunk r
  | Ok (FEnd sha256 end_size) => r_end ch sha256 end_size r
  | Ok (FStop code) => r_fail ch (plain_error (failureForStop code)) None r
  | Ok _ => r_protocol ch "A frame the receiver does not read." r
  end.

Definition r_closed (ch : Channel) (r : Receiver) : Receiver :=
  if done r then r else r_fail ch (plain_error Closed) None r.

Definition r_abort (ch : Channel) (r : Receiver) : Receiver := r_fail ch (plain_error Cancelled) (Some 1) r.

Definition r_set_running (q : list sink_step) (cur : option sink_step) (calls : list sink_call) (r : Receiver) : Receiver :=
  mkReceiver (r_place r) (received r) (written r) (lastAck r) (endSeen r) (done r) (r_failure r)
    q cur (r_wire r) (sink r ++ calls) (r_progress r).

(** The next step of the queue begins, or is skipped after a failure. *)
Definition r_begin (r : Receiver) : Receiver :=
  match running r, queue r with
  | None, step :: q =>
      match r_failure r with
      | Some _ => r_set_running q None [] r
      | None => r_set_running q (Some step)
                  [match step with WriteStep chunk => SinkWrite chunk | EndStep sha256 n => SinkEnd sha256 n end] r
      end
  | _, _ => r
  end.

(** [sendOrThrow(frame)]. *)
Definition r_send (ch : Channel) (frame : bytes) (r : Receiver) : res Receiver :=
  check negb (send_throws ch) else "closed";
  Ok (mkReceiver (r_place r) (received r) (written r) (lastAck r) (endSeen r) (done r) (r_failure r)
        (queue r) (running r) (r_wire r ++ [frame]) (sink r) (r_progress r)).

(** A write has resolved: count it, acknowledge it when it is time. *)
Definition r_wrote (ch : Channel) (length : Z) (r : Receiver) : Receiver :=
  let w := written r + length in
  let due := (ackEveryBytes <=? w - lastAck r) || (w =? total) in
  let r' := mkReceiver (r_place r) (received r) w (if due then w else lastAck r) (endSeen r) (done r) (r_failure r)
              (queue r) (running r) (r_wire r) (sink r) (r_progress r) in
  let reported (r : Receiver) :=
    mkReceiver (r_place r) (received r) (written r) (lastAck r) (endSeen r) (done r) (r_failure r)
      (queue r) (running r) (r_wire r) (sink r) (r_progress r ++ [w]) in
  if due then
    match encodeAck w with
    | Ok frame =>
        match r_send ch frame r' with
        | Ok r'' => reported r''
        | Throw _ => r_fail ch (plain_error Closed) None r'
        end
    | Throw msg => r_fail ch (mkTransferError Verification msg) (Some 2) r'
    end
  else reported r'.

(** [sink.end] has resolved: say KEPT. *)
Definition r_ended (ch : Channel) (r : Receiver) : Receiver :=
  match r_send ch encodeKept r with
  | Ok r' => mkReceiver (r_place r') (received r') (written r') (lastAck r') (endSeen r') true (r_failure r')
               (queue r') (running r') (r_wire r') (sink r') (r_progress r')
  | Throw _ => r_fail ch (plain_error Closed) None r
  end.

(** The call on the sink settles. *)
Definition r_settle (ch : Channel) (result : sink_result) (r : Receiver) : Receiver :=
  match running r with
  | None => r
  | Some step =>
      match result, step with
      | SinkOk, WriteStep chunk => r_wrote ch (zlen chunk) (r_set_running (queue r) None [] r)
      | SinkOk, EndStep _ _ => r_ended ch (r_set_running (queue r) None [SinkEnded] r)
      | SinkStorageError msg, _ => r_fail ch (mkTransferError Storage msg) (Some 3) (r_set_running (queue r) None [] r)
      | SinkRefuses msg, _ => r_fail ch (mkTransferError Verification msg) (Some 2) (r_set_running (queue r) None [] r)
      end
  end.

Definition r_goto (p : receiver_place) (calls : list sink_call) (r : Receiver) : Receiver :=
  mkReceiver p (received r) (written r) (lastAck r) (endSeen r) (done r) (r_failure r)
    (queue r) (running r) (r_wire r) (sink r ++ calls) (r_progress r).

(** One turn of [receiveEnvelope]: the wait, then the way out. *)
Definition r_turn (r : Receiver) : Receiver :=
  match r_place r with
  | Receiving =>
      match r_failure r with
      | Some _ => r_goto Settling [] r
      | None => if done r then r_goto Received [] r else r
      end
  | Settling =>
      match running r, queue r with
      | None, [] => r_goto ReceiveFailed [SinkAbort] r
      | _, _ => r
      end
  | Received | ReceiveFailed => r
  end.

Definition receiveEnvelope_start (ch : Channel) (already : bool) : Receiver :=
  let r := mkReceiver Receiving 0 0 0 false false None [] None [] [] [] in
  let r := if already then r_abort ch r else r in
  if open ch then r else r_fail ch (plain_error Closed) None r.

Inductive receiver_event : Type :=
  | RFrame (ch : Channel) (b : bytes) | RClosed (ch : Channel) | RAbort (ch : Channel)
  | RBegin | RSettle (ch : Channel) (result : sink_result) | RTurn.

Definition r_listening (r : Receiver) : bool :=
  match r_place r with Received | ReceiveFailed => false | _ => true end.

Definition r_step (r : Receiver) (e : receiver_event) : Receiver :=
  match e with
  | RFrame ch b => if r_listening r then r_frame ch b r else r
  | RClosed ch => if r_listening r then r_closed ch r else r
  | RAbort ch => if r_listening r then r_abort ch r else r
  | RBegin => r_begin r
  | RSettle ch result => r_settle ch result r
  | RTurn => r_turn r
  end.

Definition r_run (r : Receiver) (events : list receiver_event) : Receiver := foldl r_step r events.
End Receiver.
