(* ===== verification/SenderFacts.v ===== *)
(** * The sender of a transfer: what it puts on the wire

    The invariant of [sendEnvelope] and its preservation by every event. *)

From S2P Require Import Prelude JsString Utf8 Bytes DirectConfig Frames Transfer.

(** The DATA frames that carry these chunks from an offset on. *)
Fixpoint data_frames (at_ : Z) (chunks : list bytes) : list bytes :=
  match chunks with
  | [] => []
  | c :: chunks => (type_data :: u64 at_ ++ c) :: data_frames (at_ + zlen c) chunks
  end.

Lemma data_frames_snoc at_ chunks c :
  data_frames at_ (chunks ++ [c]) = data_frames at_ chunks ++ [type_data :: u64 (at_ + zlen (mjoin chunks)) ++ c].
Proof.
  revert at_; induction chunks as [|d chunks IH]; intros at_; simpl.
  - by rewrite Z.add_0_r.
  - rewrite IH. rewrite zlen_app, Z.add_assoc. done.
Qed.

Section Sender.
Context (encoder : EnvelopeEncoder) (maxMessageSize : Z).

Notation total := (envelopeBytes encoder).
Notation room := (Z.min maxMessageSize frameBytes - DATA_HEADER_BYTES).

(** What follows the DATA frames: END once the loop is left, if the channel
    took it, and at most one STOP after a failure. *)
Definition tail_ok (s : Sender) (tail : list bytes) : Prop :=
  ∃ e p, tail = e ++ p ∧
    (e = [] ∨ ended s = true ∧ ∃ b, encodeEnd (digest encoder) (size encoder) = Ok b ∧ e = [b]) ∧
    (p = [] ∨ is_Some (failure s) ∧ ∃ code, 1 <= code <= 3 ∧ p = [encodeStop code]).

(** [chunks] are what the frames carried, [recs] the records read so far. *)
Record sender_inv (chunks recs : list bytes) (s : Sender) : Prop := {
  inv_records : ∃ rest, nexts encoder = map NextRecord recs ++ rest;
  inv_calls : calls s = (length recs + if upcoming s then 1 else 0)%nat;
  inv_upcoming : ∀ n, upcoming s = Some n → n = nth (length recs) (nexts encoder) NextDone;
  inv_position : 0 <= position s <= zlen (current s);
  inv_stream : mjoin chunks ++ List.skipn (Z.to_nat (position s)) (current s) = header encoder ++ mjoin recs;
  inv_sent : sent s = zlen (mjoin chunks);
  inv_chunks : Forall (λ c, 1 <= zlen c <= room) chunks;
  inv_wire : ∃ tail, wire s = data_frames 0 chunks ++ tail ∧ tail_ok s tail;
  inv_window : 0 <= acknowledged s <= sent s;
  inv_inflight : sent s - acknowledged s <= unacknowledgedBytes;
  inv_total : sent s <= Z.max 0 total;
  inv_progress : progress s ≠ [] → List.last (progress s) 0 = acknowledged s ∧ Forall (λ n, 0 <= n <= acknowledged s) (progress s);
  inv_await : place s = AwaitRecord → position s = zlen (current s);
  inv_loop : place s = AtLoop → failure s = None;
  inv_ended : match place s with AtLoop | AwaitRecord | AwaitRoom => ended s = false | AwaitKept | Sent => ended s = true | SendFailed | SendThrew => True end;
  inv_end_sent : ended s = true → total <= sent s;
  inv_kept : kept s = true → ended s = true;
  inv_settled : place s = Sent → kept s = true ∧ failure s = None;
  inv_failed : place s = SendFailed → is_Some (failure s);
}.

(** Failing sends at most one STOP, and only the first failure counts. *)
Lemma tail_fail ch error code s s' w : (match code with Some c => 1 <= c <= 3 | None => True end) →
  failure s = None → failure s' = Some error → ended s' = ended s →
  (∃ tail, wire s = w ++ tail ∧ tail_ok s tail) → ∃ tail, tryStop ch code (wire s) = w ++ tail ∧ tail_ok s' tail.
Proof.
  intros Hc Hf Hf' He' (tail & Hw & e & p & -> & He & Hp). unfold tail_ok. rewrite Hf' , He'. rewrite Hf in Hp.
  destruct Hp as [->|[[? ?] _]]; [|done]. rewrite app_nil_r in Hw. rewrite Hw.
  assert (∃ tail : list bytes, w ++ e = w ++ tail ∧ ∃ e0 p, tail = e0 ++ p ∧
     (e0 = [] ∨ ended s = true ∧ ∃ b, encodeEnd (digest encoder) (size encoder) = Ok b ∧ e0 = [b]) ∧
     (p = [] ∨ is_Some (Some error) ∧ ∃ code, 1 <= code <= 3 ∧ p = [encodeStop code])) as Hskip.
  { exists e. split; [done|]. exists e, []. rewrite app_nil_r. split_and!; [done|done|by left]. }
  unfold tryStop, trySend. destruct code as [c|]; [|done]. destruct (open ch && negb (send_throws ch)); [|done].
  exists (e ++ [encodeStop c]). rewrite app_assoc. split; [done|]. exists e, [encodeStop c]. split_and!; [done|done|].
  right. split; [done|]. by exists c.
Qed.

Lemma inv_fail chunks recs ch error code s : (match code with Some c => 1 <= c <= 3 | None => True end) →
  place s ≠ AtLoop → place s ≠ Sent → sender_inv chunks recs s → sender_inv chunks recs (s_fail ch error code s).
Proof.
  intros Hc Hp Hs Hi. unfold s_fail. destruct (failure s) eqn:Ef; [done|]. destruct Hi. split; cbn; try done.
  by apply (tail_fail ch error code s).
Qed.

Lemma inv_throw chunks recs ch error code s : (match code with Some c => 1 <= c <= 3 | None => True end) →
  sender_inv chunks recs s → sender_inv chunks recs (s_throw ch error code s).
Proof.
  intros Hc Hi. unfold s_throw, s_fail. destruct (failure s) eqn:Ef.
  - destruct Hi. split; cbn; rewrite ?Ef; try done.
  - destruct Hi. split; cbn; try done. by apply (tail_fail ch error code s).
Qed.

Lemma inv_goto chunks recs p s : (p = AtLoop → failure s = None) →
  match p with AtLoop | AwaitRecord | AwaitRoom => ended s = false | AwaitKept | Sent => ended s = true | SendFailed | SendThrew => True end →
  (p = Sent → kept s = true ∧ failure s = None) → (p = SendFailed → is_Some (failure s)) →
  (p = AwaitRecord → position s = zlen (current s)) →
  sender_inv chunks recs s → sender_inv chunks recs (s_goto p s).
Proof. intros H1 H2 H3 H4 H5 []. by split. Qed.

Lemma inv_waiting_place s : s_waiting s = true → place s ≠ AtLoop ∧ place s ≠ Sent ∧ place s ≠ SendFailed.
Proof. unfold s_waiting. by destruct (place s). Qed.

Lemma Forall_le_mono (l : list Z) a b : a <= b → Forall (λ n, 0 <= n <= a) l → Forall (λ n, 0 <= n <= b) l.
Proof. intros Hab Hl. eapply Forall_impl; [exact Hl|]. simpl. lia. Qed.

Lemma inv_frame chunks recs ch b s : s_waiting s = true → sender_inv chunks recs s → sender_inv chunks recs (s_frame ch b s).
Proof.
  intros Hw Hi. destruct (inv_waiting_place s Hw) as (P1 & P2 & P3). unfold s_frame. destruct (bool_decide (is_Some (failure s)) || kept s) eqn:Ek; [done|].
  apply orb_false_iff in Ek as [Ef Ek]. apply bool_decide_eq_false in Ef.
  destruct (decodeFrame receiver b) as [[| next | | | code]|]; try (apply inv_fail; done || lia).
  - destruct ((next <=? acknowledged s) || (sent s <? next)) eqn:E; [by apply inv_fail|]. bool_prop.
    destruct Hi. split; cbn; try done; try lia.
    intros _. rewrite List.last_last. split; [done|]. apply Forall_app. split; [|repeat constructor; lia].
    destruct (progress s) eqn:Ep; [constructor|]. rewrite <- Ep in *. destruct inv_progress0 as [_ Hf]; [congruence|].
    eapply Forall_le_mono; [|exact Hf]. lia.
  - destruct (negb (ended s)) eqn:Ee; [by apply inv_fail|]. apply negb_false_iff in Ee. by destruct Hi.
Qed.

Lemma inv_low chunks recs s : sender_inv chunks recs s → sender_inv chunks recs (s_low s).
Proof. by intros []. Qed.

Lemma inv_abort chunks recs ch s : s_waiting s = true → sender_inv chunks recs s → sender_inv chunks recs (s_abort ch s).
Proof.
  intros Hw Hi. destruct (inv_waiting_place s Hw) as (P1 & P2 & P3). apply inv_fail; [lia|done|done|]. by destruct Hi.
Qed.

Lemma inv_closed chunks recs ch s : s_waiting s = true → sender_inv chunks recs s → sender_inv chunks recs (s_closed ch s).
Proof.
  intros Hw Hi. destruct (inv_waiting_place s Hw) as (P1 & P2 & P3). unfold s_closed. destruct (kept s); [done|]. by apply inv_fail.
Qed.

Lemma inv_prefetch chunks recs s : upcoming s = None → sender_inv chunks recs s → sender_inv chunks recs (prefetch encoder s).
Proof.
  intros Hu []. unfold prefetch. rewrite Hu in *. split; cbn; try done.
  - rewrite inv_calls0. lia.
  - intros n [= <-]. by rewrite inv_calls0, Nat.add_0_r.
Qed.

Lemma nexts_record (recs : list bytes) (rest : list NextResult) r :
  nth (length recs) (map NextRecord recs ++ rest) NextDone = NextRecord r → ∃ rest', rest = NextRecord r :: rest'.
Proof.
  rewrite app_nth2; rewrite length_map; [|lia]. rewrite Nat.sub_diag. destruct rest as [|n rest]; [done|]. intros [= ->]. by eexists.
Qed.

(** One chunk more of the stream is on the wire. *)
Lemma inv_send_frame chunks recs ch pacing s : ended s = false →
  sender_inv chunks recs s → ∃ chunks', sender_inv chunks' recs (send_frame encoder maxMessageSize ch pacing s).
Proof.
  intros He Hi. unfold send_frame. destruct (failure s) eqn:Ef.
  { exists chunks. apply inv_goto; try done. }
  set (wanted := Z.min _ (Z.min _ _)). set (verdict := pacing _). set (allowed := match v_bytes verdict with Finite n => _ | Unlimited => _ end).
  assert (allowed <= unacknowledgedBytes - (sent s - acknowledged s)) as Ha by (unfold allowed; destruct (v_bytes verdict); lia).
  clearbody allowed. destruct (0 <? allowed) eqn:E0; [|by exists chunks; apply inv_goto].
  destruct (encodeData _ _) as [frame|] eqn:E; [|by exists chunks; apply inv_throw].
  destruct (send_throws ch); [by exists chunks; apply inv_throw|].
  apply encodeData_ok in E as (Hu & Hlen & ->). set (c := slice _ _ _) in *. exists (chunks ++ [c]). bool_prop.
  assert (zlen c = Z.min wanted allowed) as Hc.
  { destruct Hi. unfold c. rewrite zlen_slice_min by lia. unfold c in Hlen. rewrite zlen_slice_min in Hlen by lia. lia. }
  assert (mjoin (chunks ++ [c]) = mjoin chunks ++ c) as Hj by (rewrite join_app; simpl; by rewrite app_nil_r).
  destruct Hi. split; cbn; rewrite ?Hj, ?zlen_app; try done; try lia.
  - rewrite <- inv_stream0, <- app_assoc. f_equal. unfold c, slice.
    replace (Z.to_nat (position s + Z.min wanted allowed)) with (Z.to_nat (position s) + Z.to_nat (Z.min wanted allowed))%nat by lia.
    replace (position s + Z.min wanted allowed - position s) with (Z.min wanted allowed) by lia.
    rewrite <- drop_drop. apply take_drop.
  - apply Forall_app. split; [done|]. repeat constructor; lia.
  - destruct inv_wire0 as (tail & Hw & e & p & -> & He' & Hp).
    destruct He' as [->|[? _]]; [|congruence]. destruct Hp as [->|[[? ?] _]]; [|congruence]. rewrite app_nil_r in Hw.
    exists []. split; [rewrite app_nil_r, data_frames_snoc, Hw, inv_sent0; done|]. exists [], []. split_and!; [done|by left|by left].
  - congruence.
Qed.
Lemma send_frame_place p ch pacing s :
  send_frame encoder maxMessageSize ch pacing (s_goto p s) = send_frame encoder maxMessageSize ch pacing s.
Proof.
  unfold send_frame. cbn [failure s_goto sent acknowledged current position paused]. destruct (failure s) eqn:E; [done|].
  destruct (0 <? _); [|done]. destruct (encodeData _ _); [destruct (send_throws ch)|]; unfold s_throw, s_fail, s_goto; cbn; by rewrite ?E.
Qed.

Lemma inv_record chunks recs ch pacing s : place s = AwaitRecord → sender_inv chunks recs s →
  ∃ chunks' recs', sender_inv chunks' recs' (record_arrives encoder maxMessageSize ch pacing s).
Proof.
  intros Hp Hi. unfold record_arrives. destruct (upcoming s) as [[r| |msg]|] eqn:Eu; try (by exists chunks, recs; apply inv_throw).
  - match goal with |- context [prefetch encoder ?x] => set (s1 := x) end.
    rewrite <- (send_frame_place AwaitRoom). enough (sender_inv chunks (recs ++ [r]) (s_goto AwaitRoom (prefetch encoder s1))) as Hi'.
    { destruct (inv_send_frame _ _ ch pacing _ (match inv_ended _ _ _ Hi' with e => e end) Hi') as [c' ?]. by exists c', (recs ++ [r]). }
    change (s_goto AwaitRoom (prefetch encoder s1)) with (prefetch encoder (s_goto AwaitRoom s1)).
    apply inv_prefetch; [done|]. destruct Hi. rewrite Hp in *. rewrite Eu in inv_calls0. split; cbn; try done; try lia.
    + destruct inv_records0 as [rest Hr]. pose proof (inv_upcoming0 _ Eu) as Hnx. rewrite Hr in Hnx.
      symmetry in Hnx. apply nexts_record in Hnx as [rest' ->].
      exists rest'. rewrite Hr, map_app, <- app_assoc. done.
    + rewrite length_app. simpl. lia.
    + pose proof (zlen_nonneg r). lia.
    + specialize (inv_await0 eq_refl). rewrite inv_await0 in inv_stream0. unfold zlen in inv_stream0. rewrite Nat2Z.id, drop_all, app_nil_r in inv_stream0.
      rewrite inv_stream0, join_app, <- app_assoc. simpl. by rewrite app_nil_r.
  - destruct (failure s) eqn:Ef.
    + exists chunks, recs. apply inv_goto; try done.
    + destruct (aborted s); exists chunks, recs; by apply inv_throw.
Qed.

Lemma inv_turn chunks recs ch pacing s : sender_inv chunks recs s →
  ∃ chunks' recs', sender_inv chunks' recs' (s_turn encoder maxMessageSize ch pacing s).
Proof.
  intros Hi. unfold s_turn. pose proof (inv_ended _ _ _ Hi) as He. pose proof (inv_loop _ _ _ Hi) as Hl. destruct (place s) eqn:Hp.
  - destruct (sent s <? total) eqn:Et.
    + destruct (position s =? zlen (current s)) eqn:Ec; bool_prop.
      * exists chunks, recs. by apply inv_goto.
      * destruct (inv_send_frame chunks recs ch pacing s He Hi) as [c ?]. by exists c, recs.
    + exists chunks, recs. bool_prop. destruct (encodeEnd (digest encoder) (size encoder)) as [b|] eqn:Ee; [|by apply inv_goto].
      destruct Hi. split; cbn; try done.
      destruct inv_wire0 as (tail & Hw & e & p & -> & He' & Hp').
      destruct He' as [->|[? _]]; [|congruence]. destruct Hp' as [->|[[? ?] _]]; [|rewrite Hl in *; done].
      unfold trySend. destruct (open ch && negb (send_throws ch)).
      * exists [b]. rewrite Hw, <- app_assoc. split; [done|]. exists [b], []. split_and!; [done|right; split; [done|by exists b]|by left].
      * exists []. split; [done|]. exists [], []. split_and!; [done|by left|by left].
  - by apply (inv_record chunks recs).
  - destruct (inv_send_frame chunks recs ch pacing s He Hi) as [c ?]. by exists c, recs.
  - destruct (failure s) eqn:Ef; [|destruct (kept s) eqn:Ek]; exists chunks, recs; try done; by apply inv_goto.
  - by exists chunks, recs.
  - by exists chunks, recs.
  - by exists chunks, recs.
Qed.

Lemma inv_step chunks recs s e s' : sender_inv chunks recs s → s_step encoder maxMessageSize s e = Some s' →
  ∃ chunks' recs', sender_inv chunks' recs' s'.
Proof.
  intros Hi Hs. destruct e as [ch b| |ch|ch|ch pacing]; cbn [s_step] in Hs;
    [destruct (s_waiting s) eqn:Hw; [injection Hs as <-|done]..|].
  - exists chunks, recs. by apply inv_frame.
  - exists chunks, recs. by apply inv_low.
  - exists chunks, recs. by apply inv_closed.
  - exists chunks, recs. by apply inv_abort.
  - destruct (s_listening s); [injection Hs as <-|done]. by eapply inv_turn.
Qed.

Lemma inv_run events s s' : (∃ chunks recs, sender_inv chunks recs s) → s_run encoder maxMessageSize s events = Some s' →
  ∃ chunks recs, sender_inv chunks recs s'.
Proof.
  revert s. induction events as [|e events IH]; intros s Hi Hr; cbn [s_run] in Hr; [by injection Hr as <-|].
  destruct (s_step _ _ s e) as [s1|] eqn:Es; [|done]. destruct Hi as (c & r & Hi). eapply IH; [|exact Hr]. by eapply inv_step.
Qed.

Lemma inv_start ch already : ∃ chunks recs, sender_inv chunks recs (sendEnvelope_start encoder maxMessageSize ch already).
Proof.
  exists [], []. assert (∀ p err wire', p = SendFailed → (wire' = [] ∨ ∃ c, 1 <= c <= 3 ∧ wire' = [encodeStop c]) →
    ∀ ab, sender_inv [] [] (mkSender p 0 0 false false false (Some err) (header encoder) 0 None 0 ab wire' [])) as Hfail.
  { intros p err w -> Hw ab. split; cbn; try done; try lia; try (pose proof (zlen_nonneg (header encoder)); lia).
    - eauto.
    - by rewrite drop_0, app_nil_r.
    - exists w. split; [done|]. exists [], w. split_and!; [done|by left|]. destruct Hw as [->|(c & ? & ->)]; [by left|right].
      split; [done|]. by exists c. }
  assert (∀ code, 1 <= code <= 3 → tryStop ch (Some code) [] = [] ∨ ∃ c, 1 <= c <= 3 ∧ tryStop ch (Some code) [] = [encodeStop c]) as Hstop.
  { intros code Hc. unfold tryStop, trySend. destruct (_ && _); [right; by exists code|by left]. }
  unfold sendEnvelope_start. set (small := _ <? minFrameBytes). clearbody small.
  destruct small, already, (open ch);
    cbv beta iota zeta delta [s_abort s_fail s_start s_goto s_report prefetch plain_error kind_name
      failure place sent acknowledged ended kept paused current position upcoming calls aborted wire progress app];
    try (apply Hfail; [done|]; first [by left|apply Hstop; lia]).
  split; cbn; try done; try lia; try (pose proof (zlen_nonneg (header encoder)); lia).
  - eauto.
  - by intros n [= <-].
  - by rewrite drop_0, app_nil_r.
  - exists []. split; [done|]. exists [], []. split_and!; [done|by left|by left].
  - intros _. split; [done|]. repeat constructor; lia.
Qed.

(** ** Going on *)

(** Where the loop waits, there is something left to send; only a record with
    nothing in it can get it to wait for nothing. *)
Definition working (s : Sender) : Prop :=
  (aborted s = true → is_Some (failure s)) ∧
  (failure s = None → minFrameBytes <= Z.min maxMessageSize frameBytes ∧
    match place s with
    | AwaitRecord => sent s < total
    | AwaitRoom => sent s < total ∧ (position s < zlen (current s) ∨ NextRecord [] ∈ nexts encoder)
    | _ => True
    end).

Lemma working_failed s : is_Some (failure s) → working s.
Proof. intros Hf. split; [done|]. intros E. rewrite E in Hf. by destruct Hf. Qed.

Lemma s_fail_failed ch err code s : is_Some (failure (s_fail ch err code s)).
Proof. unfold s_fail. destruct (failure s) eqn:E; by rewrite ?E. Qed.

Lemma working_frame ch b s : working s → working (s_frame ch b s).
Proof.
  intros Hw. unfold s_frame. destruct (_ || kept s); [done|].
  destruct (decodeFrame receiver b) as [[]|]; try (apply working_failed, s_fail_failed); destruct Hw as [Ha Hw].
  - destruct (_ || _); [apply working_failed, s_fail_failed|done].
  - destruct (negb _); [apply working_failed, s_fail_failed|done].
Qed.

Lemma working_send_frame ch pacing s : sent s < total → position s < zlen (current s) ∨ NextRecord [] ∈ nexts encoder →
  working s → working (send_frame encoder maxMessageSize ch pacing s).
Proof.
  intros Hs Hp [Ha Hw]. unfold send_frame. destruct (failure s) eqn:Ef; [by apply working_failed; cbn; rewrite ?Ef|].
  destruct (Hw eq_refl) as [Hm _]. destruct (0 <? _).
  - destruct (encodeData _ _); [destruct (send_throws ch)|]; try apply working_failed, s_fail_failed. split; cbn; [by rewrite ?Ef|by intros].
  - split; cbn; [by rewrite ?Ef|by intros].
Qed.

Lemma working_turn chunks recs ch pacing s : sender_inv chunks recs s → working s →
  working (s_turn encoder maxMessageSize ch pacing s).
Proof.
  intros Hi Hw. pose proof Hw as [Ha Hf]. pose proof (inv_position _ _ _ Hi). unfold s_turn.
  destruct (place s) eqn:Ep.
  - destruct (sent s <? total) eqn:Es; bool_prop.
    + destruct (position s =? _) eqn:Ec; bool_prop; [|apply working_send_frame; [done|left; lia|done]].
      split; [done|]. intros E. destruct (Hf E). by split.
    + destruct (encodeEnd _ _); (split; [done|]; intros E; destruct (Hf E); by split).
  - unfold record_arrives. destruct (upcoming s) as [[r| |msg]|] eqn:Eu; try apply working_failed, s_fail_failed.
    + destruct (failure s) eqn:Ef.
      { unfold prefetch, send_frame. cbn [upcoming failure]. rewrite ?Ef. apply working_failed. cbn. by rewrite ?Ef. }
      destruct (Hf eq_refl) as [Hm Hs]. apply working_send_frame; cbn; [done| |by split; cbn; rewrite ?Ef, ?Ep].
      destruct r; [right|left; rewrite zlen_cons; pose proof (zlen_nonneg r); lia].
      pose proof (inv_upcoming _ _ _ Hi _ Eu) as Hn. destruct (inv_records _ _ _ Hi) as [rest Hr]. rewrite Hr in Hn. symmetry in Hn.
      apply nexts_record in Hn as [rest' ->]. rewrite Hr. set_solver.
    + destruct (failure s) eqn:Ef; [by apply working_failed; cbn; rewrite ?Ef|]. destruct (aborted s); apply working_failed, s_fail_failed.
  - destruct (failure s) eqn:Ef; [unfold send_frame; rewrite ?Ef; by apply working_failed; cbn; rewrite ?Ef|].
    destruct (Hf eq_refl) as (_ & ? & ?). by apply working_send_frame.
  - destruct (failure s) eqn:Ef; [by apply working_failed; cbn; rewrite ?Ef|]. destruct (kept s); [|done]. split; cbn; rewrite ?Ef; by auto.
  - done.
  - done.
  - done.
Qed.

Lemma working_step chunks recs s e s' : sender_inv chunks recs s → working s → s_step encoder maxMessageSize s e = Some s' → working s'.
Proof.
  intros Hi Hw Hs. destruct e as [ch b| |ch|ch|ch pacing]; cbn [s_step] in Hs;
    match type of Hs with (if ?c then _ else _) = _ => destruct c; [injection Hs as <-|done] end.
  - by apply working_frame.
  - exact Hw.
  - unfold s_closed. destruct (kept s); [done|apply working_failed, s_fail_failed].
  - apply working_failed, s_fail_failed.
  - by eapply working_turn.
Qed.

Lemma working_start ch already : working (sendEnvelope_start encoder maxMessageSize ch already).
Proof.
  unfold sendEnvelope_start. set (s := if open ch then _ else _). cbv zeta.
  assert (place s = AtLoop ∧ (failure s = None → aborted s = false)) as [Hp Ha].
  { unfold s. by destruct already, (open ch). }
  clearbody s. destruct (_ <? minFrameBytes) eqn:Em; bool_prop.
  - destruct (s_fail_failed ch (plain_error FrameSize) (Some 2) s) as [err E]. rewrite E. apply working_failed. cbn. by rewrite E.
  - destruct (failure s) as [err|] eqn:E; [apply working_failed; cbn; by rewrite E|]. unfold prefetch. cbn.
    destruct (upcoming s); (split; cbn; [by rewrite Ha|]); by rewrite Hp.
Qed.

(** A channel that is open and takes what it is given. *)
Definition live (ch : Channel) : Prop := open ch = true ∧ send_throws ch = false.

(** What a sender that goes on gets to: more bytes sent, END sent (or not to be
    encoded), or a failure of its source. *)
Definition advanced (s s' : Sender) : Prop :=
  sent s < sent s' ∨ (∃ b, encodeEnd (digest encoder) (size encoder) = Ok b ∧ b ∈ wire s') ∨
  (place s' = SendThrew ∧ ∃ msg, encodeEnd (digest encoder) (size encoder) = Throw msg) ∨
  (∃ err, failure s' = Some err ∧ (kind err = Source ∨ NextRecord [] ∈ nexts encoder)).

Lemma send_frame_advances ch s : live ch → total <= max_safe_integer → failure s = None → paused s = false →
  minFrameBytes <= Z.min maxMessageSize frameBytes → 0 <= sent s < total → sent s - acknowledged s < unacknowledgedBytes →
  0 <= position s → position s < zlen (current s) ∨ NextRecord [] ∈ nexts encoder →
  advanced s (send_frame encoder maxMessageSize ch protocolPacing s).
Proof.
  intros [_ Hth] Ht Hf Hp Hm Hs Hw H0 Hc. unfold send_frame. rewrite Hf, Hp, Hth. cbn [protocolPacing ps_paused inFlight v_bytes].
  set (allowed := Z.min (Z.max _ _) _). set (wanted := Z.min (Z.min maxMessageSize frameBytes - DATA_HEADER_BYTES) (Z.min _ _)).
  assert (0 < allowed) as Ha by (unfold allowed; lia). rewrite (proj2 (Z.ltb_lt _ _) Ha). clearbody allowed.
  set (chunk := slice _ _ _).
  assert (zlen chunk = Z.max 0 (Z.min wanted allowed)) as Hc0.
  { unfold chunk. rewrite zlen_slice_min by lia. unfold wanted. lia. }
  destruct (encodeData _ _) as [frame|] eqn:E.
  - left. cbn. apply encodeData_ok in E as (_ & Hl & _). lia.
  - right. right. right. destruct Hc as [Hc|Hc].
    + exfalso. enough (encodeData (sent s) chunk = Ok (type_data :: u64 (sent s) ++ chunk)) as He by congruence.
      apply encodeData_ok. unfold u53, wanted, minFrameBytes, frameBytes, DATA_HEADER_BYTES in *. split_and!; [lia..|done].
    + destruct (s_fail_failed ch (plain_error Closed) None s) as [err He]. exists err. split; [exact He|by right].
Qed.

(** The sender's own turns over a live channel, and its buffer draining. *)
Definition own_events (ch : Channel) (events : list sender_event) : Prop := Forall (λ e, e = SLow ∨ e = STurn ch protocolPacing) events.

Lemma room_advances ch s : live ch → total <= max_safe_integer → working s → failure s = None → place s = AwaitRoom →
  0 <= sent s → 0 <= position s → sent s - acknowledged s < unacknowledgedBytes →
  ∃ s', s_run encoder maxMessageSize s [SLow; STurn ch protocolPacing] = Some s' ∧ advanced s s'.
Proof.
  intros Hch Ht [_ Hw] Hf Hp H0 H1 Hin. destruct (Hw Hf) as [Hm Hl]. rewrite Hp in Hl. destruct Hl.
  eexists. split.
  - cbn [s_run s_step]. unfold s_waiting, s_listening. cbn [place s_low]. rewrite Hp. unfold s_turn. cbn [place s_low]. rewrite Hp. reflexivity.
  - by apply (send_frame_advances ch (s_low s)).
Qed.

Lemma record_advances chunks recs ch s : live ch → total <= max_safe_integer → sender_inv chunks recs s → working s →
  failure s = None → place s = AwaitRecord → sent s - acknowledged s < unacknowledgedBytes →
  ∃ s', s_run encoder maxMessageSize s [SLow; STurn ch protocolPacing] = Some s' ∧ advanced s s'.
Proof.
  intros Hch Ht Hi [Ha Hw] Hf Hp Hin. destruct (Hw Hf) as [Hm Hl]. rewrite Hp in Hl. pose proof (inv_window _ _ _ Hi).
  eexists. split.
  - cbn [s_run s_step]. unfold s_waiting, s_listening. cbn [place s_low]. rewrite Hp. unfold s_turn. cbn [place s_low]. rewrite Hp. reflexivity.
  - unfold record_arrives. cbn [upcoming s_low].
    assert (∀ ch msg code, advanced s (s_throw ch (mkTransferError Source msg) code (s_low s))) as Hsource.
    { intros c msg code. right. right. right. exists (mkTransferError Source msg). split; [|by left]. unfold s_throw, s_fail. cbn. by rewrite Hf. }
    destruct (upcoming s) as [[r| |msg]|] eqn:Eu; try apply Hsource.
    + match goal with |- advanced _ (send_frame _ _ _ _ ?t) => refine (send_frame_advances ch t Hch Ht Hf eq_refl Hm _ Hin _ _) end; cbn; [lia|lia|].
      destruct r; [right|left; rewrite zlen_cons; pose proof (zlen_nonneg r); lia].
      pose proof (inv_upcoming _ _ _ Hi _ Eu) as Hn. destruct (inv_records _ _ _ Hi) as [rest Hr]. rewrite Hr in Hn. symmetry in Hn.
      apply nexts_record in Hn as [rest' ->]. rewrite Hr. set_solver.
    + cbn [failure s_low]. rewrite Hf. cbn [aborted s_low]. destruct (aborted s); [destruct Ha; congruence|]. apply Hsource.
Qed.

(** A sender that is still sending goes on. *)
Lemma sender_advances chunks recs ch s : live ch → total <= max_safe_integer → sender_inv chunks recs s → working s →
  failure s = None → place s = AtLoop ∨ place s = AwaitRecord ∨ place s = AwaitRoom →
  sent s - acknowledged s < unacknowledgedBytes →
  ∃ events s', (length events <= 3)%nat ∧ own_events ch events ∧ s_run encoder maxMessageSize s events = Some s' ∧ advanced s s'.
Proof.
  intros Hch Ht Hi Hwk Hf Hp Hin. pose proof Hwk as [Ha Hw]. destruct (Hw Hf) as [Hm Hl]. pose proof (inv_window _ _ _ Hi). pose proof (inv_position _ _ _ Hi).
  assert (own_events ch [SLow; STurn ch protocolPacing]) as Hown by (repeat constructor; auto).
  assert (own_events ch [STurn ch protocolPacing]) as Hown1 by (repeat constructor; auto).
  destruct Hp as [Hp|[Hp|Hp]].
  - assert (∀ t, s_turn encoder maxMessageSize ch protocolPacing s = t → s_run encoder maxMessageSize s [STurn ch protocolPacing] = Some t) as Hone.
    { intros t <-. cbn [s_run s_step]. unfold s_listening. by rewrite Hp. }
    assert (∀ t, s_turn encoder maxMessageSize ch protocolPacing s = t →
      (∃ s', s_run encoder maxMessageSize t [SLow; STurn ch protocolPacing] = Some s' ∧ advanced s s') →
      ∃ events s', (length events <= 3)%nat ∧ own_events ch events ∧ s_run encoder maxMessageSize s events = Some s' ∧ advanced s s') as Hthree.
    { intros t Et (s' & Hs' & Had). exists (STurn ch protocolPacing :: [SLow; STurn ch protocolPacing]), s'. split; [cbn; lia|]. split; [by constructor; auto|]. split; [|done].
      cbn [s_run s_step]. unfold s_listening at 1. rewrite Hp, Et. exact Hs'. }
    unfold s_turn in Hone, Hthree. rewrite Hp in Hone, Hthree. destruct (sent s <? total) eqn:Es; bool_prop.
    + destruct (position s =? _) eqn:Ec; bool_prop.
      * apply (Hthree _ eq_refl). destruct (record_advances chunks recs ch (s_goto AwaitRecord s)) as (s' & ? & ?); try done.
        { pose proof (inv_ended _ _ _ Hi) as He. rewrite Hp in He. by apply inv_goto. }
        exists s'. by split.
      * destruct (paused s) eqn:Epa.
        -- apply (Hthree (s_goto AwaitRoom s)).
           ++ unfold send_frame. rewrite Hf, Epa. cbn [protocolPacing ps_paused v_bytes]. by rewrite (proj2 (Z.ltb_ge 0 _)) by lia.
           ++ apply (room_advances ch (s_goto AwaitRoom s)); try done; cbn; [|lia..].
              split; [done|]. intros _. split; [done|]. split; [done|]. left. cbn. lia.
        -- exists [STurn ch protocolPacing]. eexists. split; [cbn; lia|]. split; [exact Hown1|]. split; [by apply Hone|]. apply send_frame_advances; done || lia.
    + exists [STurn ch protocolPacing]. eexists. split; [cbn; lia|]. split; [exact Hown1|]. split; [by apply Hone|]. destruct Hch as [Ho Hth].
      destruct (encodeEnd _ _) as [b|msg] eqn:Ee.
      * right. left. exists b. split; [done|]. cbn. unfold trySend. rewrite Ho, Hth. set_solver.
      * right. right. left. split; [done|]. by exists msg.
  - exists [SLow; STurn ch protocolPacing]. destruct (record_advances chunks recs ch s) as (s' & ? & ?); try done. exists s'. split; [cbn; lia|]. by split.
  - exists [SLow; STurn ch protocolPacing]. destruct (room_advances ch s) as (s' & ? & ?); try done; try lia. exists s'. split; [cbn; lia|]. by split.
Qed.
End Sender.

(** ** The property *)

(** The records an encoder gives before it ends or fails. *)
Fixpoint read_records (l : list NextResult) : list bytes :=
  match l with NextRecord r :: l => r :: read_records l | _ => [] end.

(** The envelope an encoder stands for. *)
Definition envelope_of (encoder : EnvelopeEncoder) : bytes := header encoder ++ mjoin (read_records (nexts encoder)).

Lemma read_records_app recs rest : read_records (map NextRecord recs ++ rest) = recs ++ read_records rest.
Proof. induction recs as [|r recs IH]; [done|]. simpl. by rewrite IH. Qed.

Lemma inv_prefix encoder maxMessageSize chunks recs s : sender_inv encoder maxMessageSize chunks recs s →
  mjoin chunks `prefix_of` envelope_of encoder.
Proof.
  intros []. destruct inv_records0 as [rest Hr]. unfold envelope_of. rewrite Hr, read_records_app, join_app.
  rewrite app_assoc, <- inv_stream0, <- app_assoc. by apply prefix_app_r.
Qed.

(** Whatever the network, the receiver, the person and the pacing rule do,
    what a sender has put on the wire is the start of the encoder's envelope
    cut into DATA frames, each at the offset where the last one ended and no
    longer than the connection carries, then END once every byte is sent and at
    most one STOP, on failure; never more than 8 MiB is beyond the last ACK, the
    progress it reports stays within what was acknowledged and that within what
    was sent, and it resolves only after END and a KEPT, with no failure. *)
Theorem sendEnvelope_safe encoder maxMessageSize ch already events s :
  s_run encoder maxMessageSize (sendEnvelope_start encoder maxMessageSize ch already) events = Some s →
  ∃ chunks tail, wire s = data_frames 0 chunks ++ tail ∧ tail_ok encoder s tail ∧
    mjoin chunks `prefix_of` envelope_of encoder ∧ sent s = zlen (mjoin chunks) ∧ sent s <= Z.max 0 (envelopeBytes encoder) ∧
    Forall (λ c, 1 <= zlen c <= Z.min maxMessageSize frameBytes - DATA_HEADER_BYTES) chunks ∧
    0 <= acknowledged s <= sent s ∧ sent s - acknowledged s <= unacknowledgedBytes ∧
    Forall (λ n, 0 <= n <= acknowledged s) (progress s) ∧
    (ended s = true → envelopeBytes encoder <= sent s) ∧
    (place s = Sent → kept s = true ∧ ended s = true ∧ failure s = None).
Proof.
  intros Hr. destruct (inv_run _ _ events _ s (inv_start encoder maxMessageSize ch already) Hr) as (chunks & recs & Hi).
  pose proof (inv_prefix _ _ _ _ _ Hi). destruct Hi. destruct inv_wire0 as (tail & Hw & Ht). exists chunks, tail.
  split_and!; try done; try lia.
  - destruct (progress s) eqn:E; [constructor|]. by apply inv_progress0.
  - intros Hp. destruct (inv_settled0 Hp). auto.
Qed.

Definition example_channel : Channel := mkChannel true false 0 0.
Definition example_encoder : EnvelopeEncoder :=
  mkEncoder [10; 11] [NextRecord [1; 2; 3]; NextDone] (List.repeat 7 32) 3 5.
Definition example_sending : list sender_event :=
  let turn := STurn example_channel protocolPacing in
  [turn; turn; turn; turn; SFrame example_channel [2; 0; 0; 0; 0; 0; 0; 0; 5]; SFrame example_channel [4]; turn].

Lemma sendEnvelope_safe_witness : ∃ s,
  s_run example_encoder 65536 (sendEnvelope_start example_encoder 65536 example_channel false) example_sending = Some s ∧
  place s = Sent ∧ sent s = 5 ∧ ended s = true.
Proof.
  destruct (s_run example_encoder 65536 (sendEnvelope_start example_encoder 65536 example_channel false) example_sending) as [s|] eqn:E;
    [|vm_compute in E; discriminate E].
  exists s. split; [reflexivity|].
  destruct (sendEnvelope_safe example_encoder 65536 example_channel false example_sending s E) as (_ & _ & _ & _ & _ & _ & _ & _ & _ & _ & _ & _ & H).
  assert (place s = Sent ∧ sent s = 5) as [H1 H2] by (vm_compute in E; injection E as <-; split; reflexivity).
  destruct (H H1) as (_ & H3 & _). split; [exact H1|split; [exact H2|exact H3]].
Defined.
