(* ===== verification/ReceiverFacts.v ===== *)
(** * The receiver of a transfer: what it hands to the sink

    The invariant of [receiveEnvelope] and its preservation by every event. *)

From Stdlib Require Import Sorting.Sorted.
From S2P Require Import Prelude JsString Utf8 Bytes DirectConfig Frames Transfer.

(** The writes waiting in the queue. *)
Fixpoint write_chunks (q : list sink_step) : list bytes :=
  match q with
  | WriteStep c :: q => c :: write_chunks q
  | EndStep _ _ :: q => write_chunks q
  | [] => []
  end.

Lemma write_chunks_app q q' : write_chunks (q ++ q') = write_chunks q ++ write_chunks q'.
Proof. induction q as [|[c|h n] q IH]; simpl; [done| |done]. by rewrite IH. Qed.

Lemma write_chunks_map cs : write_chunks (map WriteStep cs) = cs.
Proof. induction cs as [|c cs IH]; simpl; [done|]. by rewrite IH. Qed.

(** How far END has come. *)
Inductive end_stage : Type :=
  | Open
  | EndQueued (sha256 : bytes)
  | EndDropped
  | EndRunning (sha256 : bytes)
  | EndRefused (sha256 : bytes)
  | EndResolved (sha256 : bytes).

(** The ACKs a receiver has sent, by value. *)
Fixpoint ack_values (out : list Frame) : list Z :=
  match out with FAck n :: out => n :: ack_values out | _ :: out => ack_values out | [] => [] end.

Lemma ack_values_app out out' : ack_values (out ++ out') = ack_values out ++ ack_values out'.
Proof. induction out as [|[] out IH]; simpl; [done|done| |done..]. by rewrite IH. Qed.

(** What a receiver may send. *)
Definition reply (f : Frame) : Prop :=
  match f with FAck n => u53 n | FKept => True | FStop code => 1 <= code <= 3 | _ => False end.

Section Receiver.
Context (total plaintextBytes : Z).

(** The calls of a sink that was given [w] and has come this far with the end. *)
Definition calls_of (w : list bytes) (e : end_stage) (aborted : bool) : list sink_call :=
  map SinkWrite w ++
  match e with
  | Open | EndQueued _ | EndDropped => []
  | EndRunning h | EndRefused h => [SinkEnd h plaintextBytes]
  | EndResolved h => [SinkEnd h plaintextBytes; SinkEnded]
  end ++ (if aborted then [SinkAbort] else []).

Definition run_length (r : Receiver) : Z := match running r with Some (WriteStep c) => zlen c | _ => 0 end.
Definition running_write (r : Receiver) : Prop := match running r with Some (EndStep _ _) => False | _ => True end.

Definition stage_ok (w : list bytes) (e : end_stage) (r : Receiver) : Prop :=
  match e with
  | Open => endSeen r = false ∧ running_write r ∧ ∃ cs, queue r = map WriteStep cs
  | EndQueued h => endSeen r = true ∧ running_write r ∧ ∃ cs, queue r = map WriteStep cs ++ [EndStep h plaintextBytes]
  | EndDropped => endSeen r = true ∧ running r = None ∧ queue r = [] ∧ is_Some (r_failure r)
  | EndRunning h => endSeen r = true ∧ running r = Some (EndStep h plaintextBytes) ∧ queue r = [] ∧ received r = zlen (mjoin w)
  | EndRefused h => endSeen r = true ∧ running r = None ∧ queue r = [] ∧ is_Some (r_failure r)
  | EndResolved h => endSeen r = true ∧ running r = None ∧ queue r = [] ∧ received r = zlen (mjoin w) ∧
                     (r_failure r = None → done r = true)
  end.

(** [accepted] are the chunks taken from the wire, [w] those handed to the
    sink, [skipped] those dropped after a failure; [out] are the frames sent. *)
Record receiver_inv (accepted w skipped : list bytes) (e : end_stage) (out : list Frame) (r : Receiver) : Prop := {
  rinv_received : received r = zlen (mjoin accepted);
  rinv_chunks : Forall (λ c, 1 <= zlen c) accepted;
  rinv_total : received r <= Z.max 0 total;
  rinv_order : accepted = w ++ skipped ++ write_chunks (queue r);
  rinv_skipped : r_failure r = None → skipped = [];
  rinv_written : written r + run_length r <= zlen (mjoin w);
  rinv_run : ∀ c, running r = Some (WriteStep c) → c ∈ w;
  rinv_exact : r_failure r = None → written r + run_length r = zlen (mjoin w);
  rinv_acked : 0 <= lastAck r <= written r;
  rinv_window : received r - lastAck r <= unacknowledgedBytes;
  rinv_sink : sink r = calls_of w e (match r_place r with ReceiveFailed => true | _ => false end);
  rinv_end_seen : endSeen r = true → total = received r;
  rinv_stage : stage_ok w e r;
  rinv_done : done r = true → ∃ h, e = EndResolved h;
  rinv_wire : Forall2 (λ f b, encode_frame f = Ok b) out (r_wire r);
  rinv_reply : Forall reply out;
  rinv_acks : StronglySorted Z.lt (ack_values out);
  rinv_ack_bound : Forall (λ n, 0 < n <= lastAck r) (ack_values out);
  rinv_told : r_failure r = None → List.last (ack_values out) 0 = lastAck r;
  rinv_prompt : r_failure r = None → written r - lastAck r < ackEveryBytes ∧ (written r = total → 0 < total → lastAck r = total);
  rinv_kept : FKept ∈ out ↔ done r = true;
  rinv_place : match r_place r with
    | Receiving => True
    | Settling => is_Some (r_failure r)
    | Received => done r = true ∧ r_failure r = None
    | ReceiveFailed => is_Some (r_failure r) ∧ queue r = [] ∧ running r = None
    end;
}.

(** Dropped by [stage_ok]: a failure only makes its demands weaker. *)
Lemma stage_fail w e r error out : stage_ok w e r →
  stage_ok w e (mkReceiver (r_place r) (received r) (written r) (lastAck r) (endSeen r) (done r) (Some error)
    (queue r) (running r) out (sink r) (r_progress r)).
Proof. destruct e; unfold stage_ok, running_write; cbn; naive_solver. Qed.

Lemma rinv_fail accepted w skipped e out ch error code r : (match code with Some c => 1 <= c <= 3 | None => True end) →
  r_place r ≠ ReceiveFailed → r_place r ≠ Received → receiver_inv accepted w skipped e out r →
  ∃ out', receiver_inv accepted w skipped e out' (r_fail ch error code r).
Proof.
  intros Hc Hp1 Hp2 Hi. unfold r_fail. destruct (bool_decide _ || done r) eqn:Ef; [by exists out|].
  apply orb_false_iff in Ef as [Ef Hd]. apply bool_decide_eq_false in Ef.
  assert (∃ out', (out' = out ∨ ∃ c, 1 <= c <= 3 ∧ out' = out ++ [FStop c]) ∧
            Forall2 (λ f b, encode_frame f = Ok b) out' (tryStop ch code (r_wire r))) as (out' & Ho & Hw).
  { unfold tryStop, trySend. destruct Hi. destruct code as [c|]; [|exists out; by split; [left|]].
    destruct (_ && _); [|exists out; by split; [left|]].
    exists (out ++ [FStop c]). split; [right; by exists c|]. apply Forall2_app; [done|]. constructor; [done|constructor]. }
  assert (ack_values out' = ack_values out ∧ (FKept ∈ out' ↔ FKept ∈ out) ∧ Forall reply out') as (Ea & Ek & Er).
  { destruct Hi. destruct Ho as [->|(c & ? & ->)]; [done|]. rewrite ack_values_app, app_nil_r. split_and!; [done| |].
    - rewrite elem_of_app. split; [intros [?|Hin]; [done|by apply list_elem_of_singleton in Hin]|by left].
    - apply Forall_app. split; [done|]. constructor; [done|constructor]. }
  exists out'. destruct Hi. split; cbn; rewrite ?Ea, ?Ek; try done.
  - by apply stage_fail.
  - destruct (r_place r); done.
Qed.

(** ** Frames arriving *)

Lemma decodeFrame_data b offset chunk : decodeFrame sender b = Ok (FData offset chunk) → 1 <= zlen chunk.
Proof.
  intros Hd. destruct b as [|t b]; [done|]. unfold decodeFrame in Hd.
  repeat match type of Hd with (if ?x then _ else _) = _ => destruct x end; inv_ok; try done.
  match goal with E : Ok _ = Ok _ |- _ => injection E as <- <- | _ => idtac end. bool_prop. unfold DATA_HEADER_BYTES in *.
  match goal with H : FData _ _ = FData _ _ |- _ => injection H as <- <- end.
  rewrite zlen_slice by lia. lia.
Qed.

Lemma rinv_data accepted w skipped e out ch offset chunk r : r_failure r = None → done r = false → 1 <= zlen chunk →
  r_place r ≠ ReceiveFailed → r_place r ≠ Received → receiver_inv accepted w skipped e out r →
  ∃ accepted' out', receiver_inv accepted' w skipped e out' (r_data total ch offset chunk r) ∧ (accepted' = accepted ∨ accepted' = accepted ++ [chunk]).
Proof.
  intros Hf Hd Hc P1 P2 Hi.
  assert (∀ msg, ∃ accepted' out', receiver_inv accepted' w skipped e out' (r_protocol ch msg r) ∧ (accepted' = accepted ∨ accepted' = accepted ++ [chunk])) as Hbad.
  { intros msg. destruct (rinv_fail accepted w skipped e out ch (mkTransferError Protocol msg) (Some 2) r) as [out' ?]; [lia|done..|].
    exists accepted, out'. split; [done|by left]. }
  unfold r_data. destruct (endSeen r) eqn:Ee; [apply Hbad|]. destruct (negb (offset =? received r)); [apply Hbad|].
  destruct (total <? _) eqn:E1; [apply Hbad|]. destruct (unacknowledgedBytes <? _) eqn:E2; [apply Hbad|]. bool_prop.
  exists (accepted ++ [chunk]), out. split; [|by right]. destruct Hi. rewrite (rinv_skipped0 Hf) in *.
  split; cbn; try done.
  - rewrite join_app, zlen_app, rinv_received0. simpl. by rewrite app_nil_r.
  - apply Forall_app. split; [done|]. constructor; [done|constructor].
  - lia.
  - rewrite rinv_order0, write_chunks_app. cbn. by rewrite <- app_assoc.
  - destruct e; unfold stage_ok, running_write in *; cbn; rewrite Ee in *; try (by destruct rinv_stage0 as [? _]).
    destruct rinv_stage0 as (_ & Hr & cs & Hq). split_and!; [done|done|]. exists (cs ++ [chunk]). by rewrite Hq, map_app.
  - by destruct (r_place r).
Qed.

Lemma rinv_end accepted w skipped e out ch h n r : r_failure r = None → done r = false →
  r_place r ≠ ReceiveFailed → r_place r ≠ Received → receiver_inv accepted w skipped e out r →
  ∃ e' out', receiver_inv accepted w skipped e' out' (r_end total plaintextBytes ch h n r).
Proof.
  intros Hf Hd P1 P2 Hi.
  assert (∀ err, ∃ e' out', receiver_inv accepted w skipped e' out' (r_fail ch err (Some 2) r)) as Hbad.
  { intros err. destruct (rinv_fail accepted w skipped e out ch err (Some 2) r) as [out' ?]; [lia|done..|]. by exists e, out'. }
  unfold r_end. destruct (endSeen r) eqn:Ee; [apply Hbad|]. destruct (negb (received r =? total)) eqn:E1; [apply Hbad|].
  destruct (negb (n =? plaintextBytes)) eqn:E2; [apply Hbad|]. bool_prop. subst n.
  destruct Hi. destruct e; unfold stage_ok in rinv_stage0; rewrite Ee in rinv_stage0; try (by destruct rinv_stage0 as [? _]).
  exists (EndQueued h), out. split; cbn; try done.
  - rewrite write_chunks_app. cbn [write_chunks]. by rewrite app_nil_r.
  - destruct rinv_stage0 as (_ & Hr & cs & Hq). unfold stage_ok. cbn. split_and!; [done|done|]. exists cs. by rewrite Hq.
  - intros Hdone. destruct (rinv_done0 Hdone) as [? ?]. done.
  - by destruct (r_place r).
Qed.

(** ** The queue *)

Lemma run_length_set q cur calls r :
  run_length (r_set_running q cur calls r) = match cur with Some (WriteStep c) => zlen c | _ => 0 end.
Proof. done. Qed.

Lemma rinv_begin accepted w skipped e out r : receiver_inv accepted w skipped e out r →
  ∃ w' skipped' e', receiver_inv accepted w' skipped' e' out (r_begin r).
Proof.
  intros Hi. unfold r_begin. destruct (running r) as [st|] eqn:Er; [by exists w, skipped, e|].
  destruct (queue r) as [|st q] eqn:Eq; [by exists w, skipped, e|].
  assert (r_place r ≠ ReceiveFailed) as P1. { intros P. destruct Hi. rewrite P in *. destruct rinv_place0 as (_ & Hq & _). congruence. }
  destruct (r_failure r) as [err|] eqn:Ef.
  - destruct Hi. unfold stage_ok, running_write in rinv_stage0. rewrite Eq in *. unfold run_length in *. rewrite Er in *.
    assert (∃ e', stage_ok w e' (r_set_running q None [] r) ∧ (calls_of w e' false = calls_of w e false) ∧ (∀ h, e = EndResolved h → e' = e)) as (e' & Hst & Hcalls & He').
    { destruct e; unfold stage_ok, running_write in *; cbn.
      - exists Open. destruct rinv_stage0 as (? & _ & cs & Hq). destruct cs as [|c cs]; [done|]. injection Hq as -> ->. cbn. split_and!; try done; eauto.
      - destruct rinv_stage0 as (? & _ & cs & Hq). destruct cs as [|c cs].
        + injection Hq as -> ->. exists EndDropped. cbn. rewrite Ef. split_and!; try done; eauto.
        + injection Hq as -> ->. exists (EndQueued sha256). cbn. split_and!; try done; eauto.
      - by destruct rinv_stage0 as (_ & _ & Hq & _).
      - by destruct rinv_stage0 as (_ & Hr & _).
      - by destruct rinv_stage0 as (_ & _ & Hq & _).
      - by destruct rinv_stage0 as (_ & _ & Hq & _). }
    exists w, (skipped ++ write_chunks [st]), e'. split; cbn; try done.
    + rewrite rinv_order0. f_equal. rewrite <- app_assoc. f_equal. destruct st; done.
    + congruence.
    + rewrite app_nil_r, rinv_sink0. destruct (r_place r); try done; by rewrite Hcalls.
    + intros Hd. destruct (rinv_done0 Hd) as [h ->]. exists h. by apply (He' h).
    + by destruct (r_place r).
  - assert (skipped = []) as -> by (by destruct Hi; auto). destruct Hi. unfold stage_ok, running_write in rinv_stage0. rewrite Eq in *. unfold run_length in *. rewrite Er in *.
    destruct st as [c|h n].
    + exists (w ++ [c]), [], e. split; cbn; try done.
      * rewrite rinv_order0. cbn. by rewrite <- app_assoc.
      * rewrite join_app, zlen_app. simpl. rewrite app_nil_r. lia.
      * intros c' [= ->]. set_solver.
      * intros _. rewrite join_app, zlen_app. simpl. rewrite app_nil_r. specialize (rinv_exact0 Ef). lia.
      * rewrite rinv_sink0. unfold calls_of. assert ((match r_place r with ReceiveFailed => true | _ => false end) = false) as -> by (by destruct (r_place r)).
        assert (e = Open ∨ ∃ h, e = EndQueued h) as [->|[h ->]].
        { destruct e; unfold stage_ok in rinv_stage0; [by left|right; by eexists|..]; by destruct rinv_stage0 as (_ & ? & Hq & _). }
        -- by rewrite map_app, !app_nil_r.
        -- by rewrite map_app, !app_nil_r.
      * destruct e; unfold stage_ok, running_write in *; cbn; try (by destruct rinv_stage0 as (_ & ? & Hq & _)).
        -- destruct rinv_stage0 as (? & _ & cs & Hq). destruct cs as [|c' cs]; [done|]. injection Hq as -> ->. eauto.
        -- destruct rinv_stage0 as (? & _ & cs & Hq). destruct cs as [|c' cs]; [done|]. injection Hq as -> ->. eauto.
      * by destruct (r_place r).
    + assert (e = EndQueued h ∧ n = plaintextBytes ∧ q = [] ∧ endSeen r = true) as (-> & -> & -> & Hes).
      { destruct e; unfold stage_ok in rinv_stage0; try (by destruct rinv_stage0 as (_ & ? & Hq & _)).
        - destruct rinv_stage0 as (_ & _ & cs & Hq). by destruct cs.
        - destruct rinv_stage0 as (? & _ & cs & Hq). destruct cs; [|done]. by injection Hq as -> -> ->. }
      exists w, [], (EndRunning h). split; cbn; try done.
      * rewrite rinv_sink0. unfold calls_of. assert ((match r_place r with ReceiveFailed => true | _ => false end) = false) as -> by (by destruct (r_place r)).
        by rewrite !app_nil_r.
      * split_and!; try done. rewrite rinv_received0, rinv_order0. cbn. by rewrite app_nil_r.
      * intros Hd. destruct (rinv_done0 Hd) as [? ?]. done.
      * by destruct (r_place r).
Qed.

(** ** Calls on the sink settling *)

Lemma running_live accepted w skipped e out r st : running r = Some st → receiver_inv accepted w skipped e out r →
  done r = false ∧ r_place r ≠ ReceiveFailed ∧ r_place r ≠ Received.
Proof.
  intros Er Hi. assert (done r = false) as Hd.
  { destruct (done r) eqn:Ed; [|done]. destruct Hi. destruct (rinv_done0 Ed) as [h ->]. unfold stage_ok in rinv_stage0.
    destruct rinv_stage0 as (_ & Hr & _). congruence. }
  split; [done|]. destruct Hi. split; intros P; rewrite P in rinv_place0; [destruct rinv_place0 as (_ & _ & ?)|destruct rinv_place0 as [? _]]; congruence.
Qed.

(** After a failure the step that ran is over. *)
Lemma rinv_clear accepted w skipped e out r st : is_Some (r_failure r) → running r = Some st → receiver_inv accepted w skipped e out r →
  ∃ e', receiver_inv accepted w skipped e' out (r_set_running (queue r) None [] r).
Proof.
  intros [err Ef] Er Hi. destruct (running_live _ _ _ _ _ _ _ Er Hi) as (Hd & P1 & P2).
  exists (match e with EndRunning h => EndRefused h | _ => e end).
  destruct Hi. unfold run_length in *. rewrite Er in *. split; cbn; rewrite ?Ef; try done.
  - unfold run_length. cbn. destruct st as [c|]; [pose proof (zlen_nonneg c)|]; lia.
  - rewrite app_nil_r, rinv_sink0. by destruct e, (r_place r).
  - destruct e; unfold stage_ok, running_write in *; cbn; rewrite ?Er, ?Ef in *; try done;
      destruct rinv_stage0 as (? & Hr & Hq); try done; split_and!; try done; try (by destruct Hq as [? _]); eauto.
  - congruence.
  - destruct (r_place r); try done.
Qed.

Lemma r_fail_clear ch error code r : r_fail ch error code (r_set_running (queue r) None [] r) =
  r_set_running (queue (r_fail ch error code r)) None [] (r_fail ch error code r).
Proof.
  unfold r_fail, r_set_running. cbn [r_failure done]. destruct (bool_decide _ || done r); [done|]. cbn. by rewrite app_nil_r.
Qed.

(** A call the sink refused. *)
Lemma rinv_refused accepted w skipped e out r error ch code st : (match code with Some c => 1 <= c <= 3 | None => True end) →
  running r = Some st → receiver_inv accepted w skipped e out r →
  ∃ e' out', receiver_inv accepted w skipped e' out' (r_fail ch error code (r_set_running (queue r) None [] r)).
Proof.
  intros Hc Er Hi. destruct (running_live _ _ _ _ _ _ _ Er Hi) as (Hd & P1 & P2).
  destruct (rinv_fail accepted w skipped e out ch error code r Hc P1 P2 Hi) as [out' Hi'].
  assert (is_Some (r_failure (r_fail ch error code r)) ∧ running (r_fail ch error code r) = Some st) as [Hf Hr].
  { unfold r_fail. destruct (bool_decide _ || done r) eqn:E; [|done]. split; [|done]. rewrite Hd, orb_false_r in E. by apply bool_decide_eq_true in E. }
  rewrite r_fail_clear. destruct (rinv_clear _ _ _ _ _ _ _ Hf Hr Hi') as [e' ?]. by exists e', out'.
Qed.

Lemma sorted_snoc l n : StronglySorted Z.lt l → Forall (λ m, m < n) l → StronglySorted Z.lt (l ++ [n]).
Proof.
  induction 1 as [|m l Hs IH Hf]; intros Hn; [repeat constructor|]. apply Forall_cons in Hn as [? Hn]. cbn.
  constructor; [auto|]. apply Forall_app. split; [done|]. by constructor.
Qed.

(** The state once a write of the chunk running has been counted. *)
Definition r_counted (w1 ack : Z) (r : Receiver) : Receiver :=
  mkReceiver (r_place r) (received r) w1 ack (endSeen r) (done r) (r_failure r)
    (queue r) None (r_wire r) (sink r ++ []) (r_progress r).

Lemma rinv_progress accepted w skipped e out r p : receiver_inv accepted w skipped e out r →
  receiver_inv accepted w skipped e out
    (mkReceiver (r_place r) (received r) (written r) (lastAck r) (endSeen r) (done r) (r_failure r)
       (queue r) (running r) (r_wire r) (sink r) p).
Proof. intros []. split; try done. Qed.

Lemma taken_positive accepted w skipped e out r c : running r = Some (WriteStep c) → receiver_inv accepted w skipped e out r → 1 <= zlen c.
Proof.
  intros Er []. rewrite rinv_order0, Forall_forall in rinv_chunks0. apply rinv_chunks0. rewrite elem_of_app. left. by apply rinv_run0.
Qed.

(** Counting a write: with no failure the ACK is as the state before says or has
    just gone out; after one, it no longer matters. *)
Lemma rinv_counted accepted w skipped e out out' wire' ack r c : running r = Some (WriteStep c) → receiver_inv accepted w skipped e out r →
  let w1 := written r + zlen c in
  (ack = lastAck r ∧ out' = out ∧ wire' = r_wire r ∧ (r_failure r = None → w1 - lastAck r < ackEveryBytes ∧ w1 ≠ total)) ∨
  (ack = w1 ∧ out' = out ∧ wire' = r_wire r ∧ is_Some (r_failure r)) ∨
  (ack = w1 ∧ out' = out ++ [FAck w1] ∧ ∃ b, encodeAck w1 = Ok b ∧ wire' = r_wire r ++ [b]) →
  receiver_inv accepted w skipped e out'
    (mkReceiver (r_place r) (received r) w1 ack (endSeen r) (done r) (r_failure r)
      (queue r) None wire' (sink r ++ []) (r_progress r)).
Proof.
  intros Er Hi w1 Hcase. pose proof (taken_positive _ _ _ _ _ _ _ Er Hi) as Hc1.
  destruct (running_live _ _ _ _ _ _ _ Er Hi) as (Hd & P1 & P2).
  assert (lastAck r <= ack ∧ ack <= w1 ∧ Forall2 (λ f b, encode_frame f = Ok b) out' wire' ∧ Forall reply out' ∧
          StronglySorted Z.lt (ack_values out') ∧ Forall (λ n, 0 < n <= ack) (ack_values out') ∧ (FKept ∈ out' ↔ FKept ∈ out) ∧
          (r_failure r = None → List.last (ack_values out') 0 = ack) ∧
          (r_failure r = None → w1 - ack < ackEveryBytes ∧ (w1 = total → 0 < total → ack = total))) as (A1 & A2 & A3 & A4 & A5 & A6 & A7 & A8 & A9).
  { destruct Hi. assert (0 <= lastAck r < w1) as Hlt by lia.
    assert (∀ m, lastAck r <= m → Forall (λ n, 0 < n <= m) (ack_values out)) as Hbound.
    { intros m Hm. eapply Forall_impl; [exact rinv_ack_bound0|]. cbn. lia. }
    destruct Hcase as [(-> & -> & -> & Hq)|[(-> & -> & -> & [err Hf])|(-> & -> & b & Hb & ->)]].
    - split_and!; try done; try lia; naive_solver.
    - split_and!; try done; try lia; [apply Hbound; lia|congruence..].
    - rewrite ack_values_app. cbn [ack_values]. rewrite List.last_last. split_and!; try done; try lia.
      + apply Forall2_app; [done|]. by constructor.
      + apply Forall_app. split; [done|]. constructor; [|constructor]. unfold encodeAck in Hb. inv_ok. by apply writeU64_ok in E as [? _].
      + apply sorted_snoc; [done|]. eapply Forall_impl; [exact rinv_ack_bound0|]. cbn. lia.
      + apply Forall_app. split; [apply Hbound; lia|]. constructor; [lia|constructor].
      + rewrite elem_of_app. split; [intros [?|Hin]; [done|by apply list_elem_of_singleton in Hin]|by left].
      + intros _. unfold ackEveryBytes. lia. }
  destruct Hi. unfold run_length in *. rewrite Er in *. cbv iota in rinv_written0, rinv_exact0. split; cbn; try done; try lia.
  - intros Hf. unfold run_length. cbn. specialize (rinv_exact0 Hf). lia.
  - by rewrite app_nil_r.
  - destruct e; unfold stage_ok, running_write in *; cbn; rewrite ?Er in *; try done; try (by destruct rinv_stage0 as (_ & ? & _)).
  - by rewrite A7.
  - by destruct (r_place r).
Qed.

Lemma rinv_wrote accepted w skipped e out ch c r : running r = Some (WriteStep c) → receiver_inv accepted w skipped e out r →
  ∃ out', receiver_inv accepted w skipped e out' (r_wrote total ch (zlen c) (r_set_running (queue r) None [] r)).
Proof.
  intros Er Hi. unfold r_wrote. cbn [written lastAck r_set_running]. set (w1 := written r + zlen c).
  destruct (running_live _ _ _ _ _ _ _ Er Hi) as (Hd & P1 & P2).
  destruct ((ackEveryBytes <=? w1 - lastAck r) || (w1 =? total)) eqn:Edue.
  - assert (∀ err code, (match code with Some c => 1 <= c <= 3 | None => True end) → ∃ out', receiver_inv accepted w skipped e out' (r_fail ch err code (r_counted w1 w1 r))) as Hbad.
    { intros err code Hc. destruct (rinv_fail accepted w skipped e out ch err code r Hc P1 P2 Hi) as [out' Hi']. exists out'.
      assert (r_fail ch err code (r_counted w1 w1 r) = r_counted w1 w1 (r_fail ch err code r)) as ->.
      { unfold r_fail, r_counted. cbn [r_failure done]. by destruct (bool_decide _ || done r). }
      assert (is_Some (r_failure (r_fail ch err code r)) ∧ running (r_fail ch err code r) = Some (WriteStep c) ∧ written (r_fail ch err code r) = written r) as (Hf & Hr & Hw).
      { unfold r_fail. destruct (bool_decide _ || done r) eqn:E; [|done]. split; [|done]. rewrite Hd, orb_false_r in E. by apply bool_decide_eq_true in E. }
      unfold r_counted. replace w1 with (written (r_fail ch err code r) + zlen c) by (rewrite Hw; done).
      apply (rinv_counted accepted w skipped e out' out'); [done|done|]. right. left. done. }
    destruct (encodeAck w1) as [b|msg] eqn:Eb; [|apply Hbad; lia].
    unfold r_send. destruct (send_throws ch); cbn [negb guard rbind]; [by apply Hbad|].
    exists (out ++ [FAck w1]). apply (rinv_progress accepted w skipped e (out ++ [FAck w1])
      (mkReceiver (r_place r) (received r) w1 w1 (endSeen r) (done r) (r_failure r) (queue r) None (r_wire r ++ [b]) (sink r ++ []) (r_progress r))).
    apply (rinv_counted accepted w skipped e out); [done|done|]. right. right. eauto.
  - exists out. bool_prop. apply (rinv_progress accepted w skipped e out
      (mkReceiver (r_place r) (received r) w1 (lastAck r) (endSeen r) (done r) (r_failure r) (queue r) None (r_wire r) (sink r ++ []) (r_progress r))).
    apply (rinv_counted accepted w skipped e out); [done|done|]. left. split_and!; done.
Qed.

Lemma rinv_ended accepted w skipped e out ch h n r : running r = Some (EndStep h n) → receiver_inv accepted w skipped e out r →
  ∃ e' out', receiver_inv accepted w skipped e' out' (r_ended ch (r_set_running (queue r) None [SinkEnded] r)).
Proof.
  intros Er Hi. destruct (running_live _ _ _ _ _ _ _ Er Hi) as (Hd & P1 & P2).
  assert (e = EndRunning h ∧ n = plaintextBytes) as [-> ->].
  { destruct Hi. unfold stage_ok, running_write in rinv_stage0. rewrite Er in rinv_stage0.
    destruct e; try (by destruct rinv_stage0 as (_ & ? & _)). destruct rinv_stage0 as (_ & Hr & _). by injection Hr as <- <-. }
  unfold r_ended, r_send. destruct (send_throws ch); cbn [negb guard rbind].
  - destruct (rinv_fail accepted w skipped (EndRunning h) out ch (plain_error Closed) None r I P1 P2 Hi) as [out' Hi'].
    exists (EndResolved h), out'.
    assert (r_fail ch (plain_error Closed) None (r_set_running (queue r) None [SinkEnded] r) =
            r_set_running (queue (r_fail ch (plain_error Closed) None r)) None [SinkEnded] (r_fail ch (plain_error Closed) None r)) as ->.
    { unfold r_fail, r_set_running. cbn [r_failure done]. by destruct (bool_decide _ || done r). }
    assert (is_Some (r_failure (r_fail ch (plain_error Closed) None r)) ∧ running (r_fail ch (plain_error Closed) None r) = Some (EndStep h plaintextBytes) ∧
            r_place (r_fail ch (plain_error Closed) None r) = r_place r ∧ done (r_fail ch (plain_error Closed) None r) = false) as (Hf & Hr & Hp & Hd').
    { unfold r_fail. destruct (bool_decide _ || done r) eqn:E; [|done]. split; [|done]. rewrite Hd, orb_false_r in E. by apply bool_decide_eq_true in E. }
    clear Hi. set (r1 := r_fail _ _ _ r) in *. clearbody r1. destruct Hf as [err Hf]. destruct Hi'. rewrite Hp in *. unfold run_length in *. rewrite Hr in *.
    unfold stage_ok in rinv_stage0. destruct rinv_stage0 as (S1 & S2 & S3 & S4).
    split; cbn; rewrite ?Hp, ?Hf; try done; try congruence.
    + rewrite rinv_sink0. unfold calls_of. destruct (r_place r); try done; by rewrite <- app_assoc.
    + by destruct (r_place r).
  - exists (EndResolved h), (out ++ [FKept]). destruct Hi. unfold run_length in *. rewrite Er in *.
    unfold stage_ok in rinv_stage0. destruct rinv_stage0 as (S1 & S2 & S3 & S4).
    split; cbn; try done.
    + rewrite rinv_sink0. unfold calls_of. destruct (r_place r); try done; by rewrite <- app_assoc.
    + intros _. by exists h.
    + apply Forall2_app; [done|]. by repeat constructor.
    + apply Forall_app. split; [done|]. by repeat constructor.
    + by rewrite ack_values_app, app_nil_r.
    + by rewrite ack_values_app, app_nil_r.
    + by rewrite ack_values_app, app_nil_r.
    + split; [done|]. intros _. rewrite elem_of_app. right. set_solver.
    + by destruct (r_place r).
Qed.

(** ** Every event *)

(** The invariant for the chunks taken from the wire so far. *)
Definition receiver_ok (accepted : list bytes) (r : Receiver) : Prop := ∃ w skipped e out, receiver_inv accepted w skipped e out r.

Lemma listening_place r : r_listening r = true → r_place r ≠ ReceiveFailed ∧ r_place r ≠ Received.
Proof. unfold r_listening. by destruct (r_place r). Qed.

Lemma ok_fail a ch error code r : (match code with Some c => 1 <= c <= 3 | None => True end) →
  r_listening r = true → receiver_ok a r → receiver_ok a (r_fail ch error code r).
Proof.
  intros Hc Hl (w & sk & e & out & Hi). destruct (listening_place r Hl) as [P1 P2].
  destruct (rinv_fail a w sk e out ch error code r Hc P1 P2 Hi) as [out' ?]. by exists w, sk, e, out'.
Qed.

Lemma ok_frame a ch b r : r_listening r = true → receiver_ok a r → ∃ a', receiver_ok a' (r_frame total plaintextBytes ch b r) ∧
  (a' = a ∨ ∃ offset chunk, decodeFrame sender b = Ok (FData offset chunk) ∧ a' = a ++ [chunk]).
Proof.
  intros Hl Hok. unfold r_frame. destruct (bool_decide _ || done r) eqn:E; [by exists a; split; [|left]|]. apply orb_false_iff in E as [Ef Hd].
  apply bool_decide_eq_false in Ef. assert (r_failure r = None) as Hf by (destruct (r_failure r); [by destruct Ef|done]).
  destruct (listening_place r Hl) as [P1 P2].
  destruct (decodeFrame sender b) as [[offset chunk| |h n| |]|] eqn:Eb; try (exists a; split; [apply ok_fail; done || lia|by left]).
  - destruct Hok as (w & sk & e & out & Hi).
    destruct (rinv_data a w sk e out ch offset chunk r Hf Hd (decodeFrame_data _ _ _ Eb) P1 P2 Hi) as (a' & out' & ? & Ha).
    exists a'. split; [by exists w, sk, e, out'|]. destruct Ha as [->| ->]; [by left|right]. eauto.
  - destruct Hok as (w & sk & e & out & Hi). exists a. split; [|by left].
    destruct (rinv_end a w sk e out ch h n r Hf Hd P1 P2 Hi) as (e' & out' & ?). by exists w, sk, e', out'.
Qed.

Lemma ok_settle a ch result r : receiver_ok a r → receiver_ok a (r_settle total ch result r).
Proof.
  intros (w & sk & e & out & Hi). unfold r_settle. destruct (running r) as [st|] eqn:Er; [|by exists w, sk, e, out].
  destruct result as [|msg|msg].
  - destruct st as [c|h n].
    + destruct (rinv_wrote a w sk e out ch c r Er Hi) as [out' ?]. by exists w, sk, e, out'.
    + destruct (rinv_ended a w sk e out ch h n r Er Hi) as (e' & out' & ?). by exists w, sk, e', out'.
  - destruct (rinv_refused a w sk e out r (mkTransferError Storage msg) ch (Some 3) st ltac:(cbn; lia) Er Hi) as (e' & out' & ?). by exists w, sk, e', out'.
  - destruct (rinv_refused a w sk e out r (mkTransferError Verification msg) ch (Some 2) st ltac:(cbn; lia) Er Hi) as (e' & out' & ?). by exists w, sk, e', out'.
Qed.

Lemma ok_turn a r : receiver_ok a r → receiver_ok a (r_turn r).
Proof.
  intros (w & sk & e & out & Hi). exists w, sk, e, out. unfold r_turn. destruct (r_place r) eqn:Ep; try done.
  - destruct (r_failure r) eqn:Ef; [|destruct (done r) eqn:Ed; [|done]]; destruct Hi; rewrite Ep in *.
    + split; cbn; try done; rewrite ?Ef; try done. by rewrite app_nil_r.
    + split; cbn; try done. by rewrite app_nil_r.
  - destruct (running r) eqn:Er; [done|]. destruct (queue r) eqn:Eq; [|done]. destruct Hi. rewrite Ep in *.
    split; cbn; rewrite ?Eq; try done; try congruence.
    rewrite rinv_sink0. unfold calls_of. by rewrite app_nil_r, <- app_assoc.
Qed.

Lemma ok_begin a r : receiver_ok a r → receiver_ok a (r_begin r).
Proof. intros (w & sk & e & out & Hi). destruct (rinv_begin a w sk e out r Hi) as (w' & sk' & e' & ?). by exists w', sk', e', out. Qed.

(** Only a DATA frame adds to what was taken. *)
Lemma ok_step a r ev : receiver_ok a r → ∃ a', receiver_ok a' (r_step total plaintextBytes r ev) ∧
  (a' = a ∨ ∃ ch b offset chunk, ev = RFrame ch b ∧ decodeFrame sender b = Ok (FData offset chunk) ∧ a' = a ++ [chunk]).
Proof.
  intros Hok. destruct ev as [ch b|ch|ch| |ch result|]; cbn [r_step]; [|exists a; split; [|by left]..].
  - destruct (r_listening r) eqn:E; [|by exists a; split; [|left]].
    destruct (ok_frame a ch b r E Hok) as (a' & ? & [->|(o & c & Hd & ->)]); [by exists a; split; [|left]|].
    exists (a ++ [c]). split; [done|right]. by exists ch, b, o, c.
  - destruct (r_listening r) eqn:E; [|done]. unfold r_closed. destruct (done r); [done|by apply ok_fail].
  - destruct (r_listening r) eqn:E; [apply ok_fail; done || lia|done].
  - by apply ok_begin.
  - by apply ok_settle.
  - by apply ok_turn.
Qed.

Lemma ok_run events a r : receiver_ok a r → ∃ a', receiver_ok a' (r_run total plaintextBytes r events).
Proof.
  revert a r. induction events as [|ev events IH]; intros a r Hok; [by exists a|]. cbn [r_run foldl].
  destruct (ok_step a r ev Hok) as (a' & Hok' & _). by apply (IH a').
Qed.

Lemma ok_start ch already : receiver_ok [] (receiveEnvelope_start ch already).
Proof.
  assert (receiver_ok [] (mkReceiver Receiving 0 0 0 false false None [] None [] [] [])) as H0.
  { exists [], [], Open, []. split; cbn; try done; try lia; try (by constructor).
    - split_and!; [done|done|]. by exists [].
    - split; [intros Hin; by apply elem_of_nil in Hin|done]. }
  unfold receiveEnvelope_start. assert (receiver_ok [] (if already then r_abort ch (mkReceiver Receiving 0 0 0 false false None [] None [] [] []) else mkReceiver Receiving 0 0 0 false false None [] None [] [] [])) as H1.
  { destruct already; [apply ok_fail; done || lia|done]. }
  destruct (open ch); [done|]. apply ok_fail; [done| |done]. destruct already; [|done]. unfold r_abort, r_fail. by destruct (bool_decide _ || _).
Qed.
End Receiver.

(** ** The property *)

(** Whatever arrives, whatever the sink answers and whenever the person
    stops it, a receiver hands the sink its chunks in order without a gap,
    calls [end] only after writing exactly the announced length, with the
    announced plaintext size, and at most once; it says KEPT only after the
    sink resolved [end]; its ACKs only rise and never pass what the sink has
    written; it holds at most 8 MiB beyond its last ACK; it resolves only
    having said KEPT, with nothing aborted, and when it rejects the
    last thing it did was abort the sink. *)
Theorem receiveEnvelope_safe total plaintextBytes ch already events :
  let r := r_run total plaintextBytes (receiveEnvelope_start ch already) events in
  ∃ accepted w skipped e out, accepted = w ++ skipped ∧
    sink r = calls_of plaintextBytes w e (match r_place r with ReceiveFailed => true | _ => false end) ∧
    received r = zlen (mjoin accepted) ∧ received r <= Z.max 0 total ∧ received r - lastAck r <= unacknowledgedBytes ∧
    Forall2 (λ f b, encode_frame f = Ok b) out (r_wire r) ∧
    StronglySorted Z.lt (ack_values out) ∧ Forall (λ n, 0 < n <= zlen (mjoin w)) (ack_values out) ∧
    (FKept ∈ out ↔ done r = true) ∧
    match e with
    | EndRunning _ | EndRefused _ => endSeen r = true
    | EndResolved _ => zlen (mjoin w) = total
    | _ => done r = false
    end ∧
    match r_place r with
    | Received => r_failure r = None ∧ FKept ∈ out ∧ ∃ h, e = EndResolved h
    | ReceiveFailed => is_Some (r_failure r)
    | _ => True
    end.
Proof.
  intros r. destruct (ok_run total plaintextBytes events _ _ (ok_start total plaintextBytes ch already)) as (a & w & sk & e & out & Hi). fold r in Hi.
  exists a, w, (sk ++ write_chunks (queue r)), e, out. destruct Hi. split_and!; try done.
  - eapply Forall_impl; [exact rinv_ack_bound0|]. cbn. intros n Hn. unfold run_length in *.
    enough (written r <= zlen (mjoin w)) by lia. destruct (running r) as [[c|]|]; try lia. pose proof (zlen_nonneg c). lia.
  - destruct e; unfold stage_ok in rinv_stage0; try (by destruct rinv_stage0); try (destruct (done r) eqn:Ed; [by destruct (rinv_done0 eq_refl)|done]).
    destruct rinv_stage0 as (He & _ & _ & Hr & _). rewrite (rinv_end_seen0 He). lia.
  - destruct (r_place r); try done; [|by destruct rinv_place0]. destruct rinv_place0 as [Hd Hf]. split_and!; [done|by apply rinv_kept0|auto].
Qed.
