(* ===== verification/TransferCorrect.v ===== *)
(** * Both ends of a transfer over one channel

    A sender and a receiver, joined by a channel that delivers the frames of
    each side in order, while anything else - closes, cancels, refusals
    of the sink, an interrupted pacing rule - happens whenever it likes. *)

From Stdlib Require Import Sorting.Sorted.
From stdpp Require Import sorting.
From S2P Require Import Prelude JsString Utf8 Bytes DirectConfig Frames Transfer SenderFacts ReceiverFacts.

(** ** Frames by position *)

Lemma data_frames_lookup at_ chunks i :
  data_frames at_ chunks !! i = (λ c, type_data :: u64 (at_ + zlen (mjoin (take i chunks))) ++ c) <$> chunks !! i.
Proof.
  revert at_ i; induction chunks as [|c chunks IH]; intros at_ [|i]; try done.
  - simpl. by rewrite Z.add_0_r.
  - cbn [data_frames lookup list_lookup]. rewrite IH. cbn [take]. change (mjoin (c :: take i chunks)) with (c ++ mjoin (take i chunks)).
    by rewrite zlen_app, Z.add_assoc.
Qed.

Lemma length_data_frames at_ chunks : length (data_frames at_ chunks) = length chunks.
Proof. revert at_; induction chunks as [|c chunks IH]; intros at_; simpl; [done|]. by rewrite IH. Qed.

Lemma encode_inj r f f' b : sends r f → sends r f' → stop_code_ok f → stop_code_ok f' →
  encode_frame f = Ok b → encode_frame f' = Ok b → f = f'.
Proof.
  intros H1 H2 H3 H4 H5 H6. apply (decode_encode r) in H5, H6; try done. congruence.
Qed.

Lemma reply_sends f : reply f → sends receiver f ∧ stop_code_ok f.
Proof. by destruct f. Qed.

Lemma out_prefix out out' w x : Forall reply out → Forall reply out' → Forall2 (λ f b, encode_frame f = Ok b) out w →
  Forall2 (λ f b, encode_frame f = Ok b) out' (w ++ x) → out `prefix_of` out'.
Proof.
  intros Hr Hr' Hw Hw'. apply Forall2_app_inv_r in Hw' as (o1 & o2 & H1 & _ & ->). apply Forall_app in Hr' as [Hr1 _].
  assert (o1 = out) as ->; [|by apply prefix_app_r].
  clear o2. revert out Hr Hw. induction H1 as [|f b o1 w Hf H1 IH]; intros out Hr Hw; [by apply Forall2_nil_inv_r in Hw|].
  apply Forall2_cons_inv_r in Hw as (f' & out' & Hf' & Hw & ->). apply Forall_cons in Hr as [Hq Hr], Hr1 as [Hq1 Hr1].
  destruct (reply_sends f Hq1), (reply_sends f' Hq). f_equal; [by apply (encode_inj receiver f f' b)|by apply IH].
Qed.

Lemma mjoin_prefix (l k : list bytes) : l `prefix_of` k → zlen (mjoin l) <= zlen (mjoin k).
Proof. intros [x ->]. rewrite join_app, zlen_app. pose proof (zlen_nonneg (mjoin x)). lia. Qed.

Lemma mjoin_prefix_eq (l k : list bytes) : l `prefix_of` k → Forall (λ c, 1 <= zlen c) k → zlen (mjoin k) <= zlen (mjoin l) → l = k.
Proof.
  intros [x ->] Hk Hz. apply Forall_app in Hk as [_ Hx]. rewrite join_app, zlen_app in Hz.
  destruct Hx as [|c x Hc Hx]; [by rewrite app_nil_r|]. simpl in Hz. rewrite zlen_app in Hz. pose proof (zlen_nonneg (mjoin x)). simpl in *. lia.
Qed.

Lemma data_frame_inj o o' (c c' : bytes) : type_data :: u64 o ++ c = type_data :: u64 o' ++ c' → c = c'.
Proof. intros He. by apply (f_equal (List.skipn 9)) in He. Qed.

(** The chunks a wire carries are determined by it. *)
Lemma tail_head encoder s tail i b : tail_ok encoder s tail → tail !! i = Some b →
  (i = 0%nat ∧ ended s = true ∧ encodeEnd (digest encoder) (size encoder) = Ok b ∧ nth 0 b 0 = type_end) ∨
  (∃ code, 1 <= code <= 3 ∧ b = encodeStop code ∧ is_Some (failure s)).
Proof.
  intros (e & p & -> & He & Hp) Hb. destruct He as [->|(Hend & eb & He & ->)].
  - right. destruct Hp as [->|(Hf & code & Hc & ->)]; [done|]. destruct i as [|i]; [|by destruct i]. injection Hb as <-. by exists code.
  - destruct i as [|i].
    + injection Hb as <-. left. split_and!; try done. by apply encodeEnd_ok in He as (_ & _ & ->).
    + right. cbn in Hb. destruct Hp as [->|(Hf & code & Hc & ->)]; [by destruct i|]. destruct i as [|i]; [|by destruct i]. injection Hb as <-. by exists code.
Qed.

Lemma chunks_prefix encoder chunks tail chunks' s' tail' :
  tail_ok encoder s' tail' →
  (data_frames 0 chunks ++ tail) `prefix_of` (data_frames 0 chunks' ++ tail') → chunks `prefix_of` chunks'.
Proof.
  intros Ht' [x Hx]. 
  assert (∀ i c, chunks !! i = Some c → chunks' !! i = Some c) as Hl.
  { intros i c Hc. assert ((data_frames 0 chunks' ++ tail') !! i = Some (type_data :: u64 (0 + zlen (mjoin (take i chunks))) ++ c)) as Hi.
    { rewrite Hx. pose proof (lookup_lt_Some _ _ _ Hc). rewrite <- app_assoc, lookup_app_l by (rewrite length_data_frames; done).
      by rewrite data_frames_lookup, Hc. }
    apply lookup_app_Some in Hi as [Hi|[_ Hi]].
    - rewrite data_frames_lookup in Hi. destruct (chunks' !! i) as [c'|] eqn:E; [|done]. cbn [fmap option_fmap option_map] in Hi.
      apply Some_inj, data_frame_inj in Hi. by subst.
    - destruct (tail_head _ _ _ _ _ Ht' Hi) as [(_ & _ & _ & Hty)|(code & _ & Hty & _)]; discriminate Hty. }
  exists (List.skipn (length chunks) chunks'). apply list_eq. intros i.
  destruct (decide (i < length chunks)%nat).
  - rewrite lookup_app_l by done. destruct (chunks !! i) as [c|] eqn:E; [by apply Hl|]. by apply lookup_ge_None in E; lia.
  - rewrite lookup_app_r by lia. rewrite lookup_drop. f_equal. lia.
Qed.

(** ** Steps without a frame *)

Definition not_protocol (f : option TransferError) : Prop := ∀ err, f = Some err → kind err ≠ Protocol.

(** What a step of the receiver that reads no frame leaves alone. *)
Record r_quiet (r r' : Receiver) : Prop := {
  q_end_seen : endSeen r' = endSeen r;
  q_failure : r_failure r' = None → r_failure r = None;
  q_done : done r = true → done r' = true;
  q_wire : r_wire r `prefix_of` r_wire r';
  q_ends : ∀ h n, EndStep h n ∈ queue r' ∨ running r' = Some (EndStep h n) ∨ SinkEnd h n ∈ sink r' →
    EndStep h n ∈ queue r ∨ running r = Some (EndStep h n) ∨ SinkEnd h n ∈ sink r;
  q_kind : not_protocol (r_failure r) → not_protocol (r_failure r');
}.

Lemma r_quiet_refl r : r_quiet r r.
Proof. split; auto. Qed.

Lemma r_quiet_trans r r' r'' : r_quiet r r' → r_quiet r' r'' → r_quiet r r''.
Proof. intros [] []. split; [congruence|auto|auto|by etransitivity|auto|auto]. Qed.

Lemma tryStop_prefix ch code out : out `prefix_of` tryStop ch code out.
Proof. unfold tryStop, trySend. destruct code; [destruct (_ && _)|]; [by apply prefix_app_r|done..]. Qed.

Lemma quiet_fail ch err code r : kind err ≠ Protocol → r_quiet r (r_fail ch err code r).
Proof.
  intros Hk. unfold r_fail. destruct (bool_decide _ || done r) eqn:E; [apply r_quiet_refl|].
  split; cbn; try done; [apply tryStop_prefix|]. intros _ e [= <-]. done.
Qed.

Lemma quiet_set_running q cur calls r : (∀ s, s ∈ q → s ∈ queue r) → 
  (∀ h n, cur = Some (EndStep h n) → EndStep h n ∈ queue r) → (∀ h n, SinkEnd h n ∈ calls → EndStep h n ∈ queue r) →
  r_quiet r (r_set_running q cur calls r).
Proof.
  intros Hq Hc Hs. split; cbn; try done. intros h n [H|[H|H]]; [left; auto..|]. apply elem_of_app in H as [H|H]; [auto|left; auto].
Qed.

Lemma quiet_begin r : r_quiet r (r_begin r).
Proof.
  unfold r_begin. destruct (running r) eqn:Er; [apply r_quiet_refl|]. destruct (queue r) as [|st q] eqn:Eq; [apply r_quiet_refl|].
  destruct (r_failure r); apply quiet_set_running; rewrite ?Eq; try (intros; set_solver).
  intros h n H. destruct st; set_solver.
Qed.

Lemma quiet_send ch frame r r' : r_send ch frame r = Ok r' → r_quiet r r'.
Proof. unfold r_send. intros H. inv_ok. split; cbn; try done. by apply prefix_app_r. Qed.

Lemma quiet_settle total ch result r : r_quiet r (r_settle total ch result r).
Proof.
  unfold r_settle. destruct (running r) as [st|] eqn:Er; [|apply r_quiet_refl].
  assert (∀ calls, (∀ h n, SinkEnd h n ∉ calls) → r_quiet r (r_set_running (queue r) None calls r)) as Hclear.
  { intros calls Hc. split; cbn; try done. intros h n [H|[H|H]]; [auto|done|]. apply elem_of_app in H as [H|H]; [auto|]. by apply Hc in H. }
  assert (r_quiet r (r_set_running (queue r) None [] r)) as H0 by (apply Hclear; set_solver).
  destruct result as [|msg|msg]; [|by eapply r_quiet_trans; [exact H0|apply quiet_fail]..].
  destruct st as [c|h n].
  - eapply r_quiet_trans; [exact H0|]. unfold r_wrote. generalize (r_set_running (queue r) None [] r). clear. intros r.
    set (due := (_ <=? _) || _). clearbody due. set (w := _ + _). clearbody w.
    set (r1 := mkReceiver (r_place r) (received r) w (if due then w else lastAck r) (endSeen r) (done r) (r_failure r) (queue r) (running r) (r_wire r) (sink r) (r_progress r)).
    assert (r_quiet r r1) as H1 by (unfold r1; split; cbn; done).
    assert (∀ r', r_quiet r r' → r_quiet r (mkReceiver (r_place r') (received r') (written r') (lastAck r') (endSeen r') (done r') (r_failure r') (queue r') (running r') (r_wire r') (sink r') (r_progress r' ++ [w]))) as H2.
    { intros r' []. split; cbn; done. }
    destruct due; [|by apply H2]. destruct (encodeAck w) as [b|]; [|by eapply r_quiet_trans; [exact H1|apply quiet_fail]].
    destruct (r_send ch b r1) as [r2|] eqn:Es; [|by eapply r_quiet_trans; [exact H1|apply quiet_fail]].
    apply H2. eapply r_quiet_trans; [exact H1|]. by eapply quiet_send.
  - assert (r_quiet r (r_set_running (queue r) None [SinkEnded] r)) as H1 by (apply Hclear; set_solver).
    eapply r_quiet_trans; [exact H1|]. generalize (r_set_running (queue r) None [SinkEnded] r). clear. intros r. unfold r_ended.
    destruct (r_send ch encodeKept r) as [r2|] eqn:Es; [|by apply quiet_fail]. apply quiet_send in Es. destruct Es. split; cbn; done.
Qed.

Lemma quiet_turn r : r_quiet r (r_turn r).
Proof.
  assert (∀ p calls, (∀ h n, SinkEnd h n ∉ calls) → r_quiet r (r_goto p calls r)) as Hg.
  { intros p calls Hc. split; cbn; try done. intros h n [H|[H|H]]; [auto|auto|]. apply elem_of_app in H as [H|H]; [auto|]. by apply Hc in H. }
  unfold r_turn. destruct (r_place r); try apply r_quiet_refl.
  - destruct (r_failure r); [|destruct (done r)]; try apply r_quiet_refl; apply Hg; set_solver.
  - destruct (running r), (queue r); try apply r_quiet_refl; apply Hg; set_solver.
Qed.

Definition is_frame (e : receiver_event) : bool := match e with RFrame _ _ => true | _ => false end.

Lemma quiet_step total plaintextBytes r e : is_frame e = false → r_quiet r (r_step total plaintextBytes r e).
Proof.
  intros He. destruct e as [| ch|ch| |ch result|]; try done; cbn [r_step].
  - destruct (r_listening r); [|apply r_quiet_refl]. unfold r_closed. destruct (done r); [apply r_quiet_refl|by apply quiet_fail].
  - destruct (r_listening r); [|apply r_quiet_refl]. by apply quiet_fail.
  - apply quiet_begin.
  - apply quiet_settle.
  - apply quiet_turn.
Qed.

(** ACKs only rise. *)
Lemma ack_mono total plaintextBytes a r e : receiver_ok total plaintextBytes a r → lastAck r <= lastAck (r_step total plaintextBytes r e).
Proof.
  intros (w & sk & en & out & Hi). destruct Hi. 
  assert (∀ ch err code r, lastAck (r_fail ch err code r) = lastAck r) as Hf by (intros; unfold r_fail; by destruct (_ || _)).
  destruct e as [ch b|ch|ch| |ch result|]; cbn [r_step].
  - destruct (r_listening r); [|lia]. unfold r_frame, r_data, r_end, r_protocol. 
    repeat first [rewrite Hf | progress cbn [lastAck] | case_match]; lia.
  - destruct (r_listening r); [|lia]. unfold r_closed. destruct (done r); rewrite ?Hf; lia.
  - destruct (r_listening r); [|lia]. unfold r_abort. rewrite Hf. lia.
  - unfold r_begin. repeat case_match; cbn; lia.
  - unfold r_settle. destruct (running r) as [st|] eqn:Er; [|lia].
    destruct result as [|msg|msg]; [|rewrite Hf; cbn; lia..]. destruct st as [c|h n].
    + unfold r_wrote. cbn [written lastAck r_set_running]. pose proof (zlen_nonneg c).
      destruct (_ || _); [|cbn; lia]. destruct (encodeAck _); [|rewrite Hf; cbn; lia]. unfold r_send. destruct (send_throws ch); cbn; rewrite ?Hf; cbn; lia.
    + unfold r_ended, r_send. destruct (send_throws ch); cbn; rewrite ?Hf; cbn; lia.
  - unfold r_turn. repeat case_match; cbn; lia.
Qed.

(** What a step of the sender that reads no frame leaves alone. *)
Record s_quiet (s s' : Sender) : Prop := {
  qs_acknowledged : acknowledged s' = acknowledged s;
  qs_kept : kept s' = kept s;
  qs_ended : ended s = true → ended s' = true;
  qs_failure : failure s' = None → failure s = None;
  qs_wire : wire s `prefix_of` wire s';
  qs_kind : not_protocol (failure s) → not_protocol (failure s');
}.

Lemma s_quiet_refl s : s_quiet s s.
Proof. by split. Qed.

Lemma s_quiet_trans s s' s'' : s_quiet s s' → s_quiet s' s'' → s_quiet s s''.
Proof. intros [] []. split; [congruence|congruence|auto|auto|by etransitivity|auto]. Qed.

Lemma quiet_s_fail ch err code s : kind err ≠ Protocol → s_quiet s (s_fail ch err code s).
Proof.
  intros Hk. unfold s_fail. destruct (failure s) eqn:E; [apply s_quiet_refl|].
  split; cbn; try done; [apply tryStop_prefix|]. intros _ e [= <-]. done.
Qed.

Lemma quiet_s_throw ch err code s : kind err ≠ Protocol → s_quiet s (s_throw ch err code s).
Proof. intros Hk. eapply s_quiet_trans; [by apply quiet_s_fail|]. by split. Qed.

Lemma quiet_send_frame encoder m ch pacing s : s_quiet s (send_frame encoder m ch pacing s).
Proof.
  unfold send_frame. destruct (failure s) eqn:Ef; [by split; cbn; rewrite ?Ef|].
  destruct (0 <? _); [|by split]. destruct (encodeData _ _); [destruct (send_throws ch)|]; try by apply quiet_s_throw.
  split; cbn; try done. by apply prefix_app_r.
Qed.

Definition is_s_frame (e : sender_event) : bool := match e with SFrame _ _ => true | _ => false end.

Lemma quiet_s_step encoder m s e s' : is_s_frame e = false → s_step encoder m s e = Some s' → s_quiet s s'.
Proof.
  intros He Hs. destruct e as [| |ch|ch|ch pacing]; try done; cbn [s_step] in Hs;
    match type of Hs with (if ?c then _ else _) = _ => destruct c; [injection Hs as <-|done] end.
  - by split.
  - unfold s_closed. destruct (kept s) eqn:Ek; [apply s_quiet_refl|by apply quiet_s_fail].
  - eapply s_quiet_trans; [|by apply quiet_s_fail]. by split.
  - unfold s_turn. destruct (place s).
    + destruct (sent s <? _); [destruct (position s =? _); [by split|apply quiet_send_frame]|].
      destruct (encodeEnd _ _); [|by split]. split; cbn; try done. unfold trySend. destruct (_ && _); [by apply prefix_app_r|done].
    + unfold record_arrives. destruct (upcoming s) as [[r| |msg]|]; try by apply quiet_s_throw.
      * eapply s_quiet_trans; [|apply quiet_send_frame]. by split.
      * destruct (failure s) eqn:Ef; [by split; cbn; rewrite ?Ef|]. destruct (aborted s); by apply quiet_s_throw.
    + apply quiet_send_frame.
    + destruct (failure s) eqn:Ef; [by split; cbn; rewrite ?Ef|]. destruct (kept s) eqn:Ek; [|apply s_quiet_refl]. by split.
    + apply s_quiet_refl.
    + apply s_quiet_refl.
    + apply s_quiet_refl.
Qed.

(** ** The two ends *)

(** Both states, and how many frames of each side have been delivered. *)
Record System := mkSystem { snd : Sender; rcv : Receiver; to_receiver : nat; to_sender : nat }.

Section System.
Context (encoder : EnvelopeEncoder) (maxMessageSize : Z).

Notation total := (envelopeBytes encoder).
Notation plaintextBytes := (size encoder).

(** One step: either side by itself, or the next frame of one side reaching the
    other. Both ends know the sizes of the manifest, which are the encoder's. *)
Inductive sys_step : System → System → Prop :=
  | sys_sender y e s' : is_s_frame e = false → s_step encoder maxMessageSize (snd y) e = Some s' →
      sys_step y (mkSystem s' (rcv y) (to_receiver y) (to_sender y))
  | sys_receiver y e : is_frame e = false →
      sys_step y (mkSystem (snd y) (r_step total plaintextBytes (rcv y) e) (to_receiver y) (to_sender y))
  | sys_to_receiver y ch b : wire (snd y) !! to_receiver y = Some b →
      sys_step y (mkSystem (snd y) (r_step total plaintextBytes (rcv y) (RFrame ch b)) (S (to_receiver y)) (to_sender y))
  | sys_to_sender y ch b s' : r_wire (rcv y) !! to_sender y = Some b → s_step encoder maxMessageSize (snd y) (SFrame ch b) = Some s' →
      sys_step y (mkSystem s' (rcv y) (to_receiver y) (S (to_sender y))).

(** The states reached from the start of both functions. *)
Inductive sys_reach (ch ch' : Channel) (already already' : bool) : System → Prop :=
  | reach_start : sys_reach ch ch' already already'
      (mkSystem (sendEnvelope_start encoder maxMessageSize ch already) (receiveEnvelope_start ch' already') 0 0)
  | reach_step y y' : sys_reach ch ch' already already' y → sys_step y y' → sys_reach ch ch' already already' y'.

(** How the two states fit together: [chunks] is what the sender has sent,
    [accepted] what the receiver has taken, [out] what it has replied. *)
Record link (chunks accepted : list bytes) (out : list Frame) (y : System) : Prop := {
  l_prefix : accepted `prefix_of` chunks;
  l_open : r_failure (rcv y) = None → endSeen (rcv y) = false →
    accepted = take (to_receiver y) chunks ∧ (to_receiver y <= length chunks)%nat;
  l_end : endSeen (rcv y) = true → accepted = chunks ∧ ended (snd y) = true ∧ (length chunks < to_receiver y)%nat;
  l_hash : ∀ h n, EndStep h n ∈ queue (rcv y) ∨ running (rcv y) = Some (EndStep h n) ∨ SinkEnd h n ∈ sink (rcv y) → h = digest encoder;
  l_ack : acknowledged (snd y) <= lastAck (rcv y);
  l_acks : failure (snd y) = None → kept (snd y) = false →
    List.last (ack_values (take (to_sender y) out)) 0 = acknowledged (snd y) ∧ (to_sender y <= length out)%nat;
  l_len : (to_sender y <= length out)%nat;
  l_told : failure (snd y) = None → FKept ∈ take (to_sender y) out → kept (snd y) = true;
  l_kept : kept (snd y) = true → done (rcv y) = true;
  l_s_kind : not_protocol (failure (snd y));
  l_r_kind : not_protocol (r_failure (rcv y));
}.

Definition sys_ok (y : System) : Prop := ∃ chunks recs accepted w sk e out,
  sender_inv encoder maxMessageSize chunks recs (snd y) ∧
  receiver_inv total plaintextBytes accepted w sk e out (rcv y) ∧ link chunks accepted out y.

Hypothesis total_ok : 0 <= total <= max_safe_integer.

Lemma take_prefix_same {A} (k : nat) (l l' : list A) : l `prefix_of` l' → (k <= length l)%nat → take k l' = take k l.
Proof. intros [x ->] Hk. by rewrite take_app_le. Qed.

Lemma sender_chunks_bound chunks recs s : sender_inv encoder maxMessageSize chunks recs s →
  sent s = zlen (mjoin chunks) ∧ sent s <= total ∧ Forall (λ c, 1 <= zlen c <= 65527) chunks.
Proof.
  intros []. split_and!; [done|lia|]. eapply Forall_impl; [exact inv_chunks|]. cbn. unfold frameBytes, DATA_HEADER_BYTES. lia.
Qed.

(** A step of the sender alone keeps the two ends in line. *)
Lemma link_sender chunks recs accepted out y s' chunks' recs' :
  s_quiet (snd y) s' → sender_inv encoder maxMessageSize chunks recs (snd y) → sender_inv encoder maxMessageSize chunks' recs' s' →
  link chunks accepted out y → link chunks' accepted out (mkSystem s' (rcv y) (to_receiver y) (to_sender y)).
Proof.
  intros [] Hi Hi' []. destruct (inv_wire _ _ _ _ _ Hi) as (tail & Hw & _). destruct (inv_wire _ _ _ _ _ Hi') as (tail' & Hw' & Ht').
  assert (chunks `prefix_of` chunks') as Hp by (apply (chunks_prefix encoder chunks tail chunks' s' tail' Ht'); by rewrite <- Hw, <- Hw').
  destruct (sender_chunks_bound _ _ _ Hi) as (S1 & S2 & S3), (sender_chunks_bound _ _ _ Hi') as (S1' & S2' & S3').
  split; cbn; try done.
  - by etransitivity.
  - intros Hf He. destruct (l_open0 Hf He) as [-> Hk]. rewrite (take_prefix_same _ chunks chunks') by done. split; [done|].
    apply prefix_length in Hp. lia.
  - intros He. destruct (l_end0 He) as (-> & Hend & Hk). assert (chunks = chunks') as <-.
    { apply mjoin_prefix_eq; [done| |]; [eapply Forall_impl; [exact S3'|]; cbn; lia|].
      pose proof (inv_end_sent _ _ _ _ _ Hi Hend). lia. }
    auto.
  - lia.
  - intros Hf Hk. rewrite qs_acknowledged0. apply l_acks0; [auto|congruence].
  - intros Hf Hk. rewrite qs_kept0. auto.
  - rewrite qs_kept0. done.
  - auto.
Qed.

(** A step of the receiver that reads no frame. *)
Lemma link_receiver chunks accepted w sk e out w' sk' e' out' y r' :
  r_quiet (rcv y) r' → lastAck (rcv y) <= lastAck r' →
  receiver_inv total plaintextBytes accepted w sk e out (rcv y) → receiver_inv total plaintextBytes accepted w' sk' e' out' r' →
  link chunks accepted out y → link chunks accepted out' (mkSystem (snd y) r' (to_receiver y) (to_sender y)).
Proof.
  intros [] Hack Hi Hi' []. assert (out `prefix_of` out') as Hp.
  { destruct q_wire0 as [x Hx]. eapply (out_prefix _ _ (r_wire (rcv y)) x); [apply Hi|apply Hi'|apply Hi|]. rewrite <- Hx. apply Hi'. }
  split; cbn; try done.
  - rewrite q_end_seen0. auto.
  - rewrite q_end_seen0. auto.
  - eauto.
  - lia.
  - intros Hf Hk. destruct (l_acks0 Hf Hk) as [Hl Hn]. rewrite (take_prefix_same _ out out') by done. split; [done|].
    apply prefix_length in Hp. lia.
  - apply prefix_length in Hp. lia.
  - intros Hf. rewrite (take_prefix_same _ out out') by done. auto.
  - auto.
  - auto.
Qed.

(** ** A frame reaching the receiver *)

Lemma r_frame_over ch b r : is_Some (r_failure r) ∨ done r = true → r_step total plaintextBytes r (RFrame ch b) = r.
Proof.
  intros H. cbn [r_step]. destruct (r_listening r); [|done]. unfold r_frame.
  destruct (bool_decide _ || done r) eqn:E; [done|]. apply orb_false_iff in E as [Ef Hd]. apply bool_decide_eq_false in Ef. by destruct H; [|congruence].
Qed.

(** The frame at a place of the sender's wire, as the receiver reads it. *)
Lemma wire_frame chunks recs s k b : sender_inv encoder maxMessageSize chunks recs s → wire s !! k = Some b →
  (∃ c, chunks !! k = Some c ∧ decodeFrame sender b = Ok (FData (zlen (mjoin (take k chunks))) c)) ∨
  (length chunks = k ∧ ended s = true ∧ decodeFrame sender b = Ok (FEnd (digest encoder) plaintextBytes)) ∨
  ((length chunks <= k)%nat ∧ ∃ code, 1 <= code <= 3 ∧ decodeFrame sender b = Ok (FStop code)).
Proof.
  intros Hi Hb. destruct (inv_wire _ _ _ _ _ Hi) as (tail & Hw & Ht). destruct (sender_chunks_bound _ _ _ Hi) as (S1 & S2 & S3).
  rewrite Hw in Hb. apply lookup_app_Some in Hb as [Hb|[Hk Hb]].
  - left. rewrite data_frames_lookup in Hb. destruct (chunks !! k) as [c|] eqn:Ec; [|done]. apply Some_inj in Hb. rewrite Z.add_0_l in Hb.
    exists c. split; [done|]. apply decode_encode; [done|done|]. apply encodeData_ok. split; [|split; [|done]].
    + pose proof (mjoin_prefix (take k chunks) chunks ltac:(by exists (List.skipn k chunks); rewrite take_drop)).
      pose proof (zlen_nonneg (mjoin (take k chunks))). unfold u53. lia.
    + rewrite Forall_forall in S3. apply S3, list_elem_of_lookup. by exists k.
  - right. rewrite length_data_frames in *. destruct (tail_head _ _ _ _ _ Ht Hb) as [(H0 & Hend & He & _)|(code & Hc & -> & _)].
    + left. split_and!; [lia|done|]. by apply decode_encode.
    + right. split; [done|]. exists code. split; [done|]. by apply (decode_encode sender (FStop code)).
Qed.

Lemma failureForStop_kind code : kind (plain_error (failureForStop code)) ≠ Protocol.
Proof. unfold failureForStop. by repeat case_match. Qed.

(** A frame of the sender fits what the receiver waits for, so the receiver
    takes it. *)
Lemma deliver_data chunks recs accepted out y ch b c o : 
  sender_inv encoder maxMessageSize chunks recs (snd y) → receiver_ok total plaintextBytes accepted (rcv y) → link chunks accepted out y →
  r_failure (rcv y) = None → done (rcv y) = false → endSeen (rcv y) = false → chunks !! to_receiver y = Some c →
  o = zlen (mjoin (take (to_receiver y) chunks)) → decodeFrame sender b = Ok (FData o c) →
  r_frame total plaintextBytes ch b (rcv y) =
    mkReceiver (r_place (rcv y)) (received (rcv y) + zlen c) (written (rcv y)) (lastAck (rcv y)) false false None
      (queue (rcv y) ++ [WriteStep c]) (running (rcv y)) (r_wire (rcv y)) (sink (rcv y)) (r_progress (rcv y)) ∧
  accepted ++ [c] = take (S (to_receiver y)) chunks.
Proof.
  intros Hs (w & sk & e & out' & Hr) Hl Hf Hd He Hc -> Hdec. destruct (l_open _ _ _ _ Hl Hf He) as [Ha Hk].
  destruct (sender_chunks_bound _ _ _ Hs) as (S1 & S2 & S3). pose proof (inv_inflight _ _ _ _ _ Hs). pose proof (l_ack _ _ _ _ Hl).
  assert (received (rcv y) = zlen (mjoin (take (to_receiver y) chunks))) as Hrec by (rewrite <- Ha; apply Hr).
  assert (take (S (to_receiver y)) chunks = take (to_receiver y) chunks ++ [c]) as Ht by by apply take_S_r.
  assert (zlen (mjoin (take (to_receiver y) chunks)) + zlen c <= sent (snd y)).
  { rewrite S1. pose proof (mjoin_prefix (take (S (to_receiver y)) chunks) chunks ltac:(by exists (List.skipn (S (to_receiver y)) chunks); rewrite take_drop)) as Hm.
    rewrite Ht, join_app, zlen_app in Hm. simpl in Hm. rewrite app_nil_r in Hm. done. }
  split; [|by rewrite Ht, Ha]. unfold r_frame. rewrite Hf, Hd. rewrite bool_decide_false by (by intros [? ?]). cbn [orb]. rewrite Hdec.
  unfold r_data. rewrite He, Hrec, Z.eqb_refl. cbn [negb].
  rewrite (proj2 (Z.ltb_ge total _)), (proj2 (Z.ltb_ge unacknowledgedBytes _)) by lia. by rewrite Hf, Hd.
Qed.

Lemma deliver_end chunks recs accepted out y ch b :
  sender_inv encoder maxMessageSize chunks recs (snd y) → receiver_ok total plaintextBytes accepted (rcv y) → link chunks accepted out y →
  r_failure (rcv y) = None → done (rcv y) = false → endSeen (rcv y) = false → length chunks = to_receiver y → ended (snd y) = true →
  decodeFrame sender b = Ok (FEnd (digest encoder) plaintextBytes) →
  r_frame total plaintextBytes ch b (rcv y) =
    mkReceiver (r_place (rcv y)) (received (rcv y)) (written (rcv y)) (lastAck (rcv y)) true false None
      (queue (rcv y) ++ [EndStep (digest encoder) plaintextBytes]) (running (rcv y)) (r_wire (rcv y)) (sink (rcv y)) (r_progress (rcv y)) ∧
  accepted = chunks.
Proof.
  intros Hs (w & sk & e & out' & Hr) Hl Hf Hd He Hk Hend Hdec. destruct (l_open _ _ _ _ Hl Hf He) as [Ha _].
  destruct (sender_chunks_bound _ _ _ Hs) as (S1 & S2 & S3). pose proof (inv_end_sent _ _ _ _ _ Hs Hend).
  rewrite <- Hk, firstn_all in Ha. split; [|done].
  assert (received (rcv y) = total) as Hrec by (rewrite (rinv_received _ _ _ _ _ _ _ _ Hr), Ha; lia).
  unfold r_frame. rewrite Hf, Hd. rewrite bool_decide_false by (by intros [? ?]). cbn [orb]. rewrite Hdec.
  unfold r_end. rewrite He, Hrec, !Z.eqb_refl. cbn [negb]. by rewrite Hf, Hd.
Qed.

Lemma link_count chunks accepted out y : is_Some (r_failure (rcv y)) ∨ done (rcv y) = true → 
  (done (rcv y) = true → endSeen (rcv y) = true) → link chunks accepted out y →
  link chunks accepted out (mkSystem (snd y) (rcv y) (S (to_receiver y)) (to_sender y)).
Proof.
  intros Hover Hde []. split; cbn; try done.
  - intros Hf He. destruct Hover as [[? ?]|Hd]; [congruence|]. rewrite Hde in He by done. done.
  - intros He. destruct (l_end0 He) as (? & ? & ?). split_and!; [done|done|lia].
Qed.

Lemma done_end_seen accepted w sk e out r : receiver_inv total plaintextBytes accepted w sk e out r → done r = true → endSeen r = true.
Proof. intros [] Hd. destruct (rinv_done Hd) as [h ->]. by destruct rinv_stage. Qed.

Lemma sys_ok_to_receiver y ch b : wire (snd y) !! to_receiver y = Some b → sys_ok y →
  sys_ok (mkSystem (snd y) (r_step total plaintextBytes (rcv y) (RFrame ch b)) (S (to_receiver y)) (to_sender y)).
Proof.
  intros Hb (chunks & recs & accepted & w & sk & e & out & Hs & Hr & Hl).
  destruct (decide (is_Some (r_failure (rcv y)) ∨ done (rcv y) = true)) as [Hover|Hlive].
  { rewrite r_frame_over by done. exists chunks, recs, accepted, w, sk, e, out. split_and!; [done|done|].
    apply link_count; [done| |done]. by eapply done_end_seen. }
  assert (r_failure (rcv y) = None ∧ done (rcv y) = false) as [Hf Hd].
  { destruct (r_failure (rcv y)), (done (rcv y)); try done; destruct Hlive; auto. }
  assert (r_listening (rcv y) = true) as Hlisten.
  { pose proof (rinv_place _ _ _ _ _ _ _ _ Hr) as Hp. unfold r_listening. destruct (r_place (rcv y)); try done; rewrite ?Hf, ?Hd in Hp; [by destruct Hp|by destruct Hp as [[? ?] _]]. }
  cbn [r_step]. rewrite Hlisten. destruct (listening_place _ Hlisten) as [P1 P2].
  assert (receiver_ok total plaintextBytes accepted (rcv y)) as Hok by (by exists w, sk, e, out).
  assert (endSeen (rcv y) = true → chunks !! to_receiver y = None ∧ length chunks ≠ to_receiver y) as Hafter.
  { intros He. destruct (l_end _ _ _ _ Hl He) as (_ & _ & Hk). split; [apply lookup_ge_None; lia|lia]. }
  destruct (wire_frame _ _ _ _ _ Hs Hb) as [(c & Hc & Hdec)|[(Hk & Hend & Hdec)|(Hk & code & Hcode & Hdec)]].
  - destruct (endSeen (rcv y)) eqn:He; [destruct (Hafter eq_refl); congruence|].
    destruct (deliver_data _ _ _ _ _ ch _ _ _ Hs Hok Hl Hf Hd He Hc eq_refl Hdec) as [Er Ha].
    destruct (ok_frame total plaintextBytes accepted ch b (rcv y) Hlisten Hok) as (a' & (w' & sk' & e' & out' & Hr') & Ha').
    rewrite Er in *. assert (a' = accepted ++ [c]) as ->.
    { destruct Ha' as [->|(o & c' & Hd' & ->)]; [|congruence]. pose proof (rinv_received _ _ _ _ _ _ _ _ Hr). pose proof (rinv_received _ _ _ _ _ _ _ _ Hr') as Hx. cbn in Hx.
      destruct (sender_chunks_bound _ _ _ Hs) as (_ & _ & S3). rewrite Forall_forall in S3. specialize (S3 c ltac:(apply list_elem_of_lookup; eauto)). cbn in S3. lia. }
    assert (out' = out) as ->.
    { pose proof (rinv_wire _ _ _ _ _ _ _ _ Hr') as W'. cbn in W'. pose proof (rinv_wire _ _ _ _ _ _ _ _ Hr) as W.
      destruct (out_prefix out' out _ [] (rinv_reply _ _ _ _ _ _ _ _ Hr') (rinv_reply _ _ _ _ _ _ _ _ Hr) W') as [x Hx]; [by rewrite app_nil_r|].
      apply Forall2_length in W, W'. rewrite Hx in W. rewrite length_app in W. destruct x; [by rewrite app_nil_r in Hx|simpl in W; lia]. }
    exists chunks, recs, (accepted ++ [c]), w', sk', e', out. split_and!; [done|done|]. destruct Hl. split; cbn; try done.
    + rewrite Ha. exists (List.skipn (S (to_receiver y)) chunks). by rewrite take_drop.
    + intros _ _. split; [done|]. by apply lookup_lt_Some in Hc.
    + intros h n H. apply (l_hash0 h n). set_solver.
    + by rewrite Hd in l_kept0.
  - destruct (endSeen (rcv y)) eqn:He; [destruct (Hafter eq_refl); congruence|].
    destruct (deliver_end _ _ _ _ _ ch _ Hs Hok Hl Hf Hd He Hk Hend Hdec) as [Er Ha].
    destruct (rinv_end total plaintextBytes accepted w sk e out ch (digest encoder) plaintextBytes (rcv y) Hf Hd P1 P2 Hr) as (e' & out' & Hr').
    assert (r_end total plaintextBytes ch (digest encoder) plaintextBytes (rcv y) = r_frame total plaintextBytes ch b (rcv y)) as Eq.
    { unfold r_frame. rewrite Hf, Hd. rewrite bool_decide_false by (by intros [? ?]). cbn [orb]. by rewrite Hdec. }
    rewrite Eq, Er in Hr'. rewrite Er.
    assert (out' = out) as ->.
    { pose proof (rinv_wire _ _ _ _ _ _ _ _ Hr') as W'. cbn in W'. pose proof (rinv_wire _ _ _ _ _ _ _ _ Hr) as W.
      destruct (out_prefix out' out _ [] (rinv_reply _ _ _ _ _ _ _ _ Hr') (rinv_reply _ _ _ _ _ _ _ _ Hr) W') as [x Hx]; [by rewrite app_nil_r|].
      apply Forall2_length in W, W'. rewrite Hx in W. rewrite length_app in W. destruct x; [by rewrite app_nil_r in Hx|simpl in W; lia]. }
    exists chunks, recs, accepted, w, sk, e', out. split_and!; [done|done|]. destruct Hl. split; cbn; try done.
    + intros _. split_and!; [done|done|lia].
    + intros h n H. rewrite elem_of_app, list_elem_of_singleton in H. destruct H as [[H|H]|H]; [apply (l_hash0 h n); auto|by injection H as ->|apply (l_hash0 h n); auto].
    + by rewrite Hd in l_kept0.
  - assert (r_frame total plaintextBytes ch b (rcv y) = r_fail ch (plain_error (failureForStop code)) None (rcv y)) as ->.
    { unfold r_frame. rewrite Hf, Hd. rewrite bool_decide_false by (by intros [? ?]). cbn [orb]. by rewrite Hdec. }
    destruct (rinv_fail total plaintextBytes accepted w sk e out ch (plain_error (failureForStop code)) None (rcv y) I P1 P2 Hr) as [out' Hr'].
    exists chunks, recs, accepted, w, sk, e, out'. split_and!; [done|done|].
    pose proof (quiet_fail ch (plain_error (failureForStop code)) None (rcv y) (failureForStop_kind code)) as Hq.
    assert (link chunks accepted out' (mkSystem (snd y) (r_fail ch (plain_error (failureForStop code)) None (rcv y)) (to_receiver y) (to_sender y))) as Hl'.
    { eapply link_receiver; [exact Hq| |exact Hr|exact Hr'|exact Hl]. unfold r_fail. by destruct (_ || _). }
    assert (is_Some (r_failure (r_fail ch (plain_error (failureForStop code)) None (rcv y)))) as Hsome.
    { unfold r_fail. rewrite Hf, Hd. rewrite bool_decide_false by (by intros [? ?]). done. }
    apply (link_count _ _ _ (mkSystem (snd y) (r_fail ch (plain_error (failureForStop code)) None (rcv y)) (to_receiver y) (to_sender y))); [by left| |done].
    cbn. by eapply done_end_seen.
Qed.

(** ** A frame reaching the sender *)

Lemma ack_values_take out t f : out !! t = Some f → ack_values out = ack_values (take t out) ++ ack_values [f] ++ ack_values (List.skipn (S t) out).
Proof. intros Hf. rewrite <- !ack_values_app. f_equal. cbn [app]. by rewrite take_drop_middle. Qed.

Lemma last_below l n : StronglySorted Z.lt (l ++ n :: []) → Forall (λ m, 0 < m) (l ++ [n]) → List.last l 0 < n.
Proof.
  intros Hs Hp. apply Forall_app in Hp as [_ Hp]. apply Forall_inv in Hp. induction l as [|m l IH]; [done|].
  cbn [app] in Hs. inversion Hs as [|? ? Hs' Hf]; subst. destruct l as [|m' l]; [|by apply IH].
  cbn in *. by apply Forall_inv in Hf.
Qed.

(** An ACK of the receiver moves the sender forward within what it has sent. *)
Lemma ack_in_range chunks recs accepted w sk e out y n :
  sender_inv encoder maxMessageSize chunks recs (snd y) → receiver_inv total plaintextBytes accepted w sk e out (rcv y) → link chunks accepted out y →
  failure (snd y) = None → kept (snd y) = false → out !! to_sender y = Some (FAck n) →
  acknowledged (snd y) < n <= sent (snd y) ∧ n <= lastAck (rcv y).
Proof.
  intros Hs Hr Hl Hf Hk Hn. destruct (l_acks _ _ _ _ Hl Hf Hk) as [Hlast _]. pose proof (ack_values_take _ _ _ Hn) as Hv. cbn [ack_values app] in Hv.
  pose proof (rinv_acks _ _ _ _ _ _ _ _ Hr) as Ha. pose proof (rinv_ack_bound _ _ _ _ _ _ _ _ Hr) as Hb. rewrite Hv in Ha, Hb.
  assert (n <= lastAck (rcv y)) as Hle.
  { apply Forall_app in Hb as [_ Hb]. apply Forall_inv in Hb. lia. }
  assert (List.last (ack_values (take (to_sender y) out)) 0 < n).
  { apply last_below.
    - rewrite (cons_middle n), app_assoc in Ha. by apply StronglySorted_app_1_l in Ha.
    - rewrite (cons_middle n) in Hb. rewrite app_assoc in Hb. apply Forall_app in Hb as [Hb _]. eapply Forall_impl; [exact Hb|]. cbn. lia. }
  split; [|done]. split; [lia|]. etransitivity; [exact Hle|]. destruct (sender_chunks_bound _ _ _ Hs) as (S1 & _ & _). rewrite S1.
  pose proof (mjoin_prefix _ _ (l_prefix _ _ _ _ Hl)). destruct Hr.
  assert (zlen (mjoin w) <= zlen (mjoin accepted)) by (apply mjoin_prefix; rewrite rinv_order; by apply prefix_app_r).
  unfold run_length in *. destruct (running (rcv y)) as [[c|]|]; try lia. pose proof (zlen_nonneg c). lia.
Qed.

Lemma sys_ok_to_sender y ch b s' : r_wire (rcv y) !! to_sender y = Some b → s_step encoder maxMessageSize (snd y) (SFrame ch b) = Some s' → sys_ok y →
  sys_ok (mkSystem s' (rcv y) (to_receiver y) (S (to_sender y))).
Proof.
  intros Hb Hstep (chunks & recs & accepted & w & sk & e & out & Hs & Hr & Hl). cbn [s_step] in Hstep.
  destruct (s_waiting (snd y)) eqn:Hw; [|done]. injection Hstep as <-.
  pose proof (inv_frame encoder maxMessageSize chunks recs ch b (snd y) Hw Hs) as Hs'.
  exists chunks, recs, accepted, w, sk, e, out. split_and!; [done|done|].
  destruct (bool_decide (is_Some (failure (snd y))) || kept (snd y)) eqn:Eo.
  { assert (S (to_sender y) <= length out)%nat as Hlen.
    { apply lookup_lt_Some in Hb. pose proof (Forall2_length _ _ _ (rinv_wire _ _ _ _ _ _ _ _ Hr)). lia. }
    unfold s_frame. rewrite Eo. destruct Hl. split; cbn; try done.
    - intros Hf Hk. rewrite Hf, Hk in Eo. by rewrite bool_decide_false in Eo by (by intros [? ?]).
    - intros Hf _. rewrite Hf in Eo. by rewrite bool_decide_false in Eo by (by intros [? ?]). }
  apply orb_false_iff in Eo as [Ef Hk]. apply bool_decide_eq_false in Ef. assert (failure (snd y) = None) as Hf by (destruct (failure (snd y)); [by destruct Ef|done]).
  destruct (l_acks _ _ _ _ Hl Hf Hk) as [Hlast Hlen].
  pose proof (rinv_wire _ _ _ _ _ _ _ _ Hr) as HW. destruct (Forall2_lookup_r _ _ _ _ _ HW Hb) as (f & Hout & Henc).
  assert (reply f) as Hreply by (pose proof (rinv_reply _ _ _ _ _ _ _ _ Hr) as Hrep; rewrite Forall_forall in Hrep; apply Hrep, list_elem_of_lookup; eauto).
  destruct (reply_sends f Hreply) as [Hsend Hcode]. pose proof (decode_encode receiver f b Hsend Hcode Henc) as Hdec.
  assert (ack_values (take (S (to_sender y)) out) = ack_values (take (to_sender y) out) ++ ack_values [f]) as Ht.
  { rewrite <- ack_values_app. by rewrite (take_S_r _ _ f). }
  assert (S (to_sender y) <= length out)%nat as Hlen' by (by apply lookup_lt_Some in Hout).
  unfold s_frame in *. rewrite Hf, Hk in *. rewrite bool_decide_false in * by (by intros [? ?]). cbn [orb] in *. rewrite Hdec in *.
  destruct f as [ |n| | |code]; try done.
  - destruct (ack_in_range _ _ _ _ _ _ _ _ _ Hs Hr Hl Hf Hk Hout) as [[H1 H2] H3].
    rewrite (proj2 (Z.leb_gt n _)), (proj2 (Z.ltb_ge (sent (snd y)) n)) in * by lia. cbn [orb] in *.
    assert (FKept ∈ take (S (to_sender y)) out → kept (snd y) = true) as Htold.
    { rewrite (take_S_r _ _ _ Hout). intros Hin. apply elem_of_app in Hin as [Hin|Hin]; [by apply (l_told _ _ _ _ Hl)|by apply list_elem_of_singleton in Hin]. }
    destruct Hl. split; cbn; try done.
    + intros _ _. split; [|done]. rewrite Ht. apply List.last_last.
    + intros _ Hin. apply Htold in Hin. congruence.
  - assert (done (rcv y) = true) as Hd by (apply (rinv_kept _ _ _ _ _ _ _ _ Hr), list_elem_of_lookup; eauto).
    assert (ended (snd y) = true) as Hend by (apply (l_end _ _ _ _ Hl); by eapply done_end_seen).
    rewrite Hend in *. cbn [negb] in *. destruct Hl. split; cbn; try done. intros He. destruct (l_end0 He) as (? & ? & ?). done.
  - assert (link chunks accepted out (mkSystem (s_fail ch (plain_error (failureForStop code)) None (snd y)) (rcv y) (to_receiver y) (to_sender y))) as Hl'.
    { eapply link_sender; [by apply quiet_s_fail, failureForStop_kind|exact Hs|exact Hs'|exact Hl]. }
    destruct Hl'. split; cbn; try done; cbn in *; intros Hx; unfold s_fail in Hx; by rewrite Hf in Hx.
Qed.

(** ** Every reachable state *)

Lemma sys_ok_start ch ch' already already' : sys_ok
  (mkSystem (sendEnvelope_start encoder maxMessageSize ch already) (receiveEnvelope_start ch' already') 0 0).
Proof.
  destruct (inv_start encoder maxMessageSize ch already) as (chunks & recs & Hs).
  destruct (ok_start total plaintextBytes ch' already') as (w & sk & e & out & Hr).
  exists chunks, recs, [], w, sk, e, out. split_and!; [done|done|].
  assert (not_protocol (failure (sendEnvelope_start encoder maxMessageSize ch already)) ∧
          acknowledged (sendEnvelope_start encoder maxMessageSize ch already) = 0 ∧ kept (sendEnvelope_start encoder maxMessageSize ch already) = false) as (K1 & K2 & K3).
  { unfold sendEnvelope_start. set (small := _ <? minFrameBytes). clearbody small.
    destruct small, already, (open ch);
      cbv beta iota zeta delta [s_abort s_fail s_start s_goto s_report prefetch plain_error kind_name
        failure place sent acknowledged ended kept paused current position upcoming calls aborted wire progress];
      split_and!; try done; intros err [= <-]; done. }
  assert (not_protocol (r_failure (receiveEnvelope_start ch' already')) ∧ lastAck (receiveEnvelope_start ch' already') = 0 ∧
          endSeen (receiveEnvelope_start ch' already') = false ∧ queue (receiveEnvelope_start ch' already') = [] ∧
          running (receiveEnvelope_start ch' already') = None ∧ sink (receiveEnvelope_start ch' already') = []) as (R1 & R2 & R3 & R4 & R5 & R6).
  { unfold receiveEnvelope_start. destruct already', (open ch'); cbn; split_and!; try done; intros err [= <-]; done. }
  split; cbn; rewrite ?K2, ?K3, ?R2, ?R3; try done.
  - apply prefix_nil.
  - intros _ _. split; [by rewrite take_0|lia].
  - rewrite R4, R5, R6. intros h n [H|[H|H]]; [by apply elem_of_nil in H|done|by apply elem_of_nil in H].
  - intros _ _. rewrite take_0. split; [done|lia].
  - lia.
  - rewrite take_0. intros _ Hin. by apply elem_of_nil in Hin.
Qed.

Lemma sys_ok_step y y' : sys_step y y' → sys_ok y → sys_ok y'.
Proof.
  intros Hstep Hok. destruct Hstep as [y e s' He Hs|y e He|y ch b Hb|y ch b s' Hb Hs].
  - destruct Hok as (chunks & recs & accepted & w & sk & en & out & Hi & Hr & Hl).
    destruct (inv_step _ _ _ _ _ _ _ Hi Hs) as (chunks' & recs' & Hi'). exists chunks', recs', accepted, w, sk, en, out. split_and!; [done|done|].
    eapply link_sender; [by eapply quiet_s_step|done|done|done].
  - destruct Hok as (chunks & recs & accepted & w & sk & en & out & Hi & Hr & Hl).
    destruct (ok_step total plaintextBytes accepted (rcv y) e) as (a' & (w' & sk' & en' & out' & Hr') & Ha'); [by exists w, sk, en, out|].
    assert (a' = accepted) as -> by (destruct Ha' as [->|(? & ? & ? & ? & -> & _)]; done).
    exists chunks, recs, accepted, w', sk', en', out'. split_and!; [done|done|].
    eapply link_receiver; [by apply quiet_step|eapply ack_mono; by exists w, sk, en, out|done|done|done].
  - by apply sys_ok_to_receiver.
  - by eapply sys_ok_to_sender.
Qed.

Lemma sys_ok_reach ch ch' already already' y : sys_reach ch ch' already already' y → sys_ok y.
Proof. induction 1 as [|y y' Hy IH Hs]; [apply sys_ok_start|by eapply sys_ok_step]. Qed.

(** The chunks written are the start of the envelope, and whole at the end. *)
Lemma written_prefix y chunks recs accepted w sk e out : sender_inv encoder maxMessageSize chunks recs (snd y) →
  receiver_inv total plaintextBytes accepted w sk e out (rcv y) → link chunks accepted out y → mjoin w `prefix_of` envelope_of encoder.
Proof.
  intros Hs Hr Hl. pose proof (inv_prefix _ _ _ _ _ Hs) as Hp. destruct (l_prefix _ _ _ _ Hl) as [x Hx]. pose proof (rinv_order _ _ _ _ _ _ _ _ Hr) as Ho.
  rewrite Hx, Ho, <- !app_assoc, join_app in Hp. etransitivity; [|exact Hp]. by apply prefix_app_r.
Qed.
End System.

(** ** The properties *)

(** What the sink has been called with, at any moment. *)
Lemma sink_history encoder maxMessageSize ch ch' already already' y :
  0 <= envelopeBytes encoder <= max_safe_integer → sys_reach encoder maxMessageSize ch ch' already already' y →
  ∃ w e, sink (rcv y) = calls_of (size encoder) w e (match r_place (rcv y) with ReceiveFailed => true | _ => false end) ∧
    mjoin w `prefix_of` envelope_of encoder ∧
    (∀ h n, SinkEnd h n ∈ sink (rcv y) → h = digest encoder) ∧
    (place (snd y) = Sent → e = EndResolved (digest encoder) ∧ zlen (mjoin w) = envelopeBytes encoder).
Proof.
  intros Ht Hy. destruct (sys_ok_reach encoder maxMessageSize Ht ch ch' already already' y Hy) as (chunks & recs & accepted & w & sk & e & out & Hs & Hr & Hl).
  assert (Hh : ∀ h n, SinkEnd h n ∈ sink (rcv y) → h = digest encoder) by (intros h n Hin; apply (l_hash _ _ _ _ _ Hl h n); auto).
  exists w, e. split; [apply Hr|]. split; [by eapply written_prefix|]. split; [exact Hh|].
  intros Hp. destruct (inv_settled _ _ _ _ _ Hs Hp) as [Hk _]. pose proof (l_kept _ _ _ _ _ Hl Hk) as Hd.
  destruct (rinv_done _ _ _ _ _ _ _ _ Hr Hd) as [h ->].
  assert (h = digest encoder) as ->.
  { apply (Hh h (size encoder)). rewrite (rinv_sink _ _ _ _ _ _ _ _ Hr). unfold calls_of. set_solver. }
  split; [done|]. destruct (rinv_stage _ _ _ _ _ _ _ _ Hr) as (He & _ & _ & Hrec & _). pose proof (rinv_end_seen _ _ _ _ _ _ _ _ Hr He). lia.
Qed.

(** C2: a file is never said to be kept that was not: when the sender
    resolves, the receiver's sink was handed exactly the encoder's envelope, from
    its first byte to the announced length and in order, was then given the
    encoder's own SHA-256 and size, and resolved - whatever closed, was
    cancelled or refused along the way. At any moment what the sink
    has been written is the start of the envelope and nothing else, and the sink
    has been aborted exactly when [receiveEnvelope] has rejected with a failure of
    its own: only then can a file that was said to be kept be gone. *)
Theorem sent_means_kept encoder maxMessageSize ch ch' already already' y :
  0 <= envelopeBytes encoder <= max_safe_integer → sys_reach encoder maxMessageSize ch ch' already already' y →
  ∃ w e, sink (rcv y) = calls_of (size encoder) w e (bool_decide (r_place (rcv y) = ReceiveFailed)) ∧
    mjoin w `prefix_of` envelope_of encoder ∧
    (place (snd y) = Sent → e = EndResolved (digest encoder) ∧ zlen (mjoin w) = envelopeBytes encoder) ∧
    (r_place (rcv y) = ReceiveFailed → is_Some (r_failure (rcv y))).
Proof.
  intros Ht Hy. destruct (sink_history _ _ _ _ _ _ _ Ht Hy) as (w & e & H1 & H2 & _ & H3). exists w, e.
  split; [by destruct (r_place (rcv y))|]. split; [done|]. split; [done|]. intros Hp.
  destruct (sys_ok_reach encoder maxMessageSize Ht ch ch' already already' y Hy) as (chunks & recs & accepted & w' & sk & e' & out & _ & Hr & _).
  pose proof (rinv_place _ _ _ _ _ _ _ _ Hr) as Hpl. rewrite Hp in Hpl. apply Hpl.
Qed.

(** C3: two honest ends never accuse each other: whatever order turns,
    deliveries, sink results, closes and cancels come in, neither side fails with
    a protocol violation, so such a failure always means the other end broke the
    rules; every offset, ACK, window and END of one fits the checks of the other. *)
Theorem no_false_alarm encoder maxMessageSize ch ch' already already' y :
  0 <= envelopeBytes encoder <= max_safe_integer → sys_reach encoder maxMessageSize ch ch' already already' y →
  (∀ err, failure (snd y) = Some err → kind err ≠ Protocol) ∧ (∀ err, r_failure (rcv y) = Some err → kind err ≠ Protocol).
Proof.
  intros Ht Hy. destruct (sys_ok_reach encoder maxMessageSize Ht ch ch' already already' y Hy) as (chunks & recs & accepted & w & sk & e & out & Hs & Hr & Hl).
  split; apply Hl.
Qed.

(** Nothing is on its way and the receiver has nothing left to do. *)
Definition drained (y : System) : Prop :=
  (length (wire (snd y)) <= to_receiver y)%nat ∧ (length (r_wire (rcv y)) <= to_sender y)%nat ∧
  queue (rcv y) = [] ∧ running (rcv y) = None.

(** An idle receiver that has seen END is done. *)
Lemma idle_done total plaintextBytes accepted w sk e out r : receiver_inv total plaintextBytes accepted w sk e out r →
  endSeen r = true → queue r = [] → running r = None → r_failure r = None → done r = true.
Proof.
  intros Hr He Dq Dr Hrf. pose proof (rinv_stage _ _ _ _ _ _ _ _ Hr) as Hst. unfold stage_ok in Hst. rewrite He, Dq, Dr, Hrf in Hst.
  destruct e; try (by destruct Hst as [? _]).
  - destruct Hst as (_ & _ & cs & Hq). by destruct cs.
  - destruct Hst as (_ & _ & _ & [? ?]). done.
  - destruct Hst as (_ & ? & _). done.
  - destruct Hst as (_ & _ & _ & [? ?]). done.
  - destruct Hst as (_ & _ & _ & _ & Hst). auto.
Qed.

Lemma working_reach encoder maxMessageSize ch ch' already already' y : 0 <= envelopeBytes encoder <= max_safe_integer →
  sys_reach encoder maxMessageSize ch ch' already already' y → working encoder maxMessageSize (snd y).
Proof.
  intros Ht. induction 1 as [|y y' Hy IH Hs]; [apply working_start|].
  destruct (sys_ok_reach encoder maxMessageSize Ht ch ch' already already' y Hy) as (chunks & recs & accepted & w & sk & e & out & Hi & _).
  destruct Hs; try exact IH; by eapply working_step.
Qed.


(** ** A complete transfer *)

(** A scheduled step: one end alone, or the next frame to one of them. *)
Inductive sys_event : Type :=
  | OnSender (e : sender_event) | OnReceiver (e : receiver_event) | ToReceiver (ch : Channel) | ToSender (ch : Channel).

Definition sys_exec (encoder : EnvelopeEncoder) (maxMessageSize : Z) (y : System) (e : sys_event) : option System :=
  match e with
  | OnSender e =>
      if is_s_frame e then None
      else match s_step encoder maxMessageSize (snd y) e with
           | Some s' => Some (mkSystem s' (rcv y) (to_receiver y) (to_sender y)) | None => None end
  | OnReceiver e =>
      if is_frame e then None
      else Some (mkSystem (snd y) (r_step (envelopeBytes encoder) (size encoder) (rcv y) e) (to_receiver y) (to_sender y))
  | ToReceiver ch =>
      match wire (snd y) !! to_receiver y with
      | Some b => Some (mkSystem (snd y) (r_step (envelopeBytes encoder) (size encoder) (rcv y) (RFrame ch b)) (S (to_receiver y)) (to_sender y))
      | None => None end
  | ToSender ch =>
      match r_wire (rcv y) !! to_sender y with
      | Some b => match s_step encoder maxMessageSize (snd y) (SFrame ch b) with
                  | Some s' => Some (mkSystem s' (rcv y) (to_receiver y) (S (to_sender y))) | None => None end
      | None => None end
  end.

Fixpoint sys_execs (encoder : EnvelopeEncoder) (maxMessageSize : Z) (y : System) (events : list sys_event) : option System :=
  match events with
  | [] => Some y
  | e :: events => match sys_exec encoder maxMessageSize y e with Some y' => sys_execs encoder maxMessageSize y' events | None => None end
  end.

Lemma sys_execs_reach encoder m ch ch' a a' y events y' : sys_reach encoder m ch ch' a a' y →
  sys_execs encoder m y events = Some y' → sys_reach encoder m ch ch' a a' y'.
Proof.
  revert y. induction events as [|e events IH]; intros y Hy He; cbn [sys_execs] in He; [by injection He as <-|].
  destruct (sys_exec encoder m y e) as [y1|] eqn:E; [|done]. apply (IH y1); [|done]. eapply reach_step; [exact Hy|]. clear IH He.
  unfold sys_exec in E. destruct e as [e|e|c|c].
  - destruct (is_s_frame e) eqn:Ef; [done|]. destruct (s_step _ _ _ _) eqn:Es; [|done]. injection E as <-. by eapply sys_sender.
  - destruct (is_frame e) eqn:Ef; [done|]. injection E as <-. by apply sys_receiver.
  - destruct (wire _ !! _) eqn:Ew; [|done]. injection E as <-. by apply sys_to_receiver.
  - destruct (r_wire _ !! _) eqn:Ew; [|done]. destruct (s_step _ _ _ _) eqn:Es; [|done]. injection E as <-. by eapply sys_to_sender.
Qed.

Definition example_start : System :=
  mkSystem (sendEnvelope_start example_encoder 65536 example_channel false) (receiveEnvelope_start example_channel false) 0 0.

(** Header, record and END out; the receiver takes and writes them, says KEPT. *)
Definition example_schedule : list sys_event :=
  let turn := OnSender (STurn example_channel protocolPacing) in
  let write := [OnReceiver RBegin; OnReceiver (RSettle example_channel SinkOk)] in
  [turn; turn; turn; turn; ToReceiver example_channel; ToReceiver example_channel; ToReceiver example_channel] ++ write ++ write ++
  [ToSender example_channel] ++ write ++ [OnReceiver RTurn; ToSender example_channel; turn].

Definition example_end : System := Eval vm_compute in
  match sys_execs example_encoder 65536 example_start example_schedule with Some y => y | None => example_start end.

Lemma example_reached : sys_reach example_encoder 65536 example_channel example_channel false false example_end.
Proof.
  apply (sys_execs_reach example_encoder 65536 _ _ _ _ example_start example_schedule); [apply reach_start|vm_compute; reflexivity].
Qed.

Lemma sent_means_kept_witness : place (snd example_end) = Sent ∧
  ∃ w, sink (rcv example_end) = calls_of 3 w (EndResolved (List.repeat 7 32)) false ∧ zlen (mjoin w) = 5.
Proof.
  split; [reflexivity|].
  destruct (sent_means_kept example_encoder 65536 example_channel example_channel false false example_end) as (w & e & H1 & _ & H2 & _).
  - unfold max_safe_integer; cbn; lia.
  - exact example_reached.
  - destruct (H2 eq_refl) as [-> Hz]. exists w. split; [exact H1|exact Hz].
Defined.

Lemma no_false_alarm_witness : (∀ err, failure (snd example_end) = Some err → kind err ≠ Protocol) ∧
  (∀ err, r_failure (rcv example_end) = Some err → kind err ≠ Protocol).
Proof.
  apply (no_false_alarm example_encoder 65536 example_channel example_channel false false example_end).
  - unfold max_safe_integer; cbn; lia.
  - exact example_reached.
Defined.

(** The moment after both DATA frames are written and acknowledged. *)
Definition example_middle : System := Eval vm_compute in
  match sys_execs example_encoder 65536 example_start
    ([OnSender (STurn example_channel protocolPacing); OnSender (STurn example_channel protocolPacing); ToReceiver example_channel;
      OnReceiver RBegin; OnReceiver (RSettle example_channel SinkOk)]) with Some y => y | None => example_start end.

