(* ===== verification/Pacing.v ===== *)
(** * Pacing a relayed send ([direct/pacing.ts])

    The rule combinators, the token bucket, the rule that follows the path and
    the watcher that learns whether the path is relayed. Byte counts are
    integers; the clock and the bucket, which the code keeps as doubles, are
    exact rationals here, so the rounding of a double is not modelled. *)

From Stdlib Require Import QArith Qround Lqa.
From S2P Require Import Prelude DirectConfig Transfer.
Open Scope Z_scope.

(** ** [stricter] *)

Definition least_retry (a b : option Z) : option Z :=
  match b with
  | None => a
  | Some y => match a with None => Some y | Some x => Some (Z.min x y) end
  end.

(** The loop over the rules, on what each of them answers to the same state. *)
Definition stricter_step (acc : amount * option Z) (verdict : Verdict) : amount * option Z :=
  (amount_min acc.1 (v_bytes verdict),
   if amount_positive (v_bytes verdict) then acc.2 else least_retry acc.2 (retryMs verdict)).

Definition stricter (verdicts : list Verdict) : Verdict :=
  let acc := foldl stricter_step (Unlimited, None) verdicts in
  if amount_positive acc.1 then mkVerdict acc.1 None else mkVerdict (Finite 0) acc.2.

(** ** The token bucket *)

Record RatePacer := mkRatePacer { tokens : Q; lastSent : option Z; lastTime : Q }.

Section RatePacer.
(** [options.bytesPerSecond] and [options.burstBytes]. *)
Context (rate burst : Z).

Definition createRatePacer : RatePacer := mkRatePacer (inject_Z burst) None 0.

Definition Qmin (a b : Q) : Q := if Qle_bool a b then a else b.

(** What the bucket holds at [time] when [sent] bytes have been sent in all. *)
Definition refilled (time : Q) (now_sent : Z) (p : RatePacer) : Q :=
  match lastSent p with
  | None => inject_Z burst
  | Some before =>
      Qmin (inject_Z burst)
        (tokens p - inject_Z (now_sent - before) + (time - lastTime p) / 1000 * inject_Z rate)
  end%Q.

(** [pacing({ sent, wanted })] at the clock's [time]. *)
Definition rate_pacing (time : Q) (state : PacingState) (p : RatePacer) : RatePacer * Verdict :=
  let held := refilled time (ps_sent state) p in
  let need := Z.min (ps_wanted state) burst in
  (mkRatePacer held (Some (ps_sent state)) time,
   if Qle_bool (inject_Z need) held then mkVerdict (Finite (Z.max 1 (Qfloor held))) None
   else mkVerdict (Finite 0) (Some (Z.max 1 (Qceiling ((inject_Z need - held) / inject_Z rate * 1000)%Q)))).

Definition reset (p : RatePacer) : RatePacer := mkRatePacer (tokens p) None (lastTime p).

(** ** The rule that follows the path *)

Definition UNKNOWN_RETRY_MS : Z := 250.

Record PathPacing := mkPathPacing { bucket : RatePacer; relayed : option bool }.

Definition createPathPacing : PathPacing := mkPathPacing createRatePacer None.

Definition setRelayed (next : option bool) (p : PathPacing) : PathPacing :=
  mkPathPacing
    (if bool_decide (next = Some false) && negb (bool_decide (relayed p = Some false)) then reset (bucket p) else bucket p)
    next.

Definition relayedRule (time : Q) (state : PacingState) (p : RatePacer) : RatePacer * Verdict :=
  let '(p, verdict) := rate_pacing time state p in (p, stricter [protocolPacing state; verdict]).

Definition path_pacing (time : Q) (state : PacingState) (p : PathPacing) : PathPacing * Verdict :=
  if bool_decide (relayed p = Some false) then (p, protocolPacing state)
  else
    let '(b, verdict) := relayedRule time state (bucket p) in
    (mkPathPacing b (relayed p),
     if bool_decide (relayed p = None) && (match v_bytes verdict with Finite n => n =? 0 | Unlimited => false end)
     then mkVerdict (Finite 0) (Some (Z.min (default UNKNOWN_RETRY_MS (retryMs verdict)) UNKNOWN_RETRY_MS))
     else verdict).
End RatePacer.

(** ** The path watcher *)

(** A read on its way, or a timer that will start one: the first read of a
    [refresh], one of its repeats with the number already made, or a look after
    a restart. *)
Inductive look : Type := FirstLook (generation : nat) | AgainLook (generation attempts : nat) | SettleLook.

#[global] Instance look_eq_dec : EqDecision look.
Proof. solve_decision. Defined.

(** The variables of [watchPath]: [retries] and [settles] are the timers set,
    [reading] the reads not settled yet; [applied] and [reads] record what
    [apply] was told and every read made. *)
Record PathWatch := mkPathWatch {
  w_stopped : bool; generation : nat; retries : list look; settles : nat;
  reading : list look; applied : list bool; reads : list look }.

Definition w_start_read (l : look) (w : PathWatch) : PathWatch :=
  mkPathWatch (w_stopped w) (generation w) (retries w) (settles w) (l :: reading w) (applied w) (reads w ++ [l]).

Definition schedule_retry (l : look) (w : PathWatch) : PathWatch :=
  mkPathWatch (w_stopped w) (generation w) (l :: retries w) (settles w) (reading w) (applied w) (reads w).

Definition watchPath : PathWatch := mkPathWatch false 0 [] 0 [] [] [].

Definition refresh (w : PathWatch) : PathWatch :=
  let mine := S (generation w) in
  w_start_read (FirstLook mine)
    (mkPathWatch (w_stopped w) mine [] (settles w) (reading w) (applied w) (reads w)).

Section Watch.
(** [options.maxRetries] and the length of [options.settleMs]. *)
Context (maxRetries settleLooks : nat).

(** [readOnce] has its answer, [None] when it is undefined or the read failed. *)
Definition read_settles (i : nat) (answer : option bool) (w : PathWatch) : option PathWatch :=
  match reading w !! i with
  | None => None
  | Some l =>
      let w := mkPathWatch (w_stopped w) (generation w) (retries w) (settles w) (delete i (reading w))
                 (match answer with
                  | Some r => if w_stopped w then applied w else applied w ++ [r]
                  | None => applied w
                  end) (reads w) in
      Some match answer, l with
           | Some _, _ | None, SettleLook => w
           | None, FirstLook mine => schedule_retry (AgainLook mine 0) w
           | None, AgainLook mine attempts => schedule_retry (AgainLook mine attempts) w
           end
  end.

(** A retry timer fires: [again]. *)
Definition retry_fires (i : nat) (w : PathWatch) : option PathWatch :=
  match retries w !! i with
  | Some (AgainLook mine attempts) =>
      let w := mkPathWatch (w_stopped w) (generation w) (delete i (retries w)) (settles w) (reading w) (applied w) (reads w) in
      Some (if w_stopped w || negb (mine =? generation w)%nat || (maxRetries <=? attempts)%nat then w
            else w_start_read (AgainLook mine (S attempts)) w)
  | _ => None
  end.

(** One of the later looks after a restart is due. *)
Definition settle_fires (w : PathWatch) : option PathWatch :=
  match settles w with
  | O => None
  | S n =>
      let w := mkPathWatch (w_stopped w) (generation w) (retries w) n (reading w) (applied w) (reads w) in
      Some (if w_stopped w then w else w_start_read SettleLook w)
  end.

Definition afterRestart (w : PathWatch) : PathWatch :=
  let w := refresh (mkPathWatch (w_stopped w) (generation w) (retries w) 0 (reading w) (applied w) (reads w)) in
  mkPathWatch (w_stopped w) (generation w) (retries w) settleLooks (reading w) (applied w) (reads w).

Definition watch_stop (w : PathWatch) : PathWatch :=
  mkPathWatch true (generation w) [] 0 (reading w) (applied w) (reads w).

(** What the watcher does by itself once called. *)
Inductive watch_event : Type := ReadSettles (i : nat) (answer : option bool) | RetryFires (i : nat) | SettleFires.

Definition w_step (w : PathWatch) (e : watch_event) : option PathWatch :=
  match e with
  | ReadSettles i answer => read_settles i answer w
  | RetryFires i => retry_fires i w
  | SettleFires => settle_fires w
  end.

Fixpoint w_run (w : PathWatch) (events : list watch_event) : option PathWatch :=
  match events with
  | [] => Some w
  | e :: events => match w_step w e with Some w' => w_run w' events | None => None end
  end.

(** ** The watcher stops asking *)

(** How many more events, and how many more reads, a read on its way or a timer
    can lead to. *)
Definition reading_events (l : look) : nat :=
  match l with
  | FirstLook _ => 2 * maxRetries + 2 | AgainLook _ attempts => 2 * (maxRetries - attempts) + 2 | SettleLook => 1
  end.
Definition retry_events (l : look) : nat :=
  match l with AgainLook _ attempts => 2 * (maxRetries - attempts) + 1 | _ => 0 end.
Definition look_reads (l : look) : nat :=
  match l with FirstLook _ => maxRetries | AgainLook _ attempts => maxRetries - attempts | SettleLook => 0 end.

Definition events_left (w : PathWatch) : nat :=
  sum_list_with reading_events (reading w) + sum_list_with retry_events (retries w) + 2 * settles w.
Definition reads_left (w : PathWatch) : nat :=
  sum_list_with look_reads (reading w) + sum_list_with look_reads (retries w) + settles w.

Lemma sum_delete (f : look → nat) l i x :
  l !! i = Some x → sum_list_with f l = (f x + sum_list_with f (delete i l))%nat.
Proof.
  revert i; induction l as [|y l IH]; intros [|i]; simpl; intros E; try done.
  - by injection E as ->.
  - rewrite (IH _ E). lia.
Qed.

Lemma w_step_measure w e w' :
  w_step w e = Some w' →
  (events_left w' < events_left w)%nat ∧
  (length (reads w') + reads_left w' <= length (reads w) + reads_left w)%nat.
Proof.
  destruct e as [i answer|i|]; simpl.
  - unfold read_settles. destruct (reading w !! i) as [l|] eqn:E; [|done]. intros [= <-].
    unfold events_left, reads_left.
    rewrite (sum_delete reading_events _ _ _ E), (sum_delete look_reads _ _ _ E).
    destruct answer, l; cbn -[sum_list_with]; simpl; lia.
  - unfold retry_fires. destruct (retries w !! i) as [l|] eqn:E; [|done].
    destruct l as [|mine attempts|]; [done| |done]. intros [= <-].
    unfold events_left, reads_left.
    rewrite (sum_delete retry_events _ _ _ E), (sum_delete look_reads _ _ _ E). cbn -[Nat.leb Nat.mul].
    destruct (w_stopped w || negb (mine =? generation w)%nat || (maxRetries <=? attempts)%nat) eqn:G; simpl; [lia|].
    rewrite !orb_false_iff, Nat.leb_gt in G. rewrite length_app; simpl. lia.
  - unfold settle_fires. destruct (settles w) as [|n] eqn:E; [done|]. intros [= <-].
    unfold events_left, reads_left. rewrite E. simpl.
    destruct (w_stopped w); simpl; rewrite ?length_app; simpl; lia.
Qed.

Lemma w_run_measure w events w' :
  w_run w events = Some w' →
  (length events + events_left w' <= events_left w)%nat ∧
  (length (reads w') + reads_left w' <= length (reads w) + reads_left w)%nat.
Proof.
  revert w; induction events as [|e events IH]; intros w; simpl; [intros [= ->]; lia|].
  destruct (w_step w e) as [w1|] eqn:E; [|done]. intros Hr.
  apply IH in Hr. apply w_step_measure in E. lia.
Qed.

Lemma w_step_stopped w e w' :
  w_stopped w = true → w_step w e = Some w' → w_stopped w' = true ∧ applied w' = applied w ∧ reads w' = reads w.
Proof.
  intros Hs. destruct e as [i answer|i|]; simpl.
  - unfold read_settles. destruct (reading w !! i) as [l|]; [|done]. intros [= <-].
    destruct answer, l; simpl; rewrite ?Hs; done.
  - unfold retry_fires. destruct (retries w !! i) as [[]|]; try done. intros [= <-]. simpl. rewrite Hs. done.
  - unfold settle_fires. destruct (settles w); [done|]. intros [= <-]. simpl. rewrite Hs. done.
Qed.

Lemma w_run_stopped w events w' :
  w_stopped w = true → w_run w events = Some w' → applied w' = applied w ∧ reads w' = reads w.
Proof.
  revert w; induction events as [|e events IH]; intros w Hs; simpl; [by intros [= ->]|].
  destruct (w_step w e) as [w1|] eqn:E; [|done]. intros Hr.
  destruct (w_step_stopped _ _ _ Hs E) as (? & <- & <-). eauto.
Qed.

(** C40: one [refresh] of an idle watcher always comes to rest: whatever the
    reads answer, at most [2 * maxRetries + 2] reads and timers follow, at most
    [maxRetries + 1] reads are made, and once it has been stopped nothing more is
    read or applied. *)
Theorem watchPath_terminates w events w' :
  reading w = [] → retries w = [] → settles w = 0%nat →
  w_run (refresh w) events = Some w' →
  (length events <= 2 * maxRetries + 2)%nat ∧
  (length (reads w') <= length (reads w) + S maxRetries)%nat ∧
  (∀ later w'', w_run (watch_stop w') later = Some w'' →
     (length later <= length (reading w') * (2 * maxRetries + 2))%nat ∧
     applied w'' = applied w' ∧ reads w'' = reads w').
Proof.
  intros E1 E2 E3 Hr. apply w_run_measure in Hr.
  unfold events_left, reads_left, refresh in Hr. rewrite E1, E3 in Hr. simpl in Hr.
  rewrite length_app in Hr; simpl in Hr. split_and!; [lia|lia|].
  intros later w'' Hl. split; [|by apply (w_run_stopped (watch_stop w') later w'') in Hl].
  apply w_run_measure in Hl as [Hl _]. unfold events_left in Hl. simpl in Hl.
  assert (Hsum : ∀ ls, (sum_list_with reading_events ls <= length ls * (2 * maxRetries + 2))%nat).
  { induction ls as [|[]]; simpl in *; lia. }
  specialize (Hsum (reading w')). lia.
Qed.
End Watch.

Lemma watchPath_terminates_witness :
  ∃ w', w_run 2 (refresh watchPath) [ReadSettles 0 None; RetryFires 0; ReadSettles 0 (Some true)] = Some w' ∧
    (length (reads w') <= 3)%nat ∧ applied w' = [true].
Proof.
  eexists. split; [reflexivity|]. split; [|reflexivity].
  exact (proj1 (proj2 (watchPath_terminates 2 watchPath
    [ReadSettles 0 None; RetryFires 0; ReadSettles 0 (Some true)] _ eq_refl eq_refl eq_refl eq_refl))).
Defined.

(** ** What the rules allow *)

Lemma amount_min_positive a b : amount_positive (amount_min a b) = amount_positive a && amount_positive b.
Proof.
  destruct a as [x|], b as [y|]; simpl; rewrite ?andb_true_r; try done.
  destruct (0 <? x) eqn:E1, (0 <? y) eqn:E2; simpl; lia.
Qed.

(** The path rule while the path is relayed or not yet known: what it allows is
    within the window and within the bucket. *)
Lemma path_allows rate burst time state p p' verdict n :
  relayed p ≠ Some false → path_pacing rate burst time state p = (p', verdict) →
  0 < n → v_bytes verdict = Finite n ∨ v_bytes verdict = Unlimited →
  v_bytes verdict = Finite n ∧ ps_paused state = false ∧ n <= unacknowledgedBytes - inFlight state ∧
  (inject_Z (Z.min (ps_wanted state) burst) <= refilled rate burst time (ps_sent state) (bucket p))%Q ∧
  n <= Z.max 1 (Qfloor (refilled rate burst time (ps_sent state) (bucket p))).
Proof.
  intros Hp E Hn Hv. unfold path_pacing in E. rewrite bool_decide_false in E by done.
  unfold relayedRule, rate_pacing in E.
  destruct (Qle_bool _ _) eqn:Hq; unfold stricter, stricter_step in E; simpl in E.
  - apply Qle_bool_iff in Hq.
    set (f := Z.max 1 (Qfloor (refilled rate burst time (ps_sent state) (bucket p)))) in *.
    set (q := if ps_paused state then 0 else Z.max 0 (unacknowledgedBytes - inFlight state)) in *.
    destruct (0 <? q `min` f) eqn:Hpos; simpl in E.
    + assert (verdict = mkVerdict (Finite (q `min` f)) None) as ->.
      { destruct (bool_decide (relayed p = None)); simpl in E; [|congruence].
        destruct (q `min` f =? 0) eqn:Hz; [lia|congruence]. }
      simpl in Hv. destruct Hv as [[= <-]|?]; [|done]. unfold q in *.
      destruct (ps_paused state); split_and!; try done; lia.
    + assert (v_bytes verdict = Finite 0) as E0.
      { destruct (bool_decide (relayed p = None)); simpl in E; injection E as _ <-; done. }
      rewrite E0 in Hv. destruct Hv as [[=]|?]; [lia|done].
  - assert (v_bytes verdict = Finite 0) as E0.
    { destruct (0 <? _) eqn:Hz in E; simpl in E; [lia|].
      destruct (bool_decide (relayed p = None)); simpl in E; injection E as _ <-; done. }
    rewrite E0 in Hv. destruct Hv as [[=]|?]; [lia|done].
Qed.

(** ** The bucket over a stretch of time *)

Section Paced.
Context (rate burst : Z).

(** A sender that asks the rule and sends no more than it wanted and was
    allowed, while the path is relayed or unknown. A place of the run is the
    rule, the time and the bytes sent. *)
Inductive paced (start : PathPacing * Q * Z) : PathPacing * Q * Z → Prop :=
  | paced_start : paced start start
  | paced_ask p t s t' state p' verdict take :
      paced start (p, t, s) → (t <= t')%Q → ps_sent state = s →
      path_pacing rate burst t' state p = (p', verdict) →
      0 <= take <= ps_wanted state →
      (match v_bytes verdict with Finite n => take <= n | Unlimited => True end) →
      paced start (p', t', s + take)
  | paced_path p t s answer :
      paced start (p, t, s) → answer ≠ Some false → paced start (setRelayed answer p, t, s).

(** What the bucket still holds once [s] bytes have been sent. *)
Definition held (p : PathPacing) (s : Z) : Q :=
  match lastSent (bucket p) with
  | None => inject_Z burst
  | Some before => (tokens (bucket p) - inject_Z (s - before))%Q
  end.

Definition paced_ok (p : PathPacing) (t : Q) (s : Z) : Prop :=
  relayed p ≠ Some false ∧ (0 <= held p s)%Q ∧ (held p s <= inject_Z burst)%Q ∧
  (lastSent (bucket p) ≠ None → lastTime (bucket p) = t).

Lemma Qmin_cases a b : (Qmin a b <= a)%Q ∧ (Qmin a b <= b)%Q ∧ (Qmin a b = a ∨ Qmin a b = b).
Proof.
  unfold Qmin. destruct (Qle_bool a b) eqn:E.
  - apply Qle_bool_iff in E. split_and!; [lra|done|by left].
  - assert (¬ (a <= b)%Q) by (rewrite <- Qle_bool_iff; congruence). split_and!; [lra|lra|by right].
Qed.

Lemma elapsed_nonneg (t t' : Q) : 0 < rate → (t <= t')%Q → (0 <= (t' - t) / 1000 * inject_Z rate)%Q.
Proof.
  intros Hr Ht. apply Qmult_le_0_compat; [|change 0%Q with (inject_Z 0); rewrite <- Zle_Qle; lia].
  apply Qle_shift_div_l; lra.
Qed.

Lemma refilled_bounds p t s t' :
  0 < rate → 1 <= burst → paced_ok p t s → (t <= t')%Q →
  (0 <= refilled rate burst t' s (bucket p))%Q ∧
  (refilled rate burst t' s (bucket p) <= inject_Z burst)%Q ∧
  (refilled rate burst t' s (bucket p) <= held p s + (t' - t) / 1000 * inject_Z rate)%Q.
Proof.
  intros Hr Hb (_ & Hh0 & Hh1 & Ht) Hle. unfold refilled. unfold held in *.
  pose proof (elapsed_nonneg t t' Hr Hle) as He.
  destruct (lastSent (bucket p)) as [before|].
  - rewrite (Ht ltac:(done)) in *.
    pose proof (Qmin_cases (inject_Z burst) (tokens (bucket p) - inject_Z (s - before) + (t' - t) / 1000 * inject_Z rate)%Q) as (? & ? & [E|E]);
      rewrite ?E in *; split_and!; lra.
  - split_and!; lra.
Qed.

(** One question and the bytes sent on its answer: what is sent comes out of
    the bucket. *)
Lemma ask_spends p t s t' state p' verdict take :
  0 < rate → 1 <= burst → paced_ok p t s → (t <= t')%Q → ps_sent state = s →
  path_pacing rate burst t' state p = (p', verdict) → 0 <= take <= ps_wanted state →
  (match v_bytes verdict with Finite n => take <= n | Unlimited => True end) →
  paced_ok p' t' (s + take) ∧
  (held p' (s + take) + inject_Z take <= held p s + (t' - t) / 1000 * inject_Z rate)%Q.
Proof.
  intros Hr Hb Hok Hle Hs Hp Htake Hv.
  pose proof (refilled_bounds p t s t' Hr Hb Hok Hle) as (H0 & H1 & H2).
  set (h := refilled rate burst t' s (bucket p)) in *.
  assert (Hp' : bucket p' = mkRatePacer h (Some s) t' ∧ relayed p' = relayed p).
  { unfold path_pacing in Hp. rewrite bool_decide_false in Hp by apply Hok.
    unfold relayedRule, rate_pacing in Hp. rewrite Hs in Hp. by injection Hp as <- _. }
  destruct Hp' as [Eb Er].
  assert (Hspent : (inject_Z take <= h)%Q).
  { destruct (decide (0 < take)) as [Hpos|]; [|assert (take = 0) as -> by lia; exact H0].
    destruct (path_allows rate burst t' state p p' verdict
      (match v_bytes verdict with Finite n => n | Unlimited => 1 end)) as (Ev & _ & _ & Hneed & Hfloor).
    { apply Hok. } { done. } { destruct (v_bytes verdict); lia. } { destruct (v_bytes verdict); [by left|by right]. }
    rewrite Ev in Hv. rewrite Hs in Hneed, Hfloor. fold h in Hneed, Hfloor.
    assert (1 <= Qfloor h).
    { replace 1 with (Qfloor (inject_Z 1)) by apply Qfloor_Z. apply Qfloor_resp_le.
      assert ((inject_Z 1 <= inject_Z (Z.min (ps_wanted state) burst))%Q); [rewrite <- Zle_Qle; lia|lra]. }
    pose proof (Qfloor_le h). assert ((inject_Z take <= inject_Z (Qfloor h))%Q); [rewrite <- Zle_Qle; lia|lra]. }
  unfold paced_ok, held. rewrite Eb, Er. cbn [lastSent tokens lastTime].
  replace (s + take - s) with take by lia.
  assert ((0 <= inject_Z take)%Q) by (change 0%Q with (inject_Z 0); rewrite <- Zle_Qle; lia).
  destruct Hok as (Hrel & ?). split_and!; try done; try lra.
  unfold held in H2. lra.
Qed.

Lemma paced_facts p t s p' t' s' :
  0 < rate → 1 <= burst → paced_ok p t s → paced (p, t, s) (p', t', s') →
  paced_ok p' t' s' ∧ (t <= t')%Q ∧
  (held p' s' + inject_Z (s' - s) <= held p s + (t' - t) / 1000 * inject_Z rate)%Q.
Proof.
  intros Hr Hb Hok Hp. remember (p', t', s') as e eqn:Ee. revert p' t' s' Ee.
  induction Hp as [|p1 t1 s1 t2 state p2 verdict take Hp IH Hle Hs Hask Htake Hv|p1 t1 s1 answer Hp IH Ha];
    intros p' t' s' [= <- <- <-].
  - rewrite Z.sub_diag. split_and!; [done|lra|]. change (inject_Z 0) with 0%Q.
    assert (((t - t) / 1000 * inject_Z rate == 0)%Q) by field. lra.
  - destruct (IH _ _ _ eq_refl) as (Hok1 & Hle1 & Hsum).
    destruct (ask_spends _ _ _ _ _ _ _ _ Hr Hb Hok1 Hle Hs Hask Htake Hv) as [Hok2 Hsp].
    split_and!; [done|lra|].
    replace (s1 + take - s) with (s1 - s + take) by lia. rewrite inject_Z_plus.
    assert (((t2 - t) / 1000 * inject_Z rate == (t1 - t) / 1000 * inject_Z rate + (t2 - t1) / 1000 * inject_Z rate)%Q) by field.
    lra.
  - destruct (IH _ _ _ eq_refl) as (Hok1 & Hle1 & Hsum).
    assert (Eb : bucket (setRelayed answer p1) = bucket p1).
    { unfold setRelayed; simpl. by rewrite bool_decide_false. }
    unfold paced_ok, held in *. rewrite Eb. split_and!; try apply Hok1; done.
Qed.
End Paced.

(** C35: over any stretch of a send whose path is relayed or not yet known, the
    bytes sent are at most the bucket plus the rate times the stretch, however
    the sender asks and however the path's reading changes between relayed and
    unknown. *)
Theorem relayed_rate_bound rate burst t0 s0 p t s p' t' s' :
  0 < rate → 1 <= burst →
  paced rate burst (createPathPacing burst, t0, s0) (p, t, s) →
  paced rate burst (p, t, s) (p', t', s') →
  (inject_Z (s' - s) <= inject_Z burst + (t' - t) / 1000 * inject_Z rate)%Q.
Proof.
  intros Hr Hb H1 H2.
  assert (paced_ok burst (createPathPacing burst) t0 s0) as Hok.
  { assert ((inject_Z 0 <= inject_Z burst)%Q) by (rewrite <- Zle_Qle; lia).
    split_and!; simpl; try done. change 0%Q with (inject_Z 0). unfold held; simpl. lra. }
  destruct (paced_facts _ _ _ _ _ _ _ _ Hr Hb Hok H1) as [Hok1 _].
  destruct (paced_facts _ _ _ _ _ _ _ _ Hr Hb Hok1 H2) as ((_ & Hh & _) & _ & Hsum).
  destruct Hok1 as (_ & _ & Hh1 & _). lra.
Qed.

Lemma relayed_rate_bound_witness :
  ∃ p, paced relayBytesPerSecond relayBurstBytes (createPathPacing relayBurstBytes, 0%Q, 0) (p, 0%Q, 65536) ∧
    (inject_Z (65536 - 0) <= inject_Z relayBurstBytes + (0 - 0) / 1000 * inject_Z relayBytesPerSecond)%Q.
Proof.
  eexists.
  assert (Hp : paced relayBytesPerSecond relayBurstBytes (createPathPacing relayBurstBytes, 0%Q, 0)
    ((path_pacing relayBytesPerSecond relayBurstBytes 0 (mkPacingState 0 0 false 0 65536) (createPathPacing relayBurstBytes)).1, 0%Q, 0 + 65536)).
  { eapply (paced_ask _ _ _ _ 0%Q 0 0%Q (mkPacingState 0 0 false 0 65536)); [constructor|apply Qle_refl|done|reflexivity|simpl; lia|].
    vm_compute. discriminate. }
  split; [exact Hp|].
  exact (relayed_rate_bound relayBytesPerSecond relayBurstBytes _ _ _ _ _ _ _ _ eq_refl ltac:(discriminate) (paced_start _ _ _) Hp).
Defined.

(** ** Asking again *)

Lemma wait_refills rate burst time before need wait later held :
  0 < rate → need <= burst →
  ((inject_Z need - held) / inject_Z rate * 1000 <= inject_Z wait)%Q → (time + inject_Z wait <= later)%Q →
  (inject_Z need <= refilled rate burst later before (mkRatePacer held (Some before) time))%Q.
Proof.
  intros Hr Hb Hw Hl. unfold refilled; cbn [lastSent tokens lastTime].
  set (x := ((inject_Z need - held) / inject_Z rate * 1000)%Q) in *.
  assert ((inject_Z need <= inject_Z burst)%Q) by (rewrite <- Zle_Qle; lia).
  assert (Hrq : (0 < inject_Z rate)%Q) by (change 0%Q with (inject_Z 0); rewrite <- Zlt_Qlt; lia).
  assert ((inject_Z need - held == x / 1000 * inject_Z rate)%Q) by (unfold x; field; lra).
  assert ((x / 1000 * inject_Z rate <= (later - time) / 1000 * inject_Z rate)%Q).
  { apply Qmult_le_compat_r; [|lra]. apply Qmult_le_compat_r; [lra|easy]. }
  rewrite Z.sub_diag. change (inject_Z 0) with 0%Q.
  destruct (Qmin_cases (inject_Z burst) (held - 0 + (later - time) / 1000 * inject_Z rate)%Q) as (_ & _ & [-> | ->]); lra.
Qed.

(** A refused sender that waits as long as the answer said, sending
    nothing, is then allowed everything it can need at once; the wait is at
    least a millisecond. *)
Theorem retry_is_enough rate burst time state p p' verdict wait later q verdict' :
  0 < rate →
  rate_pacing rate burst time state p = (p', verdict) → retryMs verdict = Some wait →
  (time + inject_Z wait <= later)%Q →
  rate_pacing rate burst later state p' = (q, verdict') →
  1 <= wait ∧ v_bytes verdict = Finite 0 ∧ retryMs verdict' = None ∧
  ∃ n, v_bytes verdict' = Finite n ∧ Z.max 1 (Z.min (ps_wanted state) burst) <= n.
Proof.
  intros Hr E Ew Hl E'. unfold rate_pacing in E, E'.
  set (need := Z.min (ps_wanted state) burst) in *.
  set (h := refilled rate burst time (ps_sent state) p) in *.
  injection E as <- Ev. destruct (Qle_bool (inject_Z need) h) eqn:Hq; subst verdict; simpl in Ew; [done|].
  injection Ew as <-. set (x := ((inject_Z need - h) / inject_Z rate * 1000)%Q) in *.
  assert (Hx : (x <= inject_Z (Z.max 1 (Qceiling x)))%Q).
  { pose proof (Qle_ceiling x).
    assert ((inject_Z (Qceiling x) <= inject_Z (Z.max 1 (Qceiling x)))%Q) by (rewrite <- Zle_Qle; lia). lra. }
  pose proof (wait_refills rate burst time (ps_sent state) need _ later h Hr ltac:(lia) Hx Hl) as Hneed.
  rewrite (proj2 (Qle_bool_iff _ _) Hneed) in E'. injection E' as _ <-. cbn [v_bytes Transfer.retryMs].
  apply Qfloor_resp_le in Hneed. rewrite Qfloor_Z in Hneed.
  split_and!; [lia|done|done|]. eexists. split; [done|lia].
Qed.

(** A bucket drained to 0 by its first 65,536 bytes refuses the next frame for
    164 milliseconds. *)
Definition drained_pacer : RatePacer := mkRatePacer 65536 (Some 0) 0.

Lemma retry_is_enough_witness :
  ∃ p q verdict',
    rate_pacing relayBytesPerSecond relayBurstBytes 0 (mkPacingState 0 0 false 65536 65536) drained_pacer
      = (p, mkVerdict (Finite 0) (Some 164)) ∧
    rate_pacing relayBytesPerSecond relayBurstBytes 164 (mkPacingState 0 0 false 65536 65536) p = (q, verdict') ∧
    ∃ n, v_bytes verdict' = Finite n ∧ Z.max 1 65536 <= n.
Proof.
  eexists _, _, _. split; [reflexivity|]. split; [reflexivity|].
  apply (retry_is_enough relayBytesPerSecond relayBurstBytes 0 (mkPacingState 0 0 false 65536 65536)
    drained_pacer _ _ 164 164 _ _ eq_refl eq_refl eq_refl ltac:(vm_compute; discriminate) eq_refl).
Defined.
