(* ===== verification/Sink.v ===== *)
(** * The in-memory sink ([direct/sink.ts]) and a file's way from end to end

    The sink holds the envelope and opens it on [end]. The second half joins the
    encoder, both state machines of the transfer and the sink. *)

From S2P Require Import Prelude JsString Utf8 Bytes Json Security Envelope EnvelopeFacts EnvelopeCorrect.
From S2P Require Frames Transfer SenderFacts ReceiverFacts TransferCorrect.

Section Sink.
Context `{Unicode} `{Cipher}.
(** [Blob.stream()]: the chunks the browser reads a blob in. *)
Context (stream : bytes → list bytes).

Record MemorySinkOptions := mkSinkOptions { sink_key : jstr; sink_manifest : EnvelopeMetadata; sink_envelopeBytes : Z }.
Record MemorySink := mkSink { parts : option (list bytes); held : Z; file : option RecoveredFile }.

Definition createMemorySink : MemorySink := mkSink (Some []) 0 None.

Section Options.
Context (options : MemorySinkOptions).

Definition sink_write (b : bytes) (s : MemorySink) : MemorySink * res unit :=
  match parts s with
  | None => (s, Throw "The sink has been closed.")
  | Some l =>
      if sink_envelopeBytes options <? held s + zlen b then (s, Throw "More bytes than the envelope holds.")
      else (mkSink (Some (l ++ [b])) (held s + zlen b) (file s), Ok tt)
  end.

(** The checks on the opened file. *)
Definition check_opened (end_sha256 : bytes) (end_size : Z) (opened : RecoveredFile) : res RecoveredFile :=
  let m := rec_metadata opened in
  check eqb (meta_name m) (meta_name (sink_manifest options)) && eqb (meta_type m) (meta_type (sink_manifest options)) &&
        (zlen (rec_content opened) =? meta_size (sink_manifest options)) else "The file inside is not the one the manifest named.";
  check zlen (rec_content opened) =? end_size else "The file's size is not the size END gave.";
  let! digest := sha256Hex (λ _, false) (stream (rec_content opened)) in
  check eqb digest (toHex end_sha256) else "The file's SHA-256 is not the one END gave.";
  Ok opened.

Definition sink_end (end_sha256 : bytes) (end_size : Z) (s : MemorySink) : MemorySink * res unit :=
  match parts s with
  | Some l =>
      if held s =? sink_envelopeBytes options then
        let s := mkSink None (held s) (file s) in
        match rbind (decryptPrivacyEnvelope (concat l) (sink_key options) (λ _, false)) (check_opened end_sha256 end_size) with
        | Ok opened => (mkSink None (held s) (Some opened), Ok tt)
        | Throw msg => (s, Throw msg)
        end
      else (s, Throw "The envelope is not complete.")
  | None => (s, Throw "The envelope is not complete.")
  end.

Definition sink_abort (s : MemorySink) : MemorySink := mkSink None (held s) None.

(** The sink after the calls the receiver makes on it. *)
Definition sink_call (s : MemorySink) (c : Transfer.sink_call) : MemorySink :=
  match c with
  | Transfer.SinkWrite b => (sink_write b s).1
  | Transfer.SinkEnd sha256 n => (sink_end sha256 n s).1
  | Transfer.SinkEnded => s
  | Transfer.SinkAbort => sink_abort s
  end.

Definition sink_after (calls : list Transfer.sink_call) : MemorySink := foldl sink_call createMemorySink calls.
End Options.
End Sink.

(** ** From the encoder's records to the wire *)

Section EndToEnd.
Context `{UnicodeLaws} `{CipherLaws}.

(** What successive calls of [next] settle to, up to the end of the records. *)
Fixpoint nexts_of (fuel : nat) (e : Encoder) (s : EncoderState) : list Transfer.NextResult * EncoderState :=
  match fuel with
  | O => ([], s)
  | S fuel =>
      let r := next e s in
      match r.2 with
      | Throw msg => ([Transfer.NextRejects msg], r.1)
      | Ok None => ([Transfer.NextDone], r.1)
      | Ok (Some record) => let rest := nexts_of fuel e r.1 in (Transfer.NextRecord record :: rest.1, rest.2)
      end
  end.

(** The encoder as the transfer sees it. *)
Definition transfer_encoder (e : Encoder) : Transfer.EnvelopeEncoder :=
  let r := nexts_of (S (Z.to_nat (enc_recordCount e))) e encoder_start in
  Transfer.mkEncoder (enc_header e) r.1 (match digest r.2 with Ok d => d | Throw _ => [] end)
    (meta_size (enc_metadata e)) (enc_envelopeBytes e).

Lemma nexts_of_all_records fuel e : ∀ s parts0 records s',
  all_records fuel e s parts0 = Ok (records, s') →
  ∃ rs, records = parts0 ++ rs ∧ nexts_of fuel e s = (map Transfer.NextRecord rs ++ [Transfer.NextDone], s').
Proof.
  induction fuel as [|fuel IH]; intros s parts0 records s' Ha; [done|]. cbn [all_records nexts_of] in *.
  destruct ((next e s).2) as [[record|]|msg]; cbn [rbind] in Ha; [| |done].
  - apply IH in Ha as (rs & -> & ->). exists (record :: rs). by rewrite <- app_assoc.
  - injection Ha as <- <-. exists []. by rewrite app_nil_r.
Qed.

Lemma join_concat (l : list bytes) : mjoin l = concat l.
Proof. induction l as [|x l IH]; [done|]. cbn. by rewrite <- IH. Qed.

Lemma transfer_encoder_ok e content : encodes e content → 1 <= enc_recordCount e →
  zlen (enc_header e) = 56 →
  SenderFacts.envelope_of (transfer_encoder e) = sealed_envelope e content ∧
  Transfer.digest (transfer_encoder e) = sha256 content.
Proof.
  intros He Hc Hh. destruct (all_records_start e content He ltac:(lia)) as (s' & Ha & Hd).
  apply nexts_of_all_records in Ha as (rs & Hrs & Hn). cbn [app] in Hrs.
  unfold transfer_encoder, SenderFacts.envelope_of. rewrite Hn. cbn [Transfer.header Transfer.nexts Transfer.digest fst snd]. rewrite Hd.
  split; [|done]. rewrite SenderFacts.read_records_app, <- Hrs. cbn [SenderFacts.read_records]. rewrite app_nil_r, join_concat. done.
Qed.

(** ** What the sink makes of its calls *)

Lemma sha256Hex_quiet chunks : sha256Hex (λ _, false) chunks = Ok (toHex (sha256 (concat chunks))).
Proof.
  unfold sha256Hex. assert (∀ k hashed, updateBlobHash (λ _, false) k hashed chunks = Ok (hashed ++ concat chunks)) as ->; [|done].
  induction chunks as [|c chunks IH]; intros k hashed; simpl; [by rewrite app_nil_r|]. by rewrite IH, app_assoc.
Qed.

Context (stream : bytes → list bytes) (stream_whole : ∀ b, concat (stream b) = b).

Lemma sink_writes o w : ∀ l h, h = zlen (concat l) → zlen (concat l) + zlen (concat w) <= sink_envelopeBytes o →
  foldl (sink_call stream o) (mkSink (Some l) h None) (map Transfer.SinkWrite w)
  = mkSink (Some (l ++ w)) (zlen (concat (l ++ w))) None.
Proof.
  induction w as [|b w IH]; intros l h -> Hz; cbn [map foldl]; [by rewrite app_nil_r|].
  cbn [concat] in Hz. rewrite zlen_app in Hz. cbn [sink_call sink_write parts held file].
  pose proof (zlen_nonneg (concat w)). rewrite (proj2 (Z.ltb_ge _ _)) by lia. cbn [fst].
  rewrite IH; [by rewrite <- app_assoc| |]; rewrite concat_app, zlen_app; cbn [concat]; rewrite app_nil_r; lia.
Qed.

(** The receiver's options name this envelope and the key it was sealed under. *)
Definition manifest_of (e : Encoder) : MemorySinkOptions :=
  mkSinkOptions (enc_inputKey e) (enc_metadata e) (enc_envelopeBytes e).

(** [end] on the whole envelope and on part of it. *)
Lemma sink_end_sealed e content w n :
  decryptPrivacyEnvelope (sealed_envelope e content) (enc_inputKey e) (λ _, false) = Ok (mkRecovered (enc_metadata e) content) →
  meta_size (enc_metadata e) = zlen content → n = zlen content →
  zlen (sealed_envelope e content) = enc_envelopeBytes e → concat w `prefix_of` sealed_envelope e content →
  let s := (sink_end stream (manifest_of e) (sha256 content) n (mkSink (Some w) (zlen (concat w)) None)).1 in
  (file s = None ∨ file s = Some (mkRecovered (enc_metadata e) content)) ∧
  (zlen (concat w) = enc_envelopeBytes e → file s = Some (mkRecovered (enc_metadata e) content)).
Proof.
  intros Hd Hsz -> Hl [rest Hp]. unfold sink_end. cbn [parts held manifest_of sink_envelopeBytes sink_key].
  destruct (zlen (concat w) =? enc_envelopeBytes e) eqn:Ez; [|apply Z.eqb_neq in Ez; split; [by left|done]].
  apply Z.eqb_eq in Ez. assert (rest = []) as ->.
  { rewrite Hp, zlen_app in Hl. destruct rest; [done|]. rewrite zlen_cons in Hl. pose proof (zlen_nonneg rest). lia. }
  rewrite app_nil_r in Hp. rewrite <- Hp, Hd. cbn [rbind]. unfold check_opened.
  cbn [rec_metadata rec_content sink_manifest manifest_of]. rewrite !(proj2 (eqb_eq _ _) eq_refl), Hsz, !Z.eqb_refl. cbn [andb guard rbind].
  rewrite sha256Hex_quiet, stream_whole. cbn [rbind]. rewrite (proj2 (eqb_eq _ _) eq_refl). cbn. split; [by right|done].
Qed.
(** The sink after any of the histories the receiver can give it. *)
Lemma sink_after_history e content w stage aborted :
  decryptPrivacyEnvelope (sealed_envelope e content) (enc_inputKey e) (λ _, false) = Ok (mkRecovered (enc_metadata e) content) →
  meta_size (enc_metadata e) = zlen content → zlen (sealed_envelope e content) = enc_envelopeBytes e →
  concat w `prefix_of` sealed_envelope e content →
  (∀ h n, Transfer.SinkEnd h n ∈ ReceiverFacts.calls_of (zlen content) w stage aborted → h = sha256 content) →
  let f := Some (mkRecovered (enc_metadata e) content) in
  let s := sink_after stream (manifest_of e) (ReceiverFacts.calls_of (zlen content) w stage aborted) in
  (file s = None ∨ file s = f) ∧
  (stage = ReceiverFacts.EndResolved (sha256 content) → zlen (concat w) = enc_envelopeBytes e → aborted = false → file s = f).
Proof.
  intros Hd Hsz Hl Hp Hh f s. unfold s, sink_after, ReceiverFacts.calls_of in *.
  rewrite foldl_app, (sink_writes _ w [] 0); [|done|].
  2:{ destruct Hp as [rest Hp]. cbn [sink_envelopeBytes manifest_of List.concat]. rewrite zlen_nil, <- Hl, Hp, zlen_app. pose proof (zlen_nonneg rest). lia. }
  cbn [app].
  pose proof (sink_end_sealed e content w (zlen content) Hd Hsz eq_refl Hl Hp) as Hend. cbn zeta in Hend.
  destruct stage as [|h| |h|h|h]; rewrite ?foldl_app; cbn [foldl app sink_call];
    try (destruct aborted; cbn; (split; [by left|done])).
  all: assert (h = sha256 content) as -> by (apply (Hh h (zlen content)); set_solver).
  all: destruct aborted; cbn [foldl app sink_call sink_abort file]; split; try (by left); try apply Hend; try done.
  intros _ Hz _. by apply Hend.
Qed.
End EndToEnd.

(** C1: a file's way from end to end. While the envelope that
    [createEnvelopeEncoder] makes of a file goes over the channel into a memory
    sink, the sink holds at every moment either no file at all or exactly the
    sender's file, byte for byte and under its metadata; and once the sender has
    resolved, it holds that file, unless the receiver itself went on to fail. *)
Theorem delivered_file `{UnicodeLaws} `{CipherLaws} stream content name type key entropy rawKey e
    maxMessageSize ch ch' already already' y :
  (∀ b, concat (stream b) = b) →
  jstr_ok name → jstr_ok type → bytes_ok content → content ≠ [] → entropy_ok entropy →
  createEnvelopeEncoder (blob_source content) name type key (λ _, false) entropy = Ok e →
  encoder_key key entropy = Ok rawKey → bytes_ok rawKey →
  TransferCorrect.sys_reach (transfer_encoder e) maxMessageSize ch ch' already already' y →
  let f := Some (mkRecovered (enc_metadata e) content) in
  let s := sink_after stream (manifest_of e) (Transfer.sink (TransferCorrect.rcv y)) in
  (file s = None ∨ file s = f) ∧
  (Transfer.place (TransferCorrect.snd y) = Transfer.Sent →
   Transfer.r_place (TransferCorrect.rcv y) ≠ Transfer.ReceiveFailed → file s = f).
Proof.
  intros Hstream Hn Ht Hc Hne Hr Hcr Hk Hkb Hy f s.
  pose proof (create_encodes _ _ _ _ _ _ _ Hn Ht (λ _, eq_refl) Hcr) as He.
  destruct (create_ok _ _ _ _ _ _ _ Hn Ht Hcr) as (rk & _ & _ & _ & Hms & _ & _ & _ & _ & _ & Hrc & Hcount & _ & Hh & _).
  pose proof Hr as (_ & Hn8 & _ & Hs32 & _).
  assert (zlen (enc_header e) = 56) as Hh56 by (rewrite Hh, !zlen_app, Hn8, Hs32; done).
  pose proof (zlen_sealed_envelope e content He Hh56 ltac:(lia)) as Hlen.
  pose proof (decrypt_sealed _ _ _ _ _ _ _ _ Hn Ht Hc Hr (λ _, eq_refl) Hcr Hne Hk Hkb) as Hd.
  destruct (transfer_encoder_ok e content He ltac:(lia) Hh56) as [Henv Hdig].
  assert (Htot : Transfer.envelopeBytes (transfer_encoder e) = enc_envelopeBytes e) by done.
  assert (Hsize : Transfer.size (transfer_encoder e) = zlen content) by exact Hms.
  assert (Hb : 0 <= Transfer.envelopeBytes (transfer_encoder e) <= max_safe_integer).
  { rewrite Htot, <- Hlen. split; [apply zlen_nonneg|]. rewrite Hlen. unfold enc_envelopeBytes.
    pose proof (ceil_div_spec (enc_plaintextLength e) ENVELOPE_CHUNK_BYTES chunk_positive) as Hcd. rewrite <- Hrc in Hcd.
    pose proof (envelope_size_bound _ _ Hcd Hcount). unfold ENVELOPE_HEADER_BYTES_V2, ENVELOPE_TAG_BYTES, max_safe_integer, MAX_PROTOTYPE_TRANSFER_BYTES, MAX_PROTOTYPE_FILE_BYTES in *. lia. }
  destruct (TransferCorrect.sink_history _ _ _ _ _ _ y Hb Hy) as (w & stage & Hcalls & Hpre & Hhash & Hsent).
  rewrite join_concat, Henv in Hpre. rewrite Hdig in Hhash, Hsent. rewrite Hsize in Hcalls. rewrite join_concat, Htot in Hsent.
  unfold s. rewrite Hcalls in Hhash |- *.
  destruct (sink_after_history stream Hstream e content w stage _ Hd Hms Hlen Hpre Hhash) as [Hsafe Hdone].
  split; [exact Hsafe|]. intros Hp Hf. apply Hdone; [by apply Hsent..|]. by destruct (Transfer.r_place (TransferCorrect.rcv y)).
Qed.

(** ** A concrete transfer *)

#[local] Existing Instances ascii_unicode ascii_unicode_laws toy_cipher toy_cipher_laws.

Lemma delivered_file_witness : ∃ e y,
  createEnvelopeEncoder (blob_source [7; 8; 9]) (lit "a.txt") (lit "Text/Plain") None (λ _, false) toy_entropy = Ok e ∧
  TransferCorrect.sys_reach (transfer_encoder e) 65536 SenderFacts.example_channel SenderFacts.example_channel false false y ∧
  let s := sink_after (λ b, [b]) (manifest_of e) (Transfer.sink (TransferCorrect.rcv y)) in
  file s = None ∨ file s = Some (mkRecovered (enc_metadata e) [7; 8; 9]).
Proof.
  assert (jstr_ok (lit "a.txt")) as Hn by (apply ascii_jstr_ok; solve_ascii).
  assert (jstr_ok (lit "Text/Plain")) as Ht by (apply ascii_jstr_ok; solve_ascii).
  destruct (createEnvelopeEncoder (blob_source [7; 8; 9]) (lit "a.txt") (lit "Text/Plain") None (λ _, false) toy_entropy) as [e|] eqn:Hc.
  2:{ destruct toy_encrypts as [env He]. destruct (encrypt_inv _ _ _ _ _ _ Hn Ht toy_entropy_ok (λ _, eq_refl) He) as (e & Hc' & _).
      rewrite Hc in Hc'. discriminate Hc'. }
  exists e, (TransferCorrect.mkSystem
    (Transfer.sendEnvelope_start (transfer_encoder e) 65536 SenderFacts.example_channel false)
    (Transfer.receiveEnvelope_start SenderFacts.example_channel false) 0 0).
  split; [reflexivity|]. split; [apply TransferCorrect.reach_start|].
  refine (proj1 (delivered_file (λ b, [b]) [7; 8; 9] (lit "a.txt") (lit "Text/Plain") None toy_entropy (replicate 32 3) e
    65536 SenderFacts.example_channel SenderFacts.example_channel false false _ _ Hn Ht _ _ toy_entropy_ok Hc eq_refl _ (TransferCorrect.reach_start _ _ _ _ _ _))).
  - intros b. cbn. apply app_nil_r.
  - apply bytesb_ok. reflexivity.
  - discriminate.
  - apply bytesb_ok. reflexivity.
Defined.
