(* ===== verification/Peer.v ===== *)
(** * The peer connection ([direct/peer.ts])

    The configuration a connection is made from, the reading of the selected
    path, and the state of [DirectPeer]: its listeners, its closing and the
    descriptions being gathered. The browser's [RTCPeerConnection] is a
    parameter. *)

From S2P Require Import Prelude JsString DirectConfig Messages.

(** ** The configuration *)

Inductive PeerState : Type := New | Connecting | Connected | Disconnected | PeerFailed | PeerClosed.

#[global] Instance PeerState_eq_dec : EqDecision PeerState.
Proof. solve_decision. Defined.

Definition no_relay : string := "There is no TURN server to hide behind.".

Definition isRelayUrl (url : jstr) : bool := startsWith url (lit "turn:") || startsWith url (lit "turns:").

(** An [RTCIceServer]: its URLs and, unless it has none, its credential. *)
Record RTCIceServer := mkRtcServer { rtc_urls : list jstr; rtc_credential : option (jstr * jstr) }.
(** [relay_only] is [iceTransportPolicy: "relay"]. *)
Record RTCConfiguration := mkConfiguration { rtc_servers : list RTCIceServer; relay_only : bool }.

Definition rtc_server (hide : bool) (server : IceServer) : option RTCIceServer :=
  let kept := if hide then List.filter isRelayUrl (urls server) else urls server in
  match kept with
  | [] => None
  | _ => Some (mkRtcServer kept (if eqb (username server) [] then None else Some (username server, credential server)))
  end.

Definition buildRtcConfiguration (servers : list IceServer) (hide : bool) : res RTCConfiguration :=
  let iceServers := omap (rtc_server hide) servers in
  check negb (hide && bool_decide (length iceServers = 0%nat)) else no_relay;
  Ok (mkConfiguration iceServers hide).

(** [/\?transport=tcp$/iu]: under [i] and [u] a letter also matches its
    capital, and [s] the long s. *)
Definition folds_to (u c : Z) : bool :=
  (u =? c) || (is_lower c && (u =? c - 32)) || ((c =? 115) && (u =? 383)).
Definition TCP_SPELLING (url : jstr) : bool :=
  let pattern := lit "?transport=tcp" in
  let tail := List.skipn (length url - length pattern) url in
  (length tail =? length pattern)%nat && forallb (λ p, folds_to p.1 p.2) (zip tail pattern).

(** What [new RTCPeerConnection(configuration)] does. *)
Inductive construction : Type := Made | SyntaxError | ConstructionRefused (msg : string).

(** The configuration the connection is made with. *)
Definition openConnection (construct : RTCConfiguration → construction) (servers : list IceServer) (hide : bool) : res RTCConfiguration :=
  let! configuration := buildRtcConfiguration servers hide in
  match construct configuration with
  | Made => Ok configuration
  | ConstructionRefused msg => Throw msg
  | SyntaxError =>
      let trimmed := map (λ s, mkIceServer (credential s) (List.filter (λ url, negb (TCP_SPELLING url)) (urls s)) (username s)) servers in
      let! configuration := buildRtcConfiguration trimmed hide in
      match construct configuration with
      | Made => Ok configuration
      | SyntaxError => Throw "SyntaxError"
      | ConstructionRefused msg => Throw msg
      end
  end.

(** ** States and paths *)

Inductive IceState : Type := IceNew | IceChecking | IceConnected | IceCompleted | IceDisconnected | IceFailed | IceClosed.

Definition stateOf (connectionState : option PeerState) (iceConnectionState : IceState) : PeerState :=
  match connectionState with
  | Some s => s
  | None =>
      match iceConnectionState with
      | IceConnected | IceCompleted => Connected
      | IceDisconnected => Disconnected
      | IceFailed => PeerFailed
      | IceClosed => PeerClosed
      | IceChecking => Connecting
      | IceNew => New
      end
  end.

Record PathKinds := mkPathKinds { local : jstr; remote : jstr }.

(** A report of [getStats()], by the fields that are read; a field of another
    type than a string or [true] counts as absent. *)
Record Report := mkReport {
  report_id : jstr; report_type : option jstr; selectedCandidatePairId : option jstr;
  selected : bool; nominated : bool; report_state : option jstr;
  localCandidateId : option jstr; remoteCandidateId : option jstr; candidateType : option jstr }.

(** [reports.set(report.id, report)]: a repeated id keeps its place. *)
Fixpoint set_report (r : Report) (l : list Report) : list Report :=
  match l with
  | [] => [r]
  | r' :: l => if eqb (report_id r') (report_id r) then r :: l else r' :: set_report r l
  end.
Definition get_report (id : jstr) (l : list Report) : option Report := List.find (λ r, eqb (report_id r) id) l.
Definition is_text (t : option jstr) (s : string) : bool := match t with Some t => eqb t (lit s) | None => false end.

(** The pair the transport reports name; the last of them decides. *)
Definition transport_pair (reports : list Report) : option Report :=
  foldl (λ chosen report,
    match selectedCandidatePairId report with
    | Some id => if is_text (report_type report) "transport" then get_report id reports else chosen
    | None => chosen
    end) None reports.

Definition selects (report : Report) : bool :=
  is_text (report_type report) "candidate-pair" &&
  (selected report || (nominated report && is_text (report_state report) "succeeded")).

(** [kind(id)]; [String(undefined)] is ["undefined"]. *)
Definition candidate_kind (reports : list Report) (id : option jstr) : jstr :=
  default (lit "unknown") (get_report (default (lit "undefined") id) reports ≫= candidateType).

Definition selectedPath (stats : list Report) : option PathKinds :=
  let reports := foldl (λ l r, set_report r l) [] stats in
  let chosen := match transport_pair reports with Some r => Some r | None => List.find selects reports end in
  match chosen with
  | None => None
  | Some r => Some (mkPathKinds (candidate_kind reports (localCandidateId r)) (candidate_kind reports (remoteCandidateId r)))
  end.

Definition isRelayed (path : option PathKinds) : option bool :=
  match path with
  | None => None
  | Some p => Some (eqb (local p) (lit "relay") || eqb (remote p) (lit "relay"))
  end.

(** ** [DirectPeer] *)

(** A call of [describe]: its step runs (and gathering may already be
    complete), it waits for gathering, or it is about to return. *)
Inductive describing : Type := StepRunning (complete : bool) | Gathering | Finishing.

(** [heard] is what the listeners were told; [described] the descriptions
    returned, [None] when there was none. *)
Record DirectPeer := mkPeer {
  connection : PeerState; p_closed : bool; violated : bool;
  listeners : list nat; heard : list (nat * PeerState * bool);
  gathered : option nat; describes : gmap nat describing; described : list (nat * option jstr) }.

Definition peer_start : DirectPeer := mkPeer New false false [] [] None ∅ [].

Definition peer_state (p : DirectPeer) : PeerState := if p_closed p then PeerClosed else connection p.

Definition emit (p : DirectPeer) : DirectPeer :=
  mkPeer (connection p) (p_closed p) (violated p) (listeners p)
    (heard p ++ map (λ l, (l, peer_state p, violated p)) (listeners p)) (gathered p) (describes p) (described p).

Definition onState (l : nat) (p : DirectPeer) : DirectPeer :=
  mkPeer (connection p) (p_closed p) (violated p)
    (if bool_decide (l ∈ listeners p) then listeners p else listeners p ++ [l])
    (heard p) (gathered p) (describes p) (described p).
Definition offState (l : nat) (p : DirectPeer) : DirectPeer :=
  mkPeer (connection p) (p_closed p) (violated p) (List.filter (λ l', negb (l =? l')%nat) (listeners p))
    (heard p) (gathered p) (describes p) (described p).

Definition set_describe (i : nat) (d : describing) (p : DirectPeer) : DirectPeer :=
  mkPeer (connection p) (p_closed p) (violated p) (listeners p) (heard p) (gathered p) (<[i := d]> (describes p)) (described p).

(** [this.gathered?.()]. *)
Definition gathered_now (p : DirectPeer) : DirectPeer :=
  match gathered p with
  | None => p
  | Some i =>
      match describes p !! i with
      | Some (StepRunning _) => set_describe i (StepRunning true) p
      | Some Gathering => set_describe i Finishing p
      | _ => p
      end
  end.

(** [close()]; closing the data channel may throw, and then nobody is told. *)
Definition peer_close (channel_throws : bool) (p : DirectPeer) : DirectPeer :=
  if p_closed p then p
  else
    let p := gathered_now (mkPeer (connection p) true (violated p) (listeners p) (heard p) (gathered p) (describes p) (described p)) in
    if channel_throws then p else emit p.

Definition violation (channel_throws : bool) (p : DirectPeer) : DirectPeer :=
  peer_close channel_throws
    (mkPeer (connection p) (p_closed p) true (listeners p) (heard p) (gathered p) (describes p) (described p)).

Definition describe_start (i : nat) (p : DirectPeer) : DirectPeer :=
  mkPeer (connection p) (p_closed p) (violated p) (listeners p) (heard p) (Some i)
    (<[i := StepRunning false]> (describes p)) (described p).

(** The call ends: [finally], then the local description. *)
Definition describe_ends (i : nat) (sdp : option jstr) (p : DirectPeer) : DirectPeer :=
  mkPeer (connection p) (p_closed p) (violated p) (listeners p) (heard p) None
    (delete i (describes p)) (described p ++ [(i, sdp)]).

Inductive peer_event : Type :=
  | StateChanges (s : PeerState) | ForbiddenChannel (channel_throws : bool) | CloseCalled (channel_throws : bool)
  | Listen (l : nat) | Unlisten (l : nat) | GatheringDone
  | DescribeCalled (i : nat) | StepDone (i : nat) (ok : bool) | GatherTimer (i : nat) | DescribeReturns (i : nat) (sdp : jstr).

Definition peer_step (p : DirectPeer) (e : peer_event) : DirectPeer :=
  match e with
  | StateChanges s =>
      emit (mkPeer s (p_closed p) (violated p) (listeners p) (heard p) (gathered p) (describes p) (described p))
  | ForbiddenChannel throws => violation throws p
  | CloseCalled throws => peer_close throws p
  | Listen l => onState l p
  | Unlisten l => offState l p
  | GatheringDone => gathered_now p
  | DescribeCalled i => if bool_decide (describes p !! i = None) then describe_start i p else p
  | StepDone i ok =>
      match describes p !! i with
      | Some (StepRunning complete) =>
          if negb ok then describe_ends i None p
          else set_describe i (if complete then Finishing else Gathering) p
      | _ => p
      end
  | GatherTimer i => match describes p !! i with Some Gathering => set_describe i Finishing p | _ => p end
  | DescribeReturns i sdp =>
      match describes p !! i with
      | Some Finishing => describe_ends i (if eqb sdp [] then None else Some sdp) p
      | _ => p
      end
  end.

(** ** The properties *)

(** What a server of the configuration is made of. *)
Definition comes_from (hide : bool) (servers : list IceServer) (s : RTCIceServer) : Prop :=
  rtc_urls s ≠ [] ∧
  ∃ server, server ∈ servers ∧ (∀ url, url ∈ rtc_urls s → url ∈ urls server ∧ (hide = true → isRelayUrl url = true)) ∧
    rtc_credential s = (if eqb (username server) [] then None else Some (username server, credential server)).

Lemma rtc_server_from hide server s : rtc_server hide server = Some s → comes_from hide [server] s.
Proof.
  unfold rtc_server. set (kept := if hide then _ else _). intros E.
  assert (Hk : ∀ url, url ∈ kept → url ∈ urls server ∧ (hide = true → isRelayUrl url = true)).
  { intros url Hin. unfold kept in Hin. destruct hide; [|done]. apply list_elem_of_In, filter_In in Hin as [Hin ?].
    split; [by apply list_elem_of_In|done]. }
  destruct kept as [|u kept]; [done|]. injection E as <-. split; [done|]. exists server. split; [by left|]. done.
Qed.

Lemma buildRtcConfiguration_ok servers hide c : buildRtcConfiguration servers hide = Ok c →
  relay_only c = hide ∧ (hide = true → rtc_servers c ≠ []) ∧ (∀ s, s ∈ rtc_servers c → comes_from hide servers s).
Proof.
  unfold buildRtcConfiguration. intros Hb. inv_ok. bool_prop. cbn [relay_only rtc_servers]. split; [done|]. split.
  - intros ->. cbn [andb] in *. bool_prop. by destruct (omap _ _).
  - intros s Hs. apply list_elem_of_omap in Hs as (server & Hin & E).
    destruct (rtc_server_from _ _ _ E) as (Hne & server' & Hin' & Hu & Hc). apply list_elem_of_singleton in Hin' as ->.
    split; [done|]. by exists server.
Qed.

(** C27: a connection that hides is made only with TURN servers and the relay
    policy, or not at all; hidden or not, it is made only with URLs of the
    invitation, each with its own server's credential and none for a STUN entry,
    also when the browser refused a spelling and it was made again. *)
Theorem openConnection_hides construct servers hide c :
  openConnection construct servers hide = Ok c →
  construct c = Made ∧ relay_only c = hide ∧ (hide = true → rtc_servers c ≠ []) ∧
  ∀ s, s ∈ rtc_servers c → comes_from hide servers s.
Proof.
  unfold openConnection. intros Ho. inv_ok. destruct (construct x) eqn:Ec; [| |done].
  - injection Ho as <-. split; [done|]. by apply buildRtcConfiguration_ok.
  - inv_ok. destruct (construct x0) eqn:Ec0; [|done..]. injection Ho as <-. split; [done|].
    apply buildRtcConfiguration_ok in E0 as (? & ? & Hs). split_and!; [done..|].
    intros s Hin. destruct (Hs s Hin) as (Hne & server & Hserver & Hu & Hc). split; [done|].
    apply list_elem_of_fmap in Hserver as (server' & -> & Hserver). exists server'. split; [done|]. split; [|done].
    intros url Hurl. destruct (Hu url Hurl) as [Hx ?]. split; [|done].
    by apply list_elem_of_In, filter_In in Hx as [Hx%list_elem_of_In _].
Qed.

Lemma openConnection_hides_witness :
  ∃ c, openConnection (λ c, if existsb (λ s, existsb TCP_SPELLING (rtc_urls s)) (rtc_servers c) then SyntaxError else Made)
    [mkIceServer (lit "secret") [lit "stun:a.example"; lit "turn:a.example"; lit "turn:a.example?transport=tcp"] (lit "user");
     mkIceServer [] [lit "stun:b.example"] []] true = Ok c ∧
  c = mkConfiguration [mkRtcServer [lit "turn:a.example"] (Some (lit "user", lit "secret"))] true ∧
  (∀ s, s ∈ rtc_servers c → comes_from true
    [mkIceServer (lit "secret") [lit "stun:a.example"; lit "turn:a.example"; lit "turn:a.example?transport=tcp"] (lit "user");
     mkIceServer [] [lit "stun:b.example"] []] s).
Proof.
  eexists. split; [vm_compute; reflexivity|]. split; [reflexivity|].
  apply (openConnection_hides (λ c, if existsb (λ s, existsb TCP_SPELLING (rtc_urls s)) (rtc_servers c) then SyntaxError else Made)).
  vm_compute. reflexivity.
Defined.

Definition peer_run (p : DirectPeer) (events : list peer_event) : DirectPeer := foldl peer_step p events.

(** A closed peer: closed for good, and every description still asked for has
    been released from its wait. *)
Definition peer_inv (p : DirectPeer) : Prop :=
  NoDup (listeners p) ∧ (violated p = true → p_closed p = true).

Lemma gathered_now_same p : listeners (gathered_now p) = listeners p ∧ p_closed (gathered_now p) = p_closed p ∧
  violated (gathered_now p) = violated p ∧ heard (gathered_now p) = heard p.
Proof. unfold gathered_now. destruct (gathered p) as [i|]; [|done]. by destruct (describes p !! i) as [[]|]. Qed.

Lemma peer_close_facts throws p : p_closed (peer_close throws p) = true ∧ listeners (peer_close throws p) = listeners p ∧
  violated (peer_close throws p) = violated p ∧
  (p_closed p = false → throws = false →
   heard (peer_close throws p) = heard p ++ map (λ l, (l, PeerClosed, violated p)) (listeners p)).
Proof.
  unfold peer_close. destruct (p_closed p) eqn:Ec; [by rewrite Ec|].
  set (q := mkPeer _ true _ _ _ _ _ _). destruct (gathered_now_same q) as (H1 & H2 & H3 & H4).
  destruct throws; cbn [emit p_closed listeners violated heard]; rewrite ?H1, ?H2, ?H3, ?H4; split_and!; try done.
  intros _ _. unfold peer_state. by rewrite H2.
Qed.

Lemma peer_step_inv p e : peer_inv p → peer_inv (peer_step p e) ∧ (p_closed p = true → p_closed (peer_step p e) = true).
Proof.
  intros [Hn Hv]. unfold peer_inv. destruct e as [s|throws|throws|l|l| |i|i ok|i|i sdp]; cbn [peer_step].
  - done.
  - unfold violation. destruct (peer_close_facts throws (mkPeer (connection p) (p_closed p) true (listeners p) (heard p) (gathered p) (describes p) (described p))) as (-> & -> & -> & _). done.
  - destruct (peer_close_facts throws p) as (-> & -> & -> & _). done.
  - unfold onState. cbn. case_bool_decide; [done|]. split; [|done]. split; [|done]. apply NoDup_app. split_and!; [done| |apply NoDup_singleton].
    intros x Hx ->%list_elem_of_singleton. done.
  - unfold offState. cbn. split; [|done]. split; [|done]. apply NoDup_ListNoDup, List.NoDup_filter, NoDup_ListNoDup, Hn.
  - destruct (gathered_now_same p) as (-> & -> & -> & _). done.
  - case_bool_decide; done.
  - destruct (describes p !! i) as [[c| |]|]; try done. destruct ok; done.
  - destruct (describes p !! i) as [[c| |]|]; done.
  - destruct (describes p !! i) as [[c| |]|]; done.
Qed.
