(* ===== verification/Failure.v ===== *)
(** * What went wrong ([get/failure.ts])

    A thrown JavaScript value, by the parts the program looks at, and how the
    pages classify one. *)

From S2P Require Import Prelude.

(** The kinds of a [ForegatherTransportError] that are told apart. *)
Inductive transport_kind : Type := TransportExpired | TransportCancelled | TransportHttp | TransportOther.

(** [TransportError] is any object of that name; [NotAnError] a thrown value
    that is no [Error]. *)
Inductive js_error : Type :=
  | TransportError (kind : transport_kind) (status : option Z) (msg : string)
  | TypeError (msg : string)
  | DOMException (name msg : string)
  | RetrievalError (integrity : bool) (status : option Z) (msg : string)
  | PlainError (msg : string)
  | NotAnError.

(** [error instanceof Error ? error.message : fallback]. *)
Definition message_or (fallback : string) (error : js_error) : string :=
  match error with
  | TransportError _ _ msg | TypeError msg | DOMException _ msg | RetrievalError _ _ msg | PlainError msg => msg
  | NotAnError => fallback
  end.

Inductive PairingFailure : Type := ClaimRefused | PairingNetwork | WrongWords | PairingExpired | PairingCancelled.
Inductive DownloadFailure : Type := Missing | Unavailable | Damaged.
Inductive DownloadStage : Type := Fetching | Opening.

#[global] Instance PairingFailure_eq_dec : EqDecision PairingFailure.
Proof. solve_decision. Defined.

Definition classifyPairingFailure (error : js_error) (claimed : bool) : PairingFailure :=
  match error with
  | TransportError kind status _ =>
      match kind with
      | TransportExpired => PairingExpired
      | TransportCancelled => PairingCancelled
      | TransportHttp =>
          match status with
          | Some n => if negb claimed && ((n =? 403) || (n =? 404) || (n =? 409) || (n =? 410)) then ClaimRefused else PairingNetwork
          | None => PairingNetwork
          end
      | TransportOther => PairingNetwork
      end
  | TypeError _ => PairingNetwork
  | DOMException name _ =>
      if bool_decide (name = "TimeoutError") || bool_decide (name = "NetworkError") then PairingNetwork
      else if claimed then WrongWords else PairingNetwork
  | RetrievalError _ _ _ | PlainError _ | NotAnError => if claimed then WrongWords else PairingNetwork
  end.

Definition classifyDownloadFailure (error : js_error) (stage : DownloadStage) : DownloadFailure :=
  match stage with
  | Opening => Damaged
  | Fetching =>
      match error with
      | RetrievalError true _ _ => Damaged
      | RetrievalError false status _ =>
          if bool_decide (status = Some 404) || bool_decide (status = Some 410) then Missing else Unavailable
      | _ => Unavailable
      end
  end.

(** A secret is called wrong only after the claim went through, and a claim
    refused only before. *)
Lemma pairing_blame error claimed :
  (classifyPairingFailure error claimed = WrongWords → claimed = true) ∧
  (classifyPairingFailure error claimed = ClaimRefused → claimed = false).
Proof.
  split; destruct claimed; try done; destruct error as [[] [n|] m|m|n m|i s m|m|]; simpl; try done;
    repeat (case_match; try done).
Qed.
