(* ===== verification/DirectLink.v ===== *)
(** * One end of the exchange of a direct send ([direct/session.ts], [Link])

    The errors of a session, the link that counts indexes and says [stop] at most
    once, and the watcher of the connection. The exchange's [send] calls run one
    after another; [gone] counts those that have settled. *)

From S2P Require Import Prelude JsString Utf8 Bytes Json Security DirectConfig Messages Failure.
From S2P Require Transfer Peer.

(** ** Failures *)

Inductive DirectFailure : Type :=
  | Cancelled | PeerCancelled | Declined | Unsupported | PeerUnsupported | Protocol | PeerFailed | PeerStorage
  | NoRelay | ConnectFailed | Lost | Expired | Network | SourceFailed | TooBig | Verification | Storage.

#[global] Instance DirectFailure_eq_dec : EqDecision DirectFailure.
Proof. solve_decision. Defined.

Definition failure_name (k : DirectFailure) : string :=
  match k with
  | Cancelled => "cancelled" | PeerCancelled => "peer-cancelled" | Declined => "declined" | Unsupported => "unsupported"
  | PeerUnsupported => "peer-unsupported" | Protocol => "protocol" | PeerFailed => "peer-failed" | PeerStorage => "peer-storage"
  | NoRelay => "no-relay" | ConnectFailed => "connect" | Lost => "lost" | Expired => "expired" | Network => "network"
  | SourceFailed => "source" | TooBig => "too-big" | Verification => "verification" | Storage => "storage"
  end.

Record DirectError := mkDirectError { d_kind : DirectFailure; d_message : string }.

(** [new DirectError(kind)]: the kind is the message. *)
Definition direct_error (k : DirectFailure) : DirectError := mkDirectError k (failure_name k).

(** What a [catch] can find. *)
Inductive caught : Type :=
  | CDirect (e : DirectError) | CTransfer (e : Transfer.TransferError) | CError (e : js_error).

Definition exchangeFailure (error : caught) : DirectError :=
  match error with
  | CDirect e => e
  | CTransfer _ => mkDirectError Network "The exchange failed."
  | CError e =>
      match classifyPairingFailure e true with
      | PairingExpired => mkDirectError Expired "The session ended."
      | PairingCancelled => mkDirectError Cancelled "The exchange was cancelled."
      | _ => mkDirectError Network "The exchange failed."
      end
  end.

Definition failureForPeerStop (reason : StopReason) : DirectFailure :=
  match reason with cancelled => PeerCancelled | unsupported => PeerUnsupported | failed => PeerFailed end.

Definition failureForTransfer (error : caught) : DirectError :=
  match error with
  | CDirect e => e
  | CError e => mkDirectError Protocol (message_or "A failure." e)
  | CTransfer (Transfer.mkTransferError kind msg) =>
      match kind with
      | Transfer.Cancelled => direct_error Cancelled
      | Transfer.PeerCancelled => direct_error PeerCancelled
      | Transfer.PeerFailed => direct_error PeerFailed
      | Transfer.PeerStorage => direct_error PeerStorage
      | Transfer.Protocol => mkDirectError Protocol msg
      | Transfer.Closed => mkDirectError Lost "The connection closed."
      | Transfer.FrameSize => mkDirectError Unsupported "The connection cannot carry messages this size."
      | Transfer.Source => mkDirectError SourceFailed msg
      | Transfer.Verification => mkDirectError Verification msg
      | Transfer.Storage => mkDirectError Storage msg
      end
  end.

(** ** [Link] *)

(** [outbox] is what was handed to the exchange, in order; [stopping] the index
    of the stop this end sent. *)
Record Link := mkLink {
  sentCount : Z; receivedCount : Z; stopped : bool; ended : bool; stopping : option nat;
  outbox : list DirectMessage; gone : nat; exchange_closed : bool }.

#[export] Instance Link_eta : Eta Link := λ l,
  mkLink (sentCount l) (receivedCount l) (stopped l) (ended l) (stopping l) (outbox l) (gone l) (exchange_closed l).

Definition link_start : Link := mkLink 0 0 false false None [] 0 false.

Definition is_stop (m : DirectMessage) : bool := match m with Stop _ => true | _ => false end.

(** What [send] gives: a promise for the message at an index, or a refusal. *)
Inductive send_result : Type := SentAt (index : nat) | SendRefused (error : caught).

Definition link_send (m : DirectMessage) (l : Link) : Link * send_result :=
  if ended l then (l, SendRefused (CDirect (mkDirectError Expired "The exchange has ended.")))
  else if stopped l && negb (is_stop m) then (l, SendRefused (CDirect (mkDirectError Cancelled "The exchange has been stopped.")))
  else if messagesPerSide <=? sentCount l then (l, SendRefused (CDirect (mkDirectError Protocol "No messages left.")))
  else match encodeMessage m with
       | Throw msg => (l, SendRefused (CError (PlainError msg)))
       | Ok _ => (l <| sentCount := sentCount l + 1 |> <| outbox := outbox l ++ [m] |>, SentAt (length (outbox l)))
       end.

(** [stop(reason)], with the send it waits for. *)
Definition link_stop (reason : StopReason) (l : Link) : Link * option send_result :=
  if stopped l || ended l || (messagesPerSide <=? sentCount l) then (l, None)
  else
    let '(l, sending) := link_send (Stop reason) (l <| stopped := true |>) in
    (match sending with SentAt i => l <| stopping := Some i |> | SendRefused _ => l end, Some sending).

(** The exchange closes at once, or once the stop has gone. *)
Definition link_end (l : Link) : Link :=
  if ended l then l
  else
    let l := l <| ended := true |> in
    match stopping l with
    | Some i => if (i <? gone l)%nat then l <| exchange_closed := true |> else l
    | None => l <| exchange_closed := true |>
    end.

(** The oldest send on its way settles, either way. *)
Definition link_settles (l : Link) : Link :=
  if (gone l <? length (outbox l))%nat then
    let l := l <| gone := S (gone l) |> in
    if ended l && bool_decide (stopping l = Some (pred (gone l))) then l <| exchange_closed := true |> else l
  else l.

(** What [read] gives once the exchange has a payload: a message with its
    index, or a refusal that is to be answered with [stop] and thrown. *)
Inductive read_result : Type :=
  | Incoming (message : DirectMessage) (index : Z)
  | Refused (stop : StopReason) (error : DirectError).

Section Reading.
Context `{Unicode}.
(** [this.us] and [this.iceAllowlist]. *)
Context (us : Side) (allowlist : list jstr).

Definition them : Side := match us with page => drop | drop => page end.

Definition link_read (payload : bytes) (max : option Z) (l : Link) : Link * read_result :=
  let index := receivedCount l in
  let l := l <| receivedCount := index + 1 |> in
  match decodeMessage payload (mkDecodeContext them index allowlist max) with
  | Bad stop detail => (l, Refused stop (mkDirectError (match stop with unsupported => Unsupported | _ => Protocol end) detail))
  | Read m => (if is_stop m then l <| stopped := true |> else l, Incoming m index)
  end.
End Reading.

(** ** The discipline of a link *)

(** After a stop nothing is sent; a stop this end sent is its last message; the
    counts agree; the exchange stays open while a stop is on its way. *)
Record link_inv (l : Link) : Prop := {
  li_count : sentCount l = zlen (outbox l);
  li_bound : sentCount l <= messagesPerSide;
  li_gone : (gone l <= length (outbox l))%nat;
  li_received : 0 <= receivedCount l;
  li_stop : ∀ i m, outbox l !! i = Some m → is_stop m = true → stopped l = true ∧ stopping l = Some i ∧ length (outbox l) = S i;
  li_stopping : ∀ i, stopping l = Some i → ∃ m, outbox l !! i = Some m ∧ is_stop m = true;
  li_closed : exchange_closed l = true → ended l = true ∧ (∀ i, stopping l = Some i → (i < gone l)%nat);
  li_ended : ended l = true → exchange_closed l = false → ∃ i, stopping l = Some i ∧ (gone l <= i)%nat;
}.

Lemma link_start_inv : link_inv link_start.
Proof. split; cbn; try done. Qed.

(** A message that is no stop is only sent while nothing has stopped the link. *)
Lemma link_send_at m l l' i : link_send m l = (l', SentAt i) →
  ended l = false ∧ (stopped l = true → is_stop m = true) ∧ sentCount l < messagesPerSide ∧ i = length (outbox l) ∧
  l' = l <| sentCount := sentCount l + 1 |> <| outbox := outbox l ++ [m] |> ∧ ∃ b, encodeMessage m = Ok b.
Proof.
  unfold link_send. destruct (ended l); [done|]. destruct (stopped l && negb (is_stop m)) eqn:Es; [done|].
  destruct (messagesPerSide <=? sentCount l) eqn:Ec; [done|]. destruct (encodeMessage m) as [b|] eqn:Em; [|done].
  intros [= <- <-]. bool_prop. split_and!; try done; try lia; [|by exists b].
  intros Hs. rewrite Hs in Es. by apply andb_false_iff in Es as [?|?%negb_false_iff].
Qed.

Lemma link_send_refused m l l' e : link_send m l = (l', SendRefused e) → l' = l.
Proof. unfold link_send. repeat case_match; congruence. Qed.

Lemma link_send_inv m l : is_stop m = false → link_inv l → link_inv (link_send m l).1.
Proof.
  intros Hm Hi. destruct (link_send m l) as [l' [i|e]] eqn:E; cbn [fst]; [|by rewrite (link_send_refused _ _ _ _ E)].
  apply link_send_at in E as (He & Hs & Hc & -> & -> & _). destruct Hi as [Hcnt Hb Hg Hr Hst Hsp Hcl Hen].
  assert (stopped l = false) as Hns by (destruct (stopped l); [by rewrite Hm in Hs; specialize (Hs eq_refl)|done]).
  split; cbn; rewrite ?length_app; cbn; try done; try lia.
  - rewrite zlen_app, Hcnt. done.
  - intros j m' Hj Hm'. apply lookup_app_Some in Hj as [Hj|[_ Hj]]; [destruct (Hst j m' Hj Hm'); congruence|].
    apply list_lookup_singleton_Some in Hj as [_ <-]. congruence.
  - intros j Hj. destruct (Hsp j Hj) as (m' & Hm' & ?). exists m'. split; [by apply lookup_app_l_Some|done].
Qed.

Lemma link_stop_inv reason l : link_inv l → link_inv (link_stop reason l).1.
Proof.
  intros Hi. unfold link_stop. destruct (stopped l || ended l || (messagesPerSide <=? sentCount l)) eqn:Eg; [done|]. bool_prop.
  match goal with |- context [link_send ?m ?l] => destruct (link_send m l) as [l' [i|e]] eqn:E end; cbn [fst].
  - apply link_send_at in E as (He & _ & Hc & -> & -> & _). cbn in *. destruct Hi as [Hcnt Hb Hg Hr Hst Hsp Hcl Hen].
    split; cbn; rewrite ?length_app; cbn; try done; try lia.
    + rewrite zlen_app, Hcnt. done.
    + intros j m' Hj Hm'. apply lookup_app_Some in Hj as [Hj|[Hge Hj]]; [destruct (Hst j m' Hj Hm'); congruence|].
      apply list_lookup_singleton_Some in Hj as [Hz _]. assert (j = length (outbox l)) as -> by lia. split_and!; [done|done|lia].
    + intros j [= <-]. exists (Stop reason). by rewrite lookup_app_r, Nat.sub_diag by lia.
    + intros Hx. destruct (Hcl Hx). congruence.
    + congruence.
  - apply link_send_refused in E as ->. destruct Hi as [Hcnt Hb Hg Hr Hst Hsp Hcl Hen]. split; cbn; try done.
    intros j m' Hj Hm'. destruct (Hst j m' Hj Hm') as (? & ? & ?). congruence.
Qed.

Lemma link_end_inv l : link_inv l → link_inv (link_end l).
Proof.
  intros Hi. unfold link_end. destruct (ended l) eqn:Ee; [done|]. cbn -[Nat.ltb]. destruct Hi as [Hcnt Hb Hg Hr Hst Hsp Hcl Hen].
  destruct (stopping l) as [i|] eqn:Es; [destruct (i <? gone l)%nat eqn:Ei|]; split; cbn; rewrite ?Es; try done; rewrite ?Es in *; try done.
  - intros _. split; [done|]. intros j [= <-]. by apply Nat.ltb_lt.
  - intros Hx. destruct (Hcl Hx) as [Hx' _]. congruence.
  - intros _ _. exists i. split; [done|]. by apply Nat.ltb_ge.
Qed.

Lemma link_settles_inv l : link_inv l → link_inv (link_settles l).
Proof.
  intros Hi. unfold link_settles. destruct (gone l <? length (outbox l))%nat eqn:Eg; [|done]. apply Nat.ltb_lt in Eg. cbn.
  destruct Hi as [Hcnt Hb Hg Hr Hst Hsp Hcl Hen]. destruct (ended l) eqn:Ee; cbn; [case_bool_decide as Es|].
  - split; cbn; try done; try lia; rewrite ?Ee; try done. intros _. split; [done|]. intros i Hi'. assert (i = gone l) as -> by congruence. lia.
  - split; cbn; try done; try lia; rewrite ?Ee; try done.
    + intros Hx. destruct (Hcl Hx) as [_ Hy]. split; [done|]. intros i Hi'. specialize (Hy i Hi'). lia.
    + intros _ Hx. destruct (Hen eq_refl Hx) as (i & Hi' & Hle). exists i. split; [done|].
      assert (gone l ≠ i) by congruence. lia.
  - split; cbn; try done; try lia; rewrite ?Ee; try done. intros Hx. destruct (Hcl Hx) as [Hy _]. congruence.
Qed.

Lemma link_read_inv `{Unicode} us allowlist payload max l : link_inv l → link_inv (link_read us allowlist payload max l).1.
Proof.
  intros Hi. unfold link_read. destruct Hi as [Hcnt Hb Hg Hr Hst Hsp Hcl Hen].
  destruct (decodeMessage _ _) as [m|stop detail]; [destruct (is_stop m)|]; split; cbn; try done; try lia;
    intros j m' Hj Hm'; destruct (Hst j m' Hj Hm') as (? & ? & ?); done.
Qed.
