(* ===== verification/LinkFacts.v ===== *)
(** * What a link may hold

    The order of messages a side keeps to, as a predicate of its link, and the
    moves of a link that keep it: sending a message that may stand there,
    stopping, ending, reading, and a send settling. Both sessions are proved
    against these lemmas. *)

From S2P Require Import Prelude JsString Utf8 Bytes Json Security DirectConfig Messages MessageFacts Failure DirectLink.

(** ** What a link may hold *)

(** The discipline of a link, and every message one the other side takes there. *)
Definition speaks (ok : Z → list jstr) (l : Link) : Prop :=
  link_inv l ∧ ∀ i m, outbox l !! i = Some m → event_of m ∈ ok (Z.of_nat i).

(** A move of the link that sends nothing but a stop. *)
Record quiet (ok : Z → list jstr) (l l' : Link) : Prop := {
  q_speaks : speaks ok l → speaks ok l';
  q_inv : link_inv l → link_inv l';
  q_stopped : stopped l = true → stopped l' = true;
  q_count : stopped l' = false → sentCount l' = sentCount l;
  q_ended : ended l = true → ended l' = true;
}.

Lemma quiet_refl ok l : quiet ok l l.
Proof. by split. Qed.

Lemma quiet_trans ok l l' l'' : quiet ok l l' → quiet ok l' l'' → quiet ok l l''.
Proof.
  intros [] []. split; auto. intros Hs. assert (stopped l' = false) by (destruct (stopped l') eqn:E; [|done]; rewrite q_stopped1 in Hs; done).
  rewrite q_count1, q_count0; done.
Qed.

(** A rule of the protocol under which a stop may take any place. *)
Class Stoppable (ok : Z → list jstr) : Prop :=
  stop_allowed : ∀ reason i, 0 <= i < messagesPerSide → event_of (Stop reason) ∈ ok i.

#[export] Instance page_stoppable : Stoppable (allowedEvents page).
Proof.
  intros reason i [Hl Hu]. unfold allowedEvents, messagesPerSide, restarts in *. cbn [event_of].
  rewrite (proj2 (Z.ltb_ge i 0)), (proj2 (Z.leb_gt 8 i)) by lia. cbn [orb].
  destruct (i =? 0); [set_solver|]. destruct (i =? 1); [set_solver|]. destruct (i <=? 1 + 5); set_solver.
Qed.

(** What Drop's session may send: what the page takes there, or a stop in the
    place of the invitation. *)
Definition drop_events (i : Z) : list jstr := if i =? 0 then [lit "invite"; lit "stop"] else allowedEvents drop i.

#[export] Instance drop_stoppable : Stoppable drop_events.
Proof.
  intros reason i [Hl Hu]. unfold drop_events, allowedEvents, messagesPerSide, restarts in *. cbn [event_of].
  rewrite (proj2 (Z.ltb_ge i 0)), (proj2 (Z.leb_gt 8 i)) by lia. cbn [orb].
  destruct (i =? 0); [set_solver|]. destruct (i =? 1); [set_solver|]. destruct (i <=? 1 + 5); set_solver.
Qed.

Lemma speaks_send ok m l : (sentCount l < messagesPerSide → stopped l = false ∨ is_stop m = true → event_of m ∈ ok (sentCount l)) →
  link_inv (link_send m l).1 → speaks ok l → speaks ok (link_send m l).1.
Proof.
  intros Hm Hi' [Hi Ho]. split; [done|]. destruct (link_send m l) as [l' [i|e]] eqn:E; cbn [fst] in *; [|by rewrite (link_send_refused _ _ _ _ E)].
  apply link_send_at in E as (_ & Hs & Hc & -> & -> & _). cbn. intros j m' Hj. apply lookup_app_Some in Hj as [Hj|[Hge Hj]]; [auto|].
  apply list_lookup_singleton_Some in Hj as [Hz <-]. assert (Z.of_nat j = sentCount l) as ->.
  { rewrite (li_count l Hi). unfold zlen. lia. }
  apply Hm; [done|]. destruct (stopped l); auto.
Qed.

Lemma quiet_stop ok `{!Stoppable ok} reason l : quiet ok l (link_stop reason l).1.
Proof.
  unfold link_stop. destruct (stopped l || ended l || (messagesPerSide <=? sentCount l)) eqn:Eg; [apply quiet_refl|].
  pose proof (link_stop_inv reason l) as Hinv. unfold link_stop in Hinv. rewrite Eg in Hinv. bool_prop.
  match goal with |- context [link_send ?m ?l] => set (l1 := l) in *; set (m1 := m) in * end.
  destruct (link_send m1 l1) as [l' [i|e]] eqn:E; cbn [fst] in *.
  - pose proof E as E'. apply link_send_at in E' as (_ & _ & Hc & -> & -> & _). split; cbn; try done.
    intros [Hi Ho]. split; [by apply Hinv|]. cbn in *. intros j m' Hj. apply lookup_app_Some in Hj as [Hj|[Hge Hj]]; [auto|].
    apply list_lookup_singleton_Some in Hj as [Hz <-]. pose proof (li_count l Hi) as Hn. unfold zlen in Hn. unfold m1. apply stop_allowed. lia.
  - apply link_send_refused in E as ->. split; cbn; try done. intros [Hi Ho]. split; [by apply Hinv|done].
Qed.

Lemma quiet_end ok l : quiet ok l (link_end l).
Proof.
  split.
  - intros [Hi Ho]. split; [by apply link_end_inv|]. unfold link_end. destruct (ended l); [done|]. cbn -[Nat.ltb].
    destruct (stopping l); [destruct (_ <? _)%nat|]; done.
  - apply link_end_inv.
  - unfold link_end. destruct (ended l); [done|]. cbn -[Nat.ltb]. destruct (stopping l); [destruct (_ <? _)%nat|]; done.
  - unfold link_end. destruct (ended l); [done|]. cbn -[Nat.ltb]. destruct (stopping l); [destruct (_ <? _)%nat|]; done.
  - unfold link_end. intros E. by rewrite E.
Qed.

Lemma link_end_ended l : ended (link_end l) = true.
Proof. unfold link_end. destruct (ended l) eqn:E; [done|]. cbn -[Nat.ltb]. destruct (stopping l); [destruct (_ <? _)%nat|]; done. Qed.

Lemma quiet_settles ok l : quiet ok l (link_settles l).
Proof.
  split.
  - intros [Hi Ho]. split; [by apply link_settles_inv|]. unfold link_settles. destruct (_ <? _)%nat; [|done]. cbn. destruct (_ && _); done.
  - apply link_settles_inv.
  - unfold link_settles. destruct (_ <? _)%nat; [|done]. cbn. destruct (_ && _); done.
  - unfold link_settles. destruct (_ <? _)%nat; [|done]. cbn. destruct (_ && _); done.
  - unfold link_settles. destruct (_ <? _)%nat; [|done]. cbn. destruct (_ && _); done.
Qed.

Lemma quiet_read `{Unicode} ok us allowlist payload max l : quiet ok l (link_read us allowlist payload max l).1.
Proof.
  pose proof (link_read_inv us allowlist payload max l) as Hinv. unfold link_read in *.
  destruct (decodeMessage _ _) as [m|? ?]; [destruct (is_stop m)|]; split; cbn in *; try done; intros [Hi Ho]; (split; [by apply Hinv|done]).
Qed.

#[export] Hint Resolve quiet_refl quiet_end quiet_settles quiet_read : wild.

Lemma quiet_running ok l l' : quiet ok l l' → stopped l' = false → stopped l = false ∧ sentCount l' = sentCount l.
Proof. intros [] Hs. split; [|auto]. destruct (stopped l); [|done]. by rewrite q_stopped0 in Hs. Qed.

(** ** When the exchange closes *)

Lemma link_send_moves m l l' r : link_send m l = (l', r) → is_stop m = false → link_inv l → link_inv l'.
Proof. intros E Hm Hi. pose proof (link_send_inv m l Hm Hi) as H'. by rewrite E in H'. Qed.

(** All the sends that are on their way settle. *)
Definition sends_settle (l : Link) : Link := Nat.iter (length (outbox l) - gone l) link_settles l.

(** An ended link needs nothing more for its exchange to close. *)
Lemma link_closes l : link_inv l → ended l = true → exchange_closed (sends_settle l) = true.
Proof.
  unfold sends_settle. remember (length (outbox l) - gone l)%nat as k eqn:Hk. revert l Hk. induction k as [|k IH]; intros l Hk Hi He.
  - cbn. destruct (exchange_closed l) eqn:E; [done|]. destruct (li_ended l Hi He E) as (i & Hs & Hg).
    destruct (li_stopping l Hi i Hs) as (m & Hm & _). apply lookup_lt_Some in Hm. lia.
  - rewrite Nat.iter_succ_r. pose proof (link_settles_inv l Hi) as Hi'.
    assert (gone (link_settles l) = S (gone l) ∧ outbox (link_settles l) = outbox l ∧ ended (link_settles l) = true) as (G & O & E).
    { unfold link_settles. rewrite (proj2 (Nat.ltb_lt _ _)) by lia. cbn. by destruct (_ && _). }
    apply IH; [rewrite G, O; lia|done|done].
Qed.

(** What is said of an exchange once its session has settled. *)
Lemma link_settled l : link_inv l → ended l = true →
  (exchange_closed l = true ∨ ∃ i, stopping l = Some i ∧ (gone l <= i < length (outbox l))%nat) ∧ exchange_closed (sends_settle l) = true.
Proof.
  intros Hi He. split; [|by apply link_closes]. destruct (exchange_closed l) eqn:E; [by left|right].
  destruct (li_ended l Hi He E) as (i & Hs & Hg). exists i. split; [done|]. destruct (li_stopping l Hi i Hs) as (m & Hm & _).
  apply lookup_lt_Some in Hm. lia.
Qed.
