(* ===== verification/SendSession.v ===== *)
(** * The sending end of a session ([direct/session.ts], [SenderSession])

    The state of a session and everything that can happen to it: a call of its
    methods, the exchange, the encoder, the peer, the data channel and the
    transfer settling, and its timers. [main] is where the awaited method
    stands, [loop] where [answerRestarts] does. *)

From S2P Require Import Prelude JsString Utf8 Bytes Json Security DirectConfig Messages MessageFacts Failure DirectLink.
From S2P Require Import Peer.
From S2P Require Transfer Pacing Frames.

(** ** [watchConnection] *)

(** A timer variable: undefined, armed, or holding a timer that is done with. *)
Inductive timer : Type := Unset | Armed | Spent.

#[global] Instance timer_eq_dec : EqDecision timer.
Proof. solve_decision. Defined.

Record Watch := mkWatch {
  everConnected : bool; down : bool; watch_stopped : bool; connectTimer : timer; failedTimer : timer;
  watch_failed : option DirectError; reconnecting : list bool }.

#[export] Instance Watch_eta : Eta Watch := λ w,
  mkWatch (everConnected w) (down w) (watch_stopped w) (connectTimer w) (failedTimer w) (watch_failed w) (reconnecting w).

Definition clear_timer (t : timer) : timer := match t with Armed => Spent | t => t end.

(** [evaluate()], up to the call of [onState]. *)
Definition evaluate (state : PeerState) (w : Watch) : Watch :=
  if watch_stopped w then w
  else match state with
  | Connected =>
      w <| everConnected := true |> <| connectTimer := Unset |> <| failedTimer := Unset |>
        <| reconnecting := if down w then reconnecting w ++ [false] else reconnecting w |> <| down := false |>
  | Disconnected | Peer.PeerFailed =>
      w <| reconnecting := if everConnected w && negb (down w) then reconnecting w ++ [true] else reconnecting w |>
        <| down := true |>
        <| failedTimer := match state, failedTimer w with Peer.PeerFailed, Unset => Armed | _, t => t end |>
  | PeerClosed => w <| connectTimer := clear_timer (connectTimer w) |> <| failedTimer := clear_timer (failedTimer w) |>
  | New | Connecting => w
  end.

(** [watchConnection(peer, options)]: the connect timer runs, the state is looked at once. *)
Definition watchConnection (state : PeerState) : Watch :=
  evaluate state (mkWatch false false false Armed Unset None []).

Definition watch_stop (w : Watch) : Watch :=
  w <| watch_stopped := true |> <| connectTimer := clear_timer (connectTimer w) |> <| failedTimer := clear_timer (failedTimer w) |>.

Definition gave_up (w : Watch) : DirectError :=
  mkDirectError (if everConnected w then Lost else ConnectFailed) "The connection could not be restored.".

(** ** [announceEnd] *)

(** Whether handing this frame to the channel tells the page the end has left. *)
Definition announces_end (frame : bytes) : bool :=
  match frame with t :: _ => t =? Frames.type_end | [] => false end.

(** ** The session *)

Record ManifestInput := mkManifestInput { in_name : jstr; in_size : Z; in_type : jstr }.

Inductive outcome : Type := OutSent | OutDeclined | OutFailed (e : DirectError).

(** The [Refused] places wait for a stop to leave before they throw. *)
Inductive sender_main : Type :=
  | Created | ReadingInvite | Invited | SendingManifest (i : nat) | ReadingReply | Accepted
  | Refusing (i : nat) (e : DirectError)
  | Encoding (file_size : Z) | AnsweringOffer (key : jstr) | SendingAnswer (i : nat) | Joining | ReadingPath | Transferring
  | Draining (result : option DirectError) | Over (result : outcome).

Inductive sender_loop : Type :=
  | LoopOff | LoopReading | LoopRefusing (i : nat) (e : DirectError) | LoopWrongIndex (i : nat)
  | LoopAnswering | LoopSending (i : nat) | LoopOver.

(** What [createEnvelopeEncoder] and [createPeer] come to. *)
Inductive EnvelopeMade : Type := MadeOk (name type key : jstr) | MadeFailed (error : caught).
Inductive PeerMade : Type := PeerMadeAt (state : PeerState) | PeerHasNoRelay | PeerRefused (error : js_error).

Inductive hook : Type := OnConnecting | OnConnected | OnEndSent | OnPath (relayed : option bool).

Record SenderSession := mkSession {
  link : Link; watch : option Watch; path : option Pacing.PathWatch; reported : option bool;
  peer : option PeerState; invite : option (list IceServer * Z); manifest : option ManifestInput; offerSdp : option jstr;
  has_channel : bool; run : option bool; failure : option DirectError; restartsPossible : bool; finished : bool;
  main : sender_main; loop : sender_loop; flushing : bool; hooks : list hook }.

#[export] Instance SenderSession_eta : Eta SenderSession := λ s,
  mkSession (link s) (watch s) (path s) (reported s) (peer s) (invite s) (manifest s) (offerSdp s) (has_channel s) (run s)
    (failure s) (restartsPossible s) (finished s) (main s) (loop s) (flushing s) (hooks s).

Definition session_start : SenderSession :=
  mkSession link_start None None None None None None None false None None true false Created LoopOff false [].

Definition say (h : hook) (s : SenderSession) : SenderSession := s <| hooks := hooks s ++ [h] |>.

(** [this.failure ??= error]. *)
Definition record_failure (e : DirectError) (s : SenderSession) : SenderSession :=
  match failure s with Some _ => s | None => s <| failure := Some e |> end.

(** [this.peer?.close()]: the watcher hears of it. *)
Definition close_peer (s : SenderSession) : SenderSession :=
  match peer s with
  | None => s
  | Some _ => s <| peer := Some PeerClosed |> <| watch := option_map (evaluate PeerClosed) (watch s) |>
  end.

Definition close_session (s : SenderSession) : SenderSession :=
  let s := close_peer s in s <| link := link_end (link s) |>.

Definition abort_run (s : SenderSession) : SenderSession :=
  match run s with Some _ => s <| run := Some true |> | None => s end.

(** [this.watch?.giveUp()], with the session's own [giveUp] as [onGiveUp]. *)
Definition giveUp (s : SenderSession) : SenderSession :=
  match watch s with
  | None => s
  | Some w =>
      if watch_stopped w then s
      else
        let s := close_session (record_failure (gave_up w) s) in
        s <| watch := option_map (λ w, match watch_failed w with
                                       | Some _ => w
                                       | None => w <| watch_failed := failure s |>
                                       end) (watch s) |>
  end.

Definition stop_link (reason : StopReason) (s : SenderSession) : SenderSession * option send_result :=
  let '(l, r) := link_stop reason (link s) in (s <| link := l |>, r).

(** [end(error)]. *)
Definition end_session (error : caught) (s : SenderSession) : SenderSession * DirectError :=
  let e := failureForTransfer error in
  (match d_kind e with
   | Cancelled | TooBig => (stop_link cancelled s).1
   | Protocol | SourceFailed | Lost => (stop_link failed s).1
   | _ => s
   end, e).

(** [throw this.end(error)] out of [readInvite] or [offer]. *)
Definition throw_call (error : caught) (s : SenderSession) : SenderSession :=
  let '(s, e) := end_session error s in s <| main := Over (OutFailed e) |>.

(** The [finally] of [send], up to its [await drained]. *)
Definition leave (result : option DirectError) (s : SenderSession) : SenderSession :=
  s <| watch := option_map watch_stop (watch s) |> <| path := option_map Pacing.watch_stop (path s) |>
    <| main := Draining result |>.

(** The [catch] of [send]. *)
Definition throw_send (error : caught) (s : SenderSession) : SenderSession :=
  let '(s, e) := end_session (match failure s with Some f => CDirect f | None => error end) s in leave (Some e) s.

Definition fail (e : DirectError) (s : SenderSession) : SenderSession :=
  close_peer (abort_run (giveUp (record_failure e s))).

Definition noMoreRestarts (s : SenderSession) : SenderSession :=
  let s := s <| restartsPossible := false |> in
  if bool_decide (peer s = Some Peer.PeerFailed) then giveUp s else s.

(** [stop(reason, options)]. *)
Definition stop (reason : StopReason) (immediate : bool) (s : SenderSession) : SenderSession :=
  if finished s then s
  else
    let s := record_failure (direct_error (match reason with cancelled => Cancelled | _ => Protocol end)) s in
    let s := (stop_link reason (abort_run s)).1 in
    if immediate then close_session s else s <| flushing := true |>.

Section Session.
Context `{Unicode}.
(** [options.iceAllowlist]. *)
Context (allowlist : list jstr).

(** ** Reading *)

(** The start of [link.read()] for the awaited method and for the loop. *)
Definition read_for_main (place : sender_main) (s : SenderSession) : SenderSession :=
  if ended (link s) then throw_call (CDirect (mkDirectError Network "The exchange has ended.")) s
  else s <| main := place |>.

Definition fail_loop (e : DirectError) (s : SenderSession) : SenderSession :=
  fail e (s <| loop := LoopOver |>).

(** What the loop does with a read that threw. *)
Definition loop_read_failed (e : DirectError) (s : SenderSession) : SenderSession :=
  match d_kind e with
  | Protocol | Unsupported => fail_loop e s
  | _ => noMoreRestarts (s <| loop := LoopOver |>)
  end.

Definition read_for_loop (s : SenderSession) : SenderSession :=
  if ended (link s) then loop_read_failed (mkDirectError Network "The exchange has ended.") s
  else s <| loop := LoopReading |>.

Definition receive (payload : bytes) (max : option Z) (s : SenderSession) : SenderSession * read_result :=
  let '(l, r) := link_read page allowlist payload max (link s) in (s <| link := l |>, r).

Definition on_invite (r : read_result) (s : SenderSession) : SenderSession :=
  match r with
  | Incoming (Invite _ ice _ max) _ => s <| invite := Some (ice, max) |> <| main := Invited |>
  | Incoming _ _ => throw_call (CDirect (mkDirectError Protocol "The first message was not an invitation.")) s
  | Refused reason e =>
      match stop_link reason s with
      | (s, Some (SentAt i)) => s <| main := Refusing i e |>
      | (s, _) => throw_call (CDirect e) s
      end
  end.

Definition on_reply (r : read_result) (s : SenderSession) : SenderSession :=
  match r with
  | Incoming Decline _ => s <| link := link_end (link s) |> <| main := Over OutDeclined |>
  | Incoming (Stop reason) _ => throw_call (CDirect (direct_error (failureForPeerStop reason))) s
  | Incoming (Accept sdp) _ => s <| offerSdp := Some sdp |> <| main := Accepted |>
  | Incoming _ _ => throw_call (CDirect (mkDirectError Protocol "Expected an accept or a decline.")) s
  | Refused reason e =>
      match stop_link reason s with
      | (s, Some (SentAt i)) => s <| main := Refusing i e |>
      | (s, _) => throw_call (CDirect e) s
      end
  end.

Definition wrong_index : DirectError := mkDirectError Protocol "A restart at the wrong index.".

(** One turn of [answerRestarts] on what was read. *)
Definition on_restart (r : read_result) (s : SenderSession) : SenderSession :=
  match r with
  | Incoming (Stop reason) _ => fail_loop (direct_error (failureForPeerStop reason)) s
  | Incoming m index =>
      if (match m with Restart _ => true | _ => false end) && (index =? sentCount (link s))
      then s <| loop := LoopAnswering |>
      else match stop_link failed s with
           | (s, Some (SentAt i)) => s <| loop := LoopWrongIndex i |>
           | (s, _) => fail_loop wrong_index s
           end
  | Refused reason e =>
      match stop_link reason s with
      | (s, Some (SentAt i)) => s <| loop := LoopRefusing i e |>
      | (s, _) => loop_read_failed e s
      end
  end.

(** The [catch] around a restart's answer. *)
Definition answer_failed (error : caught) (s : SenderSession) : SenderSession :=
  let e := exchangeFailure error in
  match d_kind e with
  | Network | Expired => noMoreRestarts (s <| loop := LoopOver |>)
  | _ => fail_loop e s
  end.

(** ** The methods *)

Definition offer (m : ManifestInput) (s : SenderSession) : SenderSession :=
  match invite s with
  | None => s
  | Some (_, max) =>
      if max <? in_size m then throw_call (CDirect (mkDirectError TooBig "The file is larger than the receiver allows.")) s
      else
        match link_send (Manifest (in_name m) (in_size m) (in_type m)) (link s) with
        | (l, SentAt i) => s <| manifest := Some m |> <| link := l |> <| main := SendingManifest i |>
        | (l, SendRefused error) => throw_call error (s <| manifest := Some m |> <| link := l |>)
        end
  end.

(** [createEnvelopeEncoder] has its answer: the metadata and the key, or an
    error; [created] is what [createPeer] does then. *)
Definition encoder_made (file_size : Z) (made : EnvelopeMade) (created : PeerMade) (s : SenderSession) : SenderSession :=
  match made with
  | MadeFailed error => throw_send error s
  | MadeOk name type key =>
      match manifest s with
      | None => s
      | Some m =>
          if negb (eqb name (in_name m)) || negb (eqb type (in_type m)) || negb (file_size =? in_size m)
          then throw_send (CDirect (mkDirectError SourceFailed "The file does not match its manifest.")) s
          else match created with
               | PeerHasNoRelay => throw_send (CDirect (direct_error NoRelay)) s
               | PeerRefused error => throw_send (CError error) s
               | PeerMadeAt state =>
                   s <| peer := Some state |> <| path := Some Pacing.watchPath |> <| watch := Some (watchConnection state) |>
                     <| main := AnsweringOffer key |>
               end
      end
  end.

(** The peer has answered the first offer. *)
Definition peer_answers (key sdp : jstr) (s : SenderSession) : SenderSession :=
  match link_send (Answer key sdp) (link s) with
  | (l, SentAt i) => s <| link := l |> <| main := SendingAnswer i |>
  | (l, SendRefused error) => throw_send error (s <| link := l |>)
  end.

(** The answer has gone: look for a path, and listen for restarts. *)
Definition answer_gone (s : SenderSession) : SenderSession :=
  read_for_loop (say OnConnecting (s <| main := Joining |>)).

Definition restart_answered (sdp : jstr) (s : SenderSession) : SenderSession :=
  match link_send (RestartAnswer sdp) (link s) with
  | (l, SentAt i) => s <| link := l |> <| loop := LoopSending i |>
  | (l, SendRefused error) => answer_failed error (s <| link := l |>)
  end.

(** Who waits for the send at [i], and how it goes on. *)
Definition main_settled (i : nat) (error : option js_error) (s : SenderSession) : SenderSession :=
  let thrown e := CDirect (exchangeFailure (CError e)) in
  match main s with
  | SendingManifest j =>
      if (i =? j)%nat then
        match error with Some e => throw_call (thrown e) s | None => read_for_main ReadingReply s end
      else s
  | SendingAnswer j =>
      if (i =? j)%nat then match error with Some e => throw_send (thrown e) s | None => answer_gone s end else s
  | Refusing j e => if (i =? j)%nat then throw_call (CDirect e) s else s
  | _ => s
  end.

Definition loop_settled (settleLooks : nat) (i : nat) (error : option js_error) (s : SenderSession) : SenderSession :=
  match loop s with
  | LoopSending j =>
      if (i =? j)%nat then
        match error with
        | Some e => answer_failed (CDirect (exchangeFailure (CError e))) s
        | None => read_for_loop (s <| path := option_map (Pacing.afterRestart settleLooks) (path s) |>)
        end
      else s
  | LoopRefusing j e => if (i =? j)%nat then loop_read_failed e s else s
  | LoopWrongIndex j => if (i =? j)%nat then fail_loop wrong_index s else s
  | _ => s
  end.

(** The exchange's oldest send settles; whoever waits for it goes on. *)
Definition exchange_settles (settleLooks : nat) (error : option js_error) (s : SenderSession) : SenderSession :=
  let i := gone (link s) in
  if (i <? length (outbox (link s)))%nat then
    loop_settled settleLooks i error (main_settled i error (s <| link := link_settles (link s) |>))
  else s.

(** The connection changes state: [evaluate], then [onState]. *)
Definition peer_changes (state : PeerState) (s : SenderSession) : SenderSession :=
  match peer s with
  | None | Some PeerClosed => s
  | Some _ =>
      let s := s <| peer := Some state |> in
      match watch s with
      | Some w =>
          if watch_stopped w then s
          else
            let s := s <| watch := Some (evaluate state w) |> in
            if bool_decide (state = Connected) then s <| path := option_map Pacing.refresh (path s) |> else s
      | None => s
      end
  end.

(** The path watcher's [apply]. *)
Definition path_applies (relayed : bool) (s : SenderSession) : SenderSession :=
  if bool_decide (reported s = Some relayed) then s else say (OnPath (Some relayed)) (s <| reported := Some relayed |>).

(** ** Everything that happens to a session *)

Inductive send_event : Type :=
  | CallReadInvite | CallOffer (m : ManifestInput) | CallSend (file_size : Z)
  | StopCalled (reason : StopReason) (immediate : bool) | CloseCalled | FlushDone
  | ReadSettles (payload : bytes) | ReadFails (error : js_error) | ReadEnds
  | ExchangeSettles (error : option js_error)
  | EncoderMade (made : EnvelopeMade) (created : PeerMade)
  | PeerAnswers (sdp : jstr) | PeerRefuses (error : js_error)
  | RestartAnswered (sdp : jstr) | RestartRefused (error : js_error)
  | PeerChanges (state : PeerState)
  | ChannelOpens | ChannelFails (error : js_error) | WatchFails | PathRead | PathApplies (relayed : bool)
  | FrameSent (frame : bytes) | TransferSettles (error : option caught)
  | ConnectTimerFires | FailedTimerFires | Drained.

(** A read that ended or failed, for whoever reads. *)
Definition read_throws (error : caught) (s : SenderSession) : SenderSession :=
  let e := exchangeFailure error in
  match main s with
  | ReadingInvite | ReadingReply => throw_call (CDirect e) s
  | _ => match loop s with LoopReading => loop_read_failed e s | _ => s end
  end.

(** [setTimeout(giveUp, ...)] fires. *)
Definition timer_fires (get : Watch → timer) (spend : Watch → Watch) (s : SenderSession) : SenderSession :=
  match watch s with
  | Some w => if bool_decide (get w = Armed) then giveUp (s <| watch := Some (spend w) |>) else s
  | None => s
  end.

Definition send_step (settleLooks : nat) (s : SenderSession) (e : send_event) : SenderSession :=
  match e, main s with
  | CallReadInvite, Created => read_for_main ReadingInvite s
  | CallOffer m, Invited => offer m s
  | CallSend file_size, Accepted => s <| run := Some false |> <| main := Encoding file_size |>
  | StopCalled reason immediate, _ => stop reason immediate s
  | CloseCalled, _ => close_session s
  | FlushDone, _ => if flushing s then close_session (s <| flushing := false |>) else s
  | ReadSettles payload, ReadingInvite => let '(s, r) := receive payload None s in on_invite r s
  | ReadSettles payload, ReadingReply => let '(s, r) := receive payload None s in on_reply r s
  | ReadSettles payload, _ =>
      match loop s with LoopReading => let '(s, r) := receive payload None s in on_restart r s | _ => s end
  | ReadFails error, _ => read_throws (CError error) s
  | ReadEnds, _ =>
      if ended (link s) then read_throws (CDirect (mkDirectError Network "The exchange has ended.")) s else s
  | ExchangeSettles error, _ => exchange_settles settleLooks error s
  | EncoderMade made created, Encoding file_size => encoder_made file_size made created s
  | PeerAnswers sdp, AnsweringOffer key => peer_answers key sdp s
  | PeerRefuses error, AnsweringOffer _ => throw_send (CError error) s
  | RestartAnswered sdp, _ => match loop s with LoopAnswering => restart_answered sdp s | _ => s end
  | RestartRefused error, _ => match loop s with LoopAnswering => answer_failed (CError error) s | _ => s end
  | PeerChanges state, _ => peer_changes state s
  | ChannelOpens, Joining => s <| has_channel := true |> <| path := option_map Pacing.refresh (path s) |> <| main := ReadingPath |>
  | ChannelFails error, Joining => throw_send (CError error) s
  | WatchFails, (Joining | ReadingPath | Transferring) =>
      match watch s ≫= watch_failed with Some e => throw_send (CDirect e) s | None => s end
  | PathRead, ReadingPath => say OnConnected (s <| main := Transferring |>)
  | PathApplies relayed, _ => if bool_decide (is_Some (path s)) then path_applies relayed s else s
  | FrameSent frame, Transferring => if announces_end frame then say OnEndSent s else s
  | TransferSettles None, Transferring => leave None (s <| finished := true |>)
  | TransferSettles (Some error), Transferring => throw_send error s
  | ConnectTimerFires, _ => timer_fires connectTimer (λ w, w <| connectTimer := Spent |>) s
  | FailedTimerFires, _ => timer_fires failedTimer (λ w, w <| failedTimer := Spent |>) s
  | Drained, Draining result =>
      let s := close_session s in
      s <| main := Over (match result with None => OutSent | Some e => OutFailed e end) |>
  | _, _ => s
  end.

Definition send_run (settleLooks : nat) (s : SenderSession) (events : list send_event) : SenderSession :=
  foldl (send_step settleLooks) s events.
End Session.
