(* ===== verification/SendSessionFacts.v ===== *)
(** * The sending session keeps to the protocol

    What the session's own operations do to the link and to its places, and the
    properties of [SenderSession]. *)

From S2P Require Import Prelude JsString Utf8 Bytes Json Security DirectConfig Messages MessageFacts Failure DirectLink LinkFacts Peer.
From S2P Require Import SendSession.
From S2P Require Transfer Pacing Frames.

(** ** What the session's helpers leave alone *)

Notation page_quiet := (quiet (allowedEvents page)).

(** Both the exchange and the connection are done with. *)
Definition shut (s : SenderSession) : Prop := ended (link s) = true ∧ (peer s = None ∨ peer s = Some PeerClosed).

(** A change that opens nothing and finishes nothing. *)
Record still (s s' : SenderSession) : Prop := {
  st_finished : finished s' = finished s;
  st_run : run s' = None ↔ run s = None;
  st_shut : shut s → shut s';
}.

(** A change that moves no place and sends nothing but a stop. *)
Record calm (s s' : SenderSession) : Prop := {
  c_link : page_quiet (link s) (link s');
  c_main : main s' = main s;
  c_loop : loop s' = loop s;
  c_still : still s s';
}.

Lemma still_refl s : still s s.
Proof. by split. Qed.
Lemma still_trans s s' s'' : still s s' → still s' s'' → still s s''.
Proof. intros [] []. split; [congruence|by etransitivity|auto]. Qed.

Lemma calm_refl s : calm s s.
Proof. split; auto using still_refl with wild. Qed.
Lemma calm_trans s s' s'' : calm s s' → calm s' s'' → calm s s''.
Proof. intros [] []. split; [by eapply quiet_trans|congruence..|by eapply still_trans]. Qed.

Ltac still_field := split; cbn; [done|done|unfold shut; cbn; first [tauto|intros [? ?]; split; auto using link_end_ended]].
Ltac calm_field := split; cbn; [auto with wild|done|done|still_field].

Lemma calm_record e s : calm s (record_failure e s).
Proof. unfold record_failure. destruct (failure s); [apply calm_refl|calm_field]. Qed.
Lemma calm_close_peer s : calm s (close_peer s).
Proof. unfold close_peer. destruct (peer s); [calm_field|apply calm_refl]. Qed.
Lemma calm_close s : calm s (close_session s).
Proof. unfold close_session. eapply calm_trans; [apply calm_close_peer|calm_field]. Qed.
Lemma calm_abort s : calm s (abort_run s).
Proof.
  unfold abort_run. destruct (run s) eqn:E; [|apply calm_refl]. split; cbn; [auto with wild|done|done|].
  split; cbn; [done|by rewrite E|done].
Qed.
Lemma calm_giveUp s : calm s (giveUp s).
Proof.
  unfold giveUp. destruct (watch s) as [w|]; [|apply calm_refl]. destruct (watch_stopped w); [apply calm_refl|].
  eapply calm_trans; [apply (calm_record (gave_up w))|]. eapply calm_trans; [apply calm_close|calm_field].
Qed.
Lemma calm_with_link l s : page_quiet (link s) l → calm s (s <| link := l |>).
Proof. intros Hq. split; cbn; try done. split; cbn; try done. intros [? ?]. split; cbn; [|done]. by apply (q_ended _ _ _ Hq). Qed.
Lemma calm_stop_link reason s : calm s (stop_link reason s).1.
Proof.
  unfold stop_link. assert (page_quiet (link s) (link_stop reason (link s)).1) as Hq by (exact (quiet_stop _ reason _)).
  destruct (link_stop reason (link s)) as [l r]. by apply calm_with_link.
Qed.
Lemma calm_end error s : calm s (end_session error s).1.
Proof. unfold end_session. cbn [fst]. destruct (d_kind _); try apply calm_refl; apply calm_stop_link. Qed.
Lemma calm_fail e s : calm s (fail e s).
Proof.
  unfold fail. eapply calm_trans; [apply (calm_record e)|]. eapply calm_trans; [apply calm_giveUp|].
  eapply calm_trans; [apply calm_abort|apply calm_close_peer].
Qed.
Lemma calm_no_more s : calm s (noMoreRestarts s).
Proof. unfold noMoreRestarts. eapply calm_trans; [|case_bool_decide; [apply calm_giveUp|apply calm_refl]]. calm_field. Qed.
Lemma calm_stop reason immediate s : calm s (stop reason immediate s).
Proof.
  unfold stop. destruct (finished s); [apply calm_refl|]. eapply calm_trans; [apply calm_record|]. eapply calm_trans; [apply calm_abort|].
  eapply calm_trans; [apply (calm_stop_link reason)|]. destruct immediate; [apply calm_close|calm_field].
Qed.
Lemma calm_say h s : calm s (say h s).
Proof. calm_field. Qed.
Lemma calm_peer_changes state s : calm s (peer_changes state s).
Proof.
  unfold peer_changes. destruct (decide (peer s = None ∨ peer s = Some PeerClosed)) as [[-> | ->]|Hp]; try apply calm_refl.
  assert (calm s (s <| peer := Some state |>)) as Hc.
  { split; cbn; auto with wild. split; cbn; try done. by intros [_ ?]. }
  assert (calm s match watch (s <| peer := Some state |>) with
                 | Some w => if watch_stopped w then s <| peer := Some state |>
                             else let s := s <| peer := Some state |> <| watch := Some (evaluate state w) |> in
                                  if bool_decide (state = Connected) then s <| path := option_map Pacing.refresh (path s) |> else s
                 | None => s <| peer := Some state |>
                 end) as Hall.
  { destruct (watch (s <| peer := Some state |>)) as [w|]; [|exact Hc]. destruct (watch_stopped w); [exact Hc|]. cbn zeta.
    eapply calm_trans; [exact Hc|]. case_bool_decide; calm_field. }
  destruct (peer s) as [[]|]; try exact Hall; apply calm_refl.
Qed.
Lemma calm_path relayed s : calm s (path_applies relayed s).
Proof. unfold path_applies. case_bool_decide; [apply calm_refl|calm_field]. Qed.
Lemma calm_timer get spend s : calm s (timer_fires get spend s).
Proof.
  unfold timer_fires. destruct (watch s) as [w|]; [|apply calm_refl]. case_bool_decide; [|apply calm_refl].
  eapply calm_trans; [|apply calm_giveUp]. calm_field.
Qed.

(** ** The invariant *)

(** How many messages have been sent at each place, while nothing has stopped
    the link, and where the loop may be. *)
Definition phase_ok (s : SenderSession) : Prop :=
  match main s with
  | Created | ReadingInvite | Invited => loop s = LoopOff ∧ (stopped (link s) = false → sentCount (link s) = 0)
  | SendingManifest _ | ReadingReply | Accepted | Encoding _ | AnsweringOffer _ =>
      loop s = LoopOff ∧ (stopped (link s) = false → sentCount (link s) = 1)
  | SendingAnswer _ => loop s = LoopOff ∧ (stopped (link s) = false → sentCount (link s) = 2)
  | Refusing _ _ => loop s = LoopOff
  | Joining | ReadingPath | Transferring | Draining _ | Over _ => True
  end.

Record session_inv (s : SenderSession) : Prop := {
  si_link : speaks (allowedEvents page) (link s);
  si_phase : phase_ok s;
  si_answering : loop s = LoopAnswering → stopped (link s) = false → 2 <= sentCount (link s) <= 6;
}.

Lemma calm_inv s s' : calm s s' → session_inv s → session_inv s'.
Proof.
  intros [Hq Hm Hl _] [Hlk Hp Ha]. pose proof (quiet_running _ _ _ Hq) as Hr. split.
  - by apply Hq.
  - unfold phase_ok in *. rewrite Hm, Hl. destruct (main s); try done; destruct Hp as [Hp Hc]; (split; [done|]);
      intros Hs; destruct (Hr Hs) as [Hs' ->]; auto.
  - rewrite Hl. intros Hans Hs. destruct (Hr Hs) as [Hs' ->]. auto.
Qed.

(** The method ends: nothing is left of the phase to keep. *)
Lemma over_inv s s' m : calm s s' → (match m with Draining _ | Over _ | Joining | ReadingPath | Transferring => True | _ => False end) →
  session_inv s → session_inv (s' <| main := m |>).
Proof.
  intros Hc Hm Hi. pose proof (calm_inv _ _ Hc Hi) as [H1 H2 H3]. split; cbn; [done| |done]. unfold phase_ok; cbn. by destruct m.
Qed.

Lemma throw_call_inv error s : session_inv s → session_inv (throw_call error s).
Proof.
  intros Hi. unfold throw_call. pose proof (calm_end error s) as Hc. destruct (end_session error s) as [s' e]. by eapply over_inv.
Qed.

Lemma leave_inv result s s' : calm s s' → session_inv s → session_inv (leave result s').
Proof.
  intros Hc Hi. unfold leave. eapply over_inv; [|done|exact Hi]. eapply calm_trans; [exact Hc|calm_field].
Qed.

Lemma throw_send_inv error s : session_inv s → session_inv (throw_send error s).
Proof.
  intros Hi. unfold throw_send. match goal with |- context [end_session ?c s] => pose proof (calm_end c s) as Hc; destruct (end_session c s) as [s' e] end.
  by eapply leave_inv.
Qed.

(** The loop moves to a place other than answering. *)
Lemma loop_inv s s' p : calm s s' → p ≠ LoopAnswering → loop s ≠ LoopOff → session_inv s → session_inv (s' <| loop := p |>).
Proof.
  intros Hc Hp Ho Hi. pose proof (calm_inv _ _ Hc Hi) as [H1 H2 H3]. destruct Hc as [_ _ Hl _]. split; cbn; [done| |done].
  unfold phase_ok in *; cbn. destruct (main s'); try done; first [destruct H2 as [H2 _]|idtac]; congruence.
Qed.

Lemma fail_loop_inv e s : loop s ≠ LoopOff → session_inv s → session_inv (fail_loop e s).
Proof. intros Ho Hi. unfold fail_loop. eapply calm_inv; [apply calm_fail|]. eapply loop_inv; [apply calm_refl|done..]. Qed.

Lemma loop_over_inv s : loop s ≠ LoopOff → session_inv s → session_inv (noMoreRestarts (s <| loop := LoopOver |>)).
Proof. intros Ho Hi. eapply calm_inv; [apply calm_no_more|]. eapply loop_inv; [apply calm_refl|done..]. Qed.

Lemma loop_read_failed_inv e s : loop s ≠ LoopOff → session_inv s → session_inv (loop_read_failed e s).
Proof.
  intros Ho Hi. unfold loop_read_failed. destruct (d_kind e); first [by apply fail_loop_inv|by apply loop_over_inv].
Qed.

Lemma answer_failed_inv error s : loop s ≠ LoopOff → session_inv s → session_inv (answer_failed error s).
Proof.
  intros Ho Hi. unfold answer_failed. destruct (d_kind _); first [by apply fail_loop_inv|by apply loop_over_inv].
Qed.

(** ** Every step *)

Section Steps.
Context `{Unicode} (allowlist : list jstr).

Lemma calm_receive payload max s : calm s (receive allowlist payload max s).1.
Proof.
  unfold receive. pose proof (quiet_read (allowedEvents page) page allowlist payload max (link s)) as Hq.
  destruct (link_read page allowlist payload max (link s)) as [l r]. by apply calm_with_link.
Qed.

(** What was read at an index was allowed there. *)
Lemma receive_allowed payload max s s' m index : bytes_ok payload → receive allowlist payload max s = (s', Incoming m index) →
  event_of m ∈ allowedEvents drop index.
Proof.
  intros Hb. unfold receive, link_read. destruct (decodeMessage _ _) as [m'|] eqn:E; [|done]. intros [= <- <- <-].
  by apply decoded_ok in E as [_ [? _]].
Qed.

Lemma restart_index index : lit "restart" ∈ allowedEvents drop index → 2 <= index <= 6.
Proof.
  unfold allowedEvents, messagesPerSide, restarts. destruct ((index <? 0) || (8 <=? index)) eqn:E; [set_solver|]. bool_prop.
  destruct (index =? 0) eqn:E0; [intros Hin; by apply list_elem_of_singleton in Hin|].
  destruct (index =? 1) eqn:E1; [intros Hin; exfalso; by repeat (apply elem_of_cons in Hin as [Hin|Hin]; [done|]); inversion Hin|].
  destruct (index <=? 1 + 5) eqn:E2; bool_prop; [lia|]. intros Hin. by apply list_elem_of_singleton in Hin.
Qed.

Lemma read_for_main_inv place s : session_inv s → phase_ok (s <| main := place |>) → session_inv (read_for_main place s).
Proof.
  intros Hi Hp. unfold read_for_main. destruct (ended (link s)); [by apply throw_call_inv|]. destruct Hi. by split.
Qed.

Lemma read_for_loop_inv s : loop s ≠ LoopOff → session_inv s → session_inv (read_for_loop s).
Proof.
  intros Ho Hi. unfold read_for_loop. destruct (ended (link s)); [by apply loop_read_failed_inv|].
  eapply loop_inv; [apply calm_refl|done..].
Qed.

(** A refused message: the stop, then the place that waits for it or the throw. *)
Lemma refusal_inv reason e s : session_inv s → loop s = LoopOff →
  session_inv (match stop_link reason s with
               | (s, Some (SentAt i)) => s <| main := Refusing i e |>
               | (s, _) => throw_call (CDirect e) s
               end).
Proof.
  intros Hi Ho. pose proof (calm_stop_link reason s) as Hc. destruct (stop_link reason s) as [s' r]. cbn [fst] in Hc.
  pose proof (calm_inv _ _ Hc Hi) as Hi'. destruct r as [[i|er]|]; try by apply throw_call_inv.
  destruct Hi' as [H1 H2 H3]. split; cbn; [done| |done]. unfold phase_ok; cbn. by rewrite (c_loop _ _ Hc).
Qed.

Lemma on_invite_inv r s : main s = ReadingInvite → session_inv s → session_inv (on_invite r s).
Proof.
  intros Hm Hi. assert (loop s = LoopOff ∧ (stopped (link s) = false → sentCount (link s) = 0)) as [Ho Hc].
  { destruct Hi as [_ Hp _]. unfold phase_ok in Hp. by rewrite Hm in Hp. }
  unfold on_invite. destruct r as [m index|reason e]; [|by apply refusal_inv].
  destruct m; try by apply throw_call_inv. destruct Hi as [H1 H2 H3]. split; cbn; done.
Qed.

Lemma on_reply_inv r s : main s = ReadingReply → session_inv s → session_inv (on_reply r s).
Proof.
  intros Hm Hi. assert (loop s = LoopOff ∧ (stopped (link s) = false → sentCount (link s) = 1)) as [Ho Hc].
  { destruct Hi as [_ Hp _]. unfold phase_ok in Hp. by rewrite Hm in Hp. }
  unfold on_reply. destruct r as [m index|reason e]; [|by apply refusal_inv].
  destruct m; try by apply throw_call_inv.
  - destruct Hi as [H1 H2 H3]. split; cbn; done.
  - eapply (over_inv s); [|done|done]. calm_field.
Qed.

Lemma loop_refusal_inv reason (place : nat → sender_loop) (k : SenderSession → SenderSession) s :
  session_inv s → loop s ≠ LoopOff → (∀ i, place i ≠ LoopAnswering) → (∀ s, loop s ≠ LoopOff → session_inv s → session_inv (k s)) →
  session_inv (match stop_link reason s with (s, Some (SentAt i)) => s <| loop := place i |> | (s, _) => k s end).
Proof.
  intros Hi Ho Hp Hk. pose proof (calm_stop_link reason s) as Hc. destruct (stop_link reason s) as [s' r]. cbn [fst] in Hc.
  pose proof (calm_inv _ _ Hc Hi) as Hi'. assert (loop s' ≠ LoopOff) by (by rewrite (c_loop _ _ Hc)).
  destruct r as [[i|er]|]; auto. eapply loop_inv; [apply calm_refl|done..].
Qed.

Lemma on_restart_inv r s : (∀ m index, r = Incoming m index → event_of m ∈ allowedEvents drop index) →
  loop s = LoopReading → session_inv s → session_inv (on_restart r s).
Proof.
  intros Hr Ho Hi. assert (loop s ≠ LoopOff) as Ho' by (by rewrite Ho).
  unfold on_restart. destruct r as [m index|reason e].
  2:{ apply (loop_refusal_inv reason (λ i, LoopRefusing i e) (loop_read_failed e)); try done. intros; by apply loop_read_failed_inv. }
  specialize (Hr m index eq_refl).
  assert (∀ b, session_inv (if (match m with Restart _ => b | _ => false end) && (index =? sentCount (link s))
    then s <| loop := LoopAnswering |>
    else match stop_link failed s with (s, Some (SentAt i)) => s <| loop := LoopWrongIndex i |> | (s, _) => fail_loop wrong_index s end)) as Hb.
  { intros b. destruct (_ && _) eqn:E.
    - apply andb_true_iff in E as [E1 E2]. apply Z.eqb_eq in E2 as ->. destruct m; try done. apply restart_index in Hr.
      destruct Hi as [H1 H2 H3]. split; cbn; [done| |done]. unfold phase_ok in *; cbn. destruct (main s); try done; destruct H2; congruence.
    - apply (loop_refusal_inv failed LoopWrongIndex (fail_loop wrong_index)); try done. intros; by apply fail_loop_inv. }
  destruct m; try apply (Hb true). by apply fail_loop_inv.
Qed.

(** A message is sent at the index its place says. *)
Lemma send_speaks m s n : session_inv s → is_stop m = false → (stopped (link s) = false → sentCount (link s) = n) →
  event_of m ∈ allowedEvents page n → speaks (allowedEvents page) (link_send m (link s)).1.
Proof.
  intros Hi Hm Hn Ha. apply speaks_send; [|by apply link_send_inv, Hi|apply Hi].
  intros _ [Hs|Hs]; [by rewrite Hn|congruence].
Qed.

Lemma offer_inv m s : main s = Invited → session_inv s → session_inv (offer m s).
Proof.
  intros Hm Hi. assert (loop s = LoopOff ∧ (stopped (link s) = false → sentCount (link s) = 0)) as [Ho Hc].
  { destruct Hi as [_ Hp _]. unfold phase_ok in Hp. by rewrite Hm in Hp. }
  unfold offer. destruct (invite s) as [[ice max]|]; [|done]. destruct (max <? in_size m); [by apply throw_call_inv|].
  set (msg := Manifest _ _ _). pose proof (send_speaks msg s 0 Hi eq_refl Hc) as Hsp.
  destruct (link_send msg (link s)) as [l [i|error]] eqn:E.
  - pose proof E as E'. apply link_send_at in E' as (_ & Hst & _ & _ & El & _). split; cbn; [apply Hsp; set_solver| |by rewrite Ho].
    unfold phase_ok; cbn. split; [done|]. rewrite El; cbn. intros Hs. rewrite (Hc Hs). done.
  - apply link_send_refused in E as ->. apply throw_call_inv. destruct Hi as [H1 H2 H3]. split; cbn; try done.
Qed.

Lemma peer_answers_inv key sdp s : main s = AnsweringOffer key → session_inv s → session_inv (peer_answers key sdp s).
Proof.
  intros Hm Hi. assert (loop s = LoopOff ∧ (stopped (link s) = false → sentCount (link s) = 1)) as [Ho Hc].
  { destruct Hi as [_ Hp _]. unfold phase_ok in Hp. by rewrite Hm in Hp. }
  unfold peer_answers. set (msg := Answer _ _). pose proof (send_speaks msg s 1 Hi eq_refl Hc) as Hsp.
  destruct (link_send msg (link s)) as [l [i|error]] eqn:E.
  - pose proof E as E'. apply link_send_at in E' as (_ & Hst & _ & _ & El & _). split; cbn; [apply Hsp; set_solver| |by rewrite Ho].
    unfold phase_ok; cbn. split; [done|]. rewrite El; cbn. intros Hs. rewrite (Hc Hs). done.
  - apply link_send_refused in E as ->. apply throw_send_inv. destruct Hi as [H1 H2 H3]. split; cbn; try done.
Qed.

Lemma restart_answered_inv sdp s : loop s = LoopAnswering → session_inv s → session_inv (restart_answered sdp s).
Proof.
  intros Ho Hi. assert (loop s ≠ LoopOff) as Ho' by (by rewrite Ho). pose proof (si_answering s Hi Ho) as Hc.
  unfold restart_answered. set (msg := RestartAnswer _).
  assert (speaks (allowedEvents page) (link_send msg (link s)).1) as Hsp.
  { destruct (stopped (link s)) eqn:Es.
    - apply speaks_send; [|by apply link_send_inv, Hi|apply Hi]. intros _ [?|?]; [congruence|done].
    - apply (send_speaks msg s (sentCount (link s))); try done. specialize (Hc eq_refl).
      unfold allowedEvents, messagesPerSide, restarts. rewrite (proj2 (Z.ltb_ge _ 0)), (proj2 (Z.leb_gt 8 _)) by lia. cbn [orb].
      rewrite (proj2 (Z.eqb_neq _ 0)), (proj2 (Z.eqb_neq _ 1)), (proj2 (Z.leb_le _ (1 + 5))) by lia. set_solver. }
  assert (∀ l', speaks (allowedEvents page) l' → session_inv (s <| link := l' |> <| loop := LoopOver |>)) as Hover.
  { intros l' Hl'. destruct Hi as [H1 H2 H3]. split; cbn; [done| |done]. unfold phase_ok in *; cbn. destruct (main s); try done; destruct H2; congruence. }
  destruct (link_send msg (link s)) as [l [i|error]] eqn:E.
  - specialize (Hover l Hsp). destruct Hover as [H1 H2 H3]. split; cbn in *; [done| |done]. unfold phase_ok in *; cbn in *.
    destruct (main s); try done; destruct H2; congruence.
  - apply link_send_refused in E as ->. apply answer_failed_inv; [done|]. destruct Hi as [H1 H2 H3]. by split.
Qed.

Lemma answer_gone_inv s j : main s = SendingAnswer j → session_inv s → session_inv (answer_gone s).
Proof.
  intros Hm Hi. assert (loop s = LoopOff) as Ho.
  { destruct Hi as [_ Hp _]. unfold phase_ok in Hp. rewrite Hm in Hp. apply Hp. }
  unfold answer_gone, read_for_loop. set (s1 := say OnConnecting _).
  assert (session_inv (s1 <| loop := LoopOver |>)) as H1.
  { destruct Hi as [H1 H2 H3]. split; cbn; done. }
  destruct (ended (link s1)).
  - assert (loop (s1 <| loop := LoopOver |>) ≠ LoopOff) as Hne by done.
    exact (loop_read_failed_inv (mkDirectError Network "The exchange has ended.") _ Hne H1).
  - destruct H1 as [? ? ?]. split; cbn; done.
Qed.

Lemma encoder_made_inv file_size made created s : main s = Encoding file_size → session_inv s →
  session_inv (encoder_made file_size made created s).
Proof.
  intros Hm Hi. unfold encoder_made. destruct made as [name type key|error]; [|by apply throw_send_inv].
  destruct (manifest s) as [mf|]; [|done]. destruct (_ || _ || _); [by apply throw_send_inv|].
  destruct created as [state| |error]; try by apply throw_send_inv.
  destruct Hi as [H1 H2 H3]. unfold phase_ok in H2. rewrite Hm in H2. split; cbn; done.
Qed.

Lemma main_settled_inv i error s : session_inv s → session_inv (main_settled i error s).
Proof.
  intros Hi. unfold main_settled. destruct (main s) eqn:Hm; try done; (destruct (_ =? _)%nat; [|done]).
  - destruct error; [by apply throw_call_inv|]. apply read_for_main_inv; [done|].
    destruct Hi as [_ Hp _]. unfold phase_ok in *; cbn. by rewrite Hm in Hp.
  - by apply throw_call_inv.
  - destruct error; [by apply throw_send_inv|]. by eapply answer_gone_inv.
Qed.

Lemma loop_settled_inv looks i error s : session_inv s → session_inv (loop_settled looks i error s).
Proof.
  intros Hi. unfold loop_settled. destruct (loop s) eqn:Ho; try done; (destruct (_ =? _)%nat; [|done]).
  - apply loop_read_failed_inv; congruence.
  - apply fail_loop_inv; congruence.
  - destruct error; [apply answer_failed_inv; congruence|]. apply read_for_loop_inv; [cbn; congruence|].
    eapply calm_inv; [|exact Hi]. calm_field.
Qed.

Lemma exchange_settles_inv looks error s : session_inv s → session_inv (exchange_settles looks error s).
Proof.
  intros Hi. unfold exchange_settles. destruct (_ <? _)%nat; [|done]. apply loop_settled_inv, main_settled_inv.
  eapply calm_inv; [|exact Hi]. apply calm_with_link, quiet_settles.
Qed.

Lemma read_throws_inv error s : session_inv s → session_inv (read_throws error s).
Proof.
  intros Hi. unfold read_throws.
  assert (session_inv (match loop s with LoopReading => loop_read_failed (exchangeFailure error) s | _ => s end)).
  { destruct (loop s) eqn:Ho; try done. apply loop_read_failed_inv; congruence. }
  destruct (main s); try done; by apply throw_call_inv.
Qed.

(** The payloads the exchange gives are bytes. *)
Definition event_ok (e : send_event) : Prop := match e with ReadSettles payload => bytes_ok payload | _ => True end.

Lemma reading_inv payload s : bytes_ok payload → session_inv s →
  session_inv (match loop s with LoopReading => let '(s, r) := receive allowlist payload None s in on_restart r s | _ => s end).
Proof.
  intros Hb Hi. destruct (loop s) eqn:Ho; try done. pose proof (calm_receive payload None s) as Hc.
  destruct (receive allowlist payload None s) as [s' r] eqn:E. cbn [fst] in Hc. apply on_restart_inv.
  - intros m index ->. by eapply receive_allowed.
  - by rewrite (c_loop _ _ Hc).
  - by eapply calm_inv.
Qed.

Lemma send_step_inv looks s e : event_ok e → session_inv s → session_inv (send_step allowlist looks s e).
Proof.
  intros He Hi. pose proof (si_phase s Hi) as Hp. unfold phase_ok in Hp.
  destruct e; cbn [send_step].
  - destruct (main s) eqn:Hm; try done. apply read_for_main_inv; [done|]. unfold phase_ok; cbn. done.
  - destruct (main s) eqn:Hm; try done. by apply offer_inv.
  - destruct (main s) eqn:Hm; try done. destruct Hi as [H1 H2 H3]. split; cbn; done.
  - eapply calm_inv; [apply calm_stop|done].
  - eapply calm_inv; [apply calm_close|done].
  - destruct (flushing s); [|done]. eapply calm_inv; [|exact Hi]. eapply calm_trans; [|apply calm_close]. calm_field.
  - cbn [event_ok] in He. pose proof (calm_receive payload None s) as Hc. pose proof (reading_inv payload s He Hi) as Hl.
    destruct (main s) eqn:Hm; try exact Hl; destruct (receive allowlist payload None s) as [s' r] eqn:E; cbn [fst] in Hc.
    + apply on_invite_inv; [by rewrite (c_main _ _ Hc)|by eapply calm_inv].
    + apply on_reply_inv; [by rewrite (c_main _ _ Hc)|by eapply calm_inv].
  - by apply read_throws_inv.
  - destruct (ended (link s)); [by apply read_throws_inv|done].
  - by apply exchange_settles_inv.
  - destruct (main s) eqn:Hm; try done. by apply encoder_made_inv.
  - destruct (main s) eqn:Hm; try done. by apply peer_answers_inv.
  - destruct (main s) eqn:Hm; try done. by apply throw_send_inv.
  - destruct (loop s) eqn:Ho; try done. by apply restart_answered_inv.
  - destruct (loop s) eqn:Ho; try done. apply answer_failed_inv; congruence.
  - eapply calm_inv; [apply calm_peer_changes|done].
  - destruct (main s) eqn:Hm; try done. eapply (over_inv s); [|done|done]. calm_field.
  - destruct (main s) eqn:Hm; try done. by apply throw_send_inv.
  - destruct (main s) eqn:Hm; try done; (destruct (watch s ≫= watch_failed); [by apply throw_send_inv|done]).
  - destruct (main s) eqn:Hm; try done. eapply calm_inv; [apply calm_say|]. eapply (over_inv s); [apply calm_refl|done..].
  - case_bool_decide; [|done]. eapply calm_inv; [apply calm_path|done].
  - destruct (main s) eqn:Hm; try done. destruct (announces_end _); [|done]. eapply calm_inv; [apply calm_say|done].
  - destruct error; destruct (main s) eqn:Hm; try done; [by apply throw_send_inv|].
    assert (session_inv (s <| finished := true |>)) as Hf.
    { destruct Hi as [H1 H2 H3]. split; cbn; [done| |done]. unfold phase_ok in *; cbn. by rewrite Hm in *. }
    eapply leave_inv; [apply calm_refl|exact Hf].
  - eapply calm_inv; [apply calm_timer|done].
  - eapply calm_inv; [apply calm_timer|done].
  - destruct (main s) eqn:Hm; try done. eapply (over_inv s); [apply calm_close|done..].
Qed.

Lemma session_start_inv : session_inv session_start.
Proof. split; [split; [apply link_start_inv|]| |]; done. Qed.

Lemma send_run_inv looks s events : Forall event_ok events → session_inv s → session_inv (send_run allowlist looks s events).
Proof.
  intros He. revert s. induction He as [|e events He Hs IH]; intros s Hi; [done|]. cbn. apply IH. by apply send_step_inv.
Qed.
(** ** How a session ends *)

Definition ends_ok (s : SenderSession) : Prop :=
  match main s with
  | Created | ReadingInvite | Invited | SendingManifest _ | ReadingReply | Accepted | Refusing _ _ =>
      run s = None ∧ finished s = false
  | Encoding _ | AnsweringOffer _ | SendingAnswer _ | Joining | ReadingPath | Transferring =>
      run s ≠ None ∧ finished s = false
  | Draining r => run s ≠ None ∧ (finished s = true ↔ r = None)
  | Over OutSent => run s ≠ None ∧ finished s = true ∧ shut s
  | Over OutDeclined => run s = None ∧ finished s = false ∧ ended (link s) = true
  | Over (OutFailed _) => finished s = false ∧ (run s ≠ None → shut s)
  end.

(** Before [send] is called, and while it has not left. *)
Definition early (s : SenderSession) : Prop := run s = None ∧ finished s = false.
Definition underway (s : SenderSession) : Prop := run s ≠ None ∧ finished s = false.

Lemma still_early s s' : still s s' → early s → early s'.
Proof. intros [E1 E2 _] []. split; [by apply E2|congruence]. Qed.
Lemma still_underway s s' : still s s' → underway s → underway s'.
Proof. intros [E1 E2 _] []. split; [by rewrite E2|congruence]. Qed.

Lemma still_ends s s' : still s s' → main s' = main s → page_quiet (link s) (link s') → ends_ok s → ends_ok s'.
Proof.
  intros Hs Hm Hq He. unfold ends_ok in *. rewrite Hm. destruct Hs as [E1 E2 E3].
  destruct (main s) as [| | | | | | | | | | | | |r|[| |e]]; rewrite ?E1, ?E2; try done.
  - destruct He as (? & ? & ?). auto.
  - destruct He as (? & ? & ?). split_and!; try done. by apply (q_ended _ _ _ Hq).
  - destruct He as (? & ?). auto.
Qed.

Lemma calm_ends s s' : calm s s' → ends_ok s → ends_ok s'.
Proof. intros []. by apply still_ends. Qed.

Lemma throw_call_ends error s : early s → ends_ok (throw_call error s).
Proof.
  intros He. unfold throw_call. pose proof (c_still _ _ (calm_end error s)) as Hs. destruct (end_session error s) as [s' e].
  cbn [fst] in Hs. destruct (still_early _ _ Hs He) as [Hr Hf]. unfold ends_ok; cbn. split; [done|]. congruence.
Qed.

Lemma throw_send_ends error s : underway s → ends_ok (throw_send error s).
Proof.
  intros Hu. unfold throw_send. match goal with |- context [end_session ?c s] => pose proof (c_still _ _ (calm_end c s)) as Hs; destruct (end_session c s) as [s' e] end.
  cbn [fst] in Hs. destruct (still_underway _ _ Hs Hu) as [Hr Hf]. unfold ends_ok, leave; cbn. split; [done|]. by rewrite Hf.
Qed.

(** What the loop does keeps the method's place. *)
Lemma loop_calm s p : still s (s <| loop := p |>).
Proof. by split. Qed.

Lemma fail_loop_ends e s : ends_ok s → ends_ok (fail_loop e s).
Proof. intros He. unfold fail_loop. eapply calm_ends; [apply calm_fail|]. exact He. Qed.
Lemma loop_over_ends s : ends_ok s → ends_ok (noMoreRestarts (s <| loop := LoopOver |>)).
Proof. intros He. eapply calm_ends; [apply calm_no_more|]. exact He. Qed.
Lemma loop_read_failed_ends e s : ends_ok s → ends_ok (loop_read_failed e s).
Proof. intros He. unfold loop_read_failed. destruct (d_kind e); first [by apply fail_loop_ends|by apply loop_over_ends]. Qed.
Lemma answer_failed_ends error s : ends_ok s → ends_ok (answer_failed error s).
Proof. intros He. unfold answer_failed. destruct (d_kind _); first [by apply fail_loop_ends|by apply loop_over_ends]. Qed.
Lemma read_for_loop_ends s : ends_ok s → ends_ok (read_for_loop s).
Proof. intros He. unfold read_for_loop. destruct (ended (link s)); [by apply loop_read_failed_ends|exact He]. Qed.

Lemma refusal_ends reason e s : early s →
  ends_ok (match stop_link reason s with
           | (s, Some (SentAt i)) => s <| main := Refusing i e |>
           | (s, _) => throw_call (CDirect e) s
           end).
Proof.
  intros He. pose proof (c_still _ _ (calm_stop_link reason s)) as Hs. destruct (stop_link reason s) as [s' r]. cbn [fst] in Hs.
  pose proof (still_early _ _ Hs He). destruct r as [[i|er]|]; try by apply throw_call_ends. done.
Qed.

Lemma loop_refusal_ends reason (place : nat → sender_loop) (k : SenderSession → SenderSession) s :
  ends_ok s → (∀ s, ends_ok s → ends_ok (k s)) →
  ends_ok (match stop_link reason s with (s, Some (SentAt i)) => s <| loop := place i |> | (s, _) => k s end).
Proof.
  intros He Hk. pose proof (calm_ends _ _ (calm_stop_link reason s) He) as Hs. destruct (stop_link reason s) as [s' r]. cbn [fst] in Hs.
  destruct r as [[i|er]|]; auto.
Qed.

Lemma on_invite_ends r s : early s → ends_ok (on_invite r s).
Proof.
  intros He. unfold on_invite. destruct r as [m index|reason e]; [|by apply refusal_ends]. by destruct m; try by apply throw_call_ends.
Qed.
Lemma on_reply_ends r s : early s → ends_ok (on_reply r s).
Proof.
  intros He. unfold on_reply. destruct r as [m index|reason e]; [|by apply refusal_ends]. destruct m; try (by apply throw_call_ends); [exact He|].
  destruct He. unfold ends_ok; cbn. split_and!; [done..|apply link_end_ended].
Qed.
Lemma on_restart_ends r s : ends_ok s → ends_ok (on_restart r s).
Proof.
  intros He. unfold on_restart. destruct r as [m index|reason e].
  2:{ apply (loop_refusal_ends reason (λ i, LoopRefusing i e) (loop_read_failed e)); [done|]. apply loop_read_failed_ends. }
  assert (∀ b : bool, ends_ok (if b then s <| loop := LoopAnswering |>
    else match stop_link failed s with (s, Some (SentAt i)) => s <| loop := LoopWrongIndex i |> | (s, _) => fail_loop wrong_index s end)) as Hb.
  { intros []; [exact He|]. apply (loop_refusal_ends failed LoopWrongIndex (fail_loop wrong_index)); [done|]. apply fail_loop_ends. }
  destruct m; try apply Hb. by apply fail_loop_ends.
Qed.

(** Sending leaves everything but the link and the place. *)
Lemma with_link_still m s l r : link_send m (link s) = (l, r) → still s (s <| link := l |>).
Proof.
  intros E. split; cbn; try done. intros [Hd Hp]. split; cbn; [|done]. destruct r.
  - by apply link_send_at in E as (Hx & _); congruence.
  - by apply link_send_refused in E as ->.
Qed.

Lemma offer_ends m s : main s = Invited → early s → ends_ok (offer m s).
Proof.
  intros Hm He. unfold offer. destruct (invite s) as [[ice max]|]; [|unfold ends_ok; by rewrite Hm].
  destruct (max <? in_size m); [by apply throw_call_ends|].
  destruct (link_send _ _) as [l [i|error]]; [done|]. by apply throw_call_ends.
Qed.
Lemma peer_answers_ends key sdp s : underway s → ends_ok (peer_answers key sdp s).
Proof. intros Hu. unfold peer_answers. destruct (link_send _ _) as [l [i|error]]; [done|]. by apply throw_send_ends. Qed.
Lemma restart_answered_ends sdp s : ends_ok s → ends_ok (restart_answered sdp s).
Proof.
  intros He. unfold restart_answered. destruct (link_send _ _) as [l r] eqn:E.
  assert (ends_ok (s <| link := l |>)) as Hl.
  { pose proof (with_link_still _ _ _ _ E) as Hs. unfold ends_ok in *. cbn. destruct Hs as [_ _ E3]. unfold shut in *. cbn in *.
    destruct (main s) as [| | | | | | | | | | | | |x|[| |x]]; try done.
    - destruct He as (? & ? & ?). auto.
    - destruct He as (? & ? & Hd). split_and!; try done. destruct r; [apply link_send_at in E as (? & _); congruence|].
      by apply link_send_refused in E as ->.
    - destruct He as (? & ?). auto. }
  destruct r; [exact Hl|]. by apply answer_failed_ends.
Qed.

Lemma encoder_made_ends file_size made created s : main s = Encoding file_size → underway s → ends_ok (encoder_made file_size made created s).
Proof.
  intros Hm Hu. unfold encoder_made. destruct made as [name type key|error]; [|by apply throw_send_ends].
  destruct (manifest s); [|unfold ends_ok; by rewrite Hm]. destruct (_ || _ || _); [by apply throw_send_ends|].
  destruct created; try by apply throw_send_ends. done.
Qed.

Lemma main_settled_ends i error s : ends_ok s → ends_ok (main_settled i error s).
Proof.
  intros He. unfold main_settled. pose proof He as He'. unfold ends_ok in He'. destruct (main s) eqn:Hm; try exact He; (destruct (_ =? _)%nat; [|exact He]).
  - destruct error; [by apply throw_call_ends|]. unfold read_for_main. destruct (ended (link s)); [by apply throw_call_ends|exact He'].
  - by apply throw_call_ends.
  - destruct error; [by apply throw_send_ends|]. unfold answer_gone. apply read_for_loop_ends. exact He'.
Qed.

Lemma loop_settled_ends looks i error s : ends_ok s → ends_ok (loop_settled looks i error s).
Proof.
  intros He. unfold loop_settled. destruct (loop s); try exact He; (destruct (_ =? _)%nat; [|exact He]).
  - by apply loop_read_failed_ends.
  - by apply fail_loop_ends.
  - destruct error; [by apply answer_failed_ends|]. by apply read_for_loop_ends.
Qed.

Lemma read_throws_ends error s : ends_ok s → ends_ok (read_throws error s).
Proof.
  intros He. unfold read_throws. pose proof He as He'. unfold ends_ok in He'.
  assert (ends_ok (match loop s with LoopReading => loop_read_failed (exchangeFailure error) s | _ => s end)).
  { destruct (loop s); try done. by apply loop_read_failed_ends. }
  destruct (main s); try done; by apply throw_call_ends.
Qed.

Lemma reading_ends payload s : ends_ok s →
  ends_ok (match loop s with LoopReading => let '(s, r) := receive allowlist payload None s in on_restart r s | _ => s end).
Proof.
  intros He. destruct (loop s); try exact He. pose proof (calm_ends _ _ (calm_receive payload None s) He) as Hr.
  destruct (receive allowlist payload None s) as [s' r]. by apply on_restart_ends.
Qed.

Lemma send_step_ends looks s e : ends_ok s → ends_ok (send_step allowlist looks s e).
Proof.
  intros He. pose proof He as Hp. unfold ends_ok in Hp. destruct e; cbn [send_step].
  - destruct (main s) eqn:Hm; try exact He. unfold read_for_main. destruct (ended (link s)); [by apply throw_call_ends|exact Hp].
  - destruct (main s) eqn:Hm; try exact He. by apply offer_ends.
  - destruct (main s) eqn:Hm; try exact He. unfold ends_ok; cbn. by destruct Hp.
  - eapply calm_ends; [apply calm_stop|done].
  - eapply calm_ends; [apply calm_close|done].
  - destruct (flushing s); [|done]. eapply calm_ends; [|exact He]. eapply calm_trans; [|apply calm_close]. calm_field.
  - pose proof (c_still _ _ (calm_receive payload None s)) as Hs. pose proof (reading_ends payload s He) as Hl.
    destruct (main s) eqn:Hm; try exact Hl; destruct (receive allowlist payload None s) as [s' r]; cbn [fst] in Hs;
      pose proof (still_early _ _ Hs Hp); [by apply on_invite_ends|by apply on_reply_ends].
  - by apply read_throws_ends.
  - destruct (ended (link s)); [by apply read_throws_ends|done].
  - unfold exchange_settles. destruct (_ <? _)%nat; [|done]. apply loop_settled_ends, main_settled_ends.
    eapply calm_ends; [|exact He]. apply calm_with_link, quiet_settles.
  - destruct (main s) eqn:Hm; try exact He. by apply encoder_made_ends.
  - destruct (main s) eqn:Hm; try exact He. by apply peer_answers_ends.
  - destruct (main s) eqn:Hm; try exact He. by apply throw_send_ends.
  - destruct (loop s) eqn:Ho; try exact He. by apply restart_answered_ends.
  - destruct (loop s) eqn:Ho; try exact He. by apply answer_failed_ends.
  - eapply calm_ends; [apply calm_peer_changes|done].
  - destruct (main s) eqn:Hm; try exact He. exact Hp.
  - destruct (main s) eqn:Hm; try exact He. by apply throw_send_ends.
  - destruct (main s) eqn:Hm; try exact He; (destruct (watch s ≫= watch_failed); [by apply throw_send_ends|exact He]).
  - destruct (main s) eqn:Hm; try exact He. exact Hp.
  - case_bool_decide; [|done]. eapply calm_ends; [apply calm_path|done].
  - destruct (main s) eqn:Hm; try exact He. destruct (announces_end _); [|exact He]. eapply calm_ends; [apply calm_say|exact He].
  - destruct error; destruct (main s) eqn:Hm; try exact He; [by apply throw_send_ends|]. destruct Hp. unfold ends_ok; cbn. done.
  - eapply calm_ends; [apply calm_timer|done].
  - eapply calm_ends; [apply calm_timer|done].
  - destruct (main s) eqn:Hm; try exact He. pose proof (c_still _ _ (calm_close s)) as [E1 E2 E3].
    assert (shut (close_session s)) as Hshut.
    { unfold close_session, close_peer. split; [apply link_end_ended|]. cbn. destruct (peer s) eqn:Ep; cbn; auto. }
    destruct Hp as [Hr Hf]. unfold ends_ok. destruct result; cbn -[close_session].
    + split; [|done]. rewrite E1. destruct (finished s); [|done]. by destruct Hf as [Hf _]; specialize (Hf eq_refl).
    + split_and!; [by rewrite E2| |done]. rewrite E1. by apply Hf.
Qed.
(** ** Only the transfer finishes a session *)

Lemma calm_finished s s' : calm s s' → finished s' = finished s.
Proof. intros Hc. apply Hc. Qed.

Ltac same_finished :=
  repeat match goal with
  | |- context [let '(_, _) := ?p in _] => let E := fresh "E" in destruct p eqn:E
  | |- context [match ?x with _ => _ end] => let E := fresh "E" in destruct x eqn:E
  end.

Lemma fin_end error s s' e : end_session error s = (s', e) → finished s' = finished s.
Proof. intros E. pose proof (calm_end error s) as Hc. rewrite E in Hc. exact (calm_finished _ _ Hc). Qed.
Lemma fin_stop_link reason s s' r : stop_link reason s = (s', r) → finished s' = finished s.
Proof. intros E. pose proof (calm_stop_link reason s) as Hc. rewrite E in Hc. exact (calm_finished _ _ Hc). Qed.
Lemma fin_throw_call error s : finished (throw_call error s) = finished s.
Proof. unfold throw_call. destruct (end_session error s) eqn:E. cbn. by eapply fin_end. Qed.
Lemma fin_throw_send error s : finished (throw_send error s) = finished s.
Proof. unfold throw_send. destruct (end_session _ s) eqn:E. cbn. by eapply fin_end. Qed.
Lemma fin_fail_loop e s : finished (fail_loop e s) = finished s.
Proof. unfold fail_loop. by rewrite (calm_finished _ _ (calm_fail _ _)). Qed.
Lemma fin_no_more s : finished (noMoreRestarts s) = finished s.
Proof. by rewrite (calm_finished _ _ (calm_no_more _)). Qed.
Lemma fin_read_failed e s : finished (loop_read_failed e s) = finished s.
Proof. unfold loop_read_failed. destruct (d_kind e); rewrite ?fin_fail_loop, ?fin_no_more; done. Qed.
Lemma fin_answer_failed e s : finished (answer_failed e s) = finished s.
Proof. unfold answer_failed. destruct (d_kind _); rewrite ?fin_fail_loop, ?fin_no_more; done. Qed.
Lemma fin_read_for_loop s : finished (read_for_loop s) = finished s.
Proof. unfold read_for_loop. destruct (ended _); [apply fin_read_failed|done]. Qed.
Lemma fin_read_for_main p s : finished (read_for_main p s) = finished s.
Proof. unfold read_for_main. destruct (ended _); [apply fin_throw_call|done]. Qed.

Ltac fin_done :=
  rewrite ?fin_throw_call, ?fin_throw_send, ?fin_fail_loop, ?fin_read_failed, ?fin_answer_failed, ?fin_read_for_loop,
    ?fin_read_for_main, ?fin_no_more;
  first [reflexivity | cbn; eapply fin_stop_link; eassumption].

Lemma fin_on_invite r s : finished (on_invite r s) = finished s.
Proof. unfold on_invite. same_finished; fin_done. Qed.
Lemma fin_on_reply r s : finished (on_reply r s) = finished s.
Proof. unfold on_reply. same_finished; fin_done. Qed.
Lemma fin_on_restart r s : finished (on_restart r s) = finished s.
Proof. unfold on_restart. same_finished; fin_done. Qed.
Lemma fin_offer m s : finished (offer m s) = finished s.
Proof. unfold offer. same_finished; fin_done. Qed.
Lemma fin_encoder_made z m c s : finished (encoder_made z m c s) = finished s.
Proof. unfold encoder_made. destruct m; [|fin_done]. destruct (manifest s); [|done]. destruct (_ || _ || _); [fin_done|]. destruct c; fin_done. Qed.
Lemma fin_peer_answers k sdp s : finished (peer_answers k sdp s) = finished s.
Proof. unfold peer_answers. destruct (link_send _ _) as [? []]; fin_done. Qed.
Lemma fin_restart_answered sdp s : finished (restart_answered sdp s) = finished s.
Proof. unfold restart_answered. destruct (link_send _ _) as [? []]; fin_done. Qed.
Lemma fin_main_settled i e s : finished (main_settled i e s) = finished s.
Proof.
  unfold main_settled. destruct (main s); try done; (destruct (_ =? _)%nat; [|done]); try destruct e; unfold answer_gone; fin_done.
Qed.
Lemma fin_loop_settled k i e s : finished (loop_settled k i e s) = finished s.
Proof. unfold loop_settled. destruct (loop s); try done; (destruct (_ =? _)%nat; [|done]); try destruct e; fin_done. Qed.
Lemma fin_read_throws e s : finished (read_throws e s) = finished s.
Proof. unfold read_throws. destruct (main s); try destruct (loop s); fin_done. Qed.
Lemma fin_receive payload max s s' r : receive allowlist payload max s = (s', r) → finished s' = finished s.
Proof. intros E. pose proof (calm_receive payload max s) as Hc. rewrite E in Hc. exact (calm_finished _ _ Hc). Qed.

Lemma send_step_finished looks s e : finished (send_step allowlist looks s e) = true → finished s = true ∨ e = TransferSettles None.
Proof.
  destruct e as [| | | | | | | | | | | | | | | | | | | | | | [error|]| | |]; try (by right); intros Hf; left; cbn [send_step] in Hf.
  all: try (destruct (main s); try done; by rewrite ?fin_read_for_main, ?fin_offer, ?fin_encoder_made, ?fin_peer_answers, ?fin_throw_send in Hf).
  - by rewrite (calm_finished _ _ (calm_stop _ _ _)) in Hf.
  - by rewrite (calm_finished _ _ (calm_close _)) in Hf.
  - destruct (flushing s); [|done]. by rewrite (calm_finished _ _ (calm_close _)) in Hf.
  - assert (∀ s' r, receive allowlist payload None s = (s', r) → finished (on_invite r s') = finished s ∧ finished (on_reply r s') = finished s ∧ finished (on_restart r s') = finished s) as Hr.
    { intros s' r E. apply fin_receive in E. by rewrite fin_on_invite, fin_on_reply, fin_on_restart. }
    destruct (receive allowlist payload None s) as [s' r]. destruct (Hr s' r eq_refl) as (E1 & E2 & E3).
    destruct (main s); destruct (loop s); congruence.
  - by rewrite fin_read_throws in Hf.
  - destruct (ended _); [by rewrite fin_read_throws in Hf|done].
  - unfold exchange_settles in Hf. destruct (_ <? _)%nat; [|done]. by rewrite fin_loop_settled, fin_main_settled in Hf.
  - destruct (loop s); try done. by rewrite fin_restart_answered in Hf.
  - destruct (loop s); try done. by rewrite fin_answer_failed in Hf.
  - by rewrite (calm_finished _ _ (calm_peer_changes _ _)) in Hf.
  - destruct (main s); try done; (destruct (watch s ≫= watch_failed); [by rewrite fin_throw_send in Hf|done]).
  - case_bool_decide; [|done]. by rewrite (calm_finished _ _ (calm_path _ _)) in Hf.
  - destruct (main s); try done. by destruct (announces_end _).
  - by rewrite (calm_finished _ _ (calm_timer _ _ _)) in Hf.
  - by rewrite (calm_finished _ _ (calm_timer _ _ _)) in Hf.
  - destruct (main s); try done. change (finished (close_session s) = true) in Hf. by rewrite (calm_finished _ _ (calm_close _)) in Hf.
Qed.

Lemma send_run_finished looks s events : finished (send_run allowlist looks s events) = true →
  finished s = true ∨ TransferSettles None ∈ events.
Proof.
  revert s. induction events as [|e events IH]; intros s Hf; [by left|]. cbn in Hf.
  destruct (IH _ Hf) as [Hs|]; [|right; by right]. apply send_step_finished in Hs as [?| ->]; [by left|right; by left].
Qed.

Lemma send_run_ends looks s events : ends_ok s → ends_ok (send_run allowlist looks s events).
Proof. revert s. induction events as [|e events IH]; intros s He; [done|]. cbn. by apply IH, send_step_ends. Qed.

(** ** The link, whatever is read *)

Definition sound (s : SenderSession) : Prop := link_inv (link s).

Lemma send_sound_calm s s' : calm s s' → sound s → sound s'.
Proof. intros [Hq _ _ _]. apply (q_inv _ _ _ Hq). Qed.
Lemma send_sound_same s s' : link s' = link s → sound s → sound s'.
Proof. unfold sound. by intros ->. Qed.

Lemma send_sound_end error s : sound s → sound (end_session error s).1.
Proof. apply send_sound_calm, calm_end. Qed.
Lemma send_sound_throw_call error s : sound s → sound (throw_call error s).
Proof.
  intros Hs. unfold throw_call. apply (send_sound_end error) in Hs. destruct (end_session error s) as [s' e]. by apply (send_sound_same s').
Qed.
Lemma send_sound_throw_send error s : sound s → sound (throw_send error s).
Proof.
  intros Hs. unfold throw_send. set (e := match failure s with Some f => CDirect f | None => error end).
  apply (send_sound_end e) in Hs. destruct (end_session e s) as [s' e']. by apply (send_sound_same s').
Qed.

Lemma send_sound_refusal reason (place : nat → SenderSession → SenderSession) k s : (∀ i s, link (place i s) = link s) →
  (∀ s, sound s → sound (k s)) → sound s → sound (match stop_link reason s with (s, Some (SentAt i)) => place i s | (s, _) => k s end).
Proof.
  intros Hp Hk Hs. pose proof (calm_stop_link reason s) as Hc. destruct (stop_link reason s) as [s' r]. cbn [fst] in Hc.
  apply (send_sound_calm _ _ Hc) in Hs. destruct r as [[i|er]|]; auto. by apply (send_sound_same s').
Qed.
Lemma send_sound_send m s (place : nat → SenderSession → SenderSession) k : is_stop m = false → (∀ i s, link (place i s) = link s) →
  (∀ e s, sound s → sound (k e s)) → sound s →
  sound (match link_send m (link s) with (l, SentAt i) => place i (s <| link := l |>) | (l, SendRefused e) => k e (s <| link := l |>) end).
Proof.
  intros Hm Hp Hk Hs. destruct (link_send m (link s)) as [l r] eqn:E. assert (sound (s <| link := l |>)) as Hl by exact (link_send_moves _ _ _ _ E Hm Hs).
  destruct r as [i|e]; auto. by apply (send_sound_same (s <| link := l |>)).
Qed.

Lemma send_sound_read_failed e s : sound s → sound (loop_read_failed e s).
Proof. intros Hs. unfold loop_read_failed, fail_loop. destruct (d_kind e); (eapply send_sound_calm; [first [apply calm_fail|apply calm_no_more]|]); by apply (send_sound_same s). Qed.
Lemma send_sound_fail_loop e s : sound s → sound (fail_loop e s).
Proof. intros Hs. eapply send_sound_calm; [apply calm_fail|]. by apply (send_sound_same s). Qed.
Lemma send_sound_read_for_loop s : sound s → sound (read_for_loop s).
Proof. intros Hs. unfold read_for_loop. destruct (ended _); [by apply send_sound_read_failed|by apply (send_sound_same s)]. Qed.
Lemma send_sound_answer_failed error s : sound s → sound (answer_failed error s).
Proof.
  intros Hs. unfold answer_failed. cbv zeta. destruct (d_kind _); try (by apply send_sound_fail_loop);
    (eapply send_sound_calm; [apply calm_no_more|]); by apply (send_sound_same s).
Qed.
Lemma send_sound_read_for_main place s : sound s → sound (read_for_main place s).
Proof. intros Hs. unfold read_for_main. destruct (ended _); [by apply send_sound_throw_call|by apply (send_sound_same s)]. Qed.

Lemma send_sound_main_settled i error s : sound s → sound (main_settled i error s).
Proof.
  intros Hs. unfold main_settled. cbv zeta. destruct (main s); try done; destruct (_ =? _)%nat; try done.
  - destruct error; [by apply send_sound_throw_call|by apply send_sound_read_for_main].
  - by apply send_sound_throw_call.
  - destruct error; [by apply send_sound_throw_send|]. unfold answer_gone. by apply send_sound_read_for_loop, (send_sound_same s).
Qed.
Lemma send_sound_loop_settled looks i error s : sound s → sound (loop_settled looks i error s).
Proof.
  intros Hs. unfold loop_settled. destruct (loop s); try done; destruct (_ =? _)%nat; try done.
  - by apply send_sound_read_failed.
  - by apply send_sound_fail_loop.
  - destruct error; [by apply send_sound_answer_failed|]. by apply send_sound_read_for_loop, (send_sound_same s).
Qed.
Lemma send_sound_read_throws error s : sound s → sound (read_throws error s).
Proof.
  intros Hs. unfold read_throws. cbv zeta.
  destruct (main s); try (by apply send_sound_throw_call); (destruct (loop s); try done; by apply send_sound_read_failed).
Qed.

Lemma send_sound_reading r s : sound s → sound (on_invite r s) ∧ sound (on_reply r s) ∧ sound (on_restart r s).
Proof.
  intros Hs. split_and!; [unfold on_invite|unfold on_reply|unfold on_restart]; destruct r as [m index|reason e].
  - destruct m; try (by apply send_sound_throw_call). by apply (send_sound_same s).
  - apply (send_sound_refusal reason (λ i s, s <| main := Refusing i e |>)); [done|by intros; apply send_sound_throw_call|done].
  - destruct m; try (by apply send_sound_throw_call); [by apply (send_sound_same s)|]. by apply link_end_inv.
  - apply (send_sound_refusal reason (λ i s, s <| main := Refusing i e |>)); [done|by intros; apply send_sound_throw_call|done].
  - destruct m; try (by apply send_sound_fail_loop); cbn [andb];
      try (apply (send_sound_refusal failed (λ i s, s <| loop := LoopWrongIndex i |>)); [done|by intros; apply send_sound_fail_loop|done]).
    destruct (_ =? _); [by apply (send_sound_same s)|].
    apply (send_sound_refusal failed (λ i s, s <| loop := LoopWrongIndex i |>)); [done|by intros; apply send_sound_fail_loop|done].
  - apply (send_sound_refusal reason (λ i s, s <| loop := LoopRefusing i e |>)); [done|by intros; apply send_sound_read_failed|done].
Qed.

Lemma send_sound_step looks s e : sound s → sound (send_step allowlist looks s e).
Proof.
  intros Hs. assert (∀ f : SenderSession → SenderSession, (∀ s, calm s (f s)) → sound (f s)) as Hf.
  { intros f Hc. by eapply send_sound_calm. }
  destruct e as [|m|file_size|reason immediate| | |payload|error| |error|made created|sdp|error|sdp|error|state| |error| | |relayed|frame|[error|]| | |];
    cbn [send_step]; try (destruct (main s) eqn:Hm; try done; first [by apply send_sound_throw_send|by apply (send_sound_same s)]; fail).
  - destruct (main s); try done. by apply send_sound_read_for_main.
  - destruct (main s); try done. unfold offer. destruct (invite s) as [[ice max]|]; [|done]. destruct (_ <? _); [by apply send_sound_throw_call|].
    pose proof (send_sound_send (Manifest (in_name m) (in_size m) (in_type m)) (s <| manifest := Some m |>) (λ i s, s <| main := SendingManifest i |>) throw_call) as Ho.
    apply Ho; [done|done| |by apply (send_sound_same s)]. intros; by apply send_sound_throw_call.
  - apply Hf, calm_stop.
  - apply Hf, calm_close.
  - destruct (flushing s); [|done]. eapply send_sound_calm; [apply calm_close|]. by apply (send_sound_same s).
  - pose proof (calm_receive payload None s) as Hc. pose proof (send_sound_calm _ _ Hc Hs) as Hr. destruct (main s); try (destruct (loop s); try done);
      destruct (receive allowlist payload None s) as [s' r]; by destruct (send_sound_reading r s' Hr) as (? & ? & ?).
  - by apply send_sound_read_throws.
  - destruct (ended _); [by apply send_sound_read_throws|done].
  - unfold exchange_settles. cbv zeta. destruct (_ <? _)%nat; [|done]. apply send_sound_loop_settled, send_sound_main_settled. by apply link_settles_inv.
  - destruct (main s); try done. unfold encoder_made. destruct made; [|by apply send_sound_throw_send]. destruct (manifest s); [|done].
    destruct (_ || _); [by apply send_sound_throw_send|]. destruct created; [by apply (send_sound_same s)|by apply send_sound_throw_send..].
  - destruct (main s); try done. unfold peer_answers.
    apply (send_sound_send (Answer key sdp) s (λ i s, s <| main := SendingAnswer i |>) throw_send); [done|done| |done]. intros; by apply send_sound_throw_send.
  - destruct (loop s); try done. unfold restart_answered.
    apply (send_sound_send (RestartAnswer sdp) s (λ i s, s <| loop := LoopSending i |>) answer_failed); [done|done| |done]. intros; by apply send_sound_answer_failed.
  - destruct (loop s); try done. by apply send_sound_answer_failed.
  - apply (Hf (peer_changes state)). intros; apply calm_peer_changes.
  - destruct (main s); try done; (destruct (watch s ≫= _); [by apply send_sound_throw_send|done]).
  - destruct (bool_decide _); [|done]. apply (Hf (path_applies relayed)). intros; apply calm_path.
  - destruct (main s); try done. by destruct (announces_end frame).
  - apply Hf. intros; apply calm_timer.
  - apply Hf. intros; apply calm_timer.
  - destruct (main s); try done. apply (send_sound_same (close_session s)); [done|]. apply Hf, calm_close.
Qed.

Lemma send_sound_run looks events : sound (send_run allowlist looks session_start events).
Proof.
  unfold send_run. induction events as [|e events IH] using rev_ind; [apply link_start_inv|]. rewrite foldl_app. by apply send_sound_step.
Qed.

(** ** The properties *)

(** C19: whatever the exchange, the browser and the people do, the page sends on
    the exchange at most eight messages, each one that Drop's reader allows at
    its index; a stop, if the page sends one, is its last; and the exchange is
    closed only once the session has ended and its own stop has left. *)
Theorem sender_keeps_protocol looks events :
  Forall event_ok events →
  let l := link (send_run allowlist looks session_start events) in
  zlen (outbox l) <= messagesPerSide ∧
  (∀ i m, outbox l !! i = Some m → event_of m ∈ allowedEvents page (Z.of_nat i) ∧
     (is_stop m = true → length (outbox l) = S i)) ∧
  (exchange_closed l = true → ended l = true ∧ ∀ i, stopping l = Some i → (i < gone l)%nat).
Proof.
  intros He l. pose proof (send_run_inv looks session_start events He session_start_inv) as [[Hi Ho] _ _]. fold l in Hi, Ho.
  split_and!.
  - rewrite <- (li_count l Hi). apply Hi.
  - intros i m Hm. split; [by apply Ho|]. intros Hs. by apply (li_stop l Hi i m Hm Hs).
  - apply Hi.
Qed.

(** C20: [send] resolves only after the transfer did, which is after KEPT. Once it
    has settled, either way, the link has ended, so nothing more is sent, and the
    connection is closed; the exchange is closed too, unless the page's own stop is
    still on its way, and it closes once the sends that are on their way have
    settled. *)
Theorem sender_settles_closed looks events r :
  let s := send_run allowlist looks session_start events in
  main s = Over r →
  (r = OutSent → TransferSettles None ∈ events ∧ finished s = true) ∧
  (run s ≠ None → ended (link s) = true ∧ (peer s = None ∨ peer s = Some PeerClosed) ∧
     (exchange_closed (link s) = true ∨ ∃ i, stopping (link s) = Some i ∧ (gone (link s) <= i < length (outbox (link s)))%nat) ∧
     exchange_closed (sends_settle (link s)) = true) ∧
  (finished s = true → r = OutSent).
Proof.
  intros s Hm. pose proof (send_run_ends looks session_start events) as He. fold s in He.
  specialize (He ltac:(by split)). unfold ends_ok in He. rewrite Hm in He. pose proof (send_sound_run looks events : link_inv (link s)) as Hl.
  assert (shut s → ended (link s) = true ∧ (peer s = None ∨ peer s = Some PeerClosed) ∧
     (exchange_closed (link s) = true ∨ ∃ i, stopping (link s) = Some i ∧ (gone (link s) <= i < length (outbox (link s)))%nat) ∧
     exchange_closed (sends_settle (link s)) = true) as Hshut.
  { intros [Hen Hp]. destruct (link_settled _ Hl Hen). by split_and!. }
  destruct r as [| |e].
  - destruct He as (Hr & Hf & Hs). split_and!; [|by intros _; apply Hshut|done]. intros _. split; [|done].
    by destruct (send_run_finished _ _ _ Hf) as [?|?].
  - destruct He as (Hr & Hf & _). split_and!; [done|congruence|congruence].
  - destruct He as (Hf & Hs). split_and!; [done|intros Hr; apply Hshut, Hs, Hr|congruence].
Qed.
End Steps.

(** ** A session that sends its file *)

Definition payload_of (m : DirectMessage) : bytes := match encodeMessage m with Ok b => b | Throw _ => [] end.

Definition example_ice : list jstr := [lit "stun:stun.example:3478"].
Definition example_invite : DirectMessage := Invite false [mkIceServer [] example_ice []] (lit "AAAAAAAAAAAAAAAAAAAAAA") 1000.
Definition example_key : jstr := lit "wbk1_AAAAAAAAAAAAAAAAAAAAAAAAAAAAAAAAAAAAAAAAAAA".

Definition example_events : list send_event :=
  [CallReadInvite; ReadSettles (payload_of example_invite);
   CallOffer (mkManifestInput (lit "a.txt") 3 (lit "text/plain")); ExchangeSettles None; ReadSettles (payload_of (Accept example_sdp));
   CallSend 3; EncoderMade (MadeOk (lit "a.txt") (lit "text/plain") example_key) (PeerMadeAt New);
   PeerAnswers example_sdp; ExchangeSettles None; PeerChanges Connected; ChannelOpens; PathRead;
   ReadSettles (payload_of (Restart example_sdp)); RestartAnswered example_sdp; ExchangeSettles None;
   FrameSent [Frames.type_end]; TransferSettles None; Drained].

#[local] Existing Instances ascii_unicode.

Lemma example_events_ok : Forall event_ok example_events.
Proof.
  assert (∀ b, forallb (in_range 0 255) b = true → bytes_ok b) as Hb.
  { intros b Hb. refine (Forall_forallb (in_range 0 255) byte_ok b _ Hb). intros x Hx. apply in_range_spec in Hx. unfold byte_ok. lia. }
  repeat (constructor; [first [exact I | apply Hb; vm_compute; reflexivity]|]). constructor.
Qed.

Lemma sender_keeps_protocol_witness :
  map event_of (outbox (link (send_run example_ice 2 session_start example_events)))
    = [lit "manifest"; lit "answer"; lit "restart-answer"] ∧
  zlen (outbox (link (send_run example_ice 2 session_start example_events))) <= messagesPerSide.
Proof.
  split; [vm_compute; reflexivity|].
  apply (sender_keeps_protocol example_ice 2 example_events example_events_ok).
Defined.

Lemma sender_settles_closed_witness :
  main (send_run example_ice 2 session_start example_events) = Over OutSent ∧
  TransferSettles None ∈ example_events ∧ finished (send_run example_ice 2 session_start example_events) = true.
Proof.
  assert (main (send_run example_ice 2 session_start example_events) = Over OutSent) as Hm by (vm_compute; reflexivity).
  split; [exact Hm|]. apply (sender_settles_closed example_ice 2 example_events OutSent Hm). reflexivity.
Defined.
