(* ===== verification/ReceiveSession.v ===== *)
(** * The receiving end of a session ([direct/session.ts], [ReceiverSession])

    The state of Drop's session and everything that can happen to it. [main] is
    where the awaited method stands, [loop] where [readAnswers] does, and [turn]
    where the chain of [restartIce] calls does: [queued] calls wait for their
    turn, and [waits] are the promises a turn waits for once its restart has been
    sent. The link, the watcher and the timers are those of the sending end. *)

From S2P Require Import Prelude JsString Utf8 Bytes Json Security DirectConfig Messages MessageFacts Failure DirectLink.
From S2P Require Import Peer.
From S2P Require Envelope SendSession.

#[local] Existing Instance SendSession.Watch_eta.

Notation Watch := SendSession.Watch.
Notation timer := SendSession.timer.
Notation evaluate := SendSession.evaluate.
Notation ManifestInput := SendSession.ManifestInput.
Notation PeerMade := SendSession.PeerMade.

(** ** The session *)

(** The invitation without its event. *)
Record Invitation := mkInvitation { inv_hide : bool; inv_ice : list IceServer; inv_id : jstr; inv_max : Z }.

Definition invitation_message (i : Invitation) : DirectMessage := Invite (inv_hide i) (inv_ice i) (inv_id i) (inv_max i).

(** A declined session may carry the error its message failed with. *)
Inductive outcome : Type := OutReceived | OutDeclined (error : option caught) | OutFailed (e : DirectError).

(** [total] is the envelope's length. The [Refusing] places wait for a stop to
    leave before they throw, [Aborting] for the sink. *)
Inductive receiver_main : Type :=
  | Created | SendingInvite (i : nat) | Invited | ReadingManifest | HasManifest | Refusing (i : nat) (e : DirectError)
  | SendingDecline (i : nat)
  | MakingOffer (total : Z) | SendingAccept (i : nat) (total : Z) | ReadingAnswer (total : Z) | RefusingAnswer (i : nat) (e : DirectError)
  | ApplyingAnswer (key : jstr) (total : Z) | CreatingSink (key : jstr) (total : Z) | Joining (total : Z) | Receiving (total : Z)
  | Aborting (error : caught) | Draining (result : option DirectError) | Over (result : outcome).

Inductive receiver_loop : Type :=
  | LoopOff | LoopReading | LoopRefusing (i : nat) (e : DirectError) | LoopUnasked (i : nat) | LoopApplying (id : nat) | LoopOver.

(** Where the turn of [restartOnce] stands; [id] names its [waiting] promise. *)
Inductive restart_turn : Type := TurnIdle | TurnOffering | TurnSending (i id : nat) | TurnWaiting (id : nat).

(** A [waiting] promise: pending, resolved, or rejected. *)
Inductive wait_state : Type := Pending | Resolved | Rejected (e : DirectError).

(** [sink] says whether there is one, and whether the session has aborted it. *)
Record ReceiverSession := mkSession {
  link : Link; watch : option Watch; peer : option PeerState; invite : option Invitation; manifest : option ManifestInput;
  has_channel : bool; run : option bool; failure : option DirectError; finished : bool; sink : option bool;
  restartsUsed : Z; pendingRestart : option (Z * nat); waits : list wait_state; queued : nat; turn : restart_turn;
  turns : list (option caught); restartTimer : timer;
  main : receiver_main; loop : receiver_loop; flushing : bool; hooks : list SendSession.hook }.

#[export] Instance ReceiverSession_eta : Eta ReceiverSession := λ s,
  mkSession (link s) (watch s) (peer s) (invite s) (manifest s) (has_channel s) (run s) (failure s) (finished s) (sink s)
    (restartsUsed s) (pendingRestart s) (waits s) (queued s) (turn s) (turns s) (restartTimer s)
    (main s) (loop s) (flushing s) (hooks s).

Definition session_start : ReceiverSession :=
  mkSession link_start None None None None false None None false None 0 None [] 0 TurnIdle [] SendSession.Unset
    Created LoopOff false [].

Definition say (h : SendSession.hook) (s : ReceiverSession) : ReceiverSession := s <| hooks := hooks s ++ [h] |>.

(** [this.failure ??= error]. *)
Definition record_failure (e : DirectError) (s : ReceiverSession) : ReceiverSession :=
  match failure s with Some _ => s | None => s <| failure := Some e |> end.

Definition abort_run (s : ReceiverSession) : ReceiverSession :=
  match run s with Some _ => s <| run := Some true |> | None => s end.

Definition stop_link (reason : StopReason) (s : ReceiverSession) : ReceiverSession * option send_result :=
  let '(l, r) := link_stop reason (link s) in (s <| link := l |>, r).

(** ** Restarts *)

(** [restartIce()]: a turn on the chain. *)
Definition restartIce (s : ReceiverSession) : ReceiverSession := s <| queued := S (queued s) |>.

Definition scheduleRestart (state : PeerState) (s : ReceiverSession) : ReceiverSession :=
  match state with
  | Connected | PeerClosed => s <| restartTimer := SendSession.Unset |>
  | Disconnected | Peer.PeerFailed =>
      if bool_decide (restartTimer s ≠ SendSession.Unset) && bool_decide (state ≠ Peer.PeerFailed) then s
      else s <| restartTimer := SendSession.Armed |>
  | New | Connecting => s
  end.

(** The callback of the restart timer. *)
Definition restart_timer_fires (s : ReceiverSession) : ReceiverSession :=
  if bool_decide (restartTimer s = SendSession.Armed) then
    let s := s <| restartTimer := SendSession.Unset |> in
    if restartsUsed s <? restarts then restartIce s else s
  else s.

(** The turn settles, and its promise with it. *)
Definition end_turn (error : option caught) (s : ReceiverSession) : ReceiverSession :=
  s <| turn := TurnIdle |> <| turns := turns s ++ [error] |>.

(** [await waiting]. *)
Definition await_waiting (s : ReceiverSession) : ReceiverSession :=
  match turn s with
  | TurnWaiting id =>
      match waits s !! id with
      | Some Resolved => end_turn None s
      | Some (Rejected e) => end_turn (Some (CDirect e)) s
      | _ => s
      end
  | _ => s
  end.

(** [pending.resolve()] and [pending.reject(error)]: the first call counts. *)
Definition settle_wait (id : nat) (w : wait_state) (s : ReceiverSession) : ReceiverSession :=
  match waits s !! id with
  | Some Pending => await_waiting (s <| waits := <[id := w]> (waits s) |>)
  | _ => s
  end.

(** [this.pendingRestart?.reject(error); this.pendingRestart = undefined]. *)
Definition reject_pending (e : DirectError) (s : ReceiverSession) : ReceiverSession :=
  match pendingRestart s with
  | Some (_, id) => settle_wait id (Rejected e) (s <| pendingRestart := None |>)
  | None => s
  end.

(** The start of [restartOnce], when the chain comes to it. *)
Definition restart_begins (s : ReceiverSession) : ReceiverSession :=
  match turn s, queued s with
  | TurnIdle, S n =>
      let s := s <| queued := n |> in
      if bool_decide (peer s = None) || finished s || ended (link s) || bool_decide (peer s = Some PeerClosed)
      then end_turn (Some (CDirect (mkDirectError Expired "The exchange has ended."))) s
      else if restarts <=? restartsUsed s
      then end_turn (Some (CDirect (mkDirectError Lost "No ICE restarts are left."))) s
      else s <| restartsUsed := restartsUsed s + 1 |> <| turn := TurnOffering |>
  | _, _ => s
  end.

(** The peer has made the restart's offer. *)
Definition restart_offered (sdp : jstr) (s : ReceiverSession) : ReceiverSession :=
  let id := length (waits s) in
  let s := s <| waits := waits s ++ [Pending] |> <| pendingRestart := Some (sentCount (link s), id) |> in
  match link_send (Restart sdp) (link s) with
  | (l, SentAt i) => s <| link := l |> <| turn := TurnSending i id |>
  | (l, SendRefused error) => end_turn (Some error) (s <| link := l |>)
  end.

Definition turn_settled (i : nat) (error : option js_error) (s : ReceiverSession) : ReceiverSession :=
  match turn s with
  | TurnSending j id =>
      if (i =? j)%nat then
        match error with
        | Some e => end_turn (Some (CDirect (exchangeFailure (CError e)))) s
        | None => await_waiting (s <| turn := TurnWaiting id |>)
        end
      else s
  | _ => s
  end.

(** ** Closing *)

(** [evaluate()] and its [onState]. *)
Definition watch_evaluate (state : PeerState) (s : ReceiverSession) : ReceiverSession :=
  match watch s with
  | Some w =>
      if SendSession.watch_stopped w then s
      else scheduleRestart state (s <| watch := Some (evaluate state w) |>)
  | None => s
  end.

(** [this.peer?.close()]: the watcher hears of it, the first time. *)
Definition close_peer (s : ReceiverSession) : ReceiverSession :=
  match peer s with
  | None | Some PeerClosed => s
  | Some _ => watch_evaluate PeerClosed (s <| peer := Some PeerClosed |>)
  end.

Definition close_session (s : ReceiverSession) : ReceiverSession :=
  let s := close_peer s in s <| link := link_end (link s) |>.

(** [this.watch?.giveUp()], with the session's own [giveUp] as [onGiveUp]. *)
Definition giveUp (s : ReceiverSession) : ReceiverSession :=
  match watch s with
  | None => s
  | Some w =>
      if SendSession.watch_stopped w then s
      else
        let s := close_session (record_failure (SendSession.gave_up w) s) in
        s <| watch := option_map (λ w, match SendSession.watch_failed w with
                                       | Some _ => w
                                       | None => w <| SendSession.watch_failed := failure s |>
                                       end) (watch s) |>
  end.

Definition fail (e : DirectError) (s : ReceiverSession) : ReceiverSession :=
  let s := record_failure e s in
  let s := reject_pending (match failure s with Some f => f | None => e end) s in
  close_peer (abort_run (giveUp s)).

(** [stop(reason, options)]. *)
Definition stop (reason : StopReason) (immediate : bool) (s : ReceiverSession) : ReceiverSession :=
  if finished s then s
  else
    let s := record_failure (direct_error (match reason with cancelled => Cancelled | _ => Protocol end)) s in
    let s := (stop_link reason (abort_run s)).1 in
    if immediate then close_session s else s <| flushing := true |>.

(** [end(error)]. *)
Definition end_session (error : caught) (s : ReceiverSession) : ReceiverSession * DirectError :=
  let e := failureForTransfer error in
  (match d_kind e with
   | Cancelled => (stop_link cancelled s).1
   | Protocol | Verification | Storage => (stop_link failed s).1
   | _ => s
   end, e).

(** [throw this.end(error)] out of [invitation] or [readManifest]. *)
Definition throw_call (error : caught) (s : ReceiverSession) : ReceiverSession :=
  let '(s, e) := end_session error s in s <| main := Over (OutFailed e) |>.

(** The [finally] of [accept], up to its [await drained]. *)
Definition leave (result : option DirectError) (s : ReceiverSession) : ReceiverSession :=
  s <| watch := option_map SendSession.watch_stop (watch s) |> <| restartTimer := SendSession.clear_timer (restartTimer s) |>
    <| main := Draining result |>.

(** The [catch] of [accept] once the sink has been aborted. *)
Definition throw_on (error : caught) (s : ReceiverSession) : ReceiverSession :=
  let '(s, e) := end_session (match failure s with Some f => CDirect f | None => error end) s in leave (Some e) s.

(** The [catch] of [accept]: [await sink?.abort()] first. *)
Definition throw_accept (error : caught) (s : ReceiverSession) : ReceiverSession :=
  match sink s with
  | Some _ => s <| sink := Some true |> <| main := Aborting error |>
  | None => throw_on error s
  end.

Section Session.
Context `{Unicode}.

(** ** Reading *)

Definition receive (payload : bytes) (max : option Z) (s : ReceiverSession) : ReceiverSession * read_result :=
  let '(l, r) := link_read drop [] payload max (link s) in (s <| link := l |>, r).

Definition exchange_ended : DirectError := mkDirectError Network "The exchange has ended.".

(** The start of [link.read()] in [readManifest] and in [accept]. *)
Definition read_manifest (s : ReceiverSession) : ReceiverSession :=
  if ended (link s) then throw_call (CDirect exchange_ended) s else s <| main := ReadingManifest |>.

Definition read_answer (total : Z) (s : ReceiverSession) : ReceiverSession :=
  if ended (link s) then throw_accept (CDirect exchange_ended) s else s <| main := ReadingAnswer total |>.

Definition on_manifest (r : read_result) (s : ReceiverSession) : ReceiverSession :=
  match r with
  | Incoming (Stop reason) _ => throw_call (CDirect (direct_error (failureForPeerStop reason))) s
  | Incoming (Manifest name size type) _ =>
      s <| manifest := Some (SendSession.mkManifestInput name size type) |> <| main := HasManifest |>
  | Incoming _ _ => throw_call (CDirect (mkDirectError Protocol "Expected a manifest.")) s
  | Refused reason e =>
      match stop_link reason s with
      | (s, Some (SentAt i)) => s <| main := Refusing i e |>
      | (s, _) => throw_call (CDirect e) s
      end
  end.

Definition on_answer (total : Z) (r : read_result) (s : ReceiverSession) : ReceiverSession :=
  match r with
  | Incoming (Stop reason) _ => throw_accept (CDirect (direct_error (failureForPeerStop reason))) s
  | Incoming (Answer key _) _ => s <| main := ApplyingAnswer key total |>
  | Incoming _ _ => throw_accept (CDirect (mkDirectError Protocol "Expected an answer.")) s
  | Refused reason e =>
      match stop_link reason s with
      | (s, Some (SentAt i)) => s <| main := RefusingAnswer i e |>
      | (s, _) => throw_accept (CDirect e) s
      end
  end.

(** ** [readAnswers] *)

Definition fail_loop (e : DirectError) (s : ReceiverSession) : ReceiverSession :=
  fail e (s <| loop := LoopOver |>).

(** What the loop does with a read that threw. *)
Definition answers_read_failed (e : DirectError) (s : ReceiverSession) : ReceiverSession :=
  let s := reject_pending e (s <| loop := LoopOver |>) in
  match d_kind e with Protocol | Unsupported => fail e s | _ => s end.

Definition read_for_loop (s : ReceiverSession) : ReceiverSession :=
  if ended (link s) then answers_read_failed exchange_ended s else s <| loop := LoopReading |>.

Definition unasked : DirectError := mkDirectError Protocol "A restart answer nobody asked for.".

(** One turn of [readAnswers] on what was read. *)
Definition on_restart_answer (r : read_result) (s : ReceiverSession) : ReceiverSession :=
  let refuse := match stop_link failed s with
                | (s, Some (SentAt i)) => s <| loop := LoopUnasked i |>
                | (s, _) => fail_loop unasked s
                end in
  match r with
  | Incoming (Stop reason) _ => fail_loop (direct_error (failureForPeerStop reason)) s
  | Incoming (RestartAnswer _) index =>
      match pendingRestart s with
      | Some (i, id) => if i =? index then s <| pendingRestart := None |> <| loop := LoopApplying id |> else refuse
      | None => refuse
      end
  | Incoming _ _ => refuse
  | Refused reason e =>
      match stop_link reason s with
      | (s, Some (SentAt i)) => s <| loop := LoopRefusing i e |>
      | (s, _) => answers_read_failed e s
      end
  end.

(** [peer.applyAnswer] on a restart's answer has settled. *)
Definition restart_applied (error : option js_error) (s : ReceiverSession) : ReceiverSession :=
  match loop s with
  | LoopApplying id =>
      read_for_loop (settle_wait id (match error with
                                     | None => Resolved
                                     | Some e => Rejected (mkDirectError Protocol (message_or "The restart answer was refused." e))
                                     end) s)
  | _ => s
  end.

(** ** The methods *)

Definition invitation (i : Invitation) (s : ReceiverSession) : ReceiverSession :=
  let s := s <| invite := Some i |> in
  match link_send (invitation_message i) (link s) with
  | (l, SentAt n) => s <| link := l |> <| main := SendingInvite n |>
  | (l, SendRefused error) => throw_call error (s <| link := l |>)
  end.

(** [decline()]: the link ends however its message goes. *)
Definition declined (error : option caught) (s : ReceiverSession) : ReceiverSession :=
  s <| link := link_end (link s) |> <| main := Over (OutDeclined error) |>.

Definition decline (s : ReceiverSession) : ReceiverSession :=
  match link_send Decline (link s) with
  | (l, SentAt i) => s <| link := l |> <| main := SendingDecline i |>
  | (l, SendRefused error) => declined (Some error) (s <| link := l |>)
  end.

(** [accept(hooks)] up to [await peer.offer()]; [created] is what [createPeer] does. *)
Definition accept (created : PeerMade) (s : ReceiverSession) : ReceiverSession :=
  match invite s, manifest s with
  | Some _, Some m =>
      let s := s <| run := Some false |> in
      match Envelope.envelopeBytes (SendSession.in_name m) (SendSession.in_type m) (SendSession.in_size m) with
      | Throw msg => throw_accept (CError (PlainError msg)) s
      | Ok total =>
          match created with
          | SendSession.PeerHasNoRelay => throw_accept (CDirect (direct_error NoRelay)) s
          | SendSession.PeerRefused error => throw_accept (CError error) s
          | SendSession.PeerMadeAt state =>
              scheduleRestart state
                (s <| peer := Some state |> <| watch := Some (SendSession.watchConnection state) |> <| main := MakingOffer total |>)
          end
      end
  | _, _ => s
  end.

(** The peer has made the first offer. *)
Definition offer_made (total : Z) (sdp : jstr) (s : ReceiverSession) : ReceiverSession :=
  match link_send (Accept sdp) (link s) with
  | (l, SentAt i) => s <| link := l |> <| main := SendingAccept i total |>
  | (l, SendRefused error) => throw_accept error (s <| link := l |>)
  end.

(** Who waits for the send at [i], and how it goes on. *)
Definition main_settled (i : nat) (error : option js_error) (s : ReceiverSession) : ReceiverSession :=
  let thrown e := CDirect (exchangeFailure (CError e)) in
  match main s with
  | SendingInvite j =>
      if (i =? j)%nat then match error with Some e => throw_call (thrown e) s | None => s <| main := Invited |> end else s
  | SendingDecline j => if (i =? j)%nat then declined (option_map thrown error) s else s
  | SendingAccept j total =>
      if (i =? j)%nat then
        match error with Some e => throw_accept (thrown e) s | None => read_answer total (say SendSession.OnConnecting s) end
      else s
  | Refusing j e => if (i =? j)%nat then throw_call (CDirect e) s else s
  | RefusingAnswer j e => if (i =? j)%nat then throw_accept (CDirect e) s else s
  | _ => s
  end.

Definition loop_settled (i : nat) (s : ReceiverSession) : ReceiverSession :=
  match loop s with
  | LoopRefusing j e => if (i =? j)%nat then answers_read_failed e s else s
  | LoopUnasked j => if (i =? j)%nat then fail_loop unasked s else s
  | _ => s
  end.

(** The exchange's oldest send settles; whoever waits for it goes on. *)
Definition exchange_settles (error : option js_error) (s : ReceiverSession) : ReceiverSession :=
  let i := gone (link s) in
  if (i <? length (outbox (link s)))%nat then
    turn_settled i error (loop_settled i (main_settled i error (s <| link := link_settles (link s) |>)))
  else s.

(** The connection changes state: [evaluate], then [onState]. *)
Definition peer_changes (state : PeerState) (s : ReceiverSession) : ReceiverSession :=
  match peer s with
  | None | Some PeerClosed => s
  | Some _ => watch_evaluate state (s <| peer := Some state |>)
  end.

(** A read that ended or failed, for whoever reads. *)
Definition read_throws (error : caught) (s : ReceiverSession) : ReceiverSession :=
  let e := exchangeFailure error in
  match main s with
  | ReadingManifest => throw_call (CDirect e) s
  | ReadingAnswer _ => throw_accept (CDirect e) s
  | _ => match loop s with LoopReading => answers_read_failed e s | _ => s end
  end.

(** [setTimeout(giveUp, ...)] fires. *)
Definition timer_fires (get : Watch → timer) (spend : Watch → Watch) (s : ReceiverSession) : ReceiverSession :=
  match watch s with
  | Some w => if bool_decide (get w = SendSession.Armed) then giveUp (s <| watch := Some (spend w) |>) else s
  | None => s
  end.

(** ** Everything that happens to a session *)

Inductive receive_event : Type :=
  | CallInvitation (i : Invitation) | CallReadManifest | CallDecline | CallAccept (created : PeerMade) | CallRestartIce
  | StopCalled (reason : StopReason) (immediate : bool) | CloseCalled | FlushDone
  | ReadSettles (payload : bytes) | ReadFails (error : js_error) | ReadEnds
  | ExchangeSettles (error : option js_error)
  | OfferMade (sdp : jstr) | OfferFails (error : js_error)
  | AnswerApplied | AnswerRefused (error : js_error)
  | SinkMade | SinkFails (error : caught) | SinkAborted
  | ChannelOpens | ChannelFails (error : js_error) | WatchFails
  | TransferSettles (error : option caught)
  | RestartTurn | RestartOffered (sdp : jstr) | RestartOfferFails (error : js_error) | RestartApplied (error : option js_error)
  | PeerChanges (state : PeerState)
  | ConnectTimerFires | FailedTimerFires | RestartTimerFires | Drained.

Definition receive_step (s : ReceiverSession) (e : receive_event) : ReceiverSession :=
  match e, main s with
  | CallInvitation i, Created => invitation i s
  | CallReadManifest, Invited => read_manifest s
  | CallDecline, HasManifest => decline s
  | CallAccept created, HasManifest => accept created s
  | CallRestartIce, _ => restartIce s
  | StopCalled reason immediate, _ => stop reason immediate s
  | CloseCalled, _ => close_session s
  | FlushDone, _ => if flushing s then close_session (s <| flushing := false |>) else s
  | ReadSettles payload, ReadingManifest =>
      let '(s, r) := receive payload (option_map inv_max (invite s)) s in on_manifest r s
  | ReadSettles payload, ReadingAnswer total => let '(s, r) := receive payload None s in on_answer total r s
  | ReadSettles payload, _ =>
      match loop s with LoopReading => let '(s, r) := receive payload None s in on_restart_answer r s | _ => s end
  | ReadFails error, _ => read_throws (CError error) s
  | ReadEnds, _ => if ended (link s) then read_throws (CDirect exchange_ended) s else s
  | ExchangeSettles error, _ => exchange_settles error s
  | OfferMade sdp, MakingOffer total => offer_made total sdp s
  | OfferFails error, MakingOffer _ => throw_accept (CError error) s
  | AnswerApplied, ApplyingAnswer key total => s <| main := CreatingSink key total |>
  | AnswerRefused error, ApplyingAnswer _ _ => throw_accept (CError error) s
  | SinkMade, CreatingSink _ total => read_for_loop (s <| sink := Some false |> <| main := Joining total |>)
  | SinkFails error, CreatingSink _ _ => throw_accept error s
  | SinkAborted, Aborting error => throw_on error s
  | ChannelOpens, Joining total => say SendSession.OnConnected (s <| has_channel := true |> <| main := Receiving total |>)
  | ChannelFails error, Joining _ => throw_accept (CError error) s
  | WatchFails, (Joining _ | Receiving _) =>
      match watch s ≫= SendSession.watch_failed with Some e => throw_accept (CDirect e) s | None => s end
  | TransferSettles None, Receiving _ => leave None (s <| finished := true |>)
  | TransferSettles (Some error), Receiving _ => throw_accept error s
  | RestartTurn, _ => restart_begins s
  | RestartOffered sdp, _ => match turn s with TurnOffering => restart_offered sdp s | _ => s end
  | RestartOfferFails error, _ => match turn s with TurnOffering => end_turn (Some (CError error)) s | _ => s end
  | RestartApplied error, _ => restart_applied error s
  | PeerChanges state, _ => peer_changes state s
  | ConnectTimerFires, _ => timer_fires SendSession.connectTimer (λ w, w <| SendSession.connectTimer := SendSession.Spent |>) s
  | FailedTimerFires, _ => timer_fires SendSession.failedTimer (λ w, w <| SendSession.failedTimer := SendSession.Spent |>) s
  | RestartTimerFires, _ => restart_timer_fires s
  | Drained, Draining result =>
      let s := close_session s in
      s <| main := Over (match result with None => OutReceived | Some e => OutFailed e end) |>
  | _, _ => s
  end.

Definition receive_run (s : ReceiverSession) (events : list receive_event) : ReceiverSession := foldl receive_step s events.
End Session.
