(* ===== verification/ReceiveSessionFacts.v ===== *)
(** * The receiving session keeps to the protocol

    What the operations of [ReceiverSession] do to the link, to the sink and to
    the restarts, and the properties of the session. *)

From S2P Require Import Prelude JsString Utf8 Bytes Json Security DirectConfig Messages MessageFacts Failure DirectLink LinkFacts.
From S2P Require Import Peer ReceiveSession.
From S2P Require Envelope SendSession.

Notation drop_quiet := (quiet drop_events).

(** ** What the session's helpers leave alone *)

(** Both the exchange and the connection are done with. *)
Definition shut (s : ReceiverSession) : Prop := ended (link s) = true ∧ (peer s = None ∨ peer s = Some PeerClosed).

(** A change that sends nothing but a stop, moves no place, opens and finishes
    nothing, starts no restart and leaves the sink. *)
Record calm (s s' : ReceiverSession) : Prop := {
  c_link : drop_quiet (link s) (link s');
  c_main : main s' = main s;
  c_used : restartsUsed s' = restartsUsed s;
  c_turn : turn s' = TurnOffering → turn s = TurnOffering;
  c_finished : finished s' = finished s;
  c_run : run s' = None ↔ run s = None;
  c_sink : sink s' = sink s;
  c_shut : shut s → shut s';
}.

Lemma recv_calm_refl s : calm s s.
Proof. split; auto with wild. Qed.
Lemma recv_calm_trans s s' s'' : calm s s' → calm s' s'' → calm s s''.
Proof. intros [] []. split; [by eapply quiet_trans|try congruence; try tauto..]. Qed.

Ltac calm_field :=
  split; cbn; [auto with wild|try done..|unfold shut; cbn; first [tauto|intros [? ?]; split; auto using link_end_ended]].

Lemma recv_calm_with_link l s : drop_quiet (link s) l → calm s (s <| link := l |>).
Proof. intros Hq. split; cbn; try done. intros [? ?]. split; cbn; [by apply (q_ended _ _ _ Hq)|done]. Qed.

Lemma recv_calm_record e s : calm s (record_failure e s).
Proof. unfold record_failure. destruct (failure s); [apply recv_calm_refl|calm_field]. Qed.
Lemma recv_calm_abort s : calm s (abort_run s).
Proof. unfold abort_run. destruct (run s) eqn:E; [|apply recv_calm_refl]. split; cbn; auto with wild. by rewrite E. Qed.
Lemma recv_calm_stop_link reason s : calm s (stop_link reason s).1.
Proof.
  unfold stop_link. assert (drop_quiet (link s) (link_stop reason (link s)).1) as Hq by exact (quiet_stop _ reason _).
  destruct (link_stop reason (link s)) as [l r]. by apply recv_calm_with_link.
Qed.
Lemma calm_schedule state s : calm s (scheduleRestart state s).
Proof. unfold scheduleRestart. repeat case_match; first [apply recv_calm_refl|calm_field]. Qed.
Lemma calm_end_turn error s : calm s (end_turn error s).
Proof. calm_field. Qed.
Lemma calm_await s : calm s (await_waiting s).
Proof.
  unfold await_waiting. destruct (turn s); try apply recv_calm_refl. destruct (waits s !! id) as [[]|]; first [apply recv_calm_refl|apply calm_end_turn].
Qed.
Lemma calm_settle_wait id w s : calm s (settle_wait id w s).
Proof.
  unfold settle_wait. destruct (waits s !! id) as [[]|]; try apply recv_calm_refl. eapply recv_calm_trans; [|apply calm_await]. calm_field.
Qed.
Lemma calm_reject e s : calm s (reject_pending e s).
Proof.
  unfold reject_pending. destruct (pendingRestart s) as [[i id]|]; [|apply recv_calm_refl].
  eapply recv_calm_trans; [|apply calm_settle_wait]. calm_field.
Qed.
Lemma calm_watch_evaluate state s : calm s (watch_evaluate state s).
Proof.
  unfold watch_evaluate. destruct (watch s) as [w|]; [|apply recv_calm_refl]. destruct (SendSession.watch_stopped w); [apply recv_calm_refl|].
  eapply recv_calm_trans; [|apply calm_schedule]. calm_field.
Qed.
Lemma recv_calm_close_peer s : calm s (close_peer s).
Proof.
  unfold close_peer. destruct (peer s) as [[]|] eqn:E; try apply recv_calm_refl;
    (eapply recv_calm_trans; [|apply calm_watch_evaluate]; split; cbn; auto with wild; intros [Hl _]; split; cbn; auto).
Qed.
Lemma recv_calm_close s : calm s (close_session s).
Proof. unfold close_session. eapply recv_calm_trans; [apply recv_calm_close_peer|calm_field]. Qed.
Lemma recv_calm_giveUp s : calm s (giveUp s).
Proof.
  unfold giveUp. destruct (watch s) as [w|]; [|apply recv_calm_refl]. destruct (SendSession.watch_stopped w); [apply recv_calm_refl|].
  eapply recv_calm_trans; [apply (recv_calm_record (SendSession.gave_up w))|]. eapply recv_calm_trans; [apply recv_calm_close|calm_field].
Qed.
Lemma recv_calm_fail e s : calm s (fail e s).
Proof.
  unfold fail. eapply recv_calm_trans; [apply (recv_calm_record e)|]. eapply recv_calm_trans; [apply calm_reject|].
  eapply recv_calm_trans; [apply recv_calm_giveUp|]. eapply recv_calm_trans; [apply recv_calm_abort|apply recv_calm_close_peer].
Qed.
Lemma recv_calm_stop reason immediate s : calm s (stop reason immediate s).
Proof.
  unfold stop. destruct (finished s); [apply recv_calm_refl|]. eapply recv_calm_trans; [apply recv_calm_record|]. eapply recv_calm_trans; [apply recv_calm_abort|].
  eapply recv_calm_trans; [apply (recv_calm_stop_link reason)|]. destruct immediate; [apply recv_calm_close|calm_field].
Qed.
Lemma recv_calm_end error s : calm s (end_session error s).1.
Proof. unfold end_session. cbn [fst]. destruct (d_kind _); try apply recv_calm_refl; apply recv_calm_stop_link. Qed.
Lemma recv_calm_say h s : calm s (say h s).
Proof. calm_field. Qed.
Lemma calm_loop p s : calm s (s <| loop := p |>).
Proof. calm_field. Qed.
Lemma calm_fail_loop e s : calm s (fail_loop e s).
Proof. eapply recv_calm_trans; [apply (calm_loop LoopOver)|apply recv_calm_fail]. Qed.
Lemma calm_read_failed e s : calm s (answers_read_failed e s).
Proof.
  unfold answers_read_failed. eapply recv_calm_trans; [apply (calm_loop LoopOver)|]. eapply recv_calm_trans; [apply calm_reject|].
  destruct (d_kind e); first [apply recv_calm_refl|apply recv_calm_fail].
Qed.
Lemma calm_read_for_loop s : calm s (read_for_loop s).
Proof. unfold read_for_loop. destruct (ended (link s)); [apply calm_read_failed|apply calm_loop]. Qed.
Lemma calm_stop_then (place : nat → receiver_loop) k reason s : (∀ s, calm s (k s)) →
  calm s (match stop_link reason s with (s, Some (SentAt i)) => s <| loop := place i |> | (s, _) => k s end).
Proof.
  intros Hk. pose proof (recv_calm_stop_link reason s) as Hc. destruct (stop_link reason s) as [s' r]. cbn [fst] in Hc.
  destruct r as [[i|er]|]; (eapply recv_calm_trans; [exact Hc|]); auto using calm_loop.
Qed.
Lemma calm_on_restart_answer r s : calm s (on_restart_answer r s).
Proof.
  assert (calm s match stop_link failed s with
                 | (s, Some (SentAt i)) => s <| loop := LoopUnasked i |>
                 | (s, _) => fail_loop unasked s
                 end) as Hr by (apply calm_stop_then; apply calm_fail_loop).
  unfold on_restart_answer. destruct r as [m index|reason e].
  - destruct m; try exact Hr; [|apply calm_fail_loop]. destruct (pendingRestart s) as [[i id]|]; [|exact Hr].
    destruct (i =? index); [calm_field|exact Hr].
  - apply (calm_stop_then (λ i, LoopRefusing i e)). apply calm_read_failed.
Qed.
Lemma calm_restart_applied error s : calm s (restart_applied error s).
Proof.
  unfold restart_applied. destruct (loop s); try apply recv_calm_refl. eapply recv_calm_trans; [apply calm_settle_wait|apply calm_read_for_loop].
Qed.
Lemma calm_turn_settled i error s : calm s (turn_settled i error s).
Proof.
  unfold turn_settled. destruct (turn s) eqn:E; try apply recv_calm_refl. destruct (i =? i0)%nat; [|apply recv_calm_refl].
  destruct error; [apply calm_end_turn|]. eapply recv_calm_trans; [|apply calm_await]. calm_field.
Qed.
Lemma calm_loop_settled i s : calm s (loop_settled i s).
Proof.
  unfold loop_settled. destruct (loop s); try apply recv_calm_refl; (destruct (_ =? _)%nat; [|apply recv_calm_refl]);
    [apply calm_read_failed|apply calm_fail_loop].
Qed.
Lemma recv_calm_peer_changes state s : calm s (peer_changes state s).
Proof.
  unfold peer_changes. destruct (peer s) as [[]|] eqn:E; try apply recv_calm_refl;
    (eapply recv_calm_trans; [|apply calm_watch_evaluate]; split; cbn; auto with wild; intros [Hl Hp]; rewrite E in Hp; by destruct Hp).
Qed.
Lemma recv_calm_timer get spend s : calm s (timer_fires get spend s).
Proof.
  unfold timer_fires. destruct (watch s) as [w|]; [|apply recv_calm_refl]. case_bool_decide; [|apply recv_calm_refl].
  eapply recv_calm_trans; [|apply recv_calm_giveUp]. calm_field.
Qed.
Lemma calm_restart_timer s : calm s (restart_timer_fires s).
Proof. unfold restart_timer_fires. case_bool_decide; [|apply recv_calm_refl]. cbn zeta. destruct (_ <? _); calm_field. Qed.

(** ** The invariant *)

(** How many messages have been sent at each place, while nothing has stopped
    the link. *)
Definition sent_at (m : receiver_main) : option Z :=
  match m with
  | Created => Some 0
  | SendingInvite _ | Invited | ReadingManifest | HasManifest | MakingOffer _ => Some 1
  | _ => None
  end.

Record session_inv (s : ReceiverSession) : Prop := {
  rv_link : speaks drop_events (link s);
  rv_used : 0 <= restartsUsed s <= restarts;
  rv_phase : ∀ n, sent_at (main s) = Some n → stopped (link s) = false → sentCount (link s) = n;
  rv_count : stopped (link s) = false → sentCount (link s) <= 2 + restartsUsed s;
  rv_turn : turn s = TurnOffering → stopped (link s) = false → 2 <= sentCount (link s) <= 1 + restartsUsed s;
}.

Lemma recv_calm_inv s s' : calm s s' → session_inv s → session_inv s'.
Proof.
  intros [Hq Hm Hu Ht _ _ _ _] [Hlk Hused Hp Hc Hturn]. pose proof (quiet_running _ _ _ Hq) as Hr. split.
  - by apply Hq.
  - by rewrite Hu.
  - rewrite Hm. intros n Hn Hs. destruct (Hr Hs) as [Hs' ->]. auto.
  - rewrite Hu. intros Hs. destruct (Hr Hs) as [Hs' ->]. auto.
  - rewrite Hu. intros Hto Hs. destruct (Hr Hs) as [Hs' ->]. auto.
Qed.

(** A place that says nothing of the count, or what holds of it. *)
Lemma goto_inv s m : (∀ n, sent_at m = Some n → stopped (link s) = false → sentCount (link s) = n) → session_inv s →
  session_inv (s <| main := m |>).
Proof. intros Hm []. by split. Qed.

Lemma recv_over_inv s s' m : calm s s' → sent_at m = None → session_inv s → session_inv (s' <| main := m |>).
Proof. intros Hc Hm Hi. apply goto_inv; [by rewrite Hm|by eapply recv_calm_inv]. Qed.

Lemma recv_throw_call_inv error s : session_inv s → session_inv (throw_call error s).
Proof.
  intros Hi. unfold throw_call. pose proof (recv_calm_end error s) as Hc. destruct (end_session error s) as [s' e]. by eapply recv_over_inv.
Qed.

Lemma recv_leave_inv result s s' : calm s s' → session_inv s → session_inv (leave result s').
Proof. intros Hc Hi. unfold leave. eapply recv_over_inv; [|done|exact Hi]. eapply recv_calm_trans; [exact Hc|calm_field]. Qed.

Lemma throw_on_inv error s : session_inv s → session_inv (throw_on error s).
Proof.
  intros Hi. unfold throw_on. match goal with |- context [end_session ?c s] => pose proof (recv_calm_end c s) as Hc; destruct (end_session c s) as [s' e] end.
  by eapply recv_leave_inv.
Qed.

Lemma throw_accept_inv error s : session_inv s → session_inv (throw_accept error s).
Proof.
  intros Hi. unfold throw_accept. destruct (sink s); [|by apply throw_on_inv]. apply goto_inv; [done|]. by destruct Hi.
Qed.

(** ** Every step *)

Section Steps.
Context `{Unicode}.

Lemma recv_calm_receive payload max s : calm s (receive payload max s).1.
Proof.
  unfold receive. pose proof (quiet_read drop_events drop [] payload max (link s)) as Hq.
  destruct (link_read drop [] payload max (link s)) as [l r]. by apply recv_calm_with_link.
Qed.

Lemma drop_event_at e i : 0 <= i → e ∈ allowedEvents drop i → e ∈ drop_events i.
Proof.
  unfold drop_events. intros Hi. destruct (i =? 0) eqn:E; [|done]. apply Z.eqb_eq in E as ->. set_solver.
Qed.

(** A restart may stand at the indexes two to six. *)
Lemma restart_stands sdp i : 2 <= i <= 1 + restarts → event_of (Restart sdp) ∈ drop_events i.
Proof.
  unfold restarts. intros Hi. apply drop_event_at; [lia|]. unfold allowedEvents, messagesPerSide, restarts.
  rewrite (proj2 (Z.ltb_ge _ 0)), (proj2 (Z.leb_gt 8 _)) by lia. cbn [orb].
  rewrite (proj2 (Z.eqb_neq _ 0)), (proj2 (Z.eqb_neq _ 1)), (proj2 (Z.leb_le _ (1 + 5))) by lia. set_solver.
Qed.

(** A message is sent at the index its place says. *)
Lemma recv_send_speaks m s n : session_inv s → is_stop m = false → (stopped (link s) = false → sentCount (link s) = n) →
  event_of m ∈ drop_events n → speaks drop_events (link_send m (link s)).1.
Proof.
  intros Hi Hm Hn Ha. apply speaks_send; [|by apply link_send_inv, Hi|apply Hi]. intros _ [Hs|Hs]; [by rewrite Hn|congruence].
Qed.

(** A method sends its message, goes on where it waits for it, or throws. *)
Lemma send_from_inv m s n (place : nat → receiver_main) k :
  session_inv s → is_stop m = false → sent_at (main s) = Some n → n <= 1 → event_of m ∈ drop_events n →
  (∀ i j, sent_at (place i) = Some j → j = n + 1) → (∀ error s, session_inv s → session_inv (k error s)) →
  session_inv (match link_send m (link s) with
               | (l, SentAt i) => s <| link := l |> <| main := place i |>
               | (l, SendRefused error) => k error (s <| link := l |>)
               end).
Proof.
  intros Hi Hm Hn Hle Ha Hp Hk. pose proof (rv_phase s Hi n Hn) as Hc. pose proof (recv_send_speaks m s n Hi Hm Hc Ha) as Hsp.
  destruct (link_send m (link s)) as [l [i|error]] eqn:E.
  - pose proof E as E'. apply link_send_at in E' as (_ & _ & _ & _ & El & _). destruct Hi as [H1 H2 H3 H4 H5].
    rewrite El in *. split; cbn in *; try done.
    + intros j Hj Hs. rewrite (Hp i j Hj), (Hc Hs). done.
    + intros Hs. specialize (Hc Hs). lia.
    + intros Hto Hs. specialize (Hc Hs). specialize (H5 Hto Hs). lia.
  - apply link_send_refused in E as ->. apply Hk. eapply recv_calm_inv; [|exact Hi]. calm_field.
Qed.

Lemma invitation_inv i s : main s = Created → session_inv s → session_inv (invitation i s).
Proof.
  intros Hm Hi. unfold invitation. set (s1 := s <| invite := Some i |>).
  apply (send_from_inv (invitation_message i) s1 0 SendingInvite throw_call); try done.
  - eapply recv_calm_inv; [|exact Hi]. calm_field.
  - by subst s1; cbn; rewrite Hm.
  - set_solver.
  - by intros ? ? [= <-].
  - apply recv_throw_call_inv.
Qed.

Lemma declined_inv error s : session_inv s → session_inv (declined error s).
Proof. intros Hi. eapply (recv_over_inv s); [|done|done]. calm_field. Qed.

Lemma decline_inv s : main s = HasManifest → session_inv s → session_inv (decline s).
Proof.
  intros Hm Hi. unfold decline. apply (send_from_inv Decline s 1 SendingDecline (λ error, declined (Some error))); try done.
  - by rewrite Hm.
  - set_solver.
  - intros error. apply declined_inv.
Qed.

Lemma offer_made_inv total sdp s : main s = MakingOffer total → session_inv s → session_inv (offer_made total sdp s).
Proof.
  intros Hm Hi. unfold offer_made. apply (send_from_inv (Accept sdp) s 1 (λ i, SendingAccept i total) throw_accept); try done.
  - by rewrite Hm.
  - set_solver.
  - apply throw_accept_inv.
Qed.

Lemma accept_inv created s : main s = HasManifest → session_inv s → session_inv (accept created s).
Proof.
  intros Hm Hi. unfold accept. destruct (invite s), (manifest s) as [m|]; try done.
  assert (session_inv (s <| run := Some false |>)) as Hr by (by destruct Hi; split).
  destruct (Envelope.envelopeBytes _ _ _); [|by apply throw_accept_inv]. destruct created; try by apply throw_accept_inv.
  eapply recv_calm_inv; [apply calm_schedule|]. destruct Hi as [H1 H2 H3 H4 H5]. split; cbn; try done.
  intros n [= <-]. apply H3. by rewrite Hm.
Qed.

Lemma read_manifest_inv s : main s = Invited → session_inv s → session_inv (read_manifest s).
Proof.
  intros Hm Hi. unfold read_manifest. destruct (ended (link s)); [by apply recv_throw_call_inv|]. apply goto_inv; [|done].
  intros n [= <-]. apply (rv_phase s Hi). by rewrite Hm.
Qed.

Lemma read_answer_inv total s : session_inv s → session_inv (read_answer total s).
Proof. intros Hi. unfold read_answer. destruct (ended (link s)); [by apply throw_accept_inv|]. by apply goto_inv. Qed.

(** A refused message: the stop, then the place that waits for it or the throw. *)
Lemma recv_refusal_inv reason (place : nat → receiver_main) k s : session_inv s → (∀ i, sent_at (place i) = None) →
  (∀ s, session_inv s → session_inv (k s)) →
  session_inv (match stop_link reason s with (s, Some (SentAt i)) => s <| main := place i |> | (s, _) => k s end).
Proof.
  intros Hi Hp Hk. pose proof (recv_calm_stop_link reason s) as Hc. destruct (stop_link reason s) as [s' r]. cbn [fst] in Hc.
  pose proof (recv_calm_inv _ _ Hc Hi) as Hi'. destruct r as [[i|er]|]; auto. apply goto_inv; [by rewrite Hp|done].
Qed.

Lemma on_manifest_inv r s : main s = ReadingManifest → session_inv s → session_inv (on_manifest r s).
Proof.
  intros Hm Hi. unfold on_manifest. destruct r as [m index|reason e].
  - destruct m; try by apply recv_throw_call_inv. destruct Hi as [H1 H2 H3 H4 H5]. split; cbn; try done.
    intros n [= <-]. apply H3. by rewrite Hm.
  - apply (recv_refusal_inv reason (λ i, Refusing i e)); [done|done|apply recv_throw_call_inv].
Qed.

Lemma on_answer_inv total r s : session_inv s → session_inv (on_answer total r s).
Proof.
  intros Hi. unfold on_answer. destruct r as [m index|reason e].
  - destruct m; try by apply throw_accept_inv. by apply goto_inv.
  - apply (recv_refusal_inv reason (λ i, RefusingAnswer i e)); [done|done|apply throw_accept_inv].
Qed.

Lemma recv_main_settled_inv i error s : session_inv s → session_inv (main_settled i error s).
Proof.
  intros Hi. unfold main_settled. destruct (main s) eqn:Hm; try done; (destruct (_ =? _)%nat; [|done]).
  - destruct error; [by apply recv_throw_call_inv|]. apply goto_inv; [|done]. intros n [= <-]. apply (rv_phase s Hi). by rewrite Hm.
  - by apply recv_throw_call_inv.
  - by apply declined_inv.
  - destruct error; [by apply throw_accept_inv|]. apply read_answer_inv. eapply recv_calm_inv; [apply recv_calm_say|done].
  - by apply throw_accept_inv.
Qed.

Lemma recv_exchange_settles_inv error s : session_inv s → session_inv (exchange_settles error s).
Proof.
  intros Hi. unfold exchange_settles. destruct (_ <? _)%nat; [|done]. eapply recv_calm_inv; [apply calm_turn_settled|].
  eapply recv_calm_inv; [apply calm_loop_settled|]. apply recv_main_settled_inv.
  eapply recv_calm_inv; [|exact Hi]. apply recv_calm_with_link, quiet_settles.
Qed.

Lemma recv_read_throws_inv error s : session_inv s → session_inv (read_throws error s).
Proof.
  intros Hi. unfold read_throws. assert (session_inv (match loop s with LoopReading => answers_read_failed (exchangeFailure error) s | _ => s end)).
  { destruct (loop s); try done. eapply recv_calm_inv; [apply calm_read_failed|done]. }
  destruct (main s); try done; [by apply recv_throw_call_inv|by apply throw_accept_inv].
Qed.

(** A turn of the restarts begins only once the accept has been handed over. *)
Definition timely_step (s : ReceiverSession) (e : receive_event) : bool :=
  match e with RestartTurn => bool_decide (peer s = None) || (2 <=? sentCount (link s)) | _ => true end.

Fixpoint timely (s : ReceiverSession) (events : list receive_event) : bool :=
  match events with [] => true | e :: events => timely_step s e && timely (receive_step s e) events end.

Lemma restart_begins_inv s : timely_step s RestartTurn = true → session_inv s → session_inv (restart_begins s).
Proof.
  cbn [timely_step]. intros Ht Hi. unfold restart_begins. destruct (turn s) eqn:Hto; try done. destruct (queued s) as [|n]; [done|].
  assert (session_inv (s <| queued := n |>)) as Hq by (by destruct Hi; split).
  cbn zeta. change (peer (s <| queued := n |>)) with (peer s). change (finished (s <| queued := n |>)) with (finished s).
  change (link (s <| queued := n |>)) with (link s). change (restartsUsed (s <| queued := n |>)) with (restartsUsed s).
  destruct (bool_decide (peer s = None)) eqn:Ep; cbn [orb] in Ht |- *; [eapply recv_calm_inv; [apply calm_end_turn|done]|].
  destruct (_ || _ || _); [eapply recv_calm_inv; [apply calm_end_turn|done]|].
  destruct (restarts <=? restartsUsed s) eqn:Eu; [eapply recv_calm_inv; [apply calm_end_turn|done]|].
  destruct Hi as [H1 H2 H3 H4 H5]. split; cbn; try done; bool_prop.
  - lia.
  - intros Hs. specialize (H4 Hs). lia.
  - intros _ Hs. specialize (H4 Hs). lia.
Qed.

Lemma restart_offered_inv sdp s : turn s = TurnOffering → session_inv s → session_inv (restart_offered sdp s).
Proof.
  intros Hto Hi. unfold restart_offered. cbn zeta.
  match goal with |- context [link_send _ (link ?x)] => set (s1 := x) end.
  assert (calm s s1) as Hc by calm_field. pose proof (recv_calm_inv _ _ Hc Hi) as Hi1. change (link s1) with (link s).
  pose proof (rv_turn s Hi Hto) as Hn. pose proof (rv_used s Hi) as Hu.
  assert (speaks drop_events (link_send (Restart sdp) (link s)).1) as Hsp.
  { apply speaks_send; [|by apply link_send_inv, Hi|apply Hi]. intros _ [Hs|Hs]; [|done]. specialize (Hn Hs).
    apply restart_stands. lia. }
  destruct (link_send (Restart sdp) (link s)) as [l [i|error]] eqn:E.
  - apply link_send_at in E as (_ & _ & _ & _ & El & _). rewrite El in *. destruct Hi as [H1 H2 H3 H4 H5].
    split; cbn in *; try done.
    + intros n Hp Hs. specialize (Hn Hs). specialize (H3 n Hp Hs). destruct (main s); cbn in Hp; simplify_eq; lia.
    + intros Hs. specialize (Hn Hs). lia.
  - apply link_send_refused in E as ->. eapply recv_calm_inv; [apply calm_end_turn|]. eapply recv_calm_inv; [|exact Hi1]. calm_field.
Qed.

Lemma read_settles_inv payload s : session_inv s → session_inv (receive_step s (ReadSettles payload)).
Proof.
  intros Hi. cbn [receive_step].
  assert (∀ max, calm s (receive payload max s).1) as Hc by (intros; apply recv_calm_receive).
  destruct (main s) eqn:Hm; try (destruct (loop s); try done; specialize (Hc None); destruct (receive payload None s) as [s' r];
    eapply recv_calm_inv; [apply calm_on_restart_answer|by eapply recv_calm_inv]).
  - specialize (Hc (option_map inv_max (invite s))). destruct (receive payload _ s) as [s' r]. apply on_manifest_inv; [|by eapply recv_calm_inv].
    cbn [fst] in Hc. by rewrite (c_main _ _ Hc).
  - specialize (Hc None). destruct (receive payload None s) as [s' r]. apply on_answer_inv. by eapply recv_calm_inv.
Qed.

Lemma watch_fails_inv s : session_inv s →
  session_inv (match watch s ≫= SendSession.watch_failed with Some e => throw_accept (CDirect e) s | None => s end).
Proof. intros Hi. destruct (watch s ≫= _); [by apply throw_accept_inv|done]. Qed.

Lemma receive_step_inv s e : timely_step s e = true → session_inv s → session_inv (receive_step s e).
Proof.
  intros Ht Hi. assert (∀ f : ReceiverSession → ReceiverSession, (∀ s, calm s (f s)) → session_inv (f s)) as Hf.
  { intros f Hc. by eapply recv_calm_inv. }
  destruct e as [| | | | | | | | | | | | | | | | | | | | | |[error|]| | | | | | | | |]; try by apply read_settles_inv; cbn [receive_step].
  all: cbn [receive_step].
  all: try (destruct (main s) eqn:Hm; try done;
    first [by apply invitation_inv|by apply read_manifest_inv|by apply decline_inv|by apply accept_inv|by eapply offer_made_inv
          |by apply throw_accept_inv|by apply throw_on_inv|by apply goto_inv|by apply watch_fails_inv]).
  - apply (Hf restartIce). intros; calm_field.
  - apply Hf, recv_calm_stop.
  - apply Hf, recv_calm_close.
  - destruct (flushing s); [|done]. eapply recv_calm_inv; [apply recv_calm_close|]. eapply recv_calm_inv; [|exact Hi]. calm_field.
  - by apply recv_read_throws_inv.
  - destruct (ended (link s)); [by apply recv_read_throws_inv|done].
  - by apply recv_exchange_settles_inv.
  - destruct (main s) eqn:Hm; try done. eapply recv_calm_inv; [apply calm_read_for_loop|].
    refine (goto_inv (s <| sink := Some false |>) (Joining total) _ _); [done|]. by destruct Hi as [H1 H2 H3 H4 H5]; split.
  - destruct (main s) eqn:Hm; try done. eapply recv_calm_inv; [apply recv_calm_say|]. eapply (recv_over_inv s); [|done|done]. calm_field.
  - destruct (main s) eqn:Hm; try done. eapply recv_leave_inv; [apply recv_calm_refl|]. by destruct Hi as [H1 H2 H3 H4 H5]; split.
  - by apply restart_begins_inv.
  - destruct (turn s) eqn:Hto; try done. by apply restart_offered_inv.
  - destruct (turn s) eqn:Hto; try done. apply Hf. intros; apply calm_end_turn.
  - apply (Hf (restart_applied error)). intros; apply calm_restart_applied.
  - apply (Hf (peer_changes state)). intros; apply recv_calm_peer_changes.
  - apply Hf. intros; apply recv_calm_timer.
  - apply Hf. intros; apply recv_calm_timer.
  - apply Hf. intros; apply calm_restart_timer.
  - destruct (main s) eqn:Hm; try done. eapply (recv_over_inv s); [apply recv_calm_close|done..].
Qed.

Lemma recv_session_start_inv : session_inv session_start.
Proof. split; [split; [apply link_start_inv|]|..]; try done. by intros n [= <-]. Qed.

Lemma receive_run_inv s events : timely s events = true → session_inv s → session_inv (receive_run s events).
Proof.
  revert s. induction events as [|e events IH]; intros s Ht Hi; [done|]. cbn in Ht. apply andb_true_iff in Ht as [H1 H2].
  cbn. apply IH; [done|]. by apply receive_step_inv.
Qed.
End Steps.

(** ** How a session ends *)

Section Ends.
Context `{Unicode}.
(** What is known once the transfer has resolved. *)
Context (resolved : Prop).

(** Before [accept] is called, and while it has not left; [k] is the sink. *)
Definition early (s : ReceiverSession) : Prop := run s = None ∧ finished s = false ∧ sink s = None.
Definition underway (k : option bool) (s : ReceiverSession) : Prop := run s ≠ None ∧ finished s = false ∧ sink s = k.

Definition ends_ok (s : ReceiverSession) : Prop :=
  match main s with
  | Created | SendingInvite _ | Invited | ReadingManifest | HasManifest | Refusing _ _ | SendingDecline _ => early s
  | MakingOffer _ | SendingAccept _ _ | ReadingAnswer _ | RefusingAnswer _ _ | ApplyingAnswer _ _ | CreatingSink _ _ => underway None s
  | Joining _ | Receiving _ => underway (Some false) s
  | Aborting _ => underway (Some true) s
  | Draining None => run s ≠ None ∧ finished s = true ∧ sink s = Some false ∧ resolved
  | Draining (Some _) => run s ≠ None ∧ finished s = false ∧ sink s ≠ Some false
  | Over OutReceived => finished s = true ∧ sink s = Some false ∧ shut s ∧ resolved
  | Over (OutDeclined _) => early s ∧ ended (link s) = true
  | Over (OutFailed _) => finished s = false ∧ sink s ≠ Some false ∧ (run s ≠ None → shut s)
  end.

Lemma calm_early s s' : calm s s' → early s → early s'.
Proof. intros [] (? & ? & ?). split_and!; [tauto|congruence..]. Qed.
Lemma calm_underway k s s' : calm s s' → underway k s → underway k s'.
Proof. intros [] (? & ? & ?). split_and!; [tauto|congruence..]. Qed.

Lemma recv_calm_ends s s' : calm s s' → ends_ok s → ends_ok s'.
Proof.
  intros Hc He. pose proof Hc as [Hq Hm _ _ Hf Hr Hk Hs]. pose proof (calm_early _ _ Hc) as H1.
  pose proof (λ k, calm_underway k _ _ Hc) as H2. unfold ends_ok in *. rewrite Hm.
  destruct (main s) as [| | | | | | | | | | | | | | | |[r|]|[|error|e]]; auto; rewrite ?Hf, ?Hk, ?Hr.
  - done.
  - done.
  - destruct He as (? & ? & ? & ?). auto.
  - destruct He as (? & ?). split; [auto|by apply (q_ended _ _ _ Hq)].
  - destruct He as (? & ? & ?). split_and!; auto.
Qed.

Lemma recv_throw_call_ends error s : early s → ends_ok (throw_call error s).
Proof.
  intros He. unfold throw_call. pose proof (recv_calm_end error s) as Hc. destruct (end_session error s) as [s' e].
  cbn [fst] in Hc. destruct (calm_early _ _ Hc He) as (Hr & Hf & Hk). unfold ends_ok; cbn. split_and!; congruence.
Qed.

Lemma throw_on_ends k error s : k ≠ Some false → underway k s → ends_ok (throw_on error s).
Proof.
  intros Hk Hu. unfold throw_on. match goal with |- context [end_session ?c s] => pose proof (recv_calm_end c s) as Hc; destruct (end_session c s) as [s' e] end.
  cbn [fst] in Hc. destruct (calm_underway _ _ _ Hc Hu) as (Hr & Hf & Hks). unfold ends_ok; cbn. split_and!; congruence.
Qed.

Lemma throw_accept_ends k error s : underway k s → ends_ok (throw_accept error s).
Proof.
  intros Hu. pose proof Hu as (Hr & Hf & Hk). unfold throw_accept. destruct (sink s) eqn:Ek.
  - split_and!; done.
  - by apply (throw_on_ends None).
Qed.

Lemma declined_ends error s : early s → ends_ok (declined error s).
Proof. intros He. unfold ends_ok; cbn. split; [exact He|apply link_end_ended]. Qed.

Lemma recv_refusal_ends reason (place : nat → receiver_main) k s (P : ReceiverSession → Prop) :
  (∀ s s', calm s s' → P s → P s') → P s → (∀ i s, P s → ends_ok (s <| main := place i |>)) → (∀ s, P s → ends_ok (k s)) →
  ends_ok (match stop_link reason s with (s, Some (SentAt i)) => s <| main := place i |> | (s, _) => k s end).
Proof.
  intros HP Hs Hp Hk. pose proof (recv_calm_stop_link reason s) as Hc. destruct (stop_link reason s) as [s' r]. cbn [fst] in Hc.
  pose proof (HP _ _ Hc Hs). destruct r as [[i|er]|]; auto.
Qed.

Lemma send_from_ends m s (place : nat → receiver_main) k (P : ReceiverSession → Prop) :
  (∀ l, P s → P (s <| link := l |>)) → P s → (∀ i s, P s → ends_ok (s <| main := place i |>)) → (∀ error s, P s → ends_ok (k error s)) →
  ends_ok (match link_send m (link s) with
           | (l, SentAt i) => s <| link := l |> <| main := place i |>
           | (l, SendRefused error) => k error (s <| link := l |>)
           end).
Proof. intros HP Hs Hp Hk. destruct (link_send m (link s)) as [l [i|error]]; auto. Qed.

Lemma accept_ends created s : main s = HasManifest → early s → ends_ok (accept created s).
Proof.
  intros Hm He. unfold accept. destruct (invite s), (manifest s) as [m|]; try (unfold ends_ok; by rewrite Hm).
  assert (underway None (s <| run := Some false |>)) as Hu by (destruct He as (? & ? & ?); by split_and!).
  destruct (Envelope.envelopeBytes _ _ _); [|by eapply throw_accept_ends]. destruct created; try by eapply throw_accept_ends.
  eapply recv_calm_ends; [apply calm_schedule|]. exact Hu.
Qed.

Lemma on_manifest_ends r s : early s → ends_ok (on_manifest r s).
Proof.
  intros He. unfold on_manifest. destruct r as [m index|reason e].
  - destruct m; try by apply recv_throw_call_ends. exact He.
  - apply (recv_refusal_ends reason (λ i, Refusing i e) (throw_call (CDirect e)) s early); first [exact calm_early|done|intros; by apply recv_throw_call_ends].
Qed.

Lemma on_answer_ends total r s : underway None s → ends_ok (on_answer total r s).
Proof.
  intros He. unfold on_answer. destruct r as [m index|reason e].
  - destruct m; try by eapply throw_accept_ends. exact He.
  - apply (recv_refusal_ends reason (λ i, RefusingAnswer i e) (throw_accept (CDirect e)) s (underway None)); first [exact (calm_underway None)|done|intros; by apply (throw_accept_ends None)].
Qed.

Lemma recv_main_settled_ends i error s : ends_ok s → ends_ok (main_settled i error s).
Proof.
  intros He. unfold main_settled. pose proof He as He'. unfold ends_ok in He'. destruct (main s) eqn:Hm; try exact He; (destruct (_ =? _)%nat; [|exact He]).
  - destruct error; [by apply recv_throw_call_ends|exact He'].
  - by apply recv_throw_call_ends.
  - by apply declined_ends.
  - destruct error; [by eapply throw_accept_ends|]. unfold read_answer.
    destruct (ended _); [by apply (throw_accept_ends None)|exact He'].
  - by eapply throw_accept_ends.
Qed.

Lemma recv_read_throws_ends error s : ends_ok s → ends_ok (read_throws error s).
Proof.
  intros He. unfold read_throws. pose proof He as He'. unfold ends_ok in He'.
  assert (ends_ok (match loop s with LoopReading => answers_read_failed (exchangeFailure error) s | _ => s end)).
  { destruct (loop s); try done. eapply recv_calm_ends; [apply calm_read_failed|done]. }
  destruct (main s); try done; [by apply recv_throw_call_ends|by eapply throw_accept_ends].
Qed.

Lemma restart_begins_ends s : ends_ok s → ends_ok (restart_begins s).
Proof.
  intros He. unfold restart_begins. destruct (turn s); try done. destruct (queued s) as [|n]; [done|]. cbn zeta.
  assert (ends_ok (s <| queued := n |>)) as Hq by exact He.
  destruct (_ || _ || _); [exact He|]. destruct (_ <=? _); exact He.
Qed.

Lemma restart_offered_ends sdp s : ends_ok s → ends_ok (restart_offered sdp s).
Proof.
  intros He. unfold restart_offered. cbn zeta. cbn [link]. destruct (link_send _ _) as [l r] eqn:E. cbn in E.
  assert (ends_ok (s <| link := l |>)) as Hl.
  { assert (ended (link s) = true → l = link s) as Hk.
    { intros Hx. destruct r; [apply link_send_at in E as (? & _); congruence|by apply link_send_refused in E]. }
    assert (ended (link s) = true → ended l = true) as Hs by (intros Hx; by rewrite Hk).
    assert (shut s → shut (s <| link := l |>)) as Hsh by (intros [? ?]; split; cbn; auto).
    unfold ends_ok in *. cbn in *. destruct (main s) as [| | | | | | | | | | | | | | | |[?|]|[|error|e]]; try done.
    - destruct He as (? & ? & ? & ?). auto.
    - destruct He as (? & ?). split; [done|auto].
    - destruct He as (? & ? & ?). split_and!; auto. }
  destruct r; exact Hl.
Qed.

Lemma drained_ends r s : main s = Draining r → ends_ok s →
  ends_ok (close_session s <| main := Over (match r with None => OutReceived | Some e => OutFailed e end) |>).
Proof.
  intros Hm He. pose proof (recv_calm_close s) as [_ _ _ _ Hf Hr Hk _].
  assert (shut (close_session s)) as Hshut.
  { unfold close_session. split; [apply link_end_ended|]. cbn -[close_peer]. unfold close_peer.
    destruct (peer s) as [[]|] eqn:Ep; auto; right;
      (unfold watch_evaluate, scheduleRestart; repeat case_match; done). }
  unfold ends_ok in He. rewrite Hm in He. unfold ends_ok. destruct r; cbn -[close_session]; rewrite Hf, Hk.
  - destruct He as (_ & ? & ?). by split_and!.
  - destruct He as (_ & ? & ? & ?). by split_and!.
Qed.

Lemma receive_step_ends s e : (e = TransferSettles None → resolved) → ends_ok s → ends_ok (receive_step s e).
Proof.
  intros Hres He. pose proof He as Hp. unfold ends_ok in Hp.
  assert (∀ f : ReceiverSession → ReceiverSession, (∀ s, calm s (f s)) → ends_ok (f s)) as Hf.
  { intros f Hc. by eapply recv_calm_ends. }
  assert (∀ l k, underway k s → underway k (s <| link := l |>)) as Hlu by done.
  destruct e as [| | | | | | | | | | | | | | | | | | | | | |[error|]| | | | | | | | |]; cbn [receive_step].
  - destruct (main s) eqn:Hm; try exact He. unfold invitation.
    apply (send_from_ends _ (s <| invite := Some i |>) SendingInvite throw_call early); first [done|intros; by apply recv_throw_call_ends].
  - destruct (main s) eqn:Hm; try exact He. unfold read_manifest. destruct (ended (link s)); [by apply recv_throw_call_ends|exact Hp].
  - destruct (main s) eqn:Hm; try exact He. unfold decline.
    apply (send_from_ends _ s SendingDecline (λ error, declined (Some error)) early); first [done|intros; by apply declined_ends].
  - destruct (main s) eqn:Hm; try exact He. by apply accept_ends.
  - exact He.
  - apply Hf, recv_calm_stop.
  - apply Hf, recv_calm_close.
  - destruct (flushing s); [|done]. eapply recv_calm_ends; [apply recv_calm_close|exact He].
  - assert (∀ max, calm s (receive payload max s).1) as Hc by (intros; apply recv_calm_receive).
    destruct (main s) eqn:Hm; try (destruct (loop s); try exact He; specialize (Hc None); destruct (receive payload None s) as [s' r];
      eapply recv_calm_ends; [apply calm_on_restart_answer|by eapply recv_calm_ends]).
    + specialize (Hc (option_map inv_max (invite s))). destruct (receive payload _ s) as [s' r]. apply on_manifest_ends. by eapply calm_early.
    + specialize (Hc None). destruct (receive payload None s) as [s' r]. apply on_answer_ends. by eapply calm_underway.
  - by apply recv_read_throws_ends.
  - destruct (ended (link s)); [by apply recv_read_throws_ends|done].
  - unfold exchange_settles. destruct (_ <? _)%nat; [|done]. eapply recv_calm_ends; [apply calm_turn_settled|].
    eapply recv_calm_ends; [apply calm_loop_settled|]. apply recv_main_settled_ends.
    eapply recv_calm_ends; [|exact He]. apply recv_calm_with_link, quiet_settles.
  - destruct (main s) eqn:Hm; try exact He. unfold offer_made.
    apply (send_from_ends _ s (λ i, SendingAccept i total) throw_accept (underway None)); first [done|intros; by apply (throw_accept_ends None)].
  - destruct (main s) eqn:Hm; try exact He. by eapply throw_accept_ends.
  - destruct (main s) eqn:Hm; try exact He. exact Hp.
  - destruct (main s) eqn:Hm; try exact He. by eapply throw_accept_ends.
  - destruct (main s) eqn:Hm; try exact He. eapply recv_calm_ends; [apply calm_read_for_loop|]. by destruct Hp as (? & ? & _).
  - destruct (main s) eqn:Hm; try exact He. by eapply throw_accept_ends.
  - destruct (main s) eqn:Hm; try exact He. by apply (throw_on_ends (Some true)).
  - destruct (main s) eqn:Hm; try exact He. exact Hp.
  - destruct (main s) eqn:Hm; try exact He. by eapply throw_accept_ends.
  - destruct (main s) eqn:Hm; try exact He; (destruct (watch s ≫= _); [by eapply throw_accept_ends|exact He]).
  - destruct (main s) eqn:Hm; try exact He. by eapply throw_accept_ends.
  - destruct (main s) eqn:Hm; try exact He. destruct Hp as (? & ? & ?). unfold ends_ok; cbn. auto.
  - by apply restart_begins_ends.
  - destruct (turn s); try exact He. by apply restart_offered_ends.
  - destruct (turn s); try exact He.
  - apply (Hf (restart_applied error)). intros; apply calm_restart_applied.
  - apply (Hf (peer_changes state)). intros; apply recv_calm_peer_changes.
  - apply Hf. intros; apply recv_calm_timer.
  - apply Hf. intros; apply recv_calm_timer.
  - apply Hf. intros; apply calm_restart_timer.
  - destruct (main s) eqn:Hm; try exact He. by apply drained_ends.
Qed.

Lemma receive_run_ends s events : (TransferSettles None ∈ events → resolved) → ends_ok s → ends_ok (receive_run s events).
Proof.
  revert s. induction events as [|e events IH]; intros s Hr He; [done|]. cbn. apply IH; [intros ?; apply Hr; by right|].
  apply receive_step_ends; [|done]. intros ->. apply Hr. by left.
Qed.
End Ends.

(** ** The link and the restarts, whenever a restart begins *)

Definition sound (s : ReceiverSession) : Prop := link_inv (link s) ∧ restartsUsed s <= restarts.

Section Sound.
Context `{Unicode}.

Lemma sound_calm s s' : calm s s' → sound s → sound s'.
Proof. intros [Hq _ Hu _ _ _ _ _] [H1 H2]. split; [by apply (q_inv _ _ _ Hq)|by rewrite Hu]. Qed.
Lemma sound_same s s' : link s' = link s → restartsUsed s' = restartsUsed s → sound s → sound s'.
Proof. intros E1 E2 [H1 H2]. split; by rewrite ?E1, ?E2. Qed.
Lemma sound_link l s : link_inv l → sound s → sound (s <| link := l |>).
Proof. by intros Hl [_ Hu]. Qed.

Lemma sound_throw_call error s : sound s → sound (throw_call error s).
Proof.
  intros Hs. unfold throw_call. pose proof (recv_calm_end error s) as Hc. destruct (end_session error s) as [s' e]. cbn [fst] in Hc.
  eapply (sound_same s'); [done..|]. by eapply sound_calm.
Qed.
Lemma sound_throw_accept error s : sound s → sound (throw_accept error s).
Proof.
  intros Hs. unfold throw_accept. destruct (sink s); [by apply (sound_same s)|]. unfold throw_on.
  match goal with |- context [end_session ?e s] => pose proof (recv_calm_end e s) as Hc; destruct (end_session e s) as [s' e'] end. cbn [fst] in Hc.
  eapply (sound_same s'); [done..|]. by eapply sound_calm.
Qed.
Lemma sound_throw_on error s : sound s → sound (throw_on error s).
Proof.
  intros Hs. unfold throw_on.
  match goal with |- context [end_session ?e s] => pose proof (recv_calm_end e s) as Hc; destruct (end_session e s) as [s' e'] end. cbn [fst] in Hc.
  eapply (sound_same s'); [done..|]. by eapply sound_calm.
Qed.

Lemma sound_refusal reason (place : nat → ReceiverSession → ReceiverSession) k s :
  (∀ i s, link (place i s) = link s ∧ restartsUsed (place i s) = restartsUsed s) → (∀ s, sound s → sound (k s)) → sound s →
  sound (match stop_link reason s with (s, Some (SentAt i)) => place i s | (s, _) => k s end).
Proof.
  intros Hp Hk Hs. pose proof (recv_calm_stop_link reason s) as Hc. destruct (stop_link reason s) as [s' r]. cbn [fst] in Hc.
  apply (sound_calm _ _ Hc) in Hs. destruct r as [[i|er]|]; auto. destruct (Hp i s'). by apply (sound_same s').
Qed.

Lemma sound_send m s (place : nat → ReceiverSession → ReceiverSession) k : is_stop m = false →
  (∀ i s, link (place i s) = link s ∧ restartsUsed (place i s) = restartsUsed s) → (∀ e s, sound s → sound (k e s)) → sound s →
  sound (match link_send m (link s) with (l, SentAt i) => place i (s <| link := l |>) | (l, SendRefused e) => k e (s <| link := l |>) end).
Proof.
  intros Hm Hp Hk Hs. destruct (link_send m (link s)) as [l r] eqn:E. pose proof (link_send_moves _ _ _ _ E Hm (proj1 Hs)) as Hl.
  apply (sound_link l) in Hs; [|done]. destruct r as [i|e]; auto. destruct (Hp i (s <| link := l |>)). by apply (sound_same (s <| link := l |>)).
Qed.

Lemma sound_read_answer total s : sound s → sound (read_answer total s).
Proof. intros Hs. unfold read_answer. destruct (ended _); [by apply sound_throw_accept|by apply (sound_same s)]. Qed.

Lemma sound_declined error s : sound s → sound (declined error s).
Proof. intros [H1 H2]. split; [by apply link_end_inv|done]. Qed.

Lemma sound_on_manifest r s : sound s → sound (on_manifest r s).
Proof.
  intros Hs. unfold on_manifest. destruct r as [m index|reason e].
  - destruct m; try (by apply sound_throw_call). by apply (sound_same s).
  - apply (sound_refusal reason (λ i s, s <| main := Refusing i e |>)); [done|by intros; apply sound_throw_call|done].
Qed.
Lemma sound_on_answer total r s : sound s → sound (on_answer total r s).
Proof.
  intros Hs. unfold on_answer. destruct r as [m index|reason e].
  - destruct m; try (by apply sound_throw_accept). by apply (sound_same s).
  - apply (sound_refusal reason (λ i s, s <| main := RefusingAnswer i e |>)); [done|by intros; apply sound_throw_accept|done].
Qed.

Lemma sound_main_settled i error s : sound s → sound (main_settled i error s).
Proof.
  intros Hs. unfold main_settled. cbv zeta. destruct (main s); try done; destruct (_ =? _)%nat; try done.
  - destruct error; [by apply sound_throw_call|by apply (sound_same s)].
  - by apply sound_throw_call.
  - by apply sound_declined.
  - destruct error; [by apply sound_throw_accept|]. by apply sound_read_answer, (sound_same s).
  - by apply sound_throw_accept.
Qed.

Lemma sound_read_throws error s : sound s → sound (read_throws error s).
Proof.
  intros Hs. unfold read_throws. cbv zeta. destruct (main s);
    try (destruct (loop s); try done; eapply sound_calm; [apply calm_read_failed|done]); [by apply sound_throw_call|by apply sound_throw_accept].
Qed.

Lemma sound_restart_begins s : sound s → sound (restart_begins s).
Proof.
  intros Hs. unfold restart_begins. destruct (turn s); try done. destruct (queued s) as [|n]; [done|]. cbv zeta.
  assert (sound (s <| queued := n |>)) as Hq by by apply (sound_same s).
  destruct (_ || _); [eapply sound_calm; [apply calm_end_turn|done]|].
  destruct (restarts <=? _) eqn:E; [eapply sound_calm; [apply calm_end_turn|done]|]. bool_prop.
  destruct Hs as [H1 H2]. split; [done|]. cbn in *. lia.
Qed.

Lemma sound_step s e : sound s → sound (receive_step s e).
Proof.
  intros Hs. assert (∀ f : ReceiverSession → ReceiverSession, (∀ s, calm s (f s)) → sound (f s)) as Hf.
  { intros f Hc. by eapply sound_calm. }
  assert (∀ payload max, sound (receive payload max s).1) as Hrc by (intros; eapply sound_calm; [apply recv_calm_receive|done]).
  destruct e as [i| | |created| |reason immediate| | |payload|error| |error|sdp|error| |error| |error| | |error| |[error|]| |sdp|error|error|state| | | |];
    cbn [receive_step].
  - destruct (main s); try done. unfold invitation. cbv zeta.
    apply (sound_send (invitation_message i) (s <| invite := Some i |>) (λ n s, s <| main := SendingInvite n |>) throw_call); [by destruct i|done| |by apply (sound_same s)].
    intros; by apply sound_throw_call.
  - destruct (main s); try done. unfold read_manifest. destruct (ended _); [by apply sound_throw_call|by apply (sound_same s)].
  - destruct (main s); try done. unfold decline.
    apply (sound_send Decline s (λ n s, s <| main := SendingDecline n |>) (λ e, declined (Some e))); [done|done| |done]. intros; by apply sound_declined.
  - destruct (main s); try done. unfold accept. destruct (invite s), (manifest s); try done. cbv zeta.
    destruct (Envelope.envelopeBytes _ _ _); [|by apply sound_throw_accept, (sound_same s)].
    destruct created; [|by apply sound_throw_accept, (sound_same s)..]. eapply sound_calm; [apply calm_schedule|]. by apply (sound_same s).
  - by apply (sound_same s).
  - apply Hf. intros; apply recv_calm_stop.
  - apply Hf, recv_calm_close.
  - destruct (flushing s); [|done]. eapply sound_calm; [apply recv_calm_close|]. by apply (sound_same s).
  - pose proof (Hrc payload (option_map inv_max (invite s))) as H1. pose proof (Hrc payload None) as H2.
    destruct (main s); try (destruct (loop s); try done; destruct (receive payload None s) as [s' r];
      eapply sound_calm; [apply calm_on_restart_answer|done]).
    + destruct (receive payload _ s) as [s' r]. by apply sound_on_manifest.
    + destruct (receive payload None s) as [s' r]. by apply sound_on_answer.
  - by apply sound_read_throws.
  - destruct (ended _); [by apply sound_read_throws|done].
  - unfold exchange_settles. cbv zeta. destruct (_ <? _)%nat; [|done].
    eapply sound_calm; [apply calm_turn_settled|]. eapply sound_calm; [apply calm_loop_settled|]. apply sound_main_settled.
    destruct Hs as [H1 H2]. split; [by apply link_settles_inv|done].
  - destruct (main s); try done. unfold offer_made.
    apply (sound_send (Accept sdp) s (λ n s, s <| main := SendingAccept n total |>) throw_accept); [done|done| |done]. intros; by apply sound_throw_accept.
  - destruct (main s); try done. by apply sound_throw_accept.
  - destruct (main s); try done.
  - destruct (main s); try done. by apply sound_throw_accept.
  - destruct (main s); try done. eapply sound_calm; [apply calm_read_for_loop|]. by apply (sound_same s).
  - destruct (main s); try done. by apply sound_throw_accept.
  - destruct (main s); try done. by apply sound_throw_on.
  - destruct (main s); try done.
  - destruct (main s); try done. by apply sound_throw_accept.
  - destruct (main s); try done; (destruct (watch s ≫= _); [by apply sound_throw_accept|done]).
  - destruct (main s); try done. by apply sound_throw_accept.
  - destruct (main s); try done.
  - by apply sound_restart_begins.
  - destruct (turn s); try done. unfold restart_offered. cbv zeta.
    set (t := s <| waits := _ |> <| pendingRestart := _ |>). assert (sound t) as Ht by by apply (sound_same s).
    apply (sound_send (Restart sdp) t (λ n s, s <| turn := TurnSending n (length (waits s) - 1) |>) (λ e, end_turn (Some e))) in Ht; [|done|done|].
    2:{ intros; eapply sound_calm; [apply calm_end_turn|done]. }
    revert Ht. subst t. cbn. destruct (link_send _ _) as [l [n|e]]; by apply sound_same.
  - by destruct (turn s).
  - apply Hf. intros; apply calm_restart_applied.
  - apply Hf. intros; apply recv_calm_peer_changes.
  - apply Hf. intros; apply recv_calm_timer.
  - apply Hf. intros; apply recv_calm_timer.
  - apply Hf. intros; apply calm_restart_timer.
  - destruct (main s); try done. apply (sound_same (close_session s)); [done..|]. apply Hf, recv_calm_close.
Qed.

Lemma sound_run events : sound (receive_run session_start events).
Proof.
  unfold receive_run. induction events as [|e events IH] using rev_ind; [split; [apply link_start_inv|done]|].
  rewrite foldl_app. by apply sound_step.
Qed.
End Sound.

(** ** The properties *)

Section Properties.
Context `{Unicode}.

(** C21: whatever the exchange, the browser, the people and the caller do, Drop sends
    on the exchange at most eight messages; a stop, if it sends one, is its last;
    it starts at most five restarts; and the exchange is closed only once the
    session has ended and its own stop has left. As long as no restart begins
    before the accept was handed over, which the session does not see to itself
    ([restart_before_accept]), each message is one the page's reader allows at its
    index, but for a stop in the place of the invitation. *)
Theorem receiver_keeps_protocol events :
  let s := receive_run session_start events in
  let l := link s in
  zlen (outbox l) <= messagesPerSide ∧ restartsUsed s <= restarts ∧
  (∀ i m, outbox l !! i = Some m → is_stop m = true → length (outbox l) = S i) ∧
  (exchange_closed l = true → ended l = true ∧ ∀ i, stopping l = Some i → (i < gone l)%nat) ∧
  (timely session_start events = true → ∀ i m, outbox l !! i = Some m →
     event_of m ∈ allowedEvents drop (Z.of_nat i) ∨ i = 0%nat ∧ is_stop m = true).
Proof.
  intros s l. destruct (sound_run events) as [Hl Hu]. fold s l in Hl, Hu.
  split_and!; [rewrite <- (li_count l Hl); apply Hl|done|intros i m Hm Hs; by apply (li_stop l Hl i m Hm Hs)|apply Hl|].
  intros Ht i m Hm. pose proof (receive_run_inv session_start events Ht recv_session_start_inv) as [[_ Ho] _ _ _ _]. fold s l in Ho.
  specialize (Ho i m Hm). unfold drop_events in Ho.
  destruct (Z.of_nat i =? 0) eqn:E; [|by left]. apply Z.eqb_eq in E. assert (i = 0%nat) as -> by lia.
  apply elem_of_cons in Ho as [Ho|Ho]; [left; rewrite Ho; set_solver|right]. apply list_elem_of_singleton in Ho.
  split; [done|]. by destruct m; vm_compute in Ho.
Qed.

(** C22: [accept] resolves only after the transfer did, and then the sink has not
    been aborted by the session; if it throws, a sink that was made has been
    aborted, so none is left half written. Once it has settled, either way, the
    link has ended and the connection is closed; the exchange is closed too, unless
    Drop's own stop is still on its way, and it closes once the sends that are on
    their way have settled. *)
Theorem receiver_settles_closed events r :
  let s := receive_run session_start events in
  main s = Over r →
  (r = OutReceived → TransferSettles None ∈ events ∧ sink s = Some false) ∧
  (∀ e, r = OutFailed e → sink s = None ∨ sink s = Some true) ∧
  (run s ≠ None → ended (link s) = true ∧ (peer s = None ∨ peer s = Some PeerClosed) ∧
     (exchange_closed (link s) = true ∨ ∃ i, stopping (link s) = Some i ∧ (gone (link s) <= i < length (outbox (link s)))%nat) ∧
     exchange_closed (sends_settle (link s)) = true).
Proof.
  intros s Hm. pose proof (receive_run_ends (TransferSettles None ∈ events) session_start events id) as He. fold s in He.
  specialize (He ltac:(by split_and!)). unfold ends_ok in He. rewrite Hm in He. destruct (sound_run events) as [Hl _]. fold s in Hl.
  assert (shut s → ended (link s) = true ∧ (peer s = None ∨ peer s = Some PeerClosed) ∧
     (exchange_closed (link s) = true ∨ ∃ i, stopping (link s) = Some i ∧ (gone (link s) <= i < length (outbox (link s)))%nat) ∧
     exchange_closed (sends_settle (link s)) = true) as Hshut.
  { intros [Hen Hp]. destruct (link_settled _ Hl Hen). by split_and!. }
  destruct r as [|error|e].
  - destruct He as (Hf & Hk & Hs & Hr). split_and!; [by split|done|]. intros _. by apply Hshut.
  - destruct He as ((Hr & Hf & Hk) & _). by split_and!.
  - destruct He as (Hf & Hk & Hs). split_and!; [done| |].
    + intros _ _. destruct (sink s) as [[]|]; auto. done.
    + intros Hr. apply Hshut, Hs, Hr.
Qed.

End Properties.

(** ** A session that receives its file *)

Definition example_invitation : Invitation :=
  mkInvitation false [mkIceServer [] [lit "stun:stun.example:3478"] []] (lit "AAAAAAAAAAAAAAAAAAAAAA") 1000.
Definition example_key : jstr := lit "wbk1_AAAAAAAAAAAAAAAAAAAAAAAAAAAAAAAAAAAAAAAAAAA".
Definition bytes_of (m : DirectMessage) : bytes := match encodeMessage m with Ok b => b | Throw _ => [] end.

(** The connection drops once, and is restarted, before the file arrives. *)
Definition example_events : list receive_event :=
  [CallInvitation example_invitation; ExchangeSettles None; CallReadManifest;
   ReadSettles (bytes_of (Manifest (lit "a.txt") 3 (lit "text/plain")));
   CallAccept (SendSession.PeerMadeAt New); OfferMade example_sdp; ExchangeSettles None;
   ReadSettles (bytes_of (Answer example_key example_sdp)); AnswerApplied; SinkMade; PeerChanges Connected; ChannelOpens;
   PeerChanges Peer.PeerFailed; RestartTimerFires; RestartTurn; RestartOffered example_sdp; ExchangeSettles None;
   ReadSettles (bytes_of (RestartAnswer example_sdp)); RestartApplied None; PeerChanges Connected;
   TransferSettles None; Drained].

#[local] Existing Instances ascii_unicode.

Lemma receiver_keeps_protocol_witness :
  map event_of (outbox (link (receive_run session_start example_events))) = [lit "invite"; lit "accept"; lit "restart"] ∧
  turns (receive_run session_start example_events) = [None] ∧
  zlen (outbox (link (receive_run session_start example_events))) <= messagesPerSide ∧
  lit "restart" ∈ allowedEvents drop 2.
Proof.
  split; [vm_compute; reflexivity|]. split; [vm_compute; reflexivity|].
  destruct (receiver_keeps_protocol example_events) as (H1 & _ & _ & _ & H5). split; [exact H1|].
  destruct (H5 ltac:(vm_compute; reflexivity) 2%nat (Restart example_sdp) ltac:(vm_compute; reflexivity)) as [Ha|[Hi _]]; [exact Ha|discriminate Hi].
Defined.

(** A restart asked for while the accept's offer is being made goes out first, in
    the accept's place, where the page allows none. *)
Example restart_before_accept :
  let s := receive_run session_start
    [CallInvitation example_invitation; ExchangeSettles None; CallReadManifest;
     ReadSettles (bytes_of (Manifest (lit "a.txt") 3 (lit "text/plain")));
     CallAccept (SendSession.PeerMadeAt New); CallRestartIce; RestartTurn; RestartOffered example_sdp] in
  map event_of (outbox (link s)) = [lit "invite"; lit "restart"] ∧ lit "restart" ∉ allowedEvents drop 1.
Proof. split; [vm_compute; reflexivity|]. apply (bool_decide_unpack _). vm_compute. exact I. Qed.

Lemma receiver_settles_closed_witness :
  main (receive_run session_start example_events) = Over OutReceived ∧
  TransferSettles None ∈ example_events ∧ sink (receive_run session_start example_events) = Some false.
Proof.
  assert (main (receive_run session_start example_events) = Over OutReceived) as Hm by (vm_compute; reflexivity).
  split; [exact Hm|]. apply (receiver_settles_closed example_events OutReceived Hm). reflexivity.
Defined.
