(* ===== verification/Source.v ===== *)
(** * The file as it is sent ([send/source.ts])

    The name and the type a picked file is given before anything is encrypted,
    and that Drop's reader takes the manifest made of them. *)

From S2P Require Import Prelude JsString Utf8 Bytes Json Security DirectConfig Messages MessageFacts.
From S2P Require Envelope EnvelopeCorrect.

(** ** The code *)

Definition FALLBACK_TYPE : jstr := lit "application/octet-stream".

(** [/^[ -~]*$/u] *)
Definition PRINTABLE_ASCII (s : jstr) : bool := forallb (in_range 32 126) s.

(** A picked file; [content] is what the browser keeps of its bytes. *)
Record File (content : Type) := mkFile { file_name : jstr; file_type : jstr; file_bytes : content; lastModified : Z }.
Arguments mkFile {content}.
Arguments file_name {content}.
Arguments file_type {content}.
Arguments file_bytes {content}.
Arguments lastModified {content}.

(** Each lone surrogate becomes U+FFFD. *)
Definition wellFormed (text : jstr) : jstr := flat_map utf16_char (points (λ _, REPLACEMENT) text).

Definition plainName (name : jstr) : jstr :=
  flat_map utf16_char (filter (λ cp, disguising cp = false) (points id name)).

Section Code.
Context `{Unicode} {content : Type}.

Definition safeMediaType (type : jstr) : jstr :=
  let lowered := toLowerCase type in
  if (zlen lowered =? 0) || (255 <? zlen lowered) || negb (PRINTABLE_ASCII lowered) then FALLBACK_TYPE else lowered.

Definition prepareSource (file : File content) : File content :=
  mkFile (sanitiseFileName (wellFormed (plainName (file_name file)))) (safeMediaType (file_type file)) (file_bytes file) 0.
End Code.

(** ** Plain text *)

(** Text without a lone surrogate and without a character that disguises it. *)
Inductive plain : jstr → Prop :=
  | plain_nil : plain []
  | plain_unit c s : is_high c = false → is_low c = false → disguising c = false → plain s → plain (c :: s)
  | plain_pair h l s : is_high h = true → is_low l = true →
      disguising (65536 + (h - 55296) * 1024 + (l - 56320)) = false → plain s → plain (h :: l :: s).

Lemma plain_points s : plain s → lone_surrogate s = false ∧ DISGUISING_CHARACTERS s = false.
Proof.
  unfold lone_surrogate, DISGUISING_CHARACTERS. induction 1 as [|c s Hh Hl Hd _ [IH1 IH2]|h l s Hh Hl Hd _ [IH1 IH2]]; [done|..]; cbn [points].
  - rewrite Hh, Hl. cbn [existsb]. by rewrite Hh, Hl, Hd.
  - rewrite Hh, Hl. cbn [existsb]. rewrite Hd, IH1, IH2. unfold is_high, is_low in *.
    apply in_range_spec in Hh. apply in_range_spec in Hl. by range_tests.
Qed.

Lemma high_not_low c : is_high c = true → is_low c = false.
Proof. unfold is_high, is_low. intros Hc. apply in_range_spec in Hc. by range_tests. Qed.

Lemma plain_flat cps : Forall (λ cp, scalar cp = true ∧ disguising cp = false) cps → plain (flat_map utf16_char cps).
Proof.
  induction 1 as [|cp cps [Hs Hd] _ IH]; [constructor|]. cbn [flat_map]. unfold utf16_char, scalar in *.
  destruct (Z.ltb_spec cp 65536) as [Hl|Hl].
  - cbn [app]. assert (is_high cp = false ∧ is_low cp = false) as [? ?]; [|by constructor].
    unfold is_high, is_low. destruct (in_range 0 55295 cp) eqn:E; cbn [orb] in Hs; [apply in_range_spec in E|apply in_range_spec in Hs]; by range_tests.
  - assert (in_range 0 55295 cp = false) as E by (by range_tests). rewrite E in Hs. cbn [orb] in Hs. apply in_range_spec in Hs.
    cbn [app]. pose proof (Z.div_mod (cp - 65536) 1024 ltac:(done)). pose proof (Z.mod_pos_bound (cp - 65536) 1024 ltac:(done)).
    assert (0 <= (cp - 65536) / 1024 < 1024) by (split; [apply Z.div_pos; lia|apply Z.div_lt_upper_bound; lia]).
    constructor; [unfold is_high; by range_tests|unfold is_low; by range_tests| |done].
    replace (65536 + _ * 1024 + _) with cp by lia. done.
Qed.

(** Text cut anywhere but inside a pair. *)
Lemma plain_cut a b : plain (a ++ b) → (∀ h l, last a = Some h → head b = Some l → is_high h = true → is_low l = false) →
  plain a ∧ plain b.
Proof.
  intros Hp. remember (a ++ b) as s eqn:E. revert a E.
  induction Hp as [|c s Hh Hl Hd Hs IH|h l s Hh Hl Hd Hs IH]; intros a E Hc.
  - symmetry in E. apply app_eq_nil in E as [-> ->]. by split; constructor.
  - destruct a as [|c' a]; cbn in E; [split; [constructor|]; rewrite <- E; by constructor|]. injection E as <- ->.
    destruct (IH a eq_refl) as [Ha Hb]; [|by split; [constructor|]].
    intros h l Hla Hhb. apply Hc; [|done]. destruct a; [done|]. exact Hla.
  - destruct a as [|h' a]; cbn in E; [split; [constructor|]; rewrite <- E; by constructor|]. injection E as <- E.
    destruct a as [|l' a]; cbn in E.
    + exfalso. rewrite <- E in Hc. specialize (Hc h l eq_refl eq_refl Hh). congruence.
    + injection E as <- ->. destruct (IH a eq_refl) as [Ha Hb]; [|by split; [constructor|]].
      intros h2 l2 Hla Hhb. apply Hc; [|done]. destruct a; [done|]. exact Hla.
Qed.

Lemma plain_suffix a b : plain (a ++ b) → (∀ h, last a = Some h → is_high h = false) → plain b.
Proof. intros Hp Hc. apply (plain_cut a b Hp). intros h l Hl _ Hh. rewrite (Hc h Hl) in Hh. done. Qed.
Lemma plain_prefix a b : plain (a ++ b) → (∀ l, head b = Some l → is_low l = false) → plain a.
Proof. intros Hp Hc. apply (plain_cut a b Hp). intros h l _ Hl _. by apply Hc. Qed.

Lemma plain_filter (P : Z → Prop) `{∀ c, Decision (P c)} s : (∀ c, is_high c = true ∨ is_low c = true → P c) → plain s → plain (filter P s).
Proof.
  intros HP. induction 1 as [|c s Hh Hl Hd _ IH|h l s Hh Hl Hd _ IH]; [constructor|..].
  - destruct (decide (P c)); [rewrite filter_cons_True by done; by constructor|by rewrite filter_cons_False].
  - rewrite !filter_cons_True by auto. by constructor.
Qed.

Lemma plain_map f s : (∀ c, is_high c = true ∨ is_low c = true → f c = c) →
  (∀ c, disguising c = false → is_high c = false → is_low c = false → disguising (f c) = false ∧ is_high (f c) = false ∧ is_low (f c) = false) →
  plain s → plain (map f s).
Proof.
  intros Hf Hg. induction 1 as [|c s Hh Hl Hd _ IH|h l s Hh Hl Hd _ IH]; [constructor|..]; cbn [map].
  - destruct (Hg c Hd Hh Hl) as (? & ? & ?). by constructor.
  - rewrite !Hf by auto. by constructor.
Qed.

(** The last piece of a split is what follows the last separator. *)
Lemma last_split_suffix p acc s : ∃ a, rev acc ++ s = a ++ List.last (split_from p acc s) [] ∧
  (a = [] ∨ ∃ a' c, a = a' ++ [c] ∧ p c = true).
Proof.
  revert acc. induction s as [|c s IH]; intros acc; cbn [split_from].
  - exists []. rewrite app_nil_r. auto.
  - destruct (p c) eqn:Ep.
    + destruct (IH []) as (a & E & Ha). cbn [rev app] in E. exists (rev acc ++ c :: a). split.
      * rewrite <- app_assoc. cbn [app]. f_equal. f_equal. rewrite E at 1. f_equal.
        destruct (split_from p [] s) eqn:Es; [|done]. destruct s; cbn in Es; [done|]. destruct (p z); [done|].
        exfalso. clear -Es. revert Es. generalize [z]. induction s as [|d s IHs]; intros acc Es; cbn in Es; [done|]. destruct (p d); [done|eauto].
      * right. destruct Ha as [->|(a' & d & -> & Hd)]; [by exists (rev acc), c|]. exists (rev acc ++ c :: a'), d. by rewrite <- app_assoc.
    + destruct (IH (c :: acc)) as (a & E & Ha). exists a. split; [|done]. cbn [rev] in E. by rewrite <- app_assoc in E.
Qed.

(** Documented behaviour of normalisation: it keeps text well formed, and
    composes or decomposes nothing to a format character or a tag. *)
Class FormatLaws `{Unicode} : Prop := nfc_plain s : plain s → plain (nfc s).

Lemma ascii_format_laws : @FormatLaws ascii_unicode.
Proof. by intros s. Qed.

(** ** The prepared name and type *)

Section Prepared.
Context `{UnicodeLaws} {Hformat : FormatLaws}.

Lemma ascii_plain s : ascii s → plain s.
Proof.
  induction 1 as [|c s Hc _ IH]; [constructor|].
  constructor; [..|done]; unfold is_high, is_low, disguising; range_tests; [done..|]. eqb_tests. done.
Qed.

Lemma separator_plain c : is_separator c = true → is_high c = false.
Proof. unfold is_separator. by intros [E|E]%orb_true_iff; apply Z.eqb_eq in E as ->. Qed.

Lemma space_not_low c : is_space c = true → is_low c = false.
Proof.
  unfold is_space, is_low. intros Hc. destruct (in_range 56320 57343 c) eqn:E; [|done]. apply in_range_spec in E.
  revert Hc. unfold in_range. repeat match goal with |- context [?a =? ?b] => rewrite (proj2 (Z.eqb_neq a b)) by lia end.
  repeat match goal with |- context [?a <=? ?b] => first [rewrite (proj2 (Z.leb_gt a b)) by lia|rewrite (proj2 (Z.leb_le a b)) by lia] end.
  done.
Qed.

Lemma space_not_high c : is_space c = true → is_high c = false.
Proof.
  unfold is_space, is_high. intros Hc. destruct (in_range 55296 56319 c) eqn:E; [|done]. apply in_range_spec in E.
  revert Hc. unfold in_range. repeat match goal with |- context [?a =? ?b] => rewrite (proj2 (Z.eqb_neq a b)) by lia end.
  repeat match goal with |- context [?a <=? ?b] => first [rewrite (proj2 (Z.leb_gt a b)) by lia|rewrite (proj2 (Z.leb_le a b)) by lia] end.
  done.
Qed.

Lemma trimEnd_plain s : plain s → plain (trimEnd s).
Proof.
  intros Hs. destruct (drop_end_prefix is_space s) as (t & E & Ht). fold (trimEnd s) in E. rewrite E in Hs.
  apply (plain_prefix _ t Hs). intros l Hl. destruct t as [|c t]; [done|]. injection Hl as <-. apply space_not_low. by apply Forall_inv in Ht.
Qed.

(** The name rule keeps what is plain. *)
Lemma sanitise_plain value : plain value → plain (sanitiseFileName value).
Proof.
  intros Hv. unfold sanitiseFileName. set (leaf := List.last (split is_separator value) []).
  assert (plain leaf) as Hleaf.
  { destruct (last_split_suffix is_separator [] value) as (a & E & Ha). fold leaf in E. cbn [rev app] in E. rewrite E in Hv.
    apply (plain_suffix a leaf Hv). intros h Hh. destruct Ha as [->|(a' & c & -> & Hc)]; [done|].
    rewrite last_snoc in Hh. injection Hh as <-. by apply separator_plain. }
  assert (plain (mask_reserved (nfc (filter (λ c, is_control c = false) leaf)))) as Hmask.
  { apply plain_map; [| |apply nfc_plain, plain_filter; [|done]].
    - intros c Hc. unfold is_reserved. unfold is_high, is_low in Hc.
      assert (55296 <= c <= 57343) by (destruct Hc as [Hc|Hc]; apply in_range_spec in Hc; lia). by eqb_tests.
    - intros c Hd Hh Hl. destruct (is_reserved c); done.
    - intros c Hc. unfold is_control, is_high, is_low in *.
      assert (55296 <= c <= 57343) by (destruct Hc as [Hc|Hc]; apply in_range_spec in Hc; lia). range_tests. by eqb_tests. }
  set (masked := mask_reserved _) in *.
  assert (plain (drop_while is_lead masked)) as Hled.
  { destruct (drop_while_suffix is_lead masked) as (a & Ea & Ha). rewrite Ea in Hmask. apply (plain_suffix a _ Hmask).
    intros h Hh. apply last_Some_elem_of in Hh. rewrite Forall_forall in Ha. specialize (Ha h Hh). unfold is_lead in Ha.
    apply orb_true_iff in Ha as [Ha|Ha]; [by apply space_not_high|]. by apply Z.eqb_eq in Ha as ->. }
  set (cleaned := trimEnd _). assert (plain cleaned) as Hc by (by apply trimEnd_plain).
  assert (plain (if non_empty cleaned then cleaned else lit "blob.bin")) as Hf.
  { destruct (non_empty cleaned); [done|]. apply ascii_plain. solve_ascii. }
  set (fallback := if non_empty cleaned then _ else _) in *.
  destruct (Z.leb_spec (zlen fallback) 180) as [|Hlen]; [done|]. apply trimEnd_plain.
  assert (181 <= length fallback)%nat as Hlen' by (unfold zlen in Hlen; lia).
  rewrite <- (take_drop (name_cut fallback) fallback) in Hf. apply (plain_cut _ _ Hf). intros h l Hh Hl Hhigh.
  assert (∀ k, (0 < k < length fallback)%nat → last (take k fallback) = Some (nth (pred k) fallback 0) ∧ head (list.drop k fallback) = Some (nth k fallback 0)) as Hat.
  { intros k Hk. split.
    - rewrite last_lookup, length_take, Nat.min_l by lia. rewrite lookup_take_lt by lia. destruct (nth_lookup_or_length fallback (pred k) 0) as [Ek|Ek]; [exact Ek|lia].
    - rewrite head_lookup, lookup_drop, Nat.add_0_r. destruct (nth_lookup_or_length fallback k 0) as [Ek|Ek]; [exact Ek|lia]. }
  unfold name_cut in *. destruct (in_range 55296 56319 (nth 179 fallback 0) && in_range 56320 57343 (nth 180 fallback 0)) eqn:Ecut.
  - destruct (Hat 179%nat ltac:(lia)) as [_ E]. rewrite E in Hl. injection Hl as <-. bool_prop.
    by apply high_not_low.
  - destruct (Hat 180%nat ltac:(lia)) as [E1 E2]. rewrite E1 in Hh. rewrite E2 in Hl. injection Hh as <-. injection Hl as <-. cbn [pred] in *.
    unfold is_high in Hhigh. rewrite Hhigh in Ecut. exact Ecut.
Qed.

(** A name without lone surrogates has no disguising character left. *)
Lemma plainName_shows name : jstr_ok name → lone_surrogate name = false → DISGUISING_CHARACTERS (plainName name) = false.
Proof.
  intros Hok Hl. destruct (points_scalar id name Hok Hl) as [Hs _]. apply (plain_points (plainName name)), plain_flat.
  apply Forall_forall. intros cp [Hd Hin]%list_elem_of_filter. rewrite Forall_forall in Hs. auto.
Qed.

(** Code points and what they are written as. *)
Lemma points_units s : jstr_ok s → Forall (λ cp, jstr_ok (utf16_char cp)) (points id s).
Proof.
  remember (length s) as n eqn:Hn. assert (length s <= n)%nat as Hl by lia. clear Hn.
  revert s Hl. induction n as [|n IH]; intros s Hl Hok; (destruct s as [|c s]; [constructor|]); cbn in Hl; [lia|].
  apply Forall_cons in Hok as [Hc Hok]. assert (jstr_ok (utf16_char c)) as Hu.
  { unfold utf16_char. unfold unit_ok in Hc. rewrite (proj2 (Z.ltb_lt c 65536)) by lia. by repeat constructor; unfold unit_ok; lia. }
  cbn [points]. destruct (is_high c) eqn:Eh; [|destruct (is_low c); constructor; [done|apply IH; [lia|done]|done|apply IH; [lia|done]]].
  destruct s as [|d s']; [by repeat constructor|]. destruct (is_low d) eqn:El; [|constructor; [done|apply IH; [lia|done]]].
  apply Forall_cons in Hok as [_ Hok]. constructor; [|apply IH; [cbn in Hl; lia|done]].
  apply utf16_char_ok, scalar_spec. unfold is_high, is_low in *. apply in_range_spec in Eh. apply in_range_spec in El. lia.
Qed.

Lemma plainName_ok name : jstr_ok name → jstr_ok (plainName name).
Proof.
  intros Hok%points_units. unfold plainName. apply Forall_flat_map. apply Forall_forall. intros cp [_ Hin]%list_elem_of_filter.
  rewrite Forall_forall in Hok. by apply Hok.
Qed.

(** What [wellFormed] makes of text without disguising characters. *)
Lemma replaced_points s : jstr_ok s → DISGUISING_CHARACTERS s = false →
  Forall (λ cp, scalar cp = true ∧ disguising cp = false) (points (λ _, REPLACEMENT) s).
Proof.
  unfold DISGUISING_CHARACTERS. remember (length s) as n eqn:Hn. assert (length s <= n)%nat as Hl by lia. clear Hn.
  revert s Hl. induction n as [|n IH]; intros s Hl Hok Hd; (destruct s as [|c s]; [constructor|]); cbn in Hl; [lia|].
  apply Forall_cons in Hok as [Hc Hok]. unfold unit_ok in Hc. cbn [points] in *.
  destruct (is_high c) eqn:Eh.
  - destruct s as [|d s']; [by repeat constructor|]. destruct (is_low d) eqn:El; cbn [existsb] in Hd; bool_prop.
    + apply Forall_cons in Hok as [_ Hok]. constructor; [|apply IH; [cbn in Hl; lia|done|done]]. split; [|done].
      apply scalar_spec. unfold is_high, is_low in *. apply in_range_spec in Eh. apply in_range_spec in El. lia.
    + constructor; [done|]. apply IH; [lia|done|done].
  - destruct (is_low c) eqn:El; cbn [existsb] in Hd; bool_prop; (constructor; [|apply IH; [lia|done|done]]); [done|]. split; [|done].
    unfold is_high, is_low in *. apply in_range_false in Eh. apply in_range_false in El. apply scalar_spec. lia.
Qed.

Lemma wellFormed_plain s : jstr_ok s → DISGUISING_CHARACTERS s = false → plain (wellFormed s) ∧ jstr_ok (wellFormed s).
Proof.
  intros Hok Hd. pose proof (replaced_points s Hok Hd) as Hf. split; [by apply plain_flat|].
  apply Forall_flat_map. eapply Forall_impl; [exact Hf|]. intros cp [Hsc _]. cbn. by apply utf16_char_ok.
Qed.
End Prepared.

(** ** The manifest of a picked file *)

Lemma zlen_utf8_char cp : zlen (utf8_char cp) <= if cp <? 65536 then 3 else 4.
Proof.
  unfold utf8_char. destruct (Z.ltb_spec cp 128); [|destruct (Z.ltb_spec cp 2048); [|destruct (Z.ltb_spec cp 65536)]];
    unfold zlen; cbn [length]; try destruct (Z.ltb_spec cp 65536); lia.
Qed.

Lemma zlen_utf8_encode s : jstr_ok s → zlen (utf8_encode s) <= 3 * zlen s.
Proof.
  unfold utf8_encode. remember (length s) as n eqn:Hn. assert (length s <= n)%nat as Hl by lia. clear Hn.
  revert s Hl. induction n as [|n IH]; intros s Hl Hok; (destruct s as [|c rest]; [done|]); cbn in Hl; [lia|].
  apply Forall_cons in Hok as [Hc Hok]. unfold unit_ok in Hc.
  assert (zlen (utf8_char REPLACEMENT) = 3) as Hrep by done.
  cbn [points]. destruct (is_high c) eqn:Eh; [destruct rest as [|d rest']; [done|destruct (is_low d)]|destruct (is_low c) eqn:El];
    cbn [flat_map]; rewrite ?zlen_app, ?zlen_cons.
  - apply Forall_cons in Hok as [_ Hok]. specialize (IH rest' ltac:(cbn in Hl; lia) Hok).
    pose proof (zlen_utf8_char (65536 + (c - 55296) * 1024 + (d - 56320))). destruct (_ <? 65536); lia.
  - specialize (IH (d :: rest') ltac:(lia) Hok). rewrite zlen_cons in IH. lia.
  - specialize (IH rest ltac:(lia) Hok). lia.
  - specialize (IH rest ltac:(lia) Hok). pose proof (zlen_utf8_char c). rewrite (proj2 (Z.ltb_lt c 65536)) in * by lia. lia.
Qed.

Lemma zlen_quote s : zlen (quote s) <= 6 * zlen s + 2.
Proof.
  unfold quote. rewrite zlen_cons, zlen_app. change (zlen [34]) with 1. enough (zlen (quote_chars s) <= 6 * zlen s) by lia.
  remember (length s) as n eqn:Hn. assert (length s <= n)%nat as Hl by lia. clear Hn.
  revert s Hl. induction n as [|n IH]; intros s Hl; (destruct s as [|c rest]; [done|]); cbn in Hl; [lia|].
  assert (zlen (u_escape c) = 6) as Hu by done.
  assert (zlen (quote_char c) <= 6) as Hq by (unfold quote_char; repeat case_match; done).
  cbn [quote_chars]. destruct (is_high c); [destruct rest as [|d rest']; [done|destruct (is_low d)]|destruct (is_low c)];
    rewrite ?zlen_app, ?zlen_cons.
  - specialize (IH rest' ltac:(cbn in Hl; lia)). lia.
  - specialize (IH (d :: rest') ltac:(lia)). rewrite zlen_cons in IH. lia.
  - specialize (IH rest ltac:(lia)). lia.
  - specialize (IH rest ltac:(lia)). lia.
Qed.

Section Manifests.
Context `{UnicodeLaws} {Hformat : FormatLaws} {content : Type}.

Lemma printable_ascii s : PRINTABLE_ASCII s = true → ascii s ∧ CONTROL s = false.
Proof.
  unfold PRINTABLE_ASCII, CONTROL. rewrite forallb_forall. intros Hs. split.
  - apply Forall_forall. intros c Hin%list_elem_of_In. specialize (Hs c Hin). apply in_range_spec in Hs. lia.
  - apply not_true_iff_false. rewrite existsb_exists. intros (c & Hin & Hc). specialize (Hs c Hin). apply in_range_spec in Hs.
    unfold is_control, in_range in Hc. lia.
Qed.

Lemma safeMediaType_ok type : jstr_ok (safeMediaType type) ∧ type_ok (safeMediaType type) ∧ lone_surrogate (safeMediaType type) = false.
Proof.
  unfold safeMediaType. set (lowered := toLowerCase type).
  assert (ascii FALLBACK_TYPE) as Hfa by (unfold FALLBACK_TYPE; solve_ascii).
  destruct (_ || _ || _) eqn:E.
  - split_and!; [by apply ascii_jstr_ok| |by apply lone_surrogate_ascii]. split; [done|]. split; [done|]. by rewrite lower_ascii.
  - bool_prop. apply printable_ascii in E as [Ha Hc]. pose proof (zlen_nonneg lowered).
    split_and!; [by apply ascii_jstr_ok| |by apply lone_surrogate_ascii]. split_and!; [lia|lia|done|]. apply lower_idem.
Qed.

Lemma prepared_name name : jstr_ok name → DISGUISING_CHARACTERS (plainName name) = false →
  let n := sanitiseFileName (wellFormed (plainName name)) in jstr_ok n ∧ clean n ∧ plain n.
Proof.
  intros Hok Hd n. destruct (wellFormed_plain (plainName name) (plainName_ok name Hok) Hd) as [Hp Hpo]. subst n.
  split_and!; [by apply EnvelopeCorrect.sanitise_ok|apply sanitise_is_clean|by apply sanitise_plain].
Qed.

Lemma canonical_plain s : lone_surrogate s = false → canonical_string s = Ok (quote s).
Proof. intros Hs. unfold canonical_string. by rewrite Hs. Qed.

(** The text of any manifest fits the exchange. *)
Lemma manifest_encodes name size type : jstr_ok name → lone_surrogate name = false → zlen name <= 180 →
  jstr_ok type → lone_surrogate type = false → zlen type <= 255 → 0 <= size <= maxPlaintextBytes →
  ∃ b, encodeMessage (Manifest name size type) = Ok b.
Proof.
  intros Hn Hnl Hnz Ht Htl Htz Hs. pose proof (zlen_quote name) as Qn. pose proof (zlen_quote type) as Qt.
  assert (zlen (decimal size) <= 29) as Qs.
  { unfold decimal. etransitivity; [apply decimal_length|]. assert (Z.log2 size <= 28); [|pose proof (Z.log2_nonneg size); lia].
    etransitivity; [apply Z.log2_le_mono, Hs|]. vm_compute. discriminate. }
  assert (canonical_int (Int size) = true) as Hci.
  { unfold canonical_int, is_safe_integer, max_safe_integer, maxPlaintextBytes in *. lia. }
  destruct (quote_ok name Hn) as [On _]. destruct (quote_ok type Ht) as [Ot _].
  assert (jstr_ok (decimal size)) as Od by (apply ascii_jstr_ok, EnvelopeCorrect.decimal_ascii; lia).
  unfold encodeMessage. cbn [message_members canonicalJson rmap fst snd]. unfold text_of. cbn [canonicalJson].
  change (canonical_int (Int 1)) with true. rewrite Hci. rewrite (canonical_plain name), (canonical_plain type) by done.
  rewrite !(canonical_plain (lit _)) by (apply lone_surrogate_ascii; solve_ascii). cbn [guard rbind].
  set (n := quote name) in *. set (t := quote type) in *. set (d := decimal size) in *. clearbody n t d. cbn [rbind].
  change (sort_members _) with [(lit "event", quote (lit "event") ++ 58 :: quote (lit "manifest")); (lit "name", quote (lit "name") ++ 58 :: n);
    (lit "size", quote (lit "size") ++ 58 :: d); (lit "type", quote (lit "type") ++ 58 :: t); (lit "v", quote (lit "v") ++ 58 :: decimal 1)].
  cbn [map snd join]. match goal with |- context [utf8_encode ?x] => set (text := x) end.
  assert (jstr_ok text) as Hok.
  { assert (∀ a, ascii a → jstr_ok a) as Ha by (intros; by apply ascii_jstr_ok).
    unfold text. repeat first [assumption | apply Forall_app; split | constructor; [unfold unit_ok; lia|] | apply Ha; solve_ascii | constructor]. }
  assert (zlen text <= 2800) as Hz.
  { unfold text. repeat rewrite ?zlen_app, ?zlen_cons. change (zlen (quote (lit "event"))) with 7. change (zlen (quote (lit "manifest"))) with 10.
    change (zlen (quote (lit "name"))) with 6. change (zlen (quote (lit "size"))) with 6. change (zlen (quote (lit "type"))) with 6.
    change (zlen (quote (lit "v"))) with 3. change (zlen (decimal 1)) with 1. change (zlen (@nil Z)) with 0. lia. }
  pose proof (zlen_utf8_encode text Hok). unfold messageBytes. rewrite (proj2 (Z.leb_le _ 16379)) by lia. eexists. reflexivity.
Qed.

(** A manifest of a clean plain name and a lower-case printable type is taken. *)
Lemma manifest_taken name size type max allowlist :
  jstr_ok name → clean name → plain name → jstr_ok type → type_ok type → lone_surrogate type = false →
  0 <= size <= maxPlaintextBytes → size <= max →
  ∃ b, encodeMessage (Manifest name size type) = Ok b ∧
    decodeMessage b (mkDecodeContext page 0 allowlist (Some max)) = Read (Manifest name size type).
Proof.
  intros Hno Hnc Hnp Hto Htt Htl Hs Hmax. destruct (plain_points _ Hnp) as [Hnl Hnd]. pose proof (sanitise_clean _ Hnc) as Hfix.
  destruct (manifest_encodes name size type) as [b Hb]; try done; [apply Hnc|apply Htt|].
  exists b. split; [exact Hb|]. apply decode_encoded; [| |exact Hb].
  - assert (∀ s, ascii s → jstr_ok s) as Ha by (intros; by apply ascii_jstr_ok).
    constructor; [refine (bool_decide_eq_true_1 _ _); reflexivity| |]; cbn [message_members];
      repeat (constructor; [cbn [fst snd]; first [apply Ha; solve_ascii | constructor; first [assumption | apply Ha; solve_ascii] | constructor]|]); constructor.
  - split; [refine (bool_decide_eq_true_1 _ _); reflexivity|]. by split_and!.
Qed.

(** C18: the manifest the page offers for a picked file is one Drop's reader takes
    and reads back as it was sent, as long as the file is within what Drop allows;
    and the envelope made from the same prepared file names it exactly as the
    manifest does, so the sender's own check that the two agree never fails. The
    name may be any text, lone surrogates included, unless taking the disguising
    characters out of it leaves one behind; that can only be when a lone surrogate
    stood on each side of what was taken out ([plainName_shows]), and then the name
    may be refused ([rejoined_name_refused]). *)
Theorem prepared_manifest_taken (file : File content) size max allowlist :
  jstr_ok (file_name file) → DISGUISING_CHARACTERS (plainName (file_name file)) = false → 0 <= size <= maxPlaintextBytes → size <= max →
  let source := prepareSource file in
  let m := Manifest (file_name source) size (file_type source) in
  (∃ b, encodeMessage m = Ok b ∧ decodeMessage b (mkDecodeContext page 0 allowlist (Some max)) = Read m) ∧
  Envelope.normaliseMimeType (file_type source) = Ok (file_type source) ∧ sanitiseFileName (file_name source) = file_name source ∧
  file_bytes source = file_bytes file.
Proof.
  intros Hok Hl Hs Hmax source m. destruct (prepared_name (file_name file) Hok Hl) as (Hno & Hnc & Hnp).
  destruct (safeMediaType_ok (file_type file)) as (Hto & Htt & Htl).
  split_and!; [by apply manifest_taken| |exact (sanitise_clean _ Hnc)|done].
  change (file_type source) with (safeMediaType (file_type file)). set (t := safeMediaType _) in *. clearbody t.
  destruct Htt as (Htz & Htc & Htlow). unfold Envelope.normaliseMimeType, non_empty. destruct t as [|c t]; [change (zlen []) with 0 in Htz; lia|].
  change (eqb (c :: t) []) with false. cbn [negb]. rewrite Htlow. unfold CONTROL in Htc. rewrite Htc, (proj2 (Z.ltb_ge 255 (zlen (c :: t)))) by lia. done.
Qed.
End Manifests.

(** Two lone surrogates around a zero-width space: once it is taken out they make
    a tag character, which Drop's reader refuses. *)
Example rejoined_name_refused :
  let name := file_name (@prepareSource ascii_unicode (list Z) (mkFile [56128; 8203; 56320] (lit "text/plain") [1] 0)) in
  name = [56128; 56320] ∧ DISGUISING_CHARACTERS name = true ∧
  ∃ b stop detail, encodeMessage (Manifest name 1 (lit "text/plain")) = Ok b ∧
    @decodeMessage ascii_unicode b (mkDecodeContext page 0 [] (Some 1000)) = Bad stop detail.
Proof. split; [vm_compute; reflexivity|]. split; [vm_compute; reflexivity|]. eexists _, _, _. split; [vm_compute; reflexivity|]. vm_compute. reflexivity. Qed.

(** A name with a lone surrogate of its own, which U+FFFD takes the place of. *)
Lemma prepared_manifest_taken_witness :
  @file_name (list Z) (@prepareSource ascii_unicode _ (mkFile (lit "a" ++ [8238] ++ lit "?b" ++ [55296] ++ lit ".txt") (lit "Text/PLAIN") [1] 5))
    = lit "a_b" ++ [65533] ++ lit ".txt" ∧
  Envelope.normaliseMimeType (H := ascii_unicode) (lit "text/plain") = Ok (lit "text/plain").
Proof.
  split; [vm_compute; reflexivity|].
  pose proof (@prepared_manifest_taken ascii_unicode ascii_unicode_laws ascii_format_laws (list Z)
    (mkFile (lit "a" ++ [8238] ++ lit "?b" ++ [55296] ++ lit ".txt") (lit "Text/PLAIN") [1] 5) 1 1000 []) as Ht.
  cbn [file_name file_type file_bytes prepareSource] in Ht. apply Ht.
  - refine (bool_decide_eq_true_1 _ _). vm_compute. reflexivity.
  - vm_compute. reflexivity.
  - split; vm_compute; discriminate.
  - vm_compute. discriminate.
Defined.
