(* ===== verification/WakeLock.v ===== *)
(** * The screen lock of the sender page ([send/wakelock.ts])

    The lock asks the browser to keep the screen on while it is wanted. A request
    is on its way while [stage] is [Requesting]; a grant that is no longer wanted
    is handed back, and [HandingBack] waits for that. [held] are the grants the
    browser still honours. *)

From S2P Require Import Prelude.

(** ** The code *)

(** [pending] is [true] outside [Idle]; a grant is named by its number. *)
Inductive request_stage : Type := Idle | Requesting | HandingBack.

#[global] Instance request_stage_eq_dec : EqDecision request_stage.
Proof. solve_decision. Defined.

Record ScreenLock := mkLock {
  supported : bool; wanted : bool; sentinel : option nat; stage : request_stage; listening : bool;
  granted : nat; held : list nat; requests : nat }.

#[export] Instance ScreenLock_eta : Eta ScreenLock := λ s,
  mkLock (supported s) (wanted s) (sentinel s) (stage s) (listening s) (granted s) (held s) (requests s).

(** [createScreenLock(wakeLock, visibility)]. *)
Definition createScreenLock (has_wake_lock : bool) : ScreenLock := mkLock has_wake_lock false None Idle false 0 [] 0.

(** [acquire()] up to its await. *)
Definition acquire (s : ScreenLock) : ScreenLock :=
  if negb (supported s) || negb (wanted s) || bool_decide (is_Some (sentinel s)) || bool_decide (stage s ≠ Idle) then s
  else s <| stage := Requesting |> <| requests := S (requests s) |>.

Definition drop_grant (id : nat) (s : ScreenLock) : ScreenLock := s <| held := filter (λ i, i ≠ id) (held s) |>.

(** The browser grants the lock. *)
Definition request_granted (s : ScreenLock) : ScreenLock :=
  match stage s with
  | Requesting =>
      let id := granted s in
      let s := s <| granted := S id |> <| held := id :: held s |> in
      if wanted s then s <| sentinel := Some id |> <| stage := Idle |>
      else drop_grant id s <| stage := HandingBack |>
  | _ => s
  end.

Definition request_refused (s : ScreenLock) : ScreenLock :=
  match stage s with Requesting => s <| stage := Idle |> | _ => s end.

(** [await granted.release()] is over. *)
Definition handed_back (s : ScreenLock) : ScreenLock :=
  match stage s with HandingBack => s <| stage := Idle |> | _ => s end.

(** The browser drops a lock: its listener forgets it. *)
Definition browser_drops (id : nat) (s : ScreenLock) : ScreenLock :=
  let s := drop_grant id s in
  if bool_decide (sentinel s = Some id) then s <| sentinel := None |> else s.

Definition onVisible (visible : bool) (s : ScreenLock) : ScreenLock :=
  if listening s && visible then acquire s else s.

Definition hold (s : ScreenLock) : ScreenLock :=
  if wanted s then s else acquire (s <| wanted := true |> <| listening := true |>).

Definition release (s : ScreenLock) : ScreenLock :=
  if negb (wanted s) then s
  else
    let s' := s <| wanted := false |> <| listening := false |> <| sentinel := None |> in
    match sentinel s with Some id => drop_grant id s' | None => s' end.

Inductive lock_event : Type :=
  | Hold | Release | VisibilityChange (visible : bool) | Granted | NotGranted | HandedBack | BrowserDrops (id : nat).

Definition lock_step (s : ScreenLock) (e : lock_event) : ScreenLock :=
  match e with
  | Hold => hold s
  | Release => release s
  | VisibilityChange visible => onVisible visible s
  | Granted => request_granted s
  | NotGranted => request_refused s
  | HandedBack => handed_back s
  | BrowserDrops id => browser_drops id s
  end.

Definition lock_run (s : ScreenLock) (events : list lock_event) : ScreenLock := foldl lock_step s events.

(** ** What the lock keeps to *)

Record lock_inv (s : ScreenLock) : Prop := {
  lk_held : ∀ id, id ∈ held s → sentinel s = Some id;
  lk_once : NoDup (held s);
  lk_fresh : ∀ id, sentinel s = Some id → (id < granted s)%nat;
  lk_wanted : is_Some (sentinel s) → wanted s = true ∧ stage s = Idle;
  lk_listening : listening s = wanted s;
}.

Lemma acquire_inv s : lock_inv s → lock_inv (acquire s).
Proof.
  intros [H1 H2 H3 H4 H5]. unfold acquire. destruct (_ || _ || _ || _) eqn:E; [done|]. bool_prop.
  split; cbn; try done.
Qed.

Lemma drop_grant_held id i s : i ∈ held (drop_grant id s) ↔ i ∈ held s ∧ i ≠ id.
Proof. cbn. rewrite list_elem_of_filter. tauto. Qed.

Lemma unheld s s' : lock_inv s → sentinel s' = None → (∀ i, i ∈ held s' → i ∈ held s ∧ sentinel s ≠ Some i) →
  NoDup (held s') → listening s' = wanted s' → lock_inv s'.
Proof.
  intros Hi Hs Hh Hd Hl. split; rewrite ?Hs; try done; try (by intros [? ?]).
  intros i Hin. destruct (Hh i Hin) as [Ho Hn]. by apply (lk_held s Hi) in Ho.
Qed.

Lemma lock_step_inv s e : lock_inv s → lock_inv (lock_step s e).
Proof.
  intros Hi. pose proof Hi as [H1 H2 H3 H4 H5]. destruct e; cbn [lock_step].
  - unfold hold. destruct (wanted s) eqn:E; [done|]. apply acquire_inv. split; cbn; try done.
    intros Hs. destruct (H4 Hs). congruence.
  - unfold release. destruct (wanted s) eqn:E; [|done]. cbn [negb]. destruct (sentinel s) as [id|] eqn:Es;
      apply (unheld s); cbn; rewrite ?Es; try done.
    + intros i [Hni Hin]%list_elem_of_filter. split; [done|congruence].
    + by apply NoDup_filter.
  - unfold onVisible. destruct (_ && _); [by apply acquire_inv|done].
  - unfold request_granted. destruct (stage s) eqn:E; try done. assert (sentinel s = None) as Hn.
    { destruct (sentinel s) eqn:Es; [|done]. destruct (H4 ltac:(done)). congruence. }
    assert (held s = []) as Hh by (destruct (held s) as [|i l]; [done|]; specialize (H1 i ltac:(by left)); congruence).
    cbn. destruct (wanted s) eqn:Ew.
    + split; cbn; rewrite ?Hh, ?Ew; try done.
      * intros i Hin. by apply list_elem_of_singleton in Hin as ->.
      * apply NoDup_singleton.
      * intros i [= <-]. lia.
    + apply (unheld s); cbn; rewrite ?Hh, ?Hn, ?Ew; try done;
        (destruct (decide (granted s ≠ granted s)) as [Hg|]; [by destruct Hg|]); [|apply NoDup_nil_2].
      intros i Hin. by apply not_elem_of_nil in Hin.
  - unfold request_refused. destruct (stage s) eqn:E; try done. split; cbn; try done. intros Hs. by destruct (H4 Hs).
  - unfold handed_back. destruct (stage s) eqn:E; try done. split; cbn; try done. intros Hs. by destruct (H4 Hs).
  - unfold browser_drops. case_bool_decide as Es; cbn in Es.
    + apply (unheld s); cbn; rewrite ?Es; try done; [|by apply NoDup_filter].
      intros i [Hni Hin]%list_elem_of_filter. split; [done|congruence].
    + split; cbn; try done; [|by apply NoDup_filter]. intros i [Hni Hin]%list_elem_of_filter. by apply H1.
Qed.

Lemma lock_run_inv s events : lock_inv s → lock_inv (lock_run s events).
Proof. revert s. induction events as [|e events IH]; intros s Hi; [done|]. cbn. by apply IH, lock_step_inv. Qed.

Lemma createScreenLock_inv b : lock_inv (createScreenLock b).
Proof. split; cbn; try done; first [apply NoDup_nil_2|by intros [? ?]|intros i Hi; by apply not_elem_of_nil in Hi]. Qed.

(** However holds, releases, the browser's answers and the page's visibility
    interleave, the page never holds two locks, holds none it no longer wants,
    and listens to the page's visibility exactly while it wants one. *)
Theorem screen_lock_sound b events :
  let s := lock_run (createScreenLock b) events in
  (length (held s) <= 1)%nat ∧ (wanted s = false → held s = []) ∧ listening s = wanted s.
Proof.
  intros s. pose proof (lock_run_inv _ events (createScreenLock_inv b)) as [H1 H2 H3 H4 H5]. fold s in H1, H2, H3, H4, H5.
  split_and!; [| |done].
  - destruct (held s) as [|i [|j l]]; cbn; [lia..|]. exfalso. apply NoDup_cons in H2 as [Hn _]. apply Hn.
    assert (i = j) as ->; [|by left]. pose proof (H1 i ltac:(by left)). pose proof (H1 j ltac:(right; by left)). congruence.
  - intros Hw. destruct (held s) as [|i l]; [done|]. pose proof (H1 i ltac:(by left)) as Es.
    destruct (H4 ltac:(by rewrite Es)). congruence.
Qed.

(** A hold while an unwanted grant is still being handed back asks for nothing,
    and nothing asks later unless the page's visibility changes. *)
Theorem hold_forgotten :
  let s := lock_run (createScreenLock true) [Hold; Release; Granted; Hold; HandedBack] in
  wanted s = true ∧ stage s = Idle ∧ held s = [] ∧ requests s = 1%nat.
Proof. done. Qed.
