(* ===== verification/SendState.v ===== *)
(** * The screens of the sender page ([send/state.ts], [send/screens.ts])

    The page's state and its one transition function, and which text each state
    shows. The wording itself ([send/copy.ts]) stays the names of its entries. *)

From S2P Require Import Prelude JsString.

(** [LinkProblem | "ok"], from [get/link.ts]. *)
Inductive LinkOutcome : Type := LinkMissing | LinkExpired | LinkInvalid | LinkOk.

#[global] Instance LinkOutcome_eq_dec : EqDecision LinkOutcome.
Proof. solve_decision. Defined.

Inductive ScreenId : Type :=
  | unsupported | incomplete | expired | words | connecting | waiting | wrong_words | used | network
  | check_ | mismatch | confirming
  | choose | too_big | empty | unreadable
  | asking | declined | linking | sending | finishing | sent
  | no_relay | no_room | connect_failed | connect_failed_direct | lost | they_stopped | failed
  | cancelled | invalid.

#[global] Instance ScreenId_eq_dec : EqDecision ScreenId.
Proof. solve_decision. Defined.

Record ViewState := mkView {
  screen : ScreenId; offline : bool; checkWords : jstr; fileName : jstr; fileSize : Z; maxBytes : Z;
  sent_bytes : Z; total : Z; reconnecting : bool; hide : bool; theirHidden : bool; relayOffered : bool; endSent : bool }.

#[export] Instance ViewState_eta : Eta ViewState := λ s,
  mkView (screen s) (offline s) (checkWords s) (fileName s) (fileSize s) (maxBytes s) (sent_bytes s) (total s)
    (reconnecting s) (hide s) (theirHidden s) (relayOffered s) (endSent s).

Inductive ViewEvent : Type :=
  | EStart (link : LinkOutcome) | EUnsupported | EOnline (online : bool) | EContinue | ESlow | EClaimRefused | ENetwork
  | EWrongWords | EPaired (words : jstr) | EYes | ENo
  | EInvitation (maxBytes : Z) (theirHidden relayOffered : bool) | EInvalidInvitation | EExpired | EHide (on : bool)
  | ETooBig | EEmpty | EUnreadable | EAsking (name : jstr) (size : Z) | EDeclined | ELinking | ESending (total : Z)
  | EEndSent | EProgress (sent : Z) | EReconnecting (on : bool) | ESent
  | ENoRelay | ENoRoom | EConnectFailed | ELost | ETheyStopped | EFailed | EBack | ECancel.

Definition INITIAL_STATE : ViewState := mkView words false [] [] 0 0 0 0 false false false false false.

(** [list.includes(screen)]. *)
Definition includes (l : list ScreenId) (s : ScreenId) : bool := bool_decide (s ∈ l).

Definition PAIRING : list ScreenId := [connecting; waiting].
Definition BEFORE_FILE : list ScreenId :=
  [words; connecting; waiting; network; check_; confirming; choose; too_big; empty; unreadable].
Definition PICKING : list ScreenId := [choose; too_big; empty; unreadable].
Definition AFTER_OFFER : list ScreenId := [asking; linking; sending; finishing].

Definition go (to : ScreenId) (s : ViewState) : ViewState := s <| screen := to |>.
Definition forget_words (s : ViewState) : ViewState := s <| checkWords := [] |>.

Definition reduce (state : ViewState) (event : ViewEvent) : ViewState :=
  let at_ := screen state in
  let on_ (s : ScreenId) := bool_decide (at_ = s) in
  match event with
  | EStart link =>
      if negb (on_ words) || bool_decide (link = LinkOk) then state
      else go (if bool_decide (link = LinkExpired) then expired else incomplete) state
  | EUnsupported => go unsupported state
  | EOnline online => if Bool.eqb (offline state) (negb online) then state else state <| offline := negb online |>
  | EContinue => if on_ words || on_ network then go connecting state else state
  | ESlow => if on_ connecting then go waiting state else state
  | EClaimRefused => if includes PAIRING at_ then go used state else state
  | ENetwork => if includes PAIRING at_ then go network state else state
  | EWrongWords => if includes PAIRING at_ then go wrong_words state else state
  | EPaired said => if includes PAIRING at_ then go check_ (state <| checkWords := said |>) else state
  | EYes => if on_ check_ then go confirming state else state
  | ENo => if on_ check_ then go mismatch (forget_words state) else state
  | EInvitation max theirs offered =>
      if on_ confirming then
        go choose (forget_words (state <| maxBytes := max |> <| theirHidden := theirs |> <| relayOffered := offered |>
          <| hide := offered && hide state |>))
      else state
  | EInvalidInvitation => if on_ confirming then go invalid (forget_words state) else state
  | EExpired => if includes BEFORE_FILE at_ || on_ asking then go expired (forget_words state) else state
  | EHide on =>
      if Bool.eqb (hide state) (on && relayOffered state) then state else state <| hide := on && relayOffered state |>
  | ETooBig => if includes PICKING at_ then go too_big state else state
  | EEmpty => if includes PICKING at_ then go empty state else state
  | EUnreadable => if includes PICKING at_ then go unreadable state else state
  | EAsking name size =>
      if includes PICKING at_ then
        go asking (state <| fileName := name |> <| fileSize := size |> <| sent_bytes := 0 |> <| total := 0 |>
          <| reconnecting := false |> <| endSent := false |>)
      else state
  | EDeclined => if on_ asking then go declined state else state
  | ELinking => if on_ asking then go linking state else state
  | ESending n =>
      if on_ asking || on_ linking then go sending (state <| total := n |> <| sent_bytes := 0 |> <| reconnecting := false |>)
      else state
  | EProgress n => if on_ sending then state <| sent_bytes := n |> else state
  | EEndSent => if on_ sending then go finishing (state <| endSent := true |>) else state
  | EReconnecting on =>
      if (on_ sending || on_ linking || on_ finishing) && negb (Bool.eqb (reconnecting state) on)
      then state <| reconnecting := on |> else state
  | ESent => if on_ sending || on_ linking || on_ finishing then go sent (state <| reconnecting := false |>) else state
  | ENoRelay => if includes AFTER_OFFER at_ then go no_relay (state <| reconnecting := false |>) else state
  | ENoRoom => if includes AFTER_OFFER at_ then go no_room (state <| reconnecting := false |>) else state
  | EConnectFailed =>
      if includes AFTER_OFFER at_ then
        go (if relayOffered state then connect_failed else connect_failed_direct) (state <| reconnecting := false |>)
      else state
  | ELost =>
      if includes AFTER_OFFER at_ || on_ choose || on_ confirming then go lost (forget_words (state <| reconnecting := false |>)) else state
  | ETheyStopped =>
      if includes AFTER_OFFER at_ || on_ choose || on_ confirming then go they_stopped (forget_words (state <| reconnecting := false |>)) else state
  | EFailed =>
      if includes AFTER_OFFER at_ || on_ choose || on_ confirming then go failed (forget_words (state <| reconnecting := false |>)) else state
  | EBack => if on_ connecting then go words state else state
  | ECancel =>
      if includes PAIRING at_ || on_ confirming || includes PICKING at_ || includes AFTER_OFFER at_
      then go cancelled (forget_words (state <| reconnecting := false |>)) else state
  end.

(** ** What is shown *)

(** The entry of [COPY.screens] a state shows; [After] is [copy.afterEnd]. *)
Inductive shown : Type := Plainly (s : ScreenId) | After (s : ScreenId).

Definition screenText (state : ViewState) : shown :=
  let late := endSent state in
  match screen state with
  | no_room => if late then After no_room else Plainly no_room
  | lost => if late then After lost else Plainly lost
  | they_stopped => if late then After they_stopped else Plainly they_stopped
  | failed => if late then After failed else Plainly failed
  | cancelled => if late then After cancelled else Plainly cancelled
  | s => Plainly s
  end.

(** ** What a run of events can show *)

Definition run (events : list ViewEvent) : ViewState := foldl reduce INITIAL_STATE events.

(** The texts that say that nothing was sent, set up or kept. *)
Definition says_not_kept (s : shown) : bool :=
  match s with
  | Plainly (mismatch | declined | no_relay | no_room | connect_failed | connect_failed_direct | lost | they_stopped | failed | cancelled) => true
  | _ => false
  end.

(** The endings of a connection that could not be made; they have no text of
    their own for the time after the end. *)
Definition unconnected (s : ScreenId) : bool := includes [no_relay; connect_failed; connect_failed_direct] s.

Definition is_ending (s : ScreenId) : bool :=
  includes [unsupported; incomplete; expired; wrong_words; used; mismatch; declined; sent; no_relay; no_room; connect_failed;
    connect_failed_direct; lost; they_stopped; failed; cancelled; invalid] s.

(** Where check words may still be held, and where the end may have been sent. *)
Definition holds_words (s : ScreenId) : bool :=
  match s with check_ | confirming | unsupported => true | _ => false end.
Definition after_end (s : ScreenId) : bool :=
  match s with
  | finishing | sent | no_relay | no_room | connect_failed | connect_failed_direct | lost | they_stopped | failed | cancelled
  | unsupported => true
  | _ => false
  end.

(** What every state of the page satisfies. *)
Record view_ok (s : ViewState) : Prop := {
  v_words : checkWords s ≠ [] → holds_words (screen s) = true;
  v_hide : hide s = true → relayOffered s = true;
  v_end : endSent s = true → after_end (screen s) = true;
  v_finishing : screen s = finishing → endSent s = true;
}.

(** Evaluate the tests of a known screen. *)
Ltac view_tests :=
  repeat match goal with
  | |- context [includes ?l ?s] => let v := eval vm_compute in (includes l s) in change (includes l s) with v
  | |- context [@bool_decide (?a = ?b) ?d] => let v := eval vm_compute in (@bool_decide (a = b) d) in
      match v with true => idtac | false => idtac end; change (@bool_decide (a = b) d) with v
  end.

Lemma reduce_ok s e : view_ok s → view_ok (reduce s e).
Proof.
  destruct s as [sc off w fn fs mb se to re hi th ro en]. intros [H1 H2 H3 H4]. cbn in *.
  destruct e; destruct sc; cbn [reduce screen]; cbv zeta; view_tests; cbn;
    try (split; cbn; assumption);
    try (destruct en; [discriminate (H3 eq_refl)|]);
    repeat case_match; split; cbn; intros Hx; try assumption; try done; auto; by apply andb_true_iff in Hx as [??].
Qed.

Lemma run_ok events : view_ok (run events).
Proof.
  unfold run. assert (view_ok INITIAL_STATE) as H0 by by split. revert H0. generalize INITIAL_STATE.
  induction events as [|e events IH]; intros s Hs; [done|]. cbn. by apply IH, reduce_ok.
Qed.

(** C37: the invariant of the sender page, over every sequence of events. Check
    words are held only on the screens where they are compared and where the
    other side's confirmation is awaited, and may still be held on the unsupported
    screen; hiding is on only when a relay is on offer; the page
    waits at the finishing screen only after the end of the file has been sent.
    Once that has been sent the page is at the finishing screen, an ending or the
    unsupported screen, and the text it shows says that nothing was sent or kept
    exactly on the three endings of a connection that could not be made. *)
Theorem sender_view_invariant events :
  let s := run events in
  view_ok s ∧ (endSent s = true → says_not_kept (screenText s) = unconnected (screen s)).
Proof.
  intros s. pose proof (run_ok events) as Hok. fold s in Hok. split; [done|]. intros He. pose proof (v_end _ Hok He) as Ha.
  unfold screenText. rewrite He. by destruct (screen s).
Qed.

(** The exception is reached: the end has been sent, the connection drops and
    cannot be made again, and the page says that nothing was sent. *)
Example unconnected_after_end :
  let s := run [EContinue; EPaired (lit "a b c"); EYes; EInvitation 1000 false false; EAsking (lit "a.txt") 3; ELinking; ESending 65608;
                EEndSent; EReconnecting true; EConnectFailed] in
  endSent s = true ∧ screen s = connect_failed_direct ∧ says_not_kept (screenText s) = true.
Proof. vm_compute. by split_and!. Qed.

(** An ending stays: no event but an unsupported browser takes the page off
    an ending screen, and the end marker is never forgotten there. *)
Theorem ending_stays s e : is_ending (screen s) = true →
  (screen (reduce s e) = screen s ∨ e = EUnsupported) ∧ endSent (reduce s e) = endSent s.
Proof.
  destruct s as [sc off w fn fs mb se to re hi th ro en]. cbn [screen endSent]. intros He.
  destruct e; destruct sc; try (vm_compute in He; discriminate He); cbn [reduce screen]; cbv zeta; view_tests; cbn; repeat case_match;
    split; try done; first [by left|by right].
Qed.

Definition sent_view : ViewState := mkView sent false [] (lit "a.txt") 3 1000 65608 65608 false false false true true.

Lemma ending_stays_witness :
  (screen (reduce sent_view ELost) = sent ∨ ELost = EUnsupported) ∧ endSent (reduce sent_view ELost) = true.
Proof. exact (ending_stays sent_view ELost eq_refl). Defined.
