(* ===== verification/GetState.v ===== *)
(** * The screens of the recipient page ([get/state.ts]) *)

From S2P Require Import Prelude JsString.

(** [LinkProblem | "ok"], from [get/link.ts]. *)
Inductive LinkOutcome : Type := LinkMissing | LinkExpired | LinkInvalid | LinkOk.

#[global] Instance LinkOutcome_eq_dec : EqDecision LinkOutcome.
Proof. solve_decision. Defined.

Inductive ScreenId : Type :=
  | r2 | r3 | r4 | r5 | r6 | r7 | r8 | r9 | r10 | r11 | r12 | r13 | r14 | r15 | r16 | r17 | r18 | r19 | r20 | r21 | r22 | r23
  | cancelled | invalid.

#[global] Instance ScreenId_eq_dec : EqDecision ScreenId.
Proof. solve_decision. Defined.

Inductive Retry : Type := RetryConnect | RetryDownload.

Record ViewState := mkView {
  screen : ScreenId; offline : bool; checkWords : jstr; fileName : jstr; fileSize : Z; received : Z; retry : Retry }.

#[export] Instance ViewState_eta : Eta ViewState := λ s,
  mkView (screen s) (offline s) (checkWords s) (fileName s) (fileSize s) (received s) (retry s).

Inductive ViewEvent : Type :=
  | EStart (link : LinkOutcome) | EUnsupported | EContinue | ESlow | EClaimRefused | ENetwork | EWrongWords
  | EPaired (words : jstr) | EYes | ENo | EDetails (name : jstr) (size : Z) | EInvalidDetails | ETooBig | EExpired
  | EDownload | EProgress (received : Z) | EChecking | ESaved | ESaveFailed | ESaveAgain | EMissing | EUnavailable | EDamaged
  | EBack | ECancel | EOnline (online : bool).

Definition INITIAL_STATE : ViewState := mkView r5 false [] [] 0 0 RetryConnect.

Definition includes (l : list ScreenId) (s : ScreenId) : bool := bool_decide (s ∈ l).
Definition PAIRING : list ScreenId := [r6; r7].
Definition BEFORE_FILE : list ScreenId := [r5; r6; r7; r10; r12; r14].

Definition go (to : ScreenId) (s : ViewState) : ViewState := s <| screen := to |>.

Definition reduce (state : ViewState) (event : ViewEvent) : ViewState :=
  let at_ := screen state in
  let on_ (s : ScreenId) := bool_decide (at_ = s) in
  match event with
  | EStart link =>
      if negb (on_ r5) then state
      else if bool_decide (link = LinkOk) then state
      else go (if bool_decide (link = LinkExpired) then r4 else r3) state
  | EUnsupported => go r2 state
  | EOnline online => if Bool.eqb (offline state) (negb online) then state else state <| offline := negb online |>
  | EContinue => if on_ r5 || on_ r10 then go r6 (state <| retry := RetryConnect |>) else state
  | ESlow => if on_ r6 then go r7 state else state
  | EClaimRefused => if includes PAIRING at_ then go r9 state else state
  | ENetwork => if includes PAIRING at_ || on_ r12 || on_ r14 then go r10 (state <| retry := RetryConnect |>) else state
  | EWrongWords => if includes PAIRING at_ then go r8 state else state
  | EPaired said => if includes PAIRING at_ then go r12 (state <| checkWords := said |>) else state
  | EYes => if on_ r12 then go r14 state else state
  | ENo => if on_ r12 then go r13 (state <| checkWords := [] |>) else state
  | EDetails name size =>
      if on_ r14 then go r15 (state <| fileName := name |> <| fileSize := size |> <| checkWords := [] |>) else state
  | EInvalidDetails => if on_ r14 then go invalid state else state
  | ETooBig => if on_ r14 then go r22 state else state
  | EExpired => if includes BEFORE_FILE at_ then go r4 (state <| checkWords := [] |>) else state
  | EDownload =>
      if on_ r15 || on_ r19 || on_ r21 then go r16 (state <| received := 0 |> <| retry := RetryDownload |>) else state
  | EProgress n => if on_ r16 then state <| received := n |> else state
  | EChecking => if on_ r16 then go r17 state else state
  | ESaved => if on_ r17 then go r18 state else state
  | ESaveFailed => if on_ r17 || on_ r18 || on_ r23 then go r23 state else state
  | ESaveAgain => if on_ r23 then go r18 state else state
  | EMissing => if on_ r16 || on_ r17 then go r20 state else state
  | EUnavailable => if on_ r16 || on_ r17 then go r19 state else state
  | EDamaged => if on_ r16 || on_ r17 then go r21 state else state
  | EBack => if on_ r6 then go r5 state else state
  | ECancel =>
      if on_ r16 then go r15 (state <| received := 0 |>)
      else if includes PAIRING at_ || on_ r14 then go cancelled (state <| checkWords := [] |>) else state
  end.

Definition run (events : list ViewEvent) : ViewState := foldl reduce INITIAL_STATE events.

(** ** The file is shown only to someone who confirmed the words *)

Definition after_file (s : ScreenId) : bool :=
  match s with r15 | r16 | r17 | r18 | r19 | r20 | r21 | r23 => true | _ => false end.

(** What the events so far must hold, by screen. *)
Definition history_ok (events : list ViewEvent) (s : ViewState) : Prop :=
  match screen s with
  | r12 => ∃ w, [EPaired w] `sublist_of` events
  | r14 => ∃ w, [EPaired w; EYes] `sublist_of` events
  | r15 | r16 | r19 | r20 | r21 | r17 =>
      ∃ w, [EPaired w; EYes; EDetails (fileName s) (fileSize s)] `sublist_of` events ∧ checkWords s = []
  | r18 => ∃ w, [EPaired w; EYes; EDetails (fileName s) (fileSize s)] `sublist_of` events ∧ checkWords s = [] ∧
             (ESaved ∈ events ∨ ESaveAgain ∈ events)
  | r23 => ∃ w, [EPaired w; EYes; EDetails (fileName s) (fileSize s)] `sublist_of` events ∧ checkWords s = [] ∧ ESaveFailed ∈ events
  | _ => True
  end.

Ltac view_tests :=
  repeat match goal with
  | |- context [includes ?l ?s] => let v := eval vm_compute in (includes l s) in change (includes l s) with v
  | |- context [@bool_decide (?a = ?b) ?d] => let v := eval vm_compute in (@bool_decide (a = b) d) in
      match v with true => idtac | false => idtac end; change (@bool_decide (a = b) d) with v
  end.

Lemma sublist_grows (l events : list ViewEvent) e : l `sublist_of` events → l `sublist_of` events ++ [e].
Proof. intros Hl. by apply sublist_inserts_r. Qed.
Lemma sublist_snoc (l events : list ViewEvent) e : l `sublist_of` events → l ++ [e] `sublist_of` events ++ [e].
Proof. intros Hl. by apply sublist_app. Qed.

Lemma history_step events s e : history_ok events s → history_ok (events ++ [e]) (reduce s e).
Proof.
  destruct s as [sc off w fn fs rc re]. unfold history_ok. cbn [screen fileName fileSize checkWords]. intros Hh.
  destruct e; destruct sc; cbn [reduce screen]; cbv zeta; view_tests; cbn; split_ifs; cbn; try exact I.
  all: try (exists words; apply (sublist_snoc [] events); apply sublist_nil_l).
  all: destruct Hh as [w' Hh]; exists w'.
  all: try by apply sublist_grows.
  all: try (destruct Hh as [Hh Hc]; split; [by apply sublist_grows|]; rewrite ?elem_of_app; set_solver).
  - by apply (sublist_snoc [EPaired w'] events).
  - split; [|done]. by apply (sublist_snoc [EPaired w'; EYes] events).
Qed.

Lemma history_run events : history_ok events (run events).
Proof.
  induction events as [|e events IH] using rev_ind; [exact I|]. unfold run. rewrite foldl_app. by apply history_step.
Qed.

(** The recipient page offers, fetches or saves a file only after the check
    words were shown, the person said they match, and the details arrived, in
    that order; the file it names is the one of those details, the words are gone
    by then, and it says a file is saved only after it was. *)
Theorem file_needs_confirmation events :
  let s := run events in
  after_file (screen s) = true →
  checkWords s = [] ∧
  (∃ w, [EPaired w; EYes; EDetails (fileName s) (fileSize s)] `sublist_of` events) ∧
  (screen s = r18 → ESaved ∈ events ∨ ESaveAgain ∈ events).
Proof.
  intros s Ha. pose proof (history_run events) as Hh. fold s in Hh. unfold history_ok in Hh.
  destruct (screen s); try discriminate Ha; destruct Hh as (w & Hs & Hw); first [destruct Hw as [Hw Hx]|idtac]; split_and!; try done; by exists w.
Qed.

Lemma file_needs_confirmation_witness :
  let events := [EContinue; EPaired (lit "one two three"); EYes; EDetails (lit "a.txt") 3; EDownload; EChecking; ESaved] in
  screen (run events) = r18 ∧ checkWords (run events) = [].
Proof.
  split; [reflexivity|].
  apply (file_needs_confirmation [EContinue; EPaired (lit "one two three"); EYes; EDetails (lit "a.txt") 3; EDownload; EChecking; ESaved]).
  reflexivity.
Defined.
