(* ===== verification/GetParts.v ===== *)
(** * Small parts of the recipient page ([get/link.ts], [get/reply.ts],
      [get/config.ts])

    Why a link cannot be used, the one reply the page sends back, and which
    pairing services may be reached over plain HTTP. *)

From S2P Require Import Prelude JsString Utf8 Bytes Json Security.

(** ** [get/link.ts] *)

Inductive LinkProblem : Type := LinkMissing | LinkExpired | LinkInvalid.

#[global] Instance LinkProblem_eq_dec : EqDecision LinkProblem.
Proof. solve_decision. Defined.

(** [/^[A-Za-z0-9_-]{1,1400}$/u] *)
Definition fragment_ok (fragment : jstr) : bool := (1 <=? zlen fragment) && (zlen fragment <=? 1400) && forallb is_b64url fragment.

(** [None] is [undefined]. *)
Definition decodeFragment (fragment : jstr) : option json :=
  if fragment_ok fragment then
    match atob (map from_url_char fragment) with
    | Some binary => match utf8_decode false binary with Some text => parse text | None => None end
    | None => None
    end
  else None.

(** [value?.name] *)
Definition maybe_member (name : string) (v : option json) : option json :=
  match v with Some (JObj members) => get_member (lit name) members | _ => None end.

Definition link_expires (decoded : option json) : option json :=
  maybe_member "expires" (maybe_member "session" (maybe_member "room" decoded)).

Definition classifyLinkFailure (hash : jstr) (nowSeconds : Z) : LinkProblem :=
  let fragment := match hash with c :: rest => if c =? 35 then rest else hash | [] => hash end in
  match fragment with
  | [] => LinkMissing
  | _ =>
      match link_expires (decodeFragment fragment) with
      | Some (JNum (Int expires)) =>
          if is_safe_integer expires && (expires <=? nowSeconds) then LinkExpired else LinkInvalid
      | _ => LinkInvalid
      end
  end.

Lemma link_fragment_cases hash now : classifyLinkFailure hash now = LinkMissing ↔ hash = [] ∨ hash = [35].
Proof.
  unfold classifyLinkFailure. split.
  - destruct hash as [|c [|d rest]]; [by left|..]; destruct (Z.eqb_spec c 35) as [->|]; try (by right); repeat case_match; done.
  - by intros [-> | ->].
Qed.

(** A link that is said to have expired stays expired, and was past its time. *)
Theorem expired_stays hash now later : classifyLinkFailure hash now = LinkExpired → now <= later →
  classifyLinkFailure hash later = LinkExpired ∧
  ∃ expires, link_expires (decodeFragment (match hash with c :: rest => if c =? 35 then rest else hash | [] => hash end)) =
    Some (JNum (Int expires)) ∧ expires <= now.
Proof.
  unfold classifyLinkFailure. intros He Hl. set (fragment := match hash with [] => _ | _ => _ end) in *.
  destruct fragment eqn:Ef; [done|]. rewrite <- Ef in *. destruct (link_expires _) as [[| |[expires| | |]| | |]|]; try done.
  destruct (is_safe_integer expires && (expires <=? now)) eqn:E; [|done]. bool_prop. split; [|by exists expires].
  by rewrite (proj2 (Z.leb_le expires later)), andb_true_r, H by lia.
Qed.

(** ** [get/reply.ts] *)

Definition DOWNLOADED_REPLY : jstr :=
  lit "{" ++ [34] ++ lit "v" ++ [34] ++ lit ":1," ++ [34] ++ lit "event" ++ [34] ++ lit ":" ++ [34] ++ lit "downloaded" ++ [34] ++ lit "}".

(** The bytes of the reply. *)
Definition reply_payload : bytes := utf8_encode DOWNLOADED_REPLY.

(** What the channel is asked. *)
Inductive channel_call : Type := ReplyCall (payload : bytes) | DisposeCall.

Record DownloadedReply := mkReply { started : bool; closed : bool; replying : bool; calls : list channel_call }.

#[export] Instance DownloadedReply_eta : Eta DownloadedReply := λ r, mkReply (started r) (closed r) (replying r) (calls r).

Definition createDownloadedReply : DownloadedReply := mkReply false false false [].

Definition reply_close (r : DownloadedReply) : DownloadedReply :=
  if closed r then r else r <| closed := true |> <| calls := calls r ++ [DisposeCall] |>.

(** [send()] up to its await. *)
Definition reply_send (r : DownloadedReply) : DownloadedReply :=
  if started r || closed r then r
  else r <| started := true |> <| replying := true |> <| calls := calls r ++ [ReplyCall (reply_payload)] |>.

(** The reply has gone, or failed: either way the channel closes. *)
Definition reply_settles (r : DownloadedReply) : DownloadedReply :=
  if replying r then reply_close (r <| replying := false |>) else r.

Inductive reply_event : Type := CallSend | ReplySettles | CallDispose.

Definition reply_step (r : DownloadedReply) (e : reply_event) : DownloadedReply :=
  match e with CallSend => reply_send r | ReplySettles => reply_settles r | CallDispose => reply_close r end.

Definition reply_run (r : DownloadedReply) (events : list reply_event) : DownloadedReply := foldl reply_step r events.

Lemma reply_payload_short : zlen reply_payload <= 1024.
Proof. vm_compute. discriminate. Qed.

#[local] Opaque reply_payload.

(** The calls of a channel in each state. *)
Definition reply_ok (r : DownloadedReply) : Prop :=
  calls r = (if started r then [ReplyCall (reply_payload)] else []) ++ (if closed r then [DisposeCall] else []) ∧
  (replying r = true → started r = true).

Lemma reply_close_ok r : reply_ok r → reply_ok (reply_close r).
Proof.
  unfold reply_ok, reply_close. intros [Hc Hr]. destruct (closed r) eqn:E; [by rewrite E|]. cbn. rewrite Hc, app_nil_r. done.
Qed.

Lemma reply_step_ok r e : reply_ok r → reply_ok (reply_step r e).
Proof.
  intros Hr. destruct e; cbn [reply_step].
  - unfold reply_send. destruct (started r) eqn:Es; [done|]. destruct (closed r) eqn:Ec; [done|]. cbn [orb].
    destruct Hr as [Hc Hr]. rewrite Es, Ec in Hc. unfold reply_ok. cbn. rewrite Hc, Ec. done.
  - unfold reply_settles. destruct (replying r); [|done]. apply reply_close_ok. by destruct Hr.
  - by apply reply_close_ok.
Qed.

(** Whatever the page does, the channel carries at most one reply, always the
    same bytes and at most 1,024 of them, before it is closed once. *)
Theorem reply_at_most_once events :
  let c := calls (reply_run createDownloadedReply events) in
  (c = [] ∨ c = [ReplyCall (reply_payload)] ∨ c = [DisposeCall] ∨
   c = [ReplyCall (reply_payload); DisposeCall]) ∧ zlen (reply_payload) <= 1024.
Proof.
  intros c. assert (∀ r, reply_ok r → reply_ok (reply_run r events)) as Hrun.
  { induction events as [|e events IH]; intros r Hr; [done|]. cbn. by apply IH, reply_step_ok. }
  split; [|apply reply_payload_short]. destruct (Hrun createDownloadedReply) as [Hc _]; [by split|]. fold c in Hc. rewrite Hc.
  destruct (started _), (closed _); cbn; auto.
Qed.

(** ** [get/config.ts] *)

Section Config.
Context `{Web}.

(** Plain HTTP only to a loopback host. *)
Definition allowsLoopbackHttp (service : jstr) : bool :=
  match newURL service with
  | Some url => eqb (protocol url) (lit "http:") &&
      existsb (eqb (hostname url)) [lit "localhost"; lit "127.0.0.1"; lit "[::1]"]
  | None => false
  end.
End Config.
