(* ===== verification/Words.v ===== *)
(** * The four words ([get/words.ts])

    Reading what a person typed, and suggesting a word for a misspelt one by
    edit distance. The word list is data ([get/en-v1.txt]) and a parameter. *)

From S2P Require Import Prelude JsString Utf8.

(** ** Edit distance *)

(** [table[i][j]]. *)
Definition cell (table : list (list Z)) (i j : nat) : Z := default 0 (table !! i ≫= λ row, row !! j).
Definition set_cell (table : list (list Z)) (i j : nat) (v : Z) : list (list Z) := alter (λ row, <[j:=v]> row) i table.

Section Distance.
Context (a b : jstr).

Definition char_at (s : jstr) (i : nat) : Z := nth i s (-1).

(** The rows of zeros with the first column and the first row filled in. *)
Definition first_table : list (list Z) :=
  let rows := S (length a) in
  let cols := S (length b) in
  let table := replicate rows (replicate cols 0) in
  let table := foldl (λ table i, set_cell table i 0 (Z.of_nat i)) table (seq 0 rows) in
  foldl (λ table j, set_cell table 0 j (Z.of_nat j)) table (seq 0 cols).

(** The value of a cell from the cells before it. *)
Definition cell_value (get : nat → nat → Z) (i j : nat) : Z :=
  let cost := if char_at a (i - 1) =? char_at b (j - 1) then 0 else 1 in
  let value := Z.min (Z.min (get (i - 1)%nat j + 1) (get i (j - 1)%nat + 1)) (get (i - 1)%nat (j - 1)%nat + cost) in
  if (1 <? i)%nat && (1 <? j)%nat && (char_at a (i - 1) =? char_at b (j - 2)) && (char_at a (i - 2) =? char_at b (j - 1))
  then Z.min value (get (i - 2)%nat (j - 2)%nat + 1) else value.

Definition fill_cell (i : nat) (table : list (list Z)) (j : nat) : list (list Z) :=
  set_cell table i j (cell_value (cell table) i j).
Definition fill_row (table : list (list Z)) (i : nat) : list (list Z) := foldl (fill_cell i) table (seq 1 (length b)).
Definition fill_table : list (list Z) := foldl fill_row first_table (seq 1 (length a)).

Definition editDistance : Z := cell fill_table (length a) (length b).
End Distance.

(** ** Words *)

Definition REQUIRED_WORDS : Z := 4.

(** [/[\s,.\-‐-―]+/u]; the runs come out as empty pieces, which are filtered. *)
Definition is_break (c : Z) : bool := is_space c || (c =? 44) || (c =? 46) || (c =? 45) || in_range 8208 8213 c.

Section Words.
Context `{Unicode}.
Context (WORDS : list jstr).

Definition parseWords (input : jstr) : list jstr := List.filter non_empty (split is_break (toLowerCase input)).

Definition isKnownWord (word : jstr) : bool := existsb (eqb word) WORDS.

(** The words of the list within [limit] edits. *)
Definition matches_within (word : jstr) (limit : Z) : list jstr :=
  List.filter (λ candidate, (Z.abs (zlen candidate - zlen word) <=? limit) && (editDistance word candidate <=? limit)) WORDS.

Fixpoint suggest_from (limits : list Z) (word : jstr) : option jstr :=
  match limits with
  | [] => None
  | limit :: limits =>
      match matches_within word limit with
      | [w] => Some w
      | [] => suggest_from limits word
      | _ => None
      end
  end.

Definition suggestWord (word : jstr) : option jstr :=
  if zlen word <? 2 then None else suggest_from [1; 2] word.

Inductive WordsCheck : Type :=
  | WordsOk (words : list jstr) (secret : jstr)
  | WordsEmpty
  | WordsCount (count : Z)
  | WordsUnknown (index : nat) (word : jstr) (suggestion : option jstr).

Fixpoint find_index (p : jstr → bool) (i : nat) (l : list jstr) : option (nat * jstr) :=
  match l with
  | [] => None
  | w :: l => if p w then Some (i, w) else find_index p (S i) l
  end.

Definition checkWords (input : jstr) : WordsCheck :=
  let words := parseWords input in
  if zlen words =? 0 then WordsEmpty
  else if negb (zlen words =? REQUIRED_WORDS) then WordsCount (zlen words)
  else match find_index (λ w, negb (isKnownWord w)) 0 words with
       | Some (index, word) => WordsUnknown index word (suggestWord word)
       | None => WordsOk words (join [32] words)
       end.

(** [words[index] = replacement]; past the end the array grows by holes, which
    [join] writes as empty. *)
Definition applySuggestion (input : jstr) (index : nat) (replacement : jstr) : jstr :=
  let words := parseWords input in
  let words := words ++ replicate (S index - length words) [] in
  join [32] (<[index := replacement]> words).
End Words.

Example distance_swap : editDistance (lit "abel") (lit "able") = 1.
Proof. reflexivity. Qed.
Example distance_two : editDistance (lit "kitten") (lit "sittin") = 2.
Proof. reflexivity. Qed.

(** ** What the distance is *)

Section Spec.
Context (a b : jstr).

(** [align i j n]: the first [i] characters of [a] become the first [j] of [b]
    by [n] edits - leaving out, putting in, changing a character, or swapping
    two neighbours. *)
Inductive align : nat → nat → Z → Prop :=
  | align_nil : align 0 0 0
  | align_delete i j n : align i j n → (i < length a)%nat → align (S i) j (n + 1)
  | align_insert i j n : align i j n → (j < length b)%nat → align i (S j) (n + 1)
  | align_keep i j n c d : align i j n → a !! i = Some c → b !! j = Some d → align (S i) (S j) (n + (if c =? d then 0 else 1))
  | align_swap i j n c d : align i j n → a !! i = Some c → a !! S i = Some d → b !! j = Some d → b !! S j = Some c →
      align (S (S i)) (S (S j)) (n + 1).

(** The value the cell at [i], [j] should have, by recursion on both prefixes. *)
Fixpoint best (i : nat) : nat → Z :=
  fix best_i (j : nat) : Z :=
    match i, j with
    | O, _ => Z.of_nat j
    | S _, O => Z.of_nat i
    | S i', S j' =>
        let cost := if char_at a i' =? char_at b j' then 0 else 1 in
        let value := Z.min (Z.min (best i' (S j') + 1) (best_i j' + 1)) (best i' j' + cost) in
        match i', j' with
        | S i'', S j'' =>
            if (char_at a i' =? char_at b j'') && (char_at a i'' =? char_at b j') then Z.min value (best i'' j'' + 1) else value
        | _, _ => value
        end
    end.

Lemma best_0_l j : best 0 j = Z.of_nat j.
Proof. by destruct j. Qed.
Lemma best_0_r i : best i 0 = Z.of_nat i.
Proof. by destruct i. Qed.

(** The code's formula on the cells before. *)
Lemma best_value i j : best (S i) (S j) = cell_value a b best (S i) (S j).
Proof.
  unfold cell_value. cbn [Nat.sub]. rewrite !Nat.sub_0_r.
  destruct i as [|i]; [reflexivity|]. destruct j as [|j]; [reflexivity|]. cbn [Nat.ltb Nat.leb andb Nat.sub]. rewrite !Nat.sub_0_r. reflexivity.
Qed.

(** *** The table holds [best] *)

Definition dims (table : list (list Z)) : Prop :=
  length table = S (length a) ∧ ∀ i row, table !! i = Some row → length row = S (length b).

Lemma dims_set table i j v : dims table → dims (set_cell table i j v).
Proof.
  intros [Hl Hr]. unfold set_cell. split; [by rewrite length_alter|]. intros k row.
  rewrite list_lookup_alter. case_decide; [|apply Hr]. subst k.
  destruct (table !! i) as [row'|] eqn:E; [|done]. cbn. intros [= <-]. rewrite length_insert. eauto.
Qed.

Lemma cell_set table i j v i' j' : dims table → (i <= length a)%nat → (j <= length b)%nat →
  cell (set_cell table i j v) i' j' = if bool_decide (i' = i ∧ j' = j) then v else cell table i' j'.
Proof.
  intros [Hl Hr] Hi Hj. unfold cell, set_cell. destruct (decide (i' = i)) as [->|Hne].
  - rewrite list_lookup_alter_eq. destruct (lookup_lt_is_Some_2 table i) as [row Hrow]; [lia|]. rewrite Hrow. cbn.
    destruct (decide (j' = j)) as [->|Hne].
    + rewrite list_lookup_insert_eq by (rewrite (Hr _ _ Hrow); lia). by rewrite bool_decide_true.
    + rewrite list_lookup_insert_ne by done. by rewrite bool_decide_false by naive_solver.
  - rewrite list_lookup_alter_ne by done. by rewrite bool_decide_false by naive_solver.
Qed.

(** A loop of [foldl] over [seq] keeps an invariant that is indexed by its
    counter. *)
Lemma foldl_seq_inv {A} (P : nat → A → Prop) (f : A → nat → A) s n x :
  P s x → (∀ k y, (s <= k < s + n)%nat → P k y → P (S k) (f y k)) → P (s + n)%nat (foldl f x (seq s n)).
Proof.
  revert s x. induction n as [|n IH]; intros s x Hx Hf; cbn [seq foldl]; [by rewrite Nat.add_0_r|].
  rewrite <- Nat.add_succ_comm. apply IH; [apply Hf; [lia|done]|]. intros k y Hk. apply Hf. lia.
Qed.

(** The cells the loops have reached hold [best]. *)
Definition holds (table : list (list Z)) (reached : nat → nat → Prop) : Prop :=
  dims table ∧ ∀ i j, (i <= length a)%nat → (j <= length b)%nat → reached i j → cell table i j = best i j.

Lemma holds_set table reached i j v (reached' : nat → nat → Prop) : holds table reached → (i <= length a)%nat → (j <= length b)%nat →
  v = best i j → (∀ i' j', reached' i' j' → i' = i ∧ j' = j ∨ reached i' j') → holds (set_cell table i j v) reached'.
Proof.
  intros [Hd Hh] Hi Hj -> Hr. split; [by apply dims_set|]. intros i' j' Hi' Hj' H'. rewrite cell_set by done.
  case_bool_decide as Hd'; [by destruct Hd' as [-> ->]|]. destruct (Hr _ _ H'); [done|]. by apply Hh.
Qed.

Lemma holds_weaken table (reached reached' : nat → nat → Prop) : holds table reached → (∀ i j, (i <= length a)%nat → (j <= length b)%nat → reached' i j → reached i j) → holds table reached'.
Proof. intros [Hd Hh] Hr. split; [done|]. intros i j Hi Hj H. apply Hh; auto. Qed.

Lemma first_table_holds : holds (first_table a b) (λ i j, i = 0%nat ∨ j = 0%nat).
Proof.
  unfold first_table. set (zeros := replicate _ _).
  assert (Hz : holds zeros (λ i j, (i < 0)%nat ∧ j = 0%nat)).
  { unfold zeros. split; [|lia]. split; [by rewrite length_replicate|]. intros k row Hk. apply lookup_replicate in Hk as [-> _]. by rewrite length_replicate. }
  apply (foldl_seq_inv (λ k t, holds t (λ i j, (i < k)%nat ∧ j = 0%nat)) (λ t i, set_cell t i 0 (Z.of_nat i)) 0 (S (length a))) in Hz.
  2: { intros k t Hk Ht. apply (holds_set _ _ _ _ _ _ Ht); [lia|lia|by rewrite best_0_r|]. intros i' j' [H ->]. lia. }
  set (column := foldl _ zeros _) in *. change (0 + S (length a))%nat with (S (length a)) in Hz.
  assert (Hc : holds column (λ i j, i = 0%nat ∧ (j < 0)%nat ∨ j = 0%nat)) by (apply (holds_weaken _ _ _ Hz); lia).
  apply (foldl_seq_inv (λ k t, holds t (λ i j, i = 0%nat ∧ (j < k)%nat ∨ j = 0%nat)) (λ t j, set_cell t 0 j (Z.of_nat j)) 0 (S (length b))) in Hc.
  2: { intros k t Hk Ht. apply (holds_set _ _ _ _ _ _ Ht); [lia|lia|by rewrite best_0_l|]. intros i' j'. lia. }
  apply (holds_weaken _ _ _ Hc). lia.
Qed.

Lemma cell_value_ext get get' i j : (0 < i)%nat → (0 < j)%nat →
  (∀ i' j', (i' < i ∧ j' <= j ∨ i' = i ∧ j' < j)%nat → get i' j' = get' i' j') → cell_value a b get i j = cell_value a b get' i j.
Proof. intros Hi Hj He. unfold cell_value. rewrite !(He (i - 1)%nat), (He i), (He (i - 2)%nat) by lia. done. Qed.

Lemma fill_row_holds table i : (0 < i <= length a)%nat → holds table (λ i' j, (i' < i)%nat ∨ j = 0%nat) →
  holds (fill_row a b table i) (λ i' j, (i' < S i)%nat ∨ j = 0%nat).
Proof.
  intros Hi Ht.
  apply (holds_weaken _ (λ i' j', (i' < i)%nat ∨ j' = 0%nat ∨ i' = i ∧ (j' < 1 + length b)%nat)); [|lia].
  apply (foldl_seq_inv (λ k t, holds t (λ i' j', (i' < i)%nat ∨ j' = 0%nat ∨ i' = i ∧ (j' < k)%nat))).
  { apply (holds_weaken _ _ _ Ht). lia. }
  intros j t Hj Hh. apply (holds_set _ _ _ _ _ _ Hh); [lia|lia| |intros; lia].
  rewrite (cell_value_ext _ best) by (first [lia|intros; apply Hh; lia]).
  destruct i as [|i]; [lia|]. destruct j as [|j]; [lia|]. by rewrite best_value.
Qed.

Lemma editDistance_best : editDistance a b = best (length a) (length b).
Proof.
  unfold editDistance, fill_table.
  assert (Hf : holds (first_table a b) (λ i j, (i < 1)%nat ∨ j = 0%nat)) by (apply (holds_weaken _ _ _ first_table_holds); lia).
  apply (foldl_seq_inv (λ k t, holds t (λ i j, (i < k)%nat ∨ j = 0%nat)) (fill_row a b) 1 (length a)) in Hf.
  - apply Hf; lia.
  - intros k t Hk. apply fill_row_holds. lia.
Qed.

(** *** [best] is the least cost of an alignment *)

Lemma char_at_Some (s : jstr) i c : s !! i = Some c → char_at s i = c.
Proof. intros H. unfold char_at. by rewrite nth_lookup, H. Qed.

Lemma char_at_lookup (s : jstr) i : (i < length s)%nat → s !! i = Some (char_at s i).
Proof. intros H. destruct (lookup_lt_is_Some_2 s i H) as [c Hc]. by rewrite (char_at_Some _ _ _ Hc). Qed.

Lemma best_least i j n : align i j n → best i j <= n.
Proof.
  induction 1 as [|i j n _ IH Hi|i j n _ IH Hj|i j n c d _ IH Ha Hb|i j n c d _ IH Ha Ha' Hb Hb'].
  - done.
  - destruct j as [|j]; [rewrite best_0_r in *; lia|]. rewrite best_value. unfold cell_value. cbn [Nat.sub].
    rewrite !Nat.sub_0_r. repeat case_match; lia.
  - destruct i as [|i]; [rewrite best_0_l in *; lia|]. rewrite best_value. unfold cell_value. cbn [Nat.sub].
    rewrite !Nat.sub_0_r. repeat case_match; lia.
  - rewrite best_value. unfold cell_value. cbn [Nat.sub]. rewrite !Nat.sub_0_r.
    rewrite (char_at_Some _ _ _ Ha), (char_at_Some _ _ _ Hb). repeat case_match; lia.
  - rewrite best_value. unfold cell_value. cbn [Nat.sub Nat.ltb Nat.leb]. rewrite !Nat.sub_0_r.
    rewrite (char_at_Some _ _ _ Ha), (char_at_Some _ _ _ Hb), (char_at_Some _ _ _ Ha'), (char_at_Some _ _ _ Hb'), !Z.eqb_refl. cbn [andb].
    lia.
Qed.

Lemma align_min i j n m : align i j n → align i j m → align i j (Z.min n m).
Proof. intros. by destruct (Z.min_dec n m) as [-> | ->]. Qed.

Lemma best_aligned i : ∀ j, (i <= length a)%nat → (j <= length b)%nat → align i j (best i j).
Proof.
  induction (lt_wf i) as [i _ IHi]. intros j. induction (lt_wf j) as [j _ IHj]. intros Hi Hj.
  destruct i as [|i].
  { rewrite best_0_l. destruct j as [|j]; [constructor|]. specialize (IHj j ltac:(lia) Hi ltac:(lia)). rewrite best_0_l in IHj.
    rewrite Nat2Z.inj_succ. by apply align_insert. }
  destruct j as [|j].
  { specialize (IHi i ltac:(lia) 0%nat ltac:(lia) Hj). rewrite best_0_r in *. rewrite Nat2Z.inj_succ. by apply align_delete. }
  rewrite best_value. unfold cell_value. cbn [Nat.sub]. rewrite !Nat.sub_0_r.
  pose proof (align_delete _ _ _ (IHi i ltac:(lia) (S j) ltac:(lia) Hj) ltac:(lia)) as Hd.
  pose proof (align_insert _ _ _ (IHj j ltac:(lia) Hi ltac:(lia)) ltac:(lia)) as Hn.
  pose proof (align_keep _ _ _ _ _ (IHi i ltac:(lia) j ltac:(lia) ltac:(lia)) (char_at_lookup a i ltac:(lia)) (char_at_lookup b j ltac:(lia))) as Hk.
  set (value := Z.min (Z.min (_ + 1) (_ + 1)) _).
  assert (Hv : align (S i) (S j) value) by (unfold value; by apply (align_min _ _ _ _ (align_min _ _ _ _ Hd Hn) Hk)).
  destruct (_ && _) eqn:E; [|done]. apply align_min; [done|].
  apply andb_prop in E as [[[E1 E2]%andb_prop E3]%andb_prop E4].
  destruct i as [|i]; [done|]. destruct j as [|j]; [done|]. cbn [Nat.sub] in *. rewrite !Nat.sub_0_r in *.
  apply Z.eqb_eq in E3, E4.
  apply (align_swap _ _ _ (char_at a i) (char_at a (S i))); [apply IHi; lia|apply char_at_lookup; lia|apply char_at_lookup; lia| |].
  - rewrite E3. apply char_at_lookup. lia.
  - rewrite E4. apply char_at_lookup. lia.
Qed.

Lemma align_lengths i j n : align i j n → Z.abs (Z.of_nat i - Z.of_nat j) <= n.
Proof. induction 1; repeat case_match; lia. Qed.
End Spec.

(** [b] can be made from [a] by at most [limit] edits. *)
Definition within (a b : jstr) (limit : Z) : Prop := ∃ n, align a b (length a) (length b) n ∧ n <= limit.

Lemma editDistance_within a b limit : editDistance a b <= limit ↔ within a b limit.
Proof.
  rewrite editDistance_best. split.
  - intros H. exists (best a b (length a) (length b)). split; [by apply best_aligned|done].
  - intros (n & Hn & Hle). apply best_least in Hn. lia.
Qed.

(** ** The suggestion *)

(** The one word of the list within [limit] edits. *)
Definition only_within (WORDS : list jstr) (word : jstr) (limit : Z) (w : jstr) : Prop :=
  w ∈ WORDS ∧ within word w limit ∧ ∀ w', w' ∈ WORDS → within word w' limit → w' = w.

Section Suggest.
Context (WORDS : list jstr) (distinct : NoDup WORDS).

Lemma matches_elem word limit w : w ∈ matches_within WORDS word limit ↔ w ∈ WORDS ∧ within word w limit.
Proof.
  unfold matches_within. rewrite list_elem_of_In, filter_In, <- list_elem_of_In. rewrite <- editDistance_within, andb_true_iff, !Z.leb_le.
  split; [tauto|]. intros [Hw Hd]. split; [done|]. split; [|done].
  apply editDistance_within in Hd as (n & Hn & Hle). apply align_lengths in Hn. unfold zlen. lia.
Qed.

Lemma matches_NoDup word limit : NoDup (matches_within WORDS word limit).
Proof. unfold matches_within. apply NoDup_ListNoDup, List.NoDup_filter. by apply NoDup_ListNoDup. Qed.

Lemma matches_one word limit w : matches_within WORDS word limit = [w] ↔ only_within WORDS word limit w.
Proof.
  unfold only_within. pose proof (matches_NoDup word limit) as Hd.
  assert (He := matches_elem word limit). destruct (matches_within WORDS word limit) as [|x l].
  { split; [done|]. intros (Hw & Hi & _). exfalso. apply (not_elem_of_nil w). apply He. done. }
  split.
  - intros [= -> ->]. split_and!; [apply He; left|apply He; left|]. intros w' Hw' Hi'. apply list_elem_of_singleton. by apply He.
  - intros (Hw & Hi & Hu). assert (x = w) as -> by (apply Hu; apply He; left). f_equal.
    destruct l as [|y l]; [done|]. exfalso. apply NoDup_cons in Hd as [Hd _]. apply Hd.
    assert (y = w) as -> by (apply Hu; apply He; right; left). left.
Qed.

Lemma matches_nil word limit : matches_within WORDS word limit = [] ↔ ∀ w, w ∈ WORDS → ¬ within word w limit.
Proof.
  assert (He := matches_elem word limit). destruct (matches_within WORDS word limit) as [|x l].
  - split; [|done]. intros _ w Hw Hi. apply (not_elem_of_nil w). by apply He.
  - split; [done|]. intros Hn. destruct (proj1 (He x) ltac:(left)) as [Hw Hi]. by destruct (Hn x Hw).
Qed.

(** C38: for a word of at least two characters and a list without repeats,
    [suggestWord] proposes [w] exactly when [w] is the one word of the list
    that can be made from it by one edit - a character left out, put in,
    changed, or two neighbours swapped - or no word of the list can and [w] is
    the one word that can be made by two. A shorter word gets no suggestion. *)
Theorem suggestWord_spec word w :
  suggestWord WORDS word = Some w ↔
  2 <= zlen word ∧ (only_within WORDS word 1 w ∨ (∀ v, v ∈ WORDS → ¬ within word v 1) ∧ only_within WORDS word 2 w).
Proof.
  unfold suggestWord, suggest_from. rewrite <- !matches_one, <- matches_nil.
  destruct (Z.ltb_spec (zlen word) 2) as [Hl|Hl]; [split; [done|lia]|].
  destruct (matches_within WORDS word 1) as [|x [|y l]]; [destruct (matches_within WORDS word 2) as [|x [|y l]]| |];
    naive_solver.
Qed.
End Suggest.

Definition few_words : list jstr := [lit "able"; lit "acid"; lit "acre"].

Lemma suggestWord_spec_witness : NoDup few_words ∧
  2 <= zlen (lit "abel") ∧ (only_within few_words (lit "abel") 1 (lit "able") ∨
    (∀ v, v ∈ few_words → ¬ within (lit "abel") v 1) ∧ only_within few_words (lit "abel") 2 (lit "able")).
Proof.
  assert (Hd : NoDup few_words) by (apply NoDup_ListNoDup; repeat constructor; cbn; intuition discriminate).
  split; [exact Hd|]. apply (suggestWord_spec few_words Hd). reflexivity.
Defined.
