(* ===== verification/PageText.v ===== *)
(** * What the two pages say ([get/copy.ts], [send/copy.ts], [send/screens.ts])

    The wording of the recipient page and of the sender page, the two functions
    that format a number, and the text each screen of each page shows. A number
    is divided as the language divides it, in double precision. *)

From Stdlib Require Import SpecFloat.
From S2P Require Import Prelude JsString Utf8.
From S2P Require SendState GetState.

(** A literal of the source, which is a UTF-8 file. *)
Definition text (s : string) : jstr := default [] (utf8_decode false (lit s)).
Arguments text s%_string.

(** ** Numbers *)

Notation double := spec_float.

Definition of_Z (n : Z) : double := binary_normalize 53 1024 n 0 false.
Definition div (a b : double) : double := SFdiv 53 1024 a b.
Definition at_least (a b : double) : bool := SFleb b a.

(** [value.toFixed(digits)] of a value that is neither negative nor above
    [10^21]: the nearest decimal, the larger of two. *)
Definition toFixed (value : double) (digits : Z) : jstr :=
  let n := match value with
           | S754_finite _ m e =>
               if 0 <=? e then Z.pos m * 2 ^ e * 10 ^ digits
               else (2 * (Z.pos m * 10 ^ digits) + 2 ^ (- e)) / (2 * 2 ^ (- e))
           | _ => 0
           end in
  if digits =? 0 then decimal n
  else decimal (n / 10 ^ digits) ++ [46] ++
       (let fraction := decimal (n mod 10 ^ digits) in replicate (Z.to_nat digits - length fraction) 48 ++ fraction).

(** [while (value >= 1000 && unit < units.length - 1)]: the units still to go. *)
Fixpoint scale (value : double) (unit : string) (units : list string) : double * string :=
  match units with
  | next :: units => if at_least value (of_Z 1000) then scale (div value (of_Z 1000)) next units else (value, unit)
  | [] => (value, unit)
  end.

Definition formatBytes (bytes : Z) : jstr :=
  if bytes <? 1000 then decimal bytes ++ lit " B"
  else
    let '(value, unit) := scale (div (of_Z bytes) (of_Z 1000)) "kB" ["MB"; "GB"]%string in
    toFixed value (if at_least value (of_Z 100) then 0 else 1) ++ [32] ++ lit unit.

(** The seconds are whole ones, as both pages count them. *)
Definition formatClock (seconds : Z) : jstr :=
  let whole := Z.max 0 seconds in
  let rest := decimal (whole mod 60) in
  decimal (whole / 60) ++ [58] ++ replicate (2 - length rest) 48 ++ rest.

Example formatBytes_small : formatBytes 999 = lit "999 B".
Proof. reflexivity. Qed.
Example formatBytes_down : formatBytes 1150 = lit "1.1 kB".
Proof. vm_compute. reflexivity. Qed.
Example formatBytes_large : formatBytes 5368709120 = lit "5.4 GB".
Proof. vm_compute. reflexivity. Qed.
Example formatClock_pads : formatClock 605 = lit "10:05".
Proof. vm_compute. reflexivity. Qed.

(** ** The wording both pages share *)

Definition COPY_footer : jstr := text "This is new software and hasn't been independently audited yet.".
Definition COPY_aboutLink : jstr := text "About Wildbloom".
Definition COPY_titleSuffix : jstr := text "Wildbloom".
Definition COPY_offlineBanner : jstr := text "You're offline. Connect to the internet to continue.".
Definition COPY_wordsLabel : jstr := text "The 4 words".
Definition words_hint (n : Z) : jstr := decimal n ++ text " of 4 words".
Definition words_empty : jstr := text "Type the 4 words first.".
Definition words_wrongCount (n : Z) : jstr :=
  if n =? 1 then text "That's 1 word. You need 4." else text "That's " ++ decimal n ++ text " words. You need 4.".
Definition words_unknown (word : jstr) : jstr := text "“" ++ word ++ text "” isn't one of the words. Check the spelling.".
Definition words_useSuggestion (word : jstr) : jstr := text "Use “" ++ word ++ text "”".
Definition button_continue : jstr := text "Continue".
Definition button_cancel : jstr := text "Cancel".
Definition button_tryAgain : jstr := text "Try again".
Definition button_yes : jstr := text "Yes, they match".
Definition button_no : jstr := text "No, they don't".
Definition COPY_timeLeft (clock : jstr) : jstr := clock ++ text " left".
Definition COPY_progressLabel (done total : jstr) : jstr := done ++ text " of " ++ total.
Definition announce_connected : jstr := text "Connected.".

(** A heading and its body. *)
Definition screen_text : Type := jstr * option jstr.
Definition says (h1 body : string) : screen_text := (text h1, Some (text body)).

(** ** The recipient page *)

Module Get.
Import GetState.

Definition COPY_checkWordsLabel : jstr := text "Words to compare with the sender".
Definition button_download : jstr := text "Download".
Definition button_saveAgain : jstr := text "Save again".
Definition COPY_senderNeeds : jstr := text "The sender needs Wildbloom open while you do this.".
Definition announce_progress (percent : Z) : jstr := text "Download " ++ decimal percent ++ text "% complete.".
Definition announce_downloaded : jstr := text "Download complete. Checking the file.".
Definition announce_saved : jstr := text "Saved.".
Definition COPY_progressName : jstr := text "Download progress".

Definition screenText (state : ViewState) : screen_text :=
  match screen state with
  | r2 => says "This browser can't open the file" "Try an up-to-date version of Safari, Chrome, Edge or Firefox."
  | r3 => says "This link isn't complete" "Ask the sender to send it again, or make sure you copied all of it."
  | r4 => says "This link has expired" "Links work for 10 minutes. Ask the sender to share the file again."
  | r5 => says "Get your file" "Type the 4 words the sender told you."
  | r6 => says "Connecting to the sender" "Keep this page open."
  | r7 => says "Waiting for the sender" "Ask them to keep Wildbloom open. Keep this page open."
  | r8 => says "Those words didn't work"
      "The link has stopped working to keep the file safe. Ask the sender to share it again. They'll get a new link and new words."
  | r9 => says "This link has already been used" "Each link works for one person. Ask the sender to share the file again."
  | r10 => says "Can't connect right now" "Check your internet connection, then try again."
  | r11 => says "The sender stopped sharing" "Ask them to share the file again if you still need it."
  | r12 => says "Check these words with the sender" "The sender will read you 3 words. Do they match?"
  | r13 => says "Nothing was sent" "The words didn't match, so the file wasn't sent. Tell the sender and ask them to share it again."
  | r14 => says "Waiting for the sender" "They need to confirm the words on their computer. Keep this page open."
  | r15 => says "Your file is ready" "It's downloaded from the sender's storage and decrypted on this device."
  | r16 => (text "Downloading", None)
  | r17 => says "Checking the file" "Making sure it's exactly what they sent."
  | r18 => (text "Downloaded",
      Some (text "Your browser has saved " ++ fileName state ++ text ". If you can't find it, look in your downloads or save it again. Keep this page open until the file has finished saving. Then you can close this page."))
  | r19 => says "The file isn't available right now" "The sender's storage didn't respond. Try again in a few minutes."
  | r20 => says "This file is no longer shared" "Ask the sender to share it again if you still need it."
  | r21 => says "This file didn't pass its check" "It may have been damaged on the way, so it wasn't saved. Try again, or ask the sender to share it again."
  | r22 => says "This file is too big for a browser" "Ask the sender to send it another way."
  | r23 => says "Your browser didn't save the file" "Try saving it again."
  | cancelled => says "You stopped this" "Nothing was sent. Ask the sender to share the file again if you still need it."
  | invalid => says "This file can't be opened"
      "The details from the sender weren't in the form this page expects. Ask them to share the file again."
  end.
End Get.

(** ** The sender page *)

Module Send.
Import SendState.

Definition MAY_HAVE_ARRIVED : string := "It may have reached them. Check with them.".

Definition COPY_checkWordsLabel : jstr := text "Words to compare with theirs".
Definition button_stop : jstr := text "Stop".
Definition button_chooseFile : jstr := text "Choose a file".
Definition button_chooseAnother : jstr := text "Choose another file".
Definition hide_label : jstr := text "Don't show them my internet address".
Definition hide_hint : jstr :=
  text "Their computer won't show it, and sending can be slower. The server that passes the file on is theirs, so they could still find it.".
Definition hide_theirs : jstr := text "They're hiding their own internet address from you too.".
Definition hide_unavailable : jstr := text "Their computer can't hide addresses right now, so it will see your internet address.".
Definition COPY_theyNeed : jstr := text "They need Wildbloom open while you do this.".
Definition COPY_reconnecting : jstr := text "The connection dropped. Trying again…".
Definition announce_asking (name : jstr) : jstr := text "Asking them to accept " ++ name ++ text ".".
Definition announce_sending (name : jstr) : jstr := text "Sending " ++ name ++ text ".".
Definition announce_progress (percent : Z) : jstr := text "Sending " ++ decimal percent ++ text "% complete.".
Definition announce_finishing : jstr := text "Finishing. Waiting for them to confirm it arrived.".
Definition announce_sent : jstr := text "Sent.".
Definition COPY_progressName : jstr := text "Sending progress".

(** [COPY.screens] and [COPY.screens.afterEnd], by the entry a state shows. *)
Definition COPY_screens (limit name : jstr) (entry : shown) : screen_text :=
  match entry with
  | After no_room => says "Their computer can't keep this file" MAY_HAVE_ARRIVED
  | After lost => says "The connection was lost" MAY_HAVE_ARRIVED
  | After they_stopped => says "They stopped this" MAY_HAVE_ARRIVED
  | After failed => says "Sending stopped" MAY_HAVE_ARRIVED
  | After _ => says "You stopped this" MAY_HAVE_ARRIVED
  | Plainly s =>
      match s with
      | unsupported => says "This browser can't send the file" "Try an up-to-date version of Safari, Chrome, Edge or Firefox."
      | incomplete => says "This link isn't complete" "Ask them to send it again, or make sure you copied all of it."
      | expired => says "This link has expired" "Links work for 10 minutes. Ask them to start again."
      | words => says "Send a file" "Type the 4 words they told you."
      | connecting => says "Connecting" "Keep this page open."
      | waiting => says "Waiting for them" "Ask them to keep Wildbloom open. Keep this page open."
      | wrong_words => says "Those words didn't work"
          "The link has stopped working to keep things safe. Ask them to start again. They'll get a new link and new words."
      | used => says "This link has already been used" "Each link works for one person. Ask them to start again."
      | network => says "Can't connect right now" "Check your internet connection, then try again."
      | check_ => says "Check these words with them" "They'll read you 3 words. Do they match?"
      | mismatch => says "Nothing was sent" "The words didn't match, so nothing was set up. Tell them and ask them to start again."
      | confirming => says "Waiting for them" "They need to confirm the words on their computer. Keep this page open."
      | choose => (text "Choose a file",
          Some (text "It's locked on this phone and sent to their computer, and it's not stored on any server. Up to " ++ limit ++ text "."))
      | asking => (text "Waiting for them to accept",
          Some (text "They need to say yes to " ++ name ++ text " on their computer. Keep this page open."))
      | declined => says "They said no" "Nothing was sent."
      | linking => says "Connecting to them" "Keep this page open."
      | sending => (text "Sending " ++ name, Some (text "Keep this page open until it's sent."))
      | finishing => says "Finishing…" "Waiting for them to confirm it arrived. Keep this page open."
      | sent => (text "Sent", Some (name ++ text " is on their computer. You can close this page."))
      | too_big => (text "This file is too big", Some (text "You can send up to " ++ limit ++ text "."))
      | empty => says "That file is empty" "There's nothing in it to send."
      | unreadable => says "That file couldn't be read" "Your phone couldn't open it. Try again, or choose another file."
      | no_relay => says "Can't hide your address"
          "Nothing was sent. Ask them to start again, and leave “Don't show them my internet address” off."
      | no_room => says "Their computer can't keep this file"
          "It may be full. Nothing was kept. Ask them to make some space, then start again."
      | connect_failed => says "Couldn't connect to them"
          "Your phone and their computer couldn't find a way to connect. Nothing was sent. Ask them to start again with a new link."
      | connect_failed_direct => says "Couldn't connect to them"
          "Your phone and their computer couldn't find a way to connect. Some networks, like mobile data or work Wi-Fi, don't allow it. Nothing was sent. Try again on another network, such as home Wi-Fi."
      | lost => says "The connection was lost" "Nothing was kept on their computer. Ask them to start again with a new link."
      | they_stopped => says "They stopped this" "Nothing was kept. Ask them to start again if you still want to send it."
      | failed => says "Sending stopped" "Something went wrong and nothing was kept. Ask them to start again with a new link."
      | cancelled => says "You stopped this" "Nothing was kept. Ask them to start again if you still want to send the file."
      | invalid => says "This link can't be used"
          "The details from them weren't in the form this page expects. Ask them to start again."
      end
  end.

Definition screen_says (state : ViewState) : screen_text :=
  COPY_screens (formatBytes (maxBytes state)) (fileName state) (screenText state).
End Send.
