(* ===== verification/PairingPage.v ===== *)
(** * What the two pages share: the words and the pairing
      ([get/main.ts], [send/main.ts])

    The recipient page and the sender page run the same code until two people
    have compared the words: the form, the start of the page, [connect], and what
    cancels it. It is written here once, over a class with what a page brings of
    its own: its reducer, its screens, and what else it closes. The pairing kit
    is outside; what its promises come to are inputs. *)

From S2P Require Import Prelude JsString Utf8 Failure PageText.
From S2P Require Words GetParts.

(** ** The state both pages keep *)

(** The form of the words, with what it shows under the input. *)
Record WordsForm := mkForm { value : jstr; hint : jstr; field_error : jstr; suggestion : option (nat * jstr) }.
#[export] Instance WordsForm_eta : Eta WordsForm := λ f, mkForm (value f) (hint f) (field_error f) (suggestion f).

(** A pairing flow of the kit: the secret it was given, the words it came to,
    what [verify] was told, and whether it was disposed of. *)
Record Flow := mkFlow { flow_secret : option jstr; flow_words : option jstr; verified : list bool; disposed : bool }.
#[export] Instance Flow_eta : Eta Flow := λ f, mkFlow (flow_secret f) (flow_words f) (verified f) (disposed f).

(** One call of [connect()], by its signal and the promise it awaits. *)
Inductive connect_stage : Type := Claiming | PairingFlow (flow : nat) | ConnectOver.
Record connect_run := mkRun { run_signal : nat; run_stage : connect_stage }.
#[export] Instance connect_run_eta : Eta connect_run := λ r, mkRun (run_signal r) (run_stage r).

(** [aborted] are the signals by number; [controller] is the newest. A timer is
    named by its number too. *)
Record Pairing := mkPairing {
  clock : Z; secret : option jstr; claimed : bool; aborted : list bool; controller : option nat; runs : list connect_run;
  flows : list Flow; flow : option nat; slow_timers : list nat; slowTimer : option nat; slow_count : nat;
  form : option WordsForm; time_left : option jstr; hintAnnounceAt : Z; hint_timer : option jstr; announced : list jstr }.

#[export] Instance Pairing_eta : Eta Pairing := λ p,
  mkPairing (clock p) (secret p) (claimed p) (aborted p) (controller p) (runs p) (flows p) (flow p) (slow_timers p) (slowTimer p)
    (slow_count p) (form p) (time_left p) (hintAnnounceAt p) (hint_timer p) (announced p).

Definition first_pairing : Pairing := mkPairing 0 None false [] None [] [] None [] None 0 None None 0 None [].

Definition nowSeconds (p : Pairing) : Z := clock p / 1000.

Definition announce (message : jstr) (p : Pairing) : Pairing := p <| announced := announced p ++ [message] |>.

(** [new AbortController()], and [controller?.abort()]. *)
Definition new_signal (p : Pairing) : Pairing := p <| aborted := aborted p ++ [false] |> <| controller := Some (length (aborted p)) |>.
Definition abort_controller (p : Pairing) : Pairing :=
  match controller p with Some c => p <| aborted := <[c := true]> (aborted p) |> | None => p end.
Definition is_aborted (p : Pairing) (signal : nat) : bool := default false (aborted p !! signal).

Definition clear_slow (p : Pairing) : Pairing :=
  match slowTimer p with Some t => p <| slow_timers := filter (λ i, i ≠ t) (slow_timers p) |> | None => p end.
Definition set_slow (p : Pairing) : Pairing :=
  p <| slow_timers := slow_count p :: slow_timers p |> <| slowTimer := Some (slow_count p) |> <| slow_count := S (slow_count p) |>.

Definition on_flow (n : nat) (f : Flow → Flow) (p : Pairing) : Pairing := p <| flows := alter f n (flows p) |>.
Definition dispose_flow (p : Pairing) : Pairing :=
  match flow p with Some n => on_flow n (λ f, f <| disposed := true |>) p <| flow := None |> | None => p end.

(** ** The form of the words *)

Section Form.
Context `{Unicode} (WORDS : list jstr).

Definition hint_of (value : jstr) : jstr := words_hint (Z.min (zlen (Words.parseWords value)) Words.REQUIRED_WORDS).

(** [enterWords(lede)]: a new form. *)
Definition enterWords (p : Pairing) : Pairing :=
  let value := default [] (secret p) in p <| form := Some (mkForm value (hint_of value) [] None) |>.

(** [updateHint(announceIt)]: the announcement waits, and only the newest does. *)
Definition updateHint (announceIt : bool) (p : Pairing) : Pairing :=
  match form p with
  | None => p
  | Some f =>
      let message := hint_of (value f) in
      let p := p <| form := Some (f <| hint := message |>) |> in
      if announceIt then p <| hint_timer := Some message |> else p
  end.

(** When the announcement of the hint is due, in milliseconds. *)
Definition hint_wait (p : Pairing) : Z := Z.max 0 (hintAnnounceAt p + 1000 - clock p).

Definition hint_fires (p : Pairing) : Pairing :=
  match hint_timer p with
  | Some message =>
      announce (match form p with Some f => hint f | None => message end) (p <| hint_timer := None |> <| hintAnnounceAt := clock p |>)
  | None => p
  end.

Definition clearFieldError (p : Pairing) : Pairing :=
  match form p with Some f => p <| form := Some (f <| field_error := [] |> <| suggestion := None |>) |> | None => p end.
Definition showFieldError (message : jstr) (p : Pairing) : Pairing :=
  match form p with Some f => p <| form := Some (f <| field_error := message |>) |> | None => p end.

(** The person types. *)
Definition type_words (input : jstr) (p : Pairing) : Pairing :=
  match form p with
  | Some f => updateHint true (clearFieldError (p <| form := Some (f <| value := input |>) |>))
  | None => p
  end.

(** The button of a suggestion. *)
Definition use_suggestion (p : Pairing) : Pairing :=
  match form p with
  | Some f =>
      match suggestion f with
      | Some (index, word) =>
          updateHint true (clearFieldError (p <| form := Some (f <| value := Words.applySuggestion (value f) index word |>) |>))
      | None => p
      end
  | None => p
  end.

(** What [onContinue] says of words that will not do. *)
Definition refuse_words (result : Words.WordsCheck) (p : Pairing) : Pairing :=
  match result with
  | Words.WordsEmpty => showFieldError words_empty p
  | Words.WordsCount count => showFieldError (words_wrongCount count) p
  | Words.WordsUnknown index word found =>
      let p := showFieldError (words_unknown word) p in
      match found, form p with
      | Some w, Some f => p <| form := Some (f <| suggestion := Some (index, w) |>) |>
      | _, _ => p
      end
  | Words.WordsOk _ _ => p
  end.
End Form.

(** ** What a page brings *)

(** The events of a page's reducer that the shared code dispatches. *)
Inductive pairing_event : Type :=
  | PStart (link : GetParts.LinkProblem) | PUnsupported | POnline (online : bool) | PContinue | PSlow | PClaimRefused | PNetwork
  | PWrongWords | PPaired (words : jstr) | PExpired | PBack | PCancel | PNo.

(** The buttons of the shared code, shown by the screens they are on. *)
Inductive pairing_button : Type := CancelButton | TryAgainButton | NoButton.

Class PairingPage (S : Type) := {
  pairing : S → Pairing;
  update : (Pairing → Pairing) → S → S;
  (** [room?.session.expires], and [room = parsed]. *)
  room : S → option Z;
  enter_room : Z → S → S;
  (** The page has started: whether [init()] is still awaited. *)
  initialising : S → bool;
  set_initialising : bool → S → S;
  (** [countdownTimer] runs. *)
  counting_down : S → bool;
  is_offline : S → bool;
  at_connecting : S → bool;
  shows_button : pairing_button → S → bool;
  dispatch_pairing : pairing_event → S → S;
  (** [render(false)]. *)
  render : S → S;
  (** What [stopFlow] closes besides the flow, and what cancelling ends. *)
  close_more : S → S;
  drop_session : S → S;
}.

Section Page.
Context `{Unicode} {S : Type} `{PairingPage S} (WORDS : list jstr).

Definition stopFlow (s : S) : S := close_more (update (λ p, dispose_flow (abort_controller (clear_slow p))) s).

(** [connect()] up to its first await. *)
Definition connect (s : S) : S :=
  match room s, secret (pairing s) with
  | Some _, Some _ =>
      let s := update (λ p, new_signal (p <| claimed := false |>)) (stopFlow s) in
      let s := dispatch_pairing PContinue s in
      update (λ p, match controller p with Some c => p <| runs := runs p ++ [mkRun c Claiming] |> | None => p end) s
  | _, _ => s
  end.

Definition end_run (n : nat) (p : Pairing) : Pairing := p <| runs := alter (λ r, r <| run_stage := ConnectOver |>) n (runs p) |>.

(** [connect()]: its catch. *)
Definition connect_fails (n : nat) (signal : nat) (error : js_error) (s : S) : S :=
  let s := update (λ p, clear_slow (end_run n p)) s in
  if is_aborted (pairing s) signal then s
  else match classifyPairingFailure error (claimed (pairing s)) with
       | ClaimRefused => dispatch_pairing PClaimRefused s
       | WrongWords => dispatch_pairing PWrongWords (update (λ p, p <| secret := None |>) s)
       | PairingExpired => dispatch_pairing PExpired s
       | PairingNetwork => dispatch_pairing PNetwork s
       | PairingCancelled => s
       end.

(** [relay.recipient(...)] has settled; [made] is what [createPairingFlow] throws. *)
Definition recipient_settles (n : nat) (result : js_error + option js_error) (s : S) : S :=
  match runs (pairing s) !! n with
  | Some (mkRun signal Claiming) =>
      match result with
      | inl error => connect_fails n signal error s
      | inr made =>
          let s := update (λ p, set_slow (announce announce_connected (p <| claimed := true |>))) s in
          match made with
          | Some error => connect_fails n signal error s
          | None =>
              update (λ p, let f := length (flows p) in
                p <| flows := flows p ++ [mkFlow (secret p) None [] false] |> <| flow := Some f |>
                  <| runs := alter (λ r, r <| run_stage := PairingFlow f |>) n (runs p) |>) s
          end
      end
  | _ => s
  end.

(** [pairing.pair(...)] has settled. *)
Definition pair_settles (n : nat) (result : js_error + jstr) (s : S) : S :=
  match runs (pairing s) !! n with
  | Some (mkRun signal (PairingFlow f)) =>
      match result with
      | inl error => connect_fails n signal error s
      | inr words =>
          let s := update (λ p, on_flow f (λ x, x <| flow_words := Some words |>) (clear_slow (end_run n p)) <| secret := None |>) s in
          dispatch_pairing (PPaired words) s
      end
  | _ => s
  end.

Definition onContinue (s : S) : S :=
  match form (pairing s) with
  | None => s
  | Some f =>
      let s := update clearFieldError s in
      if is_offline s then s
      else match Words.checkWords WORDS (value f) with
           | Words.WordsOk _ typed => connect (update (λ p, p <| secret := Some typed |>) s)
           | result => update (refuse_words result) s
           end
  end.

(** The button of the screen that could not connect. *)
Definition try_again (s : S) : S := if is_offline s then s else connect s.

Definition onCancelConnect (s : S) : S :=
  let before := claimed (pairing s) in
  let s := stopFlow s in
  if negb before && at_connecting s then dispatch_pairing PBack s
  else dispatch_pairing PCancel (drop_session (update (λ p, p <| secret := None |>) s)).

Definition verify_flow (matches_ : bool) (p : Pairing) : Pairing :=
  match flow p with Some n => on_flow n (λ f, f <| verified := verified f ++ [matches_] |>) p | None => p end.

Definition onNo (s : S) : S :=
  dispatch_pairing PNo (update (λ p, verify_flow false p <| flow := None |> <| secret := None |>) s).

(** [updateCountdown()] on a page that shows the time left. *)
Definition updateCountdown (s : S) : S :=
  match room s with
  | Some expires => update (λ p, match time_left p with
      | Some _ => p <| time_left := Some (COPY_timeLeft (formatClock (expires - nowSeconds p))) |> | None => p end) s
  | None => s
  end.

(** A second of the countdown. *)
Definition countdown_fires (s : S) : S :=
  if counting_down s then
    match room s with
    | Some expires =>
        if expires <=? nowSeconds (pairing s) then
          dispatch_pairing PExpired (drop_session (update (λ p, p <| secret := None |>) (stopFlow s)))
        else updateCountdown s
    | None => s
    end
  else s.

Definition slow_fires (t : nat) (s : S) : S :=
  if bool_decide (t ∈ slow_timers (pairing s))
  then dispatch_pairing PSlow (update (λ p, p <| slow_timers := filter (λ i, i ≠ t) (slow_timers p) |>) s) else s.

(** [onState] of a flow. *)
Definition flow_expires (s : S) : S := dispatch_pairing PExpired s.

(** [start()] up to [await init()]. *)
Definition start (online supported : bool) (s : S) : S :=
  let s := dispatch_pairing (POnline online) s in
  if supported then set_initialising true s else dispatch_pairing PUnsupported s.

(** [start()] after it: the link as the kit parses it, by whether its secret is
    words and when it expires. *)
Definition init_settles (ok : bool) (parsed : option (bool * Z)) (hash : jstr) (s : S) : S :=
  if initialising s then
    let s := set_initialising false s in
    if negb ok then dispatch_pairing PUnsupported s
    else match parsed with
         | Some (true, expires) => render (enter_room expires s)
         | _ => dispatch_pairing (PStart (GetParts.classifyLinkFailure hash (nowSeconds (pairing s)))) s
         end
  else s.

(** ** What can happen *)

Inductive page_input : Type :=
  | ClockTo (ms : Z) | InitSettles (ok : bool) (parsed : option (bool * Z)) (hash : jstr) | GoesOnline (online : bool)
  | Type_ (input : jstr) | Submit | UseSuggestion | HintTimer
  | RecipientSettles (run : nat) (result : js_error + option js_error) | PairSettles (run : nat) (result : js_error + jstr)
  | FlowExpires | SlowTimer (timer : nat) | CountdownTimer
  | ClickCancel | ClickTryAgain | ClickNo.

Definition click (b : pairing_button) (f : S → S) (s : S) : S := if shows_button b s then f s else s.

Definition page_step (s : S) (i : page_input) : S :=
  match i with
  | ClockTo ms => if clock (pairing s) <=? ms then update (λ p, p <| clock := ms |>) s else s
  | InitSettles ok parsed hash => init_settles ok parsed hash s
  | GoesOnline online => dispatch_pairing (POnline online) s
  | Type_ input => update (type_words input) s
  | Submit => onContinue s
  | UseSuggestion => update use_suggestion s
  | HintTimer => if hint_wait (pairing s) =? 0 then update hint_fires s else s
  | RecipientSettles n result => recipient_settles n result s
  | PairSettles n result => pair_settles n result s
  | FlowExpires => flow_expires s
  | SlowTimer t => slow_fires t s
  | CountdownTimer => countdown_fires s
  | ClickCancel => click CancelButton onCancelConnect s
  | ClickTryAgain => click TryAgainButton try_again s
  | ClickNo => click NoButton onNo s
  end.
End Page.

(** What is found in a list with one item changed. *)
Lemma lookup_alter_inv {A} (f : A → A) n m (l : list A) y : alter f n l !! m = Some y →
  (m = n ∧ ∃ x, l !! n = Some x ∧ y = f x) ∨ (m ≠ n ∧ l !! m = Some y).
Proof.
  destruct (decide (m = n)) as [->|Hne].
  - rewrite list_lookup_alter_eq. destruct (l !! n) as [x|] eqn:E; [|done]. cbn. intros [= <-]. left. eauto.
  - rewrite list_lookup_alter_ne by done. auto.
Qed.

Lemma dispose_flow_none p : flow (dispose_flow p) = None.
Proof. unfold dispose_flow. by destruct (flow p) eqn:E. Qed.

(** ** What the shared code keeps

    Whatever a page keeps through its own handlers for the kit's events, it keeps
    through the shared code, when [drop_session] keeps it wherever a session may
    be dropped. *)

Section Keeps.
Context `{Unicode} {S : Type} `{PairingPage S} (WORDS : list jstr).
Context (I may_drop : S → Prop).
Hypothesis keeps_update : ∀ f s, I s → I (update f s).
Hypothesis keeps_dispatch : ∀ e s, I s → I (dispatch_pairing e s).
Hypothesis keeps_close : ∀ s, I s → I (close_more s).
Hypothesis keeps_initialising : ∀ b s, I s → I (set_initialising b s).
Hypothesis keeps_room : ∀ e s, I s → I (render (enter_room e s)).
Hypothesis keeps_drop : ∀ s, I s → may_drop s → I (drop_session s).
Hypothesis drop_update : ∀ f s, may_drop s → may_drop (update f s).
Hypothesis drop_close : ∀ s, may_drop s → may_drop (close_more s).
Hypothesis drop_cancel : ∀ s, I s → shows_button CancelButton s = true → may_drop s.
Hypothesis drop_countdown : ∀ s, I s → counting_down s = true → may_drop s.

Lemma stopFlow_keeps s : I s → I (stopFlow s).
Proof. intros Hs. unfold stopFlow. auto. Qed.

Lemma stopFlow_drop s : may_drop s → may_drop (stopFlow s).
Proof. intros Hs. unfold stopFlow. auto. Qed.

Lemma connect_keeps s : I s → I (connect s).
Proof. intros Hs. unfold connect. destruct (room s); [|done]. destruct (secret _); [|done]. cbv zeta. auto using stopFlow_keeps. Qed.

Lemma connect_fails_keeps n signal error s : I s → I (connect_fails n signal error s).
Proof. intros Hs. unfold connect_fails. cbv zeta. destruct (is_aborted _ _); [auto|]. destruct (classifyPairingFailure _ _); auto. Qed.

Lemma page_step_keeps s i : I s → I (page_step WORDS s i).
Proof.
  intros Hs. destruct i as [ms|ok parsed hash|online|input| | | |n result|n result| |t| | | |]; cbn [page_step].
  - destruct (_ <=? _); auto.
  - unfold init_settles. destruct (initialising s); [|done]. cbv zeta. destruct ok; cbn [negb]; [|auto].
    destruct parsed as [[[] e]|]; auto.
  - auto.
  - auto.
  - unfold onContinue. destruct (form _); [|done]. cbv zeta. destruct (is_offline _); [auto|].
    destruct (Words.checkWords _ _); [apply connect_keeps| | |]; auto.
  - auto.
  - destruct (_ =? _); auto.
  - unfold recipient_settles. destruct (runs _ !! n) as [[signal []]|]; try done. destruct result as [e|[e|]]; cbv zeta;
      auto using connect_fails_keeps.
  - unfold pair_settles. destruct (runs _ !! n) as [[signal []]|]; try done. destruct result; cbv zeta; auto using connect_fails_keeps.
  - unfold flow_expires. auto.
  - unfold slow_fires. destruct (bool_decide _); auto.
  - unfold countdown_fires. destruct (counting_down s) eqn:E; [|done]. destruct (room s) eqn:Er; [|done]. destruct (_ <=? _).
    + apply keeps_dispatch, keeps_drop; [auto using stopFlow_keeps|]. apply drop_update, stopFlow_drop. auto.
    + unfold updateCountdown. rewrite Er. auto.
  - unfold click. destruct (shows_button CancelButton s) eqn:E; [|done]. unfold onCancelConnect. cbv zeta.
    destruct (_ && _); [auto using stopFlow_keeps|]. apply keeps_dispatch, keeps_drop; [auto using stopFlow_keeps|].
    apply drop_update, stopFlow_drop. auto.
  - unfold click. destruct (shows_button TryAgainButton s); [|done]. unfold try_again. destruct (is_offline s); auto using connect_keeps.
  - unfold click. destruct (shows_button NoButton s); [|done]. unfold onNo. auto.
Qed.
End Keeps.
