(* ===== verification/PairingFacts.v ===== *)
(** * The words that are compared are those of the flow

    Over the interface of PairingPage.v and the laws a page's screens satisfy: as
    long as the kit's calls reject once their signal is aborted, the flow a page
    holds while it shows words to compare is the one that came to those words. *)

From S2P Require Import Prelude JsString Utf8 Failure PageText PairingPage.
From S2P Require Words GetParts.

(** Where a page stands, as far as the pairing goes. *)
Inductive phase_of : Type := PhWords | PhConnecting | PhWaiting | PhNetwork | PhCheck | PhExpired | PhElsewhere.

#[global] Instance phase_of_eq_dec : EqDecision phase_of.
Proof. solve_decision. Defined.

Definition is_pairing (p : phase_of) : bool := match p with PhConnecting | PhWaiting => true | _ => false end.

(** The same pairing, but for what is shown. *)
Definition same_pairing (p q : Pairing) : Prop :=
  runs p = runs q ∧ flows p = flows q ∧ flow p = flow q ∧ controller p = controller q ∧ aborted p = aborted q.

Class PairingScreens (S : Type) := { phase : S → phase_of; shown_words : S → jstr }.

Class PairingLaws (S : Type) `{PairingPage S} `{PairingScreens S} : Prop := {
  law_update : ∀ f s, pairing (update f s) = f (pairing s) ∧ phase (update f s) = phase s ∧ shown_words (update f s) = shown_words s ∧
    room (update f s) = room s ∧ initialising (update f s) = initialising s;
  law_close : ∀ s, pairing (close_more s) = pairing s ∧ phase (close_more s) = phase s ∧ shown_words (close_more s) = shown_words s ∧
    room (close_more s) = room s ∧ initialising (close_more s) = initialising s;
  law_drop : ∀ s, pairing (drop_session s) = pairing s ∧ phase (drop_session s) = phase s ∧ shown_words (drop_session s) = shown_words s ∧
    room (drop_session s) = room s ∧ initialising (drop_session s) = initialising s;
  law_initialising : ∀ b s, pairing (set_initialising b s) = pairing s ∧ phase (set_initialising b s) = phase s ∧
    shown_words (set_initialising b s) = shown_words s ∧ room (set_initialising b s) = room s ∧ initialising (set_initialising b s) = b;
  law_room : ∀ e s, same_pairing (pairing (render (enter_room e s))) (pairing s) ∧ phase (render (enter_room e s)) = phase s ∧
    shown_words (render (enter_room e s)) = shown_words s ∧ room (render (enter_room e s)) = Some e ∧
    initialising (render (enter_room e s)) = initialising s ∧ (is_Some (form (pairing (render (enter_room e s)))) → phase s = PhWords);
  law_dispatch : ∀ e s, same_pairing (pairing (dispatch_pairing e s)) (pairing s) ∧ room (dispatch_pairing e s) = room s ∧
    initialising (dispatch_pairing e s) = initialising s ∧
    (is_Some (form (pairing (dispatch_pairing e s))) → (is_Some (form (pairing s)) → phase s = PhWords) → phase (dispatch_pairing e s) = PhWords);
  law_check : ∀ e s, phase (dispatch_pairing e s) = PhCheck →
    (phase s = PhCheck ∧ shown_words (dispatch_pairing e s) = shown_words s ∧ (∀ w, e ≠ PPaired w)) ∨
    (∃ w, e = PPaired w ∧ shown_words (dispatch_pairing e s) = w ∧ is_pairing (phase s) = true) ∨
    (∃ w, e = PPaired w ∧ phase s = PhCheck ∧ shown_words (dispatch_pairing e s) = shown_words s);
  law_keeps : ∀ e s, is_pairing (phase s) = true ∨ phase s = PhExpired →
    match e with POnline _ | PSlow | PExpired => True | _ => False end →
    is_pairing (phase (dispatch_pairing e s)) = true ∨ phase (dispatch_pairing e s) = PhExpired;
  law_continue : ∀ s, phase s = PhWords ∨ phase s = PhNetwork → phase (dispatch_pairing PContinue s) = PhConnecting;
  law_try : ∀ s, shows_button TryAgainButton s = true → phase s = PhNetwork;
  law_no : ∀ s, shows_button NoButton s = true → phase s = PhCheck;
}.

Section Facts.
Context `{Unicode} {S : Type} `{PairingLaws S} (WORDS : list jstr).

(** A call of [connect] that can still do something. *)
Definition live (p : Pairing) (r : connect_run) : Prop := run_stage r ≠ ConnectOver ∧ is_aborted p (run_signal r) = false.

Definition none_live (p : Pairing) : Prop := ∀ n r, runs p !! n = Some r → ¬ live p r.

Record pairing_ok (s : S) : Prop := {
  p_room : room s = None → runs (pairing s) = [];
  p_init : initialising s = true → room s = None;
  p_live : ∀ n r, runs (pairing s) !! n = Some r → live (pairing s) r →
    controller (pairing s) = Some (run_signal r) ∧ (is_pairing (phase s) = true ∨ phase s = PhExpired) ∧
    (∀ f, run_stage r = PairingFlow f → flow (pairing s) = Some f);
  p_signal : ∀ n r, runs (pairing s) !! n = Some r → (run_signal r < length (aborted (pairing s)))%nat;
  p_once : ∀ n m r t, runs (pairing s) !! n = Some r → runs (pairing s) !! m = Some t → run_signal r = run_signal t → n = m;
  p_flow : ∀ f, flow (pairing s) = Some f → is_Some (flows (pairing s) !! f);
  p_form : is_Some (form (pairing s)) → phase s = PhWords;
  p_words : phase s = PhCheck → ∀ f fl, flow (pairing s) = Some f → flows (pairing s) !! f = Some fl → flow_words fl = Some (shown_words s);
}.

(** The kit keeps to its signals: what was aborted does not resolve. *)
Definition obeys_signals (s : S) (i : page_input) : bool :=
  match i with
  | RecipientSettles n (inr _) | PairSettles n (inr _) =>
      match runs (pairing s) !! n with Some r => negb (is_aborted (pairing s) (run_signal r)) | None => true end
  | _ => true
  end.

(** ** Steps that keep it *)

(** Nothing the invariant looks at has changed, but the words form may be gone. *)
Lemma same_ok s t : same_pairing (pairing t) (pairing s) → phase t = phase s → shown_words t = shown_words s → room t = room s →
  (initialising t = true → initialising s = true) → (is_Some (form (pairing t)) → phase s = PhWords) → pairing_ok s → pairing_ok t.
Proof.
  intros (E1 & E2 & E3 & E4 & E5) Ep Ew Er Ei Ef [H1' H0' H2' H3' H4' H5' H6' H7'].
  split; unfold live, is_aborted in *; rewrite ?E1, ?E2, ?E3, ?E4, ?E5, ?Ep, ?Ew, ?Er; auto.
Qed.

Lemma dispatch_ok e s : none_live (pairing s) ∨ match e with POnline _ | PSlow | PExpired => True | _ => False end →
  (∀ w, e = PPaired w → is_pairing (phase s) = true → ∀ f fl, flow (pairing s) = Some f → flows (pairing s) !! f = Some fl → flow_words fl = Some w) →
  pairing_ok s → pairing_ok (dispatch_pairing e s).
Proof.
  intros Hl Hw [H1' H0' H2' H3' H4' H5' H6' H7']. destruct (law_dispatch e s) as ((E1 & E2 & E3 & E4 & E5) & Er & Ei & Ef).
  split; unfold live, is_aborted in *; rewrite ?E1, ?E2, ?E3, ?E4, ?E5, ?Er, ?Ei; try done.
  - intros n r Hn Hlive. destruct Hl as [Hl|He]; [by destruct (Hl n r Hn)|]. destruct (H2' n r Hn Hlive) as (? & ? & ?).
    split_and!; [done| |done]. by apply law_keeps.
  - by intros Hf; apply Ef.
  - intros Hc f fl Hf Hfl. destruct (law_check e s Hc) as [(Hp & -> & _)|[(w & -> & -> & Hp)|(w & -> & Hp & ->)]]; eauto.
Qed.

(** No live call: the invariant is about less. *)
Lemma none_live_ok f s : none_live (f (pairing s)) → pairing_ok s → runs (f (pairing s)) = runs (pairing s) ∨
    runs (f (pairing s)) = [] ∨ (∃ n, runs (f (pairing s)) = alter (λ r, r <| run_stage := ConnectOver |>) n (runs (pairing s))) →
  (length (aborted (pairing s)) <= length (aborted (f (pairing s))))%nat →
  (∀ k, flow (f (pairing s)) = Some k → is_Some (flows (f (pairing s)) !! k)) → (is_Some (form (f (pairing s))) → phase s = PhWords) →
  (phase s = PhCheck → ∀ k fl, flow (f (pairing s)) = Some k → flows (f (pairing s)) !! k = Some fl → flow_words fl = Some (shown_words s)) →
  pairing_ok (update f s).
Proof.
  intros Hn [H1' H0' H2' H3' H4' H5' H6' H7'] Hruns Hle Hf Hform Hw. destruct (law_update f s) as (E1 & E2 & E3 & E4 & E5).
  assert (∀ n r, runs (f (pairing s)) !! n = Some r → ∃ t, runs (pairing s) !! n = Some t ∧ run_signal t = run_signal r) as Hold.
  { intros n r Hr. destruct Hruns as [E|[E|[k E]]]; rewrite E in Hr; [by exists r|done|].
    apply lookup_alter_inv in Hr as [(-> & t & Ht & ->)|[_ Ht]]; eauto. }
  split; rewrite ?E1, ?E2, ?E3, ?E4, ?E5; try done.
  - intros Hr. specialize (H1' Hr). destruct Hruns as [E|[E|[k E]]]; rewrite E, ?H1'; done.
  - intros n r Hrun Hlive. by destruct (Hn n r Hrun).
  - intros n r Hr. destruct (Hold n r Hr) as (t & Ht & <-). specialize (H3' n t Ht). lia.
  - intros n m r t Hr Ht. destruct (Hold n r Hr) as (r' & Hr' & <-), (Hold m t Ht) as (t' & Ht' & <-). by apply H4'.
Qed.

(** An update of what the invariant does not look at. *)
Lemma update_ok f s : same_pairing (f (pairing s)) (pairing s) → (is_Some (form (f (pairing s))) → is_Some (form (pairing s))) →
  pairing_ok s → pairing_ok (update f s).
Proof.
  intros Hf Hform Hs. destruct (law_update f s) as (E1 & E2 & E3 & E4 & E5).
  apply (same_ok s); rewrite ?E1, ?E2, ?E3, ?E4, ?E5; try done. intros ?. by apply p_form, Hform.
Qed.

Lemma is_aborted_insert p c n : is_aborted (p <| aborted := <[c := true]> (aborted p) |>) n = false → is_aborted p n = false ∧ (n = c → (length (aborted p) <= c)%nat).
Proof.
  unfold is_aborted. cbn. destruct (decide (n = c)) as [->|Hne].
  - destruct (decide (c < length (aborted p))%nat) as [Hlt|Hge]; [by rewrite list_lookup_insert_eq|].
    rewrite list_insert_ge by lia. intros ->. split; [done|lia].
  - rewrite list_lookup_insert_ne by done. done.
Qed.

Definition stopped (p : Pairing) : Pairing := dispose_flow (abort_controller (clear_slow p)).

Lemma stopped_fields p : runs (stopped p) = runs p ∧ flow (stopped p) = None ∧ form (stopped p) = form p ∧
  aborted (stopped p) = match controller p with Some c => <[c := true]> (aborted p) | None => aborted p end ∧ controller (stopped p) = controller p.
Proof.
  unfold stopped, dispose_flow, abort_controller, clear_slow. destruct p as [? ? ? ? [c|] ? ? [f|] ? [t|] ? ? ? ? ? ?]; done.
Qed.

Lemma stopFlow_ok s : pairing_ok s → pairing_ok (stopFlow s) ∧ none_live (pairing (stopFlow s)) ∧ phase (stopFlow s) = phase s ∧
  room (stopFlow s) = room s ∧ initialising (stopFlow s) = initialising s ∧ shown_words (stopFlow s) = shown_words s ∧
  secret (pairing (stopFlow s)) = secret (pairing s).
Proof.
  intros Hs. unfold stopFlow. change (λ p, dispose_flow (abort_controller (clear_slow p))) with stopped. set (s1 := update stopped s).
  destruct (law_update stopped s) as (E1 & E2 & E3 & E4 & E5), (stopped_fields (pairing s)) as (F1 & F2 & F3 & F4 & F5).
  fold s1 in E1, E2, E3, E4, E5.
  assert (none_live (stopped (pairing s))) as Hnone.
  { intros n r Hr [Hst Hab]. rewrite F1 in Hr. unfold is_aborted in Hab. rewrite F4 in Hab.
    destruct (controller (pairing s)) as [c|] eqn:Ec.
    - destruct (is_aborted_insert (pairing s) c (run_signal r) Hab) as [Hab' Hc].
      destruct (p_live _ Hs n r Hr (conj Hst Hab')) as [Hcur _]. rewrite Ec in Hcur. injection Hcur as Hcur.
      pose proof (p_signal _ Hs n r Hr). specialize (Hc (eq_sym Hcur)). lia.
    - destruct (p_live _ Hs n r Hr (conj Hst Hab)) as [Hcur _]. congruence. }
  assert (pairing_ok s1) as Hok1.
  { apply none_live_ok; [done|done|by left| |by rewrite F2|rewrite F3; apply (p_form _ Hs)|by rewrite F2].
    rewrite F4. destruct (controller _); by rewrite ?length_insert. }
  destruct (law_close s1) as (G1 & G2 & G3 & G4 & G5). rewrite G1, G2, G3, G4, G5, E2, E3, E4, E5, E1. split_and!; try done.
  - apply (same_ok s1); rewrite ?G1, ?G2, ?G3, ?G4, ?G5; try done. apply (p_form _ Hok1).
  - unfold stopped, dispose_flow, abort_controller, clear_slow. repeat case_match; done.
Qed.

Lemma connect_ok s : phase s = PhWords ∨ phase s = PhNetwork → pairing_ok s → pairing_ok (connect s).
Proof.
  intros Hph Hs. unfold connect. destruct (room s) as [expires|] eqn:Er; [|done]. destruct (secret (pairing s)); [|done]. cbv zeta.
  destruct (stopFlow_ok s Hs) as (Hok1 & Hnone & Ep & Er1 & Ei1 & Ew1 & _). set (s1 := stopFlow s) in *. clearbody s1.
  set (g := λ p, new_signal (p <| claimed := false |>)). destruct (law_update g s1) as (F1 & F2 & F3 & F4 & F5).
  assert (none_live (g (pairing s1))) as Hnone2.
  { intros n r Hr [Hst Hab]. apply (Hnone n r Hr). split; [done|]. unfold is_aborted in *. cbn in Hab.
    rewrite lookup_app_l in Hab by (by eapply p_signal). done. }
  assert (pairing_ok (update g s1)) as Hok2.
  { apply none_live_ok; [done|done|by left|cbn; rewrite length_app; lia|..]; [apply (p_flow _ Hok1)|apply (p_form _ Hok1)|apply (p_words _ Hok1)]. }
  set (s2 := update g s1) in *. rewrite <- F1 in Hnone2.
  assert (controller (pairing s2) = Some (length (aborted (pairing s1))) ∧ length (aborted (pairing s2)) = Datatypes.S (length (aborted (pairing s1)))) as [Ec El].
  { rewrite F1. cbn. rewrite length_app. cbn. split; [done|lia]. }
  assert (∀ n r, runs (pairing s2) !! n = Some r → (run_signal r < length (aborted (pairing s1)))%nat) as Hsig.
  { intros n r Hr. rewrite F1 in Hr. by eapply (p_signal _ Hok1). }
  assert (pairing_ok (dispatch_pairing PContinue s2)) as Hok3 by (by apply dispatch_ok; [left| |]).
  destruct (law_dispatch PContinue s2) as ((E1 & E2 & E3 & E4 & E5) & Er2 & Ei2 & _).
  assert (phase (dispatch_pairing PContinue s2) = PhConnecting) as Ep3 by (apply law_continue; by rewrite F2, Ep).
  set (s3 := dispatch_pairing PContinue s2) in *. rewrite <- E1 in Hsig.
  set (h := λ p : Pairing, match controller p with Some c => p <| runs := runs p ++ [mkRun c Claiming] |> | None => p end).
  destruct (law_update h s3) as (G1 & G2 & G3 & G4 & G5). rewrite <- E4 in Ec.
  assert (h (pairing s3) = pairing s3 <| runs := runs (pairing s3) ++ [mkRun (length (aborted (pairing s1))) Claiming] |>) as Eh by (unfold h; by rewrite Ec).
  rewrite Eh in G1. destruct Hok3 as [K1 K0 K2 K3 K4 K5 K6 K7].
  assert (∀ n r, (runs (pairing s3) ++ [mkRun (length (aborted (pairing s1))) Claiming]) !! n = Some r →
    runs (pairing s3) !! n = Some r ∨ n = length (runs (pairing s3)) ∧ r = mkRun (length (aborted (pairing s1))) Claiming) as Hnew.
  { intros n r Hr. apply lookup_app_Some in Hr as [Hr|[Hle Hr]]; [by left|right].
    destruct (n - length (runs (pairing s3)))%nat as [|k] eqn:En; [|by destruct k]. injection Hr as <-. split; [lia|done]. }
  split; rewrite ?G1, ?G2, ?G3, ?G4, ?G5; cbn; try done.
  - rewrite Er2, F4, Er1, Er. done.
  - intros n r Hr Hlive. destruct (Hnew n r Hr) as [Hold|[-> ->]].
    + exfalso. rewrite E1 in Hold. apply (Hnone2 n r Hold). destruct Hlive as [Hst Hab]. split; [done|]. unfold is_aborted in *. cbn in Hab. by rewrite E5 in Hab.
    + cbn. rewrite Ep3. split_and!; [done|by left|done].
  - intros n r Hr. rewrite E5, El. destruct (Hnew n r Hr) as [Hold|[-> ->]]; [specialize (Hsig n r Hold); lia|cbn; lia].
  - intros n m r t Hr Ht Heq. destruct (Hnew n r Hr) as [Ho|[-> ->]], (Hnew m t Ht) as [Hp|[-> ->]]; cbn in Heq; try done.
    + by eapply K4.
    + specialize (Hsig _ _ Ho). lia.
    + specialize (Hsig _ _ Hp). lia.
Qed.

(** ** A call of [connect] that ends *)

Definition ended (n : nat) (p : Pairing) : Pairing := clear_slow (end_run n p).

Lemma ended_fields n p : runs (ended n p) = alter (λ r, r <| run_stage := ConnectOver |>) n (runs p) ∧ flows (ended n p) = flows p ∧
  flow (ended n p) = flow p ∧ controller (ended n p) = controller p ∧ aborted (ended n p) = aborted p ∧ form (ended n p) = form p.
Proof. unfold ended, clear_slow. cbn. by destruct (slowTimer p). Qed.

Lemma end_run_ok n s : pairing_ok s → pairing_ok (update (ended n) s).
Proof.
  intros [K1 K0 K2 K3 K4 K5 K6 K7]. destruct (law_update (ended n) s) as (E1 & E2 & E3 & E4 & E5).
  destruct (ended_fields n (pairing s)) as (F1 & F2 & F3 & F4 & F5 & F6).
  assert (∀ m r, runs (ended n (pairing s)) !! m = Some r → ∃ t, runs (pairing s) !! m = Some t ∧ run_signal t = run_signal r ∧
    (run_stage r = ConnectOver ∨ r = t)) as Hold.
  { intros m r Hr. rewrite F1 in Hr. apply lookup_alter_inv in Hr as [(-> & t & Ht & ->)|[_ Ht]]; [exists t|exists r]; auto. }
  split; rewrite ?E1, ?E2, ?E3, ?E4, ?E5, ?F2, ?F3, ?F4, ?F5, ?F6; try done.
  - intros Hr. rewrite F1, K1 by done. done.
  - intros m r Hr [Hst Hab]. destruct (Hold m r Hr) as (t & Ht & Es & [?| ->]); [done|]. apply (K2 m t Ht). split; [done|].
    unfold is_aborted in *. by rewrite F5 in Hab.
  - intros m r Hr. destruct (Hold m r Hr) as (t & Ht & <- & _). by eapply K3.
  - intros m k r r' Hr Hr'. destruct (Hold m r Hr) as (t & Ht & <- & _), (Hold k r' Hr') as (t' & Ht' & <- & _). by apply K4.
Qed.

(** The only call that could still do something has ended. *)
Lemma ended_none n r s : pairing_ok s → runs (pairing s) !! n = Some r → live (pairing s) r → none_live (ended n (pairing s)).
Proof.
  intros Hs Hn Hlive m t Ht [Hst Hab]. destruct (ended_fields n (pairing s)) as (F1 & F2 & F3 & F4 & F5 & F6).
  rewrite F1 in Ht. apply lookup_alter_inv in Ht as [(-> & ? & _ & ->)|[Hne Ht]]; [done|].
  unfold is_aborted in Hab. rewrite F5 in Hab. destruct (p_live _ Hs m t Ht (conj Hst Hab)) as [C1 _], (p_live _ Hs n r Hn Hlive) as [C2 _].
  apply Hne. eapply (p_once _ Hs); [done..|]. congruence.
Qed.

Lemma connect_fails_ok n r error s : pairing_ok s → runs (pairing s) !! n = Some r → run_stage r ≠ ConnectOver →
  pairing_ok (connect_fails n (run_signal r) error s).
Proof.
  intros Hs Hn Hst. unfold connect_fails. change (λ p, clear_slow (end_run n p)) with (ended n). cbv zeta.
  pose proof (end_run_ok n s Hs) as Hok. destruct (law_update (ended n) s) as (E1 & E2 & _).
  destruct (ended_fields n (pairing s)) as (F1 & F2 & F3 & F4 & F5 & F6).
  unfold is_aborted at 1. rewrite E1, F5. fold (is_aborted (pairing s) (run_signal r)). destruct (is_aborted _ _) eqn:Ea; [done|].
  assert (none_live (pairing (update (ended n) s))) as Hnone by (rewrite E1; by eapply ended_none).
  destruct (classifyPairingFailure _ _); try done; try (by apply dispatch_ok; [left| |]).
  destruct (law_update (λ p, p <| secret := None |>) (update (ended n) s)) as (G1 & _).
  apply dispatch_ok; [|done|by apply update_ok]. left. rewrite G1. exact Hnone.
Qed.

Lemma recipient_settles_ok n result s : pairing_ok s → obeys_signals s (RecipientSettles n result) = true → pairing_ok (recipient_settles n result s).
Proof.
  intros Hs Ho. unfold recipient_settles. destruct (runs (pairing s) !! n) as [[signal st]|] eqn:Er; [|done].
  destruct st; try done. destruct result as [error|made].
  { by apply (connect_fails_ok n (mkRun signal Claiming)). }
  cbn in Ho. rewrite Er in Ho. cbn in Ho. apply negb_true_iff in Ho. cbv zeta.
  set (g := λ p, set_slow (announce announce_connected (p <| claimed := true |>))). destruct (law_update g s) as (E1 & E2 & E3 & E4 & E5).
  assert (pairing_ok (update g s)) as Hg by by apply update_ok. set (s1 := update g s) in *.
  assert (runs (pairing s1) !! n = Some (mkRun signal Claiming)) as Er1 by by rewrite E1. destruct made as [error|].
  { by apply (connect_fails_ok n (mkRun signal Claiming)). }
  set (h := λ p, _). destruct (law_update h s1) as (G1 & G2 & G3 & G4 & G5). cbn in G1.
  assert (is_aborted (pairing s1) signal = false) as Ho1 by by rewrite E1.
  destruct (p_live _ Hg n _ Er1) as (C1 & C2 & _); [by split|]. pose proof Hg as [K1 K0 K2 K3 K4 K5 K6 K7].
  clearbody s1. clear g E1 E2 E3 E4 E5.
  assert (∀ m r, runs (pairing (update h s1)) !! m = Some r →
    (m = n ∧ r = mkRun signal (PairingFlow (length (flows (pairing s1))))) ∨ (m ≠ n ∧ runs (pairing s1) !! m = Some r)) as Hold.
  { intros m r Hr. rewrite G1 in Hr. cbn in Hr. apply lookup_alter_inv in Hr as [(-> & t & Ht & ->)|[? ?]]; [left|by right].
    rewrite Er1 in Ht. by injection Ht as <-. }
  split; rewrite ?G2, ?G3, ?G4, ?G5; try done.
  - intros Hr. rewrite K1 in Er1 by done. done.
  - intros m r Hr [Hst Hab]. destruct (Hold m r Hr) as [[-> ->]|[Hne Ho2]]; rewrite G1; cbn.
    + split_and!; [done|done|]. by intros f [= <-].
    + exfalso. apply Hne. rewrite G1 in Hab. destruct (K2 m r Ho2 (conj Hst Hab)) as [C3 _]. eapply K4; [done..|]. cbn in *. congruence.
  - intros m r Hr. rewrite G1. cbn. destruct (Hold m r Hr) as [[-> ->]|[_ Ho2]]; [by apply (K3 n _ Er1)|by eapply K3].
  - intros m k r t Hr Ht Heq. destruct (Hold m r Hr) as [[-> ->]|[_ Ho2]], (Hold k t Ht) as [[-> ->]|[_ Ho3]]; [done| | |by eapply K4].
    + by eapply (K4 n k).
    + by eapply (K4 m n).
  - rewrite G1. cbn. intros f [= <-]. rewrite lookup_app_r, Nat.sub_diag by lia. by eexists.
  - by rewrite G1.
  - intros Hc. rewrite Hc in C2. by destruct C2.
Qed.

(** ** The words arrive *)

Lemma pair_settles_ok n result s : pairing_ok s → obeys_signals s (PairSettles n result) = true → pairing_ok (pair_settles n result s).
Proof.
  intros Hs Ho. unfold pair_settles. destruct (runs (pairing s) !! n) as [[signal st]|] eqn:Er; [|done].
  destruct st as [|f|]; try done. destruct result as [error|said].
  { by apply (connect_fails_ok n (mkRun signal (PairingFlow f))). }
  cbn in Ho. rewrite Er in Ho. cbn in Ho. apply negb_true_iff in Ho. cbv zeta.
  assert (live (pairing s) (mkRun signal (PairingFlow f))) as Hlive by by split.
  destruct (p_live _ Hs n _ Er Hlive) as (_ & Hph & Hflow). specialize (Hflow f eq_refl).
  set (h := λ p, on_flow f (λ x, x <| flow_words := Some said |>) (clear_slow (end_run n p)) <| secret := None |>).
  change (pairing_ok (dispatch_pairing (PPaired said) (update h s))).
  destruct (law_update h s) as (E1 & E2 & E3 & E4 & E5), (ended_fields n (pairing s)) as (F1 & F2 & F3 & F4 & F5 & F6).
  pose proof (ended_none n _ s Hs Er Hlive) as Hnone.
  assert (flows (h (pairing s)) = alter (λ x, x <| flow_words := Some said |>) f (flows (pairing s))) as Hfl.
  { unfold h. cbn. fold (ended n (pairing s)). by rewrite F2. }
  assert (flow (h (pairing s)) = Some f) as Hhf by (unfold h; cbn; fold (ended n (pairing s)); by rewrite F3).
  destruct (p_flow _ Hs f Hflow) as [fl Hf].
  assert (pairing_ok (update h s)) as Hok.
  { apply none_live_ok; [exact Hnone|done|right; right; exists n; exact F1| | | |].
    - unfold h. cbn. fold (ended n (pairing s)). by rewrite F5.
    - intros k Hk. rewrite Hfl. replace k with f by congruence. rewrite list_lookup_alter_eq, Hf. by eexists.
    - unfold h. cbn. fold (ended n (pairing s)). rewrite F6. apply (p_form _ Hs).
    - intros Hc. rewrite Hc in Hph. by destruct Hph. }
  apply dispatch_ok; [left; rewrite E1; exact Hnone| |done].
  intros w [= <-] _ k fl' Hk Hfl'. rewrite E1 in Hk, Hfl'. rewrite Hfl in Hfl'. replace k with f in * by congruence.
  rewrite list_lookup_alter_eq, Hf in Hfl'. by injection Hfl' as <-.
Qed.

(** ** Every step *)

Lemma typed_form f (g : WordsForm → WordsForm) p : form p = Some f → is_Some (form (p <| form := Some (g f) |>)) → is_Some (form p).
Proof. intros ->. by eexists. Qed.

Lemma form_update_ok f s : (∀ p, same_pairing (f p) p ∧ (form p = None → form (f p) = None)) → pairing_ok s → pairing_ok (update f s).
Proof.
  intros Hf. destruct (Hf (pairing s)) as [Hsame Hform]. apply update_ok; [done|]. intros [x Hx].
  destruct (form (pairing s)); [by eexists|]. rewrite Hform in Hx by done. done.
Qed.

Lemma start_link_ok e s : (match e with PUnsupported | PStart _ => True | _ => False end) → runs (pairing s) = [] → pairing_ok s →
  pairing_ok (dispatch_pairing e s).
Proof.
  intros He Hr. apply dispatch_ok; [left; intros n r Hn; by rewrite Hr in Hn|]. by intros w ->.
Qed.

Lemma init_settles_ok ok parsed hash s : pairing_ok s → pairing_ok (init_settles ok parsed hash s).
Proof.
  intros Hs. unfold init_settles. destruct (initialising s) eqn:Ei; [|done]. cbv zeta.
  destruct (law_initialising false s) as (E1 & E2 & E3 & E4 & E5). pose proof (p_room _ Hs (p_init _ Hs Ei)) as Hr.
  assert (pairing_ok (set_initialising false s)) as Hok.
  { apply (same_ok s); rewrite ?E1, ?E2, ?E3, ?E4, ?E5; try done. apply (p_form _ Hs). }
  set (s1 := set_initialising false s) in *. rewrite <- E1 in Hr. clearbody s1.
  destruct ok; cbn [negb]; [|by apply start_link_ok]. destruct parsed as [[[] expires]|]; try by apply start_link_ok.
  destruct (law_room expires s1) as ((G1 & G2 & G3 & G4 & G5) & G6 & G7 & G8 & G9 & G10). destruct Hok as [K1 K0 K2 K3 K4 K5 K6 K7].
  split; unfold live, is_aborted; rewrite ?G1, ?G2, ?G3, ?G4, ?G5, ?G6, ?G7, ?G8, ?G9; try done. intros. congruence.
Qed.

Lemma page_step_ok i s : pairing_ok s → obeys_signals s i = true → pairing_ok (page_step WORDS s i).
Proof.
  intros Hs Ho. destruct i as [ms|ok parsed hash|online|input| | | |n result|n result| |t| | | |]; cbn [page_step].
  - destruct (_ <=? _); [|done]. by apply update_ok.
  - by apply init_settles_ok.
  - apply dispatch_ok; [by right|done|done].
  - apply form_update_ok; [|done]. intros p. unfold type_words, clearFieldError, updateHint. destruct (form p) eqn:E; done.
  - unfold onContinue. destruct (form _) as [f|] eqn:Ef; [|done]. cbv zeta.
    assert (phase s = PhWords) as Hph by (apply (p_form _ Hs); by rewrite Ef).
    assert (∀ g s', phase s' = PhWords → pairing_ok s' → (∀ p, same_pairing (g p) p ∧ (form p = None → form (g p) = None)) →
      pairing_ok (update g s') ∧ phase (update g s') = PhWords) as Hg.
    { intros g s' Hp Hk Hgp. split; [by apply form_update_ok|]. destruct (law_update g s') as (_ & -> & _). done. }
    destruct (Hg clearFieldError s Hph Hs) as [H1' H2']; [intros p; unfold clearFieldError; by destruct (form p) eqn:?|].
    destruct (is_offline _); [done|]. destruct (Words.checkWords _ _) as [l typed| |count|index word found] eqn:Ew.
    + destruct (Hg (λ p, p <| secret := Some typed |>) _ H2' H1') as [H3' H4']; [done|]. apply connect_ok; [by left|done].
    + apply Hg; [done..|]. intros p. unfold refuse_words, showFieldError. by destruct (form p) eqn:?.
    + apply Hg; [done..|]. intros p. unfold refuse_words, showFieldError. by destruct (form p) eqn:?.
    + apply Hg; [done..|]. intros p. unfold refuse_words, showFieldError. destruct found, (form p) eqn:Ep; cbn; rewrite ?Ep; done.
  - apply form_update_ok; [|done]. intros p. unfold use_suggestion. destruct (form p) as [f|] eqn:E; [|done].
    destruct (suggestion f) as [[? ?]|]; [|by rewrite E]. done.
  - destruct (_ =? 0); [|done]. apply form_update_ok; [|done]. intros p. unfold hint_fires. by destruct (hint_timer p).
  - by apply recipient_settles_ok.
  - by apply pair_settles_ok.
  - apply dispatch_ok; [by right|done|done].
  - unfold slow_fires. case_bool_decide; [|done]. apply dispatch_ok; [by right|done|]. by apply update_ok.
  - unfold countdown_fires. destruct (counting_down s); [|done]. destruct (room s) as [e|] eqn:Er; [|done]. destruct (_ <=? _).
    + destruct (stopFlow_ok s Hs) as (H1' & Hnone & _). set (s1 := stopFlow s) in *. clearbody s1.
      destruct (law_update (λ p, p <| secret := None |>) s1) as (E1 & E2 & E3 & E4 & E5).
      assert (pairing_ok (update (λ p, p <| secret := None |>) s1)) as H2' by by apply update_ok.
      set (s2 := update _ s1) in *. destruct (law_drop s2) as (G1 & G2 & G3 & G4 & G5).
      apply dispatch_ok; [by right|done|]. apply (same_ok s2); rewrite ?G1, ?G2, ?G3, ?G4, ?G5; try done. apply (p_form _ H2').
    + unfold updateCountdown. rewrite Er. apply form_update_ok; [|done]. intros p. by destruct (time_left p).
  - unfold click. destruct (shows_button _ _); [|done]. unfold onCancelConnect. cbv zeta.
    destruct (stopFlow_ok s Hs) as (H1' & Hnone & _). set (s1 := stopFlow s) in *. clearbody s1.
    destruct (_ && _); [by apply dispatch_ok; [left| |]|].
    destruct (law_update (λ p, p <| secret := None |>) s1) as (E1 & E2 & E3 & E4 & E5).
    assert (pairing_ok (update (λ p, p <| secret := None |>) s1)) as H2' by by apply update_ok.
    set (s2 := update _ s1) in *. destruct (law_drop s2) as (G1 & G2 & G3 & G4 & G5).
    apply dispatch_ok; [left|done|]; [rewrite G1, E1; exact Hnone|].
    apply (same_ok s2); rewrite ?G1, ?G2, ?G3, ?G4, ?G5; try done. apply (p_form _ H2').
  - unfold click. destruct (shows_button _ _) eqn:Eb; [|done]. unfold try_again. destruct (is_offline s); [done|].
    apply connect_ok; [right; by apply law_try|done].
  - unfold click. destruct (shows_button _ _) eqn:Eb; [|done]. unfold onNo. apply law_no in Eb.
    set (h := λ p, verify_flow false p <| flow := None |> <| secret := None |>).
    destruct (law_update h s) as (E1 & E2 & E3 & E4 & E5).
    assert (none_live (h (pairing s))) as Hnone.
    { intros n r Hr [Hst Hab]. assert (runs (h (pairing s)) = runs (pairing s) ∧ aborted (h (pairing s)) = aborted (pairing s)) as [F1 F2].
      { unfold h, verify_flow. cbn. by destruct (flow (pairing s)). }
      rewrite F1 in Hr. unfold is_aborted in Hab. rewrite F2 in Hab. destruct (p_live _ Hs n r Hr (conj Hst Hab)) as (_ & Hp & _).
      rewrite Eb in Hp. by destruct Hp. }
    apply dispatch_ok; [left; by rewrite E1|done|]. apply none_live_ok; [done|done| | |done| |done];
      unfold h, verify_flow; cbn; destruct (flow (pairing s)); cbn; try (by left); try done; apply (p_form _ Hs).
Qed.
End Facts.
