(* ===== verification/SendPage.v ===== *)
(** * The sender page ([send/main.ts])

    The page that locks a file on a phone and sends it: its state, what each
    screen holds, and every handler. The session is the [SenderSession] of
    [direct/session.ts] by what its promises and hooks come to; the part before
    it is the shared pairing of PairingPage.v. *)

From Stdlib Require Import SpecFloat.
From S2P Require Import Prelude JsString Utf8 Failure PageText SendState PairingPage.
From S2P Require Messages DirectLink WakeLock Source Envelope GetParts.

(** ** State *)

(** What the page has asked of a session, and where its promises stand. *)
Inductive session_stage : Type := ReadingInvite | Choosing | OfferingFile | SendingFile | SessionOver.

Record Session := mkSession {
  s_flow : nat; s_stage : session_stage; s_invite : option (Z * bool * bool); s_file : option (Source.File bytes);
  s_hide : option bool; s_sent : bool; s_stops : list bool; s_closes : nat }.

#[export] Instance Session_eta : Eta Session := λ s,
  mkSession (s_flow s) (s_stage s) (s_invite s) (s_file s) (s_hide s) (s_sent s) (s_stops s) (s_closes s).

Record SendPage := mkPage {
  view : ViewState; pairing_part : Pairing; expires : option Z; starting : bool; countdownTimer : bool; beforeUnload : bool;
  leaving : bool; session : option nat; sessions : list Session; screenLock : WakeLock.ScreenLock; announcedStep : Z }.

#[export] Instance SendPage_eta : Eta SendPage := λ s,
  mkPage (view s) (pairing_part s) (expires s) (starting s) (countdownTimer s) (beforeUnload s) (leaving s) (session s) (sessions s)
    (screenLock s) (announcedStep s).

Definition first_page (has_wake_lock : bool) : SendPage :=
  mkPage INITIAL_STATE first_pairing None false false false false None [] (WakeLock.createScreenLock has_wake_lock) 0.

(** ** What a screen holds *)

Inductive action : Type := OnCancelConnect | OnTryAgain | OnYes | OnNo | OnStop.
#[global] Instance action_eq_dec : EqDecision action.
Proof. solve_decision. Defined.

Inductive node : Type :=
  | WordsFormNode | Body | TheyNeed | TimeLeft | WordsList (words : list jstr) | Button (label : jstr) (action : action)
  | HideOption | FilePicker (label : jstr) | ProgressBar | ProgressText | ReconnectNote.

(** The children of the view, in order. *)
Definition view_nodes (state : ViewState) : list node :=
  let cancel := Button button_cancel OnCancelConnect in
  let stop := Button Send.button_stop OnStop in
  let picking (label : jstr) := [Body; HideOption; FilePicker label; Button button_cancel OnStop; TimeLeft] in
  match screen state with
  | words => [Body; WordsFormNode; TheyNeed; TimeLeft]
  | connecting => [Body; cancel]
  | waiting => [Body; TimeLeft; cancel]
  | network => [Body; Button button_tryAgain OnTryAgain]
  | check_ => [Body; WordsList (split (Z.eqb 32) (checkWords state)); Button button_yes OnYes; Button button_no OnNo]
  | confirming => [Body; cancel]
  | choose => [Body; HideOption; FilePicker Send.button_chooseFile; Button button_cancel OnStop; TimeLeft]
  | too_big | empty | unreadable => picking Send.button_chooseAnother
  | asking | linking => [Body; stop]
  | sending => [ProgressBar; ProgressText; ReconnectNote; Body; stop]
  | finishing => [ReconnectNote; Body; stop]
  | _ => [Body]
  end.

Definition shows_action (a : action) (state : ViewState) : bool :=
  existsb (λ n, match n with Button _ b => bool_decide (a = b) | _ => false end) (view_nodes state).
Definition shows_hide (state : ViewState) : bool := existsb (λ n, match n with HideOption => true | _ => false end) (view_nodes state).
Definition shows_time (state : ViewState) : bool := existsb (λ n, match n with TimeLeft => true | _ => false end) (view_nodes state).

(** The heading, the tab's title, the banner, and whether the footer's link
    stays in the tab. *)
Definition title (state : ViewState) : jstr := (Send.screen_says state).1.
Definition document_title (state : ViewState) : jstr := title state ++ text " · " ++ COPY_titleSuffix.
Definition renderBanner (state : ViewState) : jstr :=
  if offline state && includes [words; network; choose] (screen state) then COPY_offlineBanner else [].
Definition renderFooter (state : ViewState) : bool := includes [unsupported; incomplete; expired; sent; declined] (screen state).
Definition updateReconnectNote (state : ViewState) : jstr := if reconnecting state then Send.COPY_reconnecting else [].
(** The hide box and its hint: switched off or not, checked or not. *)
Definition hideOption (state : ViewState) : bool * bool * jstr :=
  (negb (relayOffered state), relayOffered state && hide state,
   if negb (relayOffered state) then Send.hide_unavailable
   else if theirHidden state then Send.hide_hint ++ [32] ++ Send.hide_theirs else Send.hide_hint).

(** [Math.floor] of a value that is not negative. *)
Definition floor (x : double) : Z :=
  match x with S754_finite _ m e => if 0 <=? e then Z.pos m * 2 ^ e else Z.pos m / 2 ^ (- e) | _ => 0 end.

(** The text of the progress bar: what the other end has acknowledged, against
    the file's own size. *)
Definition updateProgress (state : ViewState) : jstr :=
  let done := if 0 <? total state
              then Z.min (fileSize state) (floor (SFmul 53 1024 (div (of_Z (sent_bytes state)) (of_Z (total state))) (of_Z (fileSize state))))
              else 0 in
  COPY_progressLabel (formatBytes done) (formatBytes (fileSize state)).

(** ** Rendering and dispatching *)

Definition live_screens : list ScreenId := [words; connecting; waiting; network; check_; confirming; choose; too_big; empty; unreadable].
Definition busy_screens : list ScreenId := [asking; linking; sending; finishing].

Section Page.
Context `{Unicode} (WORDS : list jstr).

Definition syncCountdownTimer (s : SendPage) : SendPage :=
  s <| countdownTimer := includes live_screens (screen (view s)) && bool_decide (is_Some (expires s)) |>.
Definition syncUnloadGuard (s : SendPage) : SendPage := s <| beforeUnload := includes busy_screens (screen (view s)) |>.

(** [timeLeftNote()]: an element, empty without a room. *)
Definition timeLeftNote (s : SendPage) : option jstr :=
  if shows_time (view s) then
    Some (match expires s with Some e => COPY_timeLeft (formatClock (e - nowSeconds (pairing_part s))) | None => [] end)
  else None.

(** [render(moveFocus)]: the view is made anew, and with it the form. *)
Definition render_page (s : SendPage) : SendPage :=
  let p := pairing_part s <| form := None |> <| time_left := timeLeftNote s |> in
  let p := if bool_decide (screen (view s) = words) then enterWords p else p in
  syncUnloadGuard (syncCountdownTimer (s <| pairing_part := p |>)).

Definition dispatch (event : ViewEvent) (s : SendPage) : SendPage :=
  let next := reduce (view s) event in
  let changed := bool_decide (screen next ≠ screen (view s)) in
  let s := s <| view := next |> in
  if changed then render_page s else s.

(** ** Sessions and the screen lock *)

Definition on_session (n : nat) (f : Session → Session) (s : SendPage) : SendPage := s <| sessions := alter f n (sessions s) |>.
Definition is_current (n : nat) (s : SendPage) : bool := bool_decide (session s = Some n).

(** [const active = session; session = undefined; active?.stop("cancelled", ...)] *)
Definition stop_session (immediate : bool) (s : SendPage) : SendPage :=
  match session s with
  | Some n => on_session n (λ x, x <| s_stops := s_stops x ++ [immediate] |>) (s <| session := None |>)
  | None => s
  end.

Definition lock_event (e : WakeLock.lock_event) (s : SendPage) : SendPage := s <| screenLock := WakeLock.lock_step (screenLock s) e |>.

(** The session is over: the screen may sleep, and the session is closed. *)
Definition finish (s : SendPage) : SendPage :=
  let s := lock_event WakeLock.Release s in
  match session s with
  | Some n => on_session n (λ x, x <| s_closes := Datatypes.S (s_closes x) |>) (s <| session := None |>)
  | None => s
  end.

(** ** The page as the shared pairing sees it *)

Definition view_event (e : pairing_event) : ViewEvent :=
  match e with
  | PStart GetParts.LinkMissing => EStart LinkMissing
  | PStart GetParts.LinkExpired => EStart LinkExpired
  | PStart GetParts.LinkInvalid => EStart LinkInvalid
  | PUnsupported => EUnsupported
  | POnline on => EOnline on
  | PContinue => EContinue
  | PSlow => ESlow
  | PClaimRefused => EClaimRefused
  | PNetwork => ENetwork
  | PWrongWords => EWrongWords
  | PPaired said => EPaired said
  | PExpired => EExpired
  | PBack => EBack
  | PCancel => ECancel
  | PNo => ENo
  end.

Definition pairing_action (b : pairing_button) : action :=
  match b with CancelButton => OnCancelConnect | TryAgainButton => OnTryAgain | NoButton => OnNo end.

#[export] Instance SendPage_pairing : PairingPage SendPage := {|
  pairing := pairing_part;
  update f s := s <| pairing_part := f (pairing_part s) |>;
  room := expires;
  enter_room e s := s <| expires := Some e |>;
  initialising := starting;
  set_initialising b s := s <| starting := b |>;
  counting_down := countdownTimer;
  is_offline s := offline (view s);
  at_connecting s := bool_decide (screen (view s) = connecting);
  shows_button b s := shows_action (pairing_action b) (view s);
  dispatch_pairing e s := dispatch (view_event e) s;
  render := render_page;
  close_more s := s;
  drop_session := stop_session false;
|}.

(** ** After the words *)

(** [SCREEN_FOR_FAILURE]; [None] is "ignore". *)
Definition SCREEN_FOR_FAILURE (kind : DirectLink.DirectFailure) : option ViewEvent :=
  match kind with
  | DirectLink.Cancelled => None
  | DirectLink.PeerCancelled => Some ETheyStopped
  | DirectLink.Declined => Some EDeclined
  | DirectLink.PeerStorage => Some ENoRoom
  | DirectLink.NoRelay => Some ENoRelay
  | DirectLink.ConnectFailed => Some EConnectFailed
  | DirectLink.Lost | DirectLink.Network => Some ELost
  | DirectLink.Expired => Some EExpired
  | _ => Some EFailed
  end.

Definition showFailure (error : DirectLink.caught) (s : SendPage) : SendPage :=
  let kind := match error with DirectLink.CDirect e => DirectLink.d_kind e | _ => DirectLink.Protocol end in
  let event := if bool_decide (kind = DirectLink.Unsupported) && bool_decide (screen (view s) = confirming) then Some EInvalidInvitation
               else SCREEN_FOR_FAILURE kind in
  match event with Some e => dispatch e (finish s) | None => s end.

(** [onYes()] up to [await next.readInvite()]. *)
Definition onYes (s : SendPage) : SendPage :=
  match flow (pairing_part s), controller (pairing_part s) with
  | Some active, Some _ =>
      let s := dispatch EYes (s <| pairing_part := verify_flow true (pairing_part s) |>) in
      let s := s <| pairing_part := clear_slow (pairing_part s <| flow := None |>) |> in
      s <| session := Some (length (sessions s)) |>
        <| sessions := sessions s ++ [mkSession active ReadingInvite None None None false [] 0] |>
  | _, _ => s
  end.

(** [readInvite()] has settled. *)
Definition invite_settles (n : nat) (result : DirectLink.caught + (Z * bool * list Messages.IceServer)) (s : SendPage) : SendPage :=
  match sessions s !! n with
  | Some x =>
      match s_stage x, result with
      | ReadingInvite, inr (max, theirs, ice) =>
          let offered := Messages.hasRelayUrl ice in
          let s := on_session n (λ x, x <| s_stage := Choosing |> <| s_invite := Some (max, theirs, offered) |>) s in
          if is_current n s then dispatch (EInvitation max theirs offered) s else s
      | ReadingInvite, inl error =>
          let s := on_session n (λ x, x <| s_stage := SessionOver |>) s in
          if is_current n s then showFailure error s else s
      | _, _ => s
      end
  | None => s
  end.

(** ** Choosing and sending *)

Definition PICKING_SCREENS : list ScreenId := [choose; too_big; empty; unreadable].

Definition announce_page (message : jstr) (s : SendPage) : SendPage := s <| pairing_part := announce message (pairing_part s) |>.

(** [onFileChosen(chosen)] up to [await active.offer(...)]. *)
Definition onFileChosen (chosen : Source.File bytes) (s : SendPage) : SendPage :=
  match session s with
  | Some n =>
      if negb (includes PICKING_SCREENS (screen (view s))) then s
      else if zlen (Source.file_bytes chosen) =? 0 then dispatch EEmpty s
      else if maxBytes (view s) <? zlen (Source.file_bytes chosen) then dispatch ETooBig s
      else
        let source := Source.prepareSource chosen in
        let s := lock_event WakeLock.Hold s in
        let s := dispatch (EAsking (Source.file_name source) (zlen (Source.file_bytes source))) s in
        let s := announce_page (Send.announce_asking (Source.file_name source)) s <| announcedStep := 0 |> in
        on_session n (λ x, x <| s_stage := OfferingFile |> <| s_file := Some source |>) s
  | None => s
  end.

(** [active.offer(...)] has settled: [true] is "accepted". *)
Definition offer_settles (n : nat) (result : DirectLink.caught + bool) (s : SendPage) : SendPage :=
  match sessions s !! n with
  | Some x =>
      match s_stage x with
      | OfferingFile =>
          let over := on_session n (λ x, x <| s_stage := SessionOver |>) s in
          if negb (is_current n s) then over
          else match result with
               | inl error => showFailure error over
               | inr false => dispatch EDeclined (finish over)
               | inr true => on_session n (λ x, x <| s_stage := SendingFile |> <| s_hide := Some (hide (view s)) |>) s
               end
      | _ => s
      end
  | None => s
  end.

(** The hooks of [active.send(...)]. *)
Inductive send_hook : Type :=
  | OnConnecting | OnConnected | OnEndSent | OnProgress (acknowledged total : Z) | OnReconnecting (on : bool).

Definition totalFor (source : Source.File bytes) : res Z :=
  Envelope.envelopeBytes (Source.file_name source) (Source.file_type source) (zlen (Source.file_bytes source)).

(** [Math.floor((acknowledged / total) * 100 / 25)] *)
Definition progress_step (acknowledged total : Z) : Z :=
  floor (div (SFmul 53 1024 (div (of_Z acknowledged) (of_Z total)) (of_Z 100)) (of_Z 25)).

Definition run_hook (source : Source.File bytes) (hook : send_hook) (s : SendPage) : SendPage :=
  match hook with
  | OnConnecting => dispatch ELinking s
  | OnConnected =>
      match totalFor source with
      | Ok total => announce_page (Send.announce_sending (Source.file_name source)) (dispatch (ESending total) s)
      | Throw _ => s
      end
  | OnEndSent => announce_page Send.announce_finishing (dispatch EEndSent s)
  | OnProgress acknowledged total =>
      let s := dispatch (EProgress acknowledged) s in
      let step := progress_step acknowledged total in
      if (announcedStep s <? step) && (step <? 4) then announce_page (Send.announce_progress (step * 25)) (s <| announcedStep := step |>) else s
  | OnReconnecting on => dispatch (EReconnecting on) s
  end.

Definition hook_runs (n : nat) (hook : send_hook) (s : SendPage) : SendPage :=
  match sessions s !! n with
  | Some x =>
      match s_stage x, s_file x with
      | SendingFile, Some source => run_hook source hook s
      | _, _ => s
      end
  | None => s
  end.

(** [active.send(...)] has settled. *)
Definition send_settles (n : nat) (error : option DirectLink.caught) (s : SendPage) : SendPage :=
  match sessions s !! n with
  | Some x =>
      match s_stage x with
      | SendingFile =>
          let s := on_session n (λ x, x <| s_stage := SessionOver |> <| s_sent := bool_decide (error = None) |>) s in
          if negb (is_current n s) then s
          else match error with
               | None => announce_page Send.announce_sent (dispatch ESent (finish s))
               | Some e => showFailure e s
               end
      | _ => s
      end
  | None => s
  end.

Definition onStop (s : SendPage) : SendPage := dispatch ECancel (finish (stop_session false s)).

(** The page is hidden, and shown again. *)
Definition pagehide (s : SendPage) : SendPage :=
  lock_event WakeLock.Release (stop_session true (stopFlow (s <| leaving := true |>))).
Definition pageshow (s : SendPage) : SendPage := s <| leaving := false |>.

(** ** What can happen *)

Inductive send_input : Type :=
  | Shared (i : page_input) | ClickYes | ClickStop | HideBox (on : bool) | FileChosen (chosen : Source.File bytes)
  | InviteSettles (n : nat) (result : DirectLink.caught + (Z * bool * list Messages.IceServer))
  | OfferSettles (n : nat) (result : DirectLink.caught + bool) | HookRuns (n : nat) (hook : send_hook)
  | SendSettles (n : nat) (error : option DirectLink.caught) | PageHide | PageShow
  | LockAnswers (e : WakeLock.lock_event).

(** What the browser may do to the lock by itself. *)
Definition from_browser (e : WakeLock.lock_event) : bool := match e with WakeLock.Hold | WakeLock.Release => false | _ => true end.

Definition send_step (s : SendPage) (i : send_input) : SendPage :=
  match i with
  | Shared i => page_step WORDS s i
  | ClickYes => if shows_action OnYes (view s) then onYes s else s
  | ClickStop => if shows_action OnStop (view s) then onStop s else s
  | HideBox on => if shows_hide (view s) && relayOffered (view s) then dispatch (EHide on) s else s
  | FileChosen chosen => onFileChosen chosen s
  | InviteSettles n result => invite_settles n result s
  | OfferSettles n result => offer_settles n result s
  | HookRuns n hook => hook_runs n hook s
  | SendSettles n error => send_settles n error s
  | PageHide => pagehide s
  | PageShow => pageshow s
  | LockAnswers e => if from_browser e then lock_event e s else s
  end.

Definition send_run (s : SendPage) (inputs : list send_input) : SendPage := foldl send_step s inputs.
End Page.
