(* ===== verification/SendPageFacts.v ===== *)
(** * What the sender page keeps to

    The page never leaves a session or the screen lock behind, offers only the
    file it prepared and within what the other side takes, and says "Sent" only
    for a file whose session resolved. *)

From S2P Require Import Prelude JsString Utf8 PageText SendState PairingPage SendPage.
From S2P Require Messages DirectLink WakeLock Source Envelope.

(** ** The reducer *)

(** Before the words are compared. *)
Definition early : list ScreenId := [words; connecting; waiting; network; check_].

(** The events that tell the page of its session. *)
Definition is_asking (e : ViewEvent) : bool := match e with EAsking _ _ => true | _ => false end.
Definition is_invitation (e : ViewEvent) : bool := match e with EInvitation _ _ _ => true | _ => false end.

Lemma includes_in l s : includes l s = true ↔ s ∈ l.
Proof. apply bool_decide_eq_true. Qed.

(** From a test of the screen, what the screen can be. *)
Ltac which_screen :=
  repeat match goal with
  | Hx : _ || _ = true |- _ => apply orb_true_iff in Hx as [Hx|Hx]
  | Hx : bool_decide (screen _ = _) = true |- _ => apply bool_decide_eq_true in Hx
  | Hx : includes _ (screen _) = true |- _ => apply includes_in in Hx; unfold PAIRING, PICKING, AFTER_OFFER in Hx
  | Hx : screen _ ∈ _ :: _ |- _ => apply elem_of_cons in Hx as [Hx|Hx]
  | Hx : screen _ ∈ [] |- _ => by apply not_elem_of_nil in Hx
  end.

Lemma reduce_screens s e :
  (includes early (screen (reduce s e)) = true → includes early (screen s) = true) ∧
  (includes BEFORE_FILE (screen (reduce s e)) = true → includes BEFORE_FILE (screen s) = true) ∧
  (includes PICKING (screen (reduce s e)) = true → includes PICKING (screen s) = true ∨ is_invitation e = true ∧ screen s = confirming) ∧
  (screen (reduce s e) = sent → screen s = sent ∨ e = ESent).
Proof.
  destruct e; cbn [reduce]; cbv zeta; repeat case_match; cbn; try (by split_and!; auto);
    (split_and!; intros Hx; [first [discriminate Hx|congruence|idtac]..]); auto;
    match goal with Ht : _ = true |- _ => revert Ht | _ => idtac end; intros Ht; which_screen;
    repeat match goal with Hx : screen s = _ |- _ => rewrite Hx; clear Hx end; auto.
Qed.

Lemma reduce_fields s e :
  (is_invitation e = false → maxBytes (reduce s e) = maxBytes s ∧ relayOffered (reduce s e) = relayOffered s) ∧
  (is_asking e = false → fileName (reduce s e) = fileName s ∧ fileSize (reduce s e) = fileSize s).
Proof. split; intros He; destruct e; try discriminate He; cbn [reduce]; cbv zeta; repeat case_match; done. Qed.

Lemma reduce_invited s max theirs offered : screen s = confirming →
  screen (reduce s (EInvitation max theirs offered)) = choose ∧ maxBytes (reduce s (EInvitation max theirs offered)) = max ∧
  relayOffered (reduce s (EInvitation max theirs offered)) = offered.
Proof. destruct s as [sc off w fn fs mb se to re hi th ro en]. cbn [screen]. intros ->. cbn [reduce screen]. cbv zeta. view_tests. done. Qed.

Lemma reduce_asked s name size : includes PICKING (screen s) = true →
  screen (reduce s (EAsking name size)) = asking ∧ fileName (reduce s (EAsking name size)) = name ∧
  fileSize (reduce s (EAsking name size)) = size.
Proof. intros Hp. cbn [reduce]. by rewrite Hp. Qed.

(** ** What a session of the page satisfies *)

Section Facts.
Context `{Unicode} (WORDS : list jstr).

(** What was offered: a file the page prepared, no larger than the invitation
    takes; hiding only with a relay; and nothing is sent before it is offered. *)
Definition offer_ok (x : Session) (source : Source.File bytes) : Prop :=
  ∃ max theirs offered chosen, s_invite x = Some (max, theirs, offered) ∧ source = Source.prepareSource chosen ∧
    0 < zlen (Source.file_bytes source) <= max ∧ (s_hide x = Some true → offered = true).

Record session_ok (x : Session) : Prop := {
  so_file : ∀ source, s_file x = Some source → offer_ok x source;
  so_hide : s_hide x ≠ None → is_Some (s_file x);
  so_sent : s_sent x = true → is_Some (s_hide x) ∧ s_stage x = SessionOver;
  so_reading : s_stage x = ReadingInvite ∨ s_stage x = Choosing → s_file x = None;
  so_sending : s_stage x = SendingFile → is_Some (s_hide x);
}.

(** What the view says of the session it is about. *)
Definition agrees (v : ViewState) (x : Session) : Prop :=
  match s_stage x with
  | OfferingFile | SendingFile => ∃ source max theirs, s_file x = Some source ∧ s_invite x = Some (max, theirs, relayOffered v) ∧
      fileName v = Source.file_name source ∧ fileSize v = zlen (Source.file_bytes source)
  | _ => True
  end.

(** The file named on the screen went through a session that resolved. *)
Definition sent_truly (s : SendPage) : Prop :=
  ∃ n x source, sessions s !! n = Some x ∧ s_sent x = true ∧ s_file x = Some source ∧
    fileName (view s) = Source.file_name source ∧ fileSize (view s) = zlen (Source.file_bytes source).

Record page_ok (s : SendPage) : Prop := {
  a_view : view_ok (view s);
  a_session : ∀ n, session s = Some n → is_Some (sessions s !! n) ∧ includes early (screen (view s)) = false;
  a_lock : WakeLock.wanted (screenLock s) = true → is_Some (session s) ∧ includes BEFORE_FILE (screen (view s)) = false;
  a_ended : ∀ n x, sessions s !! n = Some x → session s = Some n ∨ s_stops x ≠ [] ∨ s_closes x ≠ 0%nat;
  a_guard : beforeUnload s = includes busy_screens (screen (view s));
  a_count : countdownTimer s = true → includes live_screens (screen (view s)) = true;
  a_sessions : ∀ n x, sessions s !! n = Some x → session_ok x;
  a_pick : ∀ n x, session s = Some n → sessions s !! n = Some x → includes PICKING (screen (view s)) = true →
    s_stage x = Choosing ∧ ∃ theirs, s_invite x = Some (maxBytes (view s), theirs, relayOffered (view s));
  a_agrees : ∀ n x, session s = Some n → sessions s !! n = Some x → agrees (view s) x;
  a_sent : screen (view s) = sent → sent_truly s;
}.

Lemma first_page_ok b : page_ok (first_page b).
Proof. split; cbn; try done; by split. Qed.

(** ** Small steps *)

Lemma set_pairing_ok f s : page_ok s → page_ok (s <| pairing_part := f (pairing_part s) |>).
Proof. intros [????????? ?]. by split. Qed.

Lemma render_ok s :
  (page_ok (s <| beforeUnload := includes busy_screens (screen (view s)) |> <| countdownTimer := false |>)) → page_ok (render_page s).
Proof.
  intros [H1 H2 H3 H4 H5 H6 H7 H8 H9 H10]. split; try done. unfold render_page, syncUnloadGuard, syncCountdownTimer. cbn.
  by intros [-> _]%andb_true_iff.
Qed.

(** A new view, when what hangs on it is kept. *)
Lemma view_changes s e :
  (includes PICKING (screen (reduce (view s) e)) = true → includes PICKING (screen (view s)) = true) →
  is_invitation e = false → is_asking e = false → (screen (reduce (view s) e) = sent → screen (view s) = sent ∨ sent_truly s) →
  page_ok s → page_ok (dispatch e s).
Proof.
  intros Hp Hi Ha Hsent Hs. destruct (reduce_screens (view s) e) as (R1 & R2 & R3 & _), (reduce_fields (view s) e) as [F1 F2].
  destruct (F1 Hi) as [E1 E2], (F2 Ha) as [E3 E4].
  assert (∀ b c, (b = includes busy_screens (screen (reduce (view s) e))) →
    (c = true → includes live_screens (screen (reduce (view s) e)) = true) →
    page_ok (s <| view := reduce (view s) e |> <| beforeUnload := b |> <| countdownTimer := c |>)) as Hnew.
  { intros b c Hb Hc. destruct Hs as [H1 H2 H3 H4 H5 H6 H7 H8 H9 H10]. split; cbn.
    - by apply reduce_ok.
    - intros n Hn. destruct (H2 n Hn) as [? He]. split; [done|]. destruct (includes early (screen (reduce _ _))) eqn:E; [|done].
      rewrite R1 in He; done.
    - intros Hl. destruct (H3 Hl) as [? He]. split; [done|]. destruct (includes BEFORE_FILE (screen (reduce _ _))) eqn:E; [|done].
      rewrite R2 in He; done.
    - done.
    - done.
    - done.
    - done.
    - intros n x Hn Hx Hq. rewrite E1, E2. eauto.
    - intros n x Hn Hx. specialize (H9 n x Hn Hx). unfold agrees in *. by rewrite E2, E3, E4.
    - intros Hq. destruct (Hsent Hq) as [Ho|Ho]; [destruct (H10 Ho) as (n & x & source & ?)|destruct Ho as (n & x & source & ?)];
        exists n, x, source; cbn; by rewrite E3, E4. }
  unfold dispatch. cbv zeta. case_bool_decide as Hc.
  - apply render_ok. by apply (Hnew _ false).
  - pose proof (a_guard _ Hs) as Hg. pose proof (a_count _ Hs) as Hk.
    change (s <| view := reduce (view s) e |>) with
      (s <| view := reduce (view s) e |> <| beforeUnload := beforeUnload s |> <| countdownTimer := countdownTimer s |>).
    apply Hnew; by rewrite Hc.
Qed.

(** The events that are not about a session. *)
Definition plain_event (e : ViewEvent) : bool :=
  negb (is_invitation e) && negb (is_asking e) && match e with ESent => false | _ => true end.

Lemma dispatch_plain e s : plain_event e = true → page_ok s → page_ok (dispatch e s).
Proof.
  unfold plain_event. intros [[Hi%negb_true_iff Ha%negb_true_iff]%andb_true_iff Hs]%andb_true_iff Hok.
  destruct (reduce_screens (view s) e) as (_ & _ & R3 & R4). apply view_changes; try done.
  - intros Hp. destruct (R3 Hp) as [?|[? _]]; congruence.
  - intros Hq. destruct (R4 Hq) as [?|?]; [by left|subst; done].
Qed.

(** ** Sessions *)

Lemma lookup_on_session n m f s y : sessions (on_session n f s) !! m = Some y →
  (m = n ∧ ∃ x, sessions s !! n = Some x ∧ y = f x) ∨ (m ≠ n ∧ sessions s !! m = Some y).
Proof. apply lookup_alter_inv. Qed.

(** A file that was sent stays sent. *)
Lemma sent_truly_alter n f s : (∀ x, sessions s !! n = Some x → s_sent x = true → s_sent (f x) = true ∧ s_file (f x) = s_file x) →
  sent_truly s → sent_truly (on_session n f s).
Proof.
  intros Hf (m & x & source & Hm & Hs & Hfile & ? & ?). destruct (decide (m = n)) as [->|Hne].
  - destruct (Hf x Hm Hs) as [? E]. exists n, (f x), source. cbn. rewrite list_lookup_alter_eq, Hm. split_and!; first [done|by rewrite E|congruence].
  - exists m, x, source. cbn. rewrite list_lookup_alter_ne by done. done.
Qed.

(** What may become of a session that is not let go. *)
Lemma set_session n f x s : page_ok s → sessions s !! n = Some x → session_ok (f x) → s_stops (f x) = s_stops x → s_closes (f x) = s_closes x →
  (s_sent x = true → s_sent (f x) = true ∧ s_file (f x) = s_file x) →
  (session s = Some n → agrees (view s) (f x) ∧ (includes PICKING (screen (view s)) = true →
     s_stage (f x) = Choosing ∧ ∃ theirs, s_invite (f x) = Some (maxBytes (view s), theirs, relayOffered (view s)))) →
  page_ok (on_session n f s).
Proof.
  intros [H1 H2 H3 H4 H5 H6 H7 H8 H9 H10] Hx Hok Hst Hcl Hsent Hcur. split; try done.
  - intros m Hm. destruct (H2 m Hm) as [[y Hy] ?]. split; [|done]. cbn. by rewrite <- list_lookup_alter_is_Some in Hy || (
      destruct (decide (m = n)) as [->|]; [rewrite list_lookup_alter_eq, Hy|rewrite list_lookup_alter_ne, Hy by done]; eauto).
  - intros m y [[-> (z & Hz & ->)]|[_ Hy]]%lookup_on_session; [|by apply (H4 m)]. replace z with x in * by congruence.
    rewrite Hst, Hcl. by apply (H4 n).
  - intros m y [[-> (z & Hz & ->)]|[_ Hy]]%lookup_on_session; [|by apply (H7 m)]. by replace z with x in * by congruence.
  - intros m y Hm [[-> (z & Hz & ->)]|[_ Hy]]%lookup_on_session; [|by apply (H8 m)]. replace z with x in * by congruence. by apply Hcur.
  - intros m y Hm [[-> (z & Hz & ->)]|[_ Hy]]%lookup_on_session; [|by apply (H9 m)]. replace z with x in * by congruence. by apply Hcur.
  - intros Hs. apply sent_truly_alter; [|by apply H10]. intros y Hy. replace y with x by congruence. done.
Qed.

(** The current session is let go, and the lock is not wanted any more. *)
Lemma drop_current n f l s : page_ok s → session s = Some n → WakeLock.wanted l = false →
  (∀ x, (s_stops (f x) ≠ [] ∨ s_closes (f x) ≠ 0%nat) ∧ s_sent (f x) = s_sent x ∧ s_file (f x) = s_file x ∧ s_stage (f x) = s_stage x ∧
    s_hide (f x) = s_hide x ∧ s_invite (f x) = s_invite x) →
  page_ok (on_session n f (s <| session := None |> <| screenLock := l |>)).
Proof.
  intros [H1 H2 H3 H4 H5 H6 H7 H8 H9 H10] Hn Hl Hf. split; try done.
  - cbn. congruence.
  - intros m y [[-> (z & Hz & ->)]|[Hne Hy]]%lookup_on_session; [right; apply Hf|]. cbn in Hy. destruct (H4 m y Hy) as [?|?]; [congruence|by right].
  - intros m y [[-> (z & Hz & ->)]|[_ Hy]]%lookup_on_session; [|by apply (H7 m)]. cbn in Hz. destruct (H7 n z Hz) as [S1 S2 S3 S4 S5].
    destruct (Hf z) as (_ & E1 & E2 & E3 & E4 & E5). split; unfold offer_ok; rewrite ?E1, ?E2, ?E3, ?E4, ?E5; auto.
  - intros Hs. apply sent_truly_alter; [|by apply H10]. intros x _ Hx. destruct (Hf x) as (_ & E1 & E2 & _). by rewrite E1, E2.
Qed.

Lemma set_lock_ok l s : (WakeLock.wanted l = true → WakeLock.wanted (screenLock s) = true) → page_ok s → page_ok (s <| screenLock := l |>).
Proof. intros Hl [H1 H2 H3 H4 H5 H6 H7 H8 H9 H10]. split; auto. Qed.

Lemma release_unwanted l : WakeLock.wanted (WakeLock.lock_step l WakeLock.Release) = false.
Proof.
  cbn. unfold WakeLock.release. destruct (WakeLock.wanted l) eqn:E; cbn [negb]; [|done]. cbv zeta. by destruct (WakeLock.sentinel l).
Qed.

Lemma browser_keeps_wanted l e : from_browser e = true → WakeLock.wanted (WakeLock.lock_step l e) = WakeLock.wanted l.
Proof.
  destruct e as [| |visible| | | |id]; try done; intros _; cbn.
  - unfold WakeLock.onVisible, WakeLock.acquire. by repeat case_match.
  - unfold WakeLock.request_granted. destruct (WakeLock.stage l); try done. cbn. by destruct (WakeLock.wanted l).
  - unfold WakeLock.request_refused. by destruct (WakeLock.stage l).
  - unfold WakeLock.handed_back. by destruct (WakeLock.stage l).
  - unfold WakeLock.browser_drops. cbv zeta. by case_bool_decide.
Qed.

Lemma stop_session_ok b s : page_ok s → WakeLock.wanted (screenLock s) = false → page_ok (stop_session b s).
Proof.
  intros Hs Hl. unfold stop_session. destruct (session s) as [n|] eqn:E; [|done].
  change (s <| session := None |>) with (s <| session := None |> <| screenLock := screenLock s |>).
  apply drop_current; [done..|]. intros x. cbn. split_and!; try done. left. by destruct (s_stops x).
Qed.

Lemma send_finish_ok s : page_ok s → page_ok (finish s).
Proof.
  intros Hs. unfold finish. cbv zeta. destruct (session _) as [n|] eqn:E.
  - pose proof (release_unwanted (screenLock s)) as Hr. apply (drop_current n _ (WakeLock.lock_step (screenLock s) WakeLock.Release) s); [done..|].
    intros x. cbn. split_and!; try done. by right.
  - apply set_lock_ok; [|done]. by rewrite release_unwanted.
Qed.

Lemma finish_view s : view (finish s) = view s.
Proof. unfold finish. cbv zeta. by destruct (session _). Qed.
Lemma stop_session_view b s : view (stop_session b s) = view s.
Proof. unfold stop_session. by destruct (session _). Qed.

Lemma showFailure_ok error s : page_ok s → page_ok (showFailure error s).
Proof.
  intros Hs. unfold showFailure. cbv zeta. destruct (_ && _); [apply dispatch_plain; [done|by apply send_finish_ok]|].
  destruct (SCREEN_FOR_FAILURE _) as [e|] eqn:E; [|done]. apply dispatch_plain; [|by apply send_finish_ok].
  revert E. unfold SCREEN_FOR_FAILURE. repeat case_match; by intros [= <-].
Qed.

(** ** The handlers *)

#[local] Arguments reduce : simpl never.

Lemma dispatch_keeps e s : sessions (dispatch e s) = sessions s ∧ session (dispatch e s) = session s ∧
  screenLock (dispatch e s) = screenLock s ∧ view (dispatch e s) = reduce (view s) e.
Proof. unfold dispatch. cbv zeta. by destruct (bool_decide _). Qed.

Lemma announce_ok m s : page_ok s → page_ok (announce_page m s).
Proof. apply set_pairing_ok. Qed.

Lemma on_check s : shows_action OnYes (view s) = true → screen (view s) = check_.
Proof. destruct s as [[sc ? w ? ? ? ? ? ? ? ? ? ?] ? ? ? ? ? ? ? ? ? ?]. cbn. by destruct sc. Qed.

Lemma onYes_ok s : page_ok s → shows_action OnYes (view s) = true → page_ok (onYes s).
Proof.
  intros Hs Hy. apply on_check in Hy. unfold onYes. destruct (flow _) as [active|]; [|done]. destruct (controller _) as [c|]; [|done]. cbv zeta.
  set (s1 := dispatch EYes _). assert (page_ok s1) as H1 by (apply dispatch_plain; [done|by apply set_pairing_ok]).
  destruct (dispatch_keeps EYes (s <| pairing_part := verify_flow true (pairing_part s) |>)) as (E1 & E2 & E3 & E4). fold s1 in E1, E2, E3, E4.
  cbn in E1, E2, E3. assert (session s = None) as Hnone.
  { destruct (session s) as [k|] eqn:E; [|done]. destruct (a_session _ Hs k E) as [_ He]. by rewrite Hy in He. }
  assert (screen (view s1) = confirming) as Hc by (rewrite E4; unfold reduce; cbn; by rewrite Hy).
  clearbody s1. set (x := mkSession active ReadingInvite None None None false [] 0).
  destruct H1 as [H1 H2 H3 H4 H5 H6 H7 H8 H9 H10].
  assert (∀ m y, (sessions s1 ++ [x]) !! m = Some y → sessions s1 !! m = Some y ∨ m = length (sessions s1) ∧ y = x) as Hnew.
  { intros m y Hm. apply lookup_app_Some in Hm as [Hm|[Hle Hm]]; [by left|right].
    destruct (m - length (sessions s1))%nat as [|k] eqn:E; [|by destruct k]. cbn in Hm. injection Hm as <-. split; [lia|done]. }
  split; cbn; try done.
  - intros n [= <-]. rewrite Hc. split; [|done]. rewrite lookup_app_r, Nat.sub_diag by lia. by eexists.
  - intros Hl. destruct (H3 Hl) as [Hsome _]. rewrite E2, Hnone in Hsome. by destruct Hsome.
  - intros m y Hm. destruct (Hnew m y Hm) as [Hy1|[-> ->]]; [|by left]. right. destruct (H4 m y Hy1) as [He|?]; [|done].
    rewrite E2, Hnone in He. done.
  - intros m y Hm. destruct (Hnew m y Hm) as [Hy1|[-> ->]]; [by apply (H7 m)|]. by split.
  - intros n y _ _ Hp. by rewrite Hc in Hp.
  - intros n y [= <-] Hm. rewrite lookup_app_r, Nat.sub_diag in Hm by lia. by injection Hm as <-.
  - intros Hx. congruence.
Qed.

Lemma invite_settles_ok n result s : page_ok s → page_ok (invite_settles n result s).
Proof.
  intros Hs. unfold invite_settles. destruct (sessions s !! n) as [x|] eqn:Ex; [|done].
  destruct (s_stage x) eqn:Est; try (by destruct result as [|[[? ?] ?]]). pose proof (a_sessions _ Hs n x Ex) as [S1 S2 S3 S4 S5].
  assert (s_file x = None ∧ s_hide x = None ∧ s_sent x = false) as (F1 & F2 & F3).
  { assert (s_file x = None) as F by (apply S4; auto). split; [done|].
    assert (s_hide x = None) as G by (destruct (s_hide x); [destruct S2 as [? ?]; [done|congruence]|done]). split; [done|].
    destruct (s_sent x); [|done]. destruct S3 as [[? ?] _]; [done|congruence]. }
  assert (session s = Some n → includes PICKING (screen (view s)) = true → False) as Hnp.
  { intros Hn Hp. destruct (a_pick _ Hs n x Hn Ex Hp). congruence. }
  destruct result as [error|[[max theirs] ice]]; cbv zeta.
  - assert (page_ok (on_session n (λ x, x <| s_stage := SessionOver |>) s)) as H1.
    { apply (set_session n _ x); cbn; try done; [|intros Hn; split; [done|intros Hp; by exfalso; eauto]].
      split; cbn; try done; intros; try congruence; by destruct_or?. }
    unfold is_current. case_bool_decide; [by apply showFailure_ok|done].
  - set (offered := Messages.hasRelayUrl ice). set (f := λ x : Session, x <| s_stage := Choosing |> <| s_invite := Some (max, theirs, offered) |>).
    unfold is_current. cbn. case_bool_decide as Hn.
    2:{ apply (set_session n _ x); cbn; try done. split; cbn; try done; intros; congruence. }
    destruct (decide (screen (view s) = confirming)) as [Hc|Hc].
    + destruct (reduce_invited (view s) max theirs offered Hc) as (R1 & R2 & R3).
      destruct (reduce_fields (view s) (EInvitation max theirs offered)) as [_ R4]. destruct (R4 eq_refl) as [R5 R6].
      unfold dispatch. cbv zeta. change (view (on_session n f s)) with (view s). rewrite R1, Hc.
      rewrite bool_decide_eq_true_2 by done. apply render_ok. destruct Hs as [H1 H2 H3 H4 H5 H6 H7 H8 H9 H10].
      split; cbn; try done.
      * by apply reduce_ok.
      * intros m Hm. rewrite R1. split; [|done]. replace m with n by congruence. rewrite list_lookup_alter_eq, Ex. by eexists.
      * intros Hl. destruct (H3 Hl) as [_ Hb]. by rewrite Hc in Hb.
      * intros m y Hm. change (sessions (on_session n f s) !! m = Some y) in Hm.
        apply lookup_on_session in Hm as [[-> (z & Hz & ->)]|[_ Hy]]; [by left|by apply (H4 m)].
      * intros m y Hm. change (sessions (on_session n f s) !! m = Some y) in Hm.
        apply lookup_on_session in Hm as [[-> (z & Hz & ->)]|[_ Hy]]; [|by apply (H7 m)]. replace z with x in * by congruence.
        split; cbn; try done; intros; congruence.
      * intros m y Hm Hy _. change (sessions (on_session n f s) !! m = Some y) in Hy. cbn in Hm. replace m with n in * by congruence.
        apply lookup_on_session in Hy as [[_ (z & Hz & ->)]|[? _]]; [|done]. cbn. split; [done|]. exists theirs. by rewrite R2, R3.
      * intros m y Hm Hy. change (sessions (on_session n f s) !! m = Some y) in Hy. cbn in Hm. replace m with n in * by congruence.
        apply lookup_on_session in Hy as [[_ (z & Hz & ->)]|[? _]]; done.
      * intros Hx. congruence.
    + assert (reduce (view s) (EInvitation max theirs offered) = view s) as Er by (unfold reduce; by rewrite bool_decide_eq_false_2).
      unfold dispatch. cbv zeta. change (view (on_session n f s)) with (view s). rewrite Er, bool_decide_eq_false_2 by auto.
      assert (page_ok (on_session n f s)) as H1; [|by destruct H1; split].
      apply (set_session n _ x); cbn; try done; [split; cbn; try done; intros; congruence|].
      intros _. split; [done|]. intros Hp. by exfalso; eauto.
Qed.

Lemma onFileChosen_ok chosen s : page_ok s → page_ok (onFileChosen chosen s).
Proof.
  intros Hs. unfold onFileChosen. destruct (session s) as [n|] eqn:En; [|done].
  change PICKING_SCREENS with PICKING. destruct (includes PICKING (screen (view s))) eqn:Hp; cbn [negb]; [|done].
  destruct (_ =? 0) eqn:Ez; [by apply dispatch_plain|]. destruct (maxBytes (view s) <? _) eqn:Em; [by apply dispatch_plain|].
  bool_prop. cbv zeta. set (source := Source.prepareSource chosen). set (name := Source.file_name source).
  set (f := λ x : Session, x <| s_stage := OfferingFile |> <| s_file := Some source |>).
  assert (zlen (Source.file_bytes source) = zlen (Source.file_bytes chosen)) as Elen by done. set (size := zlen (Source.file_bytes source)) in *.
  destruct (a_session _ Hs n En) as [[x Ex] Hearly]. destruct (a_pick _ Hs n x En Ex Hp) as [Est [theirs Einv]].
  destruct (reduce_asked (view s) name size Hp) as (R1 & R2 & R3), (reduce_fields (view s) (EAsking name size)) as [R4 _].
  destruct (R4 eq_refl) as [R5 R6]. pose proof (a_sessions _ Hs n x Ex) as [S1 S2 S3 S4 S5].
  assert (session_ok (f x)) as Hfx.
  { split; cbn; try done; [|by intros Hx; destruct (S3 Hx); congruence|by intros [?|?]].
    intros y [= <-]. exists (maxBytes (view s)), theirs, (relayOffered (view s)), chosen. pose proof (zlen_nonneg (Source.file_bytes chosen)).
    split_and!; try done; [lia..|]. intros Hh. change (s_hide x = Some true) in Hh. destruct S2 as [y Hy]; [congruence|]. rewrite S4 in Hy by auto. done. }
  unfold dispatch. cbv zeta. change (view (lock_event WakeLock.Hold s)) with (view s). rewrite R1, bool_decide_eq_true_2 by (intros E; by rewrite <- E in Hp).
  set (X := on_session n f (lock_event WakeLock.Hold s <| view := reduce (view s) (EAsking name size) |>)).
  change (page_ok (announce_page (Send.announce_asking name) (render_page X) <| announcedStep := 0 |>)).
  assert (page_ok (render_page X)) as Hr; [|apply (announce_ok (Send.announce_asking name)) in Hr; by destruct Hr; split].
  apply render_ok. destruct Hs as [H1 H2 H3 H4 H5 H6 H7 H8 H9 H10].
  assert (∀ m y, sessions X !! m = Some y → (m = n ∧ y = f x) ∨ (m ≠ n ∧ sessions s !! m = Some y)) as HX.
  { intros m y [[-> (z & Hz & ->)]|[? Hy]]%lookup_on_session; [left|by right]. cbn in Hz. by replace z with x by congruence. }
  assert (view X = reduce (view s) (EAsking name size)) as EX by done. assert (session X = Some n) as EnX by done.
  assert (sessions X !! n = Some (f x)) as ExX by (cbn; by rewrite list_lookup_alter_eq, Ex).
  clearbody X. split; cbn; rewrite ?EX, ?R1, ?EnX; try done.
  - by apply reduce_ok.
  - intros m [= <-]. by rewrite ExX.
  - intros m y Hm. destruct (HX m y Hm) as [[-> ->]|[_ Hy]]; [by left|]. rewrite <- En. by apply (H4 m).
  - intros m y Hm. destruct (HX m y Hm) as [[-> ->]|[_ Hy]]; [done|by apply (H7 m)].
  - intros m y [= <-] Hy. replace y with (f x) by congruence. exists source, (maxBytes (view s)), theirs. by rewrite R2, R3, R6.
Qed.

(** Only the stage of the current session, and what came of it, change. *)
Lemma offer_accepted_ok n x s : page_ok s → sessions s !! n = Some x → session s = Some n → s_stage x = OfferingFile →
  page_ok (on_session n (λ x, x <| s_stage := SendingFile |> <| s_hide := Some (hide (view s)) |>) s).
Proof.
  intros Hs Ex En Est. pose proof (a_sessions _ Hs n x Ex) as [S1 S2 S3 S4 S5]. pose proof (a_agrees _ Hs n x En Ex) as Hag. unfold agrees in Hag.
  rewrite Est in Hag. destruct Hag as (source & max & theirs & Ef & Ei & Hv).
  apply (set_session n _ x); cbn; try done.
  - split; cbn; try done; [|by intros Hx; destruct (S3 Hx); congruence|by intros [?|?]].
    intros y Hy. destruct (S1 y Hy) as (a & b & c & d & E1 & E2 & E3 & E4). exists a, b, c, d. cbn. split_and!; try done; [apply E3..|].
    intros [= Hh]. assert (c = relayOffered (view s)) as -> by congruence. by apply (a_view _ Hs).
  - intros _. split; [by exists source, max, theirs|]. intros Hp. destruct (a_pick _ Hs n x En Ex Hp). congruence.
Qed.

Lemma over_ok n x s f : page_ok s → sessions s !! n = Some x → s_stage x = OfferingFile ∨ s_stage x = SendingFile →
  (∃ b, f x = (x <| s_stage := SessionOver |> <| s_sent := b |>) ∧ (b = true → s_stage x = SendingFile)) →
  page_ok (on_session n f s).
Proof.
  intros Hs Ex Est (b & Ef & Hb). pose proof (a_sessions _ Hs n x Ex) as [S1 S2 S3 S4 S5].
  assert (s_sent x = false) as Hns by (destruct (s_sent x); [destruct S3 as [_ ?]; [done|destruct Est; congruence]|done]).
  apply (set_session n _ x); rewrite ?Ef; cbn; try done.
  - split; cbn; try done; [|by intros [?|?]]. intros ->. split; [|done]. by apply S5, Hb.
  - congruence.
  - intros En. split; [done|]. intros Hp. destruct (a_pick _ Hs n x En Ex Hp). destruct Est; congruence.
Qed.

Lemma offer_settles_ok n result s : page_ok s → page_ok (offer_settles n result s).
Proof.
  intros Hs. unfold offer_settles. destruct (sessions s !! n) as [x|] eqn:Ex; [|done]. destruct (s_stage x) eqn:Est; try done. cbv zeta.
  assert (page_ok (on_session n (λ x, x <| s_stage := SessionOver |>) s)) as Ho.
  { apply (over_ok n x); [done|done|by left|]. exists (s_sent x). destruct x; cbn in *. split; [done|]. intros ->.
    by destruct (so_sent _ (a_sessions _ Hs n _ Ex) eq_refl); cbn in *; congruence. }
  unfold is_current. case_bool_decide as En; cbn [negb]; [|done]. destruct result as [error|[]].
  - by apply showFailure_ok.
  - by apply offer_accepted_ok with x.
  - by apply dispatch_plain, send_finish_ok.
Qed.

Lemma run_hook_ok source hook s : page_ok s → page_ok (run_hook source hook s).
Proof.
  intros Hs. destruct hook as [| | |acknowledged n|on]; cbn [run_hook].
  - by apply dispatch_plain.
  - destruct (totalFor source); [|done]. by apply announce_ok, dispatch_plain.
  - by apply announce_ok, dispatch_plain.
  - cbv zeta. assert (page_ok (dispatch (EProgress acknowledged) s)) as Hd by by apply dispatch_plain.
    destruct (_ && _); [|done]. apply announce_ok. by destruct Hd; split.
  - by apply dispatch_plain.
Qed.

Lemma send_settles_ok n error s : page_ok s → page_ok (send_settles n error s).
Proof.
  intros Hs. unfold send_settles. destruct (sessions s !! n) as [x|] eqn:Ex; [|done]. destruct (s_stage x) eqn:Est; try done. cbv zeta.
  set (f := λ x : Session, x <| s_stage := SessionOver |> <| s_sent := bool_decide (error = None) |>).
  assert (page_ok (on_session n f s)) as Ho.
  { apply (over_ok n x); [done|done|by right|]. by exists (bool_decide (error = None)). }
  unfold is_current. case_bool_decide as En; cbn [negb]; [|done]. destruct error as [error|]; [by apply showFailure_ok|].
  apply announce_ok. pose proof (a_agrees _ Hs n x En Ex) as Hag. unfold agrees in Hag. rewrite Est in Hag.
  destruct Hag as (source & max & theirs & Ef & Ei & Ev1 & Ev2).
  apply view_changes; [|done|done| |by apply send_finish_ok].
  - rewrite finish_view. destruct (reduce_screens (view (on_session n f s)) ESent) as (_ & _ & R3 & _). intros Hp.
    by destruct (R3 Hp) as [?|[? _]].
  - intros _. right. unfold finish. cbv zeta. change (session (lock_event WakeLock.Release (on_session n f s))) with (session s).
    change (session (on_session n f s)) with (session s) in En. rewrite En. apply (sent_truly_alter n); [done|]. exists n, (f x), source. cbn. rewrite list_lookup_alter_eq, Ex. done.
Qed.

(** The session is told to stop, and the lock is let go, in either order. *)
Lemma stop_release_ok b s : page_ok s → page_ok (lock_event WakeLock.Release (stop_session b s)) ∧ page_ok (finish (stop_session b s)).
Proof.
  intros Hs. pose proof (release_unwanted (screenLock s)) as Hr. unfold stop_session. destruct (session s) as [n|] eqn:En.
  - set (f := λ x : Session, x <| s_stops := s_stops x ++ [b] |>).
    assert (page_ok (on_session n f (s <| session := None |> <| screenLock := WakeLock.lock_step (screenLock s) WakeLock.Release |>))) as Hd.
    { apply drop_current; [done..|]. intros x. cbn. split_and!; try done. left. by destruct (s_stops x). }
    by split.
  - split; [|by apply send_finish_ok]. apply set_lock_ok; [|done]. by rewrite Hr.
Qed.

Lemma onStop_ok s : page_ok s → page_ok (onStop s).
Proof. intros Hs. apply dispatch_plain; [done|]. by apply stop_release_ok. Qed.

Lemma pagehide_ok s : page_ok s → page_ok (pagehide s).
Proof.
  intros Hs. apply stop_release_ok, set_pairing_ok. by destruct Hs; split.
Qed.

(** A session may be dropped where the lock is not wanted. *)
Definition may_drop (s : SendPage) : Prop := WakeLock.wanted (screenLock s) = false.

Lemma before_file_drop s : page_ok s → includes BEFORE_FILE (screen (view s)) = true → may_drop s.
Proof.
  intros Hs Hb. unfold may_drop. destruct (WakeLock.wanted (screenLock s)) eqn:E; [|done]. destruct (a_lock _ Hs E). congruence.
Qed.

Lemma shared_ok i s : page_ok s → page_ok (page_step WORDS s i).
Proof.
  apply (page_step_keeps WORDS page_ok may_drop); cbn; try done.
  - intros. by apply set_pairing_ok.
  - intros e s'. apply dispatch_plain. by destruct e as [[]| | | | | | | | | | | |].
  - intros b s' Hs. by destruct Hs; split.
  - intros e s' Hs. apply render_ok. cbn. by destruct Hs; split.
  - intros s' Hs Hd. by apply stop_session_ok.
  - intros s' Hs Hb. apply before_file_drop; [done|]. revert Hb. destruct s' as [[sc ? w ? ? ? ? ? ? ? ? ? ?] ? ? ? ? ? ? ? ? ? ?]. cbn. by destruct sc.
  - intros s' Hs Hc. apply before_file_drop; [done|]. by apply a_count.
Qed.

Lemma send_step_ok s i : page_ok s → page_ok (send_step WORDS s i).
Proof.
  intros Hs. destruct i; cbn [send_step].
  - by apply shared_ok.
  - destruct (shows_action _ _) eqn:E; [by apply onYes_ok|done].
  - destruct (shows_action _ _); [by apply onStop_ok|done].
  - destruct (_ && _); [by apply dispatch_plain|done].
  - by apply onFileChosen_ok.
  - by apply invite_settles_ok.
  - by apply offer_settles_ok.
  - unfold hook_runs. destruct (sessions s !! n) as [x|]; [|done]. destruct (s_stage x); try done. destruct (s_file x); [|done]. by apply run_hook_ok.
  - by apply send_settles_ok.
  - by apply pagehide_ok.
  - by destruct Hs; split.
  - destruct (from_browser e) eqn:E; [|done]. apply set_lock_ok; [|done]. by rewrite browser_keeps_wanted.
Qed.

Lemma send_run_ok s inputs : page_ok s → page_ok (send_run WORDS s inputs).
Proof. revert s. induction inputs as [|i inputs IH]; intros s Hs; [done|]. cbn. by apply IH, send_step_ok. Qed.

(** The page as it starts. *)
Definition started (has_wake_lock online supported : bool) : SendPage := start online supported (first_page has_wake_lock).

Lemma started_ok b online supported : page_ok (started b online supported).
Proof.
  unfold started, start. cbv zeta. assert (page_ok (dispatch (EOnline online) (first_page b))) as Hd by (by apply dispatch_plain, first_page_ok).
  destruct supported; [by destruct Hd; split|]. by apply (dispatch_plain EUnsupported).
Qed.

(** C9: whatever the people, the browser, the pairing kit and the sessions do,
    the page says "Sent" only for a file that went through a session whose
    [send] resolved, under the name and size shown; and whatever was offered to
    anyone is a file the page prepared, not empty and no larger than the
    invitation allows, with hiding only where the invitation had a relay. *)
Theorem page_says_sent has_wake_lock online supported inputs :
  let s := send_run WORDS (started has_wake_lock online supported) inputs in
  (screen (view s) = sent → sent_truly s) ∧
  (∀ n x source, sessions s !! n = Some x → s_file x = Some source → offer_ok x source).
Proof.
  intros s. pose proof (send_run_ok _ inputs (started_ok has_wake_lock online supported)) as Hs. fold s in Hs.
  split; [apply (a_sent _ Hs)|]. intros n x source Hx. by apply (a_sessions _ Hs n x Hx).
Qed.

(** ** The lock and the file on its way *)

Definition under_way (x : Session) : Prop := s_stage x = OfferingFile ∨ s_stage x = SendingFile.

(** While the current session offers or sends a file, the screen is to stay on. *)
Record lock_ok (s : SendPage) : Prop := {
  l_inv : WakeLock.lock_inv (screenLock s);
  l_wanted : ∀ n x, session s = Some n → sessions s !! n = Some x → under_way x → WakeLock.wanted (screenLock s) = true;
}.

Lemma lock_unseen s t : sessions t = sessions s → session t = session s → screenLock t = screenLock s → lock_ok s → lock_ok t.
Proof. intros E1 E2 E3 [H1 H2]. split; rewrite ?E1, ?E2, ?E3; done. Qed.

Lemma lock_dispatch e s : lock_ok s → lock_ok (dispatch e s).
Proof. destruct (dispatch_keeps e s) as (? & ? & ? & _). by apply lock_unseen. Qed.

Lemma lock_no_session t : WakeLock.lock_inv (screenLock t) → session t = None → lock_ok t.
Proof. intros Hl Hn. split; [done|]. congruence. Qed.

Lemma lock_on_session n f s : (∀ x, session s = Some n → sessions s !! n = Some x → under_way (f x) → WakeLock.wanted (screenLock s) = true) →
  lock_ok s → lock_ok (on_session n f s).
Proof.
  intros Hf [H1 H2]. split; [done|]. intros m x Hm [[-> (z & Hz & ->)]|[_ Hx]]%lookup_on_session; [by apply (Hf z)|by apply (H2 m x)].
Qed.

Lemma lock_finish s : lock_ok s → lock_ok (finish s).
Proof.
  intros Hs. pose proof (WakeLock.lock_step_inv _ WakeLock.Release (l_inv _ Hs)) as Hl. unfold finish. cbv zeta.
  destruct (session _) eqn:E; by apply lock_no_session.
Qed.

Lemma lock_stop b s : lock_ok s → lock_ok (stop_session b s).
Proof. intros Hs. unfold stop_session. destruct (session s) eqn:E; [|done]. apply lock_no_session; [apply Hs|done]. Qed.

Lemma lock_failure error s : lock_ok s → lock_ok (showFailure error s).
Proof.
  intros Hs. unfold showFailure. cbv zeta. destruct (_ && _); [by apply lock_dispatch, lock_finish|].
  destruct (SCREEN_FOR_FAILURE _); [by apply lock_dispatch, lock_finish|done].
Qed.

Lemma lock_answers e s : from_browser e = true → lock_ok s → lock_ok (lock_event e s).
Proof.
  intros He [H1 H2]. split; [by apply WakeLock.lock_step_inv|]. intros n x Hn Hx Hw. cbn. rewrite browser_keeps_wanted by done. by apply (H2 n x).
Qed.

Lemma hold_wanted l : WakeLock.wanted (WakeLock.hold l) = true.
Proof. unfold WakeLock.hold, WakeLock.acquire. destruct (WakeLock.wanted l) eqn:E; [done|]. by destruct (_ || _). Qed.

Lemma not_under_way (x : Session) (P : Prop) : s_stage x ≠ OfferingFile → s_stage x ≠ SendingFile → under_way x → P.
Proof. by intros H1 H2 [?|?]. Qed.

Lemma lock_over n s (f : Session → Session) : (∀ x, s_stage (f x) = SessionOver ∨ s_stage (f x) = Choosing) → lock_ok s → lock_ok (on_session n f s).
Proof. intros Hf. apply lock_on_session. intros x _ _ [E|E]; destruct (Hf x) as [F|F]; congruence. Qed.

Lemma lock_shared i s : lock_ok s → lock_ok (page_step WORDS s i).
Proof.
  apply (page_step_keeps WORDS lock_ok (λ _, True)); cbn; try done.
  - intros f s'. by apply lock_unseen.
  - intros e s'. apply lock_dispatch.
  - intros b s'. by apply lock_unseen.
  - intros e s'. by apply lock_unseen.
  - intros s' Hs _. by apply lock_stop.
Qed.

Lemma lock_send_step s i : lock_ok s → lock_ok (send_step WORDS s i).
Proof.
  intros Hs. destruct i as [i| | |on|chosen|n result|n result|n hook|n error| | |e]; cbn [send_step].
  - by apply lock_shared.
  - destruct (shows_action _ _); [|done]. unfold onYes. destruct (flow _) as [active|]; [|done]. destruct (controller _); [|done]. cbv zeta.
    match goal with |- context [dispatch EYes ?u] => assert (lock_ok (dispatch EYes u)) as [H1 _] by (apply lock_dispatch; by apply (lock_unseen s)) end.
    split; [exact H1|]. cbn. intros m x [= <-]. rewrite lookup_app_r, Nat.sub_diag by lia. intros [= <-]. by apply not_under_way.
  - destruct (shows_action _ _); [|done]. by apply lock_dispatch, lock_finish, lock_stop.
  - destruct (_ && _); [by apply lock_dispatch|done].
  - unfold onFileChosen. destruct (session s) as [n|] eqn:En; [|done]. destruct (negb _); [done|]. destruct (_ =? 0); [by apply lock_dispatch|].
    destruct (_ <? _); [by apply lock_dispatch|]. cbv zeta. set (source := Source.prepareSource chosen).
    set (e := EAsking _ _). destruct (dispatch_keeps e (lock_event WakeLock.Hold s)) as (E1 & E2 & E3 & _).
    split; cbn; rewrite ?E3; cbn; [apply (WakeLock.lock_step_inv _ WakeLock.Hold), Hs|]. intros. apply hold_wanted.
  - unfold invite_settles. destruct (sessions s !! n) as [x|]; [|done]. destruct (s_stage x), result as [error|[[max theirs] ice]]; try done; cbv zeta;
      destruct (is_current _ _); try apply lock_failure; try apply lock_dispatch; apply lock_over; auto.
  - unfold offer_settles. destruct (sessions s !! n) as [x|] eqn:Ex; [|done]. destruct (s_stage x) eqn:Est; try done. cbv zeta.
    assert (lock_ok (on_session n (λ x, x <| s_stage := SessionOver |>) s)) as Ho by (apply lock_over; auto).
    destruct (negb _); [done|]. destruct result as [error|[]].
    + by apply lock_failure.
    + apply lock_on_session; [|done]. intros y En Hy _. apply (l_wanted _ Hs n x En Ex). by left.
    + by apply lock_dispatch, lock_finish.
  - unfold hook_runs. destruct (sessions s !! n) as [x|]; [|done]. destruct (s_stage x); try done. destruct (s_file x) as [source|]; [|done].
    destruct hook as [| | |acknowledged m|on]; cbn [run_hook]; cbv zeta; try (by apply lock_dispatch).
    + destruct (totalFor source); [|done]. by apply (lock_unseen (dispatch (ESending a) s)), lock_dispatch.
    + by apply (lock_unseen (dispatch EEndSent s)), lock_dispatch.
    + destruct (_ && _); [apply (lock_unseen (dispatch (EProgress acknowledged) s)); try done|]; by apply lock_dispatch.
  - unfold send_settles. destruct (sessions s !! n) as [x|]; [|done]. destruct (s_stage x); try done. cbv zeta.
    match goal with |- context [negb (is_current n ?u)] => assert (lock_ok u) as Ho by (apply lock_over; auto); generalize dependent u end. intros u Hu.
    destruct (negb _); [done|]. destruct error; [by apply lock_failure|].
    apply (lock_unseen (dispatch ESent (finish u))); [done..|]. by apply lock_dispatch, lock_finish.
  - unfold pagehide. assert (lock_ok (stop_session true (stopFlow (s <| leaving := true |>)))) as Ho by (apply lock_stop; by apply (lock_unseen s)).
    apply lock_no_session; [exact (WakeLock.lock_step_inv _ WakeLock.Release (l_inv _ Ho))|].
    unfold stop_session. set (t := stopFlow _). by destruct (session t) eqn:E.
  - by apply (lock_unseen s).
  - destruct (from_browser e) eqn:E; [by apply lock_answers|done].
Qed.

Lemma lock_send_run b online supported inputs : lock_ok (send_run WORDS (started b online supported) inputs).
Proof.
  unfold send_run. induction inputs as [|i inputs IH] using rev_ind; [|rewrite foldl_app; by apply lock_send_step].
  cbn. unfold started, start. cbv zeta. assert (lock_ok (first_page b)) as H0 by (split; [apply WakeLock.createScreenLock_inv|done]).
  destruct supported; [apply (lock_unseen (dispatch (EOnline online) (first_page b))); try done|apply lock_dispatch]; by apply lock_dispatch.
Qed.

(** A lock that is not wanted holds no grant. *)
Lemma unwanted_held l : WakeLock.lock_inv l → WakeLock.wanted l = false → WakeLock.held l = [].
Proof.
  intros Hl Hw. destruct (WakeLock.held l) as [|id k] eqn:E; [done|]. pose proof (WakeLock.lk_held _ Hl id ltac:(rewrite E; left)) as Hs.
  destruct (WakeLock.lk_wanted _ Hl) as [? _]; [by eexists|congruence].
Qed.

(** What hiding the page does to its session and its pairing. *)
Lemma pagehide_parts s :
  session (pagehide s) = None ∧
  (∀ n x, session s = Some n → sessions s !! n = Some x → ∃ y, sessions (pagehide s) !! n = Some y ∧ s_stops y = s_stops x ++ [true]) ∧
  flow (pairing_part (pagehide s)) = None ∧
  (∀ k f, flow (pairing_part s) = Some k → flows (pairing_part s) !! k = Some f → ∃ g, flows (pairing_part (pagehide s)) !! k = Some g ∧ disposed g = true) ∧
  (∀ c b, controller (pairing_part s) = Some c → aborted (pairing_part s) !! c = Some b → aborted (pairing_part (pagehide s)) !! c = Some true).
Proof.
  unfold pagehide, stop_session. set (t := stopFlow (s <| leaving := true |>)).
  set (p := pairing_part s). assert (pairing_part t = dispose_flow (abort_controller (clear_slow p))) as Et by done.
  assert (session t = session s ∧ sessions t = sessions s) as [E1 E2] by done. clearbody t.
  assert (flow (clear_slow p) = flow p ∧ flows (clear_slow p) = flows p ∧ controller (clear_slow p) = controller p ∧ aborted (clear_slow p) = aborted p)
    as (F1 & F2 & F3 & F4) by (unfold clear_slow; by destruct (slowTimer p)).
  set (q := clear_slow p) in *. clearbody q.
  assert (∀ u, pairing_part u = pairing_part t → flow (pairing_part u) = None ∧
    (∀ k f, flow p = Some k → flows p !! k = Some f → ∃ g, flows (pairing_part u) !! k = Some g ∧ disposed g = true) ∧
    (∀ c b, controller p = Some c → aborted p !! c = Some b → aborted (pairing_part u) !! c = Some true)) as Hp.
  { intros u ->. rewrite Et. split; [apply dispose_flow_none|]. rewrite <- F1, <- F2, <- F3, <- F4. unfold abort_controller, dispose_flow. split.
    - intros k f Hk Hf. destruct (controller q); cbn; rewrite Hk; cbn; rewrite list_lookup_alter_eq, Hf; by eexists.
    - intros c b Hc Hb. rewrite Hc. cbn. destruct (flow q); cbn; rewrite list_lookup_insert_eq; try done; by eapply lookup_lt_Some. }
  destruct (session t) as [n|] eqn:E.
  - split; [done|]. split; [|by apply Hp]. intros m x Hm Hx. rewrite <- E1 in Hm. injection Hm as <-. cbn. rewrite E2, list_lookup_alter_eq, Hx. by eexists.
  - split; [exact E|]. split; [congruence|by apply Hp].
Qed.

(** C16: the page leaves nothing running. Every session it made is the current one
    or was told to stop or closed. The screen is asked to stay on all the time the
    current session offers or sends a file, and only while a session is current
    and past the choice of a file; the browser's grants are handed back with it.
    The warning before leaving is up exactly while a file is on offer or on its
    way. And hiding the page, at any time, drops the session and tells it to stop
    at once, lets the screen lock go, and drops the pairing flow, disposing of it
    and aborting the signal its calls were given. *)
Theorem nothing_left_running has_wake_lock online supported inputs :
  let s := send_run WORDS (started has_wake_lock online supported) inputs in
  (∀ n x, sessions s !! n = Some x → session s = Some n ∨ s_stops x ≠ [] ∨ s_closes x ≠ 0%nat) ∧
  (WakeLock.wanted (screenLock s) = true → is_Some (session s) ∧ includes BEFORE_FILE (screen (view s)) = false) ∧
  (∀ n x, session s = Some n → sessions s !! n = Some x → s_stage x = OfferingFile ∨ s_stage x = SendingFile →
     WakeLock.wanted (screenLock s) = true) ∧
  (WakeLock.wanted (screenLock s) = false → WakeLock.held (screenLock s) = []) ∧
  beforeUnload s = includes busy_screens (screen (view s)) ∧
  (let hidden := send_step WORDS s PageHide in
   session hidden = None ∧ (∀ n x, session s = Some n → sessions s !! n = Some x → ∃ y, sessions hidden !! n = Some y ∧ s_stops y = s_stops x ++ [true]) ∧
   WakeLock.wanted (screenLock hidden) = false ∧ WakeLock.held (screenLock hidden) = [] ∧
   flow (pairing_part hidden) = None ∧
   (∀ k f, flow (pairing_part s) = Some k → flows (pairing_part s) !! k = Some f → ∃ g, flows (pairing_part hidden) !! k = Some g ∧ disposed g = true) ∧
   (∀ c b, controller (pairing_part s) = Some c → aborted (pairing_part s) !! c = Some b → aborted (pairing_part hidden) !! c = Some true)).
Proof.
  intros s. pose proof (send_run_ok _ inputs (started_ok has_wake_lock online supported)) as Hs.
  pose proof (lock_send_run has_wake_lock online supported inputs) as Hl. fold s in Hs, Hl. clearbody s.
  pose proof (lock_send_step s PageHide Hl) as Hlh. cbv zeta.
  assert (WakeLock.wanted (screenLock (send_step WORDS s PageHide)) = false) as Hw by apply release_unwanted.
  split; [apply (a_ended _ Hs)|]. split; [apply (a_lock _ Hs)|]. split; [apply (l_wanted _ Hl)|].
  split; [apply unwanted_held, Hl|]. split; [apply (a_guard _ Hs)|]. destruct (pagehide_parts s) as (P1 & P2 & P3 & P4 & P5).
  split; [exact P1|]. split; [exact P2|]. split; [exact Hw|]. split; [by apply unwanted_held; [apply Hlh|]|]. by split_and!.
Qed.
End Facts.
