(* ===== verification/SendPairing.v ===== *)
(** * The sender page makes a session only for words that were compared

    The screens of the sender page satisfy the laws of PairingFacts.v, so a
    session is made only when the person says the words on the screen match, and
    over the flow that came to those words. *)

From S2P Require Import Prelude JsString Utf8 PageText SendState PairingPage PairingFacts SendPage SendPageFacts.
From S2P Require Messages DirectLink WakeLock Source.

#[local] Arguments reduce : simpl never.
#[local] Arguments verify_flow : simpl never.

Definition screen_phase (s : ScreenId) : phase_of :=
  match s with
  | words => PhWords | connecting => PhConnecting | waiting => PhWaiting | network => PhNetwork | check_ => PhCheck
  | expired => PhExpired | _ => PhElsewhere
  end.

#[export] Instance SendPage_screens : PairingScreens SendPage := {|
  phase s := screen_phase (screen (view s)); shown_words s := checkWords (view s) |}.

Section Laws.
Context `{Unicode} (WORDS : list jstr).

Lemma render_same s : same_pairing (pairing_part (render_page s)) (pairing_part s) ∧
  (is_Some (form (pairing_part (render_page s))) → screen (view s) = words).
Proof.
  unfold render_page. cbn. case_bool_decide as Hw; cbn; (split; [done|]); [done|]. by intros [? ?].
Qed.

Lemma dispatch_same e s : same_pairing (pairing_part (dispatch e s)) (pairing_part s) ∧ expires (dispatch e s) = expires s ∧
  starting (dispatch e s) = starting s ∧ view (dispatch e s) = reduce (view s) e ∧
  (is_Some (form (pairing_part (dispatch e s))) → (is_Some (form (pairing_part s)) → screen (view s) = words) →
   screen (reduce (view s) e) = words).
Proof.
  unfold dispatch. cbv zeta. case_bool_decide as Hc.
  - destruct (render_same (s <| view := reduce (view s) e |>)) as [? Hf]. split_and!; try done. intros Hsome _. by apply Hf.
  - split_and!; try done. cbn. intros Hsome Hw. rewrite Hc. by apply Hw.
Qed.

(** Check words come from pairing alone. *)
Lemma reduce_check v e : screen (reduce v e) = check_ →
  (screen v = check_ ∧ checkWords (reduce v e) = checkWords v) ∨
  (∃ w, e = EPaired w ∧ checkWords (reduce v e) = w ∧ includes PAIRING (screen v) = true).
Proof.
  destruct e; unfold reduce; cbv zeta; repeat case_match; cbn; try (intros Hx; discriminate Hx); auto; intros; right; eauto.
Qed.

Lemma pairing_phase v : is_pairing (screen_phase (screen v)) = includes PAIRING (screen v).
Proof. by destruct (screen v). Qed.

#[export] Instance SendPage_laws : PairingLaws SendPage.
Proof.
  split.
  - done.
  - done.
  - intros s. cbn. unfold stop_session. by destruct (session s).
  - done.
  - intros e s. cbn. destruct (render_same (s <| expires := Some e |>)) as [? Hf]. split_and!; try done. intros Hs. specialize (Hf Hs). cbn in Hf. by rewrite Hf.
  - intros e s. cbn. destruct (dispatch_same (view_event e) s) as (? & ? & ? & Ev & Hf). split_and!; try done. rewrite Ev.
    intros Hs Hw. rewrite Hf; [done|done|]. intros Hx. specialize (Hw Hx). by destruct (screen (view s)).
  - intros e s. cbn. destruct (dispatch_same (view_event e) s) as (_ & _ & _ & Ev & _). rewrite !Ev, pairing_phase. intros Hc.
    assert (screen (reduce (view s) (view_event e)) = check_) as Hc' by (by destruct (screen (reduce _ _))).
    destruct (reduce_check _ _ Hc') as [[Hs Hw]|(w & He & Hw & Hp)].
    + rewrite Hs. destruct e as [[]| | | | | | | |w| | | |]; try (left; split_and!; [done|done|by intros ?]). right. right. by exists w.
    + right. left. exists w. split_and!; [|done|done]. destruct e as [[]| | | | | | | | | | | |]; try discriminate He. by injection He as ->.
  - intros e s. cbn. destruct (dispatch_same (view_event e) s) as (_ & _ & _ & Ev & _). rewrite Ev. intros Hp He.
    destruct e; try done; cbn [view_event]; unfold reduce; cbv zeta; destruct (screen (view s)) eqn:E; try (by destruct Hp); view_tests; cbn;
      rewrite ?E; cbn; try case_match; cbn; rewrite ?E; auto.
  - intros s. cbn. destruct (dispatch_same EContinue s) as (_ & _ & _ & Ev & _). rewrite Ev. intros Hp.
    unfold reduce. cbv zeta. destruct (screen (view s)) eqn:E; try (by destruct Hp); done.
  - intros [[sc ? ? ? ? ? ? ? ? ? ? ? ?] ? ? ? ? ? ? ? ? ? ?]. cbn. by destruct sc.
  - intros [[sc ? ? ? ? ? ? ? ? ? ? ? ?] ? ? ? ? ? ? ? ? ? ?]. cbn. by destruct sc.
Qed.

(** ** The page's own handlers *)

(** Nothing the pairing's invariant looks at changes. *)
Lemma unseen s t : pairing_part t = pairing_part s → view t = view s → expires t = expires s → starting t = starting s →
  pairing_ok s → pairing_ok t.
Proof.
  intros Ep Ev Ee Es Hs. apply (same_ok s); cbn; rewrite ?Ep, ?Ev, ?Ee, ?Es; try done. apply (p_form _ Hs).
Qed.

(** The events the page dispatches by itself, where it does. *)
Definition late (e : ViewEvent) (v : ViewState) : Prop :=
  match e with
  | EStart _ | EUnsupported | EOnline _ | EContinue | ESlow | EClaimRefused | ENetwork | EWrongWords | EPaired _ | ENo | EBack => False
  | ECancel => includes PAIRING (screen v) = false
  | _ => True
  end.

Lemma late_phase e v : late e v → e ≠ EExpired →
  (screen (reduce v e) = screen v ∧ checkWords (reduce v e) = checkWords v) ∨
  (is_pairing (screen_phase (screen v)) = false ∧ screen v ≠ expired ∧ screen_phase (screen (reduce v e)) = PhElsewhere).
Proof.
  intros He Hx. destruct e; try done; unfold reduce; cbv zeta; destruct (screen v) eqn:E; try (by cbn in He; rewrite E in He);
    view_tests; cbn; try (by left); try (by right); try case_match; cbn; rewrite ?E; cbn; auto.
Qed.

Lemma dispatch_late e s : late e (view s) → pairing_ok s → pairing_ok (dispatch e s).
Proof.
  intros He Hs. assert (e = EExpired ∨ e ≠ EExpired) as [->|Hx] by (destruct e; auto).
  { change (pairing_ok (dispatch_pairing PExpired s)). apply dispatch_ok; [by right|done|done]. }
  destruct (dispatch_same e s) as (Hsame & Ee & Es & Ev & Hf).
  assert (is_Some (form (pairing_part (dispatch e s))) → screen (reduce (view s) e) = words) as Hform.
  { intros Hx'. apply Hf; [done|]. intros Hy. pose proof (p_form _ Hs Hy) as Hp. cbn in Hp. by destruct (screen (view s)). }
  destruct (late_phase e (view s) He Hx) as [[E1 E2]|(E1 & E2 & E3)].
  - apply (same_ok s); cbn; rewrite ?Ev, ?E1, ?E2, ?Ee, ?Es; try done. rewrite E1 in Hform. intros Hy. by rewrite Hform.
  - destruct Hsame as (F1 & F2 & F3 & F4 & F5). destruct Hs as [K1 K0 K2 K3 K4 K5 K6 K7].
    split; unfold live, is_aborted in *; cbn in *; rewrite ?F1, ?F2, ?F3, ?F4, ?F5, ?Ee, ?Es, ?Ev; try done.
    + intros n r Hn Hl. destruct (K2 n r Hn Hl) as (_ & Hp & _). rewrite E1 in Hp. destruct Hp as [?|Hp]; [done|].
      by destruct (screen (view s)).
    + intros Hy. rewrite Hform in E3; done.
    + by rewrite E3.
Qed.

Lemma unseen_finish s : pairing_ok s → pairing_ok (finish s).
Proof. intros Hs. apply (unseen s); [..|done]; unfold finish; cbv zeta; by destruct (session _). Qed.
Lemma unseen_stop b s : pairing_ok s → pairing_ok (stop_session b s).
Proof. intros Hs. apply (unseen s); [..|done]; unfold stop_session; by destruct (session _). Qed.
Lemma unseen_session n f s : pairing_ok s → pairing_ok (on_session n f s).
Proof. by apply unseen. Qed.
Lemma unseen_announce m s : pairing_ok s → pairing_ok (announce_page m s).
Proof. intros Hs. change (pairing_ok (update (announce m) s)). by apply update_ok. Qed.

Lemma showFailure_pairing error s : pairing_ok s → pairing_ok (showFailure error s).
Proof.
  intros Hs. unfold showFailure. cbv zeta. destruct (_ && _); [by apply dispatch_late, unseen_finish|].
  destruct (SCREEN_FOR_FAILURE _) as [e|] eqn:E; [|done]. apply dispatch_late; [|by apply unseen_finish].
  revert E. unfold SCREEN_FOR_FAILURE. repeat case_match; by intros [= <-].
Qed.

Lemma at_check_none s : pairing_ok s → screen (view s) = check_ → none_live (pairing_part s).
Proof.
  intros Hs Hc n r Hr Hl. destruct (p_live _ Hs n r Hr Hl) as (_ & Hp & _). cbn in Hp. rewrite Hc in Hp. by destruct Hp.
Qed.

(** The flow is handed to the session. *)
Lemma handed_over s n l : pairing_ok s → none_live (pairing_part s) →
  pairing_ok (s <| pairing_part := clear_slow (pairing_part s <| flow := None |>) |> <| session := n |> <| sessions := l |>).
Proof.
  intros Hs Hnone. set (g := λ q : Pairing, clear_slow (q <| flow := None |>)).
  assert (runs (g (pairing_part s)) = runs (pairing_part s) ∧ flow (g (pairing_part s)) = None ∧
    aborted (g (pairing_part s)) = aborted (pairing_part s) ∧ form (g (pairing_part s)) = form (pairing_part s)) as (G1 & G2 & G3 & G4).
  { unfold g, clear_slow. cbn. by destruct (slowTimer _). }
  assert (pairing_ok (update g s)) as H3; [|by apply (unseen (update g s))].
  apply none_live_ok; cbn; rewrite ?G2, ?G3, ?G4; [|done|by left|done|done|apply (p_form _ Hs)|done].
  intros k r Hr [Hst Hab]. rewrite G1 in Hr. unfold is_aborted in Hab. rewrite G3 in Hab. by apply (Hnone k r Hr).
Qed.

Lemma onYes_pairing s : pairing_ok s → screen (view s) = check_ → pairing_ok (onYes s).
Proof.
  intros Hs Hc. unfold onYes. destruct (flow _) as [active|] eqn:Ef; [|done]. destruct (controller _) as [c|]; [|done]. cbv zeta.
  pose proof (at_check_none s Hs Hc) as Hnone. set (p := pairing_part s) in *.
  assert (verify_flow true p = on_flow active (λ f, f <| verified := verified f ++ [true] |>) p) as Ev by (unfold verify_flow; by rewrite Ef).
  assert (pairing_ok (update (verify_flow true) s)) as H1.
  { apply none_live_ok; cbn; fold p; rewrite ?Ev; cbn; [done|done|by left|done| |apply (p_form _ Hs)|].
    - intros k Hk. destruct (p_flow _ Hs k Hk) as [fl Hfl]. cbn in Hfl. fold p in Hfl.
      destruct (decide (k = active)) as [->|Hne]; [rewrite list_lookup_alter_eq, Hfl; by eexists|rewrite list_lookup_alter_ne, Hfl by done; by eexists].
    - intros Hph k fl Hk Hfl. apply lookup_alter_inv in Hfl as [(-> & x & Hx & ->)|[_ Hx]];
        [exact (p_words _ Hs Hph active x Hk Hx)|exact (p_words _ Hs Hph k fl Hk Hx)]. }
  assert (pairing_ok (dispatch EYes (update (verify_flow true) s))) as H2 by by apply dispatch_late.
  destruct (dispatch_same EYes (update (verify_flow true) s)) as ((F1 & F2 & F3 & F4 & F5) & _).
  apply handed_over; [exact H2|]. intros n r Hr [Hst Hab]. change (s <| pairing_part := verify_flow true p |>) with (update (verify_flow true) s) in *.
  rewrite F1 in Hr. unfold is_aborted in Hab. rewrite F5 in Hab. cbn in Hr, Hab. fold p in Hr, Hab. rewrite Ev in Hr, Hab. by apply (Hnone n r Hr).
Qed.

Definition send_obeys (s : SendPage) (i : send_input) : bool := match i with Shared i => obeys_signals s i | _ => true end.

(** Every input of a run keeps to the kit's signals where it happens. *)
Fixpoint polite (s : SendPage) (inputs : list send_input) : bool :=
  match inputs with [] => true | i :: inputs => send_obeys s i && polite (send_step WORDS s i) inputs end.

Lemma send_step_pairing s i : pairing_ok s → send_obeys s i = true → pairing_ok (send_step WORDS s i).
Proof.
  intros Hs Ho. destruct i as [i| | |on|chosen|n result|n result|n hook|n error| | |e]; cbn [send_step].
  - by apply page_step_ok.
  - destruct (shows_action _ _) eqn:E; [|done]. apply on_check in E. by apply onYes_pairing.
  - destruct (shows_action _ _) eqn:E; [|done]. unfold onStop. apply dispatch_late; [|by apply unseen_finish, unseen_stop].
    rewrite finish_view, stop_session_view. revert E. destruct s as [[sc ? ? ? ? ? ? ? ? ? ? ? ?] ? ? ? ? ? ? ? ? ? ?]. cbn. by destruct sc.
  - destruct (_ && _); [by apply dispatch_late|done].
  - unfold onFileChosen. destruct (session s); [|done]. destruct (negb _); [done|]. destruct (_ =? 0); [by apply dispatch_late|].
    destruct (_ <? _); [by apply dispatch_late|]. cbv zeta. apply unseen_session.
    eapply (unseen (announce_page _ _)); [done..|]. apply unseen_announce, dispatch_late; [done|]. by apply (unseen s).
  - unfold invite_settles. destruct (sessions s !! n) as [x|]; [|done]. destruct (s_stage x), result as [error|[[max theirs] ice]]; try done; cbv zeta.
    + destruct (is_current _ _); [apply showFailure_pairing|]; by apply unseen_session.
    + destruct (is_current _ _); [apply dispatch_late; [done|]|]; by apply unseen_session.
  - unfold offer_settles. destruct (sessions s !! n) as [x|]; [|done]. destruct (s_stage x); try done. cbv zeta.
    destruct (negb _); [by apply unseen_session|]. destruct result as [error|[]].
    + by apply showFailure_pairing, unseen_session.
    + by apply unseen_session.
    + by apply dispatch_late, unseen_finish, unseen_session.
  - unfold hook_runs. destruct (sessions s !! n) as [x|]; [|done]. destruct (s_stage x); try done. destruct (s_file x) as [source|]; [|done].
    destruct hook as [| | |acknowledged m|on]; cbn [run_hook].
    + by apply dispatch_late.
    + destruct (totalFor source); [|done]. by apply unseen_announce, dispatch_late.
    + by apply unseen_announce, dispatch_late.
    + cbv zeta. destruct (_ && _); [apply unseen_announce; eapply (unseen (dispatch _ s)); [done..|]|]; by apply dispatch_late.
    + by apply dispatch_late.
  - unfold send_settles. destruct (sessions s !! n) as [x|]; [|done]. destruct (s_stage x); try done. cbv zeta.
    destruct (negb _); [by apply unseen_session|]. destruct error as [error|]; [by apply showFailure_pairing, unseen_session|].
    by apply unseen_announce, dispatch_late, unseen_finish, unseen_session.
  - unfold pagehide. apply (unseen (stop_session true (stopFlow (s <| leaving := true |>)))); [done..|].
    apply unseen_stop. apply stopFlow_ok. by apply (unseen s).
  - by apply (unseen s).
  - destruct (from_browser e); [|done]. by apply (unseen s).
Qed.

Lemma send_run_pairing s inputs : pairing_ok s → polite s inputs = true → pairing_ok (send_run WORDS s inputs).
Proof.
  revert s. induction inputs as [|i inputs IH]; intros s Hs Hp; [done|]. cbn in *. apply andb_true_iff in Hp as [Hi Hp].
  apply IH; [by apply send_step_pairing|done].
Qed.

Lemma started_pairing b online supported : pairing_ok (started b online supported).
Proof.
  assert (pairing_ok (first_page b)) as H0 by by split.
  assert (pairing_ok (dispatch_pairing (POnline online) (first_page b))) as H1 by by apply dispatch_ok; [right| |].
  unfold started, start. cbv zeta. set (s1 := dispatch_pairing _ _) in *.
  assert (runs (pairing_part s1) = [] ∧ expires s1 = None) as [Hr He] by by destruct online.
  destruct supported; [|by apply start_link_ok]. destruct H1 as [K1 K0 K2 K3 K4 K5 K6 K7]. by split.
Qed.

(** ** Sessions are made by saying yes *)

Definition made (k : nat) (s : SendPage) : Prop := length (sessions s) = k.

Lemma made_dispatch k e s : made k s → made k (dispatch e s).
Proof. unfold made. by destruct (dispatch_keeps e s) as (-> & _). Qed.
Lemma made_session k n f s : made k s → made k (on_session n f s).
Proof. unfold made. cbn. by rewrite length_alter. Qed.
Lemma made_finish k s : made k s → made k (finish s).
Proof. unfold finish. cbv zeta. intros Hs. destruct (session _); [by apply made_session|done]. Qed.
Lemma made_stop k b s : made k s → made k (stop_session b s).
Proof. unfold stop_session. intros Hs. destruct (session _); [by apply made_session|done]. Qed.
Lemma made_failure k error s : made k s → made k (showFailure error s).
Proof.
  intros Hs. unfold showFailure. cbv zeta. destruct (_ && _); [by apply made_dispatch, made_finish|].
  destruct (SCREEN_FOR_FAILURE _); [by apply made_dispatch, made_finish|done].
Qed.
#[local] Hint Resolve made_dispatch made_session made_finish made_stop made_failure : core.

Lemma made_step k s i : made k s → made k (send_step WORDS s i) ∨ i = ClickYes ∧ shows_action OnYes (view s) = true.
Proof.
  intros Hs. destruct i as [i| | |on|chosen|n result|n result|n hook|n error| | |e]; cbn [send_step]; try (left; by auto).
  - left. apply (page_step_keeps WORDS (made k) (λ _, True)); auto.
    + intros e s' Hs'. by apply made_dispatch.
    + intros s' Hs' _. by apply made_stop.
  - destruct (shows_action _ _); auto.
  - left. destruct (shows_action _ _); [|done]. unfold onStop. auto.
  - left. destruct (_ && _); auto.
  - left. unfold onFileChosen. destruct (session s); [|done]. destruct (negb _); [done|]. destruct (_ =? 0); [auto|]. destruct (_ <? _); [auto|].
    cbv zeta. apply made_session. change (made k (dispatch (EAsking (Source.file_name (Source.prepareSource chosen)) (zlen (Source.file_bytes (Source.prepareSource chosen)))) (lock_event WakeLock.Hold s))).
    by apply made_dispatch.
  - left. unfold invite_settles. destruct (sessions s !! n) as [x|]; [|done]. destruct (s_stage x), result as [error|[[max theirs] ice]]; try done; cbv zeta;
      destruct (is_current _ _); auto.
  - left. unfold offer_settles. destruct (sessions s !! n) as [x|]; [|done]. destruct (s_stage x); try done. cbv zeta.
    destruct (negb _); [auto|]. destruct result as [error|[]]; auto.
  - left. unfold hook_runs. destruct (sessions s !! n) as [x|]; [|done]. destruct (s_stage x); try done. destruct (s_file x) as [source|]; [|done].
    destruct hook as [| | |acknowledged m|on]; cbn [run_hook]; cbv zeta; auto.
    + destruct (totalFor source); [|done]. by apply (made_dispatch k).
    + by apply (made_dispatch k).
    + destruct (_ && _); by apply (made_dispatch k).
  - left. unfold send_settles. destruct (sessions s !! n) as [x|]; [|done]. destruct (s_stage x); try done. cbv zeta.
    destruct (negb _); [auto|]. destruct error as [error|]; auto. apply (made_dispatch k); auto.
  - left. unfold pagehide. change (made k (stop_session true (stopFlow (s <| leaving := true |>)))). apply made_stop. done.
  - left. by destruct (from_browser e).
Qed.

(** C14: a session with the other side is made only by the button that says the
    words match, on the screen that shows words to compare, whatever the people,
    the browser, the pairing kit and the sessions do; it is made over the pairing
    flow the page then holds, and that flow is told that the words matched. Where
    the kit's calls besides never resolve once their signal is aborted, as is the
    use of [AbortSignal] (the page does not look at the signal again after them),
    the words on the screen are those of that very flow. *)
Theorem session_needs_words has_wake_lock online supported inputs i :
  let start := started has_wake_lock online supported in
  let s := send_run WORDS start inputs in
  let t := send_step WORDS s i in
  length (sessions t) ≠ length (sessions s) →
  i = ClickYes ∧ screen (view s) = check_ ∧
  ∃ active x, flow (pairing_part s) = Some active ∧ sessions t = sessions s ++ [x] ∧ s_flow x = active ∧
    flows (pairing_part t) = alter (λ f, f <| verified := verified f ++ [true] |>) active (flows (pairing_part s)) ∧
    (polite start inputs = true → ∃ fl, flows (pairing_part s) !! active = Some fl ∧ flow_words fl = Some (checkWords (view s))).
Proof.
  intros start s t Hlen. pose proof (send_run_pairing _ inputs (started_pairing has_wake_lock online supported)) as Hs. fold start s in Hs.
  clearbody s. subst t. destruct (made_step (length (sessions s)) s i eq_refl) as [Hm|[-> Hy]]; [by rewrite Hm in Hlen|].
  pose proof (on_check s Hy) as Hc. split; [done|]. split; [done|]. cbn [send_step] in *. rewrite Hy in *. unfold onYes in *.
  destruct (flow (pairing_part s)) as [active|] eqn:Ef; [|done]. destruct (controller _); [|done]. cbv zeta in *.
  set (u := s <| pairing_part := verify_flow true (pairing_part s) |>) in *.
  destruct (dispatch_keeps EYes u) as (E1 & _). destruct (dispatch_same EYes u) as ((_ & F3 & _) & _).
  exists active, (mkSession active ReadingInvite None None None false [] 0). split; [done|]. split; [cbn; by rewrite E1|]. split; [done|].
  split.
  - cbn. unfold clear_slow. destruct (slowTimer _); cbn; rewrite F3; unfold u, verify_flow; cbn; by rewrite Ef.
  - intros Hp. specialize (Hs Hp). destruct (p_flow _ Hs active Ef) as [fl Hfl]. exists fl. split; [exact Hfl|].
    apply (p_words _ Hs) with active; [cbn; by rewrite Hc|done|done].
Qed.
End Laws.

(** Four words are typed, the claim goes through, and two people read the same
    three words. *)
Definition example_words : list jstr := [lit "able"; lit "acid"; lit "aged"; lit "also"].
Definition example_inputs : list send_input :=
  [Shared (InitSettles true (Some (true, 1000)) []); Shared (Type_ (lit "Able acid, aged also")); Shared Submit;
   Shared (RecipientSettles 0 (inr None)); Shared (PairSettles 0 (inr (lit "one two six")))].

Lemma session_needs_words_witness :
  let s := @send_run ascii_unicode example_words (@started ascii_unicode true true true) example_inputs in
  screen (view s) = check_ ∧ ∃ active x, sessions (@send_step ascii_unicode example_words s ClickYes) = sessions s ++ [x] ∧ s_flow x = active ∧
    ∃ fl, flows (pairing_part s) !! active = Some fl ∧ flow_words fl = Some (checkWords (view s)).
Proof.
  destruct (@session_needs_words ascii_unicode example_words true true true example_inputs ClickYes) as (_ & Hc & active & x & _ & Hx & Hfl & _ & Hw).
  - vm_compute. discriminate.
  - split; [exact Hc|]. exists active, x. split; [exact Hx|]. split; [exact Hfl|]. apply Hw. vm_compute. reflexivity.
Defined.

(** A page that was hidden and is shown again, as from a back-forward cache,
    still says it is waiting for the other side, and has no session any more. *)
Example shown_again_is_stale :
  let s := @send_run ascii_unicode example_words (@started ascii_unicode true true true) (example_inputs ++
    [ClickYes; InviteSettles 0 (inr (1000, false, [])); FileChosen (Source.mkFile (lit "a.txt") (lit "text/plain") [1; 2; 3] 0);
     PageHide; PageShow]) in
  screen (view s) = asking ∧ session s = None ∧ leaving s = false.
Proof. vm_compute. split_and!; reflexivity. Qed.
