(* ===== verification/JsValue.v ===== *)
(** * Conversions of the language: [Number(s)], [String(v)], [JSON.stringify],
      [encodeURIComponent]

    What the source does to values that came from elsewhere. The text of a
    number that is no integer below [10^21] is the platform's. *)

From S2P Require Import Prelude JsString Utf8 Bytes Json.

(** ** [Number(s)] of a string; [None] is [NaN] *)

Definition all_of (digit : Z → bool) (s : jstr) : bool := non_empty s && forallb digit s.

(** Digits of a base that is a power of two. *)
Definition radix_value (base : Z) (s : jstr) : Z :=
  foldl (λ n c, n * base + (if is_digit c then c - 48 else if is_upper c then c - 55 else c - 87)) 0 s.

(** The digits after [0x], [0o] or [0b]. *)
Definition radix_literal (s : jstr) : option (option jnum) :=
  match s with
  | z :: x :: digits =>
      if negb (z =? 48) then None
      else if (x =? 120) || (x =? 88) then
        Some (if all_of (λ c, is_hex c || in_range 65 70 c) digits then Some (numeral false (radix_value 16 digits) 0) else None)
      else if (x =? 111) || (x =? 79) then
        Some (if all_of (in_range 48 55) digits then Some (numeral false (radix_value 8 digits) 0) else None)
      else if (x =? 98) || (x =? 66) then
        Some (if all_of (in_range 48 49) digits then Some (numeral false (radix_value 2 digits) 0) else None)
      else None
  | _ => None
  end.

(** An unsigned decimal: digits, a fraction and an exponent, one digit at least. *)
Definition decimal_literal (negative : bool) (s : jstr) : option jnum :=
  let whole := take_digits s in
  let '(fraction, rest) := match whole.2 with
                           | c :: rest => if c =? 46 then take_digits rest else ([], whole.2)
                           | [] => ([], [])
                           end in
  if eqb (whole.1 ++ fraction) [] then None
  else match parse_exponent rest with
       | Some (e, []) => Some (numeral negative (digits_value (whole.1 ++ fraction)) (e - zlen fraction))
       | _ => None
       end.

Definition string_number (text : jstr) : option jnum :=
  let s := trim text in
  if eqb s [] then Some (Int 0)
  else match radix_literal s with
  | Some n => n
  | None =>
      let '(negative, s) := match s with
                            | c :: rest => if c =? 45 then (true, rest) else if c =? 43 then (false, rest) else (false, s)
                            | [] => (false, s)
                            end in
      if eqb s (lit "Infinity") then Some (Inf negative) else decimal_literal negative s
  end.

(** [Number.isSafeInteger(n)], with the integer. *)
Definition safe_integer (n : option jnum) : option Z :=
  match n with
  | Some (Int z) => if is_safe_integer z then Some z else None
  | Some NegZero => Some 0
  | _ => None
  end.

Example number_plain : string_number (lit " 42 ") = Some (Int 42).
Proof. reflexivity. Qed.
Example number_hex : string_number (lit "0x1F") = Some (Int 31).
Proof. reflexivity. Qed.
Example number_point : string_number (lit "+.5e1") = Some (Int 5).
Proof. reflexivity. Qed.
Example number_junk : string_number (lit "4 2") = None.
Proof. reflexivity. Qed.

Lemma take_digits_all s : forallb is_digit s = true → take_digits s = (s, []).
Proof. intros Hs. rewrite <- (app_nil_r s) at 1. by apply take_digits_app. Qed.

(** The text of a safe integer reads back. *)
Lemma string_number_decimal n : 0 <= n <= max_safe_integer → string_number (decimal n) = Some (Int n).
Proof.
  intros Hn. pose proof (decimal_digits n ltac:(lia)) as Hd.
  destruct (decimal_head n ltac:(lia)) as (c & t & E & Hc).
  assert (trim (decimal n) = decimal n) as Ht.
  { assert (∀ x, x ∈ decimal n → is_space x = false) as Hs.
    { intros x Hx. rewrite forallb_forall in Hd. apply list_elem_of_In in Hx. specialize (Hd x Hx). unfold is_digit in Hd.
      apply in_range_spec in Hd. unfold is_space. repeat (rewrite orb_false_iff). unfold in_range. repeat split; lia. }
    unfold trim, trimStart, trimEnd, drop_end. rewrite !drop_while_id; [apply rev_involutive| |].
    - rewrite E. apply Hs. rewrite E. left.
    - rewrite drop_while_id by (rewrite E; apply Hs; rewrite E; left).
      destruct (rev (decimal n)) as [|x l] eqn:Er; [done|]. apply Hs. apply list_elem_of_In, in_rev. rewrite Er. by left. }
  unfold string_number. rewrite Ht.
  assert (eqb (decimal n) [] = false) as -> by (rewrite E; reflexivity).
  assert (radix_literal (decimal n) = None) as ->.
  { rewrite E in *. unfold radix_literal. destruct t as [|d t]; [done|]. cbn in Hd. apply andb_true_iff in Hd as [_ [Hd2 _]%andb_true_iff].
    unfold is_digit in Hd2. apply in_range_spec in Hd2. destruct (c =? 48); [|done]. cbn.
    repeat match goal with |- context [d =? ?k] => rewrite (proj2 (Z.eqb_neq d k)) by lia end. done. }
  assert ((match decimal n with
           | c :: rest => if c =? 45 then (true, rest) else if c =? 43 then (false, rest) else (false, decimal n)
           | [] => (false, decimal n) end) = (false, decimal n)) as ->.
  { rewrite E. rewrite (proj2 (Z.eqb_neq c 45)), (proj2 (Z.eqb_neq c 43)) by lia. done. }
  assert (eqb (decimal n) (lit "Infinity") = false) as ->.
  { apply not_true_iff_false. rewrite eqb_eq, E. intros [= -> _]. lia. }
  unfold decimal_literal. rewrite (take_digits_all _ Hd). cbn [fst snd]. rewrite app_nil_r.
  assert (eqb (decimal n) [] = false) as -> by (rewrite E; reflexivity).
  cbn [parse_exponent]. rewrite digits_value_decimal by lia. change (0 - zlen []) with 0. by rewrite numeral_small.
Qed.

(** ** Texts *)

Class Numbers := { number_text : jnum → jstr }.

Section Texts.
Context `{Numbers}.

Definition int_text (z : Z) : jstr := if z <? 0 then 45 :: decimal (- z) else decimal z.

(** [String(n)]. *)
Definition num_string (n : jnum) : jstr :=
  match n with
  | Int z => if Z.abs z <? 10 ^ 21 then int_text z else number_text n
  | NegZero => lit "0"
  | Inf negative => if negative then lit "-Infinity" else lit "Infinity"
  | Frac _ _ => number_text n
  end.

(** [String(v)]. *)
Fixpoint to_string (v : json) : jstr :=
  match v with
  | JNull => lit "null"
  | JBool b => if b then lit "true" else lit "false"
  | JNum n => num_string n
  | JStr s => s
  | JArr l => join [44] (map (λ v, match v with JNull => [] | _ => to_string v end) l)
  | JObj _ => lit "[object Object]"
  end.

(** [Number(v)]. *)
Definition to_number (v : json) : option jnum :=
  match v with
  | JNull => Some (Int 0)
  | JBool b => Some (Int (if b then 1 else 0))
  | JNum n => Some n
  | JStr s => string_number s
  | JArr _ => string_number (to_string v)
  | JObj _ => None
  end.

(** [JSON.stringify(v)]. *)
Fixpoint stringify (v : json) : jstr :=
  match v with
  | JNull => lit "null"
  | JBool b => if b then lit "true" else lit "false"
  | JNum n => match n with Inf _ => lit "null" | _ => num_string n end
  | JStr s => quote s
  | JArr l => 91 :: join [44] (map stringify l) ++ [93]
  | JObj members => 123 :: join [44] (map (λ m, quote m.1 ++ 58 :: stringify m.2) members) ++ [125]
  end.
End Texts.

(** ** [JSON.parse] undoes [JSON.stringify] *)

(** Values whose numbers are natural and safe, with distinct members. *)
Inductive plain : json → Prop :=
  | plain_null : plain JNull
  | plain_bool b : plain (JBool b)
  | plain_num n : 0 <= n <= max_safe_integer → plain (JNum (Int n))
  | plain_str s : jstr_ok s → plain (JStr s)
  | plain_arr l : Forall plain l → plain (JArr l)
  | plain_obj ms : NoDup (map fst ms) → Forall (λ m, jstr_ok m.1 ∧ plain m.2) ms → plain (JObj ms).

Section Stringify.
Context `{Numbers}.

Lemma stringify_head v : plain v → value_head (stringify v).
Proof.
  destruct 1 as [|b|n Hn|s Hs|l Hl|ms Hnd Hms]; cbn [stringify].
  - by repeat split.
  - by destruct b.
  - unfold num_string, int_text. rewrite (proj2 (Z.ltb_lt _ _)) by (unfold max_safe_integer in Hn; lia).
    rewrite (proj2 (Z.ltb_ge _ _)) by lia. destruct (decimal_head n) as (c & t & -> & Hc); [lia|].
    unfold value_head, is_ws. eqb_tests. split_and!; done || lia.
  - rewrite <- (app_nil_r (quote s)). apply quote_head.
  - repeat split; lia.
  - repeat split; lia.
Qed.

Lemma parses_stringify v : plain v → parses v (stringify v).
Proof.
  induction v as [|b|n|s|l IH|ms IH] using json_nested; intros Hp; cbn [stringify]; inversion Hp; subst.
  - intros fuel rest Hf Hr. destruct fuel; [lia|]. reflexivity.
  - apply parses_bool.
  - unfold num_string, int_text. rewrite (proj2 (Z.ltb_lt _ _)) by (unfold max_safe_integer in *; lia).
    rewrite (proj2 (Z.ltb_ge _ _)) by lia. by apply parses_int.
  - by apply parses_str.
  - match goal with E : Forall plain l |- _ => rename E into Hl end. apply parses_array.
    + apply Forall2_fmap_r. apply Forall_Forall2_diag. rewrite Forall_forall in *. intros v Hv. by apply IH; auto.
    + apply Forall_fmap. rewrite Forall_forall in *. intros v Hv. by apply stringify_head, Hl.
  - match goal with E : Forall _ ms |- _ => rename E into Hms end.
    assert (parses (JObj ms) (123 :: join [44] (map snd (map (λ m, (m.1, quote m.1 ++ 58 :: stringify m.2)) ms)) ++ [125])) as Ho.
    { apply parses_object; [|done]. apply Forall2_fmap_r, Forall_Forall2_diag. rewrite Forall_forall in *. intros m Hm.
      destruct (Hms m Hm) as [Hk Hv]. split_and!; [done..|]. exists (stringify m.2). split; [done|]. by apply (IH m). }
    rewrite map_map in Ho. exact Ho.
Qed.

Lemma parse_stringify v : plain v → parse (stringify v) = Some v.
Proof. intros Hp. by apply parse_parses, parses_stringify. Qed.

(** Two such values with one text are one value. *)
Lemma stringify_inj v w : plain v → plain w → stringify v = stringify w → v = w.
Proof. intros Hv Hw E. pose proof (parse_stringify v Hv) as P. rewrite E, parse_stringify in P by done. congruence. Qed.
End Stringify.

(** ** [encodeURIComponent] *)

Definition hex_upper (n : Z) : Z := if n <? 10 then 48 + n else 55 + n.

(** Letters, digits and [- _ . ! ~ * ' ( )] stand for themselves. *)
Definition unreserved (c : Z) : bool :=
  is_alnum c || (c =? 45) || (c =? 95) || (c =? 46) || (c =? 33) || (c =? 126) || (c =? 42) || in_range 39 41 c.

Definition encodeURIComponent (s : jstr) : res jstr :=
  check negb (lone_surrogate s) else "URI malformed";
  Ok (flat_map (λ b, if unreserved b then [b] else [37; hex_upper (b / 16); hex_upper (b mod 16)]) (utf8_encode s)).

Example encoded_name : encodeURIComponent (lit "a b&c.txt") = Ok (lit "a%20b%26c.txt").
Proof. reflexivity. Qed.
