(* ===== verification/Nostr.v ===== *)
(** * Signed events ([core/nostr.ts], [core/types.ts])

    Templates, what is accepted back from a signer, the upload authorisation and
    the file event. An event is what was read of an object, with the object
    itself: [nostr-tools] says of it whether it is valid and its signature
    verifies. A value without the fields of an event is never valid. *)

From S2P Require Import Prelude JsString Utf8 Bytes Json JsValue Security.

(** ** The data of [core/types.ts] *)

Record EventTemplate := mkTemplate { t_kind : Z; t_created_at : Z; t_tags : list (list jstr); t_content : jstr }.

Record SignedNostrEvent := mkEvent {
  kind : jnum; created_at : jnum; tags : list (list json); content : jstr; id : jstr; pubkey : jstr; sig : jstr; raw : json }.

Inductive EncryptionScheme : Type := Scheme1 | Scheme2.

Definition WILDBLOOM_ENCRYPTION : jstr := lit "wildbloom-aes-256-gcm-chunked-v1".
Definition WILDBLOOM_ENCRYPTION_V2 : jstr := lit "forgesworn-aes-256-gcm-chunked-v2".
Definition scheme_text (s : EncryptionScheme) : jstr :=
  match s with Scheme1 => WILDBLOOM_ENCRYPTION | Scheme2 => WILDBLOOM_ENCRYPTION_V2 end.
Definition WILDBLOOM_ENCRYPTED_FILE_NAME : jstr := lit "wildbloom.wbenc".
Definition WILDBLOOM_ENCRYPTED_MIME_TYPE : jstr := lit "application/vnd.forgesworn.encrypted".
Definition WILDBLOOM_ENCRYPTED_MIME_TYPE_LEGACY : jstr := lit "application/vnd.wildbloom.encrypted".

Record BlobDescriptor := mkDescriptor { bd_url : jstr; bd_sha256 : jstr; bd_size : Z; bd_type : jstr; bd_uploaded : Z }.
Record InspectedFile := mkInspected {
  if_file : bytes; if_name : jstr; if_extension : jstr; if_sha256 : jstr; if_size : Z; if_type : jstr }.
Record TorrentPlan := mkTorrent { tp_infoHash : jstr; tp_magnetUri : jstr; tp_trackers : list jstr }.
Record HybridPublication := mkPublication {
  hp_inspected : InspectedFile; hp_descriptor : BlobDescriptor; hp_torrent : option TorrentPlan;
  hp_encryption : option EncryptionScheme }.
Record ResolvedHybridEvent := mkResolved {
  rh_event : SignedNostrEvent; rh_url : jstr; rh_mimeType : jstr; rh_sha256 : jstr; rh_size : Z;
  rh_magnet : option (jstr * jstr); rh_trackers : list jstr; rh_encryption : option EncryptionScheme; rh_name : jstr }.

(** ** [nostr-tools] *)

Class NostrTools := { validateEvent : SignedNostrEvent → bool; verifyEvent : SignedNostrEvent → bool }.

Definition array_of (v : json) : option (list json) := match v with JArr l => Some l | _ => None end.

(** The fields of an event. *)
Definition event_of (v : json) : option SignedNostrEvent :=
  match v with
  | JObj ms =>
      match get_member (lit "kind") ms, get_member (lit "created_at") ms, get_member (lit "tags") ms, get_member (lit "content") ms,
            get_member (lit "id") ms, get_member (lit "pubkey") ms, get_member (lit "sig") ms with
      | Some (JNum k), Some (JNum c), Some (JArr l), Some (JStr t), Some (JStr i), Some (JStr p), Some (JStr s) =>
          match mapM array_of l with Some l => Some (mkEvent k c l t i p s v) | None => None end
      | _, _, _, _, _, _, _ => None
      end
  | _ => None
  end.

Definition AUTH_KIND : Z := 24242.
Definition FILE_KIND : Z := 1063.
Definition TORRENT_KIND : Z := 2003.
Definition MAX_SIGNED_EVENT_JSON_BYTES : Z := 128 * 1024.
Definition SIGNED_EVENT_KEYS : jstr := lit "content,created_at,id,kind,pubkey,sig,tags".

(** [Object.keys(v).sort().join(",")]. *)
Definition sorted_keys (ms : list (jstr * json)) : jstr := join [44] (map fst (sort_members ms)).

(** [n === z]. *)
Definition is_number (n : jnum) (z : Z) : bool := match n with Int y => y =? z | NegZero => z =? 0 | _ => false end.

Definition tags_json (l : list (list jstr)) : json := JArr (map (λ tag, JArr (map JStr tag)) l).

Section Nostr.
Context `{Unicode} `{Web} `{Numbers} `{NostrTools}.

(** [validateEvent(event) && verifyEvent(event)]. *)
Definition verified (v : json) : option SignedNostrEvent :=
  match event_of v with
  | Some e => if validateEvent e && verifyEvent e then Some e else None
  | None => None
  end.

(** ** Tags *)

Definition tag_named (name : jstr) (tag : list json) : bool :=
  match tag with JStr n :: _ => eqb n name | _ => false end.

Definition uniqueTag (tags : list (list json)) (name : string) (maximumLength : Z) : res jstr :=
  match List.filter (tag_named (lit name)) tags with
  | [[_; JStr value]] =>
      check zlen value <=? maximumLength else ("Signed event " +:+ name +:+ " tag is unexpectedly large.");
      Ok value
  | _ => Throw ("Signed event must contain exactly one scalar " +:+ name +:+ " tag.")
  end.

Definition optionalUniqueTag (tags : list (list json)) (name : string) (maximumLength : Z) : res (option jstr) :=
  match List.filter (tag_named (lit name)) tags with
  | [] => Ok None
  | _ => let! value := uniqueTag tags name maximumLength in Ok (Some value)
  end.

(** ** What a signer gave back *)

Definition eventsMatch (template : EventTemplate) (signed : list (jstr * json)) : bool :=
  (match get_member (lit "kind") signed with Some (JNum n) => is_number n (t_kind template) | _ => false end)
  && (match get_member (lit "created_at") signed with Some (JNum n) => is_number n (t_created_at template) | _ => false end)
  && (match get_member (lit "content") signed with Some (JStr s) => eqb s (t_content template) | _ => false end)
  && (match get_member (lit "tags") signed with
      | Some v => eqb (stringify v) (stringify (tags_json (t_tags template)))
      | None => false
      end).

(** [None] is a value that [structuredClone] refuses. *)
Definition assertSignedEventExactly (template : EventTemplate) (value : option json) (expectedPubkey : option jstr)
    : res SignedNostrEvent :=
  match value with
  | None => Throw "The signer returned an unreadable Nostr event."
  | Some (JObj ms) =>
      check eqb (sorted_keys ms) SIGNED_EVENT_KEYS else "The signer returned an unexpected Nostr event shape.";
      check eventsMatch template ms else "The signer changed the event instead of signing the reviewed template.";
      match verified (JObj ms) with
      | None => Throw "The signer returned an invalid Nostr event."
      | Some event =>
          match expectedPubkey with
          | None => Ok event
          | Some expected =>
              let! key := assertHex64 expected "Signer public key" in
              check eqb (pubkey event) key else "The signer returned an event for a different public key.";
              Ok event
          end
      end
  | Some _ => Throw "The signer returned an invalid Nostr event shape."
  end.

Definition parseBoundedEventJson (text : jstr) : res json :=
  check negb ((MAX_SIGNED_EVENT_JSON_BYTES <? zlen text) || (MAX_SIGNED_EVENT_JSON_BYTES <? zlen (utf8_encode text)))
    else "The signed-event JSON is unexpectedly large.";
  match parse text with Some v => Ok v | None => Throw "The signed-event JSON is invalid." end.

Definition parseSignedEventJson (template : EventTemplate) (text : jstr) (expectedPubkey : option jstr) : res SignedNostrEvent :=
  let! v := parseBoundedEventJson text in
  assertSignedEventExactly template (Some v) expectedPubkey.

(** What the signer answers: nothing, or a value that may not be clonable. *)
Definition signEventExactly (template : EventTemplate) (signEvent : EventTemplate → res (option json)) (expectedPubkey : jstr)
    : res SignedNostrEvent :=
  let! signed := signEvent template in
  assertSignedEventExactly template signed (Some expectedPubkey).

(** ** Authorisation of an upload *)

Definition buildUploadAuthorisation (hash server : jstr) (nowSeconds lifetimeSeconds : Z) (profile : NetworkProfile) : res EventTemplate :=
  let! hash := assertHex64 hash "Blob SHA-256" in
  let! origin := normaliseBlossomServer server profile in
  match newURL origin with
  | None => Throw "Invalid URL"
  | Some url =>
      let host := toLowerCase (hostname url) in
      check negb ((lifetimeSeconds <? 30) || (300 <? lifetimeSeconds))
        else "Upload authorisation lifetime must be between 30 and 300 seconds.";
      let createdAt := Z.max 0 (nowSeconds - 1) in
      Ok (mkTemplate AUTH_KIND createdAt
            [[lit "t"; lit "upload"]; [lit "expiration"; decimal (createdAt + lifetimeSeconds)]; [lit "server"; host]; [lit "x"; hash]]
            (lit "Upload blob " ++ hash ++ lit " to " ++ host))
  end.

(** The scope must be a bare lower-case hostname. *)
Definition server_scope (server : jstr) : bool :=
  match newURL (lit "https://" ++ server) with
  | None => false
  | Some url =>
      negb (negb (eqb server (toLowerCase server)) || negb (eqb (hostname url) server) || non_empty (port url)
            || negb (eqb (pathname url) (lit "/")))
  end.

Definition encodeNostrAuthorisation (v : json) (nowSeconds : Z) : res jstr :=
  match verified v with
  | None => Throw "Invalid Blossom authorisation signature."
  | Some event =>
      let! purpose := (if is_number (kind event) AUTH_KIND then uniqueTag (tags event) "t" 32 else Ok []) in
      check eqb purpose (lit "upload") else "Not a Blossom upload authorisation event.";
      match safe_integer (Some (created_at event)) with
      | None => Throw "Invalid Blossom authorisation timestamp."
      | Some created =>
          check 0 <=? created else "Invalid Blossom authorisation timestamp.";
          let! expirationText := uniqueTag (tags event) "expiration" 16 in
          check non_empty expirationText && forallb is_digit expirationText else "Invalid Blossom authorisation expiration.";
          match safe_integer (string_number expirationText) with
          | None => Throw "Blossom upload authorisation is not short-lived."
          | Some expiration =>
              check negb ((expiration - created <? 30) || (300 <? expiration - created))
                else "Blossom upload authorisation is not short-lived.";
              check negb (negb (is_safe_integer nowSeconds) || (nowSeconds <? 0)) else "Invalid current timestamp.";
              check negb ((nowSeconds <=? created) || (expiration <=? nowSeconds))
                else "Blossom upload authorisation is not currently valid.";
              let! server := uniqueTag (tags event) "server" 255 in
              check server_scope server else "Blossom upload authorisation has an invalid server scope.";
              let! x := uniqueTag (tags event) "x" 64 in
              let! hash := assertHex64 x "Authorisation blob SHA-256" in
              check eqb (content event) (lit "Upload blob " ++ hash ++ lit " to " ++ server)
                else "Blossom upload authorisation has an unexpected human-readable purpose.";
              Ok (lit "Nostr " ++ btoa (utf8_encode (stringify (raw event))))
          end
      end
  end.

(** ** The events of a file *)

Definition encrypted_type (type : jstr) : bool :=
  eqb type WILDBLOOM_ENCRYPTED_MIME_TYPE || eqb type WILDBLOOM_ENCRYPTED_MIME_TYPE_LEGACY.

Definition encrypted_alt : jstr := lit "Encrypted Wildbloom file".

Definition buildFileEvent (publication : HybridPublication) (nowSeconds : Z) : res EventTemplate :=
  let inspected := hp_inspected publication in
  let encrypted := bool_decide (is_Some (hp_encryption publication)) in
  check negb (encrypted && (negb (eqb (if_name inspected) WILDBLOOM_ENCRYPTED_FILE_NAME) || negb (encrypted_type (if_type inspected))))
    else "Encrypted Wildbloom events must describe the canonical public envelope.";
  let alt := if encrypted then encrypted_alt else lit "File: " ++ if_name inspected in
  let torrentTags := match hp_torrent publication with
                     | Some torrent => [[lit "magnet"; tp_magnetUri torrent]; [lit "i"; tp_infoHash torrent]]
                     | None => []
                     end in
  let encryptionTags := match hp_encryption publication with Some s => [[lit "encryption"; scheme_text s]] | None => [] end in
  Ok (mkTemplate FILE_KIND nowSeconds
        ([[lit "url"; bd_url (hp_descriptor publication)]; [lit "m"; toLowerCase (if_type inspected)];
          [lit "x"; if_sha256 inspected]; [lit "ox"; if_sha256 inspected]; [lit "size"; decimal (if_size inspected)]]
         ++ torrentTags ++ encryptionTags ++ [[lit "alt"; alt]])
        (if_name inspected)).

Definition buildTorrentEvent (inspected : InspectedFile) (torrent : TorrentPlan) (nowSeconds : Z) : EventTemplate :=
  mkTemplate TORRENT_KIND nowSeconds
    ([[lit "title"; if_name inspected]; [lit "x"; tp_infoHash torrent]; [lit "file"; if_name inspected; decimal (if_size inspected)]]
     ++ map (λ tracker, [lit "tracker"; tracker]) (tp_trackers torrent))
    (lit "Wildbloom distribution for " ++ if_name inspected).

(** [String(candidate.x ?? "")]. *)
Definition string_or_empty (v : option json) : jstr :=
  match v with None | Some JNull => [] | Some v => to_string v end.

(** [Number(candidate.x)]; a missing member is [NaN]. *)
Definition number_member (v : option json) : option jnum := v ≫= to_number.

Definition valid_type (type : jstr) : bool := non_empty type && (zlen type <=? 255) && negb (existsb is_control type).

(** An array is an object whose members are not the named ones. *)
Definition validateBlobDescriptor (value : json) (expected_sha256 : jstr) (expected_size : Z) (expected_type : option jstr)
    (profile : NetworkProfile) : res BlobDescriptor :=
  let! candidate := match value with
                    | JObj ms => Ok ms
                    | JArr _ => Ok []
                    | _ => Throw "Blossom returned an invalid blob descriptor."
                    end in
  let! sha256 := assertHex64 (string_or_empty (get_member (lit "sha256") candidate)) "Descriptor SHA-256" in
  check eqb sha256 expected_sha256 else "Blossom returned a descriptor for different bytes.";
  match safe_integer (number_member (get_member (lit "size") candidate)) with
  | None => Throw "Blossom returned the wrong blob size."
  | Some size =>
      check size =? expected_size else "Blossom returned the wrong blob size.";
      let type := toLowerCase (string_or_empty (get_member (lit "type") candidate)) in
      check valid_type type else "Blossom returned an invalid MIME type.";
      check (match expected_type with
             | Some t => negb (non_empty t && negb (eqb type (toLowerCase t)) && negb (eqb type (lit "application/octet-stream")))
             | None => true
             end) else "Blossom returned the wrong MIME type.";
      match safe_integer (number_member (get_member (lit "uploaded") candidate)) with
      | None => Throw "Blossom returned an invalid upload timestamp."
      | Some uploaded =>
          check 0 <=? uploaded else "Blossom returned an invalid upload timestamp.";
          let! url := normaliseBlossomUrl (string_or_empty (get_member (lit "url") candidate)) (Some sha256) profile in
          Ok (mkDescriptor url sha256 size type uploaded)
      end
  end.

(** ** Resolving a file event *)

Definition string_length (v : json) : option Z := match v with JStr s => Some (zlen s) | _ => None end.

(** The length of a tag, or nothing for a tag that is too long or no list of strings. *)
Definition tag_length (tag : list json) : option Z :=
  if 8 <? zlen tag then None else foldr (λ v total, n ← string_length v; m ← total; Some (n + m)) (Some 0) tag.

Definition validateEventBounds (event : SignedNostrEvent) : res unit :=
  check negb ((4096 <? zlen (content event)) || (64 <? zlen (tags event))) else "The Nostr event exceeds Wildbloom's safety limits.";
  match mapM tag_length (tags event) with
  | None => Throw "The Nostr event contains an invalid tag."
  | Some lengths => guard (negb (64 * 1024 <? foldr Z.add 0 lengths)) "The Nostr event tags are unexpectedly large."
  end.

Definition getAll (url : URL) (name : string) : list jstr :=
  map snd (List.filter (λ p, eqb p.1 (lit name)) (searchParams (search url))).

Definition sanitiseMagnet (magnetUri infoHash : jstr) (size : Z) (name blossomUrl : jstr) (profile : NetworkProfile)
    : res (jstr * list jstr) :=
  check negb (bool_decide (profile = tor)) else "Torrent metadata is disabled in Tor-only mode.";
  check zlen magnetUri <=? 16 * 1024 else "The magnet URI is unexpectedly large.";
  match newURL magnetUri with
  | None => Throw "Invalid URL"
  | Some magnet =>
      check eqb (protocol magnet) (lit "magnet:") else "Invalid magnet URI.";
      check (match getAll magnet "xt" with [t] => eqb (toLowerCase t) (lit "urn:btih:" ++ infoHash) | _ => false end)
        else "The magnet URI does not match the signed torrent info hash.";
      check (match getAll magnet "xl" with [s] => eqb s (decimal size) | _ => false end)
        else "The magnet URI does not match the signed file size.";
      let! seed := match getAll magnet "ws" with [s] => normaliseBlossomUrl s None profile | _ => Ok [] end in
      check (match getAll magnet "ws" with [_] => eqb seed blossomUrl | _ => false end)
        else "The magnet URI does not use the signed Blossom URL as its only web seed.";
      check (match getAll magnet "dn" with [n] => eqb (sanitiseFileName n) name | _ => false end)
        else "The magnet URI does not match the signed display name.";
      let! normalised := rmap (λ t, normaliseTrackerUrl t profile) (getAll magnet "tr") in
      let trackers := uniq normalised in
      check negb ((zlen trackers =? 0) || (8 <? zlen trackers)) else "The magnet URI must contain between one and eight safe trackers.";
      let! dn := encodeURIComponent name in
      let! trs := rmap encodeURIComponent trackers in
      let! ws := encodeURIComponent blossomUrl in
      let parameters := [lit "xt=urn:btih:" ++ infoHash; lit "dn=" ++ dn; lit "xl=" ++ decimal size]
                        ++ map (λ t, lit "tr=" ++ t) trs ++ [lit "ws=" ++ ws] in
      Ok (lit "magnet:?" ++ join [38] parameters, trackers)
  end.

Definition resolve_encryption (event : SignedNostrEvent) (mimeTypeTag : jstr) (alt encryptionValue : option jstr)
    : res (option EncryptionScheme) :=
  match encryptionValue with
  | None => Ok None
  | Some text =>
      check negb (negb (eqb text WILDBLOOM_ENCRYPTION) && negb (eqb text WILDBLOOM_ENCRYPTION_V2))
        else "The event uses an unsupported encryption scheme.";
      check negb (negb (eqb (content event) WILDBLOOM_ENCRYPTED_FILE_NAME) || negb (encrypted_type mimeTypeTag)
                  || negb (bool_decide (alt = Some encrypted_alt)))
        else "The encrypted event does not use Wildbloom's canonical public envelope metadata.";
      Ok (Some (if eqb text WILDBLOOM_ENCRYPTION then Scheme1 else Scheme2))
  end.

Definition resolveHybridEvent (v : json) (profile : NetworkProfile) : res ResolvedHybridEvent :=
  match verified v with
  | None => Throw "The Nostr event signature is invalid."
  | Some event =>
      check is_number (kind event) FILE_KIND else "Expected a NIP-94 kind 1063 file event.";
      let! _ := validateEventBounds event in
      let! x := uniqueTag (tags event) "x" 8192 in
      let! sha256 := assertHex64 x "File SHA-256" in
      let! ox := uniqueTag (tags event) "ox" 8192 in
      let! originalSha256 := assertHex64 ox "Original file SHA-256" in
      check eqb originalSha256 sha256
        else "Wildbloom requires the NIP-94 x and ox hashes to identify the same untransformed bytes.";
      let! urlTag := uniqueTag (tags event) "url" 8192 in
      let! url := normaliseBlossomUrl urlTag (Some sha256) profile in
      let! mimeTypeTag := uniqueTag (tags event) "m" 255 in
      let mimeType := toLowerCase mimeTypeTag in
      check valid_type mimeType else "Invalid MIME type.";
      let! sizeTag := uniqueTag (tags event) "size" 8192 in
      match safe_integer (string_number sizeTag) with
      | None => Throw "Invalid file size."
      | Some size =>
          check 0 <? size else "Invalid file size.";
          let! _ := assertPrototypeTransferSize size in
          let! alt := optionalUniqueTag (tags event) "alt" 280 in
          let name := sanitiseFileName (content event) in
          let! encryptionValue := optionalUniqueTag (tags event) "encryption" 80 in
          let! encryption := resolve_encryption event mimeTypeTag alt encryptionValue in
          let! infoHashTag := optionalUniqueTag (tags event) "i" 40 in
          let! magnetTag := optionalUniqueTag (tags event) "magnet" (16 * 1024) in
          match infoHashTag, magnetTag with
          | None, None => Ok (mkResolved event url mimeType sha256 size None [] encryption name)
          | Some i, Some m =>
              let! infoHash := assertHex40 i "Torrent info hash" in
              let! 'magnet := sanitiseMagnet m infoHash size name url profile in
              Ok (mkResolved event url mimeType sha256 size (Some (magnet.1, infoHash)) magnet.2 encryption name)
          | _, _ => Throw "Torrent info hash and magnet tags must appear together."
          end
      end
  end.

Definition resolveFileEventJson (text : jstr) (profile : NetworkProfile) (expectedEventId : option jstr) : res ResolvedHybridEvent :=
  let! value := parseBoundedEventJson text in
  check (match value with JObj ms => eqb (sorted_keys ms) SIGNED_EVENT_KEYS | _ => false end)
    else "Expected one complete signed Nostr event with only the canonical fields.";
  let! resolved := resolveHybridEvent value profile in
  match expectedEventId with
  | None => Ok resolved
  | Some expected =>
      let! exact := assertHex64 expected "Event ID" in
      check eqb (id (rh_event resolved)) exact else "The saved event does not match the expected event ID.";
      Ok resolved
  end.
End Nostr.
