(* ===== verification/NostrFacts.v ===== *)
(** * What the event code promises

    Only the reviewed template comes back from a signer, and the reader takes
    every event the writer makes for what it is. *)

From S2P Require Import Prelude JsString Utf8 Bytes Json JsValue Security Nostr.

(** ** Reading an event *)

(** Documented behaviour of [nostr-tools]: a valid event's tags hold strings. *)
Class NostrLaws `{NostrTools} : Prop := {
  valid_tags e : validateEvent e = true → Forall (Forall (λ v, ∃ s, v = JStr s)) (tags e);
}.

Lemma mapM_array_of l ls : mapM array_of l = Some ls → l = map JArr ls.
Proof.
  intros Hm. apply mapM_Some in Hm. induction Hm as [|v x l ls Hv _ IH]; [done|].
  destruct v; try discriminate Hv. injection Hv as ->. cbn. by f_equal.
Qed.

(** The members an event was read from. *)
Lemma event_of_members v e : event_of v = Some e → ∃ ms, v = JObj ms ∧ raw e = v ∧
  get_member (lit "kind") ms = Some (JNum (kind e)) ∧ get_member (lit "created_at") ms = Some (JNum (created_at e)) ∧
  get_member (lit "tags") ms = Some (JArr (map JArr (tags e))) ∧ get_member (lit "content") ms = Some (JStr (content e)).
Proof.
  intros He. destruct v as [| | | | |ms]; try discriminate He. exists ms. cbn [event_of] in He.
  destruct (get_member (lit "kind") ms) as [[]|]; try discriminate He.
  destruct (get_member (lit "created_at") ms) as [[]|]; try discriminate He.
  destruct (get_member (lit "tags") ms) as [[]|] eqn:Et; try discriminate He.
  destruct (get_member (lit "content") ms) as [[]|]; try discriminate He.
  destruct (get_member (lit "id") ms) as [[]|]; try discriminate He.
  destruct (get_member (lit "pubkey") ms) as [[]|]; try discriminate He.
  destruct (get_member (lit "sig") ms) as [[]|]; try discriminate He.
  destruct (mapM array_of l) as [ls|] eqn:El; [|discriminate He]. injection He as <-. cbn. rewrite (mapM_array_of _ _ El). done.
Qed.

Lemma get_member_elem k ms v : get_member k ms = Some v → ∃ m, m ∈ ms ∧ m.2 = v.
Proof.
  induction ms as [|m ms IH]; [done|]. cbn. destruct (eqb m.1 k).
  - intros [= <-]. exists m. split; [left|done].
  - intros H. destruct (IH H) as (m' & Hm & Hv). exists m'. split; [by right|done].
Qed.

Lemma get_member_ok k ms v : json_ok (JObj ms) → get_member k ms = Some v → json_ok v.
Proof.
  intros Hok Hg. inversion Hok as [| | | | |? _ _ Hv]; subst. apply get_member_elem in Hg as (m & Hm & <-).
  rewrite Forall_forall in Hv. by apply (Hv m).
Qed.

(** Well-formed lists of strings are plain. *)
Lemma plain_strings (l : list (list json)) : json_ok (JArr (map JArr l)) → Forall (Forall (λ v, ∃ s, v = JStr s)) l → plain (JArr (map JArr l)).
Proof.
  intros Hok Hs. inversion Hok as [| | | |? Hl|]; subst. constructor. apply Forall_fmap. rewrite List.Forall_map in Hl.
  rewrite Forall_forall in *. intros tag Htag. specialize (Hl tag Htag). specialize (Hs tag Htag). cbn in *. inversion Hl as [| | | |? Ht|]; subst.
  constructor. rewrite Forall_forall in *. intros v Hv. destruct (Hs v Hv) as [s ->]. specialize (Ht _ Hv). inversion Ht. by constructor.
Qed.

Lemma plain_tags_json l : Forall (Forall jstr_ok) l → plain (tags_json l).
Proof.
  intros Hl. constructor. apply Forall_fmap. rewrite Forall_forall in *. intros tag Htag. cbn. constructor. apply Forall_fmap.
  specialize (Hl tag Htag). rewrite Forall_forall in *. intros s Hs. constructor. by apply Hl.
Qed.

Lemma tags_json_inj l k : JArr (map JArr l) = tags_json k → l = map (map JStr) k.
Proof.
  intros [= E]. revert k E. induction l as [|tag l IH]; intros [|t k] E; try discriminate E; [done|].
  injection E as -> E. cbn. f_equal. by apply IH.
Qed.

Section Exact.
Context `{Unicode} `{Web} `{Numbers} `{NostrLaws}.

Definition template_ok (t : EventTemplate) : Prop := Forall (Forall jstr_ok) (t_tags t).

(** The event is the template, signed. *)
Record signs (t : EventTemplate) (e : SignedNostrEvent) : Prop := {
  sg_verified : verified (raw e) = Some e;
  sg_kind : is_number (kind e) (t_kind t) = true;
  sg_created : is_number (created_at e) (t_created_at t) = true;
  sg_content : content e = t_content t;
  sg_tags : tags e = map (map JStr) (t_tags t);
}.

Lemma verified_event v e : verified v = Some e → event_of v = Some e ∧ validateEvent e = true ∧ verifyEvent e = true.
Proof. unfold verified. destruct (event_of v) as [e'|]; [|done]. destruct (_ && _) eqn:E; [|done]. intros [= <-]. bool_prop. done. Qed.

Lemma signed_is_template template v expected e : json_ok v → template_ok template →
  assertSignedEventExactly template (Some v) expected = Ok e → signs template e ∧ raw e = v.
Proof.
  intros Hok Ht Ha. destruct v as [| | | | |ms]; try discriminate Ha. cbn [assertSignedEventExactly] in Ha. inv_ok.
  destruct (verified (JObj ms)) as [e'|] eqn:Ev; [|discriminate].
  assert (e' = e) as -> by (destruct expected; inv_ok; congruence). clear Ha.
  pose proof (verified_event _ _ Ev) as (He & Hv & _). apply event_of_members in He as (ms' & [= <-] & Hr & Hk & Hc & Htg & Hct).
  match goal with Hm : eventsMatch _ _ = true |- _ => unfold eventsMatch in Hm; rewrite Hk, Hc, Htg, Hct in Hm; rename Hm into Hm' end.
  apply andb_true_iff in Hm' as [[[Qk Qc]%andb_true_iff Qt%eqb_eq]%andb_true_iff Qg%eqb_eq].
  split; [|done]. split; [by rewrite Hr|done..|].
  apply tags_json_inj. apply stringify_inj; [|by apply plain_tags_json|done].
  apply plain_strings; [by eapply get_member_ok|by apply valid_tags].
Qed.
End Exact.

(** ** What is published resolves *)

(** Tags of strings, by name. *)
Definition named (name : string) (l : list (list jstr)) : list (list jstr) :=
  List.filter (λ tag, match tag with n :: _ => eqb n (lit name) | [] => false end) l.

Lemma filter_named name l : List.filter (tag_named (lit name)) (map (map JStr) l) = map (map JStr) (named name l).
Proof.
  induction l as [|tag l IH]; [done|]. cbn [map List.filter named]. fold (named name l). rewrite IH.
  destruct tag as [|n tag]; [done|]. cbn [map tag_named]. by destruct (eqb n (lit name)).
Qed.

Lemma uniqueTag_one l name n value maximum : named name l = [[n; value]] → zlen value <= maximum →
  uniqueTag (map (map JStr) l) name maximum = Ok value.
Proof. intros Hn Hl. unfold uniqueTag. rewrite filter_named, Hn. cbn [map]. by rewrite (proj2 (Z.leb_le _ _) Hl). Qed.

Lemma optional_one l name n value maximum : named name l = [[n; value]] → zlen value <= maximum →
  optionalUniqueTag (map (map JStr) l) name maximum = Ok (Some value).
Proof. intros Hn Hl. unfold optionalUniqueTag. rewrite (uniqueTag_one _ _ _ _ _ Hn Hl), filter_named, Hn. done. Qed.

Lemma optional_none l name maximum : named name l = [] → optionalUniqueTag (map (map JStr) l) name maximum = Ok None.
Proof. intros Hn. unfold optionalUniqueTag. by rewrite filter_named, Hn. Qed.

Definition text_length (tag : list jstr) : Z := foldr (λ s n, zlen s + n) 0 tag.

Lemma tag_length_strings tag : zlen tag <= 8 → tag_length (map JStr tag) = Some (text_length tag).
Proof.
  intros Hl. unfold tag_length. rewrite zlen_map, (proj2 (Z.ltb_ge 8 (zlen tag)) Hl). clear Hl.
  induction tag as [|s tag IH]; [done|]. cbn [map foldr string_length]. by rewrite IH.
Qed.

Lemma tag_lengths l : Forall (λ tag, zlen tag <= 8) l → mapM tag_length (map (map JStr) l) = Some (map text_length l).
Proof.
  intros Hl. apply mapM_Some. induction Hl as [|tag l Ht _ IH]; [constructor|]. cbn. constructor; [by apply tag_length_strings|done].
Qed.

(** Decide the comparisons of literal names. *)
Ltac tag_tests :=
  repeat match goal with
  | |- context [eqb (lit ?a) (lit ?b)] => let v := eval vm_compute in (eqb (lit a) (lit b)) in change (eqb (lit a) (lit b)) with v
  end; cbv iota.

Lemma is_hex_ascii c : is_hex c = true → 0 <= c < 128 ∧ is_upper c = false.
Proof. unfold is_hex, is_digit, is_upper, in_range. intros Hc. apply orb_true_iff in Hc as [Hc|Hc]; bool_prop; split; try lia; apply andb_false_iff; lia. Qed.

Section Published.
Context `{Unicode} `{!UnicodeLaws} `{Web} `{Numbers} `{NostrLaws}.

Lemma lower_hex n s : hex_string n s = true → toLowerCase s = s.
Proof.
  unfold hex_string. intros [_ Hs]%andb_true_iff. rewrite forallb_forall in Hs.
  assert (∀ c, c ∈ s → 0 <= c < 128 ∧ is_upper c = false) as Hc by (intros c Hc; by apply is_hex_ascii, Hs, list_elem_of_In).
  rewrite lower_ascii by (apply Forall_forall; intros c Hi; by apply Hc). unfold ascii_lower.
  clear Hs. induction s as [|c s IH]; [done|]. cbn. destruct (Hc c ltac:(left)) as [_ ->]. f_equal. apply IH. intros d Hd. apply Hc. by right.
Qed.

Lemma assertHex64_id s label : HEX_64 s = true → assertHex64 s label = Ok s.
Proof. intros Hs. unfold assertHex64, HEX_64 in *. by rewrite (lower_hex _ _ Hs), Hs. Qed.
Lemma assertHex40_id s label : HEX_40 s = true → assertHex40 s label = Ok s.
Proof. intros Hs. unfold assertHex40, HEX_40 in *. by rewrite (lower_hex _ _ Hs), Hs. Qed.

Lemma encrypted_lower type : encrypted_type type = true → encrypted_type (toLowerCase type) = true.
Proof.
  unfold encrypted_type. intros Ht. apply orb_true_iff in Ht as [->%eqb_eq| ->%eqb_eq];
    (rewrite lower_ascii; [vm_compute; reflexivity|apply asciib_ok; reflexivity]).
Qed.

(** A publication as the page makes one: an inspected file, a descriptor that
    was validated, a torrent whose magnet its own reader accepts. *)
Record publication_ok (profile : NetworkProfile) (p : HybridPublication) : Prop := {
  po_hash : HEX_64 (if_sha256 (hp_inspected p)) = true;
  po_url : normaliseBlossomUrl (bd_url (hp_descriptor p)) (Some (if_sha256 (hp_inspected p))) profile = Ok (bd_url (hp_descriptor p));
  po_url_length : zlen (bd_url (hp_descriptor p)) <= 8192;
  po_size : 0 < if_size (hp_inspected p) <= MAX_PROTOTYPE_TRANSFER_BYTES;
  po_type : valid_type (toLowerCase (if_type (hp_inspected p))) = true;
  po_name : sanitiseFileName (if_name (hp_inspected p)) = if_name (hp_inspected p);
  po_name_length : zlen (if_name (hp_inspected p)) <= 180;
  po_torrent : match hp_torrent p with
               | Some t => HEX_40 (tp_infoHash t) = true ∧ zlen (tp_magnetUri t) <= 16 * 1024 ∧
                   ∃ magnet, sanitiseMagnet (tp_magnetUri t) (tp_infoHash t) (if_size (hp_inspected p)) (if_name (hp_inspected p))
                     (bd_url (hp_descriptor p)) profile = Ok (magnet, tp_trackers t)
               | None => True
               end;
}.

Lemma size_text_length n : 0 < n <= MAX_PROTOTYPE_TRANSFER_BYTES → zlen (decimal n) <= 29.
Proof.
  intros Hn. unfold decimal. etransitivity; [apply decimal_length|].
  assert (Z.log2 n <= 28); [|pose proof (Z.log2_nonneg n); lia].
  etransitivity; [apply Z.log2_le_mono, Hn|]. vm_compute. discriminate.
Qed.

Lemma transfer_size_ok n : 0 < n <= MAX_PROTOTYPE_TRANSFER_BYTES →
  assertPrototypeTransferSize n = Ok tt ∧ safe_integer (string_number (decimal n)) = Some n.
Proof.
  intros Hn. assert (0 <= n <= max_safe_integer) as Hs.
  { assert (MAX_PROTOTYPE_TRANSFER_BYTES <= max_safe_integer) by (vm_compute; discriminate). lia. }
  rewrite string_number_decimal by done. cbn [safe_integer]. unfold assertPrototypeTransferSize, is_safe_integer.
  rewrite (proj2 (Z.leb_le (Z.abs n) _)) by lia. rewrite (proj2 (Z.leb_gt n 0)) by lia.
  rewrite (proj2 (Z.ltb_ge MAX_PROTOTYPE_TRANSFER_BYTES n)) by lia. done.
Qed.

Lemma valid_type_length t : valid_type t = true → zlen t <= 255.
Proof. unfold valid_type. intros Ht. bool_prop. lia. Qed.

(** The encryption a published event declares is read back. *)
Lemma resolve_encryption_published p e : content e = if_name (hp_inspected p) →
  (is_Some (hp_encryption p) → if_name (hp_inspected p) = WILDBLOOM_ENCRYPTED_FILE_NAME ∧ encrypted_type (if_type (hp_inspected p)) = true) →
  resolve_encryption e (toLowerCase (if_type (hp_inspected p))) (Some (if bool_decide (is_Some (hp_encryption p)) then encrypted_alt else lit "File: " ++ if_name (hp_inspected p)))
    (scheme_text <$> hp_encryption p) = Ok (hp_encryption p).
Proof.
  intros Hc He. destruct (hp_encryption p) as [sch|]; [|done]. destruct (He ltac:(done)) as [Hn Ht].
  rewrite bool_decide_true by done. unfold resolve_encryption. cbn [fmap option_fmap option_map].
  assert (eqb (content e) WILDBLOOM_ENCRYPTED_FILE_NAME = true) as -> by (rewrite Hc, Hn; apply eqb_eq; done).
  rewrite (encrypted_lower _ Ht). rewrite bool_decide_true by done. cbn [negb orb]. by destruct sch.
Qed.

Lemma buildFileEvent_ok p now t : buildFileEvent p now = Ok t →
  (is_Some (hp_encryption p) → if_name (hp_inspected p) = WILDBLOOM_ENCRYPTED_FILE_NAME ∧ encrypted_type (if_type (hp_inspected p)) = true).
Proof.
  unfold buildFileEvent. intros Hb He. inv_ok. rewrite bool_decide_true in * by done. bool_prop.
  match goal with Hc : (_ && _) = false |- _ => cbn [andb] in Hc; apply orb_false_iff in Hc as [A%negb_false_iff%eqb_eq B%negb_false_iff]; done end.
Qed.

Lemma bounds_ok e l : tags e = map (map JStr) l → zlen (content e) <= 4096 → zlen l <= 64 → Forall (λ tag, zlen tag <= 8) l →
  foldr Z.add 0 (map text_length l) <= 64 * 1024 → validateEventBounds e = Ok tt.
Proof.
  intros Ht Hc Hl Hs Hb. unfold validateEventBounds. rewrite Ht, tag_lengths, zlen_map by done.
  rewrite (proj2 (Z.ltb_ge 4096 _)), (proj2 (Z.ltb_ge 64 _)), (proj2 (Z.ltb_ge (64 * 1024) _)) by lia. done.
Qed.

(** Lengths of literals. *)
Ltac lit_lengths :=
  repeat match goal with
  | |- context [zlen (lit ?a)] => let v := eval vm_compute in (zlen (lit a)) in change (zlen (lit a)) with v
  end.
Ltac tag_found := unfold named; cbn [List.filter]; tag_tests; reflexivity.

(** C17: an event published for a file resolves, when the publication is within
    what a reader accepts ([publication_ok]): its hash is 64 hexadecimal digits,
    its address is the normalised address of that hash under the profile and at
    most 8,192 characters long, its size is positive and within the limit of a
    transfer, its type is a valid one, its name is as [sanitiseFileName] leaves it
    and at most 180 characters long, and its torrent, where there is one, has a
    40-digit info hash and a magnet link of at most 16 KiB that [sanitiseMagnet]
    accepts with those trackers. The code that makes the torrent does not keep to
    the last bound, so that not every publication it makes resolves. For such a
    publication and a template of well-formed strings, whatever well-formed value a
    signer returns that passes the check against the reviewed template, the reader
    accepts it under the same network profile and finds the address, hash, size,
    type, name, encryption, info hash and trackers that were published. *)
Theorem published_event_resolves profile p now t v expected e :
  publication_ok profile p → buildFileEvent p now = Ok t → template_ok t → json_ok v →
  assertSignedEventExactly t (Some v) expected = Ok e →
  ∃ r, resolveHybridEvent v profile = Ok r ∧ rh_event r = e ∧
    rh_url r = bd_url (hp_descriptor p) ∧ rh_sha256 r = if_sha256 (hp_inspected p) ∧ rh_size r = if_size (hp_inspected p) ∧
    rh_mimeType r = toLowerCase (if_type (hp_inspected p)) ∧ rh_name r = if_name (hp_inspected p) ∧
    rh_encryption r = hp_encryption p ∧ snd <$> rh_magnet r = tp_infoHash <$> hp_torrent p ∧
    rh_trackers r = match hp_torrent p with Some plan => tp_trackers plan | None => [] end.
Proof.
  intros Hp Hb Ht Hv Ha. destruct (signed_is_template _ _ _ _ Hv Ht Ha) as [[Sv Sk _ Sc St] Hr]. rewrite Hr in Sv.
  pose proof (buildFileEvent_ok _ _ _ Hb) as Henc. unfold buildFileEvent in Hb. inv_ok. cbn [t_kind t_content t_tags] in *.
  pose proof (resolve_encryption_published p e Sc Henc) as Hre.
  destruct Hp as [P1 P2 P3 P4 P5 P6 P7 P8]. destruct (transfer_size_ok _ P4) as [Hts Hsz]. pose proof (size_text_length _ P4) as Hdl.
  pose proof (valid_type_length _ P5) as Htl. assert (zlen (if_sha256 (hp_inspected p)) = 64) as Hhl.
  { unfold HEX_64, hex_string in P1. bool_prop. lia. }
  set (alt := if bool_decide (is_Some (hp_encryption p)) then encrypted_alt else lit "File: " ++ if_name (hp_inspected p)) in *.
  assert (zlen alt <= 186) as Hal.
  { unfold alt. case_bool_decide; [vm_compute; discriminate|]. rewrite zlen_app. change (zlen (lit "File: ")) with 6. lia. }
  unfold resolveHybridEvent. rewrite Sv, Sk. cbn [guard rbind].
  assert (∀ sch, zlen (scheme_text sch) <= 33) as Hsl by (intros []; vm_compute; discriminate).
  assert (∀ plan, hp_torrent p = Some plan → zlen (tp_infoHash plan) = 40 ∧ zlen (tp_magnetUri plan) <= 16 * 1024) as Hil.
  { intros plan E. rewrite E in P8. destruct P8 as (Q & ? & _). split; [|done]. unfold HEX_40, hex_string in Q. bool_prop. lia. }
  destruct (hp_torrent p) as [plan|] eqn:Etp; destruct (hp_encryption p) as [sch|] eqn:Esch; cbn [app] in St.
  all: try specialize (Hsl sch).
  all: try (destruct (Hil plan eq_refl) as [Hil1 Hil2]).
  all: rewrite (bounds_ok e _ St); [|rewrite Sc; lia|vm_compute; discriminate|repeat (constructor; [vm_compute; discriminate|]); constructor|
    cbn [map foldr text_length]; lit_lengths; lia].
  all: rewrite St; cbn [rbind].
  all: erewrite (uniqueTag_one _ "x") by (first [tag_found | lia]).
  all: erewrite (uniqueTag_one _ "ox") by (first [tag_found | lia]).
  all: erewrite (uniqueTag_one _ "url") by (first [tag_found | lia]).
  all: erewrite (uniqueTag_one _ "m") by (first [tag_found | lia]).
  all: erewrite (uniqueTag_one _ "size") by (first [tag_found | lia]).
  all: erewrite (optional_one _ "alt") by (first [tag_found | lia]).
  all: first [erewrite (optional_one _ "encryption") by (first [tag_found | lia])|rewrite (optional_none _ "encryption") by tag_found].
  all: first [erewrite (optional_one _ "i") by (first [tag_found | lia])|rewrite (optional_none _ "i") by tag_found].
  all: first [erewrite (optional_one _ "magnet") by (first [tag_found | lia])|rewrite (optional_none _ "magnet") by tag_found].
  all: cbn [rbind]; rewrite !(assertHex64_id _ _ P1); cbn [rbind].
  all: rewrite (proj2 (eqb_eq (if_sha256 (hp_inspected p)) _) eq_refl); cbn [guard rbind]; rewrite P2; cbn [rbind].
  all: rewrite lower_idem, P5; cbn [guard rbind]; rewrite Hsz, (proj2 (Z.ltb_lt 0 _) (proj1 P4)); cbn [guard rbind]; rewrite Hts; cbn [rbind].
  all: cbn [fmap option_fmap option_map] in Hre; rewrite Hre; cbn [rbind]; rewrite Sc, P6.
  1,2: destruct P8 as (Q1 & Q2 & magnet & Q3); rewrite (assertHex40_id _ _ Q1); cbn [rbind]; rewrite Q3; cbn [rbind fst snd].
  all: eexists; split; [reflexivity|]; cbn; done.
Qed.
End Published.

(** ** An example *)

Definition example_hash : jstr := lit "2cf24dba5fb0a30e26e83b2ac5b9e29e1b161e5c1fa7425e73043362938b9824".
Definition example_key : jstr := lit "79be667ef9dcbbac55a06295ce870b07029bfcdb2dce28d959f2815b16f81798".
Definition example_blob_url : jstr := lit "https://example.com/" ++ example_hash.

(** A platform whose parser knows one server and one object on it. *)
Definition blob_web : Web := {|
  newURL s :=
    if eqb s example_blob_url then
      Some (mkURL (lit "https:") (lit "example.com") [] [] (47 :: example_hash) [] [] (lit "https://example.com") example_blob_url [])
    else if eqb s (lit "https://example.com") || eqb s (lit "https://example.com/") then
      Some (mkURL (lit "https:") (lit "example.com") [] [] (lit "/") [] [] (lit "https://example.com") (lit "https://example.com/") [])
    else None;
  searchParams _ := [];
  sha3_256 _ := [];
|}.

Definition no_fractions : Numbers := {| number_text _ := [] |}.

(** Tools that accept every event whose tags are strings. *)
Definition is_string (v : json) : bool := match v with JStr _ => true | _ => false end.
Definition trusting_tools : NostrTools := {|
  validateEvent e := forallb (forallb is_string) (tags e); verifyEvent _ := true |}.

Lemma trusting_laws : @NostrLaws trusting_tools.
Proof.
  split. intros e He. cbn in He. eapply Forall_forallb, He. intros tag Ht. eapply Forall_forallb, Ht. intros [] Hv; try discriminate Hv. by eexists.
Qed.

Definition example_publication : HybridPublication :=
  mkPublication (mkInspected (lit "hello") (lit "hello.txt") (lit "txt") example_hash 5 (lit "text/plain"))
    (mkDescriptor example_blob_url example_hash 5 (lit "text/plain") 1700000000) None None.

Definition example_template : EventTemplate :=
  mkTemplate FILE_KIND 1700000000
    [[lit "url"; example_blob_url]; [lit "m"; lit "text/plain"]; [lit "x"; example_hash]; [lit "ox"; example_hash];
     [lit "size"; lit "5"]; [lit "alt"; lit "File: hello.txt"]] (lit "hello.txt").

(** The object a signer returns for a template. *)
Definition signed_value (t : EventTemplate) (key : jstr) : json :=
  JObj [(lit "id", JStr (lit "00")); (lit "pubkey", JStr key); (lit "created_at", JNum (Int (t_created_at t)));
        (lit "kind", JNum (Int (t_kind t))); (lit "tags", tags_json (t_tags t)); (lit "content", JStr (t_content t)); (lit "sig", JStr (lit "00"))].

Lemma asciib_jstr_ok s : forallb (in_range 0 127) s = true → jstr_ok s.
Proof. intros Hs. by apply ascii_jstr_ok, asciib_ok. Qed.

Lemma forallb_ascii_ok l : forallb (forallb (forallb (in_range 0 127))) l = true → Forall (Forall jstr_ok) l.
Proof.
  intros Hl. eapply Forall_forallb, Hl. intros tag Ht. eapply Forall_forallb, Ht. intros s. apply asciib_jstr_ok.
Qed.

Lemma json_ok_tags l : Forall (Forall jstr_ok) l → json_ok (tags_json l).
Proof.
  intros Hl. constructor. apply Forall_fmap. rewrite Forall_forall in *. intros tag Ht. cbn. constructor. apply Forall_fmap.
  specialize (Hl tag Ht). rewrite Forall_forall in *. intros s Hs. constructor. by apply Hl.
Qed.

Lemma signed_value_ok t key : template_ok t → jstr_ok (t_content t) → jstr_ok key → json_ok (signed_value t key).
Proof.
  intros Ht Hc Hk. constructor.
  - apply (bool_decide_eq_true_1 (NoDup _)). vm_compute. reflexivity.
  - repeat (constructor; [by apply asciib_jstr_ok|]). constructor.
  - repeat (apply Forall_cons_2; [first [by apply json_ok_tags|constructor; first [done|by apply asciib_jstr_ok]|constructor]|]). constructor.
Qed.

#[local] Existing Instances ascii_unicode ascii_unicode_laws blob_web no_fractions trusting_tools trusting_laws.

Lemma example_publication_ok : publication_ok direct example_publication.
Proof. split; try (vm_compute; reflexivity); try (vm_compute; discriminate); try exact I. vm_compute. split; [reflexivity|discriminate]. Qed.

Lemma example_template_ok : template_ok example_template.
Proof. apply forallb_ascii_ok. vm_compute. reflexivity. Qed.

Lemma example_signed_ok : json_ok (signed_value example_template example_key).
Proof. apply signed_value_ok; [exact example_template_ok|by apply asciib_jstr_ok..]. Qed.

Definition example_event : SignedNostrEvent :=
  mkEvent (Int FILE_KIND) (Int 1700000000) (map (map JStr) (t_tags example_template)) (lit "hello.txt") (lit "00") example_key (lit "00")
    (signed_value example_template example_key).

Lemma published_event_resolves_witness :
  buildFileEvent example_publication 1700000000 = Ok example_template ∧
  ∃ r, resolveHybridEvent (signed_value example_template example_key) direct = Ok r ∧ rh_size r = 5.
Proof.
  assert (buildFileEvent example_publication 1700000000 = Ok example_template) as Hb by (vm_compute; reflexivity).
  split; [exact Hb|].
  assert (assertSignedEventExactly example_template (Some (signed_value example_template example_key)) (Some example_key) = Ok example_event)
    as Ha by (vm_compute; reflexivity).
  destruct (published_event_resolves direct example_publication 1700000000 example_template (signed_value example_template example_key)
    (Some example_key) example_event example_publication_ok Hb example_template_ok example_signed_ok Ha) as (r & Hr & _ & _ & _ & Hs & _).
  exists r. split; [exact Hr|exact Hs].
Defined.
