(* ===== verification/Torrent.v ===== *)
(** * Torrent metadata and the magnet link ([core/torrent.ts])

    [create-torrent] makes the metadata and [parse-torrent] reads it back; what
    the code does is review the result against what was asked for, and write the
    magnet link. *)

From S2P Require Import Prelude JsString Utf8 Bytes Json JsValue Security Nostr.
From S2P Require NostrFacts.

(** ** The two libraries *)

Record TorrentOptions := mkTorrentOptions {
  to_name : jstr; to_announceList : list (list jstr); to_urlList : list jstr; to_createdBy : jstr; to_private : bool }.

(** The fields of a parsed torrent the code reads; its files by their lengths. *)
Record ParsedTorrent := mkParsedTorrent {
  pt_infoHash : jstr; pt_length : Z; pt_name : jstr; pt_files : option (list Z); pt_urlList : option (list jstr);
  pt_announce : list jstr }.

Class TorrentLibrary := {
  createTorrent : bytes → TorrentOptions → res bytes;
  parseTorrent : bytes → res ParsedTorrent;
}.

(** ** The code *)

Record HybridTorrent := mkHybridTorrent { ht_bytes : bytes; ht_plan : TorrentPlan; ht_name : jstr; ht_webSeed : jstr }.

(** [JSON.stringify] of a list of strings. *)
Definition string_list_json (l : list jstr) : jstr := 91 :: join [44] (map quote l) ++ [93].

(** [value?.length === 1 && value[0] === expected], or the size of a file. *)
Definition only {A} `{EqDecision A} (l : option (list A)) (expected : A) : bool := bool_decide (l = Some [expected]).

Definition makeMagnet (infoHash name : jstr) (size : Z) (trackers : list jstr) (webSeed : jstr) : res jstr :=
  let! dn := encodeURIComponent name in
  let! trs := rmap encodeURIComponent trackers in
  let! ws := encodeURIComponent webSeed in
  let parameters := [lit "xt=urn:btih:" ++ infoHash; lit "dn=" ++ dn; lit "xl=" ++ decimal size]
                    ++ map (λ t, lit "tr=" ++ t) trs ++ [lit "ws=" ++ ws] in
  Ok (lit "magnet:?" ++ join [38] parameters).

Section Code.
Context `{Unicode} `{Web} `{TorrentLibrary}.

Definition createHybridTorrent (inspected : InspectedFile) (blossomUrlInput : jstr) (trackerInputs : list jstr) : res HybridTorrent :=
  let! webSeed := normaliseBlossomUrl blossomUrlInput (Some (if_sha256 inspected)) direct in
  check zlen trackerInputs <=? MAX_NETWORK_ENDPOINTS else "At most 8 trackers may be used.";
  let! normalised := rmap (λ t, normaliseTrackerUrl t direct) trackerInputs in
  let trackers := uniq normalised in
  check negb (zlen trackers =? 0) else "At least one WebSocket tracker is required for browser peers to meet.";
  let! torrentBytes := createTorrent (if_file inspected)
    (mkTorrentOptions (if_name inspected) (map (λ t, [t]) trackers) [webSeed] (lit "Wildbloom 0.0.1") false) in
  let! parsed := parseTorrent torrentBytes in
  let! infoHash := assertHex40 (pt_infoHash parsed) "Generated torrent info hash" in
  check (pt_length parsed =? if_size inspected) && eqb (pt_name parsed) (if_name inspected)
    else "Generated torrent metadata does not describe the selected file.";
  check only (pt_files parsed) (if_size inspected) else "Generated torrent metadata is not a one-file torrent.";
  check only (pt_urlList parsed) webSeed else "Generated torrent metadata changed the reviewed Blossom web seed.";
  let! announced := rmap (λ t, normaliseTrackerUrl t direct) (pt_announce parsed) in
  check eqb (string_list_json (uniq announced)) (string_list_json trackers)
    else "Generated torrent metadata changed the reviewed trackers.";
  let! magnetUri := makeMagnet infoHash (if_name inspected) (if_size inspected) trackers webSeed in
  Ok (mkHybridTorrent torrentBytes (mkTorrent infoHash magnetUri trackers) (if_name inspected) webSeed).
End Code.

(** ** The plan that comes out *)

(** Documented behaviour of [URL]: a serialised URL parses to itself and has no
    white space around it. *)
Class UrlLaws `{Web} : Prop := {
  href_again s u : newURL s = Some u → newURL (href u) = Some u;
  href_trimmed s u : newURL s = Some u → trim (href u) = href u;
}.

Section Facts.
Context `{UnicodeLaws} `{UrlLaws} `{TorrentLibrary}.

(** Normalising a normalised endpoint changes nothing. *)
Lemma tracker_again t u : normaliseTrackerUrl t direct = Ok u → normaliseTrackerUrl u direct = Ok u.
Proof.
  unfold normaliseTrackerUrl. intros Hn. inv_ok. unfold parseURL in *. destruct (newURL (trim t)) as [url|] eqn:Eu; [|done]. inv_ok.
  rewrite (href_trimmed _ _ Eu), (href_again _ _ Eu). cbn [rbind]. 
  repeat match goal with Hx : _ = Ok _ |- _ => rewrite Hx; clear Hx; cbn [rbind] | Hx : negb _ = true |- _ => rewrite Hx; clear Hx end.
  done.
Qed.

Lemma seed_again v h u : normaliseBlossomUrl v h direct = Ok u → normaliseBlossomUrl u None direct = Ok u.
Proof.
  unfold normaliseBlossomUrl. intros Hn. inv_ok. unfold parseURL in *. destruct (newURL (trim v)) as [url|] eqn:Eu; [|done]. inv_ok.
  rewrite (href_trimmed _ _ Eu), (href_again _ _ Eu). cbn [rbind].
  repeat match goal with Hx : requireSecureTransport _ _ _ _ = Ok _ |- _ => rewrite Hx; clear Hx; cbn [rbind]
    | Hx : rejectCredentials _ = Ok _ |- _ => rewrite Hx; clear Hx; cbn [rbind]
    | Hx : negb _ = true |- _ => rewrite Hx; clear Hx end.
  done.
Qed.

Lemma rmap_trackers_again ins ts : rmap (λ t, normaliseTrackerUrl t direct) ins = Ok ts →
  ∀ t, t ∈ ts → normaliseTrackerUrl t direct = Ok t.
Proof.
  intros Hm t Ht. apply rmap_ok_Forall2 in Hm. apply list_elem_of_lookup in Ht as [i Hi].
  destruct (Forall2_lookup_r _ _ _ _ _ Hm Hi) as (s & _ & Hs). by eapply tracker_again.
Qed.

Lemma rmap_fixed {A} (f : A → res A) l : (∀ x, x ∈ l → f x = Ok x) → rmap f l = Ok l.
Proof.
  induction l as [|x l IH]; intros Hf; [done|]. cbn [rmap]. rewrite (Hf x) by by left. cbn [rbind]. rewrite IH; [done|].
  intros y Hy. apply Hf. by right.
Qed.

Lemma zlen_uniq {A} `{EqDecision A} (l : list A) : zlen (uniq l) <= zlen l.
Proof.
  unfold uniq, zlen. pose proof (length_uniq_from [] l). lia.
Qed.

(** What the platform reads of the magnet link's query: its names and values. *)
Definition magnet_pairs (inspected : InspectedFile) (t : HybridTorrent) : list (jstr * jstr) :=
  [(lit "xt", lit "urn:btih:" ++ tp_infoHash (ht_plan t)); (lit "dn", if_name inspected); (lit "xl", decimal (if_size inspected))]
  ++ map (pair (lit "tr")) (tp_trackers (ht_plan t)) ++ [(lit "ws", ht_webSeed t)].

Lemma lower_urn h : HEX_40 h = true → toLowerCase (lit "urn:btih:" ++ h) = lit "urn:btih:" ++ h.
Proof.
  unfold HEX_40, hex_string. intros [_ Hs]%andb_true_iff. rewrite forallb_forall in Hs.
  assert (∀ c, c ∈ lit "urn:btih:" ++ h → 0 <= c < 128 ∧ is_upper c = false) as Hc.
  { intros c [Hc|Hc]%elem_of_app; [|by apply NostrFacts.is_hex_ascii, Hs, list_elem_of_In].
    assert (forallb (λ c, in_range 0 127 c && negb (is_upper c)) (lit "urn:btih:") = true) as Ha by done.
    rewrite forallb_forall in Ha. specialize (Ha c (proj1 (list_elem_of_In _ _) Hc)). cbn in Ha. bool_prop.
    match goal with Hr : in_range _ _ _ = true |- _ => apply in_range_spec in Hr end. split; [lia|done]. }
  rewrite lower_ascii by (apply Forall_forall; intros c Hi; by apply Hc). unfold ascii_lower.
  clear Hs. revert Hc. generalize (lit "urn:btih:" ++ h) as l. intros l Hc. induction l as [|c l IH]; [done|].
  cbn [map]. destruct (Hc c ltac:(left)) as [_ ->]. f_equal. apply IH. intros d Hd. apply Hc. by right.
Qed.

Lemma filter_pairs n k (l : list jstr) :
  List.filter (λ p : jstr * jstr, eqb p.1 (lit n)) (map (pair k) l) = if eqb k (lit n) then map (pair k) l else [].
Proof. induction l as [|x l IH]; cbn [map List.filter fst]; [by destruct (eqb _ _)|]. rewrite IH. by destruct (eqb k (lit n)). Qed.

(** The values of each name the link's reader asks for. *)
Lemma magnet_values magnet inspected t : searchParams (search magnet) = magnet_pairs inspected t →
  getAll magnet "xt" = [lit "urn:btih:" ++ tp_infoHash (ht_plan t)] ∧ getAll magnet "dn" = [if_name inspected] ∧
  getAll magnet "xl" = [decimal (if_size inspected)] ∧ getAll magnet "tr" = tp_trackers (ht_plan t) ∧ getAll magnet "ws" = [ht_webSeed t].
Proof.
  intros E. unfold getAll. rewrite E. unfold magnet_pairs. rewrite !List.filter_app, !filter_pairs.
  cbn [List.filter fst].
  repeat match goal with |- context [eqb (lit ?a) (lit ?b)] =>
    let v := eval vm_compute in (eqb (lit a) (lit b)) in change (eqb (lit a) (lit b)) with v end.
  cbn [app map snd]. rewrite app_nil_r, map_map. cbn [snd]. by rewrite map_id.
Qed.

Lemma created_plan inspected input ins t : createHybridTorrent inspected input ins = Ok t →
  ∃ normalised, normaliseBlossomUrl input (Some (if_sha256 inspected)) direct = Ok (ht_webSeed t) ∧
    rmap (λ u, normaliseTrackerUrl u direct) ins = Ok normalised ∧ tp_trackers (ht_plan t) = uniq normalised ∧
    zlen ins <= MAX_NETWORK_ENDPOINTS ∧ zlen (uniq normalised) ≠ 0 ∧ HEX_40 (tp_infoHash (ht_plan t)) = true ∧
    makeMagnet (tp_infoHash (ht_plan t)) (if_name inspected) (if_size inspected) (tp_trackers (ht_plan t)) (ht_webSeed t) = Ok (tp_magnetUri (ht_plan t)).
Proof.
  unfold createHybridTorrent. intros Hc. inv_ok. bool_prop. cbn [ht_plan ht_webSeed tp_trackers tp_infoHash tp_magnetUri].
  eexists. split_and!; try eassumption; try done. unfold assertHex40 in *. by inv_ok.
Qed.

(** The link of a torrent the page makes resolves to itself: for any torrent
    metadata that passes the review, reading the magnet link back as the platform
    reads a query gives the same link, the same trackers and the reviewed web
    seed; the info hash is forty hexadecimal digits, the trackers are one to
    eight different ones, and the web seed names the file by its SHA-256. *)
Theorem created_magnet_resolves inspected input ins t magnet :
  createHybridTorrent inspected input ins = Ok t →
  sanitiseFileName (if_name inspected) = if_name inspected →
  newURL (tp_magnetUri (ht_plan t)) = Some magnet → protocol magnet = lit "magnet:" →
  searchParams (search magnet) = magnet_pairs inspected t → zlen (tp_magnetUri (ht_plan t)) <= 16 * 1024 →
  sanitiseMagnet (tp_magnetUri (ht_plan t)) (tp_infoHash (ht_plan t)) (if_size inspected) (if_name inspected) (ht_webSeed t) direct
    = Ok (tp_magnetUri (ht_plan t), tp_trackers (ht_plan t)) ∧
  HEX_40 (tp_infoHash (ht_plan t)) = true ∧ NoDup (tp_trackers (ht_plan t)) ∧ 1 <= zlen (tp_trackers (ht_plan t)) <= 8 ∧
  normaliseBlossomUrl input (Some (if_sha256 inspected)) direct = Ok (ht_webSeed t).
Proof.
  intros Hc Hname Hurl Hp Hq Hz. destruct (created_plan _ _ _ _ Hc) as (normalised & Hseed & Hm & Et & Hin & Hne & Hhex & Hmag).
  destruct (magnet_values _ _ _ Hq) as (Vxt & Vdn & Vxl & Vtr & Vws). unfold MAX_NETWORK_ENDPOINTS in Hin.
  assert (zlen (uniq normalised) <= 8) as Hle.
  { pose proof (zlen_uniq normalised). pose proof (rmap_ok_length _ _ _ Hm). unfold zlen in *. lia. }
  pose proof (zlen_nonneg (uniq normalised)). pose proof (NoDup_uniq_from [] normalised) as Hd. fold (uniq normalised) in Hd.
  split_and!; [|done|by rewrite Et|rewrite Et; lia..|done].
  assert (toLowerCase (lit "urn:btih:" ++ tp_infoHash (ht_plan t)) = lit "urn:btih:" ++ tp_infoHash (ht_plan t)) as Hlow by by apply lower_urn.
  assert (rmap (λ u, normaliseTrackerUrl u direct) (tp_trackers (ht_plan t)) = Ok (tp_trackers (ht_plan t))) as Hagain.
  { apply rmap_fixed. intros u Hu. rewrite Et, elem_of_uniq in Hu. by eapply rmap_trackers_again. }
  unfold sanitiseMagnet. rewrite (bool_decide_eq_false_2 (direct = tor)) by done. rewrite (proj2 (Z.leb_le _ _) Hz), Hurl, Hp.
  rewrite Vxt, Vdn, Vxl, Vtr, Vws, Hlow, Hagain, Hname, (seed_again _ _ _ Hseed). rewrite !(proj2 (eqb_eq _ _)) by done.
  cbn [negb rbind guard]. rewrite (uniq_id (tp_trackers (ht_plan t))) by (by rewrite Et).
  rewrite Et, (proj2 (Z.eqb_neq _ _) Hne), (proj2 (Z.ltb_ge _ _) Hle). cbn [negb orb guard rbind]. rewrite <- Et.
  unfold makeMagnet in Hmag. inv_ok.
  repeat match goal with Hx : encodeURIComponent _ = Ok _ |- _ => rewrite Hx; clear Hx; cbn [rbind]
    | Hx : rmap encodeURIComponent _ = Ok _ |- _ => rewrite Hx; clear Hx; cbn [rbind] end.
  rewrite (proj2 (eqb_eq (ht_webSeed t) _) eq_refl). cbn [rbind guard]. by rewrite Hmag.
Qed.
End Facts.

(** ** A torrent of one file *)

Definition example_hash : jstr := replicate 64 97.
Definition example_seed : jstr := lit "https://b.example/" ++ example_hash.
Definition example_tracker : jstr := lit "wss://t.example/".
Definition example_inspected : InspectedFile := mkInspected [1; 2; 3] (lit "a.txt") (lit "txt") example_hash 3 (lit "text/plain").

(** The platform reads three addresses, each of them already serialised. *)
Definition example_magnet : jstr :=
  lit "magnet:?xt=urn:btih:" ++ replicate 40 97 ++ lit "&dn=a.txt&xl=3&tr=wss%3A%2F%2Ft.example%2F&ws=https%3A%2F%2Fb.example%2F" ++ example_hash.
Definition plain_url (protocol host path text query : jstr) : URL := mkURL protocol host [] [] path query [] (protocol ++ lit "//" ++ host) text [].

Definition torrent_urls : list URL :=
  [plain_url (lit "https:") (lit "b.example") (47 :: example_hash) example_seed [];
   plain_url (lit "wss:") (lit "t.example") [47] example_tracker [];
   plain_url (lit "magnet:") [] [] example_magnet (lit "?")].

Definition torrent_web : Web := {|
  newURL s := List.find (λ u, eqb (href u) s) torrent_urls;
  searchParams q := if eqb q (lit "?") then
      [(lit "xt", lit "urn:btih:" ++ replicate 40 97); (lit "dn", lit "a.txt"); (lit "xl", lit "3"); (lit "tr", example_tracker); (lit "ws", example_seed)]
    else [];
  sha3_256 _ := [];
|}.

Lemma torrent_web_laws : @UrlLaws torrent_web.
Proof.
  split; intros s u Hu; cbn [newURL torrent_web] in *; apply List.find_some in Hu as [Hin _];
    destruct Hin as [<-|[<-|[<-|[]]]]; vm_compute; reflexivity.
Qed.

Definition example_library : TorrentLibrary := {|
  createTorrent file options := Ok file;
  parseTorrent torrent := Ok (mkParsedTorrent (replicate 40 97) (zlen torrent) (lit "a.txt") (Some [zlen torrent]) (Some [example_seed]) [example_tracker]);
|}.

Lemma created_magnet_resolves_witness : ∃ t,
  @createHybridTorrent ascii_unicode torrent_web example_library example_inspected example_seed [example_tracker] = Ok t ∧
  @sanitiseMagnet ascii_unicode torrent_web (tp_magnetUri (ht_plan t)) (tp_infoHash (ht_plan t)) 3 (lit "a.txt") (ht_webSeed t) direct
    = Ok (tp_magnetUri (ht_plan t), tp_trackers (ht_plan t)).
Proof.
  eexists.
  match goal with |- ?c = Ok ?t ∧ _ => assert (c = Ok (mkHybridTorrent [1; 2; 3] (mkTorrent (replicate 40 97) example_magnet [example_tracker]) (lit "a.txt") example_seed))
    as Hc by (vm_compute; reflexivity) end.
  split; [exact Hc|].
  refine (proj1 (@created_magnet_resolves ascii_unicode ascii_unicode_laws torrent_web torrent_web_laws example_library
    example_inspected example_seed [example_tracker] _ (plain_url (lit "magnet:") [] [] example_magnet (lit "?")) Hc _ _ _ _ _));
    vm_compute; first [reflexivity|discriminate].
Defined.
