(* ===== verification/PageStorage.v ===== *)
(** * What the swarm keeps, and what it may not ([core/swarm.ts])

    The store that keeps a torrent's pieces in page memory, the guard that keeps
    the torrent library away from the origin's storage while it loads, and the
    loader that imports it once. *)

From S2P Require Import Prelude JsString.

(** ** [PageMemoryChunkStore] *)

(** [chunks] is [None] once the store is closed. The quotient of two lengths is
    exact for the sizes a torrent has here, well under 2^53. *)
Record ChunkStore := mkStore {
  chunkLength : Z; lastChunkIndex : Z; lastChunkLength : Z; chunks : option (gmap Z (list Z)) }.

#[export] Instance ChunkStore_eta : Eta ChunkStore := λ s,
  mkStore (chunkLength s) (lastChunkIndex s) (lastChunkLength s) (chunks s).

(** A length that is not a number is [None]. *)
Definition positive_length (n : option Z) (msg : string) : res Z :=
  match n with
  | Some n => check is_safe_integer n && (0 <? n) else msg; Ok n
  | None => Throw msg
  end.

Definition PageMemoryChunkStore (chunkLength length_ : option Z) : res ChunkStore :=
  let! c := positive_length chunkLength "A WebTorrent chunk length is required." in
  let! n := positive_length length_ "A WebTorrent store length is required." in
  Ok (mkStore c (ceil_div n c - 1) (if n mod c =? 0 then c else n mod c) (Some ∅)).

Definition expected_length (s : ChunkStore) (index : Z) : Z :=
  if index =? lastChunkIndex s then lastChunkLength s else chunkLength s.

(** [put]; the error its callback gets. *)
Definition store_put (index : Z) (chunk : list Z) (s : ChunkStore) : ChunkStore * option string :=
  match chunks s with
  | None => (s, Some "Storage is closed")
  | Some m =>
      if negb (is_safe_integer index) || (index <? 0) || (lastChunkIndex s <? index) || negb (zlen chunk =? expected_length s index)
      then (s, Some "Unexpected WebTorrent chunk.")
      else (s <| chunks := Some (<[index := chunk]> m) |>, None)
  end.

(** [chunk.subarray(begin, end)]: negative positions count from the end. *)
Definition clamp (n total : Z) : Z := if n <? 0 then Z.max 0 (total + n) else Z.min n total.
Definition subarray (begin_ end_ : Z) (l : list Z) : list Z := slice (clamp begin_ (zlen l)) (clamp end_ (zlen l)) l.

(** [get]: the chunk, or the error with its [notFound]. *)
Definition store_get (index : Z) (offset length_ : option Z) (s : ChunkStore) : (string * bool) + list Z :=
  match chunks s with
  | None => inl ("Storage is closed"%string, false)
  | Some m =>
      match m !! index with
      | None => inl ("Chunk not found"%string, true)
      | Some chunk =>
          let offset := default 0 offset in
          let length_ := default (zlen chunk - offset) length_ in
          inr (if (offset =? 0) && (length_ =? zlen chunk) then chunk else subarray offset (offset + length_) chunk)
      end
  end.

(** [close] and [destroy]. *)
Definition store_close (s : ChunkStore) : ChunkStore := s <| chunks := None |>.

Inductive store_call : Type := Put (index : Z) (chunk : list Z) | Close.

Definition store_step (s : ChunkStore) (c : store_call) : ChunkStore :=
  match c with Put index chunk => (store_put index chunk s).1 | Close => store_close s end.

Definition store_run (s : ChunkStore) (calls : list store_call) : ChunkStore := foldl store_step s calls.

(** Only pieces of the torrent, each of its own length. *)
Record store_inv (total : Z) (s : ChunkStore) : Prop := {
  st_chunk : 0 < chunkLength s;
  st_last : 0 < lastChunkLength s <= chunkLength s;
  st_total : lastChunkIndex s * chunkLength s + lastChunkLength s = total;
  st_count : 0 <= lastChunkIndex s;
  st_pieces : ∀ m i c, chunks s = Some m → m !! i = Some c → 0 <= i <= lastChunkIndex s ∧ zlen c = expected_length s i;
}.

Lemma new_store_inv c n s : PageMemoryChunkStore c n = Ok s → ∃ total, n = Some total ∧ store_inv total s ∧ chunks s = Some ∅.
Proof.
  unfold PageMemoryChunkStore, positive_length. intros Hs. destruct c as [c|], n as [n|]; inv_ok. bool_prop.
  assert (0 < c ∧ 0 < n) as [Hc Hn].
  { repeat match goal with Hx : is_safe_integer _ && (0 <? _) = true |- _ => apply andb_true_iff in Hx as [_ Hx%Z.ltb_lt] end. lia. }
  exists n. split; [done|]. split; [|done]. pose proof (Z.div_mod n c ltac:(lia)) as Hd. pose proof (Z.mod_pos_bound n c Hc) as Hm.
  assert (0 <= n / c) as Hq by (apply Z.div_pos; lia). revert Hd Hm Hq. generalize (n / c) as q. generalize (n mod c) as r. intros r q Hd Hm Hq.
  destruct (Z.eqb_spec r 0) as [E|E].
  - assert (ceil_div n c = q) as -> by (apply ceil_div_unique; nia). assert (0 < q) by nia.
    split; cbn; [lia..|nia|lia|]. intros m i x [= <-]. by rewrite lookup_empty.
  - assert (ceil_div n c = q + 1) as -> by (apply ceil_div_unique; nia).
    split; cbn; [lia..|nia|lia|]. intros m i x [= <-]. by rewrite lookup_empty.
Qed.

Lemma store_step_inv total s call : store_inv total s → store_inv total (store_step s call).
Proof.
  intros Hi. destruct call as [index chunk|]; cbn [store_step]; [|by destruct Hi; split].
  unfold store_put. destruct (chunks s) as [m|] eqn:Em; [|done].
  destruct (_ || _ || _ || _) eqn:E; [done|]. bool_prop. destruct Hi as [Ha Hb Hc Hd He]. split; cbn; try done.
  intros m' i c [= <-] Hl. apply lookup_insert_Some in Hl as [[<- <-]|[_ Hl]]; [|by eapply He].
  split; [lia|]. done.
Qed.

Lemma store_run_inv total s calls : store_inv total s → store_inv total (store_run s calls).
Proof. revert s. induction calls as [|c calls IH]; intros s Hs; [done|]. cbn. by apply IH, store_step_inv. Qed.

(** What the calls say a piece is: the last chunk of the right length put there,
    until the store is closed. *)
Fixpoint piece (s0 : ChunkStore) (index : Z) (calls : list store_call) : option (list Z) :=
  match calls with
  | [] => None
  | Put i chunk :: calls =>
      if (i =? index) && is_safe_integer i && (0 <=? i) && (i <=? lastChunkIndex s0) && (zlen chunk =? expected_length s0 i)
      then Some chunk else piece s0 index calls
  | Close :: _ => None
  end.

Definition is_close (c : store_call) : bool := match c with Close => true | _ => false end.

Lemma store_step_shape s call : chunkLength (store_step s call) = chunkLength s ∧
  lastChunkIndex (store_step s call) = lastChunkIndex s ∧ lastChunkLength (store_step s call) = lastChunkLength s.
Proof. destruct call; cbn; [|done]. unfold store_put. repeat case_match; done. Qed.

(** The store is the map the calls describe: for any calls on a fresh store, a
    piece is what was last put there with the piece's own length, whole or any
    part of it; a put of another length or past the end changes nothing; after a
    close nothing is kept. *)
Theorem store_is_map c n s calls index : PageMemoryChunkStore c n = Ok s →
  let t := store_run s calls in
  (existsb is_close calls = true → chunks t = None ∧ store_get index None None t = inl ("Storage is closed"%string, false)) ∧
  (existsb is_close calls = false →
     store_get index None None t = match piece s index (rev calls) with Some chunk => inr chunk | None => inl ("Chunk not found"%string, true) end).
Proof.
  intros Hs t. destruct (new_store_inv _ _ _ Hs) as (total & _ & Hi & Hempty).
  assert (∀ l, (existsb is_close l = true → chunks (store_run s l) = None) ∧
    (existsb is_close l = false → ∃ m, chunks (store_run s l) = Some m ∧ ∀ i, m !! i = piece s i (rev l)) ∧
    lastChunkIndex (store_run s l) = lastChunkIndex s ∧ (∀ i, expected_length (store_run s l) i = expected_length s i)) as Hrun.
  { induction l as [|call l (IHc & IHo & IHi & IHl)] using rev_ind; [split_and!; [done|by exists ∅|done..]|].
    unfold store_run in *. rewrite foldl_app, existsb_app, rev_app_distr. cbn [foldl existsb rev app]. rewrite orb_false_r.
    set (u := foldl store_step s l) in *. destruct (store_step_shape u call) as (E1 & E2 & E3). split_and!.
    - intros Hx. apply orb_true_iff in Hx as [Hx|Hx]; [|by destruct call].
      destruct call; cbn [store_step]; [|done]. unfold store_put. rewrite (IHc Hx). exact (IHc Hx).
    - intros Hx. apply orb_false_iff in Hx as [Hx Hcall]. destruct call as [i chunk|]; [|done]. destruct (IHo Hx) as (m & Em & Hm).
      cbn [store_step piece]. unfold store_put. rewrite Em, IHi, IHl.
      destruct (is_safe_integer i && (0 <=? i) && (i <=? lastChunkIndex s) && (zlen chunk =? expected_length s i)) eqn:E.
      + bool_prop. assert (negb (is_safe_integer i) || (i <? 0) || (lastChunkIndex s <? i) || negb (zlen chunk =? expected_length s i) = false) as ->.
        { repeat match goal with Hy : is_safe_integer i = true |- _ => rewrite Hy; clear Hy end. cbn [negb orb]. lia. }
        cbn. eexists. split; [done|]. intros j. destruct (Z.eqb_spec i j) as [->|Hne].
        * rewrite lookup_insert_eq. destruct (is_safe_integer j) eqn:Ej; [|done]. cbn [andb].
          rewrite (proj2 (Z.leb_le 0 j)), (proj2 (Z.leb_le j _)), (proj2 (Z.eqb_eq (zlen chunk) _)) by lia. done.
        * rewrite lookup_insert_ne by done. cbn [andb]. apply Hm.
      + assert (negb (is_safe_integer i) || (i <? 0) || (lastChunkIndex s <? i) || negb (zlen chunk =? expected_length s i) = true) as ->.
        { destruct (is_safe_integer i); cbn [negb orb andb] in *; lia. }
        cbn [fst]. exists m. split; [done|]. intros j. rewrite Hm. rewrite <- !andb_assoc in *. by rewrite E, andb_false_r.
    - by rewrite E2.
    - intros i. unfold expected_length in *. by rewrite E1, E2, E3. }
  destruct (Hrun calls) as (Hc & Ho & _). fold t in Hc, Ho. split.
  - intros Hx. specialize (Hc Hx). split; [done|]. unfold store_get. by rewrite Hc.
  - intros Hx. destruct (Ho Hx) as (m & Em & Hm). unfold store_get. rewrite Em, Hm. destruct (piece s index (rev calls)); [|done].
    cbn. by rewrite Z.sub_0_r, Z.eqb_refl.
Qed.

(** A part of a piece. *)
Lemma store_get_part index m chunk offset length_ s : chunks s = Some m → m !! index = Some chunk →
  0 <= offset → 0 <= length_ → offset + length_ <= zlen chunk →
  store_get index (Some offset) (Some length_) s = inr (slice offset (offset + length_) chunk).
Proof.
  intros Em Hl H1 H2 H3. unfold store_get. rewrite Em, Hl. cbn. f_equal. destruct ((offset =? 0) && (length_ =? zlen chunk)) eqn:E.
  - bool_prop. replace (offset + length_) with (zlen chunk) by lia. assert (offset = 0) as -> by lia. by rewrite slice_full.
  - unfold subarray, clamp. rewrite (proj2 (Z.ltb_ge offset 0)), (proj2 (Z.ltb_ge (offset + length_) 0)) by lia. by rewrite !Z.min_l by lia.
Qed.

(** ** [withBlockedPersistentDebug] *)

(** An access to a [Storage]; [origin] says whether it is the origin's own. Besides
    the four methods there are [length], [key], and the named properties
    ([storage.name]), which the browser serves without calling a method. *)
Inductive storage_op : Type :=
  | GetItem (origin : bool) (key : jstr) | SetItem (origin : bool) (key value : jstr)
  | RemoveItem (origin : bool) (key : jstr) | ClearAll (origin : bool)
  | Length (origin : bool) | KeyAt (origin : bool) (n : nat)
  | GetProperty (origin : bool) (key : jstr) | SetProperty (origin : bool) (key value : jstr) | DeleteProperty (origin : bool) (key : jstr).

Inductive op_result : Type := Value (v : option jstr) | Count (n : Z) | Void | OpThrows (msg : string).

(** The order of a store's keys is the browser's own. *)
Class KeyOrder := { keys_of : gmap jstr jstr → list jstr }.

Record Stores := mkStores { originStorage : gmap jstr jstr; otherStorage : gmap jstr jstr; unexpectedMutation : option string }.

#[export] Instance Stores_eta : Eta Stores := λ s, mkStores (originStorage s) (otherStorage s) (unexpectedMutation s).

Definition on_store (origin : bool) (f : gmap jstr jstr → gmap jstr jstr) (s : Stores) : Stores :=
  if origin then s <| originStorage := f (originStorage s) |> else s <| otherStorage := f (otherStorage s) |>.
Definition the_store (origin : bool) (s : Stores) : gmap jstr jstr := if origin then originStorage s else otherStorage s.

Section Guard.
Context `{KeyOrder}.

(** What the browser itself does. *)
Definition native (op : storage_op) (s : Stores) : Stores * op_result :=
  match op with
  | GetItem o key => (s, Value (the_store o s !! key))
  | SetItem o key value => (on_store o <[key := value]> s, Void)
  | RemoveItem o key => (on_store o (delete key) s, Void)
  | ClearAll o => (on_store o (λ _, ∅) s, Void)
  | Length o => (s, Count (Z.of_nat (size (the_store o s))))
  | KeyAt o n => (s, Value (keys_of (the_store o s) !! n))
  | GetProperty o key => (s, Value (the_store o s !! key))
  | SetProperty o key value => (on_store o <[key := value]> s, Void)
  | DeleteProperty o key => (on_store o (delete key) s, Void)
  end.

Definition isDebugKey (key : jstr) : bool := eqb key (lit "debug") || eqb key (lit "DEBUG").

Definition refuse (what : string) (msg : string) (s : Stores) : Stores * op_result :=
  (s <| unexpectedMutation := Some what |>, OpThrows msg).

(** The four methods that stand in their place while the library loads; whatever
    else is accessed is not guarded. *)
Definition guarded (op : storage_op) (s : Stores) : Stores * op_result :=
  match op with
  | GetItem true key => if isDebugKey key then (s, Value None) else native op s
  | SetItem true key _ =>
      if isDebugKey key then (s, Void) else refuse "write" "WebTorrent attempted an unexpected persistent browser write." s
  | RemoveItem true key =>
      if isDebugKey key then (s, Void) else refuse "removal" "WebTorrent attempted an unexpected persistent browser removal." s
  | ClearAll true => refuse "clear" "WebTorrent attempted to clear persistent browser state." s
  | _ => native op s
  end.

(** What runs while the loader does: calls on storage, each going on with what
    it got, until the loader settles. *)
Inductive loading (M : Type) : Type :=
  | Settled (r : res M)
  | Call (op : storage_op) (k : op_result → loading M).
#[global] Arguments Settled {M}.
#[global] Arguments Call {M}.

Fixpoint run_with {M} (methods : storage_op → Stores → Stores * op_result) (p : loading M) (s : Stores) : Stores * res M :=
  match p with
  | Settled r => (s, r)
  | Call op k => let '(s', r) := methods op s in run_with methods (k r) s'
  end.

(** What the platform has: a [Storage], an origin storage that can be reached,
    and methods that may be replaced. *)
Record StoragePlatform := mkPlatform { has_constructor : bool; origin_reachable : bool; configurable : bool }.

(** The [finally] puts the browser's methods back whatever happened. *)
Definition withBlockedPersistentDebug {M} (p : StoragePlatform) (loader : loading M) (s : Stores) : Stores * res M :=
  if negb (has_constructor p) || negb (origin_reachable p) then run_with native loader s
  else if negb (configurable p) then (s, Throw "WebTorrent cannot be isolated from persistent browser state.")
  else
    let '(s, r) := run_with guarded loader (s <| unexpectedMutation := None |>) in
    (s, let! m := r in
        match unexpectedMutation s with
        | Some what => Throw ("WebTorrent attempted an unexpected persistent browser " +:+ what +:+ ".")
        | None => Ok m
        end).

(** The origin's storage without what a debug preference would say. *)
Definition without_debug (m : gmap jstr jstr) : gmap jstr jstr := delete (lit "debug") (delete (lit "DEBUG") m).

Lemma without_debug_lookup m key : isDebugKey key = false → without_debug m !! key = m !! key.
Proof.
  unfold isDebugKey, without_debug. intros E. apply orb_false_iff in E as [E1 E2].
  rewrite !lookup_delete_ne; [done| |]; intros <-; rewrite (proj2 (eqb_eq _ _)) in * by done; discriminate.
Qed.

(** Two worlds that agree but for debug preferences. *)
Definition same_but_debug (s t : Stores) : Prop :=
  without_debug (originStorage s) = without_debug (originStorage t) ∧ otherStorage s = otherStorage t ∧
  unexpectedMutation s = unexpectedMutation t.

(** Accesses that cannot change the origin's storage past the guard, and accesses
    that cannot see it past the guard. *)
Definition guarded_change (op : storage_op) : bool :=
  match op with SetProperty true _ _ | DeleteProperty true _ => false | _ => true end.
Definition guarded_access (op : storage_op) : bool :=
  match op with
  | SetProperty true _ _ | DeleteProperty true _ | GetProperty true _ | Length true | KeyAt true _ => false
  | _ => true
  end.

(** The loader only makes such accesses, whatever they answer. *)
Fixpoint only_makes {M} (P : storage_op → bool) (p : loading M) : Prop :=
  match p with Settled _ => True | Call op k => P op = true ∧ ∀ r, only_makes P (k r) end.

Lemma guarded_same op s t : guarded_access op = true → same_but_debug s t →
  same_but_debug (guarded op s).1 (guarded op t).1 ∧ (guarded op s).2 = (guarded op t).2.
Proof.
  intros Hop (Ho & Hs & Hu). unfold same_but_debug.
  destruct op as [[] key|[] key value|[] key|[]|[]|[] n|[] key|[] key value|[] key]; try discriminate Hop; cbn; rewrite ?Hs;
    try (destruct (isDebugKey key) eqn:E; cbn); try done.
  split; [done|]. f_equal. rewrite <- (without_debug_lookup _ _ E), Ho. by apply without_debug_lookup.
Qed.

Lemma guarded_origin op s : guarded_change op = true → originStorage (guarded op s).1 = originStorage s.
Proof.
  intros Hop. destruct op as [[] key|[] key value|[] key|[]|[]|[] n|[] key|[] key value|[] key]; try discriminate Hop; cbn;
    try destruct (isDebugKey key); done.
Qed.

Lemma run_guarded_origin {M} (p : loading M) s : only_makes guarded_change p → originStorage (run_with guarded p s).1 = originStorage s.
Proof.
  revert s. induction p as [r|op k IH]; intros s Hp; [done|]. cbn. destruct Hp as [Hop Hk]. pose proof (guarded_origin op s Hop) as Ho.
  destruct (guarded op s) as [s' r]. by rewrite IH.
Qed.

Lemma run_guarded_same {M} (p : loading M) s t : only_makes guarded_access p → same_but_debug s t →
  same_but_debug (run_with guarded p s).1 (run_with guarded p t).1 ∧ (run_with guarded p s).2 = (run_with guarded p t).2.
Proof.
  revert s t. induction p as [r|op k IH]; intros s t Hp Hst; [done|]. cbn. destruct Hp as [Hop Hk]. destruct (guarded_same op s t Hop Hst) as [Hs Hr].
  destruct (guarded op s) as [s' r], (guarded op t) as [t' r']. cbn in Hs, Hr. subst r'. by apply IH.
Qed.


(** A named property is not guarded: a library that sets one changes the origin's
    storage, and the load succeeds. *)
Example property_unguarded :
  let loader : loading unit := Call (SetProperty true (lit "seen") (lit "1")) (λ _, Settled (Ok tt)) in
  let a := withBlockedPersistentDebug (mkPlatform true true true) loader (mkStores ∅ ∅ None) in
  a.2 = Ok tt ∧ originStorage a.1 !! lit "seen" = Some (lit "1").
Proof. by split. Qed.
End Guard.

(** The keys in the order of the map. *)
Definition map_order : KeyOrder := {| keys_of m := (map_to_list m).*1 |}.
#[local] Existing Instance map_order.


(** ** [createWebTorrentLoader] *)

(** An import by its number, and whether it is under way, done or failed. *)
Inductive import_state : Type := Importing | Imported | ImportFailed.

Record Loader := mkLoader { modulePromise : option nat; imports : list import_state }.

#[export] Instance Loader_eta : Eta Loader := λ l, mkLoader (modulePromise l) (imports l).

Definition createWebTorrentLoader : Loader := mkLoader None [].

(** A call of the loader; the number is the promise it returns. *)
Definition load (l : Loader) : Loader * nat :=
  match modulePromise l with
  | Some n => (l, n)
  | None => (l <| modulePromise := Some (length (imports l)) |> <| imports := imports l ++ [Importing] |>, length (imports l))
  end.

(** Import [n] settles; a failed one is forgotten. *)
Definition import_settles (n : nat) (ok : bool) (l : Loader) : Loader :=
  match imports l !! n with
  | Some Importing =>
      let l := l <| imports := <[n := if ok then Imported else ImportFailed]> (imports l) |> in
      if ok then l else l <| modulePromise := None |>
  | _ => l
  end.

Inductive loader_event : Type := CallLoad | ImportSettles (n : nat) (ok : bool).

Definition loader_step (l : Loader) (e : loader_event) : Loader :=
  match e with CallLoad => (load l).1 | ImportSettles n ok => import_settles n ok l end.

Definition loader_run (l : Loader) (events : list loader_event) : Loader := foldl loader_step l events.

(** All imports but the last have failed; the last is forgotten once it has. *)
Definition loader_inv (l : Loader) : Prop :=
  match modulePromise l with
  | None => Forall (eq ImportFailed) (imports l)
  | Some n => ∃ failed last, imports l = failed ++ [last] ∧ Forall (eq ImportFailed) failed ∧ last ≠ ImportFailed ∧ n = length failed
  end.

Lemma loader_step_inv l e : loader_inv l → loader_inv (loader_step l e).
Proof.
  intros Hi. unfold loader_inv in Hi. destruct e as [|n ok]; cbn [loader_step].
  - unfold load. destruct (modulePromise l) as [n|] eqn:Em; [unfold loader_inv; cbn [fst]; by rewrite Em|].
    unfold loader_inv; cbn. by exists (imports l), Importing.
  - unfold import_settles. destruct (imports l !! n) as [[]|] eqn:En; try (unfold loader_inv; exact Hi).
    destruct (modulePromise l) as [k|] eqn:Em.
    + destruct Hi as (failed & last & E & Hf & Hl & ->). assert (n = length failed) as ->.
      { rewrite E in En. apply lookup_app_Some in En as [En|[Hge En]].
        - rewrite Forall_lookup in Hf. specialize (Hf _ _ En). done.
        - apply list_lookup_singleton_Some in En as [Hz _]. lia. }
      rewrite E, insert_app_r_alt, Nat.sub_diag by lia. cbn [list_insert insert]. unfold loader_inv. destruct ok; cbn.
      * rewrite Em. exists failed, Imported. done.
      * apply Forall_app. split; [done|]. by constructor.
    + exfalso. rewrite Forall_lookup in Hi. specialize (Hi _ _ En). done.
Qed.

(** However the calls and the imports interleave, at most one import is under
    way, a call made meanwhile or after it shares it, and the library is imported
    again only after a failure. *)
Theorem imported_once events :
  let l := loader_run createWebTorrentLoader events in
  ∃ failed rest, imports l = failed ++ rest ∧ Forall (eq ImportFailed) failed ∧ (length rest <= 1)%nat ∧
    (rest = [] ↔ modulePromise l = None) ∧ (∀ last, rest = [last] → last ≠ ImportFailed ∧ (load l).2 = length failed).
Proof.
  intros l. assert (loader_inv l) as Hi.
  { subst l. assert (∀ l, loader_inv l → loader_inv (loader_run l events)) as Hrun; [|apply Hrun; constructor].
    induction events as [|e events IH]; intros l Hl; [done|]. cbn. by apply IH, loader_step_inv. }
  unfold loader_inv in Hi. destruct (modulePromise l) as [n|] eqn:Em.
  - destruct Hi as (failed & last & E & Hf & Hl & ->). exists failed, [last]. split_and!; try done.
    intros x [= <-]. split; [done|]. unfold load. by rewrite Em.
  - exists (imports l), []. rewrite app_nil_r. split_and!; [done|done|cbn; lia|done|done].
Qed.
