(* ===== verification/Swarm.v ===== *)
(** * Browser seeding and swarm downloads ([core/swarm.ts])

    Both start a torrent client and settle a promise once: on success with a
    handle that stops the client, and otherwise only after the client has been
    asked to stop. The client, its torrents and the timers are events; [settled]
    is the flag of the code, [outcome] what the promise came to. *)

From S2P Require Import Prelude JsString Utf8 Bytes Json JsValue Security Nostr.

(** ** Failures *)

(** A thrown value: whether it is an [Error], and its message or text. *)
Record problem := mkProblem { is_error : bool; problem_text : jstr }.

Definition error_of (msg : string) : problem := mkProblem true (lit msg).

(** [error instanceof Error ? error : new Error(safeDiagnostic(error))] *)
Definition as_error (p : problem) : jstr := if is_error p then problem_text p else safeDiagnostic (problem_text p).

Definition cleanupFailure (operation cleanup : problem) : jstr :=
  as_error operation ++ lit " WebTorrent cleanup failed: " ++ safeDiagnostic (problem_text cleanup).

(** ** The client *)

Record ClientOptions := mkClientOptions { iceServers : list jstr; dht : bool; lsd : bool; natPmp : bool; natUpnp : bool; utp : bool }.

Definition privateWebTorrentClientOptions : ClientOptions := mkClientOptions [] false false false false false.

(** What the client is asked, in order. *)
Inductive client_call : Type :=
  | NewClient (options : ClientOptions)
  | SeedFile (name : jstr) (announceList : list (list jstr)) (urlList : list jstr) (private : bool)
  | AddMagnet (magnet : jstr)
  | DestroyCall.

Definition is_destroy (c : client_call) : bool := match c with DestroyCall => true | _ => false end.
Definition destroys (calls : list client_call) : nat := length (filter (λ c, is_destroy c = true) calls).

(** ** The promise of an attempt

    [destroying] holds the failure the attempt will reject with once its client
    has been destroyed. *)

(** Before the library has loaded, refused without a client, or with one. *)
Inductive attempt_phase : Type := LoadingModule | NoClient | Live.

(** [Watching] is before the torrent is ready; the other stages are those of
    [torrent.files[0].blob()] and [sha256Hex(blob)]. *)
Inductive transfer_stage : Type := Watching | ReadingBlob | Hashing (blob : list Z) | Read.

Record Attempt (R : Type) := mkAttempt {
  phase : attempt_phase; settled : bool; timer : bool; listening : bool; aborted : bool; stage : transfer_stage;
  calls : list client_call; destroying : option problem; outcome : option (jstr + R); progress : list (Z * Z) }.
Arguments mkAttempt {R}.
Arguments phase {R}.
Arguments settled {R}.
Arguments timer {R}.
Arguments listening {R}.
Arguments aborted {R}.
Arguments stage {R}.
Arguments calls {R}.
Arguments destroying {R}.
Arguments outcome {R}.
Arguments progress {R}.

#[export] Instance Attempt_eta {R} : Eta (Attempt R) := λ a,
  mkAttempt (phase a) (settled a) (timer a) (listening a) (aborted a) (stage a) (calls a) (destroying a) (outcome a) (progress a).

Section Attempts.
Context {R : Type}.

Definition attempt_start (already : bool) : Attempt R := mkAttempt LoadingModule false false false already Watching [] None None [].

(** The first of [resolve] and [reject] counts. *)
Definition conclude (r : jstr + R) (a : Attempt R) : Attempt R :=
  match outcome a with None => a <| outcome := Some r |> | Some _ => a end.

(** A throw before there is a client. *)
Definition refuse (msg : jstr) (a : Attempt R) : Attempt R := conclude (inl msg) (a <| phase := NoClient |>).

Definition call (c : client_call) (a : Attempt R) : Attempt R := a <| calls := calls a ++ [c] |>.

(** [settled = true; clearTimeout(timer); removeEventListener(...)] *)
Definition settle (a : Attempt R) : Attempt R := a <| settled := true |> <| timer := false |> <| listening := false |>.

(** [fail(error)]; in seeding, the handlers that end in [rejectAfterDestroy]. *)
Definition fail_attempt (p : problem) (a : Attempt R) : Attempt R :=
  if settled a then a else call DestroyCall (settle a <| destroying := Some p |>).

(** [destroyClient] settles: its callback, a throw, or its own five seconds. *)
Definition destroy_settles (error : option problem) (a : Attempt R) : Attempt R :=
  match destroying a with
  | Some p => conclude (inl (match error with None => as_error p | Some c => cleanupFailure p c end)) (a <| destroying := None |>)
  | None => a
  end.

Definition cleanup_timed_out : problem := error_of "WebTorrent client cleanup timed out.".

Definition succeed (r : R) (a : Attempt R) : Attempt R := conclude (inr r) (settle a).

(** The library has loaded: the signal is looked at again, the client is made
    ([made] is what its constructor throws), its timer runs, the signal is
    listened to, and the client gets its task, which may throw. *)
Definition start_client (cancelled : string) (task : client_call) (made thrown : option problem) (a : Attempt R) : Attempt R :=
  match phase a with
  | LoadingModule =>
      if aborted a then refuse (lit cancelled) a
      else match made with
           | Some p => refuse (problem_text p) a
           | None =>
               let a := call task (call (NewClient privateWebTorrentClientOptions)
                 (a <| phase := Live |> <| timer := true |> <| listening := true |>)) in
               match thrown with Some p => conclude (inl (problem_text p)) a | None => a end
           end
  | _ => a
  end.

Definition module_fails (p : problem) (a : Attempt R) : Attempt R :=
  match phase a with LoadingModule => refuse (problem_text p) a | _ => a end.

(** The signal aborts. *)
Definition abort_attempt (cancelled : string) (a : Attempt R) : Attempt R :=
  let a := a <| aborted := true |> in
  if listening a then fail_attempt (error_of cancelled) a else a.

Definition timer_fires (msg : string) (a : Attempt R) : Attempt R :=
  if timer a then fail_attempt (error_of msg) a else a.

(** An event of the client. *)
Definition when_live (f : Attempt R → Attempt R) (a : Attempt R) : Attempt R := match phase a with Live => f a | _ => a end.
End Attempts.

(** ** [clientStopHandle] *)

Record StopHandle := mkStop { stopping : bool; destroy_count : nat }.

(** [stop()]: the client is destroyed once, however often it is asked. *)
Definition stop_client (h : StopHandle) : StopHandle :=
  if stopping h then h else mkStop true (S (destroy_count h)).

Definition clientStopHandle : StopHandle := mkStop false 0.

Section Swarm.
Context `{Unicode}.

(** ** [startBrowserSeeding] *)

Definition seeding_cancelled : string := "WebTorrent seeding cancelled.".

Definition startBrowserSeeding (profile : NetworkProfile) (already : bool) : Attempt StopHandle :=
  let a := attempt_start already in
  if bool_decide (profile = tor) then refuse (lit "WebTorrent is disabled in Tor-only mode.") a
  else if already then refuse (lit seeding_cancelled) a else a.

Inductive seed_event : Type :=
  | SeedModule (made thrown : option problem) | SeedModuleFails (p : problem)
  | SeedAborted | SeedTimeout | SeedError (text : jstr) | SeedReady (infoHash : jstr) | SeedDestroyed (error : option problem).

(** The reviewed file, its torrent and the web seed it names. *)
Definition seed_task (inspected : InspectedFile) (plan : TorrentPlan) (webSeed : jstr) : client_call :=
  SeedFile (if_name inspected) (map (λ t, [t]) (tp_trackers plan)) [webSeed] false.

(** The torrent is ready to seed. *)
Definition seed_ready (plan : TorrentPlan) (infoHash : jstr) (a : Attempt StopHandle) : Attempt StopHandle :=
  if settled a then a
  else if negb (eqb (toLowerCase infoHash) (tp_infoHash plan)) then
    fail_attempt (error_of "WebTorrent generated a different info hash from the reviewed torrent metadata.") a
  else succeed clientStopHandle a.

Definition seed_step (inspected : InspectedFile) (plan : TorrentPlan) (webSeed : jstr) (a : Attempt StopHandle) (e : seed_event)
    : Attempt StopHandle :=
  match e with
  | SeedModule made thrown => start_client seeding_cancelled (seed_task inspected plan webSeed) made thrown a
  | SeedModuleFails p => module_fails p a
  | SeedAborted => abort_attempt seeding_cancelled a
  | SeedTimeout => timer_fires "WebTorrent did not start seeding before the safety timeout." a
  | SeedError text => when_live (fail_attempt (mkProblem true (lit "WebTorrent failed: " ++ safeDiagnostic text))) a
  | SeedReady infoHash => when_live (seed_ready plan infoHash) a
  | SeedDestroyed error => destroy_settles error a
  end.

Definition seed_run (inspected : InspectedFile) (plan : TorrentPlan) (webSeed : jstr) (a : Attempt StopHandle) (events : list seed_event)
    : Attempt StopHandle := foldl (seed_step inspected plan webSeed) a events.

(** ** [downloadFromSwarm] *)

Definition download_cancelled : string := "Swarm download cancelled.".

Definition downloadFromSwarm (resolved : ResolvedHybridEvent) (profile : NetworkProfile) (already : bool)
    : Attempt (list Z * StopHandle) :=
  let a := attempt_start already in
  if bool_decide (profile = tor) then refuse (lit "WebTorrent is disabled in Tor-only mode.") a
  else if already then refuse (lit download_cancelled) a
  else match rh_magnet resolved with
       | Some (magnet, infoHash) =>
           if eqb magnet [] || eqb infoHash [] || (zlen (rh_trackers resolved) =? 0)
           then refuse (lit "The signed event does not contain a usable WebTorrent transport.") a else a
       | None => refuse (lit "The signed event does not contain a usable WebTorrent transport.") a
       end.

Inductive download_event : Type :=
  | DownModule (made thrown : option problem) | DownModuleFails (p : problem)
  | DownAborted | DownTimeout | DownError (p : problem)
  | DownTorrent (infoHash : jstr) (length_ : Z) (files : list Z) | DownProgress (fraction bytesPerSecond : Z)
  | BlobRead (blob : list Z) | BlobFails (p : problem) | BlobHashed | HashFails (p : problem)
  | DownDestroyed (error : option problem).

(** [sha256Hex] of a blob's bytes. *)
Context (sha256Hex : list Z → jstr).

(** The torrent's metadata is there. *)
Definition torrent_ready (resolved : ResolvedHybridEvent) (infoHash : jstr) (length_ : Z) (files : list Z)
    (a : Attempt (list Z * StopHandle)) : Attempt (list Z * StopHandle) :=
  match stage a with
  | Watching =>
      if settled a then a
      else if negb (bool_decide (Some (toLowerCase infoHash) = option_map snd (rh_magnet resolved))) || negb (length_ =? rh_size resolved)
      then fail_attempt (error_of "Torrent metadata does not match the signed Nostr event.") a
      else if negb (bool_decide (files = [rh_size resolved]))
      then fail_attempt (error_of "Wildbloom accepts one-file torrents only.") a
      else a <| stage := ReadingBlob |>
  | _ => a
  end.

Definition blob_read (blob : list Z) (a : Attempt (list Z * StopHandle)) : Attempt (list Z * StopHandle) :=
  match stage a with
  | ReadingBlob => if settled a then a <| stage := Read |> else a <| stage := Hashing blob |>
  | _ => a
  end.

Definition blob_hashed (resolved : ResolvedHybridEvent) (a : Attempt (list Z * StopHandle)) : Attempt (list Z * StopHandle) :=
  match stage a with
  | Hashing blob =>
      let a := a <| stage := Read |> in
      if settled a then a
      else if negb (eqb (sha256Hex blob) (rh_sha256 resolved)) then
        fail_attempt (error_of "Swarm bytes failed the signed SHA-256 check.") a
      else succeed (blob, clientStopHandle) a
  | _ => a
  end.

(** [.catch(fail)] on the reading and the hashing. *)
Definition blob_fails (p : problem) (a : Attempt (list Z * StopHandle)) : Attempt (list Z * StopHandle) :=
  match stage a with ReadingBlob | Hashing _ => fail_attempt p (a <| stage := Read |>) | _ => a end.

Definition report_progress (fraction bytesPerSecond : Z) (a : Attempt (list Z * StopHandle)) : Attempt (list Z * StopHandle) :=
  match stage a with
  | Watching => a
  | _ => if settled a then a else a <| progress := progress a ++ [(fraction, bytesPerSecond)] |>
  end.

Definition download_step (resolved : ResolvedHybridEvent) (a : Attempt (list Z * StopHandle)) (e : download_event)
    : Attempt (list Z * StopHandle) :=
  match e with
  | DownModule made thrown =>
      start_client download_cancelled (AddMagnet (match rh_magnet resolved with Some (magnet, _) => magnet | None => [] end)) made thrown a
  | DownModuleFails p => module_fails p a
  | DownAborted => abort_attempt download_cancelled a
  | DownTimeout => timer_fires "Swarm download timed out." a
  | DownError p => when_live (fail_attempt p) a
  | DownTorrent infoHash length_ files => when_live (torrent_ready resolved infoHash length_ files) a
  | DownProgress fraction bytesPerSecond => report_progress fraction bytesPerSecond a
  | BlobRead blob => blob_read blob a
  | BlobFails p | HashFails p => blob_fails p a
  | BlobHashed => blob_hashed resolved a
  | DownDestroyed error => destroy_settles error a
  end.

Definition download_run (resolved : ResolvedHybridEvent) (a : Attempt (list Z * StopHandle)) (events : list download_event)
    : Attempt (list Z * StopHandle) := foldl (download_step resolved) a events.
End Swarm.
