(* ===== verification/SwarmFacts.v ===== *)
(** * Seeding and downloading settle soundly and clean up

    The states an attempt can be in, that every event keeps to them, and what
    that says of the two promises. *)

From S2P Require Import Prelude JsString Utf8 Bytes Json JsValue Security Nostr Swarm.

(** ** The states of an attempt *)

Section States.
Context {R : Type}.
(** What a result must satisfy, whether the client's task threw, and the task. *)
Context (P : R → Prop) (threw : Prop) (task : client_call).
Hypothesis task_keeps : is_destroy task = false.

Definition started : list client_call := [NewClient privateWebTorrentClientOptions; task].

(** Rejected already, because the task threw. *)
Definition cut_short (a : Attempt R) : Prop := ∃ m, outcome a = Some (inl m) ∧ threw.

Inductive attempt_ok (a : Attempt R) : Prop :=
  | ok_loading : phase a = LoadingModule → calls a = [] → settled a = false → timer a = false → listening a = false →
      destroying a = None → outcome a = None → stage a = Watching → attempt_ok a
  | ok_refused m : phase a = NoClient → calls a = [] → settled a = false → timer a = false → listening a = false →
      destroying a = None → outcome a = Some (inl m) → stage a = Watching → attempt_ok a
  | ok_running : phase a = Live → calls a = started → settled a = false → timer a = true → listening a = true →
      destroying a = None → (outcome a = None ∨ cut_short a) → attempt_ok a
  | ok_destroying p : phase a = Live → calls a = started ++ [DestroyCall] → settled a = true → timer a = false → listening a = false →
      destroying a = Some p → (outcome a = None ∨ cut_short a) → attempt_ok a
  | ok_rejected m : phase a = Live → calls a = started ++ [DestroyCall] → settled a = true → timer a = false → listening a = false →
      destroying a = None → outcome a = Some (inl m) → attempt_ok a
  | ok_succeeded : phase a = Live → calls a = started → settled a = true → timer a = false → listening a = false →
      destroying a = None → (cut_short a ∨ ∃ r, outcome a = Some (inr r) ∧ P r) → attempt_ok a.

Lemma fail_attempt_ok p a : (phase a = Live) → attempt_ok a → attempt_ok (fail_attempt p a).
Proof.
  intros Hl Ha. unfold fail_attempt. destruct (settled a) eqn:Es; [done|].
  inversion Ha as [| |Hp Hc Hs Ht Hli Hd Ho| | |]; try congruence.
  apply (ok_destroying _ p); cbn; try done. by rewrite Hc.
Qed.

Lemma fail_when p (b : bool) a : (b = true → phase a = Live) → attempt_ok a → attempt_ok (if b then fail_attempt p a else a).
Proof. intros Hb Ha. destruct b; [by apply fail_attempt_ok; [apply Hb|]|done]. Qed.

(** The timer and the listener are there only while the client runs. *)
Lemma timer_live a : attempt_ok a → timer a = true → phase a = Live.
Proof. intros []; congruence. Qed.
Lemma listening_live a : attempt_ok a → listening a = true → phase a = Live.
Proof. intros []; congruence. Qed.

Lemma set_aborted_ok a : attempt_ok a → attempt_ok (a <| aborted := true |>).
Proof.
  intros Ha. destruct Ha as [|m|Hp Hc Hs Ht Hli Hd Ho|p|m|]; [by apply ok_loading|by apply (ok_refused _ m)|by apply ok_running|
    by apply (ok_destroying _ p)|by apply (ok_rejected _ m)|by apply ok_succeeded].
Qed.

Lemma abort_attempt_ok msg a : attempt_ok a → attempt_ok (abort_attempt msg a).
Proof.
  intros Ha. unfold abort_attempt. cbn zeta. apply fail_when; [|by apply set_aborted_ok].
  cbn. by apply listening_live.
Qed.

Lemma timer_fires_ok msg a : attempt_ok a → attempt_ok (timer_fires msg a).
Proof. intros Ha. unfold timer_fires. apply fail_when; [|done]. by apply timer_live. Qed.

Lemma when_live_ok f a : (phase a = Live → attempt_ok (f a)) → attempt_ok a → attempt_ok (when_live f a).
Proof. unfold when_live. destruct (phase a); auto. Qed.

Lemma refuse_ok msg a : phase a = LoadingModule → attempt_ok a → attempt_ok (refuse msg a).
Proof.
  intros Hl Ha. inversion Ha; try congruence. unfold refuse, conclude. cbn.
  match goal with Ho : outcome a = None |- _ => rewrite Ho end. by apply (ok_refused _ msg).
Qed.

Lemma module_fails_ok p a : attempt_ok a → attempt_ok (module_fails p a).
Proof. intros Ha. unfold module_fails. destruct (phase a) eqn:E; try done. by apply refuse_ok. Qed.

Lemma start_client_ok msg made thrown a : (is_Some thrown → threw) → attempt_ok a → attempt_ok (start_client msg task made thrown a).
Proof.
  intros Ht Ha. unfold start_client. destruct (phase a) eqn:Ep; try done. destruct (aborted a); [by apply refuse_ok|].
  destruct made as [p|]; [by apply refuse_ok|].
  inversion Ha as [Hp Hc Hs Htm Hli Hd Ho Hst| | | | |]; try congruence.
  assert (∀ b : Attempt R, b = call task (call (NewClient privateWebTorrentClientOptions)
    (a <| phase := Live |> <| timer := true |> <| listening := true |>)) → attempt_ok b) as Hb.
  { intros b ->. apply ok_running; cbn; try done; [by rewrite Hc|by left]. }
  destruct thrown as [p|]; [|by apply Hb]. unfold conclude. cbn. rewrite Ho.
  apply ok_running; cbn; try done; [by rewrite Hc|]. right. eexists. split; [done|]. apply Ht. done.
Qed.

Lemma destroy_settles_ok e a : attempt_ok a → attempt_ok (destroy_settles e a).
Proof.
  intros Ha. unfold destroy_settles. destruct (destroying a) as [p|] eqn:Ed; [|done].
  inversion Ha as [| | |q Hp Hc Hs Ht Hli Hd Ho| |]; try congruence. unfold conclude. cbn.
  destruct Ho as [Ho|(m & Ho & ?)]; rewrite Ho; by eapply ok_rejected; cbn.
Qed.

Lemma succeed_ok r a : phase a = Live → settled a = false → P r → attempt_ok a → attempt_ok (succeed r a).
Proof.
  intros Hl Hs Hr Ha. inversion Ha as [| |Hp Hc Hs' Ht Hli Hd Ho| | |]; try congruence.
  unfold succeed, conclude, settle. cbn. destruct Ho as [Ho|(m & Ho & Hx)]; rewrite Ho; apply ok_succeeded; cbn; try done.
  - right. by exists r.
  - left. by exists m.
Qed.

Lemma attempt_start_ok b : attempt_ok (attempt_start b).
Proof. by apply ok_loading. Qed.

(** What the states say of the promise. *)
Lemma attempt_settles a : attempt_ok a →
  (∀ r, outcome a = Some (inr r) → P r ∧ destroys (calls a) = 0%nat) ∧
  (∀ m, outcome a = Some (inl m) → calls a = [] ∨ destroys (calls a) = 1%nat ∨ threw) ∧ (destroys (calls a) <= 1)%nat.
Proof.
  intros Ha. assert (destroys started = 0%nat ∧ destroys (started ++ [DestroyCall]) = 1%nat) as [H0 H1].
  { unfold destroys, started. cbn [app]. rewrite !filter_cons. cbn [is_destroy]. rewrite task_keeps. done. }
  destruct Ha as [Hp Hc|m Hp Hc|Hp Hc ? ? ? ? Ho|p Hp Hc ? ? ? ? Ho|m Hp Hc|Hp Hc ? ? ? ? Ho]; rewrite Hc, ?H0, ?H1; cbn;
    (split; [|split; [|lia]]); intros x Hx; auto; try congruence.
  - destruct Ho as [Ho|(m & Ho & ?)]; congruence.
  - destruct Ho as [Ho|(m & Ho & ?)]; [congruence|auto].
  - destruct Ho as [Ho|(m & Ho & ?)]; congruence.
  - destruct Ho as [(m & Ho & ?)|(r & Ho & ?)]; [congruence|]. split; [congruence|done].
  - destruct Ho as [(m & Ho & ?)|(r & Ho & ?)]; [auto|congruence].
Qed.
End States.

(** An attempt without a client never gets one. *)
Section Refused.
Context {R : Type}.

Definition no_client (a : Attempt R) : Prop := phase a = NoClient ∧ timer a = false ∧ listening a = false ∧ calls a = [] ∧ destroying a = None ∧ stage a = Watching.

Lemma refused_no_client msg : ∀ b, no_client (refuse msg (@attempt_start R b)).
Proof. done. Qed.

Lemma no_client_steps a : no_client a →
  (∀ msg task made thrown, start_client msg task made thrown a = a) ∧ (∀ p, module_fails p a = a) ∧
  (∀ msg, no_client (abort_attempt msg a)) ∧ (∀ msg, timer_fires msg a = a) ∧ (∀ f, when_live f a = a) ∧ (∀ e, destroy_settles e a = a).
Proof.
  intros (Hp & Ht & Hl & Hc & Hd & Hs). unfold start_client, module_fails, abort_attempt, timer_fires, when_live, destroy_settles.
  cbn. rewrite Hp, Ht, Hl, Hd. split_and!; try done. 
Qed.
End Refused.

Section Facts.
Context `{Unicode}.

(** ** Seeding *)

Section Seeding.
Context (inspected : InspectedFile) (plan : TorrentPlan) (webSeed : jstr).

(** The client reported the reviewed torrent. *)
Definition seed_matches (events : list seed_event) : Prop :=
  ∃ infoHash, SeedReady infoHash ∈ events ∧ toLowerCase infoHash = tp_infoHash plan.
Definition seed_threw (events : list seed_event) : Prop := ∃ made p, SeedModule made (Some p) ∈ events.

Notation seed_ok P threw := (attempt_ok (λ _ : StopHandle, P) threw (seed_task inspected plan webSeed)).

Lemma seed_step_ok (P threw : Prop) a e :
  (∀ infoHash, e = SeedReady infoHash → toLowerCase infoHash = tp_infoHash plan → P) →
  (∀ made p, e = SeedModule made (Some p) → threw) →
  seed_ok P threw a → seed_ok P threw (seed_step inspected plan webSeed a e).
Proof.
  intros HP Ht Ha. destruct e; cbn [seed_step].
  - apply start_client_ok; [|done]. intros [p ->]. by eapply Ht.
  - by apply module_fails_ok.
  - by apply abort_attempt_ok.
  - by apply timer_fires_ok.
  - apply when_live_ok; [|done]. intros Hl. by apply fail_attempt_ok.
  - apply when_live_ok; [|done]. intros Hl. unfold seed_ready. destruct (settled a) eqn:Es; [done|].
    destruct (eqb _ _) eqn:E; cbn [negb]; [|by apply fail_attempt_ok]. apply eqb_eq in E. apply succeed_ok; [done|done| |done].
    by eapply HP.
  - by apply destroy_settles_ok.
Qed.

Lemma seed_run_ok (P threw : Prop) a events :
  (seed_matches events → P) → (seed_threw events → threw) → seed_ok P threw a → seed_ok P threw (seed_run inspected plan webSeed a events).
Proof.
  intros HP Ht Ha. revert a Ha. induction events as [|e events IH]; intros a Ha; [done|]. cbn. apply IH.
  - intros (h & Hin & Hh). apply HP. exists h. split; [by right|done].
  - intros (made & p & Hin). apply Ht. exists made, p. by right.
  - apply seed_step_ok; [| |done].
    + intros h -> Hh. apply HP. exists h. split; [by left|done].
    + intros made p ->. apply Ht. exists made, p. by left.
Qed.

Lemma startBrowserSeeding_ok P threw profile already : seed_ok P threw (startBrowserSeeding profile already).
Proof.
  unfold startBrowserSeeding. case_bool_decide; [|destruct already]; try (apply refuse_ok; [done|]); apply attempt_start_ok.
Qed.

Lemma seed_no_client a events : no_client a → no_client (seed_run inspected plan webSeed a events).
Proof.
  revert a. induction events as [|e events IH]; intros a Ha; [done|]. cbn. apply IH.
  destruct (no_client_steps a Ha) as (H1 & H2 & H3 & H4 & H5 & H6).
  destruct e; cbn [seed_step]; rewrite ?H1, ?H2, ?H4, ?H5, ?H6; auto.
Qed.

(** Browser seeding resolves only once the client reports the info hash of
    the reviewed torrent; whenever it rejects after a client was made, that
    client has been destroyed, once, before the rejection, but for a client whose
    [seed] call threw; and in Tor-only mode, or when already cancelled, no client
    is ever made. *)
Theorem seeding_sound profile already events :
  let a := seed_run inspected plan webSeed (startBrowserSeeding profile already) events in
  (∀ h, outcome a = Some (inr h) → seed_matches events ∧ destroys (calls a) = 0%nat) ∧
  (∀ m, outcome a = Some (inl m) → calls a = [] ∨ destroys (calls a) = 1%nat ∨ seed_threw events) ∧
  (destroys (calls a) <= 1)%nat ∧ (profile = tor ∨ already = true → calls a = []).
Proof.
  intros a. pose proof (seed_run_ok (seed_matches events) (seed_threw events) _ events (λ h, h) (λ h, h)
    (startBrowserSeeding_ok _ _ profile already)) as Ha. fold a in Ha.
  destruct (attempt_settles _ _ (seed_task inspected plan webSeed) eq_refl a Ha) as (H1 & H2 & H3). split_and!; [exact H1|exact H2|exact H3|].
  intros Hr. apply seed_no_client. unfold startBrowserSeeding.
  case_bool_decide; [apply refused_no_client|]. destruct Hr as [?| ->]; [done|]. apply refused_no_client.
Qed.
End Seeding.

(** ** Downloading *)

Section Downloading.
Context (sha256Hex : list Z → jstr) (resolved : ResolvedHybridEvent).

(** The client reported the signed torrent: its info hash, its size, and one file. *)
Definition torrent_matches (events : list download_event) : Prop :=
  ∃ infoHash, DownTorrent infoHash (rh_size resolved) [rh_size resolved] ∈ events ∧
    option_map snd (rh_magnet resolved) = Some (toLowerCase infoHash).
Definition down_threw (events : list download_event) : Prop := ∃ made p, DownModule made (Some p) ∈ events.

Definition down_task : client_call := AddMagnet (match rh_magnet resolved with Some (magnet, _) => magnet | None => [] end).

(** What a blob that is handed over satisfies. *)
Definition blob_ok (P : Prop) (r : list Z * StopHandle) : Prop := sha256Hex r.1 = rh_sha256 resolved ∧ P.

Notation down_ok P threw := (attempt_ok (blob_ok P) threw down_task).

(** The blob of a torrent is read only once the torrent has matched. *)
Definition down_inv (P threw : Prop) (a : Attempt (list Z * StopHandle)) : Prop :=
  down_ok P threw a ∧ (stage a ≠ Watching → P ∧ phase a = Live).

Lemma set_stage_ok P threw a st : phase a = Live → down_ok P threw a → down_ok P threw (a <| stage := st |>).
Proof.
  intros Hl Ha. destruct Ha as [|m|Hp Hc Hs Ht Hli Hd Ho|p|m|]; [congruence|congruence|by apply ok_running|
    by apply (ok_destroying _ _ _ _ p)|by apply (ok_rejected _ _ _ _ m)|by apply ok_succeeded].
Qed.

Lemma fail_attempt_stage p (a : Attempt (list Z * StopHandle)) : stage (fail_attempt p a) = stage a ∧ phase (fail_attempt p a) = phase a.
Proof. unfold fail_attempt. by destruct (settled a). Qed.
Lemma conclude_stage r (a : Attempt (list Z * StopHandle)) : stage (conclude r a) = stage a ∧ phase (conclude r a) = phase a.
Proof. unfold conclude. by destruct (outcome a). Qed.

Lemma start_client_stage cancelled task made thrown (a : Attempt (list Z * StopHandle)) :
  stage (start_client cancelled task made thrown a) = stage a ∧
  (phase a = Live → phase (start_client cancelled task made thrown a) = Live).
Proof.
  unfold start_client. destruct (phase a) eqn:E; [split; [|done]|done|done].
  unfold refuse, call. destruct (aborted a); [by rewrite (proj1 (conclude_stage _ _))|].
  destruct made; [by rewrite (proj1 (conclude_stage _ _))|]. cbn zeta.
  destruct thrown; [|done]. by rewrite (proj1 (conclude_stage _ _)).
Qed.

Lemma fail_inv P threw p a : phase a = Live → down_inv P threw a → down_inv P threw (fail_attempt p a).
Proof.
  intros Hl [Ha Hs]. split; [by apply fail_attempt_ok|]. destruct (fail_attempt_stage p a) as [-> ->]. done.
Qed.

Lemma progress_inv P threw f b a : down_inv P threw a → down_inv P threw (report_progress f b a).
Proof.
  intros [Ha Hs]. unfold report_progress. destruct (stage a) eqn:Est; try done; (destruct (settled a) eqn:Es; [by split; rewrite ?Est|]).
  all: destruct (Hs ltac:(done)) as [HP Hl]; split; cbn; [|by rewrite ?Est].
  all: inversion Ha; try congruence; by apply ok_running.
Qed.

Lemma download_step_inv (P threw : Prop) a e :
  (∀ infoHash, e = DownTorrent infoHash (rh_size resolved) [rh_size resolved] →
     option_map snd (rh_magnet resolved) = Some (toLowerCase infoHash) → P) →
  (∀ made p, e = DownModule made (Some p) → threw) →
  down_inv P threw a → down_inv P threw (download_step sha256Hex resolved a e).
Proof.
  intros HP Ht Hi. pose proof Hi as [Ha Hs].
  assert (∀ b, down_ok P threw b → stage b = stage a → (phase a = Live → phase b = Live) → down_inv P threw b) as Hsame.
  { intros b Hb Est Hl. split; [done|]. rewrite Est. intros Hne. destruct (Hs Hne). auto. }
  destruct e; cbn [download_step].
  - destruct (start_client_stage download_cancelled (AddMagnet (match rh_magnet resolved with Some (magnet, _) => magnet | None => [] end))
      made thrown a). apply Hsame; [apply start_client_ok; [|done]; intros [p ->]; by eapply Ht|done|done].
  - apply Hsame; [by apply module_fails_ok|..]; unfold module_fails; destruct (phase a) eqn:E; try done;
      unfold refuse, conclude; cbn; repeat case_match; done.
  - destruct (fail_attempt_stage (error_of download_cancelled) (a <| aborted := true |>)) as [E1 E2].
    apply Hsame; [by apply abort_attempt_ok|..]; unfold abort_attempt; cbn zeta; destruct (listening _); try done; by rewrite ?E1, ?E2.
  - unfold timer_fires. destruct (timer a) eqn:E; [|done]. apply fail_inv; [by eapply timer_live|done].
  - unfold when_live. destruct (phase a) eqn:E; try done. by apply fail_inv.
  - unfold when_live. destruct (phase a) eqn:E; try done. unfold torrent_ready. destruct (stage a) eqn:Est; try done.
    destruct (settled a); [done|]. destruct (negb _ || negb _) eqn:Em; [by apply fail_inv|].
    destruct (negb (bool_decide (files = _))) eqn:Ef; [by apply fail_inv|]. bool_prop. subst. split; [by apply set_stage_ok|]. cbn. intros _. split; [|done].
    by eapply HP.
  - by apply progress_inv.
  - unfold blob_read. destruct (stage a) eqn:Est; try done. destruct (Hs ltac:(done)) as [HQ Hl].
    destruct (settled a); (split; [by apply set_stage_ok|by intros _]).
  - unfold blob_fails. destruct (stage a) eqn:Est; try done; destruct (Hs ltac:(done)) as [HQ Hl];
      (apply fail_inv; [done|]; split; [by apply set_stage_ok|done]).
  - unfold blob_hashed. destruct (stage a) as [| |blob|] eqn:Est; try done. destruct (Hs ltac:(done)) as [HQ Hl]. cbn zeta.
    assert (down_inv P threw (a <| stage := Read |>)) as Hr by (split; [by apply set_stage_ok|done]).
    change (settled (a <| stage := Read |>)) with (settled a).
    destruct (settled a) eqn:Es; [done|]. destruct (eqb _ _) eqn:E; cbn [negb]; [|by apply fail_inv]. apply eqb_eq in E.
    split; [apply succeed_ok; [done|done|by split|apply Hr]|]. unfold succeed. intros _. split; [done|].
    by destruct (conclude_stage (inr (blob, clientStopHandle)) (settle (a <| stage := Read |>))) as [_ ->].
  - unfold blob_fails. destruct (stage a) eqn:Est; try done; destruct (Hs ltac:(done)) as [HQ Hl];
      (apply fail_inv; [done|]; split; [by apply set_stage_ok|done]).
  - apply Hsame; [by apply destroy_settles_ok|..]; unfold destroy_settles; destruct (destroying a); try done;
      unfold conclude; cbn; destruct (outcome a); done.
Qed.

Lemma download_run_inv (P threw : Prop) a events : (torrent_matches events → P) → (down_threw events → threw) →
  down_inv P threw a → down_inv P threw (download_run sha256Hex resolved a events).
Proof.
  intros HP Ht Ha. revert a Ha. induction events as [|e events IH]; intros a Ha; [done|]. cbn. apply IH.
  - intros (h & Hin & Hh). apply HP. exists h. split; [by right|done].
  - intros (made & p & Hin). apply Ht. exists made, p. by right.
  - apply download_step_inv; [| |done].
    + intros h -> Hh. apply HP. exists h. split; [by left|done].
    + intros made p ->. apply Ht. exists made, p. by left.
Qed.

Lemma downloadFromSwarm_inv P threw profile already : down_inv P threw (downloadFromSwarm resolved profile already).
Proof.
  assert (down_ok P threw (attempt_start already)) as Hs by apply attempt_start_ok.
  unfold downloadFromSwarm. repeat case_match; (split; [try (apply refuse_ok; [done|]); exact Hs|done]).
Qed.

Lemma download_no_client a events : no_client a → no_client (download_run sha256Hex resolved a events).
Proof.
  revert a. induction events as [|e events IH]; intros a Ha; [done|]. cbn. apply IH.
  destruct (no_client_steps a Ha) as (H1 & H2 & H3 & H4 & H5 & H6). pose proof Ha as (_ & _ & _ & _ & _ & Hst).
  destruct e; cbn [download_step]; rewrite ?H1, ?H2, ?H4, ?H5, ?H6; auto;
    unfold report_progress, blob_read, blob_fails, blob_hashed; by rewrite Hst.
Qed.

(** C28: a swarm download hands over a blob only if the client reported the signed
    torrent, of the signed size and with one file, and the blob's SHA-256 is the
    signed one; whenever it rejects after a client was made, that client's
    destruction was asked for, once, before the rejection, but for a client whose
    [add] call threw ([down_threw]), which is alive when the promise rejects; no client is ever
    destroyed twice; and in Tor-only mode, or when already cancelled, no client is
    made. *)
Theorem download_sound profile already events :
  let a := download_run sha256Hex resolved (downloadFromSwarm resolved profile already) events in
  (∀ blob h, outcome a = Some (inr (blob, h)) →
     sha256Hex blob = rh_sha256 resolved ∧ torrent_matches events ∧ destroys (calls a) = 0%nat) ∧
  (∀ m, outcome a = Some (inl m) → calls a = [] ∨ destroys (calls a) = 1%nat ∨ down_threw events) ∧
  (destroys (calls a) <= 1)%nat ∧ (profile = tor ∨ already = true → calls a = []).
Proof.
  intros a. pose proof (download_run_inv (torrent_matches events) (down_threw events) _ events (λ h, h) (λ h, h)
    (downloadFromSwarm_inv _ _ profile already)) as [Ha _]. fold a in Ha.
  destruct (attempt_settles _ _ down_task eq_refl a Ha) as (H1 & H2 & H3). split_and!; [|exact H2|exact H3|].
  - intros blob h Ho. destruct (H1 _ Ho) as [[Hh Hm] Hd]. done.
  - intros Hr. apply download_no_client. unfold downloadFromSwarm.
    case_bool_decide; [apply refused_no_client|]. destruct Hr as [?| ->]; [done|]. apply refused_no_client.
Qed.

(** The exception is real: when [client.add] throws, the promise rejects and the
    client that was made is still alive. *)
Lemma add_throws_unclosed p magnet hash tracker trackers : rh_magnet resolved = Some (magnet, hash) → magnet ≠ [] → hash ≠ [] →
  rh_trackers resolved = tracker :: trackers →
  let a := download_run sha256Hex resolved (downloadFromSwarm resolved direct false) [DownModule None (Some p)] in
  (∃ m, outcome a = Some (inl m)) ∧ calls a = [NewClient privateWebTorrentClientOptions; AddMagnet magnet] ∧ destroys (calls a) = 0%nat.
Proof.
  intros Em Hm Hh Et. unfold downloadFromSwarm. rewrite bool_decide_false, Em, Et by done. rewrite zlen_cons.
  rewrite (proj2 (Z.eqb_neq _ _)) by (pose proof (zlen_nonneg trackers); lia).
  destruct magnet as [|x magnet], hash as [|y hash]; try done. cbn. rewrite Em. cbn. split_and!; [by eexists|done..].
Qed.
End Downloading.
End Facts.
