(* ===== verification/Net.v ===== *)
(** * Effects: requests, signatures, deadlines

    The code that talks to servers is a computation over a world: the network,
    the person's signer, the clock, and what the abort signals say. [Net] is what
    a world can be asked; everything the code asks of it is logged. *)

From S2P Require Import Prelude JsString Utf8 Bytes Json Security Nostr.

(** ** Values of the platform *)

(** A [File]. *)
Record File := mkFile { f_bytes : bytes; f_name : jstr; f_type : jstr }.

(** The codes of a [ServiceRequestError]. *)
Inductive ServiceFailureCode : Type := FSigner | FExpired | FCancelled | FHttp | FResponse | FNetwork.

(** The stages of a storage audit. *)
Inductive AuditStage : Type := Challenge | Response | Retrieval | Digest.

(** What is thrown: an [Error], a [TypeError], a [BlossomRetrievalError] of kind
    [http] or [integrity], a [ServiceRequestError], a [StorageAuditError], or an
    abort. *)
Inductive thrown : Type :=
  | AnError (message : jstr)
  | ATypeError (message : jstr)
  | HttpError (message : jstr) (status : Z)
  | IntegrityError (message : string)
  | ServiceRequestError (code : ServiceFailureCode) (message : jstr) (status : option Z)
  | StorageAuditError (stage : AuditStage) (message : string)
  | AnAbort.

(** How an awaited operation ends, with the signal racing it. *)
Inductive awaited (A : Type) : Type := Settles (a : A) | Rejects (e : thrown) | Aborts.
Arguments Settles {A} a.
Arguments Rejects {A} e.
Arguments Aborts {A}.

Inductive method : Type := GET | PUT | POST.

(** What every request of the code carries: no cookies, no referrer, no cache,
    no redirect. *)
Record request_policy := mkPolicy { credentials : string; referrerPolicy : string; cache : string; redirect : string }.
Definition policy : request_policy := mkPolicy "omit" "no-referrer" "no-store" "error".

Record request := mkRequest {
  rq_method : method; rq_url : jstr; rq_headers : list (string * jstr); rq_body : option bytes; rq_policy : request_policy }.

(** What [reader.read()] gives; a body is what its reads give until [done]. *)
Inductive chunk_read : Type := Chunk (value : bytes) | NoValue | ReadRejects (e : thrown) | ReadAborts.

Record response := mkResponse {
  rs_status : Z; rs_statusText : jstr; rs_url : jstr; rs_contentLength : option jstr; rs_reason : option jstr;
  rs_body : option (list chunk_read); rs_contentType : option jstr }.

Definition response_ok (r : response) : bool := in_range 200 299 (rs_status r).

(** ** The world *)

Class Net := {
  World : Type;
  cancelled : World → bool;  (** [options.signal.aborted] *)
  timedOut : World → bool;  (** the request's timer has fired *)
  openDeadline : Z → World → World;
  closeDeadline : World → World;
  dateNow : World → Z;  (** [Date.now()] *)
  hashSignal : World → nat → bool;  (** what hashing sees of the signal *)
  blobStream : bytes → list bytes;  (** the chunks a blob's stream gives *)
  signer : EventTemplate → World → World * awaited (option json);
  network : request → World → World * awaited response;
}.

(** [Math.floor(Date.now() / 1000)]. *)
Definition clock `{Net} (w : World) : Z := dateNow w / 1000.

Class NetLaws `{Net} : Prop := { stream_concat b : concat (blobStream b) = b }.

Inductive ServicePhase : Type := Signing | Requesting.

(** What the code does that others see. *)
Inductive act : Type :=
  | Phase (phase : ServicePhase)
  | Sent (rq : request)
  | AskedToSign (t : EventTemplate)
  | Progress (received total : Z).

Section Effects.
Context `{Net}.

Record state := mkState { world : World; log : list act }.

Definition M (A : Type) : Type := state → state * (thrown + A).

Definition ret {A} (a : A) : M A := λ s, (s, inr a).
Definition throw {A} (e : thrown) : M A := λ s, (s, inl e).
Definition bind {A B} (m : M A) (k : A → M B) : M B := λ s,
  match m s with
  | (s, inl e) => (s, inl e)
  | (s, inr a) => k a s
  end.
(** [try m catch (e) k]. *)
Definition catch {A} (m : M A) (k : thrown → M A) : M A := λ s,
  match m s with
  | (s, inl e) => k e s
  | r => r
  end.

Definition asks {A} (f : World → A) : M A := λ s, (s, inr (f (world s))).
Definition changes (f : World → World) : M unit := λ s, (mkState (f (world s)) (log s), inr tt).
Definition logs (a : act) : M unit := λ s, (mkState (world s) (log s ++ [a]), inr tt).

(** A pure computation that may throw. *)
Definition lift {A} (m : res A) : M A := match m with Ok a => ret a | Throw msg => throw (AnError (lit msg)) end.

(** [abortable(operation, signal)]: what the awaited operation ends with. *)
Definition abortable {A} (a : act) (operation : World → World * awaited A) : M A := λ s,
  let '(w, r) := operation (world s) in
  let s := mkState w (log s ++ [a]) in
  match r with
  | Settles a => (s, inr a)
  | Rejects e => (s, inl e)
  | Aborts => (s, inl AnAbort)
  end.
End Effects.

Arguments M {_} A : assert.

Declare Scope effect_scope.
Delimit Scope effect_scope with effect.
Notation "'do' x <- m ; k" := (bind m (λ x, k)) (at level 200, x name, m at level 100, k at level 200, right associativity) : effect_scope.
Notation "'do' '_' <- m ; k" := (bind m (λ _, k)) (at level 200, m at level 100, k at level 200, right associativity) : effect_scope.
Notation "'require' c 'else' e ; k" := (if c then k else throw e) (at level 200, c at level 100, e at level 100, k at level 200, right associativity) : effect_scope.

(** ** Reasoning *)

Section Laws.
Context `{Net}.

Lemma bind_inr {A B} (m : M A) (k : A → M B) s s' b : bind m k s = (s', inr b) →
  ∃ s1 a, m s = (s1, inr a) ∧ k a s1 = (s', inr b).
Proof. unfold bind. destruct (m s) as [s1 [e|a]]; [done|]. intros Hk. by exists s1, a. Qed.

Lemma bind_inl {A B} (m : M A) (k : A → M B) s s' e : bind m k s = (s', inl e) →
  m s = (s', inl e) ∨ ∃ s1 a, m s = (s1, inr a) ∧ k a s1 = (s', inl e).
Proof. unfold bind. destruct (m s) as [s1 [e0|a]]; [|intros Hk; right; by exists s1, a]. intros [= <- <-]. by left. Qed.

Lemma catch_inr {A} (m : M A) k s s' a : catch m k s = (s', inr a) → m s = (s', inr a) ∨ ∃ s1 e, m s = (s1, inl e) ∧ k e s1 = (s', inr a).
Proof. unfold catch. destruct (m s) as [s1 [e|b]]; [|by left]. intros Hk. right. by exists s1, e. Qed.

Lemma lift_inr {A} (m : res A) s s' a : lift m s = (s', inr a) → m = Ok a ∧ s' = s.
Proof. destruct m; [|done]. by intros [= <- <-]. Qed.

Lemma abortable_inr {A} a (op : World → World * awaited A) s s' b : abortable a op s = (s', inr b) →
  log s' = log s ++ [a] ∧ op (world s) = (world s', Settles b).
Proof. unfold abortable. destruct (op (world s)) as [w [x|e|]]; [|done..]. by intros [= <- <-]. Qed.

(** The log only grows; [only P] is about what a computation adds to it. *)
Definition only {A} (P : act → Prop) (m : M A) : Prop :=
  ∀ s, ∃ l, log (m s).1 = log s ++ l ∧ Forall P l.

Lemma only_ret {A} P (a : A) : only P (ret a).
Proof. intros s. exists []. by rewrite app_nil_r. Qed.
Lemma only_throw {A} P e : only P (@throw _ A e).
Proof. intros s. exists []. by rewrite app_nil_r. Qed.
Lemma only_lift {A} P (m : res A) : only P (lift m).
Proof. destruct m; [apply only_ret|apply only_throw]. Qed.
Lemma only_asks {A} P (f : World → A) : only P (asks f).
Proof. intros s. exists []. by rewrite app_nil_r. Qed.
Lemma only_changes P f : only P (changes f).
Proof. intros s. exists []. by rewrite app_nil_r. Qed.
Lemma only_logs (P : act → Prop) a : P a → only P (logs a).
Proof. intros Ha s. exists [a]. by repeat constructor. Qed.
Lemma only_abortable {A} (P : act → Prop) a (op : World → World * awaited A) : P a → only P (abortable a op).
Proof. intros Ha s. exists [a]. unfold abortable. destruct (op (world s)) as [w [| |]]; by repeat constructor. Qed.

Lemma only_bind {A B} P (m : M A) (k : A → M B) : only P m → (∀ a, only P (k a)) → only P (bind m k).
Proof.
  intros Hm Hk s. destruct (Hm s) as (l & Hl & Hp). unfold bind. destruct (m s) as [s1 [e|a]]; cbn [fst] in *; [by exists l|].
  destruct (Hk a s1) as (l' & Hl' & Hp'). exists (l ++ l'). rewrite Hl', Hl, app_assoc. split; [done|by apply Forall_app].
Qed.

(** The rest of a computation runs on what the first part gave. *)
Lemma only_bind_of {A B} P (m : M A) (k : A → M B) : only P m → (∀ s s' a, m s = (s', inr a) → only P (k a)) → only P (bind m k).
Proof.
  intros Hm Hk s. destruct (Hm s) as (l & Hl & Hp). unfold bind. destruct (m s) as [s1 [e|a]] eqn:E; cbn [fst] in *; [by exists l|].
  destruct (Hk _ _ _ E s1) as (l' & Hl' & Hp'). exists (l ++ l'). rewrite Hl', Hl, app_assoc. split; [done|by apply Forall_app].
Qed.

Lemma only_catch {A} P (m : M A) k : only P m → (∀ e, only P (k e)) → only P (catch m k).
Proof.
  intros Hm Hk s. destruct (Hm s) as (l & Hl & Hp). unfold catch. destruct (m s) as [s1 [e|a]]; cbn [fst] in *; [|by exists l].
  destruct (Hk e s1) as (l' & Hl' & Hp'). exists (l ++ l'). rewrite Hl', Hl, app_assoc. split; [done|by apply Forall_app].
Qed.

Lemma only_impl {A} (P Q : act → Prop) (m : M A) : (∀ a, P a → Q a) → only P m → only Q m.
Proof. intros Hi Hm s. destruct (Hm s) as (l & Hl & Hp). exists l. split; [done|]. by eapply Forall_impl. Qed.

(** A predicate of worlds that a computation keeps. *)
Definition keeps {A} (P : World → Prop) (m : M A) : Prop := ∀ s, P (world s) → P (world (m s).1).

Lemma keeps_ret {A} P (a : A) : keeps P (ret a).
Proof. by intros s. Qed.
Lemma keeps_throw {A} P e : keeps P (@throw _ A e).
Proof. by intros s. Qed.
Lemma keeps_lift {A} P (m : res A) : keeps P (lift m).
Proof. by destruct m; intros s. Qed.
Lemma keeps_asks {A} P (f : World → A) : keeps P (asks f).
Proof. by intros s. Qed.
Lemma keeps_logs P a : keeps P (logs a).
Proof. by intros s. Qed.
Lemma keeps_changes (P : World → Prop) f : (∀ w, P w → P (f w)) → keeps P (changes f).
Proof. intros Hf s. apply Hf. Qed.
Lemma keeps_abortable {A} (P : World → Prop) a (op : World → World * awaited A) : (∀ w, P w → P (op w).1) → keeps P (abortable a op).
Proof. intros Ho s Hs. specialize (Ho _ Hs). unfold abortable. by destruct (op (world s)) as [w [| |]]. Qed.
Lemma keeps_bind {A B} P (m : M A) (k : A → M B) : keeps P m → (∀ a, keeps P (k a)) → keeps P (bind m k).
Proof. intros Hm Hk s Hs. specialize (Hm s Hs). unfold bind. destruct (m s) as [s1 [e|a]]; [done|]. by apply Hk. Qed.
Lemma keeps_catch {A} P (m : M A) k : keeps P m → (∀ e, keeps P (k e)) → keeps P (catch m k).
Proof. intros Hm Hk s Hs. specialize (Hm s Hs). unfold catch. destruct (m s) as [s1 [e|a]]; [by apply Hk|done]. Qed.

(** What a computation adds to the log, whether it throws or returns. *)
Definition does {A} (Q : thrown → list act → Prop) (R : A → list act → Prop) (m : M A) : Prop :=
  ∀ s, ∃ l, log (m s).1 = log s ++ l ∧ match (m s).2 with inl e => Q e l | inr a => R a l end.

Lemma does_ret {A} (Q : thrown → list act → Prop) R (a : A) : R a [] → does Q R (ret a).
Proof. intros Hr s. exists []. by rewrite app_nil_r. Qed.
Lemma does_throw {A} (Q : thrown → list act → Prop) R e : Q e [] → does Q R (@throw _ A e).
Proof. intros Hq s. exists []. by rewrite app_nil_r. Qed.
Lemma does_lift {A} (Q : thrown → list act → Prop) R (m : res A) :
  (∀ a, m = Ok a → R a []) → (∀ msg, m = Throw msg → Q (AnError (lit msg)) []) → does Q R (lift m).
Proof. intros Hr Hq. destruct m; [by apply does_ret, Hr|by apply does_throw, Hq]. Qed.
Lemma does_asks {A} Q R (f : World → A) : (∀ a, R a []) → does Q R (asks f).
Proof. intros Hr s. exists []. rewrite app_nil_r. split; [done|apply Hr]. Qed.
Lemma does_changes Q R f : R tt [] → does Q R (changes f).
Proof. intros Hr s. exists []. by rewrite app_nil_r. Qed.
Lemma does_logs Q R a : R tt [a] → does Q R (logs a).
Proof. intros Hr s. by exists [a]. Qed.
Lemma does_abortable {A} (Q : thrown → list act → Prop) R a (op : World → World * awaited A) :
  (∀ e, Q e [a]) → (∀ x, R x [a]) → does Q R (abortable a op).
Proof. intros Hq Hr s. exists [a]. unfold abortable. destruct (op (world s)) as [w [x|e|]]; cbn; auto. Qed.

Lemma does_bind {A B} Q (R : A → list act → Prop) R' (m : M A) (k : A → M B) : does Q R m →
  (∀ a l, R a l → does (λ e l', Q e (l ++ l')) (λ b l', R' b (l ++ l')) (k a)) → does Q R' (bind m k).
Proof.
  intros Hm Hk s. destruct (Hm s) as (l & Hl & Hp). unfold bind. destruct (m s) as [s1 [e|a]]; cbn [fst snd] in *; [by exists l|].
  destruct (Hk a l Hp s1) as (l' & Hl' & Hp'). exists (l ++ l'). by rewrite Hl', Hl, app_assoc.
Qed.
Lemma does_catch {A} Q Q' R (m : M A) k : does Q' R m →
  (∀ e l, Q' e l → does (λ e l', Q e (l ++ l')) (λ b l', R b (l ++ l')) (k e)) → does Q R (catch m k).
Proof.
  intros Hm Hk s. destruct (Hm s) as (l & Hl & Hp). unfold catch. destruct (m s) as [s1 [e|a]]; cbn [fst snd] in *; [|by exists l].
  destruct (Hk e l Hp s1) as (l' & Hl' & Hp'). exists (l ++ l'). by rewrite Hl', Hl, app_assoc.
Qed.
Lemma does_impl {A} (Q Q' : thrown → list act → Prop) (R R' : A → list act → Prop) (m : M A) :
  (∀ e l, Q e l → Q' e l) → (∀ a l, R a l → R' a l) → does Q R m → does Q' R' m.
Proof. intros Hq Hr Hm s. destruct (Hm s) as (l & Hl & Hp). exists l. split; [done|]. destruct (m s).2; auto. Qed.
(** A computation that adds nothing to the log. *)
Lemma does_only {A} (Q : thrown → list act → Prop) R (m : M A) : only (λ _, False) m → (∀ e, Q e []) → (∀ a, R a []) → does Q R m.
Proof.
  intros Hm Hq Hr s. destruct (Hm s) as (l & Hl & Hp). exists l. split; [done|].
  destruct l as [|x l]; [|by inversion Hp]. destruct (m s).2; auto.
Qed.
End Laws.

(** Take a computation that returned apart. *)
Ltac run_inr1 :=
  match goal with
  | H : bind _ _ _ = (_, inr _) |- _ => apply bind_inr in H as (? & ? & ? & H)
  | H : lift _ _ = (_, inr _) |- _ => apply lift_inr in H as [? ->]
  | H : abortable _ _ _ = (_, inr _) |- _ => apply abortable_inr in H as [? ?]
  | H : (if ?c then throw _ else _) _ = (_, inr _) |- _ => destruct c eqn:?; [discriminate H|]
  | H : (if ?c then _ else throw _) _ = (_, inr _) |- _ => destruct c eqn:?; [|discriminate H]
  | H : ret _ _ = (_, inr _) |- _ => injection H as <- <-
  | H : throw _ _ = (_, inr _) |- _ => discriminate H
  | H : asks _ _ = (_, inr _) |- _ => injection H as <- <-
  | H : changes _ _ = (_, inr _) |- _ => injection H as <- <-
  | H : logs _ _ = (_, inr _) |- _ => injection H as <- <-
  end.
Ltac run_inr := repeat run_inr1.

(** Show that a computation only does what is allowed. *)
Ltac only_steps :=
  repeat first [ apply only_bind; [|intros] | apply only_catch; [|intros] | solve [auto with wild]
    | match goal with |- only _ (if ?c then _ else _) => let E := fresh "E" in destruct c eqn:E | |- only _ (let _ := _ in _) => cbv zeta end ].

Ltac keeps_steps :=
  repeat first [ apply keeps_bind; [|intros] | apply keeps_catch; [|intros] | solve [auto with wild]
    | match goal with |- keeps _ (if ?c then _ else _) => destruct c | |- keeps _ (let _ := _ in _) => cbv zeta end ].

#[export] Hint Resolve only_ret only_throw only_lift only_asks only_changes : wild.
#[export] Hint Resolve keeps_ret keeps_throw keeps_lift keeps_asks keeps_logs : wild.
