(* ===== verification/Blossom.v ===== *)
(** * Blossom servers ([core/blossom.ts])

    Uploading a file, fetching and verifying one, and the share descriptor. *)

From S2P Require Import Prelude JsString Utf8 Bytes Json JsValue Security Envelope Nostr Net.

Local Open Scope effect_scope.

Definition BLOSSOM_OPERATION_TIMEOUT_MS : Z := 30 * 60 * 1000.

(** The options; the fetch port and the caller's signal are the world's. *)
Record BlossomRequestOptions := mkOptions {
  profile : NetworkProfile; timeoutMs : option Z; authorisationLifetimeSeconds : option Z; replicaServer : option jstr }.

(** The fields a retrieval needs. *)
Record VerifiableBlob := mkVerifiable { vb_url : jstr; vb_sha256 : jstr; vb_size : Z; vb_mimeType : jstr }.

(** ** Streaming UTF-8 *)

(** The start of a character whose rest has not come yet. *)
Definition second_ok (b0 b1 : Z) : bool :=
  if b0 =? 224 then in_range 160 191 b1 else if b0 =? 237 then in_range 128 159 b1
  else if b0 =? 240 then in_range 144 191 b1 else if b0 =? 244 then in_range 128 143 b1 else cont b1.
Definition incomplete (l : bytes) : bool :=
  match l with
  | [b0] => in_range 194 244 b0
  | [b0; b1] => in_range 224 244 b0 && second_ok b0 b1
  | [b0; b1; b2] => in_range 240 244 b0 && second_ok b0 b1 && cont b2
  | _ => false
  end.

(** How many bytes at the end wait for more. *)
Definition tail_length (l : bytes) : nat :=
  let last n := drop (length l - n) l in
  if incomplete (last 1%nat) then 1%nat
  else if (2 <=? length l)%nat && incomplete (last 2%nat) then 2%nat
  else if (3 <=? length l)%nat && incomplete (last 3%nat) then 3%nat else 0%nat.

(** [decoder.decode(value, { stream: true })]: the characters and what waits. *)
Definition decode_chunk (pending value : bytes) : option (list Z * bytes) :=
  let l := pending ++ value in
  let n := (length l - tail_length l)%nat in
  match utf8_points (take n l) with Some cps => Some (cps, drop n l) | None => None end.

Section Blossom.
Context `{Unicode} `{Web} `{Numbers} `{NostrTools} `{Cipher} `{Net}.

(** ** Deadlines *)

Definition aborted (w : World) : bool := timedOut w || cancelled w.

Definition explain (operation : string) (e : thrown) (w : World) : thrown :=
  if timedOut w then AnError (lit ("Blossom " +:+ operation +:+ " timed out."))
  else if cancelled w then AnError (lit ("Blossom " +:+ operation +:+ " cancelled."))
  else e.

(** [requestDeadline], and the [try], [catch] and [finally] around its use. *)
Definition with_deadline {A} (options : BlossomRequestOptions) (operation : string) (body : M A) : M A :=
  let ms := default BLOSSOM_OPERATION_TIMEOUT_MS (timeoutMs options) in
  require is_safe_integer ms && (0 <? ms) else AnError (lit "Blossom timeout must be a positive integer.");
  do _ <- changes (openDeadline ms);
  do a <- catch body (λ e, do thrown <- asks (explain operation e); do _ <- changes closeDeadline; throw thrown);
  do _ <- changes closeDeadline;
  ret a.

(** [if (deadline.signal.aborted) throw deadline.signal.reason]. *)
Definition throwIfAborted : M unit := do a <- asks aborted; if a then throw AnAbort else ret tt.

(** [sha256Hex] of a blob. *)
Definition blobHash (b : bytes) : M jstr := do signal <- asks hashSignal; lift (sha256Hex signal (blobStream b)).

(** ** Files *)

Definition inspectFile (file : File) (source : bool) : M InspectedFile :=
  do _ <- lift (if source then assertPrototypeFileSize (zlen (f_bytes file)) else assertPrototypeTransferSize (zlen (f_bytes file)));
  do hash <- blobHash (f_bytes file);
  let name := sanitiseFileName (f_name file) in
  ret (mkInspected (f_bytes file) name (fileExtension name) hash (zlen (f_bytes file))
         (toLowerCase (if non_empty (f_type file) then f_type file else lit "application/octet-stream"))).

(** [application/x-www-form-urlencoded]. *)
Definition form_encode (s : jstr) : jstr :=
  flat_map (λ b, if is_alnum b || (b =? 42) || (b =? 45) || (b =? 46) || (b =? 95) then [b]
                 else if b =? 32 then [43] else [37; hex_upper (b / 16); hex_upper (b mod 16)]) (utf8_encode s).

Definition buildBlossomUri (file : InspectedFile) (server pubkey : jstr) (profile : NetworkProfile) : res jstr :=
  let! origin := normaliseBlossomServer server profile in
  match newURL origin with
  | None => Throw "Invalid URL"
  | Some url =>
      let! author := assertHex64 pubkey "Author public key" in
      let query := join [38] [lit "xs=" ++ form_encode (hostname url); lit "as=" ++ form_encode author; lit "sz=" ++ form_encode (decimal (if_size file))] in
      Ok (lit "blossom:" ++ if_sha256 file ++ lit "." ++ if_extension file ++ lit "?" ++ query)
  end.

(** ** Uploading *)

(** A number above an integer; [NaN] and the infinities are not finite. *)
Definition finite_above (n : option jnum) (z : Z) : bool :=
  match n with
  | Some (Int y) => z <? y
  | Some NegZero => z <? 0
  | Some (Frac a b) => z * b <? a
  | _ => false
  end.

(** [Number(headers.get("Content-Length"))]; a missing header is [null]. *)
Definition content_length (r : response) : option jnum :=
  match rs_contentLength r with Some s => string_number s | None => Some (Int 0) end.

Definition too_large : thrown := AnError (lit "Blossom descriptor response is unexpectedly large.").
Definition not_utf8 : thrown := AnError (lit "Blossom descriptor is not valid UTF-8.").

(** The [catch] of [readTextCapped]. *)
Definition text_error (e : thrown) : thrown := match e with ATypeError _ => not_utf8 | _ => e end.

Fixpoint read_text (reads : list chunk_read) (maximumBytes received : Z) (pending : bytes) (text : list Z) : thrown + list Z :=
  match reads with
  | [] => match pending with [] => inr text | _ => inl not_utf8 end
  | NoValue :: reads => read_text reads maximumBytes received pending text
  | ReadRejects e :: _ => inl (text_error e)
  | ReadAborts :: _ => inl AnAbort
  | Chunk value :: reads =>
      let received := received + zlen value in
      if maximumBytes <? received then inl too_large
      else match decode_chunk pending value with
           | None => inl not_utf8
           | Some (cps, pending) => read_text reads maximumBytes received pending (text ++ cps)
           end
  end.

(** The decoder leaves out a byte order mark. *)
Definition text_of (cps : list Z) : jstr :=
  flat_map utf16_char (match cps with cp :: rest => if cp =? 65279 then rest else cps | [] => [] end).

Definition readTextCapped (r : response) (maximumBytes : Z) : thrown + jstr :=
  if finite_above (content_length r) maximumBytes then inl too_large
  else match rs_body r with
       | None => inr []
       | Some reads => match read_text reads maximumBytes 0 [] [] with inl e => inl e | inr cps => inr (text_of cps) end
       end.

(** [a || b || `HTTP ${status}`], made safe to show. *)
Definition diagnostic (r : response) (reason : option jstr) : jstr :=
  let or_ (s t : jstr) := if non_empty s then s else t in
  safeDiagnostic (or_ (default [] reason) (or_ (rs_statusText r) (lit "HTTP " ++ int_text (rs_status r)))).

Definition upload_request (server : jstr) (inspected : InspectedFile) (authorisation : jstr) : request :=
  mkRequest PUT (server ++ lit "/upload")
    [("Authorization", authorisation); ("Content-Type", if_type inspected); ("X-SHA-256", if_sha256 inspected)]
    (Some (if_file inspected)) policy.

Definition read_descriptor (r : response) (inspected : InspectedFile) (server : jstr) (profile : NetworkProfile) : thrown + BlobDescriptor :=
  if negb ((rs_status r =? 200) || (rs_status r =? 201))
  then inl (AnError (lit "Blossom upload failed: " ++ diagnostic r (rs_reason r)))
  else match readTextCapped r (64 * 1024) with
  | inl e => inl e
  | inr text =>
      match parse text with
      | None => inl (AnError (lit "Blossom returned a non-JSON descriptor."))
      | Some parsed =>
          match validateBlobDescriptor parsed (if_sha256 inspected) (if_size inspected) (Some (if_type inspected)) profile with
          | Throw msg => inl (AnError (lit msg))
          | Ok descriptor =>
              match newURL (bd_url descriptor) with
              | None => inl (ATypeError (lit "Invalid URL"))
              | Some url =>
                  if eqb (origin url) server then inr descriptor
                  else inl (AnError (lit "Blossom moved the payload to an unapproved origin."))
              end
          end
      end
  end.

Definition raise {A} (r : thrown + A) : M A := match r with inl e => throw e | inr a => ret a end.

Definition uploadToBlossom (inspected : InspectedFile) (serverInput pubkey : jstr) (options : BlossomRequestOptions) : M BlobDescriptor :=
  do server <- lift (normaliseBlossomServer serverInput (profile options));
  do now <- asks clock;
  do template <- lift (buildUploadAuthorisation (if_sha256 inspected) server now (default 90 (authorisationLifetimeSeconds options)) (profile options));
  with_deadline options "upload" (
    do _ <- throwIfAborted;
    do signed <- abortable (AskedToSign template) (signer template);
    do authorisation <- lift (assertSignedEventExactly template signed (Some pubkey));
    do _ <- throwIfAborted;
    do later <- asks clock;
    do header <- lift (encodeNostrAuthorisation (raw authorisation) later);
    let rq := upload_request server inspected header in
    do r <- abortable (Sent rq) (network rq);
    raise (read_descriptor r inspected server (profile options))).

(** ** Fetching *)

Definition retrieval_url (resolved : VerifiableBlob) (options : BlossomRequestOptions) : res jstr :=
  let! signedUrl := normaliseBlossomUrl (vb_url resolved) (Some (vb_sha256 resolved)) (profile options) in
  let replica := trim (default [] (replicaServer options)) in
  if non_empty replica then
    let! server := normaliseBlossomServer replica (profile options) in
    let! hash := assertHex64 (vb_sha256 resolved) "File SHA-256" in
    Ok (server ++ lit "/" ++ hash)
  else Ok signedUrl.

Definition get_request (url : jstr) : request := mkRequest GET url [] None policy.

(** The reads of a body, with what they report. *)
Fixpoint read_body (reads : list chunk_read) (size received : Z) (chunks : list bytes) : M (list bytes) :=
  match reads with
  | [] =>
      require received =? size else IntegrityError "Blossom returned fewer bytes than the signed event declares.";
      ret chunks
  | NoValue :: reads => read_body reads size received chunks
  | ReadRejects e :: _ => throw e
  | ReadAborts :: _ => throw AnAbort
  | Chunk value :: reads =>
      let received := received + zlen value in
      require negb (size <? received) else IntegrityError "Blossom returned more bytes than the signed event permits.";
      do _ <- logs (Progress received size);
      read_body reads size received (chunks ++ [value])
  end.

Definition receive_blob (r : response) (url : jstr) (resolved : VerifiableBlob) : M bytes :=
  require response_ok r else HttpError (lit "Blossom retrieval failed: " ++ diagnostic r None) (rs_status r);
  require negb (non_empty (rs_url r) && negb (eqb (rs_url r) url)) else AnError (lit "Blossom retrieval changed URL unexpectedly.");
  require (match rs_contentLength r with
           | Some text => match string_number text with Some n => is_number n (vb_size resolved) | None => false end
           | None => true
           end) else IntegrityError "Blossom advertised a byte count that differs from the signed event.";
  match rs_body r with
  | None => throw (AnError (lit "Blossom response has no readable body."))
  | Some reads =>
      do chunks <- read_body reads (vb_size resolved) 0 [];
      let blob := concat chunks in
      do hash <- blobHash blob;
      require eqb hash (vb_sha256 resolved) else IntegrityError "Blossom bytes failed SHA-256 verification.";
      ret blob
  end.

Definition fetchVerifiedBlob (resolved : VerifiableBlob) (options : BlossomRequestOptions) : M bytes :=
  do url <- lift (retrieval_url resolved options);
  with_deadline options "retrieval" (
    do _ <- throwIfAborted;
    let rq := get_request url in
    do r <- abortable (Sent rq) (network rq);
    receive_blob r url resolved).

(** ** Share descriptors *)

Record ShareDescriptor := mkShare {
  sh_url : jstr; sh_sha256 : jstr; sh_size : Z; sh_key : jstr; sh_name : jstr; sh_bytes : Z; sh_expires : Z }.

(** [ShareDescriptorError] by its reason, and the [TypeError] of [new URL]. *)
Inductive share_error : Type := InvalidDescriptor (message : string) | TooLarge | NotAnAddress.

Definition SHARE_DESCRIPTOR_MAX_BYTES : Z := 16364.
Definition SHARE_DESCRIPTOR_KEYS : jstr := lit "bytes,expires,key,name,sha256,size,url,v".
Definition SHARE_KEY (s : jstr) : bool :=
  startsWith s (lit "wbk1_") && (zlen s =? 48) && forallb is_b64url (drop 5 s).

(** [typeof v === "number" && Number.isSafeInteger(v) && v > 0]. *)
Definition positive_integer (v : option json) : option Z :=
  match v with
  | Some (JNum n) => match safe_integer (Some n) with Some z => if 0 <? z then Some z else None | None => None end
  | _ => None
  end.

Definition string_member (k : string) (ms : list (jstr * json)) : option jstr :=
  match get_member (lit k) ms with Some (JStr s) => Some s | _ => None end.

Definition invalidDescriptor (message : string) : share_error + ShareDescriptor := inl (InvalidDescriptor message).

(** The last piece of a path. *)
Definition last_segment (path : jstr) : jstr := List.last (split (Z.eqb 47) path) [].

Definition parseShareDescriptor (payload : bytes) (profile : NetworkProfile) : share_error + ShareDescriptor :=
  if (zlen payload =? 0) || (SHARE_DESCRIPTOR_MAX_BYTES <? zlen payload) then invalidDescriptor "The share details have an unexpected size."
  else match utf8_decode false payload ≫= parse with
  | None => invalidDescriptor "The share details are not valid JSON."
  | Some (JObj candidate) =>
      if negb (eqb (sorted_keys candidate) SHARE_DESCRIPTOR_KEYS) then invalidDescriptor "The share details have unexpected fields."
      else if negb (match string_member "v" candidate with Some v => eqb v (lit "wildbloom-share/1") | None => false end)
      then invalidDescriptor "The share details have an unsupported version."
      else match string_member "sha256" candidate with
      | None => invalidDescriptor "The share details have an invalid SHA-256."
      | Some sha256 =>
          if negb (HEX_64 sha256) then invalidDescriptor "The share details have an invalid SHA-256."
          else match string_member "url" candidate with
          | None => invalidDescriptor "The share details have an invalid address."
          | Some url =>
              match normaliseBlossomUrl url (Some sha256) profile with
              | Throw _ => invalidDescriptor "The share details have an invalid address."
              | Ok normalised =>
                  match newURL normalised with None => inl NotAnAddress | Some parsedUrl =>
                  if negb (eqb normalised url) || negb (eqb (last_segment (pathname parsedUrl)) sha256)
                  then invalidDescriptor "The share address must end with the SHA-256."
                  else match string_member "key" candidate with
                  | None => invalidDescriptor "The share details have an invalid key."
                  | Some key =>
                      if negb (SHARE_KEY key) then invalidDescriptor "The share details have an invalid key."
                      else match string_member "name" candidate with
                      | None => invalidDescriptor "The share details have an invalid name."
                      | Some name =>
                          if negb (non_empty name) || negb (eqb (sanitiseFileName name) name)
                          then invalidDescriptor "The share details have an invalid name."
                          else match positive_integer (get_member (lit "size") candidate), positive_integer (get_member (lit "bytes") candidate) with
                          | Some size, Some count =>
                              match positive_integer (get_member (lit "expires") candidate) with
                              | None => invalidDescriptor "The share details have an invalid expiry."
                              | Some expires =>
                                  if (MAX_PROTOTYPE_TRANSFER_BYTES <? size) || (MAX_PROTOTYPE_FILE_BYTES <? count) then inl TooLarge
                                  else inr (mkShare normalised sha256 size key name count expires)
                              end
                          | _, _ => invalidDescriptor "The share details have an invalid size."
                          end
                      end
                  end
                  end
              end
          end
      end
  | Some _ => invalidDescriptor "The share details have the wrong shape."
  end.

Definition fetchVerifiedShare (descriptor : ShareDescriptor) (options : BlossomRequestOptions) : M bytes :=
  fetchVerifiedBlob (mkVerifiable (sh_url descriptor) (sh_sha256 descriptor) (sh_size descriptor) (lit "application/vnd.forgesworn.encrypted")) options.
End Blossom.
