(* ===== verification/BlossomFacts.v ===== *)
(** * What the Blossom client promises

    Whatever a server answers, the client keeps to what was signed. *)

From S2P Require Import Prelude JsString Utf8 Bytes Json JsValue Security Envelope Nostr NostrFacts Net Blossom.

Section Facts.
Context `{Unicode} `{Web} `{Numbers} `{NostrTools} `{Cipher} `{Net} `{!NetLaws}.

(** ** Deadlines *)

Lemma with_deadline_inr {A} options operation (body : M A) s s' a : with_deadline options operation body s = (s', inr a) →
  ∃ s1 s2, log s1 = log s ∧ body s1 = (s2, inr a) ∧ log s' = log s2.
Proof.
  unfold with_deadline. intros Hr. run_inr. unfold catch in *. 
  match goal with Hb : match body ?s1 with _ => _ end = _ |- _ => destruct (body s1) as [s2 [e|b]] eqn:E; [by repeat run_inr1|]; injection Hb as <- <-; exists s1, s2 end.
  done.
Qed.

Lemma only_deadline {A} P options operation (body : M A) : only P body → only P (with_deadline options operation body).
Proof. intros Hb. unfold with_deadline. only_steps. Qed.

Lemma only_throwIfAborted P : only P throwIfAborted.
Proof. unfold throwIfAborted. only_steps. Qed.

Lemma only_blobHash P b : only P (blobHash b).
Proof. unfold blobHash. only_steps. Qed.

(** ** Hashing *)

Lemma updateBlobHash_ok signal k hashed chunks r : updateBlobHash signal k hashed chunks = Ok r → r = hashed ++ concat chunks.
Proof.
  revert k hashed. induction chunks as [|c chunks IH]; intros k hashed Hr; cbn [updateBlobHash] in Hr; inv_ok.
  - by rewrite app_nil_r.
  - apply IH in Hr as ->. cbn. by rewrite app_assoc.
Qed.

Lemma blobHash_inr b s s' hash : blobHash b s = (s', inr hash) → hash = toHex (sha256 b) ∧ s' = s.
Proof.
  unfold blobHash. intros Hr. run_inr. unfold sha256Hex in *. inv_ok. split; [|done].
  match goal with Hu : updateBlobHash _ _ _ _ = Ok _ |- _ => apply updateBlobHash_ok in Hu as -> end. by rewrite stream_concat.
Qed.

(** ** Fetching *)

Lemma read_body_inr reads size received chunks s s' cs : zlen (concat chunks) = received →
  read_body reads size received chunks s = (s', inr cs) → zlen (concat cs) = size.
Proof.
  revert received chunks s. induction reads as [|[value| |e|] reads IH]; intros received chunks s Hl Hr; cbn [read_body] in Hr; run_inr.
  - bool_prop. lia.
  - eapply IH; [|exact Hr]. rewrite concat_app, zlen_app. cbn. rewrite app_nil_r. lia.
  - by eapply IH.
Qed.

Lemma only_read_body P reads size received chunks : (∀ n, n <= size → P (Progress n size)) → only P (read_body reads size received chunks).
Proof.
  intros Hp. revert received chunks. induction reads as [|[value| |e|] reads IH]; intros received chunks; cbn [read_body]; only_steps; auto.
  apply only_logs, Hp. match goal with E : negb _ = true |- _ => apply negb_true_iff, Z.ltb_ge in E; done end.
Qed.

Lemma receive_blob_inr r url resolved s s' blob : receive_blob r url resolved s = (s', inr blob) →
  zlen blob = vb_size resolved ∧ toHex (sha256 blob) = vb_sha256 resolved.
Proof.
  unfold receive_blob. intros Hr. run_inr. destruct (rs_body r) as [reads|]; [|discriminate Hr]. run_inr.
  match goal with Hb : read_body _ _ _ _ _ = _, Hh : blobHash _ _ = _ |- _ =>
    apply read_body_inr in Hb; [|done]; apply blobHash_inr in Hh as [-> _] end.
  split; [done|]. by apply eqb_eq.
Qed.

(** What a retrieval may do: one kind of request, and progress within the size. *)
Definition retrieving (url : jstr) (size : Z) (a : act) : Prop :=
  a = Sent (get_request url) ∨ ∃ n, n <= size ∧ a = Progress n size.

Lemma only_receive_blob r url resolved : only (retrieving url (vb_size resolved)) (receive_blob r url resolved).
Proof.
  unfold receive_blob. only_steps. destruct (rs_body r) as [reads|]; only_steps.
  - apply only_read_body. intros n Hn. right. by exists n.
Qed.


Lemma fetch_inr resolved options s s' blob : fetchVerifiedBlob resolved options s = (s', inr blob) →
  zlen blob = vb_size resolved ∧ toHex (sha256 blob) = vb_sha256 resolved.
Proof.
  unfold fetchVerifiedBlob. intros Hr. run_inr. apply with_deadline_inr in Hr as (s1 & s2 & _ & Hr & _). run_inr. by eapply receive_blob_inr.
Qed.

Lemma bind_lift_Ok {A B} (m : res A) (a : A) (k : A → M B) s : m = Ok a → bind (lift m) k s = k a s.
Proof. by intros ->. Qed.

Lemma bind_lift_Throw {A B} (m : res A) msg (k : A → M B) s : m = Throw msg → bind (lift m) k s = (s, inl (AnError (lit msg))).
Proof. by intros ->. Qed.

(** What was requested, and what came back, of a retrieval. *)
Lemma fetch_log resolved options s : ∃ l, log (fetchVerifiedBlob resolved options s).1 = log s ++ l ∧
  Forall (λ a, ∃ url, retrieval_url resolved options = Ok url ∧ retrieving url (vb_size resolved) a) l.
Proof.
  unfold fetchVerifiedBlob. destruct (retrieval_url resolved options) as [url|msg] eqn:E.
  - rewrite (bind_lift_Ok (Ok url) url) by done.
    assert (only (retrieving url (vb_size resolved)) (with_deadline options "retrieval"
      (bind throwIfAborted (λ _, bind (abortable (Sent (get_request url)) (network (get_request url))) (λ r, receive_blob r url resolved))))) as Ho.
    { apply only_deadline, only_bind; [apply only_throwIfAborted|intros _]. apply only_bind; [|intros; apply only_receive_blob].
      apply only_abortable. by left. }
    destruct (Ho s) as (l & Hl & Hp). exists l. split; [exact Hl|]. eapply Forall_impl; [exact Hp|]. intros a Ha. by exists url.
  - rewrite (bind_lift_Throw (Throw msg) msg) by done. exists []. by rewrite app_nil_r.
Qed.

(** ** A server that answers *)

(** Worlds in which nothing is aborted and no deadline passes. *)
Record steady (Calm : World → Prop) : Prop := {
  sy_going : ∀ w, Calm w → aborted w = false;
  sy_hashing : ∀ w k, Calm w → hashSignal w k = false;
  sy_open : ∀ ms w, Calm w → Calm (openDeadline ms w);
  sy_close : ∀ w, Calm w → Calm (closeDeadline w);
  sy_signer : ∀ t w, Calm w → Calm (signer t w).1;
  sy_network : ∀ rq w, Calm w → Calm (network rq w).1;
}.

(** A response with the bytes of an object, in chunks of any size. *)
Record delivers (r : response) (url : jstr) (blob : bytes) : Prop := {
  dl_ok : response_ok r = true;
  dl_url : rs_url r = [] ∨ rs_url r = url;
  dl_length : match rs_contentLength r with
              | Some text => string_number text = Some (Int (zlen blob))
              | None => True
              end;
  dl_body : ∃ chunks, rs_body r = Some (map Chunk chunks) ∧ concat chunks = blob;
}.

Definition serves (Calm : World → Prop) (url : jstr) (blob : bytes) : Prop :=
  ∀ w, Calm w → ∃ w' r, network (get_request url) w = (w', Settles r) ∧ delivers r url blob.

Definition deadline_ok (options : BlossomRequestOptions) : Prop :=
  0 < default BLOSSOM_OPERATION_TIMEOUT_MS (timeoutMs options) <= max_safe_integer.

Lemma keeps_read_body P reads size received chunks : keeps P (read_body reads size received chunks).
Proof.
  revert received chunks. induction reads as [|[value| |e|] reads IH]; intros received chunks; cbn [read_body]; keeps_steps; apply IH.
Qed.

Lemma keeps_deadline {A} Calm options operation (body : M A) : steady Calm → keeps Calm body → keeps Calm (with_deadline options operation body).
Proof.
  intros Hs Hb. unfold with_deadline. keeps_steps; apply keeps_changes; intros; by (apply (sy_open _ Hs) || apply (sy_close _ Hs)).
Qed.

Lemma keeps_fetch Calm resolved options : steady Calm → keeps Calm (fetchVerifiedBlob resolved options).
Proof.
  intros Hs. unfold fetchVerifiedBlob. keeps_steps. apply keeps_deadline; [done|]. unfold throwIfAborted. keeps_steps.
  - apply keeps_abortable. intros w. by apply (sy_network _ Hs).
  - unfold receive_blob. keeps_steps. destruct (rs_body _) as [reads|]; keeps_steps. apply keeps_read_body.
Qed.

Lemma read_body_served chunks size received done_ s : received = zlen (concat done_) → received + zlen (concat chunks) = size →
  ∃ s', read_body (map Chunk chunks) size received done_ s = (s', inr (done_ ++ chunks)) ∧ world s' = world s.
Proof.
  revert received done_ s. induction chunks as [|c chunks IH]; intros received done_ s Hr Hs; cbn [map read_body].
  - rewrite (proj2 (Z.eqb_eq _ _)) by (cbn [concat] in Hs; rewrite zlen_nil in Hs; lia). rewrite app_nil_r. by exists s.
  - cbn [concat] in Hs. rewrite zlen_app in Hs. pose proof (zlen_nonneg (concat chunks)).
    rewrite (proj2 (Z.ltb_ge _ _)) by lia. cbn [negb].
    destruct (IH (received + zlen c) (done_ ++ [c]) (mkState (world s) (log s ++ [Progress (received + zlen c) size]))) as (s' & Hb & Hw).
    + rewrite concat_app, zlen_app. cbn. rewrite app_nil_r. lia.
    + lia.
    + exists s'. rewrite <- app_assoc in Hb. by split.
Qed.

Lemma updateBlobHash_quiet signal k hashed chunks : (∀ n, signal n = false) → updateBlobHash signal k hashed chunks = Ok (hashed ++ concat chunks).
Proof.
  intros Hq. revert k hashed. induction chunks as [|c chunks IH]; intros k hashed; cbn [updateBlobHash]; unfold assertActive; rewrite !Hq; cbn [negb guard rbind].
  - by rewrite app_nil_r.
  - by rewrite IH, <- app_assoc.
Qed.

Lemma blobHash_quiet b s : (∀ k, hashSignal (world s) k = false) → blobHash b s = (s, inr (toHex (sha256 b))).
Proof.
  intros Hq. unfold blobHash, bind, asks, sha256Hex. rewrite updateBlobHash_quiet by done. cbn [rbind]. unfold assertActive. rewrite Hq.
  cbn [negb guard rbind app]. by rewrite stream_concat.
Qed.

Lemma receive_served Calm r url resolved blob s : steady Calm → Calm (world s) → delivers r url blob →
  zlen blob = vb_size resolved → toHex (sha256 blob) = vb_sha256 resolved →
  ∃ s', receive_blob r url resolved s = (s', inr blob) ∧ world s' = world s.
Proof.
  intros Hs Hw [Hok Hu Hl (chunks & Hb & <-)] Hsize Hhash. unfold receive_blob. rewrite Hok.
  assert (non_empty (rs_url r) && negb (eqb (rs_url r) url) = false) as ->.
  { destruct Hu as [-> | ->]; [done|]. rewrite (proj2 (eqb_eq url url) eq_refl). apply andb_false_r. }
  cbn [negb]. assert (match rs_contentLength r with Some text => match string_number text with Some n => is_number n (vb_size resolved) | None => false end | None => true end = true) as ->.
  { destruct (rs_contentLength r) as [text|]; [|done]. rewrite Hl. cbn [is_number]. by rewrite Hsize, Z.eqb_refl. }
  rewrite Hb. destruct (read_body_served chunks (vb_size resolved) 0 [] s) as (s' & Hr & Hw'); [done|lia|].
  unfold bind. rewrite Hr. cbn [app]. rewrite blobHash_quiet by (intros k; rewrite Hw'; by apply (sy_hashing _ Hs)).
  rewrite Hhash, (proj2 (eqb_eq _ _) eq_refl). exists s'. done.
Qed.

(** A blob that is served is fetched. *)
Lemma fetch_served Calm resolved options url blob s : steady Calm → Calm (world s) → deadline_ok options →
  retrieval_url resolved options = Ok url → serves Calm url blob →
  zlen blob = vb_size resolved → toHex (sha256 blob) = vb_sha256 resolved →
  ∃ s', fetchVerifiedBlob resolved options s = (s', inr blob).
Proof.
  intros Hs Hw Hd Hu Hv Hsize Hhash. unfold fetchVerifiedBlob. rewrite Hu, (bind_lift_Ok (Ok url) url) by done.
  unfold with_deadline. assert (is_safe_integer (default BLOSSOM_OPERATION_TIMEOUT_MS (timeoutMs options)) && (0 <? default BLOSSOM_OPERATION_TIMEOUT_MS (timeoutMs options)) = true) as ->.
  { unfold deadline_ok in Hd. unfold is_safe_integer. apply andb_true_iff. lia. }
  set (ms := default BLOSSOM_OPERATION_TIMEOUT_MS (timeoutMs options)). set (s1 := mkState (openDeadline ms (world s)) (log s)).
  assert (Calm (world s1)) as Hw1 by (by apply (sy_open _ Hs)).
  destruct (Hv _ Hw1) as (w2 & r & Hn & Hr).
  assert (Calm w2) as Hw2 by (pose proof (sy_network _ Hs (get_request url) _ Hw1) as Hk; by rewrite Hn in Hk).
  destruct (receive_served Calm r url resolved blob (mkState w2 (log s1 ++ [Sent (get_request url)])) Hs Hw2 Hr Hsize Hhash) as (s3 & Hf & _).
  eexists. unfold bind at 1, changes at 1. fold s1. unfold bind at 1, catch. unfold throwIfAborted.
  unfold bind at 1. unfold bind at 1, asks at 1. rewrite (sy_going _ Hs _ Hw1). unfold ret at 1.
  unfold bind at 1, abortable. rewrite Hn, Hf. reflexivity.
Qed.

(** C24: whatever the server answers, a retrieval sends nothing but the one
    request for the signed address, or the replica the person chose, without
    cookies, referrer, cache or redirects; it reports no more progress than the
    signed size; and it returns only bytes of the signed length whose SHA-256 is
    the signed one. *)
Theorem fetched_as_signed resolved options s s' r : fetchVerifiedBlob resolved options s = (s', r) →
  (∃ l, log s' = log s ++ l ∧
    Forall (λ a, ∃ url, retrieval_url resolved options = Ok url ∧
      (a = Sent (get_request url) ∨ ∃ n, n <= vb_size resolved ∧ a = Progress n (vb_size resolved))) l) ∧
  (∀ blob, r = inr blob → zlen blob = vb_size resolved ∧ toHex (sha256 blob) = vb_sha256 resolved).
Proof.
  intros Hr. split.
  - destruct (fetch_log resolved options s) as (l & Hl & Hp). rewrite Hr in Hl. by exists l.
  - intros blob ->. by eapply fetch_inr.
Qed.

(** ** Uploading *)

(** A header that authorises now, and for a short time, what the event says. *)
Record authorises (now : Z) (header : jstr) (event : SignedNostrEvent) (hash : jstr) : Prop := {
  au_verified : verified (raw event) = Some event;
  au_header : header = lit "Nostr " ++ btoa (utf8_encode (stringify (raw event)));
  au_time : ∃ created expiration, safe_integer (Some (created_at event)) = Some created ∧
    created < now < expiration ∧ 30 <= expiration - created <= 300;
  au_purpose : ∃ server, content event = lit "Upload blob " ++ hash ++ lit " to " ++ server ∧ server_scope server = true;
}.

Lemma encode_authorises v now header : encodeNostrAuthorisation v now = Ok header → raw <$> verified v = Some v →
  ∃ event hash, authorises now header event hash ∧ raw event = v ∧ HEX_64 hash = true.
Proof.
  unfold encodeNostrAuthorisation. intros He Hv. destruct (verified v) as [event|] eqn:Ev; [|discriminate He]. cbn in Hv. injection Hv as Hv.
  inv_ok. destruct (safe_integer (Some (created_at event))) as [created|] eqn:Ec; [|discriminate He]. inv_ok.
  destruct (safe_integer (string_number _)) as [expiration|] eqn:Ex; [|discriminate He]. inv_ok. bool_prop.
  match goal with Hc : eqb (content event) (_ ++ ?h ++ _ ++ ?sv) = true |- _ => exists event, h; apply eqb_eq in Hc; rename Hc into Hcontent; rename sv into server end.
  split_and!; [|done|].
  - split; [by rewrite Hv|done| |by exists server]. exists created, expiration. split_and!; try done; lia.
  - match goal with Hh : assertHex64 _ _ = Ok _ |- _ => unfold assertHex64 in Hh; inv_ok; done end.
Qed.

Lemma assertSigned_verified template v expected e : assertSignedEventExactly template (Some v) expected = Ok e → verified v = Some e ∧ raw e = v.
Proof.
  intros Ha. destruct v as [| | | | |ms]; try discriminate Ha. cbn [assertSignedEventExactly] in Ha. inv_ok.
  destruct (verified (JObj ms)) as [e'|] eqn:Ev; [|discriminate].
  assert (e' = e) as -> by (destruct expected; inv_ok; congruence). split; [done|].
  unfold verified in Ev. destruct (event_of (JObj ms)) as [e'|] eqn:Ee; [|done]. apply event_of_members in Ee as (? & _ & Hr & _).
  destruct (_ && _); [|done]. congruence.
Qed.

(** The only things an upload does. *)
Definition uploading (inspected : InspectedFile) (serverInput pubkey : jstr) (options : BlossomRequestOptions) (a : act) : Prop :=
  ∃ server now template,
    normaliseBlossomServer serverInput (profile options) = Ok server ∧
    buildUploadAuthorisation (if_sha256 inspected) server now (default 90 (authorisationLifetimeSeconds options)) (profile options) = Ok template ∧
    (a = AskedToSign template ∨
     ∃ signed event later header hash, assertSignedEventExactly template (Some signed) (Some pubkey) = Ok event ∧
       authorises later header event hash ∧ a = Sent (upload_request server inspected header)).

Lemma only_raise {A} P (r : thrown + A) : only P (raise r).
Proof. destruct r; [apply only_throw|apply only_ret]. Qed.

Lemma only_upload inspected serverInput pubkey options :
  only (uploading inspected serverInput pubkey options) (uploadToBlossom inspected serverInput pubkey options).
Proof.
  unfold uploadToBlossom. apply only_bind_of; [apply only_lift|intros s s' server [Hs _]%lift_inr].
  apply only_bind; [apply only_asks|intros now]. apply only_bind_of; [apply only_lift|intros s1 s1' template [Ht _]%lift_inr].
  apply only_deadline. apply only_bind; [apply only_throwIfAborted|intros _].
  apply only_bind; [apply only_abortable; exists server, now, template; auto|intros signed].
  apply only_bind_of; [apply only_lift|intros s2 s2' event [He _]%lift_inr].
  apply only_bind; [apply only_throwIfAborted|intros _]. apply only_bind; [apply only_asks|intros later].
  apply only_bind_of; [apply only_lift|intros s3 s3' header [Hh _]%lift_inr].
  apply only_bind; [|intros; apply only_raise]. apply only_abortable. exists server, now, template. split_and!; [done..|]. right.
  destruct signed as [v|]; [|discriminate He]. destruct (assertSigned_verified _ _ _ _ He) as [Hv Hr].
  destruct (encode_authorises _ _ _ Hh) as (event' & hash & Ha & Hr' & _); [by rewrite Hr, Hv; cbn; f_equal|].
  assert (event' = event) as -> by (pose proof (au_verified _ _ _ _ Ha) as Hq; congruence).
  by exists v, event, later, header, hash.
Qed.

Lemma read_descriptor_inr r inspected server profile d : read_descriptor r inspected server profile = inr d →
  bd_sha256 d = if_sha256 inspected ∧ bd_size d = if_size inspected ∧ ∃ url, newURL (bd_url d) = Some url ∧ origin url = server.
Proof.
  unfold read_descriptor. destruct (negb _); [done|]. destruct (readTextCapped r _) as [|text]; [done|]. destruct (parse text) as [parsed|]; [|done].
  destruct (validateBlobDescriptor _ _ _ _ _) as [descriptor|] eqn:Ev; [|done]. destruct (newURL (bd_url descriptor)) as [url|] eqn:Eu; [|done].
  destruct (eqb (origin url) server) eqn:Eo; [|done]. intros [= <-]. apply eqb_eq in Eo.
  unfold validateBlobDescriptor in Ev. inv_ok. destruct (safe_integer _) as [size|]; [|done]. inv_ok.
  destruct (safe_integer _) as [uploaded|]; [|done]. inv_ok. cbn in *. bool_prop.
  match goal with Hq : eqb _ _ = true |- _ => apply eqb_eq in Hq end. split_and!; [done..|]. by exists url.
Qed.

(** C26: an upload asks the signer for nothing but the authorisation for exactly
    this hash and server; it sends the file to that server only, and only
    with a header whose event is that template signed by the given key, valid
    now and for five minutes at most; and it returns only a descriptor for the
    same hash and size on the same origin. *)
Theorem upload_keeps_scope inspected serverInput pubkey options s s' r :
  uploadToBlossom inspected serverInput pubkey options s = (s', r) →
  (∃ l, log s' = log s ++ l ∧ Forall (uploading inspected serverInput pubkey options) l) ∧
  (∀ d, r = inr d → bd_sha256 d = if_sha256 inspected ∧ bd_size d = if_size inspected ∧
     ∃ url server, newURL (bd_url d) = Some url ∧ normaliseBlossomServer serverInput (profile options) = Ok server ∧ origin url = server).
Proof.
  intros Hr. split.
  - destruct (only_upload inspected serverInput pubkey options s) as (l & Hl & Hp). rewrite Hr in Hl. by exists l.
  - intros d ->. unfold uploadToBlossom in Hr. run_inr. apply with_deadline_inr in Hr as (s1 & s2 & _ & Hr & _). run_inr.
    unfold raise in Hr. destruct (read_descriptor _ _ _ _) as [|d'] eqn:Ed; [by run_inr|]. run_inr.
    apply read_descriptor_inr in Ed as (? & ? & url & ? & ?). split_and!; [done..|]. by exists url; eexists.
Qed.
End Facts.

(** ** An example world *)

(** A world that counts its requests; its server keeps what is uploaded and
    serves [hello]. *)
Definition hello_server (rq : request) : response :=
  match rq_method rq with
  | GET => mkResponse 200 [] [] (Some (lit "5")) None (Some [Chunk (lit "hel"); NoValue; Chunk (lit "lo")]) None
  | _ => mkResponse 201 [] [] None None (Some [Chunk (stringify (H := no_fractions) (JObj
      [(lit "url", JStr example_blob_url); (lit "sha256", JStr example_hash); (lit "size", JNum (Int 5));
       (lit "type", JStr (lit "text/plain")); (lit "uploaded", JNum (Int 1700000000))]))]) None
  end.

Definition hello_net : Net := {|
  World := Z;
  cancelled _ := false;
  timedOut _ := false;
  openDeadline _ w := w;
  closeDeadline w := w;
  dateNow _ := 1700000000000;
  hashSignal _ _ := false;
  blobStream b := [b];
  signer t w := (w, Settles (Some (signed_value t example_key)));
  network rq w := (w + 1, Settles (hello_server rq));
|}.

Lemma hello_laws : @NetLaws hello_net.
Proof. split. intros b. cbn. by rewrite app_nil_r. Qed.

(** A cipher whose hash is that of [hello]. *)
Definition hello_cipher : Cipher := {|
  sha256 _ := fromHex example_hash; hkdf _ _ _ := []; gcm_seal _ _ _ l := l; gcm_open _ _ _ l := Some l |}.

#[local] Existing Instances ascii_unicode blob_web no_fractions trusting_tools hello_cipher hello_net hello_laws.

Definition example_blob : VerifiableBlob := mkVerifiable example_blob_url example_hash 5 (lit "text/plain").
Definition example_options : BlossomRequestOptions := mkOptions direct None None None.
Definition fetched_state : state := mkState (1 : @World hello_net) [Sent (get_request example_blob_url); Progress 3 5; Progress 5 5].

Lemma fetched_as_signed_witness :
  fetchVerifiedBlob example_blob example_options (mkState (0 : @World hello_net) []) = (fetched_state, inr (lit "hello")) ∧
  zlen (lit "hello") = 5.
Proof.
  assert (fetchVerifiedBlob example_blob example_options (mkState (0 : @World hello_net) []) = (fetched_state, inr (lit "hello"))) as Hr
    by (vm_compute; reflexivity).
  split; [exact Hr|]. exact (proj1 (proj2 (fetched_as_signed _ _ _ _ _ Hr) _ eq_refl)).
Defined.

Definition hello_file : InspectedFile := mkInspected (lit "hello") (lit "hello.txt") (lit "txt") example_hash 5 (lit "text/plain").
Definition uploaded_descriptor : BlobDescriptor := mkDescriptor example_blob_url example_hash 5 (lit "text/plain") 1700000000.

Lemma upload_keeps_scope_witness :
  ∃ s', uploadToBlossom hello_file (lit "https://example.com") example_key example_options (mkState (0 : @World hello_net) [])
    = (s', inr uploaded_descriptor) ∧ bd_sha256 uploaded_descriptor = if_sha256 hello_file.
Proof.
  destruct (uploadToBlossom hello_file (lit "https://example.com") example_key example_options (mkState (0 : @World hello_net) [])) as [s' r] eqn:Hr.
  assert (r = inr uploaded_descriptor) as Hd by (apply (f_equal snd) in Hr; vm_compute in Hr; by rewrite <- Hr).
  exists s'. split; [by rewrite Hd|]. exact (proj1 (proj2 (upload_keeps_scope _ _ _ _ _ _ _ Hr) _ Hd)).
Defined.
