(* ===== verification/GetPage.v ===== *)
(** * The recipient page ([get/main.ts])

    The page that fetches a shared file: its state, what each screen holds, and
    every handler. What the kit's promises come to are inputs; fetching and
    opening the file are the code's own [fetchVerifiedShare] (Blossom.v), over
    whatever world the input brings, and [decryptPrivacyEnvelope] (Envelope.v). *)

From Stdlib Require Import SpecFloat.
From S2P Require Import Prelude JsString Utf8 Failure PageText GetState PairingPage.
From S2P Require Security JsValue Nostr Net Blossom Envelope GetParts.

(** ** State *)

(** What [onYes] awaits: the share details, over a flow and under a signal.
    [d_payload] are the bytes that came, once they have been looked at. *)
Record Details := mkDetails { d_flow : nat; d_signal : nat; d_over : bool; d_payload : option bytes }.

(** One call of [onDownload], by what it awaits. *)
Inductive download_stage : Type := Downloading | Checking (blob : bytes) | DownloadOver.
Record Download := mkDownload { dl_share : Blossom.ShareDescriptor; dl_signal : nat; dl_stage : download_stage }.

(** The one reply, and the flow it keeps open. *)
Record Reply := mkPageReply { rp_flow : nat; rp_state : GetParts.DownloadedReply }.

(** An object URL: the file it names, and whether it was revoked. *)
Record ObjectUrl := mkObjectUrl { ou_file : Envelope.RecoveredFile; ou_revoked : bool }.

#[export] Instance Details_eta : Eta Details := λ d, mkDetails (d_flow d) (d_signal d) (d_over d) (d_payload d).
#[export] Instance Download_eta : Eta Download := λ d, mkDownload (dl_share d) (dl_signal d) (dl_stage d).
#[export] Instance Reply_eta : Eta Reply := λ r, mkPageReply (rp_flow r) (rp_state r).
#[export] Instance ObjectUrl_eta : Eta ObjectUrl := λ u, mkObjectUrl (ou_file u) (ou_revoked u).

(** [handed] are the object URLs the browser was told to save, in order. *)
Record GetPage := mkPage {
  view : ViewState; pairing_part : Pairing; expires : option Z; starting : bool; countdownTimer : bool; beforeUnload : bool;
  details : list Details; descriptor : option Blossom.ShareDescriptor; replies : list Reply; replyFlow : option nat;
  downloads : list Download; savedFile : option Envelope.RecoveredFile; urls : list ObjectUrl; objectUrl : option nat;
  handed : list nat; announcedStep : Z }.

#[export] Instance GetPage_eta : Eta GetPage := λ s,
  mkPage (view s) (pairing_part s) (expires s) (starting s) (countdownTimer s) (beforeUnload s) (details s) (descriptor s) (replies s)
    (replyFlow s) (downloads s) (savedFile s) (urls s) (objectUrl s) (handed s) (announcedStep s).

Definition first_page : GetPage := mkPage INITIAL_STATE first_pairing None false false false [] None [] None [] None [] None [] 0.

(** ** What a screen holds *)

Inductive action : Type := OnCancelConnect | OnTryAgain | OnYes | OnNo | OnDownload | OnCancelDownload | OnSaveAgain.
#[global] Instance action_eq_dec : EqDecision action.
Proof. solve_decision. Defined.

Inductive node : Type :=
  | WordsFormNode | Body | SenderNeeds | TimeLeft | WordsList (words : list jstr) | Button (label : jstr) (action : action)
  | FileName | FileSize | SmallBody | ProgressBar | ProgressText.

Definition view_nodes (state : ViewState) : list node :=
  match screen state with
  | r5 => [Body; WordsFormNode; SenderNeeds; TimeLeft]
  | r6 => [Body; Button button_cancel OnCancelConnect]
  | r7 => [Body; TimeLeft; Button button_cancel OnCancelConnect]
  | r10 => [Body; Button button_tryAgain OnTryAgain]
  | r12 => [Body; WordsList (split (Z.eqb 32) (checkWords state)); Button button_yes OnYes; Button button_no OnNo]
  | r14 => [Body; Button button_cancel OnCancelConnect]
  | r15 => [FileName; FileSize; Button Get.button_download OnDownload; SmallBody]
  | r16 => [FileName; ProgressBar; ProgressText; Button button_cancel OnCancelDownload]
  | r18 | r23 => [Body; Button Get.button_saveAgain OnSaveAgain]
  | r19 | r21 => [Body; Button button_tryAgain OnDownload]
  | _ => [Body]
  end.

Definition shows_action (a : action) (state : ViewState) : bool :=
  existsb (λ n, match n with Button _ b => bool_decide (a = b) | _ => false end) (view_nodes state).
Definition shows_time (state : ViewState) : bool := existsb (λ n, match n with TimeLeft => true | _ => false end) (view_nodes state).

Definition title (state : ViewState) : jstr := (Get.screenText state).1.
Definition document_title (state : ViewState) : jstr := title state ++ text " · " ++ COPY_titleSuffix.
Definition renderBanner (state : ViewState) : jstr :=
  if offline state && includes [r5; r10; r15; r19] (screen state) then COPY_offlineBanner else [].
Definition renderFooter (state : ViewState) : bool := includes [r2; r3; r4; r18; r20] (screen state).

(** The text of the progress bar. *)
Definition updateProgress (s : GetPage) : option jstr :=
  match descriptor s with
  | Some share => Some (COPY_progressLabel (formatBytes (received (view s))) (formatBytes (Blossom.sh_size share)))
  | None => None
  end.

(** ** Rendering and dispatching *)

Definition live_screens : list ScreenId := [r5; r6; r7; r10; r12; r14].
Definition busy_screens : list ScreenId := [r16; r17].

Section Page.
Context `{Unicode} `{Security.Web} `{JsValue.Numbers} `{Nostr.NostrTools} `{Envelope.Cipher} `{Net.Net} (WORDS : list jstr).

Definition syncCountdownTimer (s : GetPage) : GetPage :=
  s <| countdownTimer := includes live_screens (screen (view s)) && bool_decide (is_Some (expires s)) |>.
Definition syncUnloadGuard (s : GetPage) : GetPage := s <| beforeUnload := includes busy_screens (screen (view s)) |>.

Definition timeLeftNote (s : GetPage) : option jstr :=
  if shows_time (view s) then
    Some (match expires s with Some e => COPY_timeLeft (formatClock (e - nowSeconds (pairing_part s))) | None => [] end)
  else None.

(** [render(moveFocus)] *)
Definition render_page (s : GetPage) : GetPage :=
  let p := pairing_part s <| form := None |> <| time_left := timeLeftNote s |> in
  let p := if bool_decide (screen (view s) = r5) then enterWords p else p in
  syncUnloadGuard (syncCountdownTimer (s <| pairing_part := p |>)).

Definition dispatch (event : ViewEvent) (s : GetPage) : GetPage :=
  let next := reduce (view s) event in
  let changed := bool_decide (screen next ≠ screen (view s)) in
  let s := s <| view := next |> in
  if changed then render_page s else s.

(** ** The reply *)

Definition on_reply (n : nat) (e : GetParts.reply_event) (s : GetPage) : GetPage :=
  s <| replies := alter (λ r, r <| rp_state := GetParts.reply_step (rp_state r) e |>) n (replies s) |>.

Definition closeReply (s : GetPage) : GetPage :=
  match replyFlow s with Some n => on_reply n GetParts.CallDispose s <| replyFlow := None |> | None => s end.

(** [tellSenderSaved()]: where [send] has nothing to do, the reply is let go at
    once. *)
Definition tellSenderSaved (s : GetPage) : GetPage :=
  match replyFlow s with
  | Some n =>
      match replies s !! n with
      | Some r =>
          if GetParts.started (rp_state r) || GetParts.closed (rp_state r) then s <| replyFlow := None |>
          else on_reply n GetParts.CallSend s
      | None => s
      end
  | None => s
  end.

(** The reply has gone, or failed. *)
Definition reply_settles (n : nat) (s : GetPage) : GetPage :=
  match replies s !! n with
  | Some r =>
      if GetParts.replying (rp_state r) then
        let s := on_reply n GetParts.ReplySettles s in
        if bool_decide (replyFlow s = Some n) then s <| replyFlow := None |> else s
      else s
  | None => s
  end.

(** ** The page as the shared pairing sees it *)

Definition view_event (e : pairing_event) : ViewEvent :=
  match e with
  | PStart GetParts.LinkMissing => EStart LinkMissing
  | PStart GetParts.LinkExpired => EStart LinkExpired
  | PStart GetParts.LinkInvalid => EStart LinkInvalid
  | PUnsupported => EUnsupported
  | POnline on => EOnline on
  | PContinue => EContinue
  | PSlow => ESlow
  | PClaimRefused => EClaimRefused
  | PNetwork => ENetwork
  | PWrongWords => EWrongWords
  | PPaired said => EPaired said
  | PExpired => EExpired
  | PBack => EBack
  | PCancel => ECancel
  | PNo => ENo
  end.

Definition pairing_action (b : pairing_button) : action :=
  match b with CancelButton => OnCancelConnect | TryAgainButton => OnTryAgain | NoButton => OnNo end.

#[export] Instance GetPage_pairing : PairingPage GetPage := {|
  pairing := pairing_part;
  update f s := s <| pairing_part := f (pairing_part s) |>;
  room := expires;
  enter_room e s := s <| expires := Some e |>;
  initialising := starting;
  set_initialising b s := s <| starting := b |>;
  counting_down := countdownTimer;
  is_offline s := offline (view s);
  at_connecting s := bool_decide (screen (view s) = r6);
  shows_button b s := shows_action (pairing_action b) (view s);
  dispatch_pairing e s := dispatch (view_event e) s;
  render := render_page;
  close_more := closeReply;
  drop_session s := s;
|}.

Definition with_pairing (f : Pairing → Pairing) (s : GetPage) : GetPage := s <| pairing_part := f (pairing_part s) |>.
Definition announce_page (message : jstr) : GetPage → GetPage := with_pairing (announce message).
Definition dispose (n : nat) : GetPage → GetPage := with_pairing (on_flow n (λ f, f <| disposed := true |>)).

(** ** The share details *)

(** [onYes()] up to [await active.receive(...)]. *)
Definition onYes (s : GetPage) : GetPage :=
  match flow (pairing_part s), controller (pairing_part s) with
  | Some active, Some run =>
      let s := dispatch EYes (with_pairing (verify_flow true) s) in
      s <| details := details s ++ [mkDetails active run false None] |>
  | _, _ => s
  end.

(** The catch of [onYes]: what it dispatches. *)
Definition details_failed (error : js_error + Blossom.share_error) : ViewEvent :=
  match error with
  | inr Blossom.TooLarge => ETooBig
  | inr (Blossom.InvalidDescriptor _) => EInvalidDetails
  | inr Blossom.NotAnAddress => ENetwork
  | inl e => match classifyPairingFailure e true with PairingExpired => EExpired | _ => ENetwork end
  end.

(** [active.receive(...)] has settled. *)
Definition details_settle (n : nat) (result : js_error + bytes) (s : GetPage) : GetPage :=
  match details s !! n with
  | Some (mkDetails active run false _) =>
      let finished (payload : option bytes) (s : GetPage) :=
        s <| details := alter (λ d, d <| d_over := true |> <| d_payload := payload |>) n (details s) |> in
      let fails (error : js_error + Blossom.share_error) (s : GetPage) :=
        let s := dispose active s in
        if is_aborted (pairing_part s) run then s else dispatch (details_failed error) s in
      match result with
      | inl error => fails (inl error) (finished None s)
      | inr payload =>
          let s := finished (Some (replicate (length payload) 0)) s in
          match Blossom.parseShareDescriptor payload Security.direct with
          | inl error => fails (inr error) s
          | inr share =>
              if is_aborted (pairing_part s) run then dispose active s
              else
                let s := s <| descriptor := Some share |> <| pairing_part := pairing_part s <| flow := None |> |>
                           <| replyFlow := Some (length (replies s)) |>
                           <| replies := replies s ++ [mkPageReply active GetParts.createDownloadedReply] |> in
                dispatch (EDetails (Blossom.sh_name share) (Blossom.sh_bytes share)) s
          end
      end
  | _ => s
  end.

(** ** Saving *)

(** How the browser's calls go: [createObjectURL] throws, or the click does. *)
Inductive saving : Type := Saves | UrlThrows | ClickThrows.

(** [objectUrl], made where there is none. *)
Definition take_url (file : Envelope.RecoveredFile) (s : GetPage) : GetPage * nat :=
  match objectUrl s with
  | Some u => (s, u)
  | None => (s <| objectUrl := Some (length (urls s)) |> <| urls := urls s ++ [mkObjectUrl file false] |>, length (urls s))
  end.

(** [saveFile()] *)
Definition saveFile (works : saving) (s : GetPage) : GetPage * bool :=
  match savedFile s with
  | None => (s, false)
  | Some file =>
      match works, objectUrl s with
      | UrlThrows, None => (s, false)
      | _, _ =>
          let '(s, u) := take_url file s in
          match works with ClickThrows => (s, false) | _ => (s <| handed := handed s ++ [u] |>, true) end
      end
  end.

Definition onSaveAgain (works : saving) (s : GetPage) : GetPage :=
  let '(s, saved) := saveFile works s in
  if saved then
    let s := if bool_decide (screen (view s) = r23) then dispatch ESaveAgain s else s in
    tellSenderSaved (announce_page Get.announce_saved s)
  else dispatch ESaveFailed s.

(** ** Downloading *)

(** [onDownload()] up to [await fetchVerifiedShare(...)]. *)
Definition onDownload (s : GetPage) : GetPage :=
  match descriptor s with
  | None => s
  | Some share =>
      if offline (view s) then s
      else
        let signal := length (aborted (pairing_part s)) in
        let s := dispatch EDownload (with_pairing new_signal s <| announcedStep := 0 |>) in
        if Blossom.sh_expires share <=? nowSeconds (pairing_part s) then dispatch EMissing (closeReply s)
        else s <| downloads := downloads s ++ [mkDownload share signal Downloading] |>
  end.

Definition onCancelDownload (s : GetPage) : GetPage := dispatch ECancel (with_pairing abort_controller s).

(** [Math.floor] of a value that is not negative. *)
Definition floor (x : double) : Z :=
  match x with S754_finite _ m e => if 0 <=? e then Z.pos m * 2 ^ e else Z.pos m / 2 ^ (- e) | _ => 0 end.

(** [onProgress]: a quarter is announced once. *)
Definition progress (received total : Z) (s : GetPage) : GetPage :=
  let s := dispatch (EProgress received) s in
  let percent := floor (SFmul 53 1024 (div (of_Z received) (of_Z total)) (of_Z 100)) in
  let step := percent / 25 in
  if (announcedStep s <? step) && (step <? 4) then announce_page (Get.announce_progress (step * 25)) (s <| announcedStep := step |>) else s.

(** What the failure classes look at of a thrown value. *)
Definition as_js_error (e : Net.thrown) : js_error :=
  match e with
  | Net.HttpError _ status => RetrievalError false (Some status) ""
  | Net.IntegrityError message => RetrievalError true None message
  | Net.ATypeError _ => TypeError ""
  | _ => PlainError ""
  end.

Definition failure_event (f : DownloadFailure) : ViewEvent :=
  match f with Missing => EMissing | Unavailable => EUnavailable | Damaged => EDamaged end.

Definition set_stage (n : nat) (st : download_stage) (s : GetPage) : GetPage :=
  s <| downloads := alter (λ d, d <| dl_stage := st |>) n (downloads s) |>.

(** [fetchVerifiedShare(share, ...)] has settled, in the world it ran in. *)
Definition fetch_settles (n : nat) (world : Net.state) (s : GetPage) : GetPage :=
  match downloads s !! n with
  | Some (mkDownload share signal Downloading) =>
      let stopped := is_aborted (pairing_part s) signal in
      match (Blossom.fetchVerifiedShare share (Blossom.mkOptions Security.direct None None None) world).2 with
      | inl error =>
          let s := set_stage n DownloadOver s in
          if stopped then s
          else
            let failure := classifyDownloadFailure (as_js_error error) Fetching in
            let s := match failure with Missing => closeReply s | _ => s end in
            dispatch (failure_event failure) s
      | inr blob =>
          if stopped then set_stage n DownloadOver s
          else announce_page Get.announce_downloaded (dispatch EChecking (set_stage n (Checking blob) s))
      end
  | _ => s
  end.

(** [decryptPrivacyEnvelope(...)] has settled; [signal] is what it saw of the
    abort signal, and [works] what saving meets. *)
Definition open_settles (n : nat) (signal : nat → bool) (works : saving) (s : GetPage) : GetPage :=
  match downloads s !! n with
  | Some (mkDownload share run (Checking blob)) =>
      let s := set_stage n DownloadOver s in
      let opened := match Envelope.decryptPrivacyEnvelope blob (Blossom.sh_key share) signal with
                    | Ok file => if zlen (Envelope.rec_content file) =? Blossom.sh_bytes share then Some file else None
                    | Throw _ => None
                    end in
      match opened with
      | None => if is_aborted (pairing_part s) run then s else dispatch (failure_event (classifyDownloadFailure (PlainError "") Opening)) s
      | Some file =>
          let '(s, saved) := saveFile works (s <| savedFile := Some file |>) in
          if saved then tellSenderSaved (announce_page Get.announce_saved (dispatch ESaved s)) else dispatch ESaveFailed s
      end
  | _ => s
  end.

(** The page is hidden. *)
Definition pagehide (s : GetPage) : GetPage :=
  let s := stopFlow s in
  match objectUrl s with Some u => s <| urls := alter (λ x, x <| ou_revoked := true |>) u (urls s) |> | None => s end.

(** ** What can happen *)

Inductive get_input : Type :=
  | Shared (i : page_input) | ClickYes | DetailsSettle (n : nat) (result : js_error + bytes)
  | ClickDownload | ClickCancelDownload | ProgressHook (n : nat) (received total : Z)
  | FetchSettles (n : nat) (world : Net.state) | OpenSettles (n : nat) (signal : nat → bool) (works : saving)
  | ClickSaveAgain (works : saving) | ReplySettles (n : nat) | PageHide.

Definition get_step (s : GetPage) (i : get_input) : GetPage :=
  match i with
  | Shared i => page_step WORDS s i
  | ClickYes => if shows_action OnYes (view s) then onYes s else s
  | DetailsSettle n result => details_settle n result s
  | ClickDownload => if shows_action OnDownload (view s) then onDownload s else s
  | ClickCancelDownload => if shows_action OnCancelDownload (view s) then onCancelDownload s else s
  | ProgressHook n received total =>
      match downloads s !! n with
      | Some (mkDownload _ _ Downloading) => progress received total s
      | _ => s
      end
  | FetchSettles n world => fetch_settles n world s
  | OpenSettles n signal works => open_settles n signal works s
  | ClickSaveAgain works => if shows_action OnSaveAgain (view s) then onSaveAgain works s else s
  | ReplySettles n => reply_settles n s
  | PageHide => pagehide s
  end.

Definition get_run (s : GetPage) (inputs : list get_input) : GetPage := foldl get_step s inputs.
End Page.
