(* ===== verification/GetPageFacts.v ===== *)
(** * What the recipient page keeps to

    The page hands the browser only files opened from the bytes the share names,
    and tells the sender only once it has. *)

From S2P Require Import Prelude JsString Utf8 Failure PageText GetState PairingPage PairingFacts GetPage.
From S2P Require Security JsValue Nostr NostrFacts Net Blossom BlossomFacts Envelope EnvelopeCorrect GetParts Bytes.

#[local] Arguments reduce : simpl never.

Section Facts.
Context `{Unicode} `{Security.Web} `{JsValue.Numbers} `{Nostr.NostrTools} `{Envelope.Cipher} `{Net.Net} `{!Net.NetLaws} (WORDS : list jstr).

(** ** Files *)

Definition share_ok (share : Blossom.ShareDescriptor) : Prop := ∃ payload, Blossom.parseShareDescriptor payload Security.direct = inr share.

(** The bytes the share names. *)
Definition blob_ok (share : Blossom.ShareDescriptor) (blob : bytes) : Prop :=
  zlen blob = Blossom.sh_size share ∧ Bytes.toHex (Envelope.sha256 blob) = Blossom.sh_sha256 share.

(** A file opened from them with the share's key, of the size it gives. *)
Definition file_ok (file : Envelope.RecoveredFile) : Prop :=
  ∃ share blob signal, share_ok share ∧ blob_ok share blob ∧
    Envelope.decryptPrivacyEnvelope blob (Blossom.sh_key share) signal = Ok file ∧ zlen (Envelope.rec_content file) = Blossom.sh_bytes share.

Definition replied (r : Reply) : Prop := ∃ payload, GetParts.ReplyCall payload ∈ GetParts.calls (rp_state r).

Record get_ok (s : GetPage) : Prop := {
  g_descriptor : ∀ share, descriptor s = Some share → share_ok share;
  g_downloads : ∀ n d, downloads s !! n = Some d → share_ok (dl_share d) ∧
    (∀ blob, dl_stage d = Checking blob → blob_ok (dl_share d) blob);
  g_file : ∀ file, savedFile s = Some file → file_ok file;
  g_urls : ∀ u x, urls s !! u = Some x → file_ok (ou_file x);
  g_url : ∀ u, objectUrl s = Some u → is_Some (urls s !! u);
  g_handed : ∀ u, u ∈ handed s → is_Some (urls s !! u);
  g_replies : ∀ n r, replies s !! n = Some r → GetParts.reply_ok (rp_state r) ∧ (replied r → handed s ≠ []);
  g_saved : screen (view s) = r18 → handed s ≠ [];
  g_guard : beforeUnload s = includes busy_screens (screen (view s));
  g_payloads : ∀ n d p, details s !! n = Some d → d_payload d = Some p → Forall (λ b, b = 0) p;
}.

Lemma get_first_page_ok : get_ok first_page.
Proof. split; cbn; try done. intros u Hu. by apply not_elem_of_nil in Hu. Qed.

(** ** Dispatching *)

(** The events that say a file was saved. *)
Definition says_saved (e : ViewEvent) : bool := match e with ESaved | ESaveAgain => true | _ => false end.

Lemma reduce_saved v e : screen (reduce v e) = r18 → screen v = r18 ∨ says_saved e = true.
Proof. destruct e; unfold reduce; cbv zeta; repeat case_match; cbn; auto; intros Hx; discriminate Hx. Qed.

Lemma get_render_ok s : get_ok (s <| beforeUnload := includes busy_screens (screen (view s)) |>) → get_ok (render_page s).
Proof. intros [????? ?????]. by split. Qed.

Lemma get_dispatch_ok e s : says_saved e = false ∨ handed s ≠ [] → get_ok s → get_ok (dispatch e s).
Proof.
  intros He [G1 G2 G3 G4 G5 G6 G7 G8 G9 G10]. unfold dispatch. cbv zeta.
  assert (screen (reduce (view s) e) = r18 → handed s ≠ []) as Hs.
  { intros Hr. destruct (reduce_saved _ _ Hr) as [?|?]; [auto|]. destruct He as [He|He]; [congruence|done]. }
  case_bool_decide as Hc.
  - apply get_render_ok. by split.
  - split; try done. cbn. by rewrite Hc.
Qed.

Lemma with_pairing_ok f s : get_ok s → get_ok (with_pairing f s).
Proof. intros [????? ?????]. by split. Qed.

(** ** Replies *)

Lemma reply_step_says e r payload : GetParts.ReplyCall payload ∈ GetParts.calls (GetParts.reply_step r e) →
  GetParts.ReplyCall payload ∈ GetParts.calls r ∨ e = GetParts.CallSend.
Proof.
  destruct e; cbn [GetParts.reply_step]; [auto| |]; intros Hin; left; revert Hin.
  - unfold GetParts.reply_settles, GetParts.reply_close. destruct (GetParts.replying r); [|done]. cbn.
    destruct (GetParts.closed r); [done|]. cbn. intros [?|[?|Hx%not_elem_of_nil]%elem_of_cons]%elem_of_app; done.
  - unfold GetParts.reply_close. destruct (GetParts.closed r); [done|]. cbn.
    intros [?|[?|Hx%not_elem_of_nil]%elem_of_cons]%elem_of_app; done.
Qed.

Lemma on_reply_ok n e s : e ≠ GetParts.CallSend ∨ handed s ≠ [] → get_ok s → get_ok (on_reply n e s).
Proof.
  intros He [G1 G2 G3 G4 G5 G6 G7 G8 G9 G10]. split; try done. cbn. intros m r Hr.
  apply lookup_alter_inv in Hr as [(-> & x & Hx & ->)|[_ Hx]]; [|by apply (G7 m)]. destruct (G7 n x Hx) as [Hok Hsay].
  split; [by apply GetParts.reply_step_ok|]. intros [payload Hin]. destruct (reply_step_says _ _ _ Hin) as [Hin'|Hc].
  - apply Hsay. by exists payload.
  - by destruct He.
Qed.

Lemma drop_reply_ok s : get_ok s → get_ok (s <| replyFlow := None |>).
Proof. intros [????? ?????]. by split. Qed.

Lemma closeReply_ok s : get_ok s → get_ok (closeReply s).
Proof.
  intros Hs. unfold closeReply. destruct (replyFlow s); [|done]. apply drop_reply_ok, on_reply_ok; [by left|done].
Qed.

Lemma tellSenderSaved_ok s : handed s ≠ [] → get_ok s → get_ok (tellSenderSaved s).
Proof.
  intros Hh Hs. unfold tellSenderSaved. destruct (replyFlow s); [|done]. destruct (replies s !! n); [|done].
  destruct (_ || _); [by apply drop_reply_ok|apply on_reply_ok; [by right|done]].
Qed.

Lemma reply_settles_ok n s : get_ok s → get_ok (reply_settles n s).
Proof.
  intros Hs. unfold reply_settles. destruct (replies s !! n) as [r|]; [|done]. destruct (GetParts.replying _); [|done]. cbv zeta.
  assert (get_ok (on_reply n GetParts.ReplySettles s)) as Ho by (apply on_reply_ok; [by left|done]).
  case_bool_decide; [by apply drop_reply_ok|done].
Qed.

(** ** Details, saving and downloading *)

Lemma dispose_ok n s : get_ok s → get_ok (dispose n s).
Proof. apply with_pairing_ok. Qed.

Lemma get_onYes_ok s : get_ok s → get_ok (onYes s).
Proof.
  intros Hs. unfold onYes. destruct (flow _) as [active|]; [|done]. destruct (controller _) as [run|]; [|done]. cbv zeta.
  assert (get_ok (dispatch EYes (with_pairing (verify_flow true) s))) as Hd by (apply get_dispatch_ok; [by left|by apply with_pairing_ok]).
  destruct Hd as [G1 G2 G3 G4 G5 G6 G7 G8 G9 G10]. split; try done. cbn. intros n d p Hn.
  apply lookup_app_Some in Hn as [Hn|[_ Hn]]; [by apply (G10 n)|]. apply list_lookup_singleton_Some in Hn as [_ <-]. done.
Qed.

Lemma details_settle_ok n result s : get_ok s → get_ok (details_settle n result s).
Proof.
  intros Hs. unfold details_settle. destruct (details s !! n) as [[active run [] old]|] eqn:En; try done. cbv zeta.
  assert (∀ payload, (∀ p, payload = Some p → Forall (λ b, b = 0) p) →
    get_ok (s <| details := alter (λ d, d <| d_over := true |> <| d_payload := payload |>) n (details s) |>)) as Hfin.
  { intros payload Hp. destruct Hs as [G1 G2 G3 G4 G5 G6 G7 G8 G9 G10]. split; try done. cbn. intros m d p Hm.
    apply lookup_alter_inv in Hm as [(-> & x & Hx & ->)|[_ Hx]]; [cbn; apply Hp|by apply (G10 m)]. }
  destruct result as [error|payload].
  - pose proof (dispose_ok active _ (Hfin None ltac:(done))) as Hd. destruct (is_aborted _ _); [done|]. apply get_dispatch_ok; [left|done].
    cbn. by destruct (classifyPairingFailure error true).
  - assert (get_ok (s <| details := alter (λ d, d <| d_over := true |> <| d_payload := Some (replicate (length payload) 0) |>) n (details s) |>)) as Hz.
    { apply Hfin. intros p [= <-]. by apply Forall_replicate. }
    destruct (Blossom.parseShareDescriptor payload Security.direct) as [error|share] eqn:Ep.
    + pose proof (dispose_ok active _ Hz) as Hd. destruct (is_aborted _ _); [done|]. apply get_dispatch_ok; [left|done]. by destruct error.
    + destruct (is_aborted _ _); [by apply dispose_ok|]. apply get_dispatch_ok; [by left|].
      destruct Hz as [G1 G2 G3 G4 G5 G6 G7 G8 G9 G10]. split; try done.
      * cbn. intros x [= <-]. by exists payload.
      * cbn. intros m r Hm. apply lookup_app_Some in Hm as [Hm|[_ Hm]]; [by apply (G7 m)|].
        apply list_lookup_singleton_Some in Hm as [_ <-]. split; [by split|]. intros [p Hp]. by apply not_elem_of_nil in Hp.
Qed.

Lemma take_url_ok file s : file_ok file → get_ok s →
  get_ok (take_url file s).1 ∧ is_Some (urls (take_url file s).1 !! (take_url file s).2).
Proof.
  intros Hf Hs. unfold take_url. destruct (objectUrl s) as [u|] eqn:Eu; cbn.
  { split; [done|]. by apply (g_url _ Hs). }
  split; [|rewrite lookup_app_r, Nat.sub_diag by lia; by eexists]. destruct Hs as [G1 G2 G3 G4 G5 G6 G7 G8 G9 G10].
  assert (∀ u, is_Some (urls s !! u) → is_Some ((urls s ++ [mkObjectUrl file false]) !! u)) as Hkeep.
  { intros u [x Hx]. exists x. by apply lookup_app_l_Some. }
  split; try done; cbn.
  - intros u x Hx. apply lookup_app_Some in Hx as [Hx|[_ Hx]]; [by apply (G4 u)|]. by apply list_lookup_singleton_Some in Hx as [_ <-].
  - intros u [= <-]. rewrite lookup_app_r, Nat.sub_diag by lia. by eexists.
  - intros u Hu. apply Hkeep. by apply G6.
Qed.

Lemma take_url_same file s : view (take_url file s).1 = view s ∧ handed (take_url file s).1 = handed s.
Proof. unfold take_url. by destruct (objectUrl s). Qed.

Lemma saveFile_ok works s : get_ok s → get_ok (saveFile works s).1 ∧ ((saveFile works s).2 = true → handed (saveFile works s).1 ≠ []).
Proof.
  intros Hs. unfold saveFile. destruct (savedFile s) as [file|] eqn:Ef; [|done].
  destruct (take_url_ok file s (g_file _ Hs _ Ef) Hs) as [Ht Hu]. destruct (take_url file s) as [t u]. cbn in Ht, Hu.
  assert (get_ok (t <| handed := handed t ++ [u] |>) ∧ handed (t <| handed := handed t ++ [u] |>) ≠ []) as [Hn Hne].
  { split; [|by destruct (handed t)]. destruct Ht as [G1 G2 G3 G4 G5 G6 G7 G8 G9 G10]. split; try done; cbn.
    - intros v [Hv|Hv]%elem_of_app; [by apply G6|]. by apply list_elem_of_singleton in Hv as ->.
    - intros n r Hr. split; [by apply (G7 n)|]. intros _. by destruct (handed t).
    - intros _. by destruct (handed t). }
  destruct works, (objectUrl s); cbn; done.
Qed.

Lemma onSaveAgain_ok works s : get_ok s → get_ok (onSaveAgain works s).
Proof.
  intros Hs. unfold onSaveAgain. destruct (saveFile_ok works s Hs) as [Ht Hh]. destruct (saveFile works s) as [t saved]. cbn in Ht, Hh.
  destruct saved; [|apply get_dispatch_ok; [by left|done]]. cbv zeta. specialize (Hh eq_refl).
  assert (get_ok (if bool_decide (screen (view t) = r23) then dispatch ESaveAgain t else t)) as Hd.
  { case_bool_decide; [apply get_dispatch_ok; [by right|done]|done]. }
  apply tellSenderSaved_ok; [|by apply with_pairing_ok].
  cbn. case_bool_decide; [|done]. unfold dispatch. cbv zeta. by destruct (bool_decide _).
Qed.

Lemma onDownload_ok s : get_ok s → get_ok (onDownload s).
Proof.
  intros Hs. unfold onDownload. destruct (descriptor s) as [share|] eqn:Ed; [|done]. destruct (offline _); [done|]. cbv zeta.
  assert (get_ok (dispatch EDownload (with_pairing new_signal s <| announcedStep := 0 |>))) as Hd.
  { apply get_dispatch_ok; [by left|]. pose proof (with_pairing_ok new_signal s Hs) as [????? ?????]. by split. }
  destruct (_ <=? _); [apply get_dispatch_ok; [by left|by apply closeReply_ok]|].
  destruct Hd as [G1 G2 G3 G4 G5 G6 G7 G8 G9 G10]. split; try done. cbn. intros n d Hn.
  apply lookup_app_Some in Hn as [Hn|[_ Hn]]; [by apply (G2 n)|]. apply list_lookup_singleton_Some in Hn as [_ <-]. split; [|done].
  by apply (g_descriptor _ Hs).
Qed.

Lemma get_set_stage_ok n d st s : get_ok s → downloads s !! n = Some d → (∀ blob, st = Checking blob → blob_ok (dl_share d) blob) →
  get_ok (set_stage n st s).
Proof.
  intros [G1 G2 G3 G4 G5 G6 G7 G8 G9 G10] Hn Hst. split; try done. cbn. intros m e Hm.
  apply lookup_alter_inv in Hm as [(-> & x & Hx & ->)|[_ Hx]]; [|by apply (G2 m)]. replace x with d by congruence. cbn.
  split; [by apply (G2 n)|done].
Qed.

Lemma progress_ok received total s : get_ok s → get_ok (progress received total s).
Proof.
  intros Hs. unfold progress. cbv zeta. assert (get_ok (dispatch (EProgress received) s)) as Hd by (apply get_dispatch_ok; [by left|done]).
  destruct (_ && _); [|done]. apply with_pairing_ok. destruct Hd as [????? ?????]. by split.
Qed.

Lemma fetched_blob share world blob : (Blossom.fetchVerifiedShare share (Blossom.mkOptions Security.direct None None None) world).2 = inr blob →
  blob_ok share blob.
Proof.
  unfold Blossom.fetchVerifiedShare. destruct (Blossom.fetchVerifiedBlob _ _ _) as [w r] eqn:E. cbn. intros ->.
  by apply BlossomFacts.fetch_inr in E.
Qed.

Lemma fetch_settles_ok n world s : get_ok s → get_ok (fetch_settles n world s).
Proof.
  intros Hs. unfold fetch_settles. destruct (downloads s !! n) as [[share signal []]|] eqn:En; try done. cbv zeta.
  destruct (Blossom.fetchVerifiedShare _ _ _).2 as [error|blob] eqn:Ef.
  - assert (get_ok (set_stage n DownloadOver s)) as Hd by (by eapply get_set_stage_ok).
    destruct (is_aborted _ _); [done|]. apply get_dispatch_ok; [left; by destruct (classifyDownloadFailure _ _)|].
    destruct (classifyDownloadFailure _ _); [by apply closeReply_ok|done..].
  - destruct (is_aborted _ _); [by eapply get_set_stage_ok|]. apply with_pairing_ok, get_dispatch_ok; [by left|].
    eapply get_set_stage_ok; [done..|]. intros b [= <-]. by eapply fetched_blob.
Qed.

Lemma open_settles_ok n signal works s : get_ok s → get_ok (open_settles n signal works s).
Proof.
  intros Hs. unfold open_settles. destruct (downloads s !! n) as [[share run [|blob|]]|] eqn:En; try done. cbv zeta.
  assert (get_ok (set_stage n DownloadOver s)) as Hd by (by eapply get_set_stage_ok). destruct (g_downloads _ Hs n _ En) as [Hshare Hblob].
  destruct (Envelope.decryptPrivacyEnvelope blob (Blossom.sh_key share) signal) as [file|msg] eqn:Ef.
  2:{ destruct (is_aborted _ _); [done|]. apply get_dispatch_ok; [by left|done]. }
  destruct (_ =? _) eqn:Ez; [|destruct (is_aborted _ _); [done|]; apply get_dispatch_ok; [by left|done]]. apply Z.eqb_eq in Ez.
  assert (get_ok (set_stage n DownloadOver s <| savedFile := Some file |>)) as Hf.
  { destruct Hd as [G1 G2 G3 G4 G5 G6 G7 G8 G9 G10]. split; try done. cbn. intros x [= <-]. exists share, blob, signal. split_and!; auto. }
  destruct (saveFile_ok works _ Hf) as [Ht Hh]. destruct (saveFile works _) as [t saved]. cbn in Ht, Hh.
  destruct saved; [|apply get_dispatch_ok; [by left|done]]. specialize (Hh eq_refl).
  apply tellSenderSaved_ok; [cbn; unfold dispatch; cbv zeta; by destruct (bool_decide _)|].
  apply with_pairing_ok, get_dispatch_ok; [by right|done].
Qed.

Lemma get_shared_ok i s : get_ok s → get_ok (page_step WORDS s i).
Proof.
  apply (page_step_keeps WORDS get_ok (λ _, True)); cbn; try done.
  - intros f s' Hs. by apply (with_pairing_ok f).
  - intros e s'. apply get_dispatch_ok. left. by destruct e as [[]| | | | | | | | | | | |].
  - apply closeReply_ok.
  - intros b s' [????? ?????]. by split.
  - intros e s' [????? ?????]. apply get_render_ok. by split.
Qed.

Lemma get_step_ok s i : get_ok s → get_ok (get_step WORDS s i).
Proof.
  intros Hs. destruct i as [i| |n result| | |n received total|n world|n signal works|works|n|]; cbn [get_step].
  - by apply get_shared_ok.
  - destruct (shows_action _ _); [by apply get_onYes_ok|done].
  - by apply details_settle_ok.
  - destruct (shows_action _ _); [by apply onDownload_ok|done].
  - destruct (shows_action _ _); [|done]. apply get_dispatch_ok; [by left|by apply with_pairing_ok].
  - destruct (downloads s !! n) as [[? ? []]|]; try done. by apply progress_ok.
  - by apply fetch_settles_ok.
  - by apply open_settles_ok.
  - destruct (shows_action _ _); [by apply onSaveAgain_ok|done].
  - by apply reply_settles_ok.
  - unfold pagehide. cbv zeta. assert (get_ok (stopFlow s)) as Ht.
    { unfold stopFlow. cbn. apply closeReply_ok. by apply (with_pairing_ok (λ p, dispose_flow (abort_controller (clear_slow p)))). }
    destruct (objectUrl (stopFlow s)) as [u|] eqn:Eu; [|done]. destruct Ht as [G1 G2 G3 G4 G5 G6 G7 G8 G9 G10].
    assert (∀ v, is_Some (urls (stopFlow s) !! v) → is_Some (alter (λ x, x <| ou_revoked := true |>) u (urls (stopFlow s)) !! v)) as Hk.
    { intros v [x Hx]. destruct (decide (v = u)) as [->|Hne]; [rewrite list_lookup_alter_eq, Hx|rewrite list_lookup_alter_ne, Hx by done]; by eexists. }
    split; try done; cbn; auto. intros v x Hx. apply lookup_alter_inv in Hx as [(-> & y & Hy & ->)|[_ Hy]]; [by apply (G4 u y)|by apply (G4 v)].
Qed.

Lemma get_run_ok s inputs : get_ok s → get_ok (get_run WORDS s inputs).
Proof. revert s. induction inputs as [|i inputs IH]; intros s Hs; [done|]. cbn. by apply IH, get_step_ok. Qed.

Definition started (online supported : bool) : GetPage := start online supported first_page.

Lemma get_started_ok online supported : get_ok (started online supported).
Proof.
  unfold started, start. cbv zeta. assert (get_ok (dispatch (EOnline online) first_page)) as Hd by (apply get_dispatch_ok; [by left|apply get_first_page_ok]).
  destruct supported; [|by apply (get_dispatch_ok EUnsupported); [left|]]. destruct Hd as [????? ?????]. by split.
Qed.

(** C12: whatever the people, the sender, the storage and the browser do, every
    file the page hands to the browser was opened, with the key of a share the
    sender gave, from bytes of the size and SHA-256 of that share, and is of the
    size the share announced; the page says "Downloaded" and tells the sender so
    only once it has handed one over, and tells the sender at most once; and the
    share details are zeroed as soon as they have been read. *)
Theorem saved_as_shared online supported inputs :
  let s := get_run WORDS (started online supported) inputs in
  (∀ u, u ∈ handed s → ∃ x, urls s !! u = Some x ∧ file_ok (ou_file x)) ∧
  (screen (view s) = r18 → handed s ≠ []) ∧
  (∀ n r, replies s !! n = Some r → (replied r → handed s ≠ []) ∧
    ∃ said over : bool, GetParts.calls (rp_state r) =
      (if said then [GetParts.ReplyCall GetParts.reply_payload] else []) ++ (if over then [GetParts.DisposeCall] else [])) ∧
  (∀ n d p, details s !! n = Some d → d_payload d = Some p → Forall (λ b, b = 0) p).
Proof.
  intros s. pose proof (get_run_ok _ inputs (get_started_ok online supported)) as Hs. fold s in Hs. split_and!.
  - intros u Hu. destruct (g_handed _ Hs u Hu) as [x Hx]. exists x. split; [done|]. by eapply (g_urls _ Hs).
  - apply (g_saved _ Hs).
  - intros n r Hr. destruct (g_replies _ Hs n r Hr) as [[Hc _] Hh]. split; [done|]. by eexists _, _.
  - apply (g_payloads _ Hs).
Qed.
End Facts.

(** ** A share of three bytes *)

(** The toy cipher, with a hash that names one object. *)
Definition share_cipher : Envelope.Cipher := {|
  Envelope.sha256 _ := Bytes.fromHex NostrFacts.example_hash;
  Envelope.hkdf := @Envelope.hkdf EnvelopeCorrect.toy_cipher;
  Envelope.gcm_seal := @Envelope.gcm_seal EnvelopeCorrect.toy_cipher;
  Envelope.gcm_open := @Envelope.gcm_open EnvelopeCorrect.toy_cipher |}.

(** The envelope of the file, written out: the header, one record, its tag. *)
Definition shared_metadata : jstr := Envelope.metadata_json (Envelope.mkMetadata (lit "a.txt") 3 (lit "text/plain")).
Definition shared_record : bytes := Bytes.u32 (zlen shared_metadata) ++ shared_metadata ++ [7; 8; 9].
Definition shared_envelope : bytes :=
  Envelope.ENVELOPE_MAGIC ++ Bytes.u32 Envelope.ENVELOPE_CHUNK_BYTES ++ Bytes.u32 1 ++ replicate 8 1 ++
  shared_record ++ replicate (Z.to_nat (Envelope.paddedPlaintextLength (zlen shared_record) - zlen shared_record)) 0 ++ replicate 16 0.
Definition shared_key : jstr := Envelope.newInputKey (replicate 32 2).

Definition shelf : Net.Net := {|
  Net.World := unit;
  Net.cancelled _ := false;
  Net.timedOut _ := false;
  Net.openDeadline _ w := w;
  Net.closeDeadline w := w;
  Net.dateNow _ := 0;
  Net.hashSignal _ _ := false;
  Net.blobStream b := [b];
  Net.signer _ w := (w, Net.Settles None);
  Net.network _ w := (w, Net.Settles (Net.mkResponse 200 [] [] None None (Some [Net.Chunk shared_envelope]) None));
|}.

Lemma share_shelf_laws : @Net.NetLaws shelf.
Proof. split. intros b. cbn. by rewrite app_nil_r. Qed.

Definition quoted (s : jstr) : jstr := [34] ++ s ++ [34].
Definition share_payload : bytes :=
  [123] ++ quoted (lit "bytes") ++ lit ":3," ++ quoted (lit "expires") ++ lit ":9," ++ quoted (lit "key") ++ [58] ++ quoted shared_key ++
  [44] ++ quoted (lit "name") ++ [58] ++ quoted (lit "a.txt") ++ [44] ++ quoted (lit "sha256") ++ [58] ++ quoted NostrFacts.example_hash ++
  [44] ++ quoted (lit "size") ++ [58] ++ decimal (zlen shared_envelope) ++ [44] ++ quoted (lit "url") ++ [58] ++
  quoted NostrFacts.example_blob_url ++ [44] ++ quoted (lit "v") ++ [58] ++ quoted (lit "wildbloom-share/1") ++ [125].

Definition share_words : list jstr := [lit "able"; lit "acid"; lit "aged"; lit "also"].

Definition share_inputs : list (@get_input shelf) :=
  let world : @Net.state shelf := @Net.mkState shelf tt [] in
  [Shared (InitSettles true (Some (true, 1000)) []); Shared (Type_ (lit "able acid aged also")); Shared Submit;
   Shared (RecipientSettles 0 (inr None)); Shared (PairSettles 0 (inr (lit "one two six"))); ClickYes; DetailsSettle 0 (inr share_payload);
   ClickDownload; FetchSettles 0 world; OpenSettles 0 (λ _, false) Saves].

Definition share_run : GetPage :=
  @get_run ascii_unicode NostrFacts.blob_web share_cipher shelf share_words
    (@started ascii_unicode true true) share_inputs.

Lemma share_run_is : share_run = @get_run ascii_unicode NostrFacts.blob_web share_cipher shelf share_words (@started ascii_unicode true true) share_inputs.
Proof. reflexivity. Qed.

Lemma saved_as_shared_witness :
  screen (view share_run) = r18 ∧ handed share_run = [0%nat] ∧
  ∃ x, urls share_run !! 0%nat = Some x ∧ @file_ok ascii_unicode NostrFacts.blob_web share_cipher (ou_file x).
Proof.
  assert (screen (view share_run) = r18 ∧ handed share_run = [0%nat]) as [Hs Hh] by (vm_compute; split; reflexivity).
  assert (0%nat ∈ handed share_run) as Hu by (rewrite Hh; left).
  split; [exact Hs|]. split; [exact Hh|]. clear Hs Hh. revert Hu. rewrite share_run_is. intros Hu.
  exact (proj1 (@saved_as_shared ascii_unicode NostrFacts.blob_web share_cipher shelf share_shelf_laws share_words true true share_inputs) 0%nat Hu).
Defined.

(** ** What the page does not do *)

(** When the share details fail for the network, the words are already
    forgotten: the screen offers to try again, and trying again does nothing. *)
Lemma try_again_is_dead `{Unicode} (s : GetPage) : secret (pairing_part s) = None → try_again s = s.
Proof. intros Hs. unfold try_again, connect. cbn. rewrite Hs. destruct (offline _); [done|]. by destruct (expires s). Qed.

Definition lost_inputs : list (@get_input shelf) :=
  take 6 share_inputs ++ [DetailsSettle 0 (inl (TypeError "Failed to fetch"))].

Example retry_is_dead :
  let s := @get_run ascii_unicode NostrFacts.blob_web share_cipher shelf share_words (@started ascii_unicode true true) lost_inputs in
  screen (view s) = r10 ∧ shows_action OnTryAgain (view s) = true ∧ secret (pairing_part s) = None.
Proof. vm_compute. split_and!; reflexivity. Qed.

(** A page that was hidden and is shown again says it saved the file, and hands
    the browser an address it has revoked. *)
Example saves_revoked :
  let s := @get_run ascii_unicode NostrFacts.blob_web share_cipher shelf share_words (@started ascii_unicode true true)
    (share_inputs ++ [PageHide; ClickSaveAgain Saves]) in
  screen (view s) = r18 ∧ handed s = [0%nat; 0%nat] ∧ map ou_revoked (urls s) = [true] ∧ last (announced (pairing_part s)) = Some (lit "Saved.").
Proof. vm_compute. split_and!; reflexivity. Qed.
