(* ===== verification/Pool.v ===== *)
(** * Pooled storage ([core/pool.ts])

    An encrypted file is kept on several servers, as copies or as erasure-coded
    parts; a signed receipt holds the layout. A manifest is what was read of an
    object, with the object itself. *)

From Stdlib Require Import QArith.
From S2P Require Import Prelude JsString Utf8 Bytes Json JsValue Security Envelope Nostr Net Blossom.
From S2P Require Erasure.
Local Open Scope Z_scope.
Local Open Scope effect_scope.

(** ** Data *)

Record PoolNode := mkNode { n_id : jstr; n_origin : jstr; failure_group : jstr; weight : Z }.
Record PoolPart := mkPart { p_index : Z; p_sha256 : jstr; p_size : Z; targets : list PoolNode }.

(** The mode is tested as a text, so a value with the text of a mode passes. *)
Inductive PoolMode : Type := Replicas | ErasureCoded | NoMode.
#[global] Instance PoolMode_eq_dec : EqDecision PoolMode.
Proof. solve_decision. Defined.

Record PoolManifest := mkManifest {
  mode : PoolMode; m_profile : NetworkProfile; payload_sha256 : jstr; payload_size : Z;
  required : Z; total : Z; copies : Z; m_parts : list PoolPart; m_raw : json }.

Record PoolReceipt := mkReceipt { r_event : SignedNostrEvent; r_manifest : PoolManifest }.
Record PreparedPool := mkPrepared { pp_manifest : PoolManifest; pp_files : list bytes }.
Record PoolReport := mkReport { rep_verified : list Z; rep_protected : bool; rep_recoverable : bool; rep_observedAt : Z }.

Definition ID (s : jstr) : bool :=
  (1 <=? zlen s) && (zlen s <=? 40) && forallb (λ c, is_lower c || is_digit c || (c =? 95) || (c =? 45)) s.
Definition hashPattern (s : jstr) : bool := HEX_64 s.

Definition profile_text (p : NetworkProfile) : jstr := match p with direct => lit "direct" | tor => lit "tor" end.
Definition mode_text (m : PoolMode) : jstr := match m with Replicas => lit "replicas" | ErasureCoded => lit "erasure" | NoMode => [] end.

(** [record(value, keys)], with the keys in order. *)
Definition record (value : json) (keys : string) : res (list (jstr * json)) :=
  match value with
  | JObj ms => check eqb (sorted_keys ms) (lit keys) else "Invalid pool schema or unsupported fields."; Ok ms
  | _ => Throw "Invalid pool schema or unsupported fields."
  end.

(** [v === "s"]. *)
Definition is_text (v : option json) (s : jstr) : bool := match v with Some (JStr t) => eqb t s | _ => false end.
(** [v === n]. *)
Definition is_int (v : option json) (n : Z) : bool := match v with Some (JNum m) => is_number m n | _ => false end.
(** [Number.isInteger(v)] within bounds. *)
Definition int_within (v : option jnum) (low high : Z) : option Z :=
  match v with Some (Int z) => if (low <=? z) && (z <=? high) then Some z else None | _ => None end.
Definition as_number (v : option json) : option jnum := match v with Some (JNum n) => Some n | _ => None end.

(** The words of a line: [line.trim().split(/\s+/u)]. *)
Definition words_of (line : jstr) : list jstr :=
  match List.filter non_empty (split is_space (trim line)) with [] => [[]] | l => l end.

(** The lines that hold something. *)
Definition lines_of (text : jstr) : list jstr := List.filter (λ l, non_empty (trim l)) (split (Z.eqb 10) (trim text)).

(** [`${origin}/`]. *)
Definition with_slash (s : jstr) : jstr := s ++ [47].

Definition node_json (n : PoolNode) : json :=
  JObj [(lit "id", JStr (n_id n)); (lit "origin", JStr (n_origin n)); (lit "failure_group", JStr (failure_group n));
        (lit "weight", JNum (Int (weight n)))].

Definition part_json (p : PoolPart) : json :=
  JObj [(lit "index", JNum (Int (p_index p))); (lit "sha256", JStr (p_sha256 p)); (lit "size", JNum (Int (p_size p)));
        (lit "targets", JArr (map node_json (targets p)))].

Definition manifest_json (mode : PoolMode) (profile : NetworkProfile) (hash : jstr) (size required total copies : Z) (parts : list PoolPart) : json :=
  JObj [(lit "type", JStr (lit "wildbloom.pool")); (lit "version", JNum (Int 1)); (lit "mode", JStr (mode_text mode));
        (lit "profile", JStr (profile_text profile));
        (lit "payload", JObj [(lit "sha256", JStr hash); (lit "size", JNum (Int size)); (lit "encryption", JStr WILDBLOOM_ENCRYPTION_V2)]);
        (lit "required", JNum (Int required)); (lit "total", JNum (Int total)); (lit "copies", JNum (Int copies));
        (lit "parts", JArr (map part_json parts))].

(** What ranks the nodes: [-Math.log((n + 1) / (2 ** 48 + 1)) / weight] as a
    double, and the order of the locale. *)
Class Ranking := { score : Z → Z → Q; localeCompare : jstr → jstr → comparison }.

Section Pool.
Context `{Unicode} `{Web} `{Numbers} `{NostrTools} `{Cipher} `{Net} `{Ranking}.

(** ** Nodes *)

Definition node_error : string := "Invalid pool node, failure group, endpoint or weight.".

(** The checks of [validateNode] once the values are known to be strings. *)
Definition check_node (id origin group : jstr) (weight : option jnum) (profile : NetworkProfile) : res PoolNode :=
  check ID id && ID group && (zlen origin <=? 256) else node_error;
  let! server := normaliseBlossomServer origin profile in
  check eqb origin (with_slash server) else node_error;
  match int_within weight 1 1000 with
  | Some w => Ok (mkNode id origin group w)
  | None => Throw node_error
  end.

Definition validateNode (value : json) (profile : NetworkProfile) : res PoolNode :=
  let! ms := record value "failure_group,id,origin,weight" in
  match get_member (lit "id") ms, get_member (lit "failure_group") ms, get_member (lit "origin") ms with
  | Some (JStr id), Some (JStr group), Some (JStr origin) => check_node id origin group (as_number (get_member (lit "weight") ms)) profile
  | _, _, _ => Throw node_error
  end.

(** What must be distinct: a hostname, or on this machine an origin. *)
Definition node_host (n : PoolNode) : res jstr :=
  match newURL (n_origin n) with
  | None => Throw "Invalid URL"
  | Some url => Ok (if isLocalHost (hostname url) then origin url else hostname url)
  end.

(** [new Set(l).size === n]. *)
Definition all_distinct (l : list jstr) : bool := zlen (uniq l) =? zlen l.

Definition distinct_nodes (nodes : list PoolNode) : res unit :=
  check all_distinct (map n_id nodes) && all_distinct (map n_origin nodes) else "Pool node IDs and origins must be unique.";
  let! hosts := rmap node_host nodes in
  guard (all_distinct hosts) "Use distinct node hostnames; ports do not establish independent nodes.".

Definition node_count_ok (n : Z) : bool := negb ((n <? 1) || (16 <? n)).

(** [validateNodes] of values that were parsed. *)
Definition readNodes (values : list json) (profile : NetworkProfile) : res (list PoolNode) :=
  check node_count_ok (zlen values) else "Configure 1–16 pool nodes.";
  let! nodes := rmap (λ v, validateNode v profile) values in
  let! _ := distinct_nodes nodes in
  Ok nodes.

Definition validateNodes (nodes : list PoolNode) (profile : NetworkProfile) : res unit :=
  let! _ := readNodes (map node_json nodes) profile in Ok tt.

(** One line: an origin, a failure group and perhaps a weight. *)
Definition parse_node_line (number : Z) (line : jstr) (profile : NetworkProfile) : res (jstr * jstr * jstr * option jnum) :=
  match words_of line with
  | origin :: group :: rest =>
      check (zlen rest <=? 1) else "Enter one origin, failure group and optional weight per line.";
      let! server := normaliseBlossomServer origin profile in
      Ok (lit "node-" ++ decimal number, with_slash server, group, string_number (match rest with w :: _ => w | [] => lit "1" end))
  | _ => Throw "Enter one origin, failure group and optional weight per line."
  end.

Fixpoint number_lines (i : Z) (lines : list jstr) : list (Z * jstr) :=
  match lines with [] => [] | l :: lines => (i, l) :: number_lines (i + 1) lines end.

Definition parsePoolNodes (text : jstr) (profile : NetworkProfile) : res (list PoolNode) :=
  check zlen text <=? 8192 else "Pool node list is too large.";
  let! raw := rmap (λ l, parse_node_line l.1 l.2 profile) (number_lines 1 (lines_of text)) in
  check node_count_ok (zlen raw) else "Configure 1–16 pool nodes.";
  let! nodes := rmap (λ n, let '(id, origin, group, w) := n in check_node id origin group w profile) raw in
  let! _ := distinct_nodes nodes in
  Ok nodes.

(** ** Manifests *)

Definition groups_of (nodes : list PoolNode) : list jstr := uniq (map failure_group nodes).

(** The loop over the parts. *)
Fixpoint readParts (index : Z) (values : list json) (profile : NetworkProfile) (replicas : bool) (hash : jstr) (size required copies : Z)
    (assigned : list jstr) : res (list PoolPart) :=
  match values with
  | [] => Ok []
  | v :: values =>
      let! part := record v "index,sha256,size,targets" in
      match get_member (lit "sha256") part, get_member (lit "targets") part with
      | Some (JStr sha256), Some (JArr nodes) =>
          check is_int (get_member (lit "index") part) index && hashPattern sha256
                && is_int (get_member (lit "size") part) (ceil_div size required) else "Invalid part index, hash or size.";
          let! nodes := readNodes nodes profile in
          let groups := groups_of nodes in
          check negb (zlen groups <? copies) else "Not enough independent failure groups for the requested copies.";
          check forallb (λ g, negb (existsb (eqb g) assigned)) groups
            else "Split parts must not share a failure group, including spare nodes.";
          check negb (replicas && negb (eqb sha256 hash)) else "Replica hash differs from payload.";
          let! parts := readParts (index + 1) values profile replicas hash size required copies (assigned ++ groups) in
          Ok (mkPart index sha256 (ceil_div size required) nodes :: parts)
      | _, _ => Throw "Invalid part index, hash or size."
      end
  end.

Definition mode_of (v : option json) : option PoolMode :=
  match v with
  | Some (JStr s) => if eqb s (lit "replicas") then Some Replicas else if eqb s (lit "erasure") then Some ErasureCoded else None
  | Some v => if eqb (to_string v) (lit "replicas") || eqb (to_string v) (lit "erasure") then Some NoMode else None
  | None => None
  end.

Definition integer_of (n : jnum) : option Z := match n with Int z => Some z | NegZero => Some 0 | _ => None end.

(** The coding parameters by the mode; no number but an integer passes. *)
Definition check_coding (mode : PoolMode) (size : Z) (required total : jnum) (copies : Z) : res (Z * Z) :=
  match mode, integer_of required, integer_of total with
  | ErasureCoded, Some required, Some total =>
      let! _ := Erasure.codingBounds required total in
      check (copies =? 1) && (required <=? size) else "Invalid erasure copy count or size.";
      Ok (required, total)
  | ErasureCoded, _, _ => Throw "Erasure coding needs 2–15 required parts and up to 16 total parts, with at least one spare part."
  | _, Some required, Some total =>
      check (required =? 1) && (total =? 1) && (2 <=? copies) else "Replicated storage needs two or three copies.";
      Ok (required, total)
  | _, _, _ => Throw "Replicated storage needs two or three copies."
  end.

Definition validateManifest (value : json) (profile : NetworkProfile) : res PoolManifest :=
  let! ms := record value "copies,mode,parts,payload,profile,required,total,type,version" in
  let modeText := mode_of (get_member (lit "mode") ms) in
  check is_text (get_member (lit "type") ms) (lit "wildbloom.pool") && is_int (get_member (lit "version") ms) 1
        && is_text (get_member (lit "profile") ms) (profile_text profile) && bool_decide (is_Some modeText)
    else "Unsupported pool mode, version or network profile.";
  let mode := default NoMode modeText in
  let! payload := match get_member (lit "payload") ms with
                  | Some p => record p "encryption,sha256,size"
                  | None => Throw "Invalid pool schema or unsupported fields."
                  end in
  match get_member (lit "sha256") payload, get_member (lit "size") payload with
  | Some (JStr hash), Some (JNum sizeNumber) =>
      check hashPattern hash && is_text (get_member (lit "encryption") payload) WILDBLOOM_ENCRYPTION_V2 else "Invalid encrypted pool payload.";
      match safe_integer (Some sizeNumber) with
      | None => Throw "Choose a non-empty transfer payload."
      | Some size =>
          let! _ := assertPrototypeTransferSize size in
          match int_within (as_number (get_member (lit "copies") ms)) 1 3 with
          | None => Throw "Choose 1–3 copies."
          | Some copies =>
              match get_member (lit "required") ms, get_member (lit "total") ms with
              | Some (JNum required), Some (JNum total) =>
                  let! '(required, total) := check_coding mode size required total copies in
                  match get_member (lit "parts") ms with
                  | Some (JArr values) =>
                      check zlen values =? total else "Wrong number of pool parts.";
                      let! parts := readParts 0 values profile (bool_decide (mode = Replicas)) hash size required copies [] in
                      let! _ := validateNodes (concat (map targets parts)) profile in
                      Ok (mkManifest mode profile hash size required total copies parts value)
                  | _ => Throw "Wrong number of pool parts."
                  end
              | _, _ => Throw "Invalid coding parameters."
              end
          end
      end
  | _, _ => Throw "Invalid encrypted pool payload."
  end.

(** ** Preparing a layout *)

(** The first 48 bits of a digest, as [parseInt(digest.slice(0, 12), 16)]. *)
Definition digest_prefix (digest : jstr) : Z := radix_value 16 (take 12 digest).

Definition ranked_before (a b : PoolNode * Q) : bool :=
  match Qcompare a.2 b.2 with
  | Lt => true
  | Gt => false
  | Eq => match localeCompare (n_origin a.1) (n_origin b.1) with Gt => false | _ => true end
  end.

(** A stable sort. *)
Fixpoint insert_ranked (x : PoolNode * Q) (l : list (PoolNode * Q)) : list (PoolNode * Q) :=
  match l with
  | [] => [x]
  | y :: l => if ranked_before x y then x :: y :: l else y :: insert_ranked x l
  end.

Definition rank_node (payloadHash : jstr) (node : PoolNode) : M (PoolNode * Q) :=
  do digest <- blobHash (utf8_encode (lit "wildbloom.pool.v1" ++ [10] ++ payloadHash ++ [10] ++ n_origin node));
  ret (node, score (digest_prefix digest) (weight node)).

Fixpoint mapM_ {A B} (f : A → M B) (l : list A) : M (list B) :=
  match l with
  | [] => ret []
  | a :: l => do b <- f a; do bs <- mapM_ f l; ret (b :: bs)
  end.

(** [groups.set(group, [...(groups.get(group) ?? []), node])]. *)
Fixpoint add_to_group (node : PoolNode) (groups : list (jstr * list PoolNode)) : list (jstr * list PoolNode) :=
  match groups with
  | [] => [(failure_group node, [node])]
  | g :: groups => if eqb g.1 (failure_group node) then (g.1, g.2 ++ [node]) :: groups else g :: add_to_group node groups
  end.

(** [targets[i % total].push(...group)] for every group. *)
Fixpoint deal (i : nat) (total : nat) (groups : list (list PoolNode)) (targets : list (list PoolNode)) : list (list PoolNode) :=
  match groups with
  | [] => targets
  | g :: groups => deal (S i) total groups (alter (λ l, l ++ g) (i mod total)%nat targets)
  end.

Definition place (ranked : list PoolNode) (total : Z) : list (list PoolNode) :=
  let groups := foldl (λ gs n, add_to_group n gs) [] ranked in
  deal 0 (Z.to_nat total) (map snd groups) (replicate (Z.to_nat total) []).

Fixpoint make_parts (index : Z) (files : list bytes) (hashes : list jstr) (targets : list (list PoolNode)) : list PoolPart :=
  match files, hashes with
  | file :: files, hash :: hashes =>
      mkPart index hash (zlen file) (List.hd [] targets) :: make_parts (index + 1) files hashes (List.tl targets)
  | _, _ => []
  end.

Definition preparePool (encrypted : bytes) (mode : PoolMode) (nodes : list PoolNode) (required total copies : Z) (profile : NetworkProfile)
    : M PreparedPool :=
  do _ <- lift (validateNodes nodes profile);
  do _ <- lift (assertPrototypeTransferSize (zlen encrypted));
  require eqb (slice 0 8 encrypted) ENVELOPE_MAGIC_V2 else AnError (lit "Pool storage requires a locally encrypted FSWNENC2 envelope.");
  do _ <- lift (if bool_decide (mode = ErasureCoded) then Erasure.codingBounds required total else Ok tt);
  let copies := if bool_decide (mode = ErasureCoded) then 1 else copies in
  let required := if bool_decide (mode = ErasureCoded) then required else 1 in
  let total := if bool_decide (mode = ErasureCoded) then total else 1 in
  require negb (zlen (groups_of nodes) <? total * copies) else AnError (lit "Add more independent failure groups before preparing this layout.");
  do payloadHash <- blobHash encrypted;
  do ranked <- mapM_ (rank_node payloadHash) nodes;
  let sorted := map fst (foldr insert_ranked [] ranked) in
  do signal <- asks hashSignal;
  do files <- lift (if bool_decide (mode = ErasureCoded) then Erasure.encodeParts signal encrypted required total else Ok [encrypted]);
  do hashes <- mapM_ blobHash files;
  let parts := make_parts 0 files hashes (place sorted total) in
  do manifest <- lift (validateManifest (manifest_json mode profile payloadHash (zlen encrypted) required total copies parts) profile);
  ret (mkPrepared manifest files).

(** ** Receipts *)

Definition POOL_KIND : Z := 30078.

Definition pool_tags (m : PoolManifest) : list (list jstr) := [[lit "d"; lit "wildbloom.pool.v1:" ++ payload_sha256 m]].

Definition poolTemplate (m : PoolManifest) (now : Z) : res EventTemplate :=
  let! _ := validateManifest (m_raw m) (m_profile m) in
  Ok (mkTemplate POOL_KIND now (pool_tags m) (stringify (m_raw m))).

(** [assertSignedEventExactly(raw, raw)]: a value is its own template unless a
    scalar field of it is an object. *)
Definition scalar_value (v : option json) : bool := match v with Some (JArr _ | JObj _) => false | _ => true end.
Definition assertSelf (v : json) : res SignedNostrEvent :=
  match v with
  | JObj ms =>
      check eqb (sorted_keys ms) SIGNED_EVENT_KEYS else "The signer returned an unexpected Nostr event shape.";
      check scalar_value (get_member (lit "kind") ms) && scalar_value (get_member (lit "created_at") ms)
            && scalar_value (get_member (lit "content") ms)
        else "The signer changed the event instead of signing the reviewed template.";
      match verified v with Some event => Ok event | None => Throw "The signer returned an invalid Nostr event." end
  | _ => Throw "The signer returned an invalid Nostr event shape."
  end.

Definition parse_or (text : jstr) : res json := match parse text with Some v => Ok v | None => Throw "SyntaxError" end.

Definition resolvePoolReceipt (text : jstr) (profile : NetworkProfile) (expectedId : option jstr) : res PoolReceipt :=
  check zlen (utf8_encode text) <=? MAX_SIGNED_EVENT_JSON_BYTES else "Pool receipt exceeds 128 KiB.";
  let! raw := parse_or text in
  let! event := assertSelf raw in
  check is_number (kind event) POOL_KIND else "Expected a signed pool receipt.";
  let! body := parse_or (content event) in
  let! manifest := validateManifest body profile in
  check eqb (stringify (JArr (map JArr (tags event)))) (stringify (tags_json (pool_tags manifest)))
    else "Pool receipt has invalid binding tags.";
  match expectedId with
  | Some expected =>
      if non_empty expected then
        let! exact := assertHex64 expected "Event ID" in
        check eqb (id event) exact else "Pool receipt does not match the expected event ID.";
        Ok (mkReceipt event manifest)
      else Ok (mkReceipt event manifest)
  | None => Ok (mkReceipt event manifest)
  end.

Definition signPool (manifest : PoolManifest) (owner : jstr) : M PoolReceipt :=
  do now <- asks clock;
  do template <- lift (poolTemplate manifest now);
  do signed <- abortable (AskedToSign template) (signer template);
  do event <- lift (assertSignedEventExactly template signed (Some owner));
  lift (resolvePoolReceipt (stringify (raw event)) (m_profile manifest) None).

(** ** Replacements *)

Definition replacement_id (i : nat) : jstr := lit "replacement-" ++ decimal (Z.of_nat i).

(** The first free name; as many names as there are taken ones are enough. *)
Fixpoint free_id (fuel : nat) (i : nat) (ids : list jstr) : jstr :=
  match fuel with
  | O => replacement_id i
  | S fuel => if existsb (eqb (replacement_id i)) ids then free_id fuel (S i) ids else replacement_id i
  end.

(** [next.parts[index].targets.push(node)] on the object. *)
Definition push_target (raw : json) (index : Z) (node : json) : json :=
  let push part := match part with
                   | JObj ms => match get_member (lit "targets") ms with
                                | Some (JArr l) => JObj (set_member (lit "targets") (JArr (l ++ [node])) ms)
                                | _ => part
                                end
                   | _ => part
                   end in
  match raw with
  | JObj ms => match get_member (lit "parts") ms with
               | Some (JArr l) => JObj (set_member (lit "parts") (JArr (alter push (Z.to_nat index) l)) ms)
               | _ => raw
               end
  | _ => raw
  end.

(** A weight that is [NaN] is no integer, like [null]. *)
Definition number_json (n : option jnum) : json := match n with Some n => JNum n | None => JNull end.

Definition replacement_error : string :=
  "Enter a part number (starting at 1), URL, failure group and optional weight per replacement.".

Definition add_replacement (profile : NetworkProfile) (total : Z) (st : json * list jstr) (line : jstr) : res (json * list jstr) :=
  let '(raw, ids) := st in
  match words_of line with
  | partNumber :: origin :: group :: rest =>
      check zlen rest <=? 1 else replacement_error;
      match string_number partNumber ≫= integer_of with
      | None => Throw replacement_error
      | Some n =>
          let index := n - 1 in
          check (0 <=? index) && (index <? total) else replacement_error;
          let id := free_id (S (length ids)) 1 ids in
          let! server := normaliseBlossomServer origin profile in
          let node := JObj [(lit "id", JStr id); (lit "origin", JStr (with_slash server)); (lit "failure_group", JStr group);
                            (lit "weight", number_json (string_number (match rest with w :: _ => w | [] => lit "1" end)))] in
          Ok (push_target raw index node, ids ++ [id])
      end
  | _ => Throw replacement_error
  end.

Fixpoint add_replacements (profile : NetworkProfile) (total : Z) (st : json * list jstr) (lines : list jstr) : res (json * list jstr) :=
  match lines with
  | [] => Ok st
  | line :: lines => let! st := add_replacement profile total st line in add_replacements profile total st lines
  end.

Definition extendPool (manifest : PoolManifest) (replacements : jstr) : res PoolManifest :=
  let! _ := validateManifest (m_raw manifest) (m_profile manifest) in
  check zlen replacements <=? 8192 else "Replacement node list is too large.";
  let ids := uniq (map n_id (concat (map targets (m_parts manifest)))) in
  let! '(next, _) := add_replacements (m_profile manifest) (total manifest) (m_raw manifest, ids) (lines_of replacements) in
  validateManifest next (m_profile manifest).

(** ** Requests *)

Record PoolOptions := mkPoolOptions { o_profile : option NetworkProfile; o_timeoutMs : option Z; o_lifetime : option Z }.

Definition partEvent (part : PoolPart) (node : PoolNode) : VerifiableBlob :=
  mkVerifiable (n_origin node ++ p_sha256 part) (p_sha256 part) (p_size part) (lit "application/octet-stream").

(** Transfer time at 256 KiB a second, 128 over Tor, and a start. *)
Definition pool_timeout (m : PoolManifest) : Z :=
  let tor := bool_decide (m_profile m = tor) in
  let size := match m_parts m with p :: _ => p_size p | [] => 0 end in
  let transferMs := ceil_div size ((if tor then 128 else 256) * 1024) * 1000 in
  Z.min (30 * 60 * 1000) ((if tor then 180000 else 30000) + transferMs).

Definition optionsFor (receipt : PoolReceipt) (options : PoolOptions) : res BlossomRequestOptions :=
  let m := r_manifest receipt in
  check (match o_profile options with Some p => bool_decide (p = m_profile m) | None => true end) else "Pool profile changed.";
  let! _ := validateManifest (m_raw m) (m_profile m) in
  let! again := resolvePoolReceipt (stringify (raw (r_event receipt))) (m_profile m) None in
  check eqb (stringify (m_raw (r_manifest again))) (stringify (m_raw m)) else "Pool manifest differs from the signed receipt.";
  Ok (mkOptions (m_profile m) (Some (default (pool_timeout m) (o_timeoutMs options))) (o_lifetime options) None).

Definition report (m : PoolManifest) (verified : list Z) (now : Z) : PoolReport :=
  mkReport verified (forallb (λ count, copies m <=? count) verified)
    (required m <=? zlen (List.filter (λ count, 0 <? count) verified)) now.

(** [request.signal?.throwIfAborted()]. *)
Definition going : M unit := do c <- asks cancelled; if c then throw AnAbort else ret tt.

(** Whether a node holds a part in the end: it is checked, else uploaded to and
    checked again. *)
Definition stored (part : PoolPart) (node : PoolNode) (file : InspectedFile) (owner : jstr) (request : BlossomRequestOptions) : M bool :=
  let verify : M bool := do _ <- fetchVerifiedBlob (partEvent part node) request; ret true in
  catch verify (λ _,
    do _ <- going;
    catch (do _ <- uploadToBlossom file (n_origin node) owner request; verify) (λ _, do _ <- going; ret false)).

(** The targets of a part until there are copies enough; the groups reached. *)
Fixpoint upload_targets (nodes : list PoolNode) (part : PoolPart) (file : InspectedFile) (owner : jstr) (request : BlossomRequestOptions)
    (copies : Z) (groups : list jstr) : M (list jstr) :=
  match nodes with
  | [] => ret groups
  | node :: nodes =>
      do _ <- going;
      if existsb (eqb (failure_group node)) groups then upload_targets nodes part file owner request copies groups
      else
        do ok <- stored part node file owner request;
        if ok then
          let groups := groups ++ [failure_group node] in
          if copies <=? zlen groups then ret groups else upload_targets nodes part file owner request copies groups
        else upload_targets nodes part file owner request copies groups
  end.

Fixpoint upload_parts (parts : list PoolPart) (files : list InspectedFile) (owner : jstr) (request : BlossomRequestOptions) (copies : Z) : M (list Z) :=
  match parts, files with
  | part :: parts, file :: files =>
      do groups <- upload_targets (targets part) part file owner request copies [];
      do counts <- upload_parts parts files owner request copies;
      ret (zlen groups :: counts)
  | _, _ => ret []
  end.

Definition same_file (file : InspectedFile) (part : PoolPart) : bool :=
  eqb (if_sha256 file) (p_sha256 part) && (if_size file =? p_size part).

Definition uploadPool (prepared : PreparedPool) (receipt : PoolReceipt) (owner : jstr) (options : PoolOptions) : M PoolReport :=
  let m := r_manifest receipt in
  do request <- lift (optionsFor receipt options);
  require eqb owner (pubkey (r_event receipt)) && eqb (stringify (m_raw (pp_manifest prepared))) (stringify (m_raw m))
          && (zlen (pp_files prepared) =? total m) else AnError (lit "Pool upload does not match its signed receipt.");
  do inspected <- mapM_ (λ file, inspectFile (mkFile file (lit "part.bin") (lit "application/octet-stream")) false) (pp_files prepared);
  require forallb (λ fp, same_file fp.1 fp.2) (combine inspected (m_parts m)) else AnError (lit "Prepared pool bytes do not match the manifest.");
  do counts <- upload_parts (m_parts m) inspected owner request (copies m);
  do now <- asks dateNow;
  ret (report m counts now).

(** The first target that gives a part's bytes. *)
Fixpoint fetch_part (nodes : list PoolNode) (part : PoolPart) (request : BlossomRequestOptions) : M (option bytes) :=
  match nodes with
  | [] => ret None
  | node :: nodes =>
      do _ <- going;
      do found <- catch (do blob <- fetchVerifiedBlob (partEvent part node) request; ret (Some blob)) (λ _, do _ <- going; ret None);
      match found with
      | Some blob => ret (Some blob)
      | None => fetch_part nodes part request
      end
  end.

(** The parts in order until enough are there. *)
Fixpoint fetch_parts (parts : list PoolPart) (required : Z) (request : BlossomRequestOptions) (available : list Erasure.part) : M (list Erasure.part) :=
  match parts with
  | [] => ret available
  | part :: parts =>
      do found <- fetch_part (targets part) part request;
      let available := match found with Some blob => available ++ [Erasure.Part (p_index part) blob] | None => available end in
      if required <=? zlen available then ret available else fetch_parts parts required request available
  end.

Definition fetchPool (receipt : PoolReceipt) (options : PoolOptions) : M bytes :=
  let m := r_manifest receipt in
  do request <- lift (optionsFor receipt options);
  do available <- fetch_parts (m_parts m) (required m) request [];
  require required m <=? zlen available
    else AnError (lit "Only " ++ decimal (zlen available) ++ lit " verified parts remain; " ++ decimal (required m)
                  ++ lit " are needed. Recovery is unavailable.");
  do signal <- asks hashSignal;
  do payload <- lift (match mode m, available with
                      | Replicas, p :: _ => Ok (Erasure.part_blob p)
                      | _, _ => Erasure.decodeParts signal available (required m) (total m) (payload_size m)
                      end);
  require zlen payload =? payload_size m else AnError (lit "Reconstructed ciphertext failed verification.");
  do hash <- blobHash payload;
  require eqb hash (payload_sha256 m) else AnError (lit "Reconstructed ciphertext failed verification.");
  ret payload.

Definition preparePoolRepair (receipt : PoolReceipt) (options : PoolOptions) : M PreparedPool :=
  do payload <- fetchPool receipt options;
  let m := r_manifest receipt in
  do signal <- asks hashSignal;
  do files <- lift (if bool_decide (mode m = Replicas) then Ok [payload] else Erasure.encodeParts signal payload (required m) (total m));
  ret (mkPrepared m files).
End Pool.
