(* ===== verification/PoolFacts.v ===== *)
(** * What pooled storage promises

    A layout that was prepared and uploaded gives the file back from any set of
    parts that is large enough, whatever the other servers do. *)

From S2P Require Import Prelude JsString Utf8 Bytes Json JsValue Security Envelope Nostr NostrFacts Net Blossom BlossomFacts Pool.
From S2P Require Erasure.

Section Facts.
Context `{Unicode} `{Web} `{Numbers} `{NostrTools} `{Cipher} `{Net} `{!NetLaws} `{Ranking}.

(** ** A manifest reads back as it was written *)

Ltac members := cbn [get_member fst snd]; tag_tests.
Ltac members_in Hr :=
  cbn [get_member fst snd] in Hr;
  repeat match type of Hr with
  | context [eqb (lit ?a) (lit ?b)] => let v := eval vm_compute in (eqb (lit a) (lit b)) in change (eqb (lit a) (lit b)) with v in Hr
  end; cbv iota in Hr.

Lemma record_obj ms keys r : record (JObj ms) keys = Ok r → r = ms.
Proof. unfold record. intros Hr. by inv_ok. Qed.

Lemma validateNode_json n profile n' : validateNode (node_json n) profile = Ok n' → n' = n.
Proof.
  unfold validateNode, node_json. intros Hr. inv_ok. match goal with Hm : record _ _ = Ok _ |- _ => apply record_obj in Hm as -> end.
  members_in Hr. cbn [as_number] in Hr. unfold check_node in Hr. inv_ok. unfold int_within in Hr. destruct n. repeat case_match; by simplify_eq.
Qed.

Lemma rmap_id {A B} (f : A → res B) (g : B → A) l r : (∀ b b', f (g b) = Ok b' → b' = b) → rmap f (map g l) = Ok r → r = l.
Proof.
  intros Hf. revert r. induction l as [|b l IH]; intros r Hr; cbn [map rmap] in Hr; inv_ok; [done|]. f_equal; [by apply Hf|by apply IH].
Qed.

Lemma readNodes_json nodes profile r : readNodes (map node_json nodes) profile = Ok r → r = nodes.
Proof. unfold readNodes. intros Hr. inv_ok.
  match goal with E : rmap _ _ = Ok _ |- _ => exact (rmap_id (λ v, validateNode v profile) node_json nodes _ (λ b b', validateNode_json b profile b') E) end.
Qed.

Lemma is_int_Int z n : is_int (Some (JNum (Int z))) n = true → z = n.
Proof. cbn. apply Z.eqb_eq. Qed.

Lemma readParts_json index parts profile replicas hash size required copies assigned r :
  readParts index (map part_json parts) profile replicas hash size required copies assigned = Ok r → r = parts.
Proof.
  revert index assigned r. induction parts as [|p parts IH]; intros index assigned r Hr; cbn [map readParts] in Hr; [by inv_ok|].
  unfold part_json in Hr at 1. inv_ok. match goal with Hm : record _ _ = Ok _ |- _ => apply record_obj in Hm as -> end. members_in Hr. inv_ok.
  match goal with Hc : is_int _ _ && _ && is_int _ _ = true |- _ => apply andb_true_iff in Hc as [[Q1%is_int_Int _]%andb_true_iff Q2%is_int_Int] end.
  match goal with Hn : readNodes _ _ = Ok _ |- _ => apply readNodes_json in Hn as -> end.
  f_equal; [|by eapply IH]. rewrite <- Q1, <- Q2. by destruct p.
Qed.

Lemma is_text_refl s : is_text (Some (JStr s)) s = true.
Proof. by apply eqb_eq. Qed.

Lemma validateManifest_json mode profile hash size required total copies parts m : mode ≠ NoMode →
  validateManifest (manifest_json mode profile hash size required total copies parts) profile = Ok m →
  m = mkManifest mode profile hash size required total copies parts (manifest_json mode profile hash size required total copies parts) ∧
  check_coding mode size (Int required) (Int total) copies = Ok (required, total) ∧ zlen parts = total ∧ assertPrototypeTransferSize size = Ok tt ∧ 1 <= copies <= 3.
Proof.
  intros Hm Hr. assert (mode_of (Some (JStr (mode_text mode))) = Some mode) as Hmo by (by destruct mode).
  unfold validateManifest in Hr. unfold manifest_json in Hr at 1. inv_ok1.
  match goal with Hq : record _ _ = Ok _ |- _ => apply record_obj in Hq as -> end. members_in Hr.
  rewrite Hmo in Hr. do 2 inv_ok1. match goal with Hq : record _ _ = Ok _ |- _ => apply record_obj in Hq as -> end. members_in Hr.
  cbn [default] in Hr.
  change (Datatypes.id mode) with mode in Hr. inv_ok1. cbn [safe_integer] in Hr. destruct (is_safe_integer size) eqn:Es; [|discriminate Hr].
  inv_ok1. cbn [as_number int_within] in Hr. destruct ((1 <=? copies) && (copies <=? 3)) eqn:Ec; [|discriminate Hr].
  inv_ok1. match goal with Hq : check_coding _ _ _ _ _ = Ok ?rt |- _ =>
    assert (rt = (required, total)) as -> by (unfold check_coding in Hq; cbn [integer_of] in Hq; destruct mode; by inv_ok) end.
  inv_ok. match goal with Hq : readParts _ _ _ _ _ _ _ _ _ = Ok _ |- _ => apply readParts_json in Hq as -> end.
  bool_prop. split_and!; try done; [|by destruct x1]. match goal with Hz : zlen (map _ _) = _ |- _ => by rewrite zlen_map in Hz end.
Qed.

(** ** Layouts *)

(** The files that a manifest's parts describe, and the payload. *)
Record layout (m : PoolManifest) (files : list bytes) (encrypted : bytes) : Prop := {
  ly_parts : ∀ i part, m_parts m !! i = Some part → ∃ file, files !! i = Some file ∧ p_index part = Z.of_nat i ∧
    p_sha256 part = toHex (sha256 file) ∧ p_size part = zlen file;
  ly_payload : payload_sha256 m = toHex (sha256 encrypted) ∧ payload_size m = zlen encrypted;
  ly_total : length (m_parts m) = length files ∧ zlen (m_parts m) = total m;
  ly_code : match mode m with
            | Replicas => required m = 1 ∧ files = [encrypted]
            | ErasureCoded => ∃ signal, Erasure.encodeParts signal encrypted (required m) (total m) = Ok files
            | NoMode => False
            end;
}.

Lemma mapM_inr {A B} (f : A → M B) (Q : A → B → Prop) l s s' bs : (∀ a s s' b, f a s = (s', inr b) → Q a b) →
  mapM_ f l s = (s', inr bs) → Forall2 Q l bs.
Proof.
  intros Hf. revert s bs. induction l as [|a l IH]; intros s bs Hr; cbn [mapM_] in Hr; run_inr; [done|]. constructor; [by eapply Hf|by eapply IH].
Qed.

Lemma make_parts_lookup index files hashes tgts i part : length files = length hashes →
  make_parts index files hashes tgts !! i = Some part →
  ∃ file hash, files !! i = Some file ∧ hashes !! i = Some hash ∧ p_index part = index + Z.of_nat i ∧ p_sha256 part = hash ∧ p_size part = zlen file.
Proof.
  revert index hashes tgts i. induction files as [|file files IH]; intros index [|hash hashes] tgts i Hl Hp; try done.
  injection Hl as Hl. cbn [make_parts] in Hp. destruct i as [|i]; cbn in Hp.
  - injection Hp as <-. exists file, hash. cbn. split_and!; try done. lia.
  - destruct (IH _ _ _ _ Hl Hp) as (f & h & ? & ? & ? & ? & ?). exists f, h. cbn. split_and!; try done. lia.
Qed.

Lemma make_parts_length index files hashes tgts : length files = length hashes → length (make_parts index files hashes tgts) = length files.
Proof.
  revert index hashes tgts. induction files as [|file files IH]; intros index [|hash hashes] tgts Hl; try done. cbn. f_equal. apply IH. by injection Hl.
Qed.

Lemma preparePool_layout encrypted mode nodes required total copies profile s s' prepared : mode ≠ NoMode →
  preparePool encrypted mode nodes required total copies profile s = (s', inr prepared) →
  layout (pp_manifest prepared) (pp_files prepared) encrypted.
Proof.
  intros Hm Hr. unfold preparePool in Hr. cbv zeta in Hr. run_inr.
  match goal with Hv : validateManifest _ _ = Ok _ |- _ => apply validateManifest_json in Hv as (-> & Hc & Ht & _); [|done] end.
  match goal with Hh : mapM_ blobHash _ _ = _ |- _ => apply (mapM_inr _ (λ file hash, hash = toHex (sha256 file))) in Hh;
    [|intros a sa sb b Hb; by apply blobHash_inr in Hb as [-> _]]; rename Hh into Hhs end.
  match goal with Hp : blobHash encrypted _ = _ |- _ => apply blobHash_inr in Hp as [-> _] end.
  pose proof (Forall2_length _ _ _ Hhs) as Hl. split; cbn.
  - intros i part Hi. apply make_parts_lookup in Hi as (file & hash & Hf & Hh & Hpi & Hps & Hpz); [|done].
    exists file. split_and!; try done. rewrite Hps. by destruct (Forall2_lookup_lr _ _ _ _ _ _ Hhs Hf Hh).
  - done.
  - rewrite make_parts_length by done. split; [done|exact Ht].
  - destruct mode; [|by rewrite !bool_decide_true in * by done; eexists|done]. rewrite !bool_decide_false in * by done.
    split; [done|]. by inv_ok.
Qed.

(** ** Fetching parts *)

Definition verified_part (part : PoolPart) (blob : bytes) : Prop := zlen blob = p_size part ∧ toHex (sha256 blob) = p_sha256 part.

(** A target that serves a part's file. *)
Definition held (Calm : World → Prop) (request : BlossomRequestOptions) (part : PoolPart) (file : bytes) : Prop :=
  verified_part part file ∧ ∃ node url, node ∈ targets part ∧ retrieval_url (partEvent part node) request = Ok url ∧ serves Calm url file.

Section Calm.
Context (Calm : World → Prop) (calm : steady Calm) (request : BlossomRequestOptions) (deadline : deadline_ok request).

Lemma going_calm s : Calm (world s) → going s = (s, inr tt).
Proof.
  intros Hs. pose proof (sy_going _ calm _ Hs) as Ha. unfold aborted in Ha. apply orb_false_iff in Ha as [_ Hc].
  unfold going, bind, asks. by rewrite Hc.
Qed.

Lemma fetch_part_spec nodes part s : Calm (world s) →
  ∃ s' r, fetch_part nodes part request s = (s', inr r) ∧ Calm (world s') ∧ (∀ blob, r = Some blob → verified_part part blob) ∧
    ((∃ node file url, node ∈ nodes ∧ verified_part part file ∧ retrieval_url (partEvent part node) request = Ok url ∧ serves Calm url file) →
     is_Some r).
Proof.
  revert s. induction nodes as [|node nodes IH]; intros s Hs; cbn [fetch_part].
  { exists s, None. split_and!; try done. intros (node & _ & _ & Hn & _). by apply elem_of_nil in Hn. }
  unfold bind at 1. rewrite (going_calm s Hs). unfold bind at 1, catch, bind at 1.
  pose proof (keeps_fetch Calm (partEvent part node) request calm s Hs) as Hk.
  destruct (fetchVerifiedBlob (partEvent part node) request s) as [s1 [e|blob]] eqn:Ef; cbn [fst] in Hk.
  - unfold bind at 1. rewrite (going_calm s1 Hk). cbn [ret]. destruct (IH s1 Hk) as (s' & r & Hr & Hc & Hv & Hg). exists s', r. split_and!; try done.
    intros (n & file & url & Hn & Hf & Hu & Hserve). apply elem_of_cons in Hn as [->|Hn].
    + destruct Hf as [Hz Hh]. by destruct (fetch_served Calm (partEvent part node) request url file s calm Hs deadline Hu Hserve Hz Hh) as (s2 & Hf); rewrite Ef in Hf.
    + apply Hg. by exists n, file, url.
  - cbn [ret]. exists s1, (Some blob). split_and!; try done. intros b [= <-]. exact (fetch_inr _ _ _ _ _ Ef).
Qed.

(** What the loop over the parts has found. *)
Record found (parts : list PoolPart) (got : list Erasure.part) : Prop := {
  fd_order : map Erasure.part_index got `sublist_of` map p_index parts;
  fd_each : ∀ q, q ∈ got → ∃ part, part ∈ parts ∧ Erasure.part_index q = p_index part ∧ verified_part part (Erasure.part_blob q);
}.

Lemma fetch_parts_spec parts required available s : Calm (world s) → zlen available < required →
  ∃ s' got, fetch_parts parts required request available s = (s', inr (available ++ got)) ∧ Calm (world s') ∧ found parts got ∧
    zlen (available ++ got) <= required ∧
    (zlen (available ++ got) = required ∨
     ∀ part file, part ∈ parts → held Calm request part file → p_index part ∈ map Erasure.part_index got).
Proof.
  revert available s. induction parts as [|part parts IH]; intros available s Hs Hl; cbn [fetch_parts].
  { exists s, []. rewrite app_nil_r. split_and!; try done; [by split; [constructor|intros q Hq; by apply elem_of_nil in Hq]|lia|].
    right. intros p f Hp. by apply elem_of_nil in Hp. }
  destruct (fetch_part_spec (targets part) part s Hs) as (s1 & r & Hr & Hc1 & Hv & Hg). unfold bind. rewrite Hr. destruct r as [blob|].
  - set (q := Erasure.Part (p_index part) blob). destruct (required <=? zlen (available ++ [q])) eqn:El.
    + apply Z.leb_le in El. exists s1, [q]. rewrite zlen_app, zlen_single in *. split_and!; try done; [|lia|left; lia].
      split; [cbn; apply sublist_skip, sublist_nil_l|]. intros q' ->%list_elem_of_singleton. exists part. split_and!; [left|done|by apply Hv].
    + apply Z.leb_gt in El. destruct (IH (available ++ [q]) s1 Hc1 El) as (s' & got & Hf & Hc & [Fo Fe] & Hle & Hd).
      exists s', (q :: got). rewrite <- app_assoc in *. split_and!; try done.
      * split; [cbn; by apply sublist_skip|]. intros q' [->|Hq]%elem_of_cons; [exists part; split_and!; [left|done|by apply Hv]|].
        destruct (Fe _ Hq) as (p & Hp & ? & ?). exists p. split_and!; try done. by right.
      * destruct Hd as [Hd|Hd]; [by left|right]. intros p f [->|Hp]%elem_of_cons Hh; cbn; [left|right; by eapply Hd].
  - rewrite (proj2 (Z.leb_gt _ _) Hl). destruct (IH available s1 Hc1 Hl) as (s' & got & Hf & Hc & [Fo Fe] & Hle & Hd).
    exists s', got. split_and!; try done.
    + split; [cbn; by apply sublist_cons|]. intros q' Hq. destruct (Fe _ Hq) as (p & Hp & ? & ?). exists p. split_and!; try done. by right.
    + destruct Hd as [Hd|Hd]; [by left|right]. intros p f [->|Hp]%elem_of_cons Hh; [|by eapply Hd].
      destruct Hh as (Hvp & node & url & Hn & Hu & Hsv). destruct Hg as [? ?]; [by exists node, f, url|done].
Qed.
End Calm.

(** ** The report of an upload *)

(** [during s s' fact]: the fact holds of a stretch of what happened between the
    two states. *)
Definition during (s s' : state) (fact : state → state → Prop) : Prop :=
  ∃ s1 s2, log s `prefix_of` log s1 ∧ fact s1 s2 ∧ log s2 `prefix_of` log s'.

Lemma only_prefix {A} P (m : M A) s s' r : only P m → m s = (s', r) → log s `prefix_of` log s'.
Proof. intros Hm E. destruct (Hm s) as (l & Hl & _). rewrite E in Hl. exists l. exact Hl. Qed.

Lemma during_wider s0 s s' s1 fact : log s0 `prefix_of` log s → log s' `prefix_of` log s1 → during s s' fact → during s0 s1 fact.
Proof. intros H1' H2' (a & b & Ha & Hf & Hb). exists a, b. split_and!; [by etransitivity|done|by etransitivity]. Qed.

(** Follow the log from state to state. *)
Ltac chain :=
  first [ done
    | match goal with Hx : log ?a `prefix_of` ?l |- log ?a `prefix_of` _ => etransitivity; [exact Hx|]; clear Hx; chain end ].

Definition anything (a : act) : Prop := True.

Lemma only_any_fetch resolved options : only anything (fetchVerifiedBlob resolved options).
Proof.
  intros s. destruct (fetch_log resolved options s) as (l & Hl & _). exists l. split; [done|]. by apply Forall_true.
Qed.

Lemma only_any_upload file server owner options : only anything (uploadToBlossom file server owner options).
Proof. eapply only_impl; [|apply only_upload]. done. Qed.

Lemma only_going P : only P going.
Proof. unfold going. only_steps. Qed.

Lemma only_stored part node file owner request : only anything (stored part node file owner request).
Proof.
  unfold stored. cbv zeta. apply only_catch; [|intros e].
  - apply only_bind; [apply only_any_fetch|intros; apply only_ret].
  - apply only_bind; [apply only_going|intros _]. apply only_catch; [|intros; apply only_bind; [apply only_going|intros; apply only_ret]].
    apply only_bind; [apply only_any_upload|intros _]. apply only_bind; [apply only_any_fetch|intros; apply only_ret].
Qed.

(** The part was read back from the node, whole and with its hash. *)
Definition read_back (part : PoolPart) (request : BlossomRequestOptions) (node : PoolNode) (s s' : state) : Prop :=
  ∃ blob, fetchVerifiedBlob (partEvent part node) request s = (s', inr blob) ∧ verified_part part blob.

Lemma verify_inr part node request s s' b : bind (fetchVerifiedBlob (partEvent part node) request) (λ _, ret true) s = (s', inr b) →
  read_back part request node s s'.
Proof.
  intros Hr. run_inr. match goal with Hf : fetchVerifiedBlob _ _ _ = _ |- _ => exists x0; split; [exact Hf|exact (fetch_inr _ _ _ _ _ Hf)] end.
Qed.

Lemma stored_inr part node file owner request s s' : stored part node file owner request s = (s', inr true) →
  during s s' (read_back part request node).
Proof.
  unfold stored. cbv zeta. intros [Hr|(s1 & e & Hr & Hk)]%catch_inr.
  - exists s, s'. split_and!; [done|by eapply verify_inr|done].
  - assert (log s `prefix_of` log s1) as Hp.
    { eapply only_prefix; [|exact Hr]. apply only_bind; [apply only_any_fetch|intros; apply only_ret]. }
    apply bind_inr in Hk as (s2 & [] & Hg & Hk). apply (only_prefix anything) in Hg; [|apply only_going].
    apply catch_inr in Hk as [Hk|(s3 & e' & _ & Hk)].
    + apply bind_inr in Hk as (s3 & d & Hu & Hk). apply (only_prefix anything) in Hu; [|apply only_any_upload].
      exists s3, s'. split_and!; [chain|by eapply verify_inr|done].
    + apply bind_inr in Hk as (s4 & [] & _ & Hk). by run_inr.
Qed.

(** Nodes of distinct failure groups that hold the part. *)
Lemma upload_targets_inr nodes part file owner request copies groups s s' r : NoDup groups →
  upload_targets nodes part file owner request copies groups s = (s', inr r) →
  log s `prefix_of` log s' ∧ NoDup r ∧ ∃ ns, r = groups ++ map failure_group ns ∧
    ∀ n, n ∈ ns → n ∈ nodes ∧ during s s' (read_back part request n).
Proof.
  revert groups s. induction nodes as [|node nodes IH]; intros groups s Hnd Hr; cbn [upload_targets] in Hr.
  { run_inr. split_and!; [done|done|]. exists []. rewrite app_nil_r. split; [done|]. intros n Hn. by apply elem_of_nil in Hn. }
  apply bind_inr in Hr as (s1 & [] & Hg & Hr). apply (only_prefix anything) in Hg; [|apply only_going].
  destruct (existsb (eqb (failure_group node)) groups) eqn:Ex.
  { destruct (IH _ _ Hnd Hr) as (Hp & Hnd' & ns & -> & Hns). split_and!; [chain|done|]. exists ns. split; [done|].
    intros n Hn. destruct (Hns n Hn) as [Hin Hd]. split; [by right|]. refine (during_wider _ _ _ _ _ _ _ Hd); [exact Hg|done]. }
  apply bind_inr in Hr as (s2 & ok & Hs & Hr). pose proof (only_prefix anything _ _ _ _ (only_stored _ _ _ _ _) Hs) as Hp2.
  destruct ok.
  - apply stored_inr in Hs.
    assert (NoDup (groups ++ [failure_group node])) as Hnd2.
    { apply NoDup_app. split_and!; [done| |apply NoDup_singleton]. intros g Hin ->%list_elem_of_singleton.
      apply not_true_iff_false in Ex. apply Ex. apply existsb_exists. exists (failure_group node). split; [by apply list_elem_of_In|by apply eqb_eq]. }
    destruct (copies <=? zlen (groups ++ [failure_group node])).
    + run_inr. split_and!; [chain|done|]. exists [node]. split; [done|]. intros n ->%list_elem_of_singleton. split; [left|].
      refine (during_wider _ _ _ _ _ _ _ Hs); [exact Hg|done].
    + destruct (IH _ _ Hnd2 Hr) as (Hp & Hnd' & ns & -> & Hns). split_and!; [chain|done|].
      exists (node :: ns). split; [by rewrite <- app_assoc|]. intros n [->|Hn]%elem_of_cons.
      * split; [left|]. refine (during_wider _ _ _ _ _ _ _ Hs); [exact Hg|exact Hp].
      * destruct (Hns n Hn) as [Hin Hd]. split; [by right|]. refine (during_wider _ _ _ _ _ _ _ Hd); [| ]; [chain|done].
  - destruct (IH _ _ Hnd Hr) as (Hp & Hnd' & ns & -> & Hns). split_and!; [chain|done|].
    exists ns. split; [done|]. intros n Hn. destruct (Hns n Hn) as [Hin Hd]. split; [by right|]. refine (during_wider _ _ _ _ _ _ _ Hd); [| ]; [chain|done].
Qed.

(** A count stands for that many nodes of distinct failure groups that were
    seen to hold the part. *)
Definition counted (s s' : state) (request : BlossomRequestOptions) (part : PoolPart) (count : Z) : Prop :=
  ∃ nodes, zlen nodes = count ∧ NoDup (map failure_group nodes) ∧
    ∀ n, n ∈ nodes → n ∈ targets part ∧ during s s' (read_back part request n).

Lemma counted_wider s0 s s' s1 request part count : log s0 `prefix_of` log s → log s' `prefix_of` log s1 →
  counted s s' request part count → counted s0 s1 request part count.
Proof.
  intros Ha Hb (ns & Hz & Hnd & Hn). exists ns. split_and!; [done|done|]. intros n Hin. destruct (Hn n Hin) as [? Hd].
  split; [done|]. refine (during_wider _ _ _ _ _ _ _ Hd); [exact Ha|exact Hb].
Qed.

Lemma upload_parts_inr parts files owner request copies s s' counts : length files = length parts →
  upload_parts parts files owner request copies s = (s', inr counts) →
  log s `prefix_of` log s' ∧ Forall2 (counted s s' request) parts counts.
Proof.
  revert files s counts. induction parts as [|part parts IH]; intros [|file files] s counts Hl Hr; try done; cbn [upload_parts] in Hr.
  { run_inr. split; [done|constructor]. }
  injection Hl as Hl. apply bind_inr in Hr as (s1 & groups & Ht & Hr). apply bind_inr in Hr as (s2 & cs & Hc & Hr). run_inr.
  apply upload_targets_inr in Ht as (Hp & Hnd & ns & -> & Hns); [|constructor]. apply IH in Hc as [Hp' Hf]; [|done].
  split; [by etransitivity|]. constructor.
  - exists ns. split_and!; [cbn [app]; by rewrite zlen_map|done|]. intros n Hn. destruct (Hns n Hn) as [? Hd]. split; [done|]. refine (during_wider _ _ _ _ _ _ _ Hd); [done|exact Hp'].
  - eapply Forall2_impl; [exact Hf|]. intros p c. by apply counted_wider.
Qed.

Lemma readParts_length index values profile replicas hash size required copies assigned r :
  readParts index values profile replicas hash size required copies assigned = Ok r → length r = length values.
Proof.
  revert index assigned r. induction values as [|v values IH]; intros index assigned r Hr; cbn [readParts] in Hr; inv_ok; [done|].
  destruct (get_member (lit "sha256") _) as [[]|]; try discriminate Hr. destruct (get_member (lit "targets") _) as [[]|]; try discriminate Hr.
  inv_ok. cbn. f_equal. by eapply IH.
Qed.

Lemma validated_length v profile m : validateManifest v profile = Ok m → zlen (m_parts m) = total m.
Proof.
  unfold validateManifest. intros Hr. inv_ok.
  destruct (get_member (lit "sha256") _) as [[]|]; try discriminate Hr. destruct (get_member (lit "size") _) as [[]|]; try discriminate Hr.
  inv_ok. destruct (safe_integer _); [|discriminate Hr]. inv_ok. destruct (int_within _ _ _); [|discriminate Hr].
  destruct (get_member (lit "required") _) as [[]|]; try discriminate Hr. destruct (get_member (lit "total") _) as [[]|]; try discriminate Hr.
  inv_ok. match goal with Hc : (let '(_, _) := ?p in _) = Ok _ |- _ => destruct p as [req tot] end.
  destruct (get_member (lit "parts") _) as [[]|]; try discriminate Hr. inv_ok. cbn.
  match goal with Hp : readParts _ _ _ _ _ _ _ _ _ = Ok _ |- _ => apply readParts_length in Hp end.
  match goal with Hz : (zlen _ =? _) = true |- _ => apply Z.eqb_eq in Hz end. unfold zlen in *. lia.
Qed.

Lemma resolved_length text profile expected receipt : resolvePoolReceipt text profile expected = Ok receipt →
  zlen (m_parts (r_manifest receipt)) = total (r_manifest receipt).
Proof.
  unfold resolvePoolReceipt. intros Hr. inv_ok.
  match goal with Hv : validateManifest _ _ = Ok _ |- _ => apply validated_length in Hv end.
  destruct expected as [e|]; [destruct (non_empty e)|]; inv_ok; done.
Qed.

Lemma mapM_length {A B} (f : A → M B) l s s' bs : mapM_ f l s = (s', inr bs) → length bs = length l.
Proof. intros Hr. symmetry. eapply Forall2_length, (mapM_inr f (λ _ _, True)); [done|exact Hr]. Qed.

Lemma only_inspect P file source : only P (inspectFile file source).
Proof. unfold inspectFile. only_steps. Qed.

Lemma only_mapM {A B} P (f : A → M B) l : (∀ a, only P (f a)) → only P (mapM_ f l).
Proof. intros Hf. induction l as [|a l IH]; cbn [mapM_]; only_steps. Qed.

(** An upload's report is what was seen. Each part's count is the number of
    distinct failure groups in which a target of that part was fetched from,
    during this upload, and gave bytes of the part's size and hash; "protected"
    is said only when every part was so seen in as many groups as there are to be
    copies, and "recoverable" only when at least the required number of parts was
    seen at all. *)
Theorem report_is_true text profile expected receipt prepared owner options s s' rep :
  resolvePoolReceipt text profile expected = Ok receipt →
  uploadPool prepared receipt owner options s = (s', inr rep) →
  ∃ request, Forall2 (counted s s' request) (m_parts (r_manifest receipt)) (rep_verified rep) ∧
    (rep_protected rep = true → Forall (λ count, copies (r_manifest receipt) <= count) (rep_verified rep)) ∧
    (rep_recoverable rep = true → required (r_manifest receipt) <= zlen (List.filter (λ count, 0 <? count) (rep_verified rep))).
Proof.
  intros Hreceipt Hr. pose proof (resolved_length _ _ _ _ Hreceipt) as Hlen. unfold uploadPool in Hr. cbv zeta in Hr.
  apply bind_inr in Hr as (s1 & request & Ho & Hr). apply lift_inr in Ho as [Ho ->].
  destruct (_ && _ && _) eqn:Ec; [|by run_inr]. apply bind_inr in Hr as (s2 & inspected & Hi & Hr).
  destruct (forallb _ _); [|by run_inr]. apply bind_inr in Hr as (s3 & counts & Hc & Hr). run_inr.
  exists request. cbn [rep_verified report rep_protected rep_recoverable].
  apply andb_true_iff in Ec as [_ Htot%Z.eqb_eq]. pose proof (mapM_length _ _ _ _ _ Hi) as Hli.
  apply (only_prefix anything) in Hi; [|apply only_mapM; intros; apply only_inspect].
  apply upload_parts_inr in Hc as [_ Hf]; [|unfold zlen in *; lia]. split_and!.
  - eapply Forall2_impl; [exact Hf|]. intros part count. by apply counted_wider.
  - intros Hp. eapply Forall_forallb; [|exact Hp]. intros c Hq. by apply Z.leb_le.
  - intros Hq. by apply Z.leb_le.
Qed.

(** ** Recovery *)

Lemma decode_stripes_ext fuel signal signal' k m parts size offset outputs : (∀ n, signal n = signal' n) →
  Erasure.decode_stripes fuel signal k m parts size offset outputs = Erasure.decode_stripes fuel signal' k m parts size offset outputs.
Proof.
  intros Hs. revert k offset outputs. induction fuel as [|fuel IH]; intros k offset outputs; cbn [Erasure.decode_stripes]; [by rewrite Hs|].
  unfold Erasure.checkpoint. rewrite !Hs. destruct (offset <? size); [|done]. by destruct (signal' k), (signal' (S k)); cbn.
Qed.

Lemma decodeParts_ext signal signal' parts required total len : (∀ n, signal n = signal' n) →
  Erasure.decodeParts signal parts required total len = Erasure.decodeParts signal' parts required total len.
Proof.
  intros Hs. unfold Erasure.decodeParts. destruct (Erasure.generator required total) as [g|]; [|done]. cbn [rbind].
  destruct (Erasure.parts_fit _ _ _ _); [|done]. cbn [guard rbind]. destruct (Matrix.invert _) as [d|]; [|done]. cbn [rbind].
  by rewrite (decode_stripes_ext _ signal signal').
Qed.

(** No two files of this size have one hash: what is assumed of SHA-256, for
    the files of the layout alone. *)
Definition no_collision (files : list bytes) : Prop :=
  ∀ file blob, file ∈ files → zlen blob = zlen file → toHex (sha256 blob) = toHex (sha256 file) → blob = file.

Lemma layout_index m files encrypted part : layout m files encrypted → part ∈ m_parts m →
  ∃ i file, m_parts m !! i = Some part ∧ files !! i = Some file ∧ p_index part = Z.of_nat i ∧
    p_sha256 part = toHex (sha256 file) ∧ p_size part = zlen file.
Proof.
  intros [Hp _ _ _] Hin. apply list_elem_of_lookup in Hin as [i Hi]. destruct (Hp i part Hi) as (file & ? & ? & ? & ?). by exists i, file.
Qed.

Lemma layout_indices m files encrypted : layout m files encrypted → map p_index (m_parts m) = map Z.of_nat (seq 0 (length files)).
Proof.
  intros [Hp _ [Hl _] _]. apply list_eq. intros i. rewrite !list_lookup_fmap. destruct (m_parts m !! i) as [part|] eqn:E.
  - destruct (Hp i part E) as (file & Hf & Hi & _). apply lookup_lt_Some in E. rewrite lookup_seq_lt by lia. cbn. by rewrite Hi.
  - apply lookup_ge_None in E. by rewrite lookup_seq_ge by lia.
Qed.

(** Verified parts are the files' own. *)
Lemma found_picked m files encrypted got : layout m files encrypted → no_collision files → found (m_parts m) got →
  got = Erasure.picked files (map (λ q, Z.to_nat (Erasure.part_index q)) got) ∧
  NoDup (map (λ q, Z.to_nat (Erasure.part_index q)) got) ∧
  Forall (λ i, Z.of_nat i < total m) (map (λ q, Z.to_nat (Erasure.part_index q)) got).
Proof.
  intros Hl Hc [Ho He]. split_and!.
  - unfold Erasure.picked. rewrite map_map. rewrite <- (map_id got) at 1. apply map_ext_in. intros q Hq%list_elem_of_In.
    destruct (He q Hq) as (part & Hp & Hi & Hz & Hh). destruct (layout_index _ _ _ _ Hl Hp) as (i & file & _ & Hf & Hpi & Hps & Hpz).
    destruct q as [idx blob]. cbn in *. rewrite Hi, Hpi, Nat2Z.id. f_equal.
    rewrite nth_lookup, Hf. cbn. apply Hc; [by eapply list_elem_of_lookup_2|congruence|congruence].
  - assert (NoDup (map Erasure.part_index got)) as Hnd.
    { eapply sublist_NoDup; [|exact Ho]. rewrite (layout_indices _ _ _ Hl). apply NoDup_fmap_2; [|apply NoDup_seq]. intros a b. lia. }
    rewrite <- (map_map Erasure.part_index Z.to_nat). apply NoDup_fmap_2_strong; [|done].
    intros x y Hx Hy E. apply list_elem_of_fmap in Hx as (q & -> & Hq). apply list_elem_of_fmap in Hy as (q' & -> & Hq').
    destruct (He _ Hq) as (p1 & Hp1 & I1 & _). destruct (He _ Hq') as (p2 & Hp2 & I2 & _).
    destruct (layout_index _ _ _ _ Hl Hp1) as (i1 & ? & _ & _ & E1 & _). destruct (layout_index _ _ _ _ Hl Hp2) as (i2 & ? & _ & _ & E2 & _). lia.
  - apply Forall_fmap, Forall_forall. intros q Hq. cbn. destruct (He q Hq) as (part & Hp & Hi & _).
    destruct (layout_index _ _ _ _ Hl Hp) as (i & file & _ & Hf & Hpi & _). apply lookup_lt_Some in Hf.
    destruct (ly_total _ _ _ Hl) as [Hle Ht]. rewrite Hi, Hpi, Nat2Z.id. unfold zlen in Ht. lia.
Qed.

(** Parts enough are held by servers that serve them. *)
Definition enough (Calm : World → Prop) (request : BlossomRequestOptions) (m : PoolManifest) (files : list bytes) : Prop :=
  ∃ indices : list nat, NoDup indices ∧ zlen indices = required m ∧
    ∀ i, i ∈ indices → ∃ part file, m_parts m !! i = Some part ∧ files !! i = Some file ∧ held Calm request part file.

Lemma enough_found Calm request m files encrypted got : layout m files encrypted → enough Calm request m files →
  (∀ part file, part ∈ m_parts m → held Calm request part file → p_index part ∈ map Erasure.part_index got) →
  required m <= zlen got.
Proof.
  intros Hl (indices & Hnd & Hn & Hi) Hg. rewrite <- Hn.
  assert (map Z.of_nat indices ⊆ map Erasure.part_index got) as Hsub.
  { intros z Hz. apply list_elem_of_fmap in Hz as (i & -> & Hin). destruct (Hi i Hin) as (part & file & Hp & Hf & Hh).
    destruct (ly_parts _ _ _ Hl i part Hp) as (? & _ & <- & _). eapply Hg; [by eapply list_elem_of_lookup_2|exact Hh]. }
  assert (NoDup (map Z.of_nat indices)) as Hnd' by (apply NoDup_fmap_2; [intros a b; lia|done]).
  pose proof (@NoDup_incl_length _ _ (map Erasure.part_index got) (proj1 (NoDup_ListNoDup _) Hnd')) as Hle.
  rewrite !length_map in Hle. unfold zlen. apply inj_le, Hle. intros z Hz%list_elem_of_In. by apply list_elem_of_In, Hsub.
Qed.

Lemma pool_timeout_ok m : Forall (λ p, 0 <= p_size p) (m_parts m) → 0 < pool_timeout m <= max_safe_integer.
Proof.
  intros Hp. unfold pool_timeout. set (size := match m_parts m with p :: _ => p_size p | [] => 0 end).
  assert (0 <= size) as Hs by (unfold size; destruct Hp; [lia|done]).
  assert (∀ d, 0 < d → 0 <= ceil_div size d) as Hc by (intros d Hd; by apply ceil_div_nonneg).
  unfold max_safe_integer. destruct (bool_decide (m_profile m = tor)).
  - specialize (Hc (128 * 1024) ltac:(lia)). lia.
  - specialize (Hc (256 * 1024) ltac:(lia)). lia.
Qed.

Lemma request_deadline receipt options request encrypted files : layout (r_manifest receipt) files encrypted →
  optionsFor receipt options = Ok request → (∀ ms, o_timeoutMs options = Some ms → 0 < ms <= max_safe_integer) → deadline_ok request.
Proof.
  intros Hl Ho Ht. unfold optionsFor in Ho. inv_ok. unfold deadline_ok. cbn. destruct (o_timeoutMs options) as [ms|]; cbn; [by apply Ht|].
  apply pool_timeout_ok, Forall_forall. intros p Hp. destruct (layout_index _ _ _ _ Hl Hp) as (? & file & _ & _ & _ & _ & ->). apply zlen_nonneg.
Qed.

(** C5: a file that was put in a pool comes back. For a layout of replicas or of an
    erasure code ([mode] is not [NoMode]) that was prepared from an encrypted file,
    with a receipt of its manifest that the client accepts, and a timeout, where
    one is given, that is a positive safe integer: in a world where nothing is
    aborted and no deadline passes ([steady]), if as many different parts as are
    required are each served by one of their targets whenever it is asked
    ([enough]), [fetchPool] returns exactly the encrypted file, whatever all other
    servers answer - provided that no blob of the size of a part shares that part's
    SHA-256 without being it ([no_collision]). *)
Theorem pool_recovers encrypted mode nodes req tot cps profile s0 s1 prepared receipt options request Calm s :
  mode ≠ NoMode → preparePool encrypted mode nodes req tot cps profile s0 = (s1, inr prepared) → bytes_ok encrypted →
  r_manifest receipt = pp_manifest prepared → optionsFor receipt options = Ok request →
  (∀ ms, o_timeoutMs options = Some ms → 0 < ms <= max_safe_integer) → no_collision (pp_files prepared) →
  steady Calm → Calm (world s) → enough Calm request (pp_manifest prepared) (pp_files prepared) →
  ∃ s', fetchPool receipt options s = (s', inr encrypted).
Proof.
  intros Hmode Hprep Hbytes Hm Hopt Ht Hnc Hcalm Hs He. pose proof (preparePool_layout _ _ _ _ _ _ _ _ _ _ Hmode Hprep) as Hl.
  rewrite <- Hm in *. set (m := r_manifest receipt) in *. set (files := pp_files prepared) in *.
  pose proof (request_deadline _ _ _ _ _ Hl Hopt Ht) as Hd.
  assert (0 < required m) as Hreq.
  { pose proof (ly_code _ _ _ Hl) as Hc. destruct (Pool.mode m); [destruct Hc; lia| |done]. destruct Hc as [sg Hc].
    destruct (Erasure.encodeParts_coded _ _ _ _ _ Hc Hbytes) as (g & Hg & _). pose proof (Erasure.generator_bounds _ _ _ Hg). lia. }
  destruct (fetch_parts_spec Calm Hcalm request Hd (m_parts m) (required m) [] s Hs Hreq) as (s' & got & Hf & Hc & Hfd & Hle & Hor).
  cbn [app] in *. assert (zlen got = required m) as Hn.
  { destruct Hor as [?|Hor]; [done|]. pose proof (enough_found _ _ _ _ _ _ Hl He Hor). lia. }
  destruct (found_picked _ _ _ _ Hl Hnc Hfd) as (Hpk & Hnd & Hlt). set (indices := map (λ q, Z.to_nat (Erasure.part_index q)) got) in *.
  exists s'. unfold fetchPool. cbv zeta. fold m. rewrite Hopt, (bind_lift_Ok (Ok request) request) by done.
  unfold bind at 1. rewrite Hf, Hn, Z.leb_refl. unfold bind at 1, asks at 1.
  assert (match Pool.mode m, got with
          | Replicas, p :: _ => Ok (Erasure.part_blob p)
          | _, _ => Erasure.decodeParts (hashSignal (world s')) got (required m) (total m) (payload_size m)
          end = Ok encrypted) as ->.
  { pose proof (ly_code _ _ _ Hl) as Hcode. destruct (ly_payload _ _ _ Hl) as [_ Hsz]. destruct (Pool.mode m); [| |done].
    - destruct Hcode as [Hr1 Hfs]. destruct got as [|q got]; [rewrite zlen_nil in Hn; lia|]. f_equal.
      destruct (fd_each _ _ Hfd q ltac:(left)) as (part & Hp & _ & Hz & Hh).
      destruct (layout_index _ _ _ _ Hl Hp) as (i & file & _ & Hfi & _ & Hps & Hpz).
      assert (file = encrypted) as ->. { rewrite Hfs in Hfi. destruct i; cbn in Hfi; [by injection Hfi|by destruct i]. }
      apply Hnc; [by eapply list_elem_of_lookup_2|congruence|congruence].
    - destruct Hcode as [sg Hcode]. destruct (Erasure.encodeParts_coded _ _ _ _ _ Hcode Hbytes) as (g & Hg & Hlen & Hfs).
      rewrite (decodeParts_ext _ Erasure.quiet) by (intros k; by apply (sy_hashing _ Hcalm)). rewrite Hpk, Hsz, Hfs.
      apply Erasure.decodeParts_quiet; try done. unfold indices. by rewrite zlen_map. }
  destruct (ly_payload _ _ _ Hl) as [Hph Hpz]. rewrite (bind_lift_Ok (Ok encrypted) encrypted), Hpz, Z.eqb_refl by done.
  unfold bind. rewrite blobHash_quiet by (intros k; by apply (sy_hashing _ Hcalm)). by rewrite Hph, (proj2 (eqb_eq _ _) eq_refl).
Qed.
End Facts.

(** ** An example: two of three servers *)

(** A parser of https addresses: a host, and a path after it. *)
Fixpoint cut_host (s : jstr) : jstr * jstr :=
  match s with
  | [] => ([], [])
  | c :: rest => if c =? 47 then ([], s) else let '(h, p) := cut_host rest in (c :: h, p)
  end.

Definition plain_web : Web := {|
  newURL s :=
    if startsWith s (lit "https://") then
      let '(host, path) := cut_host (drop 8 s) in
      let path := if eqb path [] then [47] else path in
      Some (mkURL (lit "https:") host [] [] path [] [] (lit "https://" ++ host) (lit "https://" ++ host ++ path) [])
    else None;
  searchParams _ := [];
  sha3_256 _ := [];
|}.

(** A hash that tells blobs of one small size apart. *)
Definition padding_cipher : Cipher := {|
  sha256 l := take 32 (l ++ replicate 32 0); hkdf _ _ _ := []; gcm_seal _ _ _ l := l; gcm_open _ _ _ l := Some l |}.

Definition in_order : Ranking := {| score _ _ := QArith_base.Qmake 0 1; localeCompare _ _ := Eq |}.

Definition pool_file : bytes := lit "FSWNENC2 sealed".

Definition served (url : jstr) (blob : bytes) : response :=
  mkResponse 200 [] url None None (Some [Chunk blob]) None.
Definition gone_response : response := mkResponse 404 (lit "Not Found") [] None None None None.

(** A world of addresses and what is there. *)
Definition shelf_net (shelf : list (jstr * bytes)) : Net := {|
  World := unit;
  cancelled _ := false;
  timedOut _ := false;
  openDeadline _ w := w;
  closeDeadline w := w;
  dateNow _ := 1700000000000;
  hashSignal _ _ := false;
  blobStream b := [b];
  signer t w := (w, Settles (Some (signed_value t example_key)));
  network rq w := (w, Settles match List.find (λ p, eqb p.1 (rq_url rq)) shelf with
                              | Some p => served (rq_url rq) p.2
                              | None => gone_response
                              end);
|}.

Lemma shelf_laws shelf : @NetLaws (shelf_net shelf).
Proof. split. intros b. cbn. by rewrite app_nil_r. Qed.

Lemma shelf_steady shelf : @steady (shelf_net shelf) (λ _, True).
Proof. by split. Qed.

#[local] Existing Instances ascii_unicode plain_web no_fractions trusting_tools padding_cipher in_order.

Definition pool_nodes : list PoolNode :=
  [mkNode (lit "node-1") (lit "https://a.example/") (lit "garage") 1; mkNode (lit "node-2") (lit "https://b.example/") (lit "office") 1;
   mkNode (lit "node-3") (lit "https://c.example/") (lit "cloud") 1].

Definition empty_net : Net := shelf_net [].

Definition outcome_of {A} (d : A) (r : @state empty_net * (thrown + A)) : A := match r with (_, inr a) => a | _ => d end.
Definition no_manifest : PoolManifest := mkManifest NoMode direct [] 0 0 0 0 [] JNull.

Definition pool_preparation : @state empty_net * (thrown + PreparedPool) :=
  preparePool (H4 := empty_net) pool_file ErasureCoded pool_nodes 2 3 1 direct (mkState (tt : @World empty_net) []).
Definition pool_prepared : PreparedPool := outcome_of (mkPrepared no_manifest []) pool_preparation.

Definition pool_event : SignedNostrEvent :=
  match poolTemplate (pp_manifest pool_prepared) 1700000000 with
  | Ok t => default example_event (event_of (signed_value t example_key))
  | Throw _ => example_event
  end.
Definition pool_receipt : PoolReceipt := mkReceipt pool_event (pp_manifest pool_prepared).
Definition pool_options : PoolOptions := mkPoolOptions None None None.
Definition pool_request : BlossomRequestOptions := mkOptions direct (Some 31000) None None.

Definition part_url (i : nat) : jstr :=
  match m_parts (pp_manifest pool_prepared) !! i with
  | Some part => match targets part with n :: _ => n_origin n ++ p_sha256 part | [] => [] end
  | None => []
  end.

(** The second server has lost its part. *)
Definition two_left : Net := shelf_net [(part_url 0, nth 0 (pp_files pool_prepared) []); (part_url 2, nth 2 (pp_files pool_prepared) [])].

#[local] Existing Instance two_left.

Lemma two_left_laws : NetLaws.
Proof. apply shelf_laws. Qed.

Lemma two_left_steady : steady (λ _, True).
Proof. apply shelf_steady. Qed.

Lemma hex_digit_inj a b : hex_digit a = hex_digit b → a = b.
Proof. unfold hex_digit. destruct (Z.ltb_spec a 10), (Z.ltb_spec b 10); lia. Qed.

Lemma toHex_inj_any l k : toHex l = toHex k → l = k.
Proof.
  revert k. induction l as [|a l IH]; intros [|b k] E; try discriminate E; [done|]. cbn in E. injection E as E1 E2 E3.
  apply hex_digit_inj in E1, E2. f_equal; [|by apply IH]. rewrite (Z.div_mod a 16), (Z.div_mod b 16) by lia. lia.
Qed.

Lemma padding_no_collision files : Forall (λ f, length f = 8%nat) files → no_collision files.
Proof.
  intros Hl file blob Hf Hz E%toHex_inj_any. rewrite Forall_forall in Hl. specialize (Hl file Hf).
  assert (length blob = 8%nat) as Hb by (unfold zlen in Hz; lia). cbn [sha256 padding_cipher] in E.
  rewrite !take_app in E. rewrite Hl, Hb, (take_ge blob), (take_ge file) in E by lia. by apply app_inv_tail in E.
Qed.

Definition pool_part (i : nat) : PoolPart := nth i (m_parts (pp_manifest pool_prepared)) (mkPart 0 [] 0 []).
Definition pool_part_file (i : nat) : bytes := nth i (pp_files pool_prepared) [].
Definition pool_node (i : nat) : PoolNode := nth i pool_nodes (mkNode [] [] [] 1).

Lemma part_held i : i = 0%nat ∨ i = 2%nat → held (λ _, True) pool_request (pool_part i) (pool_part_file i).
Proof.
  intros Hi. split.
  - split; destruct Hi as [-> | ->]; vm_compute; reflexivity.
  - exists (pool_node i), (part_url i). split_and!.
    + assert (targets (pool_part i) = [pool_node i]) as -> by (destruct Hi as [-> | ->]; vm_compute; reflexivity). left.
    + destruct Hi as [-> | ->]; vm_compute; reflexivity.
    + intros w _. exists tt, (served (part_url i) (pool_part_file i)). split; [destruct w, Hi as [-> | ->]; vm_compute; reflexivity|].
      split; [reflexivity|by right|exact I|exists [pool_part_file i]; split; [reflexivity|apply app_nil_r]].
Qed.

Lemma two_enough : enough (λ _, True) pool_request (pp_manifest pool_prepared) (pp_files pool_prepared).
Proof.
  exists [0%nat; 2%nat]. split_and!; [apply (bool_decide_eq_true_1 (NoDup _)); reflexivity|vm_compute; reflexivity|].
  assert (∀ i, i = 0%nat ∨ i = 2%nat → ∃ part file, m_parts (pp_manifest pool_prepared) !! i = Some part ∧ pp_files pool_prepared !! i = Some file ∧ held (λ _, True) pool_request part file) as Hi.
  { intros i Hi. exists (pool_part i), (pool_part_file i). split_and!; [destruct Hi as [-> | ->]; vm_compute; reflexivity..|by apply part_held]. }
  intros i Hin. apply Hi. apply elem_of_cons in Hin as [->|Hin]; [by left|]. apply list_elem_of_singleton in Hin as ->. by right.
Qed.

Definition two_start : state := mkState (tt : @World two_left) [].

Lemma pool_recovers_witness : ∃ s', fetchPool pool_receipt pool_options two_start = (s', inr pool_file).
Proof.
  assert (preparePool pool_file ErasureCoded pool_nodes 2 3 1 direct two_start = (two_start, inr pool_prepared)) as Hp by (vm_compute; reflexivity).
  assert (optionsFor pool_receipt pool_options = Ok pool_request) as Ho by (vm_compute; reflexivity).
  assert (bytes_ok pool_file) as Hb by (refine (Forall_forallb (in_range 0 255) byte_ok pool_file _ eq_refl); intros x Hx; apply in_range_spec in Hx; unfold byte_ok; lia).
  assert (no_collision (pp_files pool_prepared)) as Hc by (apply padding_no_collision; vm_compute; repeat constructor).
  assert (∀ ms, o_timeoutMs pool_options = Some ms → 0 < ms <= max_safe_integer) as Ht by (intros ms Hms; unfold pool_options in Hms; cbn in Hms; discriminate Hms).
  assert (r_manifest pool_receipt = pp_manifest pool_prepared) as Hm by (unfold pool_receipt; cbn [r_manifest]; reflexivity).
  assert (ErasureCoded ≠ NoMode) as Hn by discriminate.
  exact (@pool_recovers _ _ _ _ _ _ two_left_laws _ pool_file ErasureCoded pool_nodes 2 3 1 direct two_start two_start pool_prepared pool_receipt pool_options
    pool_request (λ _, True) two_start Hn Hp Hb Hm Ho Ht Hc two_left_steady I two_enough).
Defined.

Definition two_report : PoolReport := mkReport [1; 0; 1] false true 1700000000000.

Lemma report_is_true_witness : ∃ s' request, uploadPool pool_prepared pool_receipt example_key pool_options two_start = (s', inr two_report) ∧
  Forall2 (counted two_start s' request) (m_parts (pp_manifest pool_prepared)) [1; 0; 1].
Proof.
  assert (resolvePoolReceipt (stringify (raw pool_event)) direct None = Ok pool_receipt) as Hq by (vm_compute; reflexivity).
  destruct (uploadPool pool_prepared pool_receipt example_key pool_options two_start) as [s' r] eqn:Hr.
  assert (r = inr two_report) as Hd by (apply (f_equal snd) in Hr; vm_compute in Hr; by rewrite <- Hr).
  rewrite Hd in Hr. destruct (@report_is_true _ _ _ _ _ _ two_left_laws _ _ _ _ _ _ _ _ _ _ Hq Hr) as (request & Hf & _).
  exists s', request. split; [by rewrite Hd|exact Hf].
Defined.
