(* ===== verification/ServicesHttp.v ===== *)
(** * Requests to a storage service ([core/services-http.ts])

    The readers of service values and the one way a service is asked: a bounded
    request, signed for exactly its address and body when a buyer is given. *)

From S2P Require Import Prelude JsString Utf8 Bytes Json JsValue Security Envelope Nostr Net Blossom.

Local Open Scope effect_scope.

(** The options; the fetch port, the caller's signal and its [onPhase] are the
    world's and the log's. *)
Record ServiceOptions := mkServiceOptions { so_profile : NetworkProfile; so_timeoutMs : option Z }.

(** ** Readers of values; a missing member is [None] *)

Definition record (value : option json) : res (list (jstr * json)) :=
  match value with Some (JObj ms) => Ok ms | _ => Throw "Invalid service response." end.

Definition is_unprintable (c : Z) : bool := in_range 0 8 c || in_range 11 31 c || (c =? 127).

Definition text (value : option json) (max : Z) : res jstr :=
  match value with
  | Some (JStr s) =>
      check non_empty s && (zlen s <=? max) && negb (existsb is_unprintable s) else "Invalid service text.";
      Ok s
  | _ => Throw "Invalid service text."
  end.

Definition integer (value : option json) (minimum : Z) : res Z :=
  match value with
  | Some (JNum n) =>
      match safe_integer (Some n) with
      | Some z => check minimum <=? z else "Invalid service amount or time."; Ok z
      | None => Throw "Invalid service amount or time."
      end
  | _ => Throw "Invalid service amount or time."
  end.

Definition is_id_char (c : Z) : bool := is_alnum c || (c =? 95) || (c =? 45).
(** [[a-zA-Z0-9_-]{1,128}]. *)
Definition ID (s : jstr) : bool := in_range 1 128 (zlen s) && forallb is_id_char s.

(** The paths that may be asked. *)
Definition ORDERS : jstr := lit "/checkout/v1/orders".
Definition service_path (path : jstr) : bool :=
  eqb path (lit "/services/v1") || eqb path (lit "/checkout/v1/offers") || eqb path (lit "/storage/v1/proof")
  || eqb path ORDERS
  || (startsWith path (ORDERS ++ [47])
      && match split (Z.eqb 47) (drop (length (ORDERS ++ [47])) path) with
         | [i] => ID i
         | [i; action] => ID i && (eqb action (lit "lightning") || eqb action (lit "lnurlcash") || eqb action (lit "check"))
         | _ => false
         end).

Section Services.
Context `{Unicode} `{Web} `{Numbers} `{NostrTools} `{Cipher} `{Net}.

(** The buyer's signer, asked without racing a signal. *)
Class BuyerSigner := { signEvent : EventTemplate → World → World * (thrown + option json) }.
Context `{BuyerSigner}.

(** ** Signing a request *)

Definition method_text (m : method) : jstr := lit (match m with GET => "GET" | PUT => "PUT" | POST => "POST" end).

Definition payload_tag (m : method) (body : jstr) : res (list (list jstr)) :=
  match m with
  | POST => let! digest := sha256Hex (λ _, false) (blobStream (utf8_encode body)) in Ok [[lit "payload"; digest]]
  | _ => Ok []
  end.

Definition httpTemplate (url : jstr) (m : method) (body : jstr) : M EventTemplate :=
  do payload <- lift (payload_tag m body);
  do now <- asks clock;
  ret (mkTemplate 27235 now ([[lit "u"; url]; [lit "method"; method_text m]] ++ payload) []).

(** [signEventExactly(template, buyer.signer, assertHex64(buyer.pubkey))]. *)
Definition buyer_signs (template : EventTemplate) (buyer : jstr) : M SignedNostrEvent :=
  do key <- lift (assertHex64 buyer "Buyer public key");
  do signed <- abortable (AskedToSign template) (λ w,
    let '(w, r) := signEvent template w in (w, match r with inl e => Rejects e | inr v => Settles v end));
  lift (assertSignedEventExactly template signed (Some key)).

Definition authorise (url : jstr) (m : method) (encoded buyer : jstr) : M jstr :=
  do _ <- logs (Phase Signing);
  do template <- httpTemplate url m encoded;
  do event <- buyer_signs template buyer;
  do _ <- throwIfAborted;
  do now <- asks clock;
  require negb (t_created_at template + 55 <? now)
    else ServiceRequestError FExpired (lit "Signature expired; repeat this action and approve promptly.") None;
  ret (lit "Nostr " ++ btoa (utf8_encode (stringify (raw event)))).

(** ** Failures *)

(** Which request this is, for what is said of its failure. *)
Definition is_audit (path : jstr) : bool := eqb path (lit "/storage/v1/proof").
Definition is_discovery (path : jstr) : bool := eqb path (lit "/services/v1").
Definition by_path (path : jstr) (audit discovery other : jstr) : jstr :=
  if is_audit path then audit else if is_discovery path then discovery else other.

(** The [catch] of [requestJson]. *)
Definition service_failure {A} (path : jstr) (phase : ServicePhase) (e : thrown) : M A :=
  do stopped <- asks aborted;
  if stopped then throw (ServiceRequestError FCancelled (by_path path
    (lit "Storage audit cancelled or timed out; retry when the signer and node are ready.")
    (lit "Service description inspection cancelled or timed out.")
    (lit "Service action cancelled or timed out. A pending payment may still need reconciliation.")) None)
  else match e with
  | ServiceRequestError _ _ _ => throw e
  | _ => throw (match phase with
      | Signing => ServiceRequestError FSigner
          (lit "Signer approval failed or the returned signature was invalid. Check your signer and retry.") None
      | Requesting => ServiceRequestError FNetwork (by_path path
          (lit "Storage audit request failed; check node connectivity and browser access.")
          (lit "Service description request failed; check node connectivity and browser access.")
          (lit "Service action failed; check the same order before attempting another payment.")) None
      end)
  end.

(** ** The request *)

Definition service_request (url : jstr) (m : method) (encoded authorisation : option jstr) : request :=
  mkRequest m url
    ([("Accept", lit "application/json")]
     ++ (match encoded with Some _ => [("Content-Type", lit "application/json")] | None => [] end)
     ++ (match authorisation with Some h => [("Authorization", h)] | None => [] end))
    (utf8_encode <$> encoded) policy.

Definition json_response (r : response) : bool :=
  match rs_contentType r with Some t => startsWith (toLowerCase t) (lit "application/json") | None => false end.

Definition http_failure (path : jstr) (r : response) : thrown :=
  let status := int_text (rs_status r) in
  ServiceRequestError FHttp (by_path path
    (lit "Service request failed (HTTP " ++ status ++ lit "); the storage audit was not verified.")
    (lit "Service description request failed (HTTP " ++ status ++ lit ").")
    (lit "Service request failed (" ++ status ++ lit "); no payment outcome can be inferred.")) (Some (rs_status r)).

(** A read that gives no value has no length. *)
Fixpoint read_capped (reads : list chunk_read) (length : Z) (chunks : list bytes) : M (list bytes) :=
  do _ <- throwIfAborted;
  match reads with
  | [] => ret chunks
  | Chunk value :: reads =>
      require negb (65536 <? length + zlen value) else ServiceRequestError FResponse (lit "Service response is too large.") None;
      read_capped reads (length + zlen value) (chunks ++ [value])
  | NoValue :: _ => throw (ATypeError [])
  | ReadRejects e :: _ => throw e
  | ReadAborts :: _ => throw AnAbort
  end.

Definition read_json (path : jstr) (r : response) : M json :=
  match rs_body r with
  | Some reads =>
      require response_ok r && json_response r else http_failure path r;
      do chunks <- read_capped reads 0 [];
      do _ <- throwIfAborted;
      match utf8_decode false (concat chunks) ≫= parse with
      | Some v => ret v
      | None => throw (ServiceRequestError FResponse (lit "Invalid service JSON response.") None)
      end
  | None => throw (http_failure path r)
  end.

Definition MAX_SERVICE_REQUEST_BYTES : Z := 16384.

(** The request once its deadline runs. *)
Definition ask (url path : jstr) (body : option jstr) (buyer : option jstr) : M json :=
  let method := match body with Some _ => POST | None => GET end in
  do _ <- catch throwIfAborted (service_failure path Requesting);
  do authorisation <- catch (match buyer with
    | Some buyer => do header <- authorise url method (default [] body) buyer; ret (Some header)
    | None => ret None
    end) (service_failure path Signing);
  catch (
    do _ <- throwIfAborted;
    do _ <- logs (Phase Requesting);
    let rq := service_request url method body authorisation in
    do r <- abortable (Sent rq) (network rq);
    read_json path r) (service_failure path Requesting).

Definition requestJson (origin path : jstr) (body : option json) (buyer : option jstr) (options : ServiceOptions) : M json :=
  do base <- lift (normaliseBlossomServer origin (so_profile options));
  require service_path path else AnError (lit "Unsupported service path.");
  let encoded := stringify <$> body in
  require negb (MAX_SERVICE_REQUEST_BYTES <? zlen (utf8_encode (default [] encoded))) else AnError (lit "Service request is too large.");
  let timeout := default 45000 (so_timeoutMs options) in
  require is_safe_integer timeout && in_range 1 300000 timeout else AnError (lit "Invalid service timeout.");
  do _ <- changes (openDeadline timeout);
  do v <- catch (
    require negb (is_discovery path && (bool_decide (is_Some body) || bool_decide (is_Some buyer)))
      else AnError (lit "Public service inspection must be an unsigned GET.");
    ask (base ++ path) path encoded buyer) (λ e, do _ <- changes closeDeadline; throw e);
  do _ <- changes closeDeadline;
  ret v.
End Services.
