(* ===== verification/ServicesFacts.v ===== *)
(** * What a service request promises

    One request at most, signed for exactly what it sends, and failures that say
    nothing of the signer's or the server's own errors. *)

From S2P Require Import Prelude JsString Utf8 Bytes Json JsValue Security Envelope Nostr NostrFacts Net Blossom BlossomFacts ServicesHttp.

Local Open Scope effect_scope.

Section Facts.
Context `{Unicode} `{Web} `{Numbers} `{NostrTools} `{Cipher} `{Net} `{!BuyerSigner}.

(** The event a buyer is asked to sign for a request. *)
Definition request_template (url : jstr) (m : method) (body : option jstr) (t : EventTemplate) : Prop :=
  ∃ now payload, payload_tag m (default [] body) = Ok payload ∧
    t = mkTemplate 27235 now ([[lit "u"; url]; [lit "method"; method_text m]] ++ payload) [].

(** The header carries that event, signed by the buyer. *)
Definition signed_by_buyer (t : EventTemplate) (buyer header : jstr) : Prop :=
  ∃ key v event, assertHex64 buyer "Buyer public key" = Ok key ∧ assertSignedEventExactly t v (Some key) = Ok event ∧
    header = lit "Nostr " ++ btoa (utf8_encode (stringify (raw event))).

Inductive authorised (url : jstr) (m : method) (body : option jstr) : option jstr → option jstr → list act → Prop :=
  | authorised_none : authorised url m body None None []
  | authorised_buyer buyer t header : request_template url m body t → signed_by_buyer t buyer header →
      authorised url m body (Some buyer) (Some header) [Phase Signing; AskedToSign t].

(** Everything a request may do, up to where it stopped. *)
Inductive request_log (url : jstr) (m : method) (body buyer : option jstr) : list act → Prop :=
  | log_nothing : request_log url m body buyer []
  | log_signing b : buyer = Some b → request_log url m body buyer [Phase Signing]
  | log_asked b t : buyer = Some b → request_template url m body t → request_log url m body buyer [Phase Signing; AskedToSign t]
  | log_sent authorisation l : authorised url m body buyer authorisation l →
      request_log url m body buyer (l ++ [Phase Requesting; Sent (service_request url m body authorisation)]).

Definition typed (e : thrown) : Prop := ∃ code message status, e = ServiceRequestError code message status.

(** The log, and the failure, of a part of a request. *)
Definition part_failure (Log : list act → Prop) (e : thrown) (l : list act) : Prop := Log l ∧ typed e.

Lemma does_service_failure {A} path phase e (Log : list act → Prop) (R : A → list act → Prop) l : Log l →
  does (λ e l', part_failure Log e (l ++ l')) (λ a l', R a (l ++ l')) (service_failure path phase e).
Proof.
  intros Hl. unfold service_failure. eapply (does_bind _ (λ _ l', l' = [])); [by apply does_asks|]. intros stopped l' ->.
  assert (∀ e', typed e' → does (A := A) (λ e0 l', part_failure Log e0 (l ++ [] ++ l')) (λ b l', R b (l ++ [] ++ l')) (throw e')) as Hthrow.
  { intros e' He. apply does_throw. cbn. by rewrite app_nil_r. }
  destruct stopped; [apply Hthrow; unfold typed; eauto|].
  destruct e; try (apply Hthrow; destruct phase; unfold typed; by eauto).
Qed.

(** A guarded part fails only with what a service request may say. *)
Lemma does_guarded {A} path phase (Log : list act → Prop) (R : A → list act → Prop) m :
  does (λ _, Log) R m → does (part_failure Log) R (catch m (service_failure path phase)).
Proof. intros Hm. apply (does_catch _ _ _ _ _ Hm). intros e l Hl. by apply does_service_failure. Qed.

Lemma does_throwIfAborted (Q : thrown → list act → Prop) (R : unit → list act → Prop) :
  (∀ e, Q e []) → R tt [] → does Q R throwIfAborted.
Proof.
  intros Hq Hr. apply does_only; [apply only_throwIfAborted|done|]. by intros [].
Qed.

Lemma does_authorise url m body buyer :
  does (λ _, request_log url m body (Some buyer)) (λ header l, authorised url m body (Some buyer) (Some header) l)
    (authorise url m (default [] body) buyer).
Proof.
  unfold authorise. eapply (does_bind _ (λ _ l, l = [Phase Signing])); [by apply does_logs|]. intros _ _ ->.
  assert (request_log url m body (Some buyer) [Phase Signing]) as Hsigning by by econstructor.
  eapply (does_bind _ (λ t l, l = [] ∧ request_template url m body t)).
  { unfold httpTemplate. eapply (does_bind _ (λ p l, l = [] ∧ payload_tag m (default [] body) = Ok p)); [by apply does_lift|].
    intros p _ [-> Hp]. eapply (does_bind _ (λ _ l, l = [])); [by apply does_asks|]. intros now _ ->. apply does_ret. split; [done|]. by exists now, p. }
  intros t _ [-> Ht]. assert (request_log url m body (Some buyer) [Phase Signing; AskedToSign t]) as Hasked by by econstructor.
  eapply (does_bind _ (λ event l, l = [AskedToSign t] ∧ ∃ key v, assertHex64 buyer "Buyer public key" = Ok key ∧ assertSignedEventExactly t v (Some key) = Ok event)).
  { unfold buyer_signs. eapply (does_bind _ (λ key l, l = [] ∧ assertHex64 buyer "Buyer public key" = Ok key)); [by apply does_lift|].
    intros key _ [-> Hk]. eapply (does_bind _ (λ _ l, l = [AskedToSign t])); [by apply does_abortable|]. intros v _ ->.
    apply does_lift; [|done]. intros event He. split; [done|]. by exists key, v. }
  intros event _ (-> & key & v & Hk & He). eapply (does_bind _ (λ _ l, l = [])); [by apply does_throwIfAborted|]. intros _ _ ->.
  eapply (does_bind _ (λ _ l, l = [])); [by apply does_asks|]. intros now _ ->.
  destruct (negb _); [|by apply does_throw]. apply does_ret. cbn. eapply authorised_buyer; [done|]. by exists key, v, event.
Qed.

Lemma only_read_json path r : only (λ _, False) (read_json path r).
Proof.
  unfold read_json. destruct (rs_body r) as [reads|]; [|apply only_throw]. only_steps.
  - generalize (@nil bytes). generalize 0. induction reads as [|[value| |e|] reads IH]; intros n cs; cbn [read_capped]; only_steps; auto using only_throwIfAborted.
  - by destruct (_ ≫= _); [apply only_ret|apply only_throw].
Qed.

Lemma does_ask url path body buyer (m := match body with Some _ => POST | None => GET end) :
  does (part_failure (request_log url m body buyer)) (λ _, request_log url m body buyer) (ask url path body buyer).
Proof.
  unfold ask. fold m.
  eapply (does_bind _ (λ _ l, l = [])).
  { apply does_guarded. apply does_throwIfAborted; [intros _; constructor|done]. }
  intros _ _ ->. eapply (does_bind _ (λ a l, authorised url m body buyer a l)).
  { apply does_guarded. destruct buyer as [b|].
    - eapply does_bind; [apply does_authorise|]. intros header l Hl. apply does_ret. by rewrite app_nil_r.
    - apply does_ret. constructor. }
  intros authorisation l Hl. cbn [app].
  assert (request_log url m body buyer l) as Hlog by (destruct Hl; by econstructor).
  assert (request_log url m body buyer (l ++ [Phase Requesting; Sent (service_request url m body authorisation)])) as Hsent by by econstructor.
  apply (does_impl (part_failure (λ l', request_log url m body buyer (l ++ l'))) _ (λ _ l', request_log url m body buyer (l ++ l')) _); [done..|].
  apply does_guarded. eapply (does_bind _ (λ _ l', l' = [])); [apply does_throwIfAborted; [intros _; by rewrite app_nil_r|done]|].
  intros _ _ ->. eapply (does_bind _ (λ _ l', l' = [Phase Requesting])); [by apply does_logs|]. intros _ _ ->.
  eapply (does_bind _ (λ _ l', l' = [Sent (service_request url m body authorisation)])); [by apply does_abortable|].
  intros r _ ->. apply does_only; [apply only_read_json|done|done].
Qed.

(** A call that is refused before anything is signed or sent. *)
Definition malformed_call (origin path : jstr) (body : option json) (buyer : option jstr) (options : ServiceOptions) : Prop :=
  (∃ e, normaliseBlossomServer origin (so_profile options) = Throw e) ∨ service_path path = false ∨
  MAX_SERVICE_REQUEST_BYTES < zlen (utf8_encode (default [] (stringify <$> body))) ∨
  is_safe_integer (default 45000 (so_timeoutMs options)) && in_range 1 300000 (default 45000 (so_timeoutMs options)) = false ∨
  is_discovery path = true ∧ (is_Some body ∨ is_Some buyer).

(** C25: whatever the signer and the server do, a service request asks for one
    signature at most, of an event for exactly the address, method and body it
    then sends, and sends one request at most, to an allowed path of the given
    origin, within the size limit, without cookies, referrer, cache or
    redirects. It fails only with a [ServiceRequestError], but for a call that is
    itself malformed (its server address, path, size or timeout, or a body or buyer
    for a public description), which is refused with a plain error before anything
    is signed or sent. *)
Theorem service_request_scope origin path body buyer options s s' r :
  requestJson origin path body buyer options s = (s', r) →
  ∃ l, log s' = log s ++ l ∧
    (l = [] ∨ ∃ base (m := match body with Some _ => POST | None => GET end),
       normaliseBlossomServer origin (so_profile options) = Ok base ∧ service_path path = true ∧
       zlen (utf8_encode (default [] (stringify <$> body))) <= MAX_SERVICE_REQUEST_BYTES ∧
       (is_discovery path = true → body = None ∧ buyer = None) ∧
       request_log (base ++ path) m (stringify <$> body) buyer l) ∧
    (∀ e, r = inl e → typed e ∨ l = [] ∧ malformed_call origin path body buyer options).
Proof.
  intros Hr.
  set (Log := λ l, l = [] ∨ ∃ base (m := match body with Some _ => POST | None => GET end),
       normaliseBlossomServer origin (so_profile options) = Ok base ∧ service_path path = true ∧
       zlen (utf8_encode (default [] (stringify <$> body))) <= MAX_SERVICE_REQUEST_BYTES ∧
       (is_discovery path = true → body = None ∧ buyer = None) ∧
       request_log (base ++ path) m (stringify <$> body) buyer l).
  set (Bad := malformed_call origin path body buyer options).
  assert (does (λ e l, Log l ∧ (typed e ∨ l = [] ∧ Bad)) (λ _, Log) (requestJson origin path body buyer options)) as Hd.
  { unfold requestJson.
    eapply (does_bind _ (λ base l, l = [] ∧ normaliseBlossomServer origin (so_profile options) = Ok base)).
    { destruct (normaliseBlossomServer origin (so_profile options)) as [base|msg] eqn:E; [by apply does_lift|].
      apply does_throw. split; [by left|right]. split; [done|]. left. by exists msg. }
    intros base _ [-> Hbase]. destruct (service_path path) eqn:Hpath; [|apply does_throw; split; [by left|right; split; [done|by right; left]]].
    destruct (negb (MAX_SERVICE_REQUEST_BYTES <? _)) eqn:Hsize.
    2:{ apply does_throw. split; [by left|right]. split; [done|]. right; right; left. bool_prop. done. }
    cbv zeta. destruct (is_safe_integer _ && _) eqn:Htime; [|apply does_throw; split; [by left|right; split; [done|by right; right; right; left]]].
    eapply (does_bind _ (λ _ l, l = [])); [by apply does_changes|]. intros _ _ ->.
    eapply (does_bind _ (λ _, Log)); [|intros v l Hl; eapply (does_bind _ (λ _ l', l' = [])); [by apply does_changes|]; intros _ _ ->; apply does_ret; by rewrite app_nil_r].
    apply (does_catch _ (λ e l, Log l ∧ (typed e ∨ l = [] ∧ Bad))).
    2:{ intros e l Hl. eapply (does_bind _ (λ _ l', l' = [])); [by apply does_changes|]. intros _ _ ->. apply does_throw. cbn. by rewrite app_nil_r. }
    destruct (negb (is_discovery path && _)) eqn:Hpublic.
    2:{ apply does_throw. split; [by left|right]. split; [done|]. right; right; right; right. apply negb_false_iff, andb_true_iff in Hpublic as [Hp Hb].
        split; [exact Hp|]. by apply orb_true_iff in Hb as [Hb%bool_decide_eq_true|Hb%bool_decide_eq_true]; [left|right]. }
    assert (∀ l, request_log (base ++ path) (match body with Some _ => POST | None => GET end) (stringify <$> body) buyer l → Log l) as Hlog.
    { intros l Hl. right. exists base. split_and!; [done..| | |done].
      - apply negb_true_iff, Z.ltb_ge in Hsize. done.
      - intros Hdisc. rewrite Hdisc in Hpublic. cbn in Hpublic. apply negb_true_iff, orb_false_iff in Hpublic as [Hb Hy].
        apply bool_decide_eq_false in Hb, Hy. by split; apply eq_None_not_Some. }
    pose proof (does_ask (base ++ path) path (stringify <$> body) buyer) as Ha.
    apply (does_impl (λ e l, part_failure Log e l) _ (λ _, Log) _); [intros e l [Hl He]; by split; [|left]|done|].
    destruct body; (eapply does_impl; [| |exact Ha]); [intros e l [Hl He]; split; auto|auto|intros e l [Hl He]; split; auto|auto]. }
  destruct (Hd s) as (l & Hl & Hp). rewrite Hr in Hl, Hp. cbn in Hl, Hp. exists l. split; [done|].
  destruct r as [e|v]; [|by split].
  destruct Hp as [Hlog He]. split; [exact Hlog|]. by intros _ [= <-].
Qed.
End Facts.

(** ** An example world *)

(** A server that answers every request with one JSON value. *)
Definition answering_net (answer : request → json) : Net := {|
  World := Z;
  cancelled _ := false;
  timedOut _ := false;
  openDeadline _ w := w;
  closeDeadline w := w;
  dateNow _ := 1700000000000;
  hashSignal _ _ := false;
  blobStream b := [b];
  signer t w := (w, Settles (Some (signed_value t example_key)));
  network rq w := (w + 1, Settles (mkResponse 200 [] [] None None (Some [Chunk (stringify (H := no_fractions) (answer rq))])
                                     (Some (lit "Application/JSON; charset=utf-8"))));
|}.

Definition example_buyer : ∀ answer, @BuyerSigner (answering_net answer) := λ answer,
  @Build_BuyerSigner (answering_net answer) (λ t w, (w, inr (Some (signed_value t example_key)))).

#[local] Existing Instances ascii_unicode blob_web no_fractions trusting_tools hello_cipher.

Definition checked_order : M (H := answering_net (λ _, JObj [])) json :=
  requestJson (H4 := answering_net (λ _, JObj [])) (H5 := example_buyer _) (lit "https://example.com") (lit "/checkout/v1/orders/o1/check") (Some (JObj [(lit "quote_digest", JStr example_hash)]))
    (Some example_key) (mkServiceOptions direct None).

Lemma service_request_scope_witness :
  ∃ s' l, checked_order (mkState (H := answering_net (λ _, JObj [])) 0 []) = (s', inr (JObj [])) ∧ log s' = [] ++ l ∧ length l = 4%nat.
Proof.
  assert (snd (checked_order (mkState (H := answering_net (λ _, JObj [])) 0 [])) = inr (JObj [])) as Hv by (vm_compute; reflexivity).
  assert (length (log (fst (checked_order (mkState (H := answering_net (λ _, JObj [])) 0 [])))) = 4%nat) as Hlen by (vm_compute; reflexivity).
  destruct (checked_order (mkState (H := answering_net (λ _, JObj [])) 0 [])) as [s' r] eqn:Hr. cbn [fst snd] in *. subst r.
  unfold checked_order in Hr. destruct (service_request_scope _ _ _ _ _ _ _ _ Hr) as (l & Hl & _). exists s', l.
  split_and!; [done..|]. by rewrite Hl in Hlen.
Defined.
