(* ===== verification/Checkout.v ===== *)
(** * Paid storage ([core/checkout.ts])

    Offers, quotes, orders and receipts: everything a service says is read
    through these, and an order goes on only with the terms that were reviewed. *)

From S2P Require Import Prelude JsString Utf8 Bytes Json JsValue Security Envelope Nostr Net Blossom ServicesHttp.

Local Open Scope effect_scope.

(** ** Data *)

Inductive Network : Type := Bitcoin | Testnet | Regtest.
Inductive Rail : Type := Lightning | Lnurlcash.
#[global] Instance Network_eq_dec : EqDecision Network.
Proof. solve_decision. Defined.
#[global] Instance Rail_eq_dec : EqDecision Rail.
Proof. solve_decision. Defined.

Record Offer := mkOffer {
  of_id : jstr; of_revision : Z; of_capacity_bytes : Z; of_duration_seconds : Z; of_grace_seconds : Z; of_price_msat : Z;
  of_delivery_bytes : Z; of_delivery_policy : jstr; of_retention_policy : jstr; of_refund_policy : jstr }.

Record Issuer := mkIssuer { is_id : jstr; is_note_endpoint : jstr; is_callback : jstr; is_mint_pubkey : jstr }.

(** The only feature is [lnurlcash_refunds_v1]. *)
Inductive Feature : Type := Lnurlcash_refunds_v1.

Record Offers := mkOffers {
  os_seller_id : jstr; os_seller_name : jstr; os_node_origin : jstr; os_network : Network; os_offers : list Offer;
  os_rails : list Rail; os_issuers : list Issuer; os_features : list Feature }.

Record Quote := mkQuote {
  q_order_id : jstr; q_seller_id : jstr; q_seller_name : jstr; q_node_origin : jstr; q_signer_pubkey : jstr; q_network : Network;
  q_rail : Rail; q_issuer_id : option jstr; q_issuer : option Issuer; q_offer : Offer; q_created_at : Z; q_expires_at : Z;
  q_renews : option jstr; q_refund_to : option jstr }.

Record Receipt := mkReceipt {
  re_allowance_id : jstr; re_capacity_bytes : Z; re_starts_at : Z; re_writes_until : Z; re_retains_until : Z }.

Inductive RefundStatus : Type := Pending | Completed.
#[global] Instance RefundStatus_eq_dec : EqDecision RefundStatus.
Proof. solve_decision. Defined.

Record Refund := mkRefund { rf_status : RefundStatus; rf_amount_msat : Z; rf_payment_hash : jstr; rf_refunded_at : option Z }.

Record Order := mkOrder {
  or_quote : Quote; or_quote_digest : jstr; or_state : jstr; or_invoice : option jstr; or_receipt : option Receipt;
  or_refund : option Refund }.

Record OrderReference := mkReference { ref_origin : jstr; ref_order_id : jstr; ref_buyer : jstr; ref_quote_digest : jstr }.

(** What [farrier-kit] reads of an invoice. *)
Record Bolt11 := mkBolt11 { b_amountMsats : option Z; b_network : jstr; b_timestamp : Z; b_expirySeconds : Z }.
Class Invoices := { decodeBolt11 : jstr → res Bolt11 }.

(** ** Texts of the names *)

Definition network_text (n : Network) : jstr := lit (match n with Bitcoin => "bitcoin" | Testnet => "testnet" | Regtest => "regtest" end).
Definition rail_text (r : Rail) : jstr := lit (match r with Lightning => "lightning" | Lnurlcash => "lnurlcash" end).

(** [{ bitcoin: "bc", testnet: "tb", regtest: "bcrt" }[network]]. *)
Definition bolt11_network (n : Network) : jstr := lit (match n with Bitcoin => "bc" | Testnet => "tb" | Regtest => "bcrt" end).

(** ** Readers *)

(** The member of an object; [None] is [undefined]. *)
Definition at_ (k : string) (ms : list (jstr * json)) : option json := get_member (lit k) ms.

Definition is_null (v : option json) : bool := match v with Some JNull => true | _ => false end.

(** [v === null ? null : read(v)]. *)
Definition nullable {A} (read : option json → res A) (v : option json) : res (option A) :=
  if is_null v then Ok None else let! a := read v in Ok (Some a).

(** [v === null || v === undefined ? null : read(v)]. *)
Definition optional {A} (read : option json → res A) (v : option json) : res (option A) :=
  match v with None => Ok None | _ => nullable read v end.

Definition is_text (v : option json) (s : string) : bool := match v with Some (JStr t) => eqb t (lit s) | _ => false end.

Definition service_id (value : option json) : res jstr :=
  let! result := text value 128 in
  check ID result else "Invalid service identifier.";
  Ok result.

Definition timestamp (value : option json) : res Z :=
  let! result := integer value 0 in
  check result <=? 253402300799 else "Invalid service timestamp.";
  Ok result.

Definition refundStatus (value : option json) : res RefundStatus :=
  if is_text value "pending" then Ok Pending
  else if is_text value "completed" then Ok Completed
  else Throw "Invalid refund status.".

(** [[^\s@]{1,64}@[a-zA-Z0-9](?:[a-zA-Z0-9.-]{0,251}[a-zA-Z0-9])?]: the part
    before the sign counts characters, the rest is ASCII. *)
Definition LIGHTNING_ADDRESS (s : jstr) : bool :=
  match split (Z.eqb 64) s with
  | [user; domain] =>
      in_range 1 64 (zlen (points (λ c, c) user)) && negb (existsb is_space user)
      && in_range 1 253 (zlen domain) && forallb (λ c, is_alnum c || (c =? 46) || (c =? 45)) domain
      && is_alnum (hd 0 domain) && is_alnum (List.last domain 0)
  | _ => false
  end.

Definition refund_address (value : option json) : res jstr :=
  let! address := text value 320 in
  check LIGHTNING_ADDRESS address else "Invalid refund address.";
  Ok address.

Definition offer (value : option json) : res Offer :=
  let! v := record value in
  let! i := service_id (at_ "id" v) in
  let! revision := integer (at_ "revision" v) 1 in
  let! capacity_bytes := integer (at_ "capacity_bytes" v) 1 in
  let! duration_seconds := integer (at_ "duration_seconds" v) 1 in
  let! grace_seconds := integer (at_ "grace_seconds" v) 0 in
  let! price_msat := integer (at_ "price_msat" v) 1 in
  let! delivery_bytes := integer (at_ "delivery_bytes" v) 1 in
  let! delivery_policy := text (at_ "delivery_policy" v) 2048 in
  let! retention_policy := text (at_ "retention_policy" v) 2048 in
  let! refund_policy := text (at_ "refund_policy" v) 2048 in
  check price_msat mod 1000 =? 0 else "Invalid service price; whole sats required.";
  Ok (mkOffer i revision capacity_bytes duration_seconds grace_seconds price_msat delivery_bytes delivery_policy
        retention_policy refund_policy).

Definition service_network (value : option json) : res Network :=
  if is_text value "bitcoin" then Ok Bitcoin
  else if is_text value "testnet" then Ok Testnet
  else if is_text value "regtest" then Ok Regtest
  else Throw "Invalid service network.".

Definition rail (value : option json) : res Rail :=
  if is_text value "lightning" then Ok Lightning
  else if is_text value "lnurlcash" then Ok Lnurlcash
  else Throw "Invalid service payment method.".

Definition feature (value : option json) : res Feature :=
  if is_text value "lnurlcash_refunds_v1" then Ok Lnurlcash_refunds_v1 else Throw "Invalid service feature.".

(** [/^(02|03)[0-9a-f]{64}$/]. *)
Definition mint_key (key : jstr) : bool :=
  (startsWith key (lit "02") || startsWith key (lit "03")) && hex_string 64 (drop 2 key).

(** [Array.isArray(v) && v.length <= n], with the elements. *)
Definition bounded_list (v : option json) (minimum maximum : Z) : option (list json) :=
  match v with Some (JArr l) => if in_range minimum maximum (zlen l) then Some l else None | _ => None end.

(** What an array's elements read as. *)
Definition each {A} (read : option json → res A) (l : list json) : res (list A) := rmap (λ v, read (Some v)) l.

Section Checkout.
Context `{Unicode} `{Web} `{Numbers} `{NostrTools} `{Cipher} `{Net} `{!BuyerSigner} `{Invoices}.

Definition endpoint (origin : jstr) (options : ServiceOptions) : res jstr :=
  check negb (bool_decide (so_profile options = tor)) else "Paid checkout is unavailable in Tor-only mode; no clearnet fallback.";
  let! base := normaliseBlossomServer origin direct in
  Ok (base ++ [47]).

Definition url_of (s : jstr) : res URL := match newURL s with Some u => Ok u | None => Throw "Invalid URL" end.

Definition issuer_url (u : URL) : res unit :=
  let! _ := normaliseBlossomServer (origin u) direct in
  check negb (non_empty (username u) || non_empty (password u) || non_empty (search u) || non_empty (hash u))
    else "Invalid service issuer URL.";
  Ok tt.

Definition issuer (value : option json) : res Issuer :=
  let! v := record value in
  let! key := text (at_ "mint_pubkey" v) 66 in
  check mint_key key else "Invalid service issuer key.";
  let! note := text (at_ "note_endpoint" v) 2048 in
  let! note := url_of note in
  let! callback := text (at_ "callback" v) 2048 in
  let! callback := url_of callback in
  let! _ := issuer_url note in
  let! _ := issuer_url callback in
  check eqb (origin note) (origin callback) else "Invalid service issuer origin.";
  let! i := service_id (at_ "id" v) in
  Ok (mkIssuer i (href note) (href callback) key).

(** ** Offers *)

Definition validateOffers (value : option json) (origin : jstr) (options : ServiceOptions) : res Offers :=
  let! v := record value in
  check (match at_ "version" v with Some (JNum n) => is_number n 1 | _ => false end) else "Invalid service offers.";
  let! node_origin := endpoint origin options in
  check (match at_ "node_origin" v with Some (JStr s) => eqb s node_origin | _ => false end) else "Invalid service offers.";
  match bounded_list (at_ "offers" v) 1 32, bounded_list (at_ "rails" v) 1 2, bounded_list (at_ "issuers" v) 0 32,
        (match at_ "features" v with None => Some [] | f => bounded_list f 0 16 end) with
  | Some offers, Some rails, Some issuers, Some features =>
      let! seller_id := service_id (at_ "seller_id" v) in
      let! seller_name := text (at_ "seller_name" v) 256 in
      let! network := service_network (at_ "network" v) in
      let! offers := each offer offers in
      let! rails := each rail rails in
      let! issuers := each issuer issuers in
      let! features := each feature features in
      check bool_decide (NoDup (map of_id offers)) && bool_decide (NoDup (map is_id issuers)) && (zlen features <=? 1)
        else "Invalid service duplicate identifiers.";
      Ok (mkOffers seller_id seller_name node_origin network offers rails issuers features)
  | _, _, _, _ => Throw "Invalid service offers."
  end.

Definition fetchOffers (origin : jstr) (options : ServiceOptions) : M Offers :=
  do base <- lift (endpoint origin options);
  do value <- requestJson base (lit "/checkout/v1/offers") None None options;
  lift (validateOffers (Some value) base options).

(** ** Orders *)

Definition read_quote (q : list (jstr * json)) (node_origin buyer : jstr) : res Quote :=
  let! order_id := service_id (at_ "order_id" q) in
  let! seller_id := service_id (at_ "seller_id" q) in
  let! seller_name := text (at_ "seller_name" q) 256 in
  let! network := service_network (at_ "network" q) in
  let! rail := rail (at_ "rail" q) in
  let! issuer_id := nullable service_id (at_ "issuer_id" q) in
  let! issuer := nullable issuer (at_ "issuer" q) in
  let! offer := offer (at_ "offer" q) in
  let! created_at := timestamp (at_ "created_at" q) in
  let! expires_at := timestamp (at_ "expires_at" q) in
  let! renews := nullable service_id (at_ "renews" q) in
  let! refund_to := optional refund_address (at_ "refund_to" q) in
  Ok (mkQuote order_id seller_id seller_name node_origin buyer network rail issuer_id issuer offer created_at expires_at renews refund_to).

Definition quote_terms (quote : Quote) : bool :=
  negb ((q_expires_at quote <=? q_created_at quote) || (86400 <? q_expires_at quote - q_created_at quote)
    || match q_rail quote with
       | Lightning => bool_decide (is_Some (q_issuer quote)) || bool_decide (is_Some (q_issuer_id quote))
       | Lnurlcash =>
           match q_issuer quote with
           | None => true
           | Some issuer => negb (bool_decide (q_issuer_id quote = Some (is_id issuer))) || negb (bool_decide (q_network quote = Bitcoin))
           end
       end).

Definition ORDER_STATES : list jstr :=
  map lit ["reserving"; "quoted"; "expired"; "invoice_pending"; "awaiting_payment"; "lnurl_pending"; "settled"; "active";
           "refund_required"; "refunded"].

Definition check_invoice (quote : Quote) (invoice : jstr) : res unit :=
  let! decoded := decodeBolt11 invoice in
  guard (negb (negb (bool_decide (q_rail quote = Lightning))
    || negb (bool_decide (b_amountMsats decoded = Some (of_price_msat (q_offer quote))))
    || negb (eqb (b_network decoded) (bolt11_network (q_network quote)))
    || (b_timestamp decoded <? q_created_at quote - 30)
    || (q_expires_at quote <? b_timestamp decoded + b_expirySeconds decoded)))
    "Invalid service invoice amount, network or expiry.".

Definition read_receipt (value : option json) : res Receipt :=
  let! receipt := record value in
  let! allowance_id := service_id (at_ "allowance_id" receipt) in
  let! capacity_bytes := integer (at_ "capacity_bytes" receipt) 1 in
  let! starts_at := timestamp (at_ "starts_at" receipt) in
  let! writes_until := timestamp (at_ "writes_until" receipt) in
  let! retains_until := timestamp (at_ "retains_until" receipt) in
  Ok (mkReceipt allowance_id capacity_bytes starts_at writes_until retains_until).

Definition receipt_fits (quote : Quote) (state : jstr) (receipt : option Receipt) : bool :=
  match receipt with
  | None => negb (eqb state (lit "active"))
  | Some parsed =>
      negb (negb (re_capacity_bytes parsed =? of_capacity_bytes (q_offer quote)) || (re_writes_until parsed <=? re_starts_at parsed)
        || (re_retains_until parsed <? re_writes_until parsed))
  end.

Definition read_refund (value : option json) : res Refund :=
  let! refund := record value in
  let! status := refundStatus (at_ "status" refund) in
  let! amount_msat := integer (at_ "amount_msat" refund) 1 in
  let! hash := text (at_ "payment_hash" refund) 64 in
  let! payment_hash := assertHex64 hash "Refund payment hash" in
  let! refunded_at := nullable timestamp (at_ "refunded_at" refund) in
  Ok (mkRefund status amount_msat payment_hash refunded_at).

Definition refund_fits (quote : Quote) (state : jstr) (refund : option Refund) : bool :=
  negb ((match refund with
         | Some r =>
             negb (bool_decide (is_Some (q_refund_to quote))) || negb (rf_amount_msat r =? of_price_msat (q_offer quote))
             || (bool_decide (rf_status r = Pending) && bool_decide (is_Some (rf_refunded_at r)))
             || (bool_decide (rf_status r = Completed) && negb (bool_decide (is_Some (rf_refunded_at r))))
         | None => false
         end)
        || (eqb state (lit "refunded") && negb (bool_decide (rf_status <$> refund = Some Completed)))).

Definition validateOrder (value : option json) (origin buyer : jstr) (options : ServiceOptions) : res Order :=
  let! v := record value in
  let! q := record (at_ "quote" v) in
  check (match at_ "version" q with Some (JNum n) => is_number n 1 | _ => false end) else "Invalid service quote binding.";
  let! node_origin := endpoint origin options in
  check (match at_ "node_origin" q with Some (JStr s) => eqb s node_origin | _ => false end) else "Invalid service quote binding.";
  let! key := assertHex64 buyer "Buyer" in
  check (match at_ "signer_pubkey" q with Some (JStr s) => eqb s key | _ => false end) else "Invalid service quote binding.";
  let! quote := read_quote q node_origin buyer in
  check quote_terms quote else "Invalid service quote terms.";
  let! state := text (at_ "state" v) 32 in
  check existsb (eqb state) ORDER_STATES else "Invalid service order state.";
  let! invoice := nullable (λ i, text i 8192) (at_ "invoice" v) in
  let! _ := (match invoice with Some i => check_invoice quote i | None => Ok tt end) in
  let! receipt := nullable read_receipt (at_ "receipt" v) in
  check receipt_fits quote state receipt else "Invalid service allowance receipt.";
  let! refund := optional read_refund (at_ "refund" v) in
  check refund_fits quote state refund else "Invalid refund receipt.";
  let! digest := text (at_ "quote_digest" v) 64 in
  let! quote_digest := assertHex64 digest "Quote commitment" in
  Ok (mkOrder quote quote_digest state invoice receipt refund).

(** ** [JSON.stringify] of terms *)

Definition nat_json (n : Z) : json := JNum (Int n).
Definition text_or_null (s : option jstr) : json := match s with Some s => JStr s | None => JNull end.

Definition offer_json (o : Offer) : json := JObj
  [(lit "id", JStr (of_id o)); (lit "revision", nat_json (of_revision o)); (lit "capacity_bytes", nat_json (of_capacity_bytes o));
   (lit "duration_seconds", nat_json (of_duration_seconds o)); (lit "grace_seconds", nat_json (of_grace_seconds o));
   (lit "price_msat", nat_json (of_price_msat o)); (lit "delivery_bytes", nat_json (of_delivery_bytes o));
   (lit "delivery_policy", JStr (of_delivery_policy o)); (lit "retention_policy", JStr (of_retention_policy o));
   (lit "refund_policy", JStr (of_refund_policy o))].

Definition issuer_json (i : Issuer) : json := JObj
  [(lit "id", JStr (is_id i)); (lit "note_endpoint", JStr (is_note_endpoint i)); (lit "callback", JStr (is_callback i));
   (lit "mint_pubkey", JStr (is_mint_pubkey i))].

Definition issuer_or_null (i : option Issuer) : json := match i with Some i => issuer_json i | None => JNull end.

Definition quote_json (q : Quote) : json := JObj
  [(lit "version", nat_json 1); (lit "order_id", JStr (q_order_id q)); (lit "seller_id", JStr (q_seller_id q));
   (lit "seller_name", JStr (q_seller_name q)); (lit "node_origin", JStr (q_node_origin q));
   (lit "signer_pubkey", JStr (q_signer_pubkey q)); (lit "network", JStr (network_text (q_network q)));
   (lit "rail", JStr (rail_text (q_rail q))); (lit "issuer_id", text_or_null (q_issuer_id q));
   (lit "issuer", issuer_or_null (q_issuer q)); (lit "offer", offer_json (q_offer q)); (lit "created_at", nat_json (q_created_at q));
   (lit "expires_at", nat_json (q_expires_at q)); (lit "renews", text_or_null (q_renews q));
   (lit "refund_to", text_or_null (q_refund_to q))].

(** [JSON.stringify(a) === JSON.stringify(b)]. *)
Definition same_text (a b : json) : bool := eqb (stringify a) (stringify b).

(** ** Placing an order *)

Definition find_issuer (offers : Offers) (issuerId : option jstr) : option Issuer :=
  List.find (λ i, bool_decide (Some (is_id i) = issuerId)) (os_issuers offers).

Definition order_body (requestId offerId : jstr) (method : Rail) (issuerId renews refundTo : option jstr) : res json :=
  let! request_id := service_id (Some (JStr requestId)) in
  let! offer_id := service_id (Some (JStr offerId)) in
  let! renews := (match renews with Some r => let! r := service_id (Some (JStr r)) in Ok (Some r) | None => Ok None end) in
  Ok (JObj ([(lit "request_id", JStr request_id); (lit "offer_id", JStr offer_id); (lit "rail", JStr (rail_text method));
             (lit "issuer_id", text_or_null issuerId); (lit "renews", text_or_null renews)]
            ++ match refundTo with Some r => [(lit "refund_to", JStr r)] | None => [] end)).

(** The quote carries the terms that were chosen. *)
Definition quote_as_chosen (quote : Quote) (offers : Offers) (selected : Offer) (method : Rail)
    (issuerId renews refundTo : option jstr) (selectedIssuer : option Issuer) : bool :=
  eqb (q_seller_name quote) (os_seller_name offers)
  && same_text (issuer_or_null (q_issuer quote)) (issuer_or_null selectedIssuer)
  && eqb (q_seller_id quote) (os_seller_id offers) && bool_decide (q_network quote = os_network offers)
  && bool_decide (q_rail quote = method) && bool_decide (q_issuer_id quote = issuerId) && bool_decide (q_renews quote = renews)
  && bool_decide (q_refund_to quote = refundTo) && same_text (offer_json (q_offer quote)) (offer_json selected).

Definition createOrder (offers : Offers) (offerId : jstr) (method : Rail) (issuerId : option jstr) (buyer requestId : jstr)
    (options : ServiceOptions) (renews refundTo : option jstr) : M Order :=
  do _ <- lift (endpoint (os_node_origin offers) options);
  let issuer := find_issuer offers issuerId in
  match List.find (λ o, eqb (of_id o) offerId) (os_offers offers) with
  | None => throw (AnError (lit "Choose an offered payment method and storage plan."))
  | Some selected =>
      require bool_decide (method ∈ os_rails offers)
        && match method with Lnurlcash => bool_decide (is_Some issuer) | Lightning => negb (bool_decide (is_Some issuerId)) end
        else AnError (lit "Choose an offered payment method and storage plan.");
      require match refundTo with
              | Some address => negb (bool_decide (os_features offers = [])) && LIGHTNING_ADDRESS address
              | None => true
              end else AnError (lit "Enter a valid Lightning refund address.");
      do body <- lift (order_body requestId offerId method issuerId renews refundTo);
      do value <- requestJson (os_node_origin offers) ORDERS (Some body) (Some buyer) options;
      do order <- lift (validateOrder (Some value) (os_node_origin offers) buyer options);
      require quote_as_chosen (or_quote order) offers selected method issuerId renews refundTo
                (match method with Lnurlcash => issuer | Lightning => None end)
        else AnError (lit "Service quote changed; reload offers and review the new terms.");
      ret order
  end.

(** ** Going on with an order *)

Inductive OrderAction : Type := PayLightning | PayLnurlcash | CheckOrder.
Definition action_text (a : OrderAction) : jstr :=
  lit (match a with PayLightning => "lightning" | PayLnurlcash => "lnurlcash" | CheckOrder => "check" end).
Definition action_rail (a : OrderAction) : option Rail :=
  match a with PayLightning => Some Lightning | PayLnurlcash => Some Lnurlcash | CheckOrder => None end.

Definition orderAction (order : Order) (action : OrderAction) (buyer : jstr) (options : ServiceOptions) (note : option jstr) : M Order :=
  let quote := or_quote order in
  do _ <- lift (endpoint (q_node_origin quote) options);
  do now <- asks dateNow;
  require match action_rail action with
          | Some r => bool_decide (q_rail quote = r) && (now <? q_expires_at quote * 1000)
          | None => true
          end else AnError (lit "Quote expired or wrong payment method.");
  require match action, note with
          | PayLnurlcash, Some n => non_empty n && (zlen n <=? 12000)
          | PayLnurlcash, None => false
          | _, _ => true
          end else AnError (lit "Enter one exact-value LNURLcash note.");
  let body := JObj ([(lit "quote_digest", JStr (or_quote_digest order))]
                    ++ match action, note with PayLnurlcash, Some n => [(lit "note", JStr n)] | _, _ => [] end) in
  do order_id <- lift (service_id (Some (JStr (q_order_id quote))));
  do value <- requestJson (q_node_origin quote) (ORDERS ++ [47] ++ order_id ++ [47] ++ action_text action) (Some body) (Some buyer) options;
  do next <- lift (validateOrder (Some value) (q_node_origin quote) buyer options);
  require eqb (or_quote_digest next) (or_quote_digest order) && same_text (quote_json (or_quote next)) (quote_json quote)
    else AnError (lit "Service changed an existing quote.");
  ret next.

(** ** References and receipts *)

Definition orderReference (order : Order) : OrderReference :=
  mkReference (q_node_origin (or_quote order)) (q_order_id (or_quote order)) (q_signer_pubkey (or_quote order)) (or_quote_digest order).

Definition reference_json (r : OrderReference) : json := JObj
  [(lit "type", JStr (lit "wildbloom.order")); (lit "version", nat_json 1); (lit "origin", JStr (ref_origin r));
   (lit "order_id", JStr (ref_order_id r)); (lit "buyer", JStr (ref_buyer r)); (lit "quote_digest", JStr (ref_quote_digest r))].

Definition parseOrderReference (text_ : jstr) (options : ServiceOptions) : res OrderReference :=
  check zlen text_ <=? 4096 else "Order reference is too large.";
  match parse text_ with
  | None => Throw "Invalid private order reference."
  | Some parsed =>
      let! v := record (Some parsed) in
      check is_text (at_ "type" v) "wildbloom.order"
            && (match at_ "version" v with Some (JNum n) => is_number n 1 | _ => false end) && (zlen v =? 6)
        else "Invalid order reference.";
      let! o := text (at_ "origin" v) 2048 in
      let! origin := endpoint o options in
      let! order_id := service_id (at_ "order_id" v) in
      let! b := text (at_ "buyer" v) 64 in
      let! buyer := assertHex64 b "Buyer" in
      let! d := text (at_ "quote_digest" v) 64 in
      let! quote_digest := assertHex64 d "Quote commitment" in
      Ok (mkReference origin order_id buyer quote_digest)
  end.

Definition recoverOrder (reference : OrderReference) (buyer : jstr) (options : ServiceOptions) : M Order :=
  do ref <- lift (parseOrderReference (stringify (reference_json reference)) options);
  require eqb (ref_buyer ref) buyer else AnError (lit "Connect the original buyer's signer.");
  do value <- requestJson (ref_origin ref) (ORDERS ++ [47] ++ ref_order_id ref) None (Some buyer) options;
  do result <- lift (validateOrder (Some value) (ref_origin ref) buyer options);
  require eqb (q_order_id (or_quote result)) (ref_order_id ref) && eqb (or_quote_digest result) (ref_quote_digest ref)
    else AnError (lit "Service returned a different order.");
  ret result.

(** [null] or the members. *)
Definition receipt_json (r : Receipt) : json := JObj
  [(lit "allowance_id", JStr (re_allowance_id r)); (lit "capacity_bytes", nat_json (re_capacity_bytes r));
   (lit "starts_at", nat_json (re_starts_at r)); (lit "writes_until", nat_json (re_writes_until r));
   (lit "retains_until", nat_json (re_retains_until r))].
Definition refund_json (r : Refund) : json := JObj
  [(lit "status", JStr (lit (match rf_status r with Pending => "pending" | Completed => "completed" end)));
   (lit "amount_msat", nat_json (rf_amount_msat r)); (lit "payment_hash", JStr (rf_payment_hash r));
   (lit "refunded_at", match rf_refunded_at r with Some t => nat_json t | None => JNull end)].

Definition customerReceipt (order : Order) : res json :=
  let quote := or_quote order in
  check bool_decide (is_Some (or_receipt order)) || bool_decide (is_Some (or_refund order))
    else "This order has no allowance or refund receipt yet.";
  Ok (JObj
    [(lit "type", JStr (lit "wildbloom.storage-receipt")); (lit "version", nat_json 1);
     (lit "order", reference_json (orderReference order));
     (lit "seller", JObj [(lit "id", JStr (q_seller_id quote)); (lit "name", JStr (q_seller_name quote));
                          (lit "origin", JStr (q_node_origin quote))]);
     (lit "purchase", JObj [(lit "offer_id", JStr (of_id (q_offer quote))); (lit "offer_revision", nat_json (of_revision (q_offer quote)));
                            (lit "price_msat", nat_json (of_price_msat (q_offer quote)));
                            (lit "ordered_capacity_bytes", nat_json (of_capacity_bytes (q_offer quote)));
                            (lit "renews", text_or_null (q_renews quote))]);
     (lit "state", JStr (or_state order));
     (lit "allowance", match or_receipt order with Some r => receipt_json r | None => JNull end);
     (lit "refund", match or_refund order with Some r => refund_json r | None => JNull end)]).
End Checkout.
