(* ===== verification/CheckoutFacts.v ===== *)
(** * What the checkout promises

    From the offers that were fetched to any later state of an order, the terms
    are the reviewed ones and every invoice asks for exactly the reviewed price. *)

From S2P Require Import Prelude JsString Utf8 Bytes Json JsValue Security Envelope Nostr NostrFacts Net Blossom BlossomFacts ServicesHttp ServicesFacts Checkout.

Local Open Scope effect_scope.

(** Documented behaviour: bodies are bytes, and a serialised URL is a string. *)
Class ByteBodies `{Net} : Prop := {
  body_bytes rq w w' r reads b : network rq w = (w', Settles r) → rs_body r = Some reads → Chunk b ∈ reads → bytes_ok b }.
Class UrlTexts `{Web} : Prop := { href_ok s u : newURL s = Some u → jstr_ok (href u) }.

(** ** Values that were read are plain *)

Lemma at_ok k ms v : json_ok (JObj ms) → at_ k ms = Some v → json_ok v.
Proof. apply get_member_ok. Qed.

(** A member that is read is there. *)
Definition sound (value : option json) : Prop := ∀ v, value = Some v → json_ok v.

Lemma sound_at k ms : json_ok (JObj ms) → sound (at_ k ms).
Proof. intros Hm v. by apply at_ok. Qed.

Lemma record_sound value ms : sound value → record value = Ok ms → json_ok (JObj ms).
Proof. intros Hs Hr. destruct value as [[]|]; inversion Hr; subst. by apply Hs. Qed.

Lemma text_sound value max s : sound value → text value max = Ok s → plain (JStr s).
Proof. intros Hs Hr. destruct value as [[]|]; cbn in Hr; inv_ok. specialize (Hs _ eq_refl). inversion Hs. by constructor. Qed.

Lemma integer_plain value minimum z : 0 <= minimum → integer value minimum = Ok z → plain (nat_json z) ∧ minimum <= z.
Proof.
  intros Hm Hr. destruct value as [[| |n| | |]|]; try discriminate Hr. cbn [integer] in Hr. destruct (safe_integer (Some n)) as [y|] eqn:E; [|discriminate Hr].
  inv_ok. bool_prop. split; [|lia]. constructor. split; [lia|]. destruct n as [w| | |]; try discriminate E; cbn in E.
  - destruct (is_safe_integer w) eqn:Ez; [|done]. injection E as ->. unfold is_safe_integer in Ez. bool_prop. lia.
  - injection E as <-. unfold max_safe_integer. lia.
Qed.

Lemma timestamp_plain value z : timestamp value = Ok z → plain (nat_json z).
Proof. unfold timestamp. intros Hr. inv_ok. by eapply integer_plain. Qed.

Lemma service_id_sound value s : sound value → service_id value = Ok s → plain (JStr s).
Proof. unfold service_id. intros Hs Hr. inv_ok. by eapply text_sound. Qed.

Lemma nullable_sound {A} (read : option json → res A) (P : A → Prop) value o :
  (∀ a, read value = Ok a → P a) → nullable read value = Ok o → ∀ a, o = Some a → P a.
Proof. unfold nullable. intros Hp Hr a ->. destruct (is_null value); inv_ok; simplify_eq. by apply Hp. Qed.

(** Finish a value built of plain members. *)
Ltac plain_members := constructor; [apply (bool_decide_eq_true_1 (NoDup _)); vm_compute; reflexivity|]; repeat (apply Forall_cons_2; [split; [by apply asciib_jstr_ok|]|]); [..|constructor].

Lemma offer_plain value o : sound value → offer value = Ok o → plain (offer_json o).
Proof.
  unfold offer. intros Hs Hr. inv_ok.
  match goal with E : record _ = Ok ?v |- _ => pose proof (record_sound _ _ Hs E) as Hv end.
  repeat match goal with
  | E : integer _ _ = Ok _ |- _ => apply integer_plain in E as [E _]; [|lia]
  | E : text _ _ = Ok _ |- _ => apply text_sound in E; [|by apply sound_at]
  | E : service_id _ = Ok _ |- _ => apply service_id_sound in E; [|by apply sound_at]
  end.
  plain_members; done.
Qed.

Lemma is_text_inv v s : is_text v s = true → v = Some (JStr (lit s)).
Proof. destruct v as [[]|]; try done. cbn. by intros ->%eqb_eq. Qed.

Lemma network_text_ok n : jstr_ok (network_text n).
Proof. destruct n; by apply asciib_jstr_ok. Qed.
Lemma rail_text_ok r : jstr_ok (rail_text r).
Proof. destruct r; by apply asciib_jstr_ok. Qed.

Section Facts.
Context `{Unicode} `{Web} `{Numbers} `{NostrTools} `{Cipher} `{Net} `{!NetLaws} `{!BuyerSigner} `{Invoices} `{!ByteBodies} `{!UrlTexts}.

Lemma issuer_plain value i : sound value → issuer value = Ok i → plain (issuer_json i).
Proof.
  unfold issuer, url_of. intros Hs Hr. inv_ok.
  match goal with E : record _ = Ok ?v |- _ => pose proof (record_sound _ _ Hs E) as Hv end.
  repeat match goal with
  | E : match newURL ?x with _ => _ end = Ok ?u |- _ => destruct (newURL x) eqn:?; [|discriminate E]; inv_ok
  | E : text _ _ = Ok _ |- _ => apply text_sound in E; [|by apply sound_at]
  | E : service_id _ = Ok _ |- _ => apply service_id_sound in E; [|by apply sound_at]
  end.
  plain_members; try done; constructor; by eapply href_ok.
Qed.

Lemma text_or_null_plain o : (∀ s, o = Some s → plain (JStr s)) → plain (text_or_null o).
Proof. destruct o as [s|]; intros Hp; [by apply Hp|constructor]. Qed.

Lemma read_quote_plain q node_origin buyer quote : json_ok (JObj q) → jstr_ok node_origin → jstr_ok buyer →
  read_quote q node_origin buyer = Ok quote → plain (quote_json quote).
Proof.
  unfold read_quote. intros Hq Ho Hb Hr. inv_ok.
  repeat match goal with
  | E : offer _ = Ok _ |- _ => apply offer_plain in E; [|by apply sound_at]
  | E : timestamp _ = Ok _ |- _ => apply timestamp_plain in E
  | E : text _ _ = Ok _ |- _ => apply text_sound in E; [|by apply sound_at]
  | E : service_id _ = Ok _ |- _ => apply service_id_sound in E; [|by apply sound_at]
  end.
  assert (∀ k o, nullable service_id (at_ k q) = Ok o → plain (text_or_null o)) as Hid.
  { intros k o Ho2. apply text_or_null_plain. eapply (nullable_sound service_id); [|exact Ho2]. intros a. apply service_id_sound. by apply sound_at. }
  plain_members; cbn; try first [done|by constructor|constructor; apply network_text_ok|constructor; apply rail_text_ok|by eapply Hid].
  - match goal with E : nullable issuer _ = Ok ?o |- plain (issuer_or_null ?o) => 
      pose proof (nullable_sound issuer (λ i, plain (issuer_json i)) _ _ (λ a, issuer_plain _ a (sound_at "issuer" q Hq)) E) as Hi; destruct o as [i|]; [by apply Hi|constructor] end.
  - apply text_or_null_plain. intros a ->. match goal with Er : optional refund_address _ = Ok _ |- _ => rename Er into Hopt end.
    unfold optional in Hopt. destruct (at_ "refund_to" q) as [v|] eqn:Ev; [|discriminate Hopt]. revert a Hopt. intros a Hopt.
    refine (nullable_sound refund_address (λ a, plain (JStr a)) (Some v) (Some a) _ Hopt a eq_refl).
    intros b. unfold refund_address. intros Hr. inv_ok. eapply text_sound; [|eassumption]. intros v' [= <-]. by eapply at_ok.
Qed.
(** ** Answers are well-formed values *)

Lemma decode_ok l s : bytes_ok l → utf8_decode false l = Some s → jstr_ok s.
Proof.
  unfold utf8_decode. intros Hl Hd. destruct (utf8_points l) as [cps|] eqn:E; [|done].
  apply utf8_points_sound in E as [_ Hc]; [|done]. injection Hd as <-. apply Forall_flat_map.
  assert (∀ l', Forall (λ cp, scalar cp = true) l' → Forall (λ a, Forall unit_ok (utf16_char a)) l') as Hu.
  { intros l' Hl'. eapply Forall_impl; [exact Hl'|]. intros. by apply utf16_char_ok. }
  destruct cps as [|cp rest]; [constructor|]. cbn [negb andb]. destruct (cp =? 65279); apply Hu; [by inversion Hc|exact Hc].
Qed.

Lemma service_failure_inr {A} path phase e s s' (a : A) : service_failure path phase e s = (s', inr a) → False.
Proof. unfold service_failure. intros Hr. run_inr. destruct e; run_inr. Qed.

Lemma read_capped_inr reads n cs s s' l : (∀ b, Chunk b ∈ reads → bytes_ok b) → Forall bytes_ok cs →
  read_capped reads n cs s = (s', inr l) → Forall bytes_ok l.
Proof.
  revert n cs s. induction reads as [|[value| |e|] reads IH]; intros n cs s Hb Hc Hr; cbn [read_capped] in Hr; run_inr; [done|].
  refine (IH _ _ _ _ _ Hr); [intros b Hin; apply Hb; by right|].
  apply Forall_app. split; [done|]. constructor; [apply Hb; left|constructor].
Qed.

Lemma request_sound origin path body buyer options s s' v : requestJson origin path body buyer options s = (s', inr v) → json_ok v.
Proof.
  unfold requestJson. intros Hr. run_inr.
  match goal with Hc : catch _ _ _ = _ |- _ => apply catch_inr in Hc as [Hc|(? & ? & _ & Hc)]; run_inr; rename Hc into Ha end.
  unfold ask in Ha. run_inr. apply catch_inr in Ha as [Ha|(? & ? & _ & Ha)]; [|by apply service_failure_inr in Ha]. run_inr.
  match goal with Hn : network _ _ = (_, Settles ?r) |- _ => rename Hn into Hnet end.
  unfold read_json in Ha. destruct (rs_body _) as [reads|] eqn:Eb; [|by run_inr]. run_inr.
  match goal with Hc : read_capped _ _ _ _ = _ |- _ => apply read_capped_inr in Hc as Hchunks; [|intros b Hb; by eapply body_bytes|constructor] end.
  destruct (utf8_decode false (concat _) ≫= parse) as [v'|] eqn:Ep; [|by run_inr]. run_inr.
  apply bind_Some in Ep as (t & Ht & Hp). eapply parse_json_ok; [|exact Hp]. eapply decode_ok; [|exact Ht]. by apply Forall_concat.
Qed.

(** ** What an accepted order is *)

(** The invoice asks for exactly the quoted price, on the quoted network, and
    runs out before the quote does. *)
Definition asks_exactly (quote : Quote) (invoice : jstr) : Prop :=
  ∃ decoded, decodeBolt11 invoice = Ok decoded ∧ b_amountMsats decoded = Some (of_price_msat (q_offer quote)) ∧
    b_network decoded = bolt11_network (q_network quote) ∧ q_rail quote = Lightning ∧
    b_timestamp decoded + b_expirySeconds decoded <= q_expires_at quote.

Record order_ok (order : Order) : Prop := {
  oo_plain : plain (quote_json (or_quote order));
  oo_terms : quote_terms (or_quote order) = true;
  oo_invoice invoice : or_invoice order = Some invoice → asks_exactly (or_quote order) invoice;
  oo_receipt receipt : or_receipt order = Some receipt → re_capacity_bytes receipt = of_capacity_bytes (q_offer (or_quote order));
  oo_refund refund : or_refund order = Some refund → rf_amount_msat refund = of_price_msat (q_offer (or_quote order));
}.

Lemma validateOrder_ok value origin buyer options order : sound value → jstr_ok buyer →
  validateOrder value origin buyer options = Ok order → order_ok order.
Proof.
  unfold validateOrder. intros Hs Hb Hr. inv_ok.
  match goal with E : record value = Ok ?v |- _ => pose proof (record_sound _ _ Hs E) as Hv end.
  match goal with E : record (at_ "quote" _) = Ok ?q |- _ => pose proof (record_sound _ _ (sound_at _ _ Hv) E) as Hq end.
  match goal with E : read_quote _ ?o _ = Ok _, Ht : context [eqb _ ?o] |- _ => rename E into Eq; rename Ht into Ho end.
  split; cbn.
  - eapply read_quote_plain; [exact Hq| |exact Hb|exact Eq].
    destruct (at_ "node_origin" _) as [[| | |o| |]|] eqn:Eo; try discriminate Ho. apply eqb_eq in Ho as <-. apply at_ok in Eo; [|done]. by inversion Eo.
  - done.
  - intros invoice ->. match goal with Ei : check_invoice _ _ = Ok _ |- _ => unfold check_invoice in Ei; apply rbind_ok in Ei as (d & Ed & Ei); apply guard_ok in Ei end.
    bool_prop. exists d. split_and!; try done; by apply eqb_eq.
  - intros receipt ->. match goal with E : receipt_fits _ _ _ = true |- _ => cbn in E end. bool_prop. done.
  - intros refund ->. match goal with E : refund_fits _ _ _ = true |- _ => unfold refund_fits in E end. bool_prop. done.
Qed.

(** ** Equal texts are equal terms *)

Lemma same_text_eq a b : plain a → plain b → same_text a b = true → a = b.
Proof. intros Ha Hb Ht%eqb_eq. by apply stringify_inj. Qed.

Lemma offer_json_inj a b : offer_json a = offer_json b → a = b.
Proof. destruct a, b. unfold offer_json, nat_json. cbn. by intros [=]; subst. Qed.
Lemma issuer_json_inj a b : issuer_json a = issuer_json b → a = b.
Proof. destruct a, b. unfold issuer_json. cbn. by intros [=]; subst. Qed.
Lemma issuer_or_null_inj a b : issuer_or_null a = issuer_or_null b → a = b.
Proof. destruct a, b; cbn [issuer_or_null]; intros E; try discriminate E; [|done]. f_equal. by apply issuer_json_inj. Qed.
Lemma text_or_null_inj a b : text_or_null a = text_or_null b → a = b.
Proof. destruct a, b; cbn; congruence. Qed.
Lemma network_text_inj a b : network_text a = network_text b → a = b.
Proof. by destruct a, b. Qed.
Lemma rail_text_inj a b : rail_text a = rail_text b → a = b.
Proof. by destruct a, b. Qed.

Definition member (k : string) (v : json) : option json := match v with JObj ms => at_ k ms | _ => None end.

(** Equal objects have equal members. *)
Ltac same_member k E Hinj := let Hk := fresh in pose proof (f_equal (member k) E) as Hk; apply Some_inj in Hk; apply Hinj in Hk.

Lemma JStr_inj a b : JStr a = JStr b → a = b.
Proof. congruence. Qed.
Lemma nat_json_inj a b : nat_json a = nat_json b → a = b.
Proof. unfold nat_json. congruence. Qed.
Lemma network_json_inj a b : JStr (network_text a) = JStr (network_text b) → a = b.
Proof. by intros ->%JStr_inj%network_text_inj. Qed.
Lemma rail_json_inj a b : JStr (rail_text a) = JStr (rail_text b) → a = b.
Proof. by intros ->%JStr_inj%rail_text_inj. Qed.

Lemma quote_json_inj a b : quote_json a = quote_json b → a = b.
Proof.
  intros E. same_member "order_id" E JStr_inj. same_member "seller_id" E JStr_inj. same_member "seller_name" E JStr_inj.
  same_member "node_origin" E JStr_inj. same_member "signer_pubkey" E JStr_inj. same_member "network" E network_json_inj.
  same_member "rail" E rail_json_inj. same_member "issuer_id" E text_or_null_inj. same_member "issuer" E issuer_or_null_inj.
  same_member "offer" E offer_json_inj. same_member "created_at" E nat_json_inj. same_member "expires_at" E nat_json_inj.
  same_member "renews" E text_or_null_inj. same_member "refund_to" E text_or_null_inj. clear E.
  destruct a, b. cbn in *. by subst.
Qed.

(** ** From the offers to any later state of an order *)

Record offers_ok (offers : Offers) : Prop := {
  os_offers_plain : Forall (λ o, plain (offer_json o)) (os_offers offers);
  os_issuers_plain : Forall (λ i, plain (issuer_json i)) (os_issuers offers);
}.

Lemma each_Forall {A} (read : option json → res A) (P : A → Prop) l out : Forall json_ok l →
  (∀ value a, sound value → read value = Ok a → P a) → each read l = Ok out → Forall P out.
Proof.
  intros Hl Hp. revert out. induction Hl as [|v l Hv Hl IH]; intros out Hr; unfold each in Hr; cbn [rmap] in Hr; inv_ok; [constructor|].
  constructor; [|by apply IH]. eapply Hp; [|eassumption]. by intros v' [= <-].
Qed.

Lemma bounded_list_ok v a b l : sound v → bounded_list v a b = Some l → Forall json_ok l.
Proof.
  intros Hs Hb. destruct v as [[| | | |l'|]|]; try discriminate Hb. cbn in Hb. destruct (in_range a b (zlen l')); [|done]. injection Hb as <-.
  specialize (Hs _ eq_refl). by inversion Hs.
Qed.

Lemma validateOffers_ok value origin options offers : sound value → validateOffers value origin options = Ok offers → offers_ok offers.
Proof.
  unfold validateOffers. intros Hs Hr. inv_ok.
  match goal with E : record value = Ok ?v |- _ => pose proof (record_sound _ _ Hs E) as Hv end.
  destruct (bounded_list (at_ "offers" _) _ _) as [lo|] eqn:Elo; [|discriminate Hr]. destruct (bounded_list (at_ "rails" _) _ _); [|discriminate Hr].
  destruct (bounded_list (at_ "issuers" _) _ _) as [li|] eqn:Eli; [|discriminate Hr]. 
  match type of Hr with match ?f with _ => _ end = _ => destruct f; [|discriminate Hr] end.
  inv_ok. apply bounded_list_ok in Elo; [|by apply sound_at]. apply bounded_list_ok in Eli; [|by apply sound_at].
  repeat match goal with
  | E : each offer _ = Ok _ |- _ => eapply (each_Forall offer _ _ _ Elo offer_plain) in E
  | E : each issuer _ = Ok _ |- _ => eapply (each_Forall issuer _ _ _ Eli issuer_plain) in E
  end.
  by split.
Qed.

Lemma fetchOffers_ok origin options s s' offers : fetchOffers origin options s = (s', inr offers) → offers_ok offers.
Proof.
  unfold fetchOffers. intros Hr. run_inr. match goal with Hq : requestJson _ _ _ _ _ _ = _ |- _ => apply request_sound in Hq end.
  eapply validateOffers_ok; [|eassumption]. by intros v [= <-].
Qed.

(** What was reviewed: one of the offers, one of the rails, and its issuer. *)
Record as_reviewed (offers : Offers) (offerId : jstr) (method : Rail) (issuerId renews refundTo : option jstr) (quote : Quote) : Prop := {
  rv_offer : q_offer quote ∈ os_offers offers ∧ of_id (q_offer quote) = offerId;
  rv_seller : q_seller_id quote = os_seller_id offers ∧ q_seller_name quote = os_seller_name offers;
  rv_network : q_network quote = os_network offers;
  rv_rail : q_rail quote = method ∧ method ∈ os_rails offers;
  rv_issuer_id : q_issuer_id quote = issuerId;
  rv_issuer : match method with
              | Lightning => q_issuer quote = None
              | Lnurlcash => ∃ i, q_issuer quote = Some i ∧ i ∈ os_issuers offers ∧ Some (is_id i) = issuerId
              end;
  rv_renews : q_renews quote = renews ∧ q_refund_to quote = refundTo;
}.

Lemma createOrder_reviewed offers offerId method issuerId buyer requestId options renews refundTo s s' order :
  offers_ok offers → jstr_ok buyer →
  createOrder offers offerId method issuerId buyer requestId options renews refundTo s = (s', inr order) →
  order_ok order ∧ as_reviewed offers offerId method issuerId renews refundTo (or_quote order).
Proof.
  intros [Ho Hi] Hb Hr. unfold createOrder in Hr. run_inr. destruct (List.find _ (os_offers offers)) as [selected|] eqn:Ef; [|run_inr].
  apply find_some in Ef as [Hin Hid%eqb_eq]. apply list_elem_of_In in Hin. run_inr.
  match goal with Hq : requestJson _ _ _ _ _ _ = _, Hv : validateOrder _ _ _ _ = Ok ?o |- _ => 
    apply request_sound in Hq; apply validateOrder_ok in Hv as Hok; [|by intros v [= <-]|done]; rename o into order; clear Hv end.
  split; [done|]. match goal with Hc : quote_as_chosen _ _ _ _ _ _ _ _ = true |- _ => unfold quote_as_chosen in Hc end. bool_prop.
  pose proof (oo_plain _ Hok) as Hplain. inversion Hplain as [| | | | |ms Hnd Hms]; subst ms.
  assert (plain (offer_json (q_offer (or_quote order))) ∧ plain (issuer_or_null (q_issuer (or_quote order)))) as [Hpo Hpi].
  { rewrite Forall_forall in Hms. split; [apply (Hms (lit "offer", _))|apply (Hms (lit "issuer", _))]; repeat (apply list_elem_of_here || apply list_elem_of_further). }
  rewrite Forall_forall in Ho. rewrite Forall_forall in Hi.
  match goal with E : same_text (offer_json _) _ = true |- _ => apply same_text_eq in E; [|done|by apply Ho]; apply offer_json_inj in E; rename E into Eoffer end.
  set (chosen := match method with Lightning => None | Lnurlcash => find_issuer offers issuerId end) in *.
  assert (∀ i, chosen = Some i → i ∈ os_issuers offers ∧ Some (is_id i) = issuerId) as Hchosen.
  { intros i. subst chosen. destruct method; [done|]. intros Ei. apply find_some in Ei as [Ei1 Ei2]. apply bool_decide_eq_true in Ei2. by apply list_elem_of_In in Ei1. }
  match goal with E : same_text (issuer_or_null _) _ = true |- _ => apply same_text_eq in E; [|done|]; [apply issuer_or_null_inj in E; rename E into Eissuer|] end.
  2:{ destruct chosen as [i|]; [apply Hi; by apply (Hchosen i)|constructor]. }
  repeat match goal with E : eqb _ _ = true |- _ => apply eqb_eq in E end.
  split; rewrite ?Eoffer; try done; try (by split).
  rewrite Eissuer. subst chosen. destruct method; [done|]. destruct (find_issuer offers issuerId) as [i|]; [by exists i; split; [|apply Hchosen]|].
  match goal with E : bool_decide (is_Some None) = true |- _ => by apply bool_decide_eq_true in E as [? ?] end.
Qed.

Lemma orderAction_keeps order action buyer options note s s' next : plain (quote_json (or_quote order)) → jstr_ok buyer →
  orderAction order action buyer options note s = (s', inr next) →
  order_ok next ∧ or_quote next = or_quote order ∧ or_quote_digest next = or_quote_digest order.
Proof.
  intros Hp Hb Hr. unfold orderAction in Hr. run_inr.
  match goal with Hq : requestJson _ _ _ _ _ _ = _, Hv : validateOrder _ _ _ _ = Ok ?o |- _ => 
    apply request_sound in Hq; apply validateOrder_ok in Hv as Hok; [|by intros v [= <-]|done] end.
  bool_prop. split; [done|]. split; [|by apply eqb_eq]. apply quote_json_inj, same_text_eq; [by apply oo_plain|done..].
Qed.

(** The orders a checkout of these offers can lead to. *)
Inductive reached (offers : Offers) (offerId : jstr) (method : Rail) (issuerId renews refundTo : option jstr) : Order → Prop :=
  | reached_created buyer requestId options s s' order : jstr_ok buyer →
      createOrder offers offerId method issuerId buyer requestId options renews refundTo s = (s', inr order) →
      reached offers offerId method issuerId renews refundTo order
  | reached_action order action buyer options note s s' next : reached offers offerId method issuerId renews refundTo order →
      jstr_ok buyer → orderAction order action buyer options note s = (s', inr next) →
      reached offers offerId method issuerId renews refundTo next.

(** C6: whatever the service answers, every state an order can reach from the
    offers that were fetched carries the terms that were chosen from them: offer,
    seller, network, rail, issuer, renewal and refund address; and any invoice it
    shows asks for exactly that offer's price, on that network, and runs out
    before the quote does; a receipt is for the capacity that was bought, and a
    refund for its price. *)
Theorem order_as_reviewed origin options0 s0 s1 offers offerId method issuerId renews refundTo order :
  fetchOffers origin options0 s0 = (s1, inr offers) →
  reached offers offerId method issuerId renews refundTo order →
  let quote := or_quote order in
  as_reviewed offers offerId method issuerId renews refundTo quote ∧
  (∀ invoice, or_invoice order = Some invoice → asks_exactly quote invoice) ∧
  (∀ receipt, or_receipt order = Some receipt → re_capacity_bytes receipt = of_capacity_bytes (q_offer quote)) ∧
  (∀ refund, or_refund order = Some refund → rf_amount_msat refund = of_price_msat (q_offer quote)).
Proof.
  intros Hf%fetchOffers_ok Hr. cbn.
  assert (order_ok order ∧ as_reviewed offers offerId method issuerId renews refundTo (or_quote order)) as [[] Hv]; [|done].
  induction Hr as [buyer requestId options s s' order Hb Hc|order action buyer options note s s' next Hr [Hok Hv] Hb Ha].
  - by eapply createOrder_reviewed.
  - apply orderAction_keeps in Ha as (Hok' & Hq & _); [|by apply oo_plain|done]. by rewrite Hq.
Qed.
End Facts.

(** ** An example world *)

Definition example_offer : Offer := mkOffer (lit "small") 1 1000000 86400 3600 21000 5000000 (lit "fair use") (lit "kept") (lit "none").
Definition example_offers_json : json := JObj
  [(lit "version", nat_json 1); (lit "node_origin", JStr (lit "https://example.com/")); (lit "seller_id", JStr (lit "seller"));
   (lit "seller_name", JStr (lit "A seller")); (lit "network", JStr (lit "bitcoin")); (lit "offers", JArr [offer_json example_offer]);
   (lit "rails", JArr [JStr (lit "lightning")]); (lit "issuers", JArr [])].
Definition example_quote : Quote := mkQuote (lit "o1") (lit "seller") (lit "A seller") (lit "https://example.com/") example_key Bitcoin
  Lightning None None example_offer 1700000000 1700003600 None None.
Definition example_order : Order := mkOrder example_quote example_hash (lit "awaiting_payment") (Some (lit "lnbc1")) None None.
Definition example_order_json : json := JObj
  [(lit "quote", quote_json example_quote); (lit "quote_digest", JStr example_hash); (lit "state", JStr (lit "awaiting_payment"));
   (lit "invoice", JStr (lit "lnbc1")); (lit "receipt", JNull)].

Definition shop_answer (rq : request) : json :=
  if eqb (rq_url rq) (lit "https://example.com/checkout/v1/offers") then example_offers_json else example_order_json.
Definition shop_net : Net := answering_net shop_answer.
Definition shop_signer : @BuyerSigner shop_net := example_buyer shop_answer.
Definition shop_invoices : Invoices := {| decodeBolt11 _ := Ok (mkBolt11 (Some 21000) (lit "bc") 1700000000 600) |}.

#[local] Existing Instances ascii_unicode blob_web no_fractions trusting_tools hello_cipher shop_net shop_signer shop_invoices.

Lemma shop_laws : @NetLaws shop_net.
Proof. split. intros b. cbn. by rewrite app_nil_r. Qed.

Lemma shop_bytes : ByteBodies.
Proof.
  split. intros rq w w' r reads b [= <- <-] [= <-] Hb%list_elem_of_singleton. injection Hb as ->.
  unfold shop_answer. destruct (eqb _ _); (eapply Forall_forallb; [|by instantiate (1 := in_range 0 255); vm_compute]); intros c Hc%in_range_spec; red; lia.
Qed.

Lemma blob_texts : UrlTexts.
Proof.
  split. intros s u Hu. unfold newURL, blob_web in Hu. repeat case_match; simplify_eq; by apply asciib_jstr_ok.
Qed.

#[local] Existing Instances shop_laws shop_bytes blob_texts.

Definition shop_start : state := mkState (0 : @World shop_net) [].
Definition shop_options : ServiceOptions := mkServiceOptions direct None.
Definition shop_offers : Offers := mkOffers (lit "seller") (lit "A seller") (lit "https://example.com/") Bitcoin [example_offer] [Lightning] [] [].

Lemma order_as_reviewed_witness : ∃ s1 s2, fetchOffers (lit "https://example.com") shop_options shop_start = (s1, inr shop_offers) ∧
  createOrder shop_offers (lit "small") Lightning None example_key (lit "r1") shop_options None None s1 = (s2, inr example_order) ∧
  asks_exactly example_quote (lit "lnbc1").
Proof.
  set (run := createOrder shop_offers (lit "small") Lightning None example_key (lit "r1") shop_options None None).
  assert (snd (fetchOffers (lit "https://example.com") shop_options shop_start) = inr shop_offers) as Hv by (vm_compute; reflexivity).
  assert (snd (run (fst (fetchOffers (lit "https://example.com") shop_options shop_start))) = inr example_order) as Ho by (vm_compute; reflexivity).
  destruct (fetchOffers (lit "https://example.com") shop_options shop_start) as [s1 r] eqn:Hf. cbn [fst snd] in Hv, Ho. subst r.
  destruct (run s1) as [s2 r] eqn:Hc. cbn [snd] in Ho. subst r. exists s1, s2. split_and!; [done..|].
  destruct (order_as_reviewed _ _ _ _ _ _ _ _ _ _ _ Hf
    (reached_created shop_offers (lit "small") Lightning None None None example_key (lit "r1") shop_options s1 s2 example_order
      ltac:(by apply asciib_jstr_ok) Hc)) as (_ & Hi & _).
  by apply Hi.
Defined.
