(* ===== verification/StorageProof.v ===== *)
(** * Storage audits ([core/storage-proof.ts])

    A node answers a fresh challenge over the bytes it keeps; the answer counts
    only when the bytes, fetched from that node and verified, give it too. *)

From S2P Require Import Prelude JsString Utf8 Bytes Json JsValue Security Envelope Nostr NostrFacts Net Blossom BlossomFacts ServicesHttp ServicesFacts.

Local Open Scope effect_scope.

Record StorageAudit := mkAudit {
  sa_origin : jstr; sa_sha256 : jstr; sa_size : Z; sa_nonce : jstr; sa_digest : jstr; sa_verifiedAt : Z }.

Definition reason (stage : AuditStage) : string :=
  match stage with
  | Challenge => "Could not prepare or request the storage challenge."
  | Response => "Node proof is invalid or does not match the fresh challenge."
  | Retrieval => "Independent retrieval failed; the stored bytes could not be fetched and verified."
  | Digest => "Storage proof failed independent byte verification."
  end.

Definition failure_code (code : ServiceFailureCode) : string :=
  match code with
  | FSigner => "signer" | FExpired => "expired" | FCancelled => "cancelled" | FHttp => "http" | FResponse => "response" | FNetwork => "network"
  end.
Definition stage_text (stage : AuditStage) : string :=
  match stage with Challenge => "challenge" | Response => "response" | Retrieval => "retrieval" | Digest => "digest" end.

(** What is said of a failed audit: its stage and its reason. *)
Definition auditFailure (e : thrown) : string * jstr :=
  match e with
  | ServiceRequestError code message _ => (failure_code code, message)
  | StorageAuditError stage message => (stage_text stage, lit message)
  | _ => ("unknown", lit "Storage audit could not be completed.")
  end.

(** [setBigUint64]. *)
Definition u64 (n : Z) : bytes := u32 (n / 4294967296) ++ u32 (n mod 4294967296).

Definition PROOF_DOMAIN : bytes := lit "wildbloom.storage-proof.v1" ++ [10].

(** What the digest of a challenge is over. *)
Definition challenge_input (blob nonce : bytes) : bytes := PROOF_DOMAIN ++ nonce ++ u64 (zlen blob) ++ blob.

Section Audit.
Context `{Unicode} `{Web} `{Numbers} `{NostrTools} `{Cipher} `{Net} `{!BuyerSigner}.

(** [crypto.getRandomValues]. *)
Class Randomness := { getRandomValues : nat → World → World * bytes }.
Context `{!Randomness}.

Definition draw (n : nat) : M bytes := λ s, let '(w, b) := getRandomValues n (world s) in (mkState w (log s), inr b).

Definition challengeDigest (blob : bytes) (nonce : jstr) : M jstr :=
  do hex <- lift (assertHex64 nonce "Challenge nonce");
  blobHash (challenge_input blob (fromHex hex)).

(** The [catch] of [auditStoredBlob], at each of its stages. *)
Definition at_stage {A} (stage : AuditStage) (m : M A) : M A :=
  catch m (λ e, match e with
    | ServiceRequestError _ _ _ => throw e
    | _ => throw (StorageAuditError stage (reason stage))
    end).

Definition proof_matches (file : ResolvedHybridEvent) (nonce : jstr) (response : json) : res jstr :=
  let! proof := record (Some response) in
  check (match get_member (lit "version") proof with Some (JNum n) => is_number n 1 | _ => false end)
        && (match get_member (lit "sha256") proof with Some (JStr s) => eqb s (rh_sha256 file) | _ => false end)
        && (match get_member (lit "nonce") proof with Some (JStr s) => eqb s nonce | _ => false end)
    else "Storage proof does not match the fresh challenge.";
  let! size := integer (get_member (lit "size") proof) 0 in
  check size =? rh_size file else "Storage proof does not match the fresh challenge.";
  let! digest := text (get_member (lit "digest") proof) 64 in
  assertHex64 digest "Storage proof digest".

Definition proof_body (file : ResolvedHybridEvent) (nonce : jstr) : json :=
  JObj [(lit "sha256", JStr (rh_sha256 file)); (lit "nonce", JStr nonce)].

Definition stored_blob (file : ResolvedHybridEvent) : VerifiableBlob :=
  mkVerifiable (rh_url file) (rh_sha256 file) (rh_size file) (rh_mimeType file).

Definition auditStoredBlob (file : ResolvedHybridEvent) (origin buyer : jstr) (options : ServiceOptions) : M StorageAudit :=
  do server <- lift (normaliseBlossomServer origin (so_profile options));
  let base := server ++ [47] in
  do random <- draw 32;
  let nonce := toHex random in
  do response <- at_stage Challenge (requestJson base (lit "/storage/v1/proof") (Some (proof_body file nonce)) (Some buyer)
    (mkServiceOptions (so_profile options) (Some (default 300000 (so_timeoutMs options)))));
  do digest <- at_stage Response (lift (proof_matches file nonce response));
  do bytes <- at_stage Retrieval (fetchVerifiedBlob (stored_blob file) (mkOptions (so_profile options) (so_timeoutMs options) None (Some base)));
  at_stage Digest (
    do computed <- challengeDigest bytes nonce;
    require eqb computed digest else AnError (lit "Storage proof failed independent byte verification.");
    do stopped <- asks cancelled;
    require negb stopped else AnAbort;
    do now <- asks clock;
    ret (mkAudit base (rh_sha256 file) (rh_size file) nonce digest now)).
End Audit.

(** ** What an audit shows

    An audit that passes was over bytes that were fetched from the audited node
    and verified, with a nonce drawn for this audit. *)

Section Facts.
Context `{UnicodeLaws} `{Web} `{Numbers} `{NostrTools} `{Cipher} `{Net} `{!NetLaws} `{!BuyerSigner} `{!Randomness}.

(** Documented behaviour: as many random bytes as were asked for. *)
Class RandomLaws : Prop := { random_bytes n w w' b : getRandomValues n w = (w', b) → length b = n ∧ bytes_ok b }.
Context `{!RandomLaws}.

Lemma at_stage_inr {A} stage (m : M A) s s' a : at_stage stage m s = (s', inr a) → m s = (s', inr a).
Proof. unfold at_stage, catch. destruct (m s) as [s1 [e|b]]; [|done]. by destruct e. Qed.

Definition audit_error (e : thrown) : Prop := typed e ∨ ∃ stage, e = StorageAuditError stage (reason stage).

Lemma at_stage_inl {A} stage (m : M A) s s' e : at_stage stage m s = (s', inl e) → audit_error e.
Proof.
  unfold at_stage, catch. destruct (m s) as [s1 [e0|b]]; [|done].
  destruct e0; cbn; intros [= <- <-]; first [by (right; exists stage)|left; by repeat eexists].
Qed.

Lemma draw_inr n s s' b : draw n s = (s', inr b) → b = (getRandomValues n (world s)).2 ∧ length b = n ∧ bytes_ok b ∧ log s' = log s.
Proof.
  unfold draw. destruct (getRandomValues n (world s)) as [w r] eqn:E. intros [= <- <-]. by destruct (random_bytes _ _ _ _ E).
Qed.

Lemma challengeDigest_inr blob nonce s s' d : bytes_ok nonce → length nonce = 32%nat →
  challengeDigest blob (toHex nonce) s = (s', inr d) → d = toHex (sha256 (challenge_input blob nonce)) ∧ s' = s.
Proof.
  unfold challengeDigest. intros Hb Hl Hr. apply bind_inr in Hr as (s1 & hex & [Hh ->]%lift_inr & Hr).
  rewrite assertHex64_id in Hh by (unfold HEX_64; change 64 with (2 * 32); rewrite <- (toHex_hex nonce) by done; do 2 f_equal; unfold zlen; lia).
  inv_ok. rewrite fromHex_toHex in Hr by done. by apply blobHash_inr in Hr.
Qed.

Lemma drop_while_end p s c : p c = false → ∃ t, drop_while p (s ++ [c]) = t ++ [c].
Proof.
  intros Hc. induction s as [|d s (t & IH)]; cbn [app drop_while]; [rewrite Hc; by exists []|].
  destruct (p d); [by exists t|by exists (d :: s)].
Qed.

Lemma trim_slash s : non_empty (trim (s ++ [47])) = true.
Proof.
  unfold trim, trimStart, trimEnd. destruct (drop_while_end is_space s 47 eq_refl) as [t ->].
  rewrite drop_end_id by done. by destruct t.
Qed.

(** What the network gave, at some point, for a request. *)
Definition answered_with (rq : request) (r : response) : Prop := ∃ w w', network rq w = (w', Settles r).

(** The bytes of a response's body, as its reads gave them. *)
Definition body_bytes (r : response) : bytes :=
  flat_map (λ c, match c with Chunk value => value | _ => [] end) (default [] (rs_body r)).

Lemma guarded_inr {A} path phase (m : M A) s s' a : catch m (service_failure path phase) s = (s', inr a) → m s = (s', inr a).
Proof.
  unfold catch. destruct (m s) as [s1 [e|b]]; [|done]. unfold service_failure, bind, asks. destruct (aborted _); [done|]. by destruct e.
Qed.

Lemma throwIfAborted_inr s s' u : throwIfAborted s = (s', inr u) → s' = s.
Proof. unfold throwIfAborted. unfold bind, asks. destruct (aborted (world s)); [done|]. by intros [= ->]. Qed.

Lemma read_capped_value reads n cs s s' out : read_capped reads n cs s = (s', inr out) →
  s' = s ∧ concat out = concat cs ++ flat_map (λ c, match c with Chunk value => value | _ => [] end) reads.
Proof.
  revert n cs. induction reads as [|[value| |e|] reads IH]; intros n cs Hr; cbn [read_capped] in Hr; run_inr;
    (match goal with Ht : throwIfAborted _ = _ |- _ => apply throwIfAborted_inr in Ht as -> end).
  - by rewrite app_nil_r.
  - apply IH in Hr as [-> ->]. split; [done|]. rewrite concat_app. cbn. by rewrite app_nil_r, <- app_assoc.
Qed.

(** JSON is read only from a successful response that says it is JSON. *)
Lemma read_json_inr path r s s' v : read_json path r s = (s', inr v) →
  s' = s ∧ response_ok r = true ∧ json_response r = true ∧ utf8_decode false (body_bytes r) ≫= parse = Some v.
Proof.
  unfold read_json, body_bytes. destruct (rs_body r) as [reads|]; [|done]. intros Hr. run_inr.
  repeat match goal with Ht : throwIfAborted _ = _ |- _ => apply throwIfAborted_inr in Ht as -> end.
  match goal with Hc : read_capped _ _ _ _ = _ |- _ => apply read_capped_value in Hc as [-> Hc]; cbn [concat app] in Hc; rewrite Hc in * end.
  bool_prop. destruct (_ ≫= parse) as [v0|] eqn:E; [|done]. run_inr. split_and!; try done.
Qed.

Lemma ask_answered url path body buyer s s' v : ask url path (Some body) (Some buyer) s = (s', inr v) →
  ∃ l header r (rq := service_request url POST (Some body) (Some header)), log s' = log s ++ l ++ [Phase Requesting; Sent rq] ∧
    authorised url POST (Some body) (Some buyer) (Some header) l ∧
    answered_with rq r ∧ response_ok r = true ∧ json_response r = true ∧ utf8_decode false (body_bytes r) ≫= parse = Some v.
Proof.
  unfold ask. intros Hr. run_inr.
  repeat match goal with Hc : catch _ (service_failure _ _) _ = _ |- _ => apply guarded_inr in Hc end. run_inr.
  repeat match goal with Ht : throwIfAborted _ = _ |- _ => apply throwIfAborted_inr in Ht as -> end.
  match goal with Ha : authorise _ _ _ _ ?s0 = (?s1, inr ?h) |- _ =>
    destruct (does_authorise url POST (Some body) buyer s0) as (l & Hl & Hp); rewrite Ha in Hl, Hp; cbn [fst snd] in Hl, Hp end.
  match goal with Hj : read_json _ _ _ = _ |- _ => apply read_json_inr in Hj as (-> & Hok & Hjson & Hv) end.
  match goal with Hn : network _ _ = _, Hs : log _ = log _ ++ [Sent _] |- _ =>
    eexists l, _, _; split_and!; [rewrite Hs; cbn [log]; rewrite Hl; by rewrite <- !app_assoc|exact Hp|by eexists _, _|done..] end.
Qed.

(** A request that answered was signed as its buyer's, sent once, and answered with that JSON. *)
Lemma request_answered origin path body buyer options s s' v : requestJson origin path (Some body) (Some buyer) options s = (s', inr v) →
  ∃ base l header r (rq := service_request (base ++ path) POST (Some (stringify body)) (Some header)),
    normaliseBlossomServer origin (so_profile options) = Ok base ∧ log s' = log s ++ l ++ [Phase Requesting; Sent rq] ∧
    authorised (base ++ path) POST (Some (stringify body)) (Some buyer) (Some header) l ∧
    answered_with rq r ∧ response_ok r = true ∧ json_response r = true ∧ utf8_decode false (body_bytes r) ≫= parse = Some v.
Proof.
  unfold requestJson. intros Hr. run_inr. unfold catch in *.
  match goal with Ha : match ?m ?s0 with _ => _ end = _ |- _ => destruct (m s0) as [s2 [e|v2]] eqn:Hask; [by repeat run_inr1|]; injection Ha as <- <- end.
  run_inr. cbn [fmap option_fmap option_map] in Hask. apply ask_answered in Hask as (l & header & r & Hlog & Hrest).
  by exists x0, l, header, r.
Qed.

(** The retrieval that gave the bytes: its one request, then its progress. *)
Lemma read_body_bytes reads size received chunks s s' cs : read_body reads size received chunks s = (s', inr cs) →
  (∃ l, log s' = log s ++ l ∧ Forall (λ a, ∃ n, n <= size ∧ a = Progress n size) l) ∧
  concat cs = concat chunks ++ flat_map (λ c, match c with Chunk value => value | _ => [] end) reads.
Proof.
  intros Hr. split.
  - destruct (only_read_body (λ a, ∃ n, n <= size ∧ a = Progress n size) reads size received chunks (λ n Hn, ex_intro _ n (conj Hn eq_refl)) s) as (l & Hl & Hp).
    rewrite Hr in Hl. by exists l.
  - revert received chunks s Hr. induction reads as [|[value| |e|] reads IH]; intros received chunks s Hr; cbn [read_body] in Hr; run_inr.
    + by rewrite app_nil_r.
    + apply IH in Hr as ->. rewrite concat_app. cbn. by rewrite app_nil_r, <- app_assoc.
    + by apply IH in Hr as ->.
Qed.

Lemma fetch_answered resolved profile ms server s s' blob :
  fetchVerifiedBlob resolved (mkOptions profile ms None (Some (server ++ [47]))) s = (s', inr blob) →
  ∃ replica r progress (rq := get_request (replica ++ [47] ++ toLowerCase (vb_sha256 resolved))),
    normaliseBlossomServer (trim (server ++ [47])) profile = Ok replica ∧ log s' = log s ++ Sent rq :: progress ∧
    Forall (λ a, ∃ n, n <= vb_size resolved ∧ a = Progress n (vb_size resolved)) progress ∧
    answered_with rq r ∧ response_ok r = true ∧ blob = body_bytes r.
Proof.
  unfold fetchVerifiedBlob. intros Hf. run_inr. match goal with Hu : retrieval_url _ _ = Ok _ |- _ => rename Hu into Hurl end.
  unfold retrieval_url in Hurl. change (default [] (replicaServer _)) with (server ++ [47]) in Hurl. rewrite trim_slash in Hurl.
  unfold assertHex64 in Hurl. inv_ok.
  apply with_deadline_inr in Hf as (s1 & s2 & Hl1 & Hf & Hl2). run_inr.
  match goal with Ht : throwIfAborted _ = _ |- _ => apply throwIfAborted_inr in Ht as -> end.
  unfold receive_blob in Hf. run_inr. destruct (rs_body _) as [reads|] eqn:Hbody; [|done]. run_inr.
  match goal with Hb : read_body _ _ _ _ _ = _, Hh : blobHash _ _ = _ |- _ =>
    apply read_body_bytes in Hb as [(progress & Hlog & Hp) Hbytes]; apply blobHash_inr in Hh as [_ ->] end.
  match goal with Hs : log _ = log _ ++ [Sent _] |- _ => 
  eexists _, _, progress; split_and!; [done|by rewrite Hl2, Hlog, Hs, Hl1, <- app_assoc|exact Hp|by eexists _, _|done|] end.
  unfold body_bytes. by rewrite Hbody, Hbytes.
Qed.

(** C30: a storage audit that passes drew its nonce afresh and sent it to the
    audited node in one request, signed as the buyer's for exactly that address and
    body; the node's successful answer was the audit's digest. Then, and not
    before, it fetched the file from that node with the one request for it; the
    bytes of that response have the file's signed length and SHA-256, and the
    node's digest is the SHA-256 of the domain, that nonce, the length and those
    very bytes. Once it has begun, that is but for a server address that is refused
    before anything is done, an audit fails only with one of the stated errors. *)
Theorem audit_verified file origin buyer options s s' r :
  auditStoredBlob file origin buyer options s = (s', r) →
  (∀ audit, r = inr audit →
     ∃ server base replica header asked progress proof answer stored
       (nonce := toHex (getRandomValues 32 (world s)).2)
       (challenge := stringify (proof_body file nonce))
       (proof_url := base ++ lit "/storage/v1/proof")
       (proof_request := service_request proof_url POST (Some challenge) (Some header))
       (blob_request := get_request (replica ++ [47] ++ toLowerCase (rh_sha256 file))),
     normaliseBlossomServer origin (so_profile options) = Ok server ∧ sa_origin audit = server ++ [47] ∧
     normaliseBlossomServer (sa_origin audit) (so_profile options) = Ok base ∧
     normaliseBlossomServer (trim (sa_origin audit)) (so_profile options) = Ok replica ∧
     sa_nonce audit = nonce ∧
     log s' = log s ++ asked ++ [Phase Requesting; Sent proof_request] ++ Sent blob_request :: progress ∧
     authorised proof_url POST (Some challenge) (Some buyer) (Some header) asked ∧
     Forall (λ a, ∃ n, n <= rh_size file ∧ a = Progress n (rh_size file)) progress ∧
     answered_with proof_request proof ∧ response_ok proof = true ∧ json_response proof = true ∧
     utf8_decode false (body_bytes proof) ≫= parse = Some answer ∧ proof_matches file nonce answer = Ok (sa_digest audit) ∧
     answered_with blob_request stored ∧ response_ok stored = true ∧
     zlen (body_bytes stored) = rh_size file ∧ toHex (sha256 (body_bytes stored)) = rh_sha256 file ∧
     sa_digest audit = toHex (sha256 (challenge_input (body_bytes stored) (getRandomValues 32 (world s)).2))) ∧
  (∀ e, r = inl e → audit_error e ∨ ∃ msg, normaliseBlossomServer origin (so_profile options) = Throw msg ∧ s' = s).
Proof.
  intros Hr. split.
  - intros audit ->. unfold auditStoredBlob in Hr. run_inr.
    repeat match goal with Hs : at_stage _ _ _ = (_, inr _) |- _ => apply at_stage_inr in Hs end. run_inr. cbn [sa_origin sa_nonce sa_digest].
    match goal with Hd : draw 32 _ = (_, inr _), Hq : requestJson _ _ _ _ _ _ = _, Hf : fetchVerifiedBlob _ _ _ = _, Hc : challengeDigest _ _ _ = _ |- _ =>
      rename Hd into Hdraw, Hq into Hreq, Hf into Hfetch, Hc into Hdigest end.
    apply draw_inr in Hdraw as (-> & Hlen & Hok & Hlog0).
    apply request_answered in Hreq as (base & asked & header & proof & Hbase & Hlog1 & Hasked & Hproof & Hpok & Hpjson & Hanswer).
    apply challengeDigest_inr in Hdigest as [-> ->]; [|done..].
    pose proof (fetch_inr _ _ _ _ _ Hfetch) as [Hsize Hhash].
    apply fetch_answered in Hfetch as (replica & stored & progress & Hrep & Hlog2 & Hprogress & Hstored & Hsok & ->).
    match goal with He : eqb _ ?d = true |- _ => apply eqb_eq in He end. subst.
    eexists _, base, replica, header, asked, progress, proof, _, stored.
    split_and!; try done; [by rewrite Hlog2, Hlog1, Hlog0, <- !app_assoc|reflexivity..].
  - intros e ->. unfold auditStoredBlob in Hr.
    apply bind_inl in Hr as [Hl|(s1 & server & [Hn ->]%lift_inr & Hr)].
    { destruct (normaliseBlossomServer origin (so_profile options)) as [a|msg]; [discriminate Hl|]. injection Hl as <- _. right. by exists msg. }
    left. apply bind_inl in Hr as [Hd|(s2 & random & _ & Hr)]; [unfold draw in Hd; by destruct (getRandomValues 32 _)|].
    repeat (apply bind_inl in Hr as [Hr|(? & ? & _ & Hr)]; [by eapply at_stage_inl|]). by eapply at_stage_inl.
Qed.
End Facts.

(** ** An example world *)

Definition example_nonce : bytes := replicate 32 7.
Definition example_proof : json := JObj
  [(lit "version", JNum (Int 1)); (lit "sha256", JStr example_hash); (lit "nonce", JStr (toHex example_nonce)); (lit "size", JNum (Int 5));
   (lit "digest", JStr example_hash)].

(** A node that keeps [hello] and answers the challenge. *)
Definition node_server (rq : request) : response :=
  match rq_method rq with
  | POST => mkResponse 200 [] [] None None (Some [Chunk (stringify (H := no_fractions) example_proof)]) (Some (lit "application/json"))
  | _ => hello_server rq
  end.

Definition node_net : Net := {|
  World := Z;
  cancelled _ := false;
  timedOut _ := false;
  openDeadline _ w := w;
  closeDeadline w := w;
  dateNow _ := 1700000000000;
  hashSignal _ _ := false;
  blobStream b := [b];
  signer t w := (w, Settles (Some (signed_value t example_key)));
  network rq w := (w + 1, Settles (node_server rq));
|}.

Lemma node_laws : @NetLaws node_net.
Proof. split. intros b. cbn. by rewrite app_nil_r. Qed.

Definition node_signer : @BuyerSigner node_net := @Build_BuyerSigner node_net (λ t w, (w, inr (Some (signed_value t example_key)))).
(** Bytes that are the same each time: the claim needs no more of them. *)
Definition node_random : @Randomness node_net := @Build_Randomness node_net (λ n w, (w, replicate n 7)).

#[local] Existing Instances ascii_unicode ascii_unicode_laws blob_web no_fractions trusting_tools hello_cipher node_net node_laws node_signer node_random.

Lemma node_random_laws : RandomLaws.
Proof.
  split. intros n w w' b [= _ <-]. split; [apply length_replicate|]. apply Forall_replicate. red. lia.
Qed.
#[local] Existing Instance node_random_laws.

Definition example_file : ResolvedHybridEvent :=
  mkResolved example_event example_blob_url (lit "text/plain") example_hash 5 None [] None (lit "hello.txt").
Definition example_audit : StorageAudit :=
  mkAudit (lit "https://example.com/") example_hash 5 (toHex example_nonce) example_hash 1700000000.

Lemma audit_verified_witness : ∃ s',
  auditStoredBlob example_file (lit "https://example.com") example_key (mkServiceOptions direct None) (mkState (0 : @World node_net) []) = (s', inr example_audit) ∧
  sa_nonce example_audit = toHex example_nonce.
Proof.
  set (run := auditStoredBlob example_file (lit "https://example.com") example_key (mkServiceOptions direct None) (mkState (0 : @World node_net) [])).
  assert (snd run = inr example_audit) as Hv by (vm_compute; reflexivity).
  destruct run as [s' r] eqn:Hr. cbn [snd] in Hv. subst r run. exists s'. split; [reflexivity|].
  destruct (proj1 (audit_verified _ _ _ _ _ _ _ Hr) _ eq_refl) as (? & ? & ? & ? & ? & ? & ? & ? & ? & _ & _ & _ & _ & Hn & _). exact Hn.
Defined.
