(* ===== verification/Relay.v ===== *)
(** * Relays ([core/relay.ts])

    A relay is a socket that events happen to: it opens, gives messages, fails,
    closes, or is timed out or called off. A publication and a lookup are state
    machines over those events; several lookups race. *)

From S2P Require Import Prelude JsString Utf8 Bytes Json JsValue Security Nostr.

Definition RELAY_TIMEOUT_MS : Z := 10000.

(** ** Sockets *)

Inductive ready : Type := CONNECTING | OPEN | CLOSING | CLOSED.
#[global] Instance ready_eq_dec : EqDecision ready.
Proof. solve_decision. Defined.

(** A message is a text, or [None] for anything else. *)
Inductive socket_event : Type :=
  | SocketOpens | SocketMessage (data : option jstr) | SocketFails | SocketCloses | TimeRunsOut | SignalAborts.

(** When the platform gives an event: a socket opens once, gives messages while
    it is open, and ends once. *)
Definition socket_gives (e : socket_event) (r : ready) : bool :=
  match e, r with
  | SocketOpens, CONNECTING | SocketMessage _, OPEN | (TimeRunsOut | SignalAborts), _ => true
  | (SocketOpens | SocketMessage _), _ | (SocketFails | SocketCloses), CLOSED => false
  | (SocketFails | SocketCloses), _ => true
  end.

(** What the events do to the socket itself; its close follows a failure. *)
Definition socket_moves (e : socket_event) (r : ready) : ready :=
  match e with SocketOpens => OPEN | SocketFails => CLOSING | SocketCloses => CLOSED | _ => r end.

(** [closeSocket(socket)]. *)
Definition closeSocket (r : ready) : ready := match r with CONNECTING | OPEN => CLOSING | r => r end.

Section Relays.
Context `{Unicode} `{Web} `{Numbers} `{NostrTools}.

(** ** Messages *)

Definition parseRelayMessage (data : option jstr) : option (list json) :=
  match data with
  | None => None
  | Some text =>
      if (MAX_RELAY_MESSAGE_BYTES <? zlen text) || (MAX_RELAY_MESSAGE_BYTES <? zlen (utf8_encode text)) then None
      else parse text ≫= array_of
  end.

(** [message[i] === s]. *)
Definition item_is (message : list json) (i : nat) (s : jstr) : bool :=
  match nth_error message i with Some (JStr t) => eqb t s | _ => false end.

(** ** Publishing *)

Record RelayResult := mkResult { rr_relay : jstr; rr_ok : bool; rr_message : jstr }.

Record Publication := mkPublishing { pb_relay : jstr; pb_event : SignedNostrEvent; pb_ready : ready; pb_sent : list jstr; pb_result : option RelayResult }.

Definition publish_finish (ok : bool) (message : jstr) (p : Publication) : Publication :=
  match pb_result p with
  | Some _ => p
  | None => mkPublishing (pb_relay p) (pb_event p) (closeSocket (pb_ready p)) (pb_sent p) (Some (mkResult (pb_relay p) ok (safeDiagnostic message)))
  end.

Definition event_message (event : SignedNostrEvent) : jstr := stringify (JArr [JStr (lit "EVENT"); raw event]).

(** [message[0] === "OK"] for this event, with what the relay says. *)
Definition acknowledgement (event : SignedNostrEvent) (data : option jstr) : option (bool * jstr) :=
  message ← parseRelayMessage data;
  if item_is message 0 (lit "OK") && item_is message 1 (id event) then
    match nth_error message 2 with
    | Some (JBool ok) =>
        Some (ok, match nth_error message 3 with
                  | None | Some JNull => lit (if ok then "accepted" else "rejected")
                  | Some v => to_string v
                  end)
    | _ => None
    end
  else None.

Definition publish_step (p : Publication) (e : socket_event) : Publication :=
  if negb (socket_gives e (pb_ready p)) then p else
  let p := mkPublishing (pb_relay p) (pb_event p) (socket_moves e (pb_ready p)) (pb_sent p) (pb_result p) in
  match e with
  | SocketOpens =>
      match pb_result p with
      | None => mkPublishing (pb_relay p) (pb_event p) (pb_ready p) (pb_sent p ++ [event_message (pb_event p)]) None
      | Some _ => p
      end
  | SocketMessage data =>
      match acknowledgement (pb_event p) data with Some (ok, message) => publish_finish ok message p | None => p end
  | SocketFails => publish_finish false (lit "Relay connection failed.") p
  | SocketCloses => publish_finish false (lit "Relay closed before acknowledging the event.") p
  | TimeRunsOut => publish_finish false (lit "Timed out waiting for relay acknowledgement.") p
  | SignalAborts => publish_finish false (lit "Relay publication cancelled. An event already sent cannot be retracted.") p
  end.

(** The publication as it starts, or its refusal. *)
Definition publishToRelay (relayInput : jstr) (event : json) (profile : NetworkProfile) (aborted : bool) : res Publication :=
  let! relay := normaliseRelayUrl relayInput profile in
  match verified event with
  | None => Throw "Refusing to publish an invalid Nostr event."
  | Some event =>
      if aborted then Ok (mkPublishing relay event CLOSED [] (Some (mkResult relay false (lit "Relay publication cancelled before connection."))))
      else Ok (mkPublishing relay event CONNECTING [] None)
  end.

Definition relay_targets (relays : list jstr) (profile : NetworkProfile) : res (list jstr) :=
  check negb (zlen relays =? 0) else "Provide at least one relay.";
  check zlen relays <=? MAX_NETWORK_ENDPOINTS else "At most 8 relays may be used at once.";
  let! targets := rmap (λ relay, normaliseRelayUrl relay profile) relays in
  Ok (uniq targets).

(** One publication for each relay, and what each comes to after its events. *)
Definition publishToRelays (relays : list jstr) (event : json) (profile : NetworkProfile) (aborted : bool) : res (list Publication) :=
  let! targets := relay_targets relays profile in
  rmap (λ relay, publishToRelay relay event profile aborted) targets.

(** ** Looking an event up *)

(** How a lookup ends. *)
Inductive found : Type := Resolved (event : ResolvedHybridEvent) | Rejected (message : jstr).

(** [lk_subscription] is the random name of the lookup. *)
Record Lookup := mkLookup { lk_relay : jstr; lk_subscription : jstr; lk_ready : ready; lk_sent : list jstr; lk_result : option found }.

Section Lookups.
Context (exactEventId : jstr) (profile : NetworkProfile).

Definition request_message (subscription : jstr) : jstr := stringify (JArr [JStr (lit "REQ"); JStr subscription;
  JObj [(lit "ids", JArr [JStr exactEventId]); (lit "kinds", JArr [JNum (Int 1063)]); (lit "limit", JNum (Int 1))]]).
Definition close_message (subscription : jstr) : jstr := stringify (JArr [JStr (lit "CLOSE"); JStr subscription]).

Definition lookup_finish (result : found) (l : Lookup) : Lookup :=
  match lk_result l with
  | Some _ => l
  | None => mkLookup (lk_relay l) (lk_subscription l) (closeSocket (lk_ready l)) (match lk_ready l with OPEN => lk_sent l ++ [close_message (lk_subscription l)] | _ => lk_sent l end) (Some result)
  end.

(** What a message says: the event that was asked for, or that there is none. *)
Definition looked_up (subscription : jstr) (data : option jstr) : option (found + unit) :=
  message ← parseRelayMessage data;
  if item_is message 1 subscription then
    if item_is message 0 (lit "EVENT") then
      match nth_error message 2 with
      | Some (JObj ms) =>
          if (match get_member (lit "id") ms with Some (JStr i) => eqb i exactEventId | _ => false end) then
            Some (inl (match resolveHybridEvent (JObj ms) profile with Ok r => Resolved r | Throw msg => Rejected (lit msg) end))
          else None
      | _ => None
      end
    else if item_is message 0 (lit "EOSE") then Some (inr tt) else None
  else None.

Definition rejection (l : Lookup) (what : string) : found := Rejected (lk_relay l ++ lit what).

Definition lookup_step (l : Lookup) (e : socket_event) : Lookup :=
  if negb (socket_gives e (lk_ready l)) then l else
  let l := mkLookup (lk_relay l) (lk_subscription l) (socket_moves e (lk_ready l)) (lk_sent l) (lk_result l) in
  match e with
  | SocketOpens =>
      match lk_result l with
      | None => mkLookup (lk_relay l) (lk_subscription l) (lk_ready l) (lk_sent l ++ [request_message (lk_subscription l)]) None
      | Some _ => l
      end
  | SocketMessage data =>
      match looked_up (lk_subscription l) data with
      | Some (inl result) => lookup_finish result l
      | Some (inr _) => lookup_finish (rejection l ": event not found.") l
      | None => l
      end
  | SocketFails => lookup_finish (rejection l ": connection failed.") l
  | SocketCloses => lookup_finish (rejection l ": connection closed.") l
  | TimeRunsOut => lookup_finish (rejection l ": lookup timed out.") l
  | SignalAborts => lookup_finish (rejection l ": lookup cancelled.") l
  end.

(** The lookup as it starts. *)
Definition fetchFromRelay (relay subscription : jstr) (aborted : bool) : Lookup :=
  if aborted then mkLookup relay subscription CLOSED [] (Some (Rejected (relay ++ lit ": lookup cancelled before connection.")))
  else mkLookup relay subscription CONNECTING [] None.

(** ** [Promise.any] over the relays *)

Record Race := mkRace { rc_lookups : list Lookup; rc_winner : option ResolvedHybridEvent }.

Definition resolved_of (l : Lookup) : option ResolvedHybridEvent :=
  match lk_result l with Some (Resolved r) => Some r | _ => None end.

(** The first to resolve calls the others off. *)
Definition race_step (race : Race) (step : nat * socket_event) : Race :=
  let '(i, e) := step in
  let lookups := alter (λ l, lookup_step l e) i (rc_lookups race) in
  match rc_winner race with
  | Some _ => mkRace lookups (rc_winner race)
  | None =>
      match lookups !! i ≫= resolved_of with
      | Some r => mkRace (map (λ l, lookup_step l SignalAborts) lookups) (Some r)
      | None => mkRace lookups None
      end
  end.

(** What the race has come to: a file event, every relay's reason, or nothing yet. *)
Definition race_result (race : Race) : option (ResolvedHybridEvent + jstr) :=
  match rc_winner race with
  | Some r => Some (inl r)
  | None =>
      match mapM (λ l, match lk_result l with Some (Rejected m) => Some (safeDiagnostic m) | _ => None end) (rc_lookups race) with
      | Some reasons => Some (inr (join [10] reasons))
      | None => None
      end
  end.
End Lookups.

(** The race as it starts; [names] are its random subscriptions. *)
Definition resolveFromRelays (relays : list jstr) (eventId : jstr) (profile : NetworkProfile) (names : list jstr) (aborted : bool)
    : res (jstr * Race) :=
  check negb (zlen relays =? 0) else "Provide at least one relay.";
  check zlen relays <=? MAX_NETWORK_ENDPOINTS else "At most 8 relays may be used at once.";
  let! exactEventId := assertHex64 eventId "Event ID" in
  let! targets := rmap (λ relay, normaliseRelayUrl relay profile) relays in
  Ok (exactEventId, mkRace (zip_with (λ relay name, fetchFromRelay relay name aborted) (uniq targets) names) None).
End Relays.
