(* ===== verification/RelayFacts.v ===== *)
(** * What relays can and cannot do

    Whatever relays send, in whatever order, a lookup gives only the event that
    was asked for, and no socket is left behind. *)

From S2P Require Import Prelude JsString Utf8 Bytes Json JsValue Security Nostr NostrFacts Relay.

Section Facts.
Context `{Unicode} `{Web} `{Numbers} `{NostrTools}.

#[local] Arguments request_message : simpl never.
#[local] Arguments close_message : simpl never.
#[local] Arguments event_message : simpl never.
#[local] Arguments lit : simpl never.

Definition gone (r : ready) : Prop := r = CLOSING ∨ r = CLOSED.

Lemma close_gone r : gone (closeSocket r).
Proof. destruct r; unfold gone; auto. Qed.

Lemma moves_gone e r : socket_gives e r = true → gone r → gone (socket_moves e r).
Proof. destruct e, r; unfold gone; cbn; intros; naive_solver. Qed.

(** ** Lookups *)

Section Lookups.
Context (exactEventId : jstr) (profile : NetworkProfile).

(** A value that resolves, and is the one that was asked for. *)
Definition asked_for (r : ResolvedHybridEvent) : Prop :=
  ∃ ms, get_member (lit "id") ms = Some (JStr exactEventId) ∧ resolveHybridEvent (JObj ms) profile = Ok r.

Record lookup_ok (l : Lookup) : Prop := {
  lo_sent : match lk_result l with
            | None => (lk_ready l = CONNECTING ∧ lk_sent l = []) ∨
                      (lk_ready l = OPEN ∧ lk_sent l = [request_message exactEventId (lk_subscription l)])
            | Some _ => gone (lk_ready l) ∧
                        lk_sent l `prefix_of` [request_message exactEventId (lk_subscription l); close_message (lk_subscription l)]
            end;
  lo_resolved r : lk_result l = Some (Resolved r) → asked_for r;
}.

Lemma looked_up_asked subscription data r : looked_up exactEventId profile subscription data = Some (inl (Resolved r)) → asked_for r.
Proof.
  unfold looked_up. intros (message & _ & Hm)%bind_Some. destruct (item_is message 1 subscription); [|done].
  destruct (item_is message 0 (lit "EVENT")); [|by destruct (item_is message 0 (lit "EOSE"))].
  destruct (nth_error message 2) as [[| | | | |ms]|]; try done. destruct (get_member (lit "id") ms) as [[| | |i| |]|] eqn:Ei; try done.
  destruct (eqb i exactEventId) eqn:E; [|done]. apply eqb_eq in E as ->.
  destruct (resolveHybridEvent (JObj ms) profile) as [r'|msg] eqn:Er; [|done]. injection Hm as <-. by exists ms.
Qed.

Lemma fetch_ok relay name aborted : lookup_ok (fetchFromRelay relay name aborted).
Proof. unfold fetchFromRelay. destruct aborted; (split; cbn; [|done]); [split; [by right|apply prefix_nil]|by left]. Qed.

(** A result that is settled stays, with what was sent. *)
Lemma finish_ok result l r' : (∀ r, result = Resolved r → asked_for r) → lookup_ok l →
  gone r' ∨ r' = lk_ready l →
  lookup_ok (lookup_finish result (mkLookup (lk_relay l) (lk_subscription l) r' (lk_sent l) (lk_result l))).
Proof.
  intros Hr [Hs Hv] Hready. unfold lookup_finish. cbn. destruct (lk_result l) as [f|] eqn:E; cbn.
  - split; cbn; [|done]. destruct Hs as [Hg Hp]. split; [|done]. by destruct Hready as [?| ->].
  - split; cbn; [|intros r [= ->]; by apply Hr]. split; [apply close_gone|]. destruct Hs as [[Hc ->]|[Hc ->]].
    + destruct r'; try apply prefix_nil. exfalso. destruct Hready as [[?|?]|?]; congruence.
    + destruct r'; [|done|..]; by exists [close_message (lk_subscription l)].
Qed.

Lemma lookup_step_ok l e : lookup_ok l → lookup_ok (lookup_step exactEventId profile l e).
Proof.
  intros Hl. unfold lookup_step. destruct (socket_gives e (lk_ready l)) eqn:Eg; [|done]. cbn [negb]. cbv zeta.
  destruct e; cbn [socket_moves].
  - destruct (lk_ready l) eqn:Er; try discriminate Eg. destruct Hl as [Hs Hv]. cbn. destruct (lk_result l) as [f|] eqn:E.
    + destruct Hs as [[?|?] _]; congruence.
    + destruct Hs as [[_ Hs]|[? _]]; [|congruence]. split; cbn; [|done]. right. by rewrite Hs.
  - cbn. destruct (looked_up exactEventId profile (lk_subscription l) data) as [[result|[]]|] eqn:E.
    + apply finish_ok; [|done|by right]. intros r ->. by eapply looked_up_asked.
    + apply finish_ok; [done|done|by right].
    + destruct l as [? ? ? ? ?]. exact Hl.
  - apply finish_ok; [done|done|left; by left].
  - apply finish_ok; [done|done|left; by right].
  - apply finish_ok; [done|done|by right].
  - apply finish_ok; [done|done|by right].
Qed.

(** Calling off settles. *)
Lemma abort_settles l : is_Some (lk_result (lookup_step exactEventId profile l SignalAborts)).
Proof. unfold lookup_step, lookup_finish. cbn. destruct (lk_result l) eqn:E; cbn; rewrite ?E; by eexists. Qed.

(** ** The race *)

Record race_ok (race : Race) : Prop := {
  ra_lookups : Forall lookup_ok (rc_lookups race);
  ra_winner r : rc_winner race = Some r → asked_for r ∧ Forall (λ l, is_Some (lk_result l)) (rc_lookups race);
  ra_pending : rc_winner race = None → Forall (λ l, resolved_of l = None) (rc_lookups race);
}.

Lemma settled_stays l e : is_Some (lk_result l) → lk_result (lookup_step exactEventId profile l e) = lk_result l.
Proof.
  intros [f Hf]. unfold lookup_step, lookup_finish. destruct (socket_gives e (lk_ready l)); [|done]. cbn.
  destruct e; cbn; rewrite ?Hf; cbn; try done. destruct (looked_up _ _ _ _) as [[|[]]|]; cbn; by rewrite ?Hf.
Qed.

Lemma Forall_alter_keep {A} (P : A → Prop) f i (l : list A) : (∀ x, P x → P (f x)) → Forall P l → Forall P (alter f i l).
Proof. intros Hf Hl. apply Forall_alter; [done|]. intros x _. apply Hf. Qed.

Lemma race_step_ok race step : race_ok race → race_ok (race_step exactEventId profile race step).
Proof.
  intros [Hl Hw Hp]. destruct step as [i e]. unfold race_step.
  assert (Forall lookup_ok (alter (λ l, lookup_step exactEventId profile l e) i (rc_lookups race))) as Hl'
    by (apply Forall_alter_keep; [intros; by apply lookup_step_ok|done]).
  destruct (rc_winner race) as [r|] eqn:Ew.
  - destruct (Hw r eq_refl) as [Ha Hs]. split; cbn; [done| |done]. intros r' [= <-]. split; [done|].
    apply Forall_alter_keep; [|done]. intros l Hk. by rewrite settled_stays.
  - destruct (alter (λ l, lookup_step exactEventId profile l e) i (rc_lookups race) !! i ≫= resolved_of) as [r|] eqn:Er.
    + split; cbn [rc_lookups rc_winner]; [| |done].
      * apply Forall_fmap. eapply Forall_impl; [exact Hl'|]. intros l. apply lookup_step_ok.
      * intros r' [= <-]. split; [|apply Forall_fmap, Forall_true; intros l; apply abort_settles].
        apply bind_Some in Er as (l & Hi & Hr). eapply Forall_lookup in Hl'; [|exact Hi]. apply (lo_resolved _ Hl').
        unfold resolved_of in Hr. destruct (lk_result l) as [[?|?]|]; congruence.
    + split; cbn; [done|done|]. intros _. apply Forall_lookup. intros j l Hj. destruct (decide (j = i)) as [->|Hne].
      * by rewrite Hj in Er.
      * rewrite list_lookup_alter_ne in Hj by done. specialize (Hp eq_refl). by eapply Forall_lookup in Hp.
Qed.

Lemma race_run_ok race steps : race_ok race → race_ok (foldl (race_step exactEventId profile) race steps).
Proof. revert race. induction steps as [|s steps IH]; intros race Hr; [done|]. by apply IH, race_step_ok. Qed.
End Lookups.

Lemma resolve_starts relays eventId profile names aborted exact race :
  resolveFromRelays relays eventId profile names aborted = Ok (exact, race) →
  assertHex64 eventId "Event ID" = Ok exact ∧ race_ok exact profile race.
Proof.
  unfold resolveFromRelays. intros Hr. inv_ok. match goal with Hp : (_, _) = (_, _) |- _ => injection Hp as <- <- | _ => simplify_eq end.
  split; [done|]. split; cbn [rc_lookups rc_winner]; [|done|intros _]; apply Forall_lookup; intros i l Hil;
    apply lookup_zip_with_Some in Hil as (relay & name & -> & _ & _).
  - apply fetch_ok.
  - unfold fetchFromRelay. by destruct aborted.
Qed.

Lemma event_of_id ms e i : event_of (JObj ms) = Some e → get_member (lit "id") ms = Some (JStr i) → id e = i.
Proof.
  intros He Hi. cbn [event_of] in He. rewrite Hi in He.
  destruct (get_member (lit "kind") ms) as [[]|]; try discriminate He.
  destruct (get_member (lit "created_at") ms) as [[]|]; try discriminate He.
  destruct (get_member (lit "tags") ms) as [[]|]; try discriminate He.
  destruct (get_member (lit "content") ms) as [[]|]; try discriminate He.
  destruct (get_member (lit "pubkey") ms) as [[]|]; try discriminate He.
  destruct (get_member (lit "sig") ms) as [[]|]; try discriminate He.
  destruct (mapM array_of l) as [ls|]; [|discriminate He]. by injection He as <-.
Qed.

(** A resolved event is the verified one. *)
Lemma resolved_event v profile r : resolveHybridEvent v profile = Ok r → verified v = Some (rh_event r).
Proof.
  unfold resolveHybridEvent. intros Hr. destruct (verified v) as [e|]; [|discriminate Hr]. inv_ok.
  destruct (safe_integer _) as [size|]; [|discriminate Hr]. inv_ok.
  match type of Hr with (match ?a with _ => _ end) = _ => destruct a; match type of Hr with (match ?b with _ => _ end) = _ => destruct b end end; inv_ok; done.
Qed.

Lemma asked_id exact profile r : asked_for exact profile r → id (rh_event r) = exact.
Proof. intros (ms & Hi & Hr%resolved_event). destruct (verified_event _ _ Hr) as [He _]. by eapply event_of_id. Qed.

(** Once every lookup is settled the race is. *)
Lemma race_settles exact profile race : race_ok exact profile race → Forall (λ l, is_Some (lk_result l)) (rc_lookups race) →
  is_Some (race_result race).
Proof.
  intros [_ _ Hp] Hs. unfold race_result. destruct (rc_winner race); [by eexists|]. specialize (Hp eq_refl).
  destruct (mapM _ (rc_lookups race)) eqn:E; [by eexists|]. exfalso. apply mapM_None, Exists_exists in E as (l & Hl & E).
  rewrite Forall_forall in Hs, Hp. destruct (Hs l Hl) as [f Hf]. specialize (Hp l Hl). unfold resolved_of in Hp. rewrite Hf in E, Hp. by destruct f.
Qed.

(** C29: however many relays are asked, whatever they send and in whatever order
    events come, a lookup resolves only to an event with the very id that was
    asked for, which verifies and describes a file by the profile's rules; by
    then every socket is closing or closed; no relay was sent more than the one
    request and its close; and when every lookup has ended the race has. *)
Theorem lookup_race_sound relays eventId profile names aborted exact start steps :
  resolveFromRelays relays eventId profile names aborted = Ok (exact, start) →
  let race := foldl (race_step exact profile) start steps in
  (∀ r, race_result race = Some (inl r) →
     id (rh_event r) = exact ∧ assertHex64 eventId "Event ID" = Ok exact ∧
     (∃ ms, resolveHybridEvent (JObj ms) profile = Ok r) ∧ Forall (λ l, gone (lk_ready l)) (rc_lookups race)) ∧
  Forall (λ l, lk_sent l `prefix_of` [request_message exact (lk_subscription l); close_message (lk_subscription l)]) (rc_lookups race) ∧
  (Forall (λ l, is_Some (lk_result l)) (rc_lookups race) → is_Some (race_result race)).
Proof.
  intros [Hx Hr]%resolve_starts. apply (race_run_ok _ _ _ steps) in Hr. cbv zeta. set (race := foldl _ start steps) in *.
  split_and!; [|eapply Forall_impl; [apply Hr|]|by eapply race_settles].
  - intros r Hres. assert (rc_winner race = Some r) as Hw.
    { unfold race_result in Hres. destruct (rc_winner race); [congruence|]. by destruct (mapM _ _). }
    destruct (ra_winner _ _ _ Hr r Hw) as [Ha Hs]. split_and!; [by eapply asked_id|done|by destruct Ha as (ms & _ & ?); exists ms|].
    pose proof (ra_lookups _ _ _ Hr) as Hl. rewrite Forall_forall in *. intros l Hin. pose proof (lo_sent _ _ _ (Hl l Hin)) as Hg.
    destruct (Hs l Hin) as [f Hf]. rewrite Hf in Hg. apply Hg.
  - intros l [Hs _]. destruct (lk_result l); [apply Hs|]. destruct Hs as [[_ ->]|[_ ->]]; [apply prefix_nil|by exists [close_message (lk_subscription l)]].
Qed.

(** ** Publications *)

Record publication_ok (events : list socket_event) (p : Publication) : Prop := {
  po_sent : match pb_result p with
            | None => (pb_ready p = CONNECTING ∧ pb_sent p = []) ∨ (pb_ready p = OPEN ∧ pb_sent p = [event_message (pb_event p)])
            | Some _ => gone (pb_ready p) ∧ (pb_sent p = [] ∨ pb_sent p = [event_message (pb_event p)])
            end;
  po_result r : pb_result p = Some r → rr_relay r = pb_relay p ∧
    (rr_ok r = true → pb_sent p = [event_message (pb_event p)] ∧
       ∃ data message, SocketMessage data ∈ events ∧ acknowledgement (pb_event p) data = Some (true, message));
}.

Lemma publication_more events e p : publication_ok events p → publication_ok (events ++ [e]) p.
Proof.
  intros [Hs Hr]. split; [done|]. intros r Er. destruct (Hr r Er) as [? Hk]. split; [done|]. intros Hok.
  destruct (Hk Hok) as (? & data & m & ? & ?). split; [done|]. exists data, m. split; [|done]. apply elem_of_app. by left.
Qed.

Lemma publish_finish_ok events ok message p r' : publication_ok events p → gone r' ∨ r' = pb_ready p →
  (ok = true → pb_result p = None → pb_sent p = [event_message (pb_event p)] ∧
     ∃ data message, SocketMessage data ∈ events ∧ acknowledgement (pb_event p) data = Some (true, message)) →
  publication_ok events (publish_finish ok message (mkPublishing (pb_relay p) (pb_event p) r' (pb_sent p) (pb_result p))).
Proof.
  intros [Hs Hr] Hready Hok. unfold publish_finish. cbn. destruct (pb_result p) as [x|] eqn:E; cbn.
  - split; cbn; [|done]. destruct Hs as [Hg Hp]. split; [|done]. by destruct Hready as [?| ->].
  - split; cbn; [split; [apply close_gone|]; destruct Hs as [[_ ->]|[_ ->]]; auto|]. intros r [= <-]. cbn. split; [done|]. intros Ht. by apply Hok.
Qed.

Lemma publish_step_ok events p e : publication_ok events p → publication_ok (events ++ [e]) (publish_step p e).
Proof.
  intros Hp%(publication_more _ e). unfold publish_step. destruct (socket_gives e (pb_ready p)) eqn:Eg; [|done]. cbn [negb]. cbv zeta.
  destruct e; cbn [socket_moves].
  - destruct (pb_ready p) eqn:Er; try discriminate Eg. destruct Hp as [Hs Hv]. cbn. destruct (pb_result p) as [f|] eqn:E.
    + destruct Hs as [[?|?] _]; congruence.
    + destruct Hs as [[_ Hs]|[? _]]; [|congruence]. split; cbn; [|done]. right. by rewrite Hs.
  - cbn. destruct (acknowledgement (pb_event p) data) as [[ok message]|] eqn:Ea; [|by destruct p].
    apply publish_finish_ok; [done|by right|]. intros -> Hn. destruct (pb_ready p) eqn:Er; try discriminate Eg.
    pose proof (po_sent _ _ Hp) as Hs. rewrite Hn in Hs. destruct Hs as [[? _]|[_ Hs]]; [congruence|]. split; [done|].
    exists data, message. split; [|done]. apply elem_of_app. right. by left.
  - apply publish_finish_ok; [done|left; by left|done].
  - apply publish_finish_ok; [done|left; by right|done].
  - apply publish_finish_ok; [done|by right|done].
  - apply publish_finish_ok; [done|by right|done].
Qed.

Lemma publish_run_ok seen events p : publication_ok seen p → publication_ok (seen ++ events) (foldl publish_step p events).
Proof.
  revert seen p. induction events as [|e events IH]; intros seen p Hp; [by rewrite app_nil_r|]. cbn [foldl].
  replace (seen ++ e :: events) with ((seen ++ [e]) ++ events) by (by rewrite <- app_assoc). by apply IH, publish_step_ok.
Qed.

Lemma publish_keeps p e : pb_event (publish_step p e) = pb_event p ∧ pb_relay (publish_step p e) = pb_relay p.
Proof.
  unfold publish_step, publish_finish. destruct (socket_gives e (pb_ready p)); [|done]. cbn [negb pb_event pb_relay pb_ready pb_sent pb_result].
  destruct e; repeat case_match; done.
Qed.

Lemma publish_result_stays p e r : pb_result p = Some r → pb_result (publish_step p e) = Some r.
Proof.
  intros Hr. unfold publish_step, publish_finish. destruct (socket_gives e (pb_ready p)); [|done]. cbn [negb pb_event pb_relay pb_ready pb_sent pb_result].
  rewrite Hr. destruct e; cbn; try done. by destruct (acknowledgement _ _) as [[]|].
Qed.

(** Whatever a relay does, a publication sends it the one verified event at
    most once; its result, once there, closes the socket, stays what it is, and
    says the event was accepted only when the event was sent and the relay
    answered with its acknowledgement of that very event. *)
Theorem publication_acknowledged relayInput event profile aborted start events later :
  publishToRelay relayInput event profile aborted = Ok start →
  let p := foldl publish_step start events in
  verified event = Some (pb_event p) ∧ (pb_sent p = [] ∨ pb_sent p = [event_message (pb_event p)]) ∧
  (∀ r, pb_result p = Some r → gone (pb_ready p) ∧ normaliseRelayUrl relayInput profile = Ok (rr_relay r) ∧
     (rr_ok r = true → pb_sent p = [event_message (pb_event p)] ∧
        ∃ data message, SocketMessage data ∈ events ∧ acknowledgement (pb_event p) data = Some (true, message)) ∧
     pb_result (foldl publish_step p later) = Some r).
Proof.
  intros Hp. cbv zeta. assert (publication_ok [] start ∧ verified event = Some (pb_event start) ∧ normaliseRelayUrl relayInput profile = Ok (pb_relay start)) as (Hok & Hv & Hn).
  { unfold publishToRelay in Hp. inv_ok. destruct (verified event) as [e|] eqn:Ev; [|discriminate Hp].
    destruct aborted; inv_ok; (split_and!; [|done|done]); (split; cbn; [|done || (by intros r [= <-])]); [split; [by right|by left]|by left]. }
  apply (publish_run_ok [] events) in Hok. cbn [app] in Hok.
  assert (pb_event (foldl publish_step start events) = pb_event start ∧ pb_relay (foldl publish_step start events) = pb_relay start) as [He Hrel].
  { clear. revert start. induction events as [|e events IH]; intros start; [done|]. cbn [foldl]. destruct (IH (publish_step start e)) as [-> ->]. apply publish_keeps. }
  set (p := foldl publish_step start events) in *. rewrite He in *. split_and!; [exact Hv| |].
  - pose proof (po_sent _ _ Hok) as Hs. rewrite He in Hs. destruct (pb_result p); [apply Hs|]. destruct Hs as [[_ ?]|[_ ?]]; auto.
  - intros r Hr. pose proof (po_sent _ _ Hok) as Hs. rewrite Hr in Hs. destruct (po_result _ _ Hok r Hr) as [Hrr Hack]. rewrite He in Hack.
    split_and!; [apply Hs|by rewrite Hrr, Hrel|done|]. clear -Hr. revert Hr. generalize p. induction later as [|e later IH]; intros q Hq; [done|].
    cbn [foldl]. apply IH. by apply publish_result_stays.
Qed.
End Facts.

(** ** An example *)

(** The platform of the file examples, with two relays. *)
Definition relay_web : Web := {|
  newURL s :=
    if eqb s (lit "wss://one.example/") || eqb s (lit "wss://two.example/") then
      Some (mkURL (lit "wss:") (lit "one.example") [] [] (lit "/") [] [] s s [])
    else @newURL blob_web s;
  searchParams _ := [];
  sha3_256 _ := [];
|}.

#[local] Existing Instances ascii_unicode relay_web no_fractions trusting_tools.

Definition relays_asked : list jstr := [lit "wss://one.example/"; lit "wss://two.example/"].

(** The members of a signed file event with a given id. *)
Definition relayed_event (i : jstr) : json :=
  match signed_value example_template example_key with JObj (_ :: ms) => JObj ((lit "id", JStr i) :: ms) | v => v end.

Definition relay_says (name : string) (v : json) : socket_event :=
  SocketMessage (Some (stringify (JArr [JStr (lit "EVENT"); JStr (lit name); v]))).

(** The first relay sends another event, then the second the right one. *)
Definition race_steps : list (nat * socket_event) :=
  [(0%nat, SocketOpens); (1%nat, SocketOpens); (0%nat, relay_says "s1" (relayed_event (replicate 64 48)));
   (1%nat, relay_says "s2" (relayed_event example_hash))].

Lemma lookup_race_sound_witness : ∃ start r,
  resolveFromRelays relays_asked example_hash direct [lit "s1"; lit "s2"] false = Ok (example_hash, start) ∧
  race_result (foldl (race_step example_hash direct) start race_steps) = Some (inl r) ∧ id (rh_event r) = example_hash.
Proof.
  destruct (resolveFromRelays relays_asked example_hash direct [lit "s1"; lit "s2"] false) as [[exact start]|] eqn:Hr; [|vm_compute in Hr; discriminate Hr].
  assert (exact = example_hash) as ->.
  { assert (match resolveFromRelays relays_asked example_hash direct [lit "s1"; lit "s2"] false with Ok p => fst p | Throw _ => [] end = example_hash) as He
      by (vm_compute; reflexivity). by rewrite Hr in He. }
  assert (match resolveFromRelays relays_asked example_hash direct [lit "s1"; lit "s2"] false with
          | Ok p => match race_result (foldl (race_step example_hash direct) (snd p) race_steps) with Some (inl r) => rh_size r | _ => 0 end
          | Throw _ => 0 end = 5) as Hs by (vm_compute; reflexivity).
  rewrite Hr in Hs. cbn [snd] in Hs. destruct (race_result (foldl (race_step example_hash direct) start race_steps)) as [[r|]|] eqn:Ef; try discriminate Hs.
  exists start, r. split_and!; [done..|]. exact (proj1 (proj1 (lookup_race_sound _ _ _ _ _ _ _ race_steps Hr) _ Ef)).
Defined.

Definition acknowledged_event : list socket_event :=
  [SocketOpens; SocketMessage (Some (lit "[1]")); SocketMessage (Some (stringify (JArr [JStr (lit "OK"); JStr example_hash; JBool true; JStr []]))); SocketCloses].

Lemma publication_acknowledged_witness : ∃ start r,
  publishToRelay (lit "wss://one.example/") (relayed_event example_hash) direct false = Ok start ∧
  pb_result (foldl publish_step start acknowledged_event) = Some r ∧ rr_ok r = true ∧ gone (pb_ready (foldl publish_step start acknowledged_event)).
Proof.
  destruct (publishToRelay (lit "wss://one.example/") (relayed_event example_hash) direct false) as [start|] eqn:Hp; [|vm_compute in Hp; discriminate Hp].
  assert (match publishToRelay (lit "wss://one.example/") (relayed_event example_hash) direct false with
          | Ok p => rr_ok <$> pb_result (foldl publish_step p acknowledged_event) | Throw _ => None end = Some true) as Hs by (vm_compute; reflexivity).
  rewrite Hp in Hs. destruct (pb_result (foldl publish_step start acknowledged_event)) as [r|] eqn:Er; [|discriminate Hs].
  exists start, r. split_and!; [done..|by injection Hs|].
  exact (proj1 (proj2 (proj2 (publication_acknowledged _ _ _ _ _ acknowledged_event [] Hp)) _ Er)).
Defined.
