(* ===== verification/Discovery.v ===== *)
(** * Node discovery ([core/discovery.ts])

    Signed server lists of trusted keys, asked of several relays, and the nodes
    they recommend. A query is a bounded state machine over what happens to its
    socket; the storage directory uses the same one. *)

From S2P Require Import Prelude JsString Utf8 Bytes Json JsValue Security Nostr Relay.

(** ** Queries *)

(** What a query makes of the event a relay gives. *)
Inductive taken (E : Type) : Type := Take (e : E) | Skip | TooMany (message : string).
Arguments Take {E} e.
Arguments Skip {E}.
Arguments TooMany {E} message%_string.

(** What sets a query apart: its request, its bounds and what it says. *)
Record QuerySpec (E : Type) := mkSpec {
  qs_subscription : jstr; qs_filter : json; qs_maxMessages : Z; qs_maxBytes : Z; qs_take : json → list E → taken E;
  qs_closed : option string; qs_cancelled : string; qs_timedOut : string; qs_exceeded : string; qs_failed : string; qs_gone : string }.
Arguments mkSpec {E}.
Arguments qs_subscription {E}. Arguments qs_filter {E}. Arguments qs_maxMessages {E}. Arguments qs_maxBytes {E}. Arguments qs_take {E}.
Arguments qs_closed {E}. Arguments qs_cancelled {E}. Arguments qs_timedOut {E}. Arguments qs_exceeded {E}. Arguments qs_failed {E}.
Arguments qs_gone {E}.

(** How a query ends: with its events, or rejected. *)
Inductive answered (E : Type) : Type := Fulfilled (events : list E) | Refusal (message : string).
Arguments Fulfilled {E} events.
Arguments Refusal {E} message%_string.

Record Query (E : Type) := mkQuery { qu_ready : ready; qu_messages : Z; qu_events : list E; qu_sent : list jstr; qu_result : option (answered E) }.
Arguments mkQuery {E}.
Arguments qu_ready {E}. Arguments qu_messages {E}. Arguments qu_events {E}. Arguments qu_sent {E}. Arguments qu_result {E}.

Section Queries.
Context `{Numbers} {E : Type} (spec : QuerySpec E).

Definition query_start : Query E := mkQuery CONNECTING 0 [] [] None.

Definition query_request : jstr := stringify (JArr [JStr (lit "REQ"); JStr (qs_subscription spec); qs_filter spec]).
Definition query_close : jstr := stringify (JArr [JStr (lit "CLOSE"); JStr (qs_subscription spec)]).

(** [finish(error)]. *)
Definition query_finish (error : option string) (q : Query E) : Query E :=
  match qu_result q with
  | Some _ => q
  | None =>
      mkQuery (closeSocket (qu_ready q)) (qu_messages q) (qu_events q)
        (match qu_ready q with OPEN => qu_sent q ++ [query_close] | _ => qu_sent q end)
        (Some (match error with None => Fulfilled (qu_events q) | Some e => Refusal e end))
  end.

Definition query_message (data : option jstr) (q : Query E) : Query E :=
  let q := mkQuery (qu_ready q) (qu_messages q + 1) (qu_events q) (qu_sent q) (qu_result q) in
  match data with
  | None => query_finish (Some (qs_exceeded spec)) q
  | Some text =>
      if (qs_maxMessages spec <? qu_messages q) || (qs_maxBytes spec <? zlen (utf8_encode text)) then query_finish (Some (qs_exceeded spec)) q
      else match parse text with
      | Some (JArr message) =>
          if negb (item_is message 1 (qs_subscription spec)) then q
          else if item_is message 0 (lit "EOSE") then query_finish None q
          else if item_is message 0 (lit "CLOSED") then
            match qs_closed spec with Some e => query_finish (Some e) q | None => q end
          else if item_is message 0 (lit "EVENT") then
            match qs_take spec (default JNull (nth_error message 2)) (qu_events q) with
            | Take e => mkQuery (qu_ready q) (qu_messages q) (qu_events q ++ [e]) (qu_sent q) (qu_result q)
            | Skip => q
            | TooMany e => query_finish (Some e) q
            end
          else q
      | _ => q
      end
  end.

Definition query_step (q : Query E) (e : socket_event) : Query E :=
  if negb (socket_gives e (qu_ready q)) then q else
  let q := mkQuery (socket_moves e (qu_ready q)) (qu_messages q) (qu_events q) (qu_sent q) (qu_result q) in
  match qu_result q with
  | Some _ => q
  | None =>
      match e with
      | SocketOpens => mkQuery (qu_ready q) (qu_messages q) (qu_events q) (qu_sent q ++ [query_request]) None
      | SocketMessage data => query_message data q
      | SocketFails => query_finish (Some (qs_failed spec)) q
      | SocketCloses => query_finish (Some (qs_gone spec)) q
      | TimeRunsOut => query_finish (Some (qs_timedOut spec)) q
      | SignalAborts => query_finish (Some (qs_cancelled spec)) q
      end
  end.

Definition query_run (events : list socket_event) : Query E := foldl query_step query_start events.
End Queries.

(** ** Server lists *)

Record DiscoveredNode := mkNode { dn_origin : jstr; dn_recommendedBy : list jstr; dn_updatedAt : Z }.

(** A signed list with the integer time it was made. *)
Record ListEvent := mkList { le_event : SignedNostrEvent; le_created : Z }.

(** [a < b] on strings. *)
Definition before (a b : jstr) : bool := jstr_leb a b && negb (eqb a b).

(** The tag [["server", origin]]; a second item that is no string cannot be read. *)
Definition server_tag (tag : list json) : bool := match tag with JStr t :: _ => eqb t (lit "server") | _ => false end.

Section Discovery.
Context `{Unicode} `{Web} `{Numbers} `{NostrTools}.

(** The origins that the profile may contact. *)
Fixpoint usable_origins (tags : list (list json)) (profile : NetworkProfile) : list jstr :=
  match tags with
  | [] => []
  | tag :: tags =>
      match tag with
      | [_; JStr origin] =>
          match normaliseBlossomServer origin profile with
          | Ok server => (server ++ [47]) :: usable_origins tags profile
          | Throw _ => usable_origins tags profile
          end
      | _ => usable_origins tags profile
      end
  end.

Definition serverList (template : json) (trusted : list jstr) (profile : NetworkProfile) (now : Z) : res (ListEvent * list jstr) :=
  match verified template with
  | None => Throw "Invalid, stale or untrusted server list."
  | Some event =>
      check (zlen (stringify template) <=? 16384) && is_number (kind event) 10063 && existsb (eqb (pubkey event)) trusted && eqb (content event) []
        else "Invalid, stale or untrusted server list.";
      match safe_integer (Some (created_at event)) with
      | None => Throw "Invalid, stale or untrusted server list."
      | Some created =>
          check (created <=? now + 30) && (now - 30 * 86400 <=? created) && (zlen (tags event) <=? 64)
            else "Invalid, stale or untrusted server list.";
          let tags := List.filter server_tag (tags event) in
          check in_range 1 16 (zlen tags) && forallb (λ t, zlen t =? 2) tags else "Invalid server list entries.";
          Ok (mkList event created, uniq (usable_origins tags profile))
      end
  end.

Definition buildServerList (origins : list jstr) (profile : NetworkProfile) (now : Z) : res EventTemplate :=
  check in_range 1 16 (zlen origins) else "Choose 1–16 servers for the public list.";
  let! servers := rmap (λ u, let! server := normaliseBlossomServer u profile in Ok (server ++ [47])) origins in
  Ok (mkTemplate 10063 now (map (λ u, [lit "server"; u]) (uniq servers)) []).

(** ** Asking one relay *)

Definition discovery_spec (subscription : jstr) (authors : list jstr) (profile : NetworkProfile) (now : Z) : QuerySpec ListEvent :=
  mkSpec subscription
    (JObj [(lit "kinds", JArr [JNum (Int 10063)]); (lit "authors", JArr (map JStr authors)); (lit "since", JNum (Int (now - 30 * 86400)));
           (lit "limit", JNum (Int (zlen authors)))])
    256 32768
    (λ template _, match serverList template authors profile now with Ok (event, _) => Take event | Throw _ => Skip end)
    None "Node discovery cancelled." "Node discovery timed out." "Node discovery response exceeded its limit."
    "Node discovery relay failed." "Node discovery relay closed.".

(** ** All together *)

(** The newer of two lists of one key; of one age, the one with the smaller id. *)
Definition newer (event previous : ListEvent) : bool :=
  (le_created previous <? le_created event)
  || ((le_created event =? le_created previous) && before (id (le_event event)) (id (le_event previous))).

Definition take_latest (latest : gmap jstr ListEvent) (event : ListEvent) : gmap jstr ListEvent :=
  match latest !! pubkey (le_event event) with
  | Some previous => if newer event previous then <[pubkey (le_event event) := event]> latest else latest
  | None => <[pubkey (le_event event) := event]> latest
  end.

(** A [Map] of nodes, in insertion order. *)
Fixpoint recommend (author origin : jstr) (created : Z) (nodes : list DiscoveredNode) : list DiscoveredNode :=
  match nodes with
  | [] => [mkNode origin [author] created]
  | n :: nodes =>
      if eqb (dn_origin n) origin
      then mkNode origin (dn_recommendedBy n ++ [author]) (Z.max (dn_updatedAt n) created) :: nodes
      else n :: recommend author origin created nodes
  end.

(** The nodes of one author's newest list. *)
Definition add_author (latest : gmap jstr ListEvent) (authors : list jstr) (profile : NetworkProfile) (now : Z) (nodes : list DiscoveredNode)
    (author : jstr) : res (list DiscoveredNode) :=
  match latest !! author with
  | None => Ok nodes
  | Some event =>
      let! 'listed := serverList (raw (le_event event)) authors profile now in
      Ok (foldl (λ nodes origin, recommend author origin (le_created event) nodes) nodes listed.2)
  end.

Fixpoint add_authors (latest : gmap jstr ListEvent) (authors : list jstr) (profile : NetworkProfile) (now : Z) (nodes : list DiscoveredNode)
    (todo : list jstr) : res (list DiscoveredNode) :=
  match todo with
  | [] => Ok nodes
  | author :: todo =>
      let! nodes := add_author latest authors profile now nodes author in
      add_authors latest authors profile now nodes todo
  end.

Definition events_of {E} (results : list (answered E)) : list E :=
  flat_map (λ r, match r with Fulfilled events => events | Refusal _ => [] end) results.

Definition is_refusal {E} (r : answered E) : bool := match r with Refusal _ => true | _ => false end.

(** What the settled queries come to; [aborted] is the signal by then. *)
Definition combine (results : list (answered ListEvent)) (authors : list jstr) (profile : NetworkProfile) (now : Z) (aborted : bool)
    : res (list DiscoveredNode) :=
  check negb aborted else "AbortError";
  check negb (forallb is_refusal results) else "No relay completed node discovery.";
  add_authors (foldl take_latest ∅ (events_of results)) authors profile now [] authors.

(** The authors and the relays to ask. *)
Definition discovery_plan (relays trustedKeys : list jstr) (profile : NetworkProfile) : res (list jstr * list jstr) :=
  check in_range 1 MAX_NETWORK_ENDPOINTS (zlen relays) && in_range 1 16 (zlen trustedKeys) else "Provide bounded relay and trusted-key lists.";
  let! keys := rmap (λ k, assertHex64 k "Trusted public key") trustedKeys in
  let! targets := rmap (λ r, normaliseRelayUrl r profile) relays in
  Ok (uniq keys, uniq targets).

(** The queries: the [i]th target is asked under a random name at a time, and
    things happen to its socket. *)
Definition queries (targets authors : list jstr) (profile : NetworkProfile) (asked : nat → jstr * Z) (history : nat → list socket_event)
    : list (Query ListEvent) :=
  imap (λ i _, query_run (discovery_spec (asked i).1 authors profile (asked i).2) (history i)) targets.

(** [abortedBefore] and [abortedAfter] are the signal before and after the
    queries; [None] while one has not settled. *)
Definition discoverNodes (relays trustedKeys : list jstr) (profile : NetworkProfile) (asked : nat → jstr * Z)
    (history : nat → list socket_event) (now : Z) (abortedBefore abortedAfter : bool) : res (option (list DiscoveredNode)) :=
  let! 'plan := discovery_plan relays trustedKeys profile in
  check negb abortedBefore else "AbortError";
  match mapM qu_result (queries plan.2 plan.1 profile asked history) with
  | None => Ok None
  | Some results => let! nodes := combine results plan.1 profile now abortedAfter in Ok (Some nodes)
  end.
End Discovery.
