(* ===== verification/DiscoveryFacts.v ===== *)
(** * What node discovery finds

    The nodes found are those that the newest lists of the trusted keys name,
    whatever order relays answer in. *)

From S2P Require Import Prelude JsString Utf8 Bytes Json JsValue Security Nostr NostrFacts Relay RelayFacts Discovery.

Section Facts.
Context `{Unicode} `{Web} `{Numbers} `{NostrTools}.

(** Documented behaviour: the id of a verified event is the hash of its fields. *)
Class IdLaws : Prop := {
  id_commits v v' e e' : verified v = Some e → verified v' = Some e' → id e = id e' →
    kind e = kind e' ∧ created_at e = created_at e' ∧ tags e = tags e' ∧ content e = content e' ∧ pubkey e = pubkey e' }.
Context `{!IdLaws}.

(** ** Server lists *)

(** A list that was accepted once. *)
Definition accepted (authors : list jstr) (profile : NetworkProfile) (e : ListEvent) : Prop :=
  ∃ now origins, serverList (raw (le_event e)) authors profile now = Ok (e, origins).

Lemma serverList_inv v trusted profile now e origins : serverList v trusted profile now = Ok (e, origins) →
  verified v = Some (le_event e) ∧ safe_integer (Some (created_at (le_event e))) = Some (le_created e) ∧ zlen (stringify v) <= 16384 ∧
  now - 30 * 86400 <= le_created e <= now + 30 ∧ pubkey (le_event e) ∈ trusted.
Proof.
  unfold serverList. intros Hs. destruct (verified v) as [event|] eqn:Ev; [|discriminate Hs]. inv_ok.
  destruct (safe_integer (Some (created_at event))) as [created|] eqn:Ec; [|discriminate Hs]. inv_ok. simplify_eq. bool_prop. cbn.
  split_and!; try done. match goal with E : existsb _ _ = true |- _ => apply existsb_exists in E as (k & Hk & ->%eqb_eq) end. by apply list_elem_of_In.
Qed.

Lemma verified_raw v e : verified v = Some e → raw e = v.
Proof. intros [He _]%verified_event. apply event_of_members in He as (? & _ & ? & _). done. Qed.

Lemma serverList_accepted v trusted profile now e origins : serverList v trusted profile now = Ok (e, origins) → accepted trusted profile e.
Proof. intros Hs. pose proof (serverList_inv _ _ _ _ _ _ Hs) as (Hv & _). exists now, origins. by rewrite (verified_raw _ _ Hv). Qed.

(** Two accepted lists with one id name the same origins at any time. *)
Lemma same_id_same_origins authors profile now e e' : accepted authors profile e → accepted authors profile e' →
  id (le_event e) = id (le_event e') →
  (snd <$> (match serverList (raw (le_event e)) authors profile now with Ok p => Some p | Throw _ => None end)) =
  (snd <$> (match serverList (raw (le_event e')) authors profile now with Ok p => Some p | Throw _ => None end)).
Proof.
  intros (n1 & o1 & Ha) (n2 & o2 & Hb) Hid.
  apply serverList_inv in Ha as (Hv1 & Hc1 & Hz1 & _), Hb as (Hv2 & Hc2 & Hz2 & _).
  destruct (id_commits _ _ _ _ Hv1 Hv2 Hid) as (Hk & Hc & Ht & Hx & Hp).
  unfold serverList. rewrite Hv1, Hv2, Hk, Ht, Hx, Hp, Hc1, Hc2.
  assert (le_created e = le_created e') as -> by (rewrite Hc in Hc1; congruence).
  rewrite (proj2 (Z.leb_le _ _) Hz1), (proj2 (Z.leb_le _ _) Hz2).
  destruct (guard _ _) as [u|]; [|done]. cbn [rbind]. destruct (guard _ _) as [u'|]; [|done]. cbn [rbind].
  destruct (guard _ _) as [u''|]; done.
Qed.

(** ** Newest lists *)

Lemma jstr_leb_or a b : jstr_leb a b = true ∨ jstr_leb b a = true.
Proof. destruct (jstr_leb a b) eqn:E; [by left|right]. by apply jstr_leb_total. Qed.

Definition at_least (e e' : ListEvent) : Prop :=
  le_created e' < le_created e ∨ (le_created e = le_created e' ∧ jstr_leb (id (le_event e)) (id (le_event e')) = true).

Lemma newer_false e e' : newer e' e = false ↔ at_least e e'.
Proof.
  unfold newer, before, at_least. split.
  - intros Hn. apply orb_false_iff in Hn as [Hlt Hn]. bool_prop. destruct (decide (le_created e = le_created e')) as [Heq|]; [|left; lia].
    right. split; [done|]. apply andb_false_iff in Hn as [Hn|Hn]; [bool_prop; lia|]. apply andb_false_iff in Hn as [Hn|Hn].
    + destruct (jstr_leb_or (id (le_event e)) (id (le_event e'))); [done|congruence].
    + apply negb_false_iff, eqb_eq in Hn. rewrite Hn. by destruct (jstr_leb_or (id (le_event e)) (id (le_event e))).
  - intros [Hlt|[Heq Hle]].
    + apply orb_false_iff. split; [lia|]. apply andb_false_iff. left. lia.
    + apply orb_false_iff. split; [lia|]. apply andb_false_iff. right. apply andb_false_iff.
      destruct (jstr_leb (id (le_event e')) (id (le_event e))) eqn:E; [|by left]. right. apply negb_false_iff, eqb_eq. by apply jstr_leb_antisym.
Qed.

Lemma at_least_trans a b c : at_least a b → at_least b c → at_least a c.
Proof. unfold at_least. intros [?|[? ?]] [?|[? ?]]; [left; lia..|right; split; [lia|by eapply jstr_leb_trans]]. Qed.

Lemma at_least_refl a : at_least a a.
Proof. right. split; [done|]. by destruct (jstr_leb_or (id (le_event a)) (id (le_event a))). Qed.

(** The newest list of a key among those that were heard. *)
Definition newest (heard : list ListEvent) (e : ListEvent) : Prop :=
  e ∈ heard ∧ ∀ e', e' ∈ heard → pubkey (le_event e') = pubkey (le_event e) → at_least e e'.

Definition latest_of (heard : list ListEvent) (m : gmap jstr ListEvent) : Prop :=
  ∀ k, match m !! k with
       | Some e => pubkey (le_event e) = k ∧ newest heard e
       | None => ∀ e, e ∈ heard → pubkey (le_event e) ≠ k
       end.

Lemma take_latest_spec heard m e : latest_of heard m → latest_of (heard ++ [e]) (take_latest m e).
Proof.
  intros Hm. unfold take_latest. pose proof (Hm (pubkey (le_event e))) as He.
  assert (∀ k x, k ≠ pubkey (le_event e) → pubkey (le_event x) = k → newest heard x → newest (heard ++ [e]) x) as Hother.
  { intros k x Hk Hx [Hin Hn]. split; [apply elem_of_app; by left|]. intros e' [He'|He'%list_elem_of_singleton]%elem_of_app Hp; [by apply Hn|subst e'; congruence]. }
  assert (∀ x, pubkey (le_event x) = pubkey (le_event e) → newest heard x → at_least x e → newest (heard ++ [e]) x) as Hkeep.
  { intros x Hx [Hin Hn] Hle. split; [apply elem_of_app; by left|]. intros e' [He'|He'%list_elem_of_singleton]%elem_of_app Hp; [by apply Hn|by subst e']. }
  assert (∀ k, k ≠ pubkey (le_event e) → match m !! k with Some x => pubkey (le_event x) = k ∧ newest (heard ++ [e]) x
    | None => ∀ x, x ∈ heard ++ [e] → pubkey (le_event x) ≠ k end) as Hrest.
  { intros k Hk. pose proof (Hm k) as Hmk. destruct (m !! k) as [x|]; [destruct Hmk; split; [done|by eapply Hother]|].
    intros x [Hx|Hx%list_elem_of_singleton]%elem_of_app; [by apply Hmk|by subst x]. }
  destruct (m !! pubkey (le_event e)) as [prev|] eqn:Ep.
  - destruct He as [Hpk Hprev]. destruct (newer e prev) eqn:En; intros k; destruct (decide (k = pubkey (le_event e))) as [->|Hk].
    + rewrite lookup_insert_eq. split; [done|]. split; [apply elem_of_app; right; by left|].
      intros e' [He'|He'%list_elem_of_singleton]%elem_of_app Hp; [|subst e'; apply at_least_refl].
      eapply at_least_trans; [|by apply (proj2 Hprev); [done|congruence]]. apply newer_false.
      destruct (newer prev e) eqn:E; [|done]. exfalso. unfold newer, before in En, E. apply orb_true_iff in En, E.
      destruct En as [En|En], E as [E|E]; bool_prop; try lia. match goal with A : eqb ?x ?y = false |- _ => 
        apply not_true_iff_false in A; rewrite eqb_eq in A; apply A; by apply jstr_leb_antisym end.
    + rewrite lookup_insert_ne by done. by apply Hrest.
    + rewrite Ep. split; [done|]. apply Hkeep; [done|done|by apply newer_false].
    + by apply Hrest.
  - intros k. destruct (decide (k = pubkey (le_event e))) as [->|Hk].
    + rewrite lookup_insert_eq. split; [done|]. split; [apply elem_of_app; right; by left|].
      intros e' [He'|He'%list_elem_of_singleton]%elem_of_app Hp; [|subst e'; apply at_least_refl]. by destruct (He e' He').
    + rewrite lookup_insert_ne by done. by apply Hrest.
Qed.

Lemma latest_spec events : latest_of events (foldl take_latest ∅ events).
Proof.
  assert (∀ heard m, latest_of heard m → latest_of (heard ++ events) (foldl take_latest m events)) as Hgen.
  { induction events as [|e events IH]; intros heard m Hm; cbn [foldl]; [by rewrite app_nil_r|].
    replace (heard ++ e :: events) with ((heard ++ [e]) ++ events) by (by rewrite <- app_assoc). by apply IH, take_latest_spec. }
  apply (Hgen []). intros k. rewrite lookup_empty. by intros e He%elem_of_nil.
Qed.

(** ** Nodes *)

Definition recommended (nodes : list DiscoveredNode) (origin author : jstr) : Prop :=
  ∃ n, n ∈ nodes ∧ dn_origin n = origin ∧ author ∈ dn_recommendedBy n.

Lemma recommended_cons n nodes o a : recommended (n :: nodes) o a ↔ (dn_origin n = o ∧ a ∈ dn_recommendedBy n) ∨ recommended nodes o a.
Proof.
  unfold recommended. split.
  - intros (x & [->|Hx]%elem_of_cons & Hr); [by left|right; by exists x].
  - intros [Hr|(x & Hx & Hr)]; [exists n; split; [left|done]|exists x; split; [by right|done]].
Qed.

Lemma recommend_spec author origin created nodes o a :
  recommended (recommend author origin created nodes) o a ↔ recommended nodes o a ∨ (o = origin ∧ a = author).
Proof.
  induction nodes as [|n nodes IH]; cbn [recommend].
  - rewrite recommended_cons. cbn. rewrite list_elem_of_singleton. unfold recommended. set_solver.
  - destruct (eqb (dn_origin n) origin) eqn:E.
    + apply eqb_eq in E. rewrite !recommended_cons. cbn. rewrite elem_of_app, list_elem_of_singleton, E. naive_solver.
    + rewrite !recommended_cons, IH. tauto.
Qed.

Lemma recommend_origins author origin created nodes :
  map dn_origin (recommend author origin created nodes) =
  if decide (origin ∈ map dn_origin nodes) then map dn_origin nodes else map dn_origin nodes ++ [origin].
Proof.
  induction nodes as [|n nodes IH]; cbn [recommend map]; [by rewrite decide_False by set_solver|].
  destruct (eqb (dn_origin n) origin) eqn:E.
  - apply eqb_eq in E as <-. rewrite decide_True by (by left). done.
  - cbn [map]. rewrite IH. assert (dn_origin n ≠ origin) as Hne by (intros Ho; rewrite Ho, (proj2 (eqb_eq _ _) eq_refl) in E; done).
    destruct (decide (origin ∈ map dn_origin nodes)) as [Hin|Hin]; [by rewrite decide_True by (by right)|].
    rewrite decide_False by (rewrite elem_of_cons; naive_solver). done.
Qed.

Lemma recommend_all_spec author created origins nodes o a :
  recommended (foldl (λ nodes origin, recommend author origin created nodes) nodes origins) o a ↔
  recommended nodes o a ∨ (o ∈ origins ∧ a = author).
Proof.
  revert nodes. induction origins as [|x origins IH]; intros nodes; cbn [foldl]; [set_solver|].
  rewrite IH, recommend_spec, elem_of_cons. naive_solver.
Qed.

Lemma recommend_all_NoDup author created origins nodes : NoDup (map dn_origin nodes) →
  NoDup (map dn_origin (foldl (λ nodes origin, recommend author origin created nodes) nodes origins)).
Proof.
  revert nodes. induction origins as [|x origins IH]; intros nodes Hn; cbn [foldl]; [done|]. apply IH. rewrite recommend_origins.
  case_decide; [done|]. apply NoDup_app. split_and!; [done| |apply NoDup_singleton]. set_solver.
Qed.

(** What an author's list in [latest] names now. *)
Definition names (latest : gmap jstr ListEvent) (authors : list jstr) (profile : NetworkProfile) (now : Z) (author origin : jstr) : Prop :=
  ∃ e listed origins, latest !! author = Some e ∧ serverList (raw (le_event e)) authors profile now = Ok (listed, origins) ∧ origin ∈ origins.

Lemma add_authors_spec latest authors profile now nodes todo nodes' : NoDup (map dn_origin nodes) →
  add_authors latest authors profile now nodes todo = Ok nodes' →
  NoDup (map dn_origin nodes') ∧
  ∀ o a, recommended nodes' o a ↔ recommended nodes o a ∨ (a ∈ todo ∧ names latest authors profile now a o).
Proof.
  revert nodes. induction todo as [|x todo IH]; intros nodes Hnd Hr; cbn [add_authors] in Hr; inv_ok; [split; [done|set_solver]|].
  match goal with Hx : add_author _ _ _ _ _ _ = Ok ?n |- _ => rename Hx into Hadd; rename n into mid end.
  assert (NoDup (map dn_origin mid) ∧ ∀ o a, recommended mid o a ↔ recommended nodes o a ∨ (a = x ∧ names latest authors profile now a o)) as [Hnd' Hmid].
  { unfold add_author in Hadd. unfold names. destruct (latest !! x) as [e|] eqn:Ex.
    - apply rbind_ok in Hadd as ([listed origins] & Hs & Hadd). injection Hadd as <-. cbn [snd]. split; [by apply recommend_all_NoDup|]. intros o a.
      rewrite recommend_all_spec. split; [intros [?|[? ->]]; [by left|right; split; [done|by exists e, listed, origins]]|].
      intros [?|[-> (e' & l' & o' & He & Hs' & Ho)]]; [by left|right]. rewrite Ex in He. injection He as <-. rewrite Hs in Hs'. by injection Hs' as <- <-.
    - injection Hadd as <-. split; [done|]. intros o a. split; [by left|]. intros [?|[-> (e' & ? & ? & He & _)]]; [done|congruence]. }
  destruct (IH mid Hnd' Hr) as [Hfin Hspec]. split; [done|]. intros o a. rewrite Hspec, Hmid, elem_of_cons. naive_solver.
Qed.

(** ** What queries hear *)

Lemma query_take_ok subscription authors profile now template taken_ e :
  qs_take (discovery_spec subscription authors profile now) template taken_ = Take e → accepted authors profile e.
Proof.
  cbn [discovery_spec qs_take]. destruct (serverList template authors profile now) as [[x os]|] eqn:Es; [|done]. intros [= <-]. by eapply serverList_accepted.
Qed.

(** A property of every event a query takes. *)
Definition query_all {E} (P : E → Prop) (q : Query E) : Prop :=
  Forall P (qu_events q) ∧ ∀ l, qu_result q = Some (Fulfilled l) → Forall P l.

Lemma query_finish_all {E} (spec : QuerySpec E) P error q : query_all P q → query_all P (query_finish spec error q).
Proof.
  intros [He Hr]. unfold query_finish. destruct (qu_result q) as [r|] eqn:Er; [split; [done|by rewrite Er]|].
  split; cbn; [done|]. destruct error; [done|]. by intros l [= <-].
Qed.

Ltac finish_all := apply query_finish_all; split; done.

Lemma query_run_all {E} (spec : QuerySpec E) P events : (∀ template l e, qs_take spec template l = Take e → P e) → query_all P (query_run spec events).
Proof.
  intros Ht. unfold query_run. assert (query_all P (query_start (E := E))) as Hs by (split; [constructor|done]).
  revert Hs. generalize (query_start (E := E)). induction events as [|e events IH]; intros q Hq; [done|]. cbn [foldl]. apply IH.
  unfold query_step. destruct (socket_gives e (qu_ready q)); [|done]. cbn [negb qu_result qu_ready qu_messages qu_events qu_sent].
  destruct Hq as [He Hr]. destruct (qu_result q) as [r|] eqn:Er; [by split|].
  destruct e; try (finish_all); [by split|].
  unfold query_message. cbn [qu_result qu_ready qu_messages qu_events qu_sent].
  destruct data as [text|]; [|finish_all]. destruct (_ || _); [finish_all|].
  destruct (parse text) as [[| | | |message|]|]; try by split. destruct (negb _); [by split|].
  destruct (item_is message 0 (lit "EOSE")); [finish_all|].
  destruct (item_is message 0 (lit "CLOSED")); [destruct (qs_closed spec); [finish_all|by split]|].
  destruct (item_is message 0 (lit "EVENT")); [|by split].
  destruct (qs_take spec _ (qu_events q)) as [x| |m] eqn:Ex; [|by split|finish_all].
  split; cbn; [|done]. apply Forall_app. split; [done|]. constructor; [by eapply Ht|constructor].
Qed.

(** The lists that the settled queries brought. *)
Definition heard (qs : list (Query ListEvent)) : list ListEvent := events_of (omap qu_result qs).

Lemma mapM_omap {A B} (f : A → option B) l k : mapM f l = Some k → omap f l = k.
Proof.
  intros Hm%mapM_Some. induction Hm as [|x y l k Hx Hl IH]; [done|]. cbn. by rewrite Hx, IH.
Qed.

(** C31: when node discovery comes to an end, a node is recommended by a key
    exactly when the key is a trusted one and its newest list among all that
    were heard names the node's origin for the profile: whichever relays
    answered, how often, and in whatever order. No origin is given twice. *)
Theorem discovered_nodes relays trustedKeys profile asked history now before_ after nodes :
  discoverNodes relays trustedKeys profile asked history now before_ after = Ok (Some nodes) →
  ∃ authors targets (events := heard (queries targets authors profile asked history)),
    discovery_plan relays trustedKeys profile = Ok (authors, targets) ∧ NoDup (map dn_origin nodes) ∧
    ∀ origin author, recommended nodes origin author ↔
      author ∈ authors ∧ ∃ e listed origins, pubkey (le_event e) = author ∧ newest events e ∧
        serverList (raw (le_event e)) authors profile now = Ok (listed, origins) ∧ origin ∈ origins.
Proof.
  unfold discoverNodes. intros Hr. apply rbind_ok in Hr as ([authors targets] & Hp & Hr). cbn [fst snd] in Hr. inv_ok.
  destruct (mapM qu_result _) as [results|] eqn:Em; [|discriminate Hr]. inv_ok. simplify_eq.
  match goal with Hc : combine _ _ _ _ _ = Ok _ |- _ => unfold combine in Hc; rename Hc into Hadd end. inv_ok.
  exists authors, targets. cbv zeta. unfold heard. rewrite (mapM_omap _ _ _ Em). set (events := events_of results) in *.
  assert (∀ e, e ∈ events → accepted authors profile e) as Hacc.
  { intros e He. subst events. unfold events_of in He. apply list_elem_of_In, in_flat_map in He as (r & Hin & He). apply list_elem_of_In in Hin.
    apply mapM_Some in Em. apply list_elem_of_lookup in Hin as (i & Hi). eapply Forall2_lookup_r in Em as (q & Hq & Hres); [|exact Hi].
    unfold queries in Hq. rewrite list_lookup_imap in Hq. apply fmap_Some in Hq as (t & _ & ->).
    destruct r as [l|]; [|done]. destruct (query_run_all (discovery_spec (asked i).1 authors profile (asked i).2) (accepted authors profile) (history i)) as [_ Hall].
    { intros template l' taken_. apply query_take_ok. }
    specialize (Hall l Hres). rewrite Forall_forall in Hall. apply Hall. by apply list_elem_of_In. }
  apply add_authors_spec in Hadd as [Hnd Hspec]; [|constructor]. split_and!; [done..|]. intros origin author. rewrite Hspec.
  pose proof (latest_spec events author) as Hl. unfold names. split.
  - intros [(n & Hn%elem_of_nil & _)|[Ha (e & listed & origins & He & Hs & Ho)]]; [done|]. split; [done|]. rewrite He in Hl.
    exists e, listed, origins. by destruct Hl.
  - intros [Ha (e & listed & origins & Hk & Hn & Hs & Ho)]. right. split; [done|].
    destruct (foldl take_latest ∅ events !! author) as [m|] eqn:Em'; [|by destruct (Hl e (proj1 Hn))]. destruct Hl as [Hmk Hmn].
    assert (id (le_event e) = id (le_event m)) as Hid.
    { destruct (proj2 Hn m (proj1 Hmn)) as [?|[? Hle]]; [congruence|destruct (proj2 Hmn e (proj1 Hn)) as [?|[? ?]]; [congruence|lia|lia]|].
      destruct (proj2 Hmn e (proj1 Hn)) as [?|[? Hle']]; [congruence|lia|]. by apply jstr_leb_antisym. }
    pose proof (same_id_same_origins authors profile now e m (Hacc _ (proj1 Hn)) (Hacc _ (proj1 Hmn)) Hid) as Hsame. rewrite Hs in Hsame. cbn in Hsame.
    destruct (serverList (raw (le_event m)) authors profile now) as [[l' o']|] eqn:Es; [|discriminate Hsame]. injection Hsame as <-. by exists m, l', origins.
Qed.
End Facts.

(** ** An example *)

(** Tools that verify one server list only. *)
Definition one_list_tools : NostrTools := {|
  validateEvent e := true;
  verifyEvent e :=
    eqb (id e) example_hash && bool_decide (kind e = Int 10063) && bool_decide (created_at e = Int 1700000000) && eqb (content e) []
    && eqb (pubkey e) example_key
    && match tags e with [[JStr a; JStr b]] => eqb a (lit "server") && eqb b (lit "https://example.com") | _ => false end |}.

#[local] Existing Instances ascii_unicode relay_web no_fractions one_list_tools.

Lemma one_list_laws : IdLaws.
Proof.
  split.
  assert (∀ v e, verified v = Some e → kind e = Int 10063 ∧ created_at e = Int 1700000000 ∧ tags e = [[JStr (lit "server"); JStr (lit "https://example.com")]] ∧
    content e = [] ∧ pubkey e = example_key) as Hone.
  { intros v e He. unfold verified in He. destruct (event_of v) as [x|]; [|done]. destruct (validateEvent x && verifyEvent x) eqn:Ev; [|done]. injection He as ->.
    unfold validateEvent, verifyEvent, one_list_tools in Ev. cbn [andb] in Ev. apply andb_true_iff in Ev as [Ev Ht].
    destruct (tags e) as [|[|[| | |a| |] [|[| | |b| |] []]] []]; try discriminate Ht. bool_prop.
    repeat match goal with E : eqb _ _ = true |- _ => apply eqb_eq in E end. subst. done. }
  intros v v' e e' He He' _. destruct (Hone _ _ He) as (-> & -> & -> & -> & ->). destruct (Hone _ _ He') as (-> & -> & -> & -> & ->). done.
Qed.
#[local] Existing Instance one_list_laws.

Definition listed_event : json :=
  match signed_value (mkTemplate 10063 1700000000 [[lit "server"; lit "https://example.com"]] []) example_key with
  | JObj (_ :: ms) => JObj ((lit "id", JStr example_hash) :: ms) | v => v
  end.

Definition relay_answers : list socket_event :=
  [SocketOpens; SocketMessage (Some (stringify (JArr [JStr (lit "EVENT"); JStr (lit "s1"); listed_event])));
   SocketMessage (Some (stringify (JArr [JStr (lit "EOSE"); JStr (lit "s1")])))].

Definition example_node : DiscoveredNode := mkNode (lit "https://example.com/") [example_key] 1700000000.

Lemma discovered_nodes_witness :
  discoverNodes [lit "wss://one.example/"] [example_key] direct (λ _, (lit "s1", 1700000000)) (λ _, relay_answers) 1700000000 false false
    = Ok (Some [example_node]) ∧
  ∃ authors : list jstr, example_key ∈ authors.
Proof.
  assert (discoverNodes [lit "wss://one.example/"] [example_key] direct (λ _, (lit "s1", 1700000000)) (λ _, relay_answers) 1700000000 false false
    = Ok (Some [example_node])) as Hr by (vm_compute; reflexivity).
  split; [exact Hr|]. destruct (discovered_nodes _ _ _ _ _ _ _ _ _ Hr) as (authors & targets & _ & _ & Hspec).
  exists authors. apply (Hspec (lit "https://example.com/") example_key). exists example_node. split_and!; [left|reflexivity|left].
Defined.
