(* ===== verification/StorageDirectory.v ===== *)
(** * The directory of storage services ([core/storage-discovery.ts])

    Signed announcements are kept as watermarks for the life of the page, and
    an operator's checkout must agree with what it announced. [402-announce]
    reads and selects announcements, so a class gives it. *)

From S2P Require Import Prelude JsString Utf8 Bytes Json JsValue Security Envelope Nostr Net Blossom Relay Discovery DiscoveryFacts ServicesHttp Checkout.

Local Open Scope effect_scope.

(** ** [402-announce] *)

(** The fields of a description the program reads; a service is its members. *)
Record CheckoutTerms := mkTerms { ct_origin : jstr; ct_network : jstr; ct_rails : list jstr; ct_issuers : list Issuer }.
Record StorageServiceDescription := mkDescription {
  sd_identifier : jstr; sd_origins : list jstr; sd_state : jstr; sd_expires_at : Z; sd_services : list (list (jstr * json));
  sd_checkout : option CheckoutTerms }.

(** An announcement that was read, with the integer time of its event. *)
Record ParsedStorageAnnouncement := mkAnnouncement {
  an_event : SignedNostrEvent; an_created : Z; an_description : StorageServiceDescription; an_freshness : jstr }.

Class Announcements := {
  parseStorageAnnouncement : json → Z → res ParsedStorageAnnouncement;
  selectStorageAnnouncements : list json → Z → list ParsedStorageAnnouncement;
  validateStorageEndpointBinding : json → ParsedStorageAnnouncement → jstr → Z → res StorageServiceDescription;
}.

Definition TOPIC : jstr := lit "forgesworn-storage-service-v1".
Definition MAX_RECORDS : Z := 512.

Section Directory.
Context `{Unicode} `{Web} `{Numbers} `{NostrTools} `{Announcements}.

(** ** Asking one relay *)

(** A valid announcement, expired and withdrawn ones included; at most 64. *)
Definition take_announcement (now : Z) (template : json) (events : list json) : taken json :=
  match parseStorageAnnouncement template now with
  | Throw _ => Skip
  | Ok parsed => if 64 <=? zlen events then TooMany "Storage discovery returned too many records." else Take (raw (an_event parsed))
  end.

Definition storage_spec (subscription : jstr) (now : Z) : QuerySpec json :=
  mkSpec subscription
    (JObj [(lit "kinds", JArr [JNum (Int 31402)]); (lit "#t", JArr [JStr TOPIC]); (lit "limit", JNum (Int 64))])
    128 66560 (take_announcement now)
    (Some "Storage discovery subscription was refused.") "Storage service discovery cancelled." "Storage service discovery timed out."
    "Storage discovery exceeded its response limit." "Storage discovery relay failed." "Storage discovery relay closed.".

(** ** The directory *)

(** A [Map], in insertion order. *)
Definition Watermarks : Type := list (jstr * ParsedStorageAnnouncement).

Fixpoint mark_get (key : jstr) (m : Watermarks) : option ParsedStorageAnnouncement :=
  match m with [] => None | (k, v) :: m => if eqb k key then Some v else mark_get key m end.

Fixpoint mark_set (key : jstr) (value : ParsedStorageAnnouncement) (m : Watermarks) : Watermarks :=
  match m with
  | [] => [(key, value)]
  | (k, v) :: m => if eqb k key then (key, value) :: m else (k, v) :: mark_set key value m
  end.

(** [`${pubkey}:${identifier}`]. *)
Definition mark_key (item : ParsedStorageAnnouncement) : jstr :=
  pubkey (an_event item) ++ [58] ++ sd_identifier (an_description item).

Definition supersedes (item prior : ParsedStorageAnnouncement) : bool :=
  (an_created prior <? an_created item)
  || ((an_created item =? an_created prior) && before (id (an_event item)) (id (an_event prior))).

Definition merge_mark (m : Watermarks) (item : ParsedStorageAnnouncement) : Watermarks :=
  match mark_get (mark_key item) m with
  | Some prior => if supersedes item prior then mark_set (mark_key item) item m else m
  | None => mark_set (mark_key item) item m
  end.

Definition current (watermarks : Watermarks) (now : Z) : list ParsedStorageAnnouncement :=
  selectStorageAnnouncements (map (λ m, raw (an_event m.2)) watermarks) now.

(** The directory after the call, with what it answers. *)
Definition accept (watermarks : Watermarks) (values : list json) (now : Z) : Watermarks * res (list ParsedStorageAnnouncement) :=
  let merged := foldl merge_mark watermarks (selectStorageAnnouncements values now) in
  if MAX_RECORDS <? zlen merged
  then (watermarks, Throw "Storage discovery reached its page-memory limit; start a new page session to search again.")
  else (merged, Ok (current merged now)).

Definition storage_timeout (timeoutMs : option Z) : bool :=
  let timeout := default 10000 timeoutMs in is_safe_integer timeout && in_range 1 30000 timeout.

(** As in node discovery: each target is asked under a random name at a time. *)
Definition storage_queries (targets : list jstr) (asked : nat → jstr * Z) (history : nat → list socket_event) : list (Query json) :=
  imap (λ i _, query_run (storage_spec (asked i).1 (asked i).2) (history i)) targets.

Definition discover (watermarks : Watermarks) (relays : list jstr) (profile : NetworkProfile) (timeoutMs : option Z)
    (asked : nat → jstr * Z) (history : nat → list socket_event) (now : Z) (abortedBefore abortedAfter : bool)
    : Watermarks * res (option (list ParsedStorageAnnouncement)) :=
  let start :=
    (check in_range 1 MAX_NETWORK_ENDPOINTS (zlen relays) else "Provide a bounded explicit relay list.";
     let! targets := rmap (λ relay, normaliseRelayUrl relay profile) relays in
     check negb abortedBefore else "AbortError";
     check storage_timeout timeoutMs else "Invalid storage discovery timeout.";
     Ok (uniq targets)) in
  match start with
  | Throw msg => (watermarks, Throw msg)
  | Ok targets =>
      match mapM qu_result (storage_queries targets asked history) with
      | None => (watermarks, Ok None)
      | Some results =>
          if abortedAfter then (watermarks, Throw "AbortError")
          else if forallb is_refusal results then (watermarks, Throw "No relay completed storage service discovery.")
          else let '(marks, r) := accept watermarks (events_of results) now in
               (marks, match r with Ok l => Ok (Some l) | Throw msg => Throw msg end)
      end
  end.

(** ** Choosing a service *)

Definition serviceOrigins (announcement : ParsedStorageAnnouncement) (profile : NetworkProfile) : list jstr :=
  List.filter (λ origin, match normaliseBlossomServer origin profile with Ok server => eqb (server ++ [47]) origin | Throw _ => false end)
    (sd_origins (an_description announcement)).

Definition service_is (key value : string) (service : list (jstr * json)) : bool := is_text (at_ key service) value.

Definition selectableService (announcement : ParsedStorageAnnouncement) (now : Z) : res bool :=
  let! parsed := parseStorageAnnouncement (raw (an_event announcement)) now in
  Ok (eqb (an_freshness parsed) (lit "current") && eqb (sd_state (an_description parsed)) (lit "published")
      && existsb (service_is "availability" "accepting") (sd_services (an_description parsed))).

Section Fetching.
Context `{Cipher} `{Net} `{!BuyerSigner}.

Definition fetchServiceDescription (announcement : ParsedStorageAnnouncement) (selectedOrigin : jstr) (options : ServiceOptions)
    : M StorageServiceDescription :=
  do now <- asks clock;
  do selectable <- lift (selectableService announcement now);
  require selectable && existsb (eqb selectedOrigin) (serviceOrigins announcement (so_profile options))
    else AnError (lit "This storage listing expired, was withdrawn or is unavailable for the selected network profile. Find services again.");
  do value <- requestJson selectedOrigin (lit "/services/v1") None None
    (mkServiceOptions (so_profile options) (Some (default 15000 (so_timeoutMs options))));
  do now <- asks clock;
  lift (validateStorageEndpointBinding value announcement selectedOrigin now).
End Fetching.

(** ** The checkout agrees with the announcement *)

(** [a === b] of an offer's member and a service's. *)
Definition same_value (a : json) (b : option json) : bool :=
  match a, b with
  | JStr s, Some (JStr t) => eqb s t
  | JNum (Int n), Some (JNum m) => is_number m n
  | _, _ => false
  end.

(** Every member of the offer is the service's. *)
Definition describes (service : list (jstr * json)) (offer : Offer) : bool :=
  match offer_json offer with JObj ms => forallb (λ m, same_value m.2 (get_member m.1 service)) ms | _ => false end.

Definition same_issuer (a b : Issuer) : bool :=
  eqb (is_id a) (is_id b) && eqb (is_callback a) (is_callback b) && eqb (is_note_endpoint a) (is_note_endpoint b)
  && eqb (is_mint_pubkey a) (is_mint_pubkey b).

Definition unchanged (description : StorageServiceDescription) (checkout : CheckoutTerms) (offers : Offers) (now : Z) : bool :=
  let paid := List.filter (service_is "type" "paid-storage") (sd_services description) in
  eqb (sd_state description) (lit "published") && (now <? sd_expires_at description)
  && eqb (ct_origin checkout) (os_node_origin offers) && eqb (ct_network checkout) (network_text (os_network offers))
  && (zlen (ct_rails checkout) =? zlen (os_rails offers))
  && forallb (λ r, existsb (λ o, eqb r (rail_text o)) (os_rails offers)) (ct_rails checkout)
  && (zlen (os_offers offers) =? zlen paid)
  && forallb (λ o, existsb (λ service, describes service o) paid) (os_offers offers)
  && (negb (existsb (eqb (lit "lnurlcash")) (ct_rails checkout))
      || ((zlen (ct_issuers checkout) =? zlen (os_issuers offers))
          && forallb (λ i, existsb (λ candidate, same_issuer candidate i) (os_issuers offers)) (ct_issuers checkout))).

Definition matchDiscoveredOffers (description : StorageServiceDescription) (offers : Offers) (now : Z) : res Offers :=
  let paid := List.filter (service_is "type" "paid-storage") (sd_services description) in
  check (match sd_checkout description with Some checkout => unchanged description checkout offers now | None => false end)
    else "The operator’s checkout offers or terms changed, expired or were withdrawn. Load current service terms and review them again.";
  let accepting := List.filter (λ o, existsb (λ service, same_value (JStr (of_id o)) (get_member (lit "id") service)
                                                        && service_is "availability" "accepting" service) paid) (os_offers offers) in
  check negb (zlen accepting =? 0) else "This operator currently has no accepting paid storage offers.";
  Ok (mkOffers (os_seller_id offers) (os_seller_name offers) (os_node_origin offers) (os_network offers) accepting (os_rails offers)
        (os_issuers offers) (os_features offers)).
End Directory.

(** ** The directory does not go back in time

    Whatever relays bring, and however often, the newest announcement seen of a
    service stays the one that is kept. *)

Section Facts.
Context `{Announcements}.

(** Newer, or of one age with the smaller id, or the same. *)
Definition mark_order (a b : ParsedStorageAnnouncement) : Prop :=
  an_created b < an_created a ∨ (an_created a = an_created b ∧ jstr_leb (id (an_event a)) (id (an_event b)) = true).

Lemma mark_order_refl a : mark_order a a.
Proof. right. split; [done|apply jstr_leb_refl]. Qed.

Lemma mark_order_trans a b c : mark_order a b → mark_order b c → mark_order a c.
Proof. unfold mark_order. intros [?|[? ?]] [?|[? ?]]; [left; lia..|right; split; [lia|by eapply jstr_leb_trans]]. Qed.

Lemma supersedes_order item prior : supersedes item prior = true → mark_order item prior.
Proof.
  unfold supersedes, before. intros Hs. apply orb_true_iff in Hs as [Hs|Hs]; bool_prop; [left; lia|right; by split].
Qed.

Lemma supersedes_false item prior : supersedes item prior = false → mark_order prior item.
Proof.
  unfold supersedes, before. intros Hs. apply orb_false_iff in Hs as [Hlt Hs]. bool_prop.
  destruct (decide (an_created item = an_created prior)) as [He|]; [|left; lia]. right. split; [done|].
  apply andb_false_iff in Hs as [Hs|Hs]; [bool_prop; lia|]. apply andb_false_iff in Hs as [Hs|Hs].
  - destruct (jstr_leb_or (id (an_event item)) (id (an_event prior))); [congruence|done].
  - apply negb_false_iff, eqb_eq in Hs. rewrite Hs. apply jstr_leb_refl.
Qed.

(** ** The map *)

Lemma mark_get_set key key' v (m : Watermarks) : mark_get key' (mark_set key v m) = if eqb key key' then Some v else mark_get key' m.
Proof.
  induction m as [|[k x] m IH]; cbn [mark_set mark_get]; [done|]. destruct (eqb k key) eqn:E; cbn [mark_get].
  - apply eqb_eq in E as ->. by destruct (eqb key key').
  - rewrite IH. destruct (eqb k key') eqn:E'; [|done]. apply eqb_eq in E' as ->. destruct (eqb key key') eqn:E2; [|done]. apply eqb_eq in E2 as ->. by rewrite (proj2 (eqb_eq _ _) eq_refl) in E.
Qed.

(** A merge keeps at least what there was, and at least what is merged. *)
Lemma merge_mark_spec m item :
  (∃ w, mark_get (mark_key item) (merge_mark m item) = Some w ∧ mark_order w item) ∧
  (∀ key prior, mark_get key m = Some prior → ∃ w, mark_get key (merge_mark m item) = Some w ∧ mark_order w prior) ∧
  (∀ key w, mark_get key (merge_mark m item) = Some w → mark_get key m = Some w ∨ (w = item ∧ key = mark_key item)).
Proof.
  unfold merge_mark. destruct (mark_get (mark_key item) m) as [prior|] eqn:Ep; [destruct (supersedes item prior) eqn:Es|].
  - split_and!.
    + exists item. rewrite mark_get_set, (proj2 (eqb_eq _ _) eq_refl). split; [done|apply mark_order_refl].
    + intros key p Hp. rewrite mark_get_set. destruct (eqb (mark_key item) key) eqn:E; [|exists p; split; [done|apply mark_order_refl]].
      apply eqb_eq in E as <-. rewrite Ep in Hp. injection Hp as <-. exists item. split; [done|by apply supersedes_order].
    + intros key w. rewrite mark_get_set. destruct (eqb (mark_key item) key) eqn:E; [|by left]. apply eqb_eq in E as <-. intros [= <-]. by right.
  - split_and!; [|intros key p Hp; exists p; split; [done|apply mark_order_refl]|by left]. exists prior. split; [done|by apply supersedes_false].
  - split_and!.
    + exists item. rewrite mark_get_set, (proj2 (eqb_eq _ _) eq_refl). split; [done|apply mark_order_refl].
    + intros key p Hp. rewrite mark_get_set. destruct (eqb (mark_key item) key) eqn:E; [apply eqb_eq in E as <-; congruence|].
      exists p. split; [done|apply mark_order_refl].
    + intros key w. rewrite mark_get_set. destruct (eqb (mark_key item) key) eqn:E; [|by left]. apply eqb_eq in E as <-. intros [= <-]. by right.
Qed.

Lemma merge_all_spec m items :
  (∀ key prior, mark_get key m = Some prior → ∃ w, mark_get key (foldl merge_mark m items) = Some w ∧ mark_order w prior) ∧
  (∀ item, item ∈ items → ∃ w, mark_get (mark_key item) (foldl merge_mark m items) = Some w ∧ mark_order w item) ∧
  (∀ key w, mark_get key (foldl merge_mark m items) = Some w → mark_get key m = Some w ∨ (w ∈ items ∧ key = mark_key w)).
Proof.
  revert m. induction items as [|x items IH]; intros m; cbn [foldl].
  { split_and!; [intros key p Hp; exists p; split; [done|apply mark_order_refl]|by intros ? ?%elem_of_nil|by left]. }
  destruct (IH (merge_mark m x)) as (Hk & Hi & Hf). destruct (merge_mark_spec m x) as (Hx & Hm & Hn). split_and!.
  - intros key p Hp. destruct (Hm key p Hp) as (w & Hw & Ho). destruct (Hk key w Hw) as (w' & Hw' & Ho'). exists w'. split; [done|by eapply mark_order_trans].
  - intros item [->|Hin]%elem_of_cons; [|by apply Hi]. destruct Hx as (w & Hw & Ho). destruct (Hk _ _ Hw) as (w' & Hw' & Ho').
    exists w'. split; [done|by eapply mark_order_trans].
  - intros key w Hw. destruct (Hf key w Hw) as [Hw'|[Hin ->]]; [|right; split; [by right|done]].
    destruct (Hn key w Hw') as [?|[-> ->]]; [by left|right; split; [left|done]].
Qed.

(** The directory after a series of calls. *)
Definition directory_run (m : Watermarks) (calls : list (list json * Z)) : Watermarks :=
  foldl (λ m call, (accept m call.1 call.2).1) m calls.

Record directory_ok (m : Watermarks) : Prop := {
  do_keys : ∀ key w, mark_get key m = Some w → key = mark_key w;
  do_size : zlen m <= MAX_RECORDS;
}.

Lemma accept_spec m values now : directory_ok m →
  directory_ok (accept m values now).1 ∧
  (∀ key prior, mark_get key m = Some prior → ∃ w, mark_get key (accept m values now).1 = Some w ∧ mark_order w prior) ∧
  match (accept m values now).2 with
  | Ok _ => ∀ item, item ∈ selectStorageAnnouncements values now → ∃ w, mark_get (mark_key item) (accept m values now).1 = Some w ∧ mark_order w item
  | Throw _ => (accept m values now).1 = m
  end.
Proof.
  intros Hm. unfold accept. destruct (merge_all_spec m (selectStorageAnnouncements values now)) as (Hk & Hi & Hf).
  destruct (MAX_RECORDS <? zlen _) eqn:E; cbn [fst snd].
  - split_and!; [done| |done]. intros key p Hp. exists p. split; [done|apply mark_order_refl].
  - split_and!; [|done|done]. split; [|bool_prop; lia]. intros key w Hw. destruct (Hf key w Hw) as [Hw'|[_ ->]]; [by apply (do_keys _ Hm)|done].
Qed.

(** C33: over any series of searches, from an empty page on, the announcement that
    is kept of a service and operator never gives way to an older one; a search
    that succeeds leaves nothing newer that it saw out; one that fails changes
    nothing; and at most 512 are ever kept, each under its own operator and
    service. *)
Theorem watermarks_never_regress calls values now :
  let m := directory_run [] calls in
  let '(after, answer) := accept m values now in
  directory_ok after ∧
  (∀ key prior, mark_get key m = Some prior → ∃ w, mark_get key after = Some w ∧ mark_order w prior ∧ mark_key w = key) ∧
  match answer with
  | Ok _ => ∀ item, item ∈ selectStorageAnnouncements values now → ∃ w, mark_get (mark_key item) after = Some w ∧ mark_order w item
  | Throw _ => after = m
  end.
Proof.
  cbv zeta. assert (directory_ok (directory_run [] calls)) as Hm.
  { assert (directory_ok []) as Hs by (split; [done|unfold MAX_RECORDS; rewrite zlen_nil; lia]). revert Hs. generalize (@nil (jstr * ParsedStorageAnnouncement)).
    unfold directory_run. induction calls as [|call calls IH]; intros m Hm; [done|]. cbn [foldl]. apply IH. by apply accept_spec. }
  destruct (accept_spec _ values now Hm) as (Hok & Hk & Hi). destruct (accept (directory_run [] calls) values now) as [after answer]. cbn [fst snd] in *.
  split_and!; [done| |done]. intros key p Hp. destruct (Hk key p Hp) as (w & Hw & Ho). exists w. split_and!; [done..|]. symmetry. by apply (do_keys _ Hok).
Qed.
End Facts.
