(* ===== verification/MainState.v ===== *)
(** * The publishing page: its state ([main.ts])

    The page that publishes a file and retrieves one. This file holds what the
    person has set, the variables of the module, the runs of its asynchronous
    handlers, and what all handlers share: buttons, links, the external signer,
    peer sessions and the resets. The two status lines, the lists of facts, the
    focus and which panels are shown are only ever written, and are left out;
    what is offered to save is kept by what it holds, not by its text. *)

From S2P Require Import Prelude JsString Utf8 Security.
From S2P Require Nostr Net Envelope Torrent Pool Swarm.

(** ** The controls *)

Inductive StorageMode : Type := SingleNode | ReplicaNodes | ErasureNodes.
#[global] Instance StorageMode_eq_dec : EqDecision StorageMode.
Proof. solve_decision. Defined.

(** A chosen file is told apart from an equal one by its number. *)
Record Form := mkForm {
  tor_chosen : bool; external_chosen : bool; storageMode : StorageMode; protectFile : bool; torConsent : bool; uploadConsent : bool;
  keySavedConsent : bool; seedConsent : bool; publishConsent : bool; swarmConsent : bool; repairPoolConsent : bool;
  blossomInput : jstr; relayInput : jstr; trackerInput : jstr; replicaInput : jstr; externalPubkeyInput : jstr;
  externalSignedEvent : jstr; eventIdInput : jstr; savedEventInput : jstr; recoveryKeyInput : jstr; poolNodes : jstr;
  poolCopies : jstr; poolRequired : jstr; poolTotal : jstr; poolReplacements : jstr;
  fileInput : option (nat * Net.File); savedEventFile : option bytes }.

#[export] Instance Form_eta : Eta Form := λ f,
  mkForm (tor_chosen f) (external_chosen f) (storageMode f) (protectFile f) (torConsent f) (uploadConsent f) (keySavedConsent f)
    (seedConsent f) (publishConsent f) (swarmConsent f) (repairPoolConsent f) (blossomInput f) (relayInput f) (trackerInput f)
    (replicaInput f) (externalPubkeyInput f) (externalSignedEvent f) (eventIdInput f) (savedEventInput f) (recoveryKeyInput f)
    (poolNodes f) (poolCopies f) (poolRequired f) (poolTotal f) (poolReplacements f) (fileInput f) (savedEventFile f).

(** [disabled] of each button. *)
Record Buttons := mkButtons {
  uploadButton : bool; cancelUploadButton : bool; seedButton : bool; stopSeedButton : bool; signButton : bool; publishButton : bool;
  repairPoolButton : bool; resolveButton : bool; verifySavedEventButton : bool; blossomFetchButton : bool; swarmFetchButton : bool;
  cancelDownloadButton : bool }.

#[export] Instance Buttons_eta : Eta Buttons := λ b,
  mkButtons (uploadButton b) (cancelUploadButton b) (seedButton b) (stopSeedButton b) (signButton b) (publishButton b)
    (repairPoolButton b) (resolveButton b) (verifySavedEventButton b) (blossomFetchButton b) (swarmFetchButton b) (cancelDownloadButton b).

(** ** The variables of the module *)

(** An abort controller is named by its number, as are a peer session and the
    result of an inspection or a lookup, which the code compares by identity. *)
Record Publishing := mkPublishing {
  sourceInspected : option Nostr.InspectedFile; inspected : option (nat * Nostr.InspectedFile);
  protectedEnvelope : option Envelope.EncryptedEnvelope; recoveryKeyOutput : jstr; preparedPool : option Pool.PreparedPool;
  publishedPool : option Pool.PoolReceipt; poolUploadComplete : bool; descriptor : option Nostr.BlobDescriptor;
  torrentPlan : option Torrent.HybridTorrent; signedEvents : list Nostr.SignedNostrEvent; inspectionController : option nat;
  uploadController : option nat; publishController : option nat; seedController : option nat; seedSession : option nat;
  publicationRevision : nat }.

#[export] Instance Publishing_eta : Eta Publishing := λ p,
  mkPublishing (sourceInspected p) (inspected p) (protectedEnvelope p) (recoveryKeyOutput p) (preparedPool p) (publishedPool p)
    (poolUploadComplete p) (descriptor p) (torrentPlan p) (signedEvents p) (inspectionController p) (uploadController p)
    (publishController p) (seedController p) (seedSession p) (publicationRevision p).

Inductive Transport : Type := ByBlossom | BySwarm.

Record Retrieving := mkRetrieving {
  resolved : option (nat * Nostr.ResolvedHybridEvent); resolvedPool : option Pool.PoolReceipt; lookupController : option nat;
  downloadController : option nat; downloadTransport : option Transport; poolRepairInProgress : bool; downloadSession : option nat;
  retrievalAttempts : nat; resolutionRevision : nat }.

#[export] Instance Retrieving_eta : Eta Retrieving := λ r,
  mkRetrieving (resolved r) (resolvedPool r) (lookupController r) (downloadController r) (downloadTransport r) (poolRepairInProgress r)
    (downloadSession r) (retrievalAttempts r) (resolutionRevision r).

(** ** What is offered to save *)

Inductive saved : Type :=
  | KeyDocument (key : jstr) | UnsignedEvent (template : Nostr.EventTemplate) | SignedFileEvent (event : Nostr.SignedNostrEvent)
  | PoolReceiptEvent (event : Nostr.SignedNostrEvent) | TorrentMetadata (torrent : bytes) | Payload (name : jstr) (content : bytes).

Record Link := mkLink { l_url : nat; l_saves : saved }.

Record Links := mkLinks {
  publishLinks : list Link; signedEventLinks : list Link; resolvedEventLinks : list Link; recoveryLinks : list Link;
  retrieveLinks : list Link; externalSigningLinks : list Link; objectUrls : list nat; url_count : nat }.

#[export] Instance Links_eta : Eta Links := λ l,
  mkLinks (publishLinks l) (signedEventLinks l) (resolvedEventLinks l) (recoveryLinks l) (retrieveLinks l) (externalSigningLinks l)
    (objectUrls l) (url_count l).

(** ** Peer sessions, and requests to an external signer *)

Inductive PeerKind : Type := SeedPeer | RetrievalPeer.
#[global] Instance PeerKind_eq_dec : EqDecision PeerKind.
Proof. solve_decision. Defined.

Record Peer := mkPeer { peer_kind : PeerKind; peer_handle : Swarm.StopHandle }.
#[export] Instance Peer_eta : Eta Peer := λ p, mkPeer (peer_kind p) (peer_handle p).

Record SigningRequest := mkSigning { sr_template : Nostr.EventTemplate; sr_expectedPubkey : jstr }.

(** ** The runs of the asynchronous handlers

    A run holds what its handler read before its first await, and where it
    stands. *)

(** [cn_typed] is what the external signer's port reads at once. *)
Record ConnectRun := mkConnect {
  cn_profileRevision : nat; cn_publicationRevision : nat; cn_external : bool; cn_typed : jstr; cn_over : bool }.
#[export] Instance ConnectRun_eta : Eta ConnectRun := λ r,
  mkConnect (cn_profileRevision r) (cn_publicationRevision r) (cn_external r) (cn_typed r) (cn_over r).

Inductive inspect_stage : Type :=
  | InspectingSource | Encrypting (source : Nostr.InspectedFile)
  | InspectingTransfer (source : Nostr.InspectedFile) (envelope : Envelope.EncryptedEnvelope)
  | PreparingPool (source : Nostr.InspectedFile) (envelope : Envelope.EncryptedEnvelope) (transfer : Nostr.InspectedFile)
      (mode : Pool.PoolMode) (nodes : list Pool.PoolNode) (required total copies : Z) (profile : NetworkProfile)
  | InspectOver.

Record InspectRun := mkInspect { in_controller : nat; in_file : nat * Net.File; in_revision : nat; in_stage : inspect_stage }.
#[export] Instance InspectRun_eta : Eta InspectRun := λ r, mkInspect (in_controller r) (in_file r) (in_revision r) (in_stage r).

Inductive upload_stage : Type := Uploading | BuildingTorrent (descriptor : Nostr.BlobDescriptor) | UploadOver.

Record UploadRun := mkUpload {
  up_controller : nat; up_revision : nat; up_inspected : nat * Nostr.InspectedFile; up_pubkey : jstr; up_profile : NetworkProfile;
  up_external : bool; up_server : jstr; up_trackers : list jstr; up_stage : upload_stage }.
#[export] Instance UploadRun_eta : Eta UploadRun := λ r,
  mkUpload (up_controller r) (up_revision r) (up_inspected r) (up_pubkey r) (up_profile r) (up_external r) (up_server r) (up_trackers r)
    (up_stage r).

Inductive pool_upload_stage : Type :=
  SigningReceipt | UploadingParts (receipt : Pool.PoolReceipt) (options : Pool.PoolOptions) | PoolUploadOver.

Record PoolUploadRun := mkPoolUpload {
  pu_controller : nat; pu_revision : nat; pu_prepared : Pool.PreparedPool; pu_owner : jstr; pu_stage : pool_upload_stage }.
#[export] Instance PoolUploadRun_eta : Eta PoolUploadRun := λ r,
  mkPoolUpload (pu_controller r) (pu_revision r) (pu_prepared r) (pu_owner r) (pu_stage r).

(** The attempt is that of [startBrowserSeeding]. *)
Record SeedRun := mkSeed {
  sd_controller : nat; sd_inspected : Nostr.InspectedFile; sd_plan : Torrent.HybridTorrent; sd_attempt : Swarm.Attempt Swarm.StopHandle;
  sd_over : bool }.
#[export] Instance SeedRun_eta : Eta SeedRun := λ r,
  mkSeed (sd_controller r) (sd_inspected r) (sd_plan r) (sd_attempt r) (sd_over r).

(** A call of [stopPeerSession], by who awaits it: nobody, or the run of a swarm
    download that wants the place. *)
Record StopRun := mkStopRun { st_kind : PeerKind; st_for : option nat; st_over : bool }.
#[export] Instance StopRun_eta : Eta StopRun := λ r, mkStopRun (st_kind r) (st_for r) (st_over r).

Inductive sign_stage : Type :=
  | SigningFileEvent (template : Nostr.EventTemplate)
  | SigningTorrentEvent (fileEvent : Nostr.SignedNostrEvent) (template : Nostr.EventTemplate)
  | SignOver.

Record SignRun := mkSign {
  sg_revision : nat; sg_publication : Nostr.HybridPublication; sg_pubkey : jstr; sg_profile : NetworkProfile; sg_stage : sign_stage }.
#[export] Instance SignRun_eta : Eta SignRun := λ r,
  mkSign (sg_revision r) (sg_publication r) (sg_pubkey r) (sg_profile r) (sg_stage r).

(** [pb_events] are those still to publish, the first being published now. *)
Record PublishRun := mkPublish {
  pb_controller : nat; pb_revision : nat; pb_profile : NetworkProfile; pb_targets : list jstr; pb_events : list Nostr.SignedNostrEvent;
  pb_over : bool }.
#[export] Instance PublishRun_eta : Eta PublishRun := λ r,
  mkPublish (pb_controller r) (pb_revision r) (pb_profile r) (pb_targets r) (pb_events r) (pb_over r).

Record SavedFileRun := mkSavedFile { sf_revision : nat; sf_over : bool }.
#[export] Instance SavedFileRun_eta : Eta SavedFileRun := λ r, mkSavedFile (sf_revision r) (sf_over r).

Record LookupRun := mkLookup {
  lk_controller : nat; lk_revision : nat; lk_profile : NetworkProfile; lk_eventId : jstr; lk_targets : list jstr; lk_over : bool }.
#[export] Instance LookupRun_eta : Eta LookupRun := λ r,
  mkLookup (lk_controller r) (lk_revision r) (lk_profile r) (lk_eventId r) (lk_targets r) (lk_over r).

Inductive pool_stage : Type :=
  | SigningReplacements (manifest : Pool.PoolManifest) | ReadingPool | RepairingPool | FetchingPool | DecryptingPool (ciphertext : bytes)
  | PoolOver.

Record PoolRun := mkPoolRun {
  pl_controller : nat; pl_revision : nat; pl_key : jstr; pl_receipt : Pool.PoolReceipt; pl_profile : NetworkProfile; pl_external : bool;
  pl_stage : pool_stage }.
#[export] Instance PoolRun_eta : Eta PoolRun := λ r,
  mkPoolRun (pl_controller r) (pl_revision r) (pl_key r) (pl_receipt r) (pl_profile r) (pl_external r) (pl_stage r).

Inductive fetch_stage : Type := FetchingBlob | DecryptingBlob (blob : bytes) (key : jstr) | FetchOver.

Record FetchRun := mkFetch {
  ft_controller : nat; ft_revision : nat; ft_resolved : nat * Nostr.ResolvedHybridEvent; ft_profile : NetworkProfile; ft_replica : jstr;
  ft_stage : fetch_stage }.
#[export] Instance FetchRun_eta : Eta FetchRun := λ r,
  mkFetch (ft_controller r) (ft_revision r) (ft_resolved r) (ft_profile r) (ft_replica r) (ft_stage r).

(** The attempt is that of [downloadFromSwarm]; [session] is the provisional
    one. *)
Inductive swarm_stage : Type :=
  | StoppingPrevious
  | Joining (controller : nat) (attempt : Swarm.Attempt (bytes * Swarm.StopHandle))
  | DecryptingSwarm (controller : nat) (session : nat) (blob : bytes) (key : jstr)
  | LeavingSwarm (controller : nat) (session : nat)
  | SwarmOver.

Record SwarmRun := mkSwarm {
  sw_revision : nat; sw_attempts : nat; sw_resolved : nat * Nostr.ResolvedHybridEvent; sw_profile : NetworkProfile; sw_stage : swarm_stage }.
#[export] Instance SwarmRun_eta : Eta SwarmRun := λ r,
  mkSwarm (sw_revision r) (sw_attempts r) (sw_resolved r) (sw_profile r) (sw_stage r).

Record Runs := mkRuns {
  connects : list ConnectRun; inspections : list InspectRun; uploads : list UploadRun; poolUploads : list PoolUploadRun;
  seeds : list SeedRun; stops : list StopRun; signings : list SignRun; publications : list PublishRun; savedFiles : list SavedFileRun;
  lookups : list LookupRun; poolRuns : list PoolRun; fetches : list FetchRun; swarms : list SwarmRun }.

#[export] Instance Runs_eta : Eta Runs := λ r,
  mkRuns (connects r) (inspections r) (uploads r) (poolUploads r) (seeds r) (stops r) (signings r) (publications r) (savedFiles r)
    (lookups r) (poolRuns r) (fetches r) (swarms r).

(** What the page starts that others may see, in order. *)
Inductive op : Type :=
  | AsksForKey (external : bool)
  | Uploads (file : Nostr.InspectedFile) (server pubkey : jstr) (profile : NetworkProfile)
  | SignsReceipt (manifest : Pool.PoolManifest) (owner : jstr) | UploadsPool (receipt : Pool.PoolReceipt) (owner : jstr)
  | JoinsAsSeeder (file : Nostr.InspectedFile) (profile : NetworkProfile)
  | SignsFileEvent (publication : Nostr.HybridPublication) (pubkey : jstr) | SignsTorrentEvent (publication : Nostr.HybridPublication) (pubkey : jstr)
  | Publishes (targets : list jstr) (event : Nostr.SignedNostrEvent) (profile : NetworkProfile)
  | LooksUp (targets : list jstr) (eventId : jstr) (profile : NetworkProfile)
  | FetchesBlob (event : Nostr.ResolvedHybridEvent) (replica : jstr) (profile : NetworkProfile)
  | FetchesPool (receipt : Pool.PoolReceipt)
  | JoinsAsDownloader (event : Nostr.ResolvedHybridEvent) (profile : NetworkProfile).

(** ** The page

    [accepted] are the signatures the external signer's panel has handed on, and
    [identities] counts the results that are compared by identity. *)

Record Page := mkPage {
  form : Form; buttons : Buttons; pub : Publishing; ret : Retrieving; links : Links; pubkey : option jstr; signing : option SigningRequest;
  profileRevision : nat; pendingSeedStops : nat; pendingRetrievalStops : nat; pageSessionEnded : bool; aborted : list bool;
  peers : list Peer; runs : Runs; ops : list op; accepted : list (SigningRequest * Nostr.SignedNostrEvent); identities : nat }.

#[export] Instance Page_eta : Eta Page := λ s,
  mkPage (form s) (buttons s) (pub s) (ret s) (links s) (pubkey s) (signing s) (profileRevision s) (pendingSeedStops s)
    (pendingRetrievalStops s) (pageSessionEnded s) (aborted s) (peers s) (runs s) (ops s) (accepted s) (identities s).

Definition on_form (f : Form → Form) (s : Page) : Page := s <| form := f (form s) |>.
Definition on_buttons (f : Buttons → Buttons) (s : Page) : Page := s <| buttons := f (buttons s) |>.
Definition on_pub (f : Publishing → Publishing) (s : Page) : Page := s <| pub := f (pub s) |>.
Definition on_ret (f : Retrieving → Retrieving) (s : Page) : Page := s <| ret := f (ret s) |>.
Definition on_links (f : Links → Links) (s : Page) : Page := s <| links := f (links s) |>.
Definition on_runs (f : Runs → Runs) (s : Page) : Page := s <| runs := f (runs s) |>.
Definition starts (o : op) (s : Page) : Page := s <| ops := ops s ++ [o] |>.

(** The page as it is loaded. *)
Definition first_form : Form :=
  mkForm false false SingleNode true false false false false false false false [] [] [] [] [] [] [] [] [] [] (lit "2") (lit "2") (lit "4") []
    None None.
Definition first_buttons : Buttons := mkButtons true true true true true true true false false true true true.
Definition no_publication : Publishing :=
  mkPublishing None None None [] None None false None None [] None None None None None 0.
Definition no_retrieval : Retrieving := mkRetrieving None None None None None false None 0 0.
Definition first_page : Page :=
  mkPage first_form first_buttons no_publication no_retrieval (mkLinks [] [] [] [] [] [] [] 0) None None 0 0 0 false [] []
    (mkRuns [] [] [] [] [] [] [] [] [] [] [] [] []) [] [] 0.

(** ** Reading the controls *)

Definition profile (s : Page) : NetworkProfile := if tor_chosen (form s) then tor else direct.

(** [assertTorReady()] does not throw. *)
Definition assertTorReady (s : Page) : bool := negb (tor_chosen (form s)) || torConsent (form s).

Definition is_aborted (s : Page) (c : nat) : bool := default false (aborted s !! c).

Definition new_controller (s : Page) : Page * nat := (s <| aborted := aborted s ++ [false] |>, length (aborted s)).

(** [controller.abort()]: the signal aborts, and an attempt to seed or to
    download that was given it hears of it. *)
Definition abort_seed (c : nat) (r : SeedRun) : SeedRun :=
  if bool_decide (sd_controller r = c) then r <| sd_attempt := Swarm.abort_attempt Swarm.seeding_cancelled (sd_attempt r) |> else r.
Definition abort_swarm (c : nat) (r : SwarmRun) : SwarmRun :=
  match sw_stage r with
  | Joining controller attempt =>
      if bool_decide (controller = c) then r <| sw_stage := Joining controller (Swarm.abort_attempt Swarm.download_cancelled attempt) |> else r
  | _ => r
  end.
Definition abort (c : nat) (s : Page) : Page :=
  if is_aborted s c then s
  else on_runs (λ r, r <| seeds := map (abort_seed c) (seeds r) |> <| swarms := map (abort_swarm c) (swarms r) |>)
         (s <| aborted := <[c := true]> (aborted s) |>).
Definition abort_opt (c : option nat) (s : Page) : Page := match c with Some c => abort c s | None => s end.

(** ** Links *)

Inductive target : Type := PublishLinks | SignedEventLinks | ResolvedEventLinks | RecoveryLinks | RetrieveLinks | SigningLinks.

Definition links_of (t : target) (l : Links) : list Link :=
  match t with
  | PublishLinks => publishLinks l | SignedEventLinks => signedEventLinks l | ResolvedEventLinks => resolvedEventLinks l
  | RecoveryLinks => recoveryLinks l | RetrieveLinks => retrieveLinks l | SigningLinks => externalSigningLinks l
  end.
Definition set_links (t : target) (v : list Link) (l : Links) : Links :=
  match t with
  | PublishLinks => l <| publishLinks := v |> | SignedEventLinks => l <| signedEventLinks := v |>
  | ResolvedEventLinks => l <| resolvedEventLinks := v |> | RecoveryLinks => l <| recoveryLinks := v |>
  | RetrieveLinks => l <| retrieveLinks := v |> | SigningLinks => l <| externalSigningLinks := v |>
  end.

(** The addresses of the links are revoked, and the links go. *)
Definition clearDownloads (t : target) : Page → Page :=
  on_links (λ l, set_links t [] (l <| objectUrls := filter (λ u, u ∉ map l_url (links_of t l)) (objectUrls l) |>)).

Definition addDownload (t : target) (what : saved) : Page → Page :=
  on_links (λ l, set_links t (links_of t l ++ [mkLink (url_count l) what])
                   (l <| objectUrls := objectUrls l ++ [url_count l] |> <| url_count := S (url_count l) |>)).

(** ** Buttons *)

Definition is_some {A} (o : option A) : bool := bool_decide (is_Some o).

Definition updateUploadButton (s : Page) : Page :=
  let p := pub s in
  let keyReady := negb (is_some (protectedEnvelope p)) || keySavedConsent (form s) in
  on_buttons (λ b, b <| uploadButton := negb (uploadConsent (form s) && is_some (inspected p) && is_some (pubkey s) && keyReady
    && negb (is_some (descriptor p)) && negb (poolUploadComplete p) && negb (is_some (uploadController p))
    && negb (is_some (downloadController (ret s)))) |>) s.

Definition seedStartAllowed (s : Page) : bool :=
  let p := pub s in
  seedConsent (form s) && is_some (inspected p) && is_some (torrentPlan p) && negb (is_some (seedSession p)) && negb (is_some (seedController p))
  && Nat.eqb (pendingSeedStops s) 0 && bool_decide (profile s = direct).

(** [resolved?.magnetUri] *)
Definition has_magnet (r : Retrieving) : bool :=
  match resolved r with
  | Some (_, event) => match Nostr.rh_magnet event with Some (magnet, _) => negb (bool_decide (magnet = [])) | None => false end
  | None => false
  end.

Definition receipt_author (receipt : Pool.PoolReceipt) : jstr := Nostr.pubkey (Pool.r_event receipt).

Definition updateRetrievalButtons (s : Page) : Page :=
  let r := ret s in
  let busy := is_some (downloadController r) in
  on_buttons (λ b, b
    <| blossomFetchButton := busy || (negb (is_some (resolved r)) && negb (is_some (resolvedPool r))) |>
    <| repairPoolButton := busy || is_some (uploadController (pub s)) || negb (repairPoolConsent (form s))
         || match resolvedPool r with Some receipt => negb (bool_decide (pubkey s = Some (receipt_author receipt))) | None => true end |>
    <| swarmFetchButton := busy || negb (Nat.eqb (pendingRetrievalStops s) 0)
         || negb (bool_decide (profile s = direct) && swarmConsent (form s) && has_magnet r) |>
    <| cancelDownloadButton := negb busy |>) s.

Definition refreshPeerStartButton (kind : PeerKind) (s : Page) : Page :=
  match kind with
  | SeedPeer => on_buttons (λ b, b <| seedButton := negb (seedStartAllowed s) |>) s
  | RetrievalPeer => updateRetrievalButtons s
  end.

(** ** Peer sessions *)

Definition pending (kind : PeerKind) (f : nat → nat) (s : Page) : Page :=
  match kind with
  | SeedPeer => s <| pendingSeedStops := f (pendingSeedStops s) |>
  | RetrievalPeer => s <| pendingRetrievalStops := f (pendingRetrievalStops s) |>
  end.

(** [session.stop()] *)
Definition stop_peer (session : nat) (s : Page) : Page :=
  s <| peers := alter (λ p, p <| peer_handle := Swarm.stop_client (peer_handle p) |>) session (peers s) |>.

(** [stopPeerSession(session, kind)] up to its await. *)
Definition stopPeerSession (session : nat) (kind : PeerKind) (awaited_by : option nat) (s : Page) : Page :=
  let s := stop_peer session (refreshPeerStartButton kind (pending kind S s)) in
  on_runs (λ r, r <| stops := stops r ++ [mkStopRun kind awaited_by false] |>) s.

Definition confirmPeerStoppedInBackground (session : nat) (kind : PeerKind) : Page → Page := stopPeerSession session kind None.

(** ** The external signer *)

Definition clearExternalSigningPanel (s : Page) : Page :=
  clearDownloads SigningLinks (on_form (λ f, f <| externalSignedEvent := [] |>) s).

Definition abandonExternalSigning (s : Page) : Page := clearExternalSigningPanel (s <| signing := None |>).

(** ** Resets *)

Definition resetPublicationAfterInspection (s : Page) : Page :=
  let s := on_pub (λ p, p <| publicationRevision := S (publicationRevision p) |>) s in
  let s := if is_some (resolvedPool (ret s)) && is_some (downloadController (ret s))
           then on_form (λ f, f <| repairPoolConsent := false |>) (abort_opt (downloadController (ret s)) s) else s in
  let s := abandonExternalSigning s in
  let s := on_pub (λ p, p <| inspectionController := None |>) (abort_opt (inspectionController (pub s)) s) in
  let s := on_pub (λ p, p <| uploadController := None |>) (abort_opt (uploadController (pub s)) s) in
  let s := on_pub (λ p, p <| publishController := None |>) (abort_opt (publishController (pub s)) s) in
  let s := on_pub (λ p, p <| descriptor := None |> <| publishedPool := None |> <| poolUploadComplete := false |> <| torrentPlan := None |>
                          <| signedEvents := [] |>) s in
  let s := on_pub (λ p, p <| seedController := None |>) (abort_opt (seedController (pub s)) s) in
  let s := match seedSession (pub s) with Some session => confirmPeerStoppedInBackground session SeedPeer s | None => s end in
  let s := on_pub (λ p, p <| seedSession := None |>) s in
  let s := on_form (λ f, f <| uploadConsent := false |> <| keySavedConsent := false |> <| seedConsent := false |> <| publishConsent := false |>) s in
  let s := on_buttons (λ b, b <| cancelUploadButton := true |> <| stopSeedButton := true |> <| uploadButton := true |> <| seedButton := true |>
                               <| signButton := true |> <| publishButton := true |>) s in
  clearDownloads SignedEventLinks (clearDownloads PublishLinks s).

Definition resetInspection (s : Page) : Page :=
  let s := on_pub (λ p, p <| inspectionController := None |>) (abort_opt (inspectionController (pub s)) s) in
  let s := resetPublicationAfterInspection s in
  let s := on_pub (λ p, p <| preparedPool := None |> <| sourceInspected := None |> <| inspected := None |> <| protectedEnvelope := None |>
                          <| recoveryKeyOutput := [] |>) s in
  clearDownloads RecoveryLinks s.

Definition resetResolution (s : Page) : Page :=
  let s := if is_some (resolvedPool (ret s)) && is_some (downloadController (ret s)) then abandonExternalSigning s else s in
  let s := on_ret (λ r, r <| resolutionRevision := S (resolutionRevision r) |>) s in
  let s := on_ret (λ r, r <| lookupController := None |>) (abort_opt (lookupController (ret s)) s) in
  let s := on_ret (λ r, r <| downloadController := None |> <| downloadTransport := None |> <| poolRepairInProgress := false |>)
             (abort_opt (downloadController (ret s)) s) in
  let s := match downloadSession (ret s) with Some session => confirmPeerStoppedInBackground session RetrievalPeer s | None => s end in
  let s := on_ret (λ r, r <| downloadSession := None |> <| resolved := None |> <| resolvedPool := None |>) s in
  let s := on_form (λ f, f <| repairPoolConsent := false |> <| poolReplacements := [] |> <| swarmConsent := false |> <| recoveryKeyInput := [] |>) s in
  let s := on_buttons (λ b, b <| resolveButton := false |> <| verifySavedEventButton := false |> <| cancelDownloadButton := true |>
                               <| repairPoolButton := true |> <| blossomFetchButton := true |> <| swarmFetchButton := true |>) s in
  clearDownloads ResolvedEventLinks (clearDownloads RetrieveLinks s).

(** [applyProfile()]: what it changes of the controls. *)
Definition applyProfile (s : Page) : Page :=
  if tor_chosen (form s)
  then on_buttons (λ b, b <| seedButton := true |>) (on_form (λ f, f <| trackerInput := [] |> <| seedConsent := false |>) s)
  else on_form (λ f, f <| torConsent := false |>) s.
