(* ===== verification/MainPublish.v ===== *)
(** * The publishing page: publishing a file ([main.ts])

    Connecting a signer, inspecting and sealing a file, uploading it, seeding it,
    signing what names it and publishing that. What a promise comes to is the
    code of the other files, run in whatever world the event brings. *)

From S2P Require Import Prelude JsString Utf8 Json JsValue Security MainState.
From S2P Require Nostr Net Blossom Envelope Torrent Pool Swarm.

Section Publish.
Context `{Unicode} `{Web} `{Numbers} `{Nostr.NostrTools} `{Envelope.Cipher} `{Net.Net} `{Torrent.TorrentLibrary} `{Pool.Ranking}.

(** [signer()] gives one: [nostr] is whether [window.nostr] is there. *)
Definition signer_there (nostr : bool) (s : Page) : bool := external_chosen (form s) || nostr.

Definition relays (s : Page) : res (list jstr) :=
  let! result := parseEndpointList (relayInput (form s)) (λ value, normaliseRelayUrl value (profile s)) in
  check negb (zlen result =? 0) else "Provide at least one Nostr relay.";
  Ok result.

Definition trackers (s : Page) : res (list jstr) :=
  check negb (bool_decide (profile s = tor)) else "WebTorrent is disabled in Tor-only mode.";
  parseEndpointList (trackerInput (form s)) (λ value, normaliseTrackerUrl value direct).

(** ** Connecting a signer *)

Definition connectSigner (nostr : bool) (s : Page) : Page :=
  if assertTorReady s && signer_there nostr s then
    let external := external_chosen (form s) in
    starts (AsksForKey external)
      (on_runs (λ r, r <| connects := connects r ++
         [mkConnect (profileRevision s) (publicationRevision (pub s)) external (externalPubkeyInput (form s)) false] |>) s)
  else s.

Definition candidate_key (r : ConnectRun) (answer : res jstr) : res jstr :=
  let! key := if cn_external r then assertHex64 (trim (cn_typed r)) "External signer public key" else answer in
  assertHex64 key "Signer public key".

(** [getPublicKey()] has settled. *)
Definition connect_settles (n : nat) (answer : res jstr) (s : Page) : Page :=
  match connects (runs s) !! n with
  | Some r =>
      if cn_over r then s
      else
        let s := on_runs (λ rs, rs <| connects := alter (λ r, r <| cn_over := true |>) n (connects rs) |>) s in
        match candidate_key r answer with
        | Throw _ => s
        | Ok candidate =>
            if Nat.eqb (profileRevision s) (cn_profileRevision r) && Nat.eqb (publicationRevision (pub s)) (cn_publicationRevision r)
               && Bool.eqb (external_chosen (form s)) (cn_external r)
            then updateRetrievalButtons (updateUploadButton (s <| pubkey := Some candidate |>))
            else s
        end
  | None => s
  end.

(** ** Inspecting the file *)

Definition inspectFile (s : Page) : Page :=
  match fileInput (form s) with
  | None => s
  | Some file =>
      let '(s, c) := new_controller (resetInspection s) in
      on_runs (λ r, r <| inspections := inspections r ++ [mkInspect c file (publicationRevision (pub s)) InspectingSource] |>)
        (on_pub (λ p, p <| inspectionController := Some c |>) s)
  end.

Definition set_inspection (n : nat) (st : inspect_stage) (s : Page) : Page :=
  on_runs (λ rs, rs <| inspections := alter (λ r, r <| in_stage := st |>) n (inspections rs) |>) s.

(** The end of the handler, with its [finally]. *)
Definition inspect_over (n : nat) (r : InspectRun) (s : Page) : Page :=
  let s := set_inspection n InspectOver s in
  if bool_decide (inspectionController (pub s) = Some (in_controller r)) then on_pub (λ p, p <| inspectionController := None |>) s else s.

(** What was inspected is kept, unless it was superseded. *)
Definition inspected_all (n : nat) (r : InspectRun) (source : Nostr.InspectedFile) (envelope : option Envelope.EncryptedEnvelope)
    (transfer : Nostr.InspectedFile) (pool : option Pool.PreparedPool) (s : Page) : Page :=
  if is_aborted s (in_controller r) || negb (bool_decide (inspectionController (pub s) = Some (in_controller r)))
     || negb (Nat.eqb (publicationRevision (pub s)) (in_revision r)) || negb (bool_decide (option_map fst (fileInput (form s)) = Some (in_file r).1))
  then inspect_over n r s
  else
    let s := on_pub (λ p, p <| preparedPool := pool |> <| sourceInspected := Some source |> <| protectedEnvelope := envelope |>
                            <| inspected := Some (identities s, transfer) |>) s in
    let s := s <| identities := S (identities s) |> in
    let s := match envelope with
             | Some e => addDownload RecoveryLinks (KeyDocument (Envelope.env_recoveryKey e))
                           (on_pub (λ p, p <| recoveryKeyOutput := Envelope.env_recoveryKey e |>) s)
             | None => s
             end in
    inspect_over n r (updateUploadButton (applyProfile s)).

(** [Number(input.value)]; a value that is no integer is refused as 0 is. *)
Definition pool_number (value : jstr) : Z := default 0 (string_number value ≫= Pool.integer_of).

Definition envelope_file (e : Envelope.EncryptedEnvelope) : Net.File :=
  Net.mkFile (Envelope.env_file e) Nostr.WILDBLOOM_ENCRYPTED_FILE_NAME Nostr.WILDBLOOM_ENCRYPTED_MIME_TYPE.

(** After the file, and the envelope where there is one, have been inspected. *)
Definition prepare_layout (n : nat) (r : InspectRun) (source : Nostr.InspectedFile) (envelope : option Envelope.EncryptedEnvelope)
    (transfer : Nostr.InspectedFile) (s : Page) : Page :=
  let f := form s in
  let mode := if bool_decide (storageMode f = ErasureNodes) then Pool.ErasureCoded else Pool.Replicas in
  match storageMode f, envelope with
  | SingleNode, _ => inspected_all n r source envelope transfer None s
  | _, None => inspect_over n r s
  | _, Some e =>
      match Pool.parsePoolNodes (poolNodes f) (profile s) with
      | Throw _ => inspect_over n r s
      | Ok nodes =>
          set_inspection n (PreparingPool source e transfer mode nodes (pool_number (poolRequired f)) (pool_number (poolTotal f))
                              (pool_number (poolCopies f)) (profile s)) s
      end
  end.

(** What the awaited operation of an inspection comes to. *)
Definition inspect_settles (n : nat) (world : Net.state) (signal : nat → bool) (entropy : Envelope.EnvelopeEntropy) (s : Page) : Page :=
  match inspections (runs s) !! n with
  | Some r =>
      let file := (in_file r).2 in
      match in_stage r with
      | InspectingSource =>
          match (Blossom.inspectFile file true world).2 with
          | inl _ => inspect_over n r s
          | inr source => if protectFile (form s) then set_inspection n (Encrypting source) s else prepare_layout n r source None source s
          end
      | Encrypting source =>
          match Envelope.encryptPrivacyEnvelope (Envelope.blob_source (Net.f_bytes file)) (Net.f_name file) (Net.f_type file) signal entropy with
          | Throw _ => inspect_over n r s
          | Ok e => set_inspection n (InspectingTransfer source e) s
          end
      | InspectingTransfer source e =>
          match (Blossom.inspectFile (envelope_file e) false world).2 with
          | inl _ => inspect_over n r s
          | inr transfer => prepare_layout n r source (Some e) transfer s
          end
      | PreparingPool source e transfer mode nodes required total copies profile =>
          match (Pool.preparePool (Envelope.env_file e) mode nodes required total copies profile world).2 with
          | inl _ => inspect_over n r s
          | inr pool => inspected_all n r source (Some e) transfer (Some pool) s
          end
      | InspectOver => s
      end
  | None => s
  end.

(** ** Uploading *)

(** The consents an upload needs. *)
Definition upload_consented (s : Page) : bool :=
  uploadConsent (form s) && (negb (is_some (protectedEnvelope (pub s))) || keySavedConsent (form s)) && assertTorReady s.

Definition lifetime (s : Page) : option Z := if external_chosen (form s) then Some 300 else None.

(** [uploadPreparedPool()] after its receipt. *)
Definition upload_parts (n : nat) (r : PoolUploadRun) (receipt : Pool.PoolReceipt) (s : Page) : Page :=
  let s := on_pub (λ p, p <| publishedPool := Some receipt |>) s in
  let s := addDownload SignedEventLinks (PoolReceiptEvent (Pool.r_event receipt)) (clearDownloads SignedEventLinks s) in
  let options := Pool.mkPoolOptions (Some (profile s)) None (lifetime s) in
  starts (UploadsPool receipt (pu_owner r))
    (on_runs (λ rs, rs <| poolUploads := alter (λ r, r <| pu_stage := UploadingParts receipt options |>) n (poolUploads rs) |>) s).

Definition uploadPreparedPool (nostr : bool) (s : Page) : Page :=
  match preparedPool (pub s), pubkey s with
  | Some prepared, Some owner =>
      if signer_there nostr s then
        let revision := publicationRevision (pub s) in
        let '(s, c) := new_controller s in
        let s := updateRetrievalButtons (updateUploadButton (on_pub (λ p, p <| uploadController := Some c |>) s)) in
        let s := on_buttons (λ b, b <| cancelUploadButton := false |>) s in
        let n := length (poolUploads (runs s)) in
        let r := mkPoolUpload c revision prepared owner SigningReceipt in
        let s := on_runs (λ rs, rs <| poolUploads := poolUploads rs ++ [r] |>) s in
        match publishedPool (pub s) with
        | Some receipt => upload_parts n r receipt s
        | None => starts (SignsReceipt (Pool.pp_manifest prepared) owner) s
        end
      else s
  | _, _ => s
  end.

Definition upload_over (controller : nat) (s : Page) : Page :=
  if bool_decide (uploadController (pub s) = Some controller) then
    updateUploadButton (on_buttons (λ b, b <| cancelUploadButton := true |>) (on_pub (λ p, p <| uploadController := None |>) s))
  else s.

Definition pool_upload_over (n : nat) (r : PoolUploadRun) (s : Page) : Page :=
  let s := on_runs (λ rs, rs <| poolUploads := alter (λ r, r <| pu_stage := PoolUploadOver |>) n (poolUploads rs) |>) s in
  if bool_decide (uploadController (pub s) = Some (pu_controller r)) then updateRetrievalButtons (upload_over (pu_controller r) s) else s.

Definition pool_upload_settles (n : nat) (world : Net.state) (s : Page) : Page :=
  match poolUploads (runs s) !! n with
  | Some r =>
      let stale := is_aborted s (pu_controller r) || negb (Nat.eqb (publicationRevision (pub s)) (pu_revision r)) in
      match pu_stage r with
      | SigningReceipt =>
          match (Pool.signPool (Pool.pp_manifest (pu_prepared r)) (pu_owner r) world).2 with
          | inl _ => pool_upload_over n r s
          | inr receipt => if stale then pool_upload_over n r s else upload_parts n r receipt s
          end
      | UploadingParts receipt options =>
          match (Pool.uploadPool (pu_prepared r) receipt (pu_owner r) options world).2 with
          | inl _ => pool_upload_over n r s
          | inr report =>
              if stale then pool_upload_over n r s
              else pool_upload_over n r (on_pub (λ p, p <| poolUploadComplete := Pool.rep_protected report |>) s)
          end
      | PoolUploadOver => s
      end
  | None => s
  end.

(** The button: what it refuses, and the upload up to its first await. *)
Definition uploadFile (nostr : bool) (s : Page) : Page :=
  match inspected (pub s), pubkey s with
  | Some selected, Some key =>
      if negb (upload_consented s) || is_some (uploadController (pub s)) || is_some (downloadController (ret s)) then s
      else if negb (bool_decide (storageMode (form s) = SingleNode)) then uploadPreparedPool nostr s
      else if negb (signer_there nostr s) then s
      else
        let selectedProfile := profile s in
        match normaliseBlossomServer (blossomInput (form s)) selectedProfile,
              (if bool_decide (selectedProfile = direct) then trackers s else Ok []) with
        | Ok server, Ok selectedTrackers =>
            let external := external_chosen (form s) in
            let revision := publicationRevision (pub s) in
            let '(s, c) := new_controller s in
            let s := updateUploadButton (on_pub (λ p, p <| uploadController := Some c |>) s) in
            let s := on_buttons (λ b, b <| cancelUploadButton := false |>) s in
            starts (Uploads selected.2 server key selectedProfile)
              (on_runs (λ rs, rs <| uploads := uploads rs ++
                 [mkUpload c revision selected key selectedProfile external server selectedTrackers Uploading] |>) s)
        | _, _ => s
        end
  | _, _ => s
  end.

Definition upload_stale (r : UploadRun) (s : Page) : bool :=
  is_aborted s (up_controller r) || negb (Nat.eqb (publicationRevision (pub s)) (up_revision r))
  || negb (bool_decide (option_map fst (inspected (pub s)) = Some (up_inspected r).1)).

Definition set_upload (n : nat) (st : upload_stage) (s : Page) : Page :=
  on_runs (λ rs, rs <| uploads := alter (λ r, r <| up_stage := st |>) n (uploads rs) |>) s.

Definition end_upload (n : nat) (r : UploadRun) (s : Page) : Page := upload_over (up_controller r) (set_upload n UploadOver s).

(** The descriptor, and the torrent where there is one, are staged. *)
Definition upload_done (n : nat) (r : UploadRun) (d : Nostr.BlobDescriptor) (plan : option Torrent.HybridTorrent) (s : Page) : Page :=
  let s := on_pub (λ p, p <| descriptor := Some d |> <| torrentPlan := plan |>) s in
  let s := clearDownloads PublishLinks s in
  let s := match plan with
           | Some t =>
               let s := addDownload PublishLinks (TorrentMetadata (Torrent.ht_bytes t)) s in
               on_buttons (λ b, b <| seedButton := negb (seedStartAllowed s) |>) s
           | None => s
           end in
  end_upload n r (on_buttons (λ b, b <| signButton := false |>) s).

Definition upload_options (r : UploadRun) : Blossom.BlossomRequestOptions :=
  Blossom.mkOptions (up_profile r) None (if up_external r then Some 300 else None) None.

Definition upload_settles (n : nat) (world : Net.state) (s : Page) : Page :=
  match uploads (runs s) !! n with
  | Some r =>
      match up_stage r with
      | Uploading =>
          match (Blossom.uploadToBlossom (up_inspected r).2 (up_server r) (up_pubkey r) (upload_options r) world).2 with
          | inl _ => end_upload n r s
          | inr d =>
              if upload_stale r s then end_upload n r s
              else match up_trackers r with [] => upload_done n r d None s | _ => set_upload n (BuildingTorrent d) s end
          end
      | BuildingTorrent d =>
          match Torrent.createHybridTorrent (up_inspected r).2 (Nostr.bd_url d) (up_trackers r) with
          | Throw _ => end_upload n r s
          | Ok plan => if upload_stale r s then end_upload n r s else upload_done n r d (Some plan) s
          end
      | UploadOver => s
      end
  | None => s
  end.

Definition cancelUpload (s : Page) : Page :=
  match uploadController (pub s) with
  | Some c => on_buttons (λ b, b <| cancelUploadButton := true |>) (abandonExternalSigning (abort c s))
  | None => s
  end.

Definition withdraw_upload (s : Page) : Page := abandonExternalSigning (abort_opt (uploadController (pub s)) s).

Definition uploadConsent_changes (on : bool) (s : Page) : Page :=
  let s := on_form (λ f, f <| uploadConsent := on |>) s in updateUploadButton (if on then s else withdraw_upload s).

Definition keySavedConsent_changes (on : bool) (s : Page) : Page :=
  let s := on_form (λ f, f <| keySavedConsent := on |>) s in updateUploadButton (if on then s else withdraw_upload s).
End Publish.
