(* ===== verification/MainSign.v ===== *)
(** * The publishing page: seeding, signing and publishing ([main.ts])

    What becomes of a file once it is stored: seeding it from this browser,
    signing the events that name it, putting them on relays, and the panel that
    hands an event to an external signer and takes its signature back. *)

From S2P Require Import Prelude JsString Utf8 Json JsValue Security MainState MainPublish.
From S2P Require Nostr Net Torrent Swarm.

Section Sign.
Context `{Unicode} `{Web} `{Numbers} `{Nostr.NostrTools}.

(** ** Peer sessions end *)

Definition drop_pending (kind : PeerKind) (s : Page) : Page := pending kind Nat.pred s.

(** [stopPeerSession]: its await has settled. What comes after it in the run of
    a swarm download is in MainRetrieve.v. *)
Definition peer_stopped (n : nat) (r : StopRun) (ok : bool) (s : Page) : Page :=
  let s := on_runs (λ rs, rs <| stops := alter (λ r, r <| st_over := true |>) n (stops rs) |>) s in
  let s := if ok then s
           else match st_kind r with
                | SeedPeer => on_form (λ f, f <| seedConsent := false |>) s
                | RetrievalPeer => on_form (λ f, f <| swarmConsent := false |>) s
                end in
  refreshPeerStartButton (st_kind r) (drop_pending (st_kind r) s).

(** ** Seeding *)

Definition seedConsent_changes (on : bool) (s : Page) : Page :=
  let s := on_form (λ f, f <| seedConsent := on |>) s in
  let s := if on then s
           else
             let s := on_pub (λ p, p <| seedController := None |>) (abort_opt (seedController (pub s)) s) in
             let s := match seedSession (pub s) with
                      | Some session => confirmPeerStoppedInBackground session SeedPeer (on_pub (λ p, p <| seedSession := None |>) s)
                      | None => s
                      end in
             on_buttons (λ b, b <| stopSeedButton := true |>) s in
  on_buttons (λ b, b <| seedButton := negb (seedStartAllowed s) |>) s.

(** The button, up to [await startBrowserSeeding(...)]. *)
Definition startSeeding (s : Page) : Page :=
  match inspected (pub s), torrentPlan (pub s) with
  | Some (_, file), Some plan =>
      if negb (seedConsent (form s)) || is_some (seedController (pub s)) || is_some (seedSession (pub s)) || negb (Nat.eqb (pendingSeedStops s) 0)
      then s
      else
        let '(s, c) := new_controller s in
        let s := on_pub (λ p, p <| seedController := Some c |>) s in
        let s := on_buttons (λ b, b <| seedButton := true |> <| stopSeedButton := false |>) s in
        starts (JoinsAsSeeder file (profile s))
          (on_runs (λ r, r <| seeds := seeds r ++ [mkSeed c file plan (Swarm.startBrowserSeeding (profile s) false) false] |>) s)
  | _, _ => s
  end.

(** A peer session of the library, as the page keeps it. *)
Definition new_peer (kind : PeerKind) (handle : Swarm.StopHandle) (s : Page) : Page * nat :=
  (s <| peers := peers s ++ [mkPeer kind handle] |>, length (peers s)).

(** [startBrowserSeeding] has settled. *)
Definition seed_settles (n : nat) (r : SeedRun) (result : jstr + Swarm.StopHandle) (s : Page) : Page :=
  let s := on_runs (λ rs, rs <| seeds := alter (λ r, r <| sd_over := true |>) n (seeds rs) |>) s in
  let current := bool_decide (seedController (pub s) = Some (sd_controller r)) in
  match result with
  | inr handle =>
      let '(s, session) := new_peer SeedPeer handle s in
      let s := on_pub (λ p, p <| seedSession := Some session |>) s in
      let s := if current then on_pub (λ p, p <| seedController := None |>) s else s in
      on_buttons (λ b, b <| stopSeedButton := false |>) s
  | inl _ =>
      if current then
        let s := on_pub (λ p, p <| seedController := None |>) s in
        on_buttons (λ b, b <| stopSeedButton := true |> <| seedButton := negb (seedStartAllowed s) |>) s
      else s
  end.

(** What comes after the await, once the attempt has an outcome. *)
Definition seed_continues (n : nat) (s : Page) : Page :=
  match seeds (runs s) !! n with
  | Some r =>
      match sd_over r, Swarm.outcome (sd_attempt r) with
      | false, Some result => seed_settles n r result s
      | _, _ => s
      end
  | None => s
  end.

(** Something happens to an attempt; what it settles with is taken at once. *)
Definition seed_event (n : nat) (e : Swarm.seed_event) (s : Page) : Page :=
  let move (r : SeedRun) := r <| sd_attempt := Swarm.seed_step (sd_inspected r) (Torrent.ht_plan (sd_plan r)) (Torrent.ht_webSeed (sd_plan r))
                                                 (sd_attempt r) e |> in
  seed_continues n (on_runs (λ rs, rs <| seeds := alter move n (seeds rs) |>) s).

Definition stopSeeding (s : Page) : Page :=
  match seedController (pub s), seedSession (pub s) with
  | Some c, _ => on_buttons (λ b, b <| stopSeedButton := true |>) (abort c s)
  | None, Some session =>
      let s := on_buttons (λ b, b <| stopSeedButton := true |>) (on_pub (λ p, p <| seedSession := None |>) s) in
      stopPeerSession session SeedPeer None s
  | None, None => s
  end.

(** ** Signing what names the file *)

Definition the_publication (file : Nostr.InspectedFile) (d : Nostr.BlobDescriptor) (s : Page) : Nostr.HybridPublication :=
  Nostr.mkPublication file d (option_map Torrent.ht_plan (torrentPlan (pub s)))
    (if is_some (protectedEnvelope (pub s)) then Some Nostr.Scheme2 else None).

Definition set_signing (n : nat) (st : sign_stage) (s : Page) : Page :=
  on_runs (λ rs, rs <| signings := alter (λ r, r <| sg_stage := st |>) n (signings rs) |>) s.

Definition sign_over (n : nat) (r : SignRun) (s : Page) : Page :=
  let s := set_signing n SignOver s in
  if Nat.eqb (publicationRevision (pub s)) (sg_revision r) then on_buttons (λ b, b <| signButton := false |>) s else s.

(** The button, up to the first signature; a publication that makes no event is
    given up at once. *)
Definition signEvents (nostr : bool) (now : Z) (s : Page) : Page :=
  match inspected (pub s), descriptor (pub s), pubkey s with
  | Some (_, file), Some d, Some key =>
      if negb (assertTorReady s) || negb (signer_there nostr s) then s
      else
        let publication := the_publication file d s in
        match Nostr.buildFileEvent publication now with
        | Throw _ => on_buttons (λ b, b <| signButton := false |>) s
        | Ok template =>
            let s := on_buttons (λ b, b <| signButton := true |>) s in
            starts (SignsFileEvent publication key)
              (on_runs (λ r, r <| signings := signings r ++
                 [mkSign (publicationRevision (pub s)) publication key (profile s) (SigningFileEvent template)] |>) s)
        end
  | _, _, _ => s
  end.

(** The events are kept, the file's first. *)
Definition signed (n : nat) (r : SignRun) (fileEvent : Nostr.SignedNostrEvent) (events : list Nostr.SignedNostrEvent) (s : Page) : Page :=
  let s := on_pub (λ p, p <| signedEvents := events |>) s in
  let s := addDownload SignedEventLinks (SignedFileEvent fileEvent) (clearDownloads SignedEventLinks s) in
  let s := on_buttons (λ b, b <| publishButton := negb (publishConsent (form s)) || negb (bool_decide (storageMode (form s) = SingleNode)) |>) s in
  sign_over n r s.

(** [signEventExactly] has settled; [answer] is what the signer gives. *)
Definition sign_settles (n : nat) (answer : res (option json)) (now : Z) (s : Page) : Page :=
  match signings (runs s) !! n with
  | Some r =>
      let stale := negb (Nat.eqb (publicationRevision (pub s)) (sg_revision r)) || negb (bool_decide (profile s = sg_profile r)) in
      match sg_stage r with
      | SigningFileEvent template =>
          match Nostr.signEventExactly template (λ _, answer) (sg_pubkey r) with
          | Throw _ => sign_over n r s
          | Ok fileEvent =>
              if stale then sign_over n r s
              else match Nostr.hp_torrent (sg_publication r) with
                   | None => signed n r fileEvent [fileEvent] s
                   | Some plan =>
                       starts (SignsTorrentEvent (sg_publication r) (sg_pubkey r))
                         (set_signing n (SigningTorrentEvent fileEvent (Nostr.buildTorrentEvent (Nostr.hp_inspected (sg_publication r)) plan now)) s)
                   end
          end
      | SigningTorrentEvent fileEvent template =>
          match Nostr.signEventExactly template (λ _, answer) (sg_pubkey r) with
          | Throw _ => sign_over n r s
          | Ok torrentEvent => if stale then sign_over n r s else signed n r fileEvent [fileEvent; torrentEvent] s
          end
      | SignOver => s
      end
  | None => s
  end.

(** ** Publishing to relays *)

Definition publishConsent_changes (on : bool) (s : Page) : Page :=
  let s := on_form (λ f, f <| publishConsent := on |>) s in
  let s := if on then s else abort_opt (publishController (pub s)) s in
  on_buttons (λ b, b <| publishButton := negb (on && negb (bool_decide (signedEvents (pub s) = []))) |>) s.

Definition set_publish (n : nat) (f : PublishRun → PublishRun) (s : Page) : Page :=
  on_runs (λ rs, rs <| publications := alter f n (publications rs) |>) s.

Definition publish_over (n : nat) (r : PublishRun) (s : Page) : Page :=
  let s := set_publish n (λ r, r <| pb_over := true |>) s in
  if bool_decide (publishController (pub s) = Some (pb_controller r)) then on_pub (λ p, p <| publishController := None |>) s else s.

Definition publishEvents (s : Page) : Page :=
  match signedEvents (pub s) with
  | [] => s
  | event :: _ =>
      if negb (publishConsent (form s)) || negb (assertTorReady s) || is_some (publishController (pub s)) then s
      else match relays s with
           | Throw _ => s
           | Ok targets =>
               let '(s, c) := new_controller s in
               let s := on_buttons (λ b, b <| publishButton := true |>) (on_pub (λ p, p <| publishController := Some c |>) s) in
               starts (Publishes targets event (profile s))
                 (on_runs (λ r, r <| publications := publications r ++
                    [mkPublish c (publicationRevision (pub s)) (profile s) targets (signedEvents (pub s)) false] |>) s)
           end
  end.

(** [publishToRelays] of one event has settled: [ok] unless it threw. *)
Definition publish_settles (n : nat) (ok : bool) (s : Page) : Page :=
  match publications (runs s) !! n with
  | Some r =>
      if pb_over r then s
      else if negb ok || is_aborted s (pb_controller r) || negb (Nat.eqb (publicationRevision (pub s)) (pb_revision r))
              || negb (bool_decide (profile s = pb_profile r))
      then publish_over n r s
      else match tail (pb_events r) with
           | [] => publish_over n r s
           | event :: rest =>
               starts (Publishes (pb_targets r) event (pb_profile r)) (set_publish n (λ r, r <| pb_events := event :: rest |>) s)
           end
  | None => s
  end.

(** ** The external signer's panel *)

(** An awaited operation asks the panel to sign. *)
Definition requestExternalSignature (template : Nostr.EventTemplate) (s : Page) : Page :=
  match signing s, assertHex64 (trim (externalPubkeyInput (form s))) "External signer public key" with
  | None, Ok key =>
      let s := on_form (λ f, f <| externalSignedEvent := [] |>) s in
      let s := addDownload SigningLinks (UnsignedEvent template) (clearDownloads SigningLinks s) in
      s <| signing := Some (mkSigning template key) |>
  | _, _ => s
  end.

Definition acceptExternalSignature (s : Page) : Page :=
  match signing s with
  | None => s
  | Some request =>
      match Nostr.parseSignedEventJson (sr_template request) (externalSignedEvent (form s)) (Some (sr_expectedPubkey request)) with
      | Throw _ => s
      | Ok event =>
          let s := clearExternalSigningPanel (s <| signing := None |>) in
          s <| accepted := accepted s ++ [(request, event)] |>
      end
  end.

Definition cancelExternalSignature (s : Page) : Page :=
  match signing s with
  | None => s
  | Some _ =>
      let s := abort_opt (uploadController (pub s)) s in
      let s := if is_some (resolvedPool (ret s)) then abort_opt (downloadController (ret s)) s else s in
      abandonExternalSigning s
  end.

(** ** What is changed above the publication *)

(** The choice of the network profile. *)
Definition profile_changes (chosen : bool) (s : Page) : Page :=
  let s := on_form (λ f, f <| tor_chosen := chosen |>) s in
  let s := s <| profileRevision := S (profileRevision s) |> in
  let s := if bool_decide (storageMode (form s) = SingleNode) then s else resetInspection s in
  let s := resetResolution (resetPublicationAfterInspection s) in
  let s := on_form (λ f, f <| externalPubkeyInput := [] |> <| blossomInput := [] |> <| replicaInput := [] |> <| relayInput := [] |>
                           <| trackerInput := [] |> <| savedEventInput := [] |> <| savedEventFile := None |>) (s <| pubkey := None |>) in
  applyProfile s.

Definition abort_pool_download (s : Page) : Page :=
  if is_some (resolvedPool (ret s)) then abort_opt (downloadController (ret s)) s else s.

Definition signingMethod_changes (external : bool) (s : Page) : Page :=
  let s := on_form (λ f, f <| external_chosen := external |>) s in
  let s := resetPublicationAfterInspection (abort_pool_download s) in
  on_form (λ f, f <| externalPubkeyInput := [] |>) (s <| pubkey := None |>).

Definition externalPubkey_typed (value : jstr) (s : Page) : Page :=
  let s := on_form (λ f, f <| externalPubkeyInput := value |>) s in
  if negb (is_some (pubkey s)) && negb (is_some (descriptor (pub s))) && negb (is_some (signing s)) then s
  else abort_pool_download (resetPublicationAfterInspection s) <| pubkey := None |>.

Definition torConsent_changes (on : bool) (s : Page) : Page :=
  let s := on_form (λ f, f <| torConsent := on |>) s in
  if on || negb (tor_chosen (form s)) then s
  else
    let s := s <| profileRevision := S (profileRevision s) |> <| pubkey := None |> in
    resetResolution (resetPublicationAfterInspection (on_form (λ f, f <| externalPubkeyInput := [] |>) s)).

(** The layout of the storage: a mode, or one of its four fields. *)
Inductive layout_input : Type :=
  | SetMode (mode : StorageMode) | SetNodes (value : jstr) | SetCopies (value : jstr) | SetRequired (value : jstr) | SetTotal (value : jstr).

Definition set_layout (i : layout_input) (f : Form) : Form :=
  match i with
  | SetMode mode => f <| storageMode := mode |> | SetNodes v => f <| poolNodes := v |> | SetCopies v => f <| poolCopies := v |>
  | SetRequired v => f <| poolRequired := v |> | SetTotal v => f <| poolTotal := v |>
  end.

Definition layout_changes (i : layout_input) (s : Page) : Page :=
  let s := on_form (set_layout i) s in
  let s := if bool_decide (storageMode (form s) = SingleNode) then s else on_form (λ f, f <| protectFile := true |>) s in
  applyProfile (resetResolution (resetInspection s)).

Definition file_chosen (file : option Net.File) (s : Page) : Page :=
  let s := on_form (λ f, f <| fileInput := option_map (pair (identities s)) file |>) s in
  resetInspection (s <| identities := S (identities s) |>).

Inductive endpoint_input : Type := BlossomField | RelayField | TrackerField | ReplicaField.

Definition set_endpoint (i : endpoint_input) (v : jstr) (f : Form) : Form :=
  match i with
  | BlossomField => f <| blossomInput := v |> | RelayField => f <| relayInput := v |>
  | TrackerField => f <| trackerInput := v |> | ReplicaField => f <| replicaInput := v |>
  end.

Definition endpoint_changes (i : endpoint_input) (v : jstr) (s : Page) : Page :=
  resetResolution (resetPublicationAfterInspection (on_form (set_endpoint i v) s)).

Definition protectFile_changes (on : bool) (s : Page) : Page :=
  applyProfile (resetInspection (on_form (λ f, f <| protectFile := on |>) s)).
End Sign.
