(* ===== verification/MainRetrieve.v ===== *)
(** * The publishing page: retrieving a file ([main.ts])

    Resolving a signed event or a pool receipt, fetching what it names from a
    server, a pool or the swarm, repairing a pool, and offering the verified file
    to save. What a promise comes to is the code of the other files, run in
    whatever world the event brings. *)

From S2P Require Import Prelude JsString Utf8 Bytes Json JsValue Security MainState MainPublish MainSign.
From S2P Require Nostr Net Blossom Envelope Pool Swarm Relay.

Section Retrieve.
Context `{Unicode} `{Web} `{Numbers} `{Nostr.NostrTools} `{Envelope.Cipher} `{Net.Net} `{Pool.Ranking}.

(** ** Resolving *)

Definition showResolvedEvent (event : Nostr.ResolvedHybridEvent) (s : Page) : Page :=
  let s := on_ret (λ r, r <| resolved := Some (identities s, event) |>) s <| identities := S (identities s) |> in
  updateRetrievalButtons (addDownload ResolvedEventLinks (SignedFileEvent (Nostr.rh_event event)) s).

Definition showResolvedPool (receipt : Pool.PoolReceipt) (s : Page) : Page :=
  let s := on_ret (λ r, r <| resolvedPool := Some receipt |>) s in
  updateRetrievalButtons (addDownload ResolvedEventLinks (PoolReceiptEvent (Pool.r_event receipt)) s).

Definition eventId_typed (v : jstr) (s : Page) : Page := resetResolution (on_form (λ f, f <| eventIdInput := v |>) s).

Definition savedEvent_typed (v : jstr) (s : Page) : Page :=
  on_form (λ f, f <| savedEventFile := None |>) (resetResolution (on_form (λ f, f <| savedEventInput := v |>) s)).

(** A saved event is chosen, up to [await file.text()]. *)
Definition savedEventFile_chosen (file : option bytes) (s : Page) : Page :=
  let s := resetResolution (on_form (λ f, f <| savedEventFile := file |>) s) in
  let s := on_form (λ f, f <| savedEventInput := [] |>) s in
  match file with
  | None => s
  | Some content =>
      if Nostr.MAX_SIGNED_EVENT_JSON_BYTES <? zlen content then on_form (λ f, f <| savedEventFile := None |>) s
      else on_runs (λ r, r <| savedFiles := savedFiles r ++ [mkSavedFile (resolutionRevision (ret s)) false] |>)
             (on_buttons (λ b, b <| verifySavedEventButton := true |>) s)
  end.

Definition savedEventFile_settles (n : nat) (read : option jstr) (s : Page) : Page :=
  match savedFiles (runs s) !! n with
  | Some r =>
      if sf_over r then s
      else
        let s := on_runs (λ rs, rs <| savedFiles := alter (λ r, r <| sf_over := true |>) n (savedFiles rs) |>) s in
        if Nat.eqb (resolutionRevision (ret s)) (sf_revision r) then
          let s := match read with Some text => on_form (λ f, f <| savedEventInput := text |>) s | None => s end in
          on_buttons (λ b, b <| verifySavedEventButton := false |>) s
        else s
  | None => s
  end.

(** [raw.kind === 30078] *)
Definition is_receipt (raw : json) : bool :=
  match raw with JObj ms => match get_member (lit "kind") ms with Some (JNum n) => Nostr.is_number n Pool.POOL_KIND | _ => false end | _ => false end.

Definition verifySavedEvent (s : Page) : Page :=
  let s := resetResolution s in
  let text := savedEventInput (form s) in
  let typed := trim (eventIdInput (form s)) in
  let expectedId := if bool_decide (typed = []) then None else Some typed in
  if Nostr.MAX_SIGNED_EVENT_JSON_BYTES <? zlen text then s
  else match parse text with
       | None => s
       | Some raw =>
           if is_receipt raw
           then match Pool.resolvePoolReceipt text (profile s) expectedId with Ok receipt => showResolvedPool receipt s | Throw _ => s end
           else match Nostr.resolveFileEventJson text (profile s) expectedId with Ok event => showResolvedEvent event s | Throw _ => s end
       end.

(** The lookup, up to [await resolveFromRelays(...)]. *)
Definition resolveEvent (s : Page) : Page :=
  if negb (assertTorReady s) then s
  else match assertHex64 (trim (eventIdInput (form s))) "Event ID", relays s with
       | Ok eventId, Ok targets =>
           let '(s, c) := new_controller (resetResolution s) in
           let s := on_buttons (λ b, b <| resolveButton := true |>) (on_ret (λ r, r <| lookupController := Some c |>) s) in
           starts (LooksUp targets eventId (profile s))
             (on_runs (λ r, r <| lookups := lookups r ++ [mkLookup c (resolutionRevision (ret s)) (profile s) eventId targets false] |>) s)
       | _, _ => s
       end.

Definition lookup_over (n : nat) (r : LookupRun) (s : Page) : Page :=
  let s := on_runs (λ rs, rs <| lookups := alter (λ r, r <| lk_over := true |>) n (lookups rs) |>) s in
  if bool_decide (lookupController (ret s) = Some (lk_controller r))
  then on_buttons (λ b, b <| resolveButton := false |>) (on_ret (λ r, r <| lookupController := None |>) s) else s.

(** The relays' race has come to an event or to a failure; [names] and [steps]
    are its subscriptions and what happened to its sockets. *)
Definition lookup_result (r : LookupRun) (names : list jstr) (steps : list (nat * Relay.socket_event)) : option Nostr.ResolvedHybridEvent :=
  match Relay.resolveFromRelays (lk_targets r) (lk_eventId r) (lk_profile r) names false with
  | Ok (eventId, race) =>
      match Relay.race_result (foldl (Relay.race_step eventId (lk_profile r)) race steps) with Some (inl event) => Some event | _ => None end
  | Throw _ => None
  end.

Definition lookup_settles (n : nat) (names : list jstr) (steps : list (nat * Relay.socket_event)) (s : Page) : Page :=
  match lookups (runs s) !! n with
  | Some r =>
      if lk_over r then s
      else match lookup_result r names steps with
           | None => lookup_over n r s
           | Some event =>
               if is_aborted s (lk_controller r) || negb (bool_decide (lookupController (ret s) = Some (lk_controller r)))
                  || negb (Nat.eqb (resolutionRevision (ret s)) (lk_revision r)) || negb (bool_decide (profile s = lk_profile r))
                  || negb (bool_decide (toLowerCase (trim (eventIdInput (form s))) = lk_eventId r))
               then lookup_over n r s
               else lookup_over n r (showResolvedEvent event s)
           end
  | None => s
  end.

(** ** Pools *)

Definition set_pool_run (n : nat) (f : PoolRun → PoolRun) (s : Page) : Page :=
  on_runs (λ rs, rs <| poolRuns := alter f n (poolRuns rs) |>) s.

Definition release_download (controller : nat) (s : Page) : Page :=
  if bool_decide (downloadController (ret s) = Some controller)
  then on_ret (λ r, r <| downloadController := None |> <| downloadTransport := None |>) s else s.

Definition pool_over (n : nat) (r : PoolRun) (s : Page) : Page :=
  let s := set_pool_run n (λ r, r <| pl_stage := PoolOver |>) s in
  let s := if bool_decide (downloadController (ret s) = Some (pl_controller r))
           then on_ret (λ r, r <| poolRepairInProgress := false |>) s else s in
  updateUploadButton (updateRetrievalButtons (release_download (pl_controller r) s)).

Definition pool_options (r : PoolRun) : Pool.PoolOptions :=
  Pool.mkPoolOptions (Some (pl_profile r)) None (if pl_external r then Some 300 else None).

(** [await preparePoolRepair(receipt, options)] *)
Definition read_pool (n : nat) (r : PoolRun) (receipt : Pool.PoolReceipt) (s : Page) : Page :=
  starts (FetchesPool receipt) (set_pool_run n (λ r, r <| pl_receipt := receipt |> <| pl_stage := ReadingPool |>) s).

(** [retrievePool(repair)] up to its first await. *)
Definition retrievePool (repair nostr : bool) (s : Page) : Page :=
  match resolvedPool (ret s) with
  | None => s
  | Some receipt =>
      let key := trim (recoveryKeyInput (form s)) in
      if negb (assertTorReady s) || is_some (downloadController (ret s)) || is_some (uploadController (pub s)) then s
      else if repair && (negb (repairPoolConsent (form s)) || negb (bool_decide (pubkey s = Some (receipt_author receipt)))) then s
      else if negb repair && bool_decide (key = []) then s
      else
        let '(s, c) := new_controller s in
        let s := on_ret (λ r, r <| downloadController := Some c |> <| downloadTransport := Some ByBlossom |> <| poolRepairInProgress := repair |>) s in
        let s := clearDownloads RetrieveLinks (updateUploadButton (updateRetrievalButtons s)) in
        let n := length (poolRuns (runs s)) in
        let r := mkPoolRun c (resolutionRevision (ret s)) key receipt (profile s) (external_chosen (form s)) ReadingPool in
        let s := on_runs (λ rs, rs <| poolRuns := poolRuns rs ++ [r] |>) s in
        if negb repair then starts (FetchesPool receipt) (set_pool_run n (λ r, r <| pl_stage := FetchingPool |>) s)
        else if bool_decide (trim (poolReplacements (form s)) = []) then read_pool n r receipt s
        else match Pool.extendPool (Pool.r_manifest receipt) (poolReplacements (form s)) with
             | Throw _ => pool_over n r s
             | Ok manifest =>
                 if signer_there nostr s then
                   starts (SignsReceipt manifest (receipt_author receipt)) (set_pool_run n (λ r, r <| pl_stage := SigningReplacements manifest |>) s)
                 else pool_over n r s
             end
  end.

(** What the awaited operation of [retrievePool] comes to. *)
Definition pool_run_settles (n : nat) (world : Net.state) (signal : nat → bool) (nostr : bool) (s : Page) : Page :=
  match poolRuns (runs s) !! n with
  | Some r =>
      let stopped := is_aborted s (pl_controller r) in
      let current := Nat.eqb (resolutionRevision (ret s)) (pl_revision r) in
      match pl_stage r with
      | SigningReplacements manifest =>
          match (Pool.signPool manifest (receipt_author (pl_receipt r)) world).2 with
          | inl _ => pool_over n r s
          | inr receipt =>
              if stopped || negb current then pool_over n r s
              else
                let s := showResolvedPool receipt (clearDownloads ResolvedEventLinks s) in
                read_pool n r receipt (on_form (λ f, f <| poolReplacements := [] |>) s)
          end
      | ReadingPool =>
          match (Pool.preparePoolRepair (pl_receipt r) (pool_options r) world).2 with
          | inl _ => pool_over n r s
          | inr prepared =>
              if stopped || negb (signer_there nostr s) then pool_over n r s
              else starts (UploadsPool (pl_receipt r) (receipt_author (pl_receipt r))) (set_pool_run n (λ r, r <| pl_stage := RepairingPool |>) s)
          end
      | RepairingPool => pool_over n r s
      | FetchingPool =>
          match (Pool.fetchPool (pl_receipt r) (pool_options r) world).2 with
          | inl _ => pool_over n r s
          | inr ciphertext => set_pool_run n (λ r, r <| pl_stage := DecryptingPool ciphertext |>) s
          end
      | DecryptingPool ciphertext =>
          match Envelope.decryptPrivacyEnvelope ciphertext (pl_key r) signal with
          | Throw _ => pool_over n r s
          | Ok file =>
              if stopped || negb current then pool_over n r s
              else
                let s := on_form (λ f, f <| recoveryKeyInput := [] |>) s in
                pool_over n r (addDownload RetrieveLinks (Payload (Envelope.meta_name (Envelope.rec_metadata file)) (Envelope.rec_content file)) s)
          end
      | PoolOver => s
      end
  | None => s
  end.

Definition repairPoolConsent_changes (on : bool) (s : Page) : Page :=
  let s := on_form (λ f, f <| repairPoolConsent := on |>) s in
  updateRetrievalButtons (if on then s else abandonExternalSigning (abort_opt (downloadController (ret s)) s)).

Definition poolReplacements_typed (v : jstr) (s : Page) : Page :=
  let s := on_form (λ f, f <| poolReplacements := v |>) s in
  let s := if poolRepairInProgress (ret s) then abandonExternalSigning (abort_opt (downloadController (ret s)) s) else s in
  updateRetrievalButtons (on_form (λ f, f <| repairPoolConsent := false |>) s).

(** ** Fetching from a server *)

(** [await revealPayload(...)]: the bytes as they are, a missing key, or the key
    they are opened with. *)
Inductive reveal : Type := AsItIs | NoKey | WithKey (key : jstr).

Definition revealPayload (event : Nostr.ResolvedHybridEvent) (s : Page) : reveal :=
  match Nostr.rh_encryption event with
  | None => AsItIs
  | Some _ => let key := trim (recoveryKeyInput (form s)) in if bool_decide (key = []) then NoKey else WithKey key
  end.

(** The verified file is offered to save. *)
Definition offer_file (event : Nostr.ResolvedHybridEvent) (blob : bytes) (opened : option Envelope.RecoveredFile) : Page → Page :=
  addDownload RetrieveLinks (match opened with
                             | Some file => Payload (Envelope.meta_name (Envelope.rec_metadata file)) (Envelope.rec_content file)
                             | None => Payload (Nostr.rh_name event) blob
                             end).

Definition set_fetch (n : nat) (st : fetch_stage) (s : Page) : Page :=
  on_runs (λ rs, rs <| fetches := alter (λ r, r <| ft_stage := st |>) n (fetches rs) |>) s.

Definition fetch_over (n : nat) (r : FetchRun) (s : Page) : Page :=
  updateRetrievalButtons (release_download (ft_controller r) (set_fetch n FetchOver s)).

Definition fetchBlossom (s : Page) : Page :=
  if is_some (resolvedPool (ret s)) then retrievePool false false s
  else match resolved (ret s) with
       | None => s
       | Some selected =>
           if negb (assertTorReady s) || is_some (downloadController (ret s)) then s
           else
             let replica := trim (replicaInput (form s)) in
             let '(s, c) := new_controller s in
             let s := on_ret (λ r, r <| downloadController := Some c |> <| retrievalAttempts := S (retrievalAttempts r) |>
                                     <| downloadTransport := Some ByBlossom |>) s in
             let s := clearDownloads RetrieveLinks (updateRetrievalButtons s) in
             starts (FetchesBlob selected.2 replica (profile s))
               (on_runs (λ r, r <| fetches := fetches r ++ [mkFetch c (resolutionRevision (ret s)) selected (profile s) replica FetchingBlob] |>) s)
       end.

(** Whether what was selected is still what the page is about. *)
Definition superseded (controller revision : nat) (selected : nat * Nostr.ResolvedHybridEvent) (selectedProfile : NetworkProfile) (s : Page) : bool :=
  is_aborted s controller || negb (Nat.eqb (resolutionRevision (ret s)) revision)
  || negb (bool_decide (option_map fst (resolved (ret s)) = Some selected.1)) || negb (bool_decide (profile s = selectedProfile)).

(** The last lines of the handler's [try]. *)
Definition fetched (n : nat) (r : FetchRun) (blob : bytes) (opened : option Envelope.RecoveredFile) (s : Page) : Page :=
  if superseded (ft_controller r) (ft_revision r) (ft_resolved r) (ft_profile r) s then fetch_over n r s
  else fetch_over n r (offer_file (ft_resolved r).2 blob opened s).

Definition verifiable (event : Nostr.ResolvedHybridEvent) : Blossom.VerifiableBlob :=
  Blossom.mkVerifiable (Nostr.rh_url event) (Nostr.rh_sha256 event) (Nostr.rh_size event) (Nostr.rh_mimeType event).

Definition fetch_settles (n : nat) (world : Net.state) (signal : nat → bool) (s : Page) : Page :=
  match fetches (runs s) !! n with
  | Some r =>
      let event := (ft_resolved r).2 in
      match ft_stage r with
      | FetchingBlob =>
          match (Blossom.fetchVerifiedBlob (verifiable event) (Blossom.mkOptions (ft_profile r) None None (Some (ft_replica r))) world).2 with
          | inl _ => fetch_over n r s
          | inr blob =>
              match revealPayload event s with
              | AsItIs => fetched n r blob None s
              | NoKey => fetch_over n r s
              | WithKey key => set_fetch n (DecryptingBlob blob key) s
              end
          end
      | DecryptingBlob blob key =>
          match Envelope.decryptPrivacyEnvelope blob key signal with
          | Throw _ => fetch_over n r s
          | Ok file =>
              if is_aborted s (ft_controller r) then fetch_over n r s
              else fetched n r blob (Some file) (on_form (λ f, f <| recoveryKeyInput := [] |>) s)
          end
      | FetchOver => s
      end
  | None => s
  end.

(** ** Downloading from the swarm *)

Definition set_swarm (n : nat) (st : swarm_stage) (s : Page) : Page :=
  on_runs (λ rs, rs <| swarms := alter (λ r, r <| sw_stage := st |>) n (swarms rs) |>) s.

(** The end of the handler, with the rest of its [finally]; [cleaned] is that no
    peer session was left that could not be stopped. *)
Definition swarm_over (n controller : nat) (cleaned : bool) (s : Page) : Page :=
  let s := release_download controller (set_swarm n SwarmOver s) in
  updateRetrievalButtons (if cleaned then s else on_form (λ f, f <| swarmConsent := false |>) s).

(** The [finally] with a provisional session: it is stopped and that is awaited. *)
Definition leave_swarm (n controller session : nat) (s : Page) : Page := stop_peer session (set_swarm n (LeavingSwarm controller session) s).

(** The handler from the controller to [await downloadFromSwarm(...)]. *)
Definition join_swarm (n : nat) (r : SwarmRun) (s : Page) : Page :=
  let '(s, c) := new_controller s in
  let s := on_ret (λ x, x <| downloadController := Some c |> <| retrievalAttempts := S (retrievalAttempts x) |>
                          <| downloadTransport := Some BySwarm |>) s in
  let s := clearDownloads RetrieveLinks (updateRetrievalButtons s) in
  starts (JoinsAsDownloader (sw_resolved r).2 (sw_profile r))
    (set_swarm n (Joining c (Swarm.downloadFromSwarm (sw_resolved r).2 (sw_profile r) false)) s).

Definition fetchSwarm (s : Page) : Page :=
  match resolved (ret s) with
  | Some selected =>
      if negb (has_magnet (ret s)) || negb (swarmConsent (form s)) || is_some (downloadController (ret s))
         || negb (Nat.eqb (pendingRetrievalStops s) 0) then s
      else
        let n := length (swarms (runs s)) in
        let r := mkSwarm (resolutionRevision (ret s)) (retrievalAttempts (ret s)) selected (profile s) StoppingPrevious in
        let s := on_runs (λ rs, rs <| swarms := swarms rs ++ [r] |>) s in
        match downloadSession (ret s) with
        | Some session => stopPeerSession session RetrievalPeer (Some n) (on_ret (λ x, x <| downloadSession := None |>) s)
        | None => join_swarm n r s
        end
  | None => s
  end.

(** After [await stopPeerSession(previousSession, ...)]. *)
Definition swarm_resumes (n : nat) (ok : bool) (s : Page) : Page :=
  match swarms (runs s) !! n with
  | Some r =>
      match sw_stage r with
      | StoppingPrevious =>
          if negb ok || negb (swarmConsent (form s)) || is_some (downloadController (ret s))
             || negb (Nat.eqb (retrievalAttempts (ret s)) (sw_attempts r))
             || negb (bool_decide (option_map fst (resolved (ret s)) = Some (sw_resolved r).1))
             || negb (Nat.eqb (resolutionRevision (ret s)) (sw_revision r)) || negb (bool_decide (profile s = sw_profile r))
          then set_swarm n SwarmOver s
          else join_swarm n r s
      | _ => s
      end
  | None => s
  end.

(** A stopping session has stopped, or could not be. *)
Definition stop_settles (n : nat) (ok : bool) (s : Page) : Page :=
  match stops (runs s) !! n with
  | Some r =>
      if st_over r then s
      else
        let s := peer_stopped n r ok s in
        match st_for r with Some run => swarm_resumes run ok s | None => s end
  | None => s
  end.

(** The last lines of the [try]: the session is kept. *)
Definition swarm_fetched (n controller session : nat) (r : SwarmRun) (blob : bytes) (opened : option Envelope.RecoveredFile) (s : Page) : Page :=
  if superseded controller (sw_revision r) (sw_resolved r) (sw_profile r) s then leave_swarm n controller session s
  else
    let s := offer_file (sw_resolved r).2 blob opened s in
    swarm_over n controller true (on_ret (λ x, x <| downloadSession := Some session |>) s).

(** [downloadFromSwarm] has settled. *)
Definition swarm_settles (n controller : nat) (r : SwarmRun) (result : jstr + (bytes * Swarm.StopHandle)) (s : Page) : Page :=
  match result with
  | inl _ => swarm_over n controller true s
  | inr (blob, handle) =>
      let '(s, session) := new_peer RetrievalPeer handle s in
      if superseded controller (sw_revision r) (sw_resolved r) (sw_profile r) s then leave_swarm n controller session s
      else match revealPayload (sw_resolved r).2 s with
           | AsItIs => swarm_fetched n controller session r blob None s
           | NoKey => leave_swarm n controller session s
           | WithKey key => set_swarm n (DecryptingSwarm controller session blob key) s
           end
  end.

(** What comes after the await, once the attempt has an outcome. *)
Definition swarm_continues (n : nat) (s : Page) : Page :=
  match swarms (runs s) !! n with
  | Some r =>
      match sw_stage r with
      | Joining controller attempt =>
          match Swarm.outcome attempt with Some result => swarm_settles n controller r result s | None => s end
      | _ => s
      end
  | None => s
  end.

Definition blob_hash (blob : list Z) : jstr := toHex (Envelope.sha256 blob).

Definition swarm_event (n : nat) (e : Swarm.download_event) (s : Page) : Page :=
  let move (r : SwarmRun) :=
    match sw_stage r with
    | Joining controller attempt => r <| sw_stage := Joining controller (Swarm.download_step blob_hash (sw_resolved r).2 attempt e) |>
    | _ => r
    end in
  swarm_continues n (on_runs (λ rs, rs <| swarms := alter move n (swarms rs) |>) s).

(** Decrypting the swarm's bytes has settled. *)
Definition swarm_decrypted (n : nat) (signal : nat → bool) (s : Page) : Page :=
  match swarms (runs s) !! n with
  | Some r =>
      match sw_stage r with
      | DecryptingSwarm controller session blob key =>
          match Envelope.decryptPrivacyEnvelope blob key signal with
          | Throw _ => leave_swarm n controller session s
          | Ok file =>
              if is_aborted s controller then leave_swarm n controller session s
              else swarm_fetched n controller session r blob (Some file) (on_form (λ f, f <| recoveryKeyInput := [] |>) s)
          end
      | _ => s
      end
  | None => s
  end.

(** [confirmPeerStopped(provisionalSession)] has settled. *)
Definition swarm_left (n : nat) (ok : bool) (s : Page) : Page :=
  match swarms (runs s) !! n with
  | Some r => match sw_stage r with LeavingSwarm controller _ => swarm_over n controller ok s | _ => s end
  | None => s
  end.

Definition swarmConsent_changes (on : bool) (s : Page) : Page :=
  let s := on_form (λ f, f <| swarmConsent := on |>) s in
  let s := if on then s
           else
             let s := match downloadTransport (ret s) with Some BySwarm => abort_opt (downloadController (ret s)) s | _ => s end in
             match downloadSession (ret s) with
             | Some session => stopPeerSession session RetrievalPeer None (on_ret (λ x, x <| downloadSession := None |>) s)
             | None => s
             end in
  updateRetrievalButtons s.

Definition cancelDownload (s : Page) : Page :=
  match downloadController (ret s) with
  | Some c =>
      let s := abort c s in
      let s := if is_some (resolvedPool (ret s)) then abandonExternalSigning s else s in
      on_buttons (λ b, b <| cancelDownloadButton := true |>) s
  | None => s
  end.
End Retrieve.
