(* ===== verification/MainPage.v ===== *)
(** * The publishing page: everything that can happen to it ([main.ts])

    Leaving the page, and the page as a state machine over what the person, the
    signer, the servers, the peers and the browser do, in any order. *)

From S2P Require Import Prelude JsString Utf8 Json JsValue Security MainState MainPublish MainSign MainRetrieve.
From S2P Require Nostr Net Envelope Torrent Pool Swarm Relay.

Section Page.
Context `{Unicode} `{Web} `{Numbers} `{Nostr.NostrTools} `{Envelope.Cipher} `{Net.Net} `{Torrent.TorrentLibrary} `{Pool.Ranking}.

(** The controls that leaving the page empties. *)
Definition emptied (f : Form) : Form :=
  f <| fileInput := None |> <| poolNodes := [] |> <| storageMode := SingleNode |> <| poolCopies := lit "2" |> <| poolRequired := lit "2" |>
    <| poolTotal := lit "4" |> <| blossomInput := [] |> <| replicaInput := [] |> <| relayInput := [] |> <| trackerInput := [] |>
    <| eventIdInput := [] |> <| savedEventInput := [] |> <| savedEventFile := None |> <| externalPubkeyInput := [] |> <| torConsent := false |>.

Definition stop_peer_opt (session : option nat) (s : Page) : Page := match session with Some n => stop_peer n s | None => s end.

Definition endPageSession (s : Page) : Page :=
  if pageSessionEnded s then s
  else
    let s := s <| pageSessionEnded := true |> <| profileRevision := S (profileRevision s) |> in
    let seeding := seedSession (pub s) in
    let downloading := downloadSession (ret s) in
    let s := on_ret (λ r, r <| downloadSession := None |>) (on_pub (λ p, p <| seedSession := None |>) s) in
    let s := resetResolution (resetInspection s) in
    let s := on_form emptied (s <| pubkey := None |>) in
    let s := applyProfile (on_links (λ l, l <| objectUrls := [] |>) s) in
    stop_peer_opt downloading (stop_peer_opt seeding s).

(** Half a minute after a link was followed its address is revoked. *)
Definition link_expires (url : nat) : Page → Page := on_links (λ l, l <| objectUrls := filter (λ u, u ≠ url) (objectUrls l) |>).

(** ** What can happen *)

Inductive control : Type :=
  | ProfileRadio (chosen : bool) | SigningRadio (external : bool) | PubkeyTyped (v : jstr) | TorBox (on : bool) | Layout (i : layout_input)
  | FileChosen (file : option Net.File) | Endpoint (i : endpoint_input) (v : jstr) | EventIdTyped (v : jstr) | SavedEventTyped (v : jstr)
  | SavedEventFileChosen (file : option bytes) | ProtectBox (on : bool) | SignedEventTyped (v : jstr) | RecoveryKeyTyped (v : jstr)
  | ReplacementsTyped (v : jstr) | UploadBox (on : bool) | KeySavedBox (on : bool) | SeedBox (on : bool) | PublishBox (on : bool)
  | SwarmBox (on : bool) | RepairBox (on : bool).

Inductive button : Type :=
  | ClickConnect (nostr : bool) | ClickInspect | ClickUpload (nostr : bool) | ClickCancelUpload | ClickSeed | ClickStopSeed
  | ClickSign (nostr : bool) (now : Z) | ClickPublish | ClickAccept | ClickCancelSigning | ClickResolve | ClickVerify | ClickFetch
  | ClickRepair (nostr : bool) | ClickSwarm | ClickCancelDownload.

Inductive settled : Type :=
  | ConnectSettles (n : nat) (answer : res jstr)
  | InspectSettles (n : nat) (world : Net.state) (signal : nat → bool) (entropy : Envelope.EnvelopeEntropy)
  | UploadSettles (n : nat) (world : Net.state) | PoolUploadSettles (n : nat) (world : Net.state)
  | SeedEvent (n : nat) (e : Swarm.seed_event) | SeedContinues (n : nat) | StopSettles (n : nat) (ok : bool)
  | SignSettles (n : nat) (answer : res (option json)) (now : Z) | PublishSettles (n : nat) (ok : bool)
  | SignerAsks (template : Nostr.EventTemplate) | SavedEventFileSettles (n : nat) (read : option jstr)
  | LookupSettles (n : nat) (names : list jstr) (steps : list (nat * Relay.socket_event))
  | PoolRunSettles (n : nat) (world : Net.state) (signal : nat → bool) (nostr : bool)
  | FetchSettles (n : nat) (world : Net.state) (signal : nat → bool)
  | SwarmEvent (n : nat) (e : Swarm.download_event) | SwarmContinues (n : nat) | SwarmDecrypted (n : nat) (signal : nat → bool)
  | SwarmLeft (n : nat) (ok : bool).

Inductive main_input : Type :=
  | Changes (c : control) | Clicks (b : button) | Settled (e : settled) | LinkExpires (url : nat) | SelectOrigin (origin : jstr)
  | ServiceCancelsSigning | PageHide | PageShow (persisted : bool).

(** A control that [applyProfile], [applySigningMethod] or a receipt has
    switched off does not change. *)
Definition enabled (c : control) (s : Page) : bool :=
  match c with
  | PubkeyTyped _ => external_chosen (form s)
  | Endpoint TrackerField _ => negb (tor_chosen (form s))
  | Endpoint BlossomField _ | ProtectBox _ => bool_decide (storageMode (form s) = SingleNode)
  | Endpoint ReplicaField _ => negb (is_some (resolvedPool (ret s)))
  | _ => true
  end.

Definition change (c : control) (s : Page) : Page :=
  match c with
  | ProfileRadio chosen => profile_changes chosen s
  | SigningRadio external => signingMethod_changes external s
  | PubkeyTyped v => externalPubkey_typed v s
  | TorBox on => torConsent_changes on s
  | Layout i => layout_changes i s
  | FileChosen file => file_chosen file s
  | Endpoint i v => endpoint_changes i v s
  | EventIdTyped v => eventId_typed v s
  | SavedEventTyped v => savedEvent_typed v s
  | SavedEventFileChosen file => savedEventFile_chosen file s
  | ProtectBox on => protectFile_changes on s
  | SignedEventTyped v => on_form (λ f, f <| externalSignedEvent := v |>) s
  | RecoveryKeyTyped v => on_form (λ f, f <| recoveryKeyInput := v |>) s
  | ReplacementsTyped v => poolReplacements_typed v s
  | UploadBox on => uploadConsent_changes on s
  | KeySavedBox on => keySavedConsent_changes on s
  | SeedBox on => seedConsent_changes on s
  | PublishBox on => publishConsent_changes on s
  | SwarmBox on => swarmConsent_changes on s
  | RepairBox on => repairPoolConsent_changes on s
  end.

Definition disabled (b : button) (s : Page) : bool :=
  let d := buttons s in
  match b with
  | ClickConnect _ | ClickInspect | ClickAccept | ClickCancelSigning => false
  | ClickUpload _ => uploadButton d
  | ClickCancelUpload => cancelUploadButton d
  | ClickSeed => seedButton d
  | ClickStopSeed => stopSeedButton d
  | ClickSign _ _ => signButton d
  | ClickPublish => publishButton d
  | ClickResolve => resolveButton d
  | ClickVerify => verifySavedEventButton d
  | ClickFetch => blossomFetchButton d
  | ClickRepair _ => repairPoolButton d
  | ClickSwarm => swarmFetchButton d
  | ClickCancelDownload => cancelDownloadButton d
  end.

Definition press (b : button) (s : Page) : Page :=
  match b with
  | ClickConnect nostr => connectSigner nostr s
  | ClickInspect => inspectFile s
  | ClickUpload nostr => uploadFile nostr s
  | ClickCancelUpload => cancelUpload s
  | ClickSeed => startSeeding s
  | ClickStopSeed => stopSeeding s
  | ClickSign nostr now => signEvents nostr now s
  | ClickPublish => publishEvents s
  | ClickAccept => acceptExternalSignature s
  | ClickCancelSigning => cancelExternalSignature s
  | ClickResolve => resolveEvent s
  | ClickVerify => verifySavedEvent s
  | ClickFetch => fetchBlossom s
  | ClickRepair nostr => retrievePool true nostr s
  | ClickSwarm => fetchSwarm s
  | ClickCancelDownload => cancelDownload s
  end.

(** Only the page aborts its signals. *)
Definition from_outside (e : settled) : bool :=
  match e with SeedEvent _ Swarm.SeedAborted | SwarmEvent _ Swarm.DownAborted => false | _ => true end.

Definition settle (e : settled) (s : Page) : Page :=
  match e with
  | ConnectSettles n answer => connect_settles n answer s
  | InspectSettles n world signal entropy => inspect_settles n world signal entropy s
  | UploadSettles n world => upload_settles n world s
  | PoolUploadSettles n world => pool_upload_settles n world s
  | SeedEvent n e => seed_event n e s
  | SeedContinues n => seed_continues n s
  | StopSettles n ok => stop_settles n ok s
  | SignSettles n answer now => sign_settles n answer now s
  | PublishSettles n ok => publish_settles n ok s
  | SignerAsks template => if external_chosen (form s) then requestExternalSignature template s else s
  | SavedEventFileSettles n read => savedEventFile_settles n read s
  | LookupSettles n names steps => lookup_settles n names steps s
  | PoolRunSettles n world signal nostr => pool_run_settles n world signal nostr s
  | FetchSettles n world signal => fetch_settles n world signal s
  | SwarmEvent n e => swarm_event n e s
  | SwarmContinues n => swarm_continues n s
  | SwarmDecrypted n signal => swarm_decrypted n signal s
  | SwarmLeft n ok => swarm_left n ok s
  end.

(** A page that comes back from the back-forward cache is loaded anew. *)
Definition main_step (s : Page) (i : main_input) : Page :=
  match i with
  | Changes c => if enabled c s then change c s else s
  | Clicks b => if disabled b s then s else press b s
  | Settled e => if from_outside e then settle e s else s
  | LinkExpires url => link_expires url s
  | SelectOrigin origin => endpoint_changes BlossomField origin s
  | ServiceCancelsSigning => abandonExternalSigning s
  | PageHide => endPageSession s
  | PageShow persisted => if persisted then first_page else s
  end.

Definition main_run (s : Page) (inputs : list main_input) : Page := foldl main_step s inputs.
End Page.
