(* ===== verification/MainFacts.v ===== *)
(** * The publishing page: how its proofs go through a handler

    A handler is a chain of small changes. What the page keeps is proved change
    by change: a change of a part that is not looked at is seen by computation,
    and the rest by the instances of [Keeps]. *)

From S2P Require Import Prelude MainState.

(** A step of a handler keeps what the page keeps. *)
Lemma keep_let (I : Page → Prop) a (k : Page → Page) : I a → (∀ s, I s → I (k s)) → I (k a).
Proof. auto. Qed.

(** The same of a step that also gives a number. *)
Lemma keep_pair {A} (I : Page → Prop) (x : Page * A) (k : Page → A → Page) : I x.1 → (∀ s c, I s → I (k s c)) → I (let '(s, c) := x in k s c).
Proof. destruct x. auto. Qed.

(** What a handler keeps, as a class: [keep] finds the instances of the functions
    that handlers are made of. *)
Class Keeps (I : Page → Prop) (f : Page → Page) : Prop := keeps s : I s → I (f s).

(** [keep I]: go through the steps; [I] must be a predicate of the page that
    computes to one of the parts it is about. *)
Ltac unseen I :=
  lazymatch goal with
  | |- I (?f ?a) => refine ((λ (K : ∀ s, I s → I (f s)) (Ha : I a), K a Ha) _ _); [let s := fresh "s" in let Hs := fresh "Hs" in intros s Hs; exact Hs|]
  end.
Ltac keep_one I :=
  lazymatch goal with
  | |- I (let s := ?a in @?k s) =>
      lazymatch type of a with
      | Page => refine (keep_let I a k _ _); [|let s := fresh "s" in let Hs := fresh "Hs" in intros s Hs; cbv beta]
      | _ => change (I (k a)); cbv beta
      end
  | |- I (let '(s, c) := ?x in @?k s c) =>
      lazymatch type of x with
      | (Page * _)%type =>
          refine (keep_pair I x k _ _);
          [|let s := fresh "s" in let c := fresh "c" in let Hs := fresh "Hs" in intros s c Hs; cbv beta]
      | _ => destruct x
      end
  | |- I (if ?b then _ else _) => destruct b
  | |- I (match ?o with _ => _ end) => destruct o
  | |- I (on_buttons _ _) => unseen I
  | |- I (starts _ _) => unseen I
  | |- I (updateUploadButton _) => unseen I
  | |- I (updateRetrievalButtons _) => unseen I
  end.
Ltac keep I :=
  repeat first [ match goal with Hs : I ?s |- I ?s => exact Hs end | keep_one I
               | match goal with
                 | |- I (on_form _ _) => unseen I
                 | |- I (on_pub _ _) => unseen I
                 | |- I (on_ret _ _) => unseen I
                 | |- I (on_runs _ _) => unseen I
                 | |- I (on_links _ _) => unseen I
                 | |- I (clearDownloads _ _) => unseen I
                 | |- I (addDownload _ _ _) => unseen I
                 | |- I (@update _ _ _ _ _ _) => unseen I
                 end
               | match goal with
                 | |- I (fst (?f ?a)) => refine (@keeps I (λ s, fst (f s)) ltac:(exact _) a _)
                 | |- I (?f ?s) => refine (@keeps I f ltac:(exact _) s _)
                 end ].
Tactic Notation "handler" constr(I) reference(f) := let s := fresh "s" in let Hs := fresh "Hs" in intros s Hs; cbv beta delta [f]; keep I.

Lemma is_some_false {A} (o : option A) : is_some o = false → o = None.
Proof. unfold is_some. destruct o; [|done]. intros Hn%bool_decide_eq_false. by destruct Hn. Qed.

(** None of the reasons to refuse holds. *)
Ltac all_false E :=
  lazymatch type of E with
  | _ || _ = false => let E' := fresh "E" in apply orb_false_iff in E as [E E']; all_false E; all_false E'
  | negb _ = false => apply negb_false_iff in E; all_false E
  | bool_decide _ = true => apply bool_decide_eq_true in E
  | bool_decide _ = false => apply bool_decide_eq_false in E
  | Nat.eqb _ _ = true => apply Nat.eqb_eq in E
  | is_some _ = false => apply is_some_false in E
  | _ => idtac
  end.

(** ** Lists of runs *)

Lemma Forall_alter_at {A} (P : A → Prop) f n l : Forall P l → (∀ x, l !! n = Some x → P x → P (f x)) → Forall P (alter f n l).
Proof.
  intros Hl Hf. apply Forall_lookup. intros i y Hy. destruct (decide (i = n)) as [->|Hne].
  - rewrite list_lookup_alter_eq in Hy. destruct (l !! n) as [x|] eqn:E; [|done]. injection Hy as <-.
    apply Hf; [done|]. exact (proj1 (Forall_lookup _ _) Hl n x E).
  - rewrite list_lookup_alter_ne in Hy by done. exact (proj1 (Forall_lookup _ _) Hl i y Hy).
Qed.

Lemma map_alter_same {A B} (g : A → B) f n l : (∀ x, g (f x) = g x) → map g (alter f n l) = map g l.
Proof. intros Hg. revert n. induction l as [|x l IH]; intros [|n]; cbn; [done|done|by rewrite Hg|]. f_equal. apply IH. Qed.

Lemma Forall_alter_all {A} (P : A → Prop) f n l : Forall P l → (∀ x, P x → P (f x)) → Forall P (alter f n l).
Proof. intros Hl Hf. apply Forall_alter_at; auto. Qed.

Lemma Forall_map_keep {A} (P : A → Prop) f l : Forall P l → (∀ x, P x → P (f x)) → Forall P (map f l).
Proof. intros Hl Hf. apply Forall_fmap. eapply Forall_impl; [exact Hl|exact Hf]. Qed.

Lemma Forall_snoc {A} (P : A → Prop) l x : Forall P l → P x → Forall P (l ++ [x]).
Proof. intros Hl Hx. apply Forall_app. split; [done|]. by constructor. Qed.

Lemma foldl_keep {A S} (I : S → Prop) (f : S → A → S) l s : (∀ s a, I s → I (f s a)) → I s → I (foldl f s l).
Proof. intros Hf. revert s. induction l as [|a l IH]; intros s Hs; [done|]. cbn. apply IH. by apply Hf. Qed.

(** ** Signals *)

Lemma abort_length c s : length (aborted (abort c s)) = length (aborted s).
Proof. unfold abort. destruct (is_aborted s c); [done|]. cbn. apply length_insert. Qed.

Lemma is_aborted_abort c s c' : (c < length (aborted s))%nat → is_aborted (abort c s) c' = bool_decide (c' = c) || is_aborted s c'.
Proof.
  intros Hc. unfold abort. destruct (is_aborted s c) eqn:E.
  { case_bool_decide; [subst; by rewrite E|done]. }
  unfold is_aborted. cbn. case_bool_decide; [subst; by rewrite list_lookup_insert_eq|by rewrite list_lookup_insert_ne].
Qed.

(** A new controller is the next number, and nothing else changes. *)
Lemma new_controller_fresh s : (new_controller s).2 = length (aborted s).
Proof. done. Qed.
