(* ===== verification/MainServer.v ===== *)
(** * The publishing page: what a step leaves alone

    Two invariants that other files rely on. The address of the server and the
    network profile change only together with a reset of the publication, which is
    what the storage panel relies on. And what a run does for the person is what
    stood on the page at the click that began it: every run keeps its origin. *)

From S2P Require Import Prelude JsString Utf8 Bytes Json JsValue Security MainState MainFacts MainPublish MainSign MainRetrieve MainPage.
From S2P Require Nostr Net Blossom Envelope Torrent Pool Swarm Relay.

Section Facts.
Context `{Unicode} `{Web} `{Numbers} `{Nostr.NostrTools} `{Envelope.Cipher} `{Net.Net} `{Torrent.TorrentLibrary} `{Pool.Ranking}.
Context (b : jstr) (t : bool) (r : nat).

(** The publication has been reset since revision [r]. *)
Definition beyond (s : Page) : Prop := (r < publicationRevision (pub s))%nat.

(** The field and the profile are as they were at revision [r], or it has been. *)
Definition stays (s : Page) : Prop :=
  (blossomInput (form s) = b ∧ tor_chosen (form s) = t ∧ (r <= publicationRevision (pub s))%nat) ∨ beyond s.

#[local] Hint Constants Opaque : typeclass_instances.

#[local] Instance clearExternalSigningPanel_beyond : Keeps beyond clearExternalSigningPanel.
Proof. by intros s. Qed.
#[local] Instance abandonExternalSigning_beyond : Keeps beyond abandonExternalSigning.
Proof. by intros s. Qed.
#[local] Instance set_inspection_beyond n st : Keeps beyond (set_inspection n st).
Proof. by intros s. Qed.
#[local] Instance set_upload_beyond n st : Keeps beyond (set_upload n st).
Proof. by intros s. Qed.
#[local] Instance set_signing_beyond n st : Keeps beyond (set_signing n st).
Proof. by intros s. Qed.
#[local] Instance set_publish_beyond n f : Keeps beyond (set_publish n f).
Proof. by intros s. Qed.
#[local] Instance set_fetch_beyond n st : Keeps beyond (set_fetch n st).
Proof. by intros s. Qed.
#[local] Instance set_swarm_beyond n st : Keeps beyond (set_swarm n st).
Proof. by intros s. Qed.
#[local] Instance set_pool_run_beyond n f : Keeps beyond (set_pool_run n f).
Proof. by intros s. Qed.
#[local] Instance abort_beyond c : Keeps beyond (abort c).
Proof. intros s Hs. unfold abort. by destruct (is_aborted s c). Qed.
#[local] Instance abort_opt_beyond c : Keeps beyond (abort_opt c).
Proof. destruct c; [apply abort_beyond|by intros s]. Qed.
#[local] Instance pending_beyond kind f : Keeps beyond (pending kind f).
Proof. intros s Hs. destruct kind; exact Hs. Qed.
#[local] Instance stopPeerSession_beyond session kind run : Keeps beyond (stopPeerSession session kind run).
Proof. intros s Hs. unfold stopPeerSession, refreshPeerStartButton, pending. destruct kind; exact Hs. Qed.
#[local] Instance confirmPeerStoppedInBackground_beyond session kind : Keeps beyond (confirmPeerStoppedInBackground session kind).
Proof. apply stopPeerSession_beyond. Qed.
#[local] Instance applyProfile_beyond : Keeps beyond applyProfile.
Proof. handler beyond applyProfile. Qed.
#[local] Instance resetResolution_beyond : Keeps beyond resetResolution.
Proof. handler beyond resetResolution. Qed.
#[local] Instance new_controller_beyond : Keeps beyond (λ s, (new_controller s).1).
Proof. by intros s. Qed.

(** A reset of the publication moves it on by one. *)
Lemma abort_opt_pub c s : pub (abort_opt c s) = pub s.
Proof. destruct c; [|done]. cbn. unfold abort. by destruct (is_aborted s n). Qed.

Lemma resets_beyond s : (r <= publicationRevision (pub s))%nat → beyond (resetPublicationAfterInspection s).
Proof.
  intros Hr. cbv beta delta [resetPublicationAfterInspection]. lazymatch goal with |- beyond (let s := ?a in @?k s) => refine (keep_let beyond a k _ _) end.
  - unfold beyond. cbn. lia.
  - intros s' Hs'. cbv beta. clear Hr. keep beyond.
Qed.

Lemma inspection_beyond s : (r <= publicationRevision (pub s))%nat → beyond (resetInspection s).
Proof.
  intros Hr. cbv beta delta [resetInspection]. cbv zeta.
  assert (beyond (resetPublicationAfterInspection (on_pub (λ p, p <| inspectionController := None |>) (abort_opt (inspectionController (pub s)) s)))) as Hb.
  { apply resets_beyond. cbn. by rewrite abort_opt_pub. }
  revert Hb. generalize (resetPublicationAfterInspection (on_pub (λ p, p <| inspectionController := None |>) (abort_opt (inspectionController (pub s)) s))).
  clear. intros s Hs. keep beyond.
Qed.

#[local] Instance resetPublicationAfterInspection_beyond : Keeps beyond resetPublicationAfterInspection.
Proof. intros s Hs. apply resets_beyond. unfold beyond in Hs. lia. Qed.
#[local] Instance resetInspection_beyond : Keeps beyond resetInspection.
Proof. intros s Hs. apply inspection_beyond. unfold beyond in Hs. lia. Qed.

Lemma stays_at_least s : stays s → (r <= publicationRevision (pub s))%nat.
Proof. unfold stays, beyond. intros [(_ & _ & ?)|?]; lia. Qed.

#[local] Instance resetPublicationAfterInspection_stays : Keeps stays resetPublicationAfterInspection.
Proof. intros s Hs. right. by apply resets_beyond, stays_at_least. Qed.
#[local] Instance resetInspection_stays : Keeps stays resetInspection.
Proof. intros s Hs. right. by apply inspection_beyond, stays_at_least. Qed.

#[local] Instance clearExternalSigningPanel_stays : Keeps stays clearExternalSigningPanel.
Proof. by intros s. Qed.
#[local] Instance abandonExternalSigning_stays : Keeps stays abandonExternalSigning.
Proof. by intros s. Qed.
#[local] Instance set_inspection_stays n st : Keeps stays (set_inspection n st).
Proof. by intros s. Qed.
#[local] Instance set_upload_stays n st : Keeps stays (set_upload n st).
Proof. by intros s. Qed.
#[local] Instance set_signing_stays n st : Keeps stays (set_signing n st).
Proof. by intros s. Qed.
#[local] Instance set_publish_stays n f : Keeps stays (set_publish n f).
Proof. by intros s. Qed.
#[local] Instance set_fetch_stays n st : Keeps stays (set_fetch n st).
Proof. by intros s. Qed.
#[local] Instance set_swarm_stays n st : Keeps stays (set_swarm n st).
Proof. by intros s. Qed.
#[local] Instance set_pool_run_stays n f : Keeps stays (set_pool_run n f).
Proof. by intros s. Qed.
#[local] Instance abort_stays c : Keeps stays (abort c).
Proof. intros s Hs. unfold abort. by destruct (is_aborted s c). Qed.
#[local] Instance abort_opt_stays c : Keeps stays (abort_opt c).
Proof. destruct c; [apply abort_stays|by intros s]. Qed.
#[local] Instance pending_stays kind f : Keeps stays (pending kind f).
Proof. intros s Hs. destruct kind; exact Hs. Qed.
#[local] Instance stopPeerSession_stays session kind run : Keeps stays (stopPeerSession session kind run).
Proof. intros s Hs. unfold stopPeerSession, refreshPeerStartButton, pending. destruct kind; exact Hs. Qed.
#[local] Instance confirmPeerStoppedInBackground_stays session kind : Keeps stays (confirmPeerStoppedInBackground session kind).
Proof. apply stopPeerSession_stays. Qed.
#[local] Instance applyProfile_stays : Keeps stays applyProfile.
Proof. handler stays applyProfile. Qed.
#[local] Instance resetResolution_stays : Keeps stays resetResolution.
Proof. handler stays resetResolution. Qed.
#[local] Instance new_controller_stays : Keeps stays (λ s, (new_controller s).1).
Proof. by intros s. Qed.
#[local] Instance new_peer_stays k h : Keeps stays (λ s, (new_peer k h s).1).
Proof. by intros s. Qed.
#[local] Instance inspect_over_stays n r0 : Keeps stays (inspect_over n r0).
Proof. handler stays inspect_over. Qed.
#[local] Instance inspected_all_stays n r0 a e c d : Keeps stays (inspected_all n r0 a e c d).
Proof. handler stays inspected_all. Qed.
#[local] Instance prepare_layout_stays n r0 a e c : Keeps stays (prepare_layout n r0 a e c).
Proof. handler stays prepare_layout. Qed.
#[local] Instance inspect_settles_stays n w g e : Keeps stays (inspect_settles n w g e).
Proof. handler stays inspect_settles. Qed.
#[local] Instance inspectFile_stays : Keeps stays inspectFile.
Proof. handler stays inspectFile. Qed.
#[local] Instance connectSigner_stays x : Keeps stays (connectSigner x).
Proof. handler stays connectSigner. Qed.
#[local] Instance connect_settles_stays n a : Keeps stays (connect_settles n a).
Proof. handler stays connect_settles. Qed.
#[local] Instance upload_parts_stays n r0 a : Keeps stays (upload_parts n r0 a).
Proof. handler stays upload_parts. Qed.
#[local] Instance uploadPreparedPool_stays x : Keeps stays (uploadPreparedPool x).
Proof. handler stays uploadPreparedPool. Qed.
#[local] Instance upload_over_stays c : Keeps stays (upload_over c).
Proof. handler stays upload_over. Qed.
#[local] Instance pool_upload_over_stays n r0 : Keeps stays (pool_upload_over n r0).
Proof. handler stays pool_upload_over. Qed.
#[local] Instance pool_upload_settles_stays n w : Keeps stays (pool_upload_settles n w).
Proof. handler stays pool_upload_settles. Qed.
#[local] Instance uploadFile_stays x : Keeps stays (uploadFile x).
Proof. handler stays uploadFile. Qed.
#[local] Instance end_upload_stays n r0 : Keeps stays (end_upload n r0).
Proof. handler stays end_upload. Qed.
#[local] Instance upload_done_stays n r0 a c : Keeps stays (upload_done n r0 a c).
Proof. handler stays upload_done. Qed.
#[local] Instance upload_settles_stays n w : Keeps stays (upload_settles n w).
Proof. handler stays upload_settles. Qed.
#[local] Instance cancelUpload_stays : Keeps stays cancelUpload.
Proof. handler stays cancelUpload. Qed.
#[local] Instance withdraw_upload_stays : Keeps stays withdraw_upload.
Proof. handler stays withdraw_upload. Qed.
#[local] Instance uploadConsent_changes_stays x : Keeps stays (uploadConsent_changes x).
Proof. handler stays uploadConsent_changes. Qed.
#[local] Instance keySavedConsent_changes_stays x : Keeps stays (keySavedConsent_changes x).
Proof. handler stays keySavedConsent_changes. Qed.
#[local] Instance drop_pending_stays kind : Keeps stays (drop_pending kind).
Proof. handler stays drop_pending. Qed.
#[local] Instance refreshPeerStartButton_stays kind : Keeps stays (refreshPeerStartButton kind).
Proof. handler stays refreshPeerStartButton. Qed.
#[local] Instance peer_stopped_stays n r0 ok : Keeps stays (peer_stopped n r0 ok).
Proof. handler stays peer_stopped. Qed.
#[local] Instance seedConsent_changes_stays x : Keeps stays (seedConsent_changes x).
Proof. handler stays seedConsent_changes. Qed.
#[local] Instance startSeeding_stays : Keeps stays startSeeding.
Proof. handler stays startSeeding. Qed.
#[local] Instance seed_settles_stays n r0 x : Keeps stays (seed_settles n r0 x).
Proof. handler stays seed_settles. Qed.
#[local] Instance seed_continues_stays n : Keeps stays (seed_continues n).
Proof. handler stays seed_continues. Qed.
#[local] Instance seed_event_stays n e : Keeps stays (seed_event n e).
Proof. handler stays seed_event. Qed.
#[local] Instance stopSeeding_stays : Keeps stays stopSeeding.
Proof. handler stays stopSeeding. Qed.
#[local] Instance sign_over_stays n r0 : Keeps stays (sign_over n r0).
Proof. handler stays sign_over. Qed.
#[local] Instance signEvents_stays x now : Keeps stays (signEvents x now).
Proof. handler stays signEvents. Qed.
#[local] Instance signed_stays n r0 e es : Keeps stays (signed n r0 e es).
Proof. handler stays signed. Qed.
#[local] Instance sign_settles_stays n a now : Keeps stays (sign_settles n a now).
Proof. handler stays sign_settles. Qed.
#[local] Instance publishConsent_changes_stays x : Keeps stays (publishConsent_changes x).
Proof. handler stays publishConsent_changes. Qed.
#[local] Instance publish_over_stays n r0 : Keeps stays (publish_over n r0).
Proof. handler stays publish_over. Qed.
#[local] Instance publishEvents_stays : Keeps stays publishEvents.
Proof. handler stays publishEvents. Qed.
#[local] Instance publish_settles_stays n ok : Keeps stays (publish_settles n ok).
Proof. handler stays publish_settles. Qed.
#[local] Instance requestExternalSignature_stays x : Keeps stays (requestExternalSignature x).
Proof. handler stays requestExternalSignature. Qed.
#[local] Instance acceptExternalSignature_stays : Keeps stays acceptExternalSignature.
Proof. handler stays acceptExternalSignature. Qed.
#[local] Instance cancelExternalSignature_stays : Keeps stays cancelExternalSignature.
Proof. handler stays cancelExternalSignature. Qed.
#[local] Instance abort_pool_download_stays : Keeps stays abort_pool_download.
Proof. handler stays abort_pool_download. Qed.
#[local] Instance signingMethod_changes_stays x : Keeps stays (signingMethod_changes x).
Proof. handler stays signingMethod_changes. Qed.
#[local] Instance externalPubkey_typed_stays v : Keeps stays (externalPubkey_typed v).
Proof. handler stays externalPubkey_typed. Qed.
#[local] Instance torConsent_changes_stays x : Keeps stays (torConsent_changes x).
Proof. handler stays torConsent_changes. Qed.
#[local] Instance layout_changes_stays i : Keeps stays (layout_changes i).
Proof. destruct i; handler stays layout_changes. Qed.
#[local] Instance file_chosen_stays f : Keeps stays (file_chosen f).
Proof. handler stays file_chosen. Qed.
#[local] Instance protectFile_changes_stays x : Keeps stays (protectFile_changes x).
Proof. handler stays protectFile_changes. Qed.
#[local] Instance showResolvedEvent_stays e : Keeps stays (showResolvedEvent e).
Proof. handler stays showResolvedEvent. Qed.
#[local] Instance showResolvedPool_stays x : Keeps stays (showResolvedPool x).
Proof. handler stays showResolvedPool. Qed.
#[local] Instance eventId_typed_stays v : Keeps stays (eventId_typed v).
Proof. handler stays eventId_typed. Qed.
#[local] Instance savedEvent_typed_stays v : Keeps stays (savedEvent_typed v).
Proof. handler stays savedEvent_typed. Qed.
#[local] Instance savedEventFile_chosen_stays f : Keeps stays (savedEventFile_chosen f).
Proof. handler stays savedEventFile_chosen. Qed.
#[local] Instance savedEventFile_settles_stays n x : Keeps stays (savedEventFile_settles n x).
Proof. handler stays savedEventFile_settles. Qed.
#[local] Instance verifySavedEvent_stays : Keeps stays verifySavedEvent.
Proof. handler stays verifySavedEvent. Qed.
#[local] Instance resolveEvent_stays : Keeps stays resolveEvent.
Proof. handler stays resolveEvent. Qed.
#[local] Instance lookup_over_stays n r0 : Keeps stays (lookup_over n r0).
Proof. handler stays lookup_over. Qed.
#[local] Instance lookup_settles_stays n names steps : Keeps stays (lookup_settles n names steps).
Proof. handler stays lookup_settles. Qed.
#[local] Instance release_download_stays c : Keeps stays (release_download c).
Proof. handler stays release_download. Qed.
#[local] Instance pool_over_stays n r0 : Keeps stays (pool_over n r0).
Proof. handler stays pool_over. Qed.
#[local] Instance read_pool_stays n r0 x : Keeps stays (read_pool n r0 x).
Proof. handler stays read_pool. Qed.
#[local] Instance retrievePool_stays x y : Keeps stays (retrievePool x y).
Proof. handler stays retrievePool. Qed.
#[local] Instance pool_run_settles_stays n w g x : Keeps stays (pool_run_settles n w g x).
Proof. handler stays pool_run_settles. Qed.
#[local] Instance repairPoolConsent_changes_stays x : Keeps stays (repairPoolConsent_changes x).
Proof. handler stays repairPoolConsent_changes. Qed.
#[local] Instance poolReplacements_typed_stays v : Keeps stays (poolReplacements_typed v).
Proof. handler stays poolReplacements_typed. Qed.
#[local] Instance offer_file_stays e x o : Keeps stays (offer_file e x o).
Proof. handler stays offer_file. Qed.
#[local] Instance fetch_over_stays n r0 : Keeps stays (fetch_over n r0).
Proof. handler stays fetch_over. Qed.
#[local] Instance fetchBlossom_stays : Keeps stays fetchBlossom.
Proof. handler stays fetchBlossom. Qed.
#[local] Instance fetched_stays n r0 x o : Keeps stays (fetched n r0 x o).
Proof. handler stays fetched. Qed.
#[local] Instance fetch_settles_stays n w g : Keeps stays (fetch_settles n w g).
Proof. handler stays fetch_settles. Qed.
#[local] Instance swarm_over_stays n c x : Keeps stays (swarm_over n c x).
Proof. handler stays swarm_over. Qed.
#[local] Instance stop_peer_stays x : Keeps stays (stop_peer x).
Proof. handler stays stop_peer. Qed.
#[local] Instance leave_swarm_stays n c x : Keeps stays (leave_swarm n c x).
Proof. handler stays leave_swarm. Qed.
#[local] Instance join_swarm_stays n r0 : Keeps stays (join_swarm n r0).
Proof. handler stays join_swarm. Qed.
#[local] Instance fetchSwarm_stays : Keeps stays fetchSwarm.
Proof. handler stays fetchSwarm. Qed.
#[local] Instance swarm_resumes_stays n x : Keeps stays (swarm_resumes n x).
Proof. handler stays swarm_resumes. Qed.
#[local] Instance stop_settles_stays n x : Keeps stays (stop_settles n x).
Proof. handler stays stop_settles. Qed.
#[local] Instance swarm_fetched_stays n c x r0 y o : Keeps stays (swarm_fetched n c x r0 y o).
Proof. handler stays swarm_fetched. Qed.
#[local] Instance swarm_settles_stays n c r0 x : Keeps stays (swarm_settles n c r0 x).
Proof. handler stays swarm_settles. Qed.
#[local] Instance swarm_continues_stays n : Keeps stays (swarm_continues n).
Proof. handler stays swarm_continues. Qed.
#[local] Instance swarm_event_stays n e : Keeps stays (swarm_event n e).
Proof. handler stays swarm_event. Qed.
#[local] Instance swarm_decrypted_stays n g : Keeps stays (swarm_decrypted n g).
Proof. handler stays swarm_decrypted. Qed.
#[local] Instance swarm_left_stays n x : Keeps stays (swarm_left n x).
Proof. handler stays swarm_left. Qed.
#[local] Instance swarmConsent_changes_stays x : Keeps stays (swarmConsent_changes x).
Proof. handler stays swarmConsent_changes. Qed.
#[local] Instance cancelDownload_stays : Keeps stays cancelDownload.
Proof. handler stays cancelDownload. Qed.

(** ** What changes the field or the profile *)

Lemma resolution_beyond s : (r <= publicationRevision (pub s))%nat → beyond (resetResolution (resetPublicationAfterInspection s)).
Proof. intros Hr. by apply resetResolution_beyond, resets_beyond. Qed.

Lemma profile_changes_beyond x s : stays s → beyond (profile_changes x s).
Proof.
  intros Hs%stays_at_least. cbv beta delta [profile_changes]. cbv zeta.
  set (u := if bool_decide (storageMode _ = SingleNode) then _ else _).
  assert (r <= publicationRevision (pub u))%nat as Hu.
  { unfold u. case_bool_decide; [done|]. apply Nat.lt_le_incl. by apply inspection_beyond. }
  clearbody u. pose proof (resolution_beyond u Hu) as Hb. revert Hb. generalize (resetResolution (resetPublicationAfterInspection u)). clear -b t r.
  intros v Hv. apply applyProfile_beyond. exact Hv.
Qed.

Lemma endpoint_changes_beyond i v s : stays s → beyond (endpoint_changes i v s).
Proof. intros Hs%stays_at_least. by apply resolution_beyond. Qed.

#[local] Instance profile_changes_stays x : Keeps stays (profile_changes x).
Proof. intros s Hs. right. by apply profile_changes_beyond. Qed.
#[local] Instance endpoint_changes_stays i v : Keeps stays (endpoint_changes i v).
Proof. intros s Hs. right. by apply endpoint_changes_beyond. Qed.

#[local] Instance stop_peer_opt_beyond x : Keeps beyond (stop_peer_opt x).
Proof. intros s Hs. by destruct x. Qed.
#[local] Instance endPageSession_stays : Keeps stays endPageSession.
Proof.
  intros s Hs. unfold endPageSession. destruct (pageSessionEnded s); [done|]. right. apply stays_at_least in Hs. cbv zeta.
  set (u := on_ret _ (on_pub _ _)). assert (beyond (resetInspection u)) as Hu by by apply inspection_beyond. clearbody u.
  apply resetResolution_beyond in Hu. revert Hu. generalize (resetResolution (resetInspection u)). intros v Hv. clear -Hv. keep beyond.
Qed.
#[local] Instance link_expires_stays u : Keeps stays (link_expires u).
Proof. by intros s. Qed.

#[local] Instance settle_stays e : Keeps stays (settle e).
Proof. intros s Hs. destruct e; cbn [settle]; try (case_match; [|done]); exact (keeps _ Hs). Qed.
#[local] Instance change_stays c : Keeps stays (change c).
Proof. intros s Hs. destruct c; cbn [change]; first [exact (keeps _ Hs)|exact Hs]. Qed.
#[local] Instance press_stays k : Keeps stays (press k).
Proof. intros s Hs. destruct k; cbn [press]; exact (keeps _ Hs). Qed.

Lemma step_stays s i : i ≠ PageShow true → stays s → stays (main_step s i).
Proof.
  intros Hi Hs. destruct i; cbn [main_step]; try solve [keep stays]. destruct persisted; [done|exact Hs].
Qed.
End Facts.

(** ** Where the runs come from

    [C s b] says that the button [b], which was enabled, was clicked on the page
    [s]. *)

Section Origins.
Context `{Unicode} `{Web} `{Numbers} `{Nostr.NostrTools} `{Envelope.Cipher} `{Net.Net} `{Torrent.TorrentLibrary} `{Pool.Ranking}.
Context (C : Page → button → Prop).

(** The receipt a repair goes on with: the one that was shown, or the one that the
    signer made of it with the replacements that stood in the field. *)
Definition goes_on_with (s0 : Page) (receipt0 receipt : Pool.PoolReceipt) : Prop :=
  receipt = receipt0 ∨ ∃ manifest world, Pool.extendPool (Pool.r_manifest receipt0) (poolReplacements (form s0)) = Ok manifest ∧
    (Pool.signPool manifest (receipt_author receipt0) world).2 = inr receipt.

Definition pool_upload_began (r : PoolUploadRun) : Prop :=
  ∃ s0 nostr, C s0 (ClickUpload nostr) ∧ preparedPool (pub s0) = Some (pu_prepared r) ∧ pubkey s0 = Some (pu_owner r).
Definition publish_began (r : PublishRun) : Prop :=
  ∃ s0, C s0 ClickPublish ∧ relays s0 = Ok (pb_targets r) ∧ pb_profile r = profile s0 ∧ Forall (λ e, e ∈ signedEvents (pub s0)) (pb_events r).
Definition sign_began (r : SignRun) : Prop :=
  ∃ s0 nostr now n file d, C s0 (ClickSign nostr now) ∧ inspected (pub s0) = Some (n, file) ∧ descriptor (pub s0) = Some d ∧
    pubkey s0 = Some (sg_pubkey r) ∧ sg_publication r = the_publication file d s0 ∧ sg_profile r = profile s0.
Definition repair_began (r : PoolRun) : Prop :=
  ∃ s0 nostr receipt0, C s0 (ClickRepair nostr) ∧ resolvedPool (ret s0) = Some receipt0 ∧ pubkey s0 = Some (receipt_author receipt0) ∧
    match pl_stage r with
    | SigningReplacements manifest =>
        pl_receipt r = receipt0 ∧ Pool.extendPool (Pool.r_manifest receipt0) (poolReplacements (form s0)) = Ok manifest
    | _ => goes_on_with s0 receipt0 (pl_receipt r)
    end.
Definition pool_began (r : PoolRun) : Prop :=
  match pl_stage r with SigningReplacements _ | ReadingPool | RepairingPool => repair_began r | _ => True end.

Definition traces (s : Page) : Prop :=
  Forall pool_upload_began (poolUploads (runs s)) ∧ Forall publish_began (publications (runs s)) ∧ Forall sign_began (signings (runs s)) ∧
  Forall pool_began (poolRuns (runs s)).

#[local] Hint Constants Opaque : typeclass_instances.

Lemma pool_uploads_traces n st s : traces s → traces (on_runs (λ rs, rs <| poolUploads := alter (λ r, r <| pu_stage := st |>) n (poolUploads rs) |>) s).
Proof. intros (Hu & ? & ? & ?). split_and!; [|done..]. apply Forall_alter_all; [exact Hu|]. by intros r. Qed.
Lemma set_publish_traces n f s : (∀ r, publications (runs s) !! n = Some r → publish_began r → publish_began (f r)) → traces s → traces (set_publish n f s).
Proof. intros Hf (? & Hp & ? & ?). split_and!; [done| |done..]. by apply Forall_alter_at. Qed.
Lemma set_pool_run_traces n f s : (∀ r, poolRuns (runs s) !! n = Some r → pool_began r → pool_began (f r)) → traces s → traces (set_pool_run n f s).
Proof. intros Hf (? & ? & ? & Hp). split_and!; [done..|]. by apply Forall_alter_at. Qed.

#[local] Instance clearExternalSigningPanel_traces : Keeps traces clearExternalSigningPanel.
Proof. by intros s. Qed.
#[local] Instance abandonExternalSigning_traces : Keeps traces abandonExternalSigning.
Proof. by intros s. Qed.
#[local] Instance set_inspection_traces n st : Keeps traces (set_inspection n st).
Proof. by intros s. Qed.
#[local] Instance set_upload_traces n st : Keeps traces (set_upload n st).
Proof. by intros s. Qed.
#[local] Instance set_signing_traces n st : Keeps traces (set_signing n st).
Proof. intros s (? & ? & Hs & ?). split_and!; [done..| |done]. apply Forall_alter_all; [exact Hs|]. by intros r. Qed.
#[local] Instance set_fetch_traces n st : Keeps traces (set_fetch n st).
Proof. by intros s. Qed.
#[local] Instance set_swarm_traces n st : Keeps traces (set_swarm n st).
Proof. by intros s. Qed.
#[local] Instance abort_traces c : Keeps traces (abort c).
Proof. intros s Hs. unfold abort. by destruct (is_aborted s c). Qed.
#[local] Instance abort_opt_traces c : Keeps traces (abort_opt c).
Proof. destruct c; [apply abort_traces|by intros s]. Qed.
#[local] Instance pending_traces kind f : Keeps traces (pending kind f).
Proof. intros s Hs. destruct kind; exact Hs. Qed.
#[local] Instance stopPeerSession_traces session kind run : Keeps traces (stopPeerSession session kind run).
Proof. intros s Hs. unfold stopPeerSession, refreshPeerStartButton, pending. destruct kind; exact Hs. Qed.
#[local] Instance confirmPeerStoppedInBackground_traces session kind : Keeps traces (confirmPeerStoppedInBackground session kind).
Proof. apply stopPeerSession_traces. Qed.
#[local] Instance applyProfile_traces : Keeps traces applyProfile.
Proof. handler traces applyProfile. Qed.
#[local] Instance resetResolution_traces : Keeps traces resetResolution.
Proof. handler traces resetResolution. Qed.
#[local] Instance resetPublicationAfterInspection_traces : Keeps traces resetPublicationAfterInspection.
Proof. handler traces resetPublicationAfterInspection. Qed.
#[local] Instance resetInspection_traces : Keeps traces resetInspection.
Proof. handler traces resetInspection. Qed.
#[local] Instance new_controller_traces : Keeps traces (λ s, (new_controller s).1).
Proof. by intros s. Qed.
#[local] Instance new_peer_traces k h : Keeps traces (λ s, (new_peer k h s).1).
Proof. by intros s. Qed.
#[local] Instance inspect_over_traces n r0 : Keeps traces (inspect_over n r0).
Proof. handler traces inspect_over. Qed.
#[local] Instance inspected_all_traces n r0 a e c d : Keeps traces (inspected_all n r0 a e c d).
Proof. handler traces inspected_all. Qed.
#[local] Instance prepare_layout_traces n r0 a e c : Keeps traces (prepare_layout n r0 a e c).
Proof. handler traces prepare_layout. Qed.
#[local] Instance inspect_settles_traces n w g e : Keeps traces (inspect_settles n w g e).
Proof. handler traces inspect_settles. Qed.
#[local] Instance inspectFile_traces : Keeps traces inspectFile.
Proof. handler traces inspectFile. Qed.
#[local] Instance connectSigner_traces x : Keeps traces (connectSigner x).
Proof. handler traces connectSigner. Qed.
#[local] Instance connect_settles_traces n a : Keeps traces (connect_settles n a).
Proof. handler traces connect_settles. Qed.
#[local] Instance upload_parts_traces n r0 a : Keeps traces (upload_parts n r0 a).
Proof. intros s Hs. unfold upload_parts. cbv zeta. unseen traces. apply pool_uploads_traces. exact Hs. Qed.
#[local] Instance upload_over_traces c : Keeps traces (upload_over c).
Proof. handler traces upload_over. Qed.
#[local] Instance pool_upload_over_traces n r0 : Keeps traces (pool_upload_over n r0).
Proof.
  intros s Hs. unfold pool_upload_over. cbv zeta. apply (pool_uploads_traces n PoolUploadOver) in Hs. revert Hs.
  generalize (on_runs (λ rs, rs <| poolUploads := alter (λ r, r <| pu_stage := PoolUploadOver |>) n (poolUploads rs) |>) s).
  clear. intros s Hs. keep traces.
Qed.
#[local] Instance pool_upload_settles_traces n w : Keeps traces (pool_upload_settles n w).
Proof. handler traces pool_upload_settles. Qed.
#[local] Instance end_upload_traces n r0 : Keeps traces (end_upload n r0).
Proof. handler traces end_upload. Qed.
#[local] Instance upload_done_traces n r0 a c : Keeps traces (upload_done n r0 a c).
Proof. handler traces upload_done. Qed.
#[local] Instance upload_settles_traces n w : Keeps traces (upload_settles n w).
Proof. handler traces upload_settles. Qed.
#[local] Instance cancelUpload_traces : Keeps traces cancelUpload.
Proof. handler traces cancelUpload. Qed.
#[local] Instance withdraw_upload_traces : Keeps traces withdraw_upload.
Proof. handler traces withdraw_upload. Qed.
#[local] Instance uploadConsent_changes_traces x : Keeps traces (uploadConsent_changes x).
Proof. handler traces uploadConsent_changes. Qed.
#[local] Instance keySavedConsent_changes_traces x : Keeps traces (keySavedConsent_changes x).
Proof. handler traces keySavedConsent_changes. Qed.
#[local] Instance drop_pending_traces kind : Keeps traces (drop_pending kind).
Proof. handler traces drop_pending. Qed.
#[local] Instance refreshPeerStartButton_traces kind : Keeps traces (refreshPeerStartButton kind).
Proof. handler traces refreshPeerStartButton. Qed.
#[local] Instance peer_stopped_traces n r0 ok : Keeps traces (peer_stopped n r0 ok).
Proof. handler traces peer_stopped. Qed.
#[local] Instance seedConsent_changes_traces x : Keeps traces (seedConsent_changes x).
Proof. handler traces seedConsent_changes. Qed.
#[local] Instance startSeeding_traces : Keeps traces startSeeding.
Proof. handler traces startSeeding. Qed.
#[local] Instance seed_settles_traces n r0 x : Keeps traces (seed_settles n r0 x).
Proof. handler traces seed_settles. Qed.
#[local] Instance seed_continues_traces n : Keeps traces (seed_continues n).
Proof. handler traces seed_continues. Qed.
#[local] Instance seed_event_traces n e : Keeps traces (seed_event n e).
Proof. handler traces seed_event. Qed.
#[local] Instance stopSeeding_traces : Keeps traces stopSeeding.
Proof. handler traces stopSeeding. Qed.
#[local] Instance sign_over_traces n r0 : Keeps traces (sign_over n r0).
Proof. handler traces sign_over. Qed.
#[local] Instance signed_traces n r0 e es : Keeps traces (signed n r0 e es).
Proof. handler traces signed. Qed.
#[local] Instance sign_settles_traces n a now : Keeps traces (sign_settles n a now).
Proof. handler traces sign_settles. Qed.
#[local] Instance publishConsent_changes_traces x : Keeps traces (publishConsent_changes x).
Proof. handler traces publishConsent_changes. Qed.
#[local] Instance requestExternalSignature_traces x : Keeps traces (requestExternalSignature x).
Proof. handler traces requestExternalSignature. Qed.
#[local] Instance acceptExternalSignature_traces : Keeps traces acceptExternalSignature.
Proof. handler traces acceptExternalSignature. Qed.
#[local] Instance cancelExternalSignature_traces : Keeps traces cancelExternalSignature.
Proof. handler traces cancelExternalSignature. Qed.
#[local] Instance abort_pool_download_traces : Keeps traces abort_pool_download.
Proof. handler traces abort_pool_download. Qed.
#[local] Instance signingMethod_changes_traces x : Keeps traces (signingMethod_changes x).
Proof. handler traces signingMethod_changes. Qed.
#[local] Instance externalPubkey_typed_traces v : Keeps traces (externalPubkey_typed v).
Proof. handler traces externalPubkey_typed. Qed.
#[local] Instance torConsent_changes_traces x : Keeps traces (torConsent_changes x).
Proof. handler traces torConsent_changes. Qed.
#[local] Instance layout_changes_traces i : Keeps traces (layout_changes i).
Proof. destruct i; handler traces layout_changes. Qed.
#[local] Instance file_chosen_traces f : Keeps traces (file_chosen f).
Proof. handler traces file_chosen. Qed.
#[local] Instance protectFile_changes_traces x : Keeps traces (protectFile_changes x).
Proof. handler traces protectFile_changes. Qed.
#[local] Instance showResolvedEvent_traces e : Keeps traces (showResolvedEvent e).
Proof. handler traces showResolvedEvent. Qed.
#[local] Instance showResolvedPool_traces x : Keeps traces (showResolvedPool x).
Proof. handler traces showResolvedPool. Qed.
#[local] Instance eventId_typed_traces v : Keeps traces (eventId_typed v).
Proof. handler traces eventId_typed. Qed.
#[local] Instance savedEvent_typed_traces v : Keeps traces (savedEvent_typed v).
Proof. handler traces savedEvent_typed. Qed.
#[local] Instance savedEventFile_chosen_traces f : Keeps traces (savedEventFile_chosen f).
Proof. handler traces savedEventFile_chosen. Qed.
#[local] Instance savedEventFile_settles_traces n x : Keeps traces (savedEventFile_settles n x).
Proof. handler traces savedEventFile_settles. Qed.
#[local] Instance verifySavedEvent_traces : Keeps traces verifySavedEvent.
Proof. handler traces verifySavedEvent. Qed.
#[local] Instance resolveEvent_traces : Keeps traces resolveEvent.
Proof. handler traces resolveEvent. Qed.
#[local] Instance lookup_over_traces n r0 : Keeps traces (lookup_over n r0).
Proof. handler traces lookup_over. Qed.
#[local] Instance lookup_settles_traces n names steps : Keeps traces (lookup_settles n names steps).
Proof. handler traces lookup_settles. Qed.
#[local] Instance release_download_traces c : Keeps traces (release_download c).
Proof. handler traces release_download. Qed.
#[local] Instance repairPoolConsent_changes_traces x : Keeps traces (repairPoolConsent_changes x).
Proof. handler traces repairPoolConsent_changes. Qed.
#[local] Instance poolReplacements_typed_traces v : Keeps traces (poolReplacements_typed v).
Proof. handler traces poolReplacements_typed. Qed.
#[local] Instance offer_file_traces e x o : Keeps traces (offer_file e x o).
Proof. handler traces offer_file. Qed.
#[local] Instance fetch_over_traces n r0 : Keeps traces (fetch_over n r0).
Proof. handler traces fetch_over. Qed.
#[local] Instance fetched_traces n r0 x o : Keeps traces (fetched n r0 x o).
Proof. handler traces fetched. Qed.
#[local] Instance fetch_settles_traces n w g : Keeps traces (fetch_settles n w g).
Proof. handler traces fetch_settles. Qed.
#[local] Instance swarm_over_traces n c x : Keeps traces (swarm_over n c x).
Proof. handler traces swarm_over. Qed.
#[local] Instance stop_peer_traces x : Keeps traces (stop_peer x).
Proof. handler traces stop_peer. Qed.
#[local] Instance leave_swarm_traces n c x : Keeps traces (leave_swarm n c x).
Proof. handler traces leave_swarm. Qed.
#[local] Instance join_swarm_traces n r0 : Keeps traces (join_swarm n r0).
Proof. handler traces join_swarm. Qed.
#[local] Instance fetchSwarm_traces : Keeps traces fetchSwarm.
Proof. handler traces fetchSwarm. Qed.
#[local] Instance swarm_resumes_traces n x : Keeps traces (swarm_resumes n x).
Proof. handler traces swarm_resumes. Qed.
#[local] Instance stop_settles_traces n x : Keeps traces (stop_settles n x).
Proof. handler traces stop_settles. Qed.
#[local] Instance swarm_fetched_traces n c x r0 y o : Keeps traces (swarm_fetched n c x r0 y o).
Proof. handler traces swarm_fetched. Qed.
#[local] Instance swarm_settles_traces n c r0 x : Keeps traces (swarm_settles n c r0 x).
Proof. handler traces swarm_settles. Qed.
#[local] Instance swarm_continues_traces n : Keeps traces (swarm_continues n).
Proof. handler traces swarm_continues. Qed.
#[local] Instance swarm_event_traces n e : Keeps traces (swarm_event n e).
Proof. handler traces swarm_event. Qed.
#[local] Instance swarm_decrypted_traces n g : Keeps traces (swarm_decrypted n g).
Proof. handler traces swarm_decrypted. Qed.
#[local] Instance swarm_left_traces n x : Keeps traces (swarm_left n x).
Proof. handler traces swarm_left. Qed.
#[local] Instance swarmConsent_changes_traces x : Keeps traces (swarmConsent_changes x).
Proof. handler traces swarmConsent_changes. Qed.
#[local] Instance cancelDownload_traces : Keeps traces cancelDownload.
Proof. handler traces cancelDownload. Qed.

#[local] Instance profile_changes_traces x : Keeps traces (profile_changes x).
Proof. handler traces profile_changes. Qed.
#[local] Instance endpoint_changes_traces i v : Keeps traces (endpoint_changes i v).
Proof. handler traces endpoint_changes. Qed.
#[local] Instance stop_peer_opt_traces x : Keeps traces (stop_peer_opt x).
Proof. intros s Hs. by destruct x. Qed.
#[local] Instance endPageSession_traces : Keeps traces endPageSession.
Proof. handler traces endPageSession. Qed.
#[local] Instance link_expires_traces u : Keeps traces (link_expires u).
Proof. by intros s. Qed.

(** *** Uploads to a pool *)

Lemma new_pool_upload_traces r s : pool_upload_began r → traces s → traces (on_runs (λ rs, rs <| poolUploads := poolUploads rs ++ [r] |>) s).
Proof. intros Hr (Hu & ? & ? & ?). split_and!; [|done..]. by apply Forall_snoc. Qed.
Lemma new_pool_run_traces r s : pool_began r → traces s → traces (on_runs (λ rs, rs <| poolRuns := poolRuns rs ++ [r] |>) s).
Proof. intros Hr (? & ? & ? & Hp). split_and!; [done..|]. by apply Forall_snoc. Qed.
Lemma new_sign_traces r s : sign_began r → traces s → traces (on_runs (λ rs, rs <| signings := signings rs ++ [r] |>) s).
Proof. intros Hr (? & ? & Hg & ?). split_and!; [done|done| |done]. by apply Forall_snoc. Qed.
Lemma new_publish_traces r s : publish_began r → traces s → traces (on_runs (λ rs, rs <| publications := publications rs ++ [r] |>) s).
Proof. intros Hr (? & Hp & ? & ?). split_and!; [done| |done..]. by apply Forall_snoc. Qed.

Lemma uploadPreparedPool_traces nostr s : C s (ClickUpload nostr) → traces s → traces (uploadPreparedPool nostr s).
Proof.
  intros Hc Hs. unfold uploadPreparedPool. destruct (preparedPool (pub s)) as [prepared|] eqn:Ep; [|done]. destruct (pubkey s) as [owner|] eqn:Ek; [|done].
  destruct (signer_there nostr s); [|done]. assert (traces (new_controller s).1) as Hn by exact (new_controller_traces s Hs). revert Hn.
  destruct (new_controller s) as [v c]. cbn [fst]. intros Hv. cbv zeta.
  lazymatch goal with |- context [on_runs (λ rs, rs <| poolUploads := poolUploads rs ++ [?r0] |>) ?u0] =>
    assert (traces u0) as Hu by keep traces; assert (pool_upload_began r0) as Hr by (by exists s, nostr); revert Hu Hr; generalize u0 r0 end.
  intros u r Hu Hr. pose proof (new_pool_upload_traces r u Hr Hu) as Ht. revert Ht. generalize (on_runs (λ rs, rs <| poolUploads := poolUploads rs ++ [r] |>) u).
  intros t Ht. destruct (publishedPool (pub t)); [exact (keeps t Ht)|exact Ht].
Qed.
Lemma uploadFile_traces nostr s : C s (ClickUpload nostr) → traces s → traces (uploadFile nostr s).
Proof.
  intros Hc Hs. unfold uploadFile. destruct (inspected (pub s)); [|done]. destruct (pubkey s); [|done]. destruct (_ || _); [done|].
  destruct (negb _); [by apply uploadPreparedPool_traces|]. keep traces.
Qed.

(** *** Signing and publishing *)

Lemma signEvents_traces nostr now s : C s (ClickSign nostr now) → traces s → traces (signEvents nostr now s).
Proof.
  intros Hc Hs. unfold signEvents. destruct (inspected (pub s)) as [[n file]|] eqn:Ei; [|done]. destruct (descriptor (pub s)) as [d|] eqn:Ed; [|done].
  destruct (pubkey s) as [key|] eqn:Ek; [|done]. destruct (_ || _); [done|]. cbv zeta. destruct (Nostr.buildFileEvent _ now) as [template|]; [|exact Hs].
  destruct Hs as (? & ? & Hg & ?). split_and!; [done|done| |done]. apply Forall_snoc; [exact Hg|]. by exists s, nostr, now, n, file, d.
Qed.

#[local] Instance publish_over_traces n r0 : Keeps traces (publish_over n r0).
Proof.
  intros s Hs. unfold publish_over. cbv zeta. assert (traces (set_publish n (λ r, r <| pb_over := true |>) s)) as Ht by by apply set_publish_traces.
  revert Ht. generalize (set_publish n (λ r, r <| pb_over := true |>) s). clear. intros s Hs. keep traces.
Qed.
Lemma publishEvents_traces s : C s ClickPublish → traces s → traces (publishEvents s).
Proof.
  intros Hc Hs. unfold publishEvents. destruct (signedEvents (pub s)) as [|event events] eqn:Ee; [done|]. destruct (_ || _); [done|].
  destruct (relays s) as [targets|] eqn:Et; [|done]. destruct Hs as (? & Hp & ? & ?). split_and!; [done| |done..]. apply Forall_snoc; [exact Hp|].
  exists s. split_and!; [done..|]. cbn. apply Forall_forall. done.
Qed.
Lemma publish_settles_traces n ok : Keeps traces (publish_settles n ok).
Proof.
  intros s Hs. unfold publish_settles. destruct (publications (runs s) !! n) as [r|] eqn:Hr; [|done]. destruct (pb_over r); [done|].
  assert (traces (publish_over n r s)) as Hov by exact (keeps s Hs). destruct (_ || _); [done|].
  destruct (tail (pb_events r)) as [|event rest] eqn:Et; [done|]. unseen traces. apply set_publish_traces; [|done].
  intros r' Hr' (s0 & ? & ? & ? & He). rewrite Hr in Hr'. injection Hr' as <-. exists s0. split_and!; [done..|]. cbn. rewrite <- Et.
  destruct (pb_events r); [done|]. by apply Forall_cons_1 in He as [_ ?].
Qed.

(** *** Pools *)

#[local] Instance pool_over_traces n r0 : Keeps traces (pool_over n r0).
Proof.
  intros s Hs. unfold pool_over. cbv zeta. assert (traces (set_pool_run n (λ r, r <| pl_stage := PoolOver |>) s)) as Ht by by apply set_pool_run_traces.
  revert Ht. generalize (set_pool_run n (λ r, r <| pl_stage := PoolOver |>) s). clear. intros s Hs. keep traces.
Qed.

Lemma alter_new {A} (f : A → A) (l : list A) x : alter f (length l) (l ++ [x]) = l ++ [f x].
Proof. induction l as [|y l IH]; [done|]. cbn. f_equal. exact IH. Qed.

(** The new run moves on at once. *)
Lemma begin_pool_traces f r s : pool_began (f r) → traces s →
  traces (set_pool_run (length (poolRuns (runs s))) f (on_runs (λ rs, rs <| poolRuns := poolRuns rs ++ [r] |>) s)).
Proof.
  intros Hr (? & ? & ? & Hp). split_and!; [done..|].
  change (Forall pool_began (alter f (length (poolRuns (runs s))) (poolRuns (runs s) ++ [r]))). rewrite alter_new. by apply Forall_snoc.
Qed.

Lemma retrievePool_traces repair nostr s : (repair = true → C s (ClickRepair nostr)) → traces s → traces (retrievePool repair nostr s).
Proof.
  intros Hc Hs. unfold retrievePool. destruct (resolvedPool (ret s)) as [receipt|] eqn:Eq; [|done]. cbv zeta.
  destruct (_ || _); [done|]. destruct (repair && _) eqn:Erep; [done|]. destruct (negb repair && _); [done|].
  assert (traces (new_controller s).1) as Hv by exact (new_controller_traces s Hs). assert (form (new_controller s).1 = form s) as Ef by done. revert Hv Ef.
  destruct (new_controller s) as [v c]. cbn [fst]. intros Hv Ef.
  lazymatch goal with |- context [on_runs (λ rs, rs <| poolRuns := poolRuns rs ++ [_] |>) ?u0] =>
    assert (traces u0) as Hu by keep traces; assert (form u0 = form s) as Eu by exact Ef; revert Hu Eu; generalize u0 end.
  clear Hv Ef v. intros u Hu Eu.
  lazymatch goal with |- context [on_runs (λ rs, rs <| poolRuns := poolRuns rs ++ [?r0] |>) u] =>
    assert (pl_receipt r0 = receipt) as Erc by done; assert (pl_stage r0 = ReadingPool) as Est by done; revert Erc Est; generalize r0 end.
  intros r Erc Est. destruct repair; cbn [negb andb] in *; [|unseen traces; by apply begin_pool_traces].
  apply orb_false_iff in Erep as [_ Ek]. apply negb_false_iff, bool_decide_eq_true in Ek. specialize (Hc eq_refl).
  assert (∀ r', pl_receipt r' = receipt → pl_stage r' = ReadingPool → pool_began r') as Hread.
  { intros r' Erc' Est'. unfold pool_began. rewrite Est'. exists s, nostr, receipt. split_and!; [done..|]. rewrite Est'. by left. }
  assert (traces (on_runs (λ rs, rs <| poolRuns := poolRuns rs ++ [r] |>) u)) as Ht by (apply new_pool_run_traces; auto).
  case_bool_decide.
  - unfold read_pool. unseen traces. apply begin_pool_traces; [by apply Hread|done].
  - change (poolReplacements (form (on_runs (λ rs, rs <| poolRuns := poolRuns rs ++ [r] |>) u))) with (poolReplacements (form u)). rewrite Eu.
    destruct (Pool.extendPool _ _) as [manifest|] eqn:Ee; [|exact (keeps _ Ht)].
    destruct (signer_there nostr _); [|exact (keeps _ Ht)]. unseen traces. apply begin_pool_traces; [|done].
    exists s, nostr, receipt. by split_and!.
Qed.

Lemma pool_run_settles_traces n world signal nostr : Keeps traces (pool_run_settles n world signal nostr).
Proof.
  intros s Hs. unfold pool_run_settles. destruct (poolRuns (runs s) !! n) as [r|] eqn:Hr; [|done]. cbv zeta.
  assert (traces (pool_over n r s)) as Hov by exact (keeps s Hs). pose proof Hs as (_ & _ & _ & Hp).
  pose proof (proj1 (Forall_lookup _ _) Hp n r Hr) as Hb. unfold pool_began in Hb.
  destruct (pl_stage r) as [manifest| | | |ciphertext|] eqn:Est.
  - destruct (Pool.signPool _ _ _) as [w [|receipt]] eqn:Esign; cbn [snd]; [done|]. destruct (_ || _); [done|]. unfold read_pool. unseen traces.
    apply set_pool_run_traces; [|keep traces]. intros r' Hr' _. change (poolRuns (runs s) !! n = Some r') in Hr'. rewrite Hr in Hr'. injection Hr' as <-.
    destruct Hb as (s0 & b & receipt0 & ? & ? & ? & Hm). rewrite Est in Hm. destruct Hm as [Erc Em]. exists s0, b, receipt0. split_and!; [done..|].
    right. exists manifest, world. split; [done|]. by rewrite <- Erc, Esign.
  - destruct (Pool.preparePoolRepair _ _ _).2; [done|]. destruct (_ || _); [done|]. unseen traces. apply set_pool_run_traces; [|done].
    intros r' Hr' _. rewrite Hr in Hr'. injection Hr' as <-. destruct Hb as (s0 & b & receipt0 & ? & ? & ? & Hm). rewrite Est in Hm. by exists s0, b, receipt0.
  - done.
  - destruct (Pool.fetchPool _ _ _).2; [done|]. by apply set_pool_run_traces.
  - destruct (Envelope.decryptPrivacyEnvelope _ _ _); [|done]. destruct (_ || _); [done|]. refine (@keeps _ (pool_over n r) _ _ _). keep traces.
  - done.
Qed.

Lemma fetchBlossom_traces s : traces s → traces (fetchBlossom s).
Proof.
  intros Hs. unfold fetchBlossom. destruct (is_some _); [by apply retrievePool_traces|]. keep traces.
Qed.

(** *** Everything that can happen *)

Lemma pool_upload_settles_keeps n w : Keeps traces (pool_upload_settles n w).
Proof. exact _. Qed.

#[local] Instance settle_traces e : Keeps traces (settle e).
Proof.
  pose proof publish_settles_traces. pose proof pool_run_settles_traces.
  intros s Hs. destruct e; cbn [settle]; try (case_match; [|done]); exact (keeps _ Hs).
Qed.
#[local] Instance change_traces c : Keeps traces (change c).
Proof. intros s Hs. destruct c; cbn [change]; first [exact (keeps _ Hs)|exact Hs]. Qed.
Lemma press_traces b s : C s b → traces s → traces (press b s).
Proof.
  intros Hc Hs. destruct b; cbn [press]; try exact (keeps _ Hs).
  - by apply uploadFile_traces.
  - by apply signEvents_traces.
  - by apply publishEvents_traces.
  - by apply fetchBlossom_traces.
  - by apply retrievePool_traces.
Qed.

Lemma step_traces s i : (∀ b, i = Clicks b → disabled b s = false → C s b) → traces s → traces (main_step s i).
Proof.
  intros Hc Hs. destruct i as [c|b|e|url|origin| | |persisted]; cbn [main_step]; try solve [keep traces].
  - destruct (disabled b s) eqn:E; [done|]. apply press_traces; auto.
  - destruct persisted; [|done]. by split_and!.
Qed.
End Origins.

(** The origins stay when more is known to have been clicked. *)
Lemma traces_more `{Unicode} `{Web} `{Numbers} `{Nostr.NostrTools} `{Envelope.Cipher} `{Net.Net} `{Torrent.TorrentLibrary} `{Pool.Ranking}
    (C C' : Page → button → Prop) s : (∀ s b, C s b → C' s b) → traces C s → traces C' s.
Proof.
  intros Hc (Hu & Hp & Hg & Hr). split_and!; (eapply Forall_impl; [eassumption|]); cbv beta.
  - intros r (s0 & nostr & ? & ?). exists s0, nostr. auto.
  - intros r (s0 & ? & ?). exists s0. auto.
  - intros r (s0 & nostr & now & n & file & d & ? & ?). exists s0, nostr, now, n, file, d. auto.
  - intros r. unfold pool_began, repair_began. destruct (pl_stage r); try done; intros (s0 & nostr & receipt0 & ? & ?); exists s0, nostr, receipt0; auto.
Qed.

(** *** What was clicked in a run of the page *)

Section Clicks.
Context `{Unicode} `{Web} `{Numbers} `{Nostr.NostrTools} `{Envelope.Cipher} `{Net.Net} `{Torrent.TorrentLibrary} `{Pool.Ranking}.

Definition clicked (inputs : list main_input) (s : Page) (b : button) : Prop :=
  ∃ before after, inputs = before ++ Clicks b :: after ∧ s = main_run first_page before ∧ disabled b s = false.

Lemma clicked_now inputs b s : s = main_run first_page inputs → disabled b s = false → clicked (inputs ++ [Clicks b]) s b.
Proof. intros Es Hd. by exists inputs, []. Qed.

Lemma clicked_more inputs i s b : clicked inputs s b → clicked (inputs ++ [i]) s b.
Proof. intros (before & after & -> & Es & Hd). exists before, (after ++ [i]). by rewrite <- app_assoc. Qed.

Lemma run_traces inputs : traces (clicked inputs) (main_run first_page inputs).
Proof.
  induction inputs as [|i inputs IH] using rev_ind; [by split_and!|].
  assert (main_run first_page (inputs ++ [i]) = main_step (main_run first_page inputs) i) as -> by (unfold main_run; by rewrite foldl_app).
  apply step_traces; [intros b ->; by apply clicked_now|]. eapply traces_more; [|exact IH]. intros s b. apply clicked_more.
Qed.
End Clicks.
