(* ===== verification/MainShown.v ===== *)
(** * What the publishing page shows and offers to save: the invariant

    What a link beside a retrieved file may save, the invariant of the runs that
    retrieve, how it goes along with the changes of the page's variables, and
    that the resets and the handlers that publish keep it. *)

From S2P Require Import Prelude JsString Utf8 Bytes Json JsValue Security MainState MainFacts MainPublish MainSign MainRetrieve MainPage.
From S2P Require Nostr Net Blossom BlossomFacts Envelope Torrent Pool Swarm SwarmFacts.

Section Facts.
Context `{Unicode} `{Web} `{Numbers} `{Nostr.NostrTools} `{Envelope.Cipher} `{Net.Net} `{Torrent.TorrentLibrary} `{Pool.Ranking}.
Context `{!Net.NetLaws}.

(** ** What a link may save *)

Definition verified_blob (event : Nostr.ResolvedHybridEvent) (blob : bytes) : Prop := toHex (Envelope.sha256 blob) = Nostr.rh_sha256 event.

Definition verified_pool (receipt : Pool.PoolReceipt) (cipher : bytes) : Prop :=
  zlen cipher = Pool.payload_size (Pool.r_manifest receipt) ∧ toHex (Envelope.sha256 cipher) = Pool.payload_sha256 (Pool.r_manifest receipt).

(** What the envelope gives under some key. *)
Definition opened_as (blob : bytes) (name : jstr) (content : bytes) : Prop :=
  ∃ key signal file, Envelope.decryptPrivacyEnvelope blob key signal = Ok file ∧
    name = Envelope.meta_name (Envelope.rec_metadata file) ∧ content = Envelope.rec_content file.

Definition from_event (event : Nostr.ResolvedHybridEvent) (name : jstr) (content : bytes) : Prop :=
  ∃ blob, verified_blob event blob ∧
    match Nostr.rh_encryption event with None => name = Nostr.rh_name event ∧ content = blob | Some _ => opened_as blob name content end.

Definition from_pool (receipt : Pool.PoolReceipt) (name : jstr) (content : bytes) : Prop :=
  ∃ cipher, verified_pool receipt cipher ∧ opened_as cipher name content.

Definition link_ok (event : option (nat * Nostr.ResolvedHybridEvent)) (receipt : option Pool.PoolReceipt) (l : Link) : Prop :=
  ∃ name content, l_saves l = Payload name content ∧
    ((∃ e, option_map snd event = Some e ∧ from_event e name content) ∨ (∃ x, receipt = Some x ∧ from_pool x name content)).

(** ** The invariant *)

(** A run of number [c] and revision [v] that has not ended. *)
Record run_ok (r : Retrieving) (fresh c v : nat) : Prop := {
  u_past : (v <= resolutionRevision r)%nat;
  u_fresh : (c < fresh)%nat;
  u_holds : downloadController r = Some c → v = resolutionRevision r;
}.

Definition fetch_ok (r : Retrieving) (fresh : nat) (x : FetchRun) : Prop :=
  ft_stage x ≠ FetchOver →
  run_ok r fresh (ft_controller x) (ft_revision x) ∧
  (ft_revision x = resolutionRevision r → resolved r = Some (ft_resolved x)) ∧
  match ft_stage x with
  | DecryptingBlob blob _ => verified_blob (ft_resolved x).2 blob ∧ is_Some (Nostr.rh_encryption (ft_resolved x).2)
  | _ => True
  end.

Notation attempt_inv event := (SwarmFacts.down_inv blob_hash event True True).

Definition swarm_ok (r : Retrieving) (fresh : nat) (x : SwarmRun) : Prop :=
  sw_stage x ≠ SwarmOver →
  (sw_revision x <= resolutionRevision r)%nat ∧
  (sw_revision x = resolutionRevision r → resolved r = Some (sw_resolved x)) ∧
  match sw_stage x with
  | StoppingPrevious | SwarmOver => True
  | Joining c attempt => run_ok r fresh c (sw_revision x) ∧ attempt_inv (sw_resolved x).2 attempt
  | DecryptingSwarm c _ blob _ =>
      run_ok r fresh c (sw_revision x) ∧ verified_blob (sw_resolved x).2 blob ∧ is_Some (Nostr.rh_encryption (sw_resolved x).2)
  | LeavingSwarm c _ => run_ok r fresh c (sw_revision x)
  end.

Definition pool_ok (r : Retrieving) (fresh : nat) (ls : list Link) (x : PoolRun) : Prop :=
  (pl_controller x < fresh)%nat ∧
  (pl_stage x ≠ PoolOver →
   run_ok r fresh (pl_controller x) (pl_revision x) ∧
   (pl_revision x = resolutionRevision r →
      resolvedPool r = Some (pl_receipt x) ∧ downloadController r = Some (pl_controller x) ∧ ls = []) ∧
   match pl_stage x with DecryptingPool cipher => verified_pool (pl_receipt x) cipher | _ => True end).

Record retr_ok (r : Retrieving) (pools : list PoolRun) (fs : list FetchRun) (ss : list SwarmRun) (ls : list Link) (fresh : nat) : Prop := {
  t_look : lookupController r ≠ None → resolved r = None ∧ resolvedPool r = None;
  t_one : resolved r = None ∨ resolvedPool r = None;
  t_fetch : Forall (fetch_ok r fresh) fs;
  t_swarm : Forall (swarm_ok r fresh) ss;
  t_pool : Forall (pool_ok r fresh ls) pools;
  t_nodup : NoDup (map pl_controller pools);
  t_links : Forall (link_ok (resolved r) (resolvedPool r)) ls;
}.

Definition page_retr (s : Page) : Prop :=
  retr_ok (ret s) (poolRuns (runs s)) (fetches (runs s)) (swarms (runs s)) (retrieveLinks (links s)) (length (aborted s)).

Lemma first_retr : page_retr first_page.
Proof. split; try done; try apply Forall_nil; try (by left); constructor. Qed.

(** ** Changes of the variables that keep it *)

(** A reset: the revision is new, and nothing is shown. *)
Lemma reset_retr r pools fs ss ls fresh r' : retr_ok r pools fs ss ls fresh →
  (resolutionRevision r < resolutionRevision r')%nat → downloadController r' = None → lookupController r' = None → resolved r' = None →
  resolvedPool r' = None → retr_ok r' pools fs ss [] fresh.
Proof.
  intros [Hk Ho Hf Hs Hp Hn Hl] Hv Hd Hc He Hq.
  assert (∀ c v, run_ok r fresh c v → run_ok r' fresh c v) as Hu by (intros c v []; split; [lia|done|congruence]).
  split; rewrite ?Hc, ?He, ?Hq; auto.
  - eapply Forall_impl; [exact Hf|]. intros x Hx Hov. destruct (Hx Hov) as (Hr & _ & ?). pose proof (u_past _ _ _ _ Hr).
    split; [auto|]. split; [lia|done].
  - eapply Forall_impl; [exact Hs|]. intros x Hx Hov. destruct (Hx Hov) as (? & _ & ?). split; [lia|]. split; [lia|].
    destruct (sw_stage x); intuition.
  - eapply Forall_impl; [exact Hp|]. intros x [Hx1 Hx]. split; [done|]. intros Hov. destruct (Hx Hov) as (Hr & _ & ?).
    pose proof (u_past _ _ _ _ Hr). split; [auto|]. split; [lia|done].
Qed.

(** A longer list of signals. *)
Lemma run_ok_fresh r fresh fresh' c v : (fresh <= fresh')%nat → run_ok r fresh c v → run_ok r fresh' c v.
Proof. intros Hle []. split; [done|lia|done]. Qed.

(** No download is current: one begins. *)
Lemma begin_retr r pools fs ss ls fresh r' : retr_ok r pools fs ss ls fresh → downloadController r = None →
  resolutionRevision r' = resolutionRevision r → downloadController r' = Some fresh → lookupController r' = lookupController r →
  resolved r' = resolved r → resolvedPool r' = resolvedPool r → retr_ok r' pools fs ss [] (S fresh).
Proof.
  intros [Hk Ho Hf Hs Hp Hn Hl] Hd Hv Hd' Hc He Hq.
  assert (∀ c v, run_ok r fresh c v → run_ok r' (S fresh) c v) as Hu.
  { intros c v [H1' H2' H3']. split; rewrite ?Hv, ?Hd'; [done|lia|]. intros [= ->]. lia. }
  split; rewrite ?Hc, ?He, ?Hq; auto.
  - eapply Forall_impl; [exact Hf|]. intros x Hx Hov. destruct (Hx Hov) as (H1' & H2' & H3'). rewrite Hv, He. auto.
  - eapply Forall_impl; [exact Hs|]. intros x Hx Hov. destruct (Hx Hov) as (H1' & H2' & H3'). rewrite Hv, He. split_and!; [done|done|].
    destruct (sw_stage x); intuition.
  - eapply Forall_impl; [exact Hp|]. intros x [Hx1 Hx]. split; [lia|]. intros Hov. destruct (Hx Hov) as (H1' & H2' & H3').
    split_and!; [auto| |done]. rewrite Hv. intros E. destruct (H2' E) as (_ & Hx2 & _). congruence.
Qed.

(** Nothing but the variables that are not looked at changes. *)
Lemma same_retr r pools fs ss ls fresh r' : retr_ok r pools fs ss ls fresh →
  resolutionRevision r' = resolutionRevision r → downloadController r' = downloadController r → lookupController r' = lookupController r →
  resolved r' = resolved r → resolvedPool r' = resolvedPool r → retr_ok r' pools fs ss ls fresh.
Proof.
  intros [Hk Ho Hf Hs Hp Hn Hl] Hv Hd Hc He Hq.
  assert (∀ c v, run_ok r fresh c v → run_ok r' fresh c v) as Hu by (intros c v []; split; rewrite ?Hv, ?Hd; done).
  split; rewrite ?Hc, ?He, ?Hq; auto.
  - eapply Forall_impl; [exact Hf|]. intros x Hx Hov. destruct (Hx Hov) as (? & ? & ?). rewrite Hv, He. auto.
  - eapply Forall_impl; [exact Hs|]. intros x Hx Hov. destruct (Hx Hov) as (? & ? & ?). rewrite Hv, He. split_and!; [done|done|].
    destruct (sw_stage x); intuition.
  - eapply Forall_impl; [exact Hp|]. intros x [Hx1 Hx]. split; [done|]. intros Hov. destruct (Hx Hov) as (? & ? & ?). rewrite Hv, Hd, Hq. auto.
Qed.

(** The download of a controller lets go of it. *)
Lemma release_retr r pools fs ss ls fresh : retr_ok r pools fs ss ls fresh →
  Forall (λ x, pl_stage x ≠ PoolOver → pl_revision x ≠ resolutionRevision r) pools →
  retr_ok (r <| downloadController := None |> <| downloadTransport := None |>) pools fs ss ls fresh.
Proof.
  intros [Hk Ho Hf Hs Hp Hn Hl] Hno.
  assert (∀ c v, run_ok r fresh c v → run_ok (r <| downloadController := None |> <| downloadTransport := None |>) fresh c v) as Hu.
  { intros c v []; split; done. }
  split; cbn; auto.
  - eapply Forall_impl; [exact Hf|]. intros x Hx Hov. destruct (Hx Hov) as (? & ? & ?). auto.
  - eapply Forall_impl; [exact Hs|]. intros x Hx Hov. destruct (Hx Hov) as (? & ? & ?). split_and!; [done|done|].
    destruct (sw_stage x); intuition.
  - apply Forall_forall. intros x Hx. destruct (proj1 (Forall_forall _ _) Hp x Hx) as [Hx1 Hx2]. split; [done|]. intros Hov.
    destruct (Hx2 Hov) as (? & ? & ?). split_and!; [auto| |done]. cbn. intros E. by destruct (proj1 (Forall_forall _ _) Hno x Hx Hov).
Qed.

Lemma fetch_moved r pools fs ss ls fresh n f : retr_ok r pools fs ss ls fresh →
  (∀ x, fs !! n = Some x → fetch_ok r fresh x → fetch_ok r fresh (f x)) → retr_ok r pools (alter f n fs) ss ls fresh.
Proof. intros [] Hf. split; auto. by apply Forall_alter_at. Qed.

Lemma swarm_moved r pools fs ss ls fresh n f : retr_ok r pools fs ss ls fresh →
  (∀ x, ss !! n = Some x → swarm_ok r fresh x → swarm_ok r fresh (f x)) → retr_ok r pools fs (alter f n ss) ls fresh.
Proof. intros [] Hf. split; auto. by apply Forall_alter_at. Qed.

Lemma pool_moved r pools fs ss ls fresh n f : retr_ok r pools fs ss ls fresh → (∀ x, pl_controller (f x) = pl_controller x) →
  (∀ x, pools !! n = Some x → pool_ok r fresh ls x → pool_ok r fresh ls (f x)) → retr_ok r (alter f n pools) fs ss ls fresh.
Proof. intros [] Hc Hf. split; auto; [by apply Forall_alter_at|by rewrite map_alter_same]. Qed.

(** One more link of what is shown, while no pool is being read for it. *)
Lemma offer_retr r pools fs ss ls fresh l : retr_ok r pools fs ss ls fresh → link_ok (resolved r) (resolvedPool r) l →
  Forall (λ x, pl_stage x ≠ PoolOver → pl_revision x ≠ resolutionRevision r) pools → retr_ok r pools fs ss (ls ++ [l]) fresh.
Proof.
  intros [Hk Ho Hf Hs Hp Hn Hl] Hl' Hno. split; auto.
  - apply Forall_forall. intros x Hx. destruct (proj1 (Forall_forall _ _) Hp x Hx) as [Hx1 Hx2]. split; [done|]. intros Hov.
    destruct (Hx2 Hov) as (? & ? & ?). split_and!; [done| |done]. intros E. by destruct (proj1 (Forall_forall _ _) Hno x Hx Hov).
  - apply Forall_app. split; [done|]. by constructor.
Qed.

(** A server's or the swarm's download is current: no pool is being read. *)
Lemma no_pool r pools fs ss ls fresh e : retr_ok r pools fs ss ls fresh → resolved r = Some e →
  Forall (λ x, pl_stage x ≠ PoolOver → pl_revision x ≠ resolutionRevision r) pools.
Proof.
  intros [Hk Ho Hf Hs Hp Hn Hl] He. eapply Forall_impl; [exact Hp|]. intros x [_ Hx] Hov Hv.
  destruct (Hx Hov) as (_ & Hx2 & _). destruct (Hx2 Hv) as (Hq & _). destruct Ho; congruence.
Qed.

(** ** The shared parts of the page *)

Lemma abort_swarm_ok r fresh c x : swarm_ok r fresh x → swarm_ok r fresh (abort_swarm c x).
Proof.
  intros Hx. unfold abort_swarm. destruct (sw_stage x) as [|c' a| | |] eqn:E; try done. case_bool_decide; [|done].
  intros _. destruct (Hx ltac:(by rewrite E)) as (H1' & H2' & H3'). rewrite E in H3'. split; [done|]. split; [done|]. cbn. destruct H3' as [Hr Ha].
  split; [done|]. apply (SwarmFacts.download_step_inv blob_hash (sw_resolved x).2 True True a Swarm.DownAborted); done.
Qed.

(** The runs alone, with variables and links that are given. *)
Definition runs_retr (r : Retrieving) (ls : list Link) (s : Page) : Prop :=
  retr_ok r (poolRuns (runs s)) (fetches (runs s)) (swarms (runs s)) ls (length (aborted s)).

(** The instances are told apart by their names. *)
#[local] Hint Constants Opaque : typeclass_instances.

#[export] Instance abort_runs r ls c : Keeps (runs_retr r ls) (abort c).
Proof.
  intros s Hs. unfold runs_retr. rewrite abort_length. unfold abort. destruct (is_aborted s c); [done|]. cbn. destruct Hs. split; auto.
  apply Forall_map_keep; [done|]. intros x. apply abort_swarm_ok.
Qed.
#[export] Instance abort_opt_runs r ls c : Keeps (runs_retr r ls) (abort_opt c).
Proof. destruct c; [apply abort_runs|by intros s]. Qed.
#[export] Instance stop_runs r ls session kind run : Keeps (runs_retr r ls) (stopPeerSession session kind run).
Proof. intros s Hs. unfold stopPeerSession, refreshPeerStartButton, pending. destruct kind; exact Hs. Qed.
#[export] Instance abandon_runs r ls : Keeps (runs_retr r ls) abandonExternalSigning.
Proof. by intros s. Qed.

Lemma abort_ret c s : ret (abort c s) = ret s ∧ links (abort c s) = links s.
Proof. unfold abort. by destruct (is_aborted s c). Qed.

#[export] Instance abort_retr c : Keeps page_retr (abort c).
Proof. intros s Hs. unfold page_retr. destruct (abort_ret c s) as [-> ->]. exact (abort_runs _ _ c s Hs). Qed.
#[export] Instance abort_opt_retr c : Keeps page_retr (abort_opt c).
Proof. destruct c; [apply abort_retr|by intros s]. Qed.
#[export] Instance stopPeerSession_retr session kind run : Keeps page_retr (stopPeerSession session kind run).
Proof. intros s Hs. unfold stopPeerSession, refreshPeerStartButton, pending. destruct kind; exact Hs. Qed.
#[export] Instance abandon_retr : Keeps page_retr abandonExternalSigning.
Proof. by intros s. Qed.
#[export] Instance background_retr session kind : Keeps page_retr (confirmPeerStoppedInBackground session kind).
Proof. apply stopPeerSession_retr. Qed.
#[export] Instance resetPublication_retr : Keeps page_retr resetPublicationAfterInspection.
Proof. handler page_retr resetPublicationAfterInspection. Qed.
#[export] Instance resetInspection_retr : Keeps page_retr resetInspection.
Proof. handler page_retr resetInspection. Qed.

(** A reset leaves nothing shown, nothing current, and nothing to save. *)
Definition cleared_ret (s t : Page) : Prop :=
  (resolutionRevision (ret s) < resolutionRevision (ret t))%nat ∧ downloadController (ret t) = None ∧ lookupController (ret t) = None ∧
  resolved (ret t) = None ∧ resolvedPool (ret t) = None ∧ downloadSession (ret t) = None ∧ retrieveLinks (links t) = [].

Lemma ret_abort_opt c s : ret (abort_opt c s) = ret s.
Proof. destruct c; [apply abort_ret|done]. Qed.
Lemma ret_stopPeerSession session kind run s : ret (stopPeerSession session kind run s) = ret s.
Proof. by destruct kind. Qed.

Lemma resetResolution_cleared s : cleared_ret s (resetResolution s).
Proof.
  unfold cleared_ret, resetResolution, confirmPeerStoppedInBackground. cbv zeta.
  set (s1 := if is_some (resolvedPool (ret s)) && _ then _ else s). assert (ret s1 = ret s) as E1 by (unfold s1; by destruct (_ && _)).
  clearbody s1. cbn. destruct (downloadSession _) as [session|]; cbn; rewrite ?ret_stopPeerSession; cbn; rewrite !ret_abort_opt; cbn;
    rewrite ?ret_abort_opt; cbn; rewrite E1; split_and!; try done; lia.
Qed.

#[export] Instance resetResolution_retr : Keeps page_retr resetResolution.
Proof.
  intros s Hs. destruct (resetResolution_cleared s) as (Hv & Hd & Hc & He & Hq & _ & Hl).
  assert (runs_retr (ret (resetResolution s)) [] s) as Hr by exact (reset_retr _ _ _ _ _ _ _ Hs Hv Hd Hc He Hq).
  unfold page_retr. rewrite Hl. change (runs_retr (ret (resetResolution s)) [] (resetResolution s)).
  generalize (ret (resetResolution s)) Hr. clear. intros r Hr.
  cbv beta delta [resetResolution confirmPeerStoppedInBackground]. keep (runs_retr r []).
Qed.

(** ** The handlers that publish *)

(** One more signal. *)
Lemma more_retr r pools fs ss ls fresh : retr_ok r pools fs ss ls fresh → retr_ok r pools fs ss ls (S fresh).
Proof.
  assert (∀ c v, run_ok r fresh c v → run_ok r (S fresh) c v) as Hu by (intros c v; apply run_ok_fresh; lia).
  intros [Hk Ho Hf Hs Hp Hn Hl]. split; auto.
  - eapply Forall_impl; [exact Hf|]. intros x Hx Hov. destruct (Hx Hov) as (? & ? & ?). auto.
  - eapply Forall_impl; [exact Hs|]. intros x Hx Hov. destruct (Hx Hov) as (? & ? & ?). split; [done|]. split; [done|].
    destruct (sw_stage x); intuition.
  - eapply Forall_impl; [exact Hp|]. intros x [Hx1 Hx]. split; [lia|]. intros Hov. destruct (Hx Hov) as (? & ? & ?). auto.
Qed.

#[export] Instance new_controller_retr : Keeps page_retr (λ s, (new_controller s).1).
Proof. intros s Hs. unfold page_retr. cbn. rewrite length_app, Nat.add_1_r. by apply more_retr. Qed.

#[export] Instance set_inspection_retr n st : Keeps page_retr (set_inspection n st).
Proof. by intros s. Qed.
#[export] Instance set_upload_retr n st : Keeps page_retr (set_upload n st).
Proof. by intros s. Qed.
#[export] Instance set_signing_retr n st : Keeps page_retr (set_signing n st).
Proof. by intros s. Qed.
#[export] Instance set_publish_retr n f : Keeps page_retr (set_publish n f).
Proof. by intros s. Qed.
#[export] Instance applyProfile_retr : Keeps page_retr applyProfile.
Proof. handler page_retr applyProfile. Qed.
#[export] Instance inspect_over_retr n r : Keeps page_retr (inspect_over n r).
Proof. handler page_retr inspect_over. Qed.
#[export] Instance inspected_all_retr n r a b c d : Keeps page_retr (inspected_all n r a b c d).
Proof. handler page_retr inspected_all. Qed.
#[export] Instance prepare_layout_retr n r a b c : Keeps page_retr (prepare_layout n r a b c).
Proof. handler page_retr prepare_layout. Qed.
#[export] Instance inspect_settles_retr n w g e : Keeps page_retr (inspect_settles n w g e).
Proof. handler page_retr inspect_settles. Qed.
#[export] Instance inspectFile_retr : Keeps page_retr inspectFile.
Proof. handler page_retr inspectFile. Qed.
#[export] Instance connectSigner_retr b : Keeps page_retr (connectSigner b).
Proof. handler page_retr connectSigner. Qed.
#[export] Instance connect_settles_retr n a : Keeps page_retr (connect_settles n a).
Proof. handler page_retr connect_settles. Qed.
#[export] Instance upload_parts_retr n r a : Keeps page_retr (upload_parts n r a).
Proof. handler page_retr upload_parts. Qed.
#[export] Instance uploadPreparedPool_retr b : Keeps page_retr (uploadPreparedPool b).
Proof. handler page_retr uploadPreparedPool. Qed.
#[export] Instance upload_over_retr c : Keeps page_retr (upload_over c).
Proof. handler page_retr upload_over. Qed.
#[export] Instance pool_upload_over_retr n r : Keeps page_retr (pool_upload_over n r).
Proof. handler page_retr pool_upload_over. Qed.
#[export] Instance pool_upload_settles_retr n w : Keeps page_retr (pool_upload_settles n w).
Proof. handler page_retr pool_upload_settles. Qed.
#[export] Instance uploadFile_retr b : Keeps page_retr (uploadFile b).
Proof. handler page_retr uploadFile. Qed.
#[export] Instance end_upload_retr n r : Keeps page_retr (end_upload n r).
Proof. handler page_retr end_upload. Qed.
#[export] Instance upload_done_retr n r a b : Keeps page_retr (upload_done n r a b).
Proof. handler page_retr upload_done. Qed.
#[export] Instance upload_settles_retr n w : Keeps page_retr (upload_settles n w).
Proof. handler page_retr upload_settles. Qed.
#[export] Instance cancelUpload_retr : Keeps page_retr cancelUpload.
Proof. handler page_retr cancelUpload. Qed.
#[export] Instance withdraw_upload_retr : Keeps page_retr withdraw_upload.
Proof. handler page_retr withdraw_upload. Qed.
#[export] Instance uploadConsent_retr b : Keeps page_retr (uploadConsent_changes b).
Proof. handler page_retr uploadConsent_changes. Qed.
#[export] Instance keySavedConsent_retr b : Keeps page_retr (keySavedConsent_changes b).
Proof. handler page_retr keySavedConsent_changes. Qed.

(** ** The handlers that seed, sign and sign for others *)

#[export] Instance session_retr v : Keeps page_retr (on_ret (λ x, x <| downloadSession := v |>)).
Proof. intros s Hs. by apply (same_retr (ret s)). Qed.
#[export] Instance clearExternalSigningPanel_retr : Keeps page_retr clearExternalSigningPanel.
Proof. by intros s. Qed.
#[export] Instance new_peer_retr k h : Keeps page_retr (λ s, (new_peer k h s).1).
Proof. by intros s. Qed.
#[export] Instance pending_retr kind f : Keeps page_retr (pending kind f).
Proof. intros s Hs. destruct kind; exact Hs. Qed.
#[export] Instance drop_pending_retr kind : Keeps page_retr (drop_pending kind).
Proof. handler page_retr drop_pending. Qed.
#[export] Instance refreshPeerStartButton_retr kind : Keeps page_retr (refreshPeerStartButton kind).
Proof. handler page_retr refreshPeerStartButton. Qed.
#[export] Instance peer_stopped_retr n r ok : Keeps page_retr (peer_stopped n r ok).
Proof. handler page_retr peer_stopped. Qed.
#[export] Instance seedConsent_changes_retr b : Keeps page_retr (seedConsent_changes b).
Proof. handler page_retr seedConsent_changes. Qed.
#[export] Instance startSeeding_retr : Keeps page_retr startSeeding.
Proof. handler page_retr startSeeding. Qed.
#[export] Instance seed_settles_retr n r x : Keeps page_retr (seed_settles n r x).
Proof. handler page_retr seed_settles. Qed.
#[export] Instance seed_continues_retr n : Keeps page_retr (seed_continues n).
Proof. handler page_retr seed_continues. Qed.
#[export] Instance seed_event_retr n e : Keeps page_retr (seed_event n e).
Proof. handler page_retr seed_event. Qed.
#[export] Instance stopSeeding_retr : Keeps page_retr stopSeeding.
Proof. handler page_retr stopSeeding. Qed.
#[export] Instance sign_over_retr n r : Keeps page_retr (sign_over n r).
Proof. handler page_retr sign_over. Qed.
#[export] Instance signEvents_retr b now : Keeps page_retr (signEvents b now).
Proof. handler page_retr signEvents. Qed.
#[export] Instance signed_retr n r e es : Keeps page_retr (signed n r e es).
Proof. handler page_retr signed. Qed.
#[export] Instance sign_settles_retr n a now : Keeps page_retr (sign_settles n a now).
Proof. handler page_retr sign_settles. Qed.
#[export] Instance publishConsent_changes_retr b : Keeps page_retr (publishConsent_changes b).
Proof. handler page_retr publishConsent_changes. Qed.
#[export] Instance publish_over_retr n r : Keeps page_retr (publish_over n r).
Proof. handler page_retr publish_over. Qed.
#[export] Instance publishEvents_retr : Keeps page_retr publishEvents.
Proof. handler page_retr publishEvents. Qed.
#[export] Instance publish_settles_retr n ok : Keeps page_retr (publish_settles n ok).
Proof. handler page_retr publish_settles. Qed.
#[export] Instance requestExternalSignature_retr t : Keeps page_retr (requestExternalSignature t).
Proof. handler page_retr requestExternalSignature. Qed.
#[export] Instance acceptExternalSignature_retr : Keeps page_retr acceptExternalSignature.
Proof. handler page_retr acceptExternalSignature. Qed.
#[export] Instance cancelExternalSignature_retr : Keeps page_retr cancelExternalSignature.
Proof. handler page_retr cancelExternalSignature. Qed.
#[export] Instance profile_changes_retr b : Keeps page_retr (profile_changes b).
Proof. handler page_retr profile_changes. Qed.
#[export] Instance abort_pool_download_retr : Keeps page_retr abort_pool_download.
Proof. handler page_retr abort_pool_download. Qed.
#[export] Instance signingMethod_changes_retr b : Keeps page_retr (signingMethod_changes b).
Proof. handler page_retr signingMethod_changes. Qed.
#[export] Instance externalPubkey_typed_retr v : Keeps page_retr (externalPubkey_typed v).
Proof. handler page_retr externalPubkey_typed. Qed.
#[export] Instance torConsent_changes_retr b : Keeps page_retr (torConsent_changes b).
Proof. handler page_retr torConsent_changes. Qed.
#[export] Instance layout_changes_retr i : Keeps page_retr (layout_changes i).
Proof. handler page_retr layout_changes. Qed.
#[export] Instance file_chosen_retr f : Keeps page_retr (file_chosen f).
Proof. handler page_retr file_chosen. Qed.
#[export] Instance endpoint_changes_retr i v : Keeps page_retr (endpoint_changes i v).
Proof. handler page_retr endpoint_changes. Qed.
#[export] Instance protectFile_changes_retr b : Keeps page_retr (protectFile_changes b).
Proof. handler page_retr protectFile_changes. Qed.
#[export] Instance eventId_typed_retr v : Keeps page_retr (eventId_typed v).
Proof. handler page_retr eventId_typed. Qed.
#[export] Instance savedEvent_typed_retr v : Keeps page_retr (savedEvent_typed v).
Proof. handler page_retr savedEvent_typed. Qed.
#[export] Instance savedEventFile_chosen_retr f : Keeps page_retr (savedEventFile_chosen f).
Proof. handler page_retr savedEventFile_chosen. Qed.
#[export] Instance savedEventFile_settles_retr n x : Keeps page_retr (savedEventFile_settles n x).
Proof. handler page_retr savedEventFile_settles. Qed.
#[export] Instance repairPoolConsent_changes_retr b : Keeps page_retr (repairPoolConsent_changes b).
Proof. handler page_retr repairPoolConsent_changes. Qed.
#[export] Instance poolReplacements_typed_retr v : Keeps page_retr (poolReplacements_typed v).
Proof. handler page_retr poolReplacements_typed. Qed.
#[export] Instance swarmConsent_changes_retr b : Keeps page_retr (swarmConsent_changes b).
Proof. handler page_retr swarmConsent_changes. Qed.
#[export] Instance cancelDownload_retr : Keeps page_retr cancelDownload.
Proof. handler page_retr cancelDownload. Qed.
#[export] Instance stop_peer_opt_retr x : Keeps page_retr (stop_peer_opt x).
Proof. intros s Hs. by destruct x. Qed.
#[export] Instance link_expires_retr u : Keeps page_retr (link_expires u).
Proof. by intros s. Qed.
End Facts.
