(* ===== verification/MainRetrieveFacts.v ===== *)
(** * What the publishing page offers to save

    The files offered are the verified bytes of the event or the receipt that is
    on the screen: a download that was superseded never offers anything. *)

From S2P Require Import Prelude JsString Utf8 Bytes Json JsValue Security MainState MainFacts MainPublish MainSign MainRetrieve MainPage MainShown.
From S2P Require Nostr NostrFacts Net Blossom BlossomFacts Envelope Torrent Pool PoolFacts Swarm SwarmFacts.

Section Facts.
Context `{Unicode} `{Web} `{Numbers} `{Nostr.NostrTools} `{Envelope.Cipher} `{Net.Net} `{Torrent.TorrentLibrary} `{Pool.Ranking}.
Context `{!Net.NetLaws}.

#[local] Hint Constants Opaque : typeclass_instances.

(** ** What is shown *)

(** An event or a receipt is shown where nothing was. *)
Lemma show_retr r pools fs ss ls fresh r' : retr_ok r pools fs ss ls fresh → resolved r = None → resolvedPool r = None →
  resolutionRevision r' = resolutionRevision r → downloadController r' = downloadController r → lookupController r' = None →
  resolved r' = None ∨ resolvedPool r' = None → retr_ok r' pools fs ss ls fresh.
Proof.
  intros [Hk Ho Hf Hs Hp Hn Hl] He0 Hq0 Hv Hd Hc Hone.
  assert (∀ c v, run_ok r fresh c v → run_ok r' fresh c v) as Hu by (intros c v []; split; rewrite ?Hv, ?Hd; done).
  assert (ls = []) as -> by (destruct Hl as [|l ls Hx]; [done|]; destruct Hx as (? & ? & ? & [(e & He & ?)|(e & He & ?)]); rewrite ?He0, ?Hq0 in He; done).
  split; auto; try congruence.
  - eapply Forall_impl; [exact Hf|]. intros x Hx Hov. destruct (Hx Hov) as (? & Hx2 & ?). split; [auto|]. split; [|done].
    rewrite Hv. intros E. specialize (Hx2 E). congruence.
  - eapply Forall_impl; [exact Hs|]. intros x Hx Hov. destruct (Hx Hov) as (? & Hx2 & ?). rewrite Hv. split; [done|].
    split; [intros E; specialize (Hx2 E); congruence|]. destruct (sw_stage x); intuition.
  - eapply Forall_impl; [exact Hp|]. intros x [Hx1 Hx]. split; [done|]. intros Hov. destruct (Hx Hov) as (? & Hx2 & ?).
    split; [auto|]. split; [|done]. rewrite Hv. intros E. destruct (Hx2 E) as (? & _). congruence.
Qed.

Definition nothing_shown (s : Page) : Prop :=
  resolved (ret s) = None ∧ resolvedPool (ret s) = None ∧ lookupController (ret s) = None.

Lemma resetResolution_shows s : nothing_shown (resetResolution s).
Proof. by destruct (resetResolution_cleared s) as (_ & _ & ? & ? & ? & _). Qed.

Lemma new_controller_shows s : nothing_shown s → nothing_shown (new_controller s).1.
Proof. done. Qed.

Lemma showResolvedEvent_retr e s : nothing_shown s → page_retr s → page_retr (showResolvedEvent e s).
Proof.
  intros (He & Hq & Hc) Hs. unfold page_retr. cbn. apply (show_retr (ret s)); try done. by right.
Qed.

Lemma showResolvedPool_retr x s : nothing_shown s → page_retr s → page_retr (showResolvedPool x s).
Proof.
  intros (He & Hq & Hc) Hs. unfold page_retr. cbn. apply (show_retr (ret s)); try done. by left.
Qed.

#[local] Instance verifySavedEvent_retr : Keeps page_retr verifySavedEvent.
Proof.
  intros s Hs. assert (page_retr (resetResolution s)) as Hr by by apply resetResolution_retr.
  pose proof (resetResolution_shows s) as Hn. unfold verifySavedEvent. cbv zeta. revert Hr Hn. generalize (resetResolution s). clear. intros s Hr Hn.
  destruct (_ <? _); [done|]. destruct (parse _) as [raw|]; [|done]. destruct (is_receipt raw).
  - destruct (Pool.resolvePoolReceipt _ _ _); [by apply showResolvedPool_retr|done].
  - destruct (Nostr.resolveFileEventJson _ _ _); [by apply showResolvedEvent_retr|done].
Qed.

(** The lookup is the one that is under way, or none is. *)
Lemma lookup_retr r pools fs ss ls fresh v : retr_ok r pools fs ss ls fresh → resolved r = None → resolvedPool r = None →
  retr_ok (r <| lookupController := v |>) pools fs ss ls fresh.
Proof.
  intros [Hk Ho Hf Hs Hp Hn Hl] He Hq.
  assert (∀ c v', run_ok r fresh c v' → run_ok (r <| lookupController := v |>) fresh c v') as Hu by (intros c v' []; by split).
  split; auto.
  - eapply Forall_impl; [exact Hf|]. intros x Hx Hov. destruct (Hx Hov) as (? & ? & ?). auto.
  - eapply Forall_impl; [exact Hs|]. intros x Hx Hov. destruct (Hx Hov) as (? & ? & ?). split; [done|]. split; [done|].
    destruct (sw_stage x); intuition.
  - eapply Forall_impl; [exact Hp|]. intros x [Hx1 Hx]. split; [done|]. intros Hov. destruct (Hx Hov) as (? & ? & ?). auto.
Qed.

#[local] Instance resolveEvent_retr : Keeps page_retr resolveEvent.
Proof.
  intros s Hs. unfold resolveEvent. destruct (assertTorReady s); [|done]. cbn [negb].
  destruct (assertHex64 _ _) as [eventId|]; [|done]. destruct (relays s) as [targets|]; [|done].
  destruct (new_controller (resetResolution s)) as [t c] eqn:E. assert (page_retr t ∧ nothing_shown t) as [Ht (He & Hq & _)].
  { change t with (t, c).1. rewrite <- E. split; [exact (new_controller_retr _ (resetResolution_retr s Hs))|exact (new_controller_shows _ (resetResolution_shows s))]. }
  clear E. cbv zeta. unfold page_retr. cbn. by apply lookup_retr.
Qed.

#[local] Instance lookup_over_retr n r : Keeps page_retr (lookup_over n r).
Proof.
  intros s Hs. unfold lookup_over. cbv zeta. case_bool_decide as Hc; [|done]. cbn in Hc.
  assert (resolved (ret s) = None ∧ resolvedPool (ret s) = None) as [He Hq] by (apply (t_look _ _ _ _ _ _ Hs); congruence).
  unfold page_retr. cbn. by apply lookup_retr.
Qed.

#[local] Instance lookup_settles_retr n names steps : Keeps page_retr (lookup_settles n names steps).
Proof.
  intros s Hs. unfold lookup_settles. destruct (lookups _ !! n) as [r|]; [|done]. destruct (lk_over r); [done|].
  destruct (lookup_result _ _ _) as [event|]; [|by apply lookup_over_retr]. destruct (_ || _) eqn:E; [by apply lookup_over_retr|].
  all_false E. rename E3 into Hc.
  assert (resolved (ret s) = None ∧ resolvedPool (ret s) = None) as [He Hq] by (apply (t_look _ _ _ _ _ _ Hs); congruence).
  unfold lookup_over. cbv zeta. case_bool_decide as Hc'; [|by destruct Hc'].
  unfold page_retr. cbn. apply (show_retr (ret s)); try done. by right.
Qed.

(** ** Pools *)

Lemma fetchPool_inr receipt options s s' payload : Pool.fetchPool receipt options s = (s', inr payload) → verified_pool receipt payload.
Proof.
  unfold Pool.fetchPool. intros Hr. Net.run_inr.
    match goal with Hh : Blossom.blobHash _ _ = _ |- _ => apply BlossomFacts.blobHash_inr in Hh as [-> _] end.
  split; [by apply Z.eqb_eq|by apply eqb_eq].
Qed.

(** Once the run that is current is over, none is. *)
Lemma only_current r pools fs ss ls fresh n x f : retr_ok r pools fs ss ls fresh → pools !! n = Some x →
  downloadController r = Some (pl_controller x) → (∀ y, pl_controller (f y) = pl_controller y) → pl_stage (f x) = PoolOver →
  Forall (λ y, pl_stage y ≠ PoolOver → pl_revision y ≠ resolutionRevision r) (alter f n pools).
Proof.
  intros [Hk Ho Hf Hs Hp Hn Hl] Hx Hc Hfc Hfo. apply Forall_lookup. intros i y Hy Hov Hv.
  destruct (decide (i = n)) as [->|Hne].
  - rewrite list_lookup_alter_eq, Hx in Hy. cbn in Hy. injection Hy as <-. done.
  - rewrite list_lookup_alter_ne in Hy by done. destruct (proj1 (Forall_lookup _ _) Hp i y Hy) as [_ Hy2].
    destruct (Hy2 Hov) as (_ & Hy3 & _). destruct (Hy3 Hv) as (_ & Hcy & _). apply Hne.
    apply (NoDup_lookup _ i n (pl_controller x) Hn); rewrite list_lookup_fmap; [|by rewrite Hx]. rewrite Hy. cbn. congruence.
Qed.

Lemma add_pool r pools fs ss ls fresh x : retr_ok r pools fs ss ls fresh → pool_ok r fresh ls x → pl_controller x ∉ map pl_controller pools →
  retr_ok r (pools ++ [x]) fs ss ls fresh.
Proof.
  intros [Hk Ho Hf Hs Hp Hn Hl] Hx Hnin. split; auto; [by apply Forall_snoc|].
  rewrite map_app. apply NoDup_app. split; [done|]. split; [|apply NoDup_singleton].
  intros c Hc ->%list_elem_of_singleton. done.
Qed.

Lemma pools_below r pools fs ss ls fresh : retr_ok r pools fs ss ls fresh → fresh ∉ map pl_controller pools.
Proof.
  intros [Hk Ho Hf Hs Hp Hn Hl] (x & Hx & Hin)%list_elem_of_fmap. destruct (proj1 (Forall_forall _ _) Hp x Hin). lia.
Qed.

Lemma release_page c s : page_retr s →
  (downloadController (ret s) = Some c → Forall (λ x, pl_stage x ≠ PoolOver → pl_revision x ≠ resolutionRevision (ret s)) (poolRuns (runs s))) →
  page_retr (release_download c s).
Proof. intros Hs Hno. unfold release_download. case_bool_decide; [|done]. by apply (release_retr (ret s)); auto. Qed.

Lemma set_pool_page n f s : page_retr s → (∀ x, pl_controller (f x) = pl_controller x) →
  (∀ x, pool_ok (ret s) (length (aborted s)) (retrieveLinks (links s)) x → pool_ok (ret s) (length (aborted s)) (retrieveLinks (links s)) (f x)) →
  page_retr (set_pool_run n f s).
Proof. intros Hs Hc Hf. apply pool_moved; auto. Qed.

Lemma pool_over_retr n r x s : page_retr s → poolRuns (runs s) !! n = Some x → pl_controller x = pl_controller r → page_retr (pool_over n r s).
Proof.
  intros Hs Hx Hc. unfold pool_over. cbv zeta.
  set (t := set_pool_run n _ s). assert (page_retr t) as Ht by (apply set_pool_page; [done|done|by intros y [Hy _]; split]).
  set (u := if bool_decide (downloadController (ret t) = _) then _ else t). assert (page_retr u) as Hu by (unfold u; case_bool_decide; [by apply (same_retr (ret t))|done]).
  change (page_retr (release_download (pl_controller r) u)). apply release_page; [done|].
  assert (resolutionRevision (ret u) = resolutionRevision (ret s) ∧ downloadController (ret u) = downloadController (ret s) ∧
          poolRuns (runs u) = poolRuns (runs t)) as (E1 & E2 & E3) by (unfold u; case_bool_decide; done).
  rewrite E1, E2, E3. intros Hd. apply (only_current _ _ _ _ _ _ _ _ _ Hs Hx); [by rewrite Hc|done|done].
Qed.

(** The end of a run changes neither the links nor what is shown. *)
Lemma pool_over_links n r f s : pool_over n r (on_links f s) = on_links f (pool_over n r s).
Proof. destruct s. unfold pool_over, release_download. cbn. by repeat case_bool_decide. Qed.

Lemma pool_over_same n r s :
  resolvedPool (ret (pool_over n r s)) = resolvedPool (ret s) ∧ resolutionRevision (ret (pool_over n r s)) = resolutionRevision (ret s) ∧
  poolRuns (runs (pool_over n r s)) = alter (λ r, r <| pl_stage := PoolOver |>) n (poolRuns (runs s)).
Proof. destruct s. unfold pool_over, release_download. cbn. by repeat case_bool_decide. Qed.

Lemma offer_page l s : page_retr s → link_ok (resolved (ret s)) (resolvedPool (ret s)) (mkLink (url_count (links s)) l) →
  Forall (λ x, pl_stage x ≠ PoolOver → pl_revision x ≠ resolutionRevision (ret s)) (poolRuns (runs s)) →
  page_retr (addDownload RetrieveLinks l s).
Proof. intros Hs Hl Hno. by apply offer_retr. Qed.

(** The verified file of a receipt is offered, and the run is over. *)
Lemma pool_offers r n s name content : page_retr s → poolRuns (runs s) !! n = Some r → pl_stage r ≠ PoolOver →
  pl_revision r = resolutionRevision (ret s) → from_pool (pl_receipt r) name content →
  page_retr (pool_over n r (addDownload RetrieveLinks (Payload name content) s)).
Proof.
  intros Hs Hx Hov Hv Hfrom. destruct (proj1 (Forall_lookup _ _) (t_pool _ _ _ _ _ _ Hs) n r Hx) as [_ Hr].
  destruct (Hr Hov) as (_ & Hr2 & _). destruct (Hr2 Hv) as (Hq & Hd & _).
  unfold addDownload. rewrite pool_over_links. destruct (pool_over_same n r s) as (E1 & E2 & E3).
  apply offer_page; [by eapply pool_over_retr| |].
  - rewrite E1, Hq. exists name, content. split; [done|]. right. by exists (pl_receipt r).
  - rewrite E2, E3. by apply (only_current _ _ _ _ _ _ _ _ _ Hs Hx Hd).
Qed.

(** The receipt with the replacements takes the place of the one that was shown. *)
Lemma replaced_retr r pools fs ss ls fresh n x receipt : retr_ok r pools fs ss ls fresh → pools !! n = Some x → pl_stage x ≠ PoolOver →
  pl_revision x = resolutionRevision r →
  retr_ok (r <| resolvedPool := Some receipt |>)
    (alter (λ r, r <| pl_receipt := receipt |> <| pl_stage := ReadingPool |>) n pools) fs ss ls fresh.
Proof.
  intros Hr Hx Hov Hv. pose proof (proj1 (Forall_lookup _ _) (t_pool _ _ _ _ _ _ Hr) n x Hx) as [Hc Hx2].
  destruct (Hx2 Hov) as (Hu & Hx3 & _). destruct (Hx3 Hv) as (Hq & Hd & ->).
  assert (Forall (λ y, pl_stage y ≠ PoolOver → pl_revision y ≠ resolutionRevision r) (alter (λ r, r <| pl_stage := PoolOver |>) n pools)) as Hno
    by by apply (only_current _ _ _ _ _ _ _ _ _ Hr Hx Hd).
  destruct Hr as [Hk Ho Hf Hs Hp Hn Hl].
  assert (∀ c v, run_ok r fresh c v → run_ok (r <| resolvedPool := Some receipt |>) fresh c v) as Hu' by (intros c v []; by split).
  split; cbn; auto.
  - intros E. destruct (Hk E). congruence.
  - left. destruct Ho; congruence.
  - eapply Forall_impl; [exact Hf|]. intros y Hy Hyo. destruct (Hy Hyo) as (? & ? & ?). auto.
  - eapply Forall_impl; [exact Hs|]. intros y Hy Hyo. destruct (Hy Hyo) as (? & ? & ?). split; [done|]. split; [done|].
    destruct (sw_stage y); intuition.
  - apply Forall_lookup. intros i y Hy. destruct (decide (i = n)) as [->|Hne].
    + rewrite list_lookup_alter_eq, Hx in Hy. injection Hy as <-. split; [done|]. intros _. cbn. split; [auto|]. by split.
    + rewrite list_lookup_alter_ne in Hy by done. destruct (proj1 (Forall_lookup _ _) Hp i y Hy) as [Hy1 Hy2]. split; [done|].
      intros Hyo. destruct (Hy2 Hyo) as (? & _ & ?). split; [auto|]. split; [|done]. cbn. intros Ev.
      refine (_ (proj1 (Forall_lookup _ _) Hno i y _ Hyo Ev)); [done|]. by rewrite list_lookup_alter_ne.
  - by rewrite map_alter_same.
Qed.

Lemma pool_stage_page n s st : (∀ c, st ≠ DecryptingPool c) → st ≠ PoolOver →
  (∀ x, poolRuns (runs s) !! n = Some x → pl_stage x ≠ PoolOver) → page_retr s → page_retr (set_pool_run n (λ r, r <| pl_stage := st |>) s).
Proof.
  intros Hd Ho Hx Hs. apply pool_moved; [done|done|]. intros x Hxn [Hx1 Hx2]. split; [done|]. intros _.
  destruct (Hx2 (Hx x Hxn)) as (? & ? & ?). split; [done|]. split; [done|]. cbn. destruct st; try done. by destruct (Hd ciphertext).
Qed.

Lemma read_pool_retr n r s : (∀ x, poolRuns (runs s) !! n = Some x → pl_stage x ≠ PoolOver ∧ pl_receipt x = pl_receipt r) →
  page_retr s → page_retr (read_pool n r (pl_receipt r) s).
Proof.
  intros Hx Hs. apply pool_moved; [done|done|]. intros x Hxn [Hx1 Hx2]. destruct (Hx x Hxn) as [Hov E].
  split; [done|]. intros _. cbn. rewrite <- E. destruct (Hx2 Hov) as (? & ? & ?). by split.
Qed.

#[local] Instance retrievePool_retr repair nostr : Keeps page_retr (retrievePool repair nostr).
Proof.
  intros s Hs. unfold retrievePool. destruct (resolvedPool (ret s)) as [receipt|] eqn:Eq; [|done].
  destruct (_ || _ || _) eqn:E1; [done|]. destruct (repair && _); [done|]. destruct (negb repair && _); [done|].
  all_false E1. 
  cbv zeta. cbn [new_controller]. cbv iota beta.
  set (t := clearDownloads RetrieveLinks _). set (x := mkPoolRun _ _ _ _ _ _ _).
  set (u := on_runs _ t).
  assert (page_retr u ∧ poolRuns (runs u) !! length (poolRuns (runs t)) = Some x) as [Hu Hx].
  { split; [|cbn; by rewrite lookup_app_r, Nat.sub_diag].
    unfold page_retr. cbn. rewrite length_app, Nat.add_1_r. apply add_pool.
    - apply (begin_retr (ret s) _ _ _ _ _ _ Hs); try done.
    - split; cbn; [lia|]. intros _. split; [|split; [|done]]; [|done]. split; cbn; [done|lia|done].
    - apply (pools_below _ _ _ _ _ _ Hs). }
  assert (pl_receipt x = receipt ∧ pl_stage x = ReadingPool) as [Er Est] by done.
  revert Hx. generalize (length (poolRuns (runs t))). clearbody u x. clear - Hu Est Er. intros n Hx. subst receipt.
  assert (∀ y, poolRuns (runs u) !! n = Some y → pl_stage y ≠ PoolOver) as Hone by (intros y Hy; congruence).
  destruct repair; cbn [negb].
  - case_bool_decide.
    + apply (read_pool_retr _ x); [|done]. intros y Hy. rewrite Hx in Hy. injection Hy as <-. by rewrite Est.
    + destruct (Pool.extendPool _ _); [|by eapply pool_over_retr]. destruct (signer_there nostr u); [|by eapply pool_over_retr].
      unseen page_retr. by apply pool_stage_page.
  - unseen page_retr. by apply pool_stage_page.
Qed.

#[local] Instance pool_run_settles_retr n world signal nostr : Keeps page_retr (pool_run_settles n world signal nostr).
Proof.
  intros s Hs. unfold pool_run_settles. destruct (poolRuns (runs s) !! n) as [r|] eqn:Hx; [|done]. cbv zeta.
  assert (page_retr (pool_over n r s)) as Hover by by eapply pool_over_retr.
  destruct (proj1 (Forall_lookup _ _) (t_pool _ _ _ _ _ _ Hs) n r Hx) as [_ Hr].
  destruct (pl_stage r) as [manifest| | | |cipher|] eqn:Est; try done.
  - destruct (Pool.signPool _ _ _).2 as [|receipt]; [done|]. destruct (_ || _) eqn:E; [done|]. all_false E.
    change (page_retr (read_pool n r receipt (on_ret (λ r, r <| resolvedPool := Some receipt |>) s))).
    apply (replaced_retr (ret s) _ _ _ _ _ n r receipt Hs Hx); [by rewrite Est|done].
  - destruct (Pool.preparePoolRepair _ _ _).2; [done|]. destruct (_ || _); [done|]. apply (pool_stage_page n s); try done.
    intros y Hy. rewrite Hx in Hy. injection Hy as <-. by rewrite Est.
  - destruct (Pool.fetchPool _ _ _) as [w [|cipher]] eqn:Ef; [done|]. cbn. apply pool_moved; [done|done|].
    intros y Hy [Hy1 Hy2]. split; [done|]. intros _. rewrite Hx in Hy. injection Hy as <-.
    destruct (Hy2 ltac:(by rewrite Est)) as (? & ? & _). split; [done|]. split; [done|]. cbn. by eapply fetchPool_inr.
  - destruct (Envelope.decryptPrivacyEnvelope _ _ _) as [file|] eqn:Ed; [|done]. destruct (_ || _) eqn:E; [done|]. all_false E.
    destruct (Hr ltac:(by rewrite ?Est)) as (_ & _ & Hv). 
    apply (pool_offers r n (on_form _ s)); [done|done|by rewrite Est|done|]. exists cipher. split; [done|].
    by exists (pl_key r), signal, file.
Qed.

(** ** Servers *)

Lemma fetch_over_retr n r s : page_retr s → fetches (runs s) !! n = Some r → ft_stage r ≠ FetchOver → page_retr (fetch_over n r s).
Proof.
  intros Hs Hx Hov. unfold fetch_over. destruct (proj1 (Forall_lookup _ _) (t_fetch _ _ _ _ _ _ Hs) n r Hx Hov) as (Hr & He & _).
  assert (page_retr (set_fetch n FetchOver s)) as Ht by (apply fetch_moved; [done|]; by intros y _ _ []).
  change (page_retr (release_download (ft_controller r) (set_fetch n FetchOver s))). apply release_page; [done|].
  intros Hd. by apply (no_pool _ _ _ _ _ _ (ft_resolved r) Ht), He, (u_holds _ _ _ _ Hr).
Qed.

(** What may be offered of verified bytes. *)
Definition opened_from (event : Nostr.ResolvedHybridEvent) (blob : bytes) (opened : option Envelope.RecoveredFile) : Prop :=
  verified_blob event blob ∧
  match opened with
  | None => Nostr.rh_encryption event = None
  | Some file => is_Some (Nostr.rh_encryption event) ∧ ∃ key signal, Envelope.decryptPrivacyEnvelope blob key signal = Ok file
  end.

Lemma offer_file_retr e blob opened s : page_retr s → resolved (ret s) = Some e → opened_from e.2 blob opened → page_retr (offer_file e.2 blob opened s).
Proof.
  intros Hs He [Hb Ho]. unfold offer_file. apply offer_page; [done| |by apply (no_pool _ _ _ _ _ _ e Hs)].
  destruct opened as [file|].
  - destruct Ho as [[k Hk] (key & signal & Hd)]. eexists _, _. split; [done|]. left. exists e.2. rewrite He. split; [done|].
    exists blob. split; [done|]. rewrite Hk. by exists key, signal, file.
  - eexists _, _. split; [done|]. left. exists e.2. rewrite He. split; [done|]. exists blob. split; [done|]. by rewrite Ho.
Qed.

Lemma fetched_retr n r blob opened s : page_retr s → fetches (runs s) !! n = Some r → ft_stage r ≠ FetchOver →
  opened_from (ft_resolved r).2 blob opened → page_retr (fetched n r blob opened s).
Proof.
  intros Hs Hx Hov Hf. unfold fetched. destruct (superseded _ _ _ _ _) eqn:E; [by apply fetch_over_retr|]. unfold superseded in E. all_false E.
  destruct (proj1 (Forall_lookup _ _) (t_fetch _ _ _ _ _ _ Hs) n r Hx Hov) as (_ & He & _).
  apply fetch_over_retr; [|done|done]. apply offer_file_retr; auto.
Qed.

#[local] Instance fetchBlossom_retr : Keeps page_retr fetchBlossom.
Proof.
  intros s Hs. unfold fetchBlossom. destruct (is_some _); [by apply retrievePool_retr|].
  destruct (resolved (ret s)) as [e|] eqn:He; [|done]. destruct (_ || _) eqn:E; [done|]. all_false E.
  cbv zeta. cbn [new_controller]. unfold page_retr. cbn. rewrite length_app, Nat.add_1_r.
  assert (retr_ok (ret s <| downloadController := Some (length (aborted s)) |> <| retrievalAttempts := S (retrievalAttempts (ret s)) |>
                   <| downloadTransport := Some ByBlossom |>) (poolRuns (runs s)) (fetches (runs s)) (swarms (runs s)) [] (S (length (aborted s)))) as Hb
    by by apply (begin_retr (ret s) _ _ _ _ _ _ Hs).
  destruct Hb as [Hk Ho Hf Hw Hp Hn Hl]. split; auto. apply Forall_snoc; [done|]. intros _. cbn. split; [|by split].
  split; cbn; [done|lia|done].
Qed.

#[local] Instance fetch_settles_retr n world signal : Keeps page_retr (fetch_settles n world signal).
Proof.
  intros s Hs. unfold fetch_settles. destruct (fetches (runs s) !! n) as [r|] eqn:Hx; [|done]. cbv zeta.
  destruct (ft_stage r) as [|blob key|] eqn:Est; [| |done].
  all: assert (ft_stage r ≠ FetchOver) as Hov by by rewrite Est.
  all: assert (page_retr (fetch_over n r s)) as Hover by by apply fetch_over_retr.
  all: destruct (proj1 (Forall_lookup _ _) (t_fetch _ _ _ _ _ _ Hs) n r Hx Hov) as (Hr & He & Hb).
  - destruct (Blossom.fetchVerifiedBlob _ _ _) as [w [|blob]] eqn:Ef; [done|]. cbn. apply BlossomFacts.fetch_inr in Ef as [_ Ef].
    unfold revealPayload. destruct (Nostr.rh_encryption (ft_resolved r).2) eqn:Een; [|by apply fetched_retr].
    cbv zeta. case_bool_decide; [done|]. apply fetch_moved; [done|]. intros y Hy _ _. rewrite Hx in Hy. injection Hy as <-. cbn.
    split; [done|]. split; [done|]. split; [done|]. by rewrite Een.
  - destruct (Envelope.decryptPrivacyEnvelope _ _ _) as [file|] eqn:Ed; [|done]. destruct (is_aborted _ _); [done|].
    rewrite Est in Hb. apply fetched_retr; try done. split; [apply Hb|]. split; [apply Hb|]. by exists key, signal.
Qed.

(** ** The swarm *)

Lemma set_swarm_retr n st s : page_retr s → (∀ x, swarms (runs s) !! n = Some x → swarm_ok (ret s) (length (aborted s)) x →
  swarm_ok (ret s) (length (aborted s)) (x <| sw_stage := st |>)) → page_retr (set_swarm n st s).
Proof. intros Hs Hf. apply swarm_moved; auto. Qed.

(** What holds of a run that has a controller. *)
Lemma swarm_at n r s : page_retr s → swarms (runs s) !! n = Some r → sw_stage r ≠ SwarmOver →
  swarm_ok (ret s) (length (aborted s)) r ∧ (sw_revision r = resolutionRevision (ret s) → resolved (ret s) = Some (sw_resolved r)).
Proof. intros Hs Hx Hov. pose proof (proj1 (Forall_lookup _ _) (t_swarm _ _ _ _ _ _ Hs) n r Hx) as Hr. split; [done|]. apply (Hr Hov). Qed.

Lemma swarm_over_retr n c cleaned s r : page_retr s → swarms (runs s) !! n = Some r → sw_stage r ≠ SwarmOver →
  run_ok (ret s) (length (aborted s)) c (sw_revision r) → page_retr (swarm_over n c cleaned s).
Proof.
  intros Hs Hx Hov Hr. destruct (swarm_at n r s Hs Hx Hov) as [_ He]. unfold swarm_over. cbv zeta.
  assert (page_retr (set_swarm n SwarmOver s)) as Ht by (apply set_swarm_retr; [done|]; by intros y _ _ []).
  assert (page_retr (release_download c (set_swarm n SwarmOver s))) as Hu.
  { apply release_page; [done|]. intros Hd. by apply (no_pool _ _ _ _ _ _ (sw_resolved r) Ht), He, (u_holds _ _ _ _ Hr). }
  destruct cleaned; exact Hu.
Qed.

Lemma leave_swarm_retr n c session s r : page_retr s → swarms (runs s) !! n = Some r → sw_stage r ≠ SwarmOver →
  run_ok (ret s) (length (aborted s)) c (sw_revision r) → page_retr (leave_swarm n c session s).
Proof.
  intros Hs Hx Hov Hr. destruct (swarm_at n r s Hs Hx Hov) as [Hok _].
  change (page_retr (set_swarm n (LeavingSwarm c session) s)). apply set_swarm_retr; [done|]. intros y Hy Hyo _.
  rewrite Hx in Hy. injection Hy as <-. destruct (Hok Hov) as (? & ? & _). by split.
Qed.

Lemma swarm_fetched_retr n c session r blob opened s : page_retr s → swarms (runs s) !! n = Some r → sw_stage r ≠ SwarmOver →
  run_ok (ret s) (length (aborted s)) c (sw_revision r) → opened_from (sw_resolved r).2 blob opened → page_retr (swarm_fetched n c session r blob opened s).
Proof.
  intros Hs Hx Hov Hr Ho. unfold swarm_fetched. destruct (superseded _ _ _ _ _) eqn:E; [by eapply leave_swarm_retr|].
  unfold superseded in E. all_false E. destruct (swarm_at n r s Hs Hx Hov) as [_ He]. cbv zeta.
  apply (swarm_over_retr _ _ _ _ r); [|done|done|].
  - apply (session_retr (Some session)). apply offer_file_retr; auto.
  - destruct Hr. by split.
Qed.

Lemma join_swarm_retr n r s : page_retr s → swarms (runs s) !! n = Some r → sw_stage r ≠ SwarmOver → downloadController (ret s) = None →
  resolutionRevision (ret s) = sw_revision r → page_retr (join_swarm n r s).
Proof.
  intros Hs Hx Hov Hd Hv. destruct (swarm_at n r s Hs Hx Hov) as [Hok He]. destruct (Hok Hov) as (Hle & _ & _).
  unfold join_swarm. cbv zeta. cbn [new_controller]. unfold page_retr. cbn. rewrite length_app, Nat.add_1_r.
  apply swarm_moved; [by apply (begin_retr (ret s) _ _ _ _ _ _ Hs)|]. intros y Hy _ _. rewrite Hx in Hy. injection Hy as <-. cbn.
  split; [done|]. split; [done|]. split; [split; cbn; [done|lia|done]|]. apply SwarmFacts.downloadFromSwarm_inv.
Qed.

#[local] Instance fetchSwarm_retr : Keeps page_retr fetchSwarm.
Proof.
  intros s Hs. unfold fetchSwarm. destruct (resolved (ret s)) as [e|] eqn:He; [|done]. destruct (_ || _) eqn:E; [done|]. all_false E. cbv zeta.
  set (r := mkSwarm _ _ _ _ _). set (t := on_runs _ s).
  assert (page_retr t ∧ swarms (runs t) !! length (swarms (runs s)) = Some r) as [Ht Hx].
  { split; [|cbn; by rewrite lookup_app_r, Nat.sub_diag]. destruct Hs as [Hk Ho Hf Hw Hp Hn Hl]. split; auto. apply Forall_snoc; [done|]. by intros _. }
  destruct (downloadSession (ret t)).
  - apply stopPeerSession_retr. by apply (session_retr None).
  - by apply (join_swarm_retr _ r).
Qed.

#[local] Instance swarm_resumes_retr n ok : Keeps page_retr (swarm_resumes n ok).
Proof.
  intros s Hs. unfold swarm_resumes. destruct (swarms (runs s) !! n) as [r|] eqn:Hx; [|done]. destruct (sw_stage r) eqn:Est; try done.
  destruct (_ || _) eqn:E; [by apply set_swarm_retr; [|intros y _ _ []]|]. all_false E. apply join_swarm_retr; try done. by rewrite Est.
Qed.

#[local] Instance stop_settles_retr n ok : Keeps page_retr (stop_settles n ok).
Proof. handler page_retr stop_settles. Qed.

Lemma swarm_settles_retr n c r result s : page_retr s → swarms (runs s) !! n = Some r → sw_stage r ≠ SwarmOver →
  run_ok (ret s) (length (aborted s)) c (sw_revision r) →
  (∀ blob h, result = inr (blob, h) → verified_blob (sw_resolved r).2 blob) → page_retr (swarm_settles n c r result s).
Proof.
  intros Hs Hx Hov Hr Hb. unfold swarm_settles. destruct result as [|[blob h]]; [by eapply swarm_over_retr|].
  specialize (Hb blob h eq_refl). cbv zeta. cbn [new_peer]. set (t := update peers _ s).
  assert (page_retr t ∧ swarms (runs t) = swarms (runs s) ∧ ret t = ret s ∧ aborted t = aborted s) as (Ht & E1 & E2 & E3) by done.
  clearbody t. rewrite <- E1 in Hx. rewrite <- E2, <- E3 in Hr.
  destruct (superseded _ _ _ _ _) eqn:Esup; [by eapply leave_swarm_retr|]. unfold revealPayload.
  destruct (Nostr.rh_encryption (sw_resolved r).2) eqn:Een.
  - cbv zeta. case_bool_decide; [by eapply leave_swarm_retr|]. apply set_swarm_retr; [done|]. intros y Hy Hyo _. rewrite Hx in Hy. injection Hy as <-.
    destruct (Hyo Hov) as (? & ? & _). split; [done|]. split; [done|]. cbn. by rewrite Een.
  - by apply swarm_fetched_retr.
Qed.

#[local] Instance swarm_continues_retr n : Keeps page_retr (swarm_continues n).
Proof.
  intros s Hs. unfold swarm_continues. destruct (swarms (runs s) !! n) as [r|] eqn:Hx; [|done].
  destruct (sw_stage r) as [|c attempt| | |] eqn:Est; try done. destruct (Swarm.outcome attempt) as [result|] eqn:Eo; [|done].
  assert (sw_stage r ≠ SwarmOver) as Hov by by rewrite Est.
  destruct (swarm_at n r s Hs Hx Hov) as [Hok _]. destruct (Hok Hov) as (_ & _ & Hj). rewrite Est in Hj. destruct Hj as [Hr [Ha _]].
  apply swarm_settles_retr; try done. intros blob h ->.
  assert (Swarm.is_destroy (SwarmFacts.down_task (sw_resolved r).2) = false) as Hd by done.
  by destruct (proj1 (SwarmFacts.attempt_settles _ _ _ Hd attempt Ha) _ Eo) as [[Hb _] _].
Qed.

#[local] Instance swarm_event_retr n e : Keeps page_retr (swarm_event n e).
Proof.
  intros s Hs. unfold swarm_event. cbv zeta. apply swarm_continues_retr. apply swarm_moved; [done|]. intros x _ Hx.
  destruct (sw_stage x) as [|c a| | |] eqn:Est; try done. intros _. destruct (Hx ltac:(by rewrite Est)) as (? & ? & Hj). rewrite Est in Hj.
  destruct Hj as [Hr Ha]. split; [done|]. split; [done|]. split; [done|]. by apply SwarmFacts.download_step_inv.
Qed.

#[local] Instance swarm_decrypted_retr n signal : Keeps page_retr (swarm_decrypted n signal).
Proof.
  intros s Hs. unfold swarm_decrypted. destruct (swarms (runs s) !! n) as [r|] eqn:Hx; [|done].
  destruct (sw_stage r) as [| |c session blob key| |] eqn:Est; try done. assert (sw_stage r ≠ SwarmOver) as Hov by by rewrite Est.
  destruct (swarm_at n r s Hs Hx Hov) as [Hok _]. destruct (Hok Hov) as (_ & _ & Hj). rewrite Est in Hj. destruct Hj as (Hr & Hb & Hen).
  destruct (Envelope.decryptPrivacyEnvelope _ _ _) as [file|] eqn:Ed; [|by eapply leave_swarm_retr].
  destruct (is_aborted s c); [by eapply leave_swarm_retr|]. apply swarm_fetched_retr; try done. split; [done|]. split; [done|]. by exists key, signal.
Qed.

#[local] Instance swarm_left_retr n ok : Keeps page_retr (swarm_left n ok).
Proof.
  intros s Hs. unfold swarm_left. destruct (swarms (runs s) !! n) as [r|] eqn:Hx; [|done]. destruct (sw_stage r) eqn:Est; try done.
  assert (sw_stage r ≠ SwarmOver) as Hov by by rewrite Est.
  destruct (swarm_at n r s Hs Hx Hov) as [Hok _]. destruct (Hok Hov) as (_ & _ & Hj). rewrite Est in Hj. by eapply swarm_over_retr.
Qed.

(** ** Every step *)

#[local] Instance settle_retr e : Keeps page_retr (settle e).
Proof. intros s Hs. destruct e; cbn [settle]; try (case_match; [|done]); exact (keeps _ Hs). Qed.

#[local] Instance change_retr c : Keeps page_retr (change c).
Proof. intros s Hs. destruct c; cbn [change]; first [exact (keeps _ Hs)|exact Hs]. Qed.

#[local] Instance press_retr b : Keeps page_retr (press b).
Proof. intros s Hs. destruct b; cbn [press]; exact (keeps _ Hs). Qed.

#[local] Instance endPageSession_retr : Keeps page_retr endPageSession.
Proof. handler page_retr endPageSession. Qed.

Lemma step_retr s i : page_retr s → page_retr (main_step s i).
Proof. intros Hs. destruct i; cbn [main_step]; keep page_retr; exact first_retr. Qed.

(** C13: whatever happens to the page, every link it offers beside a retrieved file
    saves what the event or the receipt that is shown names: the bytes a server
    or a peer gave, if their SHA-256 is the signed one, under the signed name, or,
    if the event says they are encrypted, the file that such bytes open to; of a
    receipt, the file that a reconstructed ciphertext of the signed size and
    SHA-256 opens to. *)
Theorem saved_links_verified inputs :
  let s := main_run first_page inputs in
  Forall (link_ok (resolved (ret s)) (resolvedPool (ret s))) (retrieveLinks (links s)).
Proof.
  assert (page_retr (main_run first_page inputs)) as Hr by exact (foldl_keep page_retr main_step inputs first_page step_retr first_retr).
  exact (t_links _ _ _ _ _ _ Hr).
Qed.
End Facts.

(** ** An example *)

#[local] Existing Instances ascii_unicode NostrFacts.blob_web NostrFacts.no_fractions NostrFacts.trusting_tools BlossomFacts.hello_cipher
  BlossomFacts.hello_net BlossomFacts.hello_laws Torrent.example_library PoolFacts.in_order.

(** A saved event is pasted and verified, and its file is fetched. *)
Definition hello_inputs : list main_input :=
  [Changes (SavedEventTyped (stringify (NostrFacts.signed_value NostrFacts.example_template NostrFacts.example_key)));
   Clicks ClickVerify; Clicks ClickFetch; Settled (FetchSettles 0 (Net.mkState 0 []) (λ _, false))].

Lemma saved_links_verified_witness :
  let s := main_run first_page hello_inputs in
  retrieveLinks (links s) = [mkLink 1 (Payload (lit "hello.txt") (lit "hello"))] ∧
  Forall (link_ok (resolved (ret s)) (resolvedPool (ret s))) (retrieveLinks (links s)).
Proof. split; [vm_compute; reflexivity|exact (saved_links_verified hello_inputs)]. Defined.
