(* ===== verification/MainConsent.v ===== *)
(** * The publishing page: nothing starts without its consent

    What others may see of a person (a signature that is asked for, an upload, a
    publication, a lookup, a peer session) starts only while the boxes it needs
    are ticked, over what the page shows. Most of it starts at a click, which
    reads the boxes; the rest continues a run that is waiting, and so a run that
    may go on is kept under its consents by the invariant [held]. *)

From S2P Require Import Prelude JsString Utf8 Bytes Json JsValue Security MainState MainFacts MainPublish MainSign MainRetrieve MainPage MainShown MainServer.
From S2P Require Nostr NostrFacts Net Blossom BlossomFacts Envelope Torrent Pool PoolFacts Swarm Relay MainRetrieveFacts.

Section Facts.
Context `{Unicode} `{Web} `{Numbers} `{Nostr.NostrTools} `{Envelope.Cipher} `{Net.Net} `{Torrent.TorrentLibrary} `{Pool.Ranking}.
Context `{!Net.NetLaws}.

(** ** Runs that may still go on *)

Definition live_upload (s : Page) (r : PoolUploadRun) : Prop :=
  pu_stage r ≠ PoolUploadOver ∧ pu_revision r = publicationRevision (pub s) ∧ is_aborted s (pu_controller r) = false.
Definition live_publish (s : Page) (r : PublishRun) : Prop :=
  pb_over r = false ∧ pb_revision r = publicationRevision (pub s) ∧ is_aborted s (pb_controller r) = false.
Definition live_sign (s : Page) (r : SignRun) : Prop := sg_stage r ≠ SignOver ∧ sg_revision r = publicationRevision (pub s).
Definition repairing (r : PoolRun) : bool := match pl_stage r with SigningReplacements _ | ReadingPool => true | _ => false end.
Definition live_repair (s : Page) (r : PoolRun) : Prop := repairing r = true ∧ is_aborted s (pl_controller r) = false.

(** ** The invariant *)

Definition up_controllers (s : Page) : list nat := map up_controller (uploads (runs s)) ++ map pu_controller (poolUploads (runs s)).

(** No two runs share a controller, and none is of a later revision. *)
Definition base0 (s : Page) : Prop :=
  (NoDup (up_controllers s) ∧ Forall (λ c, (c < length (aborted s))%nat) (up_controllers s)) ∧
  (NoDup (map pb_controller (publications (runs s))) ∧ Forall (λ c, (c < length (aborted s))%nat) (map pb_controller (publications (runs s)))) ∧
  Forall (λ r, (pu_revision r <= publicationRevision (pub s))%nat) (poolUploads (runs s)) ∧
  Forall (λ r, (pb_revision r <= publicationRevision (pub s))%nat) (publications (runs s)) ∧
  Forall (λ r, (sg_revision r <= publicationRevision (pub s))%nat) (signings (runs s)) ∧
  (inspectionController (pub s) ≠ None → inspected (pub s) = None).
Definition recent (s : Page) : Prop :=
  Forall (λ r, live_repair s r → pl_revision r = resolutionRevision (ret s)) (poolRuns (runs s)).
Definition base (s : Page) : Prop := base0 s ∧ recent s.

(** What publishes is under its consents, and so is what repairs. *)
Definition consents (s : Page) : Prop :=
  Forall (λ r, live_upload s r →
    uploadController (pub s) = Some (pu_controller r) ∧ inspectionController (pub s) = None ∧ upload_consented s = true) (poolUploads (runs s)) ∧
  Forall (λ r, live_publish s r → publishController (pub s) = Some (pb_controller r) ∧ publishConsent (form s) = true ∧ assertTorReady s = true)
    (publications (runs s)) ∧
  Forall (λ r, live_sign s r → assertTorReady s = true) (signings (runs s)).
Definition repairs (s : Page) : Prop :=
  Forall (λ r, live_repair s r → repairPoolConsent (form s) = true ∧ poolRepairInProgress (ret s) = true ∧ assertTorReady s = true)
    (poolRuns (runs s)).

(** Nothing that publishes may go on; nothing that repairs may. *)
Definition still (s : Page) : Prop :=
  Forall (λ r, ¬ live_upload s r) (poolUploads (runs s)) ∧ Forall (λ r, ¬ live_publish s r) (publications (runs s)) ∧
  Forall (λ r, ¬ live_sign s r) (signings (runs s)).
Definition unrepaired (s : Page) : Prop := Forall (λ r, ¬ live_repair s r) (poolRuns (runs s)).

Lemma still_consents s : still s → consents s.
Proof. intros (Hu & Hp & Hs). split_and!; (eapply Forall_impl; [eassumption|]); by cbn. Qed.
Lemma unrepaired_repairs s : unrepaired s → repairs s.
Proof. intros Hs. eapply Forall_impl; [exact Hs|]. by cbn. Qed.

(** With the operations so far. *)
Definition based (l : list op) (s : Page) : Prop := base s ∧ ops s = l.
Definition quiet (l : list op) (s : Page) : Prop := base s ∧ still s ∧ ops s = l.
Definition calm (l : list op) (s : Page) : Prop := base s ∧ still s ∧ unrepaired s ∧ ops s = l.
Definition held (l : list op) (s : Page) : Prop := base s ∧ consents s ∧ repairs s ∧ ops s = l.

Lemma calm_held l s : calm l s → held l s.
Proof. intros (? & ? & ? & ?). split_and!; [done|by apply still_consents|by apply unrepaired_repairs|done]. Qed.
Lemma held_based l s : held l s → based l s.
Proof. intros (? & _ & _ & ?). by split. Qed.

Lemma first_held : held [] first_page.
Proof. split_and!; try apply Forall_nil; try done; repeat split; try apply NoDup_nil_2; try apply Forall_nil; done. Qed.

(** ** Signals *)

(** More signals are aborted, and nothing else is different. *)
Definition more_aborted (sig : list bool) (s : Page) : Prop :=
  (length (aborted s) <= length sig)%nat ∧ ∀ c, is_aborted s c = true → default false (sig !! c) = true.

Lemma aborted_mono sig s c : more_aborted sig s → default false (sig !! c) = false → is_aborted s c = false.
Proof. intros [_ Hm] Hc. destruct (is_aborted s c) eqn:E; [|done]. specialize (Hm c E). congruence. Qed.

Lemma base0_aborted sig s : more_aborted sig s → base0 s → base0 (s <| aborted := sig |>).
Proof.
  intros Hm ((Hn & Hl) & (Hn' & Hl') & Hrest). split; [|split; [|exact Hrest]]; (split; [done|]).
  - eapply Forall_impl; [exact Hl|]. cbn. intros c ?. destruct Hm. lia.
  - eapply Forall_impl; [exact Hl'|]. cbn. intros c ?. destruct Hm. lia.
Qed.

Lemma base_aborted sig s : more_aborted sig s → base s → base (s <| aborted := sig |>).
Proof.
  intros Hm [Hb Hr]. split; [by apply base0_aborted|]. eapply Forall_impl; [exact Hr|]. intros r Hr0 [? ?]. apply Hr0. split; [done|].
  by eapply aborted_mono.
Qed.

Lemma consents_aborted sig s : more_aborted sig s → consents s → consents (s <| aborted := sig |>).
Proof.
  intros Hm (Hu & Hp & Hs). split_and!; [| |exact Hs].
  - eapply Forall_impl; [exact Hu|]. intros r Hr (? & ? & ?). apply Hr. split_and!; [done..|]. by eapply aborted_mono.
  - eapply Forall_impl; [exact Hp|]. intros r Hr (? & ? & ?). apply Hr. split_and!; [done..|]. by eapply aborted_mono.
Qed.

Lemma repairs_aborted sig s : more_aborted sig s → repairs s → repairs (s <| aborted := sig |>).
Proof. intros Hm Hr. eapply Forall_impl; [exact Hr|]. intros r Hr0 [? ?]. apply Hr0. split; [done|]. by eapply aborted_mono. Qed.

Lemma still_aborted sig s : more_aborted sig s → still s → still (s <| aborted := sig |>).
Proof.
  intros Hm (Hu & Hp & Hs). split_and!; [| |exact Hs].
  - eapply Forall_impl; [exact Hu|]. intros r Hr (? & ? & ?). apply Hr. split_and!; [done..|]. by eapply aborted_mono.
  - eapply Forall_impl; [exact Hp|]. intros r Hr (? & ? & ?). apply Hr. split_and!; [done..|]. by eapply aborted_mono.
Qed.

Lemma unrepaired_aborted sig s : more_aborted sig s → unrepaired s → unrepaired (s <| aborted := sig |>).
Proof. intros Hm Hr. eapply Forall_impl; [exact Hr|]. intros r Hr0 [? ?]. apply Hr0. split; [done|]. by eapply aborted_mono. Qed.

Lemma abort_more c s : more_aborted (<[c := true]> (aborted s)) s.
Proof.
  split; [by rewrite length_insert|]. intros c'. unfold is_aborted. destruct (decide (c' = c)) as [->|]; [|by rewrite list_lookup_insert_ne].
  destruct (aborted s !! c) eqn:E; [|done]. intros _. rewrite list_lookup_insert_eq; [done|]. by eapply lookup_lt_Some.
Qed.

Lemma new_more s : more_aborted (aborted s ++ [false]) s.
Proof.
  split; [rewrite length_app; lia|]. intros c. unfold is_aborted. destruct (aborted s !! c) eqn:E; [|done]. by rewrite (lookup_app_l_Some _ _ _ _ E).
Qed.

(** The invariant goes along with what [abort] and [new_controller] do. *)
Section Signals.
Context (I : Page → Prop) (HI : ∀ sig s, more_aborted sig s → I s → I (s <| aborted := sig |>)).
Context (Hruns : ∀ a b s, I s → I (on_runs (λ r, r <| seeds := map a (seeds r) |> <| swarms := map b (swarms r) |>) s)).

Lemma abort_keeps c s : I s → I (abort c s).
Proof. intros Hs. unfold abort. destruct (is_aborted s c); [done|]. apply Hruns, HI; [apply abort_more|done]. Qed.
Lemma abort_opt_keeps c s : I s → I (abort_opt c s).
Proof. destruct c; [apply abort_keeps|done]. Qed.
Lemma new_controller_keeps s : I s → I (new_controller s).1.
Proof. apply HI, new_more. Qed.
End Signals.

Lemma based_aborted l sig s : more_aborted sig s → based l s → based l (s <| aborted := sig |>).
Proof. intros ? []. split; [by apply base_aborted|done]. Qed.
Lemma quiet_aborted l sig s : more_aborted sig s → quiet l s → quiet l (s <| aborted := sig |>).
Proof. intros ? (? & ? & ?). split_and!; [by apply base_aborted|by apply still_aborted|done]. Qed.
Lemma calm_aborted l sig s : more_aborted sig s → calm l s → calm l (s <| aborted := sig |>).
Proof. intros ? (? & ? & ? & ?). split_and!; [by apply base_aborted|by apply still_aborted|by apply unrepaired_aborted|done]. Qed.
Lemma held_aborted l sig s : more_aborted sig s → held l s → held l (s <| aborted := sig |>).
Proof. intros ? (? & ? & ? & ?). split_and!; [by apply base_aborted|by apply consents_aborted|by apply repairs_aborted|done]. Qed.

(** One more number, above the others. *)
Lemma fresh_number n (a b : list nat) : b ≡ₚ a ++ [n] → NoDup a → Forall (λ c, (c < n)%nat) a → NoDup b ∧ Forall (λ c, (c < S n)%nat) b.
Proof.
  intros -> Hnd Hl. split.
  - apply NoDup_app. split; [done|]. split; [|apply NoDup_singleton]. intros c Hc ->%list_elem_of_singleton.
    pose proof (proj1 (Forall_forall _ _) Hl _ Hc) as Hlt. cbn in Hlt. lia.
  - apply Forall_app. split; [|constructor; [lia|constructor]]. eapply Forall_impl; [exact Hl|]. cbn. lia.
Qed.

#[local] Hint Constants Opaque : typeclass_instances.

#[local] Instance abort_based l c : Keeps (based l) (abort c).
Proof. intros s. apply abort_keeps; [apply based_aborted|by intros]. Qed.
#[local] Instance abort_quiet l c : Keeps (quiet l) (abort c).
Proof. intros s. apply abort_keeps; [apply quiet_aborted|by intros]. Qed.
#[local] Instance abort_calm l c : Keeps (calm l) (abort c).
Proof. intros s. apply abort_keeps; [apply calm_aborted|by intros]. Qed.
#[local] Instance abort_held l c : Keeps (held l) (abort c).
Proof. intros s. apply abort_keeps; [apply held_aborted|by intros]. Qed.
#[local] Instance abort_opt_based l c : Keeps (based l) (abort_opt c).
Proof. intros s. apply abort_opt_keeps; [apply based_aborted|by intros]. Qed.
#[local] Instance abort_opt_quiet l c : Keeps (quiet l) (abort_opt c).
Proof. intros s. apply abort_opt_keeps; [apply quiet_aborted|by intros]. Qed.
#[local] Instance abort_opt_calm l c : Keeps (calm l) (abort_opt c).
Proof. intros s. apply abort_opt_keeps; [apply calm_aborted|by intros]. Qed.
#[local] Instance abort_opt_held l c : Keeps (held l) (abort_opt c).
Proof. intros s. apply abort_opt_keeps; [apply held_aborted|by intros]. Qed.
#[local] Instance abort_opt_repairs c : Keeps repairs (abort_opt c).
Proof. intros s. apply abort_opt_keeps; [apply repairs_aborted|by intros]. Qed.
#[local] Instance new_controller_held l : Keeps (held l) (λ s, (new_controller s).1).
Proof. intros s. apply new_controller_keeps, held_aborted. Qed.

(** What none of these looks at. *)
#[local] Instance abandonExternalSigning_based l : Keeps (based l) abandonExternalSigning.
Proof. by intros s. Qed.
#[local] Instance abandonExternalSigning_quiet l : Keeps (quiet l) abandonExternalSigning.
Proof. by intros s. Qed.
#[local] Instance abandonExternalSigning_calm l : Keeps (calm l) abandonExternalSigning.
Proof. by intros s. Qed.
#[local] Instance abandonExternalSigning_held l : Keeps (held l) abandonExternalSigning.
Proof. by intros s. Qed.
#[local] Instance abandonExternalSigning_repairs : Keeps repairs abandonExternalSigning.
Proof. by intros s. Qed.
#[local] Instance stopPeerSession_based l session kind run : Keeps (based l) (stopPeerSession session kind run).
Proof. intros s Hs. unfold stopPeerSession, refreshPeerStartButton, pending. destruct kind; exact Hs. Qed.
#[local] Instance stopPeerSession_quiet l session kind run : Keeps (quiet l) (stopPeerSession session kind run).
Proof. intros s Hs. unfold stopPeerSession, refreshPeerStartButton, pending. destruct kind; exact Hs. Qed.
#[local] Instance stopPeerSession_calm l session kind run : Keeps (calm l) (stopPeerSession session kind run).
Proof. intros s Hs. unfold stopPeerSession, refreshPeerStartButton, pending. destruct kind; exact Hs. Qed.
#[local] Instance stopPeerSession_held l session kind run : Keeps (held l) (stopPeerSession session kind run).
Proof. intros s Hs. unfold stopPeerSession, refreshPeerStartButton, pending. destruct kind; exact Hs. Qed.
#[local] Instance stopPeerSession_repairs session kind run : Keeps repairs (stopPeerSession session kind run).
Proof. intros s Hs. unfold stopPeerSession, refreshPeerStartButton, pending. destruct kind; exact Hs. Qed.
#[local] Instance background_based l session kind : Keeps (based l) (confirmPeerStoppedInBackground session kind).
Proof. apply stopPeerSession_based. Qed.
#[local] Instance background_quiet l session kind : Keeps (quiet l) (confirmPeerStoppedInBackground session kind).
Proof. apply stopPeerSession_quiet. Qed.
#[local] Instance background_calm l session kind : Keeps (calm l) (confirmPeerStoppedInBackground session kind).
Proof. apply stopPeerSession_calm. Qed.
#[local] Instance background_held l session kind : Keeps (held l) (confirmPeerStoppedInBackground session kind).
Proof. apply stopPeerSession_held. Qed.
#[local] Instance background_repairs session kind : Keeps repairs (confirmPeerStoppedInBackground session kind).
Proof. apply stopPeerSession_repairs. Qed.

(** ** Resets *)

(** A new revision of the publication: nothing that publishes may go on. *)
Lemma revised l s : based l s → quiet l (on_pub (λ p, p <| publicationRevision := S (publicationRevision p) |>) s).
Proof.
  intros [[(Hc & Hc' & Hu & Hp & Hs & Hi) Hr] Ho]. split; [|split; [|done]].
  - split; [|exact Hr]. split; [exact Hc|]. split; [exact Hc'|]. split_and!; try done; (eapply Forall_impl; [eassumption|]); cbn; lia.
  - split_and!; (eapply Forall_impl; [eassumption|]); intros r ?.
    + intros (_ & Hv & _). cbn in *. lia.
    + intros (_ & Hv & _). cbn in *. lia.
    + intros (_ & Hv). cbn in *. lia.
Qed.

(** The rest of the reset, for what it keeps. *)
Ltac reset_publication I :=
  cbv beta delta [resetPublicationAfterInspection];
  lazymatch goal with |- I (let s := ?a in @?k s) => refine (keep_let I a k _ _) end;
  [|let s := fresh "s" in let Hs := fresh "Hs" in intros s Hs; cbv beta; keep I].

Lemma base_no_inspection s : base s → base (on_pub (λ p, p <| inspectionController := None |>) s).
Proof. intros [(Hc & Hc' & ? & ? & ? & Hi) Hr]. split; [|done]. split; [exact Hc|]. split; [exact Hc'|]. by split_and!. Qed.
#[local] Instance no_inspection_quiet l : Keeps (quiet l) (on_pub (λ p, p <| inspectionController := None |>)).
Proof. intros s (Hb & ? & ?). split; [by apply base_no_inspection|done]. Qed.
#[local] Instance no_inspection_calm l : Keeps (calm l) (on_pub (λ p, p <| inspectionController := None |>)).
Proof. intros s (Hb & ? & ?). split; [by apply base_no_inspection|done]. Qed.
#[local] Instance no_inspection_based l : Keeps (based l) (on_pub (λ p, p <| inspectionController := None |>)).
Proof. intros s (Hb & ?). split; [by apply base_no_inspection|done]. Qed.

Lemma resetPublication_quiet l s : based l s → quiet l (resetPublicationAfterInspection s).
Proof. intros Hs. reset_publication (quiet l). by apply revised. Qed.

Lemma calm_quiet l s : quiet l s → unrepaired s → calm l s.
Proof. by intros (? & ? & ?) ?. Qed.
Lemma quiet_based l s : quiet l s → based l s.
Proof. by intros (? & ? & ?). Qed.
Lemma calm_based l s : calm l s → based l s.
Proof. by intros (? & ? & ? & ?). Qed.

#[local] Instance resetPublication_calm l : Keeps (calm l) resetPublicationAfterInspection.
Proof.
  intros s (? & ? & ? & ?). reset_publication (calm l). apply calm_quiet; [by apply revised|done].
Qed.

(** What repairs a pool is stopped with its consent. *)
Lemma current_repair s r : page_retr s → base s → r ∈ poolRuns (runs s) → live_repair s r →
  downloadController (ret s) = Some (pl_controller r) ∧ is_Some (resolvedPool (ret s)).
Proof.
  intros Hp [_ Hr] Hin Hlv. pose proof (proj1 (Forall_forall _ _) Hr r Hin Hlv) as Hv.
  destruct (proj1 (Forall_forall _ _) (t_pool _ _ _ _ _ _ Hp) r Hin) as [_ Hok].
  destruct Hok as (_ & Hcur & _); [destruct Hlv as [Hst _]; unfold repairing in Hst; by destruct (pl_stage r)|].
  destruct (Hcur Hv) as (Hq & Hd & _). rewrite Hq. by split.
Qed.

(** After its signal is aborted nothing repairs. *)
Lemma abort_is_aborted c s : (c < length (aborted s))%nat → is_aborted (abort c s) c = true.
Proof. intros Hc. rewrite is_aborted_abort by done. by rewrite bool_decide_true. Qed.

Lemma abort_pools c s : poolRuns (runs (abort_opt c s)) = poolRuns (runs s).
Proof. destruct c; [|done]. cbn. unfold abort. by destruct (is_aborted s n). Qed.

Lemma abort_mono c s c' : is_aborted (abort_opt c s) c' = false → is_aborted s c' = false.
Proof.
  destruct c as [c|]; [|done]. cbn. unfold abort. destruct (is_aborted s c); [done|]. apply (aborted_mono (<[c:=true]> (aborted s)) s c'), abort_more.
Qed.

Lemma stops_repairs s : page_retr s → base s → unrepaired (abort_opt (downloadController (ret s)) s).
Proof.
  intros Hp Hb. unfold unrepaired. rewrite abort_pools. apply Forall_forall. intros r Hin [Hst Ha].
  destruct (current_repair s r Hp Hb Hin) as [Hd _]; [split; [done|by eapply abort_mono]|].
  rewrite Hd in Ha. cbn in Ha. rewrite abort_is_aborted in Ha; [done|]. by destruct (proj1 (Forall_forall _ _) (t_pool _ _ _ _ _ _ Hp) r Hin).
Qed.

Lemma revised_base s : base s → base (on_pub (λ p, p <| publicationRevision := S (publicationRevision p) |>) s).
Proof. intros Hb. by destruct (revised (ops s) s (conj Hb eq_refl)). Qed.

Lemma resetPublication_repairs s : page_retr s → base s → repairs s → repairs (resetPublicationAfterInspection s).
Proof.
  intros Hp Hb Hs. cbv beta delta [resetPublicationAfterInspection].
  lazymatch goal with |- repairs (let s := ?a in @?k s) => change (repairs (k a)); cbv beta; set (u := a) end.
  lazymatch goal with |- repairs (let s := ?a in @?k s) => refine (keep_let repairs a k _ _) end.
  - destruct (_ && _); [|exact Hs]. apply unrepaired_repairs.
    assert (unrepaired (abort_opt (downloadController (ret u)) u)) as Hu by (apply stops_repairs; [exact Hp|by apply revised_base]). exact Hu.
  - intros s' Hs'. cbv beta. clear Hs Hb Hp. clearbody u. keep repairs.
Qed.

Lemma quiet_held l s : quiet l s → repairs s → held l s.
Proof. intros (? & ? & ?) ?. split; [done|]. split; [by apply still_consents|done]. Qed.
Lemma held_repairs l s : held l s → repairs s.
Proof. by intros (? & ? & ? & ?). Qed.

Lemma resetPublication_held l s : page_retr s → held l s → held l (resetPublicationAfterInspection s).
Proof.
  intros Hp Hs. pose proof (held_based _ _ Hs) as Hb.
  apply quiet_held; [by apply resetPublication_quiet|]. apply resetPublication_repairs; [done|by destruct Hb|by eapply held_repairs].
Qed.

(** A reset of the resolution stops what repairs, and touches nothing else. *)
#[local] Instance abort_opt_base0 c : Keeps base0 (abort_opt c).
Proof. intros s. apply abort_opt_keeps; [apply base0_aborted|by intros]. Qed.
#[local] Instance abort_opt_still c : Keeps still (abort_opt c).
Proof. intros s. apply abort_opt_keeps; [apply still_aborted|by intros]. Qed.
#[local] Instance abort_opt_consents c : Keeps consents (abort_opt c).
Proof. intros s. apply abort_opt_keeps; [apply consents_aborted|by intros]. Qed.
#[local] Instance abort_opt_unrepaired c : Keeps unrepaired (abort_opt c).
Proof. intros s. apply abort_opt_keeps; [apply unrepaired_aborted|by intros]. Qed.
#[local] Instance abort_opt_ops l c : Keeps (λ s, ops s = l) (abort_opt c).
Proof. intros s. by apply abort_opt_keeps. Qed.
#[local] Instance abandonExternalSigning_base0 : Keeps base0 abandonExternalSigning.
Proof. by intros s. Qed.
#[local] Instance abandonExternalSigning_still : Keeps still abandonExternalSigning.
Proof. by intros s. Qed.
#[local] Instance abandonExternalSigning_consents : Keeps consents abandonExternalSigning.
Proof. by intros s. Qed.
#[local] Instance background_base0 session kind : Keeps base0 (confirmPeerStoppedInBackground session kind).
Proof. intros s Hs. destruct kind; exact Hs. Qed.
#[local] Instance background_still session kind : Keeps still (confirmPeerStoppedInBackground session kind).
Proof. intros s Hs. destruct kind; exact Hs. Qed.
#[local] Instance background_consents session kind : Keeps consents (confirmPeerStoppedInBackground session kind).
Proof. intros s Hs. destruct kind; exact Hs. Qed.
#[local] Instance background_unrepaired session kind : Keeps unrepaired (confirmPeerStoppedInBackground session kind).
Proof. intros s Hs. destruct kind; exact Hs. Qed.

#[local] Instance resetResolution_base0 : Keeps base0 resetResolution.
Proof. handler base0 resetResolution. Qed.
#[local] Instance resetResolution_still : Keeps still resetResolution.
Proof. handler still resetResolution. Qed.
#[local] Instance resetResolution_consents : Keeps consents resetResolution.
Proof. handler consents resetResolution. Qed.

Lemma abort_opt_opsl c s : ops (abort_opt c s) = ops s.
Proof. by apply (abort_opt_ops (ops s) c s). Qed.
Lemma resetResolution_ops s : ops (resetResolution s) = ops s.
Proof.
  unfold resetResolution, confirmPeerStoppedInBackground. cbv zeta.
  set (u := if is_some (resolvedPool (ret s)) && _ then _ else s). assert (ops u = ops s) as E by (unfold u; by destruct (_ && _)). clearbody u.
  destruct (downloadSession _); cbn; rewrite ?abort_opt_opsl; cbn; rewrite ?abort_opt_opsl; done.
Qed.

Lemma resetResolution_unrepaired s : page_retr s → base s → unrepaired (resetResolution s).
Proof.
  intros Hp Hb.
  set (stoppable s := Forall (λ r, live_repair s r → downloadController (ret s) = Some (pl_controller r) ∧ (pl_controller r < length (aborted s))%nat)
                        (poolRuns (runs s))).
  assert (stoppable s) as Hs.
  { apply Forall_forall. intros r Hin Hlv. split; [by apply current_repair|]. by destruct (proj1 (Forall_forall _ _) (t_pool _ _ _ _ _ _ Hp) r Hin). }
  assert (∀ c, Keeps stoppable (abort_opt c)) as Habort.
  { intros c u. apply abort_opt_keeps; [|by intros]. intros sig v Hm Hv. eapply Forall_impl; [exact Hv|]. intros r Hr [? ?].
    destruct Hr as [? ?]; [split; [done|by eapply aborted_mono]|]. split; [done|]. destruct Hm. cbn. lia. }
  cbv beta delta [resetResolution].
  lazymatch goal with |- unrepaired (let s := ?a in @?k s) => change (unrepaired (k a)); cbv beta; assert (stoppable a) as Hu by (destruct (_ && _); exact Hs); revert Hu; generalize a end.
  clear Hs Hb Hp s. intros s Hs.
  lazymatch goal with |- unrepaired (let s := ?a in @?k s) => change (unrepaired (k a)); cbv beta; assert (stoppable a) as Hu by exact Hs; revert Hu; generalize a end.
  clear Hs s. intros s Hs.
  lazymatch goal with |- unrepaired (let s := ?a in @?k s) => change (unrepaired (k a)); cbv beta; assert (stoppable a) as Hu by exact (Habort (lookupController (ret s)) s Hs); revert Hu; generalize a end.
  clear Hs s. intros s Hs.
  lazymatch goal with |- unrepaired (let s := ?a in @?k s) => refine (keep_let unrepaired a k _ _) end.
  - apply Forall_forall. intros r Hin [Hst Ha]. cbn in Hin. rewrite abort_pools in Hin.
    change (is_aborted (abort_opt (downloadController (ret s)) s) (pl_controller r) = false) in Ha.
    destruct (proj1 (Forall_forall _ _) Hs r Hin) as [Hd Hc]; [split; [done|by eapply abort_mono]|]. rewrite Hd in Ha. cbn [abort_opt] in Ha. by rewrite abort_is_aborted in Ha.
  - clear Hs. clear s. intros s Hs. cbv beta. clear Habort stoppable. keep unrepaired.
Qed.

Lemma unrepaired_recent s : unrepaired s → recent s.
Proof. intros Hs. eapply Forall_impl; [exact Hs|]. by cbn. Qed.

Lemma resetResolution_calm l s : page_retr s → quiet l s → calm l (resetResolution s).
Proof.
  intros Hp (Hb & Hs & Ho). pose proof (resetResolution_unrepaired s Hp Hb) as Hn. destruct Hb as [Hb _].
  split; [split; [by apply resetResolution_base0|by apply unrepaired_recent]|]. split; [by apply resetResolution_still|].
  split; [done|]. by rewrite resetResolution_ops.
Qed.

Lemma resetResolution_held l s : page_retr s → held l s → held l (resetResolution s).
Proof.
  intros Hp (Hb & Hc & _ & Ho). pose proof (resetResolution_unrepaired s Hp Hb) as Hn. destruct Hb as [Hb _].
  split; [split; [by apply resetResolution_base0|by apply unrepaired_recent]|]. split; [by apply resetResolution_consents|].
  split; [by apply unrepaired_repairs|]. by rewrite resetResolution_ops.
Qed.

(** The file that was inspected is forgotten. *)
Lemma base_forget p s : base s → base (on_pub (λ q, q <| preparedPool := p |> <| sourceInspected := None |> <| inspected := None |>
                                                     <| protectedEnvelope := None |> <| recoveryKeyOutput := [] |>) s).
Proof. intros [(Hc & Hc' & ? & ? & ? & Hi) Hr]. split; [|done]. split; [exact Hc|]. split; [exact Hc'|]. by split_and!. Qed.
Lemma forget_quiet l p s : quiet l s → quiet l (on_pub (λ q, q <| preparedPool := p |> <| sourceInspected := None |> <| inspected := None |>
                                                     <| protectedEnvelope := None |> <| recoveryKeyOutput := [] |>) s).
Proof. intros (? & ? & ?). split; [by apply base_forget|by split]. Qed.
Lemma forget_calm l p s : calm l s → calm l (on_pub (λ q, q <| preparedPool := p |> <| sourceInspected := None |> <| inspected := None |>
                                                     <| protectedEnvelope := None |> <| recoveryKeyOutput := [] |>) s).
Proof. intros (? & ? & ? & ?). split; [by apply base_forget|by split]. Qed.

Lemma resetInspection_quiet l s : based l s → quiet l (resetInspection s).
Proof.
  intros Hs. cbv beta delta [resetInspection]. cbv zeta.
  set (u := on_pub _ (abort_opt _ s)). assert (based l u) as Hu by (unfold u; keep (based l)). clearbody u.
  pose proof (resetPublication_quiet l u Hu) as Hv. revert Hv. generalize (resetPublicationAfterInspection u). intros v Hv.
  unseen (quiet l). by apply forget_quiet.
Qed.
#[local] Instance resetInspection_calm l : Keeps (calm l) resetInspection.
Proof.
  intros s Hs. cbv beta delta [resetInspection]. cbv zeta.
  set (u := on_pub _ (abort_opt _ s)). assert (calm l u) as Hu by (unfold u; keep (calm l)). clearbody u.
  pose proof (resetPublication_calm l u Hu) as Hv. revert Hv. generalize (resetPublicationAfterInspection u). intros v Hv.
  unseen (calm l). by apply forget_calm.
Qed.

#[local] Instance no_inspection_held l : Keeps (held l) (on_pub (λ p, p <| inspectionController := None |>)).
Proof.
  intros s (Hb & (Hu & ? & ?) & ? & ?). split; [by apply base_no_inspection|]. split; [|done]. split_and!; [|done..].
  eapply Forall_impl; [exact Hu|]. intros r Hr Hlv. destruct (Hr Hlv) as (? & _ & ?). by split_and!.
Qed.

Lemma resetInspection_held l s : page_retr s → held l s → held l (resetInspection s).
Proof.
  intros Hp Hs. pose proof (resetInspection_quiet l s (held_based _ _ Hs)) as Hq. apply quiet_held; [exact Hq|]. clear Hq.
  cbv beta delta [resetInspection]. cbv zeta.
  set (u := on_pub _ (abort_opt _ s)). assert (held l u) as Hu by (unfold u; keep (held l)).
  assert (page_retr u) as Hpu by (unfold u; keep page_retr). clearbody u.
  pose proof (resetPublication_repairs u Hpu (proj1 Hu) (held_repairs _ _ Hu)) as Hv. revert Hv. generalize (resetPublicationAfterInspection u).
  intros v Hv. unseen repairs. exact Hv.
Qed.

Lemma resetInspection_inspected s : inspected (pub (resetInspection s)) = None.
Proof. cbv beta delta [resetInspection]. cbv zeta. set (u := on_pub _ (abort_opt _ s)). by generalize (resetPublicationAfterInspection u). Qed.

(** The profile's own changes leave Tor as ready as it was. *)
Lemma torConsent_ready s on : tor_chosen (form s) = false ∨ (assertTorReady s = true → on = true) →
  assertTorReady s = true → assertTorReady (on_form (λ f, f <| torConsent := on |>) s) = true.
Proof. unfold assertTorReady. cbn. intros [->|Hon] Ht; [done|]. rewrite Hon by done. apply orb_true_r. Qed.

Lemma tor_held l s on : tor_chosen (form s) = false ∨ on = true → held l s → held l (on_form (λ f, f <| torConsent := on |>) s).
Proof.
  intros Hon. assert (assertTorReady s = true → assertTorReady (on_form (λ f, f <| torConsent := on |>) s) = true) as Ht.
  { apply torConsent_ready. destruct Hon; auto. }
  intros (Hb & (Hu & Hp & Hs) & Hr & Ho). split; [exact Hb|]. split; [|split; [|exact Ho]].
  - split_and!.
    + eapply Forall_impl; [exact Hu|]. intros r Hr' Hlv. destruct (Hr' Hlv) as (? & ? & Hc). split_and!; [done..|].
      unfold upload_consented in *. apply andb_prop in Hc as [Hc ?]. apply andb_true_intro. split; [exact Hc|by apply Ht].
    + eapply Forall_impl; [exact Hp|]. intros r Hr' Hlv. destruct (Hr' Hlv) as (? & ? & ?). split_and!; auto.
    + eapply Forall_impl; [exact Hs|]. auto.
  - eapply Forall_impl; [exact Hr|]. intros r Hr' Hlv. destruct (Hr' Hlv) as (? & ? & ?). split_and!; auto.
Qed.

#[local] Instance applyProfile_held l : Keeps (held l) applyProfile.
Proof. intros s Hs. unfold applyProfile. destruct (tor_chosen (form s)) eqn:E; [exact Hs|]. apply tor_held; auto. Qed.
#[local] Instance applyProfile_calm l : Keeps (calm l) applyProfile.
Proof. handler (calm l) applyProfile. Qed.

(** ** Runs move on *)

Lemma uploads_moved l n f s : (∀ r, up_controller (f r) = up_controller r) → held l s →
  held l (on_runs (λ rs, rs <| uploads := alter f n (uploads rs) |>) s).
Proof.
  intros Hf ([((Hn & Hl) & Hrest) Hr] & Hc). split; [|exact Hc]. split; [|exact Hr]. split; [|exact Hrest].
  unfold up_controllers in *. cbn. by rewrite map_alter_same.
Qed.

Lemma pool_uploads_moved l n f s :
  (∀ r, pu_controller (f r) = pu_controller r ∧ pu_revision (f r) = pu_revision r) →
  (∀ r, poolUploads (runs s) !! n = Some r → pu_stage r = PoolUploadOver → pu_stage (f r) = PoolUploadOver) → held l s →
  held l (on_runs (λ rs, rs <| poolUploads := alter f n (poolUploads rs) |>) s).
Proof.
  intros Hf Hov ([((Hn & Hl) & Hc' & Hu & Hrest) Hr] & (Hcu & Hcons) & Hrest'). split; [|split; [|exact Hrest']].
  - split; [|exact Hr]. split; [|split; [exact Hc'|split; [|exact Hrest]]].
    + unfold up_controllers in *. cbn. rewrite map_alter_same; [done|]. intros r. apply Hf.
    + apply Forall_alter_all; [exact Hu|]. intros r. cbn. by rewrite (proj2 (Hf r)).
  - split; [|exact Hcons]. apply Forall_alter_at; [exact Hcu|]. intros r Hat Hr0 (Hst & Hv & Ha).
    rewrite (proj1 (Hf r)) in *. rewrite (proj2 (Hf r)) in Hv. apply Hr0. split_and!; [|done..]. intros E. by apply Hst, (Hov r).
Qed.

Lemma publishes_moved l n f s :
  (∀ r, pb_controller (f r) = pb_controller r ∧ pb_revision (f r) = pb_revision r ∧ (pb_over r = true → pb_over (f r) = true)) → held l s →
  held l (set_publish n f s).
Proof.
  intros Hf ([(Hc & (Hn & Hl) & Hu & Hp & Hrest) Hr] & (Hcu & Hcp & Hcons) & Hrest'). split; [|split; [|exact Hrest']].
  - split; [|exact Hr]. split; [exact Hc|]. split; [|split; [exact Hu|split; [|exact Hrest]]].
    + cbn. rewrite map_alter_same; [done|]. intros r. apply Hf.
    + apply Forall_alter_all; [exact Hp|]. intros r. cbn. destruct (Hf r) as (_ & -> & _). done.
  - split; [exact Hcu|]. split; [|exact Hcons]. apply Forall_alter_all; [exact Hcp|]. intros r Hr0 (Hst & Hv & Ha).
    destruct (Hf r) as (E1 & E2 & E3). rewrite E1 in *. rewrite E2 in Hv. apply Hr0. split_and!; [|done..].
    destruct (pb_over r); [|done]. by rewrite E3 in Hst.
Qed.

Lemma signings_moved l n st s : (∀ r, signings (runs s) !! n = Some r → sg_stage r = SignOver → st = SignOver) → held l s →
  held l (set_signing n st s).
Proof.
  intros Hf ([(Hc & Hc' & Hu & Hp & Hs & Hi) Hr] & (Hcu & Hcp & Hcs) & Hrest'). split; [|split; [|exact Hrest']].
  - split; [|exact Hr]. split; [exact Hc|]. split; [exact Hc'|]. split; [exact Hu|]. split; [exact Hp|]. split; [|exact Hi].
    by apply Forall_alter_all.
  - split; [exact Hcu|]. split; [exact Hcp|]. apply Forall_alter_at; [exact Hcs|]. intros r Hat Hr0 [Hst Hv]. apply Hr0. split; [|done].
    intros E. by apply Hst, (Hf r).
Qed.

Lemma pools_moved l n f s : (∀ r, pl_controller (f r) = pl_controller r ∧ pl_revision (f r) = pl_revision r) →
  (∀ r, poolRuns (runs s) !! n = Some r → repairing (f r) = true → repairing r = true) → held l s → held l (set_pool_run n f s).
Proof.
  intros Hf Hov ([Hb Hr] & Hc & Hcr & Ho). split; [|split; [exact Hc|split; [|exact Ho]]].
  - split; [exact Hb|]. apply Forall_alter_at; [exact Hr|]. intros r Hat Hr0 [Hst Ha]. rewrite (proj1 (Hf r)) in Ha. rewrite (proj2 (Hf r)).
    apply Hr0. split; [by apply Hov|done].
  - apply Forall_alter_at; [exact Hcr|]. intros r Hat Hr0 [Hst Ha]. rewrite (proj1 (Hf r)) in Ha. apply Hr0. split; [by apply Hov|done].
Qed.

#[local] Instance set_upload_held l n st : Keeps (held l) (set_upload n st).
Proof. intros s. by apply uploads_moved. Qed.
#[local] Instance set_inspection_held l n st : Keeps (held l) (set_inspection n st).
Proof. by intros s. Qed.
#[local] Instance set_fetch_held l n st : Keeps (held l) (set_fetch n st).
Proof. by intros s. Qed.
#[local] Instance set_swarm_held l n st : Keeps (held l) (set_swarm n st).
Proof. by intros s. Qed.

(** ** A file is inspected *)

#[local] Instance inspect_over_held l n r : Keeps (held l) (inspect_over n r).
Proof. handler (held l) inspect_over. Qed.

(** While a file is inspected nothing uploads, so that what it was sealed in may
    change. *)
Definition inspecting (l : list op) (c : nat) (s : Page) : Prop :=
  inspectionController (pub s) = Some c ∧
  ∀ x e, held l (on_pub (λ p, p <| inspectionController := None |> <| inspected := x |> <| protectedEnvelope := e |>) s).

Lemma held_inspecting l c s : held l s → inspectionController (pub s) = Some c → inspecting l c s.
Proof.
  intros ([(Hc & Hc' & Hu & Hp & Hs & Hi) Hr] & (Hcu & Hcons) & Hrest) E. split; [done|]. intros x e. split; [|split; [|exact Hrest]].
  - split; [|exact Hr]. split; [exact Hc|]. split; [exact Hc'|]. by split_and!.
  - split; [|exact Hcons]. eapply Forall_impl; [exact Hcu|]. intros r Hr0 Hlv. destruct (Hr0 Hlv) as (_ & En & _). congruence.
Qed.

Lemma inspecting_held l n r s : inspecting l (in_controller r) s → held l (inspect_over n r s).
Proof.
  intros [E Hs]. unfold inspect_over. cbv zeta. change (inspectionController (pub (set_inspection n InspectOver s))) with (inspectionController (pub s)).
  rewrite E, bool_decide_true by done. exact (Hs (inspected (pub s)) (protectedEnvelope (pub s))).
Qed.

#[local] Instance applyProfile_inspecting l c : Keeps (inspecting l c) applyProfile.
Proof.
  intros s [E Hs]. unfold applyProfile. destruct (tor_chosen (form s)) eqn:Et; (split; [exact E|]); intros x e; [exact (Hs x e)|].
  pose proof (Hs x e) as Hx. revert Hx. set (t := on_pub _ s). intros Hx. exact (tor_held l t false (or_introl Et) Hx).
Qed.

Lemma inspected_all_held l n r a e c d s : held l s → held l (inspected_all n r a e c d s).
Proof.
  intros Hs. unfold inspected_all. destruct (_ || _) eqn:E; [exact (keeps s Hs)|]. all_false E. cbv zeta. apply inspecting_held.
  assert (inspecting l (in_controller r) s) as Hi by by apply held_inspecting. clear Hs E. revert Hi. generalize (in_controller r). intros k Hi.
  keep (inspecting l k).
Qed.
#[local] Instance inspected_all_keeps l n r a e c d : Keeps (held l) (inspected_all n r a e c d).
Proof. intros s. apply inspected_all_held. Qed.
#[local] Instance prepare_layout_held l n r a e c : Keeps (held l) (prepare_layout n r a e c).
Proof. handler (held l) prepare_layout. Qed.
#[local] Instance inspect_settles_held l n w g e : Keeps (held l) (inspect_settles n w g e).
Proof. handler (held l) inspect_settles. Qed.

Lemma inspectFile_held l s : page_retr s → held l s → held l (inspectFile s).
Proof.
  intros Hp Hs. unfold inspectFile. destruct (fileInput (form s)); [|done]. pose proof (resetInspection_held l s Hp Hs) as Hr.
  pose proof (resetInspection_quiet l s (held_based _ _ Hs)) as Hq. pose proof (resetInspection_inspected s) as Hn.
  revert Hr Hq Hn. generalize (resetInspection s). clear. intros s Hs Hq Hn. apply (new_controller_held l) in Hs.
  assert (quiet l (new_controller s).1) as Hq' by (apply quiet_aborted; [apply new_more|done]).
  change (inspected (pub (new_controller s).1) = None) in Hn. destruct (new_controller s) as [t c]. cbn [fst] in *. clear Hq s.
  destruct Hs as ([(Hc & Hc' & Hu & Hp & Hss & Hi) Hr] & (Hcu & Hcons) & Hrest). destruct Hq' as (_ & (Hst & _) & _).
  split; [|split; [|exact Hrest]].
  - split; [|exact Hr]. split; [exact Hc|]. split; [exact Hc'|]. by split_and!.
  - split; [|exact Hcons]. eapply Forall_impl; [exact Hst|]. intros r Hr0 Hlv. by destruct (Hr0 Hlv).
Qed.

(** ** Uploads *)

#[local] Instance connect_settles_held l n a : Keeps (held l) (connect_settles n a).
Proof. handler (held l) connect_settles. Qed.

Lemma in_map_of {A B} (f : A → B) x (k : list A) : x ∈ k → f x ∈ map f k.
Proof. intros Hx. apply list_elem_of_fmap. by exists x. Qed.

(** A controller that is let go of is that of no other upload. *)
Lemma free_upload l s : Forall (λ r, ¬ live_upload s r) (poolUploads (runs s)) → held l s →
  held l (on_pub (λ p, p <| uploadController := None |>) s).
Proof.
  intros Hno ([Hb Hr] & (Hcu & Hcons) & Hrest). split; [by split|]. split; [|exact Hrest]. split; [|exact Hcons].
  eapply Forall_impl; [exact Hno|]. intros r Hr0 Hlv. by destruct (Hr0 Hlv).
Qed.

Lemma upload_over_held l c s : Forall (λ r, live_upload s r → pu_controller r ≠ c) (poolUploads (runs s)) → held l s → held l (upload_over c s).
Proof.
  intros Hne Hs. unfold upload_over. case_bool_decide as E; [|done]. unseen (held l). unseen (held l). apply free_upload; [|done].
  apply Forall_forall. intros r Hin Hlv. destruct Hs as (_ & (Hcu & _) & _). destruct (proj1 (Forall_forall _ _) Hcu r Hin Hlv) as (Hc & _).
  apply (proj1 (Forall_forall _ _) Hne r Hin Hlv). congruence.
Qed.

Lemma end_upload_held l n r s : uploads (runs s) !! n = Some r → held l s → held l (end_upload n r s).
Proof.
  intros Hr Hs. unfold end_upload. apply upload_over_held; [|exact (keeps s Hs)].
  destruct Hs as ([((Hn & _) & _) _] & _). apply Forall_forall. intros v Hin _ E. apply NoDup_app in Hn as (_ & Hd & _).
  apply (Hd (up_controller r)); [by apply in_map_of, list_elem_of_lookup_2 with n|]. rewrite <- E. by apply in_map_of.
Qed.

Lemma upload_done_held l n r d plan s : uploads (runs s) !! n = Some r → held l s → held l (upload_done n r d plan s).
Proof.
  intros Hr Hs. unfold upload_done. cbv zeta. apply end_upload_held; [by destruct plan|]. keep (held l).
Qed.

#[local] Instance upload_settles_held l n w : Keeps (held l) (upload_settles n w).
Proof.
  intros s Hs. unfold upload_settles. destruct (uploads (runs s) !! n) as [r|] eqn:Hr; [|done].
  assert (∀ d plan, held l (upload_done n r d plan s)) as Hdone by (intros; by apply upload_done_held).
  assert (held l (end_upload n r s)) as Hend by by apply end_upload_held.
  destruct (up_stage r) as [|d|]; [| |done].
  - destruct (Blossom.uploadToBlossom _ _ _ _ _).2; [done|]. destruct (upload_stale r s); [done|]. destruct (up_trackers r); [done|]. exact (keeps s Hs).
  - destruct (Torrent.createHybridTorrent _ _ _); [|done]. by destruct (upload_stale r s).
Qed.

Lemma pool_upload_over_held l n r s : poolUploads (runs s) !! n = Some r → held l s → held l (pool_upload_over n r s).
Proof.
  intros Hr Hs. unfold pool_upload_over. cbv zeta.
  set (t := on_runs _ s).
  assert (held l t) as Ht by by apply pool_uploads_moved.
  assert (held l (upload_over (pu_controller r) t)) as Ho.
  { apply upload_over_held; [|done]. destruct Hs as ([((Hn & _) & _) _] & _). apply NoDup_app in Hn as (_ & _ & Hn).
    apply Forall_lookup. intros m v Hv (Hst & _) E. unfold t in Hv. cbn in Hv. destruct (decide (m = n)) as [->|Hne].
    - rewrite list_lookup_alter_eq, Hr in Hv. by injection Hv as <-.
    - rewrite list_lookup_alter_ne in Hv by done. apply Hne. apply (NoDup_lookup _ m n (pu_controller r) Hn).
      + by rewrite list_lookup_fmap, Hv, <- E.
      + by rewrite list_lookup_fmap, Hr. }
  clearbody t. destruct (bool_decide _); [|exact Ht]. unseen (held l). exact Ho.
Qed.

#[local] Instance cancelUpload_held l : Keeps (held l) cancelUpload.
Proof. handler (held l) cancelUpload. Qed.

(** A consent is withdrawn: the upload is aborted first. *)
Lemma stops_upload l s : held l s → Forall (λ r, ¬ live_upload (abort_opt (uploadController (pub s)) s) r) (poolUploads (runs s)).
Proof.
  intros ([((_ & Hl) & _) _] & (Hcu & _) & _). apply Forall_forall. intros r Hin (Hst & Hv & Ha).
  assert (pub (abort_opt (uploadController (pub s)) s) = pub s) as Ep.
  { destruct (uploadController (pub s)) as [c|]; [|done]. cbn. unfold abort. by destruct (is_aborted s c). }
  rewrite Ep in Hv. destruct (proj1 (Forall_forall _ _) Hcu r Hin) as (Hc & _); [split_and!; [done..|by eapply abort_mono]|].
  rewrite Hc in Ha. cbn [abort_opt] in Ha. rewrite abort_is_aborted in Ha; [done|].
  apply (proj1 (Forall_forall _ _) Hl). unfold up_controllers. apply elem_of_app. right. by apply in_map_of.
Qed.

Lemma abort_opt_form c f s : abort_opt c (on_form f s) = on_form f (abort_opt c s).
Proof. destruct c as [c|]; [|done]. cbn. unfold abort. change (is_aborted (on_form f s) c) with (is_aborted s c). by destruct (is_aborted s c). Qed.

Lemma abort_opt_held' l c s : held l s → held l (abort_opt c s).
Proof. intros Hs. exact (keeps s Hs). Qed.

Lemma free_form l f s : (∀ x, publishConsent (f x) = publishConsent x ∧ repairPoolConsent (f x) = repairPoolConsent x ∧
    tor_chosen (f x) = tor_chosen x ∧ torConsent (f x) = torConsent x) →
  Forall (λ r, live_upload s r → upload_consented s = true → upload_consented (on_form f s) = true) (poolUploads (runs s)) →
  held l s → held l (on_form f s).
Proof.
  intros Hf Hno (Hb & (Hcu & Hcp & Hcs) & Hcr & Ho). destruct (Hf (form s)) as (E1 & E2 & E3 & E4).
  assert (assertTorReady (on_form f s) = assertTorReady s) as E5 by (unfold assertTorReady; cbn; by rewrite E3, E4).
  split; [exact Hb|]. split; [|split; [|exact Ho]].
  - split_and!.
    + apply Forall_forall. intros r Hin Hlv. destruct (proj1 (Forall_forall _ _) Hcu r Hin Hlv) as (? & ? & ?). split_and!; [done..|].
      by apply (proj1 (Forall_forall _ _) Hno r Hin).
    + eapply Forall_impl; [exact Hcp|]. intros r Hr Hlv. destruct (Hr Hlv) as (? & ? & ?). split; [done|]. rewrite E5. split; [|done]. exact (eq_trans E1 ltac:(done)).
    + eapply Forall_impl; [exact Hcs|]. intros r Hr Hlv. rewrite E5. by apply Hr.
  - eapply Forall_impl; [exact Hcr|]. intros r Hr Hlv. destruct (Hr Hlv) as (? & ? & ?). rewrite E5. split; [|done]. exact (eq_trans E2 ltac:(done)).
Qed.

(** A box of an upload: ticked it only adds, unticked it stops what uploads. *)
Lemma upload_box_held l f s on :
  (∀ x, publishConsent (f x) = publishConsent x ∧ repairPoolConsent (f x) = repairPoolConsent x ∧ tor_chosen (f x) = tor_chosen x ∧
        torConsent (f x) = torConsent x) →
  (on = true → upload_consented s = true → upload_consented (on_form f s) = true) → held l s →
  held l (updateUploadButton (if on : bool then on_form f s else withdraw_upload (on_form f s))).
Proof.
  intros Hf Hon Hs. unseen (held l). destruct on.
  - apply free_form; [done| |done]. apply Forall_forall. auto.
  - unfold withdraw_upload. change (uploadController (pub (on_form f s))) with (uploadController (pub s)). rewrite abort_opt_form.
    pose proof (stops_upload l s Hs) as Hn. apply (abort_opt_held' l (uploadController (pub s))) in Hs.
    assert (poolUploads (runs (abort_opt (uploadController (pub s)) s)) = poolUploads (runs s)) as Ep.
    { destruct (uploadController (pub s)) as [c|]; [|done]. cbn. unfold abort. by destruct (is_aborted s c). }
    rewrite <- Ep in Hn. revert Hn Hs. generalize (abort_opt (uploadController (pub s)) s). clear -Hf. intros s Hn Hs.
    assert (held l (on_form f s)) as Ht.
    { apply free_form; [done| |done]. eapply Forall_impl; [exact Hn|]. intros r Hr Hlv. by destruct (Hr Hlv). }
    exact (keeps _ Ht).
Qed.

#[local] Instance uploadConsent_held l on : Keeps (held l) (uploadConsent_changes on).
Proof.
  intros s Hs. unfold uploadConsent_changes. cbv zeta. apply upload_box_held; [done| |done]. intros ->.
  unfold upload_consented. intros [[_ Hk]%andb_prop Ht]%andb_prop. apply andb_true_intro. split; [|exact Ht]. apply andb_true_intro. by split.
Qed.
#[local] Instance keySavedConsent_held l on : Keeps (held l) (keySavedConsent_changes on).
Proof.
  intros s Hs. unfold keySavedConsent_changes. cbv zeta. apply upload_box_held; [done| |done]. intros ->.
  unfold upload_consented. intros [[Hu _]%andb_prop Ht]%andb_prop. apply andb_true_intro. split; [|exact Ht]. apply andb_true_intro.
  split; [exact Hu|apply orb_true_r].
Qed.

(** ** Seeding *)

#[local] Instance peer_stopped_held l n r ok : Keeps (held l) (peer_stopped n r ok).
Proof.
  intros s Hs. unfold peer_stopped. cbv zeta.
  set (t := if ok then _ else _). assert (held l t) as Ht by (unfold t; destruct ok; [exact Hs|]; destruct (st_kind r); exact Hs). clearbody t.
  destruct (st_kind r); exact Ht.
Qed.
#[local] Instance seedConsent_held l on : Keeps (held l) (seedConsent_changes on).
Proof. handler (held l) seedConsent_changes. Qed.
#[local] Instance new_peer_held l k h : Keeps (held l) (λ s, (new_peer k h s).1).
Proof. by intros s. Qed.
#[local] Instance seed_settles_held l n r x : Keeps (held l) (seed_settles n r x).
Proof. handler (held l) seed_settles. Qed.
#[local] Instance seed_continues_held l n : Keeps (held l) (seed_continues n).
Proof. handler (held l) seed_continues. Qed.
#[local] Instance seed_event_held l n e : Keeps (held l) (seed_event n e).
Proof. handler (held l) seed_event. Qed.
#[local] Instance stopSeeding_held l : Keeps (held l) stopSeeding.
Proof. handler (held l) stopSeeding. Qed.

(** ** Signing and publishing *)

#[local] Instance sign_over_held l n r : Keeps (held l) (sign_over n r).
Proof.
  intros s Hs. unfold sign_over. cbv zeta. assert (held l (set_signing n SignOver s)) as Ht by by apply signings_moved.
  revert Ht. generalize (set_signing n SignOver s). intros t Ht. destruct (Nat.eqb _ _); exact Ht.
Qed.
#[local] Instance signed_held l n r e es : Keeps (held l) (signed n r e es).
Proof. handler (held l) signed. Qed.

Lemma free_publish l s : Forall (λ r, ¬ live_publish s r) (publications (runs s)) → held l s →
  held l (on_pub (λ p, p <| publishController := None |>) s).
Proof.
  intros Hno ([Hb Hr] & (Hcu & Hcp & Hcs) & Hrest). split; [by split|]. split; [|exact Hrest]. split; [exact Hcu|]. split; [|exact Hcs].
  eapply Forall_impl; [exact Hno|]. intros r Hr0 Hlv. by destruct (Hr0 Hlv).
Qed.

Lemma publish_over_held l n r s : publications (runs s) !! n = Some r → held l s → held l (publish_over n r s).
Proof.
  intros Hr Hs. unfold publish_over. cbv zeta. set (t := set_publish n _ s).
  assert (held l t) as Ht by by apply publishes_moved.
  case_bool_decide as E; [|exact Ht]. apply free_publish; [|done].
  destruct Hs as ([(_ & (Hn & _) & _) _] & _). destruct Ht as (_ & (_ & Hcp & _) & _).
  apply Forall_lookup. intros m v Hv Hlv. destruct (proj1 (Forall_lookup _ _) Hcp m v Hv Hlv) as (Hc & _).
  destruct Hlv as (Hst & _). unfold t in Hv. cbn in Hv. destruct (decide (m = n)) as [->|Hne].
  - rewrite list_lookup_alter_eq, Hr in Hv. by injection Hv as <-.
  - rewrite list_lookup_alter_ne in Hv by done. apply Hne. apply (NoDup_lookup _ m n (pb_controller r) Hn).
    + rewrite list_lookup_fmap, Hv. cbn. f_equal. congruence.
    + by rewrite list_lookup_fmap, Hr.
Qed.

#[local] Instance publishConsent_held l on : Keeps (held l) (publishConsent_changes on).
Proof.
  intros s Hs. unfold publishConsent_changes. cbv zeta. unseen (held l). destruct on.
  - destruct Hs as (Hb & (Hcu & Hcp & Hcs) & Hrest). split; [exact Hb|]. split; [|exact Hrest]. split; [exact Hcu|]. split; [|exact Hcs].
    eapply Forall_impl; [exact Hcp|]. intros r Hr Hlv. destruct (Hr Hlv) as (? & ? & ?). by split_and!.
  - change (publishController (pub (on_form (λ f, f <| publishConsent := false |>) s))) with (publishController (pub s)). rewrite abort_opt_form.
    assert (Forall (λ r, ¬ live_publish (abort_opt (publishController (pub s)) s) r) (publications (runs (abort_opt (publishController (pub s)) s)))) as Hn.
    { assert (pub (abort_opt (publishController (pub s)) s) = pub s ∧
              publications (runs (abort_opt (publishController (pub s)) s)) = publications (runs s)) as [Ep Er].
      { destruct (publishController (pub s)) as [c|]; [|done]. cbn. unfold abort. by destruct (is_aborted s c). }
      destruct Hs as ([(_ & (_ & Hl) & _) _] & (_ & Hcp & _) & _). rewrite Er. apply Forall_forall. intros r Hin (Hst & Hv & Ha). rewrite Ep in Hv.
      destruct (proj1 (Forall_forall _ _) Hcp r Hin) as (Hc & _); [split_and!; [done..|by eapply abort_mono]|].
      rewrite Hc in Ha. cbn [abort_opt] in Ha. rewrite abort_is_aborted in Ha; [done|]. apply (proj1 (Forall_forall _ _) Hl). by apply in_map_of. }
    apply (abort_opt_held' l (publishController (pub s))) in Hs. revert Hn Hs. generalize (abort_opt (publishController (pub s)) s). clear. intros s Hn Hs.
    destruct Hs as (Hb & (Hcu & Hcp & Hcs) & Hrest). split; [exact Hb|]. split; [|exact Hrest]. split; [exact Hcu|]. split; [|exact Hcs].
    eapply Forall_impl; [exact Hn|]. intros r Hr Hlv. by destruct (Hr Hlv).
Qed.

(** ** The external signer, and what is changed above the publication *)

#[local] Instance clearExternalSigningPanel_held l : Keeps (held l) clearExternalSigningPanel.
Proof. by intros s. Qed.
#[local] Instance requestExternalSignature_held l x : Keeps (held l) (requestExternalSignature x).
Proof. handler (held l) requestExternalSignature. Qed.
#[local] Instance acceptExternalSignature_held l : Keeps (held l) acceptExternalSignature.
Proof. handler (held l) acceptExternalSignature. Qed.
#[local] Instance cancelExternalSignature_held l : Keeps (held l) cancelExternalSignature.
Proof. handler (held l) cancelExternalSignature. Qed.
#[local] Instance abort_pool_download_held l : Keeps (held l) abort_pool_download.
Proof. handler (held l) abort_pool_download. Qed.
#[local] Instance abort_pool_download_page : Keeps page_retr abort_pool_download.
Proof. handler page_retr abort_pool_download. Qed.

Lemma both_resets l s : page_retr s → based l s → calm l (resetResolution (resetPublicationAfterInspection s)).
Proof.
  intros Hp Hs. apply resetResolution_calm; [|by apply resetPublication_quiet]. exact (keeps s Hp).
Qed.

Lemma profile_changes_held l on s : page_retr s → held l s → held l (profile_changes on s).
Proof.
  intros Hp Hs%held_based. cbv beta delta [profile_changes]. cbv zeta. set (u := if bool_decide (storageMode _ = SingleNode) then _ else _).
  assert (page_retr u ∧ based l u) as [Hpu Hu].
  { unfold u. set (t := on_form _ s <| profileRevision := _ |>). assert (page_retr t ∧ based l t) as [Hpt Ht] by (split; [exact Hp|exact Hs]).
    clearbody t. case_bool_decide; [by split|]. split; [exact (keeps t Hpt)|]. by apply quiet_based, resetInspection_quiet. }
  clearbody u. pose proof (both_resets l u Hpu Hu) as Hc. revert Hc. generalize (resetResolution (resetPublicationAfterInspection u)). clear. intros v Hv.
  apply calm_held. keep (calm l).
Qed.

Lemma signingMethod_changes_held l on s : page_retr s → held l s → held l (signingMethod_changes on s).
Proof.
  intros Hp Hs. cbv beta delta [signingMethod_changes]. cbv zeta. set (u := on_form (λ f, f <| external_chosen := on |>) s).
  assert (held l u) as Hu by exact Hs. assert (page_retr u) as Hpu by exact Hp. clearbody u.
  assert (held l (abort_pool_download u)) as Hd by exact (keeps u Hu). assert (page_retr (abort_pool_download u)) as Hpd by exact (keeps u Hpu).
  pose proof (resetPublication_held l (abort_pool_download u) Hpd Hd) as Hv. revert Hv. clear.
  generalize (resetPublicationAfterInspection (abort_pool_download u)). intros v Hv. keep (held l).
Qed.

Lemma externalPubkey_typed_held l v s : page_retr s → held l s → held l (externalPubkey_typed v s).
Proof.
  intros Hp Hs. cbv beta delta [externalPubkey_typed]. cbv zeta. set (u := on_form _ s).
  assert (held l u) as Hu by exact Hs. assert (page_retr u) as Hpu by exact Hp. clearbody u. destruct (_ && _); [done|].
  pose proof (resetPublication_held l u Hpu Hu) as Hv. revert Hv. generalize (resetPublicationAfterInspection u). clear. intros t Ht. keep (held l).
Qed.

Lemma torConsent_changes_held l on s : page_retr s → held l s → held l (torConsent_changes on s).
Proof.
  intros Hp Hs. cbv beta delta [torConsent_changes]. cbv zeta.
  change (tor_chosen (form (on_form (λ f, f <| torConsent := on |>) s))) with (tor_chosen (form s)).
  destruct (on || negb (tor_chosen (form s))) eqn:E.
  - apply tor_held; [|done]. destruct on; [by right|]. apply negb_true_iff in E. by left.
  - apply held_based in Hs. set (u := on_form (λ f, f <| externalPubkeyInput := [] |>) _). assert (page_retr u ∧ based l u) as [Hpu Hu] by (split; [exact Hp|exact Hs]).
    clearbody u. by apply calm_held, both_resets.
Qed.

Lemma layout_changes_held l i s : page_retr s → held l s → held l (layout_changes i s).
Proof.
  intros Hp Hs%held_based. cbv beta delta [layout_changes]. cbv zeta. set (u := if bool_decide (storageMode _ = SingleNode) then _ else _).
  assert (page_retr u ∧ based l u) as [Hpu Hu] by (unfold u; destruct (bool_decide _); (split; [exact Hp|exact Hs])). clearbody u.
  apply calm_held. refine (@keeps _ applyProfile _ _ _). apply resetResolution_calm; [exact (keeps u Hpu)|by apply resetInspection_quiet].
Qed.

Lemma file_chosen_held l file s : page_retr s → held l s → held l (file_chosen file s).
Proof.
  intros Hp Hs. cbv beta delta [file_chosen]. cbv zeta. set (u := on_form _ s <| identities := _ |>).
  assert (page_retr u ∧ held l u) as [Hpu Hu] by (split; [exact Hp|exact Hs]). clearbody u. by apply resetInspection_held.
Qed.

Lemma endpoint_changes_held l i v s : page_retr s → held l s → held l (endpoint_changes i v s).
Proof.
  intros Hp Hs%held_based. cbv beta delta [endpoint_changes]. set (u := on_form _ s).
  assert (page_retr u ∧ based l u) as [Hpu Hu] by (split; [exact Hp|exact Hs]). clearbody u. by apply calm_held, both_resets.
Qed.

Lemma protectFile_changes_held l on s : page_retr s → held l s → held l (protectFile_changes on s).
Proof.
  intros Hp Hs. cbv beta delta [protectFile_changes]. set (u := on_form _ s).
  assert (page_retr u ∧ held l u) as [Hpu Hu] by (split; [exact Hp|exact Hs]). clearbody u.
  refine (@keeps _ applyProfile _ _ _). by apply resetInspection_held.
Qed.

(** ** Retrieving *)

#[local] Instance showResolvedEvent_held l e : Keeps (held l) (showResolvedEvent e).
Proof. handler (held l) showResolvedEvent. Qed.
#[local] Instance showResolvedPool_held l x : Keeps (held l) (showResolvedPool x).
Proof. handler (held l) showResolvedPool. Qed.

Lemma eventId_typed_held l v s : page_retr s → held l s → held l (eventId_typed v s).
Proof.
  intros Hp Hs. unfold eventId_typed. set (u := on_form _ s). assert (page_retr u ∧ held l u) as [Hpu Hu] by (split; [exact Hp|exact Hs]).
  clearbody u. by apply resetResolution_held.
Qed.

Lemma savedEvent_typed_held l v s : page_retr s → held l s → held l (savedEvent_typed v s).
Proof.
  intros Hp Hs. unfold savedEvent_typed. unseen (held l). set (u := on_form _ s).
  assert (page_retr u ∧ held l u) as [Hpu Hu] by (split; [exact Hp|exact Hs]). clearbody u. by apply resetResolution_held.
Qed.

Lemma savedEventFile_chosen_held l file s : page_retr s → held l s → held l (savedEventFile_chosen file s).
Proof.
  intros Hp Hs. unfold savedEventFile_chosen. cbv zeta. set (u := on_form (λ f, f <| savedEventFile := file |>) s).
  assert (page_retr u ∧ held l u) as [Hpu Hu] by (split; [exact Hp|exact Hs]). clearbody u.
  pose proof (resetResolution_held l u Hpu Hu) as Hv. revert Hv. generalize (resetResolution u). clear. intros v Hv. keep (held l).
Qed.

#[local] Instance savedEventFile_settles_held l n x : Keeps (held l) (savedEventFile_settles n x).
Proof. handler (held l) savedEventFile_settles. Qed.

Lemma verifySavedEvent_held l s : page_retr s → held l s → held l (verifySavedEvent s).
Proof.
  intros Hp Hs. unfold verifySavedEvent. cbv zeta. pose proof (resetResolution_held l s Hp Hs) as Hv. revert Hv.
  generalize (resetResolution s). clear. intros v Hv. keep (held l).
Qed.

#[local] Instance lookup_over_held l n r : Keeps (held l) (lookup_over n r).
Proof. handler (held l) lookup_over. Qed.
#[local] Instance lookup_settles_held l n names steps : Keeps (held l) (lookup_settles n names steps).
Proof. handler (held l) lookup_settles. Qed.
#[local] Instance release_download_held l c : Keeps (held l) (release_download c).
Proof. handler (held l) release_download. Qed.

(** A run of a pool is over: what repairs at the time was that run. *)
Lemma pool_over_alone l n r s : poolRuns (runs s) !! n = Some r →
  (∀ m v, m ≠ n → poolRuns (runs s) !! m = Some v → live_repair s v → downloadController (ret s) ≠ Some (pl_controller r)) →
  held l s → held l (pool_over n r s).
Proof.
  intros Hr Hno Hs. unfold pool_over. cbv zeta. unseen (held l). unseen (held l). set (t := set_pool_run n _ s).
  assert (held l t) as Ht by by apply pools_moved.
  refine (@keeps _ (release_download (pl_controller r)) _ _ _).
  destruct (bool_decide (downloadController (ret t) = Some (pl_controller r))) eqn:E; [|exact Ht]. apply bool_decide_eq_true in E.
  destruct Ht as (Hb & Hc & Hcr & Ho). split; [exact Hb|]. split; [exact Hc|]. split; [|exact Ho].
  apply Forall_lookup. intros m v Hv [Hst Ha]. exfalso. unfold t in Hv. cbn in Hv. destruct (decide (m = n)) as [->|Hne].
  - rewrite list_lookup_alter_eq, Hr in Hv. by injection Hv as <-.
  - rewrite list_lookup_alter_ne in Hv by done. by apply (Hno m v Hne Hv).
Qed.

Lemma no_other_repair n r s m v : page_retr s → base s → poolRuns (runs s) !! n = Some r → m ≠ n → poolRuns (runs s) !! m = Some v →
  live_repair s v → downloadController (ret s) ≠ Some (pl_controller r).
Proof.
  intros Hp Hb Hr Hne Hv Hlv E. destruct (current_repair s v Hp Hb (list_elem_of_lookup_2 _ _ _ Hv) Hlv) as [Hd _].
  apply Hne, (NoDup_lookup _ m n (pl_controller r) (t_nodup _ _ _ _ _ _ Hp)).
  - rewrite list_lookup_fmap, Hv. cbn. f_equal. congruence.
  - by rewrite list_lookup_fmap, Hr.
Qed.

Lemma pool_over_held l n r s : page_retr s → poolRuns (runs s) !! n = Some r → held l s → held l (pool_over n r s).
Proof. intros Hp Hr Hs. apply pool_over_alone; [done| |done]. intros m v. exact (no_other_repair n r s m v Hp (proj1 Hs) Hr). Qed.

(** Its consent is withdrawn: the repair is aborted first. *)
Lemma free_repair l f s : (∀ x, publishConsent (f x) = publishConsent x ∧ uploadConsent (f x) = uploadConsent x ∧
    keySavedConsent (f x) = keySavedConsent x ∧ tor_chosen (f x) = tor_chosen x ∧ torConsent (f x) = torConsent x) →
  unrepaired s → held l s → held l (on_form f s).
Proof.
  intros Hf Hn (Hb & (Hcu & Hcp & Hcs) & Hcr & Ho). destruct (Hf (form s)) as (E1 & E2 & E2' & E3 & E4).
  assert (assertTorReady (on_form f s) = assertTorReady s) as E5 by (unfold assertTorReady; cbn; by rewrite E3, E4).
  split; [exact Hb|]. split; [|split; [by apply unrepaired_repairs|exact Ho]]. split_and!.
  - eapply Forall_impl; [exact Hcu|]. intros r Hr Hlv. destruct (Hr Hlv) as (? & ? & ?). split_and!; [done..|].
    unfold upload_consented in *. rewrite E5. cbn. by rewrite E2, E2'.
  - eapply Forall_impl; [exact Hcp|]. intros r Hr Hlv. destruct (Hr Hlv) as (? & ? & ?). split; [done|]. rewrite E5. split; [|done].
    exact (eq_trans E1 ltac:(done)).
  - eapply Forall_impl; [exact Hcs|]. intros r Hr Hlv. rewrite E5. by apply Hr.
Qed.

Lemma stopped_repair l f s : (∀ x, publishConsent (f x) = publishConsent x ∧ uploadConsent (f x) = uploadConsent x ∧
    keySavedConsent (f x) = keySavedConsent x ∧ tor_chosen (f x) = tor_chosen x ∧ torConsent (f x) = torConsent x) →
  page_retr s → held l s → held l (on_form f (abort_opt (downloadController (ret s)) s)).
Proof.
  intros Hf Hp Hs. apply free_repair; [done|apply stops_repairs; [done|apply Hs]|exact (keeps s Hs)].
Qed.

Lemma repairPoolConsent_held l on s : page_retr s → held l s → held l (repairPoolConsent_changes on s).
Proof.
  intros Hp Hs. unfold repairPoolConsent_changes. cbv zeta. unseen (held l). destruct on.
  - destruct Hs as (Hb & Hc & Hcr & Ho). split; [exact Hb|]. split; [exact Hc|]. split; [|exact Ho].
    eapply Forall_impl; [exact Hcr|]. intros r Hr Hlv. destruct (Hr Hlv) as (? & ? & ?). by split_and!.
  - change (downloadController (ret (on_form (λ f, f <| repairPoolConsent := false |>) s))) with (downloadController (ret s)). rewrite abort_opt_form.
    refine (@keeps _ abandonExternalSigning _ _ _). by apply stopped_repair.
Qed.

Lemma poolReplacements_typed_held l v s : page_retr s → held l s → held l (poolReplacements_typed v s).
Proof.
  intros Hp Hs. unfold poolReplacements_typed. cbv zeta. unseen (held l). set (u := on_form _ s).
  assert (page_retr u ∧ held l u) as [Hpu Hu] by (split; [exact Hp|exact Hs]). clearbody u.
  destruct (poolRepairInProgress (ret u)) eqn:E.
  - pose proof (stopped_repair l (λ f, f <| repairPoolConsent := false |>) u ltac:(done) Hpu Hu) as Ht. revert Ht.
    generalize (abort_opt (downloadController (ret u)) u). clear. intros t Ht. exact Ht.
  - apply free_repair; [done| |done]. destruct Hu as (_ & _ & Hcr & _). eapply Forall_impl; [exact Hcr|]. intros r Hr Hlv.
    destruct (Hr Hlv) as (_ & Hprog & _). congruence.
Qed.

#[local] Instance offer_file_held l e x o : Keeps (held l) (offer_file e x o).
Proof. handler (held l) offer_file. Qed.
#[local] Instance fetch_over_held l n r : Keeps (held l) (fetch_over n r).
Proof. handler (held l) fetch_over. Qed.
#[local] Instance fetched_held l n r x o : Keeps (held l) (fetched n r x o).
Proof. handler (held l) fetched. Qed.
#[local] Instance fetch_settles_held l n w g : Keeps (held l) (fetch_settles n w g).
Proof. handler (held l) fetch_settles. Qed.
#[local] Instance stop_peer_held l x : Keeps (held l) (stop_peer x).
Proof. by intros s. Qed.
#[local] Instance swarm_over_held l n c x : Keeps (held l) (swarm_over n c x).
Proof. handler (held l) swarm_over. Qed.
#[local] Instance leave_swarm_held l n c x : Keeps (held l) (leave_swarm n c x).
Proof. handler (held l) leave_swarm. Qed.
#[local] Instance swarm_fetched_held l n c x r y o : Keeps (held l) (swarm_fetched n c x r y o).
Proof. handler (held l) swarm_fetched. Qed.
#[local] Instance swarm_settles_held l n c r x : Keeps (held l) (swarm_settles n c r x).
Proof. handler (held l) swarm_settles. Qed.
#[local] Instance swarm_continues_held l n : Keeps (held l) (swarm_continues n).
Proof. handler (held l) swarm_continues. Qed.
#[local] Instance swarm_event_held l n e : Keeps (held l) (swarm_event n e).
Proof. handler (held l) swarm_event. Qed.
#[local] Instance swarm_decrypted_held l n g : Keeps (held l) (swarm_decrypted n g).
Proof. handler (held l) swarm_decrypted. Qed.
#[local] Instance swarm_left_held l n x : Keeps (held l) (swarm_left n x).
Proof. handler (held l) swarm_left. Qed.
#[local] Instance swarmConsent_held l x : Keeps (held l) (swarmConsent_changes x).
Proof. handler (held l) swarmConsent_changes. Qed.
#[local] Instance cancelDownload_held l : Keeps (held l) cancelDownload.
Proof. handler (held l) cancelDownload. Qed.

(** ** Leaving the page *)

#[local] Instance stop_peer_opt_calm l x : Keeps (calm l) (stop_peer_opt x).
Proof. intros s Hs. by destruct x. Qed.
Lemma endPageSession_held l s : page_retr s → held l s → held l (endPageSession s).
Proof.
  intros Hp Hs. unfold endPageSession. destruct (pageSessionEnded s); [done|]. apply held_based in Hs. cbv zeta.
  set (u := on_ret _ (on_pub _ _)). assert (page_retr u ∧ based l u) as [Hpu Hu] by (split; [apply (same_retr _ _ _ _ _ _ _ Hp); done|exact Hs]). clearbody u.
  assert (calm l (resetResolution (resetInspection u))) as Hv.
  { apply resetResolution_calm; [exact (keeps u Hpu)|by apply resetInspection_quiet]. }
  apply calm_held. revert Hv. generalize (resetResolution (resetInspection u)). clear. intros v Hv. keep (calm l).
Qed.

(** ** What may start

    [C s b] says that the button [b], enabled, was clicked on the page [s]: what a
    run starts later is what stood on the page where its click was. *)

Section Starts.
Context (C : Page → button → Prop).

Definition permitted (s : Page) (o : op) : Prop :=
  match o with
  | AsksForKey external => external = external_chosen (form s) ∧ assertTorReady s = true
  | Uploads file server key prof =>
      upload_consented s = true ∧ option_map snd (inspected (pub s)) = Some file ∧ pubkey s = Some key ∧ prof = profile s ∧
      storageMode (form s) = SingleNode ∧ normaliseBlossomServer (blossomInput (form s)) prof = Ok server
  | SignsReceipt manifest owner =>
      pubkey s = Some owner ∧
      ((upload_consented s = true ∧ option_map Pool.pp_manifest (preparedPool (pub s)) = Some manifest) ∨
       (repairPoolConsent (form s) = true ∧ assertTorReady s = true ∧
        ∃ receipt, resolvedPool (ret s) = Some receipt ∧ owner = receipt_author receipt ∧
          Pool.extendPool (Pool.r_manifest receipt) (poolReplacements (form s)) = Ok manifest))
  | UploadsPool receipt owner =>
      (upload_consented s = true ∧
       ∃ s0 nostr prepared, C s0 (ClickUpload nostr) ∧ preparedPool (pub s0) = Some prepared ∧ pubkey s0 = Some owner ∧
         (publishedPool (pub s0) = Some receipt ∨ ∃ world, (Pool.signPool (Pool.pp_manifest prepared) owner world).2 = inr receipt)) ∨
      (repairPoolConsent (form s) = true ∧ assertTorReady s = true ∧ resolvedPool (ret s) = Some receipt ∧ owner = receipt_author receipt ∧
       ∃ s0 nostr receipt0, C s0 (ClickRepair nostr) ∧ resolvedPool (ret s0) = Some receipt0 ∧ pubkey s0 = Some (receipt_author receipt0) ∧
         goes_on_with s0 receipt0 receipt)
  | JoinsAsSeeder file prof =>
      seedConsent (form s) = true ∧ option_map snd (inspected (pub s)) = Some file ∧ prof = profile s ∧ seedSession (pub s) = None ∧
      pendingSeedStops s = 0%nat
  | SignsFileEvent publication key =>
      assertTorReady s = true ∧ pubkey s = Some key ∧
      ∃ n file d, inspected (pub s) = Some (n, file) ∧ descriptor (pub s) = Some d ∧ publication = the_publication file d s
  | SignsTorrentEvent publication key =>
      assertTorReady s = true ∧
      ∃ s0 nostr now n file d, C s0 (ClickSign nostr now) ∧ inspected (pub s0) = Some (n, file) ∧ descriptor (pub s0) = Some d ∧
        pubkey s0 = Some key ∧ publication = the_publication file d s0 ∧ profile s = profile s0
  | Publishes targets event prof =>
      publishConsent (form s) = true ∧ assertTorReady s = true ∧ prof = profile s ∧
      ∃ s0, C s0 ClickPublish ∧ relays s0 = Ok targets ∧ event ∈ signedEvents (pub s0) ∧ prof = profile s0
  | LooksUp targets eventId prof =>
      assertTorReady s = true ∧ prof = profile s ∧ relays s = Ok targets ∧
      assertHex64 (trim (eventIdInput (form s))) "Event ID" = Ok eventId
  | FetchesBlob event replica prof =>
      assertTorReady s = true ∧ option_map snd (resolved (ret s)) = Some event ∧ replica = trim (replicaInput (form s)) ∧ prof = profile s
  | FetchesPool receipt =>
      assertTorReady s = true ∧
      (resolvedPool (ret s) = Some receipt ∨
       (repairPoolConsent (form s) = true ∧
        ∃ s0 nostr receipt0, C s0 (ClickRepair nostr) ∧ resolvedPool (ret s0) = Some receipt0 ∧ pubkey s0 = Some (receipt_author receipt0) ∧
          goes_on_with s0 receipt0 receipt))
  | JoinsAsDownloader event prof => swarmConsent (form s) = true ∧ option_map snd (resolved (ret s)) = Some event ∧ prof = profile s
  end.

(** A step starts nothing, or one thing that may start. *)
Definition goes (l : list op) (s t : Page) : Prop := held l t ∨ ∃ o, held (l ++ [o]) t ∧ permitted s o.

Lemma starts_held l o s : held l s → held (l ++ [o]) (starts o s).
Proof. intros (? & ? & ? & Ho). split; [done|]. split; [done|]. split; [done|]. cbn. by rewrite Ho. Qed.

Lemma connectSigner_goes l nostr s : held l s → goes l s (connectSigner nostr s).
Proof.
  intros Hs. unfold connectSigner. destruct (assertTorReady s && signer_there nostr s) eqn:E; [|by left]. apply andb_prop in E as [E _].
  right. exists (AsksForKey (external_chosen (form s))). split; [|by split]. apply starts_held. exact Hs.
Qed.

Lemma startSeeding_goes l s : held l s → goes l s (startSeeding s).
Proof.
  intros Hs. unfold startSeeding. destruct (inspected (pub s)) as [[i file]|] eqn:Ei; [|by left]. destruct (torrentPlan (pub s)) as [plan|]; [|by left].
  destruct (_ || _) eqn:E; [by left|]. all_false E. right. exists (JoinsAsSeeder file (profile s)). split; [|cbn; rewrite Ei; by split_and!].
  apply (new_controller_held l) in Hs. apply starts_held. exact Hs.
Qed.

(** A new signature is asked for. *)
Lemma begin_sign l r s : sg_revision r = publicationRevision (pub s) → assertTorReady s = true → held l s →
  held l (on_runs (λ rs, rs <| signings := signings rs ++ [r] |>) s).
Proof.
  intros Hv Ht ([(Hc & Hc' & Hu & Hp & Hs & Hi) Hr] & (Hcu & Hcp & Hcs) & Hrest). split; [|split; [|exact Hrest]].
  - split; [|exact Hr]. split; [exact Hc|]. split; [exact Hc'|]. split; [exact Hu|]. split; [exact Hp|]. split; [|exact Hi].
    apply Forall_snoc; [exact Hs|]. cbn. lia.
  - split; [exact Hcu|]. split; [exact Hcp|]. by apply Forall_snoc.
Qed.

Lemma signEvents_goes l nostr now s : held l s → goes l s (signEvents nostr now s).
Proof.
  intros Hs. unfold signEvents. destruct (inspected (pub s)) as [[i file]|] eqn:Ei; [|by left]. destruct (descriptor (pub s)) as [d|] eqn:Ed; [|by left].
  destruct (pubkey s) as [key|] eqn:Ek; [|by left]. destruct (_ || _) eqn:E; [by left|]. all_false E. cbv zeta.
  destruct (Nostr.buildFileEvent _ now) as [template|]; [|left; exact Hs]. right. exists (SignsFileEvent (the_publication file d s) key).
  split; [|split; [done|]; split; [done|]; by exists i, file, d]. apply starts_held, begin_sign; done.
Qed.

Lemma sign_settles_goes l n answer now s : traces C s → held l s → goes l s (sign_settles n answer now s).
Proof.
  intros (_ & _ & Htr & _) Hs. unfold sign_settles. destruct (signings (runs s) !! n) as [r|] eqn:Hr; [|by left]. cbv zeta.
  assert (held l (sign_over n r s)) as Hov by exact (keeps s Hs).
  destruct (sg_stage r) as [template|fileEvent template|] eqn:Est; [| |by left].
  - destruct (Nostr.signEventExactly _ _ _) as [fileEvent|]; [|by left]. destruct (_ || _) eqn:E; [by left|].
    destruct (Nostr.hp_torrent _) as [plan|]; [|left; exact (keeps s Hs)]. all_false E. right.
    exists (SignsTorrentEvent (sg_publication r) (sg_pubkey r)). split.
    + apply starts_held, signings_moved; [|done]. intros v Hv. rewrite Hr in Hv. injection Hv as <-. by rewrite Est.
    + split.
      * destruct Hs as (_ & (_ & _ & Hcs) & _). apply (proj1 (Forall_lookup _ _) Hcs n r Hr). split; [by rewrite Est|]. congruence.
      * destruct (proj1 (Forall_lookup _ _) Htr n r Hr) as (s0 & nostr & now0 & m & file & d & ? & ? & ? & ? & ? & ?).
        exists s0, nostr, now0, m, file, d. split_and!; congruence || done.
  - destruct (Nostr.signEventExactly _ _ _); [|by left]. destruct (_ || _); [by left|]. left. exact (keeps s Hs).
Qed.

(** A new publication. *)
Lemma begin_publish l r s : pb_controller r = length (aborted s) → pb_revision r = publicationRevision (pub s) → publishConsent (form s) = true →
  assertTorReady s = true → publishController (pub s) = None → held l s →
  held l (on_runs (λ rs, rs <| publications := publications rs ++ [r] |>)
            (on_pub (λ p, p <| publishController := Some (length (aborted s)) |>) (s <| aborted := aborted s ++ [false] |>))).
Proof.
  intros Hc Hv Hpc Ht Hn Hs. assert (held l (s <| aborted := aborted s ++ [false] |>)) as Hs' by (apply held_aborted; [apply new_more|done]).
  destruct Hs' as ([(Hup & (Hnd & Hl) & Hu & Hp & Hrest) Hr] & (Hcu & Hcp & Hcs) & Hrest').
  split; [|split; [|exact Hrest']].
  - split; [|exact Hr]. split; [exact Hup|]. split; [|split; [exact Hu|split; [|exact Hrest]]].
    + destruct Hs as ([(_ & (Hn0 & Hl0) & _) _] & _).
      assert (map pb_controller (publications (runs s) ++ [r]) ≡ₚ map pb_controller (publications (runs s)) ++ [length (aborted s)]) as Hnew
        by by rewrite map_app, <- Hc.
      destruct (fresh_number _ _ _ Hnew Hn0 Hl0) as [? Hlt]. split; [done|]. eapply Forall_impl; [exact Hlt|]. cbn. rewrite length_app. cbn. lia.
    + apply Forall_snoc; [exact Hp|]. cbn. lia.
  - split; [exact Hcu|]. split; [|exact Hcs]. apply Forall_snoc.
    + destruct Hs as (_ & (_ & Hcp0 & _) & _). eapply Forall_impl; [exact Hcp|]. intros v Hv0 Hlv. destruct (Hv0 Hlv) as (E & _). cbn in E. congruence.
    + intros _. split; [cbn; by rewrite Hc|]. by split.
Qed.

Lemma publishEvents_goes l s : C s ClickPublish → held l s → goes l s (publishEvents s).
Proof.
  intros Hclick Hs. unfold publishEvents. destruct (signedEvents (pub s)) as [|event events] eqn:Ee; [by left|]. destruct (_ || _) eqn:E; [by left|]. all_false E.
  destruct (relays s) as [targets|] eqn:Er; [|by left]. right. exists (Publishes targets event (profile s)).
  split; [|split_and!; [done..|]; exists s; split_and!; [done..| |done]; rewrite Ee; by left].
  apply starts_held. unfold new_controller.
  exact (begin_publish l (mkPublish (length (aborted s)) (publicationRevision (pub s)) (profile s) targets (signedEvents (pub s)) false) s
           eq_refl eq_refl E ltac:(done) ltac:(done) Hs).
Qed.

Lemma publish_settles_goes l n ok s : traces C s → held l s → goes l s (publish_settles n ok s).
Proof.
  intros (_ & Htr & _) Hs. unfold publish_settles. destruct (publications (runs s) !! n) as [r|] eqn:Hr; [|by left]. destruct (pb_over r) eqn:Eo; [by left|].
  assert (held l (publish_over n r s)) as Hov by by apply publish_over_held.
  destruct (_ || _) eqn:E; [by left|]. destruct (tail (pb_events r)) as [|event rest] eqn:Et; [by left|]. all_false E. right.
  exists (Publishes (pb_targets r) event (pb_profile r)). split; [by apply starts_held, publishes_moved|].
  destruct Hs as (_ & (_ & Hcp & _) & _). destruct (proj1 (Forall_lookup _ _) Hcp n r Hr) as (_ & ? & ?); [by split_and!|]. split_and!; [done..|].
  destruct (proj1 (Forall_lookup _ _) Htr n r Hr) as (s0 & ? & ? & ? & He). exists s0. split_and!; [done..| |done].
  destruct (pb_events r) as [|e es]; [done|]. cbn in Et. subst es. by apply Forall_cons_1 in He as [_ [? _]%Forall_cons_1].
Qed.

(** A new upload: its controller is of no other. *)
Lemma begin_upload l (us : list UploadRun) (ps : list PoolUploadRun) s :
  map up_controller us ++ map pu_controller ps ≡ₚ up_controllers s ++ [length (aborted s)] →
  Forall (λ r, r ∈ poolUploads (runs s) ∨ (pu_revision r = publicationRevision (pub s) ∧ pu_controller r = length (aborted s))) ps →
  upload_consented s = true → uploadController (pub s) = None → inspectionController (pub s) = None → held l s →
  held l (on_runs (λ rs, rs <| uploads := us |> <| poolUploads := ps |>)
            (on_pub (λ p, p <| uploadController := Some (length (aborted s)) |>) (s <| aborted := aborted s ++ [false] |>))).
Proof.
  intros Hnew Hps Huc Hn Hin Hs. pose proof Hs as Hs'. apply (held_aborted l _ _ (new_more s)) in Hs'.
  destruct Hs' as ([((Hnd & Hl) & Hc' & Hu & Hrest) Hr] & (Hcu & Hcons) & Hrest'). split; [|split; [|exact Hrest']].
  - split; [|exact Hr]. split; [|split; [exact Hc'|split; [|exact Hrest]]].
    + destruct Hs as ([((Hnd0 & Hl0) & _) _] & _).
      destruct (fresh_number (length (aborted s)) _ _ Hnew Hnd0 Hl0) as [? Hlt]. split; [done|]. eapply Forall_impl; [exact Hlt|].
      cbn. rewrite length_app. cbn. lia.
    + eapply Forall_impl; [exact Hps|]. cbn. intros r [Hin'|[-> _]]; [exact (proj1 (Forall_forall _ _) Hu r Hin')|lia].
  - split; [|exact Hcons]. cbn. eapply Forall_impl; [exact Hps|]. cbn. intros r [Hin'|[_ E]] Hlv.
    + destruct (proj1 (Forall_forall _ _) Hcu r Hin' Hlv) as (E & _). cbn in E. congruence.
    + split; [by rewrite E|]. by split.
Qed.

Lemma begin_file_upload l r s : up_controller r = length (aborted s) →
  upload_consented s = true → uploadController (pub s) = None → inspectionController (pub s) = None → held l s →
  held l (on_runs (λ rs, rs <| uploads := uploads rs ++ [r] |>)
            (on_pub (λ p, p <| uploadController := Some (length (aborted s)) |>) (s <| aborted := aborted s ++ [false] |>))).
Proof.
  intros Hc Huc Hn Hi Hs. apply (begin_upload l (uploads (runs s) ++ [r]) (poolUploads (runs s)) s); try done.
  - unfold up_controllers. rewrite map_app. cbn. rewrite Hc, <- !app_assoc. apply Permutation_app_head, Permutation_app_comm.
  - apply Forall_forall. auto.
Qed.

Lemma begin_pool_upload l r s : pu_controller r = length (aborted s) → pu_revision r = publicationRevision (pub s) →
  upload_consented s = true → uploadController (pub s) = None → inspectionController (pub s) = None → held l s →
  held l (on_runs (λ rs, rs <| poolUploads := poolUploads rs ++ [r] |>)
            (on_pub (λ p, p <| uploadController := Some (length (aborted s)) |>) (s <| aborted := aborted s ++ [false] |>))).
Proof.
  intros Hc Hv Huc Hn Hi Hs. apply (begin_upload l (uploads (runs s)) (poolUploads (runs s) ++ [r]) s); try done.
  - unfold up_controllers. rewrite map_app, app_assoc, <- Hc. done.
  - apply Forall_app. split; [apply Forall_forall; auto|]. constructor; [by right|constructor].
Qed.

Lemma inspected_settled l s : held l s → is_Some (inspected (pub s)) → inspectionController (pub s) = None.
Proof.
  intros ([(_ & _ & _ & _ & _ & Hi) _] & _) [x E]. destruct (inspectionController (pub s)); [|done]. rewrite Hi in E; done.
Qed.

Lemma upload_parts_goes l n r receipt s s0 : poolUploads (runs s) !! n = Some r → pu_stage r ≠ PoolUploadOver →
  permitted s0 (UploadsPool receipt (pu_owner r)) → held l s → goes l s0 (upload_parts n r receipt s).
Proof.
  intros Hr Hst Hc Hs. unfold upload_parts. cbv zeta. right. exists (UploadsPool receipt (pu_owner r)). split; [|exact Hc]. apply starts_held.
  apply pool_uploads_moved; [done| |exact Hs]. intros v Hv Hv'. cbn in Hv. rewrite Hr in Hv. injection Hv as <-. done.
Qed.

Lemma uploadPreparedPool_goes l nostr s : C s (ClickUpload nostr) → held l s → upload_consented s = true → uploadController (pub s) = None →
  is_Some (inspected (pub s)) → goes l s (uploadPreparedPool nostr s).
Proof.
  intros Hclick Hs Hc Hn Hi. unfold uploadPreparedPool. destruct (preparedPool (pub s)) as [prepared|] eqn:Ep; [|by left].
  destruct (pubkey s) as [owner|] eqn:Ek; [|by left]. destruct (signer_there nostr s); [|by left]. unfold new_controller. cbv zeta.
  set (r := mkPoolUpload _ _ _ _ _). pose proof (inspected_settled l s Hs Hi) as Hic.
  pose proof (begin_pool_upload l r s eq_refl eq_refl Hc Hn Hic Hs) as Ht.
  set (t := on_runs (λ rs, rs <| poolUploads := _ |>) _). assert (held l t) as Ht' by exact Ht. clear Ht.
  change (publishedPool (pub t)) with (publishedPool (pub s)). destruct (publishedPool (pub s)) as [receipt|] eqn:Epub.
  - apply upload_parts_goes; try done; [unfold t; cbn; by apply list_lookup_middle|].
    left. split; [done|]. exists s, nostr, prepared. split_and!; [done..|by left].
  - right. eexists. split; [by apply starts_held|]. cbn. rewrite Ep, Ek. split; [done|]. by left.
Qed.

Lemma uploadFile_goes l nostr s : C s (ClickUpload nostr) → held l s → goes l s (uploadFile nostr s).
Proof.
  intros Hclick Hs. unfold uploadFile. destruct (inspected (pub s)) as [selected|] eqn:Ei; [|by left]. destruct (pubkey s) as [key|] eqn:Ek; [|by left].
  destruct (_ || _) eqn:E; [by left|]. all_false E.
  destruct (bool_decide (storageMode (form s) = SingleNode)) eqn:Em; cbn [negb].
  - apply bool_decide_eq_true in Em. destruct (signer_there nostr s); cbn [negb]; [|by left]. cbv zeta.
    destruct (normaliseBlossomServer _ _) as [server|] eqn:Es; [|by left].
    destruct (if bool_decide (profile s = direct) then _ else _) as [selectedTrackers|]; [|by left]. unfold new_controller. cbv zeta. right.
    exists (Uploads selected.2 server key (profile s)). split.
    + apply starts_held.
      exact (begin_file_upload l (mkUpload (length (aborted s)) (publicationRevision (pub s)) selected key (profile s) (external_chosen (form s)) server selectedTrackers Uploading)
               s eq_refl E ltac:(done) (inspected_settled l s Hs ltac:(rewrite Ei; done)) Hs).
    + cbn. rewrite Ei. by split_and!.
  - apply uploadPreparedPool_goes; done.
Qed.

Lemma pool_upload_settles_goes l n world s : traces C s → held l s → goes l s (pool_upload_settles n world s).
Proof.
  intros (Htr & _) Hs. unfold pool_upload_settles. destruct (poolUploads (runs s) !! n) as [r|] eqn:Hr; [|by left]. cbv zeta.
  assert (held l (pool_upload_over n r s)) as Hov by by apply pool_upload_over_held.
  destruct (pu_stage r) as [|receipt options|] eqn:Est; [| |by left].
  - destruct (Pool.signPool _ _ _) as [w [|receipt]] eqn:Esign; cbn [snd]; [by left|]. destruct (_ || _) eqn:E; [by left|]. all_false E.
    apply upload_parts_goes; try done; [by rewrite Est|]. left. split.
    + destruct Hs as (_ & (Hcu & _) & _). apply (proj1 (Forall_lookup _ _) Hcu n r Hr). split_and!; [by rewrite Est|done..].
    + destruct (proj1 (Forall_lookup _ _) Htr n r Hr) as (s0 & nostr & ? & ? & ?). exists s0, nostr, (pu_prepared r). split_and!; [done..|].
      right. exists world. by rewrite Esign.
  - left. destruct (Pool.uploadPool _ _ _ _ _).2 as [|report]; [done|]. destruct (_ || _); [done|]. apply pool_upload_over_held; [done|exact Hs].
Qed.

(** ** Retrievals start *)

Definition tor_is (b : bool) (s : Page) : Prop := tor_chosen (form s) = b.
#[local] Instance abort_opt_tor b c : Keeps (tor_is b) (abort_opt c).
Proof. intros s. by apply abort_opt_keeps. Qed.
#[local] Instance background_tor b session kind : Keeps (tor_is b) (confirmPeerStoppedInBackground session kind).
Proof. intros s Hs. destruct kind; exact Hs. Qed.
#[local] Instance abandon_tor b : Keeps (tor_is b) abandonExternalSigning.
Proof. by intros s. Qed.
#[local] Instance resetResolution_tor b : Keeps (tor_is b) resetResolution.
Proof. handler (tor_is b) resetResolution. Qed.

Lemma resolveEvent_goes l s : page_retr s → held l s → goes l s (resolveEvent s).
Proof.
  intros Hp Hs. unfold resolveEvent. destruct (assertTorReady s) eqn:Et; cbn [negb]; [|by left].
  destruct (assertHex64 _ _) as [eventId|] eqn:Eh; [|by left]. destruct (relays s) as [targets|] eqn:Er; [|by left]. right.
  assert (tor_is (tor_chosen (form s)) (resetResolution s)) as Etor by by apply resetResolution_tor.
  exists (LooksUp targets eventId (profile (resetResolution s))). split.
  - pose proof (resetResolution_held l s Hp Hs) as Hv. revert Hv. clear. generalize (resetResolution s). intros v Hv.
    apply (new_controller_held l) in Hv. revert Hv. unfold new_controller. cbn [fst].
    change (profile v) with (profile (v <| aborted := aborted v ++ [false] |>)). generalize (v <| aborted := aborted v ++ [false] |>).
    intros t Ht. apply starts_held. keep (held l).
  - split; [done|]. split; [unfold profile; by rewrite Etor|]. by split.
Qed.

(** Nothing is downloaded: nothing repairs. *)
Lemma idle_unrepaired l s : page_retr s → held l s → downloadController (ret s) = None → unrepaired s.
Proof.
  intros Hp [Hb _] Hd. apply Forall_forall. intros r Hin Hlv. destruct (current_repair s r Hp Hb Hin Hlv) as [E _]. congruence.
Qed.

Lemma begin_pool l repair ps s : unrepaired s → held l s →
  Forall (λ r, r ∈ poolRuns (runs s) ∨ (repairing r = true → pl_revision r = resolutionRevision (ret s) ∧ repairPoolConsent (form s) = true ∧
                 repair = true ∧ assertTorReady s = true)) ps →
  held l (on_runs (λ rs, rs <| poolRuns := ps |>)
    (on_ret (λ r, r <| downloadController := Some (length (aborted s)) |> <| downloadTransport := Some ByBlossom |> <| poolRepairInProgress := repair |>)
       (s <| aborted := aborted s ++ [false] |>))).
Proof.
  intros Hn Hs Hps. apply (held_aborted l _ _ (new_more s)) in Hs. apply (unrepaired_aborted _ _ (new_more s)) in Hn.
  destruct Hs as ([Hb Hr] & Hc & Hcr & Ho). split; [|split; [exact Hc|split; [|exact Ho]]].
  - split; [exact Hb|]. eapply Forall_impl; [exact Hps|]. cbn. intros r [Hin|Hnew] [Hst Ha]; [|by apply Hnew].
    destruct (proj1 (Forall_forall _ _) Hn r Hin). by split.
  - eapply Forall_impl; [exact Hps|]. cbn. intros r [Hin|Hnew] [Hst Ha]; [destruct (proj1 (Forall_forall _ _) Hn r Hin); by split|].
    destruct (Hnew Hst) as (_ & ? & ? & ?). by split_and!.
Qed.

Lemma alter_last {A} (f : A → A) (k : list A) x : alter f (length k) (k ++ [x]) = k ++ [f x].
Proof. induction k as [|y k IH]; [done|]. cbn. f_equal. exact IH. Qed.

Lemma lookup_last {A} (k : list A) x : (k ++ [x]) !! length k = Some x.
Proof. by apply list_lookup_middle. Qed.

Lemma read_pool_goes l n r receipt s s0 : (∀ v, poolRuns (runs s) !! n = Some v → repairing v = true) → held l s →
  permitted s0 (FetchesPool receipt) → goes l s0 (read_pool n r receipt s).
Proof.
  intros Hr Hs Hp. right. exists (FetchesPool receipt). split; [|exact Hp]. unfold read_pool. apply starts_held, pools_moved; [done| |done].
  intros v Hv _. by apply Hr.
Qed.

(** The rest of a repair's click, on the page with its new run. *)
Lemma repair_goes l n r receipt nostr s t : held l t → poolRuns (runs t) !! n = Some r → pl_stage r = ReadingPool →
  (∀ m v, m ≠ n → poolRuns (runs t) !! m = Some v → ¬ live_repair t v) → form t = form s → resolvedPool (ret s) = Some receipt →
  assertTorReady s = true → repairPoolConsent (form s) = true → pubkey s = Some (receipt_author receipt) →
  goes l s (if bool_decide (trim (poolReplacements (form t)) = []) then read_pool n r receipt t
            else match Pool.extendPool (Pool.r_manifest receipt) (poolReplacements (form t)) with
                 | Throw _ => pool_over n r t
                 | Ok manifest =>
                     if signer_there nostr t then
                       starts (SignsReceipt manifest (receipt_author receipt)) (set_pool_run n (λ r, r <| pl_stage := SigningReplacements manifest |>) t)
                     else pool_over n r t
                 end).
Proof.
  intros Ht Hr Hst Hno Ef Eq Etor Ec Ek. rewrite Ef.
  assert (repairing r = true) as Hrep by by unfold repairing; rewrite Hst.
  assert (held l (pool_over n r t)) as Hov.
  { apply pool_over_alone; [done| |done]. intros m v Hne Hv Hlv. by destruct (Hno m v Hne Hv). }
  case_bool_decide.
  - apply read_pool_goes; [|done|by split; [|left]]. intros v Hv. rewrite Hr in Hv. by injection Hv as <-.
  - destruct (Pool.extendPool _ _) as [manifest|] eqn:Ee; [|by left]. destruct (signer_there nostr t); [|by left]. right.
    exists (SignsReceipt manifest (receipt_author receipt)). split.
    + apply starts_held, pools_moved; [done| |done]. intros v Hv _. rewrite Hr in Hv. by injection Hv as <-.
    + split; [done|]. right. split; [done|]. split; [done|]. by exists receipt.
Qed.

Lemma retrievePool_goes l repair nostr s : page_retr s → held l s → goes l s (retrievePool repair nostr s).
Proof.
  intros Hp Hs. unfold retrievePool. destruct (resolvedPool (ret s)) as [receipt|] eqn:Eq; [|by left]. cbv zeta.
  destruct (_ || _) eqn:E; [by left|]. all_false E. destruct (repair && _) eqn:Erep; [by left|]. destruct (negb repair && _) eqn:Ekey; [by left|].
  pose proof (idle_unrepaired l s Hp Hs ltac:(done)) as Hn. unfold new_controller. cbv zeta.
  set (r := mkPoolRun _ _ _ _ _ _ _). destruct repair; cbn [andb negb] in *.
  - all_false Erep.
    assert (held l (on_runs (λ rs, rs <| poolRuns := poolRuns (runs s) ++ [r] |>)
      (on_ret (λ r, r <| downloadController := Some (length (aborted s)) |> <| downloadTransport := Some ByBlossom |> <| poolRepairInProgress := true |>)
       (s <| aborted := aborted s ++ [false] |>)))) as Ht.
    { apply begin_pool; try done. apply Forall_app. split; [apply Forall_forall; auto|]. constructor; [|constructor]. right. done. }
    set (t := on_runs (λ rs, rs <| poolRuns := poolRuns rs ++ [r] |>) _). assert (held l t) as Ht' by exact Ht. clear Ht.
    apply (repair_goes l (length (poolRuns (runs s))) r receipt nostr s t); try done; [apply lookup_last|].
    intros m v Hne Hv. apply (unrepaired_aborted _ _ (new_more s)) in Hn. apply lookup_app_Some in Hv as [Hv|[Hm Hv]].
    + exact (proj1 (Forall_lookup _ _) Hn m v Hv).
    + apply list_lookup_singleton_Some in Hv as [Hm' _]. cbn in Hm, Hm', Hne. lia.
  - right. exists (FetchesPool receipt). split; [|split; [done|by left]]. apply starts_held.
    assert (held l (on_runs (λ rs, rs <| poolRuns := poolRuns (runs s) ++ [r <| pl_stage := FetchingPool |>] |>)
      (on_ret (λ r, r <| downloadController := Some (length (aborted s)) |> <| downloadTransport := Some ByBlossom |> <| poolRepairInProgress := false |>)
       (s <| aborted := aborted s ++ [false] |>)))) as Ht.
    { apply begin_pool; try done. apply Forall_app. split; [apply Forall_forall; auto|]. constructor; [by right|constructor]. }
    rewrite <- (alter_last (λ r, r <| pl_stage := FetchingPool |>)) in Ht. exact Ht.
Qed.

Lemma pool_run_settles_goes l n world signal nostr s : traces C s → page_retr s → held l s → goes l s (pool_run_settles n world signal nostr s).
Proof.
  intros (_ & _ & _ & Htr) Hp Hs. unfold pool_run_settles. destruct (poolRuns (runs s) !! n) as [r|] eqn:Hr; [|by left]. cbv zeta.
  assert (held l (pool_over n r s)) as Hov by by apply pool_over_held.
  assert (repairing r = true → is_aborted s (pl_controller r) = false → repairPoolConsent (form s) = true ∧ assertTorReady s = true) as Hlive.
  { intros Hst Ha. destruct Hs as (_ & _ & Hcr & _). destruct (proj1 (Forall_lookup _ _) Hcr n r Hr) as (? & _ & ?); by split. }
  assert (repairing r = true → repair_began C r) as Horigin.
  { pose proof (proj1 (Forall_lookup _ _) Htr n r Hr) as Hb. unfold pool_began in Hb. unfold repairing. by destruct (pl_stage r). }
  destruct (pl_stage r) as [manifest| | | |ciphertext|] eqn:Est.
  - destruct (Pool.signPool _ _ _) as [w [|receipt]] eqn:Esign; cbn [snd]; [by left|]. destruct (_ || _) eqn:E; [by left|]. all_false E.
    destruct Hlive as [Hc Htor]; [by unfold repairing; rewrite Est|done|].
    apply read_pool_goes; [|clear -Hs; keep (held l)|].
    2:{ split; [done|]. right. split; [done|]. destruct Horigin as (s0 & b & receipt0 & ? & ? & ? & Hm); [by unfold repairing; rewrite Est|].
        rewrite Est in Hm. destruct Hm as [Erc Em]. exists s0, b, receipt0. split_and!; [done..|]. right. exists manifest, world.
        split; [done|]. by rewrite <- Erc, Esign. }
    intros v Hv. change (poolRuns (runs s) !! n = Some v) in Hv. rewrite Hr in Hv. injection Hv as <-. by unfold repairing; rewrite Est.
  - destruct (Pool.preparePoolRepair _ _ _).2 as [|prepared]; [by left|]. destruct (_ || _) eqn:E; [by left|]. all_false E. right.
    destruct Hlive as [Hc Htor]; [by unfold repairing; rewrite Est|done|].
    exists (UploadsPool (pl_receipt r) (receipt_author (pl_receipt r))). split; [by apply starts_held, pools_moved|]. right. split_and!; [done..| |done|].
    + destruct (proj1 (Forall_lookup _ _) (t_pool _ _ _ _ _ _ Hp) n r Hr) as [_ (_ & Hcur & _)]; [by rewrite Est|].
      apply Hcur. destruct Hs as ([_ Hrec] & _). apply (proj1 (Forall_lookup _ _) Hrec n r Hr). split; [by unfold repairing; rewrite Est|done].
    + destruct Horigin as (s0 & b & receipt0 & ? & ? & ? & Hm); [by unfold repairing; rewrite Est|]. rewrite Est in Hm. by exists s0, b, receipt0.
  - by left.
  - left. destruct (Pool.fetchPool _ _ _).2 as [|ciphertext]; [done|]. by apply pools_moved.
  - left. destruct (Envelope.decryptPrivacyEnvelope _ _ _) as [file|]; [|done]. destruct (_ || _); [done|].
    apply pool_over_alone; [done| |exact Hs]. intros m v. exact (no_other_repair n r s m v Hp (proj1 Hs) Hr).
  - by left.
Qed.

Lemma fetchBlossom_goes l s : page_retr s → held l s → goes l s (fetchBlossom s).
Proof.
  intros Hp Hs. unfold fetchBlossom. destruct (is_some (resolvedPool (ret s))); [by apply retrievePool_goes|].
  destruct (resolved (ret s)) as [selected|] eqn:Er; [|by left]. destruct (_ || _) eqn:E; [by left|]. all_false E. cbv zeta. right.
  exists (FetchesBlob selected.2 (trim (replicaInput (form s))) (profile s)). split; [|split; [done|]; by rewrite Er].
  apply (new_controller_held l) in Hs. revert Hs. unfold new_controller. cbn [fst].
  change (profile s) with (profile (s <| aborted := aborted s ++ [false] |>)). clear. generalize (s <| aborted := aborted s ++ [false] |>).
  intros t Ht. apply starts_held. keep (held l).
Qed.

Lemma join_swarm_held l n r s : held l s → held (l ++ [JoinsAsDownloader (sw_resolved r).2 (sw_profile r)]) (join_swarm n r s).
Proof.
  intros Hs. unfold join_swarm. apply (new_controller_held l) in Hs. revert Hs. unfold new_controller. cbn [fst].
  generalize (s <| aborted := aborted s ++ [false] |>). intros t Ht. apply starts_held. keep (held l).
Qed.

Lemma fetchSwarm_goes l s : held l s → goes l s (fetchSwarm s).
Proof.
  intros Hs. unfold fetchSwarm. destruct (resolved (ret s)) as [selected|] eqn:Er; [|by left]. destruct (_ || _) eqn:E; [by left|]. all_false E. cbv zeta.
  set (r := mkSwarm _ _ _ _ _).
  destruct (downloadSession _) as [session|]; [left; keep (held l)|]. right.
  exists (JoinsAsDownloader selected.2 (profile s)). split; [|cbn; rewrite Er; by split_and!].
  apply (join_swarm_held l _ r). exact Hs.
Qed.

Lemma swarm_resumes_goes l n ok s s0 : form s0 = form s → ret s0 = ret s → page_retr s → held l s → goes l s0 (swarm_resumes n ok s).
Proof.
  intros Ef Er Hp Hs. unfold swarm_resumes. destruct (swarms (runs s) !! n) as [r|] eqn:Hr; [|by left].
  destruct (sw_stage r) eqn:Est; try by left. destruct (_ || _) eqn:E; [left; exact (keeps s Hs)|]. all_false E. right.
  exists (JoinsAsDownloader (sw_resolved r).2 (sw_profile r)). split; [by apply join_swarm_held|].
  destruct (proj1 (Forall_lookup _ _) (t_swarm _ _ _ _ _ _ Hp) n r Hr) as (_ & Hres & _); [by rewrite Est|].
  unfold permitted, profile. rewrite Ef, Er, Hres by congruence. by split_and!.
Qed.

Lemma stop_settles_goes l n ok s : page_retr s → held l s → goes l s (stop_settles n ok s).
Proof.
  intros Hp Hs. unfold stop_settles. destruct (stops (runs s) !! n) as [r|]; [|by left]. destruct (st_over r); [by left|]. cbv zeta.
  assert (held l (peer_stopped n r ok s)) as Ht by exact (keeps s Hs). destruct (st_for r) as [run|]; [|by left].
  destruct ok.
  - apply swarm_resumes_goes; [unfold peer_stopped; by destruct (st_kind r)..|exact (keeps s Hp)|done].
  - left. unfold swarm_resumes. destruct (swarms _ !! run) as [v|]; [|done]. destruct (sw_stage v); done || exact (keeps _ Ht).
Qed.

(** ** Everything that can happen *)

Lemma settle_goes l e s : traces C s → page_retr s → held l s → goes l s (settle e s).
Proof.
  intros Htr Hp Hs. destruct e; cbn [settle].
  - left. exact (keeps s Hs).
  - left. exact (keeps s Hs).
  - left. exact (keeps s Hs).
  - by apply pool_upload_settles_goes.
  - left. exact (keeps s Hs).
  - left. exact (keeps s Hs).
  - by apply stop_settles_goes.
  - by apply sign_settles_goes.
  - by apply publish_settles_goes.
  - left. destruct (external_chosen (form s)); [exact (keeps s Hs)|done].
  - left. exact (keeps s Hs).
  - left. exact (keeps s Hs).
  - by apply pool_run_settles_goes.
  - left. exact (keeps s Hs).
  - left. exact (keeps s Hs).
  - left. exact (keeps s Hs).
  - left. exact (keeps s Hs).
  - left. exact (keeps s Hs).
Qed.

Lemma change_held l c s : page_retr s → held l s → held l (change c s).
Proof.
  intros Hp Hs. destruct c; cbn [change].
  - by apply profile_changes_held.
  - by apply signingMethod_changes_held.
  - by apply externalPubkey_typed_held.
  - by apply torConsent_changes_held.
  - by apply layout_changes_held.
  - by apply file_chosen_held.
  - by apply endpoint_changes_held.
  - by apply eventId_typed_held.
  - by apply savedEvent_typed_held.
  - by apply savedEventFile_chosen_held.
  - by apply protectFile_changes_held.
  - exact Hs.
  - exact Hs.
  - by apply poolReplacements_typed_held.
  - exact (keeps s Hs).
  - exact (keeps s Hs).
  - exact (keeps s Hs).
  - exact (keeps s Hs).
  - exact (keeps s Hs).
  - by apply repairPoolConsent_held.
Qed.

Lemma press_goes l b s : C s b → page_retr s → held l s → goes l s (press b s).
Proof.
  intros Hclick Hp Hs. destruct b; cbn [press].
  - by apply connectSigner_goes.
  - left. by apply inspectFile_held.
  - by apply uploadFile_goes.
  - left. exact (keeps s Hs).
  - by apply startSeeding_goes.
  - left. exact (keeps s Hs).
  - by apply signEvents_goes.
  - by apply publishEvents_goes.
  - left. exact (keeps s Hs).
  - left. exact (keeps s Hs).
  - by apply resolveEvent_goes.
  - left. by apply verifySavedEvent_held.
  - by apply fetchBlossom_goes.
  - by apply retrievePool_goes.
  - by apply fetchSwarm_goes.
  - left. exact (keeps s Hs).
Qed.

Lemma step_goes l s i : i ≠ PageShow true → (∀ b, i = Clicks b → disabled b s = false → C s b) → traces C s → page_retr s → held l s →
  goes l s (main_step s i).
Proof.
  intros Hi Hclick Htr Hp Hs. destruct i as [c|b|e|url|origin| | |persisted]; cbn [main_step].
  - left. destruct (enabled c s); [by apply change_held|done].
  - destruct (disabled b s) eqn:E; [by left|]. apply press_goes; auto.
  - destruct (from_outside e); [by apply settle_goes|by left].
  - left. exact Hs.
  - left. by apply endpoint_changes_held.
  - left. exact (keeps s Hs).
  - left. by apply endPageSession_held.
  - destruct persisted; [done|by left].
Qed.
End Starts.

Lemma run_goes inputs i l : let s := main_run first_page inputs in
  i ≠ PageShow true → page_retr s → held l s → goes (clicked (inputs ++ [i])) l s (main_step s i).
Proof.
  cbv zeta. intros Hi Hp Hs. apply step_goes; [done| |eapply traces_more; [|apply run_traces]; intros s b; apply clicked_more|done..].
  intros b -> Hd. by apply clicked_now.
Qed.

Lemma run_held inputs : page_retr (main_run first_page inputs) ∧ ∃ l, held l (main_run first_page inputs).
Proof.
  induction inputs as [|i inputs [Hp [l Hs]]] using rev_ind; [split; [apply first_retr|by exists []; apply first_held]|].
  assert (main_run first_page (inputs ++ [i]) = main_step (main_run first_page inputs) i) as -> by (unfold main_run; by rewrite foldl_app).
  split; [by apply MainRetrieveFacts.step_retr|].
  assert (i = PageShow true ∨ i ≠ PageShow true) as [->|Hi] by (destruct i as [| | | | | | |[]]; auto); [exists []; apply first_held|].
  destruct (run_goes inputs i l Hi Hp Hs) as [Ht|(o & Ht & _)]; eauto.
Qed.

(** C7: whatever the person, the signer, the servers, the peers and the browser
    do, in any order, whatever the page starts that others may see was agreed to
    at that moment. A file is uploaded, to one server or to a pool, only while its
    boxes are ticked (and that the recovery key was saved, where there is one),
    also when the upload goes on after a signature; events are published, one
    after another, only while publishing is; a pool is repaired, and a swarm joined
    or seeded, only while that is ticked; and over Tor no key is asked for, and
    nothing is uploaded, signed, published, looked up or fetched, before that was
    confirmed.

    What starts at a click is the file or the event that the page shows then, for
    the key that is connected and under the profile that is chosen. What goes on
    after an answer keeps to what stood on the page at the click that began it, on
    a button that was enabled: a further event of a publication is one of the
    events that were signed then, for the relays of that moment and under its
    profile, which is still the page's; the torrent's event is of the file and the
    descriptor of that moment, for the key connected then; the parts of a pool are
    uploaded for the key connected then, under the receipt that was published
    already or that the signer made of the pool prepared then; and a repair is of
    the receipt on the screen, begun with the key of that receipt's author, and
    goes on with the receipt shown at the click or with the one the signer made of
    it for the replacements typed then. *)
Theorem started_as_agreed inputs i :
  let s := main_run first_page inputs in
  Forall (permitted (clicked (inputs ++ [i])) s) (drop (length (ops s)) (ops (main_step s i))).
Proof.
  cbv zeta. destruct (run_held inputs) as (Hp & l & Hs).
  assert (ops (main_run first_page inputs) = l) as El by apply Hs.
  assert (i = PageShow true ∨ i ≠ PageShow true) as [->|Hi] by (destruct i as [| | | | | | |[]]; auto); [cbn; by rewrite drop_nil|].
  rewrite El. destruct (run_goes inputs i l Hi Hp Hs) as [(_ & _ & _ & ->)|(o & (_ & _ & _ & ->) & Ho)].
  - by rewrite drop_all.
  - rewrite drop_app_length. by constructor.
Qed.
End Facts.

(** ** An example *)

#[local] Existing Instances ascii_unicode NostrFacts.blob_web NostrFacts.no_fractions NostrFacts.trusting_tools BlossomFacts.hello_cipher
  BlossomFacts.hello_net BlossomFacts.hello_laws Torrent.example_library PoolFacts.in_order.

(** A key is typed and connected, a file is chosen and inspected as it is, a
    server is named, and the upload is agreed to. *)
Definition upload_inputs : list main_input :=
  [Changes (SigningRadio true); Changes (PubkeyTyped NostrFacts.example_key); Clicks (ClickConnect false);
   Settled (ConnectSettles 0 (Throw "Unused.")); Changes (ProtectBox false);
   Changes (FileChosen (Some (Net.mkFile (lit "hello") (lit "hello.txt") (lit "text/plain")))); Clicks ClickInspect;
   Settled (InspectSettles 0 (Net.mkState 0 []) (λ _, false) (Envelope.mkEntropy [] [] [] (λ _, 0)));
   Changes (Endpoint BlossomField (lit "https://example.com")); Changes (UploadBox true)].

Lemma started_as_agreed_witness :
  let s := main_run first_page upload_inputs in
  drop (length (ops s)) (ops (main_step s (Clicks (ClickUpload false))))
    = [Uploads BlossomFacts.hello_file (lit "https://example.com") NostrFacts.example_key direct] ∧
  Forall (permitted (clicked (upload_inputs ++ [Clicks (ClickUpload false)])) s) (drop (length (ops s)) (ops (main_step s (Clicks (ClickUpload false))))).
Proof. split; [vm_compute; reflexivity|exact (started_as_agreed upload_inputs (Clicks (ClickUpload false)))]. Defined.
