(* ===== verification/ServicesPanel.v ===== *)
(** * The storage services panel ([services-ui.ts])

    What drives node discovery, the directory of storage services, the paid
    checkout and the storage audits. A click starts at most one action; an
    action is cut at its awaits, and what an await comes to is the code of the
    other files, run in whatever world the event brings. The status line and the
    texts are only written and are left out: what a part of the panel shows is
    kept as the value it is made from. *)

From S2P Require Import Prelude JsString Utf8 Bytes Json JsValue Security.
From S2P Require Nostr Net Envelope Relay Pool Discovery ServicesHttp Checkout StorageDirectory StorageProof.

(** ** The context *)

(** What [context] answers at the time. [cx_buyer] is the connected key, if the
    page can sign at all. *)
Record Context := mkContext {
  cx_profile : NetworkProfile; cx_ready : bool; cx_relays : res (list jstr); cx_buyer : option jstr; cx_origin : jstr;
  cx_resolved : option Nostr.ResolvedHybridEvent; cx_pool : option Pool.PoolReceipt }.

(** What it is asked to do. *)
Inductive context_call : Type := CancelsSigning | SelectsOrigin (origin : jstr).

(** [crypto.randomUUID()], by the number of the call. *)
Class Uuids := { randomUUID : nat → jstr }.

(** ** Data *)

(** What [createOrder] is called with. *)
Record QuoteRequest := mkQuoteRequest {
  qr_offers : Checkout.Offers; qr_plan : jstr; qr_rail : Checkout.Rail; qr_issuer : option jstr; qr_buyer : jstr; qr_id : jstr;
  qr_renews : option jstr; qr_refundTo : option jstr }.

(** One target of an audit. *)
Record Job := mkJob { job_file : Nostr.ResolvedHybridEvent; job_origin : jstr }.
Record AuditFailure := mkFailure { fl_origin : jstr; fl_sha256 : jstr; fl_stage : string; fl_reason : jstr }.

(** What the panel starts that others may see, in order. *)
Inductive service_op : Type :=
  | FindsNodes (relays keys : list jstr) | FindsServices (relays : list jstr) | AsksDescription (origin : jstr)
  | SignsServerList (template : Nostr.EventTemplate) (owner : jstr) | PublishesServerList (relays : list jstr) (event : Nostr.SignedNostrEvent)
  | AsksOffers (origin : jstr) | AsksQuote (request : QuoteRequest)
  | Acts (order : Checkout.Order) (action : Checkout.OrderAction) (buyer : jstr) (note : option jstr)
  | Recovers (reference : Checkout.OrderReference) (buyer : jstr) | Audits (job : Job) (buyer : jstr).

(** Where an action awaits. *)
Inductive work_stage : Type :=
  | FindingNodes (relays keys : list jstr) | FindingServices (relays : list jstr)
  | Describing (announcement : StorageDirectory.ParsedStorageAnnouncement) (origin : jstr)
  | SigningList (template : Nostr.EventTemplate) (owner : jstr) | PublishingList
  | LoadingOffers (origin : jstr) | Quoting (request : QuoteRequest)
  | Acting (order : Checkout.Order) (action : Checkout.OrderAction) (buyer : jstr) (note : option jstr)
  | Recovering (reference : Checkout.OrderReference) (buyer : jstr)
  | Auditing (job : Job) (rest : list Job) (buyer : jstr) (proofs : list StorageProof.StorageAudit) (failures : list AuditFailure)
  | WorkOver.

Record Work := mkWork { wk_version : nat; wk_controller : nat; wk_profile : NetworkProfile; wk_stage : work_stage }.
#[export] Instance Work_eta : Eta Work := λ w, mkWork (wk_version w) (wk_controller w) (wk_profile w) (wk_stage w).

(** What is offered to save. *)
Inductive document : Type :=
  | OrderDocument (reference : Checkout.OrderReference) | ReceiptDocument (receipt : json)
  | AuditDocument (proofs : list StorageProof.StorageAudit) (failures : list AuditFailure).

(** What stands where the payment is. *)
Inductive payment_shown : Type :=
  | NoPayment | PayInvoice (invoice : jstr) | RefundIsPending | RefundOwed (refund_to : option jstr) | RefundCompleted | Reconcile
  | Activated.

(** A row of the found services: [true] while it can be chosen. *)
Definition Listing : Type := (StorageDirectory.ParsedStorageAnnouncement * jstr * bool)%type.

(** ** The panel *)

(** The fields and the boxes; of a list of choices, the values it holds too. *)
Record Fields := mkFields {
  plan : jstr; plans : list jstr; method : option Checkout.Rail; methods : list Checkout.Rail; issuer : jstr; issuers : list jstr;
  note : jstr; consent : bool; reference : jstr; refundTo : jstr; discoveryKeys : jstr; renews : jstr; proofConsent : bool;
  listConsent : bool }.
#[export] Instance Fields_eta : Eta Fields := λ f,
  mkFields (plan f) (plans f) (method f) (methods f) (issuer f) (issuers f) (note f) (consent f) (reference f) (refundTo f)
    (discoveryKeys f) (renews f) (proofConsent f) (listConsent f).

(** What is shown. *)
Record Shown := mkShown {
  sh_nodes : list Discovery.DiscoveredNode; sh_listings : list Listing;
  sh_selection : option (StorageDirectory.ParsedStorageAnnouncement * jstr); sh_description : option StorageDirectory.StorageServiceDescription;
  sh_offer : option (Checkout.Offers * Checkout.Offer); sh_quote : option Checkout.Order; sh_links : list (nat * document);
  sh_payment : payment_shown; sh_audit : option (nat * nat * list AuditFailure); sh_auditLink : option (nat * document) }.
#[export] Instance Shown_eta : Eta Shown := λ v,
  mkShown (sh_nodes v) (sh_listings v) (sh_selection v) (sh_description v) (sh_offer v) (sh_quote v) (sh_links v) (sh_payment v)
    (sh_audit v) (sh_auditLink v).

(** [requestId] is the number of the call that drew it. [works], [aborted], [ops]
    and [calls] are the actions, the signals by number, what was started and what
    was asked of the context. *)
Record Panel := mkPanel {
  fields : Fields; shown : Shown; offers : option Checkout.Offers; order : option Checkout.Order; requestId : nat; drawn : nat;
  controller : option nat; revision : nat; directory : StorageDirectory.Watermarks;
  selectedService : option (StorageDirectory.ParsedStorageAnnouncement * jstr);
  checkedService : option StorageDirectory.StorageServiceDescription; urls : list nat; url_count : nat; disabled : bool;
  aborted : list bool; works : list Work; ops : list service_op; calls : list context_call }.
#[export] Instance Panel_eta : Eta Panel := λ p,
  mkPanel (fields p) (shown p) (offers p) (order p) (requestId p) (drawn p) (controller p) (revision p) (directory p) (selectedService p)
    (checkedService p) (urls p) (url_count p) (disabled p) (aborted p) (works p) (ops p) (calls p).

Definition on_fields (f : Fields → Fields) (p : Panel) : Panel := p <| fields := f (fields p) |>.
Definition shows (f : Shown → Shown) (p : Panel) : Panel := p <| shown := f (shown p) |>.
Definition asks_for (o : service_op) (p : Panel) : Panel := p <| ops := ops p ++ [o] |>.
Definition calls_for (c : context_call) (p : Panel) : Panel := p <| calls := calls p ++ [c] |>.

Definition nothing_shown : Shown := mkShown [] [] None None None None [] NoPayment None None.

(** The panel as it is mounted: the rails are those of the document. *)
Definition first_fields : Fields :=
  mkFields [] [] (Some Checkout.Lightning) [Checkout.Lightning; Checkout.Lnurlcash] [] [] [] false [] [] [] [] false false.
Definition first_panel : Panel :=
  mkPanel first_fields nothing_shown None None 0 1 None 0 [] None None [] 0 false [] [] [] [].

(** ** Helpers of the module *)

Definition is_aborted (p : Panel) (c : nat) : bool := default false (aborted p !! c).
Definition abort_opt (c : option nat) (p : Panel) : Panel :=
  match c with Some c => p <| aborted := <[c := true]> (aborted p) |> | None => p end.

Definition draw_id (p : Panel) : Panel := p <| requestId := drawn p |> <| drawn := S (drawn p) |>.

Definition enable_buttons (p : Panel) : Panel := p <| disabled := false |>.

(** [revision++; controller?.abort(); controller = null] *)
Definition supersede (p : Panel) : Panel :=
  abort_opt (controller p) (p <| revision := S (revision p) |>) <| controller := None |>.

(** [replaceChildren] of a list of choices: the first one is chosen. *)
Definition set_plans (l : list jstr) : Panel → Panel := on_fields (λ f, f <| plans := l |> <| plan := default [] (head l) |>).
Definition set_methods (l : list Checkout.Rail) : Panel → Panel := on_fields (λ f, f <| methods := l |> <| method := head l |>).
Definition set_issuers (l : list jstr) : Panel → Panel := on_fields (λ f, f <| issuers := l |> <| issuer := default [] (head l) |>).

(** [note.value = ""; consent.checked = false] *)
Definition withdraw (p : Panel) : Panel := on_fields (λ f, f <| note := [] |> <| consent := false |>) p.

(** [download]: an object URL is made for the document. *)
Definition download (d : document) (p : Panel) : Panel * (nat * document) :=
  (p <| urls := urls p ++ [url_count p] |> <| url_count := S (url_count p) |>, (url_count p, d)).
Definition save_link (d : document) (p : Panel) : Panel :=
  let '(p, link) := download d p in shows (λ v, v <| sh_links := sh_links v ++ [link] |>) p.

(** The three outputs of an order are emptied. *)
Definition clear_order_shown : Panel → Panel :=
  shows (λ v, v <| sh_quote := None |> <| sh_links := [] |> <| sh_payment := NoPayment |>).

(** What the last of the outputs writes; [now] is in milliseconds. *)
Definition payment_of (o : Checkout.Order) (now : Z) : payment_shown :=
  let state (name : string) := eqb (Checkout.or_state o) (lit name) in
  if state "active" then Activated
  else if state "invoice_pending" || state "lnurl_pending" || state "settled" then Reconcile
  else if state "refunded" then RefundCompleted
  else if state "refund_required" then
    match Checkout.or_refund o with
    | Some r => if bool_decide (Checkout.rf_status r = Checkout.Pending) then RefundIsPending else RefundOwed (Checkout.q_refund_to (Checkout.or_quote o))
    | None => RefundOwed (Checkout.q_refund_to (Checkout.or_quote o))
    end
  else match Checkout.or_invoice o with
       | Some invoice =>
           if state "awaiting_payment" && (now <? Checkout.q_expires_at (Checkout.or_quote o) * 1000) then PayInvoice invoice else NoPayment
       | None => NoPayment
       end.

Section Panel.
Context `{Unicode} `{Web} `{Numbers} `{Nostr.NostrTools} `{Envelope.Cipher} `{Net.Net} `{!ServicesHttp.BuyerSigner}.
Context `{Checkout.Invoices} `{StorageDirectory.Announcements} `{!StorageProof.Randomness} `{Uuids}.

(** [renderOrder()] *)
Definition render_order (now : Z) (p : Panel) : Panel :=
  match order p with
  | None => p
  | Some o =>
      let p := shows (λ v, v <| sh_quote := Some o |> <| sh_links := [] |>) p in
      let p := save_link (OrderDocument (Checkout.orderReference o)) p in
      let p := if bool_decide (is_Some (Checkout.or_receipt o)) || bool_decide (is_Some (Checkout.or_refund o))
               then match Checkout.customerReceipt o with Ok receipt => save_link (ReceiptDocument receipt) p | Throw _ => p end else p in
      shows (λ v, v <| sh_payment := payment_of o now |>) p
  end.

(** [showOffer()] *)
Definition showOffer (p : Panel) : Panel :=
  shows (λ v, v <| sh_offer := os ← offers p; o ← List.find (λ o, eqb (Checkout.of_id o) (plan (fields p))) (Checkout.os_offers os); Some (os, o) |>) p.

Definition reset (p : Panel) : Panel :=
  let p := supersede p in
  let p := draw_id (p <| offers := None |> <| order := None |> <| selectedService := None |> <| checkedService := None |>) in
  let p := on_fields (λ f, f <| reference := [] |> <| refundTo := [] |> <| discoveryKeys := [] |> <| renews := [] |>
                             <| proofConsent := false |> <| listConsent := false |>) (withdraw p) in
  let p := set_issuers [] (set_plans [] (p <| urls := [] |>)) in
  enable_buttons (p <| shown := nothing_shown |>).

(** [context.selectOrigin(origin)]: the page takes the origin as if it had been
    typed, and both of its resets reset the panel. *)
Definition selectOrigin (origin : jstr) (p : Panel) : Panel := reset (reset (calls_for (SelectsOrigin origin) p)).

(** ** Actions *)

(** The [finally] of an action. *)
Definition finish (version : nat) (p : Panel) : Panel :=
  if Nat.eqb (revision p) version then enable_buttons (p <| controller := None |>) else p.

(** [current()] does not throw. *)
Definition work_current (w : Work) (p : Panel) : bool := negb (is_aborted p (wk_controller w)) && Nat.eqb (revision p) (wk_version w).

Definition set_work (n : nat) (st : work_stage) (p : Panel) : Panel := p <| works := alter (λ w, w <| wk_stage := st |>) n (works p) |>.
Definition end_work (n : nat) (w : Work) (p : Panel) : Panel := finish (wk_version w) (set_work n WorkOver p).

(** An action that throws before it awaits, or never awaits. *)
Definition at_once (p : Panel) : Panel := finish (revision p) p.

(** An action awaits. *)
Definition awaits (cx : Context) (o : service_op) (st : work_stage) (p : Panel) : Panel :=
  match controller p with
  | Some c => asks_for o (p <| works := works p ++ [mkWork (revision p) c (cx_profile cx) st] |>)
  | None => p
  end.

Definition options_of (profile : NetworkProfile) : ServicesHttp.ServiceOptions := ServicesHttp.mkServiceOptions profile None.

(** [value.trim().split(/\s+/u)] *)
Definition words_of (s : jstr) : list jstr := match List.filter non_empty (split is_space (trim s)) with [] => [[]] | l => l end.

Inductive action_button : Type :=
  | DiscoverNodes | DiscoverServices | InspectService | UseService | PublishList | CheckoutOffers | CheckoutQuote | CheckoutPay
  | CheckoutCheck | CheckoutRecover | AuditStorage.

Definition discover_nodes (cx : Context) (p : Panel) : Panel :=
  let keys := words_of (discoveryKeys (fields p)) in
  match (let! relays := cx_relays cx in let! _ := Discovery.discovery_plan relays keys (cx_profile cx) in Ok relays) with
  | Ok relays => awaits cx (FindsNodes relays keys) (FindingNodes relays keys) p
  | Throw _ => at_once p
  end.

Definition discover_services (cx : Context) (p : Panel) : Panel :=
  let p := p <| selectedService := None |> <| checkedService := None |> <| offers := None |> <| order := None |> in
  let p := clear_order_shown (set_plans [] (withdraw p)) in
  let p := shows (λ v, v <| sh_selection := None |> <| sh_description := None |> <| sh_offer := None |>) p in
  match cx_relays cx with
  | Ok relays => awaits cx (FindsServices relays) (FindingServices relays) p
  | Throw _ => at_once p
  end.

Definition inspect_service (cx : Context) (p : Panel) : Panel :=
  match selectedService p with
  | None => at_once p
  | Some (announcement, origin) =>
      let p := clear_order_shown (set_plans [] (withdraw (p <| offers := None |> <| order := None |>))) in
      let p := shows (λ v, v <| sh_offer := None |> <| sh_description := None |>) (p <| checkedService := None |>) in
      awaits cx (AsksDescription origin) (Describing announcement origin) p
  end.

(** A paid service that accepts. *)
Definition paid_and_accepting (d : StorageDirectory.StorageServiceDescription) : bool :=
  existsb (λ s, StorageDirectory.service_is "type" "paid-storage" s && StorageDirectory.service_is "availability" "accepting" s)
    (StorageDirectory.sd_services d).

(** [now] is in milliseconds. *)
Definition use_service (now : Z) (p : Panel) : Panel :=
  match selectedService p, checkedService p with
  | Some (announcement, origin), Some checked =>
      if negb (eqb (StorageDirectory.sd_state checked) (lit "published")) || (StorageDirectory.sd_expires_at checked * 1000 <=? now)
         || negb (paid_and_accepting checked)
      then at_once p
      else
        let version := revision p in
        let p := selectOrigin origin p in
        let p := p <| selectedService := Some (announcement, origin) |> <| checkedService := Some checked |> in
        finish version (shows (λ v, v <| sh_selection := Some (announcement, origin) |>) p)
  | _, _ => at_once p
  end.

Definition publish_list (cx : Context) (now : Z) (p : Panel) : Panel :=
  if negb (listConsent (fields p)) then at_once p
  else match cx_buyer cx, Discovery.buildServerList [cx_origin cx] (cx_profile cx) now with
       | Some owner, Ok template => awaits cx (SignsServerList template owner) (SigningList template owner) p
       | _, _ => at_once p
       end.

Definition checkout_offers (cx : Context) (p : Panel) : Panel :=
  if bool_decide (is_Some (selectedService p)) && negb (bool_decide (is_Some (checkedService p))) then at_once p
  else
    let p := clear_order_shown (set_plans [] (withdraw (p <| offers := None |> <| order := None |>))) in
    awaits cx (AsksOffers (cx_origin cx)) (LoadingOffers (cx_origin cx)) (shows (λ v, v <| sh_offer := None |>) p).

Definition not_blank (s : jstr) : option jstr := let s := trim s in if bool_decide (s = []) then None else Some s.

(** [now] is in milliseconds. *)
Definition checkout_quote (cx : Context) (now : Z) (p : Panel) : Panel :=
  match offers p with
  | None => at_once p
  | Some os =>
      let f := fields p in
      let expired := match checkedService p with Some d => StorageDirectory.sd_expires_at d * 1000 <=? now | None => true end in
      let supportsRefunds := negb (bool_decide (Checkout.os_features os = [])) in
      let refundAddress := if supportsRefunds then not_blank (refundTo f) else None in
      if bool_decide (is_Some (selectedService p)) && expired then at_once p
      else if bool_decide (method f = Some Checkout.Lnurlcash) && supportsRefunds && negb (bool_decide (is_Some refundAddress)) then at_once p
      else match method f, cx_buyer cx with
           | Some rail, Some buyer =>
               let request := mkQuoteRequest os (plan f) rail (if bool_decide (rail = Checkout.Lnurlcash) then Some (issuer f) else None) buyer
                                (randomUUID (requestId p)) (not_blank (renews f)) refundAddress in
               awaits cx (AsksQuote request) (Quoting request) p
           | _, _ => at_once p
           end
  end.

Definition rail_action (r : Checkout.Rail) : Checkout.OrderAction :=
  match r with Checkout.Lightning => Checkout.PayLightning | Checkout.Lnurlcash => Checkout.PayLnurlcash end.

(** An action on the order that is shown, with its consent. *)
Definition act_on_order (cx : Context) (action : Checkout.Order → Checkout.OrderAction) (paymentNote : option jstr) (p : Panel) : Panel :=
  match order p, cx_buyer cx with
  | Some o, Some buyer =>
      if consent (fields p) then awaits cx (Acts o (action o) buyer paymentNote) (Acting o (action o) buyer paymentNote) p else at_once p
  | _, _ => at_once p
  end.

Definition checkout_pay (cx : Context) (p : Panel) : Panel :=
  let paymentNote := note (fields p) in
  act_on_order cx (λ o, rail_action (Checkout.q_rail (Checkout.or_quote o))) (Some paymentNote) (on_fields (λ f, f <| note := [] |>) p).

Definition checkout_check (cx : Context) (p : Panel) : Panel := act_on_order cx (λ _, Checkout.CheckOrder) None p.

Definition checkout_recover (cx : Context) (p : Panel) : Panel :=
  match Checkout.parseOrderReference (reference (fields p)) (options_of (cx_profile cx)), cx_buyer cx with
  | Ok ref, Some buyer => awaits cx (Recovers ref buyer) (Recovering ref buyer) p
  | _, _ => at_once p
  end.

(** The targets: every one of every part, or the server of the file. *)
Definition part_job (event : Nostr.SignedNostrEvent) (part : Pool.PoolPart) (node : Pool.PoolNode) : Job :=
  mkJob (Nostr.mkResolved event (Pool.n_origin node ++ Pool.p_sha256 part) (lit "application/octet-stream") (Pool.p_sha256 part)
           (Pool.p_size part) None [] None (lit "part.bin")) (Pool.n_origin node).

Definition audit_jobs (cx : Context) : option (list Job) :=
  match cx_pool cx, cx_resolved cx with
  | Some receipt, _ =>
      Some (flat_map (λ part, map (part_job (Pool.r_event receipt) part) (Pool.targets part)) (Pool.m_parts (Pool.r_manifest receipt)))
  | None, Some file => match newURL (Nostr.rh_url file) with Some u => Some [mkJob file (origin u)] | None => None end
  | None, None => None
  end.

(** The end of an audit: what it came to is shown and offered to save. *)
Definition report_audit (total : nat) (proofs : list StorageProof.StorageAudit) (failures : list AuditFailure) (p : Panel) : Panel :=
  let '(p, link) := download (AuditDocument proofs failures) p in
  shows (λ v, v <| sh_audit := Some (length proofs, total, failures) |> <| sh_auditLink := Some link |>) p.

Definition storage_audit (cx : Context) (p : Panel) : Panel :=
  if negb (proofConsent (fields p)) then at_once p
  else match cx_buyer cx, audit_jobs cx with
       | Some buyer, Some jobs =>
           let p := shows (λ v, v <| sh_audit := None |> <| sh_auditLink := None |>) p in
           match jobs with
           | job :: rest => awaits cx (Audits job buyer) (Auditing job rest buyer [] []) p
           | [] => at_once (report_audit 0 [] [] p)
           end
       | _, _ => at_once p
       end.

(** What a button runs. *)
Definition run_action (b : action_button) (cx : Context) (now : Z) : Panel → Panel :=
  match b with
  | DiscoverNodes => discover_nodes cx
  | DiscoverServices => discover_services cx
  | InspectService => inspect_service cx
  | UseService => use_service now
  | PublishList => publish_list cx (now / 1000)
  | CheckoutOffers => checkout_offers cx
  | CheckoutQuote => checkout_quote cx now
  | CheckoutPay => checkout_pay cx
  | CheckoutCheck => checkout_check cx
  | CheckoutRecover => checkout_recover cx
  | AuditStorage => storage_audit cx
  end.

(** [action]: one at a time, and only when the context is ready. *)
Definition action (b : action_button) (cx : Context) (now : Z) (p : Panel) : Panel :=
  match controller p with
  | Some _ => p
  | None =>
      let p := p <| controller := Some (length (aborted p)) |> <| aborted := aborted p ++ [false] |> <| disabled := true |> in
      if cx_ready cx then run_action b cx now p else at_once p
  end.

(** ** What an await comes to *)

(** The signer answers; [now] is in milliseconds. *)
Inductive outcome : Type :=
  | RelaysAnswer (asked : nat → jstr * Z) (history : nat → list Relay.socket_event) (now : Z)
  | WorldAnswers (world : Net.state) (now : Z) | SignerAnswers (answer : res (option json)) | PublishingEnds.

Definition nodes_found (n : nat) (w : Work) (relays keys : list jstr) (asked : nat → jstr * Z) (history : nat → list Relay.socket_event)
    (now : Z) (p : Panel) : Panel :=
  match Discovery.discoverNodes relays keys (wk_profile w) asked history (now / 1000) false (is_aborted p (wk_controller w)) with
  | Ok None => p
  | Throw _ => end_work n w p
  | Ok (Some nodes) => end_work n w (if work_current w p then shows (λ v, v <| sh_nodes := nodes |>) p else p)
  end.

(** The rows, up to an announcement that can no longer be read. *)
Fixpoint list_services (profile : NetworkProfile) (now : Z) (l : list StorageDirectory.ParsedStorageAnnouncement) : list Listing :=
  match l with
  | [] => []
  | a :: l =>
      match StorageDirectory.serviceOrigins a profile, StorageDirectory.selectableService a now with
      | [], _ => list_services profile now l
      | origins, Ok selectable => map (λ origin, (a, origin, selectable)) origins ++ list_services profile now l
      | _, Throw _ => []
      end
  end.

Definition services_found (n : nat) (w : Work) (relays : list jstr) (asked : nat → jstr * Z) (history : nat → list Relay.socket_event)
    (now : Z) (p : Panel) : Panel :=
  let '(marks, r) := StorageDirectory.discover (directory p) relays (wk_profile w) None asked history (now / 1000) false
                       (is_aborted p (wk_controller w)) in
  let p := p <| directory := marks |> in
  match r with
  | Ok None => p
  | Throw _ => end_work n w p
  | Ok (Some results) =>
      end_work n w (if work_current w p then shows (λ v, v <| sh_listings := list_services (wk_profile w) (now / 1000) results |>) p else p)
  end.

Definition described (n : nat) (w : Work) (announcement : StorageDirectory.ParsedStorageAnnouncement) (origin : jstr) (world : Net.state)
    (p : Panel) : Panel :=
  match (StorageDirectory.fetchServiceDescription announcement origin (options_of (wk_profile w)) world).2 with
  | inl _ => end_work n w p
  | inr d =>
      end_work n w (if work_current w p then shows (λ v, v <| sh_description := Some d |>) (p <| checkedService := Some d |>) else p)
  end.

Definition list_signed (n : nat) (w : Work) (template : Nostr.EventTemplate) (owner : jstr) (answer : res (option json)) (cx : Context)
    (p : Panel) : Panel :=
  match Nostr.signEventExactly template (λ _, answer) owner, cx_relays cx with
  | Ok event, Ok relays =>
      if work_current w p then asks_for (PublishesServerList relays event) (set_work n PublishingList p) else end_work n w p
  | _, _ => end_work n w p
  end.

(** The offers that were loaded, against the terms of the selected service. *)
Definition offers_checked (result : Checkout.Offers) (now : Z) (p : Panel) : res Checkout.Offers :=
  match selectedService p with
  | None => Ok result
  | Some _ =>
      match checkedService p with
      | Some d =>
          check (match StorageDirectory.sd_checkout d with
                 | Some terms => eqb (StorageDirectory.ct_origin terms) (Checkout.os_node_origin result)
                 | None => false
                 end) else "Select the checked paid node before loading its offers.";
          StorageDirectory.matchDiscoveredOffers d result now
      | None => Throw "Select the checked paid node before loading its offers."
      end
  end.

Definition show_offers (os : Checkout.Offers) (p : Panel) : Panel :=
  let p := on_fields (λ f, f <| consent := false |>) (p <| offers := Some os |> <| order := None |>) in
  let p := set_plans (map Checkout.of_id (Checkout.os_offers os)) p in
  let p := set_issuers (map Checkout.is_id (Checkout.os_issuers os)) (set_methods (Checkout.os_rails os) p) in
  showOffer p.

Definition offers_loaded (n : nat) (w : Work) (origin : jstr) (world : Net.state) (now : Z) (p : Panel) : Panel :=
  match (Checkout.fetchOffers origin (options_of (wk_profile w)) world).2 with
  | inl _ => end_work n w p
  | inr result =>
      if work_current w p then
        match offers_checked result (now / 1000) p with
        | Ok os => end_work n w (show_offers os p)
        | Throw _ => end_work n w p
        end
      else end_work n w p
  end.

Definition quoted (n : nat) (w : Work) (rq : QuoteRequest) (world : Net.state) (now : Z) (p : Panel) : Panel :=
  match (Checkout.createOrder (qr_offers rq) (qr_plan rq) (qr_rail rq) (qr_issuer rq) (qr_buyer rq) (qr_id rq) (options_of (wk_profile w))
           (qr_renews rq) (qr_refundTo rq) world).2 with
  | inl _ => end_work n w p
  | inr result =>
      if work_current w p then
        end_work n w (render_order now (on_fields (λ f, f <| consent := false |>) (draw_id p <| order := Some result |>)))
      else end_work n w p
  end.

Definition acted (n : nat) (w : Work) (o : Checkout.Order) (a : Checkout.OrderAction) (buyer : jstr) (paymentNote : option jstr)
    (world : Net.state) (now : Z) (p : Panel) : Panel :=
  match (Checkout.orderAction o a buyer (options_of (wk_profile w)) paymentNote world).2 with
  | inl _ => end_work n w p
  | inr result => end_work n w (if work_current w p then render_order now (p <| order := Some result |>) else p)
  end.

Definition recovered (n : nat) (w : Work) (ref : Checkout.OrderReference) (buyer : jstr) (world : Net.state) (now : Z) (p : Panel) : Panel :=
  match (Checkout.recoverOrder ref buyer (options_of (wk_profile w)) world).2 with
  | inl _ => end_work n w p
  | inr result =>
      end_work n w (if work_current w p
                    then render_order now (on_fields (λ f, f <| consent := false |>) (p <| order := Some result |>)) else p)
  end.

(** The next target, or the report. *)
Definition audit_next (n : nat) (w : Work) (rest : list Job) (buyer : jstr) (proofs : list StorageProof.StorageAudit)
    (failures : list AuditFailure) (p : Panel) : Panel :=
  match rest with
  | job :: rest => asks_for (Audits job buyer) (set_work n (Auditing job rest buyer proofs failures) p)
  | [] => end_work n w (report_audit (length proofs + length failures) proofs failures p)
  end.

Definition audited (n : nat) (w : Work) (job : Job) (rest : list Job) (buyer : jstr) (proofs : list StorageProof.StorageAudit)
    (failures : list AuditFailure) (world : Net.state) (p : Panel) : Panel :=
  if negb (work_current w p) then end_work n w p
  else match (StorageProof.auditStoredBlob (job_file job) (job_origin job) buyer (options_of (wk_profile w)) world).2 with
       | inr proof => audit_next n w rest buyer (proofs ++ [proof]) failures p
       | inl e =>
           let '(stage, reason) := StorageProof.auditFailure e in
           audit_next n w rest buyer proofs (failures ++ [mkFailure (job_origin job) (Nostr.rh_sha256 (job_file job)) stage reason]) p
       end.

Definition work_settles (n : nat) (e : outcome) (cx : Context) (p : Panel) : Panel :=
  match works p !! n with
  | None => p
  | Some w =>
      match wk_stage w, e with
      | FindingNodes relays keys, RelaysAnswer asked history now => nodes_found n w relays keys asked history now p
      | FindingServices relays, RelaysAnswer asked history now => services_found n w relays asked history now p
      | Describing announcement origin, WorldAnswers world _ => described n w announcement origin world p
      | SigningList template owner, SignerAnswers answer => list_signed n w template owner answer cx p
      | PublishingList, PublishingEnds => end_work n w p
      | LoadingOffers origin, WorldAnswers world now => offers_loaded n w origin world now p
      | Quoting rq, WorldAnswers world now => quoted n w rq world now p
      | Acting o a buyer paymentNote, WorldAnswers world now => acted n w o a buyer paymentNote world now p
      | Recovering ref buyer, WorldAnswers world now => recovered n w ref buyer world now p
      | Auditing job rest buyer proofs failures, WorldAnswers world _ => audited n w job rest buyer proofs failures world p
      | _, _ => p
      end
  end.

(** ** The other handlers *)

Definition choice_changes (set : Fields → Fields) (p : Panel) : Panel :=
  let p := calls_for CancelsSigning (supersede (on_fields set p)) in
  let p := withdraw (draw_id (p <| order := None |>)) in
  enable_buttons (showOffer (clear_order_shown p)).

Definition cancel (p : Panel) : Panel := withdraw (enable_buttons (calls_for CancelsSigning (supersede p))).

Definition discoveryKeys_typed (v : jstr) (p : Panel) : Panel :=
  let p := on_fields (λ f, f <| discoveryKeys := v |>) p in
  shows (λ s, s <| sh_nodes := [] |>) (abort_opt (controller p) p).

(** A row of the found services is chosen. *)
Definition choose_service (k : nat) (now : Z) (p : Panel) : Panel :=
  match sh_listings (shown p) !! k with
  | Some (announcement, origin, true) =>
      if bool_decide (is_Some (controller p)) then p
      else match StorageDirectory.selectableService announcement (now / 1000) with
           | Throw _ => p
           | Ok false => shows (λ v, v <| sh_listings := <[k := (announcement, origin, false)]> (sh_listings v) |>) p
           | Ok true =>
               let p := reset (calls_for CancelsSigning p) in
               shows (λ v, v <| sh_selection := Some (announcement, origin) |>) (p <| selectedService := Some (announcement, origin) |>)
           end
  | _ => p
  end.

Definition choose_node (k : nat) (p : Panel) : Panel :=
  match sh_nodes (shown p) !! k with Some node => selectOrigin (Discovery.dn_origin node) p | None => p end.

(** ** What can happen *)

(** What the person does, what an await comes to, and the page's call of the one
    operation that the panel exports, [reset]. *)
Inductive panel_input : Type :=
  | PlanChosen (v : jstr) | RailChosen (r : Checkout.Rail) | IssuerChosen (v : jstr) | RenewsChanged (v : jstr) | RefundToChanged (v : jstr)
  | NoteTyped (v : jstr) | ReferenceTyped (v : jstr) | KeysTyped (v : jstr) | ConsentBox (on : bool) | ProofBox (on : bool)
  | ListBox (on : bool) | Presses (b : action_button) (now : Z) | CancelPressed | NodeChosen (k : nat) | ServiceChosen (k : nat) (now : Z)
  | WorkSettles (n : nat) (e : outcome) | PageResets.

Definition panel_step (cx : Context) (p : Panel) (i : panel_input) : Panel :=
  match i with
  | PlanChosen v => if bool_decide (v ∈ plans (fields p)) then choice_changes (λ f, f <| plan := v |>) p else p
  | RailChosen r => if bool_decide (r ∈ methods (fields p)) then choice_changes (λ f, f <| method := Some r |>) p else p
  | IssuerChosen v => if bool_decide (v ∈ issuers (fields p)) then choice_changes (λ f, f <| issuer := v |>) p else p
  | RenewsChanged v => choice_changes (λ f, f <| renews := v |>) p
  | RefundToChanged v => choice_changes (λ f, f <| refundTo := v |>) p
  | NoteTyped v => on_fields (λ f, f <| note := v |>) p
  | ReferenceTyped v => on_fields (λ f, f <| reference := v |>) p
  | KeysTyped v => discoveryKeys_typed v p
  | ConsentBox on => let p := on_fields (λ f, f <| consent := on |>) p in if on then p else cancel p
  | ProofBox on => let p := on_fields (λ f, f <| proofConsent := on |>) p in if on then p else cancel p
  | ListBox on => let p := on_fields (λ f, f <| listConsent := on |>) p in if on then p else cancel p
  | Presses b now => if disabled p then p else action b cx now p
  | CancelPressed => cancel p
  | NodeChosen k => choose_node k p
  | ServiceChosen k now => choose_service k now p
  | WorkSettles n e => work_settles n e cx p
  | PageResets => reset p
  end.

(** A run of the panel, with what the context answers each time. *)
Definition panel_run (inputs : list (Context * panel_input)) : Panel := foldl (λ p x, panel_step x.1 p x.2) first_panel inputs.
End Panel.
