(* ===== verification/PanelFacts.v ===== *)
(** * What the storage services panel does, and with which consent

    An action's result lands only while nothing superseded it, and what is paid,
    audited or published is what is shown and was agreed to. *)

From S2P Require Import Prelude JsString Utf8 Bytes Json JsValue Security.
From S2P Require Nostr Net Envelope Relay Pool Discovery ServicesHttp Checkout StorageDirectory StorageProof.
From S2P Require Import ServicesPanel.

Section Facts.
Context `{Unicode} `{Web} `{Numbers} `{Nostr.NostrTools} `{Envelope.Cipher} `{Net.Net} `{!ServicesHttp.BuyerSigner}.
Context `{Checkout.Invoices} `{StorageDirectory.Announcements} `{!StorageProof.Randomness} `{Uuids}.

(** ** The invariant *)

(** An action that has not ended and was not superseded. *)
Definition live (p : Panel) (w : Work) : Prop := wk_stage w ≠ WorkOver ∧ wk_version w = revision p.

Definition stage_ok (p : Panel) (st : work_stage) : Prop :=
  match st with
  | Acting o _ _ _ => order p = Some o
  | LoadingOffers _ => order p = None
  | Auditing _ _ _ _ _ => proofConsent (fields p) = true
  | SigningList _ _ | PublishingList => listConsent (fields p) = true
  | _ => True
  end.

Record panel_ok (p : Panel) : Prop := {
  k_shown : sh_quote (shown p) = order p;
  k_past : Forall (λ w, (wk_version w <= revision p)%nat) (works p);
  k_live : ∀ n w, works p !! n = Some w → live p w → controller p = Some (wk_controller w) ∧ stage_ok p (wk_stage w);
  k_one : ∀ n m w v, works p !! n = Some w → works p !! m = Some v → live p w → live p v → n = m;
}.

Lemma first_panel_ok : panel_ok first_panel.
Proof. by split. Qed.

(** Nothing is live. *)
Definition quiet (p : Panel) : Prop := panel_ok p ∧ ∀ n w, works p !! n = Some w → ¬ live p w.

Lemma quiet_intro p : sh_quote (shown p) = order p → Forall (λ w, (wk_version w <= revision p)%nat) (works p) →
  (∀ n w, works p !! n = Some w → ¬ live p w) → quiet p.
Proof. intros Hs Hp Hn. split; [|done]. split; [done|done| |]; intros; exfalso; eapply Hn; eauto. Qed.

Lemma quiet_same p q : quiet p → works q = works p → revision q = revision p → sh_quote (shown q) = order q → quiet q.
Proof.
  intros [Hp Hn] Ew Er Es. apply quiet_intro; [done|rewrite Ew, Er; apply Hp|]. intros n w Hw [? Hv]. rewrite Ew in Hw. rewrite Er in Hv.
  by apply (Hn n w Hw).
Qed.

(** What supersedes leaves nothing live. *)
Lemma quiet_superseded p q : panel_ok p → works q = works p → (revision p < revision q)%nat → sh_quote (shown q) = order q → quiet q.
Proof.
  intros Hp Ew Hr Hs. apply quiet_intro; [done| |]; rewrite Ew.
  - eapply Forall_impl; [exact (k_past _ Hp)|]. cbn. intros w ?. lia.
  - intros n w Hw [_ Hv]. pose proof (proj1 (Forall_lookup _ _) (k_past _ Hp) n w Hw) as Hle. cbn in Hle. lia.
Qed.

(** Without a controller nothing is live. *)
Lemma idle p : panel_ok p → controller p = None → quiet p.
Proof. intros Hp Hc. split; [done|]. intros n w Hw Hl. destruct (k_live _ Hp n w Hw Hl). congruence. Qed.

(** Fields that no stage looks at. *)
Lemma panel_same_ok p q : panel_ok p → works q = works p → revision q = revision p → controller q = controller p → sh_quote (shown q) = order q →
  order q = order p → proofConsent (fields q) = proofConsent (fields p) → listConsent (fields q) = listConsent (fields p) → panel_ok q.
Proof.
  intros [Hs Hp Hl Ho] Ew Er Ec Es Eo Epc Elc. split; rewrite ?Ew, ?Er, ?Ec; auto.
  - intros n w Hw [Hl1 Hl2]. rewrite Er in Hl2. destruct (Hl n w Hw (conj Hl1 Hl2)) as [? Hst]. split; [done|].
    unfold stage_ok in *. destruct (wk_stage w); congruence.
  - intros n m w v Hw Hv [Hw1 Hw2] [Hv1 Hv2]. rewrite Er in Hw2, Hv2. by apply (Ho n m w v).
Qed.

(** ** Actions start *)

Lemma awaits_ok cx o st p : quiet p → stage_ok p st → panel_ok (awaits cx o st p).
Proof.
  intros [[Hs Hp Hl Ho] Hidle] Hst. unfold awaits. destruct (controller p) as [c|] eqn:Ec; [|by split; rewrite ?Ec].
  split; cbn; [done|apply Forall_app; split; [done|by constructor]| |].
  - intros n w Hw Hlive. apply lookup_app_Some in Hw as [Hw|[_ Hw]]; [by destruct (Hidle n w Hw)|].
    apply list_lookup_singleton_Some in Hw as [_ <-]. cbn. by rewrite Ec.
  - intros n m w v Hw Hv Hlw Hlv.
    apply lookup_app_Some in Hw as [Hw|[Hn Hw]]; [by destruct (Hidle n w Hw)|].
    apply lookup_app_Some in Hv as [Hv|[Hm Hv]]; [by destruct (Hidle m v Hv)|].
    apply list_lookup_singleton_Some in Hw as [? _]. apply list_lookup_singleton_Some in Hv as [? _]. lia.
Qed.

Lemma quiet_finish v p : quiet p → quiet (finish v p).
Proof. intros Hq. unfold finish. destruct (Nat.eqb _ _); [|done]. apply (quiet_same p); try done. apply Hq. Qed.

(** ** Actions end *)

Lemma lookup_set_work n st p m w : works (set_work n st p) !! m = Some w →
  (m = n ∧ ∃ w0, works p !! n = Some w0 ∧ w = w0 <| wk_stage := st |>) ∨ (m ≠ n ∧ works p !! m = Some w).
Proof.
  cbn. destruct (decide (m = n)) as [->|Hne].
  - rewrite list_lookup_alter_eq. destruct (works p !! n) as [w0|]; [|done]. intros [= <-]. left. split; [done|]. by exists w0.
  - rewrite list_lookup_alter_ne by done. auto.
Qed.

Lemma set_work_ok n st p : panel_ok p → stage_ok p st → (∀ w, works p !! n = Some w → wk_stage w ≠ WorkOver) → panel_ok (set_work n st p).
Proof.
  intros [Hs Hp Hl Ho] Hst Hov. split; [done| | |].
  - cbn. apply Forall_lookup. intros m w Hw. apply lookup_set_work in Hw as [(-> & w0 & Hw0 & ->)|[_ Hw]].
    + exact (proj1 (Forall_lookup _ _) Hp n w0 Hw0).
    + exact (proj1 (Forall_lookup _ _) Hp m w Hw).
  - intros m w Hw Hlive. apply lookup_set_work in Hw as [(-> & w0 & Hw0 & ->)|[_ Hw]]; [|by apply (Hl m w)].
    destruct (Hl n w0 Hw0) as [Hc _]; [split; [by apply Hov|apply Hlive]|]. by split.
  - assert (∀ m w, works (set_work n st p) !! m = Some w → live (set_work n st p) w → ∃ w0, works p !! m = Some w0 ∧ live p w0) as Hback.
    { intros m w Hw Hlive. apply lookup_set_work in Hw as [(-> & w0 & Hw0 & ->)|[_ Hw]]; [|by exists w].
      exists w0. split; [done|]. split; [by apply Hov|apply Hlive]. }
    intros m1 m2 w v Hw Hv Hlw Hlv. destruct (Hback _ _ Hw Hlw) as (w0 & ? & ?), (Hback _ _ Hv Hlv) as (v0 & ? & ?). by apply (Ho m1 m2 w0 v0).
Qed.

(** An action ends on a page whose other parts may have changed with its result. *)
Lemma end_work_ok n w p q : panel_ok p → works p !! n = Some w → wk_stage w ≠ WorkOver → works q = works p → revision q = revision p →
  sh_quote (shown q) = order q →
  (live p w ∨ (controller q = controller p ∧ order q = order p ∧ proofConsent (fields q) = proofConsent (fields p) ∧
               listConsent (fields q) = listConsent (fields p))) → panel_ok (end_work n w q).
Proof.
  intros Hp Hw Hov Ew Er Es Hcase. unfold end_work. set (t := set_work n WorkOver q).
  assert (Forall (λ w, (wk_version w <= revision t)%nat) (works t)) as Hpast.
  { apply Forall_lookup. intros m v Hv. apply lookup_set_work in Hv as [(-> & v0 & Hv0 & ->)|[_ Hv]]; cbn; rewrite Er; rewrite Ew in *.
    - exact (proj1 (Forall_lookup _ _) (k_past _ Hp) n v0 Hv0).
    - exact (proj1 (Forall_lookup _ _) (k_past _ Hp) m v Hv). }
  destruct Hcase as [Hl|(Ec & Eo & Epc & Elc)].
  - assert (∀ m v, works t !! m = Some v → ¬ live t v) as Hidle.
    { intros m v Hv Hlv. apply lookup_set_work in Hv as [(-> & v0 & _ & ->)|[Hne Hv]]; [by destruct Hlv|].
      rewrite Ew in Hv. apply Hne. apply (k_one _ Hp m n v w Hv Hw); [|done]. destruct Hlv as [? Hlv]. cbn in Hlv. rewrite Er in Hlv. by split. }
    by apply quiet_finish, quiet_intro.
  - assert (panel_ok q) as Hq by by apply (panel_same_ok p).
    assert (panel_ok t) as Ht.
    { destruct Hq as [Hs1 Hp1 Hl1 Ho1]. split; [done|done| |].
      - intros m v Hv Hlv. apply lookup_set_work in Hv as [(-> & v0 & _ & ->)|[_ Hv]]; [by destruct Hlv|]. by apply (Hl1 m v).
      - intros m1 m2 v1 v2 Hv1 Hv2 Hl1' Hl2'. apply lookup_set_work in Hv1 as [(-> & ? & _ & ->)|[_ Hv1]]; [by destruct Hl1'|].
        apply lookup_set_work in Hv2 as [(-> & ? & _ & ->)|[_ Hv2]]; [by destruct Hl2'|]. by apply (Ho1 m1 m2 v1 v2). }
    unfold finish. destruct (Nat.eqb_spec (revision t) (wk_version w)) as [Ev|]; [|done].
    apply quiet_intro; [done|done|]. intros m v Hv Hlv.
    apply lookup_set_work in Hv as [(-> & v0 & _ & ->)|[Hne Hv]]; [by destruct Hlv|]. rewrite Ew in Hv. apply Hne.
    apply (k_one _ Hp m n v w Hv Hw); [|split; [done|]; cbn in Ev; by rewrite <- Er].
    destruct Hlv as [? Hlv]. cbn in Hlv. rewrite Er in Hlv. by split.
Qed.

(** ** Every handler *)

Lemma abort_opt_same c p : works (abort_opt c p) = works p ∧ revision (abort_opt c p) = revision p ∧ controller (abort_opt c p) = controller p ∧
  order (abort_opt c p) = order p ∧ shown (abort_opt c p) = shown p ∧ fields (abort_opt c p) = fields p ∧ ops (abort_opt c p) = ops p.
Proof. by destruct c. Qed.

Lemma supersede_same p : works (supersede p) = works p ∧ revision (supersede p) = S (revision p) ∧ order (supersede p) = order p ∧
  shown (supersede p) = shown p ∧ fields (supersede p) = fields p ∧ ops (supersede p) = ops p ∧ controller (supersede p) = None ∧
  calls (supersede p) = calls p ∧ offers (supersede p) = offers p.
Proof. unfold supersede, abort_opt. by destruct (controller p). Qed.

Lemma reset_same p : works (reset p) = works p ∧ revision (reset p) = S (revision p) ∧ order (reset p) = None ∧
  sh_quote (shown (reset p)) = None ∧ consent (fields (reset p)) = false ∧ ops (reset p) = ops p ∧ offers (reset p) = None ∧
  calls (reset p) = calls p.
Proof. unfold reset, supersede, abort_opt. by destruct (controller p). Qed.

Lemma reset_quiet p : panel_ok p → quiet (reset p).
Proof.
  intros Hp. destruct (reset_same p) as (Ew & Er & Eo & Es & _). apply (quiet_superseded p); [done|done|rewrite Er; lia|by rewrite Es, Eo].
Qed.

Lemma selectOrigin_quiet origin p : panel_ok p → quiet (selectOrigin origin p).
Proof. intros Hp. unfold selectOrigin. do 2 apply reset_quiet. by destruct Hp. Qed.

Lemma choice_quiet set p : panel_ok p → quiet (choice_changes set p).
Proof.
  intros Hp. destruct (supersede_same (on_fields set p)) as (Ew & Er & _).
  apply (quiet_superseded p); [done|exact Ew| |done]. change (revision p < revision (supersede (on_fields set p)))%nat. rewrite Er. cbn. lia.
Qed.

Lemma cancel_quiet p : panel_ok p → quiet (cancel p).
Proof.
  intros Hp. destruct (supersede_same p) as (Ew & Er & Eo & Es & _).
  apply (quiet_superseded p); [done|exact Ew| |].
  - change (revision p < revision (supersede p))%nat. lia.
  - change (sh_quote (shown (supersede p)) = order (supersede p)). rewrite Es, Eo. apply Hp.
Qed.

Lemma at_once_quiet p : quiet p → quiet (at_once p).
Proof. apply quiet_finish. Qed.

Lemma quiet_ok p : quiet p → panel_ok p.
Proof. apply proj1. Qed.
Hint Resolve quiet_ok at_once_quiet awaits_ok quiet_finish : wild.

Lemma order_render_same now p : works (render_order now p) = works p ∧ revision (render_order now p) = revision p ∧ order (render_order now p) = order p ∧
  controller (render_order now p) = controller p ∧ fields (render_order now p) = fields p ∧ ops (render_order now p) = ops p ∧
  (sh_quote (shown p) = order p ∨ is_Some (order p) → sh_quote (shown (render_order now p)) = order p).
Proof.
  unfold render_order, save_link, download. destruct (order p) as [o|] eqn:Eo; [|split_and!; try done; by intros [|[]]].
  cbv zeta. repeat case_match; cbn; split_and!; done.
Qed.

(** A change of a quiet panel, and then an action that awaits or ends. *)
Ltac still Hq := first [ exact Hq | apply (quiet_same _ _ Hq); [done|done|first [exact (k_shown _ (proj1 Hq))|done]] ].
Ltac starts Hq := first [ apply quiet_ok, at_once_quiet; still Hq | apply awaits_ok; [still Hq|try done] ].

Lemma discover_nodes_ok cx p : quiet p → panel_ok (discover_nodes cx p).
Proof. intros Hq. unfold discover_nodes. cbv zeta. case_match; starts Hq. Qed.
Lemma discover_services_ok cx p : quiet p → panel_ok (discover_services cx p).
Proof. intros Hq. unfold discover_services. cbv zeta. case_match; starts Hq. Qed.
Lemma inspect_service_ok cx p : quiet p → panel_ok (inspect_service cx p).
Proof. intros Hq. unfold inspect_service. destruct (selectedService p) as [[]|]; cbv zeta; starts Hq. Qed.
Lemma use_service_ok now p : quiet p → panel_ok (use_service now p).
Proof.
  intros Hq. unfold use_service. destruct (selectedService p) as [[a o]|]; [|starts Hq]. destruct (checkedService p) as [d|]; [|starts Hq].
  destruct (_ || _); [starts Hq|]. cbv zeta. apply quiet_ok, quiet_finish. pose proof (selectOrigin_quiet o p (proj1 Hq)) as Hs.
  revert Hs. generalize (selectOrigin o p). clear. intros t Hs. apply (quiet_same _ _ Hs); try done. apply Hs.
Qed.
Lemma publish_list_ok cx now p : quiet p → panel_ok (publish_list cx now p).
Proof.
  intros Hq. unfold publish_list. destruct (listConsent (fields p)) eqn:Ec; cbn [negb]; [|starts Hq].
  destruct (cx_buyer cx); [|starts Hq]. destruct (Discovery.buildServerList _ _ _); starts Hq.
Qed.
Lemma checkout_offers_ok cx p : quiet p → panel_ok (checkout_offers cx p).
Proof. intros Hq. unfold checkout_offers. destruct (_ && _); cbv zeta; starts Hq. Qed.
Lemma checkout_quote_ok cx now p : quiet p → panel_ok (checkout_quote cx now p).
Proof.
  intros Hq. unfold checkout_quote. destruct (offers p); [|starts Hq]. cbv zeta. destruct (_ && _); [starts Hq|]. destruct (_ && _); [starts Hq|].
  destruct (method _); [|starts Hq]. destruct (cx_buyer cx); starts Hq.
Qed.
Lemma act_on_order_ok cx a m p : quiet p → panel_ok (act_on_order cx a m p).
Proof.
  intros Hq. unfold act_on_order. destruct (order p) eqn:Eo; [|starts Hq]. destruct (cx_buyer cx); [|starts Hq].
  destruct (consent _); starts Hq.
Qed.
Lemma checkout_pay_ok cx p : quiet p → panel_ok (checkout_pay cx p).
Proof. intros Hq. unfold checkout_pay. cbv zeta. apply act_on_order_ok. still Hq. Qed.
Lemma checkout_recover_ok cx p : quiet p → panel_ok (checkout_recover cx p).
Proof. intros Hq. unfold checkout_recover. destruct (Checkout.parseOrderReference _ _); [|starts Hq]. destruct (cx_buyer cx); starts Hq. Qed.
Lemma storage_audit_ok cx p : quiet p → panel_ok (storage_audit cx p).
Proof.
  intros Hq. unfold storage_audit. destruct (proofConsent (fields p)) eqn:Ec; cbn [negb]; [|starts Hq].
  destruct (cx_buyer cx); [|starts Hq]. destruct (audit_jobs cx) as [[|job jobs]|]; cbv zeta; starts Hq.
Qed.

Lemma run_action_ok b cx now p : quiet p → panel_ok (run_action b cx now p).
Proof.
  intros Hq. destruct b; cbn [run_action]; eauto using discover_nodes_ok, discover_services_ok, inspect_service_ok, use_service_ok, publish_list_ok,
    checkout_offers_ok, checkout_quote_ok, act_on_order_ok, checkout_pay_ok, checkout_recover_ok, storage_audit_ok.
Qed.

Lemma action_ok b cx now p : panel_ok p → panel_ok (action b cx now p).
Proof.
  intros Hp. unfold action. destruct (controller p) eqn:Ec; [done|]. pose proof (idle p Hp Ec) as Hq. cbv zeta.
  destruct (cx_ready cx); [apply run_action_ok|apply quiet_ok, at_once_quiet]; still Hq.
Qed.

(** ** Awaits end *)

Lemma current_live w p : work_current w p = true → wk_stage w ≠ WorkOver → live p w.
Proof. intros [_ Hv]%andb_prop Ho. apply Nat.eqb_eq in Hv. by split. Qed.

(** The end of an action whose result, if it lands, changes the order with what
    is shown of it. *)
Lemma lands_ok n w p q : panel_ok p → works p !! n = Some w → wk_stage w ≠ WorkOver → works q = works p → revision q = revision p →
  sh_quote (shown q) = order q → work_current w p = true → panel_ok (end_work n w q).
Proof. intros. eapply end_work_ok; eauto. left. by apply current_live. Qed.

Lemma ends_ok n w p : panel_ok p → works p !! n = Some w → wk_stage w ≠ WorkOver → panel_ok (end_work n w p).
Proof. intros Hp Hw Ho. eapply end_work_ok; eauto. apply Hp. Qed.

Lemma order_render_ok n w p q o now : panel_ok p → works p !! n = Some w → wk_stage w ≠ WorkOver → works q = works p → revision q = revision p →
  order q = Some o → work_current w p = true → panel_ok (end_work n w (render_order now q)).
Proof.
  intros Hp Hw Ho Ew Er Eo Hc. destruct (order_render_same now q) as (E1 & E2 & E3 & _ & _ & _ & E4).
  apply (lands_ok n w p); try done; [by rewrite E1|by rewrite E2|]. rewrite E3. apply E4. right. by exists o.
Qed.

Lemma audit_next_ok n w job rest0 rest buyer proofs0 failures0 proofs failures p : panel_ok p → works p !! n = Some w →
  wk_stage w = Auditing job rest0 buyer proofs0 failures0 → work_current w p = true →
  panel_ok (audit_next n w rest buyer proofs failures p).
Proof.
  intros Hp Hw Est Hc. assert (wk_stage w ≠ WorkOver) as Ho by by rewrite Est. unfold audit_next. destruct rest as [|job' rest].
  - apply (lands_ok n w p); try done. apply Hp.
  - assert (panel_ok (set_work n (Auditing job' rest buyer proofs failures) p)) as [] by (apply set_work_ok; [done| |];
      [destruct (k_live _ Hp n w Hw (current_live _ _ Hc Ho)) as [_ Hst]; by rewrite Est in Hst|intros v Hv; congruence]). by split.
Qed.

Lemma work_settles_ok n e cx p : panel_ok p → panel_ok (work_settles n e cx p).
Proof.
  intros Hp. unfold work_settles. destruct (works p !! n) as [w|] eqn:Hw; [|done].
  destruct (wk_stage w) as [relays keys|relays|a o|template owner| |o|rq|o a b m|ref b|job rest b proofs failures|] eqn:Est; destruct e; try done.
  all: assert (wk_stage w ≠ WorkOver) as Ho by by rewrite Est.
  all: assert (panel_ok (end_work n w p)) as Hend by by apply ends_ok.
  all: try exact Hend.
  - unfold nodes_found. destruct (Discovery.discoverNodes _ _ _ _ _ _ _ _) as [[nodes|]|]; [|done|done].
    destruct (work_current w p); apply (end_work_ok n w p); try done; first [exact (k_shown _ Hp)|by right].
  - unfold services_found. destruct (StorageDirectory.discover _ _ _ _ _ _ _ _ _) as [marks r]. cbv zeta.
    assert (panel_ok (p <| directory := marks |>)) as Hm by by destruct Hp.
    destruct r as [[results|]|]; [|done|by apply ends_ok].
    destruct (work_current _ _); apply (end_work_ok n w (p <| directory := marks |>)); try done; first [exact (k_shown _ Hm)|by right].
  - unfold described. destruct (StorageDirectory.fetchServiceDescription _ _ _ _).2 as [|d]; [done|].
    destruct (work_current w p); apply (end_work_ok n w p); try done; first [exact (k_shown _ Hp)|by right].
  - unfold list_signed. destruct (Nostr.signEventExactly _ _ _); [|done]. destruct (cx_relays cx); [|done].
    destruct (work_current w p) eqn:Ec; [|done].
    assert (panel_ok (set_work n PublishingList p)) as [] by (apply set_work_ok; [done| |];
      [destruct (k_live _ Hp n w Hw (current_live _ _ Ec Ho)) as [_ Hst]; by rewrite Est in Hst|intros v Hv; congruence]). by split.
  - unfold offers_loaded. destruct (Checkout.fetchOffers _ _ _).2 as [|result]; [done|]. destruct (work_current w p) eqn:Ec; [|done].
    destruct (offers_checked _ _ _); [|done]. apply (lands_ok n w p); try done. change (sh_quote (shown p) = None).
    destruct (k_live _ Hp n w Hw (current_live _ _ Ec Ho)) as [_ Hst]. rewrite Est in Hst. by rewrite (k_shown _ Hp).
  - unfold quoted. destruct (Checkout.createOrder _ _ _ _ _ _ _ _ _ _).2 as [|result]; [done|]. destruct (work_current w p) eqn:Ec; [|done]. by apply (order_render_ok n w p _ result).
  - unfold acted. destruct (Checkout.orderAction _ _ _ _ _ _).2 as [|result]; [done|]. destruct (work_current w p) eqn:Ec; [|done]. by apply (order_render_ok n w p _ result).
  - unfold recovered. destruct (Checkout.recoverOrder _ _ _ _).2 as [|result]; [done|]. destruct (work_current w p) eqn:Ec; [|done]. by apply (order_render_ok n w p _ result).
  - unfold audited. destruct (work_current w p) eqn:Ec; [|done]. cbn [negb].
    destruct (StorageProof.auditStoredBlob _ _ _ _ _).2 as [err|proof]; [destruct (StorageProof.auditFailure err)|]; by eapply audit_next_ok.
Qed.

Lemma step_ok cx p i : panel_ok p → panel_ok (panel_step cx p i).
Proof.
  intros Hp. assert (∀ f, (∀ x, proofConsent (f x) = proofConsent x ∧ listConsent (f x) = listConsent x) → panel_ok (on_fields f p)) as Hf.
  { intros f Hf. apply (panel_same_ok p); try done; [apply Hp|apply Hf..]. }
  assert (∀ f, panel_ok (cancel (on_fields f p))) as Hc.
  { intros f. destruct (supersede_same (on_fields f p)) as (Ew & Er & Eo & Es & _). apply quiet_ok, (quiet_superseded p); [done|exact Ew| |].
    - change (revision p < revision (supersede (on_fields f p)))%nat. rewrite Er. cbn. lia.
    - change (sh_quote (shown (supersede (on_fields f p))) = order (supersede (on_fields f p))). rewrite Es, Eo. apply Hp. }
  destruct i; cbn [panel_step]; cbv zeta.
  1-3: case_bool_decide; [by apply quiet_ok, choice_quiet|done].
  1-2: by apply quiet_ok, choice_quiet.
  1-2: apply Hf; by intros.
  - unfold discoveryKeys_typed. cbv zeta. set (q := on_fields _ p).
    assert (panel_ok q) as Hq by (apply Hf; by intros). clearbody q.
    destruct (abort_opt_same (controller q) q) as (E1 & E2 & E3 & E4 & E5 & E6 & _). revert E1 E2 E3 E4 E5 E6.
    generalize (abort_opt (controller q) q). intros t E1 E2 E3 E4 E5 E6. apply (panel_same_ok q); cbn; try done; [|by rewrite E6..].
    rewrite E5, E4. apply Hq.
  - destruct on; [apply Hf; by intros|apply Hc].
  - destruct on; [|apply Hc]. destruct Hp as [Hs Hp Hl Ho]. split; try done. intros n w Hw Hlw.
    destruct (Hl n w Hw Hlw) as [? Hst]. split; [done|]. unfold stage_ok in *. by destruct (wk_stage w).
  - destruct on; [|apply Hc]. destruct Hp as [Hs Hp Hl Ho]. split; try done. intros n w Hw Hlw.
    destruct (Hl n w Hw Hlw) as [? Hst]. split; [done|]. unfold stage_ok in *. by destruct (wk_stage w).
  - destruct (disabled p); [done|by apply action_ok].
  - by apply quiet_ok, cancel_quiet.
  - unfold choose_node. destruct (_ !! _); [by apply quiet_ok, selectOrigin_quiet|done].
  - unfold choose_service. destruct (_ !! _) as [[[a o] []]|]; try done. case_bool_decide; [done|].
    destruct (StorageDirectory.selectableService _ _) as [[]|]; [| |done].
    + assert (panel_ok (calls_for CancelsSigning p)) as Hq by by destruct Hp. pose proof (reset_quiet _ Hq) as Hr. revert Hr.
      generalize (reset (calls_for CancelsSigning p)). clear. intros t Ht. apply quiet_ok, (quiet_same _ _ Ht); try done. apply Ht.
    + apply (panel_same_ok p); try done. apply Hp.
  - by apply work_settles_ok.
  - by apply quiet_ok, reset_quiet.
Qed.

(** ** What is started, and with which consent *)

Definition allowed (cx : Context) (p : Panel) (o : service_op) : Prop :=
  match o with
  | Acts o a buyer paymentNote =>
      order p = Some o ∧ consent (fields p) = true ∧ cx_buyer cx = Some buyer ∧
      (a = Checkout.CheckOrder ∨ (a = rail_action (Checkout.q_rail (Checkout.or_quote o)) ∧ paymentNote = Some (note (fields p))))
  | AsksQuote rq =>
      offers p = Some (qr_offers rq) ∧ qr_plan rq = plan (fields p) ∧ method (fields p) = Some (qr_rail rq) ∧ cx_buyer cx = Some (qr_buyer rq)
  | Audits _ _ => proofConsent (fields p) = true
  | SignsServerList _ owner => listConsent (fields p) = true ∧ cx_buyer cx = Some owner
  | PublishesServerList _ _ => listConsent (fields p) = true
  | AsksOffers origin => origin = cx_origin cx
  | Recovers _ buyer => cx_buyer cx = Some buyer
  | _ => True
  end.

(** [q] has started more than [p], and only what is allowed. *)
Definition adds (P : service_op → Prop) (p q : Panel) : Prop := ∃ l, ops q = ops p ++ l ∧ Forall P l.

Lemma adds_none P p q : ops q = ops p → adds P p q.
Proof. intros E. exists []. by rewrite app_nil_r. Qed.

Lemma adds_awaits (P : service_op → Prop) cx o st p q : ops q = ops p → P o → adds P p (awaits cx o st q).
Proof.
  intros E Ho. unfold awaits. destruct (controller q); [|by apply adds_none]. exists [o]. cbn. rewrite E. split; [done|by constructor].
Qed.

Lemma finish_ops v p : ops (finish v p) = ops p.
Proof. unfold finish. by destruct (Nat.eqb _ _). Qed.

Lemma selectOrigin_ops origin p : ops (selectOrigin origin p) = ops p.
Proof. unfold selectOrigin. destruct (reset_same (reset (calls_for (SelectsOrigin origin) p))) as (_ & _ & _ & _ & _ & -> & _).
  by destruct (reset_same (calls_for (SelectsOrigin origin) p)) as (_ & _ & _ & _ & _ & -> & _).
Qed.

Lemma after_select_ops v x d t :
  ops (finish v (shows (λ v, v <| sh_selection := x |>) (t <| selectedService := x |> <| checkedService := d |>))) = ops t.
Proof. by rewrite finish_ops. Qed.

Lemma after_choose_ops x t : ops (shows (λ v, v <| sh_selection := x |>) (t <| selectedService := x |>)) = ops t.
Proof. done. Qed.

Ltac no_ops := apply adds_none; cbn [negb]; unfold at_once; rewrite ?finish_ops; done.

Lemma run_action_adds b cx now p q : ops q = ops p → fields q = fields p → order q = order p → offers q = offers p →
  adds (allowed cx p) p (run_action b cx now q).
Proof.
  intros E Ef Eo Eof. destruct b; cbn [run_action].
  - unfold discover_nodes. cbv zeta. case_match; [by apply adds_awaits|no_ops].
  - unfold discover_services. cbv zeta. case_match; [by apply adds_awaits|no_ops].
  - unfold inspect_service. destruct (selectedService q) as [[]|]; cbv zeta; [by apply adds_awaits|no_ops].
  - unfold use_service. destruct (selectedService q) as [[a o]|]; [|no_ops]. destruct (checkedService q); [|no_ops].
    destruct (_ || _); [no_ops|]. apply adds_none. cbv zeta. by rewrite after_select_ops, selectOrigin_ops.
  - unfold publish_list. rewrite Ef. destruct (listConsent (fields p)) eqn:Ec; [|no_ops]. cbn [negb].
    destruct (cx_buyer cx) eqn:Eb; [|no_ops]. destruct (Discovery.buildServerList _ _ _); [|no_ops]. by apply adds_awaits.
  - unfold checkout_offers. destruct (_ && _); [no_ops|]. cbv zeta. by apply adds_awaits.
  - unfold checkout_quote. rewrite Eof, Ef. destruct (offers p) as [os|] eqn:Eos; [|no_ops]. cbv zeta. destruct (_ && _); [no_ops|].
    destruct (_ && _); [no_ops|]. destruct (method (fields p)) eqn:Em; [|no_ops]. destruct (cx_buyer cx) eqn:Eb; [|no_ops]. by apply adds_awaits.
  - unfold checkout_pay, act_on_order. cbv zeta. cbn. rewrite Eo, Ef. destruct (order p) eqn:Eor; [|no_ops].
    destruct (cx_buyer cx) eqn:Eb; [|no_ops]. destruct (consent (fields p)) eqn:Ec; [|no_ops]. apply adds_awaits; [done|]. cbn. auto 8.
  - unfold checkout_check, act_on_order. rewrite Eo, Ef. destruct (order p) eqn:Eor; [|no_ops].
    destruct (cx_buyer cx) eqn:Eb; [|no_ops]. destruct (consent (fields p)) eqn:Ec; [|no_ops]. apply adds_awaits; [done|]. cbn. auto 8.
  - unfold checkout_recover. destruct (Checkout.parseOrderReference _ _); [|no_ops]. destruct (cx_buyer cx) eqn:Eb; [by apply adds_awaits|no_ops].
  - unfold storage_audit. rewrite Ef. destruct (proofConsent (fields p)) eqn:Ec; [|no_ops]. cbn [negb].
    destruct (cx_buyer cx); [|no_ops]. destruct (audit_jobs cx) as [[|job jobs]|]; cbv zeta; [no_ops|by apply adds_awaits|no_ops].
Qed.

Lemma end_work_ops n w p : ops (end_work n w p) = ops p.
Proof. unfold end_work. by rewrite finish_ops. Qed.

Lemma render_ops now p : ops (render_order now p) = ops p.
Proof. apply order_render_same. Qed.

Ltac no_more := apply adds_none; cbn [negb]; rewrite ?end_work_ops, ?render_ops; done.

Lemma audit_next_adds n w job0 rest0 rest buyer proofs0 failures0 proofs failures cx p : panel_ok p → works p !! n = Some w →
  wk_stage w = Auditing job0 rest0 buyer proofs0 failures0 → work_current w p = true →
  adds (allowed cx p) p (audit_next n w rest buyer proofs failures p).
Proof.
  intros Hp Hw Est Hc. unfold audit_next. destruct rest as [|job rest]; [no_more|]. exists [Audits job buyer]. split; [done|]. constructor; [|done].
  destruct (k_live _ Hp n w Hw) as [_ Hst]; [apply current_live; [done|by rewrite Est]|]. by rewrite Est in Hst.
Qed.

Lemma work_settles_adds n e cx p : panel_ok p → adds (allowed cx p) p (work_settles n e cx p).
Proof.
  intros Hp. unfold work_settles. destruct (works p !! n) as [w|] eqn:Hw; [|no_more].
  destruct (wk_stage w) eqn:Est; destruct e; try no_more.
  - unfold nodes_found. destruct (Discovery.discoverNodes _ _ _ _ _ _ _ _) as [[nodes|]|]; [destruct (work_current w p)|..]; no_more.
  - unfold services_found. destruct (StorageDirectory.discover _ _ _ _ _ _ _ _ _) as [marks r]. cbv zeta.
    destruct r as [[results|]|]; [destruct (work_current _ _)|..]; no_more.
  - unfold described. destruct (StorageDirectory.fetchServiceDescription _ _ _ _).2; [|destruct (work_current w p)]; no_more.
  - unfold list_signed. destruct (Nostr.signEventExactly _ _ _); [|no_more]. destruct (cx_relays cx); [|no_more].
    destruct (work_current w p) eqn:Ec; [|no_more]. eexists [_]. split; [done|]. constructor; [|done].
    destruct (k_live _ Hp n w Hw) as [_ Hst]; [apply current_live; [done|by rewrite Est]|]. by rewrite Est in Hst.
  - unfold offers_loaded. destruct (Checkout.fetchOffers _ _ _).2; [no_more|]. destruct (work_current w p); [destruct (offers_checked _ _ _)|]; no_more.
  - unfold quoted. destruct (Checkout.createOrder _ _ _ _ _ _ _ _ _ _).2; [|destruct (work_current w p)]; no_more.
  - unfold acted. destruct (Checkout.orderAction _ _ _ _ _ _).2; [|destruct (work_current w p)]; no_more.
  - unfold recovered. destruct (Checkout.recoverOrder _ _ _ _).2; [|destruct (work_current w p)]; no_more.
  - unfold audited. destruct (work_current w p) eqn:Ec; cbn [negb]; [|no_more].
    destruct (StorageProof.auditStoredBlob _ _ _ _ _).2 as [err|]; [destruct (StorageProof.auditFailure err)|]; by eapply audit_next_adds.
Qed.

Lemma choice_ops set p : ops (choice_changes set p) = ops p.
Proof. exact (proj1 (proj2 (proj2 (proj2 (proj2 (proj2 (supersede_same (on_fields set p)))))))). Qed.
Lemma cancel_ops p : ops (cancel p) = ops p.
Proof. exact (proj1 (proj2 (proj2 (proj2 (proj2 (proj2 (supersede_same p))))))). Qed.

Lemma step_adds cx p i : panel_ok p → adds (allowed cx p) p (panel_step cx p i).
Proof.
  intros Hp. destruct i; cbn [panel_step]; cbv zeta.
  1-3: case_bool_decide; apply adds_none; [apply choice_ops|done].
  1-2: apply adds_none, choice_ops.
  1-2: by apply adds_none.
  2-4: destruct on; apply adds_none; by rewrite ?cancel_ops.
  - apply adds_none. unfold discoveryKeys_typed, abort_opt. by destruct (controller _).
  - destruct (disabled p); [by apply adds_none|]. unfold action. destruct (controller p); [by apply adds_none|]. cbv zeta.
    destruct (cx_ready cx); [by apply run_action_adds|]. apply adds_none. unfold at_once. by rewrite finish_ops.
  - apply adds_none. by rewrite cancel_ops.
  - apply adds_none. unfold choose_node. destruct (_ !! _); [apply selectOrigin_ops|done].
  - apply adds_none. unfold choose_service. destruct (_ !! _) as [[[a o] []]|]; try done. case_bool_decide; [done|].
    destruct (StorageDirectory.selectableService _ _) as [[]|]; try done.
    rewrite after_choose_ops. by destruct (reset_same (calls_for CancelsSigning p)) as (_ & _ & _ & _ & _ & -> & _).
  - by apply work_settles_adds.
  - apply adds_none, reset_same.
Qed.

(** ** What was agreed to *)

(** The same commitment to the same text of a quote. *)
Definition same_terms (a b : Checkout.Order) : Prop :=
  Checkout.or_quote_digest a = Checkout.or_quote_digest b ∧
  stringify (Checkout.quote_json (Checkout.or_quote a)) = stringify (Checkout.quote_json (Checkout.or_quote b)).

Lemma orderAction_terms o a buyer options paymentNote s s' next :
  Checkout.orderAction o a buyer options paymentNote s = (s', inr next) → same_terms o next.
Proof.
  unfold Checkout.orderAction. intros Hr. Net.run_inr.
  match goal with E : eqb _ _ && Checkout.same_text _ _ = true |- _ => apply andb_prop in E as [E1%eqb_eq E2%eqb_eq] end. by split.
Qed.

(** A consent that stands after [q] stood before it, for the same terms. *)
Definition agrees (p q : Panel) : Prop :=
  consent (fields q) = true → ∀ o, order q = Some o → consent (fields p) = true ∧ ∃ o0, order p = Some o0 ∧ same_terms o0 o.

Lemma agrees_same p q : consent (fields q) = consent (fields p) → order q = order p → agrees p q.
Proof. intros Ec Eo Hc o Ho. split; [by rewrite <- Ec|]. exists o. split; [by rewrite <- Eo|]. by split. Qed.
Lemma agrees_false p q : consent (fields q) = false → agrees p q.
Proof. intros Ec Hc. congruence. Qed.
Lemma agrees_none p q : order q = None → agrees p q.
Proof. intros Eo _ o Ho. congruence. Qed.

Lemma finish_parts v p : order (finish v p) = order p ∧ fields (finish v p) = fields p.
Proof. unfold finish. by destruct (Nat.eqb _ _). Qed.
Lemma awaits_parts cx o st p : order (awaits cx o st p) = order p ∧ fields (awaits cx o st p) = fields p.
Proof. unfold awaits. by destruct (controller p). Qed.
Lemma end_work_parts n w p : order (end_work n w p) = order p ∧ fields (end_work n w p) = fields p.
Proof. unfold end_work. destruct (finish_parts (wk_version w) (set_work n WorkOver p)) as [-> ->]. done. Qed.
Lemma render_parts now p : order (render_order now p) = order p ∧ fields (render_order now p) = fields p.
Proof. destruct (order_render_same now p) as (_ & _ & -> & _ & -> & _). done. Qed.

Ltac parts :=
  rewrite ?(proj1 (awaits_parts _ _ _ _)), ?(proj2 (awaits_parts _ _ _ _)), ?(proj1 (finish_parts _ _)), ?(proj2 (finish_parts _ _)),
    ?(proj1 (end_work_parts _ _ _)), ?(proj2 (end_work_parts _ _ _)), ?(proj1 (render_parts _ _)), ?(proj2 (render_parts _ _)).
Ltac agrees_now :=
  unfold at_once;
  first [ apply agrees_same; parts; done | apply agrees_none; parts; done | apply agrees_false; parts; done ].

Lemma selectOrigin_consent origin p : consent (fields (selectOrigin origin p)) = false.
Proof. unfold selectOrigin. by destruct (reset_same (reset (calls_for (SelectsOrigin origin) p))) as (_ & _ & _ & _ & -> & _). Qed.

Lemma after_select_consent v x d t :
  consent (fields (finish v (shows (λ v, v <| sh_selection := x |>) (t <| selectedService := x |> <| checkedService := d |>)))) = consent (fields t).
Proof. parts. done. Qed.

Lemma act_on_order_agrees cx a m q : order (act_on_order cx a m q) = order q ∧ fields (act_on_order cx a m q) = fields q.
Proof. unfold act_on_order, at_once. repeat case_match; parts; done. Qed.

Lemma run_action_agrees b cx now p q : consent (fields q) = consent (fields p) → order q = order p → agrees p (run_action b cx now q).
Proof.
  intros Ec Eo. destruct b; cbn [run_action].
  - unfold discover_nodes. cbv zeta. case_match; agrees_now.
  - unfold discover_services. cbv zeta. case_match; agrees_now.
  - unfold inspect_service. destruct (selectedService q) as [[]|]; cbv zeta; agrees_now.
  - unfold use_service. destruct (selectedService q) as [[a o]|]; [|agrees_now]. destruct (checkedService q); [|agrees_now].
    destruct (_ || _); [agrees_now|]. cbv zeta. apply agrees_false. by rewrite after_select_consent, selectOrigin_consent.
  - unfold publish_list. destruct (negb _); [agrees_now|]. destruct (cx_buyer cx); [|agrees_now].
    destruct (Discovery.buildServerList _ _ _); agrees_now.
  - unfold checkout_offers. destruct (_ && _); cbv zeta; agrees_now.
  - unfold checkout_quote. destruct (offers q); [|agrees_now]. cbv zeta. destruct (_ && _); [agrees_now|]. destruct (_ && _); [agrees_now|].
    destruct (method _); [|agrees_now]. destruct (cx_buyer cx); agrees_now.
  - unfold checkout_pay. cbv zeta. apply agrees_same; [rewrite (proj2 (act_on_order_agrees _ _ _ _))|rewrite (proj1 (act_on_order_agrees _ _ _ _))]; done.
  - apply agrees_same; unfold checkout_check; [rewrite (proj2 (act_on_order_agrees _ _ _ _))|rewrite (proj1 (act_on_order_agrees _ _ _ _))]; done.
  - unfold checkout_recover. destruct (Checkout.parseOrderReference _ _); [|agrees_now]. destruct (cx_buyer cx); agrees_now.
  - unfold storage_audit. destruct (negb _); [agrees_now|]. destruct (cx_buyer cx); [|agrees_now].
    destruct (audit_jobs cx) as [[|job jobs]|]; cbv zeta; agrees_now.
Qed.

Lemma work_settles_agrees n e cx p : panel_ok p → agrees p (work_settles n e cx p).
Proof.
  intros Hp. unfold work_settles. destruct (works p !! n) as [w|] eqn:Hw; [|agrees_now].
  destruct (wk_stage w) as [relays keys|relays|a o|template owner| |o|rq|o a b m|ref b|job rest b proofs failures|] eqn:Est; destruct e; try agrees_now.
  - unfold nodes_found. destruct (Discovery.discoverNodes _ _ _ _ _ _ _ _) as [[nodes|]|]; [destruct (work_current w p)|..]; agrees_now.
  - unfold services_found. destruct (StorageDirectory.discover _ _ _ _ _ _ _ _ _) as [marks r]. cbv zeta.
    destruct r as [[results|]|]; [destruct (work_current _ _)|..]; agrees_now.
  - unfold described. destruct (StorageDirectory.fetchServiceDescription _ _ _ _).2; [|destruct (work_current w p)]; agrees_now.
  - unfold list_signed. destruct (Nostr.signEventExactly _ _ _); [|agrees_now]. destruct (cx_relays cx); [|agrees_now].
    destruct (work_current w p); agrees_now.
  - unfold offers_loaded. destruct (Checkout.fetchOffers _ _ _).2; [agrees_now|]. destruct (work_current w p); [destruct (offers_checked _ _ _)|]; agrees_now.
  - unfold quoted. destruct (Checkout.createOrder _ _ _ _ _ _ _ _ _ _).2; [agrees_now|]. destruct (work_current w p); agrees_now.
  - unfold acted. destruct (Checkout.orderAction _ _ _ _ _ _) as [s' [|result]] eqn:Er; cbn [snd]; [agrees_now|].
    destruct (work_current w p) eqn:Ec; [|agrees_now]. intros Hc o' Ho'. revert Hc Ho'. parts. cbn. intros Hc [= <-]. split; [done|].
    destruct (k_live _ Hp n w Hw) as [_ Hst]; [apply current_live; [done|by rewrite Est]|]. rewrite Est in Hst. exists o. split; [done|].
    by eapply orderAction_terms.
  - unfold recovered. destruct (Checkout.recoverOrder _ _ _ _).2; [agrees_now|]. destruct (work_current w p); agrees_now.
  - unfold audited. destruct (work_current w p); cbn [negb]; [|agrees_now].
    destruct (StorageProof.auditStoredBlob _ _ _ _ _).2 as [err|]; [destruct (StorageProof.auditFailure err)|]; destruct rest; cbn [audit_next]; agrees_now.
Qed.

Lemma choice_consent set p : consent (fields (choice_changes set p)) = false.
Proof. done. Qed.
Lemma cancel_consent p : consent (fields (cancel p)) = false.
Proof. done. Qed.
Lemma after_choose_parts x t :
  let q := shows (λ v, v <| sh_selection := x |>) (t <| selectedService := x |>) in fields q = fields t.
Proof. done. Qed.

Lemma step_agrees cx p i : panel_ok p → i ≠ ConsentBox true → agrees p (panel_step cx p i).
Proof.
  intros Hp Hi. destruct i; cbn [panel_step]; cbv zeta.
  1-3: case_bool_decide; [apply agrees_false, choice_consent|agrees_now].
  1-2: apply agrees_false, choice_consent.
  1-2: agrees_now.
  2-4: destruct on; [first [done|agrees_now]|apply agrees_false, cancel_consent].
  - unfold discoveryKeys_typed. cbv zeta. set (q := on_fields _ p).
    destruct (abort_opt_same (controller q) q) as (_ & _ & _ & Eo & _ & Ef & _).
    apply (agrees_same p (abort_opt (controller q) q)); [by rewrite Ef|by rewrite Eo].
  - destruct (disabled p); [agrees_now|]. unfold action. destruct (controller p); [agrees_now|]. cbv zeta.
    destruct (cx_ready cx); [by apply run_action_agrees|agrees_now].
  - apply agrees_false, cancel_consent.
  - unfold choose_node. destruct (_ !! _); [apply agrees_false, selectOrigin_consent|agrees_now].
  - unfold choose_service. destruct (_ !! _) as [[[a o] []]|]; try agrees_now. case_bool_decide; [agrees_now|].
    destruct (StorageDirectory.selectableService _ _) as [[]|]; [|agrees_now..].
    apply agrees_false. rewrite after_choose_parts. by destruct (reset_same (calls_for CancelsSigning p)) as (_ & _ & _ & _ & -> & _).
  - by apply work_settles_agrees.
  - apply agrees_false, reset_same.
Qed.

Lemma same_terms_trans a b c : same_terms a b → same_terms b c → same_terms a c.
Proof. intros [E1 E2] [E3 E4]. split; congruence. Qed.

(** Earlier the consent was ticked under a quote of the same terms. *)
Definition agreed (inputs : list (Context * panel_input)) (o : Checkout.Order) : Prop :=
  ∃ before cx after seen, inputs = before ++ (cx, ConsentBox true) :: after ∧
    sh_quote (shown (panel_run before)) = Some seen ∧ same_terms seen o.

Lemma panel_run_snoc inputs x : panel_run (inputs ++ [x]) = panel_step x.1 (panel_run inputs) x.2.
Proof. unfold panel_run. by rewrite foldl_app. Qed.

Lemma run_reviewed inputs : panel_ok (panel_run inputs) ∧
  (consent (fields (panel_run inputs)) = true → ∀ o, order (panel_run inputs) = Some o → agreed inputs o).
Proof.
  induction inputs as [|[cx i] inputs [Hok Hagreed]] using rev_ind; [by split; [apply first_panel_ok|]|]. rewrite panel_run_snoc. cbn [fst snd].
  split; [by apply step_ok|]. intros Hc o Ho.
  assert (i = ConsentBox true ∨ i ≠ ConsentBox true) as [->|Hi] by (destruct i as [| | | | | | | |[]| | | | | | | |]; auto).
  - exists inputs, cx, [], o. split; [done|]. cbn in Ho. rewrite (k_shown _ Hok). by split.
  - destruct (step_agrees cx (panel_run inputs) i Hok Hi Hc o Ho) as (Hc0 & o0 & Ho0 & Hst).
    destruct (Hagreed Hc0 o0 Ho0) as (before & cx' & after & seen & -> & Hs & Hs'). exists before, cx', (after ++ [(cx, i)]), seen.
    split; [by rewrite <- app_assoc|]. split; [done|]. by eapply same_terms_trans.
Qed.

(** What an operation is started with, after these inputs. *)
Definition consented (inputs : list (Context * panel_input)) (cx : Context) (o : service_op) : Prop :=
  let p := panel_run inputs in
  match o with
  | Acts o a buyer paymentNote =>
      sh_quote (shown p) = Some o ∧ consent (fields p) = true ∧ agreed inputs o ∧ cx_buyer cx = Some buyer ∧
      (a = Checkout.CheckOrder ∨ (a = rail_action (Checkout.q_rail (Checkout.or_quote o)) ∧ paymentNote = Some (note (fields p))))
  | _ => allowed cx p o
  end.

Lemma allowed_consented inputs cx o : allowed cx (panel_run inputs) o → consented inputs cx o.
Proof.
  destruct (run_reviewed inputs) as [Hok Hagreed]. intros Ho. destruct o; try exact Ho.
  destruct Ho as (Eo & Hc & Hb & Ha). split; [by rewrite (k_shown _ Hok)|]. split; [done|]. split; [by apply Hagreed|]. by split.
Qed.

(** C8: whatever happens to the panel, resets by its page included, an order is
    paid or checked only for the connected key, as the order that is shown, by the
    payment method of its quote, while the consent is ticked and after the person
    ticked it under a quote of the same terms; a quote is asked of the offers that
    are loaded, with the plan and the method that are chosen; and a storage audit,
    or a signature or publication of a server list, starts only while its own box
    is ticked. *)
Theorem service_consented inputs cx i :
  Forall (consented inputs cx) (drop (length (ops (panel_run inputs))) (ops (panel_step cx (panel_run inputs) i))).
Proof.
  destruct (step_adds cx (panel_run inputs) i (proj1 (run_reviewed inputs))) as (l & -> & Hl).
  rewrite drop_app_length. eapply Forall_impl; [exact Hl|]. apply allowed_consented.
Qed.

(** ** The directory, and what has been superseded

    Whatever happens, the directory keeps its order, the revision only grows, and
    an action keeps the revision it was started under. *)

Definition grown (m m' : StorageDirectory.Watermarks) : Prop :=
  StorageDirectory.directory_ok m' ∧
  ∀ key prior, StorageDirectory.mark_get key m = Some prior →
    ∃ v, StorageDirectory.mark_get key m' = Some v ∧ StorageDirectory.mark_order v prior.

Lemma grown_refl m : StorageDirectory.directory_ok m → grown m m.
Proof. intros Hm. split; [done|]. intros key prior Hp. exists prior. split; [done|apply StorageDirectory.mark_order_refl]. Qed.

Lemma discover_grown m relays prof ms asked history now b a : StorageDirectory.directory_ok m →
  grown m (StorageDirectory.discover m relays prof ms asked history now b a).1.
Proof.
  intros Hm. unfold StorageDirectory.discover. cbv zeta. destruct (rbind _ _) as [targets|]; [|by apply grown_refl].
  destruct (mapM _ _) as [results|]; [|by apply grown_refl]. destruct a; [by apply grown_refl|].
  destruct (forallb _ _); [by apply grown_refl|].
  destruct (StorageDirectory.accept_spec m (Discovery.events_of results) now Hm) as (Hok & Hk & _).
  destruct (StorageDirectory.accept _ _ _) as [marks r]. by split.
Qed.

Record extends (p q : Panel) : Prop := {
  x_directory : directory q = directory p;
  x_revision : (revision p <= revision q)%nat;
  x_works : ∀ n w, works p !! n = Some w → ∃ v, works q !! n = Some v ∧ wk_version v = wk_version w;
}.

Lemma extends_same p q : directory q = directory p → (revision p <= revision q)%nat → works q = works p → extends p q.
Proof. intros Ed Er Ew. split; [done|done|]. rewrite Ew. eauto. Qed.
Lemma extends_refl p : extends p p.
Proof. by apply extends_same. Qed.
Lemma extends_trans p q r : extends p q → extends q r → extends p r.
Proof.
  intros [Ed1 Er1 Ew1] [Ed2 Er2 Ew2]. split; [congruence|lia|]. intros n w Hw. destruct (Ew1 n w Hw) as (v & Hv & Ev).
  destruct (Ew2 n v Hv) as (u & Hu & Eu). exists u. split; [done|congruence].
Qed.

Lemma extends_finish p q v : extends p q → extends p (finish v q).
Proof. intros [Ed Er Ew]. unfold finish. by destruct (Nat.eqb _ _). Qed.
Lemma extends_set_work p q n st : extends p q → extends p (set_work n st q).
Proof.
  intros Hx. apply (extends_trans p q); [done|]. split; [done|done|]. intros m w Hw. cbn. destruct (decide (m = n)) as [->|Hne].
  - rewrite list_lookup_alter_eq, Hw. by eexists.
  - rewrite list_lookup_alter_ne by done. by exists w.
Qed.
Lemma extends_end p q n w : extends p q → extends p (end_work n w q).
Proof. intros. by apply extends_finish, extends_set_work. Qed.
Lemma extends_awaits p q cx o st : extends p q → extends p (awaits cx o st q).
Proof.
  intros Hx. unfold awaits. destruct (controller q); [|done]. apply (extends_trans p q); [done|]. split; [done|done|].
  intros m w Hw. exists w. split; [|done]. cbn. by apply lookup_app_l_Some.
Qed.
Lemma extends_supersede p q : extends p q → extends p (supersede q) ∧ (revision p < revision (supersede q))%nat.
Proof.
  intros Hx. destruct (supersede_same q) as (Ew & Er & _). split; [|rewrite Er; destruct Hx; lia].
  apply (extends_trans p q); [done|]. apply extends_same; [by unfold supersede, abort_opt; destruct (controller q)|lia|done].
Qed.
Lemma extends_reset p q : extends p q → extends p (reset q) ∧ (revision p < revision (reset q))%nat.
Proof. intros Hx. destruct (extends_supersede p q Hx) as [[Ed Er Ew] Hlt]. by split. Qed.
Lemma extends_select p q origin : extends p q → extends p (selectOrigin origin q) ∧ (revision p < revision (selectOrigin origin q))%nat.
Proof.
  intros Hx. unfold selectOrigin. apply extends_reset, extends_reset. destruct Hx as [Ed Er Ew]. by split.
Qed.
Lemma extends_render p q now : extends p q → extends p (render_order now q).
Proof.
  intros Hx. apply (extends_trans p q); [done|]. destruct (order_render_same now q) as (Ew & Er & _).
  apply extends_same; [|lia|done]. unfold render_order, save_link, download. cbv zeta. repeat case_match; done.
Qed.

Ltac extending :=
  unfold at_once;
  repeat lazymatch goal with
    | |- extends _ (finish _ _) => apply extends_finish
    | |- extends _ (awaits _ _ _ _) => apply extends_awaits
    | |- extends _ (end_work _ _ _) => apply extends_end
    | |- extends _ (set_work _ _ _) => apply extends_set_work
    | |- extends _ (render_order _ _) => apply extends_render
    end;
  first [ assumption | apply extends_same; [reflexivity|apply Nat.le_refl|reflexivity] ].

Lemma act_on_order_extends cx a m p q : extends p q → extends p (act_on_order cx a m q).
Proof. intros Hx. unfold act_on_order. destruct (order q); [|extending]. destruct (cx_buyer cx); [|extending]. destruct (consent _); extending. Qed.

Lemma run_action_extends b cx now p : extends p (run_action b cx now p).
Proof.
  destruct b; cbn [run_action].
  - unfold discover_nodes. cbv zeta. case_match; extending.
  - unfold discover_services. cbv zeta. case_match; extending.
  - unfold inspect_service. destruct (selectedService p) as [[]|]; cbv zeta; extending.
  - unfold use_service. destruct (selectedService p) as [[a o]|]; [|extending]. destruct (checkedService p); [|extending].
    destruct (_ || _); [extending|]. cbv zeta. apply extends_finish.
    destruct (extends_select p p o (extends_refl p)) as [Hx _]. revert Hx. generalize (selectOrigin o p). intros t [Ed Er Ew]. by split.
  - unfold publish_list. destruct (negb _); [extending|]. destruct (cx_buyer cx); [|extending]. destruct (Discovery.buildServerList _ _ _); extending.
  - unfold checkout_offers. destruct (_ && _); cbv zeta; extending.
  - unfold checkout_quote. destruct (offers p); [|extending]. cbv zeta. destruct (_ && _); [extending|]. destruct (_ && _); [extending|].
    destruct (method _); [|extending]. destruct (cx_buyer cx); extending.
  - unfold checkout_pay. cbv zeta. apply act_on_order_extends. extending.
  - unfold checkout_check. apply act_on_order_extends. extending.
  - unfold checkout_recover. destruct (Checkout.parseOrderReference _ _); [|extending]. destruct (cx_buyer cx); extending.
  - unfold storage_audit. destruct (negb _); [extending|]. destruct (cx_buyer cx); [|extending].
    destruct (audit_jobs cx) as [[|job jobs]|]; cbv zeta; extending.
Qed.

Lemma audit_next_extends n w rest buyer proofs failures p : extends p (audit_next n w rest buyer proofs failures p).
Proof.
  unfold audit_next. destruct rest as [|job rest]; [extending|].
  apply (extends_trans p (set_work n (Auditing job rest buyer proofs failures) p)); extending.
Qed.

(** What is started stays, and the directory grows. *)
Definition goes_on (p q : Panel) : Prop :=
  ∃ marks, grown (directory p) marks ∧ extends (p <| directory := marks |>) q.

Lemma goes_on_extends p q : StorageDirectory.directory_ok (directory p) → extends p q → goes_on p q.
Proof. intros Hd [Ed Er Ew]. exists (directory p). split; [by apply grown_refl|]. by split. Qed.

Lemma work_settles_goes n e cx p : StorageDirectory.directory_ok (directory p) → goes_on p (work_settles n e cx p).
Proof.
  intros Hd. unfold work_settles. destruct (works p !! n) as [w|] eqn:Hw; [|apply goes_on_extends, extends_refl; done].
  destruct (wk_stage w) as [relays keys|relays|a o|template owner| |o|rq|o a b m|ref b|job rest b proofs failures|] eqn:Est; destruct e;
    try (apply goes_on_extends; [done|apply extends_refl]).
  all: try match goal with Hs : wk_stage _ = FindingServices _ |- _ => fail 1 | _ => apply goes_on_extends; [done|] end.
  - unfold nodes_found. destruct (Discovery.discoverNodes _ _ _ _ _ _ _ _) as [[nodes|]|]; [destruct (work_current w p)|..]; extending.
  - unfold services_found.
    match goal with |- context [StorageDirectory.discover ?d ?r ?pr ?ms ?as_ ?h ?t ?b ?a] => pose proof (discover_grown d r pr ms as_ h t b a Hd) as Hg end.
    destruct (StorageDirectory.discover _ _ _ _ _ _ _ _ _) as [marks r]. cbv zeta. exists marks. split; [exact Hg|].
    destruct r as [[results|]|]; [destruct (work_current _ _)|..]; extending.
  - unfold described. destruct (StorageDirectory.fetchServiceDescription _ _ _ _).2; [|destruct (work_current w p)]; extending.
  - unfold list_signed. destruct (Nostr.signEventExactly _ _ _); [|extending]. destruct (cx_relays cx); [|extending].
    destruct (work_current w p); [|extending]. apply (extends_trans p (set_work n PublishingList p)); extending.
  - extending.
  - unfold offers_loaded. destruct (Checkout.fetchOffers _ _ _).2; [extending|]. destruct (work_current w p); [destruct (offers_checked _ _ _)|]; extending.
  - unfold quoted. destruct (Checkout.createOrder _ _ _ _ _ _ _ _ _ _).2; [extending|]. destruct (work_current w p); extending.
  - unfold acted. destruct (Checkout.orderAction _ _ _ _ _ _).2; [extending|]. destruct (work_current w p); extending.
  - unfold recovered. destruct (Checkout.recoverOrder _ _ _ _).2; [extending|]. destruct (work_current w p); extending.
  - unfold audited. destruct (work_current w p); cbn [negb]; [|extending].
    destruct (StorageProof.auditStoredBlob _ _ _ _ _).2 as [err|]; [destruct (StorageProof.auditFailure err)|]; apply audit_next_extends.
Qed.

(** The inputs that end what is under way: a choice or a consent is changed, the
    action is cancelled, a node is chosen, or the page resets the panel. *)
Definition superseding (p : Panel) (i : panel_input) : bool :=
  match i with
  | PlanChosen v => bool_decide (v ∈ plans (fields p))
  | RailChosen r => bool_decide (r ∈ methods (fields p))
  | IssuerChosen v => bool_decide (v ∈ issuers (fields p))
  | RenewsChanged _ | RefundToChanged _ | CancelPressed | PageResets => true
  | ConsentBox on | ProofBox on | ListBox on => negb on
  | NodeChosen k => bool_decide (is_Some (sh_nodes (shown p) !! k))
  | _ => false
  end.

Lemma choice_extends set p : extends p (choice_changes set p) ∧ (revision p < revision (choice_changes set p))%nat.
Proof. destruct (extends_supersede p (on_fields set p)) as [[Ed Er Ew] Hlt]; [by apply extends_same|]. by split. Qed.
Lemma cancel_extends f p : extends p (cancel (on_fields f p)) ∧ (revision p < revision (cancel (on_fields f p)))%nat.
Proof. destruct (extends_supersede p (on_fields f p)) as [[Ed Er Ew] Hlt]; [by apply extends_same|]. by split. Qed.

Lemma superseding_extends cx p i : superseding p i = true → extends p (panel_step cx p i) ∧ (revision p < revision (panel_step cx p i))%nat.
Proof.
  assert (extends p (cancel p) ∧ (revision p < revision (cancel p))%nat) as Hcancel.
  { pose proof (cancel_extends (λ f, f) p) as Hc. by destruct p. }
  destruct i; cbn [superseding panel_step]; cbv zeta; try done.
  1-3: intros ->; by apply choice_extends.
  1-2: intros _; by apply choice_extends.
  1-3: destruct on; [done|]; intros _; by apply cancel_extends.
  - intros [node Hn]%bool_decide_eq_true. unfold choose_node. rewrite Hn. apply extends_select, extends_refl.
  - intros _. apply extends_reset, extends_refl.
Qed.

Lemma panel_step_goes cx p i : StorageDirectory.directory_ok (directory p) → goes_on p (panel_step cx p i).
Proof.
  intros Hd. destruct (superseding p i) eqn:Es; [by apply goes_on_extends, superseding_extends|].
  destruct i; try discriminate Es; cbn [panel_step] in *; cbv zeta; try by apply work_settles_goes.
  all: apply goes_on_extends; [done|].
  1-3: cbn [superseding] in Es; rewrite Es; apply extends_refl.
  1-2: by apply extends_same.
  - unfold discoveryKeys_typed, abort_opt. cbv zeta. destruct (controller _); by apply extends_same.
  - destruct on; [by apply extends_same|done].
  - destruct on; [by apply extends_same|done].
  - destruct on; [by apply extends_same|done].
  - destruct (disabled p); [apply extends_refl|]. unfold action. destruct (controller p); [apply extends_refl|]. cbv zeta.
    eapply extends_trans; [|destruct (cx_ready cx); [apply run_action_extends|extending]]. by apply extends_same.
  - cbn [superseding] in Es. unfold choose_node. destruct (_ !! _); [|apply extends_refl]. by rewrite bool_decide_eq_false in Es; destruct Es.
  - unfold choose_service. destruct (_ !! _) as [[[a o] []]|]; try apply extends_refl. case_bool_decide; [apply extends_refl|].
    destruct (StorageDirectory.selectableService _ _) as [[]|]; [|by apply extends_same|apply extends_refl].
    destruct (extends_reset p (calls_for CancelsSigning p)) as [Hx _]; [by apply extends_same|]. revert Hx.
    generalize (reset (calls_for CancelsSigning p)). intros t [Ed Er Ew]. by split.
Qed.

Lemma run_directory inputs : StorageDirectory.directory_ok (directory (panel_run inputs)).
Proof.
  induction inputs as [|x inputs IH] using rev_ind.
  - split; [done|]. unfold StorageDirectory.MAX_RECORDS. change (zlen (@nil (jstr * StorageDirectory.ParsedStorageAnnouncement)) <= 512). rewrite zlen_nil. lia.
  - rewrite panel_run_snoc. destruct (panel_step_goes x.1 _ x.2 IH) as (marks & [Hok _] & [Ed _ _]). rewrite Ed. exact Hok.
Qed.

Lemma stale_end n w p : wk_version w ≠ revision p → end_work n w p = set_work n WorkOver p.
Proof. intros Hv. unfold end_work, finish. cbn. destruct (Nat.eqb_spec (revision p) (wk_version w)); [done|done]. Qed.

Lemma stale_current w p : wk_version w ≠ revision p → work_current w p = false.
Proof. intros Hv. unfold work_current. destruct (Nat.eqb_spec (revision p) (wk_version w)); [congruence|]. by rewrite andb_false_r. Qed.

(** The action stands at [st], and the directory may have grown: nothing else has
    changed. *)
Definition only_moved (n : nat) (w : Work) (p q : Panel) : Prop :=
  ∃ st marks, q = set_work n st p <| directory := marks |> ∧ (st = wk_stage w ∨ st = WorkOver) ∧ grown (directory p) marks.

Lemma stale_settles n w e cx p : StorageDirectory.directory_ok (directory p) → works p !! n = Some w → wk_version w ≠ revision p →
  only_moved n w p (work_settles n e cx p).
Proof.
  intros Hd Hw Hv. pose proof (grown_refl _ Hd) as Hg. unfold work_settles. rewrite Hw.
  assert (∀ marks, grown (directory p) marks → only_moved n w p (p <| directory := marks |>)) as Hstay.
  { intros marks Hm. exists (wk_stage w), marks. split; [|by auto]. unfold set_work.
    replace (alter (λ w0, w0 <| wk_stage := wk_stage w |>) n (works p)) with (works p); [by destruct p|].
    symmetry. apply list_eq. intros m. destruct (decide (m = n)) as [->|Hne]; [|by rewrite list_lookup_alter_ne].
    rewrite list_lookup_alter_eq, Hw. by destruct w. }
  assert (∀ marks, grown (directory p) marks → only_moved n w p (set_work n WorkOver p <| directory := marks |>)) as Hover.
  { intros marks Hm. exists WorkOver, marks. by auto. }
  assert (only_moved n w p p) as Hsame by (pose proof (Hstay _ Hg) as Hs; by destruct p).
  assert (only_moved n w p (set_work n WorkOver p)) as Hend by (pose proof (Hover _ Hg) as Hs; by destruct p).
  pose proof (stale_end n w p Hv) as Eend. pose proof (stale_current w p Hv) as Ecur.
  destruct (wk_stage w) as [relays keys|relays|a o|template owner| |o|rq|o a b m|ref b|job rest b proofs failures|]; destruct e; try exact Hsame.
  - unfold nodes_found. rewrite Ecur, Eend. by destruct (Discovery.discoverNodes _ _ _ _ _ _ _ _) as [[nodes|]|].
  - unfold services_found.
    match goal with |- context [StorageDirectory.discover ?d ?r ?pr ?ms ?as_ ?h ?t ?b ?a] => pose proof (discover_grown d r pr ms as_ h t b a Hd) as Hgr end.
    destruct (StorageDirectory.discover _ _ _ _ _ _ _ _ _) as [marks r]. cbn [fst] in Hgr. cbv zeta.
    assert (work_current w (p <| directory := marks |>) = false) as -> by exact Ecur.
    rewrite !(stale_end n w (p <| directory := marks |>)) by exact Hv. destruct r as [[results|]|]; [exact (Hover _ Hgr)|exact (Hstay _ Hgr)|exact (Hover _ Hgr)].
  - unfold described. rewrite Ecur, Eend. by destruct (StorageDirectory.fetchServiceDescription _ _ _ _).2.
  - unfold list_signed. rewrite Ecur, Eend. destruct (Nostr.signEventExactly _ _ _); [by destruct (cx_relays cx)|done].
  - by rewrite Eend.
  - unfold offers_loaded. rewrite Ecur, Eend. by destruct (Checkout.fetchOffers _ _ _).2.
  - unfold quoted. rewrite Ecur, Eend. by destruct (Checkout.createOrder _ _ _ _ _ _ _ _ _ _).2.
  - unfold acted. rewrite Ecur, Eend. by destruct (Checkout.orderAction _ _ _ _ _ _).2.
  - unfold recovered. rewrite Ecur, Eend. by destruct (Checkout.recoverOrder _ _ _ _).2.
  - unfold audited. rewrite Ecur, Eend. done.
Qed.

(** An action that something has superseded. *)
Definition superseded (p : Panel) (n : nat) : Prop := ∃ w, works p !! n = Some w ∧ (wk_version w < revision p)%nat.

(** C11: when a choice or the checkout's text changes, the action is cancelled, a
    consent is withdrawn, a found node is chosen or the page resets the panel, every
    action under way is superseded, and whatever happens next it stays so. A
    superseded action lands nowhere: whatever it comes to, the panel stays as it
    was but for where that one action stands, which is where it stood or its end,
    and for the directory of announcements, where no announcement gives way to an
    older one. *)
Theorem superseded_lands_nowhere inputs cx i (p := panel_run inputs) (q := panel_step cx p i) :
  (superseding p i = true → ∀ n, is_Some (works p !! n) → superseded q n) ∧
  (∀ n, superseded p n → superseded q n) ∧
  (∀ n e w, works p !! n = Some w → superseded p n → only_moved n w p (work_settles n e cx p)).
Proof.
  destruct (run_reviewed inputs) as [Hok _]. pose proof (run_directory inputs) as Hd. split_and!.
  - intros Hs n [w Hw]. destruct (superseding_extends cx p i Hs) as [[_ _ Ew] Hlt]. destruct (Ew n w Hw) as (v & Hv & Ev).
    pose proof (proj1 (Forall_lookup _ _) (k_past _ Hok) n w Hw) as Hle. cbn in Hle. exists v. split; [done|]. rewrite Ev. unfold q, p in *. lia.
  - intros n (w & Hw & Hlt). destruct (panel_step_goes cx p i Hd) as (marks & _ & [_ Er Ew]). destruct (Ew n w Hw) as (v & Hv & Ev).
    exists v. split; [done|]. cbn in Er. rewrite Ev. unfold q, p in *. lia.
  - intros n e w Hw (w' & Hw' & Hlt). rewrite Hw in Hw'. injection Hw' as <-. apply stale_settles; [done..|lia].
Qed.
End Facts.
