(* ===== verification/ServicesPage.v ===== *)
(** * The panel on the page ([main.ts] and [services-ui.ts])

    The publishing page mounts the panel with a context that reads its own
    state, resets it whenever it resets a publication or a resolution, and does
    what the panel asks of it. So the offers the panel shows, and the quotes it
    asks for, are those of the server in the page's own field under the page's
    profile. *)

From S2P Require Import Prelude JsString Utf8 Bytes Json JsValue Security MainState MainFacts MainPublish MainSign MainPage MainServer.
From S2P Require Nostr Net Envelope Torrent Relay Pool Discovery ServicesHttp Checkout StorageDirectory StorageProof.
From S2P Require Import ServicesPanel PanelFacts.

Section Both.
Context `{Unicode} `{Web} `{Numbers} `{Nostr.NostrTools} `{Envelope.Cipher} `{Net.Net} `{Torrent.TorrentLibrary} `{Pool.Ranking}.
Context `{!ServicesHttp.BuyerSigner} `{Checkout.Invoices} `{StorageDirectory.Announcements} `{!StorageProof.Randomness} `{Uuids}.

(** The context of the panel; [nostr] is whether [window.nostr] is there. *)
Definition context_of (nostr : bool) (s : Page) : Context :=
  mkContext (profile s) (assertTorReady s) (relays s) (if negb (pageSessionEnded s) && signer_there nostr s then pubkey s else None)
    (blossomInput (form s)) (option_map snd (resolved (ret s))) (resolvedPool (ret s)).

(** [nodeServices?.reset()] is called where a revision grows. *)
Definition resets_between (s s' : Page) : nat :=
  (publicationRevision (pub s') - publicationRevision (pub s)) + (resolutionRevision (ret s') - resolutionRevision (ret s)).

Definition answer_call (s : Page) (c : context_call) : Page :=
  match c with CancelsSigning => main_step s ServiceCancelsSigning | SelectsOrigin origin => main_step s (SelectOrigin origin) end.

Inductive both_input : Type := OnPage (i : main_input) | OnPanel (nostr : bool) (i : panel_input).

Definition both_step (sp : Page * Panel) (i : both_input) : Page * Panel :=
  let '(s, p) := sp in
  match i with
  | OnPage (PageShow true) => (first_page, first_panel)
  | OnPage i => let s' := main_step s i in (s', Nat.iter (resets_between s s') reset p)
  | OnPanel nostr i =>
      let p' := panel_step (context_of nostr s) p i in (foldl answer_call s (drop (length (calls p)) (calls p')), p')
  end.

Definition both_run (inputs : list both_input) : Page * Panel := foldl both_step (first_page, first_panel) inputs.
End Both.

Section Facts.
Context `{Unicode} `{Web} `{Numbers} `{Nostr.NostrTools} `{Envelope.Cipher} `{Net.Net} `{Torrent.TorrentLibrary} `{Pool.Ranking}.
Context `{!ServicesHttp.BuyerSigner} `{Checkout.Invoices} `{StorageDirectory.Announcements} `{!StorageProof.Randomness} `{Uuids}.

(** ** Offers, and where they come from *)

Definition offers_from (origin : jstr) (prof : NetworkProfile) (os : Checkout.Offers) : Prop :=
  ∃ base, Checkout.endpoint origin (options_of prof) = Ok base ∧ Checkout.endpoint base (options_of prof) = Ok (Checkout.os_node_origin os).

Lemma fetchOffers_from origin prof s s' os : Checkout.fetchOffers origin (options_of prof) s = (s', inr os) → offers_from origin prof os.
Proof.
  unfold Checkout.fetchOffers. intros Hr. Net.run_inr. eexists. split; [done|]. unfold Checkout.validateOffers in *. inv_ok.
  destruct (Checkout.bounded_list (Checkout.at_ "offers" _) 1 32); [|done]. destruct (Checkout.bounded_list (Checkout.at_ "rails" _) 1 2); [|done].
  destruct (Checkout.bounded_list (Checkout.at_ "issuers" _) 0 32); [|done].
  match goal with E : (match ?features with Some _ => _ | None => _ end) = Ok _ |- _ => destruct features; [|done] end. by inv_ok.
Qed.

Lemma offers_checked_from origin prof os now p os' : offers_from origin prof os → offers_checked os now p = Ok os' → offers_from origin prof os'.
Proof.
  intros Hf. unfold offers_checked. destruct (selectedService p); [|by intros [= <-]]. destruct (checkedService p); [|done].
  intros Hr. inv_ok. unfold StorageDirectory.matchDiscoveredOffers in *. inv_ok. exact Hf.
Qed.

(** ** How a step of the panel changes them *)

Definition loads (p : Panel) (origin : jstr) (prof : NetworkProfile) : Prop :=
  ∃ n w, works p !! n = Some w ∧ live p w ∧ wk_stage w = LoadingOffers origin ∧ wk_profile w = prof.

Record follows (cx : Context) (p q : Panel) : Prop := {
  f_offers : ∀ os, offers q = Some os → offers p = Some os ∨ ∃ origin prof, loads p origin prof ∧ offers_from origin prof os;
  f_loads : ∀ origin prof, loads q origin prof → loads p origin prof ∨ (origin = cx_origin cx ∧ prof = cx_profile cx);
  f_calls : ∃ l, calls q = calls p ++ l ∧
    (Forall (eq CancelsSigning) l ∨ (offers q = None ∧ ∀ origin prof, ¬ loads q origin prof));
}.

Lemma no_calls (P : list context_call → Prop) p q : calls q = calls p → P [] → ∃ l, calls q = calls p ++ l ∧ P l.
Proof. intros E Hp. exists []. by rewrite app_nil_r. Qed.

(** Nothing that loads is added. *)
Lemma follows_same cx p q : panel_ok p → offers q = offers p ∨ offers q = None → works q = works p → (revision p <= revision q)%nat →
  (∃ l, calls q = calls p ++ l ∧ Forall (eq CancelsSigning) l) → follows cx p q.
Proof.
  intros Hp Ho Ew Er (l & Ec & Hl). split.
  - intros os Hos. left. destruct Ho; congruence.
  - intros origin prof (n & w & Hw & [Hov Hv] & Hst). rewrite Ew in Hw. left. exists n, w. split; [done|]. split; [|done]. split; [done|].
    pose proof (proj1 (Forall_lookup _ _) (k_past _ Hp) n w Hw) as Hle. cbn in Hle. lia.
  - exists l. auto.
Qed.

Lemma follows_awaits cx p q o st : offers q = offers p ∨ offers q = None → works q = works p → revision q = revision p → calls q = calls p →
  (∀ origin, st = LoadingOffers origin → origin = cx_origin cx) → follows cx p (awaits cx o st q).
Proof.
  intros Ho Ew Er Ec Hst. unfold awaits. destruct (controller q) as [c|].
  - split; cbn.
    + intros os Hos. left. destruct Ho; congruence.
    + intros origin prof (n & w & Hw & [Hov Hv] & Hs & Hpr). cbn in Hw, Hv. apply lookup_app_Some in Hw as [Hw|[_ Hw]].
      * left. exists n, w. rewrite Ew in Hw. split; [done|]. split; [split; congruence|done].
      * apply list_lookup_singleton_Some in Hw as [_ <-]. right. cbn in Hs, Hpr. split; [by apply Hst|done].
    + apply no_calls; [done|]. by left.
  - split.
    + intros os Hos. left. destruct Ho; congruence.
    + intros origin prof (n & w & Hw & [Hov Hv] & Hs). rewrite Ew in Hw. left. exists n, w. split; [done|]. split; [split; congruence|done].
    + apply no_calls; [done|]. by left.
Qed.

Lemma follows_finish cx p q v : follows cx p q → follows cx p (finish v q).
Proof. intros Hf. unfold finish. destruct (Nat.eqb _ _); [|done]. by destruct Hf. Qed.

(** A stage that does not load takes the place of one, with a result. *)
Lemma follows_set cx p q n st : works q = works p → revision q = revision p → calls q = calls p →
  (∀ origin, st ≠ LoadingOffers origin) →
  (∀ os, offers q = Some os → offers p = Some os ∨ ∃ origin prof, loads p origin prof ∧ offers_from origin prof os) →
  follows cx p (set_work n st q).
Proof.
  intros Ew Er Ec Hst Ho. split.
  - exact Ho.
  - intros origin prof (m & w & Hw & [Hov Hv] & Hs). apply lookup_set_work in Hw as [(-> & w0 & _ & ->)|[_ Hw]]; [by destruct Hs as [Hs _]; destruct (Hst origin)|].
    cbn in Hv. rewrite Er in Hv. rewrite Ew in Hw. left. exists m, w. split; [done|]. by split.
  - apply no_calls; [done|]. by left.
Qed.

Lemma follows_end cx p q n w : works q = works p → revision q = revision p → calls q = calls p →
  (∀ os, offers q = Some os → offers p = Some os ∨ ∃ origin prof, loads p origin prof ∧ offers_from origin prof os) → follows cx p (end_work n w q).
Proof. intros. unfold end_work. by apply follows_finish, follows_set. Qed.

Lemma selectOrigin_follows cx origin p q : panel_ok q → calls q = calls p → follows cx p (selectOrigin origin q).
Proof.
  intros Hq Ec. destruct (selectOrigin_quiet origin q Hq) as [_ Hn].
  assert (offers (selectOrigin origin q) = None ∧ calls (selectOrigin origin q) = calls p ++ [SelectsOrigin origin]) as [Eo Ecs].
  { unfold selectOrigin. destruct (reset_same (reset (calls_for (SelectsOrigin origin) q))) as (_ & _ & _ & _ & _ & _ & -> & ->).
    destruct (reset_same (calls_for (SelectsOrigin origin) q)) as (_ & _ & _ & _ & _ & _ & _ & ->). cbn. by rewrite Ec. }
  assert (∀ o prof, ¬ loads (selectOrigin origin q) o prof) as Hno by (intros o prof (n & w & Hw & Hl & _); by apply (Hn n w)).
  split; [intros os Hos; congruence|intros o prof Hl; by destruct (Hno o prof)|]. exists [SelectsOrigin origin]. auto.
Qed.

(** The same after the controller of the action is there. *)
Lemma follows_after cx p p' q : offers p' = offers p → calls p' = calls p → works p' = works p → revision p' = revision p →
  follows cx p' q → follows cx p q.
Proof.
  intros Eo Ec Ew Er [Ho Hl Hc].
  assert (∀ origin prof, loads p' origin prof → loads p origin prof) as Hback.
  { intros origin prof (n & w & Hw & [Hov Hv] & Hst). rewrite Ew in Hw. rewrite Er in Hv. by exists n, w. }
  split.
  - intros os Hos. destruct (Ho os Hos) as [|(origin & prof & ? & ?)]; [left; congruence|right; exists origin, prof; auto].
  - intros origin prof Hq. destruct (Hl origin prof Hq); auto.
  - by rewrite <- Ec.
Qed.

(** An action that ends at once, with what it changed. *)
Ltac ended Hq := unfold at_once; apply follows_finish, follows_same; [exact (proj1 Hq)|by auto|done|done|by apply no_calls].
Ltac goes Hq := first [ ended Hq | apply follows_awaits; [by auto|done|done|done|by intros ? [=]] ].

Lemma use_service_follows cx now q : quiet q → follows cx q (use_service now q).
Proof.
  intros Hq. unfold use_service. destruct (selectedService q) as [[a o]|]; [|ended Hq]. destruct (checkedService q) as [d|]; [|ended Hq].
  destruct (_ || _); [ended Hq|]. cbv zeta. apply follows_finish.
  pose proof (selectOrigin_follows cx o q q (proj1 Hq) eq_refl) as Hf. revert Hf. generalize (selectOrigin o q). intros t [Ho Hl Hc]. by split.
Qed.

Lemma act_on_order_follows cx a m q p : panel_ok q → works q = works p → offers q = offers p → revision q = revision p → calls q = calls p →
  quiet p → follows cx p (act_on_order cx a m q).
Proof.
  intros Hq Ew Eo Er Ec Hp. unfold act_on_order, at_once.
  assert (∀ v, follows cx p (finish v q)) as Hend.
  { intros v. apply follows_finish, follows_same; [apply Hp|by left|done|lia|by apply no_calls]. }
  destruct (order q); [|done]. destruct (cx_buyer cx); [|done]. destruct (consent _); [|done].
  apply follows_awaits; [by left|done..].
Qed.

Lemma run_action_follows b cx now q : quiet q → follows cx q (run_action b cx now q).
Proof.
  intros Hq. destruct b; cbn [run_action].
  - unfold discover_nodes. cbv zeta. case_match; goes Hq.
  - unfold discover_services. cbv zeta. case_match; goes Hq.
  - unfold inspect_service. destruct (selectedService q) as [[]|]; cbv zeta; goes Hq.
  - by apply use_service_follows.
  - unfold publish_list. destruct (negb _); [goes Hq|]. destruct (cx_buyer cx); [|goes Hq]. destruct (Discovery.buildServerList _ _ _); goes Hq.
  - unfold checkout_offers. destruct (_ && _); cbv zeta; goes Hq.
  - unfold checkout_quote. destruct (offers q) eqn:Eos; [|goes Hq]. cbv zeta. destruct (_ && _); [goes Hq|]. destruct (_ && _); [goes Hq|].
    destruct (method _); [|goes Hq]. destruct (cx_buyer cx); goes Hq.
  - unfold checkout_pay. cbv zeta. by apply act_on_order_follows; [destruct (proj1 Hq)|..].
  - unfold checkout_check. by apply act_on_order_follows; [apply Hq|..].
  - unfold checkout_recover. destruct (Checkout.parseOrderReference _ _); [|goes Hq]. destruct (cx_buyer cx); goes Hq.
  - unfold storage_audit. destruct (negb _); [goes Hq|]. destruct (cx_buyer cx); [|goes Hq].
    destruct (audit_jobs cx) as [[|job jobs]|]; cbv zeta; goes Hq.
Qed.

Lemma render_keeps now p : offers (render_order now p) = offers p ∧ calls (render_order now p) = calls p ∧ works (render_order now p) = works p ∧
  revision (render_order now p) = revision p.
Proof. unfold render_order, save_link, download. cbv zeta. repeat case_match; done. Qed.

Lemma render_follows cx n w p q now : offers q = offers p → works q = works p → revision q = revision p → calls q = calls p →
  follows cx p (end_work n w (render_order now q)).
Proof.
  intros Eo Ew Er Ec. destruct (render_keeps now q) as (Eo' & Ec' & Ew' & Er').
  apply follows_end; [congruence..|]. rewrite Eo', Eo. auto.
Qed.

Lemma audit_next_follows cx n w rest buyer proofs failures p : follows cx p (audit_next n w rest buyer proofs failures p).
Proof.
  unfold audit_next. destruct rest as [|job rest]; [apply follows_end; try done; by auto|].
  assert (follows cx p (set_work n (Auditing job rest buyer proofs failures) p)) as [] by (apply follows_set; [done..|by auto]). by split.
Qed.

Ltac ends := apply follows_end; [done|done|done|by auto].

Lemma work_settles_follows n e cx p : panel_ok p → follows cx p (work_settles n e cx p).
Proof.
  intros Hp. unfold work_settles.
  assert (follows cx p p) as Hrefl by (apply follows_same; [done|by left|done|done|by apply no_calls]).
  destruct (works p !! n) as [w|] eqn:Hw; [|done].
  destruct (wk_stage w) as [relays keys|relays|a o|template owner| |o|rq|o a b m|ref b|job rest b proofs failures|] eqn:Est; destruct e; try done.
  - unfold nodes_found. destruct (Discovery.discoverNodes _ _ _ _ _ _ _ _) as [[nodes|]|]; [destruct (work_current w p)|done|]; ends.
  - unfold services_found. destruct (StorageDirectory.discover _ _ _ _ _ _ _ _ _) as [marks r]. cbv zeta.
    destruct r as [[results|]|]; [destruct (work_current _ _); ends| |ends]. apply follows_same; [done|by left|done|done|by apply no_calls].
  - unfold described. destruct (StorageDirectory.fetchServiceDescription _ _ _ _).2; [|destruct (work_current w p)]; ends.
  - unfold list_signed. destruct (Nostr.signEventExactly _ _ _); [|ends]. destruct (cx_relays cx); [|ends].
    destruct (work_current w p); [|ends].
    assert (follows cx p (set_work n PublishingList p)) as [] by (apply follows_set; [done..|by auto]). by split.
  - ends.
  - unfold offers_loaded. destruct (Checkout.fetchOffers _ _ _) as [s' [|result]] eqn:Ef; cbn [snd]; [ends|].
    destruct (work_current w p) eqn:Ec; [|ends]. destruct (offers_checked _ _ _) as [os|] eqn:Eos; [|ends].
    apply follows_end; [done|done|done|]. intros os' [= <-]. right. exists o, (wk_profile w). split.
    + exists n, w. split; [done|]. split; [apply current_live; [done|by rewrite Est]|done].
    + eapply offers_checked_from; [|exact Eos]. by eapply fetchOffers_from.
  - unfold quoted. destruct (Checkout.createOrder _ _ _ _ _ _ _ _ _ _).2; [ends|]. destruct (work_current w p); [|ends]. by apply render_follows.
  - unfold acted. destruct (Checkout.orderAction _ _ _ _ _ _).2; [ends|]. destruct (work_current w p); [|ends]. by apply render_follows.
  - unfold recovered. destruct (Checkout.recoverOrder _ _ _ _).2; [ends|]. destruct (work_current w p); [|ends]. by apply render_follows.
  - unfold audited. destruct (work_current w p); cbn [negb]; [|ends].
    destruct (StorageProof.auditStoredBlob _ _ _ _ _).2 as [err|]; [destruct (StorageProof.auditFailure err)|]; apply audit_next_follows.
Qed.

Lemma action_follows b cx now p : panel_ok p → follows cx p (action b cx now p).
Proof.
  intros Hp. unfold action. destruct (controller p) eqn:Ec; [apply follows_same; [done|by left|done|done|by apply no_calls]|].
  pose proof (idle p Hp Ec) as Hq. cbv zeta.
  set (p' := _ <| disabled := true |>). assert (quiet p') as Hq' by (apply (quiet_same p); [done..|apply Hp]).
  apply (follows_after cx p p'); [done..|]. clearbody p'. destruct (cx_ready cx); [by apply run_action_follows|].
  unfold at_once. apply follows_finish, follows_same; [apply Hq'|by left|done|done|by apply no_calls].
Qed.

Lemma step_follows cx p i : panel_ok p → follows cx p (panel_step cx p i).
Proof.
  intros Hp.
  assert (∀ f, follows cx p (on_fields f p)) as Hf by (intros f; apply follows_same; [done|by left|done|done|by apply no_calls]).
  assert (∀ set, follows cx p (choice_changes set p)) as Hch.
  { intros set. destruct (supersede_same (on_fields set p)) as (Ew & Er & _ & _ & _ & _ & _ & Ec & Eo).
    apply follows_same; [done|left; exact Eo|exact Ew|change (revision p <= revision (supersede (on_fields set p)))%nat; rewrite Er; cbn; lia|].
    exists [CancelsSigning]. split; [|by constructor]. change (calls (supersede (on_fields set p)) ++ [CancelsSigning] = calls p ++ [CancelsSigning]).
    by rewrite Ec. }
  assert (∀ f, follows cx p (cancel (on_fields f p))) as Hca.
  { intros f. destruct (supersede_same (on_fields f p)) as (Ew & Er & _ & _ & _ & _ & _ & Ec & Eo).
    apply follows_same; [done|left; exact Eo|exact Ew|change (revision p <= revision (supersede (on_fields f p)))%nat; rewrite Er; cbn; lia|].
    exists [CancelsSigning]. split; [|by constructor]. change (calls (supersede (on_fields f p)) ++ [CancelsSigning] = calls p ++ [CancelsSigning]).
    by rewrite Ec. }
  assert (follows cx p p) as Hrefl by (apply follows_same; [done|by left|done|done|by apply no_calls]).
  destruct i; cbn [panel_step]; cbv zeta.
  1-3: by case_bool_decide.
  1-4: by auto.
  - unfold discoveryKeys_typed. cbv zeta. destruct (Hf (λ f, f <| discoveryKeys := v |>)). unfold abort_opt. cbn. by destruct (controller p).
  - by destruct on.
  - by destruct on.
  - by destruct on.
  - destruct (disabled p); [done|by apply action_follows].
  - specialize (Hca (λ f, f)). by destruct Hca, p.
  - unfold choose_node. destruct (_ !! _); [by apply selectOrigin_follows|done].
  - unfold choose_service. destruct (_ !! _) as [[[a o] []]|]; try done. case_bool_decide; [done|].
    destruct (StorageDirectory.selectableService _ _) as [[]|]; [| |done].
    + destruct (reset_same (calls_for CancelsSigning p)) as (Ew & Er & _ & _ & _ & _ & Eo & Ec). revert Ew Er Eo Ec.
      generalize (reset (calls_for CancelsSigning p)). intros u Ew Er Eo Ec. apply follows_same; [done|by right|exact Ew|cbn in *; lia|].
      exists [CancelsSigning]. split; [exact Ec|by constructor].
    + by destruct Hrefl.
  - by apply work_settles_follows.
  - destruct (reset_same p) as (Ew & Er & _ & _ & _ & _ & Eo & Ec). apply follows_same; [done|by right|exact Ew|lia|by apply no_calls].
Qed.

(** ** The offers on the screen *)

(** The details that stand under the plans are those of the plan that is chosen
    among the loaded offers, and the plans are theirs. *)
Definition chosen_offer (p : Panel) : option (Checkout.Offers * Checkout.Offer) :=
  os ← offers p; o ← List.find (λ o, eqb (Checkout.of_id o) (plan (fields p))) (Checkout.os_offers os); Some (os, o).
Definition plans_of (os : option Checkout.Offers) : list jstr :=
  match os with Some os => map Checkout.of_id (Checkout.os_offers os) | None => [] end.

Record displays (p : Panel) : Prop := {
  dp_offer : sh_offer (shown p) = chosen_offer p;
  dp_plans : plans (fields p) = plans_of (offers p);
}.

Lemma displays_same p q : offers q = offers p → plan (fields q) = plan (fields p) → plans (fields q) = plans (fields p) →
  sh_offer (shown q) = sh_offer (shown p) → displays p → displays q.
Proof. intros Eo Ep Es Eh [Ho Hp]. split; unfold chosen_offer, plans_of in *; by rewrite ?Eh, ?Eo, ?Ep, ?Es. Qed.

Lemma displays_none p : offers p = None → plans (fields p) = [] → sh_offer (shown p) = None → displays p.
Proof. intros Eo Ep Eh. split; unfold chosen_offer, plans_of; by rewrite Eo. Qed.

Lemma displays_finish v p : displays p → displays (finish v p).
Proof. intros Hd. unfold finish. destruct (Nat.eqb _ _); [by destruct Hd|done]. Qed.
Lemma displays_set_work n st p : displays p → displays (set_work n st p).
Proof. by intros []. Qed.
Lemma displays_end n w p : displays p → displays (end_work n w p).
Proof. intros. by apply displays_finish, displays_set_work. Qed.
Lemma displays_awaits cx o st p : displays p → displays (awaits cx o st p).
Proof. intros Hd. unfold awaits. destruct (controller p); [by destruct Hd|done]. Qed.
Lemma displays_render now p : displays p → displays (render_order now p).
Proof.
  intros Hd. apply (displays_same p); [..|done]; unfold render_order, save_link, download; cbv zeta; repeat case_match; done.
Qed.
Lemma displays_supersede p : displays p → displays (supersede p).
Proof. intros Hd. apply (displays_same p); [..|done]; unfold supersede, abort_opt; by destruct (controller p). Qed.
Lemma displays_reset p : displays (reset p).
Proof. apply displays_none; [apply reset_same|done..]. Qed.
Lemma displays_select origin p : displays (selectOrigin origin p).
Proof. apply displays_reset. Qed.

Ltac displaying :=
  unfold at_once;
  repeat lazymatch goal with
    | |- displays (finish _ _) => apply displays_finish
    | |- displays (awaits _ _ _ _) => apply displays_awaits
    | |- displays (end_work _ _ _) => apply displays_end
    | |- displays (set_work _ _ _) => apply displays_set_work
    | |- displays (render_order _ _) => apply displays_render
    | |- displays (selectOrigin _ _) => apply displays_select
    end;
  first [ assumption
    | match goal with Hd : displays ?p |- _ => apply (displays_same p); [reflexivity..|exact Hd] end
    | apply displays_none; reflexivity ].

Lemma run_action_displays b cx now p : displays p → displays (run_action b cx now p).
Proof.
  intros Hd. destruct b; cbn [run_action].
  - unfold discover_nodes. cbv zeta. case_match; displaying.
  - unfold discover_services. cbv zeta. case_match; displaying.
  - unfold inspect_service. destruct (selectedService p) as [[]|]; cbv zeta; displaying.
  - unfold use_service. destruct (selectedService p) as [[a o]|]; [|displaying]. destruct (checkedService p); [|displaying].
    destruct (_ || _); [displaying|]. cbv zeta. apply displays_finish.
    pose proof (displays_select o p) as Hs. revert Hs. generalize (selectOrigin o p). clear Hd. intros t Hs. displaying.
  - unfold publish_list. destruct (negb _); [displaying|]. destruct (cx_buyer cx); [|displaying]. destruct (Discovery.buildServerList _ _ _); displaying.
  - unfold checkout_offers. destruct (_ && _); cbv zeta; displaying.
  - unfold checkout_quote. destruct (offers p); [|displaying]. cbv zeta. destruct (_ && _); [displaying|]. destruct (_ && _); [displaying|].
    destruct (method _); [|displaying]. destruct (cx_buyer cx); displaying.
  - unfold checkout_pay, act_on_order. cbv zeta. repeat case_match; displaying.
  - unfold checkout_check, act_on_order. repeat case_match; displaying.
  - unfold checkout_recover. destruct (Checkout.parseOrderReference _ _); [|displaying]. destruct (cx_buyer cx); displaying.
  - unfold storage_audit. destruct (negb _); [displaying|]. destruct (cx_buyer cx); [|displaying].
    destruct (audit_jobs cx) as [[|job jobs]|]; cbv zeta; displaying.
Qed.

Lemma show_offers_displays os p : displays (show_offers os p).
Proof. by split. Qed.

Lemma work_settles_displays n e cx p : displays p → displays (work_settles n e cx p).
Proof.
  intros Hd. unfold work_settles. destruct (works p !! n) as [w|]; [|done].
  destruct (wk_stage w) as [relays keys|relays|a o|template owner| |o|rq|o a b m|ref b|job rest b proofs failures|]; destruct e; try done.
  - unfold nodes_found. destruct (Discovery.discoverNodes _ _ _ _ _ _ _ _) as [[nodes|]|]; [destruct (work_current w p)|..]; displaying.
  - unfold services_found. destruct (StorageDirectory.discover _ _ _ _ _ _ _ _ _) as [marks r]. cbv zeta.
    destruct r as [[results|]|]; [destruct (work_current _ _)|..]; displaying.
  - unfold described. destruct (StorageDirectory.fetchServiceDescription _ _ _ _).2; [|destruct (work_current w p)]; displaying.
  - unfold list_signed. destruct (Nostr.signEventExactly _ _ _); [|displaying]. destruct (cx_relays cx); [|displaying].
    destruct (work_current w p); [|displaying]. displaying.
  - displaying.
  - unfold offers_loaded. destruct (Checkout.fetchOffers _ _ _).2; [displaying|]. destruct (work_current w p); [|displaying].
    destruct (offers_checked _ _ _); [|displaying]. apply displays_end, show_offers_displays.
  - unfold quoted. destruct (Checkout.createOrder _ _ _ _ _ _ _ _ _ _).2; [displaying|]. destruct (work_current w p); displaying.
  - unfold acted. destruct (Checkout.orderAction _ _ _ _ _ _).2; [displaying|]. destruct (work_current w p); displaying.
  - unfold recovered. destruct (Checkout.recoverOrder _ _ _ _).2; [displaying|]. destruct (work_current w p); displaying.
  - unfold audited. destruct (work_current w p); cbn [negb]; [|displaying].
    destruct (StorageProof.auditStoredBlob _ _ _ _ _).2 as [err|]; [destruct (StorageProof.auditFailure err)|]; destruct rest; cbn [audit_next]; displaying.
Qed.

Lemma choice_displays set p : plans (set (fields p)) = plans (fields p) → displays p → displays (choice_changes set p).
Proof.
  intros Es [_ Hp]. unfold choice_changes. cbv zeta. destruct (supersede_same (on_fields set p)) as (_ & _ & _ & _ & Ef & _ & _ & _ & Eo).
  revert Ef Eo. generalize (supersede (on_fields set p)). intros t Ef Eo. split; [done|]. cbn. rewrite Ef, Eo. cbn. by rewrite Es.
Qed.
Lemma cancel_displays p : displays p → displays (cancel p).
Proof. intros Hd%displays_supersede. unfold cancel. displaying. Qed.

Lemma step_displays cx p i : displays p → displays (panel_step cx p i).
Proof.
  intros Hd. destruct i; cbn [panel_step]; cbv zeta.
  1-3: case_bool_decide; [by apply choice_displays|done].
  1-2: by apply choice_displays.
  1-2: displaying.
  - unfold discoveryKeys_typed, abort_opt. cbv zeta. destruct (controller _); displaying.
  - destruct on; [|apply cancel_displays]; displaying.
  - destruct on; [|apply cancel_displays]; displaying.
  - destruct on; [|apply cancel_displays]; displaying.
  - destruct (disabled p); [done|]. unfold action. destruct (controller p); [done|]. cbv zeta.
    destruct (cx_ready cx); [apply run_action_displays|]; displaying.
  - by apply cancel_displays.
  - unfold choose_node. destruct (_ !! _); [apply displays_select|done].
  - unfold choose_service. destruct (_ !! _) as [[[a o] []]|]; try done. case_bool_decide; [done|].
    destruct (StorageDirectory.selectableService _ _) as [[]|]; [|displaying|done].
    pose proof (displays_reset (calls_for CancelsSigning p)) as Hr. revert Hr. generalize (reset (calls_for CancelsSigning p)). clear Hd. intros t Hr. displaying.
  - by apply work_settles_displays.
  - apply displays_reset.
Qed.

(** ** The page and its panel *)

Definition sells (s : Page) (p : Panel) : Prop :=
  panel_ok p ∧ (∀ os, offers p = Some os → offers_from (blossomInput (form s)) (profile s) os) ∧
  ∀ origin prof, loads p origin prof → origin = blossomInput (form s) ∧ prof = profile s.

Lemma sells_quiet s p : quiet p → offers p = None → sells s p.
Proof.
  intros [Hp Hn] Eo. split; [done|]. split; [congruence|]. intros origin prof (n & w & Hw & Hl & _). by destruct (Hn n w Hw).
Qed.

Lemma sells_same s s' p : blossomInput (form s') = blossomInput (form s) → tor_chosen (form s') = tor_chosen (form s) → sells s p → sells s' p.
Proof. unfold sells, profile. by intros -> ->. Qed.

Lemma resets_quiet k p : panel_ok p → quiet (Nat.iter (S k) reset p) ∧ offers (Nat.iter (S k) reset p) = None ∧
  ops (Nat.iter (S k) reset p) = ops p.
Proof.
  intros Hp. induction k as [|k (IH & _ & Eo)].
  - destruct (reset_same p) as (_ & _ & _ & _ & _ & ? & ? & _). split; [by apply reset_quiet|by split].
  - destruct (reset_same (Nat.iter (S k) reset p)) as (_ & _ & _ & _ & _ & Eo' & ? & _).
    split; [by apply reset_quiet, IH|]. split; [done|]. cbn [Nat.iter] in *. by rewrite <- Eo.
Qed.

Lemma page_sells s p i : i ≠ PageShow true → sells s p → sells (main_step s i) (Nat.iter (resets_between s (main_step s i)) reset p).
Proof.
  intros Hi Hs.
  assert (stays (blossomInput (form s)) (tor_chosen (form s)) (publicationRevision (pub s)) (main_step s i)) as Hst.
  { apply step_stays; [done|]. left. auto. }
  destruct (resets_between s (main_step s i)) as [|k] eqn:Ek.
  - destruct Hst as [(Eb & Et & _)|Hb]; [by apply (sells_same s)|]. exfalso. unfold beyond in Hb. unfold resets_between in Ek. lia.
  - destruct (resets_quiet k p) as (Hq & Eo & _); [apply Hs|]. by apply sells_quiet.
Qed.

(** An origin the panel selects resets the panel twice, as its own
    [selectOrigin] does. *)
Section Revisions.
Context (x : nat * nat).

Definition at_revisions (s : Page) : Prop := (publicationRevision (pub s), resolutionRevision (ret s)) = x.
#[local] Hint Constants Opaque : typeclass_instances.

#[local] Instance abandonExternalSigning_revisions : Keeps at_revisions abandonExternalSigning.
Proof. by intros s. Qed.
#[local] Instance abort_opt_revisions c : Keeps at_revisions (MainState.abort_opt c).
Proof. intros s Hs. destruct c; [|done]. cbn. unfold MainState.abort. by destruct (MainState.is_aborted s n). Qed.
#[local] Instance stopPeerSession_revisions session kind run : Keeps at_revisions (stopPeerSession session kind run).
Proof. intros s Hs. unfold stopPeerSession, refreshPeerStartButton, pending. destruct kind; exact Hs. Qed.
#[local] Instance confirmPeerStoppedInBackground_revisions session kind : Keeps at_revisions (confirmPeerStoppedInBackground session kind).
Proof. apply stopPeerSession_revisions. Qed.

Lemma publication_revisions s : (S (publicationRevision (pub s)), resolutionRevision (ret s)) = x → at_revisions (resetPublicationAfterInspection s).
Proof.
  intros Hr. cbv beta delta [resetPublicationAfterInspection].
  lazymatch goal with |- at_revisions (let s := ?a in @?k s) => refine (keep_let at_revisions a k Hr _) end.
  intros s' Hs'. cbv beta. clear Hr. keep at_revisions.
Qed.

Lemma resolution_revisions s : (publicationRevision (pub s), S (resolutionRevision (ret s))) = x → at_revisions (resetResolution s).
Proof.
  intros Hr. cbv beta delta [resetResolution]. cbv zeta.
  set (u := if is_some (resolvedPool (ret s)) && _ then _ else s).
  assert (at_revisions (on_ret (λ r, r <| resolutionRevision := S (resolutionRevision r) |>) u)) as Hu by (unfold u; by destruct (_ && _)).
  revert Hu. generalize (on_ret (λ r, r <| resolutionRevision := S (resolutionRevision r) |>) u). clear. intros s Hs. keep at_revisions.
Qed.
End Revisions.

Lemma endpoint_revisions i v s : at_revisions (S (publicationRevision (pub s)), S (resolutionRevision (ret s))) (endpoint_changes i v s).
Proof.
  apply resolution_revisions.
  pose proof (publication_revisions (S (publicationRevision (pub s)), resolutionRevision (ret s)) (on_form (set_endpoint i v) s) eq_refl) as Hr.
  revert Hr. generalize (resetPublicationAfterInspection (on_form (set_endpoint i v) s)). unfold at_revisions. clear. intros u [= -> ->]. done.
Qed.

Lemma revisions_between s s' : at_revisions (S (publicationRevision (pub s)), S (resolutionRevision (ret s))) s' → resets_between s s' = 2%nat.
Proof. unfold at_revisions, resets_between. intros [= -> ->]. lia. Qed.

Lemma select_resets s origin : resets_between s (main_step s (SelectOrigin origin)) = 2%nat.
Proof. apply revisions_between, endpoint_revisions. Qed.

(** A signature that is cancelled leaves the field and the profile alone. *)
Lemma answers_same l s : Forall (eq CancelsSigning) l →
  blossomInput (form (foldl answer_call s l)) = blossomInput (form s) ∧ tor_chosen (form (foldl answer_call s l)) = tor_chosen (form s).
Proof.
  intros Hl. revert s. induction Hl as [|x l <- Hl IH]; intros s; [done|]. cbn [foldl]. destruct (IH (answer_call s CancelsSigning)) as [-> ->]. done.
Qed.

Lemma panel_sells nostr s p i : sells s p →
  let p' := panel_step (context_of nostr s) p i in sells (foldl answer_call s (drop (length (calls p)) (calls p'))) p'.
Proof.
  intros (Hp & Ho & Hl) p'. pose proof (step_ok (context_of nostr s) p i Hp) as Hp'. destruct (step_follows (context_of nostr s) p i Hp) as [Fo Fl (l & Ec & Hc)].
  fold p' in Hp', Fo, Fl, Ec, Hc. rewrite Ec, drop_app_length. clearbody p'. destruct Hc as [Hc|[Eo Hn]].
  - destruct (answers_same l s Hc) as [Eb Et]. apply (sells_same s); [done..|]. split; [done|]. split.
    + intros os Hos. destruct (Fo os Hos) as [|(origin & prof & Hld & Hf)]; [by apply Ho|]. by destruct (Hl origin prof Hld) as [-> ->].
    + intros origin prof Hld. destruct (Fl origin prof Hld) as [|[-> ->]]; [by apply Hl|done].
  - split; [done|]. split; [congruence|]. intros origin prof Hld. by destruct (Hn origin prof Hld).
Qed.

Lemma both_sells sp i : sells sp.1 sp.2 → sells (both_step sp i).1 (both_step sp i).2.
Proof.
  destruct sp as [s p]. cbn [fst snd]. intros Hs. destruct i as [i|nostr i]; [|by apply panel_sells].
  assert (i = PageShow true ∨ i ≠ PageShow true) as [->|Hi] by (destruct i as [| | | | | | |[]]; auto).
  - apply sells_quiet; [|done]. split; [apply first_panel_ok|by intros].
  - assert (both_step (s, p) (OnPage i) = (main_step s i, Nat.iter (resets_between s (main_step s i)) reset p)) as -> by by destruct i as [| | | | | | |[]].
    by apply page_sells.
Qed.

Lemma run_sells inputs : sells (both_run inputs).1 (both_run inputs).2.
Proof.
  unfold both_run. induction inputs as [|i inputs IH] using rev_ind.
  - apply sells_quiet; [|done]. split; [apply first_panel_ok|by intros].
  - rewrite foldl_app. by apply both_sells.
Qed.

Lemma run_displays inputs : displays (both_run inputs).2.
Proof.
  unfold both_run. induction inputs as [|i inputs IH] using rev_ind; [by split|]. rewrite foldl_app. cbn [foldl].
  destruct (foldl both_step (first_page, first_panel) inputs) as [s p]. cbn [snd] in IH.
  destruct i as [i|nostr i]; [|by apply step_displays].
  assert (∀ k, displays (Nat.iter k reset p)) as Hk by (intros [|k]; [done|apply displays_reset]).
  destruct i as [| | | | | | |[]]; first [apply Hk|by split].
Qed.

(** ** What the panel was through

    On its page, a panel runs as it does on its own: its context is the page's, and
    the page's resets are inputs among the others. A reload begins anew. *)

Definition trace_of (s : Page) (i : both_input) (t : list (Context * panel_input)) : list (Context * panel_input) :=
  match i with
  | OnPage (PageShow true) => []
  | OnPage i => t ++ replicate (resets_between s (main_step s i)) (context_of false s, PageResets)
  | OnPanel nostr i => t ++ [(context_of nostr s, i)]
  end.

Definition traced_step (x : (Page * Panel) * list (Context * panel_input)) (i : both_input) : (Page * Panel) * list (Context * panel_input) :=
  (both_step x.1 i, trace_of x.1.1 i x.2).
Definition panel_trace (inputs : list both_input) : list (Context * panel_input) :=
  (foldl traced_step ((first_page, first_panel), []) inputs).2.

Lemma panel_resets k cx p : foldl (λ p x, panel_step x.1 p x.2) p (replicate k (cx, PageResets)) = Nat.iter k reset p.
Proof.
  revert p. induction k as [|k IH]; intros p; [done|]. cbn [replicate foldl fst snd panel_step]. rewrite IH. symmetry. apply Nat.iter_succ_r.
Qed.

Lemma panel_traced inputs : (both_run inputs).2 = panel_run (panel_trace inputs).
Proof.
  unfold panel_trace, both_run.
  assert ((foldl traced_step ((first_page, first_panel), []) inputs).1 = foldl both_step (first_page, first_panel) inputs ∧
          (foldl both_step (first_page, first_panel) inputs).2 = panel_run (foldl traced_step ((first_page, first_panel), []) inputs).2) as [_ He]; [|exact He].
  induction inputs as [|i inputs [IH1 IH2]] using rev_ind; [done|]. rewrite !foldl_app. cbn [foldl]. unfold traced_step at 1 3. cbn [fst snd].
  rewrite IH1. split; [done|]. destruct (foldl both_step _ inputs) as [s p]. cbn [fst snd] in *. subst p.
  set (t := (foldl traced_step _ inputs).2). destruct i as [i|nostr i]; [|cbn [both_step trace_of snd]; by rewrite panel_run_snoc].
  assert (∀ k, Nat.iter k reset (panel_run t) = panel_run (t ++ replicate k (context_of false s, PageResets))) as Hk.
  { intros k. rewrite <- (panel_resets k (context_of false s)). unfold panel_run. by rewrite foldl_app. }
  destruct i as [| | | | | | |[]]; first [exact (Hk _)|done].
Qed.

(** For whom, and from which server, an operation is started on this page. *)
Definition of_page (s : Page) (o : service_op) : Prop :=
  match o with
  | AsksOffers origin => origin = blossomInput (form s)
  | AsksQuote rq =>
      offers_from (blossomInput (form s)) (profile s) (qr_offers rq) ∧ pubkey s = Some (qr_buyer rq) ∧ pageSessionEnded s = false
  | Acts _ _ buyer _ | Recovers _ buyer | SignsServerList _ buyer => pubkey s = Some buyer ∧ pageSessionEnded s = false
  | _ => True
  end.

Lemma buyer_of nostr s b : cx_buyer (context_of nostr s) = Some b → pubkey s = Some b ∧ pageSessionEnded s = false.
Proof. cbn. by destruct (pageSessionEnded s), (signer_there nostr s). Qed.

Lemma drop_same {A} (l l' : list A) : l' = l → drop (length l) l' = [].
Proof. intros ->. by apply drop_ge. Qed.

End Facts.
